(* ===== verification/_CoqProject ===== *)
-Q . S2P
Prelude.v
Cbor.v
CborFacts.v
CborSkip.v
Types.v
AddressFacts.v
TypesCodec.v
BTree.v
ProtocolParams.v
MiniProtocol.v
NodeToNode.v
NodeToClient.v
ChainState.v
Consensus.v
NativeScript.v
Fees.v
FeeTiers.v
WideArith.v
Mempool.v
Storage.v
ChainDb.v
PlutusData.v
Uplc.v
CostModel.v
GenesisCosts.v
Builtins.v
BuiltinFacts.v
Cek.v
CekSafety.v
CekSemantics.v
CekBudget.v
Flat.v
FlatFacts.v
FlatCodec.v
ScriptContext.v
PlutusEval.v
Utxo.v
UtxoBalance.v
Staking.v
Rewards.v
RewardsFacts.v
Governance.v
GovernanceFacts.v
LedgerState.v
EpochBoundary.v
EpochFacts.v
EpochShares.v
EpochConservation.v
Certificates.v
CertificateFacts.v
TxOutCodec.v
Phase1.v
SumKes.v
Headers.v
HeaderFacts.v
Leader.v
LeaderFacts.v
Forge.v
ForgeFacts.v
ConnectionManager.v
ConnectionFacts.v
TxState.v
TxStateFacts.v
WitnessSet.v
Witnesses.v
ScriptRules.v
GovRules.v
GovFacts.v
SubmitTx.v
SubmitFacts.v
SubmitBalance.v
