(* ===== verification/Prelude.v ===== *)
(** * Yggdrasil Cardano node: a verification development

    Yggdrasil is a Cardano node in Rust ([crates/]). This library models the
    parts of it that decide what the node believes, and proves what makes them
    correct. Every definition is a translation of source code: pure functions
    become functions, [Result] becomes [outcome] (a value, an error, a panic, or
    fuel that ran out), a method on [&mut self] returns the new value next to
    its result, and machine integers are [Z] with their wrap-around, saturation
    and casts written out.

    ** How the program is put together

    Bytes arrive from peers through mini-protocols over managed connections
    (network crate). They are decoded by a hand-written CBOR decoder (ledger
    crate) into blocks, points, certificates and transactions. Headers are
    checked for their certificates, signatures and leadership (crypto, consensus
    and sync crates) and drive the volatile chain window, fork choice and the
    epoch nonce; blocks are kept in a volatile store until they are [k] deep and
    are then promoted to the immutable store (storage crate). Transactions from
    clients and peers pass the rules of the ledger (balance, fees, collateral,
    certificates, witnesses, scripts, governance), which run Plutus scripts on a
    CEK machine (plutus crate), and wait in a fee-ordered mempool; the block
    producer puts them into blocks. At the end of an epoch the ledger computes
    rewards, takes snapshots and enacts what was ratified.

    ** Files: codecs and data

    - [Prelude.v]: outcomes of Rust code, bounded loops, machine integers,
      big-endian bytes, sorting and searching lists, record updates, tactics.
    - [Cbor.v], [CborFacts.v]: [Encoder] and [Decoder] of
      [ledger/src/cbor.rs]; the composable predicate [decodes] from which every
      round trip is built.
    - [CborSkip.v]: [Decoder::skip], [raw_value] and
      [extract_block_tx_byte_spans] against a grammar of CBOR items.
    - [Types.v], [AddressFacts.v], [TypesCodec.v]: the data of
      [ledger/src/types.rs] with addresses, variable-length naturals and Byron
      envelopes, and their codecs; classes [CborCodec] (operations) and
      [CborRoundTrip] (law).
    - [BTree.v]: [BTreeMap] as sorted association lists (class [OrdKey]).
    - [ProtocolParams.v]: [ledger/src/protocol_params.rs].

    ** Files: network

    - [MiniProtocol.v]: the interface all mini-protocols share, as classes
      [MiniProtocol] and [MiniProtocolLaws], and the driver ([send_msg],
      [recv_msg]) proved against it.
    - [NodeToNode.v]: modules [ChainSync], [BlockFetch], [KeepAlive] (with its
      client and server drivers), [TxSubmission], [PeerSharing];
      [NodeToClient.v]: modules [LocalTxSubmission] and [LocalTxMonitor].
    - [ConnectionManager.v], [ConnectionFacts.v]: [network/src/connection.rs]
      and [connection_manager.rs], every state and operation, with timeouts.
    - [TxState.v], [TxStateFacts.v]: the record of transactions being fetched
      that all peers share, and one round of the transaction-submission server.

    ** Files: chain and storage

    - [ChainState.v]: [consensus/src/chain_state.rs] and its client
      [track_chain_state_entries] of [node/sync/src/lib.rs].
    - [Consensus.v]: modules [ChainSelection], [Epoch] and [NonceEvolution].
    - [SumKes.v]: key-evolving signatures of [crypto/src].
    - [Headers.v], [HeaderFacts.v]: header codecs, operational certificates and
      their counters, and the checks on a received block.
    - [Leader.v], [LeaderFacts.v]: the leader threshold, VRF proofs, leadership
      by stake and by the overlay schedule.
    - [Forge.v], [ForgeFacts.v]: block production, against the checks above.
    - [Storage.v]: the store traits of [storage/src] as classes, what a
      coordinator may rely on as classes of laws, and the in-memory stores that
      meet them; [ChainDb.v]: the coordinator of [storage/src/chain_db.rs],
      generic over the stores and proved against the laws.
    - [Mempool.v]: [consensus/src/mempool/queue.rs] and [queue/inner.rs].

    ** Files: ledger

    - [NativeScript.v], [Fees.v], [FeeTiers.v]: native scripts; linear, script
      and reference-script fees.
    - [Utxo.v], [UtxoBalance.v], [TxOutCodec.v]: the UTxO set and the balance of
      a transaction of each era, what it conserves, and the stored form.
    - [Phase1.v]: sizes, minimum outputs and collateral.
    - [Staking.v], [Certificates.v], [CertificateFacts.v]: registries, pots and
      stake snapshots; certificates and withdrawals.
    - [WideArith.v], [Rewards.v], [RewardsFacts.v]: rewards and their 256 and
      512 bit arithmetic.
    - [Governance.v], [GovernanceFacts.v]: votes, ratification and enactment.
    - [LedgerState.v], [EpochBoundary.v], [EpochFacts.v], [EpochShares.v],
      [EpochConservation.v]: the epoch boundary.
    - [WitnessSet.v], [Witnesses.v], [ScriptRules.v]: the witness set and its
      codec, the keys and scripts a transaction needs, and the ledger side of
      script execution (integrity hash, datums, redeemers, runs).
    - [GovRules.v], [GovFacts.v]: admission of proposals and votes.
    - [SubmitTx.v], [SubmitFacts.v], [SubmitBalance.v]: [apply_submitted_tx] for
      Conway, which puts all of these together, who has to authorise it, and
      what it does to the books.

    ** Files: Plutus

    - [PlutusData.v], [Uplc.v]: data with its iterative codec; terms, values.
    - [CostModel.v], [GenesisCosts.v], [Builtins.v], [BuiltinFacts.v]: costing
      functions and builtins.
    - [Cek.v], [CekSafety.v], [CekSemantics.v], [CekBudget.v]: the machine, its
      safety, and its agreement with a big-step semantics.
    - [Flat.v], [FlatFacts.v], [FlatCodec.v]: the decoder of scripts.
    - [ScriptContext.v], [PlutusEval.v]: script contexts and the evaluator the
      node hands to the ledger.

    ** What the theorems show

    - Untrusted bytes: skipping and span extraction terminate on every input and
      return the original bytes; blocks' parts, certificates, addresses,
      headers, outputs, witness sets, parameters, Plutus data, scripts and
      protocol messages are read back from their encodings; script decoding
      ends on every input.
    - Protocols: legal conversations keep requests and replies paired and obey
      agency; the connection manager keeps its invariant and follows its
      diagram (up to two named edges); the shared fetch record accounts for
      every byte in flight and does not ask again for what it remembers.
    - Headers: an accepted header is certified by its issuer and signed for its
      period over the bytes on the wire; certificate numbers advance in step;
      sum-composition keys sign in each period; leadership is decided by stake,
      with the exact threshold the code computes.
    - Chain and storage: synchronisation never rewrites promoted blocks; fork
      choice yields a maximal candidate; late blocks do not bias the nonce;
      promotion can be interrupted anywhere; recovery rebuilds the ledger state.
    - Ledger: transactions, certificates and epoch boundaries conserve lovelace
      and assets and keep the registries consistent; rewards are the rational
      formula; a yes vote never unratifies; a failed script pays collateral;
      accepted submissions are signed by, or run the scripts of, whoever owns
      what they move.
    - Plutus: the machine implements the big-step semantics with its exact
      budget, closed terms are safe, and the verdict of the node is that of the
      semantics.
    - Limits of the code, proved as they are, by theorems named [..._gaps],
      [boundary_overspends], [forged_block_refused],
      [leader_check_admits_losers] and parts of others: wrapping and saturating
      sums, lost bits in long division, a collateral requirement and a fee that
      overflow, a leader threshold that is a tangent, and a header signature
      over bytes nobody checks. Where a theorem needs amounts in range, the
      condition is in its statement and these show why.

    ** Bounds

    Loops and recursion that are not structural take fuel and return [OutOfFuel]
    when it runs out. Decoder loops get one turn per input byte and one more
    ([dec_fuel]), as each turn consumes a byte; [skip] and metadata use the same
    bound for their nesting; the native-script decoder [3 * (bytes + 1)]
    ([script_fuel]), the Plutus-data decoder [3 * bytes + 1] ([decode_fuel]) and
    the Flat decoder [16 * (bytes + 1) + 2] ([flat_fuel]), as a turn consumes a
    bit or closes a node; the iterative encoders and evaluators one or two turns
    per node. The gcd of fees gets 257 turns, as the product of its 128-bit
    operands halves; the tiers of a fee one turn per tier and one more; long
    division one turn per bit; key evolution one turn per period; the eviction
    loop of the fetch record one turn per identifier and two more; a mempool
    pass and checkpoint recovery one turn per entry and one more; descents along
    governance actions one turn per stored action and one more. The CEK machine
    takes its fuel as an argument: the code stops it after [max_steps] computing
    steps, and the theorems give for each run an amount of fuel that is enough.
    The theorems show results, not only partial correctness, so these bounds are
    enough. The native stack of recursive Rust functions is not bounded here.

    ** Parameters

    Third-party cryptography is given by classes: [Blake2b256], [Blake2b224],
    [Ed25519] and [Vrf] (with classes of laws where a theorem needs them) and
    [PlutusCrypto] (hashes, signatures and BLS12-381 of the builtins). The
    conversion of slots to time, [LedgerState::apply_block] as seen by storage,
    the checkpoint codec, the revalidation callback of the mempool, what a block
    holds beside its header and the evaluator trait of the ledger are arguments
    or section variables, quantified in the theorems.

    ** Not modelled

    Asynchronous transport, sockets, timers, files, JSON configuration, tracing
    and command-line tools are I/O. The handshake and the multiplexer, the
    governors and the remaining drivers run as asynchronous tasks around the
    modelled state machines. Of block application, the transactions of blocks
    and of the eras before Conway are modelled rule by rule, but not the loop
    that applies a block. *)

From stdpp Require Export prelude list gmap strings sorting.
From Stdlib Require Export ZArith Lia.

Local Open Scope Z_scope.

(** ** Outcomes of Rust code

    [Ok] and [Err] are the two arms of [Result]; [Panic] is a Rust panic
    (out-of-range slice, failed [expect], division by zero), which the
    release profile turns into an abort; [OutOfFuel] is not a behaviour of
    the program: it marks a bounded loop of the model that was given too
    little fuel, and every model that can return it comes with a theorem
    that it does not. *)
Inductive outcome (E A : Type) : Type :=
  | Ok (a : A)
  | Err (e : E)
  | Panic
  | OutOfFuel.
Arguments Ok {E A} a.
Arguments Err {E A} e.
Arguments Panic {E A}.
Arguments OutOfFuel {E A}.

(** The [?] operator: continue with the value, or return the failure. *)
Definition obind {E A B} (m : outcome E A) (k : A -> outcome E B) : outcome E B :=
  match m with
  | Ok a => k a
  | Err e => Err e
  | Panic => Panic
  | OutOfFuel => OutOfFuel
  end.

(** [Result::map_err]. *)
Definition map_err {E F A} (f : E -> F) (m : outcome E A) : outcome F A :=
  match m with
  | Ok a => Ok a
  | Err e => Err (f e)
  | Panic => Panic
  | OutOfFuel => OutOfFuel
  end.

(** [Result::is_ok], for outcomes that neither panic nor lack fuel. *)
Definition is_ok {E A} (m : outcome E A) : bool :=
  match m with Ok _ => true | _ => false end.

(** [Option::ok_or]. *)
Definition ok_or {E A} (o : option A) (e : E) : outcome E A :=
  match o with Some a => Ok a | None => Err e end.

Declare Scope outcome_scope.
Delimit Scope outcome_scope with outcome.
Notation "'let?' x ':=' m 'in' k" := (obind m (fun x => k))
  (at level 10, x pattern, m at level 100, k at level 200,
   format "'[v' 'let?'  x  ':='  m  'in' '/' k ']'") : outcome_scope.
Open Scope outcome_scope.

Lemma obind_assoc {E A B C} (m : outcome E A) (f : A -> outcome E B)
    (g : B -> outcome E C) :
  obind (obind m f) g = obind m (fun a => obind (f a) g).
Proof. by destruct m. Qed.

Lemma obind_Ok_inv {E A B} (m : outcome E A) (k : A -> outcome E B) b :
  obind m k = Ok b -> exists a, m = Ok a /\ k a = Ok b.
Proof. destruct m; naive_solver. Qed.

Lemma obind_ext {E A B} (m : outcome E A) (k k' : A -> outcome E B) :
  (forall a, m = Ok a -> k a = k' a) -> obind m k = obind m k'.
Proof. intros H. destruct m; simpl; auto. Qed.

(** ** Counted and bounded loops *)

(** [for _ in 0..n { body }], with the early return of [?]. The recursion is
    on the binary count, so an attacker-chosen count near [2^64] is evaluated
    only as far as the body succeeds. *)
Fixpoint pos_iterM {E St} (p : positive) (f : St -> outcome E St) (s : St) : outcome E St :=
  match p with
  | xH => f s
  | xO p => obind (pos_iterM p f s) (pos_iterM p f)
  | xI p => obind (f s) (fun s1 => obind (pos_iterM p f s1) (pos_iterM p f))
  end.

Definition for_count {E St} (n : Z) (f : St -> outcome E St) (s : St) : outcome E St :=
  match n with
  | Zpos p => pos_iterM p f s
  | _ => Ok s
  end.

(** The same loop on a unary count, for induction. *)
Fixpoint nat_iterM {E St} (n : nat) (f : St -> outcome E St) (s : St) : outcome E St :=
  match n with
  | O => Ok s
  | S n => obind (f s) (nat_iterM n f)
  end.

Lemma nat_iterM_add {E St} n m (f : St -> outcome E St) s :
  nat_iterM (n + m) f s = obind (nat_iterM n f s) (nat_iterM m f).
Proof.
  revert s. induction n as [|n IH]; intros s; simpl; [done|].
  rewrite obind_assoc. apply obind_ext. auto.
Qed.

Lemma pos_iterM_nat {E St} p (f : St -> outcome E St) s :
  pos_iterM p f s = nat_iterM (Pos.to_nat p) f s.
Proof.
  revert s. induction p as [p IH|p IH|]; intros s; cbn [pos_iterM].
  - rewrite Pos2Nat.inj_xI. simpl. apply obind_ext. intros s1 _.
    rewrite Nat.add_0_r, nat_iterM_add, IH. apply obind_ext. auto.
  - rewrite Pos2Nat.inj_xO. simpl. rewrite Nat.add_0_r, nat_iterM_add, IH.
    apply obind_ext. auto.
  - change (Pos.to_nat 1) with 1%nat. simpl. by destruct (f s).
Qed.

Lemma for_count_nat {E St} (n : nat) (f : St -> outcome E St) s :
  for_count (Z.of_nat n) f s = nat_iterM n f s.
Proof.
  destruct n as [|n]; [done|].
  change (for_count (Z.of_nat (S n)) f s) with (pos_iterM (Pos.of_succ_nat n) f s).
  by rewrite pos_iterM_nat, SuccNat2Pos.id_succ.
Qed.

Lemma for_count_Z {E St} n (f : St -> outcome E St) s :
  0 <= n -> for_count n f s = nat_iterM (Z.to_nat n) f s.
Proof. intros. by rewrite <- for_count_nat, Z2Nat.id. Qed.

(** [loop { body }]: the body either goes round again or breaks with a
    result. *)
Fixpoint loopM {E St R} (fuel : nat) (body : St -> outcome E (St + R)) (s : St)
    : outcome E R :=
  match fuel with
  | O => OutOfFuel
  | S fuel =>
      obind (body s) (fun r =>
        match r with
        | inl s => loopM fuel body s
        | inr r => Ok r
        end)
  end.

(** ** Postconditions

    [post Q m]: [m] does not run out of fuel, and if it succeeds its value
    satisfies [Q]. *)
Definition post {E A} (Q : A -> Prop) (m : outcome E A) : Prop :=
  match m with
  | Ok a => Q a
  | OutOfFuel => False
  | Err _ | Panic => True
  end.

Lemma post_bind {E A B} (P : A -> Prop) (Q : B -> Prop) (m : outcome E A) k :
  post P m -> (forall a, P a -> post Q (k a)) -> post Q (obind m k).
Proof. destruct m; simpl; auto. Qed.

Lemma post_mono {E A} (P Q : A -> Prop) (m : outcome E A) :
  post P m -> (forall a, P a -> Q a) -> post Q m.
Proof. destruct m; simpl; auto. Qed.

Lemma post_nat_iterM {E St} (I : St -> Prop) n (f : St -> outcome E St) s :
  (forall s, I s -> post I (f s)) -> I s -> post I (nat_iterM n f s).
Proof.
  intros Hf. revert s. induction n as [|n IH]; intros s Hs; simpl; [done|].
  eapply post_bind; [by apply Hf | done].
Qed.

Lemma post_for_count {E St} (I : St -> Prop) n (f : St -> outcome E St) s :
  (forall s, I s -> post I (f s)) -> I s -> post I (for_count n f s).
Proof.
  intros. destruct n; [done| |done]. simpl. rewrite pos_iterM_nat.
  by apply post_nat_iterM.
Qed.

Lemma post_loopM {E St R} (I : St -> Prop) (Q : R -> Prop) (mu : St -> nat)
    fuel (body : St -> outcome E (St + R)) s :
  (forall s, I s ->
     post (fun r => match r with inl s' => I s' /\ (mu s' < mu s)%nat | inr r => Q r end)
       (body s)) ->
  I s -> (mu s < fuel)%nat -> post Q (loopM fuel body s).
Proof.
  intros Hb. revert s. induction fuel as [|fuel IH]; intros s Hs Hf; [lia|].
  simpl. eapply post_bind; [by apply Hb|]. intros [s'|r]; simpl; [|done].
  intros [Hs' Hmu]. apply IH; [done|lia].
Qed.

(** More fuel does not change a result. *)
Lemma loopM_mono {E St R} n m (body : St -> outcome E (St + R)) s :
  loopM n body s <> OutOfFuel -> (n <= m)%nat -> loopM m body s = loopM n body s.
Proof.
  revert m s. induction n as [|n IH]; intros m s Hn Hle; [done|].
  destruct m as [|m]; [lia|]. simpl in *.
  destruct (body s) as [[s'|r]| | |]; simpl in *; try done. apply IH; [done|lia].
Qed.

(** [runs n body s s']: [n] turns of the loop go from [s] to [s']. *)
Definition runs {E St R} (n : nat) (body : St -> outcome E (St + R)) (s s' : St) : Prop :=
  forall k, loopM (n + k) body s = loopM k body s'.

Lemma runs_refl {E St R} (body : St -> outcome E (St + R)) s : runs 0 body s s.
Proof. by intros k. Qed.

Lemma runs_step {E St R} n (body : St -> outcome E (St + R)) s s1 s2 :
  body s = Ok (inl s1) -> runs n body s1 s2 -> runs (S n) body s s2.
Proof. intros H Hn k. simpl. rewrite H. apply Hn. Qed.

Lemma runs_trans {E St R} n m (body : St -> outcome E (St + R)) s1 s2 s3 :
  runs n body s1 s2 -> runs m body s2 s3 -> runs (n + m) body s1 s3.
Proof. intros Hn Hm k. by rewrite <- Nat.add_assoc, Hn, Hm. Qed.

Lemma runs_snoc {E St R} n (body : St -> outcome E (St + R)) s s1 s2 :
  runs n body s s1 -> body s1 = Ok (inl s2) -> runs (S n) body s s2.
Proof.
  intros Hn H k. replace (S n + k)%nat with (n + S k)%nat by lia. rewrite Hn. simpl.
  by rewrite H.
Qed.

(** A loop that reaches a final state within its fuel returns. *)
Lemma runs_returns {E St R} n (body : St -> outcome E (St + R)) fuel s s' r :
  runs n body s s' -> body s' = Ok (inr r) -> (n < fuel)%nat -> loopM fuel body s = Ok r.
Proof.
  intros Hn Hr Hlt. replace fuel with (n + S (fuel - n - 1))%nat by lia.
  rewrite Hn. simpl. by rewrite Hr.
Qed.

(** ** Machine integers

    Integers are kept in [Z] with their width written where it matters.
    Rust's [as] casts truncate; [+], [-] and [*] wrap in the release profile
    (the workspace sets no [overflow-checks]). *)
Definition U8_MAX : Z := 255.
Definition U16_MAX : Z := 65535.
Definition U32_MAX : Z := 4294967295.
Definition U64_MAX : Z := 18446744073709551615.
Definition I64_MAX : Z := 9223372036854775807.
Definition I64_MIN : Z := -9223372036854775808.
(** Rust bounds every allocation, so every slice length, by [isize::MAX]. *)
Definition ISIZE_MAX : Z := 9223372036854775807.

Definition wrap8 (z : Z) : Z := z mod 2 ^ 8.
Definition wrap16 (z : Z) : Z := z mod 2 ^ 16.
Definition wrap32 (z : Z) : Z := z mod 2 ^ 32.
Definition wrap64 (z : Z) : Z := z mod 2 ^ 64.

Definition u8 (z : Z) : Prop := 0 <= z <= U8_MAX.
Definition u16 (z : Z) : Prop := 0 <= z <= U16_MAX.
Definition u32 (z : Z) : Prop := 0 <= z <= U32_MAX.
Definition u64 (z : Z) : Prop := 0 <= z <= U64_MAX.
Definition i64 (z : Z) : Prop := I64_MIN <= z <= I64_MAX.

Definition sat_add (z w : Z) : Z := Z.min (z + w) U64_MAX.
Definition sat_sub (z w : Z) : Z := Z.max (z - w) 0.

Lemma wrap8_id z : u8 z -> wrap8 z = z.
Proof. unfold u8, U8_MAX, wrap8. intros. apply Z.mod_small. lia. Qed.
Lemma wrap16_id z : u16 z -> wrap16 z = z.
Proof. unfold u16, U16_MAX, wrap16. intros. apply Z.mod_small. lia. Qed.
Lemma wrap32_id z : u32 z -> wrap32 z = z.
Proof. unfold u32, U32_MAX, wrap32. intros. apply Z.mod_small. lia. Qed.
Lemma wrap64_id z : u64 z -> wrap64 z = z.
Proof. unfold u64, U64_MAX, wrap64. intros. apply Z.mod_small. lia. Qed.
Lemma wrap64_range z : u64 (wrap64 z).
Proof.
  unfold u64, U64_MAX, wrap64. pose proof (Z.mod_pos_bound z (2 ^ 64)). lia.
Qed.

(** ** Bytes and big-endian integers *)

Definition bytes_ok (l : list Z) : Prop := Forall u8 l.

(** [uN::to_be_bytes] for an [n]-byte integer. *)
Fixpoint to_be (n : nat) (v : Z) : list Z :=
  match n with
  | O => []
  | S n => (v / 2 ^ (8 * Z.of_nat n)) mod 256 :: to_be n v
  end.

(** [uN::from_be_bytes]. *)
Definition from_be (l : list Z) : Z :=
  fold_left (fun acc b => acc * 256 + b) l 0.

Lemma length_to_be n v : length (to_be n v) = n.
Proof. induction n; simpl; auto. Qed.

Lemma to_be_bytes_ok n v : bytes_ok (to_be n v).
Proof.
  induction n as [|n IH]; simpl; constructor; [|done].
  unfold u8, U8_MAX. pose proof (Z.mod_pos_bound (v / 2 ^ (8 * Z.of_nat n)) 256). lia.
Qed.

Lemma fold_be_to_be n v acc :
  fold_left (fun acc b => acc * 256 + b) (to_be n v) acc
  = acc * 2 ^ (8 * Z.of_nat n) + v mod 2 ^ (8 * Z.of_nat n).
Proof.
  revert acc. induction n as [|n IH]; intros acc; cbn [to_be fold_left].
  - change (8 * Z.of_nat 0) with 0. rewrite Z.mod_1_r. lia.
  - rewrite IH, Nat2Z.inj_succ.
    replace (8 * Z.succ (Z.of_nat n)) with (8 * Z.of_nat n + 8) by lia.
    rewrite Z.pow_add_r by lia. change (2 ^ 8) with 256.
    set (P := 2 ^ (8 * Z.of_nat n)).
    assert (0 < P) by (apply Z.pow_pos_nonneg; lia).
    rewrite (Z.rem_mul_r v P 256) by lia. lia.
Qed.

Lemma from_be_to_be n v :
  0 <= v < 2 ^ (8 * Z.of_nat n) -> from_be (to_be n v) = v.
Proof.
  intros. unfold from_be. rewrite fold_be_to_be, Z.mod_small by done. lia.
Qed.

Lemma from_be_range l :
  bytes_ok l -> 0 <= from_be l < 2 ^ (8 * Z.of_nat (length l)).
Proof.
  unfold from_be. intros Hl.
  enough (forall acc, 0 <= acc ->
    0 <= fold_left (fun acc b => acc * 256 + b) l acc
      < (acc + 1) * 2 ^ (8 * Z.of_nat (length l))) as H
    by (specialize (H 0); lia).
  induction Hl as [|b l Hb Hl IH]; intros acc Hacc; cbn [fold_left length].
  - change (8 * Z.of_nat 0) with 0. lia.
  - unfold u8, U8_MAX in Hb. specialize (IH (acc * 256 + b)).
    rewrite Nat2Z.inj_succ.
    replace (8 * Z.succ (Z.of_nat (length l)))
      with (8 * Z.of_nat (length l) + 8) by lia.
    rewrite Z.pow_add_r by lia. change (2 ^ 8) with 256.
    assert (0 < 2 ^ (8 * Z.of_nat (length l))) by (apply Z.pow_pos_nonneg; lia).
    nia.
Qed.

(** ** List positions kept in [Z] *)

Definition zlength {A} (l : list A) : Z := Z.of_nat (length l).

(** [&l[a..b]], for [0 <= a <= b <= len]. *)
Definition zslice {A} (a b : Z) (l : list A) : list A :=
  take (Z.to_nat (b - a)) (drop (Z.to_nat a) l).

#[global] Arguments zlength : simpl never.
#[global] Arguments zslice : simpl never.

Lemma zlength_app {A} (l k : list A) : zlength (l ++ k) = zlength l + zlength k.
Proof. unfold zlength. rewrite length_app. lia. Qed.
Lemma zlength_cons {A} (x : A) l : zlength (x :: l) = 1 + zlength l.
Proof. unfold zlength. simpl length. lia. Qed.
Lemma zlength_nil {A} : zlength ([] : list A) = 0.
Proof. done. Qed.
Lemma zlength_nonneg {A} (l : list A) : 0 <= zlength l.
Proof. unfold zlength. lia. Qed.

Lemma zslice_app {A} (pre bs suf : list A) :
  zslice (zlength pre) (zlength pre + zlength bs) (pre ++ bs ++ suf) = bs.
Proof.
  unfold zslice, zlength. rewrite Nat2Z.id.
  replace (Z.to_nat _) with (length bs) by lia.
  by rewrite drop_app_length, take_app_length.
Qed.

Lemma length_zslice {A} a b (l : list A) :
  0 <= a <= b -> b <= zlength l -> zlength (zslice a b l) = b - a.
Proof.
  unfold zslice, zlength. intros. rewrite length_take, length_drop. lia.
Qed.

Lemma zslice_bytes_ok a b l : bytes_ok l -> bytes_ok (zslice a b l).
Proof. intros. by apply Forall_take, Forall_drop. Qed.

Create Rewrite HintDb zlen.
#[export] Hint Rewrite @zlength_app @zlength_cons @zlength_nil @length_app : zlen.

(** ** Tactics of the development *)

(** Invert every successful [?] in the context. *)
Ltac inv_ok :=
  repeat match goal with
  | H : obind ?m _ = Ok _ |- _ =>
      apply obind_Ok_inv in H; destruct H as (? & ? & H)
  | H : Ok _ = Ok _ |- _ => injection H as H; subst
  | H : Err _ = Ok _ |- _ => discriminate H
  | H : Panic = Ok _ |- _ => discriminate H
  | H : OutOfFuel = Ok _ |- _ => discriminate H
  | H : (if ?b then _ else _) = Ok _ |- _ => destruct b eqn:?
  | H : (let '(_, _) := ?p in _) = Ok _ |- _ => destruct p
  end.

(** Split on the scrutinee of the first [if] or [match] of the goal. *)
Ltac case_goal :=
  match goal with
  | |- context [if ?b then _ else _] => destruct b eqn:?
  | |- context [match ?x with _ => _ end] => destruct x eqn:?
  end.

(** Turn boolean comparisons of [Z] in the context into propositions. *)
Ltac zbool :=
  repeat match goal with
  | H : (_ <? _) = true |- _ => apply Z.ltb_lt in H
  | H : (_ <? _) = false |- _ => apply Z.ltb_ge in H
  | H : (_ <=? _) = true |- _ => apply Z.leb_le in H
  | H : (_ <=? _) = false |- _ => apply Z.leb_gt in H
  | H : (_ =? _) = true |- _ => apply Z.eqb_eq in H
  | H : (_ =? _) = false |- _ => apply Z.eqb_neq in H
  | H : (_ && _) = true |- _ => apply andb_true_iff in H; destruct H
  | H : (_ || _) = false |- _ => apply orb_false_iff in H; destruct H
  end.

(** ** Sorting *)

(** [sort_by_key] with a [Reverse] key: the stable sort into descending order. *)
Fixpoint insert_desc {A} (key : A -> Z) (x : A) (l : list A) : list A :=
  match l with
  | [] => [x]
  | y :: l' => if key y <=? key x then x :: l else y :: insert_desc key x l'
  end.
Definition sort_desc {A} (key : A -> Z) (l : list A) : list A := foldr (insert_desc key) [] l.

Lemma insert_desc_perm {A} (key : A -> Z) x l : insert_desc key x l ≡ₚ x :: l.
Proof.
  induction l as [|y l IH]; simpl; [done|]. case_match; [done|].
  rewrite IH. apply Permutation_swap.
Qed.

Lemma sort_desc_perm {A} (key : A -> Z) l : sort_desc key l ≡ₚ l.
Proof. induction l as [|x l IH]; simpl; [done|]. by rewrite insert_desc_perm, IH. Qed.

Lemma insert_desc_sorted {A} (key : A -> Z) x l :
  StronglySorted (fun a b => key b <= key a) l ->
  StronglySorted (fun a b => key b <= key a) (insert_desc key x l).
Proof.
  induction 1 as [|y l Hl IH Hy]; simpl; [repeat constructor|].
  case_match; zbool.
  - constructor; [by constructor|]. constructor; [done|].
    eapply Forall_impl; [exact Hy|]. simpl. lia.
  - constructor; [done|]. rewrite insert_desc_perm. constructor; [lia|done].
Qed.

Lemma sort_desc_sorted {A} (key : A -> Z) l :
  StronglySorted (fun a b => key b <= key a) (sort_desc key l).
Proof. induction l; simpl; [constructor|by apply insert_desc_sorted]. Qed.

Lemma StronglySorted_mono {A} (R S : A -> A -> Prop) l :
  (forall x y, R x y -> S x y) -> StronglySorted R l -> StronglySorted S l.
Proof.
  intros HRS. induction 1 as [|x l Hl IH Hx]; constructor; [done|].
  eapply Forall_impl; [exact Hx|]. auto.
Qed.

Lemma strictly_sorted_keys {A} (key : A -> Z) l :
  StronglySorted (fun a b => key a <= key b) l -> NoDup (map key l) ->
  StronglySorted (fun a b => key a < key b) l.
Proof.
  induction 1 as [|x l Hl IH Hx]; simpl; [constructor|]. intros [Hni Hn]%NoDup_cons.
  constructor; [auto|]. rewrite Forall_forall in *. intros y Hy. specialize (Hx y Hy).
  enough (key x <> key y) by lia. intros Heq. apply Hni. rewrite Heq. by apply list_elem_of_fmap_2.
Qed.

(** ** Searching lists *)

(** [Iterator::position] *)
Fixpoint position {A} (f : A -> bool) (l : list A) : option nat :=
  match l with
  | [] => None
  | x :: l => if f x then Some O else S <$> position f l
  end.

Lemma position_spec {A} (f : A -> bool) l :
  match position f l with
  | Some pos => exists l1 x l2, l = l1 ++ x :: l2 /\ length l1 = pos /\ f x = true
                  /\ Forall (fun y => f y = false) l1
  | None => Forall (fun y => f y = false) l
  end.
Proof.
  induction l as [|y l IH]; simpl; [done|]. destruct (f y) eqn:Hy.
  { exists [], y, l. done. }
  destruct (position f l); simpl; [|by constructor].
  destruct IH as (l1 & x & l2 & -> & <- & Hx & Hl1). exists (y :: l1), x, l2.
  split_and!; [done|done|done|by constructor].
Qed.

Lemma elem_of_prefix {A} (x : A) k l : x ∈ take k l -> x ∈ l.
Proof. intros (i & Hi & _)%elem_of_take. by eapply list_elem_of_lookup_2. Qed.

Lemma elem_of_suffix {A} (x : A) k l : x ∈ drop k l -> x ∈ l.
Proof. intros Hx. rewrite <- (take_drop k l). apply elem_of_app. by right. Qed.

Lemma position_middle {A} (f : A -> bool) l1 x l2 :
  f x = true -> Forall (fun y => f y = false) l1 -> position f (l1 ++ x :: l2) = Some (length l1).
Proof.
  intros Hx Hl1. induction Hl1 as [|y l1 Hy Hl1 IH]; simpl; [by rewrite Hx|].
  by rewrite Hy, IH.
Qed.

Lemma position_missing {A} (f : A -> bool) l :
  Forall (fun y => f y = false) l -> position f l = None.
Proof. induction 1 as [|y l Hy Hl IH]; simpl; [done|]. by rewrite Hy, IH. Qed.

(** ** Prefixes and filters *)

Lemma filter_length_le {A} (f g : A -> bool) l :
  (forall x, x ∈ l -> f x = true -> g x = true) ->
  (length (List.filter f l) <= length (List.filter g l))%nat.
Proof.
  intros Hfg. induction l as [|x l IH]; simpl; [done|].
  specialize (IH ltac:(set_solver)). specialize (Hfg x ltac:(set_solver)).
  destruct (f x), (g x); simpl; lia || (by discriminate Hfg).
Qed.

Lemma filter_length_lt {A} (f g : A -> bool) l x :
  (forall x, x ∈ l -> f x = true -> g x = true) -> x ∈ l -> f x = false -> g x = true ->
  (length (List.filter f l) < length (List.filter g l))%nat.
Proof.
  intros Hfg (l1 & l2 & ->)%list_elem_of_split Hf Hg. rewrite !List.filter_app. simpl.
  rewrite Hf, Hg, !length_app. simpl.
  pose proof (filter_length_le f g l1). pose proof (filter_length_le f g l2).
  assert (forall y, y ∈ l1 -> f y = true -> g y = true) by set_solver.
  assert (forall y, y ∈ l2 -> f y = true -> g y = true) by set_solver. intuition lia.
Qed.

(** A non-empty prefix of a list, split at its last element. *)
Lemma take_last_split {A} n (l : list A) :
  (0 < n <= length l)%nat -> exists b, l = take (n - 1) l ++ b :: drop n l /\ take n l = take (n - 1) l ++ [b].
Proof.
  intros Hn. destruct (lookup_lt_is_Some_2 l (n - 1)) as [b Hb]; [lia|]. exists b.
  pose proof (take_drop_middle _ _ _ Hb) as Hm. replace (S (n - 1)) with n in Hm by lia.
  split; [done|]. replace n with (S (n - 1)) at 1 by lia. by apply take_S_r.
Qed.

Lemma take_max_split {A} n i (l : list A) :
  take (Nat.max n i) l = take n l ++ drop n (take i l).
Proof.
  destruct (decide (n <= i)%nat).
  - rewrite Nat.max_r by lia. rewrite <- (take_drop n (take i l)) at 1.
    by rewrite take_take, Nat.min_l by lia.
  - rewrite Nat.max_l by lia. rewrite (drop_ge (take i l)) by (rewrite length_take; lia).
    by rewrite app_nil_r.
Qed.

(** ** Record update

    [r <| f := v |>] is [r] with the field [f] replaced. A record type takes
    part by an instance of [Eta] that rebuilds it from its fields; the setter
    of a field is that rebuilding with the field abstracted. *)
Class Eta (R : Type) := eta : R -> R.
Class Setter {R T : Type} (f : R -> T) := set_field : T -> R -> R.
Arguments set_field {R T} f {_} v r.
Ltac build_setter :=
  lazymatch goal with
  | |- @Setter ?R ?T ?f =>
      let inst := constr:(_ : Eta R) in
      let body := eval hnf in inst in
      lazymatch eval pattern f in body with
      | ?abs _ => let s := eval cbv beta in (fun v : T => abs (fun _ => v)) in exact s
      end
  end.
#[export] Hint Extern 0 (Setter _) => build_setter : typeclass_instances.
Notation "r <| f := v |>" := (set_field f v r)
  (at level 1, f at level 10, v at level 200, left associativity, format "r  <|  f  :=  v  |>").
