(* ===== verification/Cbor.v ===== *)
(** * The hand-rolled CBOR encoder and decoder

    Model of [crates/ledger/src/cbor.rs]: the byte-level [Encoder] and
    [Decoder], their primitive readers and writers and the bounded-allocation
    helpers. A method [Encoder::m] is the definition [Encoder_m], a method
    [Decoder::m] the definition [Decoder_m].

    The encoder only ever appends to its buffer, so a writer method is
    modelled by the bytes it appends and a chain of calls by concatenation.
    The decoder is a state monad over the input slice and the read position. *)

From S2P Require Import Prelude.
Local Open Scope Z_scope.

(** ** Errors *)

(** The CBOR, address, fee, UTxO and collateral variants of [LedgerError]. *)
Inductive LedgerError :=
  | CborUnexpectedEof
  | CborTypeMismatch (expected actual : Z)
  | CborInvalidAdditionalInfo (ai : Z)
  | CborInvalidLength (expected actual : Z)
  | CborTrailingBytes (n : Z)
  | CborDecodeError (msg : string)
  | CborNestingTooDeep (max : Z)
  | DecodedCountTooLarge (count max : Z)
  | InvalidAddressBytes (raw : list Z)
  | InvalidAddressNetworkId (network : Z)
  | InvalidByronAddressStructure (raw : list Z)
  | InvalidByronAddressChecksum
  | FeeTooSmall (minimum declared : Z)
  | ExUnitsExceedTxLimit (tx_mem tx_steps max_mem max_steps : Z)
  | TxTooLarge (actual max : Z)
  | NoInputs
  | NoOutputs
  | DuplicateInput
  | TxExpired (ttl slot : Z)
  | TxNotYetValid (start slot : Z)
  | InputNotInUtxo
  | ReferenceInputNotInUtxo
  | ReferenceInputContention
  | ValueOverflow (site : string)
  | ValueNotPreserved (consumed produced fee : Z)
  | TriesToForgeADA
  | MultiAssetNotPreserved (policy asset_name : list Z) (expected produced : Z)
  | TxRefScriptsSizeTooBig (actual max_allowed : Z)
  | OutsideForecast (slot limit : Z)
  | AssetNameTooLong (actual : Z)
  | OutputTooSmall (minimum actual : Z)
  | OutputTooBig (actual max : Z)
  | OutputBootAddrAttrsTooBig (size : Z)
  | ZeroValuedMultiAssetOutput (policy_id asset_name : list Z)
  | NoCollateralInputs
  | TooManyCollateralInputs (count max : Z)
  | CollateralInputNotInUtxo
  | CollateralNotVKeyLocked
  | CollateralContainsNonAda
  | CollateralBalanceNegative (input_coin return_coin : Z)
  | IncorrectTotalCollateralField (declared computed : Z)
  | InsufficientCollateral (fee percentage required provided : Z)
  | MissingCollateralForScripts.

#[export] Instance LedgerError_eq_dec : EqDecision LedgerError.
Proof. solve_decision. Defined.

(** ** Major types and special bytes *)

Definition MAJOR_UNSIGNED : Z := 0.
Definition MAJOR_NEGATIVE : Z := 1.
Definition MAJOR_BYTES : Z := 2.
Definition MAJOR_TEXT : Z := 3.
Definition MAJOR_ARRAY : Z := 4.
Definition MAJOR_MAP : Z := 5.
Definition MAJOR_TAG : Z := 6.
Definition MAJOR_SIMPLE : Z := 7.
Definition AI_INDEF : Z := 31.
(** [major << 5] on [u8]. *)
Definition major_bits (major : Z) : Z := wrap8 (Z.shiftl major 5).
Definition BREAK : Z := Z.lor (major_bits MAJOR_SIMPLE) AI_INDEF.

(** ** Encoder *)

Definition Encoder_write_type_and_arg (major value : Z) : list Z :=
  let mt := major_bits major in
  if value <? 24 then [Z.lor mt (wrap8 value)]
  else if value <=? U8_MAX then [Z.lor mt 24; wrap8 value]
  else if value <=? U16_MAX then Z.lor mt 25 :: to_be 2 (wrap16 value)
  else if value <=? U32_MAX then Z.lor mt 26 :: to_be 4 (wrap32 value)
  else Z.lor mt 27 :: to_be 8 value.

Definition Encoder_unsigned (value : Z) : list Z :=
  Encoder_write_type_and_arg MAJOR_UNSIGNED value.
Definition Encoder_raw (bs : list Z) : list Z := bs.
Definition Encoder_bytes (bs : list Z) : list Z :=
  Encoder_write_type_and_arg MAJOR_BYTES (zlength bs) ++ bs.
Definition Encoder_array (len : Z) : list Z :=
  Encoder_write_type_and_arg MAJOR_ARRAY len.
Definition Encoder_array_indef : list Z := [Z.lor (major_bits MAJOR_ARRAY) AI_INDEF].
Definition Encoder_break_stop : list Z := [BREAK].
Definition Encoder_null : list Z := [Z.lor (major_bits MAJOR_SIMPLE) 22].
Definition Encoder_bool (value : bool) : list Z :=
  [Z.lor (major_bits MAJOR_SIMPLE) (if value then 21 else 20)].
Definition Encoder_negative (n : Z) : list Z :=
  Encoder_write_type_and_arg MAJOR_NEGATIVE n.
Definition Encoder_integer (value : Z) : list Z :=
  if 0 <=? value then Encoder_unsigned value else Encoder_negative (-1 - value).
Definition Encoder_signed (value : Z) : list Z := Encoder_integer value.
(** A Rust [&str] is its UTF-8 bytes. *)
Definition Encoder_text (s : list Z) : list Z :=
  Encoder_write_type_and_arg MAJOR_TEXT (zlength s) ++ s.
Definition Encoder_map (len : Z) : list Z :=
  Encoder_write_type_and_arg MAJOR_MAP len.
Definition Encoder_tag (tag_number : Z) : list Z :=
  Encoder_write_type_and_arg MAJOR_TAG tag_number.
Definition Encoder_wrapped (bs : list Z) : list Z :=
  Encoder_tag 24 ++ Encoder_bytes bs.

Definition encode_variable_len_array {T} (items : list T) (encode_item : T -> list Z)
    : list Z :=
  (if zlength items <=? 23 then Encoder_array (zlength items) else Encoder_array_indef)
  ++ concat (map encode_item items)
  ++ (if 23 <? zlength items then Encoder_break_stop else []).

(** ** Bounded-allocation helpers

    [Vec::with_capacity] yields an empty vector whatever the capacity; what
    the caller observes is the requested capacity or the error. *)

Definition BLOCK_BODY_ELEMENTS_MAX : Z := 1048576.

(** The capacity [vec_with_safe_capacity] allocates. *)
Definition vec_with_safe_capacity (count safe_max : Z) : Z := Z.min count safe_max.
Definition vec_with_strict_capacity (count max : Z) : outcome LedgerError Z :=
  if max <? count then Err (DecodedCountTooLarge count max) else Ok count.
Definition hashmap_with_safe_capacity (count safe_max : Z) : Z := Z.min count safe_max.
Definition check_decoded_count (count max : Z) : outcome LedgerError Z :=
  if max <? count then Err (DecodedCountTooLarge count max) else Ok count.

(** ** Decoder *)

Record Decoder := mkDecoder { data : list Z; pos : Z }.

(** A reader: [&mut self] with a [Result]. *)
Definition Dec (A : Type) : Type := Decoder -> outcome LedgerError (A * Decoder).

Definition dret {A} (a : A) : Dec A := fun d => Ok (a, d).
Definition derr {A} (e : LedgerError) : Dec A := fun _ => Err e.
Definition dbind {A B} (m : Dec A) (k : A -> Dec B) : Dec B :=
  fun d => obind (m d) (fun r => k r.1 r.2).
(** A [&self] method used inside a reader. *)
Definition dget {A} (f : Decoder -> outcome LedgerError A) : Dec A :=
  fun d => obind (f d) (fun a => Ok (a, d)).
(** A [Result] that does not touch the decoder. *)
Definition dlift {A} (m : outcome LedgerError A) : Dec A :=
  fun d => obind m (fun a => Ok (a, d)).
(** [for _ in 0..count { m }] *)
Definition dfor {S} (count : Z) (m : S -> Dec S) (s : S) : Dec S :=
  fun d => for_count count (fun p => m p.1 p.2) (s, d).

Declare Scope dec_scope.
Delimit Scope dec_scope with dec.
Bind Scope dec_scope with Dec.
Notation "x <- m ;; k" := (dbind m (fun x => k))
  (at level 100, m at next level, right associativity) : dec_scope.
Notation "m ;;; k" := (dbind m (fun _ => k))
  (at level 100, right associativity) : dec_scope.
Open Scope dec_scope.

Definition Decoder_new (bs : list Z) : Decoder := mkDecoder bs 0.
Definition Decoder_position (d : Decoder) : Z := pos d.
Definition Decoder_remaining (d : Decoder) : Z := wrap64 (zlength (data d) - pos d).
Definition Decoder_is_empty (d : Decoder) : bool := zlength (data d) <=? pos d.

Definition Decoder_slice (start stop : Z) (d : Decoder) : outcome LedgerError (list Z) :=
  if (zlength (data d) <? stop) || (stop <? start) then Err CborUnexpectedEof
  else Ok (zslice start stop (data d)).

Definition Decoder_peek_byte (d : Decoder) : outcome LedgerError Z :=
  ok_or (data d !! Z.to_nat (pos d)) CborUnexpectedEof.

(** [self.pos += 1] *)
Definition Decoder_bump : Dec unit :=
  fun d => Ok (tt, mkDecoder (data d) (wrap64 (pos d + 1))).

Definition Decoder_read_byte : Dec Z :=
  b <- dget Decoder_peek_byte ;; Decoder_bump ;;; dret b.

(** [self.pos + len] wraps at 64 bits; when it wraps, the end of the slice
    lies before its start and the indexing panics. *)
Definition Decoder_read_exact (len : Z) : Dec (list Z) :=
  fun d =>
    let stop := wrap64 (pos d + len) in
    if zlength (data d) <? stop then Err CborUnexpectedEof
    else if stop <? pos d then Panic
    else Ok (zslice (pos d) stop (data d), mkDecoder (data d) stop).

Definition Decoder_read_argument (initial : Z) : Dec Z :=
  let ai := Z.land initial 31 in
  if ai <=? 23 then dret ai
  else if ai =? 24 then Decoder_read_byte
  else if ai =? 25 then bs <- Decoder_read_exact 2 ;; dret (from_be bs)
  else if ai =? 26 then bs <- Decoder_read_exact 4 ;; dret (from_be bs)
  else if ai =? 27 then bs <- Decoder_read_exact 8 ;; dret (from_be bs)
  else derr (CborInvalidAdditionalInfo ai).

Definition Decoder_expect_major (expected : Z) : Dec Z :=
  initial <- Decoder_read_byte ;;
  let major := Z.shiftr initial 5 in
  if negb (major =? expected) then derr (CborTypeMismatch expected major)
  else Decoder_read_argument initial.

Definition Decoder_unsigned : Dec Z := Decoder_expect_major MAJOR_UNSIGNED.

Definition Decoder_bytes_definite : Dec (list Z) :=
  len <- Decoder_expect_major MAJOR_BYTES ;; Decoder_read_exact len.
Definition Decoder_bytes : Dec (list Z) := Decoder_bytes_definite.

(** The chunk loop shared by [bytes_owned] and [text_owned]: read chunks until
    the break byte, concatenating them. *)
Definition chunk_loop (fuel : nat) (chunk : Dec (list Z)) : Dec (list Z) :=
  fun d =>
    loopM fuel
      (fun '(assembled, d) =>
         let? b := Decoder_peek_byte d in
         if b =? BREAK then
           let? (_, d) := Decoder_bump d in Ok (inr (assembled, d))
         else
           let? (c, d) := chunk d in Ok (inl (assembled ++ c, d)))
      ([], d).

(** Fuel for a loop that consumes a byte per turn. *)
Definition dec_fuel (d : Decoder) : nat := S (length (data d)).

Definition Decoder_bytes_owned : Dec (list Z) :=
  initial <- dget Decoder_peek_byte ;;
  let major := Z.shiftr initial 5 in
  if negb (major =? MAJOR_BYTES) then derr (CborTypeMismatch MAJOR_BYTES major)
  else if Z.land initial 31 =? AI_INDEF then
    Decoder_bump ;;; fun d => chunk_loop (dec_fuel d) Decoder_bytes_definite d
  else Decoder_bytes_definite.

Definition Decoder_array : Dec Z := Decoder_expect_major MAJOR_ARRAY.
Definition Decoder_tag : Dec Z := Decoder_expect_major MAJOR_TAG.
Definition Decoder_map : Dec Z := Decoder_expect_major MAJOR_MAP.
Definition Decoder_negative : Dec Z := Decoder_expect_major MAJOR_NEGATIVE.

Definition Decoder_peek_major (d : Decoder) : outcome LedgerError Z :=
  let? b := Decoder_peek_byte d in Ok (Z.shiftr b 5).

Definition Decoder_peek_is_null (d : Decoder) : bool :=
  match Decoder_peek_byte d with
  | Ok b => b =? Z.lor (major_bits MAJOR_SIMPLE) 22
  | _ => false
  end.

Definition Decoder_is_break (d : Decoder) : bool :=
  match Decoder_peek_byte d with Ok b => b =? BREAK | _ => false end.

Definition Decoder_consume_break : Dec unit :=
  b <- Decoder_read_byte ;;
  if b =? BREAK then dret tt else derr (CborTypeMismatch MAJOR_SIMPLE (Z.shiftr b 5)).

Definition Decoder_array_or_set : Dec Z :=
  fun d =>
    let? major := Decoder_peek_major d in
    if major =? MAJOR_TAG then
      let? (tag, d') := Decoder_tag d in
      if negb (tag =? 258) then Decoder_array d else Decoder_array d'
    else Decoder_array d.

Definition Decoder_array_begin : Dec (option Z) :=
  initial <- dget Decoder_peek_byte ;;
  let major := Z.shiftr initial 5 in
  if negb (major =? MAJOR_ARRAY) then derr (CborTypeMismatch MAJOR_ARRAY major)
  else if Z.land initial 31 =? AI_INDEF then Decoder_bump ;;; dret None
  else n <- Decoder_array ;; dret (Some n).

Definition Decoder_map_begin : Dec (option Z) :=
  initial <- dget Decoder_peek_byte ;;
  let major := Z.shiftr initial 5 in
  if negb (major =? MAJOR_MAP) then derr (CborTypeMismatch MAJOR_MAP major)
  else if Z.land initial 31 =? AI_INDEF then Decoder_bump ;;; dret None
  else n <- Decoder_map ;; dret (Some n).

Definition Decoder_null : Dec unit :=
  b <- Decoder_read_byte ;;
  if b =? Z.lor (major_bits MAJOR_SIMPLE) 22 then dret tt
  else derr (CborTypeMismatch MAJOR_SIMPLE (Z.shiftr b 5)).

(** [i64::try_from(n)] on a [u64]. *)
Definition i64_try_from (n : Z) (e : LedgerError) : outcome LedgerError Z :=
  if n <=? I64_MAX then Ok n else Err e.

Definition Decoder_integer : Dec Z :=
  major <- dget Decoder_peek_major ;;
  if major =? MAJOR_UNSIGNED then
    v <- Decoder_unsigned ;;
    dlift (i64_try_from v (CborTypeMismatch MAJOR_UNSIGNED MAJOR_UNSIGNED))
  else if major =? MAJOR_NEGATIVE then
    n <- Decoder_negative ;;
    n <- dlift (i64_try_from n (CborTypeMismatch MAJOR_NEGATIVE MAJOR_NEGATIVE)) ;;
    dret (-1 - n)
  else derr (CborTypeMismatch MAJOR_UNSIGNED major).
Definition Decoder_signed : Dec Z := Decoder_integer.

(** [core::str::from_utf8]: the well-formed byte sequences of Unicode, table 3-7. *)
Definition in_range (lo hi b : Z) : bool := (lo <=? b) && (b <=? hi).
Definition utf8_tail (b : Z) : bool := in_range 128 191 b.

Fixpoint utf8_valid (l : list Z) : bool :=
  match l with
  | [] => true
  | b0 :: l0 =>
    if in_range 0 127 b0 then utf8_valid l0 else
    match l0 with
    | [] => false
    | b1 :: l1 =>
      if in_range 194 223 b0 then utf8_tail b1 && utf8_valid l1 else
      match l1 with
      | [] => false
      | b2 :: l2 =>
        if in_range 224 239 b0 then
          (if b0 =? 224 then in_range 160 191 b1
           else if b0 =? 237 then in_range 128 159 b1
           else utf8_tail b1)
          && utf8_tail b2 && utf8_valid l2
        else
        match l2 with
        | [] => false
        | b3 :: l3 =>
          in_range 240 244 b0
          && (if b0 =? 240 then in_range 144 191 b1
              else if b0 =? 244 then in_range 128 143 b1
              else utf8_tail b1)
          && utf8_tail b2 && utf8_tail b3 && utf8_valid l3
        end
      end
    end
  end.

Definition Decoder_text : Dec (list Z) :=
  len <- Decoder_expect_major MAJOR_TEXT ;;
  raw <- Decoder_read_exact len ;;
  if utf8_valid raw then dret raw else derr (CborTypeMismatch MAJOR_TEXT MAJOR_BYTES).

Definition Decoder_text_owned : Dec (list Z) :=
  initial <- dget Decoder_peek_byte ;;
  let major := Z.shiftr initial 5 in
  if negb (major =? MAJOR_TEXT) then derr (CborTypeMismatch MAJOR_TEXT major)
  else if Z.land initial 31 =? AI_INDEF then
    Decoder_bump ;;; fun d => chunk_loop (dec_fuel d) Decoder_text d
  else Decoder_text.

Definition Decoder_wrapped : Dec (list Z) :=
  t <- Decoder_tag ;;
  if negb (t =? 24) then derr (CborTypeMismatch 24 (wrap8 t)) else Decoder_bytes.

Definition Decoder_bool : Dec bool :=
  b <- Decoder_read_byte ;;
  if b =? Z.lor (major_bits MAJOR_SIMPLE) 20 then dret false
  else if b =? Z.lor (major_bits MAJOR_SIMPLE) 21 then dret true
  else derr (CborTypeMismatch MAJOR_SIMPLE (Z.shiftr b 5)).

(** The counted half of [decode_variable_len_array]. *)
Definition decode_count {T} (count : Z) (decode_item : Dec T) : Dec (list T) :=
  dfor count (fun items => x <- decode_item ;; dret (items ++ [x])) [].

(** The break-terminated half of [decode_variable_len_array]. *)
Definition decode_until_break {T} (fuel : nat) (decode_item : Dec T) : Dec (list T) :=
  fun d =>
    loopM fuel
      (fun '(items, d) =>
         if Decoder_is_break d then
           let? (_, d) := Decoder_consume_break d in Ok (inr (items, d))
         else
           let? (x, d) := decode_item d in Ok (inl (items ++ [x], d)))
      ([], d).

Definition decode_variable_len_array {T} (safe_max : Z) (decode_item : Dec T)
    : Dec (list T) :=
  len <- Decoder_array_begin ;;
  match len with
  | Some count => decode_count count decode_item
  | None => fun d => decode_until_break (dec_fuel d) decode_item d
  end.

(** [CborDecode::from_cbor_bytes]. *)
Definition from_cbor_bytes {A} (decode_cbor : Dec A) (bs : list Z) : outcome LedgerError A :=
  let? (val, d) := decode_cbor (Decoder_new bs) in
  if negb (Decoder_is_empty d) then Err (CborTrailingBytes (Decoder_remaining d))
  else Ok val.

(** Concrete inputs: the encodings of RFC 8949, appendix A. *)
Example enc_1000000 : Encoder_unsigned 1000000 = [26; 0; 15; 66; 64].
Proof. reflexivity. Qed.
Example dec_minus_100 :
  Decoder_integer (Decoder_new [56; 99]) = Ok (-100, mkDecoder [56; 99] 2).
Proof. reflexivity. Qed.
Example dec_chunks :
  from_cbor_bytes Decoder_bytes_owned [95; 66; 1; 2; 67; 3; 4; 5; 255]
  = Ok [1; 2; 3; 4; 5].
Proof. reflexivity. Qed.
