(* ===== verification/CborFacts.v ===== *)
(** * Lemma library of the CBOR codec

    The predicate [decodes m bs a] ("reader [m] turns exactly the bytes [bs]
    into [a], wherever they stand in the input"), its composition rules, its
    instances for every primitive, and the progress class of readers that
    consume input. The round-trip theorems of the whole development go
    through [decodes]. *)

From S2P Require Import Prelude Cbor.
Local Open Scope Z_scope.

(** ** The initial byte *)

Lemma initial_byte_check :
  forallb (fun m => forallb (fun a =>
      let b := Z.lor (major_bits m) a in
      (Z.shiftr b 5 =? m) && (Z.land b 31 =? a) && (0 <=? b) && (b <=? U8_MAX))
    (seqZ 0 32)) (seqZ 0 8) = true.
Proof. vm_compute. reflexivity. Qed.

Lemma initial_byte major ai :
  0 <= major <= 7 -> 0 <= ai <= 31 ->
  Z.shiftr (Z.lor (major_bits major) ai) 5 = major
  /\ Z.land (Z.lor (major_bits major) ai) 31 = ai
  /\ u8 (Z.lor (major_bits major) ai).
Proof.
  intros Hm Ha. pose proof initial_byte_check as H.
  rewrite forallb_forall in H. specialize (H major).
  rewrite <- list_elem_of_In, elem_of_seqZ in H. specialize (H ltac:(lia)).
  rewrite forallb_forall in H. specialize (H ai).
  rewrite <- list_elem_of_In, elem_of_seqZ in H. specialize (H ltac:(lia)).
  simpl in H. zbool. unfold u8. auto.
Qed.

Lemma initial_major major ai :
  0 <= major <= 7 -> 0 <= ai <= 31 -> Z.shiftr (Z.lor (major_bits major) ai) 5 = major.
Proof. intros. by apply initial_byte. Qed.
Lemma initial_ai major ai :
  0 <= major <= 7 -> 0 <= ai <= 31 -> Z.land (Z.lor (major_bits major) ai) 31 = ai.
Proof. intros. by apply initial_byte. Qed.

(** ** Well-formed decoders *)

Definition dec_wf (d : Decoder) : Prop :=
  0 <= pos d <= zlength (data d) /\ zlength (data d) <= ISIZE_MAX /\ bytes_ok (data d).

Lemma Decoder_new_wf bs : bytes_ok bs -> zlength bs <= ISIZE_MAX -> dec_wf (Decoder_new bs).
Proof. intros. split; simpl; [pose proof (zlength_nonneg bs); lia | done]. Qed.

(** ** Readers that decode exactly some bytes *)

(** The decoder that has consumed [pre] and still has [suf] to read. *)
Definition at_ (pre suf : list Z) : Decoder := mkDecoder (pre ++ suf) (zlength pre).

Definition decodes {A} (m : Dec A) (bs : list Z) (a : A) : Prop :=
  forall pre suf, zlength (pre ++ bs ++ suf) <= ISIZE_MAX ->
    m (at_ pre (bs ++ suf)) = Ok (a, at_ (pre ++ bs) suf).

Lemma decodes_ret {A} (a : A) : decodes (dret a) [] a.
Proof. intros pre suf _. unfold dret. by rewrite app_nil_r. Qed.

Lemma decodes_bind {A B} (m : Dec A) (k : A -> Dec B) bs1 bs2 a b :
  decodes m bs1 a -> decodes (k a) bs2 b -> decodes (dbind m k) (bs1 ++ bs2) b.
Proof.
  intros Hm Hk pre suf Hlen. unfold dbind.
  rewrite <- !(assoc_L (++)) in *. rewrite Hm by done. simpl.
  rewrite Hk; rewrite <- !(assoc_L (++)); done.
Qed.

Lemma decodes_bind0 {A B} (m : Dec A) (k : A -> Dec B) bs a b :
  decodes m [] a -> decodes (k a) bs b -> decodes (dbind m k) bs b.
Proof. intros. by apply (decodes_bind m k [] bs a b). Qed.

Lemma decodes_bind_ret {A B} (m : Dec A) (k : A -> Dec B) bs a b :
  decodes m bs a -> decodes (k a) [] b -> decodes (dbind m k) bs b.
Proof.
  intros Hm Hk. rewrite <- (app_nil_r bs). by apply (decodes_bind m k bs [] a b).
Qed.

Lemma decodes_eq {A} (m : Dec A) bs bs' a : bs = bs' -> decodes m bs a -> decodes m bs' a.
Proof. by intros ->. Qed.

Lemma decodes_lift {A} (m : outcome LedgerError A) a : m = Ok a -> decodes (dlift m) [] a.
Proof. intros -> pre suf _. unfold dlift. simpl. by rewrite app_nil_r. Qed.

(** A peek leaves the bytes in place. *)
Definition peeks {A} (f : Decoder -> outcome LedgerError A) (bs : list Z) (a : A) : Prop :=
  forall pre suf, f (at_ pre (bs ++ suf)) = Ok a.

Lemma decodes_peek {A B} (f : Decoder -> outcome LedgerError A) (k : A -> Dec B) bs a b :
  peeks f bs a -> decodes (k a) bs b -> decodes (dbind (dget f) k) bs b.
Proof.
  intros Hf Hk pre suf Hlen. unfold dbind, dget. rewrite Hf. simpl. by apply Hk.
Qed.

Lemma peek_byte_at b bs : peeks Decoder_peek_byte (b :: bs) b.
Proof.
  intros pre suf. unfold Decoder_peek_byte, at_, zlength. simpl.
  by rewrite Nat2Z.id, list_lookup_middle.
Qed.

(** The major type of the first byte. *)
Definition first_major (bs : list Z) : option Z :=
  match bs with [] => None | b :: _ => Some (Z.shiftr b 5) end.

Lemma peek_major_at bs major : first_major bs = Some major -> peeks Decoder_peek_major bs major.
Proof.
  destruct bs as [|b bs]; [done|]. intros [= <-] pre suf.
  unfold Decoder_peek_major. by rewrite peek_byte_at.
Qed.

Lemma first_major_app bs bs' major :
  first_major bs = Some major -> first_major (bs ++ bs') = Some major.
Proof. by destruct bs. Qed.

Lemma decodes_bump b : decodes Decoder_bump [b] tt.
Proof.
  intros pre suf Hlen. unfold Decoder_bump. simpl data. simpl pos.
  autorewrite with zlen in *.
  pose proof (zlength_nonneg pre). pose proof (zlength_nonneg suf).
  rewrite wrap64_id by (unfold u64, U64_MAX, ISIZE_MAX in *; lia).
  unfold at_. by rewrite <- (assoc_L (++)), zlength_app.
Qed.

Lemma decodes_read_byte b : decodes Decoder_read_byte [b] b.
Proof.
  eapply decodes_peek; [apply peek_byte_at|].
  eapply decodes_bind_ret; [apply decodes_bump | apply decodes_ret].
Qed.

Lemma decodes_read_exact bs : decodes (Decoder_read_exact (zlength bs)) bs bs.
Proof.
  intros pre suf Hlen. unfold Decoder_read_exact. simpl data. simpl pos.
  autorewrite with zlen in *.
  pose proof (zlength_nonneg pre). pose proof (zlength_nonneg suf).
  pose proof (zlength_nonneg bs).
  rewrite wrap64_id by (unfold u64, U64_MAX, ISIZE_MAX in *; lia).
  rewrite (proj2 (Z.ltb_ge _ _)) by lia.
  rewrite (proj2 (Z.ltb_ge _ _)) by lia.
  rewrite zslice_app. unfold at_. by rewrite <- (assoc_L (++)), zlength_app.
Qed.

Lemma decodes_read_be n v :
  0 <= v < 2 ^ (8 * Z.of_nat n) ->
  decodes (bs <- Decoder_read_exact (Z.of_nat n) ;; dret (from_be bs)) (to_be n v) v.
Proof.
  intros Hv. eapply decodes_bind_ret.
  - pose proof (decodes_read_exact (to_be n v)) as H.
    unfold zlength in H. by rewrite length_to_be in H.
  - rewrite from_be_to_be by done. apply decodes_ret.
Qed.

(** The argument of an initial byte, as written by the encoder. *)
Lemma decodes_write_type_and_arg major v :
  0 <= major <= 7 -> u64 v ->
  decodes (Decoder_expect_major major) (Encoder_write_type_and_arg major v) v.
Proof.
  unfold u64, U64_MAX. intros Hm Hv.
  unfold Encoder_write_type_and_arg.
  assert (forall ai rest,
    0 <= ai <= 31 ->
    decodes (Decoder_read_argument (Z.lor (major_bits major) ai)) rest v ->
    decodes (Decoder_expect_major major) (Z.lor (major_bits major) ai :: rest) v) as Hexp.
  { intros ai rest Ha Hr.
    eapply (decodes_bind _ _ [_] rest); [apply decodes_read_byte|].
    cbv zeta. rewrite initial_major, Z.eqb_refl by lia. done. }
  repeat case_goal; zbool; unfold U8_MAX, U16_MAX, U32_MAX in *;
    apply Hexp; try (rewrite ?wrap8_id by (unfold u8, U8_MAX; lia); lia);
    unfold Decoder_read_argument; cbv zeta.
  - rewrite wrap8_id by (unfold u8, U8_MAX; lia).
    rewrite initial_ai by lia. rewrite (proj2 (Z.leb_le _ _)) by lia. apply decodes_ret.
  - rewrite initial_ai by lia. rewrite wrap8_id by (unfold u8, U8_MAX; lia).
    apply decodes_read_byte.
  - rewrite initial_ai by lia. rewrite wrap16_id by (unfold u16, U16_MAX; lia).
    apply (decodes_read_be 2). lia.
  - rewrite initial_ai by lia. rewrite wrap32_id by (unfold u32, U32_MAX; lia).
    apply (decodes_read_be 4). lia.
  - rewrite initial_ai by lia. apply (decodes_read_be 8). lia.
Qed.

Lemma first_major_write major v :
  0 <= major <= 7 -> 0 <= v -> first_major (Encoder_write_type_and_arg major v) = Some major.
Proof.
  intros Hm Hv. unfold Encoder_write_type_and_arg.
  repeat case_goal; zbool; simpl; f_equal; apply initial_major; try lia.
  rewrite wrap8_id; unfold u8, U8_MAX; lia.
Qed.

(** The initial byte the encoder writes never has the indefinite marker. *)
Lemma write_head major v :
  0 <= major <= 7 -> 0 <= v ->
  exists b rest, Encoder_write_type_and_arg major v = b :: rest
    /\ Z.shiftr b 5 = major /\ 0 <= Z.land b 31 <= 27.
Proof.
  intros Hm Hv. unfold Encoder_write_type_and_arg.
  repeat case_goal; zbool; eexists _, _; (split; [reflexivity|]);
    rewrite ?wrap8_id by (unfold u8, U8_MAX; lia);
    rewrite initial_major, initial_ai by lia; lia.
Qed.

(** ** One lemma per writer and reader pair *)

Lemma u64_zlength {A} (l : list A) : zlength l <= ISIZE_MAX -> u64 (zlength l).
Proof.
  pose proof (zlength_nonneg l). unfold u64, U64_MAX, ISIZE_MAX. lia.
Qed.

Lemma u64_small v : 0 <= v <= 4294967295 -> u64 v.
Proof. unfold u64, U64_MAX. lia. Qed.

Lemma decodes_unsigned v : u64 v -> decodes Decoder_unsigned (Encoder_unsigned v) v.
Proof. apply decodes_write_type_and_arg. unfold MAJOR_UNSIGNED. lia. Qed.
Lemma decodes_negative v : u64 v -> decodes Decoder_negative (Encoder_negative v) v.
Proof. apply decodes_write_type_and_arg. unfold MAJOR_NEGATIVE. lia. Qed.
Lemma decodes_array v : u64 v -> decodes Decoder_array (Encoder_array v) v.
Proof. apply decodes_write_type_and_arg. unfold MAJOR_ARRAY. lia. Qed.
Lemma decodes_map v : u64 v -> decodes Decoder_map (Encoder_map v) v.
Proof. apply decodes_write_type_and_arg. unfold MAJOR_MAP. lia. Qed.
Lemma decodes_tag v : u64 v -> decodes Decoder_tag (Encoder_tag v) v.
Proof. apply decodes_write_type_and_arg. unfold MAJOR_TAG. lia. Qed.

(** Inputs longer than [isize::MAX] do not exist, so a length found in the
    input is a [u64] without a side condition. *)
Lemma decodes_if_fits {A} (m : Dec A) bs a :
  (zlength bs <= ISIZE_MAX -> decodes m bs a) -> decodes m bs a.
Proof.
  intros H pre suf Hlen. apply H; [|done]. autorewrite with zlen in Hlen.
  pose proof (zlength_nonneg pre). pose proof (zlength_nonneg suf). lia.
Qed.

Lemma decodes_bytes bs : decodes Decoder_bytes (Encoder_bytes bs) bs.
Proof.
  apply decodes_if_fits. intros Hfit. unfold Encoder_bytes in *.
  autorewrite with zlen in Hfit.
  pose proof (zlength_nonneg (Encoder_write_type_and_arg MAJOR_BYTES (zlength bs))).
  eapply decodes_bind; [|apply decodes_read_exact].
  apply decodes_write_type_and_arg; [unfold MAJOR_BYTES; lia|].
  apply u64_zlength. lia.
Qed.

Lemma decodes_text s : utf8_valid s = true -> decodes Decoder_text (Encoder_text s) s.
Proof.
  intros Hs. apply decodes_if_fits. intros Hfit. unfold Encoder_text in *.
  autorewrite with zlen in Hfit.
  pose proof (zlength_nonneg (Encoder_write_type_and_arg MAJOR_TEXT (zlength s))).
  eapply decodes_bind.
  - apply decodes_write_type_and_arg; [unfold MAJOR_TEXT; lia|]. apply u64_zlength. lia.
  - eapply decodes_bind_ret; [apply decodes_read_exact|]. rewrite Hs. apply decodes_ret.
Qed.

Lemma decodes_wrapped bs : decodes Decoder_wrapped (Encoder_wrapped bs) bs.
Proof.
  eapply decodes_bind; [apply decodes_tag; by apply u64_small|]. apply decodes_bytes.
Qed.

Lemma decodes_null : decodes Decoder_null Encoder_null tt.
Proof. eapply decodes_bind_ret; [apply decodes_read_byte|]. apply decodes_ret. Qed.

Lemma decodes_bool b : decodes Decoder_bool (Encoder_bool b) b.
Proof.
  eapply decodes_bind_ret; [apply decodes_read_byte|]. destruct b; apply decodes_ret.
Qed.

Lemma decodes_break : decodes Decoder_consume_break Encoder_break_stop tt.
Proof. eapply decodes_bind_ret; [apply decodes_read_byte|]. apply decodes_ret. Qed.

Lemma decodes_integer v : i64 v -> decodes Decoder_integer (Encoder_integer v) v.
Proof.
  unfold i64, I64_MIN, I64_MAX. intros Hv. unfold Encoder_integer.
  case_goal; zbool; (eapply decodes_peek;
    [apply peek_major_at, first_major_write; unfold MAJOR_UNSIGNED, MAJOR_NEGATIVE; lia|]).
  - eapply decodes_bind_ret; [apply decodes_unsigned; unfold u64, U64_MAX; lia|].
    apply decodes_lift. unfold i64_try_from, I64_MAX.
    by rewrite (proj2 (Z.leb_le _ _)) by lia.
  - eapply decodes_bind_ret; [apply decodes_negative; unfold u64, U64_MAX; lia|].
    eapply decodes_bind0.
    + apply decodes_lift. unfold i64_try_from, I64_MAX.
      by rewrite (proj2 (Z.leb_le _ _)) by lia.
    + replace v with (-1 - (-1 - v)) at 2 by lia. apply decodes_ret.
Qed.

(** Array headers read with [array_begin], [array_or_set]. *)
Lemma decodes_array_or_set v : u64 v -> decodes Decoder_array_or_set (Encoder_array v) v.
Proof.
  intros Hv pre suf Hlen. unfold Decoder_array_or_set.
  rewrite (peek_major_at _ MAJOR_ARRAY);
    [|apply first_major_write; unfold MAJOR_ARRAY, u64 in *; lia].
  by apply decodes_array.
Qed.

Lemma decodes_array_or_set_tagged v :
  u64 v -> decodes Decoder_array_or_set (Encoder_tag 258 ++ Encoder_array v) v.
Proof.
  intros Hv pre suf Hlen. unfold Decoder_array_or_set.
  rewrite (peek_major_at _ MAJOR_TAG);
    [|apply first_major_app, first_major_write; unfold MAJOR_TAG; lia].
  cbn [obind]. change (MAJOR_TAG =? MAJOR_TAG) with true. cbv iota.
  rewrite <- !(assoc_L (++)) in *. rewrite decodes_tag; [|by apply u64_small|done].
  cbn [obind]. change (negb (258 =? 258)) with false. cbv iota.
  rewrite decodes_array; rewrite <- ?(assoc_L (++)); done.
Qed.

Lemma decodes_array_begin v :
  u64 v -> decodes Decoder_array_begin (Encoder_array v) (Some v).
Proof.
  intros Hv. destruct (write_head MAJOR_ARRAY v) as (b & rest & Hw & Hm & Ha);
    [unfold MAJOR_ARRAY, u64 in *; lia..|].
  unfold Encoder_array. rewrite Hw. eapply decodes_peek; [apply peek_byte_at|].
  cbv zeta. rewrite Hm, (proj2 (Z.eqb_neq (Z.land b 31) AI_INDEF)) by (unfold AI_INDEF; lia).
  simpl. rewrite <- Hw. eapply decodes_bind_ret; [by apply decodes_array|apply decodes_ret].
Qed.

Lemma decodes_array_begin_indef : decodes Decoder_array_begin Encoder_array_indef None.
Proof.
  eapply decodes_peek; [apply peek_byte_at|].
  eapply decodes_bind_ret; [apply decodes_bump|apply decodes_ret].
Qed.

(** ** Counted loops *)

Lemma decodes_for {A} (items : list A) (enc : A -> list Z) (m : Dec A) acc :
  (forall x, x ∈ items -> decodes m (enc x) x) ->
  decodes (dfor (zlength items) (fun acc => x <- m ;; dret (acc ++ [x])) acc)
    (concat (map enc items)) (acc ++ items).
Proof.
  intros Hm pre suf Hlen. unfold dfor, zlength. rewrite for_count_nat.
  revert acc pre Hlen. induction items as [|x items IH]; intros acc pre Hlen.
  - simpl. by rewrite !app_nil_r.
  - cbn [map concat length nat_iterM] in *.
    rewrite <- !(assoc_L (++)) in *. unfold dbind at 1. simpl.
    rewrite Hm by (set_solver || done). simpl.
    rewrite IH.
    + by rewrite <- !(assoc_L (++)).
    + set_solver.
    + rewrite <- !(assoc_L (++)). done.
Qed.

Lemma decodes_count {A} (items : list A) (enc : A -> list Z) (m : Dec A) :
  (forall x, x ∈ items -> decodes m (enc x) x) ->
  decodes (decode_count (zlength items) m) (concat (map enc items)) items.
Proof. intros. by apply (decodes_for items enc m []). Qed.

(** ** Readers stay inside the input *)

Definition advanced (strict : bool) (d d' : Decoder) : Prop :=
  dec_wf d' /\ data d' = data d /\ pos d + (if strict then 1 else 0) <= pos d'.

(** The bytes left; the measure of recursion and of break-terminated loops. *)
Definition left_of (d : Decoder) : nat := Z.to_nat (zlength (data d) - pos d).

(** [reads n b m]: from a well-formed decoder with fewer than [n] bytes left,
    [m] does not run out of fuel, and when it succeeds it leaves the input
    untouched and a well-formed position that is no smaller, and is larger
    when [b] is [true]. *)
Definition reads {A} (n : nat) (strict : bool) (m : Dec A) : Prop :=
  forall d, dec_wf d -> (left_of d < n)%nat -> post (fun r => advanced strict d r.2) (m d).

Lemma advanced_trans s1 s2 d1 d2 d3 :
  advanced s1 d1 d2 -> advanced s2 d2 d3 -> advanced (s1 || s2) d1 d3.
Proof.
  intros (?&He1&?) (?&He2&?). split_and!; [done|congruence|].
  destruct s1, s2; simpl; lia.
Qed.

Lemma advanced_weaken s d d' : advanced s d d' -> advanced false d d'.
Proof. intros (?&?&?). split_and!; [done..|]. destruct s; lia. Qed.

Lemma advanced_refl d : dec_wf d -> advanced false d d.
Proof. intros. split_and!; [done..|lia]. Qed.

Lemma advanced_left s d d' :
  advanced s d d' -> (left_of d' + (if s then 1 else 0) <= left_of d)%nat.
Proof.
  intros ((?&?&?)&He&?). unfold left_of. rewrite He in *. destruct s; lia.
Qed.

Lemma left_of_fuel d : dec_wf d -> (left_of d < dec_fuel d)%nat.
Proof. intros (?&?&?). unfold left_of, dec_fuel, zlength in *. lia. Qed.

Lemma reads_weaken {A} n s (m : Dec A) : reads n s m -> reads n false m.
Proof.
  intros H d Hd Hn. eapply post_mono; [by apply H|]. intros a. apply advanced_weaken.
Qed.

Lemma reads_bind {A B} n s1 s2 (m : Dec A) (k : A -> Dec B) :
  reads n s1 m -> (forall a, reads n s2 (k a)) -> reads n (s1 || s2) (dbind m k).
Proof.
  intros Hm Hk d Hd Hn. eapply post_bind; [by apply Hm|]. intros [a d1] H1.
  eapply post_mono; [apply Hk; [apply H1|apply advanced_left in H1; simpl in *; lia]|].
  intros r Hr. by eapply advanced_trans.
Qed.

(** After a reader that consumed a byte, the rest has less to read. *)
Lemma reads_bind_rec {A B} n (m : Dec A) (k : A -> Dec B) :
  (forall n, reads n true m) -> (forall a, reads n false (k a)) ->
  reads (S n) true (dbind m k).
Proof.
  intros Hm Hk d Hd Hn. eapply post_bind; [by apply (Hm (S n))|]. intros [a d1] H1.
  eapply post_mono; [apply Hk; [apply H1|apply advanced_left in H1; simpl in *; lia]|].
  intros r Hr. by eapply (advanced_trans true false).
Qed.

Lemma reads_bind_l {A B} n (m : Dec A) (k : A -> Dec B) :
  reads n true m -> (forall a, reads n false (k a)) -> reads n true (dbind m k).
Proof. apply (reads_bind n true false). Qed.
Lemma reads_bind_r {A B} n s (m : Dec A) (k : A -> Dec B) :
  reads n false m -> (forall a, reads n s (k a)) -> reads n s (dbind m k).
Proof. apply (reads_bind n false s). Qed.

Lemma reads_ret {A} n (a : A) : reads n false (dret a).
Proof. intros d Hd _. by apply advanced_refl. Qed.
Lemma reads_err {A} n s e : reads n s (@derr A e).
Proof. by intros d Hd. Qed.
Lemma reads_lift {A} n (m : outcome LedgerError A) :
  m <> OutOfFuel -> reads n false (dlift m).
Proof. intros Hm d Hd _. destruct m; simpl; try done. by apply advanced_refl. Qed.

Lemma peek_byte_inv d b :
  dec_wf d -> Decoder_peek_byte d = Ok b -> pos d < zlength (data d) /\ u8 b.
Proof.
  intros (Hp & _ & Hb) H. unfold Decoder_peek_byte, ok_or in H.
  destruct (_ !! _) as [b'|] eqn:E; [|done]. injection H as ->.
  split; [apply lookup_lt_Some in E; unfold zlength; lia|].
  by eapply Forall_lookup_1 in Hb.
Qed.

Lemma bump_spec d :
  dec_wf d -> pos d < zlength (data d) ->
  Decoder_bump d = Ok (tt, mkDecoder (data d) (pos d + 1))
  /\ advanced true d (mkDecoder (data d) (pos d + 1)).
Proof.
  intros (Hp & Hl & Hb) Hlt. unfold Decoder_bump.
  rewrite wrap64_id by (unfold u64, U64_MAX, ISIZE_MAX in *; lia).
  split; [done|]. repeat split; simpl; [lia..|done|lia].
Qed.

Lemma peek_byte_fuel d : Decoder_peek_byte d <> OutOfFuel.
Proof. unfold Decoder_peek_byte. by destruct (_ !! _). Qed.
Lemma peek_major_fuel d : Decoder_peek_major d <> OutOfFuel.
Proof. unfold Decoder_peek_major, Decoder_peek_byte. by destruct (_ !! _). Qed.

Lemma reads_peek {A B} n s (f : Decoder -> outcome LedgerError A) (k : A -> Dec B) :
  (forall d, f d <> OutOfFuel) ->
  (forall a, reads n s (k a)) -> reads n s (dbind (dget f) k).
Proof.
  intros Hf Hk d Hd Hn. unfold dbind, dget. specialize (Hf d).
  destruct (f d); simpl; try done. by apply Hk.
Qed.

(** A byte that was peeked can be stepped over. *)
Lemma reads_peek_byte {A} n (k : Z -> Dec A) :
  (forall b, reads n true (k b)
     \/ exists m : Dec A, k b = (Decoder_bump ;;; m) /\ reads n false m) ->
  reads n true (dbind (dget Decoder_peek_byte) k).
Proof.
  intros Hk d Hd Hn. unfold dbind at 1, dget.
  destruct (Decoder_peek_byte d) as [b| | |] eqn:E; cbn [obind fst snd]; try done.
  - destruct (Hk b) as [Hb|(m & -> & Hm)]; [by apply Hb|].
    apply peek_byte_inv in E as [Hlt _]; [|done].
    destruct (bump_spec d Hd Hlt) as [Hbump Hadv]. unfold dbind. rewrite Hbump.
    cbn [obind fst snd]. pose proof (advanced_left _ _ _ Hadv).
    eapply post_mono; [apply Hm; [apply Hadv|simpl in *; lia]|].
    intros r Hr. by eapply (advanced_trans true false).
  - by apply peek_byte_fuel in E.
Qed.

Lemma reads_read_byte n : reads n true Decoder_read_byte.
Proof.
  apply reads_peek_byte. intros b. right. eexists. split; [done|]. apply reads_ret.
Qed.

Lemma reads_read_exact n len : reads n false (Decoder_read_exact len).
Proof.
  intros d (Hp & Hl & Hb) _. unfold Decoder_read_exact.
  destruct (_ <? _) eqn:E1; [done|]. destruct (wrap64 _ <? pos d) eqn:E2; [done|].
  zbool. repeat split; simpl; lia || done.
Qed.

Lemma reads_read_argument n b : reads n false (Decoder_read_argument b).
Proof.
  unfold Decoder_read_argument. cbv zeta. repeat case_match;
    first [apply reads_ret | apply reads_err
          | by eapply reads_weaken, reads_read_byte
          | apply reads_bind_r; [apply reads_read_exact | intros; apply reads_ret]].
Qed.

Lemma reads_expect_major n m : reads n true (Decoder_expect_major m).
Proof.
  apply reads_bind_l; [apply reads_read_byte|]. intros b. cbv zeta.
  case_match; [apply reads_err | apply reads_read_argument].
Qed.

Lemma reads_bytes n : reads n true Decoder_bytes.
Proof. apply reads_bind_l; [apply reads_expect_major | apply reads_read_exact]. Qed.

Lemma reads_consume_break n : reads n true Decoder_consume_break.
Proof.
  apply reads_bind_l; [apply reads_read_byte|]. intros b.
  case_match; [apply reads_ret | apply reads_err].
Qed.

(** A counted loop of readers is a reader. *)
Lemma reads_for {S} n c (m : S -> Dec S) s :
  (forall s, reads n false (m s)) -> reads n false (dfor c m s).
Proof.
  intros Hm d Hd Hn. apply (post_for_count (fun r => advanced false d r.2)).
  - intros [s1 d1] H1. simpl in *.
    eapply post_mono; [apply Hm; [apply H1|apply advanced_left in H1; simpl in *; lia]|].
    intros r Hr. eapply (advanced_trans false false); eassumption.
  - by apply advanced_refl.
Qed.

(** A loop whose every turn consumes input is a reader, given one unit of
    fuel more than there are bytes left. *)
Lemma reads_loopM {S A} (dec_of : S -> Decoder)
    (body : S -> outcome LedgerError (S + A * Decoder)) n s d :
  (forall s, dec_wf (dec_of s) -> (left_of (dec_of s) < n)%nat ->
     post (fun r => match r with
                    | inl s' => advanced true (dec_of s) (dec_of s')
                    | inr p => advanced true (dec_of s) p.2
                    end) (body s)) ->
  dec_of s = d -> dec_wf d -> (left_of d < n)%nat ->
  post (fun r => advanced true d r.2) (loopM n body s).
Proof.
  intros Hb <- Hd Hf.
  apply (post_loopM (fun s' => advanced false (dec_of s) (dec_of s')) _
           (fun s' => left_of (dec_of s'))).
  - intros s1 H1. pose proof (advanced_left _ _ _ H1). simpl in *.
    eapply post_mono; [apply Hb; [apply H1|lia]|].
    intros [s2|[a d2]]; simpl; intros H2.
    + split; [by eapply advanced_weaken, (advanced_trans false true)|].
      apply advanced_left in H2. lia.
    + by eapply (advanced_trans false true).
  - by apply advanced_refl.
  - done.
Qed.

Lemma reads_array_begin n : reads n true Decoder_array_begin.
Proof.
  apply reads_peek_byte. intros b. cbv zeta. case_match; [left; apply reads_err|].
  case_match; [right; eexists; split; [done|apply reads_ret]|left].
  apply reads_bind_l; [apply reads_expect_major|intros; apply reads_ret].
Qed.

Lemma reads_map_begin n : reads n true Decoder_map_begin.
Proof.
  apply reads_peek_byte. intros b. cbv zeta. case_match; [left; apply reads_err|].
  case_match.
  - right. eexists. split; [done|]. apply reads_ret.
  - left. apply reads_bind_l; [apply reads_expect_major | intros; apply reads_ret].
Qed.

(** The chunk loop consumes a byte at every turn. *)
Lemma reads_chunk_loop n (chunk : Dec (list Z)) :
  (forall n, reads n true chunk) ->
  reads n false (fun d => chunk_loop (dec_fuel d) chunk d).
Proof.
  intros Hc d Hd _. unfold chunk_loop.
  eapply post_mono; [apply (reads_loopM (fun s : list Z * Decoder => s.2) _ _ _ d)|];
    [|done|done|by apply left_of_fuel|intros r; apply advanced_weaken].
  intros [acc d1] Hd1 _. simpl in Hd1.
  destruct (Decoder_peek_byte d1) as [b| | |] eqn:E; cbn [obind]; try done.
  - apply peek_byte_inv in E as [Hlt _]; [|done]. case_match.
    + destruct (bump_spec d1 Hd1 Hlt) as [-> Hadv]. done.
    + eapply post_bind; [by apply (Hc (S (left_of d1))); [|lia]|]. by intros [c d2].
  - by apply peek_byte_fuel in E.
Qed.

Lemma reads_bytes_owned n : reads n true Decoder_bytes_owned.
Proof.
  apply reads_peek_byte. intros b. cbv zeta. case_match; [left; apply reads_err|].
  case_match; [|left; apply reads_bytes].
  right. eexists. split; [done|]. apply reads_chunk_loop. intros m. apply reads_bytes.
Qed.

Lemma decodes_map_begin v :
  u64 v -> decodes Decoder_map_begin (Encoder_map v) (Some v).
Proof.
  intros Hv. destruct (write_head MAJOR_MAP v) as (b & rest & Hw & Hm & Ha);
    [unfold MAJOR_MAP, u64 in *; lia..|].
  unfold Encoder_map. rewrite Hw. eapply decodes_peek; [apply peek_byte_at|].
  cbv zeta. rewrite Hm, (proj2 (Z.eqb_neq (Z.land b 31) AI_INDEF)) by (unfold AI_INDEF; lia).
  simpl. rewrite <- Hw. eapply decodes_bind_ret; [by apply decodes_map|apply decodes_ret].
Qed.

Lemma decodes_bytes_owned bs : decodes Decoder_bytes_owned (Encoder_bytes bs) bs.
Proof.
  apply decodes_if_fits. intros Hfit.
  destruct (write_head MAJOR_BYTES (zlength bs)) as (b & rest & Hw & Hm & Ha);
    [by unfold MAJOR_BYTES|..].
  { apply u64_zlength. unfold Encoder_bytes in Hfit. rewrite zlength_app in Hfit.
    pose proof (zlength_nonneg (Encoder_write_type_and_arg MAJOR_BYTES (zlength bs))). lia. }
  pose proof (decodes_bytes bs) as Hb. unfold Encoder_bytes in *. rewrite Hw in *. simpl app in *.
  eapply decodes_peek; [apply peek_byte_at|]. cbv zeta.
  rewrite Hm, (proj2 (Z.eqb_neq (Z.land b 31) AI_INDEF)) by (unfold AI_INDEF; lia). exact Hb.
Qed.

Lemma encode_bytes_head c :
  zlength c <= ISIZE_MAX ->
  exists h t, Encoder_bytes c = h :: t /\ (h =? BREAK) = false.
Proof.
  intros Hc. destruct (write_head MAJOR_BYTES (zlength c)) as (b & rest & Hw & Hm & _);
    [by unfold MAJOR_BYTES|by apply u64_zlength|].
  exists b, (rest ++ c). unfold Encoder_bytes. rewrite Hw. split; [done|].
  apply Z.eqb_neq. intros ->. done.
Qed.

(** The chunk loop over definite chunks followed by the break byte. *)
Lemma chunk_loop_chunks cs acc pre suf fuel :
  zlength (pre ++ concat (map Encoder_bytes cs) ++ 255 :: suf) <= ISIZE_MAX ->
  (length cs < fuel)%nat ->
  loopM fuel
    (fun '(assembled, d) =>
       let? b := Decoder_peek_byte d in
       if b =? BREAK then let? (_, d) := Decoder_bump d in Ok (inr (assembled, d))
       else let? (c, d) := Decoder_bytes_definite d in Ok (inl (assembled ++ c, d)))
    (acc, at_ pre (concat (map Encoder_bytes cs) ++ 255 :: suf))
  = Ok (acc ++ concat cs, at_ ((pre ++ concat (map Encoder_bytes cs)) ++ [255]) suf).
Proof.
  revert acc pre fuel. induction cs as [|c cs IH]; intros acc pre [|fuel] Hlen Hf; try (simpl in Hf; lia).
  - cbn [map concat] in *. rewrite !app_nil_l in *. cbn [loopM].
    change (255 :: suf) with ([255] ++ suf) in *. rewrite (peek_byte_at 255 [] pre suf).
    cbn [obind]. change (255 =? BREAK) with true. cbv iota.
    rewrite (decodes_bump 255 pre suf) by done. cbn [obind]. by rewrite !app_nil_r.
  - cbn [map concat] in *. rewrite <- !(assoc_L (++)) in *.
    assert (Hc : zlength c <= ISIZE_MAX).
    { autorewrite with zlen in Hlen. assert (zlength c <= zlength (Encoder_bytes c)).
      { unfold Encoder_bytes. rewrite zlength_app.
        pose proof (zlength_nonneg (Encoder_write_type_and_arg MAJOR_BYTES (zlength c))). lia. }
      pose proof (zlength_nonneg pre). pose proof (zlength_nonneg suf).
      pose proof (zlength_nonneg (concat (map Encoder_bytes cs))). lia. }
    destruct (encode_bytes_head c Hc) as (h & t & He & Hh). cbn [loopM].
    pose proof (decodes_bytes c pre (concat (map Encoder_bytes cs) ++ 255 :: suf) Hlen) as Hd.
    rewrite He in *. rewrite (peek_byte_at h t). cbn [obind]. rewrite Hh.
    unfold Decoder_bytes in Hd. rewrite Hd. cbn [obind]. rewrite <- He in *.
    rewrite IH; [by rewrite <- !(assoc_L (++))|by rewrite <- !(assoc_L (++))|simpl in Hf; lia].
Qed.

(** An indefinite byte string of definite chunks. *)
Lemma decodes_bytes_owned_chunks (cs : list (list Z)) :
  decodes Decoder_bytes_owned ([95] ++ concat (map Encoder_bytes cs) ++ [255]) (concat cs).
Proof.
  simpl app. eapply decodes_peek; [apply peek_byte_at|]. cbv zeta.
  change (95 :: ?l) with ([95] ++ l). eapply decodes_bind; [apply decodes_bump|].
  intros pre suf Hlen. rewrite <- !(assoc_L (++)) in *. unfold chunk_loop.
  change ([255] ++ suf) with (255 :: suf) in *. rewrite chunk_loop_chunks; [by rewrite <- !(assoc_L (++))|done|].
  unfold dec_fuel, at_. simpl. rewrite !length_app.
  assert (length cs <= length (concat (map Encoder_bytes cs)))%nat; [|lia].
  clear. induction cs as [|c cs IH]; simpl; [lia|]. rewrite length_app.
  assert (1 <= length (Encoder_bytes c))%nat; [|lia].
  unfold Encoder_bytes, Encoder_write_type_and_arg. repeat case_match; simpl; lia.
Qed.

(** A counted loop reads the encodings of its items, folding them in. *)
Lemma decodes_dfor {A S} (items : list A) (enc : A -> list Z) (step : S -> A -> S)
    (m : S -> Dec S) s :
  (forall s x, x ∈ items -> decodes (m s) (enc x) (step s x)) ->
  decodes (dfor (zlength items) m s) (concat (map enc items)) (foldl step s items).
Proof.
  intros Hm pre suf Hlen. unfold dfor, zlength. rewrite for_count_nat.
  revert s pre Hlen. induction items as [|x items IH]; intros s pre Hlen.
  - simpl. by rewrite app_nil_r.
  - cbn [map concat length nat_iterM foldl] in *. rewrite <- !(assoc_L (++)) in *. simpl.
    rewrite Hm by (set_solver || done). simpl. rewrite IH.
    + by rewrite <- !(assoc_L (++)).
    + set_solver.
    + by rewrite <- !(assoc_L (++)).
Qed.

Lemma zlength_concat {A} (items : list A) (enc : A -> list Z) :
  (forall x, x ∈ items -> 1 <= zlength (enc x)) -> zlength items <= zlength (concat (map enc items)).
Proof.
  induction items as [|x l IH]; intros H; [done|]. cbn [map concat].
  rewrite zlength_cons, zlength_app. pose proof (H x ltac:(set_solver)).
  specialize (IH ltac:(intros; apply H; set_solver)). lia.
Qed.


(** ** Hints *)

Create HintDb cbor.
#[export] Hint Resolve decodes_unsigned decodes_negative decodes_array decodes_map
  decodes_tag decodes_bytes decodes_text decodes_wrapped decodes_null decodes_bool
  decodes_break decodes_integer decodes_array_or_set decodes_ret u64_small : cbor.

(** Normalise the concatenations of an encoder chain to the right and run the
    decoder step by step along it. *)
Ltac dec_step :=
  match goal with
  | |- decodes (dret _) [] _ => apply decodes_ret
  | |- decodes (dbind _ _) (_ ++ _) _ => eapply decodes_bind; [solve [eauto with cbor]|]
  | |- decodes (dbind _ _) _ _ => eapply decodes_bind_ret; [solve [eauto with cbor]|]
  | |- decodes _ _ _ => solve [eauto with cbor]
  end.
Ltac dec_steps := rewrite <- ?(assoc_L (++)); repeat (dec_step; cbv beta iota; simpl negb; cbv iota).
