(* ===== verification/CborSkip.v ===== *)
(** * Skipping CBOR items and slicing block spans

    Model of [Decoder::skip], [Decoder::raw_value] and
    [extract_block_tx_byte_spans] of [crates/ledger/src/cbor.rs]: the code
    that walks untyped CBOR. The theorems show that it always terminates
    inside the input, that it skips exactly one data item, and that the spans
    it returns are the bytes of the items. *)

From S2P Require Import Prelude Cbor CborFacts.
Local Open Scope Z_scope.

(** ** Definitions *)

(** [loop { if self.peek_byte()? == BREAK { self.pos += 1; break; } item }] *)
Definition skip_until_break (fuel : nat) (item : Dec unit) : Dec unit :=
  fun d =>
    loopM fuel
      (fun d =>
         let? b := Decoder_peek_byte d in
         if b =? BREAK then let? r := Decoder_bump d in Ok (inr r)
         else let? (_, d) := item d in Ok (inl d))
      d.

(** [for _ in 0..count { item }] *)
Definition skip_count (count : Z) (item : Dec unit) : Dec unit :=
  dfor count (fun _ => item) tt.

(** The [match major] of [Decoder::skip], after the initial byte. *)
Definition skip_body (fuel : nat) (skip : Dec unit) (initial major ai : Z) : Dec unit :=
  if (major =? MAJOR_UNSIGNED) || (major =? MAJOR_NEGATIVE) then
    Decoder_read_argument initial ;;; dret tt
  else if (major =? MAJOR_BYTES) || (major =? MAJOR_TEXT) then
    if ai =? AI_INDEF then skip_until_break fuel skip
    else len <- Decoder_read_argument initial ;; Decoder_read_exact len ;;; dret tt
  else if major =? MAJOR_ARRAY then
    if ai =? AI_INDEF then skip_until_break fuel skip
    else count <- Decoder_read_argument initial ;; skip_count count skip
  else if major =? MAJOR_MAP then
    if ai =? AI_INDEF then skip_until_break fuel (skip ;;; skip)
    else count <- Decoder_read_argument initial ;; skip_count count (skip ;;; skip)
  else if major =? MAJOR_SIMPLE then
    if ai <=? 23 then dret tt
    else if ai =? 24 then Decoder_read_byte ;;; dret tt
    else if ai =? 25 then Decoder_read_exact 2 ;;; dret tt
    else if ai =? 26 then Decoder_read_exact 4 ;;; dret tt
    else if ai =? 27 then Decoder_read_exact 8 ;;; dret tt
    else derr (CborInvalidAdditionalInfo ai)
  else if major =? MAJOR_TAG then Decoder_read_argument initial ;;; skip
  else derr (CborInvalidAdditionalInfo major).

(** [Decoder::skip]; the fuel bounds the nesting depth. *)
Fixpoint skip_fuel (fuel : nat) (d : Decoder) : outcome LedgerError (unit * Decoder) :=
  match fuel with
  | O => OutOfFuel
  | S fuel =>
      (initial <- Decoder_read_byte ;;
       skip_body fuel (skip_fuel fuel) initial (Z.shiftr initial 5) (Z.land initial 31)) d
  end.

Definition Decoder_skip : Dec unit := fun d => skip_fuel (dec_fuel d) d.

Definition Decoder_raw_value : Dec (list Z) :=
  fun d =>
    let? (_, d') := Decoder_skip d in
    let? raw := Decoder_slice (pos d) (pos d') d' in
    Ok (raw, d').

(** ** Spans of a block *)

Record BlockTxRawSpans := mkSpans { bodies : list (list Z); witness_sets : list (list Z) }.

(** One turn of the span loops: remember the position, skip, slice. *)
Definition span_item : Dec (list Z) :=
  fun d =>
    let start := Decoder_position d in
    let? (_, d') := Decoder_skip d in
    let? s := Decoder_slice start (Decoder_position d') d' in
    Ok (s, d').

(** The [while !dec.is_break()] loop with its element bound: one turn, and the
    loop. *)
Definition spans_turn (st : list (list Z) * Decoder)
    : outcome LedgerError
        (list (list Z) * Decoder + list (list Z) * Decoder) :=
  let '(out, d) := st in
  if Decoder_is_break d then
    let? (_, d) := Decoder_consume_break d in Ok (inr (out, d))
  else if BLOCK_BODY_ELEMENTS_MAX <=? zlength out then
    Err (CborInvalidLength BLOCK_BODY_ELEMENTS_MAX (zlength out + 1))
  else
    let? (s, d) := span_item d in Ok (inl (out ++ [s], d)).
Definition spans_until_break (fuel : nat) : Dec (list (list Z)) :=
  fun d => loopM fuel spans_turn ([], d).

Definition collect_indefinite_or_definite_spans : Dec (list (list Z)) :=
  len <- Decoder_array_begin ;;
  match len with
  | Some count => decode_count count span_item
  | None => fun d => spans_until_break (dec_fuel d) d
  end.

(** The second half of [extract_block_tx_byte_spans]: the block itself. *)
Definition extract_inner (raw_block : list Z) : outcome LedgerError BlockTxRawSpans :=
  let? (outer_len, d) := Decoder_array_begin (Decoder_new raw_block) in
  let? _ := match outer_len with
            | Some n => if n <? 3 then Err (CborInvalidLength 3 n) else Ok tt
            | None => Ok tt
            end in
  let? (_, d) := Decoder_skip d in
  let? (bs, d) := collect_indefinite_or_definite_spans d in
  let? (ws, d) := collect_indefinite_or_definite_spans d in
  Ok (mkSpans bs ws).

(** [extract_block_tx_byte_spans]; the fuel bounds the number of
    [[era, block]] envelopes that are unwrapped. *)
Fixpoint extract_fuel (fuel : nat) (raw_block : list Z)
    : outcome LedgerError BlockTxRawSpans :=
  match fuel with
  | O => OutOfFuel
  | S fuel =>
    let? (outer_envelope, envelope) := Decoder_array_begin (Decoder_new raw_block) in
    match outer_envelope with
    | Some 2 =>
        match Decoder_unsigned envelope with
        | Ok (_, envelope) =>
            let? (inner, envelope) := Decoder_raw_value envelope in
            if Decoder_is_empty envelope || Decoder_is_break envelope
            then extract_fuel fuel inner
            else extract_inner raw_block
        | Err _ => extract_inner raw_block
        | Panic => Panic
        | OutOfFuel => OutOfFuel
        end
    | _ => extract_inner raw_block
    end
  end.

Definition extract_block_tx_byte_spans (raw_block : list Z)
    : outcome LedgerError BlockTxRawSpans :=
  extract_fuel (S (length raw_block)) raw_block.

(** A Mary-style block inside its era envelope: one body, one witness set. *)
Example spans_example :
  extract_block_tx_byte_spans
    ([130; 4] ++ [132; 130; 1; 2] ++ [129; 161; 0; 65; 7] ++ [159; 160; 255] ++ [160])
  = Ok (mkSpans [[161; 0; 65; 7]] [[160]]).
Proof. vm_compute. reflexivity. Qed.

(** ** Termination and progress of [skip] *)

Lemma reads_skip_until_break n item :
  reads n true item -> reads n true (skip_until_break n item).
Proof.
  intros Hi d Hd Hn. apply (reads_loopM (fun d => d)); [|done..].
  clear d Hd Hn. intros d Hd Hn.
  destruct (Decoder_peek_byte d) as [b| | |] eqn:E; cbn [obind]; try done.
  - destruct (b =? BREAK).
    + destruct (peek_byte_inv d b Hd E) as [Hlt _].
      by destruct (bump_spec d Hd Hlt) as [-> Hadv].
    + eapply post_bind; [by apply Hi|]. by intros [[] d'].
  - by apply peek_byte_fuel in E.
Qed.

Lemma reads_skip_count n count item :
  reads n true item -> reads n false (skip_count count item).
Proof. intros. apply reads_for. intros. by eapply reads_weaken. Qed.

Lemma reads_then {A} n s (m : Dec A) : reads n s m -> reads n s (m ;;; dret tt).
Proof.
  intros. rewrite <- (orb_false_r s). apply reads_bind; [done|intros; apply reads_ret].
Qed.

Lemma reads_skip_body n skip initial major ai :
  reads n true skip -> reads n false (skip_body n skip initial major ai).
Proof.
  intros IH. unfold skip_body.
  assert (reads n true (skip ;;; skip)) by (apply (reads_bind n true true); auto).
  repeat case_match;
    first
    [ apply reads_err | apply reads_ret
    | by eapply reads_weaken, reads_skip_until_break
    | apply reads_bind_r; [apply reads_read_argument|intros; by apply reads_skip_count]
    | apply reads_bind_r; [apply reads_read_argument|intros;
        first [apply reads_ret | by eapply reads_weaken
              | apply reads_then, reads_read_exact]]
    | apply reads_then; first [apply reads_read_exact | by eapply reads_weaken, reads_read_byte] ].
Qed.

Lemma reads_skip_fuel n : reads n true (skip_fuel n).
Proof.
  induction n as [|n IH]; [intros d Hd Hn; lia|].
  apply (reads_bind_rec n Decoder_read_byte); [apply reads_read_byte|].
  intros initial. by apply reads_skip_body.
Qed.

Lemma reads_skip n : reads n true Decoder_skip.
Proof. intros d Hd _. apply reads_skip_fuel; [done|by apply left_of_fuel]. Qed.

(** ** The data items of RFC 8949

    The grammar [skip] walks: every head may use any argument width that fits
    its value, not only the shortest one the encoder of the node writes. *)

Inductive arg_width := Arg0 | Arg1 | Arg2 | Arg4 | Arg8.

Definition arg_fits (w : arg_width) (v : Z) : bool :=
  (0 <=? v) &&
  match w with
  | Arg0 => v <=? 23
  | Arg1 => v <=? U8_MAX
  | Arg2 => v <=? U16_MAX
  | Arg4 => v <=? U32_MAX
  | Arg8 => v <=? U64_MAX
  end.

Definition arg_info (w : arg_width) (v : Z) : Z :=
  match w with Arg0 => v | Arg1 => 24 | Arg2 => 25 | Arg4 => 26 | Arg8 => 27 end.
Definition arg_bytes (w : arg_width) (v : Z) : list Z :=
  match w with
  | Arg0 => [] | Arg1 => [v] | Arg2 => to_be 2 v | Arg4 => to_be 4 v | Arg8 => to_be 8 v
  end.
Definition encode_head (major : Z) (w : arg_width) (v : Z) : list Z :=
  Z.lor (major_bits major) (arg_info w v) :: arg_bytes w v.
Definition encode_indef (major : Z) : list Z := [Z.lor (major_bits major) AI_INDEF].

#[warnings="-register-all"]
Inductive item :=
  | IInt (negative : bool) (w : arg_width) (v : Z)
  | IStr (text : bool) (w : arg_width) (bs : list Z)
  | IStrIndef (text : bool) (chunks : list item)
  | IArray (w : arg_width) (l : list item)
  | IArrayIndef (l : list item)
  | IMap (w : arg_width) (l : list (item * item))
  | IMapIndef (l : list (item * item))
  | ITag (w : arg_width) (t : Z) (i : item)
  | ISimple (v : Z)
  | IPayload (w : arg_width) (bs : list Z).

(** The payload sizes of simple values and floats. *)
Definition payload_len (w : arg_width) : Z :=
  match w with Arg0 => 0 | Arg1 => 1 | Arg2 => 2 | Arg4 => 4 | Arg8 => 8 end.
Definition payload_ok (w : arg_width) (bs : list Z) : bool :=
  match w with Arg0 => false | _ => zlength bs =? payload_len w end.

Definition int_major (negative : bool) : Z := if negative then MAJOR_NEGATIVE else MAJOR_UNSIGNED.
Definition str_major (text : bool) : Z := if text then MAJOR_TEXT else MAJOR_BYTES.

Fixpoint encode_item (it : item) : list Z :=
  match it with
  | IInt n w v => encode_head (int_major n) w v
  | IStr t w bs => encode_head (str_major t) w (zlength bs) ++ bs
  | IStrIndef t l => encode_indef (str_major t) ++ concat (map encode_item l) ++ [BREAK]
  | IArray w l => encode_head MAJOR_ARRAY w (zlength l) ++ concat (map encode_item l)
  | IArrayIndef l => encode_indef MAJOR_ARRAY ++ concat (map encode_item l) ++ [BREAK]
  | IMap w l =>
      encode_head MAJOR_MAP w (zlength l)
      ++ concat (map (fun p => encode_item p.1 ++ encode_item p.2) l)
  | IMapIndef l =>
      encode_indef MAJOR_MAP
      ++ concat (map (fun p => encode_item p.1 ++ encode_item p.2) l) ++ [BREAK]
  | ITag w t i => encode_head MAJOR_TAG w t ++ encode_item i
  | ISimple v => [Z.lor (major_bits MAJOR_SIMPLE) v]
  | IPayload w bs => Z.lor (major_bits MAJOR_SIMPLE) (arg_info w 0) :: bs
  end.

Fixpoint item_ok (it : item) : bool :=
  match it with
  | IInt _ w v => arg_fits w v
  | IStr _ w bs => arg_fits w (zlength bs)
  | IStrIndef _ l => forallb item_ok l
  | IArray w l => arg_fits w (zlength l) && forallb item_ok l
  | IArrayIndef l => forallb item_ok l
  | IMap w l => arg_fits w (zlength l) && forallb (fun p => item_ok p.1 && item_ok p.2) l
  | IMapIndef l => forallb (fun p => item_ok p.1 && item_ok p.2) l
  | ITag w t i => arg_fits w t && item_ok i
  | ISimple v => (0 <=? v) && (v <=? 23)
  | IPayload w bs => payload_ok w bs
  end.

(** Structural induction through the nested lists. *)
Section item_induction.
Variable P : item -> Prop.
Hypothesis HInt : forall n w v, P (IInt n w v).
Hypothesis HStr : forall t w bs, P (IStr t w bs).
Hypothesis HStrIndef : forall t l, Forall P l -> P (IStrIndef t l).
Hypothesis HArray : forall w l, Forall P l -> P (IArray w l).
Hypothesis HArrayIndef : forall l, Forall P l -> P (IArrayIndef l).
Hypothesis HMap : forall w l, Forall (fun p => P p.1 /\ P p.2) l -> P (IMap w l).
Hypothesis HMapIndef : forall l, Forall (fun p => P p.1 /\ P p.2) l -> P (IMapIndef l).
Hypothesis HTag : forall w t i, P i -> P (ITag w t i).
Hypothesis HSimple : forall v, P (ISimple v).
Hypothesis HPayload : forall w bs, P (IPayload w bs).

Fixpoint item_nested_ind (it : item) : P it :=
  let list_ind := fix list_ind (l : list item) : Forall P l :=
    match l with
    | [] => Forall_nil_2 _
    | x :: l => Forall_cons_2 _ x l (item_nested_ind x) (list_ind l)
    end in
  let pairs_ind := fix pairs_ind (l : list (item * item))
      : Forall (fun p => P p.1 /\ P p.2) l :=
    match l with
    | [] => Forall_nil_2 _
    | p :: l => Forall_cons_2 _ p l
                  (conj (item_nested_ind p.1) (item_nested_ind p.2)) (pairs_ind l)
    end in
  match it with
  | IInt n w v => HInt n w v
  | IStr t w bs => HStr t w bs
  | IStrIndef t l => HStrIndef t l (list_ind l)
  | IArray w l => HArray w l (list_ind l)
  | IArrayIndef l => HArrayIndef l (list_ind l)
  | IMap w l => HMap w l (pairs_ind l)
  | IMapIndef l => HMapIndef l (pairs_ind l)
  | ITag w t i => HTag w t i (item_nested_ind i)
  | ISimple v => HSimple v
  | IPayload w bs => HPayload w bs
  end.
End item_induction.

(** ** [skip] consumes exactly one item *)

Lemma arg_info_range w v : arg_fits w v = true -> 0 <= arg_info w v <= 27.
Proof. destruct w; unfold arg_fits; simpl; intros; zbool; lia. Qed.

Lemma decodes_arg major w v :
  0 <= major <= 7 -> arg_fits w v = true ->
  decodes (Decoder_read_argument (Z.lor (major_bits major) (arg_info w v))) (arg_bytes w v) v.
Proof.
  intros Hm Hf. pose proof (arg_info_range w v Hf). unfold Decoder_read_argument. cbv zeta.
  rewrite initial_ai by lia. unfold arg_fits, U8_MAX, U16_MAX, U32_MAX, U64_MAX in Hf.
  destruct w; simpl arg_info; simpl arg_bytes; zbool.
  - rewrite (proj2 (Z.leb_le _ _)) by lia. apply decodes_ret.
  - apply decodes_read_byte.
  - apply (decodes_read_be 2). lia.
  - apply (decodes_read_be 4). lia.
  - apply (decodes_read_be 8). lia.
Qed.

(** Reduce [skip] on a known initial byte to the branch of its major type. *)
Lemma decodes_skip_head fuel major ai bs :
  0 <= major <= 7 -> 0 <= ai <= 31 ->
  decodes (skip_body fuel (skip_fuel fuel) (Z.lor (major_bits major) ai) major ai) bs tt ->
  decodes (skip_fuel (S fuel)) (Z.lor (major_bits major) ai :: bs) tt.
Proof.
  intros Hm Ha H.
  apply (decodes_bind Decoder_read_byte _ [_] bs _ _ (decodes_read_byte _)).
  by rewrite initial_major, initial_ai by lia.
Qed.

(** What one encoded item offers to the loops of [skip]. *)
Definition skippable (m : Dec unit) (bs : list Z) : Prop :=
  decodes m bs tt /\ exists b rest, bs = b :: rest /\ b <> BREAK.

Lemma skippable_pair m bs1 bs2 :
  skippable m bs1 -> skippable m bs2 -> skippable (m ;;; m) (bs1 ++ bs2).
Proof.
  intros [H1 (b & rest & -> & Hb)] [H2 _]. split.
  - by eapply (decodes_bind m (fun _ => m)).
  - simpl. eauto.
Qed.

Lemma decodes_skip_count m encs :
  Forall (skippable m) encs -> decodes (skip_count (zlength encs) m) (concat encs) tt.
Proof.
  intros Hall pre suf Hlen. unfold skip_count, dfor, zlength. rewrite for_count_nat.
  revert pre Hlen. induction Hall as [|e encs [He _] _ IH]; intros pre Hlen.
  - simpl. by rewrite app_nil_r.
  - cbn [length nat_iterM concat fst snd] in *. rewrite <- !(assoc_L (++)) in *.
    rewrite He by done. cbn [obind]. rewrite IH by (by rewrite <- (assoc_L (++))).
    by rewrite <- (assoc_L (++)).
Qed.

Lemma decodes_until_break m encs fuel :
  Forall (skippable m) encs -> (length encs < fuel)%nat ->
  decodes (skip_until_break fuel m) (concat encs ++ [BREAK]) tt.
Proof.
  intros Hall Hfuel pre suf Hlen. unfold skip_until_break.
  revert pre fuel Hfuel Hlen. induction Hall as [|e encs [He Hb] _ IH]; intros pre fuel Hfuel Hlen;
    (destruct fuel as [|fuel]; [simpl in *; lia|]); cbn [loopM concat] in *.
  - change ([] ++ [BREAK]) with [BREAK] in *.
    rewrite peek_byte_at. cbn [obind]. rewrite Z.eqb_refl.
    by rewrite decodes_bump.
  - rewrite <- !(assoc_L (++)) in *. destruct Hb as (b & rest & Heq & Hb).
    replace (Decoder_peek_byte _) with (@Ok LedgerError Z b)
      by (rewrite Heq; symmetry; apply (peek_byte_at b rest)).
    cbn [obind]. rewrite (proj2 (Z.eqb_neq b BREAK)) by done.
    rewrite He by done. cbn [obind].
    rewrite IH; [by rewrite <- !(assoc_L (++))|simpl in *; lia|].
    by rewrite <- !(assoc_L (++)).
Qed.

Lemma initial_not_break major ai :
  0 <= major <= 7 -> 0 <= ai <= 31 -> (major <> MAJOR_SIMPLE \/ ai <> AI_INDEF) ->
  Z.lor (major_bits major) ai <> BREAK.
Proof.
  intros Hm Ha Hne Heq.
  pose proof (initial_major major ai Hm Ha) as H1. pose proof (initial_ai major ai Hm Ha) as H2.
  rewrite Heq in H1, H2. vm_compute in H1, H2. subst. by destruct Hne.
Qed.

Lemma int_major_range n : 0 <= int_major n <= 7.
Proof. destruct n; unfold int_major, MAJOR_NEGATIVE, MAJOR_UNSIGNED; lia. Qed.
Lemma str_major_range n : 0 <= str_major n <= 7.
Proof. destruct n; unfold str_major, MAJOR_TEXT, MAJOR_BYTES; lia. Qed.
Lemma major_range_array : 0 <= MAJOR_ARRAY <= 7. Proof. done. Qed.
Lemma major_range_map : 0 <= MAJOR_MAP <= 7. Proof. done. Qed.
Lemma major_range_tag : 0 <= MAJOR_TAG <= 7. Proof. done. Qed.
Lemma major_range_simple : 0 <= MAJOR_SIMPLE <= 7. Proof. done. Qed.
#[local] Hint Resolve int_major_range str_major_range major_range_array major_range_map
  major_range_tag major_range_simple : core.

(** The first byte of an item is never the break byte. *)
Lemma encode_item_first it :
  item_ok it = true -> exists b rest, encode_item it = b :: rest /\ b <> BREAK.
Proof.
  assert (forall major w v, 0 <= major <= 7 -> arg_fits w v = true ->
    Z.lor (major_bits major) (arg_info w v) <> BREAK) as Hhead.
  { intros major w v Hm Hf. pose proof (arg_info_range w v Hf).
    apply initial_not_break; [done|lia|]. unfold AI_INDEF. lia. }
  destruct it as [n w v|t w bs|t l|w l|l|w l|l|w t i|v|w bs]; cbn [item_ok encode_item];
    intros Hok; zbool; eexists _, _; (split; [reflexivity|]);
    try (by apply Hhead); try (apply initial_not_break; auto; unfold AI_INDEF in *;
      rewrite ?(eq_refl : MAJOR_SIMPLE = 7); try destruct t; simpl; try lia; by left).
  apply initial_not_break; [done| |]; destruct w; simpl in *; unfold AI_INDEF; lia || done.
Qed.

(** Fuel bookkeeping: a list of encoded items is no longer than its bytes. *)
Lemma length_concat_skippable m encs :
  Forall (skippable m) encs -> (length encs <= length (concat encs))%nat.
Proof.
  induction 1 as [|e encs [_ (b & rest & -> & _)] _ IH]; simpl; [lia|].
  rewrite length_app. lia.
Qed.

Definition skips (it : item) : Prop :=
  item_ok it = true ->
  forall fuel, (length (encode_item it) <= fuel)%nat ->
    decodes (skip_fuel fuel) (encode_item it) tt.

Lemma skips_skippable it fuel :
  skips it -> item_ok it = true -> (length (encode_item it) <= fuel)%nat ->
  skippable (skip_fuel fuel) (encode_item it).
Proof. intros H Hok Hf. split; [by apply H | by apply encode_item_first]. Qed.

Lemma skippable_items l fuel :
  Forall skips l -> forallb item_ok l = true ->
  (length (concat (map encode_item l)) <= fuel)%nat ->
  Forall (skippable (skip_fuel fuel)) (map encode_item l).
Proof.
  induction 1 as [|it l Hit _ IH]; cbn [map concat forallb]; [by constructor|].
  rewrite length_app. intros Hok Hf. zbool.
  constructor; [apply skips_skippable; done || lia | apply IH; done || lia].
Qed.

Lemma skippable_pairs l fuel :
  Forall (fun p => skips p.1 /\ skips p.2) l ->
  forallb (fun p => item_ok p.1 && item_ok p.2) l = true ->
  (length (concat (map (fun p => encode_item p.1 ++ encode_item p.2) l)) <= fuel)%nat ->
  Forall (skippable (skip_fuel fuel ;;; skip_fuel fuel))
    (map (fun p => encode_item p.1 ++ encode_item p.2) l).
Proof.
  induction 1 as [|[k v] l [Hk Hv] _ IH]; cbn [map concat forallb fst snd] in *; [by constructor|].
  rewrite !length_app. intros Hok Hf. zbool.
  constructor; [|apply IH; done || lia].
  apply skippable_pair; apply skips_skippable; done || lia.
Qed.

(** A head and its argument, then the rest of the branch. *)
Lemma decodes_skip_arg fuel major w v bs (k : Z -> Dec unit) :
  0 <= major <= 7 -> arg_fits w v = true ->
  skip_body fuel (skip_fuel fuel) (Z.lor (major_bits major) (arg_info w v)) major (arg_info w v)
  = dbind (Decoder_read_argument (Z.lor (major_bits major) (arg_info w v))) k ->
  decodes (k v) bs tt ->
  decodes (skip_fuel (S fuel)) (encode_head major w v ++ bs) tt.
Proof.
  intros Hm Hf Hbody Hk. pose proof (arg_info_range w v Hf).
  apply decodes_skip_head; [done|lia|]. rewrite Hbody.
  eapply decodes_bind; [by apply decodes_arg|done].
Qed.

Lemma decodes_skip_indef fuel major m encs :
  0 <= major <= 7 ->
  skip_body fuel (skip_fuel fuel) (Z.lor (major_bits major) AI_INDEF) major AI_INDEF
  = skip_until_break fuel m ->
  Forall (skippable m) encs -> (length (concat encs) < fuel)%nat ->
  decodes (skip_fuel (S fuel)) (encode_indef major ++ concat encs ++ [BREAK]) tt.
Proof.
  intros Hm Hbody Hall Hf. apply decodes_skip_head; [done|unfold AI_INDEF; lia|].
  rewrite Hbody. apply decodes_until_break; [done|].
  apply length_concat_skippable in Hall. lia.
Qed.

Lemma definite_ai w v : arg_fits w v = true -> (arg_info w v =? AI_INDEF) = false.
Proof.
  intros H. apply arg_info_range in H. apply Z.eqb_neq. unfold AI_INDEF. lia.
Qed.

(** Expose one unit of fuel and the parts of the well-formedness check. *)
Ltac skips_start :=
  intros Hok fuel Hfuel; cbn [item_ok encode_item] in *;
  (destruct fuel as [|fuel]; [simpl in Hfuel; lia|]);
  rewrite ?length_app in Hfuel; cbn [encode_head encode_indef length] in Hfuel; zbool.

Lemma skips_int n w v : skips (IInt n w v).
Proof.
  skips_start. rewrite <- (app_nil_r (encode_head _ _ _)).
  eapply (decodes_skip_arg _ _ _ _ _ (fun _ => dret tt)); auto using decodes_ret.
  by destruct n.
Qed.

Lemma skips_str t w bs : skips (IStr t w bs).
Proof.
  skips_start.
  eapply (decodes_skip_arg _ _ _ _ _ (fun len => Decoder_read_exact len ;;; dret tt)); auto.
  - unfold skip_body. rewrite (definite_ai w (zlength bs)) by done. by destruct t.
  - eapply decodes_bind_ret; [apply decodes_read_exact|apply decodes_ret].
Qed.

Lemma skips_simple v : skips (ISimple v).
Proof.
  skips_start. apply decodes_skip_head; [done|lia|]. unfold skip_body.
  rewrite (proj2 (Z.leb_le v 23)) by lia. apply decodes_ret.
Qed.

Lemma skips_payload w bs : skips (IPayload w bs).
Proof.
  skips_start.
  destruct w; [done|..]; simpl in Hok; zbool; simpl arg_info;
    (apply decodes_skip_head; [done|lia|]);
    [destruct bs as [|b [|b' bs]]; unfold zlength in *; simpl in *; try lia;
     eapply decodes_bind_ret; [apply decodes_read_byte|apply decodes_ret]|..];
    (eapply decodes_bind_ret; [|apply decodes_ret]);
    [change 2 with (payload_len Arg2) | change 4 with (payload_len Arg4)
    |change 8 with (payload_len Arg8)]; simpl payload_len; rewrite <- Hok;
    apply decodes_read_exact.
Qed.

Lemma skips_counted {A} (enc : A -> list Z) m l :
  Forall (skippable m) (map enc l) ->
  decodes (skip_count (zlength l) m) (concat (map enc l)) tt.
Proof.
  intros H. apply decodes_skip_count in H. unfold zlength in *. by rewrite length_map in H.
Qed.

Lemma skips_item it : skips it.
Proof.
  induction it as [n w v|t w bs|t l IH|w l IH|l IH|w l IH|l IH|w t i IH|v|w bs]
    using item_nested_ind;
    [apply skips_int|apply skips_str| | | | | | |apply skips_simple|apply skips_payload];
    skips_start.
  - eapply (decodes_skip_indef _ _ (skip_fuel fuel)); auto; [by destruct t| |lia].
    apply skippable_items; done || lia.
  - eapply (decodes_skip_arg _ _ _ _ _ (fun count => skip_count count (skip_fuel fuel))); auto.
    + unfold skip_body. by rewrite (definite_ai w (zlength l)) by done.
    + apply skips_counted, skippable_items; done || lia.
  - eapply (decodes_skip_indef _ _ (skip_fuel fuel)); auto; [|lia].
    apply skippable_items; done || lia.
  - eapply (decodes_skip_arg _ _ _ _ _
      (fun count => skip_count count (skip_fuel fuel ;;; skip_fuel fuel))); auto.
    + unfold skip_body. by rewrite (definite_ai w (zlength l)) by done.
    + apply skips_counted, skippable_pairs; done || lia.
  - eapply (decodes_skip_indef _ _ (skip_fuel fuel ;;; skip_fuel fuel)); auto; [|lia].
    apply skippable_pairs; done || lia.
  - eapply (decodes_skip_arg _ _ _ _ _ (fun _ => skip_fuel fuel)); auto.
    apply IH; done || lia.
Qed.

Lemma decodes_skip it : item_ok it = true -> decodes Decoder_skip (encode_item it) tt.
Proof.
  intros Hok pre suf Hlen. apply skips_item; [done| |done].
  unfold dec_fuel, at_. simpl. rewrite !length_app. lia.
Qed.

Lemma slice_at pre bs suf :
  Decoder_slice (zlength pre) (zlength (pre ++ bs)) (at_ (pre ++ bs) suf) = Ok bs.
Proof.
  unfold Decoder_slice. simpl data. autorewrite with zlen.
  pose proof (zlength_nonneg bs). pose proof (zlength_nonneg suf).
  rewrite (proj2 (Z.ltb_ge _ _)), (proj2 (Z.ltb_ge _ _)) by lia. simpl.
  by rewrite <- (assoc_L (++)), zslice_app.
Qed.

Lemma decodes_span it :
  item_ok it = true ->
  decodes span_item (encode_item it) (encode_item it)
  /\ decodes Decoder_raw_value (encode_item it) (encode_item it).
Proof.
  intros Hok; split; intros pre suf Hlen; unfold span_item, Decoder_raw_value, Decoder_position;
    rewrite decodes_skip by done; cbn [obind];
    change (pos (at_ pre (encode_item it ++ suf))) with (zlength pre);
    change (pos (at_ (pre ++ encode_item it) suf)) with (zlength (pre ++ encode_item it));
    by rewrite slice_at.
Qed.

(** ** Arrays with any head *)

Lemma decodes_expect_head major w v :
  0 <= major <= 7 -> arg_fits w v = true ->
  decodes (Decoder_expect_major major) (encode_head major w v) v.
Proof.
  intros Hm Hf. pose proof (arg_info_range w v Hf).
  apply (decodes_bind Decoder_read_byte _ [_] _ _ _ (decodes_read_byte _)).
  cbv zeta. rewrite initial_major, Z.eqb_refl by lia. by apply decodes_arg.
Qed.

Lemma decodes_array_begin_head w v :
  arg_fits w v = true -> decodes Decoder_array_begin (encode_head MAJOR_ARRAY w v) (Some v).
Proof.
  intros Hf. pose proof (arg_info_range w v Hf).
  eapply decodes_peek; [apply peek_byte_at|]. cbv zeta.
  rewrite initial_major, initial_ai, (definite_ai w v) by (done || lia).
  eapply decodes_bind_ret; [by apply decodes_expect_head|apply decodes_ret].
Qed.

(** A transaction array of a block, in either of its two encodings. *)
Definition span_array (indef : bool) (w : arg_width) (l : list item) : item :=
  if indef then IArrayIndef l else IArray w l.

Definition span_array_ok (indef : bool) (w : arg_width) (l : list item) : bool :=
  item_ok (span_array indef w l) && (zlength l <=? BLOCK_BODY_ELEMENTS_MAX).

Lemma decodes_span_list l :
  forallb item_ok l = true ->
  decodes (decode_count (zlength l) span_item) (concat (map encode_item l)) (map encode_item l).
Proof.
  intros Hok. replace (zlength l) with (zlength (map encode_item l))
    by (unfold zlength; by rewrite length_map).
  rewrite <- (map_id (map encode_item l)) at 2. apply decodes_count.
  intros bs Hin. apply list_elem_of_fmap in Hin as (it & -> & Hin).
  apply decodes_span. rewrite forallb_forall in Hok. by apply Hok, list_elem_of_In.
Qed.

Lemma is_break_at b bs pre suf : b <> BREAK -> Decoder_is_break (at_ pre ((b :: bs) ++ suf)) = false.
Proof.
  intros Hb. unfold Decoder_is_break. rewrite peek_byte_at. by apply Z.eqb_neq.
Qed.

Lemma spans_until_break_spec l fuel out pre suf :
  forallb item_ok l = true -> (length l < fuel)%nat ->
  zlength out + zlength l <= BLOCK_BODY_ELEMENTS_MAX ->
  zlength (pre ++ concat (map encode_item l) ++ [BREAK] ++ suf) <= ISIZE_MAX ->
  loopM fuel spans_turn (out, at_ pre (concat (map encode_item l) ++ [BREAK] ++ suf))
  = Ok (out ++ map encode_item l, at_ (pre ++ concat (map encode_item l) ++ [BREAK]) suf).
Proof.
  revert fuel out pre. induction l as [|it l IH]; intros fuel out pre Hok Hf Hmax Hlen;
    (destruct fuel as [|fuel]; [simpl in *; lia|]); cbn [loopM map concat spans_turn] in *.
  - rewrite !(left_id_L [] (++)) in *. unfold Decoder_is_break.
    rewrite (peek_byte_at BREAK []). rewrite Z.eqb_refl.
    change [BREAK] with Encoder_break_stop.
    rewrite decodes_break by done. cbn [obind]. by rewrite app_nil_r.
  - cbn [forallb] in Hok. zbool. rewrite <- !(assoc_L (++)) in *.
    destruct (encode_item_first it) as (b & rest & Heq & Hb); [done|].
    replace (Decoder_is_break _) with false by (rewrite Heq; symmetry; by apply is_break_at).
    rewrite zlength_cons in Hmax. pose proof (zlength_nonneg l).
    rewrite (proj2 (Z.leb_gt _ _)) by lia.
    rewrite (proj1 (decodes_span it ltac:(done))) by done. cbn [obind].
    rewrite IH; [by rewrite <- !(assoc_L (++))|done|simpl in *; lia| |].
    + autorewrite with zlen. lia.
    + by rewrite <- !(assoc_L (++)).
Qed.

Lemma decodes_collect indef w l :
  span_array_ok indef w l = true ->
  decodes collect_indefinite_or_definite_spans (encode_item (span_array indef w l))
    (map encode_item l).
Proof.
  unfold span_array_ok. intros Hok. zbool. destruct indef; cbn [span_array item_ok encode_item] in *.
  - eapply decodes_bind; [apply decodes_array_begin_indef|]. cbv iota.
    intros pre suf Hlen. rewrite <- !(assoc_L (++)) in *.
    unfold spans_until_break. rewrite spans_until_break_spec; [done|done| | |done].
    + unfold dec_fuel, at_. simpl data. rewrite !length_app.
      pose proof (length_concat_skippable (skip_fuel (length (concat (map encode_item l))))
        (map encode_item l)) as Hc. rewrite length_map in Hc. enough (length l <= length (concat (map encode_item l)))%nat by lia.
      apply Hc, skippable_items; [by apply Forall_true, skips_item|done|lia].
    + by rewrite zlength_nil.
  - zbool. eapply decodes_bind; [by apply decodes_array_begin_head|].
    by apply decodes_span_list.
Qed.

(** ** Blocks *)

Lemma extract_match_ne2 {A} n (x y : A) :
  n <> 2 -> match Some n with Some 2 => x | _ => y end = y.
Proof. intros. destruct n as [|[p|[p|p|]|]|]; done. Qed.

Lemma decodes_outer io w l :
  item_ok (span_array io w l) = true ->
  exists tail,
    encode_item (span_array io w l)
    = (if io then encode_indef MAJOR_ARRAY else encode_head MAJOR_ARRAY w (zlength l))
      ++ concat (map encode_item l) ++ tail
    /\ decodes Decoder_array_begin
         (if io then encode_indef MAJOR_ARRAY else encode_head MAJOR_ARRAY w (zlength l))
         (if io then None else Some (zlength l)).
Proof.
  destruct io; cbn [span_array item_ok encode_item]; intros Hok; zbool.
  - exists [BREAK]. split; [done|apply decodes_array_begin_indef].
  - exists []. rewrite app_nil_r. split; [done|by apply decodes_array_begin_head].
Qed.

Section block.
Variables (io : bool) (w : arg_width) (hdr : item) (ib : bool) (wb : arg_width)
  (bodies_l : list item) (iw : bool) (ww : arg_width) (wits_l rest : list item).

(** [[header, bodies, witness_sets, ...]], with definite or indefinite arrays. *)
Definition block_items : list item :=
  hdr :: span_array ib wb bodies_l :: span_array iw ww wits_l :: rest.
Definition block_item : item := span_array io w block_items.
Definition block_ok : bool :=
  item_ok block_item && span_array_ok ib wb bodies_l && span_array_ok iw ww wits_l
  && (zlength (encode_item block_item) <=? ISIZE_MAX).
Definition block_spans : BlockTxRawSpans :=
  mkSpans (map encode_item bodies_l) (map encode_item wits_l).

Hypothesis Hok : block_ok = true.

Lemma block_hdr_ok : item_ok hdr = true.
Proof using Hok.
  revert Hok. unfold block_ok, block_item, block_items.
  destruct io; cbn [span_array item_ok forallb]; intros; by zbool.
Qed.

Lemma extract_inner_block : extract_inner (encode_item block_item) = Ok block_spans.
Proof using Hok.
  pose proof block_hdr_ok as Hhdr. pose proof Hok as H. unfold block_ok in H. zbool.
  destruct (decodes_outer io w block_items) as (tail & Heq & Hbegin); [done|].
  unfold block_item in *. set (head := if io then _ else _) in *. clearbody head.
  rewrite Heq in *. unfold extract_inner, Decoder_new.
  change (mkDecoder (head ++ ?x) 0) with (at_ [] (head ++ x)).
  rewrite Hbegin by done. cbn [obind].
  assert (zlength block_items = 3 + zlength rest) as Hz
    by (unfold block_items; rewrite !zlength_cons; lia).
  pose proof (zlength_nonneg rest).
  replace (match _ with Some n => _ | None => _ end) with (@Ok LedgerError unit tt)
    by (destruct io; [done|]; by rewrite (proj2 (Z.ltb_ge _ _)) by lia).
  cbn [obind]. unfold block_items in *. cbn [map concat] in *.
  rewrite <- !(assoc_L (++)) in *. rewrite !(left_id_L [] (++)) in *.
  rewrite decodes_skip by done. cbn [obind].
  rewrite decodes_collect by (done || by rewrite <- !(assoc_L (++))). cbn [obind].
  rewrite decodes_collect by (done || by rewrite <- !(assoc_L (++))). done.
Qed.

Lemma extract_block fuel : extract_fuel (S fuel) (encode_item block_item) = Ok block_spans.
Proof using Hok.
  pose proof Hok as H. unfold block_ok in H. zbool. cbn [extract_fuel].
  destruct (decodes_outer io w block_items) as (tail & Heq & Hbegin); [done|].
  unfold block_item in * |-. 
  pose proof extract_inner_block as Hin. unfold block_item in *.
  rewrite Heq in *. unfold Decoder_new at 1.
  change (mkDecoder (?h ++ ?x) 0) with (at_ [] (h ++ x)).
  rewrite Hbegin by done. cbn [obind]. destruct io; [done|].
  rewrite extract_match_ne2; [done|].
  unfold block_items. rewrite !zlength_cons. pose proof (zlength_nonneg rest). lia.
Qed.

(** The hard-fork-combinator envelope [[era, block]]. *)
Lemma extract_envelope we wi era fuel :
  let env := IArray we [IInt false wi era; block_item] in
  item_ok env = true -> zlength (encode_item env) <= ISIZE_MAX ->
  extract_fuel (S (S fuel)) (encode_item env) = Ok block_spans.
Proof using Hok.
  cbv zeta. intros Henv Hlen. pose proof Hok as H. unfold block_ok in H. zbool.
  cbn [item_ok encode_item forallb map concat] in *. zbool.
  rewrite app_nil_r in *. remember (S fuel) as f1 eqn:Hf1. cbn [extract_fuel].
  unfold Decoder_new. change (mkDecoder (encode_head ?a ?b ?c ++ ?x) 0) with (at_ [] (encode_head a b c ++ x)).
  rewrite decodes_array_begin_head by (done || by rewrite app_nil_l). cbn [obind].
  change (zlength [IInt false wi era; block_item]) with 2. cbv iota.
  rewrite !(left_id_L [] (++)) in *. unfold Decoder_unsigned.
  rewrite decodes_expect_head by done. 
  rewrite <- (app_nil_r (encode_item block_item)) at 1.
  rewrite (proj2 (decodes_span block_item ltac:(done)));
    [|rewrite <- !(assoc_L (++)), app_nil_r; done].
  cbn [obind]. unfold Decoder_is_empty. simpl data. simpl pos. rewrite app_nil_r.
  rewrite Z.leb_refl. simpl orb. cbv iota. subst f1. apply extract_block.
Qed.
End block.

(** ** Termination of the span extraction *)

Lemma slice_fuel a b d : Decoder_slice a b d <> OutOfFuel.
Proof. unfold Decoder_slice. by case_match. Qed.

Lemma reads_span_item n : reads n true span_item.
Proof.
  intros d Hd Hn. unfold span_item. eapply post_bind; [by apply (reads_skip n)|].
  intros [[] d'] Hadv. pose proof (slice_fuel (Decoder_position d) (Decoder_position d') d').
  by destruct (Decoder_slice _ _ _).
Qed.

Lemma reads_spans_until_break n : reads n true (spans_until_break n).
Proof.
  intros d Hd Hn. apply (reads_loopM snd); [|done..].
  clear d Hd Hn. intros [out d] Hd Hn. cbn [spans_turn snd] in *. case_match.
  - eapply post_bind; [by apply (reads_consume_break n)|]. by intros [[] d'].
  - case_match; [done|]. eapply post_bind; [by apply (reads_span_item n)|]. by intros [s d'].
Qed.

Lemma reads_collect n : reads n true collect_indefinite_or_definite_spans.
Proof.
  apply reads_bind_l; [apply reads_array_begin|]. intros [c|].
  - apply reads_for. intros. apply reads_bind_r; [|intros; apply reads_ret].
    by eapply reads_weaken, reads_span_item.
  - intros d Hd _. eapply post_mono; [apply reads_spans_until_break; [done|by apply left_of_fuel]|].
    intros r. apply advanced_weaken.
Qed.

(** [post] for a reader started on a fresh slice. *)
Lemma reads_run {A} s (m : Dec A) d :
  (forall n, reads n s m) -> dec_wf d -> post (fun r => advanced s d r.2) (m d).
Proof. intros H Hd. by apply (H (dec_fuel d)), left_of_fuel. Qed.

Lemma extract_inner_fuel raw :
  bytes_ok raw -> zlength raw <= ISIZE_MAX -> post (fun _ => True) (extract_inner raw).
Proof.
  intros Hb Hl. unfold extract_inner.
  eapply post_bind; [apply (reads_run true); [apply reads_array_begin|by apply Decoder_new_wf]|].
  intros [n d] Hd. eapply (post_bind (fun _ => True)); [by repeat case_match|]. intros _ _.
  eapply post_bind; [apply (reads_run true); [apply reads_skip|apply Hd]|]. intros [[] d1] Hd1.
  eapply post_bind; [apply (reads_run true); [apply reads_collect|apply Hd1]|]. intros [bs d2] Hd2.
  eapply post_bind; [apply (reads_run true); [apply reads_collect|apply Hd2]|]. by intros [ws d3] Hd3.
Qed.

(** The item found inside an envelope is shorter than the envelope. *)
Lemma raw_value_shorter d :
  dec_wf d ->
  post (fun r => advanced true d r.2 /\ bytes_ok r.1
          /\ zlength r.1 <= zlength (data d) - pos d) (Decoder_raw_value d).
Proof.
  intros Hd. unfold Decoder_raw_value.
  eapply post_bind; [by apply (reads_run true), Hd; apply reads_skip|].
  intros [[] d'] Hadv. destruct Hadv as ((Hp & Hl & Hb) & Heq & Hlt) eqn:E. simpl in *.
  unfold Decoder_slice. case_match; [done|]. zbool. cbn [obind post fst snd].
  split_and!; [done|by apply zslice_bytes_ok|].
  destruct Hd as ((?&?)&?&?). rewrite length_zslice by lia. rewrite Heq in *. lia.
Qed.

Lemma extract_fuel_post fuel raw :
  bytes_ok raw -> zlength raw <= ISIZE_MAX -> (length raw < fuel)%nat ->
  post (fun _ => True) (extract_fuel fuel raw).
Proof.
  revert raw. induction fuel as [|fuel IH]; intros raw Hb Hl Hf; [lia|]. cbn [extract_fuel].
  pose proof (extract_inner_fuel raw Hb Hl) as Hin.
  eapply post_bind; [apply (reads_run true); [apply reads_array_begin|by apply Decoder_new_wf]|].
  intros [n d] Hd. cbn [snd] in Hd.
  destruct n as [n|]; [|done]. destruct (decide (n = 2)) as [->|Hne];
    [|by rewrite extract_match_ne2].
  pose proof (reads_run true Decoder_unsigned d (fun n => reads_expect_major n _) (proj1 Hd)) as Hu.
  destruct (Decoder_unsigned d) as [[v d1]| | |] eqn:E; [|done..]. cbn [post snd] in Hu.
  eapply post_bind; [apply raw_value_shorter, Hu|]. intros [inner d2] (Hd2 & Hbi & Hli).
  case_match; [|done]. cbn [fst snd] in *.
  destruct Hd as (_ & Heq & Hp), Hu as (_ & Heq1 & Hp1). simpl in *.
  assert (zlength inner < zlength raw) by (rewrite Heq1, Heq in Hli; simpl in Hli; lia).
  apply IH; [done|lia|]. unfold zlength in *. lia.
Qed.

(** ** Properties *)

(** [Decoder::skip] terminates on every input: from any well-formed
    decoder position it returns without exhausting its recursion bound, and
    when it succeeds it has consumed at least one byte, stays inside the input
    and leaves the input unchanged. *)
Theorem skip_total (d : Decoder) (Hd : dec_wf d) :
  Decoder_skip d <> OutOfFuel /\
  forall d', Decoder_skip d = Ok (tt, d') ->
    data d' = data d /\ pos d < pos d' <= zlength (data d).
Proof.
  pose proof (reads_run true Decoder_skip d (fun n => reads_skip n) Hd) as H.
  split; [by intros E; rewrite E in H|]. intros d' E. rewrite E in H.
  destruct H as ((Hp & _) & Heq & Hlt). simpl in *. rewrite Heq in *. split; [done|lia].
Qed.

Lemma skip_total_witness :
  Decoder_skip (Decoder_new [130; 1; 65; 7]) <> OutOfFuel /\
  forall d', Decoder_skip (Decoder_new [130; 1; 65; 7]) = Ok (tt, d') ->
    data d' = [130; 1; 65; 7] /\ 0 < pos d' <= 4.
Proof.
  apply (skip_total (Decoder_new [130; 1; 65; 7])).
  apply Decoder_new_wf; [repeat constructor; vm_compute; congruence|vm_compute; congruence].
Defined.

(** [Decoder::raw_value] returns exactly the bytes of one data item and
    stops right behind it, for every well-formed item of RFC 8949 (any head
    width, definite and indefinite containers, tags, simple values and
    floats), wherever the item stands in the input. *)
Theorem raw_value_exact (it : item) (pre suf : list Z)
    (Hok : item_ok it = true)
    (Hlen : zlength (pre ++ encode_item it ++ suf) <= ISIZE_MAX) :
  Decoder_raw_value (mkDecoder (pre ++ encode_item it ++ suf) (zlength pre))
  = Ok (encode_item it,
        mkDecoder (pre ++ encode_item it ++ suf) (zlength pre + zlength (encode_item it))).
Proof.
  pose proof (proj2 (decodes_span it Hok) pre suf Hlen) as H.
  unfold at_ in H. by rewrite <- (assoc_L (++)), zlength_app in H.
Qed.

Lemma raw_value_exact_witness :
  Decoder_raw_value (mkDecoder ([9] ++ [159; 161; 24; 1; 245; 255] ++ [7; 8]) 1)
  = Ok ([159; 161; 24; 1; 245; 255],
        mkDecoder ([9] ++ [159; 161; 24; 1; 245; 255] ++ [7; 8]) 7).
Proof.
  refine (raw_value_exact (IArrayIndef [IMap Arg0 [(IInt false Arg1 1, ISimple 21)]])
            [9] [7; 8] _ _); [reflexivity|vm_compute; congruence].
Defined.

(** Span extraction never exhausts its recursion bound, whatever bytes a
    peer sends as a block. *)
Lemma extract_spans_total (raw : list Z)
    (Hb : bytes_ok raw) (Hl : zlength raw <= ISIZE_MAX) :
  extract_block_tx_byte_spans raw <> OutOfFuel.
Proof.
  intros E. pose proof (extract_fuel_post (S (length raw)) raw Hb Hl ltac:(lia)) as H.
  unfold extract_block_tx_byte_spans in E. by rewrite E in H.
Qed.

(** C31: on a well-formed block [[header, bodies, witness_sets, ...]] (each array
    definite or indefinite, bare or inside an [[era, block]] envelope)
    [extract_block_tx_byte_spans] returns the original bytes of every
    transaction body and witness set, in order; and whatever bytes a peer sends
    as a block, it terminates. *)
Theorem extract_spans_exact (io : bool) (w : arg_width) (hdr : item)
    (ib : bool) (wb : arg_width) (bodies_l : list item)
    (iw : bool) (ww : arg_width) (wits_l rest : list item)
    (we wi : arg_width) (era : Z)
    (Hok : block_ok io w hdr ib wb bodies_l iw ww wits_l rest = true)
    (Henv : item_ok (IArray we [IInt false wi era;
              block_item io w hdr ib wb bodies_l iw ww wits_l rest]) = true)
    (Hlen : zlength (encode_item (IArray we [IInt false wi era;
              block_item io w hdr ib wb bodies_l iw ww wits_l rest])) <= ISIZE_MAX) :
  let block := block_item io w hdr ib wb bodies_l iw ww wits_l rest in
  let spans := mkSpans (map encode_item bodies_l) (map encode_item wits_l) in
  (extract_block_tx_byte_spans (encode_item block) = Ok spans
   /\ extract_block_tx_byte_spans (encode_item (IArray we [IInt false wi era; block])) = Ok spans)
  /\ forall raw, bytes_ok raw -> zlength raw <= ISIZE_MAX -> extract_block_tx_byte_spans raw <> OutOfFuel.
Proof.
  cbv zeta. split; [|apply extract_spans_total]. unfold extract_block_tx_byte_spans. split.
  - by apply extract_block.
  - cbn [encode_item]. rewrite length_app. cbn [encode_head length].
    by apply (extract_envelope io w hdr ib wb bodies_l iw ww wits_l rest Hok we wi era).
Qed.

Lemma extract_spans_exact_witness :
  extract_block_tx_byte_spans ([132; 1] ++ [129; 161; 0; 65; 7] ++ [159; 160; 255] ++ [160])
  = Ok (mkSpans [[161; 0; 65; 7]] [[160]])
  /\ extract_block_tx_byte_spans
       ([130; 4] ++ [132; 1] ++ [129; 161; 0; 65; 7] ++ [159; 160; 255] ++ [160])
  = Ok (mkSpans [[161; 0; 65; 7]] [[160]]).
Proof.
  refine (proj1 (extract_spans_exact false Arg0 (IInt false Arg0 1)
    false Arg0 [IMap Arg0 [(IInt false Arg0 0, IStr false Arg0 [7])]]
    true Arg0 [IMap Arg0 []] [IMap Arg0 []] Arg0 Arg0 4 _ _ _));
    [vm_compute; reflexivity|vm_compute; reflexivity|vm_compute; congruence].
Defined.

(** [Decoder::read_exact] panics exactly when [pos + len] exceeds 64 bits,
    although its bounds check is meant to turn every overlong length into an
    end-of-input error. *)
Theorem read_exact_panics_iff (d : Decoder) (len : Z) (Hd : dec_wf d) (Hlen : u64 len) :
  Decoder_read_exact len d = Panic <-> U64_MAX < pos d + len.
Proof.
  destruct Hd as ((Hp1 & Hp2) & Hl & _). unfold Decoder_read_exact.
  unfold u64, U64_MAX, ISIZE_MAX in *. split.
  - intros H. destruct (Z.le_gt_cases (pos d + len) 18446744073709551615) as [Hle|]; [|lia].
    rewrite wrap64_id in H by (unfold u64, U64_MAX; lia).
    destruct (_ <? _); [done|]. by rewrite (proj2 (Z.ltb_ge (pos d + len) (pos d))) in H by lia.
  - intros H. replace (wrap64 (pos d + len)) with (pos d + len - 2 ^ 64)
      by (unfold wrap64; apply (Z.mod_unique _ _ 1); lia).
    rewrite (proj2 (Z.ltb_ge _ _)) by lia. by rewrite (proj2 (Z.ltb_lt _ _)) by lia.
Qed.

(** The byte string header with length [2^64 - 1], as a peer can send it. *)
Lemma read_exact_panics_iff_witness :
  (Decoder_read_exact U64_MAX (mkDecoder [91; 255; 255; 255; 255; 255; 255; 255; 255] 9) = Panic
   <-> U64_MAX < 9 + U64_MAX)
  /\ Decoder_bytes (Decoder_new [91; 255; 255; 255; 255; 255; 255; 255; 255]) = Panic.
Proof.
  split; [|reflexivity].
  apply (read_exact_panics_iff (mkDecoder [91; 255; 255; 255; 255; 255; 255; 255; 255] 9) U64_MAX).
  - split; [vm_compute; split; congruence|split; [vm_compute; congruence|]].
    repeat constructor; vm_compute; congruence.
  - vm_compute. split; congruence.
Defined.
