(* ===== verification/Types.v ===== *)
(** * Core ledger types and Shelley addresses

    Model of [crates/ledger/src/types.rs] (chain points, nonces, credentials,
    certificates, addresses) and of the [Era] enumeration of
    [crates/ledger/src/eras/mod.rs]. Newtypes over [u64] ([SlotNo], [BlockNo],
    [EpochNo]) are [Z] with the width stated where it is used; a byte array
    [[u8; N]] is a list of bytes whose length is part of the well-formedness
    predicate of the type that holds it. *)

From S2P Require Import Prelude Cbor CborFacts.
Local Open Scope Z_scope.

(** ** Data *)

Definition SlotNo := Z.
Definition BlockNo := Z.
Definition EpochNo := Z.
Definition HeaderHash := list Z.
Definition TxId := list Z.

Inductive Point :=
  | Origin
  | BlockPoint (slot : SlotNo) (hash : HeaderHash).

Inductive TipT :=
  | TipGenesis
  | Tip (point : Point) (block_no : BlockNo).

Inductive NonceT :=
  | Neutral
  | Hash (h : list Z).

Inductive StakeCredential :=
  | AddrKeyHash (h : list Z)
  | ScriptHash (h : list Z).

Inductive MirPot := Reserves | Treasury.

(** A [BTreeMap] is its list of bindings in increasing key order. *)
Inductive MirTarget :=
  | StakeCredentials (m : list (StakeCredential * Z))
  | SendToOppositePot (coin : Z).

Record RewardAccount := mkRewardAccount {
  ra_network : Z;
  ra_credential : StakeCredential }.

Record BaseAddress := mkBase {
  ba_network : Z; ba_payment : StakeCredential; ba_staking : StakeCredential }.
Record EnterpriseAddress := mkEnterprise {
  ea_network : Z; ea_payment : StakeCredential }.
Record PointerAddress := mkPointer {
  pa_network : Z; pa_payment : StakeCredential;
  pa_slot : Z; pa_tx_index : Z; pa_cert_index : Z }.

Inductive Address :=
  | Base (b : BaseAddress)
  | Enterprise (e : EnterpriseAddress)
  | Pointer (p : PointerAddress)
  | Reward (r : RewardAccount)
  | Byron (raw : list Z).

Record UnitInterval := mkUnitInterval { numerator : Z; denominator : Z }.

Inductive Relay :=
  | SingleHostAddr (port : option Z) (ipv4 ipv6 : option (list Z))
  | SingleHostName (port : option Z) (name : list Z)
  | MultiHostName (name : list Z).

Record PoolMetadata := mkPoolMetadata { pm_url : list Z; pm_metadata_hash : list Z }.

Record PoolParams := mkPoolParams {
  operator : list Z;
  vrf_keyhash : list Z;
  pledge : Z;
  cost : Z;
  margin : UnitInterval;
  reward_account : RewardAccount;
  pool_owners : list (list Z);
  relays : list Relay;
  pool_metadata : option PoolMetadata }.

Record Anchor := mkAnchor { an_url : list Z; an_data_hash : list Z }.

Inductive DRep :=
  | DRepKeyHash (h : list Z)
  | DRepScriptHash (h : list Z)
  | AlwaysAbstain
  | AlwaysNoConfidence.

Inductive DCert :=
  | AccountRegistration (c : StakeCredential)
  | AccountUnregistration (c : StakeCredential)
  | DelegationToStakePool (c : StakeCredential) (pool : list Z)
  | PoolRegistration (params : PoolParams)
  | PoolRetirement (pool : list Z) (epoch : EpochNo)
  | GenesisDelegation (genesis deleg vrf : list Z)
  | MoveInstantaneousReward (pot : MirPot) (target : MirTarget)
  | AccountRegistrationDeposit (c : StakeCredential) (coin : Z)
  | AccountUnregistrationDeposit (c : StakeCredential) (coin : Z)
  | DelegationToDrep (c : StakeCredential) (drep : DRep)
  | DelegationToStakePoolAndDrep (c : StakeCredential) (pool : list Z) (drep : DRep)
  | AccountRegistrationDelegationToStakePool (c : StakeCredential) (pool : list Z) (coin : Z)
  | AccountRegistrationDelegationToDrep (c : StakeCredential) (drep : DRep) (coin : Z)
  | AccountRegistrationDelegationToStakePoolAndDrep
      (c : StakeCredential) (pool : list Z) (drep : DRep) (coin : Z)
  | CommitteeAuthorization (cold hot : StakeCredential)
  | CommitteeResignation (cold : StakeCredential) (anchor : option Anchor)
  | DrepRegistration (c : StakeCredential) (coin : Z) (anchor : option Anchor)
  | DrepUnregistration (c : StakeCredential) (coin : Z)
  | DrepUpdate (c : StakeCredential) (anchor : option Anchor).

Inductive Era := EraByron | EraShelley | EraAllegra | EraMary | EraAlonzo | EraBabbage | EraConway.

#[export] Instance Point_eq_dec : EqDecision Point.
Proof. solve_decision. Defined.
#[export] Instance NonceT_eq_dec : EqDecision NonceT.
Proof. solve_decision. Defined.
#[export] Instance StakeCredential_eq_dec : EqDecision StakeCredential.
Proof. solve_decision. Defined.
#[export] Instance RewardAccount_eq_dec : EqDecision RewardAccount.
Proof. solve_decision. Defined.
#[export] Instance Era_eq_dec : EqDecision Era.
Proof. solve_decision. Defined.

(** ** Accessors *)

Definition Point_slot (p : Point) : option SlotNo :=
  match p with Origin => None | BlockPoint s _ => Some s end.
Definition Point_hash (p : Point) : option HeaderHash :=
  match p with Origin => None | BlockPoint _ h => Some h end.
Definition Tip_point (t : TipT) : Point :=
  match t with TipGenesis => Origin | Tip p _ => p end.
Definition Tip_block_no (t : TipT) : option BlockNo :=
  match t with TipGenesis => None | Tip _ bn => Some bn end.
Definition StakeCredential_hash (c : StakeCredential) : list Z :=
  match c with AddrKeyHash h | ScriptHash h => h end.
Definition StakeCredential_is_key_hash (c : StakeCredential) : bool :=
  match c with AddrKeyHash _ => true | ScriptHash _ => false end.
Definition StakeCredential_is_script_hash (c : StakeCredential) : bool :=
  match c with AddrKeyHash _ => false | ScriptHash _ => true end.

Definition era_ordinal (e : Era) : Z :=
  match e with
  | EraByron => 0 | EraShelley => 1 | EraAllegra => 2 | EraMary => 3
  | EraAlonzo => 4 | EraBabbage => 5 | EraConway => 6
  end.
Definition is_hard_fork_to (self other : Era) : bool := era_ordinal self <? era_ordinal other.
Definition is_era_regression (self other : Era) : bool := era_ordinal other <? era_ordinal self.
Definition Era_all : list Era :=
  [EraByron; EraShelley; EraAllegra; EraMary; EraAlonzo; EraBabbage; EraConway].

(** ** Network identifiers and reward accounts *)

Definition is_valid_network_id (network : Z) : bool := (network =? 0) || (network =? 1).

Definition validate_network_id (network : Z) : outcome LedgerError unit :=
  if is_valid_network_id network then Ok tt else Err (InvalidAddressNetworkId network).

Definition RewardAccount_to_bytes (r : RewardAccount) : list Z :=
  let type_nibble := if StakeCredential_is_key_hash (ra_credential r) then 224 else 240 in
  Z.lor type_nibble (Z.land (ra_network r) 15) :: StakeCredential_hash (ra_credential r).

Definition RewardAccount_from_bytes (bs : list Z) : option RewardAccount :=
  if negb (zlength bs =? 29) then None
  else
    header ← bs !! 0%nat;
    let network := Z.land header 15 in
    if negb (is_valid_network_id network) then None
    else
      let addr_type := Z.shiftr header 4 in
      let hash := zslice 1 29 bs in
      if addr_type =? 14 then Some (mkRewardAccount network (AddrKeyHash hash))
      else if addr_type =? 15 then Some (mkRewardAccount network (ScriptHash hash))
      else None.

Definition RewardAccount_validate (r : RewardAccount) : outcome LedgerError unit :=
  if negb (is_valid_network_id (ra_network r))
  then Err (InvalidAddressNetworkId (ra_network r)) else Ok tt.

(** ** Variable-length naturals *)

(** The loop of [decode_variable_nat], on the bytes from [pos] on. The shift
    [checked_shl(7)] only fails for shift amounts of 64 and more, so it always
    succeeds and drops the bits above 64. *)
Fixpoint decode_variable_nat_loop (l : list Z) (pos result : Z) : option (Z * Z) :=
  match l with
  | [] => None
  | byte :: l =>
      let pos := pos + 1 in
      let result := Z.lor (wrap64 (Z.shiftl result 7)) (Z.land byte 127) in
      if Z.land byte 128 =? 0 then Some (result, pos)
      else decode_variable_nat_loop l pos result
  end.

Definition decode_variable_nat (bs : list Z) (pos : Z) : option (Z * Z) :=
  decode_variable_nat_loop (drop (Z.to_nat pos) bs) pos 0.

(** The [while value > 0] loop: 7-bit groups, least significant first. A
    [u64] has at most ten of them. *)
Fixpoint variable_nat_groups (fuel : nat) (value : Z) : list Z :=
  match fuel with
  | O => []
  | S fuel =>
      if 0 <? value
      then Z.land value 127 :: variable_nat_groups fuel (Z.shiftr value 7)
      else []
  end.

(** The output loop: every group but the last carries the continuation bit. *)
Fixpoint emit_groups (groups : list Z) : list Z :=
  match groups with
  | [] => []
  | [g] => [g]
  | g :: groups => Z.lor g 128 :: emit_groups groups
  end.

Definition encode_variable_nat (value : Z) : list Z :=
  if value =? 0 then [0] else emit_groups (rev (variable_nat_groups 10 value)).

(** ** Byron addresses *)

Definition crc32_bit (crc : Z) : Z :=
  let mask := Z.land (wrap32 (- Z.land crc 1)) 3988292384 in
  Z.lxor (Z.shiftr crc 1) mask.
Definition crc32_byte (crc byte : Z) : Z := Nat.iter 8 crc32_bit (Z.lxor crc byte).
Definition crc32_ieee (bs : list Z) : Z :=
  Z.lxor (fold_left crc32_byte bs 4294967295) 4294967295.

Definition validate_byron_address_bytes (raw : list Z) : outcome LedgerError unit :=
  let bad := InvalidByronAddressStructure raw in
  let? (len, d) := map_err (fun _ => bad) (Decoder_array (Decoder_new raw)) in
  if negb (len =? 2) then Err bad else
  let? (tag, d) := map_err (fun _ => bad) (Decoder_tag d) in
  if negb (tag =? 24) then Err bad else
  let? (payload, d) := map_err (fun _ => bad) (Decoder_bytes d) in
  let? (checksum, d) := map_err (fun _ => bad) (Decoder_unsigned d) in
  let checksum := wrap32 checksum in
  if negb (Decoder_position d =? zlength raw) then Err bad
  else if negb (crc32_ieee payload =? checksum) then Err InvalidByronAddressChecksum
  else Ok tt.

(** [m.ok()?] inside a function that returns an [Option]. *)
Definition ok_then {A B} (m : outcome LedgerError A) (k : A -> outcome LedgerError (option B))
    : outcome LedgerError (option B) :=
  match m with
  | Ok a => k a
  | Err _ => Ok None
  | Panic => Panic
  | OutOfFuel => OutOfFuel
  end.

Definition byron_address_root (raw : list Z) : outcome LedgerError (option (list Z)) :=
  ok_then (Decoder_array (Decoder_new raw)) (fun '(n, d) =>
  if negb (n =? 2) then Ok None else
  ok_then (Decoder_tag d) (fun '(t, d) =>
  if negb (t =? 24) then Ok None else
  ok_then (Decoder_bytes d) (fun '(payload, _) =>
  ok_then (Decoder_array (Decoder_new payload)) (fun '(n, inner) =>
  if negb (n =? 3) then Ok None else
  ok_then (Decoder_bytes inner) (fun '(root, _) =>
  if negb (zlength root =? 28) then Ok None else Ok (Some root)))))).

(** ** Addresses *)

Definition Address_from_bytes (bs : list Z) : option Address :=
  header ← bs !! 0%nat;
  let addr_type := Z.shiftr header 4 in
  let network := Z.land header 15 in
  if addr_type <=? 3 then
    if negb (is_valid_network_id network) then None
    else if negb (zlength bs =? 57) then None
    else
      let pay_hash := zslice 1 29 bs in
      let stk_hash := zslice 29 57 bs in
      let payment := if Z.land addr_type 1 =? 0 then AddrKeyHash pay_hash else ScriptHash pay_hash in
      let staking := if Z.land addr_type 2 =? 0 then AddrKeyHash stk_hash else ScriptHash stk_hash in
      Some (Base (mkBase network payment staking))
  else if addr_type <=? 5 then
    if negb (is_valid_network_id network) then None
    else if zlength bs <? 30 then None
    else
      let pay_hash := zslice 1 29 bs in
      let payment := if addr_type =? 4 then AddrKeyHash pay_hash else ScriptHash pay_hash in
      '(slot, pos) ← decode_variable_nat bs 29;
      '(tx_index, pos) ← decode_variable_nat bs pos;
      '(cert_index, pos) ← decode_variable_nat bs pos;
      if negb (pos =? zlength bs) then None
      else Some (Pointer (mkPointer network payment slot tx_index cert_index))
  else if addr_type <=? 7 then
    if negb (is_valid_network_id network) then None
    else if negb (zlength bs =? 29) then None
    else
      let pay_hash := zslice 1 29 bs in
      let payment := if addr_type =? 6 then AddrKeyHash pay_hash else ScriptHash pay_hash in
      Some (Enterprise (mkEnterprise network payment))
  else if addr_type =? 8 then Some (Byron bs)
  else if (14 <=? addr_type) && (addr_type <=? 15) then
    ra ← RewardAccount_from_bytes bs; Some (Reward ra)
  else None.

Definition Address_to_bytes (a : Address) : list Z :=
  match a with
  | Base b =>
      let type_nibble :=
        match ba_payment b, ba_staking b with
        | AddrKeyHash _, AddrKeyHash _ => 0
        | ScriptHash _, AddrKeyHash _ => 16
        | AddrKeyHash _, ScriptHash _ => 32
        | ScriptHash _, ScriptHash _ => 48
        end in
      Z.lor type_nibble (Z.land (ba_network b) 15)
        :: StakeCredential_hash (ba_payment b) ++ StakeCredential_hash (ba_staking b)
  | Enterprise e =>
      let type_nibble := if StakeCredential_is_key_hash (ea_payment e) then 96 else 112 in
      Z.lor type_nibble (Z.land (ea_network e) 15) :: StakeCredential_hash (ea_payment e)
  | Pointer p =>
      let type_nibble := if StakeCredential_is_key_hash (pa_payment p) then 64 else 80 in
      Z.lor type_nibble (Z.land (pa_network p) 15)
        :: StakeCredential_hash (pa_payment p)
        ++ encode_variable_nat (pa_slot p)
        ++ encode_variable_nat (pa_tx_index p)
        ++ encode_variable_nat (pa_cert_index p)
  | Reward ra => RewardAccount_to_bytes ra
  | Byron raw => raw
  end.

Definition Address_validate (a : Address) : outcome LedgerError unit :=
  match a with
  | Base b => validate_network_id (ba_network b)
  | Enterprise e => validate_network_id (ea_network e)
  | Pointer p => validate_network_id (pa_network p)
  | Reward r => RewardAccount_validate r
  | Byron raw => validate_byron_address_bytes raw
  end.

Definition Address_validate_bytes (bs : list Z) : outcome LedgerError Address :=
  let? address := ok_or (Address_from_bytes bs) (InvalidAddressBytes bs) in
  let? _ := Address_validate address in
  Ok address.

Definition Address_is_vkey_locked (a : Address) : bool :=
  match a with
  | Base b => StakeCredential_is_key_hash (ba_payment b)
  | Enterprise e => StakeCredential_is_key_hash (ea_payment e)
  | Pointer p => StakeCredential_is_key_hash (pa_payment p)
  | Reward _ => false
  | Byron _ => true
  end.

Definition Address_payment_credential (a : Address) : option StakeCredential :=
  match a with
  | Base b => Some (ba_payment b)
  | Enterprise e => Some (ea_payment e)
  | Pointer p => Some (pa_payment p)
  | Reward r => Some (ra_credential r)
  | Byron _ => None
  end.

Definition Address_network (a : Address) : option Z :=
  match a with
  | Base b => Some (ba_network b)
  | Enterprise e => Some (ea_network e)
  | Pointer p => Some (pa_network p)
  | Reward r => Some (ra_network r)
  | Byron _ => None
  end.

(** ** Transaction inputs *)

(** [ShelleyTxIn] of [eras/shelley.rs], used by every era. *)
Record ShelleyTxIn := mkTxIn { ti_transaction_id : list Z; ti_index : Z }.

#[export] Instance ShelleyTxIn_eq_dec : EqDecision ShelleyTxIn.
Proof. solve_decision. Defined.
#[export] Instance ShelleyTxIn_countable : Countable ShelleyTxIn.
Proof.
  refine (inj_countable' (fun i => (ti_transaction_id i, ti_index i)) (fun p => mkTxIn p.1 p.2) _).
  by intros [].
Defined.

(** The check value of CRC-32/ISO-HDLC. *)
Example crc32_check : crc32_ieee [49; 50; 51; 52; 53; 54; 55; 56; 57] = 3421780262.
Proof. vm_compute. reflexivity. Qed.
Example varnat_example :
  encode_variable_nat 16383 = [255; 127] /\ decode_variable_nat [9; 255; 127; 3] 1 = Some (16383, 3).
Proof. by vm_compute. Qed.
(** Ten groups are enough for the largest [u64]. *)
Example varnat_max :
  decode_variable_nat (encode_variable_nat U64_MAX) 0 = Some (U64_MAX, 10).
Proof. by vm_compute. Qed.
