(* ===== verification/AddressFacts.v ===== *)
(** * Addresses and variable-length naturals: theorems

    What [decode_variable_nat] computes on every list of 7-bit groups, and the
    round trips between addresses and their raw bytes, in both directions. *)

From S2P Require Import Prelude Cbor Types.
Local Open Scope Z_scope.

(** ** Well-formed addresses *)

Definition network_ok (n : Z) : Prop := is_valid_network_id n = true.
(** [[u8; 28]] *)
Definition hash28 (h : list Z) : Prop := zlength h = 28.
Definition cred_ok (c : StakeCredential) : Prop := hash28 (StakeCredential_hash c).

(** What the Rust types guarantee of an address, plus a valid network id. *)
Definition address_ok (a : Address) : Prop :=
  match a with
  | Base b => network_ok (ba_network b) /\ cred_ok (ba_payment b) /\ cred_ok (ba_staking b)
  | Enterprise e => network_ok (ea_network e) /\ cred_ok (ea_payment e)
  | Pointer p => network_ok (pa_network p) /\ cred_ok (pa_payment p)
      /\ u64 (pa_slot p) /\ u64 (pa_tx_index p) /\ u64 (pa_cert_index p)
  | Reward r => network_ok (ra_network r) /\ cred_ok (ra_credential r)
  | Byron raw => exists b rest, raw = b :: rest /\ Z.shiftr b 4 = 8
  end.

Definition is_pointer (a : Address) : bool :=
  match a with Pointer _ => true | _ => false end.

(** ** Variable-length naturals *)

(** The base-128 value of a list of groups, most significant first. *)
Definition base128 (acc : Z) (groups : list Z) : Z :=
  fold_left (fun acc g => acc * 128 + g) groups acc.

Definition group_ok (g : Z) : Prop := 0 <= g < 128.

Lemma land_low_bits a g : 0 <= g < 128 -> Z.land (Z.shiftl a 7) g = 0.
Proof.
  intros Hg. apply Z.bits_inj'. intros n Hn. rewrite Z.land_spec, Z.bits_0.
  destruct (Z.lt_ge_cases n 7).
  - by rewrite Z.shiftl_spec_low.
  - replace g with (g mod 2 ^ 7) by (apply Z.mod_small; lia).
    rewrite Z.mod_pow2_bits_high by lia. apply andb_false_r.
Qed.

Lemma wrap64_shift7 r g :
  0 <= g < 128 -> Z.lor (wrap64 (Z.shiftl r 7)) g = wrap64 (r * 128 + g).
Proof.
  intros Hg. unfold wrap64. rewrite Z.shiftl_mul_pow2 by lia.
  change (2 ^ 64) with (2 ^ 57 * 2 ^ 7). rewrite Z.mul_mod_distr_r by lia.
  rewrite <- Z.shiftl_mul_pow2 by lia.
  pose proof (Z.add_lor_land (Z.shiftl (r mod 2 ^ 57) 7) g) as H.
  rewrite land_low_bits, Z.shiftl_mul_pow2 in H by lia.
  rewrite Z.shiftl_mul_pow2 by lia. rewrite Z.add_0_r in H. rewrite H.
  change (2 ^ 7) with 128.
  pose proof (Z.mod_pos_bound r (2 ^ 57)). pose proof (Z.div_mod r (2 ^ 57)).
  apply Zmod_unique with (q := r / 2 ^ 57); lia.
Qed.

Lemma group_bits_check :
  forallb (fun g => (Z.land g 127 =? g) && (Z.land g 128 =? 0)
                    && (Z.land (Z.lor g 128) 127 =? g) && (Z.land (Z.lor g 128) 128 =? 128))
    (seqZ 0 128) = true.
Proof. vm_compute. reflexivity. Qed.

Lemma group_bits g : group_ok g ->
  Z.land g 127 = g /\ Z.land g 128 = 0
  /\ Z.land (Z.lor g 128) 127 = g /\ Z.land (Z.lor g 128) 128 = 128.
Proof.
  intros Hg. pose proof group_bits_check as H. rewrite forallb_forall in H.
  specialize (H g). rewrite <- list_elem_of_In, elem_of_seqZ in H.
  unfold group_ok in Hg. specialize (H ltac:(lia)). zbool. auto.
Qed.

Lemma decode_loop_groups gs rest pos r :
  gs <> [] -> Forall group_ok gs ->
  decode_variable_nat_loop (emit_groups gs ++ rest) pos (wrap64 r)
  = Some (wrap64 (base128 r gs), pos + zlength gs).
Proof.
  intros Hne Hgs. revert pos r Hne. induction Hgs as [|g gs Hg Hgs IH]; intros pos r Hne; [done|].
  destruct (group_bits g Hg) as (H1 & H2 & H3 & H4).
  assert (forall r, Z.lor (wrap64 (Z.shiftl (wrap64 r) 7)) g = wrap64 (r * 128 + g)) as Hstep.
  { intros r'. rewrite wrap64_shift7 by done. unfold wrap64.
    by rewrite <- Z.add_mod_idemp_l, Z.mul_mod_idemp_l, Z.add_mod_idemp_l by lia. }
  destruct gs as [|g' gs].
  - cbn [emit_groups app decode_variable_nat_loop]. rewrite H1, H2, Hstep. done.
  - change (emit_groups (g :: g' :: gs)) with (Z.lor g 128 :: emit_groups (g' :: gs)).
    cbn [app decode_variable_nat_loop]. rewrite H3, H4, Hstep. cbn [Z.eqb Pos.eqb].
    rewrite (IH _ (r * 128 + g)) by done. f_equal. f_equal.
    autorewrite with zlen. lia.
Qed.

Lemma drop_zlength {A} (pre l : list A) : drop (Z.to_nat (zlength pre)) (pre ++ l) = l.
Proof. unfold zlength. by rewrite Nat2Z.id, drop_app_length. Qed.

Lemma base128_app acc l k : base128 acc (l ++ k) = base128 (base128 acc l) k.
Proof. unfold base128. apply fold_left_app. Qed.

Lemma variable_nat_groups_spec fuel v :
  0 <= v < 2 ^ (7 * Z.of_nat fuel) ->
  base128 0 (rev (variable_nat_groups fuel v)) = v
  /\ Forall group_ok (variable_nat_groups fuel v).
Proof.
  revert v. induction fuel as [|fuel IH]; intros v Hv.
  - simpl in *. split; [unfold base128; simpl; lia | constructor].
  - cbn [variable_nat_groups]. case_goal; zbool.
    2: { split; [unfold base128; simpl; lia | constructor]. }
    change 127 with (Z.ones 7). rewrite Z.land_ones, Z.shiftr_div_pow2 by lia.
    change (2 ^ 7) with 128.
    rewrite Nat2Z.inj_succ in Hv.
    replace (7 * Z.succ (Z.of_nat fuel)) with (7 + 7 * Z.of_nat fuel) in Hv by lia.
    rewrite Z.pow_add_r in Hv by lia. change (2 ^ 7) with 128 in Hv.
    destruct (IH (v / 128)) as [Hval Hok].
    { split; [apply Z.div_pos; lia | apply Z.div_lt_upper_bound; lia]. }
    split.
    + cbn [rev]. rewrite base128_app, Hval. unfold base128. simpl.
      pose proof (Z.div_mod v 128). lia.
    + constructor; [|done]. unfold group_ok. apply Z.mod_pos_bound. lia.
Qed.

Lemma encode_variable_nat_groups v :
  u64 v -> exists gs, encode_variable_nat v = emit_groups gs /\ gs <> []
    /\ Forall group_ok gs /\ base128 0 gs = v.
Proof.
  unfold u64, U64_MAX. intros Hv. unfold encode_variable_nat.
  destruct (v =? 0) eqn:E; zbool.
  - exists [0]. subst. split_and!; [done..| |done]. by repeat constructor.
  - destruct (variable_nat_groups_spec 10 v) as [Hval Hok]; [simpl; lia|].
    eexists. split_and!; [done| |by apply Forall_rev|done].
    intros Hn. rewrite Hn in Hval. unfold base128 in Hval. simpl in Hval. lia.
Qed.

Lemma length_emit_groups gs : zlength (emit_groups gs) = zlength gs.
Proof.
  induction gs as [|g [|g' gs] IH]; [done..|].
  change (emit_groups (g :: g' :: gs)) with (Z.lor g 128 :: emit_groups (g' :: gs)).
  autorewrite with zlen in *. lia.
Qed.

Lemma decode_encode_nat pre v rest :
  u64 v ->
  decode_variable_nat (pre ++ encode_variable_nat v ++ rest) (zlength pre)
  = Some (v, zlength (pre ++ encode_variable_nat v)).
Proof.
  intros Hv. destruct (encode_variable_nat_groups v Hv) as (gs & -> & Hne & Hok & Hval).
  unfold decode_variable_nat. rewrite drop_zlength.
  change 0 with (wrap64 0). rewrite decode_loop_groups, Hval, wrap64_id by done.
  by rewrite zlength_app, length_emit_groups.
Qed.

(** ** Address round trips *)

Lemma network_cases n : network_ok n -> n = 0 \/ n = 1.
Proof. unfold network_ok, is_valid_network_id. rewrite orb_true_iff, !Z.eqb_eq. done. Qed.

Lemma slice_1_29 (x : Z) h rest : hash28 h -> zslice 1 29 (x :: h ++ rest) = h.
Proof. intros Hh. change (zslice 1 29 ?l) with (zslice (zlength [x]) (zlength [x] + 28) l).
  rewrite <- Hh. apply (zslice_app [x]). Qed.

Lemma slice_1_29_end (x : Z) h : hash28 h -> zslice 1 29 (x :: h) = h.
Proof. intros Hh. pose proof (slice_1_29 x h [] Hh) as H. by rewrite app_nil_r in H. Qed.

Lemma slice_29_57 (x : Z) h h' : hash28 h -> hash28 h' -> zslice 29 57 (x :: h ++ h') = h'.
Proof.
  unfold hash28. intros Hh Hh'.
  pose proof (zslice_app (x :: h) h' []) as H. rewrite app_nil_r in H.
  rewrite zlength_cons, Hh, Hh' in H. done.
Qed.

(** Split a well-formed address into its credentials and network, leaving a
    concrete header byte. *)
Ltac split_address :=
  cbn [address_ok] in *; unfold cred_ok in *; cbn [ba_network ba_payment ba_staking ea_network ea_payment
    pa_network pa_payment pa_slot pa_tx_index pa_cert_index ra_network ra_credential] in *;
  repeat match goal with
  | H : _ /\ _ |- _ => destruct H
  | H : network_ok _ |- _ => destruct (network_cases _ H); clear H; subst
  | c : StakeCredential |- _ => destruct c
  end; cbn [StakeCredential_hash] in *.

Lemma RewardAccount_bytes r :
  network_ok (ra_network r) -> cred_ok (ra_credential r) ->
  RewardAccount_from_bytes (RewardAccount_to_bytes r) = Some r.
Proof.
  intros Hn Hc. destruct r as [n c]. split_address;
    unfold RewardAccount_from_bytes, RewardAccount_to_bytes;
    cbn [StakeCredential_hash ra_credential];
    rewrite zlength_cons, Hc; simpl; by rewrite slice_1_29_end.
Qed.

Lemma pointer_fields h pay slot tx cert :
  hash28 pay -> u64 slot -> u64 tx -> u64 cert ->
  let bs := h :: pay ++ encode_variable_nat slot ++ encode_variable_nat tx
              ++ encode_variable_nat cert in
  exists p1 p2, decode_variable_nat bs 29 = Some (slot, p1)
    /\ decode_variable_nat bs p1 = Some (tx, p2)
    /\ decode_variable_nat bs p2 = Some (cert, zlength bs).
Proof.
  intros Hp Hs Ht Hc bs. subst bs.
  pose proof (decode_encode_nat (h :: pay) slot
                (encode_variable_nat tx ++ encode_variable_nat cert) Hs) as H1.
  pose proof (decode_encode_nat ((h :: pay) ++ encode_variable_nat slot) tx
                (encode_variable_nat cert) Ht) as H2.
  pose proof (decode_encode_nat (((h :: pay) ++ encode_variable_nat slot)
                ++ encode_variable_nat tx) cert [] Hc) as H3.
  rewrite zlength_cons, Hp in H1. rewrite app_nil_r in H3.
  rewrite <- !(assoc_L (++)) in H2. rewrite <- !(assoc_L (++)) in H3.
  cbn [app] in H1, H2, H3. change (1 + 28) with 29 in H1.
  eexists _, _. split_and!; eassumption.
Qed.

Lemma encode_variable_nat_nonempty v : u64 v -> 1 <= zlength (encode_variable_nat v).
Proof.
  intros Hv. destruct (encode_variable_nat_groups v Hv) as (gs & -> & Hne & _).
  rewrite length_emit_groups. destruct gs; [done|]. rewrite zlength_cons.
  pose proof (zlength_nonneg gs). lia.
Qed.

Lemma pointer_bytes p : address_ok (Pointer p) ->
  Address_from_bytes (Address_to_bytes (Pointer p)) = Some (Pointer p).
Proof.
  intros Hp. destruct p as [n c slot tx cert]. split_address;
    unfold Address_from_bytes, Address_to_bytes;
    cbn [StakeCredential_hash StakeCredential_is_key_hash pa_payment pa_network pa_slot
         pa_tx_index pa_cert_index lookup list_lookup mbind option_bind];
    (match goal with |- context [decode_variable_nat (?hd :: _) 29] =>
       destruct (pointer_fields hd h slot tx cert) as (p1 & p2 & E1 & E2 & E3) end; [done..|]);
    rewrite E1, (slice_1_29 _ h) by done; cbn [mbind option_bind];
    rewrite E2; cbn [mbind option_bind]; rewrite E3; cbn [mbind option_bind];
    rewrite (Z.eqb_refl (zlength _));
    (rewrite (proj2 (Z.ltb_ge (zlength _) 30)); [reflexivity|]);
    pose proof (encode_variable_nat_nonempty slot ltac:(done));
    pose proof (zlength_nonneg (encode_variable_nat tx ++ encode_variable_nat cert));
    rewrite zlength_cons, !(zlength_app h), zlength_app; unfold hash28 in *; lia.
Qed.

Lemma base_bytes b : address_ok (Base b) ->
  Address_from_bytes (Address_to_bytes (Base b)) = Some (Base b).
Proof.
  intros Hb. destruct b as [n c c']. split_address;
    unfold Address_from_bytes, Address_to_bytes;
    cbn [StakeCredential_hash ba_payment ba_staking ba_network lookup list_lookup mbind option_bind];
    rewrite zlength_cons, zlength_app, H0, H1; simpl; by rewrite slice_1_29, slice_29_57.
Qed.

Lemma enterprise_bytes e : address_ok (Enterprise e) ->
  Address_from_bytes (Address_to_bytes (Enterprise e)) = Some (Enterprise e).
Proof.
  intros He. destruct e as [n c]. split_address;
    unfold Address_from_bytes, Address_to_bytes;
    cbn [StakeCredential_hash ea_payment ea_network lookup list_lookup mbind option_bind];
    rewrite zlength_cons, H0; simpl; by rewrite slice_1_29_end.
Qed.

(** Every header byte splits into its nibbles and back. *)
Lemma header_check :
  forallb (fun h =>
    let t := Z.shiftr h 4 in let n := Z.land h 15 in
    (Z.lor (Z.shiftl t 4) n =? h) && (0 <=? t) && (t <=? 15) && (Z.land n 15 =? n))
    (seqZ 0 256) = true.
Proof. vm_compute. reflexivity. Qed.

Lemma header_split h : u8 h ->
  Z.lor (Z.shiftl (Z.shiftr h 4) 4) (Z.land h 15) = h
  /\ 0 <= Z.shiftr h 4 <= 15 /\ Z.land (Z.land h 15) 15 = Z.land h 15.
Proof.
  unfold u8, U8_MAX. intros Hh. pose proof header_check as H. rewrite forallb_forall in H.
  specialize (H h). rewrite <- list_elem_of_In, elem_of_seqZ in H.
  specialize (H ltac:(lia)). cbv zeta in H. zbool. auto.
Qed.

Lemma split_29 (x : Z) l : zlength (x :: l) = 29 -> zslice 1 29 (x :: l) = l.
Proof. rewrite zlength_cons. intros. apply slice_1_29_end. unfold hash28. lia. Qed.

Lemma split_57 (x : Z) l :
  zlength (x :: l) = 57 -> zslice 1 29 (x :: l) ++ zslice 29 57 (x :: l) = l.
Proof.
  rewrite zlength_cons. intros Hl. unfold zslice. simpl. rewrite drop_0.
  rewrite (firstn_all2 (n := Z.to_nat (57 - 29)) (drop _ l)).
  - apply take_drop.
  - rewrite length_drop. unfold zlength in Hl. lia.
Qed.

Lemma reward_canonical h l r :
  u8 h -> RewardAccount_from_bytes (h :: l) = Some r -> RewardAccount_to_bytes r = h :: l.
Proof.
  intros Hh. destruct (header_split h Hh) as (Hs & _ & Hn).
  unfold RewardAccount_from_bytes, RewardAccount_to_bytes. cbn [lookup list_lookup mbind option_bind].
  repeat case_goal; try done; intros [= <-]; zbool;
    rewrite negb_false_iff in *; zbool; simpl;
    rewrite Hn, split_29 by done; f_equal; rewrite <- Hs at 2;
    match goal with E : Z.shiftr h 4 = _ |- _ => by rewrite E end.
Qed.

Lemma enterprise_canonical h l :
  u8 h -> zlength (h :: l) = 29 ->
  forall t, Z.shiftr h 4 = t -> t = 6 \/ t = 7 ->
  Address_to_bytes (Enterprise (mkEnterprise (Z.land h 15)
    (if t =? 6 then AddrKeyHash (zslice 1 29 (h :: l)) else ScriptHash (zslice 1 29 (h :: l)))))
  = h :: l.
Proof.
  intros Hh Hl t Ht Hc. destruct (header_split h Hh) as (Hs & _ & Hn). rewrite Ht in Hs.
  destruct Hc as [-> | ->]; simpl; rewrite Hn, split_29 by done; f_equal; exact Hs.
Qed.

Lemma base_canonical h l :
  u8 h -> zlength (h :: l) = 57 ->
  forall t, Z.shiftr h 4 = t -> 0 <= t <= 3 ->
  Address_to_bytes (Base (mkBase (Z.land h 15)
    (if Z.land t 1 =? 0 then AddrKeyHash (zslice 1 29 (h :: l)) else ScriptHash (zslice 1 29 (h :: l)))
    (if Z.land t 2 =? 0 then AddrKeyHash (zslice 29 57 (h :: l)) else ScriptHash (zslice 29 57 (h :: l)))))
  = h :: l.
Proof.
  intros Hh Hl t Ht Hc. destruct (header_split h Hh) as (Hs & _ & Hn). rewrite Ht in Hs.
  assert (t = 0 \/ t = 1 \/ t = 2 \/ t = 3) as [->|[->|[->| ->]]] by lia;
    simpl; rewrite Hn, split_57 by done; f_equal; exact Hs.
Qed.

(** Accepted bytes are the serialization of the address they decode to,
    except for pointers. *)
Lemma from_bytes_canonical bs a :
  bytes_ok bs -> Address_from_bytes bs = Some a -> is_pointer a = false ->
  Address_to_bytes a = bs.
Proof.
  intros Hb. destruct bs as [|h l]; [done|].
  assert (u8 h) as Hh by by inversion Hb.
  pose proof (header_split h Hh) as (_ & Hr & _).
  unfold Address_from_bytes. cbn [lookup list_lookup mbind option_bind]. cbv zeta.
  destruct (negb (is_valid_network_id _)).
  { repeat (case_match; try done); intros Ha; [by injection Ha as <-|].
    apply bind_Some in Ha as (r & Hr' & [= <-]). intros _. by apply reward_canonical. }
  destruct (Z.shiftr h 4 <=? 3) eqn:E1; [|destruct (Z.shiftr h 4 <=? 5) eqn:E2;
    [|destruct (Z.shiftr h 4 <=? 7) eqn:E3; [|destruct (Z.shiftr h 4 =? 8) eqn:E4]]]; zbool.
  - destruct (zlength _ =? 57) eqn:El; [|done]. zbool. intros Ha _. injection Ha as <-.
    by apply base_canonical; [..|lia].
  - destruct (_ <? 30); [done|]. intros Ha Hp.
    repeat (apply bind_Some in Ha as ([] & _ & Ha)). by case_match; simplify_eq.
  - destruct (zlength _ =? 29) eqn:El; [|done]. zbool. intros Ha _. injection Ha as <-.
    by apply enterprise_canonical; [..|lia].
  - intros Ha _. by injection Ha as <-.
  - case_match; [|done]. intros Ha _. apply bind_Some in Ha as (r & Hr' & [= <-]).
    by apply reward_canonical.
Qed.

Lemma address_bytes a : address_ok a -> Address_from_bytes (Address_to_bytes a) = Some a.
Proof.
  destruct a as [b|e|p|r|raw]; intros Ha.
  - by apply base_bytes.
  - by apply enterprise_bytes.
  - by apply pointer_bytes.
  - destruct Ha as [Hn Hc]. pose proof (RewardAccount_bytes r Hn Hc) as Hr.
    unfold Address_from_bytes. cbn [Address_to_bytes].
    destruct r as [n c]. split_address;
      unfold RewardAccount_to_bytes at 1; cbn [lookup list_lookup mbind option_bind];
      simpl Z.shiftr; simpl Z.leb; cbv iota; simpl; by rewrite Hr.
  - destruct Ha as (b & rest & -> & Hb). unfold Address_from_bytes.
    cbn [Address_to_bytes lookup list_lookup mbind option_bind]. by rewrite Hb.
Qed.

(** ** Properties *)

(** [decode_variable_nat] reads any non-empty run of 7-bit groups in full
    and returns their base-128 value modulo 2^64 with the position after the
    run: the [checked_shl] guard never rejects an overlong value, it is
    silently truncated. *)
Theorem decode_variable_nat_value (pre gs rest : list Z)
    (Hne : gs <> []) (Hgs : Forall group_ok gs) :
  decode_variable_nat (pre ++ emit_groups gs ++ rest) (zlength pre)
  = Some (base128 0 gs mod 2 ^ 64, zlength pre + zlength gs).
Proof.
  unfold decode_variable_nat. rewrite drop_zlength. change 0 with (wrap64 0) at 1.
  by apply decode_loop_groups.
Qed.

(** A pointer slot of [2^64 + 5] in ten groups reads as slot 5. *)
Lemma decode_variable_nat_value_witness :
  decode_variable_nat ([7] ++ emit_groups [2; 0; 0; 0; 0; 0; 0; 0; 0; 5] ++ [1]) 1
  = Some (5, 11).
Proof.
  apply (decode_variable_nat_value [7] [2; 0; 0; 0; 0; 0; 0; 0; 0; 5] [1]);
    [done | repeat constructor; lia].
Defined.

(** Every address the Rust types can hold with a valid network id (base,
    enterprise, pointer, reward, or Byron-tagged bytes) is read back from its
    own serialization. *)
Theorem address_round_trip (a : Address) (Ha : address_ok a) :
  Address_from_bytes (Address_to_bytes a) = Some a.
Proof. by apply address_bytes. Qed.

Lemma address_round_trip_witness :
  Address_from_bytes (Address_to_bytes
    (Pointer (mkPointer 1 (ScriptHash (replicate 28 7)) 2498243 27 3)))
  = Some (Pointer (mkPointer 1 (ScriptHash (replicate 28 7)) 2498243 27 3)).
Proof.
  apply address_round_trip. repeat split; vm_compute; congruence.
Defined.

(** Serialization is canonical for every address but pointers: bytes
    accepted by [Address::from_bytes] are the bytes [to_bytes] writes, so no
    two byte strings decode to the same base, enterprise, reward or Byron
    address. *)
Theorem address_canonical (bs : list Z) (a : Address) (Hb : bytes_ok bs)
    (Ha : Address_from_bytes bs = Some a) (Hp : is_pointer a = false) :
  Address_to_bytes a = bs.
Proof. by apply from_bytes_canonical. Qed.

Lemma address_canonical_witness :
  Address_to_bytes (Enterprise (mkEnterprise 1 (AddrKeyHash (replicate 28 9))))
  = 97 :: replicate 28 9.
Proof.
  apply address_canonical; [|by vm_compute|done].
  constructor; [done|]. apply Forall_replicate. done.
Defined.
