(* ===== verification/TypesCodec.v ===== *)
(** * CBOR codecs of the core ledger types

    Model of the [CborEncode] and [CborDecode] implementations of
    [crates/ledger/src/cbor.rs] for eras, chain points, tips, nonces,
    credentials, pool parameters, delegated representatives and certificates,
    and their round trips. The traits are the class [CborCodec]; the class
    [CborRoundTrip] is the promise the mini-protocol codecs build on. *)

From stdpp Require Import sorting.
From S2P Require Import Prelude Cbor CborFacts Types AddressFacts.
Local Open Scope Z_scope.

(** ** The traits *)

Class CborCodec (A : Type) := {
  encode_cbor : A -> list Z;
  decode_cbor : Dec A }.

(** [ok] is what the Rust type guarantees of its values (widths, array sizes). *)
Class CborRoundTrip (A : Type) `{CborCodec A} (ok : A -> Prop) :=
  cbor_round_trip : forall a, ok a -> decodes decode_cbor (encode_cbor a) a.

(** ** Ordered maps *)

(** [u8] slices compare lexicographically. *)
Fixpoint bytes_compare (l k : list Z) : comparison :=
  match l, k with
  | [], [] => Eq
  | [], _ :: _ => Lt
  | _ :: _, [] => Gt
  | x :: l, y :: k =>
      match x ?= y with Eq => bytes_compare l k | c => c end
  end.

(** The derived [Ord] of [StakeCredential]: constructor order, then the hash. *)
Definition StakeCredential_compare (c d : StakeCredential) : comparison :=
  match c, d with
  | AddrKeyHash h, AddrKeyHash k => bytes_compare h k
  | AddrKeyHash _, ScriptHash _ => Lt
  | ScriptHash _, AddrKeyHash _ => Gt
  | ScriptHash h, ScriptHash k => bytes_compare h k
  end.

(** [BTreeMap::insert] on the list of bindings in increasing key order. *)
Fixpoint btree_insert {K V} (cmp : K -> K -> comparison) (k : K) (v : V) (m : list (K * V))
    : list (K * V) :=
  match m with
  | [] => [(k, v)]
  | (k', v') :: m' =>
      match cmp k k' with
      | Lt => (k, v) :: m
      | Eq => (k', v) :: m'
      | Gt => (k', v') :: btree_insert cmp k v m'
      end
  end.

(** ** Fixed-size byte arrays *)

(** [<[u8; N]>::try_from(bs)] with the length error of the callers. *)
Definition try_array (n : Z) (bs : list Z) : outcome LedgerError (list Z) :=
  if zlength bs =? n then Ok bs else Err (CborInvalidLength n (zlength bs)).

Definition decode_fixed (n : Z) : Dec (list Z) :=
  raw <- Decoder_bytes ;; dlift (try_array n raw).
Definition decode_hash28 : Dec (list Z) := decode_fixed 28.
Definition decode_hash32 : Dec (list Z) := decode_fixed 32.

(** [if len != n { return Err(CborInvalidLength) }] *)
Definition expect_len (n len : Z) : Dec unit :=
  if negb (len =? n) then derr (CborInvalidLength n len) else dret tt.

(** [if dec.peek_major()? == 7 { dec.null()?; None } else { Some(m) }] *)
Definition decode_nullable {A} (m : Dec A) : Dec (option A) :=
  major <- dget Decoder_peek_major ;;
  if major =? 7 then Decoder_null ;;; dret None
  else x <- m ;; dret (Some x).

Definition encode_nullable {A} (enc : A -> list Z) (o : option A) : list Z :=
  match o with Some x => enc x | None => Encoder_null end.

(** ** Codecs *)

Definition Era_encode (e : Era) : list Z :=
  Encoder_unsigned
    match e with
    | EraByron => 0 | EraShelley => 1 | EraAllegra => 2 | EraMary => 3
    | EraAlonzo => 4 | EraBabbage => 5 | EraConway => 6
    end.
Definition Era_decode : Dec Era :=
  tag <- Decoder_unsigned ;;
  match tag with
  | 0 => dret EraByron
  | 1 => dret EraShelley
  | 2 => dret EraAllegra
  | 3 => dret EraMary
  | 4 => dret EraAlonzo
  | 5 => dret EraBabbage
  | 6 => dret EraConway
  | tag => derr (CborInvalidAdditionalInfo (wrap8 tag))
  end.

Definition SlotNo_encode (s : SlotNo) : list Z := Encoder_unsigned s.
Definition SlotNo_decode : Dec SlotNo := Decoder_unsigned.
Definition BlockNo_encode (b : BlockNo) : list Z := Encoder_unsigned b.
Definition BlockNo_decode : Dec BlockNo := Decoder_unsigned.
Definition EpochNo_encode (e : EpochNo) : list Z := Encoder_unsigned e.
Definition EpochNo_decode : Dec EpochNo := Decoder_unsigned.

Definition HeaderHash_encode (h : HeaderHash) : list Z := Encoder_bytes h.
Definition HeaderHash_decode : Dec HeaderHash :=
  bs <- Decoder_bytes ;; dlift (try_array 32 bs).
Definition TxId_encode (h : TxId) : list Z := Encoder_bytes h.
Definition TxId_decode : Dec TxId :=
  bs <- Decoder_bytes ;; dlift (try_array 32 bs).

Definition Point_encode (p : Point) : list Z :=
  match p with
  | Origin => Encoder_array 0
  | BlockPoint slot hash => Encoder_array 2 ++ SlotNo_encode slot ++ HeaderHash_encode hash
  end.
Definition Point_decode : Dec Point :=
  len <- Decoder_array ;;
  match len with
  | 0 => dret Origin
  | 2 =>
      slot <- SlotNo_decode ;;
      hash <- HeaderHash_decode ;;
      dret (BlockPoint slot hash)
  | len => derr (CborInvalidLength 2 len)
  end.

Definition Tip_encode (t : TipT) : list Z :=
  match t with
  | TipGenesis => Encoder_array 0
  | Tip point bn => Encoder_array 2 ++ Point_encode point ++ BlockNo_encode bn
  end.
Definition Tip_decode : Dec TipT :=
  len <- Decoder_array ;;
  match len with
  | 0 => dret TipGenesis
  | 2 =>
      point <- Point_decode ;;
      block_no <- BlockNo_decode ;;
      dret (Tip point block_no)
  | len => derr (CborInvalidLength 2 len)
  end.

Definition Nonce_encode (n : NonceT) : list Z :=
  match n with
  | Neutral => Encoder_array 0
  | Hash h => Encoder_array 1 ++ Encoder_bytes h
  end.
Definition Nonce_decode : Dec NonceT :=
  len <- Decoder_array ;;
  match len with
  | 0 => dret Neutral
  | 1 => arr <- decode_fixed 32 ;; dret (Hash arr)
  | len => derr (CborInvalidLength 1 len)
  end.

Definition StakeCredential_encode (c : StakeCredential) : list Z :=
  Encoder_array 2 ++
  match c with
  | AddrKeyHash h => Encoder_unsigned 0 ++ Encoder_bytes h
  | ScriptHash h => Encoder_unsigned 1 ++ Encoder_bytes h
  end.
Definition StakeCredential_decode : Dec StakeCredential :=
  len <- Decoder_array ;;
  expect_len 2 len ;;;
  tag <- Decoder_unsigned ;;
  hash <- decode_fixed 28 ;;
  match tag with
  | 0 => dret (AddrKeyHash hash)
  | 1 => dret (ScriptHash hash)
  | tag => derr (CborInvalidAdditionalInfo (wrap8 tag))
  end.

Definition RewardAccount_encode (r : RewardAccount) : list Z :=
  Encoder_bytes (RewardAccount_to_bytes r).
Definition RewardAccount_decode : Dec RewardAccount :=
  raw <- Decoder_bytes ;;
  dlift (ok_or (RewardAccount_from_bytes raw) (CborInvalidLength 29 (zlength raw))).

Definition Anchor_encode (a : Anchor) : list Z :=
  Encoder_array 2 ++ Encoder_text (an_url a) ++ Encoder_bytes (an_data_hash a).
Definition Anchor_decode : Dec Anchor :=
  len <- Decoder_array ;;
  expect_len 2 len ;;;
  url <- Decoder_text ;;
  data_hash <- decode_fixed 32 ;;
  dret (mkAnchor url data_hash).

Definition UnitInterval_encode (u : UnitInterval) : list Z :=
  Encoder_tag 30 ++ Encoder_array 2
  ++ Encoder_unsigned (numerator u) ++ Encoder_unsigned (denominator u).
Definition UnitInterval_decode : Dec UnitInterval :=
  t <- Decoder_tag ;;
  if negb (t =? 30) then derr (CborTypeMismatch 30 (wrap8 t)) else
  len <- Decoder_array ;;
  expect_len 2 len ;;;
  n <- Decoder_unsigned ;;
  d <- Decoder_unsigned ;;
  dret (mkUnitInterval n d).

(** The port is cast with [as u16]: larger values are truncated. *)
Definition decode_optional_port : Dec (option Z) :=
  decode_nullable (p <- Decoder_unsigned ;; dret (wrap16 p)).
Definition decode_optional_ipv4 : Dec (option (list Z)) := decode_nullable (decode_fixed 4).
Definition decode_optional_ipv6 : Dec (option (list Z)) := decode_nullable (decode_fixed 16).

Definition Relay_encode (r : Relay) : list Z :=
  match r with
  | SingleHostAddr port ipv4 ipv6 =>
      Encoder_array 4 ++ Encoder_unsigned 0
      ++ encode_nullable Encoder_unsigned port
      ++ encode_nullable Encoder_bytes ipv4
      ++ encode_nullable Encoder_bytes ipv6
  | SingleHostName port name =>
      Encoder_array 3 ++ Encoder_unsigned 1
      ++ encode_nullable Encoder_unsigned port ++ Encoder_text name
  | MultiHostName name =>
      Encoder_array 2 ++ Encoder_unsigned 2 ++ Encoder_text name
  end.
Definition Relay_decode : Dec Relay :=
  len <- Decoder_array ;;
  tag <- Decoder_unsigned ;;
  match tag with
  | 0 =>
      expect_len 4 len ;;;
      port <- decode_optional_port ;;
      ipv4 <- decode_optional_ipv4 ;;
      ipv6 <- decode_optional_ipv6 ;;
      dret (SingleHostAddr port ipv4 ipv6)
  | 1 =>
      expect_len 3 len ;;;
      port <- decode_optional_port ;;
      name <- Decoder_text ;;
      dret (SingleHostName port name)
  | 2 =>
      expect_len 2 len ;;;
      name <- Decoder_text ;;
      dret (MultiHostName name)
  | tag => derr (CborTypeMismatch 2 (wrap8 tag))
  end.

Definition PoolMetadata_encode (p : PoolMetadata) : list Z :=
  Encoder_array 2 ++ Encoder_text (pm_url p) ++ Encoder_bytes (pm_metadata_hash p).
Definition PoolMetadata_decode : Dec PoolMetadata :=
  len <- Decoder_array ;;
  expect_len 2 len ;;;
  url <- Decoder_text ;;
  metadata_hash <- decode_fixed 32 ;;
  dret (mkPoolMetadata url metadata_hash).

Definition PoolParams_encode_inline (p : PoolParams) : list Z :=
  Encoder_bytes (operator p)
  ++ Encoder_bytes (vrf_keyhash p)
  ++ Encoder_unsigned (pledge p)
  ++ Encoder_unsigned (cost p)
  ++ UnitInterval_encode (margin p)
  ++ RewardAccount_encode (reward_account p)
  ++ Encoder_array (zlength (pool_owners p))
  ++ concat (map Encoder_bytes (pool_owners p))
  ++ Encoder_array (zlength (relays p))
  ++ concat (map Relay_encode (relays p))
  ++ encode_nullable PoolMetadata_encode (pool_metadata p).
Definition PoolParams_decode_inline : Dec PoolParams :=
  operator <- decode_fixed 28 ;;
  vrf_keyhash <- decode_fixed 32 ;;
  pledge <- Decoder_unsigned ;;
  cost <- Decoder_unsigned ;;
  margin <- UnitInterval_decode ;;
  reward_account <- RewardAccount_decode ;;
  n_owners <- Decoder_array_or_set ;;
  pool_owners <- decode_count n_owners (decode_fixed 28) ;;
  n_relays <- Decoder_array ;;
  relays <- decode_count n_relays Relay_decode ;;
  pool_metadata <- decode_nullable PoolMetadata_decode ;;
  dret (mkPoolParams operator vrf_keyhash pledge cost margin reward_account
          pool_owners relays pool_metadata).
Definition PoolParams_encode (p : PoolParams) : list Z :=
  Encoder_array 9 ++ PoolParams_encode_inline p.
Definition PoolParams_decode : Dec PoolParams :=
  len <- Decoder_array ;; expect_len 9 len ;;; PoolParams_decode_inline.

Definition DRep_encode (d : DRep) : list Z :=
  match d with
  | DRepKeyHash h => Encoder_array 2 ++ Encoder_unsigned 0 ++ Encoder_bytes h
  | DRepScriptHash h => Encoder_array 2 ++ Encoder_unsigned 1 ++ Encoder_bytes h
  | AlwaysAbstain => Encoder_array 1 ++ Encoder_unsigned 2
  | AlwaysNoConfidence => Encoder_array 1 ++ Encoder_unsigned 3
  end.
Definition DRep_decode : Dec DRep :=
  len <- Decoder_array ;;
  tag <- Decoder_unsigned ;;
  match tag with
  | 0 | 1 =>
      expect_len 2 len ;;;
      hash <- decode_fixed 28 ;;
      if tag =? 0 then dret (DRepKeyHash hash) else dret (DRepScriptHash hash)
  | 2 => expect_len 1 len ;;; dret AlwaysAbstain
  | 3 => expect_len 1 len ;;; dret AlwaysNoConfidence
  | tag => derr (CborTypeMismatch 3 (wrap8 tag))
  end.

Definition decode_optional_anchor : Dec (option Anchor) := decode_nullable Anchor_decode.
Definition encode_optional_anchor (a : option Anchor) : list Z :=
  encode_nullable Anchor_encode a.

(** [*pot as u64] *)
Definition MirPot_as_u64 (p : MirPot) : Z :=
  match p with Reserves => 0 | Treasury => 1 end.

Definition DCert_encode (c : DCert) : list Z :=
  match c with
  | AccountRegistration cred =>
      Encoder_array 2 ++ Encoder_unsigned 0 ++ StakeCredential_encode cred
  | AccountUnregistration cred =>
      Encoder_array 2 ++ Encoder_unsigned 1 ++ StakeCredential_encode cred
  | DelegationToStakePool cred pool =>
      Encoder_array 3 ++ Encoder_unsigned 2 ++ StakeCredential_encode cred ++ Encoder_bytes pool
  | PoolRegistration params =>
      Encoder_array 10 ++ Encoder_unsigned 3 ++ PoolParams_encode_inline params
  | PoolRetirement pool epoch =>
      Encoder_array 3 ++ Encoder_unsigned 4 ++ Encoder_bytes pool ++ EpochNo_encode epoch
  | GenesisDelegation genesis deleg vrf =>
      Encoder_array 4 ++ Encoder_unsigned 5
      ++ Encoder_bytes genesis ++ Encoder_bytes deleg ++ Encoder_bytes vrf
  | MoveInstantaneousReward pot target =>
      Encoder_array 2 ++ Encoder_unsigned 6
      ++ Encoder_array 2 ++ Encoder_unsigned (MirPot_as_u64 pot)
      ++ match target with
         | StakeCredentials m =>
             Encoder_map (zlength m)
             ++ concat (map (fun kv => StakeCredential_encode kv.1 ++ Encoder_integer kv.2) m)
         | SendToOppositePot coin => Encoder_unsigned coin
         end
  | AccountRegistrationDeposit cred coin =>
      Encoder_array 3 ++ Encoder_unsigned 7 ++ StakeCredential_encode cred ++ Encoder_unsigned coin
  | AccountUnregistrationDeposit cred coin =>
      Encoder_array 3 ++ Encoder_unsigned 8 ++ StakeCredential_encode cred ++ Encoder_unsigned coin
  | DelegationToDrep cred drep =>
      Encoder_array 3 ++ Encoder_unsigned 9 ++ StakeCredential_encode cred ++ DRep_encode drep
  | DelegationToStakePoolAndDrep cred pool drep =>
      Encoder_array 4 ++ Encoder_unsigned 10 ++ StakeCredential_encode cred
      ++ Encoder_bytes pool ++ DRep_encode drep
  | AccountRegistrationDelegationToStakePool cred pool coin =>
      Encoder_array 4 ++ Encoder_unsigned 11 ++ StakeCredential_encode cred
      ++ Encoder_bytes pool ++ Encoder_unsigned coin
  | AccountRegistrationDelegationToDrep cred drep coin =>
      Encoder_array 4 ++ Encoder_unsigned 12 ++ StakeCredential_encode cred
      ++ DRep_encode drep ++ Encoder_unsigned coin
  | AccountRegistrationDelegationToStakePoolAndDrep cred pool drep coin =>
      Encoder_array 5 ++ Encoder_unsigned 13 ++ StakeCredential_encode cred
      ++ Encoder_bytes pool ++ DRep_encode drep ++ Encoder_unsigned coin
  | CommitteeAuthorization cold hot =>
      Encoder_array 3 ++ Encoder_unsigned 14
      ++ StakeCredential_encode cold ++ StakeCredential_encode hot
  | CommitteeResignation cold anchor =>
      Encoder_array 3 ++ Encoder_unsigned 15
      ++ StakeCredential_encode cold ++ encode_optional_anchor anchor
  | DrepRegistration cred coin anchor =>
      Encoder_array 4 ++ Encoder_unsigned 16 ++ StakeCredential_encode cred
      ++ Encoder_unsigned coin ++ encode_optional_anchor anchor
  | DrepUnregistration cred coin =>
      Encoder_array 3 ++ Encoder_unsigned 17 ++ StakeCredential_encode cred ++ Encoder_unsigned coin
  | DrepUpdate cred anchor =>
      Encoder_array 3 ++ Encoder_unsigned 18
      ++ StakeCredential_encode cred ++ encode_optional_anchor anchor
  end.

(** The binding loop of a MIR certificate's map. *)
Definition mir_bindings (n : Z) : Dec (list (StakeCredential * Z)) :=
  dfor n (fun m =>
    cred <- StakeCredential_decode ;;
    delta <- Decoder_integer ;;
    dret (btree_insert StakeCredential_compare cred delta m)) [].

Definition decode_mir : Dec DCert :=
  _mir_len <- Decoder_array ;;
  pot_raw <- Decoder_unsigned ;;
  pot <- match pot_raw with
         | 0 => dret Reserves
         | 1 => dret Treasury
         | pot_raw => derr (CborTypeMismatch 1 (wrap8 pot_raw))
         end ;;
  major <- dget Decoder_peek_major ;;
  target <- (if major =? MAJOR_MAP then
               n <- Decoder_map ;; m <- mir_bindings n ;; dret (StakeCredentials m)
             else coin <- Decoder_unsigned ;; dret (SendToOppositePot coin)) ;;
  dret (MoveInstantaneousReward pot target).

(** The array length is read and ignored. *)
Definition DCert_decode : Dec DCert :=
  _len <- Decoder_array ;;
  tag <- Decoder_unsigned ;;
  match tag with
  | 0 => cred <- StakeCredential_decode ;; dret (AccountRegistration cred)
  | 1 => cred <- StakeCredential_decode ;; dret (AccountUnregistration cred)
  | 2 => cred <- StakeCredential_decode ;; pool <- decode_hash28 ;;
         dret (DelegationToStakePool cred pool)
  | 3 => params <- PoolParams_decode_inline ;; dret (PoolRegistration params)
  | 4 => pool <- decode_hash28 ;; epoch <- EpochNo_decode ;;
         dret (PoolRetirement pool epoch)
  | 5 => genesis <- decode_hash28 ;; deleg <- decode_hash28 ;; vrf <- decode_hash32 ;;
         dret (GenesisDelegation genesis deleg vrf)
  | 6 => decode_mir
  | 7 => cred <- StakeCredential_decode ;; coin <- Decoder_unsigned ;;
         dret (AccountRegistrationDeposit cred coin)
  | 8 => cred <- StakeCredential_decode ;; coin <- Decoder_unsigned ;;
         dret (AccountUnregistrationDeposit cred coin)
  | 9 => cred <- StakeCredential_decode ;; drep <- DRep_decode ;;
         dret (DelegationToDrep cred drep)
  | 10 => cred <- StakeCredential_decode ;; pool <- decode_hash28 ;; drep <- DRep_decode ;;
          dret (DelegationToStakePoolAndDrep cred pool drep)
  | 11 => cred <- StakeCredential_decode ;; pool <- decode_hash28 ;; coin <- Decoder_unsigned ;;
          dret (AccountRegistrationDelegationToStakePool cred pool coin)
  | 12 => cred <- StakeCredential_decode ;; drep <- DRep_decode ;; coin <- Decoder_unsigned ;;
          dret (AccountRegistrationDelegationToDrep cred drep coin)
  | 13 => cred <- StakeCredential_decode ;; pool <- decode_hash28 ;; drep <- DRep_decode ;;
          coin <- Decoder_unsigned ;;
          dret (AccountRegistrationDelegationToStakePoolAndDrep cred pool drep coin)
  | 14 => cold <- StakeCredential_decode ;; hot <- StakeCredential_decode ;;
          dret (CommitteeAuthorization cold hot)
  | 15 => cold <- StakeCredential_decode ;; anchor <- decode_optional_anchor ;;
          dret (CommitteeResignation cold anchor)
  | 16 => cred <- StakeCredential_decode ;; coin <- Decoder_unsigned ;;
          anchor <- decode_optional_anchor ;; dret (DrepRegistration cred coin anchor)
  | 17 => cred <- StakeCredential_decode ;; coin <- Decoder_unsigned ;;
          dret (DrepUnregistration cred coin)
  | 18 => cred <- StakeCredential_decode ;; anchor <- decode_optional_anchor ;;
          dret (DrepUpdate cred anchor)
  | tag => derr (CborTypeMismatch 18 (wrap8 tag))
  end.

#[export] Instance Era_codec : CborCodec Era := {| encode_cbor := Era_encode; decode_cbor := Era_decode |}.
#[export] Instance Point_codec : CborCodec Point := {| encode_cbor := Point_encode; decode_cbor := Point_decode |}.
#[export] Instance Tip_codec : CborCodec TipT := {| encode_cbor := Tip_encode; decode_cbor := Tip_decode |}.
#[export] Instance Nonce_codec : CborCodec NonceT := {| encode_cbor := Nonce_encode; decode_cbor := Nonce_decode |}.
#[export] Instance StakeCredential_codec : CborCodec StakeCredential :=
  {| encode_cbor := StakeCredential_encode; decode_cbor := StakeCredential_decode |}.
#[export] Instance RewardAccount_codec : CborCodec RewardAccount :=
  {| encode_cbor := RewardAccount_encode; decode_cbor := RewardAccount_decode |}.
#[export] Instance Anchor_codec : CborCodec Anchor := {| encode_cbor := Anchor_encode; decode_cbor := Anchor_decode |}.
#[export] Instance UnitInterval_codec : CborCodec UnitInterval :=
  {| encode_cbor := UnitInterval_encode; decode_cbor := UnitInterval_decode |}.
#[export] Instance Relay_codec : CborCodec Relay := {| encode_cbor := Relay_encode; decode_cbor := Relay_decode |}.
#[export] Instance PoolMetadata_codec : CborCodec PoolMetadata :=
  {| encode_cbor := PoolMetadata_encode; decode_cbor := PoolMetadata_decode |}.
#[export] Instance PoolParams_codec : CborCodec PoolParams :=
  {| encode_cbor := PoolParams_encode; decode_cbor := PoolParams_decode |}.
#[export] Instance DRep_codec : CborCodec DRep := {| encode_cbor := DRep_encode; decode_cbor := DRep_decode |}.
#[export] Instance DCert_codec : CborCodec DCert := {| encode_cbor := DCert_encode; decode_cbor := DCert_decode |}.

(** ** What the Rust types guarantee *)

Definition hash32 (h : list Z) : Prop := zlength h = 32.
(** A [String] is valid UTF-8. *)
Definition string_ok (s : list Z) : Prop := utf8_valid s = true.
Definition option_ok {A} (P : A -> Prop) (o : option A) : Prop :=
  match o with Some a => P a | None => True end.

Definition point_ok (p : Point) : Prop :=
  match p with Origin => True | BlockPoint slot h => u64 slot /\ hash32 h end.
Definition tip_ok (t : TipT) : Prop :=
  match t with TipGenesis => True | Tip p bn => point_ok p /\ u64 bn end.
Definition nonce_ok (n : NonceT) : Prop :=
  match n with Neutral => True | Hash h => hash32 h end.
Definition reward_account_ok (r : RewardAccount) : Prop :=
  network_ok (ra_network r) /\ cred_ok (ra_credential r).
Definition anchor_ok (a : Anchor) : Prop := string_ok (an_url a) /\ hash32 (an_data_hash a).
Definition unit_interval_ok (u : UnitInterval) : Prop := u64 (numerator u) /\ u64 (denominator u).
Definition relay_ok (r : Relay) : Prop :=
  match r with
  | SingleHostAddr port ipv4 ipv6 =>
      option_ok u16 port /\ option_ok (fun ip => zlength ip = 4) ipv4
      /\ option_ok (fun ip => zlength ip = 16) ipv6
  | SingleHostName port name => option_ok u16 port /\ string_ok name
  | MultiHostName name => string_ok name
  end.
Definition pool_metadata_ok (p : PoolMetadata) : Prop :=
  string_ok (pm_url p) /\ hash32 (pm_metadata_hash p).
Definition pool_params_ok (p : PoolParams) : Prop :=
  hash28 (operator p) /\ hash32 (vrf_keyhash p) /\ u64 (pledge p) /\ u64 (cost p)
  /\ unit_interval_ok (margin p) /\ reward_account_ok (reward_account p)
  /\ Forall hash28 (pool_owners p) /\ Forall relay_ok (relays p)
  /\ option_ok pool_metadata_ok (pool_metadata p).
Definition drep_ok (d : DRep) : Prop :=
  match d with DRepKeyHash h | DRepScriptHash h => hash28 h | _ => True end.
(** The bindings of a [BTreeMap<StakeCredential, i64>]. *)
Definition mir_map_ok (m : list (StakeCredential * Z)) : Prop :=
  Forall (fun kv => cred_ok kv.1 /\ i64 kv.2) m
  /\ StronglySorted (fun a b => StakeCredential_compare a.1 b.1 = Lt) m.
Definition mir_target_ok (t : MirTarget) : Prop :=
  match t with StakeCredentials m => mir_map_ok m | SendToOppositePot c => u64 c end.
Definition dcert_ok (c : DCert) : Prop :=
  match c with
  | AccountRegistration c | AccountUnregistration c => cred_ok c
  | DelegationToStakePool c pool => cred_ok c /\ hash28 pool
  | PoolRegistration p => pool_params_ok p
  | PoolRetirement pool epoch => hash28 pool /\ u64 epoch
  | GenesisDelegation g d v => hash28 g /\ hash28 d /\ hash32 v
  | MoveInstantaneousReward _ t => mir_target_ok t
  | AccountRegistrationDeposit c coin | AccountUnregistrationDeposit c coin
  | DrepUnregistration c coin => cred_ok c /\ u64 coin
  | DelegationToDrep c d => cred_ok c /\ drep_ok d
  | DelegationToStakePoolAndDrep c pool d => cred_ok c /\ hash28 pool /\ drep_ok d
  | AccountRegistrationDelegationToStakePool c pool coin => cred_ok c /\ hash28 pool /\ u64 coin
  | AccountRegistrationDelegationToDrep c d coin => cred_ok c /\ drep_ok d /\ u64 coin
  | AccountRegistrationDelegationToStakePoolAndDrep c pool d coin =>
      cred_ok c /\ hash28 pool /\ drep_ok d /\ u64 coin
  | CommitteeAuthorization c h => cred_ok c /\ cred_ok h
  | CommitteeResignation c a | DrepUpdate c a => cred_ok c /\ option_ok anchor_ok a
  | DrepRegistration c coin a => cred_ok c /\ u64 coin /\ option_ok anchor_ok a
  end.

(** ** Ordered maps: insertion after the last key *)

Lemma bytes_compare_antisym l k : bytes_compare k l = CompOpp (bytes_compare l k).
Proof.
  revert k. induction l as [|x l IH]; intros [|y k]; simpl; [done..|].
  rewrite (Z.compare_antisym x y). destruct (x ?= y); simpl; auto.
Qed.

Lemma bytes_compare_refl l : bytes_compare l l = Eq.
Proof. induction l as [|x l IH]; simpl; [done|]. by rewrite Z.compare_refl. Qed.

Lemma bytes_compare_eq l k : bytes_compare l k = Eq -> l = k.
Proof.
  revert k. induction l as [|x l IH]; intros [|y k]; simpl; try done.
  destruct (x ?= y) eqn:E; try done. apply Z.compare_eq in E. intros H. f_equal; auto.
Qed.

Lemma bytes_compare_trans a b c :
  bytes_compare a b = Lt -> bytes_compare b c = Lt -> bytes_compare a c = Lt.
Proof.
  revert b c. induction a as [|x a IH]; intros [|y b] [|z c]; simpl; try done.
  destruct (x ?= y) eqn:E1; destruct (y ?= z) eqn:E2; try done; intros H1 H2;
    rewrite ?Z.compare_eq_iff, ?Z.compare_lt_iff in *;
    try (rewrite (proj2 (Z.compare_lt_iff x z)) by lia; done).
  subst. rewrite Z.compare_refl. eauto.
Qed.

Lemma StakeCredential_compare_antisym c d :
  StakeCredential_compare d c = CompOpp (StakeCredential_compare c d).
Proof. destruct c, d; simpl; auto using bytes_compare_antisym. Qed.

Lemma btree_insert_last {K V} (cmp : K -> K -> comparison) (k : K) (v : V) m :
  (forall a b, cmp b a = CompOpp (cmp a b)) ->
  Forall (fun kv => cmp kv.1 k = Lt) m -> btree_insert cmp k v m = m ++ [(k, v)].
Proof.
  intros Ha Hm. induction Hm as [|[k' v'] m Hk Hm IH]; simpl; [done|].
  rewrite Ha. simpl in Hk. rewrite Hk. simpl. by rewrite IH.
Qed.

(** ** Round trips *)

Lemma decodes_fixed n bs : zlength bs = n -> decodes (decode_fixed n) (Encoder_bytes bs) bs.
Proof.
  intros Hn. eapply decodes_bind_ret; [apply decodes_bytes|]. apply decodes_lift.
  unfold try_array. by rewrite Hn, Z.eqb_refl.
Qed.
Lemma decodes_hash28 h : hash28 h -> decodes decode_hash28 (Encoder_bytes h) h.
Proof. apply decodes_fixed. Qed.
Lemma decodes_hash32 h : hash32 h -> decodes decode_hash32 (Encoder_bytes h) h.
Proof. apply decodes_fixed. Qed.
Lemma decodes_HeaderHash h : hash32 h -> decodes HeaderHash_decode (HeaderHash_encode h) h.
Proof. apply decodes_fixed. Qed.
Lemma decodes_TxId h : hash32 h -> decodes TxId_decode (TxId_encode h) h.
Proof. apply decodes_fixed. Qed.
Lemma decodes_expect_len n : decodes (expect_len n n) [] tt.
Proof. unfold expect_len. rewrite Z.eqb_refl. apply decodes_ret. Qed.

Lemma decodes_skip_unit {B} (m : Dec unit) (k : Dec B) bs b :
  decodes m [] tt -> decodes k bs b -> decodes (m ;;; k) bs b.
Proof. intros. by eapply decodes_bind0. Qed.

(** A first byte of another major type than 7 is not [null]. *)
Definition not_simple (bs : list Z) : Prop :=
  exists major, first_major bs = Some major /\ major <> 7.

Lemma decodes_nullable {A} (m : Dec A) (enc : A -> list Z) (o : option A) :
  option_ok (fun a => decodes m (enc a) a /\ not_simple (enc a)) o ->
  decodes (decode_nullable m) (encode_nullable enc o) o.
Proof.
  destruct o as [a|]; simpl.
  - intros [Hm (major & Hf & Hne)].
    eapply decodes_peek; [by apply peek_major_at|].
    rewrite (proj2 (Z.eqb_neq major 7)) by done.
    eapply decodes_bind_ret; [done|apply decodes_ret].
  - intros _. eapply decodes_peek; [by apply peek_major_at|]. simpl.
    eapply decodes_bind_ret; [apply decodes_null|apply decodes_ret].
Qed.

Lemma not_simple_write major v rest :
  0 <= major < 7 -> 0 <= v -> not_simple (Encoder_write_type_and_arg major v ++ rest).
Proof.
  intros. exists major. split; [|lia]. apply first_major_app, first_major_write; lia.
Qed.

Lemma not_simple_app bs rest : not_simple bs -> not_simple (bs ++ rest).
Proof. intros (m & ? & ?). exists m. auto using first_major_app. Qed.
Lemma not_simple_bytes bs : not_simple (Encoder_bytes bs).
Proof. apply not_simple_write; [done|]. apply zlength_nonneg. Qed.
Lemma not_simple_unsigned v : 0 <= v -> not_simple (Encoder_unsigned v).
Proof. intros. rewrite <- (app_nil_r (Encoder_unsigned v)). by apply not_simple_write. Qed.
Lemma not_simple_array v : 0 <= v -> not_simple (Encoder_array v).
Proof. intros. rewrite <- (app_nil_r (Encoder_array v)). by apply not_simple_write. Qed.

#[export] Hint Resolve decodes_hash28 decodes_hash32 decodes_HeaderHash decodes_TxId
  decodes_expect_len not_simple_bytes : cbor.
#[export] Hint Extern 0 (u64 (Zpos _)) => (apply u64_small; lia) : cbor.
#[export] Hint Extern 0 (u64 Z0) => (apply u64_small; lia) : cbor.
#[export] Hint Extern 1 (decodes (decode_fixed _) (Encoder_bytes _) _) =>
  apply decodes_fixed; assumption : cbor.

(** Walk a decoder along an encoding; a step that reads nothing is tried
    first. *)
Ltac codec_step :=
  match goal with
  | |- decodes (dret _) [] _ => apply decodes_ret
  | |- decodes (expect_len _ _ ;;; _) _ _ =>
      apply decodes_skip_unit; [apply decodes_expect_len|]
  | |- decodes (dbind _ _) (_ ++ _) _ => eapply decodes_bind; [solve [eauto with cbor]|]
  | |- decodes (dbind _ _) _ _ => eapply decodes_bind_ret; [solve [eauto with cbor]|]
  | |- decodes _ _ _ => solve [eauto with cbor]
  end.
Ltac codec :=
  rewrite <- ?(assoc_L (++)); cbv beta iota;
  repeat (codec_step; cbv beta iota; cbn [negb Z.eqb Pos.eqb]; cbv iota).

#[export] Instance Era_round_trip : CborRoundTrip Era (fun _ => True).
Proof.
  intros e _. change (decodes Era_decode (Era_encode e) e). unfold Era_decode, Era_encode.
  destruct e; codec.
Qed.

Lemma decodes_SlotNo s : u64 s -> decodes SlotNo_decode (SlotNo_encode s) s.
Proof. apply decodes_unsigned. Qed.
Lemma decodes_BlockNo s : u64 s -> decodes BlockNo_decode (BlockNo_encode s) s.
Proof. apply decodes_unsigned. Qed.
Lemma decodes_EpochNo s : u64 s -> decodes EpochNo_decode (EpochNo_encode s) s.
Proof. apply decodes_unsigned. Qed.
#[export] Hint Resolve decodes_SlotNo decodes_BlockNo decodes_EpochNo : cbor.

Lemma decodes_Point p : point_ok p -> decodes Point_decode (Point_encode p) p.
Proof.
  destruct p as [|slot h]; unfold Point_decode, Point_encode; simpl point_ok; intros Hp;
    [|destruct Hp]; codec.
Qed.
#[export] Hint Resolve decodes_Point : cbor.

Lemma decodes_Tip t : tip_ok t -> decodes Tip_decode (Tip_encode t) t.
Proof.
  destruct t as [|p bn]; unfold Tip_decode, Tip_encode; simpl tip_ok; intros Ht;
    [|destruct Ht]; codec.
Qed.

Lemma decodes_Nonce n : nonce_ok n -> decodes Nonce_decode (Nonce_encode n) n.
Proof.
  destruct n as [|h]; unfold Nonce_decode, Nonce_encode; simpl nonce_ok; intros Hn; codec.
Qed.

Lemma decodes_StakeCredential c :
  cred_ok c -> decodes StakeCredential_decode (StakeCredential_encode c) c.
Proof.
  unfold StakeCredential_decode, StakeCredential_encode, cred_ok.
  destruct c; cbn [StakeCredential_hash]; intros Hc; codec.
Qed.

Lemma decodes_RewardAccount r :
  reward_account_ok r -> decodes RewardAccount_decode (RewardAccount_encode r) r.
Proof.
  intros [Hn Hc]. eapply decodes_bind_ret; [apply decodes_bytes|]. apply decodes_lift.
  by rewrite RewardAccount_bytes.
Qed.

Lemma decodes_Anchor a : anchor_ok a -> decodes Anchor_decode (Anchor_encode a) a.
Proof.
  destruct a as [url h]. intros [Hu Hh]. unfold Anchor_decode, Anchor_encode.
  cbn [an_url an_data_hash] in *. codec.
Qed.

Lemma decodes_UnitInterval u :
  unit_interval_ok u -> decodes UnitInterval_decode (UnitInterval_encode u) u.
Proof.
  destruct u as [n d]. intros [Hn Hd]. unfold UnitInterval_decode, UnitInterval_encode.
  cbn [numerator denominator] in *. codec.
Qed.
#[export] Hint Resolve decodes_Tip decodes_Nonce decodes_StakeCredential decodes_RewardAccount
  decodes_Anchor decodes_UnitInterval : cbor.

Lemma not_simple_Anchor a : not_simple (Anchor_encode a).
Proof. apply not_simple_app. by apply not_simple_array. Qed.
Lemma not_simple_PoolMetadata p : not_simple (PoolMetadata_encode p).
Proof. apply not_simple_app. by apply not_simple_array. Qed.

Lemma decodes_port o :
  option_ok u16 o -> decodes decode_optional_port (encode_nullable Encoder_unsigned o) o.
Proof.
  intros Ho. apply decodes_nullable. destruct o as [p|]; simpl in *; [|done].
  unfold u16, U16_MAX in Ho. split; [|apply not_simple_unsigned; lia].
  eapply decodes_bind_ret; [apply decodes_unsigned, u64_small; lia|].
  rewrite wrap16_id by done. apply decodes_ret.
Qed.

Lemma decodes_ip n o :
  option_ok (fun ip => zlength ip = n) o ->
  decodes (decode_nullable (decode_fixed n)) (encode_nullable Encoder_bytes o) o.
Proof.
  intros Ho. apply decodes_nullable. destruct o; simpl in *; [|done].
  auto using decodes_fixed, not_simple_bytes.
Qed.
Lemma decodes_ipv4 o :
  option_ok (fun ip => zlength ip = 4) o ->
  decodes decode_optional_ipv4 (encode_nullable Encoder_bytes o) o.
Proof. apply decodes_ip. Qed.
Lemma decodes_ipv6 o :
  option_ok (fun ip => zlength ip = 16) o ->
  decodes decode_optional_ipv6 (encode_nullable Encoder_bytes o) o.
Proof. apply decodes_ip. Qed.
#[export] Hint Resolve decodes_port decodes_ipv4 decodes_ipv6 : cbor.

Lemma decodes_Relay r : relay_ok r -> decodes Relay_decode (Relay_encode r) r.
Proof.
  unfold Relay_decode, Relay_encode.
  destruct r; cbn [relay_ok]; intros Hr; destruct_and?; codec.
Qed.

Lemma decodes_PoolMetadata p :
  pool_metadata_ok p -> decodes PoolMetadata_decode (PoolMetadata_encode p) p.
Proof.
  destruct p as [url h]. intros [Hu Hh]. unfold PoolMetadata_decode, PoolMetadata_encode.
  cbn [pm_url pm_metadata_hash] in *. codec.
Qed.

Lemma decodes_optional_metadata o :
  option_ok pool_metadata_ok o ->
  decodes (decode_nullable PoolMetadata_decode) (encode_nullable PoolMetadata_encode o) o.
Proof.
  intros Ho. apply decodes_nullable. destruct o; simpl in *; [|done].
  auto using decodes_PoolMetadata, not_simple_PoolMetadata.
Qed.

Lemma decodes_optional_anchor o :
  option_ok anchor_ok o -> decodes decode_optional_anchor (encode_optional_anchor o) o.
Proof.
  intros Ho. apply decodes_nullable. destruct o; simpl in *; [|done].
  auto using decodes_Anchor, not_simple_Anchor.
Qed.

(** A counted list after its array header; the header fits because the input does. *)
Lemma decodes_counted {A} (hdr : Dec Z) (m : Dec A) (enc : A -> list Z) (ok : A -> Prop) l :
  (forall n, u64 n -> decodes hdr (Encoder_array n) n) ->
  (forall a, ok a -> decodes m (enc a) a) -> (forall a, 1 <= zlength (enc a)) ->
  Forall ok l ->
  decodes (n <- hdr ;; decode_count n m) (Encoder_array (zlength l) ++ concat (map enc l)) l.
Proof.
  intros Hh Hm Hne Hl. apply decodes_if_fits. intros Hfit.
  assert (zlength l <= zlength (concat (map enc l))) as Hlen.
  { clear -Hne. induction l as [|a l IH]; [done|]. simpl. specialize (Hne a).
    autorewrite with zlen. lia. }
  rewrite zlength_app in Hfit. pose proof (zlength_nonneg (Encoder_array (zlength l))).
  eapply decodes_bind; [apply Hh, u64_zlength; lia|].
  apply decodes_count. intros a Ha. apply Hm. rewrite Forall_forall in Hl. auto.
Qed.

Lemma write_nonempty major v : 1 <= zlength (Encoder_write_type_and_arg major v).
Proof.
  unfold Encoder_write_type_and_arg.
  repeat case_goal; autorewrite with zlen;
    match goal with |- context [zlength ?l] => pose proof (zlength_nonneg l) | _ => idtac end; lia.
Qed.
Lemma nonempty_app (a b : list Z) : 1 <= zlength a -> 1 <= zlength (a ++ b).
Proof. rewrite zlength_app. pose proof (zlength_nonneg b). lia. Qed.

Lemma dbind_assoc {A B C} (m : Dec A) (f : A -> Dec B) (g : B -> Dec C) d :
  dbind (dbind m f) g d = dbind m (fun a => dbind (f a) g) d.
Proof. unfold dbind. rewrite obind_assoc. by destruct (m d). Qed.

Lemma decodes_bind_assoc {A B C} (m : Dec A) (f : A -> Dec B) (g : B -> Dec C) bs1 bs2 b c :
  decodes (dbind m f) bs1 b -> decodes (g b) bs2 c ->
  decodes (dbind m (fun a => dbind (f a) g)) (bs1 ++ bs2) c.
Proof.
  intros Hm Hg pre suf Hlen. rewrite <- dbind_assoc.
  by apply (decodes_bind (dbind m f) g bs1 bs2 b c).
Qed.

Lemma Relay_nonempty r : 1 <= zlength (Relay_encode r).
Proof. destruct r; apply nonempty_app, write_nonempty. Qed.

Lemma decodes_PoolParams_inline p :
  pool_params_ok p -> decodes PoolParams_decode_inline (PoolParams_encode_inline p) p.
Proof.
  destruct p as [op vrf pl co mg ra owners rels md].
  unfold PoolParams_decode_inline, PoolParams_encode_inline, pool_params_ok.
  cbn [operator vrf_keyhash pledge cost margin reward_account pool_owners relays pool_metadata].
  intros (?&?&?&?&?&?&?&?&?).
  do 6 codec_step.
  rewrite (assoc_L (++) (Encoder_array _)).
  eapply decodes_bind_assoc.
  { apply (decodes_counted _ _ _ hash28); auto using decodes_array_or_set, decodes_fixed.
    intros. apply nonempty_app, write_nonempty. }
  rewrite (assoc_L (++) (Encoder_array _)).
  eapply decodes_bind_assoc.
  { apply (decodes_counted _ _ _ relay_ok); auto using decodes_array, decodes_Relay, Relay_nonempty. }
  eapply decodes_bind_ret; [by apply decodes_optional_metadata | apply decodes_ret].
Qed.

Lemma decodes_DRep d : drep_ok d -> decodes DRep_decode (DRep_encode d) d.
Proof. unfold DRep_decode, DRep_encode. destruct d; cbn [drep_ok]; intros Hd; codec. Qed.

(** The map of a MIR certificate: bindings arrive in increasing key order, so
    every insertion goes last. *)
Lemma decodes_mir_bindings m acc :
  mir_map_ok (acc ++ m) ->
  decodes (dfor (zlength m) (fun m =>
      cred <- StakeCredential_decode ;; delta <- Decoder_integer ;;
      dret (btree_insert StakeCredential_compare cred delta m)) acc)
    (concat (map (fun kv => StakeCredential_encode kv.1 ++ Encoder_integer kv.2) m)) (acc ++ m).
Proof.
  intros Hok pre suf Hlen. unfold dfor, zlength. rewrite for_count_nat.
  revert acc pre Hok Hlen. induction m as [|[k v] m IH]; intros acc pre [Hall Hs] Hlen.
  - simpl. by rewrite !app_nil_r.
  - assert (cred_ok k /\ i64 v) as [Hk Hv].
    { rewrite Forall_app in Hall. destruct Hall as [_ Hall]. by inversion Hall. }
    cbn [map concat length nat_iterM fst snd] in *. rewrite <- !(assoc_L (++)) in *.
    unfold dbind at 1. rewrite decodes_StakeCredential by done. cbn [obind fst snd].
    unfold dbind at 1. rewrite decodes_integer by (done || by rewrite <- !(assoc_L (++))).
    cbn [obind fst snd dret]. unfold dret. cbn [obind].
    rewrite btree_insert_last; [|apply StakeCredential_compare_antisym|].
    + rewrite IH; rewrite <- ?(assoc_L (++)); done.
    + apply Forall_forall. intros [k' v'] Hin. cbn [fst].
      apply (StronglySorted_app_1_elem_of _ _ _ (k', v') (k, v) Hs Hin). set_solver.
Qed.

Lemma decodes_mir pot t :
  mir_target_ok t ->
  decodes decode_mir
    (Encoder_array 2 ++ Encoder_unsigned (MirPot_as_u64 pot)
     ++ match t with
        | StakeCredentials m =>
            Encoder_map (zlength m)
            ++ concat (map (fun kv => StakeCredential_encode kv.1 ++ Encoder_integer kv.2) m)
        | SendToOppositePot coin => Encoder_unsigned coin
        end)
    (MoveInstantaneousReward pot t).
Proof.
  intros Ht. unfold decode_mir. codec_step. eapply decodes_bind.
  { apply decodes_unsigned. destruct pot; by apply u64_small. }
  eapply (decodes_bind0 _ _ _ pot); [destruct pot; apply decodes_ret|].
  destruct t as [m|coin]; cbn [mir_target_ok] in Ht.
  - eapply decodes_peek;
      [apply peek_major_at, first_major_app, first_major_write;
       [unfold MAJOR_MAP; lia | apply zlength_nonneg]|].
    cbn [Z.eqb MAJOR_MAP Pos.eqb]. eapply decodes_bind_ret; [|apply decodes_ret].
    apply decodes_if_fits. intros Hfit.
    assert (zlength m <= ISIZE_MAX) as Hm.
    { enough (zlength m <= zlength (concat (map (fun kv : StakeCredential * Z =>
        StakeCredential_encode kv.1 ++ Encoder_integer kv.2) m))) as He.
      - rewrite zlength_app in Hfit. pose proof (zlength_nonneg (Encoder_map (zlength m))). lia.
      - clear. induction m as [|[k v] m IH]; [done|]. cbn [map concat].
        pose proof (nonempty_app (StakeCredential_encode k) (Encoder_integer v)
                      (nonempty_app _ _ (write_nonempty _ _))).
        rewrite zlength_cons, zlength_app. simpl fst. simpl snd. lia. }
    eapply decodes_bind; [by apply decodes_map, u64_zlength|].
    eapply decodes_bind_ret; [by apply (decodes_mir_bindings m [])|apply decodes_ret].
  - eapply decodes_peek;
      [apply peek_major_at, first_major_write; unfold MAJOR_UNSIGNED, u64 in *; lia|].
    cbn [Z.eqb MAJOR_MAP MAJOR_UNSIGNED]. eapply decodes_bind_ret; [|apply decodes_ret]. codec.
Qed.

#[export] Hint Resolve decodes_PoolParams_inline decodes_DRep decodes_mir
  decodes_optional_anchor : cbor.

Lemma decodes_DCert c : dcert_ok c -> decodes DCert_decode (DCert_encode c) c.
Proof.
  unfold DCert_decode, DCert_encode.
  destruct c; cbn [dcert_ok]; intros Hc; destruct_and?; codec.
Qed.

#[export] Instance Point_round_trip : CborRoundTrip Point point_ok := decodes_Point.
#[export] Instance Tip_round_trip : CborRoundTrip TipT tip_ok := decodes_Tip.
#[export] Instance Nonce_round_trip : CborRoundTrip NonceT nonce_ok := decodes_Nonce.
#[export] Instance DRep_round_trip : CborRoundTrip DRep drep_ok := decodes_DRep.
#[export] Instance DCert_round_trip : CborRoundTrip DCert dcert_ok := decodes_DCert.

#[export] Instance PoolParams_round_trip : CborRoundTrip PoolParams pool_params_ok.
Proof.
  intros p Hp. change (decodes PoolParams_decode (PoolParams_encode p) p).
  unfold PoolParams_decode, PoolParams_encode. codec.
Qed.

(** [from_cbor_bytes] of [to_cbor_bytes], for any codec that round-trips. *)
Lemma from_to_cbor_bytes {A} {C : CborCodec A} {ok} {R : CborRoundTrip A ok} (a : A) :
  ok a -> zlength (encode_cbor a) <= ISIZE_MAX ->
  from_cbor_bytes decode_cbor (encode_cbor a) = Ok a.
Proof.
  intros Ha Hlen. unfold from_cbor_bytes.
  pose proof (cbor_round_trip a Ha [] []) as Hd. rewrite app_nil_r in Hd.
  change (at_ [] (encode_cbor a)) with (Decoder_new (encode_cbor a)) in Hd.
  rewrite Hd by done. simpl.
  unfold Decoder_is_empty, at_. cbn [data pos].
  by rewrite app_nil_r, Z.leb_refl.
Qed.

(** ** Properties *)

(** Every certificate (all 19 kinds, pool registrations with owners,
    relays and metadata and MIR maps included) is read back from its own CBOR
    bytes, with nothing left over. *)
Theorem dcert_cbor_round_trip (c : DCert) (Hc : dcert_ok c)
    (Hlen : zlength (DCert_encode c) <= ISIZE_MAX) :
  from_cbor_bytes DCert_decode (DCert_encode c) = Ok c.
Proof. exact (from_to_cbor_bytes c Hc Hlen). Qed.

Definition sample_pool : PoolParams :=
  mkPoolParams (replicate 28 1) (replicate 32 2) 500000000 340000000 (mkUnitInterval 1 20)
    (mkRewardAccount 1 (AddrKeyHash (replicate 28 3))) [replicate 28 4; replicate 28 5]
    [SingleHostAddr (Some 3001) (Some [10; 0; 0; 1]) None;
     SingleHostName None [97; 46; 98]; MultiHostName [195; 169]]
    (Some (mkPoolMetadata [104; 116; 116; 112] (replicate 32 6))).

Lemma dcert_cbor_round_trip_witness :
  from_cbor_bytes DCert_decode (DCert_encode (PoolRegistration sample_pool))
  = Ok (PoolRegistration sample_pool).
Proof.
  apply dcert_cbor_round_trip; [|by vm_compute].
  repeat split; try (vm_compute; congruence); repeat constructor; vm_compute; congruence.
Defined.

(** ** Narrowed integers *)

(** [dec.unsigned()? as u16] and [as u32]. *)
Definition decode_u16 : Dec Z := v <- Decoder_unsigned ;; dret (wrap16 v).
Definition decode_u32 : Dec Z := v <- Decoder_unsigned ;; dret (wrap32 v).

Lemma decodes_u16 v : u16 v -> decodes decode_u16 (Encoder_unsigned v) v.
Proof.
  intros Hv. eapply decodes_bind_ret; [apply decodes_unsigned|].
  - unfold u16, u64, U16_MAX, U64_MAX in *. lia.
  - rewrite wrap16_id by done. apply decodes_ret.
Qed.
Lemma decodes_u32 v : u32 v -> decodes decode_u32 (Encoder_unsigned v) v.
Proof.
  intros Hv. eapply decodes_bind_ret; [apply decodes_unsigned|].
  - unfold u32, u64, U32_MAX, U64_MAX in *. lia.
  - rewrite wrap32_id by done. apply decodes_ret.
Qed.
#[export] Hint Resolve decodes_u16 decodes_u32 : cbor.
