(* ===== verification/BTree.v ===== *)
(** * Ordered maps

    [BTreeMap] and [BTreeSet] of the Rust standard library, which the ledger
    uses for all of its state, as lists of bindings in increasing key order.
    Every key type of the ledger derives its order lexicographically from its
    constructors and fields; [OrdKey] reads a key as the list of numbers that
    order compares. *)

From S2P Require Import Prelude Cbor Types TypesCodec.
Local Open Scope Z_scope.

Class OrdKey (K : Type) := {
  ord_key : K -> list Z;
  ord_key_inj : forall a b, ord_key a = ord_key b -> a = b }.

Definition key_compare {K} `{OrdKey K} (a b : K) : comparison :=
  bytes_compare (ord_key a) (ord_key b).

(** ** Keys *)

#[export] Instance bytes_ord : OrdKey (list Z) := {| ord_key l := l; ord_key_inj := fun _ _ H => H |}.
#[export, refine] Instance Z_ord : OrdKey Z := {| ord_key z := [z] |}.
Proof. abstract (by intros ? ? [= ->]). Defined.
Definition credential_key (c : StakeCredential) : list Z :=
  match c with AddrKeyHash h => 0 :: h | ScriptHash h => 1 :: h end.
#[export, refine] Instance StakeCredential_ord : OrdKey StakeCredential :=
  {| ord_key := credential_key |}.
Proof. abstract (intros [] []; simpl; congruence). Defined.
#[export, refine] Instance RewardAccount_ord : OrdKey RewardAccount :=
  {| ord_key r := ra_network r :: credential_key (ra_credential r) |}.
Proof. abstract (intros [? []] [? []]; simpl; congruence). Defined.
#[export, refine] Instance DRep_ord : OrdKey DRep := {|
  ord_key d := match d with
    | DRepKeyHash h => 0 :: h | DRepScriptHash h => 1 :: h
    | AlwaysAbstain => [2] | AlwaysNoConfidence => [3] end |}.
Proof. abstract (intros [] []; simpl; congruence). Defined.
#[export, refine] Instance pointer_ord : OrdKey (Z * Z * Z) :=
  {| ord_key p := [p.1.1; p.1.2; p.2] |}.
Proof. abstract (intros [[]] [[]]; simpl; congruence). Defined.

Lemma Forall_sublist_of {A} (P : A -> Prop) l k : l `sublist_of` k -> Forall P k -> Forall P l.
Proof. induction 1; intros Hk; [done|inversion Hk; subst; auto..]. Qed.

(** ** Sums over a list *)

Definition lsum {A} (f : A -> Z) (l : list A) : Z := foldr (fun x s => f x + s) 0 l.
Lemma lsum_cons {A} (f : A -> Z) x l : lsum f (x :: l) = f x + lsum f l.
Proof. done. Qed.
Lemma lsum_app {A} (f : A -> Z) l l' : lsum f (l ++ l') = lsum f l + lsum f l'.
Proof. unfold lsum. induction l as [|e l IH]; cbn [app foldr]; [done|]. rewrite IH. lia. Qed.
Lemma lsum_nonneg {A} (f : A -> Z) l : (forall x, 0 <= f x) -> 0 <= lsum f l.
Proof. intros Hf. induction l as [|x l IH]; [done|]. rewrite lsum_cons. specialize (Hf x). lia. Qed.
Lemma lsum_ext {A} (f g : A -> Z) l : (forall x, f x = g x) -> lsum f l = lsum g l.
Proof. intros Hf. induction l as [|x l IH]; [done|]. rewrite !lsum_cons, Hf. lia. Qed.
Lemma lsum_le {A} (f g : A -> Z) l : (forall x, f x <= g x) -> lsum f l <= lsum g l.
Proof. intros Hf. induction l as [|x l IH]; [done|]. rewrite !lsum_cons. specialize (Hf x). lia. Qed.
Lemma lsum_le_in {A} (f g : A -> Z) l : (forall x, x ∈ l -> f x <= g x) -> lsum f l <= lsum g l.
Proof.
  induction l as [|x l IH]; intros Hf; [done|]. rewrite !lsum_cons.
  pose proof (Hf x ltac:(set_solver)). pose proof (IH ltac:(set_solver)). lia.
Qed.
Lemma lsum_add {A} (f g : A -> Z) l : lsum (fun x => f x + g x) l = lsum f l + lsum g l.
Proof. induction l as [|x l IH]; [done|]. rewrite !lsum_cons. lia. Qed.
Lemma lsum_mul {A} c (f : A -> Z) l : lsum (fun x => c * f x) l = c * lsum f l.
Proof. induction l as [|x l IH]; [unfold lsum; cbn; lia|]. rewrite !lsum_cons. lia. Qed.
Lemma lsum_elem {A} (f : A -> Z) x l : (forall y, 0 <= f y) -> x ∈ l -> f x <= lsum f l.
Proof.
  intros Hf Hx. apply list_elem_of_split in Hx as (l1 & l2 & ->). rewrite lsum_app, lsum_cons.
  pose proof (lsum_nonneg f l1 Hf). pose proof (lsum_nonneg f l2 Hf). lia.
Qed.

(** ** Operations *)

Section btree.
  Context {K : Type} `{OrdKey K} {V : Type}.
  Implicit Types (k : K) (m : list (K * V)).

Definition key_eqb (a b : K) : bool := match key_compare a b with Eq => true | _ => false end.

Definition bt_insert k (v : V) m : list (K * V) := btree_insert key_compare k v m.
Fixpoint bt_get k m : option V :=
  match m with
  | [] => None
  | (k', v) :: m => if key_eqb k k' then Some v else bt_get k m
  end.
Definition bt_contains k m : bool := match bt_get k m with Some _ => true | None => false end.
Fixpoint bt_remove k m : list (K * V) :=
  match m with
  | [] => []
  | (k', v) :: m => if key_eqb k k' then m else (k', v) :: bt_remove k m
  end.
(** [if let Some(v) = m.get_mut(k) { *v = f(v) }] *)
Fixpoint bt_alter (f : V -> V) k m : list (K * V) :=
  match m with
  | [] => []
  | (k', v) :: m => if key_eqb k k' then (k', f v) :: m else (k', v) :: bt_alter f k m
  end.
(** [*m.entry(k).or_insert(d) = f(entry)] *)
Definition bt_entry (d : V) (f : V -> V) k m : list (K * V) :=
  bt_insert k (f (default d (bt_get k m))) m.
(** Collecting an iterator of pairs: a later binding replaces an earlier one. *)
Definition bt_collect (l : list (K * V)) : list (K * V) :=
  foldl (fun m e => bt_insert e.1 e.2 m) [] l.
Definition bt_keys m : list K := m.*1.
Definition bt_values m : list V := m.*2.

Definition binding_lt (a b : K * V) : Prop := key_compare a.1 b.1 = Lt.
Definition bt_sorted m : Prop := StronglySorted binding_lt m.

(** ** Keys compare like a total order *)

Lemma key_eqb_spec a b : key_eqb a b = true <-> a = b.
Proof.
  unfold key_eqb, key_compare. split.
  - destruct (bytes_compare _ _) eqn:E; try done. intros _. by apply ord_key_inj, bytes_compare_eq.
  - intros ->. by rewrite bytes_compare_refl.
Qed.
Lemma key_eqb_refl a : key_eqb a a = true.
Proof. by apply key_eqb_spec. Qed.
Lemma key_eqb_ne a b : a <> b -> key_eqb a b = false.
Proof. intros Hne. destruct (key_eqb a b) eqn:E; [|done]. by apply key_eqb_spec in E. Qed.
Lemma key_eqb_reflect a b : reflect (a = b) (key_eqb a b).
Proof. destruct (key_eqb a b) eqn:E; constructor; [by apply key_eqb_spec|]. intros ->.
  by rewrite key_eqb_refl in E. Qed.
Lemma key_lt_irrefl a : key_compare a a <> Lt.
Proof. unfold key_compare. by rewrite bytes_compare_refl. Qed.
Lemma key_lt_trans a b c : key_compare a b = Lt -> key_compare b c = Lt -> key_compare a c = Lt.
Proof. apply bytes_compare_trans. Qed.
Lemma key_lt_flip a b : key_compare b a = CompOpp (key_compare a b).
Proof. apply bytes_compare_antisym. Qed.

(** ** Lookups *)

Lemma bt_get_insert k v m : bt_get k (bt_insert k v m) = Some v.
Proof.
  induction m as [|[k' v'] m IH]; unfold bt_insert in *; simpl; [by rewrite key_eqb_refl|].
  destruct (key_compare k k') eqn:E; simpl; unfold key_eqb at 1.
  - by rewrite E.
  - unfold key_compare. by rewrite bytes_compare_refl.
  - by rewrite E.
Qed.
Lemma bt_get_insert_ne k k' v m : k <> k' -> bt_get k (bt_insert k' v m) = bt_get k m.
Proof.
  intros Hne. induction m as [|[k2 v2] m IH]; unfold bt_insert in *; simpl.
  { by rewrite key_eqb_ne. }
  destruct (key_compare k' k2) eqn:E; simpl.
  - assert (k' = k2) as <- by (apply key_eqb_spec; unfold key_eqb; by rewrite E).
    by rewrite key_eqb_ne.
  - by rewrite key_eqb_ne.
  - by rewrite IH.
Qed.
Lemma bt_get_alter f k m : bt_get k (bt_alter f k m) = f <$> bt_get k m.
Proof.
  induction m as [|[k' v] m IH]; simpl; [done|].
  destruct (key_eqb k k') eqn:E; simpl; by rewrite E.
Qed.
Lemma bt_get_alter_ne f k k' m : k <> k' -> bt_get k (bt_alter f k' m) = bt_get k m.
Proof.
  intros Hne. induction m as [|[k2 v] m IH]; simpl; [done|].
  destruct (key_eqb_reflect k' k2) as [<-|]; simpl; [by rewrite key_eqb_ne|by rewrite IH].
Qed.
Lemma bt_get_remove_ne k k' m : k <> k' -> bt_get k (bt_remove k' m) = bt_get k m.
Proof.
  intros Hne. induction m as [|[k2 v] m IH]; simpl; [done|].
  destruct (key_eqb_reflect k' k2) as [<-|]; simpl; [by rewrite key_eqb_ne|by rewrite IH].
Qed.
Lemma bt_alter_none f k m : bt_get k m = None -> bt_alter f k m = m.
Proof. induction m as [|[k' v] m IH]; simpl; [done|]. case_match; [done|]. intros. by rewrite IH. Qed.
Lemma bt_remove_none k m : bt_get k m = None -> bt_remove k m = m.
Proof. induction m as [|[k' v] m IH]; simpl; [done|]. case_match; [done|]. intros. by rewrite IH. Qed.
Lemma bt_get_elem k v m : bt_get k m = Some v -> (k, v) ∈ m.
Proof.
  induction m as [|[k' v'] m IH]; simpl; [done|].
  destruct (key_eqb_reflect k k') as [<-|]; [intros [= ->]; left|right; auto].
Qed.

(** ** The order is kept *)

Lemma bt_sorted_cons k v m :
  bt_sorted ((k, v) :: m) <-> bt_sorted m /\ Forall (fun e => key_compare k e.1 = Lt) m.
Proof. split; [by inversion 1|]. intros []. by constructor. Qed.
Lemma bt_insert_forall (P : K -> Prop) k v m :
  P k -> Forall (fun e => P e.1) m -> Forall (fun e => P e.1) (bt_insert k v m).
Proof.
  intros Hk Hm. induction Hm as [|[k' v'] m Hk' Hm IH]; unfold bt_insert in *; simpl; [by constructor|].
  destruct (key_compare k k'); by repeat constructor.
Qed.
Lemma bt_insert_sorted k v m : bt_sorted m -> bt_sorted (bt_insert k v m).
Proof.
  induction m as [|[k' v'] m IH]; unfold bt_insert in *; simpl; intros Hm.
  { by repeat constructor. }
  apply bt_sorted_cons in Hm as [Hm Hall]. destruct (key_compare k k') eqn:E.
  - by apply bt_sorted_cons.
  - apply bt_sorted_cons. split; [by apply bt_sorted_cons|]. constructor; [done|].
    eapply Forall_impl; [exact Hall|]. intros e. by apply key_lt_trans.
  - apply bt_sorted_cons. split; [by apply IH|].
    apply (bt_insert_forall (fun k0 => key_compare k' k0 = Lt)); [|done].
    by rewrite key_lt_flip, E.
Qed.
Lemma bt_collect_sorted l : bt_sorted (bt_collect l).
Proof.
  unfold bt_collect. assert (bt_sorted []) as Hnil by constructor. revert Hnil.
  generalize (@nil (K * V)). induction l as [|e l IH]; intros m Hm; simpl; [done|].
  by apply IH, bt_insert_sorted.
Qed.
Lemma bt_alter_keys f k m : bt_keys (bt_alter f k m) = bt_keys m.
Proof. induction m as [|[k' v] m IH]; simpl; [done|]. case_match; simpl; [done|]. by rewrite IH. Qed.
Lemma bt_sorted_keys m : bt_sorted m <-> StronglySorted (fun a b => key_compare a b = Lt) (bt_keys m).
Proof.
  unfold bt_sorted, bt_keys. induction m as [|[k v] m IH]; simpl; [split; constructor|].
  split; intros Hs; inversion Hs as [|? ? H1 H2]; subst; constructor; try by apply IH.
  - by apply Forall_fmap.
  - by apply Forall_fmap in H2.
Qed.
Lemma bt_alter_sorted f k m : bt_sorted m -> bt_sorted (bt_alter f k m).
Proof. by rewrite !bt_sorted_keys, bt_alter_keys. Qed.
Lemma bt_remove_sublist k m : bt_remove k m `sublist_of` m.
Proof. induction m as [|[k' v] m IH]; simpl; [done|]. case_match; by constructor. Qed.
Lemma sublist_sorted m m' : m `sublist_of` m' -> bt_sorted m' -> bt_sorted m.
Proof.
  induction 1 as [|e m m' Hsub IH|e m m' Hsub IH]; intros Hs; [done|..];
    inversion Hs as [|? ? H1 H2]; subst; [|by apply IH]. constructor; [by apply IH|].
  by eapply Forall_sublist_of.
Qed.
Lemma bt_remove_sorted k m : bt_sorted m -> bt_sorted (bt_remove k m).
Proof. apply sublist_sorted, bt_remove_sublist. Qed.
Lemma bt_filter_sorted (P : K * V -> Prop) `{!forall x, Decision (P x)} m :
  bt_sorted m -> bt_sorted (filter P m).
Proof. apply sublist_sorted, sublist_filter. Qed.

Lemma bt_get_head_lt k m : Forall (fun e => key_compare k e.1 = Lt) m -> bt_get k m = None.
Proof.
  induction 1 as [|[k' v] m Hk Hm IH]; simpl; [done|]. unfold key_eqb. simpl in Hk. by rewrite Hk.
Qed.
Lemma bt_get_remove k m : bt_sorted m -> bt_get k (bt_remove k m) = None.
Proof.
  induction m as [|[k' v] m IH]; simpl; [done|]. intros [Hs Hall]%bt_sorted_cons.
  destruct (key_eqb_reflect k k') as [<-|Hne]; [by apply bt_get_head_lt|].
  simpl. rewrite key_eqb_ne by done. auto.
Qed.
Lemma bt_elem_get k v m : bt_sorted m -> (k, v) ∈ m -> bt_get k m = Some v.
Proof.
  induction m as [|[k' v'] m IH]; simpl; [set_solver|]. intros [Hs Hall]%bt_sorted_cons Hin.
  apply elem_of_cons in Hin as [[= <- <-]|Hin]; [by rewrite key_eqb_refl|].
  rewrite Forall_forall in Hall. specialize (Hall _ Hin). simpl in Hall.
  rewrite key_eqb_ne; [auto|]. intros ->. by apply key_lt_irrefl in Hall.
Qed.

(** ** Sums over the values *)

Definition bt_sum (f : V -> Z) m : Z := foldr (fun e s => f e.2 + s) 0 m.

Lemma bt_sum_cons f k v m : bt_sum f ((k, v) :: m) = f v + bt_sum f m.
Proof. done. Qed.
Lemma bt_sum_app f m m' : bt_sum f (m ++ m') = bt_sum f m + bt_sum f m'.
Proof. unfold bt_sum. induction m as [|e m IH]; cbn [app foldr]; [done|]. rewrite IH. lia. Qed.
Lemma bt_sum_nonneg f m : Forall (fun e => 0 <= f e.2) m -> 0 <= bt_sum f m.
Proof. unfold bt_sum. induction 1; cbn [foldr]; lia. Qed.
Lemma bt_sum_ext f g m : Forall (fun e => f e.2 = g e.2) m -> bt_sum f m = bt_sum g m.
Proof. unfold bt_sum. induction 1; cbn [foldr]; lia. Qed.
Lemma bt_sum_alter f g k m v :
  bt_get k m = Some v -> bt_sum f (bt_alter g k m) = bt_sum f m - f v + f (g v).
Proof.
  induction m as [|[k' v'] m IH]; cbn [bt_get bt_alter]; [done|].
  destruct (key_eqb k k'); rewrite !bt_sum_cons; [intros [= ->]; lia|]. intros Hg.
  rewrite IH by done. lia.
Qed.
Lemma bt_sum_remove f k m v :
  bt_get k m = Some v -> bt_sum f (bt_remove k m) = bt_sum f m - f v.
Proof.
  induction m as [|[k' v'] m IH]; cbn [bt_get bt_remove]; [done|].
  destruct (key_eqb k k'); rewrite !bt_sum_cons; [intros [= ->]; lia|]. intros Hg.
  rewrite IH by done. lia.
Qed.
Lemma bt_sum_insert f k v m :
  bt_sorted m ->
  bt_sum f (bt_insert k v m)
  = bt_sum f m - match bt_get k m with Some w => f w | None => 0 end + f v.
Proof.
  induction m as [|[k' v'] m IH]; unfold bt_insert in *; cbn [btree_insert bt_get]; intros Hs.
  { rewrite bt_sum_cons. lia. }
  apply bt_sorted_cons in Hs as [Hs Hall]. unfold key_eqb. destruct (key_compare k k') eqn:E.
  - rewrite !bt_sum_cons. lia.
  - rewrite !bt_sum_cons. rewrite bt_get_head_lt; [lia|].
    eapply Forall_impl; [exact Hall|]. intros e. by apply key_lt_trans.
  - rewrite !bt_sum_cons, IH by done. lia.
Qed.
(** A binding is part of the sum. *)
Lemma bt_sum_get f k m v :
  Forall (fun e => 0 <= f e.2) m -> bt_get k m = Some v -> f v <= bt_sum f m.
Proof.
  intros Hall Hg. pose proof (bt_sum_remove f k m v Hg).
  pose proof (bt_sum_nonneg f (bt_remove k m)). enough (0 <= bt_sum f (bt_remove k m)) by lia.
  apply bt_sum_nonneg. eapply Forall_sublist_of; [apply bt_remove_sublist|done].
Qed.
(** Replacing a binding by a non-negative one adds at most the new value. *)
Lemma bt_sum_insert_le f k v m :
  Forall (fun e => 0 <= f e.2) m -> bt_sum f (bt_insert k v m) <= bt_sum f m + f v.
Proof.
  induction m as [|[k' v'] m IH]; unfold bt_insert in *; cbn [btree_insert]; intros Hall.
  { rewrite bt_sum_cons. lia. }
  inversion Hall; subst. cbn [snd] in *. destruct (key_compare k k'); rewrite !bt_sum_cons; [lia|lia|].
  pose proof (IH ltac:(done)). lia.
Qed.
Lemma bt_insert_Forall (P : V -> Prop) k v m :
  P v -> Forall (fun e => P e.2) m -> Forall (fun e => P e.2) (bt_insert k v m).
Proof.
  intros Hv. induction m as [|[k' v'] m IH]; unfold bt_insert in *; cbn [btree_insert]; intros Hall.
  { by constructor. }
  inversion Hall; subst. destruct (key_compare k k'); repeat constructor; auto.
Qed.
(** Inserting a sorted list into a map puts every entry last. *)
Lemma bt_collect_append acc m :
  bt_sorted (acc ++ m) -> foldl (fun acc e => bt_insert e.1 e.2 acc) acc m = acc ++ m.
Proof.
  revert acc. induction m as [|[k v] m IH]; intros acc Hs; [by rewrite app_nil_r|].
  cbn [foldl fst snd]. unfold bt_insert at 2. rewrite btree_insert_last.
  - rewrite IH by (by rewrite <- (assoc_L (++))). by rewrite <- (assoc_L (++)).
  - intros. apply key_lt_flip.
  - apply Forall_forall. intros e He.
    apply (StronglySorted_app_1_elem_of binding_lt acc _ e (k, v) Hs He). set_solver.
Qed.
End btree.

Create HintDb btree.
#[export] Hint Resolve bt_insert_sorted bt_alter_sorted bt_remove_sorted bt_collect_sorted : btree.
