(* ===== verification/ProtocolParams.v ===== *)
(** * Protocol parameters

    Model of [crates/ledger/src/protocol_params.rs]: the parameters in force,
    the sparse updates that governance and genesis delegates propose, how an
    update is applied, and the CBOR codecs by which both are stored and sent.
    Field [d] of the source is [param_d]. *)

From S2P Require Import Prelude Cbor CborFacts CborSkip Types AddressFacts TypesCodec BTree.
Local Open Scope Z_scope.

(** ** Data *)

Record ExUnits := mkExUnits { mem : Z; steps : Z }.

(** Language to cost parameters, in increasing order of the language. *)
Definition CostModels : Type := list (Z * list Z).

Record PoolVotingThresholds := mkPoolThresholds {
  pt_motion_no_confidence : UnitInterval;
  pt_committee_normal : UnitInterval;
  pt_committee_no_confidence : UnitInterval;
  pt_hard_fork_initiation : UnitInterval;
  pt_pp_security_group : UnitInterval }.
Definition PoolVotingThresholds_default : PoolVotingThresholds :=
  let half := mkUnitInterval 51 100 in mkPoolThresholds half half half half half.

Record DRepVotingThresholds := mkDRepThresholds {
  dt_motion_no_confidence : UnitInterval;
  dt_committee_normal : UnitInterval;
  dt_committee_no_confidence : UnitInterval;
  dt_update_to_constitution : UnitInterval;
  dt_hard_fork_initiation : UnitInterval;
  dt_pp_network_group : UnitInterval;
  dt_pp_economic_group : UnitInterval;
  dt_pp_technical_group : UnitInterval;
  dt_pp_gov_group : UnitInterval;
  dt_treasury_withdrawal : UnitInterval }.
Definition DRepVotingThresholds_default : DRepVotingThresholds :=
  let percent n := mkUnitInterval n 100 in
  mkDRepThresholds (percent 67) (percent 67) (percent 60) (percent 75) (percent 60)
    (percent 67) (percent 67) (percent 67) (percent 75) (percent 67).

Record ProtocolParameters := mkParams {
  min_fee_a : Z;
  min_fee_b : Z;
  max_block_body_size : Z;
  max_tx_size : Z;
  max_block_header_size : Z;
  key_deposit : Z;
  pool_deposit : Z;
  e_max : Z;
  n_opt : Z;
  a0 : UnitInterval;
  rho : UnitInterval;
  tau : UnitInterval;
  param_d : option UnitInterval;
  extra_entropy : option NonceT;
  protocol_version : option (Z * Z);
  min_utxo_value : option Z;
  min_pool_cost : Z;
  coins_per_utxo_byte : option Z;
  cost_models : option CostModels;
  price_mem : option UnitInterval;
  price_step : option UnitInterval;
  max_tx_ex_units : option ExUnits;
  max_block_ex_units : option ExUnits;
  max_val_size : option Z;
  collateral_percentage : option Z;
  max_collateral_inputs : option Z;
  pool_voting_thresholds : option PoolVotingThresholds;
  drep_voting_thresholds : option DRepVotingThresholds;
  min_committee_size : option Z;
  committee_term_limit : option Z;
  gov_action_lifetime : option Z;
  gov_action_deposit : option Z;
  drep_deposit : option Z;
  drep_activity : option Z;
  min_fee_ref_script_cost_per_byte : option UnitInterval }.
#[export] Instance ProtocolParameters_eta : Eta ProtocolParameters := fun p => mkParams
  (min_fee_a p) (min_fee_b p) (max_block_body_size p) (max_tx_size p) (max_block_header_size p)
  (key_deposit p) (pool_deposit p) (e_max p) (n_opt p) (a0 p) (rho p) (tau p) (param_d p)
  (extra_entropy p) (protocol_version p) (min_utxo_value p) (min_pool_cost p)
  (coins_per_utxo_byte p) (cost_models p) (price_mem p) (price_step p) (max_tx_ex_units p)
  (max_block_ex_units p) (max_val_size p) (collateral_percentage p) (max_collateral_inputs p)
  (pool_voting_thresholds p) (drep_voting_thresholds p) (min_committee_size p)
  (committee_term_limit p) (gov_action_lifetime p) (gov_action_deposit p) (drep_deposit p)
  (drep_activity p) (min_fee_ref_script_cost_per_byte p).

(** Every field of an update is optional. *)
Record ProtocolParameterUpdate := mkUpdate {
  u_min_fee_a : option Z;
  u_min_fee_b : option Z;
  u_max_block_body_size : option Z;
  u_max_tx_size : option Z;
  u_max_block_header_size : option Z;
  u_key_deposit : option Z;
  u_pool_deposit : option Z;
  u_e_max : option Z;
  u_n_opt : option Z;
  u_a0 : option UnitInterval;
  u_rho : option UnitInterval;
  u_tau : option UnitInterval;
  u_param_d : option UnitInterval;
  u_extra_entropy : option NonceT;
  u_protocol_version : option (Z * Z);
  u_min_utxo_value : option Z;
  u_min_pool_cost : option Z;
  u_coins_per_utxo_byte : option Z;
  u_cost_models : option CostModels;
  u_price_mem : option UnitInterval;
  u_price_step : option UnitInterval;
  u_max_tx_ex_units : option ExUnits;
  u_max_block_ex_units : option ExUnits;
  u_max_val_size : option Z;
  u_collateral_percentage : option Z;
  u_max_collateral_inputs : option Z;
  u_pool_voting_thresholds : option PoolVotingThresholds;
  u_drep_voting_thresholds : option DRepVotingThresholds;
  u_min_committee_size : option Z;
  u_committee_term_limit : option Z;
  u_gov_action_lifetime : option Z;
  u_gov_action_deposit : option Z;
  u_drep_deposit : option Z;
  u_drep_activity : option Z;
  u_min_fee_ref_script_cost_per_byte : option UnitInterval }.
#[export] Instance ProtocolParameterUpdate_eta : Eta ProtocolParameterUpdate := fun p => mkUpdate
  (u_min_fee_a p) (u_min_fee_b p) (u_max_block_body_size p) (u_max_tx_size p)
  (u_max_block_header_size p) (u_key_deposit p) (u_pool_deposit p) (u_e_max p) (u_n_opt p)
  (u_a0 p) (u_rho p) (u_tau p) (u_param_d p) (u_extra_entropy p) (u_protocol_version p)
  (u_min_utxo_value p) (u_min_pool_cost p) (u_coins_per_utxo_byte p) (u_cost_models p)
  (u_price_mem p) (u_price_step p) (u_max_tx_ex_units p) (u_max_block_ex_units p)
  (u_max_val_size p) (u_collateral_percentage p) (u_max_collateral_inputs p)
  (u_pool_voting_thresholds p) (u_drep_voting_thresholds p) (u_min_committee_size p)
  (u_committee_term_limit p) (u_gov_action_lifetime p) (u_gov_action_deposit p)
  (u_drep_deposit p) (u_drep_activity p) (u_min_fee_ref_script_cost_per_byte p).

Definition ProtocolParameters_default : ProtocolParameters :=
  mkParams 44 155381 65536 16384 1100 2000000 500000000 18 150
    (mkUnitInterval 3 10) (mkUnitInterval 3 1000) (mkUnitInterval 2 10)
    None None (Some (2, 0)) (Some 1000000) 340000000
    None None None None None None None None None None None None None None None None None None.
Definition alonzo_defaults : ProtocolParameters :=
  ProtocolParameters_default
    <| protocol_version := Some (6, 0) |> <| min_utxo_value := None |>
    <| coins_per_utxo_byte := Some 4310 |>
    <| price_mem := Some (mkUnitInterval 577 10000) |>
    <| price_step := Some (mkUnitInterval 721 10000000) |>
    <| max_tx_ex_units := Some (mkExUnits 10000000000 10000000000000) |>
    <| max_block_ex_units := Some (mkExUnits 50000000000 40000000000000) |>
    <| max_val_size := Some 5000 |> <| collateral_percentage := Some 150 |>
    <| max_collateral_inputs := Some 3 |>.
(** What decoding starts from. *)
Definition zero_params : ProtocolParameters :=
  let none := mkUnitInterval 0 1 in
  mkParams 0 0 0 0 0 0 0 0 0 none none none None None None None 0
    None None None None None None None None None None None None None None None None None None.
Definition ProtocolParameterUpdate_default : ProtocolParameterUpdate :=
  mkUpdate None None None None None None None None None None None None None None None None None
    None None None None None None None None None None None None None None None None None None.

(** ** Applying an update *)

Definition overwrite {A} (old new : option A) : option A :=
  match new with Some v => Some v | None => old end.
Definition apply_update (p : ProtocolParameters) (u : ProtocolParameterUpdate)
    : ProtocolParameters := mkParams
  (default (min_fee_a p) (u_min_fee_a u))
  (default (min_fee_b p) (u_min_fee_b u))
  (default (max_block_body_size p) (u_max_block_body_size u))
  (default (max_tx_size p) (u_max_tx_size u))
  (default (max_block_header_size p) (u_max_block_header_size u))
  (default (key_deposit p) (u_key_deposit u))
  (default (pool_deposit p) (u_pool_deposit u))
  (default (e_max p) (u_e_max u))
  (default (n_opt p) (u_n_opt u))
  (default (a0 p) (u_a0 u))
  (default (rho p) (u_rho u))
  (default (tau p) (u_tau u))
  (overwrite (param_d p) (u_param_d u))
  (overwrite (extra_entropy p) (u_extra_entropy u))
  (overwrite (protocol_version p) (u_protocol_version u))
  (overwrite (min_utxo_value p) (u_min_utxo_value u))
  (default (min_pool_cost p) (u_min_pool_cost u))
  (overwrite (coins_per_utxo_byte p) (u_coins_per_utxo_byte u))
  (overwrite (cost_models p) (u_cost_models u))
  (overwrite (price_mem p) (u_price_mem u))
  (overwrite (price_step p) (u_price_step u))
  (overwrite (max_tx_ex_units p) (u_max_tx_ex_units u))
  (overwrite (max_block_ex_units p) (u_max_block_ex_units u))
  (overwrite (max_val_size p) (u_max_val_size u))
  (overwrite (collateral_percentage p) (u_collateral_percentage u))
  (overwrite (max_collateral_inputs p) (u_max_collateral_inputs u))
  (overwrite (pool_voting_thresholds p) (u_pool_voting_thresholds u))
  (overwrite (drep_voting_thresholds p) (u_drep_voting_thresholds u))
  (overwrite (min_committee_size p) (u_min_committee_size u))
  (overwrite (committee_term_limit p) (u_committee_term_limit u))
  (overwrite (gov_action_lifetime p) (u_gov_action_lifetime u))
  (overwrite (gov_action_deposit p) (u_gov_action_deposit u))
  (overwrite (drep_deposit p) (u_drep_deposit u))
  (overwrite (drep_activity p) (u_drep_activity u))
  (overwrite (min_fee_ref_script_cost_per_byte p) (u_min_fee_ref_script_cost_per_byte u)).

(** ** Codecs *)

Definition b2z (b : bool) : Z := if b then 1 else 0.
Definition is_some {A} (o : option A) : bool := match o with Some _ => true | None => false end.

Definition ExUnits_encode (e : ExUnits) : list Z :=
  Encoder_array 2 ++ Encoder_unsigned (mem e) ++ Encoder_unsigned (steps e).
Definition ExUnits_decode : Dec ExUnits :=
  len <- Decoder_array ;; expect_len 2 len ;;;
  mem <- Decoder_unsigned ;;
  steps <- Decoder_unsigned ;;
  dret (mkExUnits mem steps).

Definition PoolVotingThresholds_encode (t : PoolVotingThresholds) : list Z :=
  Encoder_array 5 ++ UnitInterval_encode (pt_motion_no_confidence t)
  ++ UnitInterval_encode (pt_committee_normal t)
  ++ UnitInterval_encode (pt_committee_no_confidence t)
  ++ UnitInterval_encode (pt_hard_fork_initiation t)
  ++ UnitInterval_encode (pt_pp_security_group t).
Definition PoolVotingThresholds_decode : Dec PoolVotingThresholds :=
  len <- Decoder_array ;; expect_len 5 len ;;;
  motion_no_confidence <- UnitInterval_decode ;;
  committee_normal <- UnitInterval_decode ;;
  committee_no_confidence <- UnitInterval_decode ;;
  hard_fork_initiation <- UnitInterval_decode ;;
  pp_security_group <- UnitInterval_decode ;;
  dret (mkPoolThresholds motion_no_confidence committee_normal committee_no_confidence
          hard_fork_initiation pp_security_group).

Definition DRepVotingThresholds_encode (t : DRepVotingThresholds) : list Z :=
  Encoder_array 10 ++ UnitInterval_encode (dt_motion_no_confidence t)
  ++ UnitInterval_encode (dt_committee_normal t)
  ++ UnitInterval_encode (dt_committee_no_confidence t)
  ++ UnitInterval_encode (dt_update_to_constitution t)
  ++ UnitInterval_encode (dt_hard_fork_initiation t)
  ++ UnitInterval_encode (dt_pp_network_group t)
  ++ UnitInterval_encode (dt_pp_economic_group t)
  ++ UnitInterval_encode (dt_pp_technical_group t)
  ++ UnitInterval_encode (dt_pp_gov_group t)
  ++ UnitInterval_encode (dt_treasury_withdrawal t).
Definition DRepVotingThresholds_decode : Dec DRepVotingThresholds :=
  len <- Decoder_array ;; expect_len 10 len ;;;
  motion_no_confidence <- UnitInterval_decode ;;
  committee_normal <- UnitInterval_decode ;;
  committee_no_confidence <- UnitInterval_decode ;;
  update_to_constitution <- UnitInterval_decode ;;
  hard_fork_initiation <- UnitInterval_decode ;;
  pp_network_group <- UnitInterval_decode ;;
  pp_economic_group <- UnitInterval_decode ;;
  pp_technical_group <- UnitInterval_decode ;;
  pp_gov_group <- UnitInterval_decode ;;
  treasury_withdrawal <- UnitInterval_decode ;;
  dret (mkDRepThresholds motion_no_confidence committee_normal committee_no_confidence
          update_to_constitution hard_fork_initiation pp_network_group pp_economic_group
          pp_technical_group pp_gov_group treasury_withdrawal).

Definition version_encode (v : Z * Z) : list Z :=
  Encoder_array 2 ++ Encoder_unsigned v.1 ++ Encoder_unsigned v.2.
Definition version_decode : Dec (Z * Z) :=
  len <- Decoder_array ;; expect_len 2 len ;;;
  major <- Decoder_unsigned ;;
  minor <- Decoder_unsigned ;;
  dret (major, minor).

Definition cost_model_encode (e : Z * list Z) : list Z :=
  Encoder_unsigned e.1 ++ Encoder_array (zlength e.2) ++ concat (map Encoder_signed e.2).
Definition CostModels_encode (cm : CostModels) : list Z :=
  Encoder_map (zlength cm) ++ concat (map cost_model_encode cm).
Definition cost_model_decode (cm : CostModels) : Dec CostModels :=
  lang <- Decoder_unsigned ;;
  arr_len <- Decoder_array ;;
  vals <- decode_count arr_len Decoder_signed ;;
  dret (bt_insert (wrap8 lang) vals cm).
Definition CostModels_decode : Dec CostModels :=
  map_len <- Decoder_map ;; dfor map_len cost_model_decode [].

Definition prices_encode (prices : UnitInterval * UnitInterval) : list Z :=
  Encoder_array 2 ++ UnitInterval_encode prices.1 ++ UnitInterval_encode prices.2.
Definition prices_decode : Dec (UnitInterval * UnitInterval) :=
  arr_len <- Decoder_array ;; expect_len 2 arr_len ;;;
  price_mem <- UnitInterval_decode ;;
  price_step <- UnitInterval_decode ;;
  dret (price_mem, price_step).
(** [if let (Some(pm), Some(ps)) = (price_mem, price_step)] *)
Definition price_pair (pm ps : option UnitInterval) : option (UnitInterval * UnitInterval) :=
  match pm, ps with Some pm, Some ps => Some (pm, ps) | _, _ => None end.

Definition entry {A} (key : Z) (encode : A -> list Z) (v : A) : list Z :=
  Encoder_unsigned key ++ encode v.
Definition opt_entry {A} (key : Z) (encode : A -> list Z) (o : option A) : list Z :=
  match o with Some v => entry key encode v | None => [] end.

(** The number of entries announced. *)
Definition params_count (p : ProtocolParameters) : Z :=
  13 + b2z (is_some (param_d p)) + b2z (is_some (extra_entropy p)) + b2z (is_some (min_utxo_value p))
  + b2z (is_some (protocol_version p)) + b2z (is_some (coins_per_utxo_byte p))
  + b2z (is_some (price_mem p)) + b2z (is_some (cost_models p))
  + b2z (is_some (max_tx_ex_units p)) + b2z (is_some (max_block_ex_units p))
  + b2z (is_some (max_val_size p)) + b2z (is_some (collateral_percentage p))
  + b2z (is_some (max_collateral_inputs p)) + b2z (is_some (gov_action_lifetime p))
  + b2z (is_some (gov_action_deposit p)) + b2z (is_some (drep_deposit p))
  + b2z (is_some (drep_activity p)) + b2z (is_some (min_fee_ref_script_cost_per_byte p))
  + b2z (is_some (pool_voting_thresholds p)) + b2z (is_some (drep_voting_thresholds p))
  + b2z (is_some (min_committee_size p)) + b2z (is_some (committee_term_limit p)).
Definition params_entries (p : ProtocolParameters) : list Z :=
  entry 0 Encoder_unsigned (min_fee_a p)
  ++ entry 1 Encoder_unsigned (min_fee_b p)
  ++ entry 2 Encoder_unsigned (max_block_body_size p)
  ++ entry 3 Encoder_unsigned (max_tx_size p)
  ++ entry 4 Encoder_unsigned (max_block_header_size p)
  ++ entry 5 Encoder_unsigned (key_deposit p)
  ++ entry 6 Encoder_unsigned (pool_deposit p)
  ++ entry 7 Encoder_unsigned (e_max p)
  ++ entry 8 Encoder_unsigned (n_opt p)
  ++ entry 9 UnitInterval_encode (a0 p)
  ++ entry 10 UnitInterval_encode (rho p)
  ++ entry 11 UnitInterval_encode (tau p)
  ++ opt_entry 12 UnitInterval_encode (param_d p)
  ++ opt_entry 13 Nonce_encode (extra_entropy p)
  ++ opt_entry 14 version_encode (protocol_version p)
  ++ opt_entry 15 Encoder_unsigned (min_utxo_value p)
  ++ entry 16 Encoder_unsigned (min_pool_cost p)
  ++ opt_entry 17 Encoder_unsigned (coins_per_utxo_byte p)
  ++ opt_entry 18 CostModels_encode (cost_models p)
  ++ opt_entry 19 prices_encode (price_pair (price_mem p) (price_step p))
  ++ opt_entry 20 ExUnits_encode (max_tx_ex_units p)
  ++ opt_entry 21 ExUnits_encode (max_block_ex_units p)
  ++ opt_entry 22 Encoder_unsigned (max_val_size p)
  ++ opt_entry 23 Encoder_unsigned (collateral_percentage p)
  ++ opt_entry 24 Encoder_unsigned (max_collateral_inputs p)
  ++ opt_entry 25 PoolVotingThresholds_encode (pool_voting_thresholds p)
  ++ opt_entry 26 DRepVotingThresholds_encode (drep_voting_thresholds p)
  ++ opt_entry 27 Encoder_unsigned (min_committee_size p)
  ++ opt_entry 28 Encoder_unsigned (committee_term_limit p)
  ++ opt_entry 29 Encoder_unsigned (gov_action_lifetime p)
  ++ opt_entry 30 Encoder_unsigned (gov_action_deposit p)
  ++ opt_entry 31 Encoder_unsigned (drep_deposit p)
  ++ opt_entry 32 Encoder_unsigned (drep_activity p)
  ++ opt_entry 33 UnitInterval_encode (min_fee_ref_script_cost_per_byte p).
Definition ProtocolParameters_encode (p : ProtocolParameters) : list Z :=
  Encoder_map (params_count p) ++ params_entries p.

(** One entry of the map; unknown keys are skipped. *)
Definition decode_param (p : ProtocolParameters) : Dec ProtocolParameters :=
  key <- Decoder_unsigned ;;
  match key with
  | 0 => v <- Decoder_unsigned ;; dret (p <| min_fee_a := v |>)
  | 1 => v <- Decoder_unsigned ;; dret (p <| min_fee_b := v |>)
  | 2 => v <- decode_u32 ;; dret (p <| max_block_body_size := v |>)
  | 3 => v <- decode_u32 ;; dret (p <| max_tx_size := v |>)
  | 4 => v <- decode_u16 ;; dret (p <| max_block_header_size := v |>)
  | 5 => v <- Decoder_unsigned ;; dret (p <| key_deposit := v |>)
  | 6 => v <- Decoder_unsigned ;; dret (p <| pool_deposit := v |>)
  | 7 => v <- Decoder_unsigned ;; dret (p <| e_max := v |>)
  | 8 => v <- Decoder_unsigned ;; dret (p <| n_opt := v |>)
  | 9 => v <- UnitInterval_decode ;; dret (p <| a0 := v |>)
  | 10 => v <- UnitInterval_decode ;; dret (p <| rho := v |>)
  | 11 => v <- UnitInterval_decode ;; dret (p <| tau := v |>)
  | 12 => v <- UnitInterval_decode ;; dret (p <| param_d := Some v |>)
  | 13 => v <- Nonce_decode ;; dret (p <| extra_entropy := Some v |>)
  | 14 =>
      major <- dget Decoder_peek_major ;;
      if major =? 4 then v <- version_decode ;; dret (p <| protocol_version := Some v |>)
      else v <- Decoder_unsigned ;; dret (p <| min_utxo_value := Some v |>)
  | 15 => v <- Decoder_unsigned ;; dret (p <| min_utxo_value := Some v |>)
  | 16 => v <- Decoder_unsigned ;; dret (p <| min_pool_cost := v |>)
  | 17 => v <- Decoder_unsigned ;; dret (p <| coins_per_utxo_byte := Some v |>)
  | 18 => v <- CostModels_decode ;; dret (p <| cost_models := Some v |>)
  | 19 => v <- prices_decode ;;
      dret (p <| price_mem := Some v.1 |> <| price_step := Some v.2 |>)
  | 20 => v <- ExUnits_decode ;; dret (p <| max_tx_ex_units := Some v |>)
  | 21 => v <- ExUnits_decode ;; dret (p <| max_block_ex_units := Some v |>)
  | 22 => v <- decode_u32 ;; dret (p <| max_val_size := Some v |>)
  | 23 => v <- Decoder_unsigned ;; dret (p <| collateral_percentage := Some v |>)
  | 24 => v <- decode_u32 ;; dret (p <| max_collateral_inputs := Some v |>)
  | 25 => v <- PoolVotingThresholds_decode ;; dret (p <| pool_voting_thresholds := Some v |>)
  | 26 => v <- DRepVotingThresholds_decode ;; dret (p <| drep_voting_thresholds := Some v |>)
  | 27 => v <- Decoder_unsigned ;; dret (p <| min_committee_size := Some v |>)
  | 28 => v <- Decoder_unsigned ;; dret (p <| committee_term_limit := Some v |>)
  | 29 => v <- Decoder_unsigned ;; dret (p <| gov_action_lifetime := Some v |>)
  | 30 => v <- Decoder_unsigned ;; dret (p <| gov_action_deposit := Some v |>)
  | 31 => v <- Decoder_unsigned ;; dret (p <| drep_deposit := Some v |>)
  | 32 => v <- Decoder_unsigned ;; dret (p <| drep_activity := Some v |>)
  | 33 => v <- UnitInterval_decode ;; dret (p <| min_fee_ref_script_cost_per_byte := Some v |>)
  | _ => Decoder_skip ;;; dret p
  end.
Definition ProtocolParameters_decode : Dec ProtocolParameters :=
  map_len <- Decoder_map ;; dfor map_len decode_param zero_params.

(** The number of fields set, and of entries announced. *)
Definition field_count (u : ProtocolParameterUpdate) : Z :=
  b2z (is_some (u_min_fee_a u)) + b2z (is_some (u_min_fee_b u))
  + b2z (is_some (u_max_block_body_size u)) + b2z (is_some (u_max_tx_size u))
  + b2z (is_some (u_max_block_header_size u)) + b2z (is_some (u_key_deposit u))
  + b2z (is_some (u_pool_deposit u)) + b2z (is_some (u_e_max u)) + b2z (is_some (u_n_opt u))
  + b2z (is_some (u_a0 u)) + b2z (is_some (u_rho u)) + b2z (is_some (u_tau u))
  + b2z (is_some (u_param_d u)) + b2z (is_some (u_extra_entropy u))
  + b2z (is_some (u_protocol_version u)) + b2z (is_some (u_min_utxo_value u))
  + b2z (is_some (u_min_pool_cost u)) + b2z (is_some (u_coins_per_utxo_byte u))
  + b2z (is_some (u_cost_models u)) + b2z (is_some (u_price_mem u))
  + b2z (is_some (u_max_tx_ex_units u)) + b2z (is_some (u_max_block_ex_units u))
  + b2z (is_some (u_max_val_size u)) + b2z (is_some (u_collateral_percentage u))
  + b2z (is_some (u_max_collateral_inputs u)) + b2z (is_some (u_pool_voting_thresholds u))
  + b2z (is_some (u_drep_voting_thresholds u)) + b2z (is_some (u_min_committee_size u))
  + b2z (is_some (u_committee_term_limit u)) + b2z (is_some (u_gov_action_lifetime u))
  + b2z (is_some (u_gov_action_deposit u)) + b2z (is_some (u_drep_deposit u))
  + b2z (is_some (u_drep_activity u)) + b2z (is_some (u_min_fee_ref_script_cost_per_byte u)).
Definition update_entries (u : ProtocolParameterUpdate) : list Z :=
  opt_entry 0 Encoder_unsigned (u_min_fee_a u)
  ++ opt_entry 1 Encoder_unsigned (u_min_fee_b u)
  ++ opt_entry 2 Encoder_unsigned (u_max_block_body_size u)
  ++ opt_entry 3 Encoder_unsigned (u_max_tx_size u)
  ++ opt_entry 4 Encoder_unsigned (u_max_block_header_size u)
  ++ opt_entry 5 Encoder_unsigned (u_key_deposit u)
  ++ opt_entry 6 Encoder_unsigned (u_pool_deposit u)
  ++ opt_entry 7 Encoder_unsigned (u_e_max u)
  ++ opt_entry 8 Encoder_unsigned (u_n_opt u)
  ++ opt_entry 9 UnitInterval_encode (u_a0 u)
  ++ opt_entry 10 UnitInterval_encode (u_rho u)
  ++ opt_entry 11 UnitInterval_encode (u_tau u)
  ++ opt_entry 12 UnitInterval_encode (u_param_d u)
  ++ opt_entry 13 Nonce_encode (u_extra_entropy u)
  ++ opt_entry 14 version_encode (u_protocol_version u)
  ++ opt_entry 15 Encoder_unsigned (u_min_utxo_value u)
  ++ opt_entry 16 Encoder_unsigned (u_min_pool_cost u)
  ++ opt_entry 17 Encoder_unsigned (u_coins_per_utxo_byte u)
  ++ opt_entry 18 CostModels_encode (u_cost_models u)
  ++ opt_entry 19 prices_encode (price_pair (u_price_mem u) (u_price_step u))
  ++ opt_entry 20 ExUnits_encode (u_max_tx_ex_units u)
  ++ opt_entry 21 ExUnits_encode (u_max_block_ex_units u)
  ++ opt_entry 22 Encoder_unsigned (u_max_val_size u)
  ++ opt_entry 23 Encoder_unsigned (u_collateral_percentage u)
  ++ opt_entry 24 Encoder_unsigned (u_max_collateral_inputs u)
  ++ opt_entry 25 PoolVotingThresholds_encode (u_pool_voting_thresholds u)
  ++ opt_entry 26 DRepVotingThresholds_encode (u_drep_voting_thresholds u)
  ++ opt_entry 27 Encoder_unsigned (u_min_committee_size u)
  ++ opt_entry 28 Encoder_unsigned (u_committee_term_limit u)
  ++ opt_entry 29 Encoder_unsigned (u_gov_action_lifetime u)
  ++ opt_entry 30 Encoder_unsigned (u_gov_action_deposit u)
  ++ opt_entry 31 Encoder_unsigned (u_drep_deposit u)
  ++ opt_entry 32 Encoder_unsigned (u_drep_activity u)
  ++ opt_entry 33 UnitInterval_encode (u_min_fee_ref_script_cost_per_byte u).
Definition ProtocolParameterUpdate_encode (u : ProtocolParameterUpdate) : list Z :=
  Encoder_map (field_count u) ++ update_entries u.

Definition decode_update_field (u : ProtocolParameterUpdate) : Dec ProtocolParameterUpdate :=
  key <- Decoder_unsigned ;;
  match key with
  | 0 => v <- Decoder_unsigned ;; dret (u <| u_min_fee_a := Some v |>)
  | 1 => v <- Decoder_unsigned ;; dret (u <| u_min_fee_b := Some v |>)
  | 2 => v <- decode_u32 ;; dret (u <| u_max_block_body_size := Some v |>)
  | 3 => v <- decode_u32 ;; dret (u <| u_max_tx_size := Some v |>)
  | 4 => v <- decode_u16 ;; dret (u <| u_max_block_header_size := Some v |>)
  | 5 => v <- Decoder_unsigned ;; dret (u <| u_key_deposit := Some v |>)
  | 6 => v <- Decoder_unsigned ;; dret (u <| u_pool_deposit := Some v |>)
  | 7 => v <- Decoder_unsigned ;; dret (u <| u_e_max := Some v |>)
  | 8 => v <- Decoder_unsigned ;; dret (u <| u_n_opt := Some v |>)
  | 9 => v <- UnitInterval_decode ;; dret (u <| u_a0 := Some v |>)
  | 10 => v <- UnitInterval_decode ;; dret (u <| u_rho := Some v |>)
  | 11 => v <- UnitInterval_decode ;; dret (u <| u_tau := Some v |>)
  | 12 => v <- UnitInterval_decode ;; dret (u <| u_param_d := Some v |>)
  | 13 => v <- Nonce_decode ;; dret (u <| u_extra_entropy := Some v |>)
  | 14 => v <- version_decode ;; dret (u <| u_protocol_version := Some v |>)
  | 15 => v <- Decoder_unsigned ;; dret (u <| u_min_utxo_value := Some v |>)
  | 16 => v <- Decoder_unsigned ;; dret (u <| u_min_pool_cost := Some v |>)
  | 17 => v <- Decoder_unsigned ;; dret (u <| u_coins_per_utxo_byte := Some v |>)
  | 18 => v <- CostModels_decode ;; dret (u <| u_cost_models := Some v |>)
  | 19 => v <- prices_decode ;;
      dret (u <| u_price_mem := Some v.1 |> <| u_price_step := Some v.2 |>)
  | 20 => v <- ExUnits_decode ;; dret (u <| u_max_tx_ex_units := Some v |>)
  | 21 => v <- ExUnits_decode ;; dret (u <| u_max_block_ex_units := Some v |>)
  | 22 => v <- decode_u32 ;; dret (u <| u_max_val_size := Some v |>)
  | 23 => v <- Decoder_unsigned ;; dret (u <| u_collateral_percentage := Some v |>)
  | 24 => v <- decode_u32 ;; dret (u <| u_max_collateral_inputs := Some v |>)
  | 25 => v <- PoolVotingThresholds_decode ;; dret (u <| u_pool_voting_thresholds := Some v |>)
  | 26 => v <- DRepVotingThresholds_decode ;; dret (u <| u_drep_voting_thresholds := Some v |>)
  | 27 => v <- Decoder_unsigned ;; dret (u <| u_min_committee_size := Some v |>)
  | 28 => v <- Decoder_unsigned ;; dret (u <| u_committee_term_limit := Some v |>)
  | 29 => v <- Decoder_unsigned ;; dret (u <| u_gov_action_lifetime := Some v |>)
  | 30 => v <- Decoder_unsigned ;; dret (u <| u_gov_action_deposit := Some v |>)
  | 31 => v <- Decoder_unsigned ;; dret (u <| u_drep_deposit := Some v |>)
  | 32 => v <- Decoder_unsigned ;; dret (u <| u_drep_activity := Some v |>)
  | 33 => v <- UnitInterval_decode ;; dret (u <| u_min_fee_ref_script_cost_per_byte := Some v |>)
  | _ => Decoder_skip ;;; dret u
  end.
Definition ProtocolParameterUpdate_decode : Dec ProtocolParameterUpdate :=
  map_len <- Decoder_map ;; dfor map_len decode_update_field ProtocolParameterUpdate_default.

(** ** What the Rust types guarantee *)

Definition ex_units_ok (e : ExUnits) : Prop := u64 (mem e) /\ u64 (steps e).
Definition version_ok (v : Z * Z) : Prop := u64 v.1 /\ u64 v.2.
Definition pool_thresholds_ok (t : PoolVotingThresholds) : Prop :=
  unit_interval_ok (pt_motion_no_confidence t) /\ unit_interval_ok (pt_committee_normal t)
  /\ unit_interval_ok (pt_committee_no_confidence t) /\ unit_interval_ok (pt_hard_fork_initiation t)
  /\ unit_interval_ok (pt_pp_security_group t).
Definition drep_thresholds_ok (t : DRepVotingThresholds) : Prop :=
  unit_interval_ok (dt_motion_no_confidence t) /\ unit_interval_ok (dt_committee_normal t)
  /\ unit_interval_ok (dt_committee_no_confidence t) /\ unit_interval_ok (dt_update_to_constitution t)
  /\ unit_interval_ok (dt_hard_fork_initiation t) /\ unit_interval_ok (dt_pp_network_group t)
  /\ unit_interval_ok (dt_pp_economic_group t) /\ unit_interval_ok (dt_pp_technical_group t)
  /\ unit_interval_ok (dt_pp_gov_group t) /\ unit_interval_ok (dt_treasury_withdrawal t).
Definition cost_models_ok (cm : CostModels) : Prop :=
  Forall (fun e => u8 e.1 /\ Forall i64 e.2) cm /\ bt_sorted cm.

Definition params_ok (p : ProtocolParameters) : Prop :=
  u64 (min_fee_a p) /\ u64 (min_fee_b p) /\ u32 (max_block_body_size p) /\ u32 (max_tx_size p)
  /\ u16 (max_block_header_size p) /\ u64 (key_deposit p) /\ u64 (pool_deposit p)
  /\ u64 (e_max p) /\ u64 (n_opt p) /\ unit_interval_ok (a0 p) /\ unit_interval_ok (rho p)
  /\ unit_interval_ok (tau p) /\ option_ok unit_interval_ok (param_d p)
  /\ option_ok nonce_ok (extra_entropy p) /\ option_ok version_ok (protocol_version p)
  /\ option_ok u64 (min_utxo_value p) /\ u64 (min_pool_cost p)
  /\ option_ok u64 (coins_per_utxo_byte p) /\ option_ok cost_models_ok (cost_models p)
  /\ option_ok unit_interval_ok (price_mem p) /\ option_ok unit_interval_ok (price_step p)
  /\ option_ok ex_units_ok (max_tx_ex_units p) /\ option_ok ex_units_ok (max_block_ex_units p)
  /\ option_ok u32 (max_val_size p) /\ option_ok u64 (collateral_percentage p)
  /\ option_ok u32 (max_collateral_inputs p)
  /\ option_ok pool_thresholds_ok (pool_voting_thresholds p)
  /\ option_ok drep_thresholds_ok (drep_voting_thresholds p)
  /\ option_ok u64 (min_committee_size p) /\ option_ok u64 (committee_term_limit p)
  /\ option_ok u64 (gov_action_lifetime p) /\ option_ok u64 (gov_action_deposit p)
  /\ option_ok u64 (drep_deposit p) /\ option_ok u64 (drep_activity p)
  /\ option_ok unit_interval_ok (min_fee_ref_script_cost_per_byte p).
Definition update_ok (u : ProtocolParameterUpdate) : Prop :=
  option_ok u64 (u_min_fee_a u) /\ option_ok u64 (u_min_fee_b u)
  /\ option_ok u32 (u_max_block_body_size u) /\ option_ok u32 (u_max_tx_size u)
  /\ option_ok u16 (u_max_block_header_size u) /\ option_ok u64 (u_key_deposit u)
  /\ option_ok u64 (u_pool_deposit u) /\ option_ok u64 (u_e_max u) /\ option_ok u64 (u_n_opt u)
  /\ option_ok unit_interval_ok (u_a0 u) /\ option_ok unit_interval_ok (u_rho u)
  /\ option_ok unit_interval_ok (u_tau u) /\ option_ok unit_interval_ok (u_param_d u)
  /\ option_ok nonce_ok (u_extra_entropy u) /\ option_ok version_ok (u_protocol_version u)
  /\ option_ok u64 (u_min_utxo_value u) /\ option_ok u64 (u_min_pool_cost u)
  /\ option_ok u64 (u_coins_per_utxo_byte u) /\ option_ok cost_models_ok (u_cost_models u)
  /\ option_ok unit_interval_ok (u_price_mem u) /\ option_ok unit_interval_ok (u_price_step u)
  /\ option_ok ex_units_ok (u_max_tx_ex_units u)
  /\ option_ok ex_units_ok (u_max_block_ex_units u) /\ option_ok u32 (u_max_val_size u)
  /\ option_ok u64 (u_collateral_percentage u) /\ option_ok u32 (u_max_collateral_inputs u)
  /\ option_ok pool_thresholds_ok (u_pool_voting_thresholds u)
  /\ option_ok drep_thresholds_ok (u_drep_voting_thresholds u)
  /\ option_ok u64 (u_min_committee_size u) /\ option_ok u64 (u_committee_term_limit u)
  /\ option_ok u64 (u_gov_action_lifetime u) /\ option_ok u64 (u_gov_action_deposit u)
  /\ option_ok u64 (u_drep_deposit u) /\ option_ok u64 (u_drep_activity u)
  /\ option_ok unit_interval_ok (u_min_fee_ref_script_cost_per_byte u).
(** The two prices are set together. *)
Definition prices_paired (pm ps : option UnitInterval) : Prop := is_some pm = is_some ps.

(** ** Round trips *)

Lemma decodes_ExUnits e : ex_units_ok e -> decodes ExUnits_decode (ExUnits_encode e) e.
Proof. destruct e. intros [? ?]. unfold ExUnits_decode, ExUnits_encode. cbn [mem steps] in *. codec. Qed.
Lemma decodes_PoolVotingThresholds t :
  pool_thresholds_ok t -> decodes PoolVotingThresholds_decode (PoolVotingThresholds_encode t) t.
Proof.
  destruct t. intros (? & ? & ? & ? & ?). unfold PoolVotingThresholds_decode, PoolVotingThresholds_encode.
  cbn [pt_motion_no_confidence pt_committee_normal pt_committee_no_confidence
       pt_hard_fork_initiation pt_pp_security_group] in *. codec.
Qed.
Lemma decodes_DRepVotingThresholds t :
  drep_thresholds_ok t -> decodes DRepVotingThresholds_decode (DRepVotingThresholds_encode t) t.
Proof.
  destruct t. intros (? & ? & ? & ? & ? & ? & ? & ? & ? & ?).
  unfold DRepVotingThresholds_decode, DRepVotingThresholds_encode.
  cbn [dt_motion_no_confidence dt_committee_normal dt_committee_no_confidence
       dt_update_to_constitution dt_hard_fork_initiation dt_pp_network_group dt_pp_economic_group
       dt_pp_technical_group dt_pp_gov_group dt_treasury_withdrawal] in *. codec.
Qed.
Lemma decodes_version v : version_ok v -> decodes version_decode (version_encode v) v.
Proof. destruct v. intros [? ?]. unfold version_decode, version_encode. cbn [fst snd] in *. codec. Qed.
Lemma decodes_prices v :
  unit_interval_ok v.1 -> unit_interval_ok v.2 -> decodes prices_decode (prices_encode v) v.
Proof. destruct v. intros. unfold prices_decode, prices_encode. cbn [fst snd] in *. codec. Qed.
Lemma signed_nonempty v : 1 <= zlength (Encoder_signed v).
Proof. unfold Encoder_signed, Encoder_integer. case_match; apply write_nonempty. Qed.
Lemma decodes_cost_model cm e :
  u8 e.1 -> Forall i64 e.2 ->
  decodes (cost_model_decode cm) (cost_model_encode e) (bt_insert e.1 e.2 cm).
Proof.
  intros Hlang Hvals. rewrite Forall_forall in Hvals. apply decodes_if_fits. intros Hfit.
  unfold cost_model_encode in *. rewrite !zlength_app in Hfit.
  pose proof (zlength_concat e.2 Encoder_signed (fun x _ => signed_nonempty x)).
  pose proof (zlength_nonneg (Encoder_unsigned e.1)).
  pose proof (zlength_nonneg (Encoder_array (zlength e.2))).
  unfold cost_model_decode.
  eapply decodes_bind; [apply decodes_unsigned, u64_small; unfold u8, U8_MAX in Hlang; lia|].
  eapply decodes_bind; [apply decodes_array, u64_zlength; lia|].
  eapply decodes_bind_ret.
  - apply decodes_count. intros v Hv. apply decodes_integer. by apply Hvals.
  - rewrite wrap8_id by done. apply decodes_ret.
Qed.
Lemma decodes_CostModels cm :
  cost_models_ok cm -> decodes CostModels_decode (CostModels_encode cm) cm.
Proof.
  intros [Hall Hs]. rewrite Forall_forall in Hall. apply decodes_if_fits. intros Hfit.
  unfold CostModels_encode in *. rewrite zlength_app in Hfit.
  pose proof (zlength_concat cm cost_model_encode
    (fun e _ => nonempty_app _ _ (write_nonempty MAJOR_UNSIGNED e.1))).
  pose proof (zlength_nonneg (Encoder_map (zlength cm))).
  unfold CostModels_decode. eapply decodes_bind; [apply decodes_map, u64_zlength; lia|].
  rewrite <- (bt_collect_append [] cm Hs) at 3.
  apply (decodes_dfor cm cost_model_encode (fun acc e => bt_insert e.1 e.2 acc)).
  intros acc e He. by apply decodes_cost_model; apply Hall.
Qed.
#[export] Hint Resolve decodes_ExUnits decodes_PoolVotingThresholds decodes_DRepVotingThresholds
  decodes_version decodes_prices decodes_CostModels : cbor.

(** *** Counted maps of optional entries *)

Lemma decodes_dfor_step {St} (m : St -> Dec St) n s s' r e rest :
  0 <= n -> decodes (m s) e s' -> decodes (dfor n m s') rest r ->
  decodes (dfor (1 + n) m s) (e ++ rest) r.
Proof.
  intros Hn Hm Hrest pre suf Hlen. unfold dfor in *. rewrite <- !(assoc_L (++)) in *.
  rewrite !for_count_Z in * by lia. replace (Z.to_nat (1 + n)) with (S (Z.to_nat n)) by lia.
  simpl. rewrite Hm by done. simpl.
  specialize (Hrest (pre ++ e) suf). rewrite <- !(assoc_L (++)), for_count_Z in Hrest by lia.
  by apply Hrest.
Qed.
Lemma b2z_range b : 0 <= b2z b <= 1.
Proof. destruct b; simpl; lia. Qed.

Section segments.
  Context {St : Type} (m : St -> Dec St).

(** A mandatory entry. *)
Lemma read_entry {A} key (enc : A -> list Z) v n s s' rest r :
  0 <= n -> decodes (m s) (entry key enc v) s' ->
  decodes (dfor n m s') rest r -> decodes (dfor (1 + n) m s) (entry key enc v ++ rest) r.
Proof. apply decodes_dfor_step. Qed.
(** An optional entry sets a field that was still unset. *)
Lemma read_opt_entry {A} (upd : option A -> St) key (enc : A -> list Z) o n s rest r :
  0 <= n -> s = upd None ->
  (forall v, o = Some v -> decodes (m s) (entry key enc v) (upd (Some v))) ->
  decodes (dfor n m (upd o)) rest r ->
  decodes (dfor (b2z (is_some o) + n) m s) (opt_entry key enc o ++ rest) r.
Proof.
  intros Hn Hs Hm Hrest. destruct o as [v|]; simpl.
  - eapply decodes_dfor_step; [done|by apply Hm|done].
  - by rewrite Hs.
Qed.
Lemma read_end s : decodes (dfor 0 m s) [] s.
Proof. intros pre suf Hlen. unfold dfor. simpl. by rewrite app_nil_r. Qed.
End segments.

Lemma paired_prices pm ps :
  prices_paired pm ps ->
  is_some (price_pair pm ps) = is_some pm
  /\ fst <$> price_pair pm ps = pm /\ snd <$> price_pair pm ps = ps.
Proof. unfold prices_paired. destruct pm, ps; done. Qed.
Lemma prices_ok pm ps v :
  price_pair pm ps = Some v -> option_ok unit_interval_ok pm -> option_ok unit_interval_ok ps ->
  unit_interval_ok v.1 /\ unit_interval_ok v.2.
Proof. destruct pm, ps; simpl; try done. by intros [= <-]. Qed.

(** The number of entries of an encoding, in the order it writes them. *)
Ltac entries_count es :=
  lazymatch es with
  | [] => constr:(0)
  | entry _ _ _ ++ ?r => let n := entries_count r in constr:(1 + n)
  | opt_entry _ _ ?o ++ ?r => let n := entries_count r in constr:(b2z (is_some o) + n)
  end.
(** One entry: the key selects the branch, whose codec round-trips. *)
Ltac read_item :=
  unfold decode_param, decode_update_field, entry;
  eapply decodes_bind; [apply decodes_unsigned, u64_small; lia|]; cbv beta iota;
  lazymatch goal with
  | |- decodes (dbind (dget _) _) _ _ =>
      eapply decodes_peek; [apply (peek_major_at _ 4); reflexivity|]; cbv beta;
      change (4 =? 4) with true; cbv iota
  | _ => idtac
  end;
  eapply decodes_bind_ret; [solve [eauto with cbor]|apply decodes_ret].
(** Fields that were read are fields of the result, the others are still unset. *)
Ltac norm_state :=
  cbn [set_field zero_params ProtocolParameterUpdate_default
       min_fee_a min_fee_b max_block_body_size max_tx_size max_block_header_size key_deposit
       pool_deposit e_max n_opt a0 rho tau param_d extra_entropy protocol_version
       min_utxo_value min_pool_cost coins_per_utxo_byte cost_models price_mem price_step
       max_tx_ex_units max_block_ex_units max_val_size collateral_percentage
       max_collateral_inputs pool_voting_thresholds drep_voting_thresholds min_committee_size
       committee_term_limit gov_action_lifetime gov_action_deposit drep_deposit drep_activity
       min_fee_ref_script_cost_per_byte
       u_min_fee_a u_min_fee_b u_max_block_body_size u_max_tx_size u_max_block_header_size
       u_key_deposit u_pool_deposit u_e_max u_n_opt u_a0 u_rho u_tau u_param_d u_extra_entropy
       u_protocol_version u_min_utxo_value u_min_pool_cost u_coins_per_utxo_byte u_cost_models
       u_price_mem u_price_step u_max_tx_ex_units u_max_block_ex_units u_max_val_size
       u_collateral_percentage u_max_collateral_inputs u_pool_voting_thresholds
       u_drep_voting_thresholds u_min_committee_size u_committee_term_limit
       u_gov_action_lifetime u_gov_action_deposit u_drep_deposit u_drep_activity
       u_min_fee_ref_script_cost_per_byte].
Ltac read_fields m s :=
  lazymatch goal with
  | |- decodes _ (entry _ _ _ ++ _) _ => eapply (read_entry m); [lia|read_item|]
  | |- decodes _ (opt_entry _ prices_encode _ ++ _) _ =>
      first
        [apply (read_opt_entry m (fun o => s <| price_mem := fst <$> o |> <| price_step := snd <$> o |>))
        |apply (read_opt_entry m
                  (fun o => s <| u_price_mem := fst <$> o |> <| u_price_step := snd <$> o |>))];
      [lia|reflexivity
      |let v := fresh "v" in let E := fresh "E" in intros v E; apply prices_ok in E as [? ?]; [|done..];
       read_item|]
  | |- decodes _ (opt_entry _ _ (?f ?p) ++ _) _ =>
      apply (read_opt_entry m (fun o => s <| f := o |>));
      [lia|reflexivity
      |let v := fresh "v" in let E := fresh "E" in intros v E;
       match goal with H : option_ok _ (f p) |- _ => rewrite E in H; cbn [option_ok] in H end;
       read_item|]
  end.
Ltac read_entries :=
  lazymatch goal with
  | |- decodes (dfor 0 ?m ?s) [] ?p => enough (s = p) as ->; [apply read_end|]
  | |- decodes (dfor _ ?m ?s) _ _ => read_fields m s; norm_state; read_entries
  end.
(** The bounds of every flag of a count. *)
Ltac count_bounds :=
  repeat match goal with
  | |- context [b2z ?b] =>
      lazymatch goal with H : 0 <= b2z b <= 1 |- _ => fail | _ => pose proof (b2z_range b) end
  end.

Lemma decodes_ProtocolParameters p :
  params_ok p -> prices_paired (price_mem p) (price_step p) ->
  decodes ProtocolParameters_decode (ProtocolParameters_encode p) p.
Proof.
  intros Hok Hp. destruct (paired_prices _ _ Hp) as (Hc & Hm & Hs).
  unfold ProtocolParameters_decode, ProtocolParameters_encode, params_ok in *. destruct_and! Hok.
  eapply decodes_bind.
  { apply decodes_map. unfold params_count. count_bounds. unfold u64, U64_MAX. lia. }
  rewrite <- (app_nil_r (params_entries p)). unfold params_entries. rewrite <- !(assoc_L (++)).
  lazymatch goal with |- decodes _ ?es _ =>
    let n := entries_count es in replace (params_count p) with n end.
  2: { unfold params_count. rewrite Hc. lia. }
  count_bounds. read_entries. rewrite Hm, Hs. by destruct p.
Qed.

Lemma decodes_ProtocolParameterUpdate u :
  update_ok u -> prices_paired (u_price_mem u) (u_price_step u) ->
  decodes ProtocolParameterUpdate_decode (ProtocolParameterUpdate_encode u) u.
Proof.
  intros Hok Hp. destruct (paired_prices _ _ Hp) as (Hc & Hm & Hs).
  unfold ProtocolParameterUpdate_decode, ProtocolParameterUpdate_encode, update_ok in *.
  destruct_and! Hok.
  eapply decodes_bind.
  { apply decodes_map. unfold field_count. count_bounds. unfold u64, U64_MAX. lia. }
  rewrite <- (app_nil_r (update_entries u)). unfold update_entries. rewrite <- !(assoc_L (++)).
  lazymatch goal with |- decodes _ ?es _ =>
    let n := entries_count es in replace (field_count u) with n end.
  2: { unfold field_count. rewrite Hc. lia. }
  count_bounds. read_entries. rewrite Hm, Hs. by destruct u.
Qed.

(** Stored protocol parameters and parameter updates are read back from their
    encodings, whatever fields are set, provided the two execution prices are
    set together. When only the memory price is set the encoder announces an
    entry it does not write, and the stored parameters cannot be read. *)
Theorem protocol_params_round_trip (p : ProtocolParameters) (u : ProtocolParameterUpdate)
    (Hp : params_ok p) (Hu : update_ok u)
    (Hprices : prices_paired (price_mem p) (price_step p))
    (Huprices : prices_paired (u_price_mem u) (u_price_step u)) :
  decodes ProtocolParameters_decode (ProtocolParameters_encode p) p
  /\ decodes ProtocolParameterUpdate_decode (ProtocolParameterUpdate_encode u) u
  /\ from_cbor_bytes ProtocolParameters_decode
       (ProtocolParameters_encode
          (ProtocolParameters_default <| price_mem := Some (mkUnitInterval 577 10000) |>))
     = Err CborUnexpectedEof.
Proof.
  split_and!; [by apply decodes_ProtocolParameters|by apply decodes_ProtocolParameterUpdate|].
  vm_compute. reflexivity.
Qed.

Lemma protocol_params_round_trip_witness :
  decodes ProtocolParameters_decode (ProtocolParameters_encode alonzo_defaults) alonzo_defaults.
Proof.
  refine (proj1 (protocol_params_round_trip alonzo_defaults
    (ProtocolParameterUpdate_default <| u_key_deposit := Some 5 |>) _ _ _ _)); [| |reflexivity..].
  - vm_compute. repeat split; congruence.
  - vm_compute. repeat split; congruence.
Defined.
