(* ===== verification/MiniProtocol.v ===== *)
(** * Mini-protocols: the common interface

    Every mini-protocol of [crates/network/src/protocols] has the same shape:
    a state enumeration, a message enumeration, a partial [transition], and
    [to_cbor]/[from_cbor]. The class [MiniProtocol] collects them; the class
    [MiniProtocolLaws] is what a driver relies on, and is discharged once per
    protocol. The theorems on sessions (sequences of messages, or of frames on
    the wire) are proved against the interface. *)

From S2P Require Import Prelude Cbor CborFacts CborSkip Types AddressFacts TypesCodec.
Local Open Scope Z_scope.

(** ** Interface *)

Inductive Agency := ClientAgency | ServerAgency | NobodyAgency.

(** [*TransitionError]: the state and the name of the refused message. *)
Record TransitionError (St : Type) := mkTransitionError {
  te_state : St;
  te_message : string }.
Arguments mkTransitionError {St}.

(** [agency] is who may send in a state and [sender] who sends a message, as
    the doc comments of the enumerations say; [msg_ok] is what the Rust types
    guarantee of a message's fields, with the decoder's count limits. *)
Class MiniProtocol (St Msg : Type) := {
  agency : St -> Agency;
  sender : Msg -> Agency;
  tag_name : Msg -> string;
  transition : St -> Msg -> outcome (TransitionError St) St;
  to_cbor : Msg -> list Z;
  from_cbor : list Z -> outcome LedgerError Msg;
  msg_ok : Msg -> Prop }.

Class MiniProtocolLaws (St Msg : Type) {P : MiniProtocol St Msg} := {
  (** Only the party with agency may send. *)
  law_agency : forall s m s', transition s m = Ok s' -> sender m = agency s;
  (** A refused message is reported with the state it was refused in. *)
  law_total : forall s m, (exists s', transition s m = Ok s')
    \/ transition s m = Err (mkTransitionError s (tag_name m));
  (** A state that is not terminal has a legal message. *)
  law_progress : forall s, agency s <> NobodyAgency -> exists m s', transition s m = Ok s';
  law_sender : forall m, sender m <> NobodyAgency;
  law_codec : forall m, msg_ok m -> zlength (to_cbor m) <= ISIZE_MAX ->
    from_cbor (to_cbor m) = Ok m }.

(** ** Sessions *)

Section sessions.
Context {St Msg : Type} {P : MiniProtocol St Msg}.

(** A session as the state machine sees it. *)
Fixpoint run (s : St) (ms : list Msg) : outcome (TransitionError St) St :=
  match ms with
  | [] => Ok s
  | m :: ms => let? s := transition s m in run s ms
  end.

(** What a driver reports of a frame it received. *)
Inductive DriverError :=
  | Mux
  | ConnectionClosed
  | Timeout
  | Protocol (e : TransitionError St)
  | Decode (e : LedgerError)
  | UnexpectedMessage (m : Msg)
  | CookieMismatch (sent received : Z).

(** A driver's transport: what the peer's side of the connection will deliver
    to [channel.recv()], in order, and the frames sent so far. A channel that
    delivers nothing more is closed. *)
Inductive recv_event := Frame (raw : list Z) | TimedOut | Closed.
Record Driver := mkDriver {
  dr_state : St;
  dr_inbox : list recv_event;
  dr_outbox : list (list Z);
  dr_mux_alive : bool }.

(** [send_msg]: validate, then hand the frame to the multiplexer. *)
Definition send_msg (d : Driver) (m : Msg) : outcome DriverError Driver :=
  let? s := map_err Protocol (transition (dr_state d) m) in
  if dr_mux_alive d
  then Ok (mkDriver s (dr_inbox d) (dr_outbox d ++ [to_cbor m]) (dr_mux_alive d))
  else Err Mux.

(** [recv_msg]: take a frame, decode it, validate it. *)
Definition recv_msg (d : Driver) : outcome DriverError (Msg * Driver) :=
  match dr_inbox d with
  | Frame raw :: rest =>
      let? m := map_err Decode (from_cbor raw) in
      let? s := map_err Protocol (transition (dr_state d) m) in
      Ok (m, mkDriver s rest (dr_outbox d) (dr_mux_alive d))
  | TimedOut :: _ => Err Timeout
  | Closed :: _ | [] => Err ConnectionClosed
  end.

(** Receiving a whole conversation. *)
Fixpoint recv_all (d : Driver) (n : nat) : outcome DriverError (list Msg * Driver) :=
  match n with
  | O => Ok ([], d)
  | S n =>
      let? (m, d) := recv_msg d in
      let? (ms, d) := recv_all d n in
      Ok (m :: ms, d)
  end.

Lemma run_app s ms ms' : run s (ms ++ ms') = obind (run s ms) (fun s => run s ms').
Proof.
  revert s. induction ms as [|m ms IH]; intros s; simpl; [done|].
  rewrite obind_assoc. apply obind_ext. auto.
Qed.

Context {L : MiniProtocolLaws St Msg}.

Lemma terminal_refuses s m : agency s = NobodyAgency ->
  transition s m = Err (mkTransitionError s (tag_name m)).
Proof.
  intros Hs. destruct (law_total s m) as [[s' Hm]|]; [|done].
  apply law_agency in Hm. destruct (law_sender m). congruence.
Qed.

(** The messages of a successful session after which somebody still has
    agency, or which is the last one. *)
Lemma run_prefix_agency s ms s' i m :
  run s ms = Ok s' -> ms !! i = Some m ->
  exists si, run s (take i ms) = Ok si /\ sender m = agency si.
Proof.
  intros Hr Hi. rewrite <- (take_drop_middle ms i m Hi), run_app in Hr.
  apply obind_Ok_inv in Hr as (si & Ht & Hr). exists si. split; [done|].
  simpl in Hr. apply obind_Ok_inv in Hr as (s1 & Hm & _). by eapply law_agency.
Qed.

Lemma run_terminal_last s ms s' i si :
  run s ms = Ok s' -> run s (take i ms) = Ok si -> agency si = NobodyAgency ->
  (length ms <= i)%nat.
Proof.
  intros Hr Ht Ha. destruct (ms !! i) as [m|] eqn:Hi; [|by apply lookup_ge_None].
  destruct (run_prefix_agency s ms s' i m Hr Hi) as (si' & Ht' & Hm).
  destruct (law_sender m). congruence.
Qed.

Lemma recv_all_run ms : forall d rest s',
  Forall msg_ok ms -> Forall (fun m => zlength (to_cbor m) <= ISIZE_MAX) ms ->
  dr_inbox d = map (fun m => Frame (to_cbor m)) ms ++ rest ->
  run (dr_state d) ms = Ok s' ->
  recv_all d (length ms) = Ok (ms, mkDriver s' rest (dr_outbox d) (dr_mux_alive d)).
Proof.
  induction ms as [|m ms IH]; intros d rest s' Hok Hlen Hin Hr; simpl in *.
  - destruct d; simpl in *. by simplify_eq.
  - inversion Hok; inversion Hlen; subst. apply obind_Ok_inv in Hr as (s1 & Hm & Hr).
    unfold recv_msg. rewrite Hin, law_codec by done. simpl. rewrite Hm. simpl.
    by rewrite (IH (mkDriver s1 _ _ _) rest s').
Qed.

End sessions.

Arguments DriverError : clear implicits.
Arguments Driver : clear implicits.

(** ** Codec support shared by the protocols *)

(** [from_cbor] of the local protocols does not look at trailing bytes. *)
Definition from_cbor_lax {A} (m : Dec A) (bs : list Z) : outcome LedgerError A :=
  let? (v, _) := m (Decoder_new bs) in Ok v.

(** Count, cap, items: [vec_with_strict_capacity(count, max)?] and the loop. *)
Definition decode_capped {A} (max : Z) (m : Dec A) : Dec (list A) :=
  count <- Decoder_array ;;
  dlift (vec_with_strict_capacity count max) ;;;
  decode_count count m.

(** The bytes of exactly one CBOR item. *)
Definition is_item (bs : list Z) : Prop :=
  exists it, item_ok it = true /\ bs = encode_item it.

Lemma decodes_raw_item bs : is_item bs -> decodes Decoder_raw_value bs bs.
Proof. intros (it & Hok & ->). by apply decodes_span. Qed.

Lemma decodes_new {A} (m : Dec A) bs a :
  decodes m bs a -> zlength bs <= ISIZE_MAX ->
  m (Decoder_new bs) = Ok (a, mkDecoder bs (zlength bs)).
Proof.
  intros Hm Hlen. pose proof (Hm [] []) as H. rewrite !app_nil_r in H.
  unfold at_ in H. rewrite ?app_nil_r in H. by apply H.
Qed.

Lemma from_cbor_bytes_decodes {A} (m : Dec A) bs a :
  decodes m bs a -> zlength bs <= ISIZE_MAX -> from_cbor_bytes m bs = Ok a.
Proof.
  intros Hm Hlen. unfold from_cbor_bytes. rewrite (decodes_new m bs a) by done. simpl.
  unfold Decoder_is_empty. simpl. by rewrite Z.leb_refl.
Qed.

Lemma from_cbor_lax_decodes {A} (m : Dec A) bs a :
  decodes m bs a -> zlength bs <= ISIZE_MAX -> from_cbor_lax m bs = Ok a.
Proof. intros Hm Hlen. unfold from_cbor_lax. by rewrite (decodes_new m bs a). Qed.

Lemma decodes_capped {A} (m : Dec A) (enc : A -> list Z) (ok : A -> Prop) max l :
  (forall a, ok a -> decodes m (enc a) a) -> Forall ok l ->
  zlength l <= max -> max <= 4294967295 ->
  decodes (decode_capped max m) (Encoder_array (zlength l) ++ concat (map enc l)) l.
Proof.
  intros Hm Hl Hmax Hb. pose proof (zlength_nonneg l).
  eapply decodes_bind; [apply decodes_array, u64_small; lia|].
  eapply decodes_bind0.
  { apply decodes_lift. unfold vec_with_strict_capacity.
    by rewrite (proj2 (Z.ltb_ge _ _)) by lia. }
  apply decodes_count. intros a Ha. apply Hm. rewrite Forall_forall in Hl. auto.
Qed.

#[export] Hint Resolve decodes_raw_item : cbor.
