(* ===== verification/NodeToNode.v ===== *)
(** * Node-to-node mini-protocols

    Models of [chain_sync.rs], [block_fetch.rs], [keep_alive.rs],
    [tx_submission.rs] and [peer_sharing.rs] of [crates/network/src/protocols],
    with the count limits of [protocol_size_limits.rs] and the KeepAlive client
    and server drivers. One module per protocol; each discharges
    [MiniProtocolLaws]. *)

From S2P Require Import Prelude Cbor CborFacts CborSkip Types AddressFacts TypesCodec MiniProtocol.
Local Open Scope string_scope.
Local Open Scope Z_scope.
Local Open Scope list_scope.

(** ** Limits *)

Definition INTERSECT_POINTS_MAX : Z := 1024.
Definition TXIDS_MAX : Z := U16_MAX.
Definition TXS_MAX : Z := U16_MAX.
Definition PEERS_MAX : Z := U16_MAX.

(** ** ChainSync *)

Module ChainSync.

Inductive ChainSyncState := StIdle | StCanAwait | StMustReply | StIntersect | StDone.

Inductive ChainSyncMessage :=
  | MsgRequestNext
  | MsgAwaitReply
  | MsgRollForward (header tip : list Z)
  | MsgRollBackward (point tip : list Z)
  | MsgFindIntersect (points : list (list Z))
  | MsgIntersectFound (point tip : list Z)
  | MsgIntersectNotFound (tip : list Z)
  | MsgDone.

Definition cs_tag_name (m : ChainSyncMessage) : string :=
  match m with
  | MsgRequestNext => "MsgRequestNext"
  | MsgAwaitReply => "MsgAwaitReply"
  | MsgRollForward _ _ => "MsgRollForward"
  | MsgRollBackward _ _ => "MsgRollBackward"
  | MsgFindIntersect _ => "MsgFindIntersect"
  | MsgIntersectFound _ _ => "MsgIntersectFound"
  | MsgIntersectNotFound _ => "MsgIntersectNotFound"
  | MsgDone => "MsgDone"
  end.

Definition cs_wire_tag (m : ChainSyncMessage) : Z :=
  match m with
  | MsgRequestNext => 0
  | MsgAwaitReply => 1
  | MsgRollForward _ _ => 2
  | MsgRollBackward _ _ => 3
  | MsgFindIntersect _ => 4
  | MsgIntersectFound _ _ => 5
  | MsgIntersectNotFound _ => 6
  | MsgDone => 7
  end.

Definition cs_transition (self : ChainSyncState) (msg : ChainSyncMessage)
    : outcome (TransitionError ChainSyncState) ChainSyncState :=
  match self, msg with
  | StIdle, MsgRequestNext => Ok StCanAwait
  | StIdle, MsgFindIntersect _ => Ok StIntersect
  | StIdle, MsgDone => Ok StDone
  | StCanAwait, MsgAwaitReply => Ok StMustReply
  | StCanAwait, MsgRollForward _ _ => Ok StIdle
  | StCanAwait, MsgRollBackward _ _ => Ok StIdle
  | StMustReply, MsgRollForward _ _ => Ok StIdle
  | StMustReply, MsgRollBackward _ _ => Ok StIdle
  | StIntersect, MsgIntersectFound _ _ => Ok StIdle
  | StIntersect, MsgIntersectNotFound _ => Ok StIdle
  | _, _ => Err (mkTransitionError self (cs_tag_name msg))
  end.

Definition cs_to_cbor (m : ChainSyncMessage) : list Z :=
  match m with
  | MsgRequestNext => Encoder_array 1 ++ Encoder_unsigned 0
  | MsgAwaitReply => Encoder_array 1 ++ Encoder_unsigned 1
  | MsgRollForward header tip =>
      Encoder_array 3 ++ Encoder_unsigned 2 ++ Encoder_raw header ++ Encoder_raw tip
  | MsgRollBackward point tip =>
      Encoder_array 3 ++ Encoder_unsigned 3 ++ Encoder_raw point ++ Encoder_raw tip
  | MsgFindIntersect points =>
      Encoder_array 2 ++ Encoder_unsigned 4
      ++ Encoder_array (zlength points) ++ concat (map Encoder_raw points)
  | MsgIntersectFound point tip =>
      Encoder_array 3 ++ Encoder_unsigned 5 ++ Encoder_raw point ++ Encoder_raw tip
  | MsgIntersectNotFound tip => Encoder_array 2 ++ Encoder_unsigned 6 ++ Encoder_raw tip
  | MsgDone => Encoder_array 1 ++ Encoder_unsigned 7
  end.

Definition cs_decode : Dec ChainSyncMessage :=
  arr_len <- Decoder_array ;;
  tag <- Decoder_unsigned ;;
  match tag, arr_len with
  | 0, 1 => dret MsgRequestNext
  | 1, 1 => dret MsgAwaitReply
  | 2, 3 => header <- Decoder_raw_value ;; tip <- Decoder_raw_value ;;
            dret (MsgRollForward header tip)
  | 3, 3 => point <- Decoder_raw_value ;; tip <- Decoder_raw_value ;;
            dret (MsgRollBackward point tip)
  | 4, 2 => points <- decode_capped INTERSECT_POINTS_MAX Decoder_raw_value ;;
            dret (MsgFindIntersect points)
  | 5, 3 => point <- Decoder_raw_value ;; tip <- Decoder_raw_value ;;
            dret (MsgIntersectFound point tip)
  | 6, 2 => tip <- Decoder_raw_value ;; dret (MsgIntersectNotFound tip)
  | 7, 1 => dret MsgDone
  | _, _ => derr (CborTypeMismatch 0 (wrap8 tag))
  end.

Definition cs_from_cbor (data : list Z) : outcome LedgerError ChainSyncMessage :=
  from_cbor_bytes cs_decode data.

Definition cs_agency (s : ChainSyncState) : Agency :=
  match s with
  | StIdle => ClientAgency
  | StCanAwait | StMustReply | StIntersect => ServerAgency
  | StDone => NobodyAgency
  end.
Definition cs_sender (m : ChainSyncMessage) : Agency :=
  match m with
  | MsgRequestNext | MsgFindIntersect _ | MsgDone => ClientAgency
  | _ => ServerAgency
  end.

(** Headers, points and tips are single CBOR items, carried unparsed. *)
Definition cs_msg_ok (m : ChainSyncMessage) : Prop :=
  match m with
  | MsgRequestNext | MsgAwaitReply | MsgDone => True
  | MsgRollForward a b | MsgRollBackward a b | MsgIntersectFound a b => is_item a /\ is_item b
  | MsgFindIntersect points => Forall is_item points /\ zlength points <= INTERSECT_POINTS_MAX
  | MsgIntersectNotFound tip => is_item tip
  end.

#[global] Instance cs_proto : MiniProtocol ChainSyncState ChainSyncMessage := {|
  agency := cs_agency; sender := cs_sender; tag_name := cs_tag_name;
  transition := cs_transition; to_cbor := cs_to_cbor; from_cbor := cs_from_cbor;
  msg_ok := cs_msg_ok |}.

Lemma decodes_cs m : cs_msg_ok m -> decodes cs_decode (cs_to_cbor m) m.
Proof.
  unfold cs_decode, cs_to_cbor, Encoder_raw.
  destruct m; cbn [cs_msg_ok]; intros Hm; destruct_and?; try solve [codec].
  do 2 codec_step. cbv iota. eapply decodes_bind_ret; [|apply decodes_ret].
  apply (decodes_capped _ (fun p => p) is_item);
    [apply decodes_raw_item | done | done | unfold INTERSECT_POINTS_MAX; lia].
Qed.

#[global] Instance cs_laws : MiniProtocolLaws ChainSyncState ChainSyncMessage.
Proof.
  split.
  - by intros [] [] ? [=].
  - intros [] []; simpl; eauto.
  - intros []; simpl; try done; intros _.
    + by exists MsgRequestNext, StCanAwait.
    + by exists MsgAwaitReply, StMustReply.
    + by exists (MsgRollForward [] []), StIdle.
    + by exists (MsgIntersectNotFound []), StIdle.
  - by intros [].
  - intros m Hm Hlen. by apply from_cbor_bytes_decodes, Hlen; apply decodes_cs.
Qed.

(** Requests and replies of a conversation. *)
Definition is_request_next (m : ChainSyncMessage) : bool :=
  match m with MsgRequestNext => true | _ => false end.
Definition is_next_reply (m : ChainSyncMessage) : bool :=
  match m with MsgRollForward _ _ | MsgRollBackward _ _ => true | _ => false end.
Definition is_find_intersect (m : ChainSyncMessage) : bool :=
  match m with MsgFindIntersect _ => true | _ => false end.
Definition is_intersect_reply (m : ChainSyncMessage) : bool :=
  match m with MsgIntersectFound _ _ | MsgIntersectNotFound _ => true | _ => false end.

Definition next_pending (s : ChainSyncState) : nat :=
  match s with StCanAwait | StMustReply => 1 | _ => 0 end.
Definition intersect_pending (s : ChainSyncState) : nat :=
  match s with StIntersect => 1 | _ => 0 end.

Definition cs_count (f : ChainSyncMessage -> bool) (ms : list ChainSyncMessage) : nat :=
  length (List.filter f ms).

Lemma cs_run_balance ms : forall s s',
  run s ms = Ok s' ->
  (next_pending s + cs_count is_request_next ms = cs_count is_next_reply ms + next_pending s')%nat
  /\ (intersect_pending s + cs_count is_find_intersect ms
      = cs_count is_intersect_reply ms + intersect_pending s')%nat.
Proof.
  induction ms as [|m ms IH]; intros s s' Hr; cbn [run] in Hr.
  - injection Hr as <-. unfold cs_count. simpl. lia.
  - apply obind_Ok_inv in Hr as (s1 & Hm & Hr). apply IH in Hr. unfold cs_count in *.
    destruct s, m; simpl in Hm; try discriminate Hm; injection Hm as <-; simpl in *; lia.
Qed.

End ChainSync.

(** ** BlockFetch *)

Module BlockFetch.

Inductive BlockFetchState := StIdle | StBusy | StStreaming | StDone.

Record ChainRange := mkChainRange { lower : list Z; upper : list Z }.

Inductive BlockFetchMessage :=
  | MsgRequestRange (range : ChainRange)
  | MsgClientDone
  | MsgStartBatch
  | MsgNoBlocks
  | MsgBlock (block : list Z)
  | MsgBatchDone.

Definition bf_tag_name (m : BlockFetchMessage) : string :=
  match m with
  | MsgRequestRange _ => "MsgRequestRange"
  | MsgClientDone => "MsgClientDone"
  | MsgStartBatch => "MsgStartBatch"
  | MsgNoBlocks => "MsgNoBlocks"
  | MsgBlock _ => "MsgBlock"
  | MsgBatchDone => "MsgBatchDone"
  end.

Definition bf_wire_tag (m : BlockFetchMessage) : Z :=
  match m with
  | MsgRequestRange _ => 0
  | MsgClientDone => 1
  | MsgStartBatch => 2
  | MsgNoBlocks => 3
  | MsgBlock _ => 4
  | MsgBatchDone => 5
  end.

Definition bf_transition (self : BlockFetchState) (msg : BlockFetchMessage)
    : outcome (TransitionError BlockFetchState) BlockFetchState :=
  match self, msg with
  | StIdle, MsgRequestRange _ => Ok StBusy
  | StIdle, MsgClientDone => Ok StDone
  | StBusy, MsgStartBatch => Ok StStreaming
  | StBusy, MsgNoBlocks => Ok StIdle
  | StStreaming, MsgBlock _ => Ok StStreaming
  | StStreaming, MsgBatchDone => Ok StIdle
  | _, _ => Err (mkTransitionError self (bf_tag_name msg))
  end.

Definition bf_to_cbor (m : BlockFetchMessage) : list Z :=
  match m with
  | MsgRequestRange range =>
      Encoder_array 3 ++ Encoder_unsigned 0
      ++ Encoder_raw (lower range) ++ Encoder_raw (upper range)
  | MsgClientDone => Encoder_array 1 ++ Encoder_unsigned 1
  | MsgStartBatch => Encoder_array 1 ++ Encoder_unsigned 2
  | MsgNoBlocks => Encoder_array 1 ++ Encoder_unsigned 3
  | MsgBlock block => Encoder_array 2 ++ Encoder_unsigned 4 ++ Encoder_wrapped block
  | MsgBatchDone => Encoder_array 1 ++ Encoder_unsigned 5
  end.

Definition bf_decode : Dec BlockFetchMessage :=
  arr_len <- Decoder_array ;;
  tag <- Decoder_unsigned ;;
  match tag, arr_len with
  | 0, 3 => lo <- Decoder_raw_value ;; up <- Decoder_raw_value ;;
            dret (MsgRequestRange (mkChainRange lo up))
  | 1, 1 => dret MsgClientDone
  | 2, 1 => dret MsgStartBatch
  | 3, 1 => dret MsgNoBlocks
  | 4, 2 => block <- Decoder_wrapped ;; dret (MsgBlock block)
  | 5, 1 => dret MsgBatchDone
  | _, _ => derr (CborTypeMismatch 0 (wrap8 tag))
  end.

Definition bf_from_cbor (data : list Z) : outcome LedgerError BlockFetchMessage :=
  from_cbor_bytes bf_decode data.

Definition bf_agency (s : BlockFetchState) : Agency :=
  match s with
  | StIdle => ClientAgency
  | StBusy | StStreaming => ServerAgency
  | StDone => NobodyAgency
  end.
Definition bf_sender (m : BlockFetchMessage) : Agency :=
  match m with
  | MsgRequestRange _ | MsgClientDone => ClientAgency
  | _ => ServerAgency
  end.
Definition bf_msg_ok (m : BlockFetchMessage) : Prop :=
  match m with
  | MsgRequestRange r => is_item (lower r) /\ is_item (upper r)
  | _ => True
  end.

#[global] Instance bf_proto : MiniProtocol BlockFetchState BlockFetchMessage := {|
  agency := bf_agency; sender := bf_sender; tag_name := bf_tag_name;
  transition := bf_transition; to_cbor := bf_to_cbor; from_cbor := bf_from_cbor;
  msg_ok := bf_msg_ok |}.

Lemma decodes_bf m : bf_msg_ok m -> decodes bf_decode (bf_to_cbor m) m.
Proof.
  unfold bf_decode, bf_to_cbor, Encoder_raw.
  destruct m as [[lo up]| | | | |]; cbn [bf_msg_ok lower upper]; intros Hm; destruct_and?; codec.
Qed.

#[global] Instance bf_laws : MiniProtocolLaws BlockFetchState BlockFetchMessage.
Proof.
  split.
  - by intros [] [] ? [=].
  - intros [] []; simpl; eauto.
  - intros []; simpl; try done; intros _.
    + by exists MsgClientDone, StDone.
    + by exists MsgStartBatch, StStreaming.
    + by exists MsgBatchDone, StIdle.
  - by intros [].
  - intros m Hm Hlen. by apply from_cbor_bytes_decodes, Hlen; apply decodes_bf.
Qed.

(** The exchanges the protocol is made of: a range request answered by
    "no blocks" or by one batch of blocks. *)
Inductive exchange := Empty (r : ChainRange) | Batch (r : ChainRange) (blocks : list (list Z)).

Definition exchange_msgs (e : exchange) : list BlockFetchMessage :=
  match e with
  | Empty r => [MsgRequestRange r; MsgNoBlocks]
  | Batch r blocks =>
      MsgRequestRange r :: MsgStartBatch :: map MsgBlock blocks ++ [MsgBatchDone]
  end.

Lemma bf_run_blocks blocks ms :
  run StStreaming (map MsgBlock blocks ++ ms) = run StStreaming ms.
Proof. induction blocks; simpl; auto. Qed.

Lemma bf_run_exchange e ms : run StIdle (exchange_msgs e ++ ms) = run StIdle ms.
Proof.
  destruct e as [r|r blocks]; [done|]. simpl. rewrite <- (assoc_L (++)), bf_run_blocks. done.
Qed.

Lemma bf_run_exchanges es ms :
  run StIdle (concat (map exchange_msgs es) ++ ms) = run StIdle ms.
Proof.
  induction es as [|e es IH]; [done|]. cbn [map concat].
  by rewrite <- (assoc_L (++)), bf_run_exchange.
Qed.

(** What a run from each state to idle looks like. *)
Lemma bf_run_to_idle ms :
  (run StIdle ms = Ok StIdle -> exists es, ms = concat (map exchange_msgs es))
  /\ (run StBusy ms = Ok StIdle ->
      forall r, exists es, MsgRequestRange r :: ms = concat (map exchange_msgs es))
  /\ (run StStreaming ms = Ok StIdle ->
      exists blocks es, ms = map MsgBlock blocks ++ MsgBatchDone :: concat (map exchange_msgs es))
  /\ run StDone ms <> Ok StIdle.
Proof.
  induction ms as [|m ms (IH1 & IH2 & IH3 & IH4)].
  { split_and!; try done. intros _. by exists []. }
  split_and!; destruct m; simpl; try done.
  - intros Hr. by apply IH2.
  - intros Hr r. destruct (IH3 Hr) as (blocks & es & ->).
    exists (Batch r blocks :: es). simpl. by rewrite <- (assoc_L (++)).
  - intros Hr r. destruct (IH1 Hr) as (es & ->). by exists (Empty r :: es).
  - intros Hr. destruct (IH3 Hr) as (blocks & es & ->). by exists (block :: blocks), es.
  - intros Hr. destruct (IH1 Hr) as (es & ->). by exists [], es.
Qed.

End BlockFetch.

(** ** KeepAlive *)

Module KeepAlive.

Inductive KeepAliveState := StClient | StServer | StDone.

Inductive KeepAliveMessage :=
  | MsgKeepAlive (cookie : Z)
  | MsgDone
  | MsgKeepAliveResponse (cookie : Z).

Definition ka_msg_tag (m : KeepAliveMessage) : string :=
  match m with
  | MsgKeepAlive _ => "MsgKeepAlive"
  | MsgDone => "MsgDone"
  | MsgKeepAliveResponse _ => "MsgKeepAliveResponse"
  end.

Definition ka_transition (self : KeepAliveState) (msg : KeepAliveMessage)
    : outcome (TransitionError KeepAliveState) KeepAliveState :=
  match self, msg with
  | StClient, MsgKeepAlive _ => Ok StServer
  | StClient, MsgDone => Ok StDone
  | StServer, MsgKeepAliveResponse _ => Ok StClient
  | from, msg => Err (mkTransitionError from (ka_msg_tag msg))
  end.

Definition ka_to_cbor (m : KeepAliveMessage) : list Z :=
  match m with
  | MsgKeepAlive cookie => Encoder_array 2 ++ Encoder_unsigned 0 ++ Encoder_unsigned cookie
  | MsgKeepAliveResponse cookie => Encoder_array 2 ++ Encoder_unsigned 1 ++ Encoder_unsigned cookie
  | MsgDone => Encoder_array 1 ++ Encoder_unsigned 2
  end.

Definition ka_decode : Dec KeepAliveMessage :=
  len <- Decoder_array ;;
  tag <- Decoder_unsigned ;;
  match tag, len with
  | 0, 2 => cookie <- decode_u16 ;; dret (MsgKeepAlive cookie)
  | 1, 2 => cookie <- decode_u16 ;; dret (MsgKeepAliveResponse cookie)
  | 2, 1 => dret MsgDone
  | _, _ => derr (CborTypeMismatch 0 (wrap8 tag))
  end.

Definition ka_from_cbor (data : list Z) : outcome LedgerError KeepAliveMessage :=
  from_cbor_bytes ka_decode data.

Definition ka_agency (s : KeepAliveState) : Agency :=
  match s with StClient => ClientAgency | StServer => ServerAgency | StDone => NobodyAgency end.
Definition ka_sender (m : KeepAliveMessage) : Agency :=
  match m with MsgKeepAlive _ | MsgDone => ClientAgency | MsgKeepAliveResponse _ => ServerAgency end.
Definition ka_msg_ok (m : KeepAliveMessage) : Prop :=
  match m with MsgKeepAlive c | MsgKeepAliveResponse c => u16 c | MsgDone => True end.

#[global] Instance ka_proto : MiniProtocol KeepAliveState KeepAliveMessage := {|
  agency := ka_agency; sender := ka_sender; tag_name := ka_msg_tag;
  transition := ka_transition; to_cbor := ka_to_cbor; from_cbor := ka_from_cbor;
  msg_ok := ka_msg_ok |}.

(** The drivers of [keepalive_client.rs] and [keepalive_server.rs]. *)
Definition KeepAliveDriver := Driver KeepAliveState.
Definition KeepAliveError := DriverError KeepAliveState KeepAliveMessage.

Definition ka_new (inbox : list recv_event) : KeepAliveDriver := mkDriver StClient inbox [] true.

Definition keep_alive (d : KeepAliveDriver) (cookie : Z) : outcome KeepAliveError KeepAliveDriver :=
  let? d := send_msg d (MsgKeepAlive cookie) in
  let? (msg, d) := recv_msg d in
  match msg with
  | MsgKeepAliveResponse echoed =>
      if echoed =? cookie then Ok d else Err (CookieMismatch cookie echoed)
  | msg => Err (UnexpectedMessage msg)
  end.

Definition ka_client_done (d : KeepAliveDriver) : outcome KeepAliveError KeepAliveDriver :=
  send_msg d MsgDone.

Definition recv_keep_alive (d : KeepAliveDriver)
    : outcome KeepAliveError (option Z * KeepAliveDriver) :=
  let? (msg, d) := recv_msg d in
  match msg with
  | MsgKeepAlive cookie => Ok (Some cookie, d)
  | MsgDone => Ok (None, d)
  | msg => Err (UnexpectedMessage msg)
  end.

Definition respond (d : KeepAliveDriver) (cookie : Z) : outcome KeepAliveError KeepAliveDriver :=
  send_msg d (MsgKeepAliveResponse cookie).

(** One turn of the loop; it takes at least one event from the inbox. *)
Definition serve_turn (d : KeepAliveDriver)
    : outcome KeepAliveError (KeepAliveDriver + KeepAliveDriver) :=
  let? (r, d) := recv_keep_alive d in
  match r with
  | Some cookie => let? d := respond d cookie in Ok (inl d)
  | None => Ok (inr d)
  end.
Definition serve_loop (d : KeepAliveDriver) : outcome KeepAliveError KeepAliveDriver :=
  loopM (S (length (dr_inbox d))) serve_turn d.

(** A client that pings with each cookie in turn, then terminates. *)
Fixpoint ka_pings (d : KeepAliveDriver) (cookies : list Z) : outcome KeepAliveError KeepAliveDriver :=
  match cookies with
  | [] => ka_client_done d
  | c :: cs => let? d := keep_alive d c in ka_pings d cs
  end.

Lemma decodes_ka m : ka_msg_ok m -> decodes ka_decode (ka_to_cbor m) m.
Proof.
  unfold ka_decode, ka_to_cbor. destruct m; cbn [ka_msg_ok]; intros Hm; codec.
Qed.

#[global] Instance ka_laws : MiniProtocolLaws KeepAliveState KeepAliveMessage.
Proof.
  split.
  - by intros [] [] ? [=].
  - intros [] []; simpl; eauto.
  - intros []; simpl; try done; intros _.
    + by exists MsgDone, StDone.
    + by exists (MsgKeepAliveResponse 0), StClient.
  - by intros [].
  - intros m Hm Hlen. by apply from_cbor_bytes_decodes, Hlen; apply decodes_ka.
Qed.

Lemma length_write major v : zlength (Encoder_write_type_and_arg major v) <= 9.
Proof. unfold Encoder_write_type_and_arg. repeat case_goal; vm_compute; congruence. Qed.

Lemma ka_fits m : zlength (ka_to_cbor m) <= ISIZE_MAX.
Proof.
  destruct m; unfold ka_to_cbor; rewrite !zlength_app;
    unfold Encoder_array, Encoder_unsigned;
    repeat match goal with |- context [Encoder_write_type_and_arg ?a ?b] =>
      pose proof (length_write a b); generalize dependent (Encoder_write_type_and_arg a b); intros
    end; unfold ISIZE_MAX; lia.
Qed.

Lemma ka_decode_encode m : ka_msg_ok m -> ka_from_cbor (ka_to_cbor m) = Ok m.
Proof. intros Hm. apply from_cbor_bytes_decodes; [by apply decodes_ka | apply ka_fits]. Qed.

(** One exchange as each side sees it. *)
Lemma keep_alive_echo c rest out :
  u16 c ->
  keep_alive (mkDriver StClient (Frame (ka_to_cbor (MsgKeepAliveResponse c)) :: rest) out true) c
  = Ok (mkDriver StClient rest (out ++ [ka_to_cbor (MsgKeepAlive c)]) true).
Proof.
  intros Hc. unfold keep_alive, send_msg, recv_msg. cbn -[ka_to_cbor ka_from_cbor].
  rewrite ka_decode_encode by done. cbn -[ka_to_cbor]. by rewrite Z.eqb_refl.
Qed.

Lemma serve_turn_echo c rest out :
  u16 c ->
  serve_turn (mkDriver StClient (Frame (ka_to_cbor (MsgKeepAlive c)) :: rest) out true)
  = Ok (inl (mkDriver StClient rest (out ++ [ka_to_cbor (MsgKeepAliveResponse c)]) true)).
Proof.
  intros Hc. unfold serve_turn, recv_keep_alive, recv_msg. cbn -[ka_to_cbor ka_from_cbor].
  by rewrite ka_decode_encode.
Qed.

Lemma ka_pings_run cookies : forall out,
  Forall u16 cookies ->
  ka_pings (mkDriver StClient (map (fun c => Frame (ka_to_cbor (MsgKeepAliveResponse c))) cookies)
              out true) cookies
  = Ok (mkDriver StDone [] (out ++ map (fun c => ka_to_cbor (MsgKeepAlive c)) cookies
                                ++ [ka_to_cbor MsgDone]) true).
Proof.
  induction cookies as [|c cs IH]; intros out Hc; [done|].
  inversion Hc; subst. cbn [ka_pings map]. rewrite keep_alive_echo by done.
  cbn [obind]. rewrite IH by done. by rewrite <- (assoc_L (++)).
Qed.

Lemma ka_serve_run cookies : forall out fuel,
  Forall u16 cookies -> (length cookies < fuel)%nat ->
  loopM fuel serve_turn
    (mkDriver StClient (map (fun c => Frame (ka_to_cbor (MsgKeepAlive c))) cookies
                         ++ [Frame (ka_to_cbor MsgDone)]) out true)
  = Ok (mkDriver StDone [] (out ++ map (fun c => ka_to_cbor (MsgKeepAliveResponse c)) cookies) true).
Proof.
  induction cookies as [|c cs IH]; intros out [|fuel] Hc Hf; try (simpl in Hf; lia).
  - cbn [map]. by rewrite app_nil_r.
  - inversion Hc; subst. cbn [loopM map app]. rewrite serve_turn_echo by done.
    cbn [obind]. rewrite IH by (done || simpl in Hf; lia). by rewrite <- (assoc_L (++)).
Qed.

End KeepAlive.

(** ** TxSubmission2 *)

Module TxSubmission.

Inductive TxSubmissionState :=
  | StInit
  | StIdle
  | StTxIds (blocking : bool)
  | StTxs
  | StDone.

Record TxIdAndSize := mkTxIdAndSize { txid : TxId; size : Z }.

Inductive TxSubmissionMessage :=
  | MsgInit
  | MsgRequestTxIds (blocking : bool) (ack req : Z)
  | MsgReplyTxIds (txids : list TxIdAndSize)
  | MsgRequestTxs (txids : list TxId)
  | MsgReplyTxs (txs : list (list Z))
  | MsgDone.

Definition ts_tag_name (m : TxSubmissionMessage) : string :=
  match m with
  | MsgInit => "MsgInit"
  | MsgRequestTxIds _ _ _ => "MsgRequestTxIds"
  | MsgReplyTxIds _ => "MsgReplyTxIds"
  | MsgRequestTxs _ => "MsgRequestTxs"
  | MsgReplyTxs _ => "MsgReplyTxs"
  | MsgDone => "MsgDone"
  end.

Definition ts_wire_tag (m : TxSubmissionMessage) : Z :=
  match m with
  | MsgInit => 6
  | MsgRequestTxIds _ _ _ => 0
  | MsgReplyTxIds _ => 1
  | MsgRequestTxs _ => 2
  | MsgReplyTxs _ => 3
  | MsgDone => 4
  end.

Definition ts_transition (self : TxSubmissionState) (msg : TxSubmissionMessage)
    : outcome (TransitionError TxSubmissionState) TxSubmissionState :=
  match self, msg with
  | StInit, MsgInit => Ok StIdle
  | StIdle, MsgRequestTxIds blocking _ _ => Ok (StTxIds blocking)
  | StIdle, MsgRequestTxs _ => Ok StTxs
  | StTxIds _, MsgReplyTxIds _ => Ok StIdle
  | StTxIds true, MsgDone => Ok StDone
  | StTxs, MsgReplyTxs _ => Ok StIdle
  | state, msg => Err (mkTransitionError state (ts_tag_name msg))
  end.

Definition encode_txid_and_size (item : TxIdAndSize) : list Z :=
  Encoder_array 2 ++ Encoder_bytes (txid item) ++ Encoder_unsigned (size item).

Definition ts_to_cbor (m : TxSubmissionMessage) : list Z :=
  match m with
  | MsgInit => Encoder_array 1 ++ Encoder_unsigned 6
  | MsgRequestTxIds blocking ack req =>
      Encoder_array 4 ++ Encoder_unsigned 0 ++ Encoder_bool blocking
      ++ Encoder_unsigned ack ++ Encoder_unsigned req
  | MsgReplyTxIds txids =>
      Encoder_array 2 ++ Encoder_unsigned 1
      ++ Encoder_array (zlength txids) ++ concat (map encode_txid_and_size txids)
  | MsgRequestTxs txids =>
      Encoder_array 2 ++ Encoder_unsigned 2
      ++ Encoder_array (zlength txids) ++ concat (map Encoder_bytes txids)
  | MsgReplyTxs txs =>
      Encoder_array 2 ++ Encoder_unsigned 3
      ++ Encoder_array (zlength txs) ++ concat (map Encoder_bytes txs)
  | MsgDone => Encoder_array 1 ++ Encoder_unsigned 4
  end.

Definition decode_txid (raw : list Z) : outcome LedgerError TxId :=
  if zlength raw =? 32 then Ok raw else Err (CborInvalidLength 32 (zlength raw)).

Definition decode_txid_and_size : Dec TxIdAndSize :=
  inner_len <- Decoder_array ;;
  expect_len 2 inner_len ;;;
  raw <- Decoder_bytes ;;
  txid <- dlift (decode_txid raw) ;;
  size <- decode_u32 ;;
  dret (mkTxIdAndSize txid size).

Definition ts_decode : Dec TxSubmissionMessage :=
  arr_len <- Decoder_array ;;
  tag <- Decoder_unsigned ;;
  match tag, arr_len with
  | 6, 1 => dret MsgInit
  | 0, 4 => blocking <- Decoder_bool ;; ack <- decode_u16 ;; req <- decode_u16 ;;
            dret (MsgRequestTxIds blocking ack req)
  | 1, 2 => txids <- decode_capped TXIDS_MAX decode_txid_and_size ;; dret (MsgReplyTxIds txids)
  | 2, 2 => txids <- decode_capped TXIDS_MAX (raw <- Decoder_bytes ;; dlift (decode_txid raw)) ;;
            dret (MsgRequestTxs txids)
  | 3, 2 => txs <- decode_capped TXS_MAX Decoder_bytes ;; dret (MsgReplyTxs txs)
  | 4, 1 => dret MsgDone
  | _, _ => derr (CborTypeMismatch 0 (wrap8 tag))
  end.

Definition ts_from_cbor (data : list Z) : outcome LedgerError TxSubmissionMessage :=
  from_cbor_bytes ts_decode data.

Definition ts_agency (s : TxSubmissionState) : Agency :=
  match s with
  | StInit | StTxIds _ | StTxs => ClientAgency
  | StIdle => ServerAgency
  | StDone => NobodyAgency
  end.
Definition ts_sender (m : TxSubmissionMessage) : Agency :=
  match m with
  | MsgRequestTxIds _ _ _ | MsgRequestTxs _ => ServerAgency
  | _ => ClientAgency
  end.
Definition ts_msg_ok (m : TxSubmissionMessage) : Prop :=
  match m with
  | MsgInit | MsgDone => True
  | MsgRequestTxIds _ ack req => u16 ack /\ u16 req
  | MsgReplyTxIds l => Forall (fun i => hash32 (txid i) /\ u32 (size i)) l /\ zlength l <= TXIDS_MAX
  | MsgRequestTxs l => Forall hash32 l /\ zlength l <= TXIDS_MAX
  | MsgReplyTxs l => zlength l <= TXS_MAX
  end.

#[global] Instance ts_proto : MiniProtocol TxSubmissionState TxSubmissionMessage := {|
  agency := ts_agency; sender := ts_sender; tag_name := ts_tag_name;
  transition := ts_transition; to_cbor := ts_to_cbor; from_cbor := ts_from_cbor;
  msg_ok := ts_msg_ok |}.

Lemma decodes_txid h :
  hash32 h -> decodes (raw <- Decoder_bytes ;; dlift (decode_txid raw)) (Encoder_bytes h) h.
Proof.
  intros Hh. eapply decodes_bind_ret; [apply decodes_bytes|]. apply decodes_lift.
  unfold decode_txid. by rewrite Hh.
Qed.

Lemma decodes_txid_and_size i :
  hash32 (txid i) /\ u32 (size i) -> decodes decode_txid_and_size (encode_txid_and_size i) i.
Proof.
  destruct i as [h sz]. cbn [txid size]. intros [Hh Hs].
  unfold decode_txid_and_size, encode_txid_and_size. cbn [txid size].
  do 2 codec_step. eapply decodes_bind; [apply decodes_bytes|].
  eapply decodes_bind0; [apply decodes_lift; unfold decode_txid; by rewrite Hh|]. codec.
Qed.

Lemma decodes_ts m : ts_msg_ok m -> decodes ts_decode (ts_to_cbor m) m.
Proof.
  assert (U16_MAX <= 4294967295) as Hmax by done.
  unfold ts_decode, ts_to_cbor.
  destruct m; cbn [ts_msg_ok]; intros Hm; destruct_and?; try solve [codec];
    do 2 codec_step; cbv iota; (eapply decodes_bind_ret; [|apply decodes_ret]).
  - by eapply decodes_capped; [apply decodes_txid_and_size|..].
  - by eapply decodes_capped; [apply decodes_txid|..].
  - eapply (decodes_capped _ _ (fun _ => True)); [|by apply Forall_true|done|done].
    intros. apply decodes_bytes.
Qed.

#[global] Instance ts_laws : MiniProtocolLaws TxSubmissionState TxSubmissionMessage.
Proof.
  split.
  - by intros [| |[]| |] [] ? [=].
  - intros [| |[]| |] []; simpl; eauto.
  - intros [| |[]| |]; simpl; try done; intros _.
    + by exists MsgInit, StIdle.
    + by exists (MsgRequestTxs []), StTxs.
    + by exists (MsgReplyTxIds []), StIdle.
    + by exists (MsgReplyTxIds []), StIdle.
    + by exists (MsgReplyTxs []), StIdle.
  - by intros [].
  - intros m Hm Hlen. by apply from_cbor_bytes_decodes, Hlen; apply decodes_ts.
Qed.

Lemma ts_run_snoc s ms m s' :
  run s (ms ++ [m]) = Ok s' -> exists s1, run s ms = Ok s1 /\ ts_transition s1 m = Ok s'.
Proof.
  rewrite run_app. intros H. apply obind_Ok_inv in H as (s1 & H1 & H). exists s1.
  split; [done|]. simpl in H. by destruct (ts_transition s1 m).
Qed.

(** The last message before a state that only one message leads to. *)
Lemma ts_run_tail ms s' :
  run StInit ms = Ok s' -> s' <> StInit ->
  exists ms' m s1, ms = ms' ++ [m] /\ run StInit ms' = Ok s1 /\ ts_transition s1 m = Ok s'.
Proof.
  intros Hr Hs. destruct ms as [|m ms _] using rev_ind; [by injection Hr as <-|].
  apply ts_run_snoc in Hr as (s1 & ? & ?). eauto 10.
Qed.

End TxSubmission.

(** ** PeerSharing *)

Module PeerSharing.

Inductive PeerSharingState := StClient | StServer | StDone.

Inductive SocketAddr :=
  | V4 (octets : list Z) (port : Z)
  | V6 (octets : list Z) (port flowinfo scope_id : Z).

Inductive PeerSharingMessage :=
  | MsgShareRequest (amount : Z)
  | MsgSharePeers (peers : list SocketAddr)
  | MsgDone.

Definition ps_msg_tag (m : PeerSharingMessage) : string :=
  match m with
  | MsgShareRequest _ => "MsgShareRequest"
  | MsgSharePeers _ => "MsgSharePeers"
  | MsgDone => "MsgDone"
  end.

Definition ps_transition (self : PeerSharingState) (msg : PeerSharingMessage)
    : outcome (TransitionError PeerSharingState) PeerSharingState :=
  match self, msg with
  | StClient, MsgShareRequest _ => Ok StServer
  | StClient, MsgDone => Ok StDone
  | StServer, MsgSharePeers _ => Ok StClient
  | from, msg => Err (mkTransitionError from (ps_msg_tag msg))
  end.

Definition SharedPeerAddress_encode (a : SocketAddr) : list Z :=
  match a with
  | V4 ip port => Encoder_array 3 ++ Encoder_unsigned 0 ++ Encoder_bytes ip ++ Encoder_unsigned port
  | V6 ip port _ _ =>
      Encoder_array 3 ++ Encoder_unsigned 1 ++ Encoder_bytes ip ++ Encoder_unsigned port
  end.

Definition SharedPeerAddress_decode : Dec SocketAddr :=
  len <- Decoder_array ;;
  if negb (len =? 3) then derr (CborTypeMismatch 3 (wrap8 len)) else
  ip_type <- Decoder_unsigned ;;
  ip_bytes <- Decoder_bytes ;;
  port <- decode_u16 ;;
  match ip_type with
  | 0 =>
      if negb (zlength ip_bytes =? 4) then derr (CborTypeMismatch 4 (wrap8 (zlength ip_bytes)))
      else dret (V4 ip_bytes port)
  | 1 =>
      if negb (zlength ip_bytes =? 16) then derr (CborTypeMismatch 16 (wrap8 (zlength ip_bytes)))
      else dret (V6 ip_bytes port 0 0)
  | ip_type => derr (CborTypeMismatch 0 (wrap8 ip_type))
  end.

Definition ps_to_cbor (m : PeerSharingMessage) : list Z :=
  match m with
  | MsgShareRequest amount => Encoder_array 2 ++ Encoder_unsigned 0 ++ Encoder_unsigned amount
  | MsgSharePeers peers =>
      Encoder_array 2 ++ Encoder_unsigned 1
      ++ Encoder_array (zlength peers) ++ concat (map SharedPeerAddress_encode peers)
  | MsgDone => Encoder_array 1 ++ Encoder_unsigned 2
  end.

Definition ps_decode : Dec PeerSharingMessage :=
  len <- Decoder_array ;;
  tag <- Decoder_unsigned ;;
  match tag, len with
  | 0, 2 => amount <- decode_u16 ;; dret (MsgShareRequest amount)
  | 1, 2 => peers <- decode_capped PEERS_MAX SharedPeerAddress_decode ;; dret (MsgSharePeers peers)
  | 2, 1 => dret MsgDone
  | _, _ => derr (CborTypeMismatch 0 (wrap8 tag))
  end.

Definition ps_from_cbor (data : list Z) : outcome LedgerError PeerSharingMessage :=
  from_cbor_bytes ps_decode data.

Definition ps_agency (s : PeerSharingState) : Agency :=
  match s with StClient => ClientAgency | StServer => ServerAgency | StDone => NobodyAgency end.
Definition ps_sender (m : PeerSharingMessage) : Agency :=
  match m with MsgShareRequest _ | MsgDone => ClientAgency | MsgSharePeers _ => ServerAgency end.

(** IPv6 flow information and scope are not sent, so an address that carries
    them does not survive the wire. *)
Definition peer_ok (a : SocketAddr) : Prop :=
  match a with
  | V4 ip port => zlength ip = 4 /\ u16 port
  | V6 ip port flow scope => zlength ip = 16 /\ u16 port /\ flow = 0 /\ scope = 0
  end.
Definition ps_msg_ok (m : PeerSharingMessage) : Prop :=
  match m with
  | MsgShareRequest amount => u16 amount
  | MsgSharePeers peers => Forall peer_ok peers /\ zlength peers <= PEERS_MAX
  | MsgDone => True
  end.

#[global] Instance ps_proto : MiniProtocol PeerSharingState PeerSharingMessage := {|
  agency := ps_agency; sender := ps_sender; tag_name := ps_msg_tag;
  transition := ps_transition; to_cbor := ps_to_cbor; from_cbor := ps_from_cbor;
  msg_ok := ps_msg_ok |}.

Lemma decodes_peer a : peer_ok a -> decodes SharedPeerAddress_decode (SharedPeerAddress_encode a) a.
Proof.
  unfold SharedPeerAddress_decode, SharedPeerAddress_encode.
  destruct a as [ip port|ip port flow scope]; cbn [peer_ok]; intros Ha; destruct_and?; subst;
    codec_step; cbn [negb Z.eqb Pos.eqb]; do 2 codec_step;
    (eapply decodes_bind_ret; [by apply decodes_u16|]);
    match goal with H : zlength ip = _ |- _ => rewrite H end; apply decodes_ret.
Qed.

Lemma decodes_ps m : ps_msg_ok m -> decodes ps_decode (ps_to_cbor m) m.
Proof.
  unfold ps_decode, ps_to_cbor.
  destruct m; cbn [ps_msg_ok]; intros Hm; destruct_and?; try solve [codec].
  do 2 codec_step. cbv iota. eapply decodes_bind_ret; [|apply decodes_ret].
  by eapply decodes_capped; [apply decodes_peer|..].
Qed.

#[global] Instance ps_laws : MiniProtocolLaws PeerSharingState PeerSharingMessage.
Proof.
  split.
  - by intros [] [] ? [=].
  - intros [] []; simpl; eauto.
  - intros []; simpl; try done; intros _.
    + by exists MsgDone, StDone.
    + by exists (MsgSharePeers []), StClient.
  - by intros [].
  - intros m Hm Hlen. by apply from_cbor_bytes_decodes, Hlen; apply decodes_ps.
Qed.

End PeerSharing.

(** ** Counts above the limits *)

(** An array header of more than [max] items is refused before any item is
    read. *)
Lemma capped_refuses {A} (m : Dec A) max n rest :
  max < n -> u64 n -> zlength (Encoder_array n ++ rest) <= ISIZE_MAX -> forall pre,
  zlength (pre ++ Encoder_array n ++ rest) <= ISIZE_MAX ->
  decode_capped max m (at_ pre (Encoder_array n ++ rest)) = Err (DecodedCountTooLarge n max).
Proof.
  intros Hn Hu _ pre Hlen. unfold decode_capped, dbind at 1.
  rewrite decodes_array by done. cbn [obind fst snd].
  unfold dbind, dlift, vec_with_strict_capacity. by rewrite (proj2 (Z.ltb_lt _ _)).
Qed.

(** The two-element messages [[tag, [items...]]]. *)
Lemma tagged_capped_refuses {A B} (m : Dec A) (k : list A -> Dec B) (sel : Z -> Z -> Dec B)
    tag max n rest :
  sel 2 tag = (l <- decode_capped max m ;; k l) -> u64 tag -> max < n -> u64 n ->
  let bs := Encoder_array 2 ++ Encoder_unsigned tag ++ Encoder_array n ++ rest in
  zlength bs <= ISIZE_MAX ->
  from_cbor_bytes (arr_len <- Decoder_array ;; t <- Decoder_unsigned ;; sel arr_len t) bs
  = Err (DecodedCountTooLarge n max).
Proof.
  intros Hsel Ht Hn Hu bs Hlen. subst bs. unfold from_cbor_bytes.
  change (Decoder_new ?l) with (at_ [] l). unfold dbind at 1.
  rewrite decodes_array by (by apply u64_small || done). cbn [obind fst snd].
  unfold dbind at 1. rewrite decodes_unsigned by done. cbn [obind fst snd].
  rewrite Hsel. unfold dbind at 1. rewrite capped_refuses; [done|done|done| |].
  - rewrite !zlength_app in *.
    pose proof (zlength_nonneg (Encoder_array 2)). pose proof (zlength_nonneg (Encoder_unsigned tag)). lia.
  - by rewrite <- !(assoc_L (++)).
Qed.

(** ** Properties *)

(** C33: a ChainSync conversation that starts idle keeps its requests and
    replies paired: requests for the next header exceed roll-forward and
    roll-backward replies by one exactly while the server owes a reply,
    likewise for intersection queries, and every message was sent by the party
    that had agency. *)
Theorem chain_sync_session (ms : list ChainSync.ChainSyncMessage) (s : ChainSync.ChainSyncState)
    (Hr : run ChainSync.StIdle ms = Ok s) :
  (ChainSync.cs_count ChainSync.is_request_next ms
   = ChainSync.cs_count ChainSync.is_next_reply ms + ChainSync.next_pending s)%nat
  /\ (ChainSync.cs_count ChainSync.is_find_intersect ms
      = ChainSync.cs_count ChainSync.is_intersect_reply ms + ChainSync.intersect_pending s)%nat
  /\ forall i m, ms !! i = Some m ->
       exists si, run ChainSync.StIdle (take i ms) = Ok si
         /\ ChainSync.cs_sender m = ChainSync.cs_agency si.
Proof.
  destruct (ChainSync.cs_run_balance ms ChainSync.StIdle s Hr) as [H1 H2].
  split; [done|]. split; [done|]. intros i m Hi. exact (run_prefix_agency _ ms s i m Hr Hi).
Qed.

Lemma chain_sync_session_witness :
  ChainSync.cs_count ChainSync.is_request_next
     [ChainSync.MsgFindIntersect [[128]]; ChainSync.MsgIntersectNotFound [128];
      ChainSync.MsgRequestNext; ChainSync.MsgAwaitReply; ChainSync.MsgRollForward [0] [128];
      ChainSync.MsgRequestNext] = 2%nat.
Proof.
  apply (chain_sync_session
    [ChainSync.MsgFindIntersect [[128]]; ChainSync.MsgIntersectNotFound [128];
     ChainSync.MsgRequestNext; ChainSync.MsgAwaitReply; ChainSync.MsgRollForward [0] [128];
     ChainSync.MsgRequestNext] ChainSync.StCanAwait).
  reflexivity.
Defined.

(** The message sequences BlockFetch admits from idle back to idle are
    exactly the sequences of complete exchanges: a range request answered by
    [MsgNoBlocks], or by [MsgStartBatch], any number of blocks and
    [MsgBatchDone]. *)
Theorem block_fetch_sessions (ms : list BlockFetch.BlockFetchMessage) :
  run BlockFetch.StIdle ms = Ok BlockFetch.StIdle
  <-> exists es, ms = concat (map BlockFetch.exchange_msgs es).
Proof.
  split; [apply BlockFetch.bf_run_to_idle|]. intros [es ->].
  rewrite <- (app_nil_r (concat _)). by rewrite BlockFetch.bf_run_exchanges.
Qed.

(** TxSubmission2 terminates only from a blocking request: a conversation
    that reaches [StDone] ends with a blocking [MsgRequestTxIds] answered by
    [MsgDone]. *)
Theorem tx_submission_done_is_blocking (ms : list TxSubmission.TxSubmissionMessage)
    (Hr : run TxSubmission.StInit ms = Ok TxSubmission.StDone) :
  exists ms' ack req,
    ms = ms' ++ [TxSubmission.MsgRequestTxIds true ack req; TxSubmission.MsgDone].
Proof.
  destruct (TxSubmission.ts_run_tail _ _ Hr) as (ms1 & m & s1 & -> & Hr1 & Hm); [done|].
  destruct s1 as [| |[]| |], m; try discriminate Hm.
  destruct (TxSubmission.ts_run_tail _ _ Hr1) as (ms2 & m & s2 & -> & Hr2 & Hm2); [done|].
  destruct s2 as [| |[]| |], m; try discriminate Hm2. injection Hm2 as ->.
  exists ms2, ack, req. by rewrite <- (assoc_L (++)).
Qed.

Lemma tx_submission_done_is_blocking_witness :
  exists ms' ack req,
    [TxSubmission.MsgInit; TxSubmission.MsgRequestTxIds false 0 3; TxSubmission.MsgReplyTxIds [];
     TxSubmission.MsgRequestTxIds true 0 1; TxSubmission.MsgDone]
    = ms' ++ [TxSubmission.MsgRequestTxIds true ack req; TxSubmission.MsgDone].
Proof. apply tx_submission_done_is_blocking. reflexivity. Defined.

(** Every well-typed message of the five node-to-node protocols is decoded
    from its own encoding. *)
Theorem node_to_node_codecs_round_trip :
  (forall m, ChainSync.cs_msg_ok m -> zlength (ChainSync.cs_to_cbor m) <= ISIZE_MAX ->
     ChainSync.cs_from_cbor (ChainSync.cs_to_cbor m) = Ok m)
  /\ (forall m, BlockFetch.bf_msg_ok m -> zlength (BlockFetch.bf_to_cbor m) <= ISIZE_MAX ->
     BlockFetch.bf_from_cbor (BlockFetch.bf_to_cbor m) = Ok m)
  /\ (forall m, KeepAlive.ka_msg_ok m ->
     KeepAlive.ka_from_cbor (KeepAlive.ka_to_cbor m) = Ok m)
  /\ (forall m, TxSubmission.ts_msg_ok m -> zlength (TxSubmission.ts_to_cbor m) <= ISIZE_MAX ->
     TxSubmission.ts_from_cbor (TxSubmission.ts_to_cbor m) = Ok m)
  /\ (forall m, PeerSharing.ps_msg_ok m -> zlength (PeerSharing.ps_to_cbor m) <= ISIZE_MAX ->
     PeerSharing.ps_from_cbor (PeerSharing.ps_to_cbor m) = Ok m).
Proof.
  split_and!; intros m Hm.
  - intros Hl. apply from_cbor_bytes_decodes, Hl. by apply ChainSync.decodes_cs.
  - intros Hl. apply from_cbor_bytes_decodes, Hl. by apply BlockFetch.decodes_bf.
  - by apply KeepAlive.ka_decode_encode.
  - intros Hl. apply from_cbor_bytes_decodes, Hl. by apply TxSubmission.decodes_ts.
  - intros Hl. apply from_cbor_bytes_decodes, Hl. by apply PeerSharing.decodes_ps.
Qed.

Lemma node_to_node_codecs_round_trip_witness :
  TxSubmission.ts_from_cbor (TxSubmission.ts_to_cbor
    (TxSubmission.MsgReplyTxIds [TxSubmission.mkTxIdAndSize (replicate 32 5) 300]))
  = Ok (TxSubmission.MsgReplyTxIds [TxSubmission.mkTxIdAndSize (replicate 32 5) 300]).
Proof.
  apply node_to_node_codecs_round_trip; [|vm_compute; congruence].
  split; [|vm_compute; congruence]. repeat constructor; vm_compute; congruence.
Defined.

(** A driver of any protocol that meets the interface receives a legal
    conversation faithfully: the frames of well-typed messages that the state
    machine admits are decoded to those messages, in order, and leave the
    driver in the state the machine reaches. *)
Theorem driver_receives_conversation {St Msg : Type} {P : MiniProtocol St Msg}
    {L : MiniProtocolLaws St Msg} (ms : list Msg) (d : Driver St) (rest : list recv_event) (s' : St)
    (Hok : Forall msg_ok ms) (Hlen : Forall (fun m => zlength (to_cbor m) <= ISIZE_MAX) ms)
    (Hin : dr_inbox d = map (fun m => Frame (to_cbor m)) ms ++ rest)
    (Hr : run (dr_state d) ms = Ok s') :
  recv_all d (length ms) = Ok (ms, mkDriver s' rest (dr_outbox d) (dr_mux_alive d)).
Proof. by apply recv_all_run. Qed.

Lemma driver_receives_conversation_witness :
  recv_all (mkDriver PeerSharing.StClient
      [Frame [130; 0; 3]; Frame [130; 1; 129; 131; 0; 68; 10; 0; 0; 1; 25; 11; 185]; Closed]
      [] true) 2
  = Ok ([PeerSharing.MsgShareRequest 3;
         PeerSharing.MsgSharePeers [PeerSharing.V4 [10; 0; 0; 1] 3001]],
        mkDriver PeerSharing.StClient [Closed] [] true).
Proof.
  apply (driver_receives_conversation
    [PeerSharing.MsgShareRequest 3;
     PeerSharing.MsgSharePeers [PeerSharing.V4 [10; 0; 0; 1] 3001]]
    (mkDriver PeerSharing.StClient
      [Frame [130; 0; 3]; Frame [130; 1; 129; 131; 0; 68; 10; 0; 0; 1; 25; 11; 185]; Closed]
      [] true) [Closed] PeerSharing.StClient);
    [repeat constructor; vm_compute; congruence
    |repeat constructor; vm_compute; congruence|reflexivity|reflexivity].
Defined.

(** A peer that announces more intersection points, transaction ids,
    transactions or shared peers than the protocol's limit is refused with
    [DecodedCountTooLarge], whatever follows the count. *)
Theorem announced_counts_are_capped (n : Z) (rest : list Z) (Hu : u64 n)
    (Hlen : zlength rest <= 1000000) :
  (INTERSECT_POINTS_MAX < n ->
   ChainSync.cs_from_cbor (Encoder_array 2 ++ Encoder_unsigned 4 ++ Encoder_array n ++ rest)
   = Err (DecodedCountTooLarge n INTERSECT_POINTS_MAX))
  /\ (TXIDS_MAX < n ->
   TxSubmission.ts_from_cbor (Encoder_array 2 ++ Encoder_unsigned 1 ++ Encoder_array n ++ rest)
   = Err (DecodedCountTooLarge n TXIDS_MAX)
   /\ TxSubmission.ts_from_cbor (Encoder_array 2 ++ Encoder_unsigned 2 ++ Encoder_array n ++ rest)
   = Err (DecodedCountTooLarge n TXIDS_MAX))
  /\ (TXS_MAX < n ->
   TxSubmission.ts_from_cbor (Encoder_array 2 ++ Encoder_unsigned 3 ++ Encoder_array n ++ rest)
   = Err (DecodedCountTooLarge n TXS_MAX))
  /\ (PEERS_MAX < n ->
   PeerSharing.ps_from_cbor (Encoder_array 2 ++ Encoder_unsigned 1 ++ Encoder_array n ++ rest)
   = Err (DecodedCountTooLarge n PEERS_MAX)).
Proof.
  assert (forall tag, zlength (Encoder_array 2 ++ Encoder_unsigned tag ++ Encoder_array n ++ rest)
            <= ISIZE_MAX) as Hfit.
  { intros tag. rewrite !zlength_app. unfold Encoder_array, Encoder_unsigned.
    pose proof (KeepAlive.length_write MAJOR_ARRAY 2).
    pose proof (KeepAlive.length_write MAJOR_UNSIGNED tag).
    pose proof (KeepAlive.length_write MAJOR_ARRAY n). unfold ISIZE_MAX. lia. }
  split_and!; intros; split_and?;
    (eapply tagged_capped_refuses; [reflexivity|by apply u64_small|done|done|apply Hfit]).
Qed.

Lemma announced_counts_are_capped_witness :
  ChainSync.cs_from_cbor (Encoder_array 2 ++ Encoder_unsigned 4 ++ Encoder_array 1000000 ++ [1; 2])
  = Err (DecodedCountTooLarge 1000000 INTERSECT_POINTS_MAX).
Proof.
  apply (announced_counts_are_capped 1000000 [1; 2]); by vm_compute.
Defined.

(** A KeepAlive session of any cookies works end to end: the server loop,
    fed the client's frames, echoes every cookie and stops at [MsgDone]; the
    client, fed the server's frames, accepts every echo. *)
Theorem keep_alive_end_to_end (cookies : list Z) (Hc : Forall u16 cookies) :
  exists client_frames server_frames,
    KeepAlive.ka_pings (KeepAlive.ka_new (map Frame server_frames)) cookies
    = Ok (mkDriver KeepAlive.StDone [] client_frames true)
    /\ KeepAlive.serve_loop (KeepAlive.ka_new (map Frame client_frames))
    = Ok (mkDriver KeepAlive.StDone [] server_frames true)
    /\ length server_frames = length cookies.
Proof.
  exists (map (fun c => KeepAlive.ka_to_cbor (KeepAlive.MsgKeepAlive c)) cookies
          ++ [KeepAlive.ka_to_cbor KeepAlive.MsgDone]),
    (map (fun c => KeepAlive.ka_to_cbor (KeepAlive.MsgKeepAliveResponse c)) cookies).
  split_and!; [| |by rewrite length_map].
  - unfold KeepAlive.ka_new. rewrite map_map. by apply (KeepAlive.ka_pings_run cookies []).
  - unfold KeepAlive.serve_loop, KeepAlive.ka_new. cbn [dr_inbox].
    rewrite map_app, map_map. apply (KeepAlive.ka_serve_run cookies []); [done|].
    rewrite length_app, length_map. simpl. lia.
Qed.

Lemma keep_alive_end_to_end_witness :
  exists client_frames server_frames,
    KeepAlive.ka_pings (KeepAlive.ka_new (map Frame server_frames)) [7; 65535]
    = Ok (mkDriver KeepAlive.StDone [] client_frames true)
    /\ KeepAlive.serve_loop (KeepAlive.ka_new (map Frame client_frames))
    = Ok (mkDriver KeepAlive.StDone [] server_frames true)
    /\ length server_frames = 2%nat.
Proof.
  apply (keep_alive_end_to_end [7; 65535]). repeat constructor; vm_compute; congruence.
Defined.

(** The cookie check of the KeepAlive client compares truncated cookies: a
    response that carries any value congruent to the sent cookie modulo 2^16
    is accepted as its echo. *)
Theorem keep_alive_accepts_truncated_cookie (c v : Z) (rest : list recv_event)
    (out : list (list Z)) (Hc : u16 c) (Hv : u64 v) (Hmod : v mod 65536 = c) :
  KeepAlive.keep_alive
    (mkDriver KeepAlive.StClient
       (Frame (Encoder_array 2 ++ Encoder_unsigned 1 ++ Encoder_unsigned v) :: rest) out true) c
  = Ok (mkDriver KeepAlive.StClient rest
          (out ++ [KeepAlive.ka_to_cbor (KeepAlive.MsgKeepAlive c)]) true).
Proof.
  assert (KeepAlive.ka_from_cbor (Encoder_array 2 ++ Encoder_unsigned 1 ++ Encoder_unsigned v)
          = Ok (KeepAlive.MsgKeepAliveResponse c)) as Hd.
  { apply from_cbor_bytes_decodes.
    - unfold KeepAlive.ka_decode. do 2 codec_step. cbv iota.
      eapply decodes_bind_ret; [|apply decodes_ret].
      eapply decodes_bind_ret; [by apply decodes_unsigned|].
      unfold wrap16. change (2 ^ 16) with 65536. rewrite Hmod. apply decodes_ret.
    - apply (KeepAlive.ka_fits (KeepAlive.MsgKeepAliveResponse v)). }
  unfold KeepAlive.keep_alive, send_msg, recv_msg.
  cbn -[KeepAlive.ka_to_cbor KeepAlive.ka_from_cbor Encoder_array Encoder_unsigned].
  rewrite Hd. cbn -[KeepAlive.ka_to_cbor]. by rewrite Z.eqb_refl.
Qed.

Lemma keep_alive_accepts_truncated_cookie_witness :
  KeepAlive.keep_alive
    (mkDriver KeepAlive.StClient
       [Frame (Encoder_array 2 ++ Encoder_unsigned 1 ++ Encoder_unsigned 131079)] [] true) 7
  = Ok (mkDriver KeepAlive.StClient []
          ([] ++ [KeepAlive.ka_to_cbor (KeepAlive.MsgKeepAlive 7)]) true).
Proof.
  apply keep_alive_accepts_truncated_cookie; vm_compute; try split; congruence.
Defined.
