(* ===== verification/NodeToClient.v ===== *)
(** * Node-to-client mini-protocols

    Models of [local_tx_submission.rs] and [local_tx_monitor.rs] of
    [crates/network/src/protocols]. Their [from_cbor] looks neither at the
    outer array length nor at trailing bytes. *)

From stdpp Require Import pretty.
From S2P Require Import Prelude Cbor CborFacts CborSkip Types AddressFacts TypesCodec MiniProtocol.
Local Open Scope string_scope.
Local Open Scope Z_scope.
Local Open Scope list_scope.

(** [format!("{prefix}{tag}")] for a [u64]. *)
Definition unknown_tag (prefix : string) (tag : Z) : LedgerError :=
  CborDecodeError (String.append prefix (pretty (Z.to_N tag))).

(** ** LocalTxSubmission *)

Module LocalTxSubmission.

Inductive LocalTxSubmissionState := StIdle | StBusy | StDone.

Inductive LocalTxSubmissionMessage :=
  | MsgSubmitTx (tx : list Z)
  | MsgAcceptTx
  | MsgRejectTx (reason : list Z)
  | MsgDone.

Definition lts_msg_tag (m : LocalTxSubmissionMessage) : string :=
  match m with
  | MsgSubmitTx _ => "MsgSubmitTx"
  | MsgAcceptTx => "MsgAcceptTx"
  | MsgRejectTx _ => "MsgRejectTx"
  | MsgDone => "MsgDone"
  end.

Definition lts_transition (self : LocalTxSubmissionState) (msg : LocalTxSubmissionMessage)
    : outcome (TransitionError LocalTxSubmissionState) LocalTxSubmissionState :=
  match self, msg with
  | StIdle, MsgSubmitTx _ => Ok StBusy
  | StIdle, MsgDone => Ok StDone
  | StBusy, MsgAcceptTx => Ok StIdle
  | StBusy, MsgRejectTx _ => Ok StIdle
  | from, msg => Err (mkTransitionError from (lts_msg_tag msg))
  end.

Definition lts_to_cbor (m : LocalTxSubmissionMessage) : list Z :=
  match m with
  | MsgSubmitTx tx => Encoder_array 2 ++ Encoder_unsigned 0 ++ Encoder_bytes tx
  | MsgAcceptTx => Encoder_array 1 ++ Encoder_unsigned 1
  | MsgRejectTx reason => Encoder_array 2 ++ Encoder_unsigned 2 ++ Encoder_bytes reason
  | MsgDone => Encoder_array 1 ++ Encoder_unsigned 3
  end.

Definition lts_decode : Dec LocalTxSubmissionMessage :=
  _len <- Decoder_array ;;
  tag <- Decoder_unsigned ;;
  match tag with
  | 0 => tx <- Decoder_bytes ;; dret (MsgSubmitTx tx)
  | 1 => dret MsgAcceptTx
  | 2 => reason <- Decoder_bytes ;; dret (MsgRejectTx reason)
  | 3 => dret MsgDone
  | tag => derr (unknown_tag "unknown LocalTxSubmission message tag: " tag)
  end.

Definition lts_from_cbor (bs : list Z) : outcome LedgerError LocalTxSubmissionMessage :=
  from_cbor_lax lts_decode bs.

Definition lts_agency (s : LocalTxSubmissionState) : Agency :=
  match s with StIdle => ClientAgency | StBusy => ServerAgency | StDone => NobodyAgency end.
Definition lts_sender (m : LocalTxSubmissionMessage) : Agency :=
  match m with
  | MsgSubmitTx _ | MsgDone => ClientAgency
  | MsgAcceptTx | MsgRejectTx _ => ServerAgency
  end.

#[global] Instance lts_proto : MiniProtocol LocalTxSubmissionState LocalTxSubmissionMessage := {|
  agency := lts_agency; sender := lts_sender; tag_name := lts_msg_tag;
  transition := lts_transition; to_cbor := lts_to_cbor; from_cbor := lts_from_cbor;
  msg_ok := fun _ => True |}.

Lemma decodes_lts m : decodes lts_decode (lts_to_cbor m) m.
Proof. unfold lts_decode, lts_to_cbor. destruct m; codec. Qed.

#[global] Instance lts_laws : MiniProtocolLaws LocalTxSubmissionState LocalTxSubmissionMessage.
Proof.
  split.
  - by intros [] [] ? [=].
  - intros [] []; simpl; eauto.
  - intros []; simpl; try done; intros _.
    + by exists MsgDone, StDone.
    + by exists MsgAcceptTx, StIdle.
  - by intros [].
  - intros m _ Hlen. by apply from_cbor_lax_decodes, Hlen; apply decodes_lts.
Qed.

(** Verdicts of a conversation. *)
Definition is_submit (m : LocalTxSubmissionMessage) : bool :=
  match m with MsgSubmitTx _ => true | _ => false end.
Definition is_verdict (m : LocalTxSubmissionMessage) : bool :=
  match m with MsgAcceptTx | MsgRejectTx _ => true | _ => false end.
Definition verdict_pending (s : LocalTxSubmissionState) : nat :=
  match s with StBusy => 1 | _ => 0 end.

Lemma lts_run_balance ms : forall s s',
  run s ms = Ok s' ->
  (verdict_pending s + length (List.filter is_submit ms)
   = length (List.filter is_verdict ms) + verdict_pending s')%nat.
Proof.
  induction ms as [|m ms IH]; intros s s' Hr; cbn [run] in Hr.
  - injection Hr as <-. simpl. lia.
  - apply obind_Ok_inv in Hr as (s1 & Hm & Hr). apply IH in Hr.
    destruct s, m; simpl in Hm; try discriminate Hm; injection Hm as <-; simpl in *; lia.
Qed.

End LocalTxSubmission.

(** ** LocalTxMonitor *)

Module LocalTxMonitor.

Inductive LocalTxMonitorState := StIdle | StAcquiring | StAcquired | StDone.

Inductive LocalTxMonitorMessage :=
  | MsgAcquire
  | MsgAcquired (slot_no : Z)
  | MsgNextTx
  | MsgReplyNextTx (tx : option (list Z))
  | MsgHasTx (tx_id : list Z)
  | MsgReplyHasTx (has_tx : bool)
  | MsgGetSizes
  | MsgReplyGetSizes (capacity_in_bytes size_in_bytes num_txs : Z)
  | MsgRelease
  | MsgDone.

Definition ltm_tag_name (m : LocalTxMonitorMessage) : string :=
  match m with
  | MsgAcquire => "MsgAcquire"
  | MsgAcquired _ => "MsgAcquired"
  | MsgNextTx => "MsgNextTx"
  | MsgReplyNextTx _ => "MsgReplyNextTx"
  | MsgHasTx _ => "MsgHasTx"
  | MsgReplyHasTx _ => "MsgReplyHasTx"
  | MsgGetSizes => "MsgGetSizes"
  | MsgReplyGetSizes _ _ _ => "MsgReplyGetSizes"
  | MsgRelease => "MsgRelease"
  | MsgDone => "MsgDone"
  end.

Definition ltm_transition (self : LocalTxMonitorState) (msg : LocalTxMonitorMessage)
    : outcome (TransitionError LocalTxMonitorState) LocalTxMonitorState :=
  match self, msg with
  | StIdle, MsgAcquire => Ok StAcquiring
  | StIdle, MsgDone => Ok StDone
  | StAcquiring, MsgAcquired _ => Ok StAcquired
  | StAcquired, MsgNextTx => Ok StAcquired
  | StAcquired, MsgReplyNextTx _ => Ok StAcquired
  | StAcquired, MsgHasTx _ => Ok StAcquired
  | StAcquired, MsgReplyHasTx _ => Ok StAcquired
  | StAcquired, MsgGetSizes => Ok StAcquired
  | StAcquired, MsgReplyGetSizes _ _ _ => Ok StAcquired
  | StAcquired, MsgRelease => Ok StIdle
  | StAcquired, MsgAcquire => Ok StAcquiring
  | from, msg => Err (mkTransitionError from (ltm_tag_name msg))
  end.

Definition ltm_to_cbor (m : LocalTxMonitorMessage) : list Z :=
  match m with
  | MsgAcquire => Encoder_array 1 ++ Encoder_unsigned 1
  | MsgAcquired slot_no => Encoder_array 2 ++ Encoder_unsigned 2 ++ Encoder_unsigned slot_no
  | MsgNextTx => Encoder_array 1 ++ Encoder_unsigned 5
  | MsgReplyNextTx (Some tx_bytes) =>
      Encoder_array 2 ++ Encoder_unsigned 6 ++ Encoder_bytes tx_bytes
  | MsgReplyNextTx None => Encoder_array 1 ++ Encoder_unsigned 6
  | MsgHasTx tx_id =>
      Encoder_array 2 ++ Encoder_unsigned 7
      ++ Encoder_array 2 ++ Encoder_unsigned 1 ++ Encoder_bytes tx_id
  | MsgReplyHasTx has_tx => Encoder_array 2 ++ Encoder_unsigned 8 ++ Encoder_bool has_tx
  | MsgGetSizes => Encoder_array 1 ++ Encoder_unsigned 9
  | MsgReplyGetSizes capacity_in_bytes size_in_bytes num_txs =>
      Encoder_array 2 ++ Encoder_unsigned 10
      ++ Encoder_array 3 ++ Encoder_unsigned capacity_in_bytes
      ++ Encoder_unsigned size_in_bytes ++ Encoder_unsigned num_txs
  | MsgRelease => Encoder_array 1 ++ Encoder_unsigned 3
  | MsgDone => Encoder_array 1 ++ Encoder_unsigned 0
  end.

Definition ltm_decode : Dec LocalTxMonitorMessage :=
  len <- Decoder_array ;;
  tag <- Decoder_unsigned ;;
  match tag with
  | 0 => dret MsgDone
  | 1 => dret MsgAcquire
  | 2 => slot_no <- Decoder_unsigned ;; dret (MsgAcquired slot_no)
  | 3 => dret MsgRelease
  | 5 => dret MsgNextTx
  | 6 =>
      if 1 <? len
      then tx_bytes <- Decoder_bytes ;; dret (MsgReplyNextTx (Some tx_bytes))
      else dret (MsgReplyNextTx None)
  | 7 =>
      _inner_len <- Decoder_array ;;
      _era_idx <- Decoder_unsigned ;;
      tx_id <- Decoder_bytes ;;
      dret (MsgHasTx tx_id)
  | 8 => has_tx <- Decoder_bool ;; dret (MsgReplyHasTx has_tx)
  | 9 => dret MsgGetSizes
  | 10 =>
      _inner_len <- Decoder_array ;;
      capacity_in_bytes <- decode_u32 ;;
      size_in_bytes <- decode_u32 ;;
      num_txs <- decode_u32 ;;
      dret (MsgReplyGetSizes capacity_in_bytes size_in_bytes num_txs)
  | tag => derr (unknown_tag "unknown LocalTxMonitor message tag: " tag)
  end.

Definition ltm_from_cbor (bs : list Z) : outcome LedgerError LocalTxMonitorMessage :=
  from_cbor_lax ltm_decode bs.

Definition ltm_sender (m : LocalTxMonitorMessage) : Agency :=
  match m with
  | MsgAcquired _ | MsgReplyNextTx _ | MsgReplyHasTx _ | MsgReplyGetSizes _ _ _ => ServerAgency
  | _ => ClientAgency
  end.
Definition ltm_msg_ok (m : LocalTxMonitorMessage) : Prop :=
  match m with
  | MsgAcquired slot => u64 slot
  | MsgReplyGetSizes c s n => u32 c /\ u32 s /\ u32 n
  | _ => True
  end.

Lemma decodes_ltm m : ltm_msg_ok m -> decodes ltm_decode (ltm_to_cbor m) m.
Proof.
  unfold ltm_decode, ltm_to_cbor.
  destruct m as [| | |[]| | | | | |]; cbn [ltm_msg_ok]; intros Hm; destruct_and?;
    try solve [codec].
  - do 2 codec_step. change (1 <? 2) with true. codec.
  - do 2 codec_step. change (1 <? 1) with false. codec.
Qed.

End LocalTxMonitor.

(** ** Properties *)

(** Every local submission is answered exactly once: verdicts trail
    submissions by one exactly while the node is busy with a transaction. *)
Theorem local_tx_submission_verdicts
    (ms : list LocalTxSubmission.LocalTxSubmissionMessage)
    (s : LocalTxSubmission.LocalTxSubmissionState)
    (Hr : run LocalTxSubmission.StIdle ms = Ok s) :
  (length (List.filter LocalTxSubmission.is_submit ms)
   = length (List.filter LocalTxSubmission.is_verdict ms)
     + LocalTxSubmission.verdict_pending s)%nat.
Proof. exact (LocalTxSubmission.lts_run_balance ms LocalTxSubmission.StIdle s Hr). Qed.

Lemma local_tx_submission_verdicts_witness :
  length (List.filter LocalTxSubmission.is_submit
    [LocalTxSubmission.MsgSubmitTx [1]; LocalTxSubmission.MsgRejectTx [2];
     LocalTxSubmission.MsgSubmitTx [3]]) = 2%nat.
Proof.
  apply (local_tx_submission_verdicts
    [LocalTxSubmission.MsgSubmitTx [1]; LocalTxSubmission.MsgRejectTx [2];
     LocalTxSubmission.MsgSubmitTx [3]] LocalTxSubmission.StBusy).
  reflexivity.
Defined.

(** Every message of the two local protocols is decoded from its own
    encoding. *)
Theorem node_to_client_codecs_round_trip :
  (forall m, zlength (LocalTxSubmission.lts_to_cbor m) <= ISIZE_MAX ->
     LocalTxSubmission.lts_from_cbor (LocalTxSubmission.lts_to_cbor m) = Ok m)
  /\ (forall m, LocalTxMonitor.ltm_msg_ok m ->
     zlength (LocalTxMonitor.ltm_to_cbor m) <= ISIZE_MAX ->
     LocalTxMonitor.ltm_from_cbor (LocalTxMonitor.ltm_to_cbor m) = Ok m).
Proof.
  split; intros m.
  - intros Hl. apply from_cbor_lax_decodes, Hl. apply LocalTxSubmission.decodes_lts.
  - intros Hm Hl. apply from_cbor_lax_decodes, Hl. by apply LocalTxMonitor.decodes_ltm.
Qed.

Lemma node_to_client_codecs_round_trip_witness :
  LocalTxMonitor.ltm_from_cbor (LocalTxMonitor.ltm_to_cbor
    (LocalTxMonitor.MsgReplyGetSizes 1048576 524288 42))
  = Ok (LocalTxMonitor.MsgReplyGetSizes 1048576 524288 42).
Proof.
  apply node_to_client_codecs_round_trip; vm_compute; repeat split; congruence.
Defined.

(** The LocalTxMonitor state machine does not enforce agency: whoever is
    given agency in each state, some legal transition is made by the other
    party (in [StAcquired] both the client's queries and the server's replies
    are accepted). *)
Theorem local_tx_monitor_has_no_agency
    (agency_of : LocalTxMonitor.LocalTxMonitorState -> Agency) :
  exists s m s', LocalTxMonitor.ltm_transition s m = Ok s'
    /\ LocalTxMonitor.ltm_sender m <> agency_of s.
Proof.
  destruct (agency_of LocalTxMonitor.StAcquired) eqn:E.
  - exists LocalTxMonitor.StAcquired, (LocalTxMonitor.MsgReplyHasTx true), LocalTxMonitor.StAcquired.
    by rewrite E.
  - exists LocalTxMonitor.StAcquired, LocalTxMonitor.MsgNextTx, LocalTxMonitor.StAcquired.
    by rewrite E.
  - exists LocalTxMonitor.StAcquired, LocalTxMonitor.MsgNextTx, LocalTxMonitor.StAcquired.
    by rewrite E.
Qed.
