(* ===== verification/ChainState.v ===== *)
(** * The volatile chain window

    Model of [crates/consensus/src/chain_state.rs] and of its client
    [track_chain_state_entries] in [crates/node/sync/src/lib.rs]: the sliding
    window of recent chain entries, roll forward, roll backward bounded by the
    security parameter, and promotion of stable entries. *)

From S2P Require Import Prelude Types.
Local Open Scope Z_scope.

(** ** State and errors *)

Inductive ConsensusError :=
  | RollbackTooDeep (requested max : Z)
  | RollbackPointNotFound (slot : Z) (hash : HeaderHash)
  | NonContiguousBlock (expected got : Z)
  | SlotNotIncreasing (tip_slot block_slot : Z)
  | PrevHashMismatch (expected got : HeaderHash).

Record ChainEntry := mkEntry {
  ce_hash : HeaderHash;
  ce_slot : SlotNo;
  ce_block_no : BlockNo;
  ce_prev_hash : option HeaderHash }.

Record ChainState := mkChainState {
  cs_k : Z;
  cs_entries : list ChainEntry }.

#[export] Instance ChainEntry_eq_dec : EqDecision ChainEntry.
Proof. solve_decision. Defined.

(** ** Operations *)

Definition ChainState_new (k : Z) : ChainState := mkChainState k [].

Definition seed_from_entries (cs : ChainState) (entries : list ChainEntry) : ChainState :=
  let len := zlength entries in
  if cs_k cs <? len
  then mkChainState (cs_k cs) (drop (Z.to_nat (len - cs_k cs)) entries)
  else mkChainState (cs_k cs) entries.

Definition entry_point (e : ChainEntry) : Point := BlockPoint (ce_slot e) (ce_hash e).

Definition cs_tip (cs : ChainState) : Point :=
  match last (cs_entries cs) with
  | Some entry => BlockPoint (ce_slot entry) (ce_hash entry)
  | None => Origin
  end.

Definition tip_block_no (cs : ChainState) : option BlockNo :=
  ce_block_no <$> last (cs_entries cs).

Definition volatile_len (cs : ChainState) : Z := zlength (cs_entries cs).
Definition cs_is_empty (cs : ChainState) : bool :=
  match cs_entries cs with [] => true | _ => false end.

Definition roll_forward (cs : ChainState) (entry : ChainEntry) : outcome ConsensusError ChainState :=
  let push := Ok (mkChainState (cs_k cs) (cs_entries cs ++ [entry])) in
  match last (cs_entries cs) with
  | None => push
  | Some lst =>
      if negb (ce_block_no entry =? wrap64 (ce_block_no lst + 1))
      then Err (NonContiguousBlock (wrap64 (ce_block_no lst + 1)) (ce_block_no entry))
      else if ce_slot entry <? ce_slot lst
      then Err (SlotNotIncreasing (ce_slot lst) (ce_slot entry))
      else
        match ce_prev_hash entry with
        | Some prev =>
            if bool_decide (prev <> ce_hash lst)
            then Err (PrevHashMismatch (ce_hash lst) prev) else push
        | None => push
        end
  end.

(** [Iterator::rposition]: the last index whose element satisfies [f]. *)
Fixpoint rposition {A} (f : A -> bool) (l : list A) : option nat :=
  match l with
  | [] => None
  | x :: l =>
      match rposition f l with
      | Some i => Some (S i)
      | None => if f x then Some O else None
      end
  end.

Definition roll_backward (cs : ChainState) (target : Point) : outcome ConsensusError ChainState :=
  match target with
  | Origin =>
      let depth := zlength (cs_entries cs) in
      if cs_k cs <? depth then Err (RollbackTooDeep depth (cs_k cs))
      else Ok (mkChainState (cs_k cs) [])
  | BlockPoint slot hash =>
      match rposition (fun e => bool_decide (ce_slot e = slot /\ ce_hash e = hash))
              (cs_entries cs) with
      | Some idx =>
          let depth := zlength (cs_entries cs) - 1 - Z.of_nat idx in
          if cs_k cs <? depth then Err (RollbackTooDeep depth (cs_k cs))
          else Ok (mkChainState (cs_k cs) (take (idx + 1) (cs_entries cs)))
      | None => Err (RollbackPointNotFound slot hash)
      end
  end.

Definition stable_count (cs : ChainState) : Z := sat_sub (zlength (cs_entries cs)) (cs_k cs).

Definition drain_stable (cs : ChainState) : list ChainEntry * ChainState :=
  let n := stable_count cs in
  if n =? 0 then ([], cs)
  else (take (Z.to_nat n) (cs_entries cs),
        mkChainState (cs_k cs) (drop (Z.to_nat n) (cs_entries cs))).

(** ** The client: one ChainSync step *)

(** [MultiEraSyncStep], with each block already turned into the chain entry
    that [multi_era_block_to_chain_entry_with_raw] yields, or skipped. *)
Inductive SyncStep :=
  | RollForward (entries : list (option ChainEntry))
  | RollBackward (point : Point).

Fixpoint roll_forward_all (cs : ChainState) (entries : list (option ChainEntry))
    : outcome ConsensusError ChainState :=
  match entries with
  | [] => Ok cs
  | Some e :: es => let? cs := roll_forward cs e in roll_forward_all cs es
  | None :: es => roll_forward_all cs es
  end.

Definition track_chain_state_entries (cs : ChainState) (step : SyncStep)
    : outcome ConsensusError (list ChainEntry * ChainState) :=
  let? cs :=
    match step with
    | RollForward entries => roll_forward_all cs entries
    | RollBackward point => roll_backward cs point
    end in
  Ok (drain_stable cs).

(** A whole synchronisation: the stable entries so far, oldest first, and the
    volatile window. *)
Fixpoint track_all (stable : list ChainEntry) (cs : ChainState) (steps : list SyncStep)
    : outcome ConsensusError (list ChainEntry * ChainState) :=
  match steps with
  | [] => Ok (stable, cs)
  | s :: steps =>
      let? (drained, cs) := track_chain_state_entries cs s in
      track_all (stable ++ drained) cs steps
  end.

(** ** The chain invariant *)

(** [b] may follow [a]: the CHAINHEAD checks of [roll_forward]. *)
Definition follows (a b : ChainEntry) : Prop :=
  ce_block_no b = wrap64 (ce_block_no a + 1)
  /\ ce_slot a <= ce_slot b
  /\ (ce_prev_hash b = None \/ ce_prev_hash b = Some (ce_hash a)).

Fixpoint linked (l : list ChainEntry) : Prop :=
  match l with
  | a :: ((b :: _) as l') => follows a b /\ linked l'
  | _ => True
  end.

Lemma linked_cons a l :
  linked (a :: l) <-> (forall b, head l = Some b -> follows a b) /\ linked l.
Proof.
  destruct l as [|b l]; simpl; [naive_solver|].
  split; [intros [? ?]; split; [congruence|done] | intros [H ?]; auto].
Qed.

Lemma linked_app l k :
  linked (l ++ k) <->
  linked l /\ linked k /\ forall a b, last l = Some a -> head k = Some b -> follows a b.
Proof.
  induction l as [|x l IH]; [simpl; naive_solver|].
  change ((x :: l) ++ k) with (x :: (l ++ k)). rewrite !linked_cons, IH.
  destruct l as [|y l].
  - simpl. naive_solver.
  - rewrite last_cons_cons. simpl. naive_solver.
Qed.

Lemma roll_forward_Ok cs e cs' :
  roll_forward cs e = Ok cs' ->
  cs' = mkChainState (cs_k cs) (cs_entries cs ++ [e])
  /\ forall a, last (cs_entries cs) = Some a -> follows a e.
Proof.
  unfold roll_forward. destruct (last (cs_entries cs)) as [a|].
  - destruct (negb _) eqn:E1; [done|]. destruct (_ <? _) eqn:E2; [done|].
    rewrite negb_false_iff in E1. zbool. intros H.
    assert (cs' = mkChainState (cs_k cs) (cs_entries cs ++ [e])
            /\ (ce_prev_hash e = None \/ ce_prev_hash e = Some (ce_hash a))) as [-> Hp].
    { destruct (ce_prev_hash e); [|naive_solver].
      case_bool_decide as Hb; [done|]. subst. naive_solver. }
    split; [done|]. intros ? [= <-]. done.
  - intros [= <-]. done.
Qed.

Lemma rposition_Some {A} (f : A -> bool) l i :
  rposition f l = Some i ->
  exists x, l !! i = Some x /\ f x = true
    /\ forall j y, l !! j = Some y -> (i < j)%nat -> f y = false.
Proof.
  revert i. induction l as [|x l IH]; intros i Hi; simpl in Hi; [done|].
  destruct (rposition f l) as [i'|] eqn:E.
  - injection Hi as <-. destruct (IH i' eq_refl) as (z & ? & ? & Hlater).
    exists z. split_and!; [done..|]. intros [|j] y Hy Hlt; [lia|]. apply (Hlater j); [done|lia].
  - destruct (f x) eqn:Ef; [|done]. injection Hi as <-. exists x. split_and!; [done..|].
    intros [|j] y Hy Hlt; [lia|]. simpl in Hy. clear IH.
    revert j Hy Hlt. induction l as [|z l IHl]; intros j Hy Hlt; [done|].
    simpl in E. destruct (rposition f l) eqn:E'; [done|]. destruct (f z) eqn:Ez; [done|].
    destruct j as [|j]; simpl in Hy; [by simplify_eq|]. apply (IHl eq_refl j); [done|lia].
Qed.

Lemma rposition_None {A} (f : A -> bool) l x :
  rposition f l = None -> x ∈ l -> f x = false.
Proof.
  induction l as [|y l IH]; simpl; [set_solver|].
  destruct (rposition f l); [done|]. destruct (f y) eqn:E; [done|].
  intros _ Hx. apply elem_of_cons in Hx as [->|]; auto.
Qed.

Lemma roll_backward_prefix cs p cs' :
  roll_backward cs p = Ok cs' ->
  cs_k cs' = cs_k cs /\ exists dropped, cs_entries cs = cs_entries cs' ++ dropped
    /\ zlength dropped <= cs_k cs.
Proof.
  unfold roll_backward. destruct p as [|slot hash].
  - destruct (_ <? _) eqn:E; [done|]. intros [= <-]. zbool. simpl. eauto.
  - destruct (rposition _ _) as [i|] eqn:Ei; [|done].
    destruct (_ <? _) eqn:E; [done|]. intros [= <-]. zbool. simpl. split; [done|].
    exists (drop (i + 1) (cs_entries cs)). split; [by rewrite take_drop|].
    apply rposition_Some in Ei as (x & Hi & _). apply lookup_lt_Some in Hi.
    unfold zlength in *. rewrite length_drop. lia.
Qed.

Lemma drain_stable_split cs stable cs' :
  drain_stable cs = (stable, cs') ->
  cs_k cs' = cs_k cs /\ cs_entries cs = stable ++ cs_entries cs'.
Proof.
  unfold drain_stable. destruct (_ =? 0); intros [= <- <-]; simpl; [done|].
  by rewrite take_drop.
Qed.

Lemma drain_stable_bound cs stable cs' :
  0 <= cs_k cs -> drain_stable cs = (stable, cs') ->
  zlength (cs_entries cs') <= cs_k cs
  /\ (cs_entries cs <> [] -> 0 < cs_k cs -> cs_entries cs' <> []).
Proof.
  unfold drain_stable, stable_count, sat_sub. intros Hk.
  destruct (_ =? 0) eqn:E; zbool; intros [= <- <-]; cbn [cs_entries].
  - split; [lia|done].
  - unfold zlength in *. rewrite length_drop. split; [lia|]. intros Hne Hk' Hd.
    apply (f_equal length) in Hd. rewrite length_drop in Hd.
    destruct (cs_entries cs); [done|]. simpl in *. lia.
Qed.

Lemma drain_stable_small cs :
  zlength (cs_entries cs) <= cs_k cs -> drain_stable cs = ([], cs).
Proof.
  intros H. unfold drain_stable, stable_count, sat_sub.
  by replace (Z.max _ 0) with 0 by lia.
Qed.

Lemma roll_forward_all_Ok es : forall cs cs',
  roll_forward_all cs es = Ok cs' ->
  cs_k cs' = cs_k cs /\ exists added, cs_entries cs' = cs_entries cs ++ added
    /\ (linked (cs_entries cs) -> linked (cs_entries cs')).
Proof.
  induction es as [|[e|] es IH]; intros cs cs' H; simpl in H.
  - injection H as <-. split; [done|]. exists []. by rewrite app_nil_r.
  - apply obind_Ok_inv in H as (cs1 & Hf & H). apply roll_forward_Ok in Hf as [-> Hfol].
    apply IH in H as (Hk & added & He & Hl). simpl in *. split; [done|].
    exists (e :: added). rewrite He, <- (assoc_L (++)). split; [done|].
    intros Hlk. rewrite <- (assoc_L (++)) in He. rewrite <- He. apply Hl.
    apply linked_app. split_and!; [done|done|]. intros a b Ha [= <-]. auto.
  - apply IH in H. done.
Qed.

(** The stable entries and the window form one chain, and the window is only
    empty before anything became stable. *)
Definition sync_inv (stable : list ChainEntry) (cs : ChainState) : Prop :=
  linked (stable ++ cs_entries cs) /\ (stable = [] \/ cs_entries cs <> []).

Definition is_origin_rollback (s : SyncStep) : bool :=
  match s with RollBackward Origin => true | _ => false end.

Lemma sync_inv_extend stable es added k k' :
  sync_inv stable (mkChainState k es) -> linked (es ++ added) ->
  sync_inv stable (mkChainState k' (es ++ added)).
Proof.
  unfold sync_inv. simpl. intros [Hl Hne] Ha. rewrite !linked_app in *.
  destruct Hl as (? & ? & Hb). split.
  - split_and!; try done; try (apply Ha). intros a b Hla Hh.
    destruct es as [|e es]; [destruct Hne as [->|]; done|]. apply Hb; done.
  - destruct Hne; [by left|right]. destruct es; done.
Qed.

Lemma sync_inv_prefix stable es es' k k' :
  sync_inv stable (mkChainState k (es ++ es')) -> es <> [] ->
  sync_inv stable (mkChainState k' es).
Proof.
  unfold sync_inv. simpl. intros [Hl _] Hne. split; [|by right].
  rewrite (assoc_L (++)) in Hl. by apply linked_app in Hl as [? _].
Qed.

Lemma roll_backward_nonempty cs slot hash cs' :
  roll_backward cs (BlockPoint slot hash) = Ok cs' -> cs_entries cs' <> [].
Proof.
  unfold roll_backward. destruct (rposition _ _) as [i|] eqn:Ei; [|done].
  destruct (_ <? _); [done|]. intros [= <-]. simpl.
  apply rposition_Some in Ei as (x & Hx & _). destruct (cs_entries cs); [done|].
  by rewrite Nat.add_1_r.
Qed.

Lemma track_step_inv stable cs s drained cs' :
  1 <= cs_k cs -> is_origin_rollback s = false -> sync_inv stable cs ->
  track_chain_state_entries cs s = Ok (drained, cs') ->
  cs_k cs' = cs_k cs /\ sync_inv (stable ++ drained) cs' /\ zlength (cs_entries cs') <= cs_k cs.
Proof.
  intros Hk Hs Hinv H. unfold track_chain_state_entries in H.
  apply obind_Ok_inv in H as (cs1 & H1 & Hd). injection Hd as Hd.
  assert (cs_k cs1 = cs_k cs /\ sync_inv stable cs1) as [Hk1 Hinv1].
  { destruct cs as [k es], s as [entries|[|slot hash]]; [|done|].
    - apply roll_forward_all_Ok in H1 as (Hk1 & added & He & Hl). destruct cs1 as [k1 es1].
      simpl in *. subst. split; [done|]. eapply sync_inv_extend; [done|]. apply Hl.
      destruct Hinv as [Hinv _]. by apply linked_app in Hinv as (_ & ? & _).
    - pose proof (roll_backward_nonempty _ _ _ _ H1).
      apply roll_backward_prefix in H1 as (Hk1 & dropped & He & _). destruct cs1 as [k1 es1].
      simpl in *. subst. split; [done|]. by eapply sync_inv_prefix. }
  pose proof (drain_stable_split _ _ _ Hd) as [Hk2 He].
  pose proof (drain_stable_bound cs1 drained cs' ltac:(lia) Hd) as [Hb Hne].
  split; [congruence|]. split; [|lia]. destruct Hinv1 as [Hl Hor]. rewrite He in Hl, Hor, Hne.
  split; [by rewrite <- (assoc_L (++))|]. destruct Hor as [->|Hor].
  - destruct drained as [|e d]; [by left|]. right. apply Hne; [done|lia].
  - right. apply Hne; [done|lia].
Qed.

Lemma track_all_inv steps : forall stable cs stable' cs',
  1 <= cs_k cs -> Forall (fun s => is_origin_rollback s = false) steps -> sync_inv stable cs ->
  track_all stable cs steps = Ok (stable', cs') ->
  (exists added, stable' = stable ++ added) /\ sync_inv stable' cs'
  /\ (zlength (cs_entries cs) <= cs_k cs -> zlength (cs_entries cs') <= cs_k cs).
Proof.
  induction steps as [|s steps IH]; intros stable cs stable' cs' Hk Hs Hinv H; simpl in H.
  - injection H as <- <-. split; [by exists []; rewrite app_nil_r|]. done.
  - inversion Hs; subst. apply obind_Ok_inv in H as ([drained cs1] & Ht & H).
    eapply track_step_inv in Ht as (Hk1 & Hinv1 & Hb1); [|done..].
    apply IH in H as ((added & ->) & Hinv2 & Hb2); [|lia|done|done].
    rewrite Hk1 in Hb2. split_and!; [|done|auto].
    exists (drained ++ added). by rewrite (assoc_L (++)).
Qed.

Lemma last_take_lookup {A} (l : list A) i x : l !! i = Some x -> last (take (i + 1) l) = Some x.
Proof.
  intros H. rewrite Nat.add_1_r, (take_S_r l i x H). apply last_snoc.
Qed.

Definition has_point (slot : Z) (hash : HeaderHash) (e : ChainEntry) : bool :=
  bool_decide (ce_slot e = slot /\ ce_hash e = hash).

Lemma has_point_spec slot hash e :
  has_point slot hash e = true <-> entry_point e = BlockPoint slot hash.
Proof. unfold has_point, entry_point. rewrite bool_decide_eq_true. naive_solver. Qed.

Lemma rposition_absent slot hash l :
  Forall (fun x => entry_point x <> BlockPoint slot hash) l ->
  rposition (fun e => bool_decide (ce_slot e = slot /\ ce_hash e = hash)) l = None.
Proof.
  induction 1 as [|x l Hx Hl IH]; simpl; [done|]. rewrite IH, bool_decide_eq_false_2; [done|].
  intros [<- <-]. by apply Hx.
Qed.

Lemma rposition_app {A} (f : A -> bool) l k :
  Forall (fun x => f x = false) k -> rposition f (l ++ k) = rposition f l.
Proof.
  intros Hk. induction l as [|x l IH]; simpl; [|by rewrite IH].
  induction Hk as [|y k Hy Hk IH]; simpl; [done|]. by rewrite IH, Hy.
Qed.

Lemma rposition_snoc {A} (f : A -> bool) l x :
  f x = true -> rposition f (l ++ [x]) = Some (length l).
Proof. intros Hx. induction l as [|y l IH]; simpl; [by rewrite Hx|by rewrite IH]. Qed.

Lemma roll_forward_all_entries es : forall cs cs',
  roll_forward_all cs (map Some es) = Ok cs' ->
  cs' = mkChainState (cs_k cs) (cs_entries cs ++ es).
Proof.
  induction es as [|e es IH]; intros cs cs' H; simpl in H.
  - injection H as <-. destruct cs. simpl. by rewrite app_nil_r.
  - apply obind_Ok_inv in H as (cs1 & Hf & H). apply roll_forward_Ok in Hf as [-> _].
    apply IH in H as ->. simpl. by rewrite <- (assoc_L (++)).
Qed.

(** ** Properties *)

(** C11: synchronisation never rewrites stable history. Over any sequence of
    ChainSync steps that does not roll back to the origin, the entries
    promoted to immutable storage are only ever extended, the promoted entries
    and the volatile window together stay one linked chain (contiguous block
    numbers, non-decreasing slots, matching previous hashes), and the window
    never grows beyond the security parameter. *)
Theorem sync_preserves_stable_chain (steps : list SyncStep)
    (stable stable' : list ChainEntry) (cs cs' : ChainState)
    (Hk : 1 <= cs_k cs)
    (Hs : Forall (fun s => is_origin_rollback s = false) steps)
    (Hinv : sync_inv stable cs)
    (Hw : volatile_len cs <= cs_k cs)
    (Hrun : track_all stable cs steps = Ok (stable', cs')) :
  (exists added, stable' = stable ++ added)
  /\ linked (stable' ++ cs_entries cs')
  /\ volatile_len cs' <= cs_k cs.
Proof.
  destruct (track_all_inv steps stable cs stable' cs' Hk Hs Hinv Hrun) as (? & [? _] & Hb).
  split_and!; [done|done|by apply Hb].
Qed.

Definition sample_entry (n : Z) : ChainEntry :=
  mkEntry [n] (20 * n) n (if n =? 0 then None else Some [n - 1]).

Lemma sync_preserves_stable_chain_witness :
  linked ([sample_entry 0] ++ [sample_entry 1; sample_entry 2])
  /\ volatile_len (mkChainState 2 [sample_entry 1; sample_entry 2]) <= 2.
Proof.
  refine (proj2 (sync_preserves_stable_chain
    [RollForward [Some (sample_entry 0); None; Some (sample_entry 1)];
     RollBackward (BlockPoint 0 [0]);
     RollForward [Some (sample_entry 1); Some (sample_entry 2)]]
    [] [sample_entry 0] (ChainState_new 2) (mkChainState 2 [sample_entry 1; sample_entry 2])
    _ _ _ _ _)).
  - simpl. lia.
  - repeat constructor.
  - split; [done|by left].
  - vm_compute. congruence.
  - vm_compute. reflexivity.
Defined.

(** What rolling back to a block does, on every branch: on success the
    named block is the new tip and exactly the entries behind its last
    occurrence are gone, at most [k] of them; the rollback is refused as too
    deep exactly with the true depth; and it is refused as not found only when
    no entry of the window is the named block. *)
Theorem roll_backward_block_spec (cs : ChainState) (slot : Z) (hash : HeaderHash) :
  match roll_backward cs (BlockPoint slot hash) with
  | Ok cs' =>
      cs_tip cs' = BlockPoint slot hash
      /\ exists dropped, cs_entries cs = cs_entries cs' ++ dropped
           /\ zlength dropped <= cs_k cs
           /\ Forall (fun e => entry_point e <> BlockPoint slot hash) dropped
  | Err (RollbackTooDeep depth max) =>
      max = cs_k cs /\ max < depth
      /\ exists kept e dropped, cs_entries cs = kept ++ e :: dropped
           /\ entry_point e = BlockPoint slot hash /\ zlength dropped = depth
  | Err (RollbackPointNotFound _ _) =>
      Forall (fun e => entry_point e <> BlockPoint slot hash) (cs_entries cs)
  | _ => False
  end.
Proof.
  unfold roll_backward. fold (has_point slot hash).
  destruct (rposition _ _) as [i|] eqn:Ei.
  - apply rposition_Some in Ei as (x & Hi & Hx & Hlater). apply has_point_spec in Hx.
    pose proof (lookup_lt_Some _ _ _ Hi) as Hlt.
    destruct (_ <? _) eqn:E; zbool.
    + split_and!; [done|lia|]. exists (take i (cs_entries cs)), x, (drop (S i) (cs_entries cs)).
      split_and!; [by rewrite take_drop_middle|done|]. unfold zlength. rewrite length_drop. lia.
    + split.
      { unfold cs_tip. cbn [cs_entries]. rewrite (last_take_lookup _ i x Hi). exact Hx. }
      exists (drop (i + 1) (cs_entries cs)). cbn [cs_entries]. split_and!.
      * by rewrite take_drop.
      * unfold zlength in *. rewrite length_drop. lia.
      * apply Forall_lookup_2. intros j y Hj Hy. rewrite lookup_drop in Hj.
        apply has_point_spec in Hy. rewrite (Hlater _ y Hj) in Hy; [done|lia].
  - apply Forall_forall. intros e He Hp. apply has_point_spec in Hp.
    rewrite (rposition_None _ _ e Ei He) in Hp. done.
Qed.

(** Rolling back to the previous tip undoes rolling forward, for a fork of
    at most [k] new blocks. *)
Theorem roll_back_undoes_roll_forward (cs cs1 : ChainState) (es : list ChainEntry)
    (Hne : cs_entries cs <> [])
    (Hf : roll_forward_all cs (map Some es) = Ok cs1)
    (Hlen : zlength es <= cs_k cs)
    (Hnew : Forall (fun e => entry_point e <> cs_tip cs) es) :
  roll_backward cs1 (cs_tip cs) = Ok cs.
Proof.
  apply roll_forward_all_entries in Hf as ->. destruct cs as [k l]. cbn [cs_k cs_entries] in *.
  destruct l as [|t l _] using rev_ind; [done|]. clear Hne.
  unfold cs_tip in *. cbn [cs_entries] in *. rewrite last_snoc in *.
  unfold roll_backward. cbn [cs_entries cs_k]. fold (has_point (ce_slot t) (ce_hash t)).
  rewrite rposition_app, rposition_snoc.
  - rewrite (proj2 (Z.ltb_ge _ _)).
    + do 2 f_equal. rewrite take_app_le; [|rewrite length_app; simpl; lia].
      apply take_ge. rewrite length_app. simpl. lia.
    + unfold zlength in *. rewrite !length_app. simpl. lia.
  - by apply has_point_spec.
  - eapply Forall_impl; [exact Hnew|]. intros e He. apply not_true_is_false. intros Hp.
    by apply has_point_spec in Hp.
Qed.

Lemma roll_back_undoes_roll_forward_witness :
  roll_backward (mkChainState 2 [sample_entry 0; sample_entry 1; sample_entry 2]) (BlockPoint 0 [0])
  = Ok (mkChainState 2 [sample_entry 0]).
Proof.
  apply (roll_back_undoes_roll_forward (mkChainState 2 [sample_entry 0])
    (mkChainState 2 [sample_entry 0; sample_entry 1; sample_entry 2])
    [sample_entry 1; sample_entry 2]).
  - done.
  - vm_compute. reflexivity.
  - vm_compute. congruence.
  - repeat constructor; vm_compute; congruence.
Defined.

(** A rollback to the origin is not bounded by the security parameter once
    blocks have become stable: after any drain it is accepted however many
    blocks were promoted, it empties the window, and the next block is then
    accepted without any check against the promoted chain. *)
Theorem origin_rollback_ignores_stable_blocks (cs cs' : ChainState) (stable : list ChainEntry)
    (e : ChainEntry) (Hk : 1 <= cs_k cs) (Hd : drain_stable cs = (stable, cs')) :
  track_all stable cs' [RollBackward Origin; RollForward [Some e]]
  = Ok (stable, mkChainState (cs_k cs) [e]).
Proof.
  pose proof (drain_stable_split _ _ _ Hd) as [Hk' _].
  pose proof (drain_stable_bound cs stable cs' ltac:(lia) Hd) as [Hb _].
  cbn [track_all]. unfold track_chain_state_entries. cbn [roll_backward roll_forward_all].
  rewrite Hk', (proj2 (Z.ltb_ge _ _)) by lia. cbn [obind].
  rewrite drain_stable_small
    by (cbn [cs_entries cs_k]; rewrite ?zlength_cons, zlength_nil; lia). cbn [obind roll_forward last cs_entries cs_k app].
  rewrite drain_stable_small
    by (cbn [cs_entries cs_k]; rewrite ?zlength_cons, zlength_nil; lia). cbn [obind]. by rewrite !app_nil_r.
Qed.

(** Blocks 0 and 1 are stable, [k] is 1, and a fork of height 900 at slot 3
    is accepted on top of "the origin". *)
Lemma origin_rollback_ignores_stable_blocks_witness :
  track_all [sample_entry 0; sample_entry 1] (mkChainState 1 [sample_entry 2])
    [RollBackward Origin; RollForward [Some (mkEntry [66] 3 900 (Some [7]))]]
  = Ok ([sample_entry 0; sample_entry 1], mkChainState 1 [mkEntry [66] 3 900 (Some [7])]).
Proof.
  apply (origin_rollback_ignores_stable_blocks
    (mkChainState 1 [sample_entry 0; sample_entry 1; sample_entry 2])
    (mkChainState 1 [sample_entry 2])); [simpl; lia|vm_compute; reflexivity].
Defined.

(** Draining costs one block of rollback. After a drain that promoted
    something the window holds exactly [k] blocks, so a rollback of [k] blocks
    would end at the newest promoted block; that rollback is refused as not
    found, and the deepest one that is accepted undoes [k - 1] blocks. *)
Theorem rollback_of_k_blocks_refused (cs cs' : ChainState) (stable : list ChainEntry)
    (e oldest : ChainEntry) (window : list ChainEntry) (Hk : 1 <= cs_k cs)
    (Hd : drain_stable cs = (stable ++ [e], cs'))
    (Hw : cs_entries cs' = oldest :: window)
    (He : Forall (fun x => entry_point x <> entry_point e) (oldest :: window))
    (Ho : Forall (fun x => entry_point x <> entry_point oldest) window) :
  volatile_len cs' = cs_k cs
  /\ roll_backward cs' (entry_point e) = Err (RollbackPointNotFound (ce_slot e) (ce_hash e))
  /\ zlength window = cs_k cs - 1
  /\ roll_backward cs' (entry_point oldest) = Ok (mkChainState (cs_k cs) [oldest]).
Proof.
  pose proof (drain_stable_split _ _ _ Hd) as [Hk' Hsplit].
  assert (zlength (cs_entries cs') = cs_k cs) as Hlen.
  { unfold drain_stable in Hd. destruct (stable_count cs =? 0) eqn:E; zbool.
    { by destruct stable. }
    injection Hd as _ <-. simpl. unfold stable_count, sat_sub, zlength in *. rewrite length_drop. lia. }
  split; [done|]. unfold roll_backward, entry_point. rewrite Hw, Hk' in *.
  rewrite rposition_absent by exact He. rewrite zlength_cons in *.
  split_and!; [done|lia|]. cbn [rposition]. rewrite rposition_absent by exact Ho.
  rewrite bool_decide_eq_true_2 by done. rewrite (proj2 (Z.ltb_ge _ _)) by lia. done.
Qed.

Lemma rollback_of_k_blocks_refused_witness :
  roll_backward (mkChainState 2 [sample_entry 1; sample_entry 2]) (entry_point (sample_entry 0))
  = Err (RollbackPointNotFound (ce_slot (sample_entry 0)) (ce_hash (sample_entry 0))).
Proof.
  refine (proj1 (proj2 (rollback_of_k_blocks_refused
    (mkChainState 2 [sample_entry 0; sample_entry 1; sample_entry 2])
    (mkChainState 2 [sample_entry 1; sample_entry 2]) [] (sample_entry 0) (sample_entry 1)
    [sample_entry 2] _ _ _ _ _))); [simpl; lia|vm_compute; reflexivity|reflexivity| |];
    repeat constructor; discriminate.
Defined.
