(* ===== verification/Consensus.v ===== *)
(** * Fork choice, epochs and the epoch nonce

    Models of [chain_selection.rs], [epoch.rs], [nonce/derivation.rs] and
    [nonce/evolution.rs] of [crates/consensus/src], and of [Nonce::combine] in
    [crates/ledger/src/types.rs]. Blake2b-256 comes from a third-party crate:
    it is the parameter [blake2b_256] of class [Blake2b256]. *)

From stdpp Require Import pretty.
From S2P Require Import Prelude Cbor CborFacts Types AddressFacts TypesCodec MiniProtocol.
Local Open Scope string_scope.
Local Open Scope Z_scope.
Local Open Scope list_scope.

(** ** Chain selection *)

Module ChainSelection.

Inductive VrfTiebreakerFlavor :=
  | UnrestrictedVrfTiebreaker
  | RestrictedVrfTiebreaker (max_dist : Z).

Record ChainCandidate := mkCandidate {
  cc_block_no : BlockNo;
  cc_slot_no : SlotNo;
  cc_issuer_vkey_hash : option (list Z);
  cc_ocert_issue_no : option Z;
  cc_vrf_tiebreaker : option (list Z) }.

#[global] Instance ChainCandidate_eq_dec : EqDecision ChainCandidate.
Proof. solve_decision. Defined.

(** Step 2a applies: both issue numbers, when the issuer and the slot agree. *)
Definition same_issuer_numbers (left right : ChainCandidate) : option (Z * Z) :=
  match cc_issuer_vkey_hash left, cc_issuer_vkey_hash right with
  | Some l_issuer, Some r_issuer =>
      if bool_decide (l_issuer = r_issuer) && (cc_slot_no left =? cc_slot_no right) then
        match cc_ocert_issue_no left, cc_ocert_issue_no right with
        | Some l_no, Some r_no => Some (l_no, r_no)
        | _, _ => None
        end
      else None
  | _, _ => None
  end.

Definition vrf_armed (left right : ChainCandidate) (flavor : VrfTiebreakerFlavor) : bool :=
  match flavor with
  | UnrestrictedVrfTiebreaker => true
  | RestrictedVrfTiebreaker max_dist => Z.abs (cc_slot_no left - cc_slot_no right) <=? max_dist
  end.

Definition select_preferred (left right : ChainCandidate) (flavor : VrfTiebreakerFlavor)
    : ChainCandidate :=
  match cc_block_no right ?= cc_block_no left with
  | Gt => right
  | Lt => left
  | Eq =>
      match same_issuer_numbers left right with
      | Some (l_no, r_no) =>
          match r_no ?= l_no with Gt => right | Lt => left | Eq => left end
      | None =>
          if vrf_armed left right flavor then
            match cc_vrf_tiebreaker left, cc_vrf_tiebreaker right with
            | Some l_vrf, Some r_vrf =>
                match bytes_compare r_vrf l_vrf with Lt => right | Gt => left | Eq => left end
            | _, _ => left
            end
          else left
      end
  end.

(** [r] displaces the incumbent [l]. *)
Definition displaces (flavor : VrfTiebreakerFlavor) (l r : ChainCandidate) : Prop :=
  select_preferred l r flavor <> l.

(** The winner of a race: each candidate challenges the incumbent in turn. *)
Definition best_of (flavor : VrfTiebreakerFlavor) (first : ChainCandidate)
    (rest : list ChainCandidate) : ChainCandidate :=
  fold_left (fun best c => select_preferred best c flavor) rest first.

(** A candidate of a Praos era: issuer, issue number and VRF output known. *)
Definition complete (c : ChainCandidate) : Prop :=
  is_Some (cc_issuer_vkey_hash c) /\ is_Some (cc_ocert_issue_no c)
  /\ is_Some (cc_vrf_tiebreaker c).

(** The VRF output is a function of the issuer and the slot. *)
Definition vrf_consistent (cs : list ChainCandidate) : Prop :=
  forall a b, a ∈ cs -> b ∈ cs ->
    cc_issuer_vkey_hash a = cc_issuer_vkey_hash b -> cc_slot_no a = cc_slot_no b ->
    cc_vrf_tiebreaker a = cc_vrf_tiebreaker b.

Lemma select_one_of l r f : select_preferred l r f = l \/ select_preferred l r f = r.
Proof. unfold select_preferred. repeat case_match; auto. Qed.

(** The order behind [select_preferred] on complete candidates with the
    unrestricted tiebreaker. *)
Definition better (l r : ChainCandidate) : Prop :=
  cc_block_no l < cc_block_no r
  \/ cc_block_no l = cc_block_no r /\
     (if bool_decide (cc_issuer_vkey_hash l = cc_issuer_vkey_hash r /\ cc_slot_no l = cc_slot_no r)
      then default 0 (cc_ocert_issue_no l) < default 0 (cc_ocert_issue_no r)
      else bytes_compare (default [] (cc_vrf_tiebreaker r)) (default [] (cc_vrf_tiebreaker l)) = Lt).

Lemma displaces_better l r :
  complete l -> complete r ->
  displaces UnrestrictedVrfTiebreaker l r <-> better l r.
Proof.
  intros ((li & Hli) & (ln & Hln) & (lv & Hlv)) ((ri & Hri) & (rn & Hrn) & (rv & Hrv)).
  unfold displaces, better, select_preferred, same_issuer_numbers, vrf_armed.
  rewrite Hli, Hln, Hlv, Hri, Hrn, Hrv. simpl.
  destruct (cc_block_no r ?= cc_block_no l) eqn:Eb;
    rewrite ?Z.compare_eq_iff, ?Z.compare_lt_iff, ?Z.compare_gt_iff in Eb.
  - assert (forall P : Prop, (P <-> cc_block_no l < cc_block_no r \/ cc_block_no l = cc_block_no r /\ P))
      as <- by (split; [auto | intros [?|[? ?]]; [lia|done]]).
    assert (lv = rv -> bytes_compare rv lv <> Lt) as Hrefl
      by (intros ->; by rewrite bytes_compare_refl).
    assert ((match bytes_compare rv lv with Lt => r | _ => l end <> l)
            <-> bytes_compare rv lv = Lt) as Hvrf.
    { destruct (bytes_compare rv lv) eqn:Ev; split; try done. intros _ ->. naive_solver. }
    destruct (decide (li = ri)) as [->|Hi]; [destruct (decide (cc_slot_no l = cc_slot_no r)) as [Hs|Hs]|].
    + rewrite !bool_decide_true by done. rewrite (proj2 (Z.eqb_eq _ _) Hs). simpl.
      destruct (rn ?= ln) eqn:En;
        rewrite ?Z.compare_eq_iff, ?Z.compare_lt_iff, ?Z.compare_gt_iff in En;
        (split; [intros ?; done || lia | intros ?; try lia]).
      intros ->. rewrite Hln in Hrn. simplify_eq. lia.
    + rewrite (bool_decide_true (ri = ri)), (bool_decide_false (_ /\ _)) by naive_solver.
      rewrite (proj2 (Z.eqb_neq _ _) Hs). simpl. exact Hvrf.
    + rewrite (bool_decide_false (li = ri)), (bool_decide_false (_ /\ _)) by naive_solver.
      simpl. exact Hvrf.
  - split; [done | lia].
  - split; [intros _; left; lia|]. intros _ ->. lia.
Qed.

Lemma better_trans a b c :
  vrf_consistent [a; b; c] -> better a b -> better b c -> better a c.
Proof.
  intros Hv Hab Hbc.
  pose proof (Hv a b ltac:(set_solver) ltac:(set_solver)) as Vab.
  pose proof (Hv b c ltac:(set_solver) ltac:(set_solver)) as Vbc.
  pose proof (Hv a c ltac:(set_solver) ltac:(set_solver)) as Vac.
  unfold better in *. destruct Hab as [Hab|[Eab Hab]], Hbc as [Hbc|[Ebc Hbc]]; try (left; lia).
  right. split; [lia|].
  set (Iab := _ /\ _) in Hab. set (Ibc := _ /\ _) in Hbc. set (Iac := _ /\ _).
  destruct (decide Iab) as [Sab|Sab]; destruct (decide Ibc) as [Sbc|Sbc];
    destruct (decide Iac) as [Sac|Sac];
    rewrite ?(bool_decide_true Iab), ?(bool_decide_false Iab) in Hab by done;
    rewrite ?(bool_decide_true Ibc), ?(bool_decide_false Ibc) in Hbc by done;
    rewrite ?(bool_decide_true Iac), ?(bool_decide_false Iac) by done;
    subst Iab Ibc Iac; try lia.
  - destruct Sab, Sbc. destruct Sac. split; congruence.
  - destruct Sab, Sac. destruct Sbc. split; congruence.
  - destruct Sab. rewrite Vab by done. done.
  - destruct Sbc, Sac. destruct Sab. split; congruence.
  - destruct Sbc. rewrite <- Vbc by done. done.
  - destruct Sac. rewrite (Vac ltac:(done) ltac:(done)) in Hab.
    pose proof (bytes_compare_trans _ _ _ Hbc Hab) as Hlt. by rewrite bytes_compare_refl in Hlt.
  - by eapply bytes_compare_trans.
Qed.

(** Nobody displaces the winner of a race. *)
Lemma best_of_max f cs : forall first,
  (forall a b c, a ∈ first :: cs -> b ∈ first :: cs -> c ∈ first :: cs ->
     displaces f a b -> displaces f b c -> displaces f a c) ->
  best_of f first cs ∈ first :: cs
  /\ forall c, c ∈ first :: cs -> ~ displaces f (best_of f first cs) c.
Proof.
  induction cs as [|x cs IH] using rev_ind; intros first Htr.
  - split; [set_solver|]. intros c Hc. apply list_elem_of_singleton in Hc as ->.
    unfold displaces, best_of. simpl. destruct (select_one_of first first f); congruence.
  - destruct (IH first) as [Hin Hmax].
    { intros a b c ? ? ?. apply Htr; set_solver. }
    unfold best_of in *. rewrite fold_left_app. simpl.
    set (best := fold_left _ cs first) in *.
    destruct (decide (select_preferred best x f = best)) as [E|E].
    + rewrite E. split; [set_solver|]. intros c Hc.
      rewrite app_comm_cons, elem_of_app, list_elem_of_singleton in Hc.
      destruct Hc as [Hc| ->]; [by apply Hmax|]. unfold displaces. congruence.
    + assert (select_preferred best x f = x) as -> by (destruct (select_one_of best x f); congruence).
      split; [set_solver|]. intros c Hc Hd.
      rewrite app_comm_cons, elem_of_app, list_elem_of_singleton in Hc.
      destruct Hc as [Hc| ->].
      * apply (Hmax c Hc). apply (Htr best x c); [set_solver..|exact E|exact Hd].
      * destruct (select_one_of x x f); unfold displaces in Hd; congruence.
Qed.

End ChainSelection.

(** ** Epochs *)

Module Epoch.

(** These functions return no [Result]; the only abnormal end is a panic. *)
Definition pure_outcome := outcome Empty_set.

(** [u64] division: a zero divisor panics. *)
Definition div_u64 (a b : Z) : pure_outcome Z := if b =? 0 then Panic else Ok (a / b).

Record EpochSchedule := mkSchedule {
  slots_per_epoch : Z;
  byron_slots_per_epoch : Z;
  byron_shelley_transition : option (Z * Z) }.

Definition fixed (slots_per_epoch : Z) : EpochSchedule := mkSchedule slots_per_epoch 21600 None.
Definition with_byron_prefix (slots_per_epoch byron_slots boundary_slot first_shelley_epoch : Z)
    : EpochSchedule :=
  mkSchedule slots_per_epoch byron_slots (Some (boundary_slot, first_shelley_epoch)).

Definition slot_to_epoch (slot : SlotNo) (epoch_size : Z) : pure_outcome EpochNo :=
  div_u64 slot epoch_size.
Definition epoch_first_slot (epoch : EpochNo) (epoch_size : Z) : SlotNo :=
  wrap64 (epoch * epoch_size).

Definition sched_slot_to_epoch (s : EpochSchedule) (slot : SlotNo) : pure_outcome EpochNo :=
  match byron_shelley_transition s with
  | Some (boundary_slot, first_shelley_epoch) =>
      if boundary_slot <=? slot then
        let? q := div_u64 (slot - boundary_slot) (slots_per_epoch s) in
        Ok (wrap64 (first_shelley_epoch + q))
      else div_u64 slot (byron_slots_per_epoch s)
  | None => slot_to_epoch slot (slots_per_epoch s)
  end.

Definition sched_epoch_first_slot (s : EpochSchedule) (epoch : EpochNo) : SlotNo :=
  match byron_shelley_transition s with
  | Some (boundary_slot, first_shelley_epoch) =>
      if first_shelley_epoch <=? epoch then
        let post_epoch := epoch - first_shelley_epoch in
        wrap64 (boundary_slot + wrap64 (post_epoch * slots_per_epoch s))
      else wrap64 (epoch * byron_slots_per_epoch s)
  | None => epoch_first_slot epoch (slots_per_epoch s)
  end.

Definition sched_is_new_epoch (s : EpochSchedule) (prev_slot : option SlotNo) (slot : SlotNo)
    : pure_outcome bool :=
  let? prev_epoch :=
    match prev_slot with None => Ok 0 | Some ps => sched_slot_to_epoch s ps end in
  let? epoch := sched_slot_to_epoch s slot in
  Ok (negb (prev_epoch =? epoch)).

Definition is_new_epoch (prev_slot : option SlotNo) (slot : SlotNo) (epoch_size : Z)
    : pure_outcome bool :=
  let? prev_epoch :=
    match prev_slot with None => Ok 0 | Some ps => slot_to_epoch ps epoch_size end in
  let? epoch := slot_to_epoch slot epoch_size in
  Ok (negb (prev_epoch =? epoch)).

(** Epoch lengths are positive, and the boundary ends a whole number of Byron
    epochs, as the doc comment of [byron_shelley_transition] says. *)
Definition schedule_ok (s : EpochSchedule) : Prop :=
  1 <= slots_per_epoch s /\ 1 <= byron_slots_per_epoch s
  /\ match byron_shelley_transition s with
     | Some (boundary, first) => 0 <= first /\ boundary = first * byron_slots_per_epoch s
     | None => True
     end.

(** The end of the epoch does not overflow [u64]. *)
Definition fits (s : EpochSchedule) (slot : SlotNo) : Prop :=
  0 <= slot /\ slot + slots_per_epoch s + byron_slots_per_epoch s <= U64_MAX.

(** The epoch of a slot, in unbounded integers. *)
Definition epoch_of (s : EpochSchedule) (slot : SlotNo) : Z :=
  match byron_shelley_transition s with
  | Some (boundary, first) =>
      if boundary <=? slot then first + (slot - boundary) / slots_per_epoch s
      else slot / byron_slots_per_epoch s
  | None => slot / slots_per_epoch s
  end.

Lemma div_bounds a b : 1 <= b -> 0 <= a -> b * (a / b) <= a < b * (a / b + 1) /\ 0 <= a / b <= a.
Proof.
  intros Hb Ha. pose proof (Z.div_mod a b). pose proof (Z.mod_pos_bound a b).
  pose proof (Z.div_pos a b). nia.
Qed.

Lemma sched_epoch_of s slot :
  schedule_ok s -> fits s slot ->
  sched_slot_to_epoch s slot = Ok (epoch_of s slot) /\ 0 <= epoch_of s slot <= slot.
Proof.
  unfold schedule_ok, fits, sched_slot_to_epoch, epoch_of, slot_to_epoch, div_u64.
  intros (H1 & H2 & Ht) (Hs & Hf). destruct (byron_shelley_transition s) as [[b f]|].
  - destruct Ht as [Hf0 ->]. destruct (_ <=? slot) eqn:E; zbool.
    + pose proof (div_bounds (slot - f * byron_slots_per_epoch s) (slots_per_epoch s) H1 ltac:(lia)).
      rewrite (proj2 (Z.eqb_neq _ 0)) by lia. cbn [obind].
      assert (f <= f * byron_slots_per_epoch s) by nia.
      rewrite wrap64_id by (unfold u64; lia). split; [done|lia].
    + pose proof (div_bounds slot (byron_slots_per_epoch s) H2 Hs).
      rewrite (proj2 (Z.eqb_neq _ 0)) by lia. split; [done|lia].
  - pose proof (div_bounds slot (slots_per_epoch s) H1 Hs).
    rewrite (proj2 (Z.eqb_neq _ 0)) by lia. split; [done|lia].
Qed.

(** First slots of the epochs, in unbounded integers. *)
Definition first_of (s : EpochSchedule) (epoch : EpochNo) : Z :=
  match byron_shelley_transition s with
  | Some (boundary, first) =>
      if first <=? epoch then boundary + (epoch - first) * slots_per_epoch s
      else epoch * byron_slots_per_epoch s
  | None => epoch * slots_per_epoch s
  end.

Lemma first_of_wrap s epoch :
  schedule_ok s -> 0 <= epoch -> first_of s epoch <= U64_MAX ->
  sched_epoch_first_slot s epoch = first_of s epoch.
Proof.
  unfold schedule_ok, sched_epoch_first_slot, first_of, epoch_first_slot.
  intros (H1 & H2 & Ht) He Hm. destruct (byron_shelley_transition s) as [[b f]|].
  - destruct Ht as [Hf0 ->]. destruct (f <=? epoch) eqn:E; zbool.
    + rewrite (wrap64_id ((epoch - f) * _)) by (unfold u64; nia).
      apply wrap64_id. unfold u64. nia.
    + apply wrap64_id. unfold u64. nia.
  - apply wrap64_id. unfold u64. nia.
Qed.

Lemma epoch_of_bounds s slot :
  schedule_ok s -> 0 <= slot ->
  first_of s (epoch_of s slot) <= slot < first_of s (epoch_of s slot + 1)
  /\ first_of s (epoch_of s slot + 1) <= slot + slots_per_epoch s + byron_slots_per_epoch s.
Proof.
  unfold schedule_ok, first_of, epoch_of. intros (H1 & H2 & Ht) Hs.
  destruct (byron_shelley_transition s) as [[b f]|].
  - destruct Ht as [Hf0 ->]. destruct (_ <=? slot) eqn:E; zbool.
    + pose proof (div_bounds (slot - f * byron_slots_per_epoch s) (slots_per_epoch s) H1 ltac:(lia)).
      rewrite !(proj2 (Z.leb_le f _)) by lia. nia.
    + pose proof (div_bounds slot (byron_slots_per_epoch s) H2 Hs).
      assert (slot / byron_slots_per_epoch s < f) by nia.
      rewrite (proj2 (Z.leb_gt f (_ / _))) by lia.
      destruct (f <=? _) eqn:E'; zbool; [|nia].
      replace f with (slot / byron_slots_per_epoch s + 1) by lia. nia.
  - pose proof (div_bounds slot (slots_per_epoch s) H1 Hs). nia.
Qed.

End Epoch.

(** ** The epoch nonce *)

Class Blake2b256 := blake2b_256 : list Z -> list Z.
Module NonceEvolution.
Section nonces.
Context {H : Blake2b256}.

Definition Nonce_combine (self other : NonceT) : NonceT :=
  match self, other with
  | Neutral, n => n
  | n, Neutral => n
  | Hash a, Hash b => Hash (blake2b_256 (a ++ b))
  end.

Definition Nonce_from_header_hash (h : HeaderHash) : NonceT := Hash h.

Inductive NonceDerivation := TPraos | Praos.

Definition vrf_output_to_nonce (output : list Z) : NonceT := Hash (blake2b_256 output).

(** [b'N'] is byte 78. *)
Definition praos_vrf_output_to_nonce (output : list Z) : NonceT :=
  let inner_hash := blake2b_256 (78 :: output) in
  Hash (blake2b_256 inner_hash).

Definition derive_vrf_nonce (output : list Z) (derivation : NonceDerivation) : NonceT :=
  match derivation with
  | TPraos => vrf_output_to_nonce output
  | Praos => praos_vrf_output_to_nonce output
  end.

Record NonceEvolutionConfig := mkNonceConfig {
  nc_epoch_size : Z;
  nc_stability_window : Z;
  nc_extra_entropy : NonceT;
  nc_byron_shelley_transition : option (Z * Z) }.

(** The whole Byron prefix is one epoch, labelled 0. *)
Definition nc_slot_to_epoch (c : NonceEvolutionConfig) (slot : SlotNo)
    : Epoch.pure_outcome EpochNo :=
  match nc_byron_shelley_transition c with
  | Some (boundary_slot, first_shelley_epoch) =>
      if boundary_slot <=? slot then
        let? q := Epoch.div_u64 (slot - boundary_slot) (nc_epoch_size c) in
        Ok (wrap64 (first_shelley_epoch + q))
      else Ok 0
  | None => Epoch.slot_to_epoch slot (nc_epoch_size c)
  end.

Definition nc_epoch_first_slot (c : NonceEvolutionConfig) (epoch : EpochNo) : SlotNo :=
  match nc_byron_shelley_transition c with
  | Some (boundary_slot, first_shelley_epoch) =>
      if first_shelley_epoch <=? epoch then
        wrap64 (boundary_slot + wrap64 ((epoch - first_shelley_epoch) * nc_epoch_size c))
      else 0
  | None => Epoch.epoch_first_slot epoch (nc_epoch_size c)
  end.

Record NonceEvolutionState := mkNonceState {
  evolving_nonce : NonceT;
  candidate_nonce : NonceT;
  epoch_nonce : NonceT;
  prev_hash_nonce : NonceT;
  lab_nonce : NonceT;
  current_epoch : EpochNo }.

Definition nonce_state_new (initial_nonce : NonceT) : NonceEvolutionState :=
  mkNonceState initial_nonce initial_nonce initial_nonce Neutral Neutral 0.
Definition nonce_state_from_epoch (epoch : EpochNo) (n : NonceT) : NonceEvolutionState :=
  mkNonceState n n n Neutral Neutral epoch.

Definition tick_epoch_transition (s : NonceEvolutionState) (config : NonceEvolutionConfig)
    : NonceEvolutionState :=
  mkNonceState (evolving_nonce s) (candidate_nonce s)
    (Nonce_combine (Nonce_combine (candidate_nonce s) (prev_hash_nonce s)) (nc_extra_entropy config))
    (lab_nonce s) (lab_nonce s) (current_epoch s).

Definition in_stability_window (config : NonceEvolutionConfig) (slot : SlotNo)
    (block_epoch : EpochNo) : bool :=
  let next_epoch := wrap64 (block_epoch + 1) in
  let first_slot_next := nc_epoch_first_slot config next_epoch in
  first_slot_next <=? wrap64 (slot + nc_stability_window config).

Definition apply_block (s : NonceEvolutionState) (slot : SlotNo) (vrf_nonce_output : list Z)
    (prev_hash : option HeaderHash) (config : NonceEvolutionConfig) (derivation : NonceDerivation)
    : Epoch.pure_outcome NonceEvolutionState :=
  let? block_epoch := nc_slot_to_epoch config slot in
  let s :=
    if current_epoch s <? block_epoch then
      let s := tick_epoch_transition s config in
      mkNonceState (evolving_nonce s) (candidate_nonce s) (epoch_nonce s)
        (prev_hash_nonce s) (lab_nonce s) block_epoch
    else s in
  let eta := derive_vrf_nonce vrf_nonce_output derivation in
  let evolving := Nonce_combine (evolving_nonce s) eta in
  let candidate :=
    if negb (in_stability_window config slot block_epoch) then evolving else candidate_nonce s in
  let lab :=
    match prev_hash with Some h => Nonce_from_header_hash h | None => Neutral end in
  Ok (mkNonceState evolving candidate (epoch_nonce s) (prev_hash_nonce s) lab (current_epoch s)).

(** A block as nonce evolution sees it. *)
Record NonceBlock := mkNonceBlock {
  nb_slot : SlotNo;
  nb_output : list Z;
  nb_prev_hash : option HeaderHash;
  nb_derivation : NonceDerivation }.

Fixpoint apply_blocks (s : NonceEvolutionState) (config : NonceEvolutionConfig)
    (bs : list NonceBlock) : Epoch.pure_outcome NonceEvolutionState :=
  match bs with
  | [] => Ok s
  | b :: bs =>
      let? s := apply_block s (nb_slot b) (nb_output b) (nb_prev_hash b) config (nb_derivation b) in
      apply_blocks s config bs
  end.

Definition encode_nonce (nonce : NonceT) : list Z :=
  match nonce with
  | Neutral => Encoder_array 1 ++ Encoder_unsigned 0
  | Hash h => Encoder_array 2 ++ Encoder_unsigned 1 ++ Encoder_bytes h
  end.

Definition decode_nonce : Dec NonceT :=
  len <- Decoder_array ;;
  tag <- Decoder_unsigned ;;
  match len, tag with
  | 1, 0 => dret Neutral
  | 2, 1 => arr <- decode_fixed 32 ;; dret (Hash arr)
  | _, _ => derr (CborDecodeError (String.append "Nonce: unrecognised (len="
              (String.append (pretty (Z.to_N len))
                (String.append ", tag=" (String.append (pretty (Z.to_N tag)) ")")))))
  end.

Definition nonce_state_encode (s : NonceEvolutionState) : list Z :=
  Encoder_array 6
  ++ encode_nonce (evolving_nonce s)
  ++ encode_nonce (candidate_nonce s)
  ++ encode_nonce (epoch_nonce s)
  ++ encode_nonce (prev_hash_nonce s)
  ++ encode_nonce (lab_nonce s)
  ++ Encoder_unsigned (current_epoch s).

Definition nonce_state_decode : Dec NonceEvolutionState :=
  len <- Decoder_array ;;
  expect_len 6 len ;;;
  evolving <- decode_nonce ;;
  candidate <- decode_nonce ;;
  epoch <- decode_nonce ;;
  prev_hash <- decode_nonce ;;
  lab <- decode_nonce ;;
  current <- Decoder_unsigned ;;
  dret (mkNonceState evolving candidate epoch prev_hash lab current).

Definition nonce_state_ok (s : NonceEvolutionState) : Prop :=
  nonce_ok (evolving_nonce s) /\ nonce_ok (candidate_nonce s) /\ nonce_ok (epoch_nonce s)
  /\ nonce_ok (prev_hash_nonce s) /\ nonce_ok (lab_nonce s) /\ u64 (current_epoch s).

Lemma decodes_nonce n : nonce_ok n -> decodes decode_nonce (encode_nonce n) n.
Proof.
  unfold decode_nonce, encode_nonce. destruct n; cbn [nonce_ok]; intros Hn; codec.
Qed.

Lemma decodes_nonce_state s :
  nonce_state_ok s -> decodes nonce_state_decode (nonce_state_encode s) s.
Proof.
  destruct s as [ev ca ep ph la cu].
  unfold nonce_state_decode, nonce_state_encode, nonce_state_ok.
  cbn [evolving_nonce candidate_nonce epoch_nonce prev_hash_nonce lab_nonce current_epoch].
  intros (?&?&?&?&?&?). codec_step. codec_step.
  do 5 (eapply decodes_bind; [by apply decodes_nonce|]). codec.
Qed.

(** Blocks of the current epoch: the epoch nonce, its ingredient from the
    previous epoch and the epoch label stay put. *)
Lemma apply_block_same_epoch s slot out prev c d :
  nc_slot_to_epoch c slot = Ok (current_epoch s) ->
  apply_block s slot out prev c d
  = Ok (mkNonceState (Nonce_combine (evolving_nonce s) (derive_vrf_nonce out d))
          (if in_stability_window c slot (current_epoch s) then candidate_nonce s
           else Nonce_combine (evolving_nonce s) (derive_vrf_nonce out d))
          (epoch_nonce s) (prev_hash_nonce s)
          (match prev with Some h => Nonce_from_header_hash h | None => Neutral end)
          (current_epoch s)).
Proof.
  intros Hs. unfold apply_block. rewrite Hs. simpl. rewrite Z.ltb_irrefl.
  by destruct (in_stability_window c slot (current_epoch s)).
Qed.

Lemma apply_blocks_same_epoch bs : forall s c,
  Forall (fun b => nc_slot_to_epoch c (nb_slot b) = Ok (current_epoch s)) bs ->
  exists s', apply_blocks s c bs = Ok s' /\ epoch_nonce s' = epoch_nonce s
    /\ prev_hash_nonce s' = prev_hash_nonce s /\ current_epoch s' = current_epoch s
    /\ (Forall (fun b => in_stability_window c (nb_slot b) (current_epoch s) = true) bs ->
        candidate_nonce s' = candidate_nonce s).
Proof.
  induction bs as [|b bs IH]; intros s c Hb; cbn [apply_blocks]; [by eauto 10|].
  inversion Hb as [|? ? H1 H2]; subst. rewrite apply_block_same_epoch by done. cbn [obind].
  destruct (IH (mkNonceState (Nonce_combine (evolving_nonce s) (derive_vrf_nonce (nb_output b) (nb_derivation b)))
          (if in_stability_window c (nb_slot b) (current_epoch s) then candidate_nonce s
           else Nonce_combine (evolving_nonce s) (derive_vrf_nonce (nb_output b) (nb_derivation b)))
          (epoch_nonce s) (prev_hash_nonce s)
          (match nb_prev_hash b with Some h => Nonce_from_header_hash h | None => Neutral end)
          (current_epoch s)) c H2) as (s' & -> & ? & ? & ? & Hc).
  exists s'. split_and!; [done..|]. intros Hw. inversion Hw as [|? ? Hw1 Hw2]; subst.
  rewrite Hc by done. simpl. by rewrite Hw1.
Qed.

Lemma apply_blocks_app s c bs bs' :
  apply_blocks s c (bs ++ bs') = obind (apply_blocks s c bs) (fun s => apply_blocks s c bs').
Proof.
  revert s. induction bs as [|b bs IH]; intros s; cbn [apply_blocks app]; [done|].
  rewrite obind_assoc. apply obind_ext. auto.
Qed.

End nonces.
End NonceEvolution.

(** ** Properties *)

(** C34: praos fork choice is a fair race: among complete candidates whose VRF
    outputs are determined by issuer and slot, with the unrestricted
    tiebreaker, the winner of challenging the incumbent with each candidate in
    turn is one of the candidates and no candidate displaces it, whatever the
    order of arrival. *)
Theorem best_candidate_is_maximal (first : ChainSelection.ChainCandidate)
    (rest : list ChainSelection.ChainCandidate)
    (Hc : Forall ChainSelection.complete (first :: rest))
    (Hv : ChainSelection.vrf_consistent (first :: rest)) :
  let best := ChainSelection.best_of ChainSelection.UnrestrictedVrfTiebreaker first rest in
  best ∈ first :: rest
  /\ forall c, c ∈ first :: rest ->
       ChainSelection.select_preferred best c ChainSelection.UnrestrictedVrfTiebreaker = best.
Proof.
  destruct (ChainSelection.best_of_max ChainSelection.UnrestrictedVrfTiebreaker rest first)
    as [Hin Hmax].
  - rewrite Forall_forall in Hc. intros a b c Ha Hb Hcc.
    rewrite !ChainSelection.displaces_better by auto.
    apply ChainSelection.better_trans. intros x y Hx Hy. apply Hv; set_solver.
  - split; [done|]. intros c Hc'. apply dec_stable. by apply Hmax.
Qed.

Lemma best_candidate_is_maximal_witness :
  let a := ChainSelection.mkCandidate 10 100 (Some [1]) (Some 3) (Some [9]) in
  let b := ChainSelection.mkCandidate 10 101 (Some [2]) (Some 0) (Some [5]) in
  let c := ChainSelection.mkCandidate 10 100 (Some [1]) (Some 4) (Some [9]) in
  let best := ChainSelection.best_of ChainSelection.UnrestrictedVrfTiebreaker a [b; c] in
  best ∈ [a; b; c]
  /\ forall x, x ∈ [a; b; c] ->
       ChainSelection.select_preferred best x ChainSelection.UnrestrictedVrfTiebreaker = best.
Proof.
  apply best_candidate_is_maximal.
  - repeat constructor; by eexists.
  - intros x y Hx Hy. rewrite !elem_of_cons in Hx, Hy.
    destruct Hx as [->|[->|[->|Hx]]], Hy as [->|[->|[->|Hy]]]; try done; set_solver.
Defined.

(** A longer chain always wins: fork choice returns one of its two
    arguments, the one with the higher block number when they differ, whatever
    the issuers, the VRF outputs and the tiebreaker flavor, so the preferred
    block number is the maximum of the two. *)
Theorem select_preferred_longest_chain
    (l r : ChainSelection.ChainCandidate) (f : ChainSelection.VrfTiebreakerFlavor) :
  (ChainSelection.cc_block_no l < ChainSelection.cc_block_no r ->
   ChainSelection.select_preferred l r f = r)
  /\ (ChainSelection.cc_block_no r < ChainSelection.cc_block_no l ->
      ChainSelection.select_preferred l r f = l)
  /\ (ChainSelection.select_preferred l r f = l \/ ChainSelection.select_preferred l r f = r)
  /\ ChainSelection.cc_block_no (ChainSelection.select_preferred l r f)
     = Z.max (ChainSelection.cc_block_no l) (ChainSelection.cc_block_no r).
Proof.
  assert (ChainSelection.select_preferred l r f = l \/ ChainSelection.select_preferred l r f = r)
    as Hor by apply ChainSelection.select_one_of.
  assert (ChainSelection.cc_block_no l < ChainSelection.cc_block_no r ->
          ChainSelection.select_preferred l r f = r) as Hlt.
  { intros Hlt. unfold ChainSelection.select_preferred.
    by rewrite (proj2 (Z.compare_gt_iff _ _)). }
  assert (ChainSelection.cc_block_no r < ChainSelection.cc_block_no l ->
          ChainSelection.select_preferred l r f = l) as Hgt.
  { intros Hgt. unfold ChainSelection.select_preferred.
    by rewrite (proj2 (Z.compare_lt_iff _ _)). }
  split_and!; [done..|].
  destruct (Z.lt_trichotomy (ChainSelection.cc_block_no l) (ChainSelection.cc_block_no r))
    as [Hc|[Hc|Hc]]; [rewrite Hlt by done; lia| |rewrite Hgt by done; lia].
  destruct Hor as [-> | ->]; lia.
Qed.

(** The epoch of a slot is the one that contains it: under a consistent
    schedule, with or without a Byron prefix, [slot_to_epoch] does not panic
    and the slot lies between the first slot of its epoch (inclusive) and the
    first slot of the next (exclusive). *)
Theorem epoch_contains_slot (s : Epoch.EpochSchedule) (slot : SlotNo)
    (Hok : Epoch.schedule_ok s) (Hfit : Epoch.fits s slot) :
  exists e, Epoch.sched_slot_to_epoch s slot = Ok e
    /\ Epoch.sched_epoch_first_slot s e <= slot < Epoch.sched_epoch_first_slot s (e + 1).
Proof.
  destruct (Epoch.sched_epoch_of s slot Hok Hfit) as [He Hr].
  destruct Hfit as [H0 Hf].
  destruct (Epoch.epoch_of_bounds s slot Hok H0) as [[Hlo Hhi] Hm].
  exists (Epoch.epoch_of s slot). split; [done|].
  rewrite !Epoch.first_of_wrap by (done || lia). done.
Qed.

(** Mainnet: 208 Byron epochs of 21600 slots, then epochs of 432000 slots. *)
Lemma epoch_contains_slot_witness :
  exists e, Epoch.sched_slot_to_epoch (Epoch.with_byron_prefix 432000 21600 4492800 208) 150000000
    = Ok e
    /\ Epoch.sched_epoch_first_slot (Epoch.with_byron_prefix 432000 21600 4492800 208) e <= 150000000
    < Epoch.sched_epoch_first_slot (Epoch.with_byron_prefix 432000 21600 4492800 208) (e + 1).
Proof.
  apply epoch_contains_slot; vm_compute; repeat split; congruence.
Defined.

(** C32: blocks inside the stability window cannot bias the next epoch nonce:
    when every block of an epoch is applied and the first block of a later
    epoch arrives, the new epoch nonce is made of the candidate nonce as it
    stood before the window, the hash carried over from the previous epoch and
    the extra entropy, whatever the blocks of the window contributed. *)
Theorem late_blocks_do_not_bias_nonce {H : Blake2b256}
    (c : NonceEvolution.NonceEvolutionConfig) (s s0 : NonceEvolution.NonceEvolutionState)
    (early late : list NonceEvolution.NonceBlock) (b : NonceEvolution.NonceBlock) (e : EpochNo)
    (Hsame : Forall (fun b => NonceEvolution.nc_slot_to_epoch c (NonceEvolution.nb_slot b)
                              = Ok (NonceEvolution.current_epoch s)) (early ++ late))
    (Hlate : Forall (fun b => NonceEvolution.in_stability_window c (NonceEvolution.nb_slot b)
                                (NonceEvolution.current_epoch s) = true) late)
    (Hearly : NonceEvolution.apply_blocks s c early = Ok s0)
    (Hb : NonceEvolution.nc_slot_to_epoch c (NonceEvolution.nb_slot b) = Ok e)
    (He : NonceEvolution.current_epoch s < e) :
  exists s', NonceEvolution.apply_blocks s c (early ++ late ++ [b]) = Ok s'
    /\ NonceEvolution.epoch_nonce s'
       = NonceEvolution.Nonce_combine
           (NonceEvolution.Nonce_combine (NonceEvolution.candidate_nonce s0)
              (NonceEvolution.prev_hash_nonce s))
           (NonceEvolution.nc_extra_entropy c)
    /\ NonceEvolution.current_epoch s' = e.
Proof.
  apply Forall_app in Hsame as [Hs1 Hs2].
  destruct (NonceEvolution.apply_blocks_same_epoch early s c Hs1) as (s0' & E0 & _ & Hp & Hce & _).
  rewrite Hearly in E0. injection E0 as <-. rewrite <- Hce in Hs2, Hlate, He. rewrite <- Hp.
  destruct (NonceEvolution.apply_blocks_same_epoch late s0 c Hs2)
    as (s1 & E1 & _ & Hp1 & Hce1 & Hcand). specialize (Hcand Hlate).
  rewrite NonceEvolution.apply_blocks_app, Hearly. cbn [obind].
  rewrite NonceEvolution.apply_blocks_app, E1. cbn [obind].
  cbn [NonceEvolution.apply_blocks]. unfold NonceEvolution.apply_block. rewrite Hb. cbn [obind].
  rewrite Hce1, (proj2 (Z.ltb_lt _ _) He). eexists. split; [done|]. cbn.
  by rewrite Hp1, Hcand.
Qed.

(** A stand-in digest for the witnesses: length-prefixed padding. *)
Definition toy_hash : Blake2b256 := fun m => take 32 (zlength m :: m ++ replicate 32 0).

Lemma late_blocks_do_not_bias_nonce_witness :
  let c := NonceEvolution.mkNonceConfig 100 30 Neutral None in
  let s := @NonceEvolution.nonce_state_new (Hash (replicate 32 1)) in
  exists s', @NonceEvolution.apply_blocks toy_hash s c
      ([NonceEvolution.mkNonceBlock 5 [1] None NonceEvolution.Praos]
       ++ [NonceEvolution.mkNonceBlock 80 [2] (Some [7]) NonceEvolution.Praos]
       ++ [NonceEvolution.mkNonceBlock 101 [3] (Some [8]) NonceEvolution.Praos]) = Ok s'
    /\ NonceEvolution.epoch_nonce s' = Hash (64 :: replicate 31 1)
    /\ NonceEvolution.current_epoch s' = 1.
Proof.
  refine (@late_blocks_do_not_bias_nonce toy_hash
    (NonceEvolution.mkNonceConfig 100 30 Neutral None)
    (NonceEvolution.nonce_state_new (Hash (replicate 32 1))) _
    [NonceEvolution.mkNonceBlock 5 [1] None NonceEvolution.Praos]
    [NonceEvolution.mkNonceBlock 80 [2] (Some [7]) NonceEvolution.Praos]
    (NonceEvolution.mkNonceBlock 101 [3] (Some [8]) NonceEvolution.Praos) 1 _ _ eq_refl _ _);
    [repeat constructor | repeat constructor | reflexivity | reflexivity].
Defined.

(** The persisted nonce state is read back from its CBOR bytes. *)
Theorem nonce_state_round_trip (s : NonceEvolution.NonceEvolutionState)
    (Hs : NonceEvolution.nonce_state_ok s)
    (Hlen : zlength (NonceEvolution.nonce_state_encode s) <= ISIZE_MAX) :
  from_cbor_bytes NonceEvolution.nonce_state_decode (NonceEvolution.nonce_state_encode s) = Ok s.
Proof. by apply from_cbor_bytes_decodes, Hlen; apply NonceEvolution.decodes_nonce_state. Qed.

Lemma nonce_state_round_trip_witness :
  from_cbor_bytes NonceEvolution.nonce_state_decode
    (NonceEvolution.nonce_state_encode
       (NonceEvolution.mkNonceState (Hash (replicate 32 1)) (Hash (replicate 32 2)) Neutral Neutral
          (Hash (replicate 32 3)) 208))
  = Ok (NonceEvolution.mkNonceState (Hash (replicate 32 1)) (Hash (replicate 32 2)) Neutral Neutral
          (Hash (replicate 32 3)) 208).
Proof.
  apply nonce_state_round_trip; vm_compute; repeat split; congruence.
Defined.
