(* ===== verification/NativeScript.v ===== *)
(** * Native scripts

    Model of [NativeScript] of [crates/ledger/src/eras/allegra.rs] (its
    iterative CBOR encoder and decoder) and of
    [crates/ledger/src/native_script.rs] (its iterative evaluator and its
    hash). Each loop is proved equal to the recursive definition it replaces. *)

From S2P Require Import Prelude Cbor CborFacts.
Local Open Scope Z_scope.

(** ** Scripts *)

Inductive NativeScript :=
  | ScriptPubkey (keyhash : list Z)
  | ScriptAll (scripts : list NativeScript)
  | ScriptAny (scripts : list NativeScript)
  | ScriptNOfK (n : Z) (scripts : list NativeScript)
  | InvalidBefore (slot : Z)
  | InvalidHereafter (slot : Z).

Definition children (s : NativeScript) : list NativeScript :=
  match s with
  | ScriptAll l | ScriptAny l | ScriptNOfK _ l => l
  | _ => []
  end.

Fixpoint nodes (s : NativeScript) : nat :=
  match s with
  | ScriptAll l | ScriptAny l | ScriptNOfK _ l => S (sum_list_with nodes l)
  | _ => 1
  end.

Definition NATIVE_MAX_DECODE_DEPTH : Z := 256.

(** ** Encoding *)

(** What one turn of the encoder writes for a node; its children follow. *)
Definition encode_node (s : NativeScript) : list Z :=
  match s with
  | ScriptPubkey keyhash => Encoder_array 2 ++ Encoder_unsigned 0 ++ Encoder_bytes keyhash
  | ScriptAll scripts => Encoder_array 2 ++ Encoder_unsigned 1 ++ Encoder_array (zlength scripts)
  | ScriptAny scripts => Encoder_array 2 ++ Encoder_unsigned 2 ++ Encoder_array (zlength scripts)
  | ScriptNOfK n scripts =>
      Encoder_array 3 ++ Encoder_unsigned 3 ++ Encoder_integer n ++ Encoder_array (zlength scripts)
  | InvalidBefore slot => Encoder_array 2 ++ Encoder_unsigned 4 ++ Encoder_unsigned slot
  | InvalidHereafter slot => Encoder_array 2 ++ Encoder_unsigned 5 ++ Encoder_unsigned slot
  end.

(** The stack has its top first; children are pushed in reverse. *)
Definition encode_turn (s : list NativeScript * list Z)
    : outcome LedgerError (list NativeScript * list Z + list Z) :=
  match s with
  | ([], out) => Ok (inr out)
  | (node :: stack, out) => Ok (inl (children node ++ stack, out ++ encode_node node))
  end.
Definition NativeScript_encode_cbor (s : NativeScript) : outcome LedgerError (list Z) :=
  loopM (S (nodes s)) encode_turn ([s], []).

(** ** Decoding *)

Inductive ScriptKind := Kind_All | Kind_Any | Kind_NOfK (n : Z).
Record ScriptFrame := mkScriptFrame {
  sf_kind : ScriptKind;
  sf_remaining : Z;
  sf_children : list NativeScript }.

Definition fold_script (f : ScriptFrame) : NativeScript :=
  match sf_kind f with
  | Kind_All => ScriptAll (sf_children f)
  | Kind_Any => ScriptAny (sf_children f)
  | Kind_NOfK n => ScriptNOfK n (sf_children f)
  end.

(** Put a value into the frame on top. *)
Definition place_script (stack : list ScriptFrame) (v : NativeScript)
    : (list ScriptFrame * option NativeScript) + NativeScript :=
  match stack with
  | [] => inr v
  | top :: rest =>
      let top := mkScriptFrame (sf_kind top) (sat_sub (sf_remaining top) 1)
                   (sf_children top ++ [v]) in
      inl (if sf_remaining top =? 0 then (rest, Some (fold_script top)) else (top :: rest, None))
  end.

Definition expect_len (expected actual : Z) : outcome LedgerError unit :=
  if negb (actual =? expected) then Err (CborInvalidLength expected (wrap64 actual)) else Ok tt.

Definition check_script_depth (stack : list ScriptFrame) : outcome LedgerError unit :=
  if NATIVE_MAX_DECODE_DEPTH <=? zlength stack
  then Err (CborNestingTooDeep NATIVE_MAX_DECODE_DEPTH) else Ok tt.

Definition ScriptStep : Type := Dec (list ScriptFrame * option NativeScript).

Definition open_frame (kind : ScriptKind) (stack : list ScriptFrame) : ScriptStep :=
  count <- Decoder_array ;;
  if count =? 0 then dret (stack, Some (fold_script (mkScriptFrame kind 0 [])))
  else dret (mkScriptFrame kind count [] :: stack, None).

Definition decode_script_item (stack : list ScriptFrame) : ScriptStep :=
  arr_len <- Decoder_array ;;
  tag <- Decoder_unsigned ;;
  match tag with
  | 0 =>
      dlift (expect_len 2 arr_len) ;;;
      raw <- Decoder_bytes ;;
      if zlength raw =? 28 then dret (stack, Some (ScriptPubkey raw))
      else derr (CborInvalidLength 28 (zlength raw))
  | 1 | 2 =>
      dlift (expect_len 2 arr_len) ;;;
      dlift (check_script_depth stack) ;;;
      open_frame (if tag =? 1 then Kind_All else Kind_Any) stack
  | 3 =>
      dlift (expect_len 3 arr_len) ;;;
      n <- Decoder_integer ;;
      dlift (check_script_depth stack) ;;;
      open_frame (Kind_NOfK n) stack
  | 4 =>
      dlift (expect_len 2 arr_len) ;;;
      slot <- Decoder_unsigned ;; dret (stack, Some (InvalidBefore slot))
  | 5 =>
      dlift (expect_len 2 arr_len) ;;;
      slot <- Decoder_unsigned ;; dret (stack, Some (InvalidHereafter slot))
  | other => derr (CborTypeMismatch 0 (wrap8 other))
  end.

Definition script_turn (s : list ScriptFrame * option NativeScript * Decoder)
    : outcome LedgerError
        (list ScriptFrame * option NativeScript * Decoder + NativeScript * Decoder) :=
  match s with
  | (stack, Some v, d) =>
      Ok (match place_script stack v with
          | inl s => inl (s, d)
          | inr v => inr (v, d)
          end)
  | (stack, None, d) => let? r := decode_script_item stack d in Ok (inl r)
  end.

(** A turn either reads an item or uses up a value, and an item yields at most
    one value and one frame. *)
Definition script_fuel (d : Decoder) : nat := 3 * S (length (data d)).

Definition NativeScript_decode_cbor : Dec NativeScript :=
  fun d => loopM (script_fuel d) script_turn ([], None, d).

(** ** Evaluation *)

Record NativeScriptContext := mkNativeContext {
  vkey_hashes : gset (list Z);
  current_slot : Z }.

Inductive Combine := Combine_All | Combine_Any | Combine_NOfK (required : Z).
Inductive Action :=
  | Action_Eval (node : NativeScript)
  | Action_Combine (kind : Combine) (child_count : nat).

Definition combine (kind : Combine) (satisfied child_count : nat) : bool :=
  match kind with
  | Combine_All => (satisfied =? child_count)%nat
  | Combine_Any => (0 <? satisfied)%nat
  | Combine_NOfK required => required <=? Z.of_nat satisfied
  end.

Definition count_true (l : list bool) : nat := length (List.filter (fun b => b) l).

Definition eval_node (ctx : NativeScriptContext) (node : NativeScript) (work : list Action)
    (results : list bool) : list Action * list bool :=
  let enter kind scripts :=
    (map Action_Eval scripts ++ Action_Combine kind (length scripts) :: work, results) in
  match node with
  | ScriptPubkey keyhash => (work, bool_decide (keyhash ∈ vkey_hashes ctx) :: results)
  | InvalidBefore slot => (work, (slot <=? current_slot ctx) :: results)
  | InvalidHereafter slot => (work, (current_slot ctx <? slot) :: results)
  | ScriptAll scripts => enter Combine_All scripts
  | ScriptAny scripts => enter Combine_Any scripts
  | ScriptNOfK n scripts => enter (Combine_NOfK (Z.max n 0)) scripts
  end.

(** Both stacks have their top first. *)
Definition eval_turn (ctx : NativeScriptContext) (s : list Action * list bool)
    : outcome LedgerError (list Action * list bool + bool) :=
  match s with
  | ([], results) => match results with [] => Panic | r :: _ => Ok (inr r) end
  | (Action_Eval node :: work, results) => Ok (inl (eval_node ctx node work results))
  | (Action_Combine kind child_count :: work, results) =>
      if (length results <? child_count)%nat then Panic
      else
        let satisfied := count_true (take child_count results) in
        Ok (inl (work, combine kind satisfied child_count :: drop child_count results))
  end.
Definition evaluate_native_script (s : NativeScript) (ctx : NativeScriptContext)
    : outcome LedgerError bool :=
  loopM (S (2 * nodes s)) (eval_turn ctx) ([Action_Eval s], []).

(** ** Induction on scripts *)

Lemma NativeScript_nested_ind (P : NativeScript -> Prop) :
  (forall h, P (ScriptPubkey h)) ->
  (forall l, Forall P l -> P (ScriptAll l)) -> (forall l, Forall P l -> P (ScriptAny l)) ->
  (forall n l, Forall P l -> P (ScriptNOfK n l)) ->
  (forall slot, P (InvalidBefore slot)) -> (forall slot, P (InvalidHereafter slot)) ->
  forall s, P s.
Proof.
  intros Hk Ha Hy Hn Hb Hh. fix IH 1. intros s. destruct s.
  - apply Hk.
  - apply Ha. induction scripts; constructor; [apply IH|done].
  - apply Hy. induction scripts; constructor; [apply IH|done].
  - apply Hn. induction scripts; constructor; [apply IH|done].
  - apply Hb.
  - apply Hh.
Qed.

(** ** The evaluator computes the recursive meaning *)

(** When a script is satisfied, as the ledger rules define it. *)
Fixpoint satisfied (ctx : NativeScriptContext) (s : NativeScript) : bool :=
  match s with
  | ScriptPubkey keyhash => bool_decide (keyhash ∈ vkey_hashes ctx)
  | ScriptAll scripts => forallb (satisfied ctx) scripts
  | ScriptAny scripts => existsb (satisfied ctx) scripts
  | ScriptNOfK n scripts => n <=? Z.of_nat (count_true (map (satisfied ctx) scripts))
  | InvalidBefore slot => slot <=? current_slot ctx
  | InvalidHereafter slot => current_slot ctx <? slot
  end.

Lemma count_true_app l k : count_true (l ++ k) = (count_true l + count_true k)%nat.
Proof. unfold count_true. by rewrite List.filter_app, length_app. Qed.

Lemma count_true_rev l : count_true (rev l) = count_true l.
Proof.
  induction l as [|b l IH]; [done|]. simpl. rewrite count_true_app, IH.
  unfold count_true. destruct b; simpl; lia.
Qed.

Lemma count_true_cons b l : count_true (b :: l) = ((if b then 1 else 0) + count_true l)%nat.
Proof. by destruct b. Qed.

Lemma count_true_le l : (count_true l <= length l)%nat.
Proof. induction l as [|b l IH]; [done|]. rewrite count_true_cons. destruct b; simpl; lia. Qed.

Lemma combine_all l : combine Combine_All (count_true l) (length l) = forallb (fun b => b) l.
Proof.
  simpl. induction l as [|b l IH]; [done|]. rewrite count_true_cons. pose proof (count_true_le l).
  destruct b; simpl; [exact IH|]. apply Nat.eqb_neq. lia.
Qed.

Lemma combine_any l n : combine Combine_Any (count_true l) n = existsb (fun b => b) l.
Proof. simpl. induction l as [|b l IH]; [done|]. rewrite count_true_cons. by destruct b. Qed.

Section evaluation.
  Context (ctx : NativeScriptContext).

Definition eval_reads (s : NativeScript) : Prop :=
  forall work results, exists n, (n <= 2 * nodes s)%nat
    /\ runs n (eval_turn ctx) (Action_Eval s :: work, results) (work, satisfied ctx s :: results).

Lemma eval_children l :
  Forall eval_reads l -> forall work results, exists n, (n <= 2 * sum_list_with nodes l)%nat
    /\ runs n (eval_turn ctx) (map Action_Eval l ++ work, results)
         (work, rev (map (satisfied ctx) l) ++ results).
Proof.
  intros Hl. induction Hl as [|s l Hs Hl IH]; intros work results.
  { exists 0%nat. split; [simpl; lia|]. apply runs_refl. }
  destruct (Hs (map Action_Eval l ++ work) results) as (n1 & Hn1 & Hr1).
  destruct (IH work (satisfied ctx s :: results)) as (n2 & Hn2 & Hr2).
  exists (n1 + n2)%nat. split; [simpl; lia|]. eapply runs_trans; [exact Hr1|].
  simpl. by rewrite <- (assoc_L (++)).
Qed.

(** A combinator: its children, then one turn that combines them. *)
Lemma eval_combinator s kind l :
  Forall eval_reads l -> nodes s = S (sum_list_with nodes l) ->
  (forall work results, eval_node ctx s work results
     = (map Action_Eval l ++ Action_Combine kind (length l) :: work, results)) ->
  combine kind (count_true (map (satisfied ctx) l)) (length (map (satisfied ctx) l))
  = satisfied ctx s ->
  eval_reads s.
Proof.
  intros Hl Hn He Hc work results.
  destruct (eval_children l Hl (Action_Combine kind (length l) :: work) results) as (n & Hle & Hr).
  exists (S (S n)). split; [lia|]. eapply runs_step; [simpl; by rewrite He|].
  eapply runs_snoc; [exact Hr|]. unfold eval_turn.
  set (rs := map (satisfied ctx) l) in *.
  assert (Hlen : length l = length (rev rs)) by (unfold rs; by rewrite length_rev, length_map).
  rewrite Hlen, length_app. rewrite (proj2 (Nat.ltb_ge _ _)) by lia.
  rewrite take_app_length, drop_app_length, count_true_rev, length_rev. by rewrite Hc.
Qed.

Lemma forallb_map {A} (f : A -> bool) l : forallb (fun b => b) (map f l) = forallb f l.
Proof. induction l as [|x l IH]; [done|]. simpl. by rewrite IH. Qed.
Lemma existsb_map {A} (f : A -> bool) l : existsb (fun b => b) (map f l) = existsb f l.
Proof. induction l as [|x l IH]; [done|]. simpl. by rewrite IH. Qed.

Lemma eval_all_reads s : eval_reads s.
Proof.
  induction s as [h|l IH|l IH|n l IH|slot|slot] using NativeScript_nested_ind;
    try (intros work results; exists 1%nat; split; [simpl; lia|];
         eapply runs_step; [reflexivity|apply runs_refl]).
  - apply (eval_combinator _ Combine_All l); try done. by rewrite combine_all, forallb_map.
  - apply (eval_combinator _ Combine_Any l); try done. by rewrite combine_any, existsb_map.
  - apply (eval_combinator _ (Combine_NOfK (Z.max n 0)) l); try done. simpl.
    destruct (n <=? Z.of_nat (count_true (map (satisfied ctx) l))) eqn:E; zbool.
    + apply Z.leb_le. lia.
    + apply Z.leb_gt. lia.
Qed.
End evaluation.

Lemma native_evaluates s ctx : evaluate_native_script s ctx = Ok (satisfied ctx s).
Proof.
  destruct (eval_all_reads ctx s [] []) as (n & Hn & Hr). unfold evaluate_native_script.
  eapply runs_returns; [exact Hr|done|lia].
Qed.

(** C36: the evaluator with its explicit stacks returns, without ever taking more
    results than there are, whether the script is satisfied in the recursive
    sense: a key hash has signed, all, any, or at least [n] of the subscripts
    hold, the slot has come or has not passed. *)
Theorem native_script_evaluation s ctx : evaluate_native_script s ctx = Ok (satisfied ctx s).
Proof. apply native_evaluates. Qed.

(** ** Encoding *)

Fixpoint script_encoding (s : NativeScript) : list Z :=
  encode_node s ++
  match s with
  | ScriptAll l | ScriptAny l | ScriptNOfK _ l => concat (map script_encoding l)
  | _ => []
  end.

Definition encodes (s : NativeScript) : Prop :=
  forall stack out, runs (nodes s) encode_turn (s :: stack, out) (stack, out ++ script_encoding s).

Lemma encodes_children l stack out :
  Forall encodes l ->
  runs (sum_list_with nodes l) encode_turn (l ++ stack, out)
    (stack, out ++ concat (map script_encoding l)).
Proof.
  intros Hl. revert out. induction Hl as [|s l Hs Hl IH]; intros out; simpl.
  { rewrite app_nil_r. apply runs_refl. }
  eapply runs_trans; [apply Hs|]. rewrite (assoc_L (++)). apply IH.
Qed.

Lemma encodes_all s : encodes s.
Proof.
  induction s as [h|l IH|l IH|n l IH|slot|slot] using NativeScript_nested_ind; intros stack out;
    cbn [nodes script_encoding]; rewrite ?app_nil_r;
    (eapply runs_step; [reflexivity|]); cbn [children app];
    try apply runs_refl; rewrite (assoc_L (++)); by apply encodes_children.
Qed.

Lemma encode_script_encoding s : NativeScript_encode_cbor s = Ok (script_encoding s).
Proof.
  unfold NativeScript_encode_cbor. eapply runs_returns; [apply encodes_all|done|lia].
Qed.

(** ** The round trip *)

Fixpoint script_ok (s : NativeScript) : Prop :=
  match s with
  | ScriptPubkey keyhash => zlength keyhash = 28
  | ScriptAll l | ScriptAny l => foldr (fun s P => script_ok s /\ P) True l
  | ScriptNOfK n l => i64 n /\ foldr (fun s P => script_ok s /\ P) True l
  | InvalidBefore slot | InvalidHereafter slot => u64 slot
  end.

(** Combinators on the longest path. *)
Fixpoint script_depth (s : NativeScript) : Z :=
  match s with
  | ScriptAll l | ScriptAny l | ScriptNOfK _ l => 1 + foldr (fun s m => Z.max (script_depth s) m) 0 l
  | _ => 0
  end.

(** The loop turns the encoding into a pending value, leaving the stack as it
    was, in fewer than three turns per byte. *)
Definition script_reads (s : NativeScript) : Prop :=
  forall stack pre suf,
    zlength stack + script_depth s <= NATIVE_MAX_DECODE_DEPTH ->
    zlength (pre ++ script_encoding s ++ suf) <= ISIZE_MAX ->
    exists n, (n + 1 <= 3 * length (script_encoding s))%nat
      /\ runs n script_turn (stack, None, at_ pre (script_encoding s ++ suf))
           (stack, Some s, at_ (pre ++ script_encoding s) suf).

Lemma script_leaf s bs :
  script_encoding s = bs -> bs <> [] ->
  (forall stack, decodes (decode_script_item stack) bs (stack, Some s)) -> script_reads s.
Proof.
  intros <- Hne Hd stack pre suf _ Hlen. exists 1%nat. split.
  - destruct (script_encoding s); [done|]. simpl. lia.
  - eapply runs_step; [|apply runs_refl]. simpl. by rewrite Hd.
Qed.

Lemma script_children kind l stack acc pre suf :
  Forall script_reads l -> l <> [] ->
  (forall s, s ∈ l -> 1 + zlength stack + script_depth s <= NATIVE_MAX_DECODE_DEPTH) ->
  zlength (pre ++ concat (map script_encoding l) ++ suf) <= ISIZE_MAX ->
  exists n, (n <= 3 * length (concat (map script_encoding l)))%nat
    /\ runs n script_turn
         (mkScriptFrame kind (zlength l) acc :: stack, None,
          at_ pre (concat (map script_encoding l) ++ suf))
         (stack, Some (fold_script (mkScriptFrame kind 0 (acc ++ l))),
          at_ (pre ++ concat (map script_encoding l)) suf).
Proof.
  intros Hl. revert acc pre. induction Hl as [|s l Hs Hl IH]; intros acc pre Hne Hd Hlen; [done|].
  cbn [map concat] in *. rewrite <- (assoc_L (++)) in *.
  destruct (Hs (mkScriptFrame kind (zlength (s :: l)) acc :: stack) pre
              (concat (map script_encoding l) ++ suf)) as (n1 & Hn1 & Hr1).
  { rewrite zlength_cons. specialize (Hd s ltac:(by left)). lia. }
  { done. }
  assert (Hrem : sat_sub (zlength (s :: l)) 1 = zlength l).
  { rewrite zlength_cons. unfold sat_sub. pose proof (zlength_nonneg l). lia. }
  rewrite length_app. destruct l as [|s' l'].
  - exists (S n1). split; [simpl in *; lia|]. eapply runs_snoc; [exact Hr1|].
    cbn [script_turn place_script sf_kind sf_remaining sf_children]. rewrite Hrem.
    cbn [map concat]. by rewrite !app_nil_r.
  - set (l := s' :: l') in *. assert (Hpos : zlength l <> 0) by (unfold l; rewrite zlength_cons;
      pose proof (zlength_nonneg l'); lia).
    destruct (IH (acc ++ [s]) (pre ++ script_encoding s)) as (n2 & Hn2 & Hr2).
    + done.
    + intros x Hx. apply Hd. by right.
    + by rewrite <- (assoc_L (++)).
    + exists (S n1 + n2)%nat. split; [lia|]. eapply runs_trans.
      * eapply runs_snoc; [exact Hr1|].
        cbn [script_turn place_script sf_kind sf_remaining sf_children]. rewrite Hrem.
        rewrite (proj2 (Z.eqb_neq _ _)) by done. reflexivity.
      * rewrite <- !(assoc_L (++)) in Hr2. exact Hr2.
Qed.

Lemma depth_of_child l s :
  s ∈ l -> script_depth s <= foldr (fun s m => Z.max (script_depth s) m) 0 l.
Proof. induction l as [|x l IH]; intros Hs; [by inversion Hs|].
  simpl. apply elem_of_cons in Hs as [->|Hs]; [lia|]. specialize (IH Hs). lia.
Qed.

(** A combinator: its header opens a frame that its children fill. *)
Lemma script_combinator s kind l hdr :
  script_encoding s = hdr ++ concat (map script_encoding l) ->
  script_depth s = 1 + foldr (fun s m => Z.max (script_depth s) m) 0 l ->
  fold_script (mkScriptFrame kind 0 l) = s -> hdr <> [] ->
  (forall stack, zlength stack < NATIVE_MAX_DECODE_DEPTH -> u64 (zlength l) ->
     decodes (decode_script_item stack) hdr
       (if zlength l =? 0 then (stack, Some (fold_script (mkScriptFrame kind 0 [])))
        else (mkScriptFrame kind (zlength l) [] :: stack, None))) ->
  zlength l <= zlength (concat (map script_encoding l)) ->
  Forall script_reads l -> script_reads s.
Proof.
  intros He Hdep Hf Hne Hd Hle Hl stack pre suf Hst Hlen. rewrite He in *.
  rewrite <- (assoc_L (++)) in *.
  assert (Hh : (1 <= length hdr)%nat) by (destruct hdr; [done|simpl; lia]).
  assert (Hnn : forall l, 0 <= foldr (fun s m => Z.max (script_depth s) m) 0 l).
  { intros k. induction k; simpl; lia. }
  pose proof (Hnn l) as Hfold. pose proof (zlength_nonneg l) as Hl0.
  assert (Hu : u64 (zlength l)).
  { rewrite !zlength_app in Hlen. pose proof (zlength_nonneg pre). pose proof (zlength_nonneg hdr).
    pose proof (zlength_nonneg suf). unfold u64, U64_MAX, ISIZE_MAX in *. lia. }
  specialize (Hd stack ltac:(lia) Hu pre (concat (map script_encoding l) ++ suf) Hlen).
  destruct (zlength l =? 0) eqn:E0; zbool.
  - destruct l as [|x l]; [|rewrite zlength_cons in E0; pose proof (zlength_nonneg l); lia].
    exists 1%nat. split; [rewrite length_app; lia|]. cbn [map concat] in *. rewrite app_nil_r in *.
    eapply runs_step; [|apply runs_refl]. cbn [script_turn]. rewrite Hd. cbn [obind].
    by rewrite Hf.
  - destruct (script_children kind l stack [] (pre ++ hdr) suf Hl) as (n & Hn & Hr).
    + by intros ->.
    + intros x Hx. pose proof (depth_of_child l x Hx). lia.
    + by rewrite <- (assoc_L (++)).
    + exists (S n). rewrite length_app. split; [lia|].
      eapply runs_step; [cbn [script_turn]; rewrite Hd; reflexivity|].
      rewrite app_nil_l, Hf in Hr. by rewrite <- (assoc_L (++)) in Hr.
Qed.

Lemma decodes_open_frame kind stack n :
  u64 n ->
  decodes (open_frame kind stack) (Encoder_array n)
    (if n =? 0 then (stack, Some (fold_script (mkScriptFrame kind 0 [])))
     else (mkScriptFrame kind n [] :: stack, None)).
Proof.
  intros Hn. unfold open_frame. rewrite <- (app_nil_r (Encoder_array n)).
  eapply decodes_bind; [by apply decodes_array|]. destruct (n =? 0); apply decodes_ret.
Qed.

Lemma depth_allowed stack : zlength stack < NATIVE_MAX_DECODE_DEPTH -> check_script_depth stack = Ok tt.
Proof. intros. unfold check_script_depth. by rewrite (proj2 (Z.leb_gt _ _)). Qed.

Lemma encode_node_nonempty s : encode_node s <> [].
Proof. destruct s; done. Qed.

Lemma encoding_longer l : zlength l <= zlength (concat (map script_encoding l)).
Proof.
  induction l as [|s l IH]; [done|]. cbn [map concat]. rewrite zlength_cons, zlength_app.
  enough (1 <= zlength (script_encoding s)) by lia.
  assert (exists x, script_encoding s = encode_node s ++ x) as [x ->] by (destruct s; by eexists).
  pose proof (encode_node_nonempty s). pose proof (zlength_nonneg x). rewrite zlength_app.
  destruct (encode_node s) as [|b bs]; [done|]. rewrite zlength_cons.
  pose proof (zlength_nonneg bs). lia.
Qed.

(** The array head, the tag and the check of the length. *)
Ltac script_header :=
  rewrite <- ?(assoc_L (++)); unfold decode_script_item;
  eapply decodes_bind; [by apply decodes_array, u64_small|];
  eapply decodes_bind; [by apply decodes_unsigned, u64_small|];
  eapply decodes_bind0; [by apply decodes_lift|].

Lemma script_encoding_reads s : script_ok s -> script_reads s.
Proof.
  assert (Hall : forall l, Forall (fun s => script_ok s -> script_reads s) l ->
    foldr (fun s P => script_ok s /\ P) True l -> Forall script_reads l).
  { intros l Hl. induction Hl; simpl; [done|]. intros [? ?]. constructor; auto. }
  induction s as [h|l IH|l IH|n l IH|slot|slot] using NativeScript_nested_ind; cbn [script_ok];
    intros Hok.
  - eapply script_leaf; [reflexivity|done|]. intros stack.
    cbn [script_encoding encode_node]. rewrite app_nil_r. script_header.
    eapply decodes_bind_ret; [apply decodes_bytes|]. rewrite Hok. apply decodes_ret.
  - eapply (script_combinator _ Kind_All l); [reflexivity|done|done|done| |apply encoding_longer|auto].
    intros stack Hs Hu. cbn [encode_node]. script_header. rewrite depth_allowed by done.
    eapply decodes_bind0; [by apply decodes_lift|]. by apply decodes_open_frame.
  - eapply (script_combinator _ Kind_Any l); [reflexivity|done|done|done| |apply encoding_longer|auto].
    intros stack Hs Hu. cbn [encode_node]. script_header. rewrite depth_allowed by done.
    eapply decodes_bind0; [by apply decodes_lift|]. by apply decodes_open_frame.
  - destruct Hok as [Hn Hok].
    eapply (script_combinator _ (Kind_NOfK n) l);
      [reflexivity|done|done|done| |apply encoding_longer|auto].
    intros stack Hs Hu. cbn [encode_node]. script_header.
    eapply decodes_bind; [by apply decodes_integer|]. rewrite depth_allowed by done.
    eapply decodes_bind0; [by apply decodes_lift|]. by apply decodes_open_frame.
  - eapply script_leaf; [reflexivity|done|]. intros stack.
    cbn [script_encoding encode_node]. rewrite app_nil_r. script_header.
    eapply decodes_bind_ret; [by apply decodes_unsigned|]. apply decodes_ret.
  - eapply script_leaf; [reflexivity|done|]. intros stack.
    cbn [script_encoding encode_node]. rewrite app_nil_r. script_header.
    eapply decodes_bind_ret; [by apply decodes_unsigned|]. apply decodes_ret.
Qed.

(** ** Termination *)

Definition frame_size (s : list ScriptFrame * option NativeScript) : nat :=
  length s.1 + (match s.2 with Some _ => 1 | None => 0 end).

(** An item adds a value or a frame. *)
Definition script_grows (stack : list ScriptFrame) (m : ScriptStep) : Prop :=
  forall d r, m d = Ok r -> (frame_size r.1 <= S (length stack))%nat.

Lemma script_grows_bind {A} stack (m : Dec A) (k : A -> ScriptStep) :
  (forall a, script_grows stack (k a)) -> script_grows stack (dbind m k).
Proof. intros Hk d r Hr. unfold dbind in Hr. inv_ok. by eapply Hk. Qed.
Lemma script_grows_err stack e : script_grows stack (derr e).
Proof. by intros d r Hr. Qed.
Lemma script_grows_value stack v : script_grows stack (dret (stack, Some v)).
Proof. intros d r [= <-]. unfold frame_size. simpl. lia. Qed.
Lemma script_grows_open kind stack : script_grows stack (open_frame kind stack).
Proof.
  apply script_grows_bind. intros c. case_match; [apply script_grows_value|].
  intros d r [= <-]. unfold frame_size. simpl. lia.
Qed.

Lemma script_grows_item stack : script_grows stack (decode_script_item stack).
Proof.
  apply script_grows_bind. intros len. apply script_grows_bind. intros tag.
  destruct tag as [|p|p]; [|do 3 (try destruct p as [p|p|])|];
    repeat first [apply script_grows_err | apply script_grows_value | apply script_grows_open
                 | apply script_grows_bind; intros ? | case_match].
Qed.

Lemma reads_integer n : reads n true Decoder_integer.
Proof.
  apply reads_peek; [apply peek_major_fuel|]. intros m.
  repeat case_goal; try apply reads_err.
  - apply reads_bind_l; [apply reads_expect_major|]. intros v. apply reads_lift.
    unfold i64_try_from. by case_match.
  - apply reads_bind_l; [apply reads_expect_major|]. intros v.
    apply reads_bind_r; [apply reads_lift; unfold i64_try_from; by case_match|].
    intros. apply reads_ret.
Qed.

Lemma reads_script_item n stack : reads n true (decode_script_item stack).
Proof.
  apply reads_bind_l; [apply reads_expect_major|]. intros len.
  eapply reads_weaken, reads_bind_l; [apply reads_expect_major|]. intros tag.
  assert (Hlen : forall k, reads n false (dlift (expect_len k len)))
    by (intros k; apply reads_lift; unfold expect_len; by case_match).
  assert (Hdep : reads n false (dlift (check_script_depth stack)))
    by (apply reads_lift; unfold check_script_depth; by case_match).
  assert (Hopen : forall kind, reads n false (open_frame kind stack)).
  { intros kind. eapply reads_weaken, reads_bind_l; [apply reads_expect_major|].
    intros c. case_match; apply reads_ret. }
  assert (Hslot : forall f : Z -> NativeScript,
    reads n false (slot <- Decoder_unsigned ;; dret (stack, Some (f slot)))).
  { intros f. eapply reads_weaken, reads_bind_l; [apply reads_expect_major|]. intros. apply reads_ret. }
  destruct tag as [|p|p]; [| |apply reads_err].
  - apply reads_bind_r; [apply Hlen|]. intros _.
    eapply reads_weaken, reads_bind_l; [apply reads_bytes|]. intros raw.
    case_match; [apply reads_ret|apply reads_err].
  - do 3 (try destruct p as [p|p|]); try apply reads_err;
      (apply reads_bind_r; [apply Hlen|intros _]); try apply Hslot;
      try (apply reads_bind_r; [apply Hdep|intros _]; apply Hopen).
    eapply reads_weaken, reads_bind_l; [apply reads_integer|]. intros k.
    apply reads_bind_r; [apply Hdep|intros _]. apply Hopen.
Qed.

Lemma script_turn_decreases s :
  dec_wf s.2 ->
  post (fun r => match r with
    | inl s' => advanced false s.2 s'.2
        /\ (3 * left_of s'.2 + frame_size s'.1 < 3 * left_of s.2 + frame_size s.1)%nat
    | inr p => advanced false s.2 p.2
    end) (script_turn s).
Proof.
  destruct s as [[stack [v|]] d]; cbn [fst snd]; intros Hd; pose proof (advanced_refl d Hd).
  - cbn [script_turn post]. destruct stack as [|f stack]; [done|]. cbn [place_script].
    case_match; cbn [fst snd]; (split; [done|]); unfold frame_size; simpl; lia.
  - pose proof (reads_script_item (S (left_of d)) stack d Hd ltac:(lia)) as Hr.
    pose proof (script_grows_item stack d) as Hg. cbn [script_turn].
    destruct (decode_script_item stack d) as [[s' d']| | |]; simpl in *; try done.
    specialize (Hg _ eq_refl). pose proof (advanced_left _ _ _ Hr). simpl in *.
    split; [by eapply advanced_weaken|]. unfold frame_size in *. simpl in *. lia.
Qed.

Lemma reads_native_script n : reads n false NativeScript_decode_cbor.
Proof.
  intros d Hd _. unfold NativeScript_decode_cbor.
  apply (post_loopM (fun s : list ScriptFrame * option NativeScript * Decoder =>
                       advanced false d s.2) _
           (fun s => 3 * left_of s.2 + frame_size s.1)%nat).
  - intros s Hs. eapply post_mono; [apply script_turn_decreases, Hs|].
    intros [s'|[v d']]; simpl.
    + intros [Ha Hlt]. split; [by eapply (advanced_trans false false)|done].
    + intros Ha. by eapply (advanced_trans false false).
  - by apply advanced_refl.
  - unfold script_fuel, left_of, frame_size, zlength. destruct Hd as [[??] _]. simpl. lia.
Qed.

Lemma decodes_native_script s :
  script_ok s -> script_depth s <= NATIVE_MAX_DECODE_DEPTH ->
  decodes NativeScript_decode_cbor (script_encoding s) s.
Proof.
  intros Hok Hdep pre suf Hlen.
  destruct (script_encoding_reads s Hok [] pre suf) as (n & Hn & Hr);
    [by rewrite zlength_nil|done|].
  unfold NativeScript_decode_cbor. eapply runs_returns; [exact Hr|done|].
  unfold script_fuel, at_. simpl data. rewrite !length_app. lia.
Qed.

(** ** Properties *)

(** Native scripts are read back: the encoder, which walks the script with an
    explicit stack, writes the recursive encoding, and the decoder, with a
    stack of frames, turns it into the script again, up to the nesting depth
    of 256. *)
Theorem native_script_round_trip s :
  script_ok s -> script_depth s <= NATIVE_MAX_DECODE_DEPTH ->
  exists bs, NativeScript_encode_cbor s = Ok bs /\ bs = script_encoding s
    /\ decodes NativeScript_decode_cbor bs s.
Proof.
  intros Hok Hdep. exists (script_encoding s).
  split_and!; [apply encode_script_encoding|done|by apply decodes_native_script].
Qed.
Lemma native_script_round_trip_witness :
  let s := ScriptNOfK 1 [ScriptPubkey (repeat 7 28); ScriptAll [InvalidBefore 5; InvalidHereafter 9]] in
  script_ok s /\ script_depth s <= NATIVE_MAX_DECODE_DEPTH
  /\ exists bs, NativeScript_encode_cbor s = Ok bs /\ bs = script_encoding s
       /\ decodes NativeScript_decode_cbor bs s.
Proof.
  set (s := ScriptNOfK 1 _). cbv zeta.
  assert (Hok : script_ok s).
  { subst s. simpl. unfold i64, I64_MIN, I64_MAX, u64, U64_MAX. split_and!; try lia; done. }
  assert (Hd : script_depth s <= NATIVE_MAX_DECODE_DEPTH) by (subst s; by vm_compute).
  split; [exact Hok|]. split; [exact Hd|]. exact (native_script_round_trip s Hok Hd).
Defined.
