(* ===== verification/Fees.v ===== *)
(** * Minimum fees

    Model of the linear and script-execution parts of
    [crates/ledger/src/fees.rs]: rational arithmetic on [u128] with a binary
    greatest common divisor, and the fee, size and execution-unit checks the
    mempool and the ledger rules share. *)

From S2P Require Import Prelude Cbor Types ProtocolParams.
Local Open Scope Z_scope.

(** ** [u128] arithmetic *)

Definition wrap128 (z : Z) : Z := z mod 2 ^ 128.
Definition u128 (z : Z) : Prop := 0 <= z < 2 ^ 128.
Definition sat_mul (z w : Z) : Z := Z.min (z * w) U64_MAX.

(** Functions without a [Result]: they return or panic. *)
Definition fee_outcome := outcome Empty_set.
Definition div_u128 (a b : Z) : fee_outcome Z := if b =? 0 then Panic else Ok (a / b).

Fixpoint pos_trailing_zeros (p : positive) : Z :=
  match p with
  | xO p => 1 + pos_trailing_zeros p
  | _ => 0
  end.
Definition trailing_zeros (z : Z) : Z :=
  match z with Zpos p => pos_trailing_zeros p | _ => 128 end.

(** One turn of the loop of [gcd_u128]: [inr] is the result before the final
    shift. *)
Definition gcd_turn (st : Z * Z) : fee_outcome (Z * Z + Z) :=
  let '(a, b) := st in
  let b := Z.shiftr b (trailing_zeros b) in
  let '(a, b) := if b <? a then (b, a) else (a, b) in
  let b := b - a in
  if b =? 0 then Ok (inr a) else Ok (inl (a, b)).

(** 257 turns are enough for 128-bit operands: the product of the two numbers
    halves every turn. *)
Definition gcd_u128 (a b : Z) : fee_outcome Z :=
  if a =? 0 then Ok b
  else if b =? 0 then Ok a
  else
    let shift := trailing_zeros (Z.lor a b) in
    let a := Z.shiftr a (trailing_zeros a) in
    let? r := loopM 257 gcd_turn (a, b) in
    Ok (wrap128 (Z.shiftl r shift)).

(** ** Fees *)

Definition min_fee_linear (params : ProtocolParameters) (tx_size_bytes : Z) : Z :=
  sat_add (sat_mul (min_fee_a params) tx_size_bytes) (min_fee_b params).

(** One iteration of the accumulation loop of [script_fee]. *)
Definition script_fee_step (acc : Z * Z) (value : Z) (ratio : option UnitInterval)
    : fee_outcome (Z * Z) :=
  let '(acc_num, acc_den) := acc in
  match ratio with
  | None => Ok acc
  | Some ratio =>
      if (denominator ratio =? 0) || (numerator ratio =? 0) || (value =? 0) then Ok acc
      else
        let term_num := wrap128 (value * numerator ratio) in
        let term_den := denominator ratio in
        let acc_num := wrap128 (wrap128 (acc_num * term_den) + wrap128 (term_num * acc_den)) in
        let acc_den := wrap128 (acc_den * term_den) in
        let? g := gcd_u128 acc_num acc_den in
        let? acc_num := div_u128 acc_num g in
        let? acc_den := div_u128 acc_den g in
        Ok (acc_num, acc_den)
  end.

(** [u128::div_ceil] *)
Definition div_ceil (a b : Z) : fee_outcome Z :=
  if b =? 0 then Panic else Ok ((a + b - 1) / b).

Definition script_fee (params : ProtocolParameters) (total_ex_units : ExUnits) : fee_outcome Z :=
  let? acc := script_fee_step (0, 1) (mem total_ex_units) (price_mem params) in
  let? acc := script_fee_step acc (steps total_ex_units) (price_step params) in
  let? q := div_ceil acc.1 acc.2 in
  Ok (wrap64 q).

Definition total_min_fee (params : ProtocolParameters) (tx_size_bytes : Z)
    (total_ex_units : option ExUnits) : fee_outcome Z :=
  let base := min_fee_linear params tx_size_bytes in
  match total_ex_units with
  | Some units => let? f := script_fee params units in Ok (sat_add base f)
  | None => Ok base
  end.

(** A panicking computation inside a function that returns a [Result]. *)
Definition lift_pure {E A} (m : fee_outcome A) : outcome E A :=
  match m with
  | Ok a => Ok a
  | Err e => match e with end
  | Panic => Panic
  | OutOfFuel => OutOfFuel
  end.

Definition validate_fee (params : ProtocolParameters) (tx_size_bytes : Z)
    (total_ex_units : option ExUnits) (declared_fee : Z) : outcome LedgerError unit :=
  let? min := lift_pure (total_min_fee params tx_size_bytes total_ex_units) in
  if declared_fee <? min then Err (FeeTooSmall min declared_fee) else Ok tt.

Definition validate_tx_ex_units (params : ProtocolParameters) (total_ex_units : ExUnits)
    : outcome LedgerError unit :=
  match max_tx_ex_units params with
  | Some max =>
      if (mem max <? mem total_ex_units) || (steps max <? steps total_ex_units)
      then Err (ExUnitsExceedTxLimit (mem total_ex_units) (steps total_ex_units)
                  (mem max) (steps max))
      else Ok tt
  | None => Ok tt
  end.

(** The same limit on each redeemer; only the units of a redeemer are read. *)
Fixpoint validate_per_redeemer_ex_units (params : ProtocolParameters) (redeemers : list ExUnits)
    : outcome LedgerError unit :=
  match redeemers with
  | [] => Ok tt
  | r :: redeemers =>
      let? _ := validate_tx_ex_units params r in
      validate_per_redeemer_ex_units params redeemers
  end.

Definition validate_tx_size (params : ProtocolParameters) (tx_size_bytes : Z)
    : outcome LedgerError unit :=
  if max_tx_size params <? tx_size_bytes
  then Err (TxTooLarge tx_size_bytes (max_tx_size params)) else Ok tt.

(** ** The binary greatest common divisor *)

Lemma pos_tz_nonneg p : 0 <= pos_trailing_zeros p.
Proof. induction p; simpl; lia. Qed.

(** A positive number is an odd number shifted by its trailing zeros. *)
Lemma pos_tz_odd p :
  exists q, Zpos p = 2 ^ pos_trailing_zeros p * q /\ Z.odd q = true /\ 0 < q
    /\ Z.shiftr (Zpos p) (pos_trailing_zeros p) = q.
Proof.
  assert (exists q, Zpos p = 2 ^ pos_trailing_zeros p * q /\ Z.odd q = true /\ 0 < q)
    as (q & Hp & Ho & Hq).
  { induction p as [p IH|p IH|].
    - exists (Zpos p~1). simpl. split_and!; [lia|done|lia].
    - destruct IH as (q & Hq & Ho & Hpos). exists q. split_and!; [|done|done].
      cbn [pos_trailing_zeros]. rewrite Z.pow_add_r by (lia || apply pos_tz_nonneg).
      rewrite Pos2Z.inj_xO, Hq. lia.
    - by exists 1. }
  exists q. split_and!; [done..|]. pose proof (pos_tz_nonneg p).
  rewrite Z.shiftr_div_pow2, Hp, Z.mul_comm by done. apply Z.div_mul.
  apply Z.pow_nonzero; lia.
Qed.

Lemma tz_odd z : 0 < z ->
  exists q, z = 2 ^ trailing_zeros z * q /\ Z.odd q = true /\ 0 < q
    /\ Z.shiftr z (trailing_zeros z) = q /\ 0 <= trailing_zeros z.
Proof.
  destruct z as [|p|p]; try lia. intros _. destruct (pos_tz_odd p) as (q & ? & ? & ? & ?).
  exists q. split_and!; [done..|]. apply pos_tz_nonneg.
Qed.

Lemma pos_tz_lor p q :
  pos_trailing_zeros (Pos.lor p q) = Z.min (pos_trailing_zeros p) (pos_trailing_zeros q).
Proof.
  revert q. induction p as [p IH|p IH|]; intros [q|q|]; simpl;
    try (pose proof (pos_tz_nonneg p)); try (pose proof (pos_tz_nonneg q));
    try rewrite IH; lia.
Qed.

Lemma odd_coprime_2 d : Z.odd d = true -> Z.coprime d 2.
Proof.
  intros Hod. apply Z.gcd_unique; [lia|apply Z.divide_1_l..|].
  intros x Hx1 Hx2. assert (Z.divide x (d - 2 * (d / 2))) as Hx
    by (apply Z.divide_sub_r; [done|by apply Z.divide_mul_l]).
  rewrite (Z.div_mod d 2) in Hx at 1 by lia. rewrite Zmod_odd, Hod in Hx.
  by replace (2 * (d / 2) + 1 - 2 * (d / 2)) with 1 in Hx by lia.
Qed.

Lemma odd_coprime_pow2 d k : Z.odd d = true -> 0 <= k -> Z.coprime d (2 ^ k).
Proof.
  intros Hod Hk. pattern k. apply natlike_ind; [|clear k Hk|done].
  - apply Z.gcd_1_r.
  - intros k Hk IH. rewrite Z.pow_succ_r by done.
    apply Z.coprime_mul_r; [by apply odd_coprime_2|done].
Qed.

Lemma odd_gcd_pow2 a k b : Z.odd a = true -> 0 <= k -> Z.gcd a (2 ^ k * b) = Z.gcd a b.
Proof.
  intros Ha Hk. apply Z.gcd_unique.
  - apply Z.gcd_nonneg.
  - apply Z.gcd_divide_l.
  - apply Z.divide_mul_r, Z.gcd_divide_r.
  - intros d Hd1 Hd2. apply Z.gcd_greatest; [done|].
    apply (Z.gauss d (2 ^ k)); [done|]. apply odd_coprime_pow2; [|done].
    destruct Hd1 as [e ->]. rewrite Z.odd_mul in Ha. by apply andb_true_iff in Ha as [_ ?].
Qed.

(** The loop: [a] odd; the product of [a] and the odd part of [b] halves. *)
Lemma gcd_turn_spec a b :
  Z.odd a = true -> 0 < a -> 0 < b ->
  match gcd_turn (a, b) with
  | Ok (inr g) => g = Z.gcd a b
  | Ok (inl (a', b')) =>
      Z.odd a' = true /\ 0 < a' /\ 0 < b' /\ Z.gcd a' b' = Z.gcd a b
      /\ 2 * (a' * Z.shiftr b' (trailing_zeros b')) <= a * Z.shiftr b (trailing_zeros b)
  | _ => False
  end.
Proof.
  intros Ha Hap Hbp. unfold gcd_turn.
  destruct (tz_odd b Hbp) as (q & Hb & Hqo & Hqp & Hq & Hk). rewrite Hq.
  assert (Z.gcd a q = Z.gcd a b) as Hg by (rewrite Hb; symmetry; by apply odd_gcd_pow2).
  assert (exists x y, (if q <? a then (q, a) else (a, q)) = (x, y) /\ 0 < x <= y
    /\ Z.odd x = true /\ Z.odd y = true /\ Z.gcd x y = Z.gcd a b /\ x * y = a * q)
    as (x & y & -> & Hxy & Hox & Hoy & Hgxy & Hprod).
  { destruct (q <? a) eqn:E; zbool; eexists _, _; split_and!; try done; try lia.
    by rewrite Z.gcd_comm. }
  destruct (y - x =? 0) eqn:E; zbool.
  - replace y with x in Hgxy by lia. rewrite Z.gcd_diag in Hgxy. lia.
  - assert (0 < y - x) as Hd by lia.
    destruct (tz_odd (y - x) Hd) as (r & Hr & Hro & Hrp & Hrq & Hrk). rewrite Hrq.
    assert (1 <= trailing_zeros (y - x)) as Htz.
    { enough (trailing_zeros (y - x) <> 0) by lia. intros Hz. rewrite Hz in Hr.
      assert (Z.odd (y - x) = true) as Hodd by (replace (y - x) with r by lia; done).
      by rewrite Z.odd_sub, Hox, Hoy in Hodd. }
    assert (2 * r <= y - x).
    { assert (2 ^ 1 <= 2 ^ trailing_zeros (y - x)) by (apply Z.pow_le_mono_r; lia). nia. }
    split_and!; [done|lia|lia| |nia].
    by rewrite Z.gcd_sub_diag_r.
Qed.

Lemma gcd_loop_spec n : forall a b,
  Z.odd a = true -> 0 < a -> 0 < b ->
  a * Z.shiftr b (trailing_zeros b) < 2 ^ Z.of_nat n ->
  loopM (S n) gcd_turn (a, b) = Ok (Z.gcd a b).
Proof.
  induction n as [|n IH]; intros a b Ha Hap Hbp Hm; cbn [loopM];
    pose proof (gcd_turn_spec a b Ha Hap Hbp) as Ht;
    destruct (gcd_turn (a, b)) as [[[a' b']|g]|e| |]; try done; cbn [obind]; try congruence;
    destruct Ht as (Ha' & Hap' & Hbp' & Hg & Hh).
  - destruct (tz_odd b' Hbp') as (q & _ & _ & Hq & Hs & _). rewrite Hs in Hh.
    destruct (tz_odd b Hbp) as (q0 & _ & _ & Hq0 & Hs0 & _). rewrite Hs0 in Hh, Hm.
    change (2 ^ Z.of_nat 0) with 1 in Hm. nia.
  - rewrite Nat2Z.inj_succ, Z.pow_succ_r in Hm by lia. rewrite <- Hg.
    apply IH; [done..|]. lia.
Qed.

Lemma gcd_u128_spec a b : u128 a -> u128 b -> gcd_u128 a b = Ok (Z.gcd a b).
Proof.
  unfold u128, gcd_u128. intros Ha Hb.
  destruct (a =? 0) eqn:Ea; zbool; [subst; rewrite Z.gcd_0_l, Z.abs_eq; [done|lia]|].
  destruct (b =? 0) eqn:Eb; zbool; [subst; rewrite Z.gcd_0_r, Z.abs_eq; [done|lia]|].
  destruct (tz_odd a ltac:(lia)) as (qa & Hqa & Hoa & Hpa & Hsa & Hka). rewrite Hsa.
  destruct (tz_odd b ltac:(lia)) as (qb & Hqb & Hob & Hpb & Hsb & Hkb).
  assert (forall k q z, 0 <= k -> 0 < q -> z = 2 ^ k * q -> q <= z) as Hle.
  { intros k q z Hk Hq ->. assert (0 < 2 ^ k) by (apply Z.pow_pos_nonneg; lia). nia. }
  pose proof (Hle _ _ _ Hka Hpa Hqa). pose proof (Hle _ _ _ Hkb Hpb Hqb).
  rewrite (gcd_loop_spec 256); [|done|lia|lia|].
  2: { rewrite Hsb. change (2 ^ Z.of_nat 256) with (2 ^ 128 * 2 ^ 128). nia. }
  cbn [obind].
  assert (trailing_zeros (Z.lor a b) = Z.min (trailing_zeros a) (trailing_zeros b)) as ->.
  { destruct a as [|p|p], b as [|p'|p']; try lia. simpl. apply pos_tz_lor. }
  rewrite Z.shiftl_mul_pow2 by lia.
  assert (Z.gcd qa b * 2 ^ Z.min (trailing_zeros a) (trailing_zeros b) = Z.gcd a b) as ->.
  { rewrite Hqb at 1. rewrite odd_gcd_pow2 by done. rewrite Hqa at 2. rewrite Hqb at 2.
    set (i := trailing_zeros a) in *. set (j := trailing_zeros b) in *.
    destruct (Z.le_ge_cases i j).
    - rewrite Z.min_l by done. replace j with (i + (j - i)) by lia.
      rewrite Z.pow_add_r, <- Z.mul_assoc, Z.gcd_mul_mono_l_nonneg by (apply Z.pow_nonneg || lia; lia).
      rewrite odd_gcd_pow2 by (done || lia). lia.
    - rewrite Z.min_r by done. replace i with (j + (i - j)) by lia.
      rewrite Z.pow_add_r, <- Z.mul_assoc, Z.gcd_mul_mono_l_nonneg by (apply Z.pow_nonneg || lia; lia).
      rewrite Z.gcd_comm, (Z.gcd_comm (_ * qa)), odd_gcd_pow2 by (done || lia). lia. }
  f_equal. apply Z.mod_small. split; [apply Z.gcd_nonneg|].
  assert (Z.gcd a b <= a) by (apply Z.divide_pos_le; [lia|apply Z.gcd_divide_l]). lia.
Qed.

(** ** The script fee *)

(** The term a price contributes, as a fraction. *)
Definition fee_term (value : Z) (ratio : option UnitInterval) : Z * Z :=
  match ratio with
  | None => (0, 1)
  | Some r =>
      if (denominator r =? 0) || (numerator r =? 0) || (value =? 0) then (0, 1)
      else (value * numerator r, denominator r)
  end.

(** The exact ceiling of [mem * price_mem + steps * price_step]. *)
Definition exact_script_fee (params : ProtocolParameters) (units : ExUnits) : Z :=
  let '(n1, d1) := fee_term (mem units) (price_mem params) in
  let '(n2, d2) := fee_term (steps units) (price_step params) in
  (n1 * d2 + n2 * d1 + d1 * d2 - 1) / (d1 * d2).

Definition ratio_ok (r : option UnitInterval) : Prop :=
  match r with Some r => u64 (numerator r) /\ u64 (denominator r) | None => True end.

(** The sum of the two terms over their common denominator fits [u128]. *)
Definition script_fee_fits (params : ProtocolParameters) (units : ExUnits) : Prop :=
  ratio_ok (price_mem params) /\ ratio_ok (price_step params)
  /\ u64 (mem units) /\ u64 (steps units)
  /\ let '(n1, d1) := fee_term (mem units) (price_mem params) in
     let '(n2, d2) := fee_term (steps units) (price_step params) in
     n1 * d2 + n2 * d1 < 2 ^ 128.

Lemma fee_term_bounds value ratio n d :
  u64 value -> ratio_ok ratio -> fee_term value ratio = (n, d) ->
  0 <= n /\ 1 <= d <= U64_MAX.
Proof.
  unfold fee_term, u64, ratio_ok, U64_MAX. intros Hv Hr.
  destruct ratio as [r|]; [|intros [= <- <-]; lia].
  destruct (_ || _) eqn:E; intros [= <- <-]; [lia|]. unfold u64, U64_MAX in Hr. zbool. nia.
Qed.

Lemma ceil_scale g n d : 0 < g -> 0 < d -> (g * n + g * d - 1) / (g * d) = (n + d - 1) / d.
Proof.
  intros Hg Hd. symmetry.
  pose proof (Z.div_mod (n + d - 1) d ltac:(lia)) as Hq.
  pose proof (Z.mod_pos_bound (n + d - 1) d Hd) as Hr.
  set (q := (n + d - 1) / d) in *. set (r := (n + d - 1) mod d) in *.
  apply (Z.div_unique _ _ q (g * r + g - 1)); [|nia]. left. nia.
Qed.

Lemma script_fee_step_exact n d value ratio t e :
  0 <= n -> 1 <= d -> u64 value -> ratio_ok ratio -> fee_term value ratio = (t, e) ->
  n * e + t * d < 2 ^ 128 -> d * e < 2 ^ 128 ->
  exists g n' d', script_fee_step (n, d) value ratio = Ok (n', d')
    /\ 0 < g /\ 0 <= n' /\ 1 <= d' /\ n * e + t * d = g * n' /\ d * e = g * d'.
Proof.
  intros Hn Hd Hv Hr Ht Hfit Hfit'. pose proof (fee_term_bounds _ _ _ _ Hv Hr Ht) as [Ht0 He].
  unfold fee_term, script_fee_step in *. destruct ratio as [r|].
  2: { injection Ht as <- <-. exists 1, n, d. split_and!; lia || done. }
  destruct (_ || _); injection Ht as <- <-.
  { exists 1, n, d. split_and!; lia || done. }
  set (t := value * numerator r) in *. set (e := denominator r) in *.
  assert (t <= t * d) by nia. assert (n * e <= n * e + t * d) by nia.
  unfold wrap128. rewrite !(Z.mod_small t), !(Z.mod_small (n * e)), !(Z.mod_small (t * d)),
    (Z.mod_small (n * e + t * d)), (Z.mod_small (d * e)) by nia.
  rewrite gcd_u128_spec by (unfold u128; nia). cbn [obind].
  set (g := Z.gcd (n * e + t * d) (d * e)).
  assert (0 < g) as Hg.
  { pose proof (Z.gcd_nonneg (n * e + t * d) (d * e)). enough (g <> 0) by lia.
    intros Hz. apply Z.gcd_eq_0_r in Hz. nia. }
  destruct (Z.gcd_divide_l (n * e + t * d) (d * e)) as [n' Hn'].
  destruct (Z.gcd_divide_r (n * e + t * d) (d * e)) as [d' Hd'].
  fold g in Hn', Hd'. unfold div_u128. rewrite (proj2 (Z.eqb_neq g 0)) by lia. cbn [obind].
  rewrite Hn', Hd', !Z.div_mul by lia. exists g, n', d'. split_and!; nia || done.
Qed.

Lemma script_fee_spec params units :
  script_fee_fits params units ->
  script_fee params units = Ok (wrap64 (exact_script_fee params units)).
Proof.
  unfold script_fee_fits, exact_script_fee, script_fee. intros (Hr1 & Hr2 & Hm & Hs & Hfit).
  destruct (fee_term (mem units) _) as [t1 e1] eqn:E1.
  destruct (fee_term (steps units) _) as [t2 e2] eqn:E2.
  destruct (fee_term_bounds _ _ _ _ Hm Hr1 E1). destruct (fee_term_bounds _ _ _ _ Hs Hr2 E2).
  unfold U64_MAX in *.
  destruct (script_fee_step_exact 0 1 (mem units) (price_mem params) t1 e1)
    as (g1 & n1 & d1 & -> & Hg1 & Hn1 & Hd1 & HN1 & HD1); [lia|lia|done|done|done|nia|lia|].
  cbn [obind].
  assert (n1 * e2 + t2 * d1 <= g1 * (n1 * e2 + t2 * d1)) by nia.
  assert (g1 * (n1 * e2 + t2 * d1) = t1 * e2 + t2 * e1) as Hsum by nia.
  assert (d1 <= e1) by nia. assert (d1 * e2 < 2 ^ 128) by nia.
  destruct (script_fee_step_exact n1 d1 (steps units) (price_step params) t2 e2)
    as (g2 & n2 & d2 & -> & Hg2 & Hn2 & Hd2 & HN2 & HD2); [lia|lia|done|done|done|lia|lia|].
  cbn [obind fst snd]. unfold div_ceil. rewrite (proj2 (Z.eqb_neq d2 0)) by lia. cbn [obind].
  do 2 f_equal. rewrite <- (ceil_scale (g1 * g2) n2 d2) by nia.
  f_equal; nia.
Qed.

(** ** Properties *)

(** The binary gcd of [gcd_u128] terminates on every pair of [u128]
    operands and returns their greatest common divisor. *)
Theorem gcd_u128_correct (a b : Z) (Ha : u128 a) (Hb : u128 b) :
  gcd_u128 a b = Ok (Z.gcd a b).
Proof. by apply gcd_u128_spec. Qed.

Lemma gcd_u128_correct_witness : gcd_u128 (2 ^ 127 * 1) 48 = Ok 16.
Proof. apply (gcd_u128_correct (2 ^ 127 * 1) 48); unfold u128; lia. Defined.

(** The script fee is the exact ceiling of the rational
    [mem * price_mem + steps * price_step] (cast to [u64]), without a panic,
    whenever the two terms over their common denominator fit [u128]; prices
    that are absent or zero contribute nothing. *)
Theorem script_fee_exact (params : ProtocolParameters) (units : ExUnits)
    (Hfit : script_fee_fits params units) :
  script_fee params units = Ok (wrap64 (exact_script_fee params units)).
Proof. by apply script_fee_spec. Qed.

(** The mainnet prices 577/10000 and 721/10000000. *)
Lemma script_fee_exact_witness :
  script_fee alonzo_defaults (mkExUnits 1234567 987654321)
  = Ok 142445.
Proof.
  refine (script_fee_exact _ _ _). vm_compute. repeat split; congruence.
Defined.
