(* ===== verification/FeeTiers.v ===== *)
(** * The fee for reference scripts

    The Conway part of [crates/ledger/src/fees.rs]: the price per byte of
    reference scripts grows by a fifth every 25600 bytes, computed with
    fractions of [u128] numbers, and the minimum fee that includes it. *)

From S2P Require Import Prelude Cbor Types ProtocolParams Fees.
Local Open Scope Z_scope.

Definition REF_SCRIPT_COST_MULTIPLIER_NUM : Z := 6.
Definition REF_SCRIPT_COST_MULTIPLIER_DEN : Z := 5.
Definition REF_SCRIPT_COST_STRIDE : Z := 25600.

(** Dividing both parts of a fraction by their gcd. *)
Definition reduce_fraction (num den : Z) : fee_outcome (Z * Z) :=
  let? g := gcd_u128 num den in
  let? num := div_u128 num g in
  let? den := div_u128 den g in
  Ok (num, den).

(** [acc += chunk_num / chunk_den] *)
Definition add_chunk (acc : Z * Z) (chunk_num chunk_den : Z) : fee_outcome (Z * Z) :=
  let '(acc_num, acc_den) := acc in
  reduce_fraction (wrap128 (wrap128 (acc_num * chunk_den) + wrap128 (chunk_num * acc_den)))
    (wrap128 (acc_den * chunk_den)).

(** The bytes that remain, the price of the tier, the fee so far. *)
Record TierState := mkTierState { ts_remaining : Z; ts_price : Z * Z; ts_acc : Z * Z }.

Definition tier_turn (s : TierState) : fee_outcome (TierState + TierState) :=
  if REF_SCRIPT_COST_STRIDE <=? ts_remaining s then
    let '(tp_num, tp_den) := ts_price s in
    let? acc := add_chunk (ts_acc s) (wrap128 (REF_SCRIPT_COST_STRIDE * tp_num)) tp_den in
    let? price :=
      reduce_fraction (wrap128 (tp_num * REF_SCRIPT_COST_MULTIPLIER_NUM))
        (wrap128 (tp_den * REF_SCRIPT_COST_MULTIPLIER_DEN)) in
    Ok (inl (mkTierState (ts_remaining s - REF_SCRIPT_COST_STRIDE) price acc))
  else Ok (inr s).

(** One turn per full tier, and the one that leaves the loop. *)
Definition tier_fuel (size : Z) : nat := S (Z.to_nat (size / REF_SCRIPT_COST_STRIDE)).

Definition tier_ref_script_fee (base_fee : UnitInterval) (total_ref_script_size : Z)
    : fee_outcome Z :=
  if (total_ref_script_size =? 0) || (numerator base_fee =? 0) then Ok 0
  else if denominator base_fee =? 0 then Ok 0
  else
    let? s := loopM (tier_fuel total_ref_script_size) tier_turn
                (mkTierState total_ref_script_size (numerator base_fee, denominator base_fee)
                   (0, 1)) in
    let? acc :=
      if 0 <? ts_remaining s
      then add_chunk (ts_acc s) (wrap128 (ts_remaining s * (ts_price s).1)) (ts_price s).2
      else Ok (ts_acc s) in
    let? q := div_u128 acc.1 acc.2 in
    Ok (wrap64 q).

Definition conway_total_min_fee (params : ProtocolParameters) (tx_size_bytes : Z)
    (total_ex_units : option ExUnits) (ref_scripts_size : Z) : fee_outcome Z :=
  let? base := total_min_fee params tx_size_bytes total_ex_units in
  let? ref_fee :=
    match min_fee_ref_script_cost_per_byte params with
    | Some cost => tier_ref_script_fee cost ref_scripts_size
    | None => Ok 0
    end in
  Ok (sat_add base ref_fee).

Definition validate_conway_fee (params : ProtocolParameters) (tx_size_bytes : Z)
    (total_ex_units : option ExUnits) (ref_scripts_size declared_fee : Z)
    : outcome LedgerError unit :=
  let? min :=
    lift_pure (conway_total_min_fee params tx_size_bytes total_ex_units ref_scripts_size) in
  if declared_fee <? min then Err (FeeTooSmall min declared_fee) else Ok tt.

(** ** Fractions *)

Lemma reduce_fraction_spec n d :
  0 <= n < 2 ^ 128 -> 0 < d < 2 ^ 128 ->
  exists n' d', reduce_fraction n d = Ok (n', d')
    /\ 0 <= n' <= n /\ 0 < d' <= d /\ n * d' = n' * d /\ Z.gcd n' d' = 1 /\ (0 < n -> 0 < n').
Proof.
  intros Hn Hd. unfold reduce_fraction. rewrite gcd_u128_spec by (unfold u128; lia). cbn [obind].
  set (g := Z.gcd n d).
  assert (Hg : 0 < g).
  { pose proof (Z.gcd_nonneg n d). enough (g <> 0) by lia. intros Hz.
    apply Z.gcd_eq_0_r in Hz. lia. }
  destruct (Z.gcd_divide_l n d) as [n' Hn']. destruct (Z.gcd_divide_r n d) as [d' Hd'].
  fold g in Hn', Hd'. unfold div_u128. rewrite (proj2 (Z.eqb_neq g 0)) by lia. cbn [obind].
  exists n', d'. rewrite Hn' at 1. rewrite Hd' at 1. rewrite !Z.div_mul by lia.
  assert (Z.gcd n' d' = 1).
  { apply Z.mul_reg_l with g; [lia|]. rewrite Z.mul_1_r, <- Z.gcd_mul_mono_l_nonneg by lia.
    rewrite !(Z.mul_comm g), <- Hn', <- Hd'. done. }
  split_and!; nia || done.
Qed.

Lemma add_chunk_spec an ad cn cd :
  0 <= an -> 0 < ad -> 0 <= cn -> 0 < cd -> an * cd + cn * ad < 2 ^ 128 -> ad * cd < 2 ^ 128 ->
  exists n d, add_chunk (an, ad) cn cd = Ok (n, d)
    /\ 0 <= n /\ 0 < d /\ Z.gcd n d = 1 /\ (an * cd + cn * ad) * d = n * (ad * cd).
Proof.
  intros Han Had Hcn Hcd HN HD. unfold add_chunk, wrap128.
  rewrite (Z.mod_small (an * cd)), (Z.mod_small (cn * ad)), !Z.mod_small by nia.
  destruct (reduce_fraction_spec (an * cd + cn * ad) (ad * cd))
    as (n & d & -> & Hn & Hd & He & Hg & _); [nia|nia|].
  exists n, d. split_and!; lia || done.
Qed.

Lemma div_cross n d z x : 0 < d -> 0 < x -> n * x = z * d -> n / d = z / x.
Proof.
  intros Hd Hx H. rewrite <- (Z.div_mul_cancel_r n d x), H by lia.
  rewrite (Z.mul_comm d x). apply Z.div_mul_cancel_r; lia.
Qed.

(** A reduced fraction equal to [y / x] has parts no larger than [y] and [x]. *)
Lemma reduced_bounds n d y x :
  0 <= n -> 0 < d -> 0 <= y -> 0 < x -> Z.gcd n d = 1 -> n * x = y * d -> n <= y /\ d <= x.
Proof.
  intros Hn Hd Hy Hx Hg H.
  assert (Hdiv : (d | x)).
  { apply (Z.gauss d n x); [exists y; lia|]. by rewrite Z.gcd_comm. }
  destruct Hdiv as [q Hq]. assert (0 < q) by nia. nia.
Qed.

(** ** The loop *)

Section tiers.
  Context (num den : Z).
  Hypothesis Hnum : 0 < num <= 2 ^ 32.
  Hypothesis Hden : 0 < den <= 2 ^ 32.

(** Before tier [j], over the denominator [den * 5^j]: the price and the fee
    so far, the sum of a geometric series. *)
Definition price_at (j : Z) : Z := num * 6 ^ j.
Definition fee_at (j : Z) : Z := num * (128000 * (6 ^ j - 5 ^ j)).
Definition den_at (j : Z) : Z := den * 5 ^ j.

Record tier_inv (size j : Z) (s : TierState) : Prop := {
  ti_remaining : ts_remaining s = size - 25600 * j;
  ti_price_pos : 0 < (ts_price s).1 <= price_at j /\ 0 < (ts_price s).2 <= den_at j;
  ti_price : (ts_price s).1 * den_at j = price_at j * (ts_price s).2;
  ti_acc_pos : 0 <= (ts_acc s).1 /\ 0 < (ts_acc s).2;
  ti_reduced : Z.gcd (ts_acc s).1 (ts_acc s).2 = 1;
  ti_acc : (ts_acc s).1 * den_at j = fee_at j * (ts_acc s).2 }.

Lemma powers j :
  0 <= j <= 8 ->
  1 <= 5 ^ j <= 390625 /\ 5 ^ j <= 6 ^ j /\ 6 ^ j <= 1679616
  /\ 6 ^ (j + 1) = 6 * 6 ^ j /\ 5 ^ (j + 1) = 5 * 5 ^ j.
Proof.
  intros Hj. pose proof (Z.pow_le_mono_r 5 j 8 ltac:(lia) ltac:(lia)).
  pose proof (Z.pow_le_mono_r 6 j 8 ltac:(lia) ltac:(lia)).
  pose proof (Z.pow_pos_nonneg 5 j ltac:(lia) ltac:(lia)).
  pose proof (Z.pow_le_mono_l 5 6 j ltac:(lia)).
  rewrite (Z.pow_add_r 6), (Z.pow_add_r 5) by lia. lia.
Qed.

Lemma at_bounds j :
  0 <= j <= 8 ->
  0 < price_at j <= 2 ^ 53 /\ 0 <= fee_at j <= 2 ^ 70 /\ 0 < den_at j <= 2 ^ 51.
Proof.
  intros Hj. destruct (powers j Hj) as (H5 & H56 & H6 & _).
  unfold price_at, fee_at, den_at. split_and!; nia.
Qed.

Lemma at_succ j :
  0 <= j <= 8 -> price_at (j + 1) = 6 * price_at j /\ den_at (j + 1) = 5 * den_at j
    /\ fee_at (j + 1) = 5 * fee_at j + 128000 * price_at j.
Proof.
  intros Hj. destruct (powers j Hj) as (_ & _ & _ & E6 & E5).
  unfold price_at, fee_at, den_at. rewrite E6, E5. lia.
Qed.

(** Adding [bytes] at the price of tier [j]. *)
Lemma add_tier size j s bytes :
  0 <= j <= 8 -> 0 <= bytes <= 25600 -> tier_inv size j s ->
  exists n d, add_chunk (ts_acc s) (wrap128 (bytes * (ts_price s).1)) (ts_price s).2 = Ok (n, d)
    /\ 0 <= n /\ 0 < d /\ Z.gcd n d = 1 /\ n * den_at j = (fee_at j + bytes * price_at j) * d.
Proof.
  intros Hj Hb [_ [Htn Htd] Ht [Han Had] Hg Ha].
  destruct s as [rem [tn td] [an ad]]. cbn [ts_price ts_acc fst snd] in *.
  destruct (at_bounds j Hj) as (HW & HY & HX).
  destruct (reduced_bounds an ad (fee_at j) (den_at j)) as [Hany Hadx]; try done; try lia.
  assert (Hcn : 0 <= bytes * tn <= 2 ^ 68) by nia.
  unfold wrap128. rewrite (Z.mod_small (bytes * tn)) by lia.
  assert (an * td <= 2 ^ 70 * 2 ^ 51) by nia. assert (bytes * tn * ad <= 2 ^ 68 * 2 ^ 51) by nia.
  assert (ad * td <= 2 ^ 51 * 2 ^ 51) by nia.
  destruct (add_chunk_spec an ad (bytes * tn) td) as (n & d & -> & Hn & Hd & Hgcd & Heq);
    [lia..|].
  exists n, d. split_and!; try done.
  apply Z.mul_reg_r with (ad * td); [nia|].
  transitivity ((an * td + bytes * tn * ad) * d * den_at j); [rewrite Heq; ring|].
  transitivity ((an * den_at j) * td * d + bytes * (tn * den_at j) * ad * d); [ring|].
  rewrite Ha, Ht. ring.
Qed.

Lemma tier_step size j s :
  0 <= j <= 7 -> tier_inv size j s -> 25600 <= ts_remaining s ->
  exists s', tier_turn s = Ok (inl s') /\ tier_inv size (j + 1) s'.
Proof.
  intros Hj Hinv Hrem. destruct (add_tier size j s 25600) as (n & d & Hadd & Hn & Hd & Hg & Ha);
    [lia|lia|done|].
  destruct Hinv as [Hr [Htn Htd] Ht _ _ _]. unfold tier_turn, REF_SCRIPT_COST_STRIDE.
  rewrite (proj2 (Z.leb_le _ _)) by lia.
  destruct s as [rem [tn td] acc]. cbn [ts_price ts_acc ts_remaining fst snd] in *.
  rewrite Hadd. cbn [obind]. destruct (at_bounds j ltac:(lia)) as (HW & HY & HX).
  unfold REF_SCRIPT_COST_MULTIPLIER_NUM, REF_SCRIPT_COST_MULTIPLIER_DEN, wrap128.
  rewrite (Z.mod_small (tn * 6)), (Z.mod_small (td * 5)) by lia.
  destruct (reduce_fraction_spec (tn * 6) (td * 5)) as (tn' & td' & -> & Htn' & Htd' & He & _ & Hpos);
    [lia|lia|]. cbn [obind]. destruct (at_succ j ltac:(lia)) as (EW & EX & EY).
  eexists. split; [done|]. specialize (Hpos ltac:(lia)).
  constructor; cbn [ts_price ts_acc ts_remaining fst snd].
  - lia.
  - rewrite EW, EX. lia.
  - rewrite EW, EX. apply Z.mul_reg_r with (5 * td); [lia|].
    transitivity (tn' * (td * 5) * (5 * den_at j)); [ring|]. rewrite <- He.
    transitivity (30 * (tn * den_at j) * td'); [ring|]. rewrite Ht. ring.
  - done.
  - done.
  - rewrite EX, EY. transitivity (5 * (n * den_at j)); [ring|]. rewrite Ha. ring.
Qed.

Lemma tier_loop size n j s :
  0 <= j -> j + Z.of_nat n <= 8 -> tier_inv size j s ->
  25600 * Z.of_nat n <= ts_remaining s < 25600 * (Z.of_nat n + 1) ->
  exists s', loopM (S n) tier_turn s = Ok s' /\ tier_inv size (j + Z.of_nat n) s'.
Proof.
  revert j s. induction n as [|n IH]; intros j s Hj Hle Hinv Hrem.
  - exists s. rewrite Z.add_0_r. split; [|done]. cbn [loopM]. unfold tier_turn, REF_SCRIPT_COST_STRIDE.
    by rewrite (proj2 (Z.leb_gt _ _)) by lia.
  - destruct (tier_step size j s) as (s' & Hs' & Hinv'); [lia|done|lia|].
    destruct (IH (j + 1) s') as (s'' & Hs'' & Hinv''); [lia|lia|done| |].
    { destruct Hinv as [Hr _ _ _ _ _]. destruct Hinv' as [Hr' _ _ _ _ _]. lia. }
    exists s''. split; [|by replace (j + Z.of_nat (S n)) with (j + 1 + Z.of_nat n) by lia].
    cbn [loopM]. rewrite Hs'. cbn [obind]. exact Hs''.
Qed.
End tiers.

(** ** The fee *)

(** The fee of [size] bytes at [base] per byte: [k] full tiers, each a fifth
    dearer than the one before, and the rest at the price of tier [k]; the
    series is summed and rounded down. *)
Definition exact_tier_fee (base : UnitInterval) (size : Z) : Z :=
  let k := size / 25600 in
  numerator base * (128000 * (6 ^ k - 5 ^ k) + size mod 25600 * 6 ^ k)
  / (denominator base * 5 ^ k).

Lemma tier_fee_wraps (base : UnitInterval) (size : Z)
    (Hnum : 0 < numerator base <= 2 ^ 32) (Hden : 0 < denominator base <= 2 ^ 32)
    (Hsize : 0 <= size <= 204800) :
  tier_ref_script_fee base size = Ok (wrap64 (exact_tier_fee base size)).
Proof.
  unfold tier_ref_script_fee, exact_tier_fee. set (k := size / 25600).
  assert (Hk : 0 <= k <= 8) by (unfold k; split; [apply Z.div_pos; lia|apply Z.div_le_upper_bound; lia]).
  pose proof (Z.div_mod size 25600 ltac:(lia)) as Hdm. fold k in Hdm.
  pose proof (Z.mod_pos_bound size 25600 ltac:(lia)) as Hm.
  destruct (size =? 0) eqn:E0; zbool.
  { subst size. cbn [orb]. do 2 f_equal. subst k. cbn. by rewrite Z.mul_0_r. }
  rewrite (proj2 (Z.eqb_neq (numerator base) 0)), (proj2 (Z.eqb_neq (denominator base) 0)) by lia.
  cbn [orb]. set (s0 := mkTierState _ _ _).
  assert (Hinv0 : tier_inv (numerator base) (denominator base) size 0 s0).
  { constructor; unfold price_at, fee_at, den_at; cbn [s0 ts_remaining ts_price ts_acc fst snd]; lia || done. }
  destruct (tier_loop _ _ Hnum Hden size (Z.to_nat k) 0 s0) as (s & Hs & Hinv);
    [lia|lia|done|cbn [s0 ts_remaining]; lia|].
  rewrite Z.add_0_l, Z2Nat.id in Hinv by lia. unfold tier_fuel, REF_SCRIPT_COST_STRIDE. fold k.
  rewrite Hs. cbn [obind].
  assert (Hrem : ts_remaining s = size mod 25600) by (destruct Hinv as [Hr _ _ _ _ _]; lia).
  destruct (add_tier _ _ Hnum Hden size k s (ts_remaining s)) as (n & d & Hadd & Hn & Hd & _ & Ha);
    [lia|lia|done|].
  assert (Hfinal : forall a b, 0 < b ->
    a * den_at (denominator base) k
    = (fee_at (numerator base) k + ts_remaining s * price_at (numerator base) k) * b ->
    div_u128 a b = Ok (numerator base * (128000 * (6 ^ k - 5 ^ k) + size mod 25600 * 6 ^ k)
                       / (denominator base * 5 ^ k))).
  { intros a b Hb Hab. unfold div_u128. rewrite (proj2 (Z.eqb_neq b 0)) by lia. f_equal.
    destruct (at_bounds _ _ Hnum Hden k Hk) as (_ & _ & HX).
    apply (div_cross a b _ _ Hb); [unfold den_at in HX; lia|].
    unfold den_at, fee_at, price_at in Hab. rewrite Hab, Hrem. ring. }
  destruct (0 <? ts_remaining s) eqn:Er; zbool.
  - rewrite Hadd. cbn [obind fst snd]. by rewrite (Hfinal n d Hd Ha).
  - cbn [obind]. destruct Hinv as [_ _ _ [Hap Hadp] _ Hacc].
    rewrite (Hfinal _ _ Hadp); [done|]. replace (ts_remaining s) with 0 by lia. rewrite Hacc. ring.
Qed.

(** With such prices the fee is small. *)
Lemma exact_fee_bound (base : UnitInterval) (size : Z) :
  0 <= numerator base <= 2 ^ 32 -> 0 < denominator base -> 0 <= size <= 204800 ->
  u64 (exact_tier_fee base size).
Proof.
  intros Hn Hd Hs. unfold exact_tier_fee. set (k := size / 25600).
  assert (Hk : 0 <= k <= 8) by (unfold k; split; [apply Z.div_pos; lia|apply Z.div_le_upper_bound; lia]).
  pose proof (Z.mod_pos_bound size 25600 ltac:(lia)) as Hm. set (r := size mod 25600) in *. clearbody k r.
  assert (Hc : 0 < 5 ^ k /\ 0 <= 128000 * (6 ^ k - 5 ^ k) + r * 6 ^ k <= 2 ^ 20 * 5 ^ k).
  { assert (k = 0 \/ k = 1 \/ k = 2 \/ k = 3 \/ k = 4 \/ k = 5 \/ k = 6 \/ k = 7 \/ k = 8) as Hcases by lia.
    destruct Hcases as [->|[->|[->|[->|[->|[->|[->|[->| ->]]]]]]]];
      match goal with |- context [6 ^ ?e] => let x := eval vm_compute in (6 ^ e) in let y := eval vm_compute in (5 ^ e) in
        change (6 ^ e) with x; change (5 ^ e) with y end; change (2 ^ 20) with 1048576; lia. }
  destruct Hc as [H5 [Hc0 Hc]]. set (c := 128000 * (6 ^ k - 5 ^ k) + r * 6 ^ k) in *. clearbody c.
  set (q := 5 ^ k) in *. clearbody q. unfold u64. split.
  - apply Z.div_pos; nia.
  - apply Z.div_le_upper_bound; [nia|]. apply (Z.le_trans _ (2 ^ 32 * (2 ^ 20 * q))); [nia|].
    unfold U64_MAX. change (2 ^ 32) with 4294967296. change (2 ^ 20) with 1048576. nia.
Qed.

(** C40: for every price per byte whose numerator and denominator fit 32 bits
    and every reference-script size a transaction may have, the tiered fee is
    the rounded-down sum of the geometric series of the tiers, without overflow
    or panic. Prices with larger terms overflow the 128 bits of the sum: at
    fifteen lovelace per byte, written over [2^59 + 1], 60000 bytes cost nothing
    instead of 1034879 lovelace. *)
Theorem tier_fee_exact (base : UnitInterval) (size : Z) :
  0 <= numerator base <= 2 ^ 32 -> 0 < denominator base <= 2 ^ 32 -> 0 <= size <= 204800 ->
  tier_ref_script_fee base size = Ok (exact_tier_fee base size)
  /\ (let large := mkUnitInterval (15 * 2 ^ 59 + 1) (2 ^ 59 + 1) in
      tier_ref_script_fee large 60000 = Ok 0 /\ exact_tier_fee large 60000 = 1034879).
Proof.
  intros Hn Hd Hs. split; [|by vm_compute]. destruct (Z.eq_dec (numerator base) 0) as [Hz|Hz].
  - unfold tier_ref_script_fee, exact_tier_fee. rewrite Hz, orb_true_r. cbn [Z.mul].
    assert (0 < 5 ^ (size / 25600)) by (apply Z.pow_pos_nonneg; [lia|apply Z.div_pos; lia]).
    by rewrite Z.div_0_l by nia.
  - rewrite tier_fee_wraps by lia. by rewrite wrap64_id by (apply exact_fee_bound; lia).
Qed.

(** 60000 bytes at 15 lovelace per byte: two full tiers and a third. *)
Lemma tier_fee_exact_witness :
  tier_ref_script_fee (mkUnitInterval 15 1) 60000 = Ok 1034880.
Proof.
  refine (proj1 (tier_fee_exact (mkUnitInterval 15 1) 60000 _ _ _)); cbn; lia.
Defined.
