(* ===== verification/WideArith.v ===== *)
(** * 256- and 512-bit arithmetic

    Model of the wide integers of [crates/ledger/src/rewards.rs]: [U256] and
    [U512] as pairs of halves, with the carries, borrows, truncations and
    binary long divisions written as in the source, and the value each
    operation computes. *)

From S2P Require Import Prelude Cbor Types ProtocolParams Fees.
Local Open Scope Z_scope.

(** ** Operations on [u128] *)

Definition U128_MAX : Z := 340282366920938463463374607431768211455.
Definition overflowing_add (a b : Z) : Z * bool := (wrap128 (a + b), 2 ^ 128 <=? a + b).
Definition overflowing_sub (a b : Z) : Z * bool := (wrap128 (a - b), a <? b).
Definition checked_mul128 (a b : Z) : option Z := if a * b <? 2 ^ 128 then Some (a * b) else None.
Definition sat_mul128 (a b : Z) : Z := Z.min (a * b) U128_MAX.
Definition sat_add128 (a b : Z) : Z := Z.min (a + b) U128_MAX.

(** The loop of [gcd128] on 128-bit operands. *)
Fixpoint gcd_loop (fuel : nat) (a b : Z) : fee_outcome Z :=
  match fuel with
  | O => OutOfFuel
  | S fuel => if negb (b =? 0) then gcd_loop fuel b (a mod b) else Ok a
  end.
(** A remainder is at most half of what it replaces two turns later: 257 turns
    are enough. *)
Definition gcd128 (a b : Z) : fee_outcome Z := gcd_loop 257 a b.

(** ** [U256] *)

Record U256 := mkU256 { hi : Z; lo : Z }.
Definition U256_is_zero (x : U256) : bool := (hi x =? 0) && (lo x =? 0).
Definition U256_eqb (x y : U256) : bool := (hi x =? hi y) && (lo x =? lo y).
Definition U256_le (x y : U256) : bool :=
  (hi x <? hi y) || ((hi x =? hi y) && (lo x <=? lo y)).

Definition widening_mul (a b : Z) : U256 :=
  let al := wrap64 a in
  let ah := Z.shiftr a 64 in
  let bl := wrap64 b in
  let bh := Z.shiftr b 64 in
  let ll := wrap128 (al * bl) in
  let lh := wrap128 (al * bh) in
  let hl := wrap128 (ah * bl) in
  let hh := wrap128 (ah * bh) in
  let '(mid, carry_mid) := overflowing_add lh hl in
  let l := wrap128 (ll + wrap128 (Z.shiftl mid 64)) in
  let carry_lo := b2z (l <? ll) in
  let h := wrap128 (hh + Z.shiftr mid 64 + (if carry_mid then 2 ^ 64 else 0) + carry_lo) in
  mkU256 h l.
Definition U256_mul_u128 (x : U256) (b : Z) : U256 :=
  let lo_wide := widening_mul (lo x) b in
  let hi_low := wrap128 (hi x * b) in
  mkU256 (wrap128 (hi lo_wide + hi_low)) (lo lo_wide).
Definition U256_checked_sub (x y : U256) : U256 :=
  let '(l, borrow) := overflowing_sub (lo x) (lo y) in
  mkU256 (wrap128 (wrap128 (hi x - hi y) - b2z borrow)) l.

(** The loop of [div_u128]: [i] bits are left to shift in. *)
Fixpoint div128_loop (i : nat) (l d rem quot : Z) : Z :=
  match i with
  | O => quot
  | S i =>
      let bit := Z.land (Z.shiftr l (Z.of_nat i)) 1 in
      let overflow := 2 ^ 127 <=? rem in
      let rem := Z.lor (wrap128 (Z.shiftl rem 1)) bit in
      if overflow || (d <=? rem)
      then div128_loop i l d (wrap128 (rem - d)) (Z.lor quot (2 ^ Z.of_nat i))
      else div128_loop i l d rem quot
  end.
Definition U256_div_u128 (x : U256) (d : Z) : Z :=
  if d =? 0 then 0
  else if hi x =? 0 then lo x / d
  else if d <=? hi x then U128_MAX
  else div128_loop 128 (lo x) d (hi x) 0.

(** ** [U512] *)

Record U512 := mkU512 { hi512 : U256; lo512 : U256 }.
Definition U512_ZERO : U512 := mkU512 (mkU256 0 0) (mkU256 0 0).
Definition U512_eqb (x y : U512) : bool :=
  U256_eqb (hi512 x) (hi512 y) && U256_eqb (lo512 x) (lo512 y).
Definition U512_le (x y : U512) : bool :=
  if U256_eqb (hi512 x) (hi512 y) then U256_le (lo512 x) (lo512 y)
  else U256_le (hi512 x) (hi512 y) && negb (U256_eqb (hi512 x) (hi512 y)).
Definition U512_add (x y : U512) : U512 :=
  let '(lo_lo, c0) := overflowing_add (lo (lo512 x)) (lo (lo512 y)) in
  let '(lo_hi, c1a) := overflowing_add (hi (lo512 x)) (hi (lo512 y)) in
  let '(lo_hi, c1b) := overflowing_add lo_hi (b2z c0) in
  let carry_lo := b2z (c1a || c1b) in
  let '(hi_lo, c2) := overflowing_add (lo (hi512 x)) (lo (hi512 y)) in
  let '(hi_lo, c2b) := overflowing_add hi_lo carry_lo in
  let hi_hi := wrap128 (wrap128 (hi (hi512 x) + hi (hi512 y)) + b2z (c2 || c2b)) in
  mkU512 (mkU256 hi_hi hi_lo) (mkU256 lo_hi lo_lo).
Definition from_u256_times_u128 (a : U256) (b : Z) : U512 :=
  let lo_part := widening_mul (lo a) b in
  let hi_part := widening_mul (hi a) b in
  let '(mid, carry) := overflowing_add (hi lo_part) (lo hi_part) in
  mkU512 (mkU256 0 (wrap128 (hi hi_part + b2z carry))) (mkU256 mid (lo lo_part)).
Definition U512_mul_u128 (x : U512) (b : Z) : U512 :=
  let lo_wide := from_u256_times_u128 (lo512 x) b in
  let hi_wide := from_u256_times_u128 (hi512 x) b in
  U512_add lo_wide (mkU512 (lo512 hi_wide) (mkU256 0 0)).

Definition u512_mul_u256 (a b : U256) : U512 :=
  let p_lo_lo := widening_mul (lo a) (lo b) in
  let p_lo_hi := widening_mul (lo a) (hi b) in
  let p_hi_lo := widening_mul (hi a) (lo b) in
  let p_hi_hi := widening_mul (hi a) (hi b) in
  let '(mid1, c1) := overflowing_add (hi p_lo_lo) (lo p_lo_hi) in
  let '(hi_lo, c2) := overflowing_add 0 (hi p_lo_hi) in
  let '(hi_lo, c2b) := overflowing_add hi_lo (b2z c1) in
  let hi_hi_carry := b2z (c2 || c2b) in
  let '(mid2, c3) := overflowing_add mid1 (lo p_hi_lo) in
  let '(hi_lo, c4) := overflowing_add hi_lo (hi p_hi_lo) in
  let '(hi_lo, c4b) := overflowing_add hi_lo (b2z c3) in
  let hi_hi_carry := wrap128 (hi_hi_carry + b2z (c4 || c4b)) in
  let '(hi_lo, c5) := overflowing_add hi_lo (lo p_hi_hi) in
  let hi_hi := wrap128 (wrap128 (wrap128 (0 + hi p_hi_hi) + b2z c5) + hi_hi_carry) in
  mkU512 (mkU256 hi_hi hi_lo) (mkU256 mid2 (lo p_lo_lo)).

(** The binary search of [u256_div_floor]: at most 64 halvings. *)
Fixpoint div_floor_loop (fuel : nat) (num : U512) (den : U256) (lo_q hi_q : Z) : fee_outcome Z :=
  match fuel with
  | O => OutOfFuel
  | S fuel =>
      if lo_q <? hi_q then
        let mid := lo_q + (hi_q - lo_q + 1) / 2 in
        let prod := u512_mul_u256 den (mkU256 0 mid) in
        if U512_le prod num then div_floor_loop fuel num den mid hi_q
        else div_floor_loop fuel num den lo_q (mid - 1)
      else Ok lo_q
  end.
Definition u256_div_floor (num den : U256) : fee_outcome Z :=
  if U256_is_zero den then Ok 0
  else if hi den =? 0 then Ok (Z.min (U256_div_u128 num (lo den)) U64_MAX)
  else if U256_le num den then Ok (b2z (U256_eqb num den))
  else div_floor_loop 65 (mkU512 (mkU256 0 0) num) den 1 U64_MAX.

Definition u256_shl1 (x : U256) (bit : Z) : U256 :=
  mkU256 (Z.lor (wrap128 (Z.shiftl (hi x) 1)) (Z.shiftr (lo x) 127))
         (Z.lor (wrap128 (Z.shiftl (lo x) 1)) (Z.land bit 1)).
Definition u512_bit (x : U512) (i : Z) : bool :=
  if 384 <=? i then negb (Z.land (Z.shiftr (hi (hi512 x)) (i - 384)) 1 =? 0)
  else if 256 <=? i then negb (Z.land (Z.shiftr (lo (hi512 x)) (i - 256)) 1 =? 0)
  else if 128 <=? i then negb (Z.land (Z.shiftr (hi (lo512 x)) (i - 128)) 1 =? 0)
  else negb (Z.land (Z.shiftr (lo (lo512 x)) i) 1 =? 0).
Definition u512_shl1 (x : U512) (bit : Z) : U512 :=
  let new_lo_lo := Z.lor (wrap128 (Z.shiftl (lo (lo512 x)) 1)) (Z.land bit 1) in
  let new_lo_hi := Z.lor (wrap128 (Z.shiftl (hi (lo512 x)) 1)) (Z.shiftr (lo (lo512 x)) 127) in
  let new_hi_lo := Z.lor (wrap128 (Z.shiftl (lo (hi512 x)) 1)) (Z.shiftr (hi (lo512 x)) 127) in
  let new_hi_hi := Z.lor (wrap128 (Z.shiftl (hi (hi512 x)) 1)) (Z.shiftr (lo (hi512 x)) 127) in
  mkU512 (mkU256 new_hi_hi new_hi_lo) (mkU256 new_lo_hi new_lo_lo).
Definition u512_sub (a b : U512) : U512 :=
  let '(lo_lo, br0) := overflowing_sub (lo (lo512 a)) (lo (lo512 b)) in
  let '(lo_hi, br1a) := overflowing_sub (hi (lo512 a)) (hi (lo512 b)) in
  let '(lo_hi, br1b) := overflowing_sub lo_hi (b2z br0) in
  let borrow_to_hi := b2z (br1a || br1b) in
  let '(hi_lo, br2) := overflowing_sub (lo (hi512 a)) (lo (hi512 b)) in
  let '(hi_lo, br2b) := overflowing_sub hi_lo borrow_to_hi in
  let hi_hi := wrap128 (wrap128 (hi (hi512 a) - hi (hi512 b)) - b2z (br2 || br2b)) in
  mkU512 (mkU256 hi_hi hi_lo) (mkU256 lo_hi lo_lo).

(** Setting bit [i] of a quotient held in two halves; the shift amount is taken
    modulo the width. *)
Definition set_quotient_bit (i : Z) (q : Z * Z) : Z * Z :=
  if 128 <=? i then (Z.lor q.1 (2 ^ ((i - 128) mod 128)), q.2) else (q.1, Z.lor q.2 (2 ^ i)).
Definition clamp_quotient (q : Z * Z) : Z := if negb (q.1 =? 0) then U128_MAX else q.2.

(** The loop of [U512::div_u256]. *)
Fixpoint div256_loop (i : nat) (n : U512) (d rem : U256) (q : Z * Z) : Z * Z :=
  match i with
  | O => q
  | S i =>
      let bit := b2z (u512_bit n (Z.of_nat i)) in
      let rem := u256_shl1 rem bit in
      if negb (U256_le rem d) || U256_eqb rem d
      then div256_loop i n d (U256_checked_sub rem d) (set_quotient_bit (Z.of_nat i) q)
      else div256_loop i n d rem q
  end.
Definition U512_div_u256 (x : U512) (d : U256) : fee_outcome Z :=
  if U256_is_zero d then Ok 0
  else if U256_is_zero (hi512 x) then
    if hi d =? 0 then Ok (U256_div_u128 (lo512 x) (lo d)) else u256_div_floor (lo512 x) d
  else Ok (clamp_quotient (div256_loop 512 x d (mkU256 0 0) (0, 0))).

(** The loop of [u512_div_u512]. *)
Fixpoint div512_loop (i : nat) (n d rem : U512) (q : Z * Z) : Z * Z :=
  match i with
  | O => q
  | S i =>
      let bit := b2z (u512_bit n (Z.of_nat i)) in
      let rem := u512_shl1 rem bit in
      if negb (U512_le rem d) || U512_eqb rem d
      then div512_loop i n d (u512_sub rem d) (set_quotient_bit (Z.of_nat i) q)
      else div512_loop i n d rem q
  end.
Definition u512_div_u512 (num den : U512) : fee_outcome Z :=
  if U512_eqb den U512_ZERO then Ok 0
  else if U512_le num den then Ok (b2z (U512_eqb num den))
  else if U256_eqb (hi512 den) (mkU256 0 0) then U512_div_u256 num (lo512 den)
  else Ok (clamp_quotient (div512_loop 512 num den U512_ZERO (0, 0))).

Definition u256_lt (a b : U256) : bool := U256_le a b && negb (U256_eqb a b).
Definition u512_lt (a b : U512) : bool := U512_le a b && negb (U512_eqb a b).

(** ** Values *)

Definition ok256 (x : U256) : Prop := u128 (hi x) /\ u128 (lo x).
Definition v256 (x : U256) : Z := hi x * 2 ^ 128 + lo x.
Definition ok512 (x : U512) : Prop := ok256 (hi512 x) /\ ok256 (lo512 x).
Definition v512 (x : U512) : Z := v256 (hi512 x) * 2 ^ 256 + v256 (lo512 x).

(** Powers as literals, for linear arithmetic. *)
Ltac lits :=
  unfold u128, u64, U64_MAX, U128_MAX in *;
  change (2 ^ 64) with 18446744073709551616 in *;
  change (2 ^ 127) with 170141183460469231731687303715884105728 in *;
  change (2 ^ 128) with 340282366920938463463374607431768211456 in *;
  change (2 ^ 256) with 115792089237316195423570985008687907853269984665640564039457584007913129639936 in *.

Ltac mlia := Z.to_euclidean_division_equations; lia.
Lemma overflowing_add_spec a b :
  u128 a -> u128 b ->
  let '(s, c) := overflowing_add a b in u128 s /\ a + b = b2z c * 2 ^ 128 + s.
Proof.
  intros Ha Hb. unfold overflowing_add, wrap128. 
  destruct (Z.leb_spec (2 ^ 128) (a + b)); unfold b2z; lits; mlia.
Qed.
Lemma overflowing_sub_spec a b :
  u128 a -> u128 b ->
  let '(s, c) := overflowing_sub a b in u128 s /\ a - b = s - b2z c * 2 ^ 128.
Proof.
  intros Ha Hb. unfold overflowing_sub, wrap128.
  destruct (Z.ltb_spec a b); unfold b2z; lits; mlia.
Qed.

Lemma widening_mul_spec a b :
  u128 a -> u128 b -> ok256 (widening_mul a b) /\ v256 (widening_mul a b) = a * b.
Proof.
  intros Ha Hb. unfold widening_mul, wrap64.
  rewrite !(Z.shiftr_div_pow2 _ 64) by lia.
  set (al := a mod 2 ^ 64). set (ah := a / 2 ^ 64). set (bl := b mod 2 ^ 64). set (bh := b / 2 ^ 64).
  assert (Hal : 0 <= al < 2 ^ 64 /\ 0 <= ah < 2 ^ 64 /\ a = ah * 2 ^ 64 + al) by (subst al ah; lits; mlia).
  assert (Hbl : 0 <= bl < 2 ^ 64 /\ 0 <= bh < 2 ^ 64 /\ b = bh * 2 ^ 64 + bl) by (subst bl bh; lits; mlia).
  assert (forall x y, 0 <= x < 2 ^ 64 -> 0 <= y < 2 ^ 64 -> 0 <= x * y <= (2 ^ 64 - 1) * (2 ^ 64 - 1)) as Hp
    by (intros; lits; nia).
  pose proof (Hp al bl ltac:(tauto) ltac:(tauto)). pose proof (Hp al bh ltac:(tauto) ltac:(tauto)).
  pose proof (Hp ah bl ltac:(tauto) ltac:(tauto)). pose proof (Hp ah bh ltac:(tauto) ltac:(tauto)).
  assert (Hprod : a * b = ah * bh * 2 ^ 128 + (al * bh + ah * bl) * 2 ^ 64 + al * bl).
  { destruct Hal as (_ & _ & Ea), Hbl as (_ & _ & Eb).
    transitivity ((ah * 2 ^ 64 + al) * (bh * 2 ^ 64 + bl)); [by rewrite <- Ea, <- Eb|].
    change (2 ^ 128) with (2 ^ 64 * 2 ^ 64). ring. }
  clear Hp Hal Hbl. generalize dependent (al * bl). generalize dependent (al * bh).
  generalize dependent (ah * bl). generalize dependent (ah * bh).
  intros hh Hhh hl Hhl lh Hlh ll Hll Hprod. rewrite Hprod. clear Hprod.
  assert (forall x, 0 <= x <= (2 ^ 64 - 1) * (2 ^ 64 - 1) -> wrap128 x = x) as Hw
    by (intros; unfold wrap128; lits; mlia).
  rewrite !Hw by done.
  pose proof (overflowing_add_spec lh hl ltac:(lits; mlia) ltac:(lits; mlia)) as Hmid.
  destruct (overflowing_add lh hl) as [mid carry]. destruct Hmid as [Hmid Hsum].
  rewrite (Z.shiftr_div_pow2 mid 64), (Z.shiftl_mul_pow2 mid 64) by lia.
  unfold ok256, v256, b2z, wrap128 in *. cbn [hi lo].
  set (mh := mid / 2 ^ 64). set (ml := mid mod 2 ^ 64).
  assert (Hm : 0 <= ml < 2 ^ 64 /\ 0 <= mh < 2 ^ 64 /\ mid = mh * 2 ^ 64 + ml) by (subst mh ml; lits; mlia).
  assert (Hshift : (mid * 2 ^ 64) mod 2 ^ 128 = ml * 2 ^ 64) by (subst ml; lits; mlia).
  rewrite Hshift. clearbody mh ml. clear Hshift Hw.
  destruct carry; destruct (Z.ltb_spec ((ll + ml * 2 ^ 64) mod 2 ^ 128) ll); lits; mlia.
Qed.

Lemma b2z_cases b : b2z b = 0 \/ b2z b = 1.
Proof. destruct b; auto. Qed.
Ltac carries :=
  repeat match goal with
  | |- context [overflowing_add ?a ?b] =>
      let H := fresh "Hc" in
      pose proof (overflowing_add_spec a b) as H;
      destruct (overflowing_add a b) as [? ?]; destruct H as [? ?]; [lits; pose_b2z; lia..|]
  | |- context [overflowing_sub ?a ?b] =>
      let H := fresh "Hc" in
      pose proof (overflowing_sub_spec a b) as H;
      destruct (overflowing_sub a b) as [? ?]; destruct H as [? ?]; [lits; pose_b2z; lia..|]
  end
with pose_b2z :=
  repeat match goal with
  | |- context [b2z ?b] => lazymatch goal with H : b2z b = 0 \/ _ |- _ => fail | _ => pose proof (b2z_cases b) end
  | _ : context [b2z ?b] |- _ => lazymatch goal with H : b2z b = 0 \/ _ |- _ => fail | _ => pose proof (b2z_cases b) end
  end.

Lemma v256_range x : ok256 x -> 0 <= v256 x < 2 ^ 256.
Proof. unfold ok256, v256. intros []. lits. lia. Qed.
Lemma v512_range x : ok512 x -> 0 <= v512 x < 2 ^ 512.
Proof.
  intros [Hh Hl]. apply v256_range in Hh, Hl. unfold v512.
  change (2 ^ 512) with (2 ^ 256 * 2 ^ 256). lits. lia.
Qed.
Lemma U256_eqb_spec x y : ok256 x -> ok256 y -> U256_eqb x y = (v256 x =? v256 y).
Proof.
  unfold ok256, v256, U256_eqb. intros [] []. lits.
  destruct (Z.eqb_spec (hi x) (hi y)), (Z.eqb_spec (lo x) (lo y)); cbn [andb]; symmetry;
    (apply Z.eqb_eq || apply Z.eqb_neq); lia.
Qed.
Lemma U256_le_spec x y : ok256 x -> ok256 y -> U256_le x y = (v256 x <=? v256 y).
Proof.
  unfold ok256, v256, U256_le. intros [] []. lits.
  destruct (Z.ltb_spec (hi x) (hi y)), (Z.eqb_spec (hi x) (hi y)), (Z.leb_spec (lo x) (lo y));
    cbn [andb orb]; symmetry; (apply Z.leb_le || apply Z.leb_gt); lia.
Qed.
Lemma U256_is_zero_spec x : ok256 x -> U256_is_zero x = (v256 x =? 0).
Proof.
  intros Hx. change (U256_is_zero x) with (U256_eqb x (mkU256 0 0)).
  rewrite U256_eqb_spec; [done|done|]. unfold ok256; cbn. lits; lia.
Qed.
Lemma u256_lt_spec x y : ok256 x -> ok256 y -> u256_lt x y = (v256 x <? v256 y).
Proof.
  intros Hx Hy. unfold u256_lt. rewrite U256_le_spec, U256_eqb_spec by done.
  destruct (Z.leb_spec (v256 x) (v256 y)), (Z.eqb_spec (v256 x) (v256 y)), (Z.ltb_spec (v256 x) (v256 y));
    cbn [andb negb]; lia || done.
Qed.
Lemma U512_eqb_spec x y : ok512 x -> ok512 y -> U512_eqb x y = (v512 x =? v512 y).
Proof.
  intros [Hxh Hxl] [Hyh Hyl]. unfold U512_eqb. rewrite !U256_eqb_spec by done. unfold v512.
  apply v256_range in Hxh, Hxl, Hyh, Hyl. lits.
  destruct (Z.eqb_spec (v256 (hi512 x)) (v256 (hi512 y))), (Z.eqb_spec (v256 (lo512 x)) (v256 (lo512 y)));
    cbn [andb]; symmetry; (apply Z.eqb_eq || apply Z.eqb_neq); lia.
Qed.
Lemma U512_le_spec x y : ok512 x -> ok512 y -> U512_le x y = (v512 x <=? v512 y).
Proof.
  intros [Hxh Hxl] [Hyh Hyl]. unfold U512_le. rewrite !U256_eqb_spec, !U256_le_spec by done. unfold v512.
  apply v256_range in Hxh, Hxl, Hyh, Hyl. lits.
  destruct (Z.eqb_spec (v256 (hi512 x)) (v256 (hi512 y))), (Z.leb_spec (v256 (lo512 x)) (v256 (lo512 y))),
    (Z.leb_spec (v256 (hi512 x)) (v256 (hi512 y)));
    cbn [andb negb]; symmetry; (apply Z.leb_le || apply Z.leb_gt); lia.
Qed.
Lemma u512_lt_spec x y : ok512 x -> ok512 y -> u512_lt x y = (v512 x <? v512 y).
Proof.
  intros Hx Hy. unfold u512_lt. rewrite U512_le_spec, U512_eqb_spec by done.
  destruct (Z.leb_spec (v512 x) (v512 y)), (Z.eqb_spec (v512 x) (v512 y)), (Z.ltb_spec (v512 x) (v512 y));
    cbn [andb negb]; lia || done.
Qed.

Lemma U256_checked_sub_spec x y :
  ok256 x -> ok256 y -> v256 y <= v256 x ->
  ok256 (U256_checked_sub x y) /\ v256 (U256_checked_sub x y) = v256 x - v256 y.
Proof.
  unfold ok256, v256, U256_checked_sub. intros [] [] Hle. carries.
  cbn [hi lo]. unfold wrap128 in *. pose_b2z. lits. mlia.
Qed.
Lemma U256_mul_u128_spec x b :
  ok256 x -> u128 b -> v256 x * b < 2 ^ 256 ->
  ok256 (U256_mul_u128 x b) /\ v256 (U256_mul_u128 x b) = v256 x * b.
Proof.
  intros [Hh Hl] Hb Hfit. unfold U256_mul_u128.
  destruct (widening_mul_spec (lo x) b Hl Hb) as [[Hwh Hwl] Hw].
  unfold ok256, v256 in *. cbn [hi lo] in *.
  assert (E : (hi x * 2 ^ 128 + lo x) * b = hi x * b * 2 ^ 128 + (hi (widening_mul (lo x) b) * 2 ^ 128 + lo (widening_mul (lo x) b)))
    by (rewrite Hw; ring).
  rewrite E in *. assert (0 <= hi x * b) by (lits; nia). revert Hfit E.
  generalize dependent (hi x * b). generalize dependent (widening_mul (lo x) b).
  intros w Hwh Hwl Hw p Hp Hfit E. unfold wrap128. lits.
  rewrite (Z.mod_small p) by lia. rewrite Z.mod_small by lia. lia.
Qed.

(** Adding two digits and a carry. *)
Lemma add_carry a b c :
  u128 a -> u128 b ->
  let '(s1, c1) := overflowing_add a b in
  let '(s2, c2) := overflowing_add s1 (b2z c) in
  u128 s2 /\ a + b + b2z c = b2z (c1 || c2) * 2 ^ 128 + s2.
Proof.
  intros Ha Hb. carries. destruct b0, b1, c; cbn [b2z orb] in *; lits; lia.
Qed.
Lemma sub_borrow a b c :
  u128 a -> u128 b ->
  let '(s1, c1) := overflowing_sub a b in
  let '(s2, c2) := overflowing_sub s1 (b2z c) in
  u128 s2 /\ a - b - b2z c = s2 - b2z (c1 || c2) * 2 ^ 128.
Proof.
  intros Ha Hb. carries. destruct b0, b1, c; cbn [b2z orb] in *; lits; lia.
Qed.
Lemma wrap128_add a b : wrap128 (wrap128 a + b) = wrap128 (a + b).
Proof. apply Zplus_mod_idemp_l. Qed.
Lemma wrap128_sub a b : wrap128 (wrap128 a - b) = wrap128 (a - b).
Proof. apply Zminus_mod_idemp_l. Qed.
Lemma wrap128_digit a : exists q, wrap128 a = a - q * 2 ^ 128 /\ u128 (wrap128 a).
Proof. exists (a / 2 ^ 128). unfold wrap128. lits. mlia. Qed.

(** Names the digit and its carry with the equation [H] states of them. *)
Ltac digit H :=
  lazymatch type of H with
  | context [overflowing_add ?a ?b] => destruct (overflowing_add a b) as [? ?]; cbv beta iota in H |- *
  | context [overflowing_sub ?a ?b] => destruct (overflowing_sub a b) as [? ?]; cbv beta iota in H |- *
  end.

Lemma U512_add_spec x y :
  ok512 x -> ok512 y -> v512 x + v512 y < 2 ^ 512 ->
  ok512 (U512_add x y) /\ v512 (U512_add x y) = v512 x + v512 y.
Proof.
  intros [[] []] [[] []] Hfit. unfold U512_add, ok512, ok256, v512, v256 in *.
  pose proof (overflowing_add_spec (lo (lo512 x)) (lo (lo512 y)) ltac:(done) ltac:(done)) as E0.
  digit E0. 
  pose proof (add_carry (hi (lo512 x)) (hi (lo512 y)) b ltac:(done) ltac:(done)) as E1.
  digit E1. digit E1.
  pose proof (add_carry (lo (hi512 x)) (lo (hi512 y)) (b0 || b1) ltac:(done) ltac:(done)) as H2'.
  digit H2'. digit H2'.
  rewrite wrap128_add. 
  destruct (wrap128_digit (hi (hi512 x) + hi (hi512 y) + b2z (b2 || b3))) as (q & Hq & Hr).
  cbn [hi lo hi512 lo512] in *. pose_b2z. change (2 ^ 512) with (2 ^ 256 * 2 ^ 256) in *.
  rewrite Hq in *. lits. lia.
Qed.
Lemma u512_sub_spec x y :
  ok512 x -> ok512 y -> v512 y <= v512 x ->
  ok512 (u512_sub x y) /\ v512 (u512_sub x y) = v512 x - v512 y.
Proof.
  intros [[] []] [[] []] Hfit. unfold u512_sub, ok512, ok256, v512, v256 in *.
  pose proof (overflowing_sub_spec (lo (lo512 x)) (lo (lo512 y)) ltac:(done) ltac:(done)) as E0.
  digit E0.
  pose proof (sub_borrow (hi (lo512 x)) (hi (lo512 y)) b ltac:(done) ltac:(done)) as E1.
  digit E1. digit E1.
  pose proof (sub_borrow (lo (hi512 x)) (lo (hi512 y)) (b0 || b1) ltac:(done) ltac:(done)) as E2.
  digit E2. digit E2.
  rewrite wrap128_sub.
  destruct (wrap128_digit (hi (hi512 x) - hi (hi512 y) - b2z (b2 || b3))) as (q & Hq & Hr).
  cbn [hi lo hi512 lo512] in *. pose_b2z. rewrite Hq in *. lits. lia.
Qed.

Lemma from_u256_times_u128_spec a b :
  ok256 a -> u128 b ->
  ok512 (from_u256_times_u128 a b) /\ v512 (from_u256_times_u128 a b) = v256 a * b.
Proof.
  intros [Hh Hl] Hb. unfold from_u256_times_u128.
  destruct (widening_mul_spec (lo a) b Hl Hb) as [[Hlh Hll] El].
  destruct (widening_mul_spec (hi a) b Hh Hb) as [[Hhh Hhl] Eh].
  assert (Hbound : hi a * b <= (2 ^ 128 - 1) * (2 ^ 128 - 1)) by (lits; nia).
  assert (E : v256 a * b = hi a * b * 2 ^ 128 + lo a * b) by (unfold v256; ring).
  rewrite E, <- El, <- Eh. rewrite <- Eh in Hbound. clear E El Eh.
  generalize dependent (widening_mul (lo a) b). generalize dependent (widening_mul (hi a) b).
  intros h Hhh Hhl Hbound l Hlh Hll. unfold v256, ok512, ok256, v512, v256 in *.
  pose proof (overflowing_add_spec (hi l) (lo h) ltac:(done) ltac:(done)) as E0. digit E0.
  destruct (wrap128_digit (hi h + b2z b0)) as (q & Hq & Hr).
  cbn [hi lo hi512 lo512] in *. pose_b2z. rewrite Hq in *. lits. lia.
Qed.

(** A product that fits leaves nothing in the upper half it drops. *)
Lemma dropped_half w l :
  ok512 w -> 0 <= l -> v512 w * 2 ^ 256 + l < 2 ^ 512 ->
  v512 (mkU512 (lo512 w) (mkU256 0 0)) = v512 w * 2 ^ 256.
Proof.
  intros [Hwh Hwl] Hl Hfit. apply v256_range in Hwh, Hwl.
  assert (Hwz : v256 (hi512 w) = 0).
  { unfold v512 in Hfit. change (2 ^ 512) with (2 ^ 256 * 2 ^ 256) in Hfit. lits. nia. }
  unfold v512. cbn [hi512 lo512]. change (v256 (mkU256 0 0)) with 0.
  by rewrite Hwz, Z.mul_0_l, Z.add_0_l, Z.add_0_r.
Qed.
Lemma v512_mul x b : v512 x * b = v256 (hi512 x) * b * 2 ^ 256 + v256 (lo512 x) * b.
Proof. unfold v512. generalize (2 ^ 256). intros. ring. Qed.
Lemma U512_mul_u128_spec x b :
  ok512 x -> u128 b -> v512 x * b < 2 ^ 512 ->
  ok512 (U512_mul_u128 x b) /\ v512 (U512_mul_u128 x b) = v512 x * b.
Proof.
  intros [Hh Hl] Hb Hfit. unfold U512_mul_u128.
  destruct (from_u256_times_u128_spec (lo512 x) b Hl Hb) as [Hlo El].
  destruct (from_u256_times_u128_spec (hi512 x) b Hh Hb) as [Hhi Eh].
  rewrite v512_mul, <- El, <- Eh in Hfit |- *. pose proof (v512_range _ Hlo) as Hr.
  pose proof (dropped_half _ _ Hhi (proj1 Hr) Hfit) as Hd. rewrite <- Hd in Hfit |- *.
  rewrite Z.add_comm in Hfit |- *.
  apply U512_add_spec; [done| |done]. split; [apply Hhi|]. unfold ok256; cbn; lits; lia.
Qed.

Lemma v256_mul a b :
  v256 a * v256 b = hi a * hi b * 2 ^ 256 + (lo a * hi b + hi a * lo b) * 2 ^ 128 + lo a * lo b.
Proof. unfold v256. change (2 ^ 256) with (2 ^ 128 * 2 ^ 128). ring. Qed.

Lemma wrap128_sum a b c : wrap128 (wrap128 (wrap128 a + b) + wrap128 c) = wrap128 (a + b + c).
Proof. rewrite wrap128_add. unfold wrap128. rewrite Zplus_mod_idemp_r, <- Z.add_assoc, Zplus_mod_idemp_l. f_equal. ring. Qed.

(** The carries of the schoolbook product, each product being two digits. *)
Lemma mul_digits (ll lh hl hh : U256) :
  ok256 ll -> ok256 lh -> ok256 hl -> ok256 hh ->
  v256 hh * 2 ^ 256 + (v256 lh + v256 hl) * 2 ^ 128 + v256 ll < 2 ^ 512 ->
  let '(mid1, c1) := overflowing_add (hi ll) (lo lh) in
  let '(h1, c2) := overflowing_add 0 (hi lh) in
  let '(h2, c2b) := overflowing_add h1 (b2z c1) in
  let '(mid2, c3) := overflowing_add mid1 (lo hl) in
  let '(h3, c4) := overflowing_add h2 (hi hl) in
  let '(h4, c4b) := overflowing_add h3 (b2z c3) in
  let '(h5, c5) := overflowing_add h4 (lo hh) in
  let top := wrap128 (wrap128 (wrap128 (0 + hi hh) + b2z c5)
                      + wrap128 (b2z (c2 || c2b) + b2z (c4 || c4b))) in
  ok512 (mkU512 (mkU256 top h5) (mkU256 mid2 (lo ll)))
  /\ v512 (mkU512 (mkU256 top h5) (mkU256 mid2 (lo ll)))
     = v256 hh * 2 ^ 256 + (v256 lh + v256 hl) * 2 ^ 128 + v256 ll.
Proof.
  intros [] [] [] [] Hfit.
  pose proof (overflowing_add_spec (hi ll) (lo lh) ltac:(done) ltac:(done)) as E1. digit E1.
  pose proof (add_carry 0 (hi lh) b ltac:(lits; lia) ltac:(done)) as E2. digit E2. digit E2.
  destruct E1 as [Hz E1], E2 as [Hz1 E2].
  pose proof (overflowing_add_spec z (lo hl) ltac:(done) ltac:(done)) as E3. digit E3.
  pose proof (add_carry z1 (hi hl) b2 ltac:(done) ltac:(done)) as E4. digit E4. digit E4.
  destruct E3 as [Hz2 E3], E4 as [Hz4 E4].
  pose proof (overflowing_add_spec z4 (lo hh) ltac:(done) ltac:(done)) as E5. digit E5.
  destruct E5 as [Hz5 E5]. cbv zeta.
  rewrite wrap128_sum.
  set (c := b2z (b0 || b1)) in *. set (c' := b2z (b3 || b4)) in *.
  destruct (wrap128_digit (0 + hi hh + b2z b5 + (c + c'))) as (q & Hq & Hr).
  assert (0 <= c <= 1) by apply b2z_range. assert (0 <= c' <= 1) by apply b2z_range.
  clearbody c c'. pose proof (b2z_range b). pose proof (b2z_range b2). pose proof (b2z_range b5).
  unfold ok512, ok256, v512, v256 in *. cbn [hi lo hi512 lo512] in *. rewrite Hq in *.
  clear Hq. change (2 ^ 512) with (2 ^ 256 * 2 ^ 256) in *. 
  lits. lia.
Qed.

Lemma u512_mul_u256_spec a b :
  ok256 a -> ok256 b -> ok512 (u512_mul_u256 a b) /\ v512 (u512_mul_u256 a b) = v256 a * v256 b.
Proof.
  intros Ha Hb. destruct (Ha) as [Hah Hal], (Hb) as [Hbh Hbl]. unfold u512_mul_u256.
  destruct (widening_mul_spec (lo a) (lo b) Hal Hbl) as [H1 E1].
  destruct (widening_mul_spec (lo a) (hi b) Hal Hbh) as [H2 E2].
  destruct (widening_mul_spec (hi a) (lo b) Hah Hbl) as [H3 E3].
  destruct (widening_mul_spec (hi a) (hi b) Hah Hbh) as [H4 E4].
  rewrite v256_mul, <- E1, <- E2, <- E3, <- E4.
  pose proof (mul_digits _ _ _ _ H1 H2 H3 H4) as Hd. cbv zeta in Hd |- *.
  rewrite E1, E2, E3, E4, <- v256_mul in Hd. rewrite E1, E2, E3, E4, <- v256_mul.
  apply v256_range in Ha, Hb.
  assert (Hfit : v256 a * v256 b < 2 ^ 512)
    by (change (2 ^ 512) with (2 ^ 256 * 2 ^ 256); nia).
  specialize (Hd Hfit).
  repeat match type of Hd with context [overflowing_add ?x ?y] =>
    lazymatch x with context [overflowing_add] => fail | _ => idtac end;
    destruct (overflowing_add x y) as [? ?] end. exact Hd.
Qed.

(** ** Bits *)

Lemma lor_double a c : 0 <= a -> 0 <= c <= 1 -> Z.lor (2 * a) c = 2 * a + c.
Proof.
  intros Ha Hc. assert (c = 0 \/ c = 1) as [->| ->] by lia; [rewrite Z.lor_0_r; lia|].
  destruct a; [done|done|lia].
Qed.
Lemma lor_pow2 q i : 0 <= q -> 0 <= i -> Z.lor (q * 2 ^ (i + 1)) (2 ^ i) = q * 2 ^ (i + 1) + 2 ^ i.
Proof.
  intros Hq Hi. replace (q * 2 ^ (i + 1)) with (Z.shiftl (2 * q) i)
    by (rewrite Z.shiftl_mul_pow2, Z.pow_add_r by lia; lia).
  rewrite <- (Z.mul_1_l (2 ^ i)), <- Z.shiftl_mul_pow2 by lia.
  rewrite <- Z.shiftl_lor, lor_double by lia. rewrite !Z.shiftl_mul_pow2 by lia. ring.
Qed.
Lemma land_bit a i : 0 <= i -> Z.land (Z.shiftr a i) 1 = Z.b2z (Z.testbit a i).
Proof.
  intros Hi. rewrite (Z.land_ones _ 1), Z.testbit_odd by lia. rewrite Z.pow_1_r, Zmod_odd.
  by destruct (Z.odd _).
Qed.
Lemma bit_test a i : 0 <= i -> negb (Z.land (Z.shiftr a i) 1 =? 0) = Z.testbit a i.
Proof. intros Hi. rewrite land_bit by done. by destruct (Z.testbit a i). Qed.
Lemma testbit_high h l k i :
  0 <= k <= i -> 0 <= l < 2 ^ k -> Z.testbit (h * 2 ^ k + l) i = Z.testbit h (i - k).
Proof.
  intros Hk Hl. replace i with (i - k + k) at 1 by lia. rewrite <- Z.div_pow2_bits by lia. f_equal.
  rewrite Z.div_add_l, Z.div_small by lia. lia.
Qed.
Lemma testbit_low h l k i :
  0 <= i < k -> 0 <= l < 2 ^ k -> Z.testbit (h * 2 ^ k + l) i = Z.testbit l i.
Proof.
  intros Hk Hl. rewrite <- (Z.mod_pow2_bits_low _ k i) by lia. f_equal.
  rewrite Z.add_comm, Z.mod_add, Z.mod_small by lia. done.
Qed.
Lemma u512_bit_spec x i : ok512 x -> 0 <= i < 512 -> u512_bit x i = Z.testbit (v512 x) i.
Proof.
  intros [Hh Hl] Hi. pose proof (v256_range _ Hl). destruct Hh as [Hhh Hhl], Hl as [Hlh Hll].
  unfold u512_bit, v512. unfold u128 in *.
  destruct (Z.leb_spec 384 i); [|destruct (Z.leb_spec 256 i); [|destruct (Z.leb_spec 128 i)]];
    rewrite bit_test by lia.
  - rewrite testbit_high by lia. unfold v256. rewrite testbit_high by lia. f_equal; lia.
  - rewrite testbit_high by lia. unfold v256. rewrite testbit_low by lia. done.
  - rewrite testbit_low by lia. unfold v256. rewrite testbit_high by lia. done.
  - rewrite testbit_low by lia. unfold v256. rewrite testbit_low by lia. done.
Qed.

(** ** Shifts *)

(** One digit shifted left, with the bit that comes in. *)
Lemma shl_digit a c :
  u128 a -> 0 <= c <= 1 ->
  u128 (Z.lor (wrap128 (Z.shiftl a 1)) c)
  /\ 2 * a + c = Z.shiftr a 127 * 2 ^ 128 + Z.lor (wrap128 (Z.shiftl a 1)) c
  /\ 0 <= Z.shiftr a 127 <= 1.
Proof.
  intros Ha Hc. rewrite Z.shiftr_div_pow2, Z.shiftl_mul_pow2 by lia. unfold wrap128.
  replace (a * 2 ^ 1 mod 2 ^ 128) with (2 * (a mod 2 ^ 127)) by (lits; mlia).
  rewrite lor_double by (lits; mlia). lits. mlia.
Qed.
Lemma land_one b : Z.land (b2z b) 1 = b2z b.
Proof. by destruct b. Qed.
Lemma u256_shl1_spec x b :
  ok256 x -> 2 * v256 x + b2z b < 2 ^ 256 ->
  ok256 (u256_shl1 x (b2z b)) /\ v256 (u256_shl1 x (b2z b)) = 2 * v256 x + b2z b.
Proof.
  intros [Hh Hl] Hfit. unfold u256_shl1. rewrite land_one.
  destruct (shl_digit (lo x) (b2z b) Hl (b2z_range b)) as (H1 & E1 & R1).
  destruct (shl_digit (hi x) (Z.shiftr (lo x) 127) Hh R1) as (H2 & E2 & R2).
  unfold ok256, v256 in *. cbn [hi lo]. lits. lia.
Qed.
Lemma u512_shl1_spec x b :
  ok512 x -> 2 * v512 x + b2z b < 2 ^ 512 ->
  ok512 (u512_shl1 x (b2z b)) /\ v512 (u512_shl1 x (b2z b)) = 2 * v512 x + b2z b.
Proof.
  intros [[Hhh Hhl] [Hlh Hll]] Hfit. unfold u512_shl1. rewrite land_one.
  destruct (shl_digit _ _ Hll (b2z_range b)) as (H1 & E1 & R1).
  destruct (shl_digit _ _ Hlh R1) as (H2 & E2 & R2).
  destruct (shl_digit _ _ Hhl R2) as (H3 & E3 & R3).
  destruct (shl_digit _ _ Hhh R3) as (H4 & E4 & R4).
  unfold ok512, ok256, v512, v256 in *. cbn [hi lo hi512 lo512].
  change (2 ^ 512) with (2 ^ 256 * 2 ^ 256) in *. lits. lia.
Qed.

(** ** Long division *)

(** The next bit of the dividend comes in. *)
Lemma next_bit N i :
  0 <= i -> N / 2 ^ i = 2 * (N / 2 ^ (i + 1)) + Z.b2z (Z.testbit N i).
Proof.
  intros Hi. rewrite Z.testbit_spec' by lia. rewrite Z.pow_add_r, <- Z.div_div by lia.
  rewrite Z.pow_1_r. apply Z.div_mod. lia.
Qed.
Lemma long_div_step N d i :
  0 < d -> 0 <= N -> 0 <= i ->
  let r := (N / 2 ^ (i + 1)) mod d in
  let q := N / 2 ^ (i + 1) / d in
  let r' := 2 * r + Z.b2z (Z.testbit N i) in
  (N / 2 ^ i / d, (N / 2 ^ i) mod d) = if d <=? r' then (2 * q + 1, r' - d) else (2 * q, r').
Proof.
  intros Hd HN Hi. cbv zeta. rewrite next_bit by done. set (n := N / 2 ^ (i + 1)).
  pose proof (Z.div_mod n d ltac:(lia)) as En. pose proof (Z.mod_pos_bound n d Hd) as Hr.
  set (b := Z.b2z _). assert (0 <= b <= 1) by (subst b; destruct (Z.testbit N i); simpl; lia).
  clearbody b. generalize dependent (n / d). generalize dependent (n mod d).
  intros r Hr q En. assert (E : 2 * n + b = d * (2 * q) + (2 * r + b)) by lia. rewrite E. destruct (Z.leb_spec d (2 * r + b)); f_equal.
  - symmetry. apply (Z.div_unique _ d _ (2 * r + b - d)); lia.
  - symmetry. apply (Z.mod_unique _ d (2 * q + 1)); lia.
  - symmetry. apply (Z.div_unique _ d _ (2 * r + b)); lia.
  - symmetry. apply (Z.mod_unique _ d (2 * q)); lia.
Qed.

Lemma div128_loop_spec h l d i :
  u128 l -> 0 <= h -> 0 < d < 2 ^ 128 -> (i <= 128)%nat ->
  let N := h * 2 ^ 128 + l in
  let k := Z.of_nat i in
  div128_loop i l d ((N / 2 ^ k) mod d) (N / 2 ^ k / d * 2 ^ k) = N / d.
Proof.
  intros Hl Hh Hd. cbv zeta. set (N := h * 2 ^ 128 + l).
  assert (HN : 0 <= N) by (subst N; lits; lia).
  induction i as [|i IH]; intros Hi; [simpl; by rewrite Z.div_1_r, Z.mul_1_r|].
  specialize (IH ltac:(lia)). cbn [div128_loop].
  rewrite Nat2Z.inj_succ, <- Z.add_1_r in *. set (k := Z.of_nat i) in *.
  assert (Hk : 0 <= k) by lia.
  assert (Hbit : Z.testbit l k = Z.testbit N k).
  { subst N. rewrite testbit_low; [done|lia|lits; lia]. }
  rewrite land_bit, Hbit by lia.
  pose proof (long_div_step N d k ltac:(lia) HN Hk) as Hstep. cbv zeta in Hstep.
  pose proof (Z.mod_pos_bound (N / 2 ^ (k + 1)) d ltac:(lia)) as Hr.
  assert (Hq : 0 <= N / 2 ^ (k + 1) / d) by (apply Z.div_pos; [apply Z.div_pos; lia|lia]).
  set (r := (N / 2 ^ (k + 1)) mod d) in *. set (q := N / 2 ^ (k + 1) / d) in *.
  set (b := Z.b2z _) in *. assert (Hb : 0 <= b <= 1) by (subst b; destruct (Z.testbit N k); simpl; lia).
  clearbody b. rewrite lor_pow2 by done.
  destruct (shl_digit r b ltac:(lits; lia) Hb) as (H1 & E1 & R1).
  set (s := Z.lor _ b) in *. clearbody s. rewrite Z.shiftr_div_pow2 in * by lia.
  assert (Hov : (2 ^ 127 <=? r) = (r / 2 ^ 127 =? 1)).
  { destruct (Z.leb_spec (2 ^ 127) r), (Z.eqb_spec (r / 2 ^ 127) 1); [done| | |done]; exfalso; lits; mlia. }
  rewrite Hov. destruct (d <=? 2 * r + b) eqn:Hle; injection Hstep as Eq Er.
  - assert ((r / 2 ^ 127 =? 1) || (d <=? s) = true) as ->.
    { apply Z.leb_le in Hle. destruct (Z.eqb_spec (r / 2 ^ 127) 1); [done|]. apply Z.leb_le. lits. lia. }
    assert (wrap128 (s - d) = 2 * r + b - d) as ->.
    { apply Z.leb_le in Hle. unfold wrap128. symmetry. apply (Z.mod_unique _ _ (- (r / 2 ^ 127))); lits; lia. }
    replace (q * 2 ^ (k + 1) + 2 ^ k) with ((2 * q + 1) * 2 ^ k) by (rewrite Z.pow_add_r by lia; lia).
    by rewrite <- Er, <- Eq.
  - apply Z.leb_gt in Hle. assert ((r / 2 ^ 127 =? 1) || (d <=? s) = false) as ->.
    { destruct (Z.eqb_spec (r / 2 ^ 127) 1); [lits; lia|]. apply Z.leb_gt. lits. lia. }
    replace (q * 2 ^ (k + 1)) with (2 * q * 2 ^ k) by (rewrite Z.pow_add_r by lia; lia).
    assert (s = 2 * r + b) as -> by (lits; lia). by rewrite <- Er, <- Eq.
Qed.
Lemma U256_div_u128_spec x d :
  ok256 x -> u128 d -> 0 < d -> U256_div_u128 x d = Z.min (v256 x / d) U128_MAX.
Proof.
  intros [Hh Hl] Hd Hpos. unfold U256_div_u128, v256. rewrite (proj2 (Z.eqb_neq d 0)) by lia.
  destruct (Z.eqb_spec (hi x) 0) as [->|Hne].
  - rewrite Z.mul_0_l, Z.add_0_l. rewrite Z.min_l; [done|].
    transitivity (lo x); [apply Z.div_le_upper_bound; lits; nia|lits; lia].
  - destruct (Z.leb_spec d (hi x)).
    + rewrite Z.min_r; [done|]. apply Z.div_le_lower_bound; [lia|]. lits. nia.
    + pose proof (div128_loop_spec (hi x) (lo x) d 128 Hl ltac:(lits; lia) ltac:(lits; lia) ltac:(lia)) as Hloop.
      cbv zeta in Hloop. change (Z.of_nat 128) with 128 in Hloop.
      rewrite Z.div_add_l in Hloop by (lits; lia). rewrite (Z.div_small (lo x)) in Hloop by (lits; lia).
      rewrite Z.add_0_r, Z.mod_small, Z.div_small, Z.mul_0_l in Hloop by (lits; lia). rewrite Hloop.
      rewrite Z.min_l; [done|]. enough ((hi x * 2 ^ 128 + lo x) / d < 2 ^ 128) by (lits; lia).
      apply Z.div_lt_upper_bound; [lia|]. lits. lia.
Qed.

(** A quotient kept in two halves, of which the upper one only matters by
    being zero or not. *)
Definition holds_quotient (q : Z * Z) (Q : Z) : Prop :=
  q.2 = Q mod 2 ^ 128 /\ (q.1 = 0 <-> Q < 2 ^ 128).

Lemma set_quotient_bit_spec i q Q :
  0 <= i -> 0 <= Q -> holds_quotient q (Q * 2 ^ (i + 1)) ->
  holds_quotient (set_quotient_bit i q) (Q * 2 ^ (i + 1) + 2 ^ i).
Proof.
  intros Hi HQ [Hl Hh]. unfold set_quotient_bit, holds_quotient.
  assert (Hp : 0 < 2 ^ i) by lia. assert (Hp1 : 2 ^ (i + 1) = 2 * 2 ^ i) by (rewrite Z.pow_add_r; lia).
  destruct (Z.leb_spec 128 i) as [Hge|Hlt]; cbn [fst snd].
  - assert (2 ^ i = 2 ^ (i - 128) * 2 ^ 128) as Ei by (rewrite <- Z.pow_add_r by lia; f_equal; lia).
    assert (0 < 2 ^ (i - 128)) by lia.
    assert (0 < 2 ^ ((i - 128) mod 128)) by (apply Z.pow_pos_nonneg; [lia|apply Z.mod_pos_bound; lia]).
    split.
    + rewrite Ei, Z.mod_add by lia. done.
    + rewrite Z.lor_eq_0_iff. split; [intros [_ ?]; lia|]. intros. exfalso. lits. nia.
  - assert (2 ^ 128 = 2 ^ (128 - (i + 1)) * 2 ^ (i + 1)) as E by (rewrite <- Z.pow_add_r by lia; f_equal; lia).
    set (w := 2 ^ (128 - (i + 1))) in *. assert (0 < w) by (subst w; lia). clearbody w.
    assert (Emod : (Q * 2 ^ (i + 1)) mod 2 ^ 128 = Q mod w * 2 ^ (i + 1))
      by (rewrite E, Z.mul_mod_distr_r; lia).
    pose proof (Z.mod_pos_bound Q w ltac:(lia)). pose proof (Z.div_mod Q w ltac:(lia)) as Edm.
    assert (Hqq : 0 <= Q / w) by (apply Z.div_pos; lia).
    rewrite Hl, Emod. generalize dependent (Q / w). generalize dependent (Q mod w).
    intros r Emod Hr qq Edm Hqq. split.
    + rewrite lor_pow2 by lia. apply (Z.mod_unique _ _ qq); [left; nia|]. rewrite E, Edm. ring.
    + rewrite Hh. destruct (decide (qq = 0)) as [->|]; split; intros; nia.
Qed.
Lemma clamp_quotient_spec q Q :
  0 <= Q -> holds_quotient q Q -> clamp_quotient q = Z.min Q U128_MAX.
Proof.
  intros HQ [Hl Hh]. unfold clamp_quotient. destruct (Z.eqb_spec q.1 0) as [E|E]; cbn [negb].
  - apply Hh in E. rewrite Hl, Z.mod_small by lia. lits. lia.
  - assert (~ Q < 2 ^ 128) by tauto. lits. lia.
Qed.

Lemma reaches_cond a b : negb (a <=? b) || (a =? b) = (b <=? a).
Proof.
  destruct (Z.leb_spec a b), (Z.eqb_spec a b), (Z.leb_spec b a); cbn [negb orb]; lia || done.
Qed.

Lemma div256_loop_spec n d i rem q :
  ok512 n -> ok256 d -> ok256 rem -> 0 < v256 d <= 2 ^ 255 -> (i <= 512)%nat ->
  v256 rem = (v512 n / 2 ^ Z.of_nat i) mod v256 d ->
  holds_quotient q (v512 n / 2 ^ Z.of_nat i / v256 d * 2 ^ Z.of_nat i) ->
  holds_quotient (div256_loop i n d rem q) (v512 n / v256 d).
Proof.
  intros Hn Hd. pose proof (v512_range n Hn) as HN. revert rem q.
  induction i as [|i IH]; intros rem q Hrem Hdp Hi Er Hq.
  { simpl in *. by rewrite Z.div_1_r, Z.mul_1_r in Hq. }
  cbn [div256_loop]. rewrite Nat2Z.inj_succ, <- Z.add_1_r in *. set (k := Z.of_nat i) in *.
  rewrite u512_bit_spec by (done || lia).
  pose proof (long_div_step (v512 n) (v256 d) k ltac:(lia) ltac:(lia) ltac:(lia)) as Hstep.
  cbv zeta in Hstep. rewrite <- Er in Hstep.
  pose proof (Z.mod_pos_bound (v512 n / 2 ^ (k + 1)) (v256 d) ltac:(lia)) as Hr. rewrite <- Er in Hr.
  change (Z.b2z (Z.testbit (v512 n) k)) with (b2z (Z.testbit (v512 n) k)) in Hstep.
  set (b := Z.testbit (v512 n) k) in *. pose proof (b2z_range b).
  destruct (u256_shl1_spec rem b Hrem) as [Hs Es].
  { change (2 ^ 256) with (2 * 2 ^ 255). lia. }
  rewrite U256_le_spec, U256_eqb_spec, Es by done.
  rewrite reaches_cond. assert (Hq0 : 0 <= v512 n / 2 ^ (k + 1) / v256 d) by (repeat apply Z.div_pos; lia).
  assert (Ek : 2 ^ (k + 1) = 2 * 2 ^ k) by (rewrite Z.pow_add_r; lia).
  destruct (v256 d <=? _) eqn:Hle; injection Hstep as Eq Er'.
  - apply Z.leb_le in Hle. destruct (U256_checked_sub_spec _ d Hs Hd ltac:(lia)) as [Hs' Es'].
    apply IH; [done|done|lia|rewrite Es', Es; lia|].
    rewrite Eq. replace ((2 * _ + 1) * 2 ^ k) with (v512 n / 2 ^ (k + 1) / v256 d * 2 ^ (k + 1) + 2 ^ k)
      by (rewrite Ek; ring). by apply set_quotient_bit_spec; [lia|..].
  - apply IH; [done|done|lia|lia|]. rewrite Eq.
    replace (2 * _ * 2 ^ k) with (v512 n / 2 ^ (k + 1) / v256 d * 2 ^ (k + 1)) by (rewrite Ek; ring). done.
Qed.

Lemma div512_loop_spec n d i rem q :
  ok512 n -> ok512 d -> ok512 rem -> 0 < v512 d <= 2 ^ 511 -> (i <= 512)%nat ->
  v512 rem = (v512 n / 2 ^ Z.of_nat i) mod v512 d ->
  holds_quotient q (v512 n / 2 ^ Z.of_nat i / v512 d * 2 ^ Z.of_nat i) ->
  holds_quotient (div512_loop i n d rem q) (v512 n / v512 d).
Proof.
  intros Hn Hd. pose proof (v512_range n Hn) as HN. revert rem q.
  induction i as [|i IH]; intros rem q Hrem Hdp Hi Er Hq.
  { simpl in *. by rewrite Z.div_1_r, Z.mul_1_r in Hq. }
  cbn [div512_loop]. rewrite Nat2Z.inj_succ, <- Z.add_1_r in *. set (k := Z.of_nat i) in *.
  rewrite u512_bit_spec by (done || lia).
  pose proof (long_div_step (v512 n) (v512 d) k ltac:(lia) ltac:(lia) ltac:(lia)) as Hstep.
  cbv zeta in Hstep. rewrite <- Er in Hstep.
  pose proof (Z.mod_pos_bound (v512 n / 2 ^ (k + 1)) (v512 d) ltac:(lia)) as Hr. rewrite <- Er in Hr.
  change (Z.b2z (Z.testbit (v512 n) k)) with (b2z (Z.testbit (v512 n) k)) in Hstep.
  set (b := Z.testbit (v512 n) k) in *. pose proof (b2z_range b).
  destruct (u512_shl1_spec rem b Hrem) as [Hs Es].
  { change (2 ^ 512) with (2 * 2 ^ 511). lia. }
  rewrite U512_le_spec, U512_eqb_spec, Es by done.
  rewrite reaches_cond. assert (Hq0 : 0 <= v512 n / 2 ^ (k + 1) / v512 d) by (repeat apply Z.div_pos; lia).
  assert (Ek : 2 ^ (k + 1) = 2 * 2 ^ k) by (rewrite Z.pow_add_r; lia).
  destruct (v512 d <=? _) eqn:Hle; injection Hstep as Eq Er'.
  - apply Z.leb_le in Hle. destruct (u512_sub_spec _ d Hs Hd ltac:(lia)) as [Hs' Es'].
    apply IH; [done|done|lia|rewrite Es', Es; lia|].
    rewrite Eq. replace ((2 * _ + 1) * 2 ^ k) with (v512 n / 2 ^ (k + 1) / v512 d * 2 ^ (k + 1) + 2 ^ k)
      by (rewrite Ek; ring). by apply set_quotient_bit_spec; [lia|..].
  - apply IH; [done|done|lia|lia|]. rewrite Eq.
    replace (2 * _ * 2 ^ k) with (v512 n / 2 ^ (k + 1) / v512 d * 2 ^ (k + 1)) by (rewrite Ek; ring). done.
Qed.

(** The binary search keeps the quotient between its bounds. *)
Lemma search_done n d h :
  0 < d -> 0 <= n -> d * h <= n -> (h = U64_MAX \/ n < d * (h + 1)) -> h <= U64_MAX ->
  h = Z.min (n / d) U64_MAX.
Proof.
  intros Hd Hn Hl Htop Hh. assert (h <= n / d) by (apply Z.div_le_lower_bound; lia).
  destruct Htop as [->|Htop]; [lia|].
  assert (n / d < h + 1) by (apply Z.div_lt_upper_bound; lia). lia.
Qed.
Lemma div_floor_turn fuel num den l h :
  div_floor_loop (S fuel) num den l h
  = if l <? h then
      let mid := l + (h - l + 1) / 2 in
      if U512_le (u512_mul_u256 den (mkU256 0 mid)) num then div_floor_loop fuel num den mid h
      else div_floor_loop fuel num den l (mid - 1)
    else Ok l.
Proof. done. Qed.
Lemma div_floor_loop_spec k num den l h :
  ok512 num -> ok256 den -> 0 < v256 den -> 1 <= l <= h -> h <= U64_MAX ->
  h - l < 2 ^ Z.of_nat k -> v256 den * l <= v512 num ->
  (h = U64_MAX \/ v512 num < v256 den * (h + 1)) ->
  div_floor_loop (S k) num den l h = Ok (Z.min (v512 num / v256 den) U64_MAX).
Proof.
  intros Hnum Hden Hpos. pose proof (v512_range num Hnum) as HN. revert l h.
  induction k as [|k IH]; intros l h Hlh Hh Hfuel Hl Htop; rewrite div_floor_turn;
    (destruct (Z.ltb_spec l h) as [Hlt|Hge];
     [|assert (l = h) as -> by lia; f_equal; apply search_done; [done|lia|done..]]).
  { change (2 ^ Z.of_nat 0) with 1 in Hfuel. lia. }
  cbv zeta.
  set (mid := l + (h - l + 1) / 2).
  assert (Hmid : l < mid <= h) by (subst mid; mlia).
  assert (Hm128 : ok256 (mkU256 0 mid)) by (unfold ok256; cbn; lits; lia).
  destruct (u512_mul_u256_spec den (mkU256 0 mid) Hden Hm128) as [Hp Ep].
  rewrite U512_le_spec, Ep by done.
  assert (Ev : v256 (mkU256 0 mid) = mid) by (unfold v256; cbn; lia). rewrite Ev.
  rewrite Nat2Z.inj_succ, Z.pow_succ_r in Hfuel by lia.
  destruct (Z.leb_spec (v256 den * mid) (v512 num)).
  - apply IH; [lia|lia|subst mid; mlia|lia|done].
  - apply IH; [lia|lia|subst mid; mlia|lia|]. right. by replace (mid - 1 + 1) with mid by lia.
Qed.

Lemma u256_div_floor_spec num den :
  ok256 num -> ok256 den -> 0 < v256 den ->
  u256_div_floor num den = Ok (Z.min (v256 num / v256 den) U64_MAX).
Proof.
  intros Hn Hd Hpos. pose proof (v256_range _ Hn). unfold u256_div_floor.
  rewrite U256_is_zero_spec, (proj2 (Z.eqb_neq (v256 den) 0)) by (done || lia).
  destruct (Z.eqb_spec (hi den) 0) as [Hz|Hne].
  { assert (v256 den = lo den) as E by (unfold v256; rewrite Hz; lia).
    rewrite U256_div_u128_spec by (done || apply Hd || lia). rewrite E. f_equal. lits. lia. }
  rewrite U256_le_spec, U256_eqb_spec by done.
  destruct (Z.leb_spec (v256 num) (v256 den)).
  - f_equal. destruct (Z.eqb_spec (v256 num) (v256 den)) as [->|]; cbn [b2z].
    + rewrite Z.div_same by lia. done.
    + rewrite Z.div_small by lia. done.
  - assert (Ev : v512 (mkU512 (mkU256 0 0) num) = v256 num)
      by (unfold v512; cbn [hi512 lo512]; unfold v256 at 1; cbn; lia).
    rewrite <- Ev. apply (div_floor_loop_spec 64); [|done|lia|lits; lia|lia|lits; lia|lia|by left].
    split; [unfold ok256; cbn; lits; lia|done].
Qed.

Lemma U512_div_u256_spec x d :
  ok512 x -> ok256 d -> 0 < v256 d <= 2 ^ 255 ->
  exists q, U512_div_u256 x d = Ok q /\ Z.min q U64_MAX = Z.min (v512 x / v256 d) U64_MAX.
Proof.
  intros Hx Hd Hpos. unfold U512_div_u256. destruct (Hx) as [Hxh Hxl].
  rewrite U256_is_zero_spec, (proj2 (Z.eqb_neq (v256 d) 0)) by (done || lia).
  rewrite U256_is_zero_spec by done. destruct (Z.eqb_spec (v256 (hi512 x)) 0) as [Hz|Hnz].
  - assert (E : v512 x = v256 (lo512 x)) by (unfold v512; rewrite Hz; lia). rewrite E.
    destruct (Z.eqb_spec (hi d) 0) as [Hd0|].
    + assert (Ed : v256 d = lo d) by (unfold v256; rewrite Hd0; lia). eexists. split; [done|].
      rewrite U256_div_u128_spec, Ed by (done || apply Hd || lia). lits. lia.
    + eexists. split; [by apply u256_div_floor_spec; [..|lia]|]. lia.
  - eexists. split; [done|].
    rewrite (clamp_quotient_spec _ (v512 x / v256 d)).
    + lits. lia.
    + pose proof (v512_range _ Hx). apply Z.div_pos; lia.
    + apply div256_loop_spec; [done|done|unfold ok256; cbn; lits; lia|done|lia|..];
        change (Z.of_nat 512) with 512; pose proof (v512_range _ Hx);
        rewrite (Z.div_small (v512 x) (2 ^ 512)) by done; [by rewrite Z.mod_0_l by lia|].
      rewrite Z.div_0_l by lia. split; [reflexivity|by split].
Qed.

(** Division with a denominator below [2^255], or at least [2^256] and at most
    [2^511]: the quotient, up to saturation at [u64]. *)
Lemma u512_div_u512_spec num den :
  ok512 num -> ok512 den -> 0 < v512 den -> (v512 den <= 2 ^ 255 \/ 2 ^ 256 <= v512 den <= 2 ^ 511) ->
  exists q, u512_div_u512 num den = Ok q /\ Z.min q U64_MAX = Z.min (v512 num / v512 den) U64_MAX.
Proof.
  intros Hn Hd Hpos Hrange. pose proof (v512_range _ Hn). unfold u512_div_u512.
  assert (Hz : ok256 (mkU256 0 0)) by (unfold ok256; cbn; lits; lia).
  rewrite U512_eqb_spec by (done || split; done). change (v512 U512_ZERO) with 0.
  rewrite (proj2 (Z.eqb_neq (v512 den) 0)) by lia.
  rewrite U512_le_spec, (U512_eqb_spec num) by done.
  destruct (Z.leb_spec (v512 num) (v512 den)).
  { eexists. split; [done|]. destruct (Z.eqb_spec (v512 num) (v512 den)) as [->|]; cbn [b2z].
    - rewrite Z.div_same by lia. done.
    - rewrite Z.div_small by lia. done. }
  destruct (Hd) as [Hdh Hdl]. pose proof (v256_range _ Hdh). pose proof (v256_range _ Hdl).
  rewrite U256_eqb_spec by done. change (v256 (mkU256 0 0)) with 0.
  destruct (Z.eqb_spec (v256 (hi512 den)) 0) as [E|E].
  - assert (Ev : v512 den = v256 (lo512 den)) by (unfold v512; rewrite E; lia).
    rewrite Ev in *. apply U512_div_u256_spec; [done|done|]. destruct Hrange; [lia|]. lits. lia.
  - eexists. split; [done|]. rewrite (clamp_quotient_spec _ (v512 num / v512 den)).
    + lits. lia.
    + apply Z.div_pos; lia.
    + apply div512_loop_spec; [done|done|split; done| |lia|..].
      * split; [lia|]. destruct Hrange; [|lia]. unfold v512 in *. exfalso.
        change (2 ^ 255) with 57896044618658097711785492504343953926634992332820282019728792003956564819968 in *.
        lits. lia.
      * change (Z.of_nat 512) with 512. rewrite (Z.div_small (v512 num) (2 ^ 512)) by done.
        by rewrite Z.mod_0_l by lia.
      * change (Z.of_nat 512) with 512. rewrite (Z.div_small (v512 num) (2 ^ 512)) by done.
        rewrite Z.div_0_l by lia. split; [reflexivity|by split].
Qed.

(** ** Greatest common divisors *)

Lemma gcd_turn128 fuel a b :
  gcd_loop (S fuel) a b = if negb (b =? 0) then gcd_loop fuel b (a mod b) else Ok a.
Proof. done. Qed.
Lemma gcd_euclid_spec n a b :
  0 <= a -> 0 <= b < 2 ^ Z.of_nat n -> gcd_loop (S (2 * n)) a b = Ok (Z.gcd a b).
Proof.
  revert a b. induction n as [|n IH]; intros a b Ha Hb; rewrite gcd_turn128.
  { assert (b = 0) as -> by (change (2 ^ Z.of_nat 0) with 1 in Hb; lia). simpl.
    by rewrite Z.gcd_0_r, Z.abs_eq. }
  destruct (Z.eqb_spec b 0) as [->|Hb0]; [simpl; by rewrite Z.gcd_0_r, Z.abs_eq|]. cbn [negb].
  pose proof (Z.mod_pos_bound a b ltac:(lia)) as Hr.
  replace (2 * S n)%nat with (S (S (2 * n)))%nat by lia.
  rewrite (Z.gcd_comm a b), <- (Z.gcd_mod a b), (Z.gcd_comm (a mod b)) by lia.
  rewrite gcd_turn128. destruct (Z.eqb_spec (a mod b) 0) as [->|Hr0].
  { simpl. by rewrite Z.gcd_0_r, Z.abs_eq by lia. }
  cbn [negb]. set (r := a mod b) in *. clearbody r.
  rewrite (Z.gcd_comm b r), <- (Z.gcd_mod b r), (Z.gcd_comm (b mod r)) by lia.
  apply IH; [lia|]. pose proof (Z.mod_pos_bound b r ltac:(lia)).
  rewrite Nat2Z.inj_succ, Z.pow_succ_r in Hb by lia.
  split; [lia|]. pose proof (Z.div_mod b r ltac:(lia)) as Edm.
  assert (1 <= b / r) by (apply Z.div_le_lower_bound; lia). nia.
Qed.
Lemma gcd128_spec a b : u128 a -> u128 b -> gcd128 a b = Ok (Z.gcd a b).
Proof. intros Ha Hb. apply (gcd_euclid_spec 128); [lits; lia|done]. Qed.
