(* ===== verification/Mempool.v ===== *)
(** * The fee-ordered mempool

    Model of [crates/consensus/src/mempool/queue.rs] and [queue/inner.rs]: the
    queue of transactions ordered by descending fee, its byte accounting, its
    double-spend index and its membership index, admission with and without
    eviction, the removal passes and the snapshots served to peers.

    A [&mut self] method returns the new mempool next to its result, so that
    what a failing call leaves behind is part of the model. *)

From S2P Require Import Prelude Cbor Types ProtocolParams Fees.
Local Open Scope Z_scope.

(** ** Data *)

Record MempoolEntry := mkMempoolEntry {
  me_era : Era;
  me_tx_id : TxId;
  me_fee : Z;
  me_body : list Z;
  me_raw_tx : list Z;
  me_size_bytes : Z;
  me_ttl : SlotNo;
  me_inputs : list ShelleyTxIn }.

Inductive MempoolError :=
  | Duplicate (tx_id : TxId)
  | CapacityExceeded (current incoming limit : Z)
  | EvictionInsufficientSpace (incoming limit freeable : Z)
  | EvictionNotWorthwhile (incoming_fee evicted_fee : Z)
  | TtlExpired (ttl current_slot : SlotNo)
  | MempoolFeeTooSmall (minimum declared : Z)
  | MempoolTxTooLarge (actual max : Z)
  | ProtocolParamValidation (e : LedgerError)
  | MempoolExUnitsExceedTxLimit (tx_mem tx_steps max_mem max_steps : Z)
  | ConflictingInputs (tx_id : TxId).

Record IndexedMempoolEntry := mkIndexed { im_idx : Z; im_entry : MempoolEntry }.

Record Mempool := mkMempool {
  mp_entries : list IndexedMempoolEntry;
  mp_max_bytes : Z;
  mp_current_bytes : Z;
  mp_next_idx : Z;
  mp_claimed_inputs : gmap ShelleyTxIn TxId;
  mp_tx_ids : gset TxId }.

Definition with_capacity (max_bytes : Z) : Mempool := mkMempool [] max_bytes 0 0 ∅ ∅.

(** [i64] addition. *)
Definition wrap_i64 (z : Z) : Z := (z + 2 ^ 63) mod 2 ^ 64 - 2 ^ 63.

(** [usize::checked_add] *)
Definition checked_add (a b : Z) : option Z := if a + b <=? U64_MAX then Some (a + b) else None.

(** ** Indexed entries *)

Definition im_fee (e : IndexedMempoolEntry) : Z := me_fee (im_entry e).
Definition im_tx_id (e : IndexedMempoolEntry) : TxId := me_tx_id (im_entry e).
Definition im_inputs (e : IndexedMempoolEntry) : list ShelleyTxIn := me_inputs (im_entry e).
Definition im_size (e : IndexedMempoolEntry) : Z := me_size_bytes (im_entry e).

(** ** Admission *)

(** The first input that is already claimed, with its claimant. *)
Fixpoint find_conflict (claimed : gmap ShelleyTxIn TxId) (inputs : list ShelleyTxIn)
    : option TxId :=
  match inputs with
  | [] => None
  | i :: inputs =>
      match claimed !! i with
      | Some existing => Some existing
      | None => find_conflict claimed inputs
      end
  end.

(** [for input in inputs { claimed.insert(input, tx_id) }] *)
Definition claim_inputs (tx_id : TxId) (inputs : list ShelleyTxIn)
    (claimed : gmap ShelleyTxIn TxId) : gmap ShelleyTxIn TxId :=
  fold_left (fun claimed i => <[i := tx_id]> claimed) inputs claimed.

(** [for input in inputs { claimed.remove(input) }] *)
Definition release_inputs (inputs : list ShelleyTxIn) (claimed : gmap ShelleyTxIn TxId)
    : gmap ShelleyTxIn TxId :=
  fold_left (fun claimed i => delete i claimed) inputs claimed.

Definition insert (m : Mempool) (entry : MempoolEntry) : Mempool * outcome MempoolError unit :=
  if bool_decide (me_tx_id entry ∈ mp_tx_ids m) then (m, Err (Duplicate (me_tx_id entry)))
  else
    match find_conflict (mp_claimed_inputs m) (me_inputs entry) with
    | Some existing => (m, Err (ConflictingInputs existing))
    | None =>
        let exceeded :=
          CapacityExceeded (mp_current_bytes m) (me_size_bytes entry) (mp_max_bytes m) in
        match checked_add (mp_current_bytes m) (me_size_bytes entry) with
        | None => (m, Err exceeded)
        | Some next_bytes =>
            if (0 <? mp_max_bytes m) && (mp_max_bytes m <? next_bytes) then (m, Err exceeded)
            else
              (mkMempool
                 (sort_desc im_fee (mp_entries m ++ [mkIndexed (mp_next_idx m) entry]))
                 (mp_max_bytes m) next_bytes (wrap_i64 (mp_next_idx m + 1))
                 (claim_inputs (me_tx_id entry) (me_inputs entry) (mp_claimed_inputs m))
                 ({[me_tx_id entry]} ∪ mp_tx_ids m), Ok tt)
        end
    end.

(** The bookkeeping of a removed entry; [entries] are the ones that stay. *)
Definition forget (m : Mempool) (removed : IndexedMempoolEntry)
    (entries : list IndexedMempoolEntry) (new_bytes : Z) : Mempool :=
  mkMempool entries (mp_max_bytes m) new_bytes (mp_next_idx m)
    (release_inputs (im_inputs removed) (mp_claimed_inputs m))
    (mp_tx_ids m ∖ {[im_tx_id removed]}).

(** [entries.remove(idx)] with its bookkeeping; an index out of range panics. *)
Definition remove_at (m : Mempool) (idx : nat) : option (IndexedMempoolEntry * Mempool) :=
  e ← mp_entries m !! idx;
  Some (e, forget m e (take idx (mp_entries m) ++ drop (S idx) (mp_entries m))
             (wrap64 (mp_current_bytes m - im_size e))).

(** The candidate walk of [insert_with_eviction], from the tail. *)
Fixpoint evict_scan (needed incoming_fee : Z) (l : list (nat * IndexedMempoolEntry))
    (freeable evicted_fee : Z) (idxs : list nat) : Z * Z * list nat :=
  match l with
  | [] => (freeable, evicted_fee, idxs)
  | (idx, e) :: l =>
      if incoming_fee <=? im_fee e then (freeable, evicted_fee, idxs)
      else
        let idxs := idxs ++ [idx] in
        let freeable := sat_add freeable (im_size e) in
        let evicted_fee := sat_add evicted_fee (im_fee e) in
        if needed <=? freeable then (freeable, evicted_fee, idxs)
        else evict_scan needed incoming_fee l freeable evicted_fee idxs
  end.

(** The commit loop: here the byte count is reduced with [saturating_sub]. *)
Fixpoint evict_all (m : Mempool) (idxs : list nat) (ids : list TxId)
    : option (list TxId * Mempool) :=
  match idxs with
  | [] => Some (ids, m)
  | idx :: idxs =>
      e ← mp_entries m !! idx;
      evict_all
        (forget m e (take idx (mp_entries m) ++ drop (S idx) (mp_entries m))
           (sat_sub (mp_current_bytes m) (im_size e)))
        idxs (ids ++ [im_tx_id e])
  end.

Definition insert_with_eviction (m : Mempool) (entry : MempoolEntry)
    : Mempool * outcome MempoolError (list TxId) :=
  if bool_decide (me_tx_id entry ∈ mp_tx_ids m) then (m, Err (Duplicate (me_tx_id entry)))
  else
    match find_conflict (mp_claimed_inputs m) (me_inputs entry) with
    | Some existing => (m, Err (ConflictingInputs existing))
    | None =>
        match checked_add (mp_current_bytes m) (me_size_bytes entry) with
        | None => (m, Err (CapacityExceeded (mp_current_bytes m) (me_size_bytes entry)
                             (mp_max_bytes m)))
        | Some projected =>
            if (mp_max_bytes m =? 0) || (projected <=? mp_max_bytes m) then
              let '(m, r) := insert m entry in
              (m, let? _ := r in Ok [])
            else if mp_max_bytes m <? me_size_bytes entry then
              (m, Err (EvictionInsufficientSpace (me_size_bytes entry) (mp_max_bytes m) 0))
            else
              let needed := sat_sub (wrap64 (mp_current_bytes m + me_size_bytes entry))
                              (mp_max_bytes m) in
              let '(freeable, evicted_fee, idxs) :=
                evict_scan needed (me_fee entry) (rev (imap pair (mp_entries m))) 0 0 [] in
              if freeable <? needed then
                (m, Err (EvictionInsufficientSpace (me_size_bytes entry) (mp_max_bytes m) freeable))
              else if me_fee entry <=? evicted_fee then
                (m, Err (EvictionNotWorthwhile (me_fee entry) evicted_fee))
              else
                match evict_all m (sort_desc Z.of_nat idxs) [] with
                | None => (m, Panic)
                | Some (evicted_ids, m) =>
                    let '(m, r) := insert m entry in
                    (m, let? _ := r in Ok evicted_ids)
                end
        end
    end.

(** ** Removal *)

Definition pop_best (m : Mempool) : option MempoolEntry * Mempool :=
  match mp_entries m with
  | [] => (None, m)
  | e :: rest => (Some (im_entry e), forget m e rest (wrap64 (mp_current_bytes m - im_size e)))
  end.

(** [position] returns an index in range, so the [None] of [remove_at], a
    panic of [Vec::remove], does not occur here. *)
Definition remove_by_id (m : Mempool) (tx_id : TxId) : bool * Mempool :=
  if negb (bool_decide (tx_id ∈ mp_tx_ids m)) then (false, m)
  else
    match position (fun e => bool_decide (im_tx_id e = tx_id)) (mp_entries m) with
    | Some pos =>
        match remove_at m pos with
        | Some (_, m) => (true, m)
        | None => (false, m)
        end
    | None =>
        (false, mkMempool (mp_entries m) (mp_max_bytes m) (mp_current_bytes m) (mp_next_idx m)
                  (mp_claimed_inputs m) (mp_tx_ids m ∖ {[tx_id]}))
    end.

(** The [while i < self.entries.len()] loop of every removal pass: [verdict]
    says whether to remove the entry; it carries the state of the callback and
    may panic. *)
Definition sweep_outcome := outcome Empty_set.

Fixpoint sweep {St} (verdict : St -> MempoolEntry -> sweep_outcome (bool * St)) (fuel : nat)
    (i : nat) (st : St) (m : Mempool) (removed_count : Z) : sweep_outcome (Z * St * Mempool) :=
  match fuel with
  | O => OutOfFuel
  | S fuel =>
      match mp_entries m !! i with
      | None => Ok (removed_count, st, m)
      | Some e =>
          let? (remove, st) := verdict st (im_entry e) in
          if remove then
            match remove_at m i with
            | None => Panic
            | Some (_, m) => sweep verdict fuel i st m (removed_count + 1)
            end
          else sweep verdict fuel (S i) st m removed_count
      end
  end.

(** A pass over all entries; one turn per entry and one to see the end. *)
Definition run_sweep {St} (verdict : St -> MempoolEntry -> sweep_outcome (bool * St)) (st : St)
    (m : Mempool) : sweep_outcome (Z * St * Mempool) :=
  sweep verdict (S (length (mp_entries m))) 0 st m 0.

Definition pure_verdict (p : MempoolEntry -> bool)
    : unit -> MempoolEntry -> sweep_outcome (bool * unit) :=
  fun _ e => Ok (p e, tt).

Definition confirmed_in (confirmed_tx_ids : list TxId) (e : MempoolEntry) : bool :=
  bool_decide (me_tx_id e ∈ (list_to_set confirmed_tx_ids : gset TxId)).
Definition remove_confirmed (m : Mempool) (confirmed_tx_ids : list TxId) :=
  run_sweep (pure_verdict (confirmed_in confirmed_tx_ids)) tt m.

Definition conflicts_with (consumed_inputs : list ShelleyTxIn) (e : MempoolEntry) : bool :=
  existsb (fun inp => bool_decide (inp ∈ (list_to_set consumed_inputs : gset ShelleyTxIn)))
    (me_inputs e).
Definition remove_conflicting_inputs (m : Mempool) (consumed_inputs : list ShelleyTxIn) :=
  match consumed_inputs with
  | [] => Ok (0, tt, m)
  | _ => run_sweep (pure_verdict (conflicts_with consumed_inputs)) tt m
  end.

Definition expired_at (current_slot : SlotNo) (e : MempoolEntry) : bool := me_ttl e <? current_slot.
Definition purge_expired (m : Mempool) (current_slot : SlotNo) :=
  run_sweep (pure_verdict (expired_at current_slot)) tt m.

Definition inputs_spent (available_inputs : gset ShelleyTxIn) (e : MempoolEntry) : bool :=
  existsb (fun inp => negb (bool_decide (inp ∈ available_inputs))) (me_inputs e).
Definition revalidate (m : Mempool) (current_slot : SlotNo) (available_inputs : gset ShelleyTxIn) :=
  run_sweep (pure_verdict (fun e => expired_at current_slot e || inputs_spent available_inputs e))
    tt m.

Definition revalidate_with_ledger {St} (m : Mempool)
    (validate : St -> MempoolEntry -> sweep_outcome (bool * St)) (st : St) :=
  run_sweep (fun st e => let? (ok, st) := validate st e in Ok (negb ok, st)) st m.

(** ** Checked admission *)

Section checked.

(** Decoding a stored transaction to its execution units,
    [entry.to_multi_era_submitted_tx().ok().and_then(|tx| tx.total_ex_units())],
    belongs to the era modules. *)
Variable total_ex_units_of : MempoolEntry -> option ExUnits.

Definition precheck_ttl_and_params (entry : MempoolEntry) (current_slot : SlotNo)
    (protocol_params : option ProtocolParameters) : outcome MempoolError unit :=
  if me_ttl entry <? current_slot then Err (TtlExpired (me_ttl entry) current_slot)
  else
    match protocol_params with
    | None => Ok tt
    | Some params =>
        let total_ex_units := total_ex_units_of entry in
        let? _ := map_err (fun e => match e with
                             | TxTooLarge actual max => MempoolTxTooLarge actual max
                             | other => ProtocolParamValidation other
                             end) (validate_tx_size params (zlength (me_body entry))) in
        let? _ :=
          match total_ex_units with
          | Some eu =>
              map_err (fun e => match e with
                         | ExUnitsExceedTxLimit a b c d => MempoolExUnitsExceedTxLimit a b c d
                         | other => ProtocolParamValidation other
                         end) (validate_tx_ex_units params eu)
          | None => Ok tt
          end in
        map_err (fun e => match e with
                   | FeeTooSmall minimum declared => MempoolFeeTooSmall minimum declared
                   | other => ProtocolParamValidation other
                   end)
          (validate_fee params (zlength (me_body entry)) total_ex_units (me_fee entry))
    end.

Definition insert_checked (m : Mempool) (entry : MempoolEntry) (current_slot : SlotNo)
    (protocol_params : option ProtocolParameters) : Mempool * outcome MempoolError unit :=
  match precheck_ttl_and_params entry current_slot protocol_params with
  | Ok _ => insert m entry
  | Err e => (m, Err e)
  | Panic => (m, Panic)
  | OutOfFuel => (m, OutOfFuel)
  end.

Definition insert_checked_with_eviction (m : Mempool) (entry : MempoolEntry)
    (current_slot : SlotNo) (protocol_params : option ProtocolParameters)
    : Mempool * outcome MempoolError (list TxId) :=
  match precheck_ttl_and_params entry current_slot protocol_params with
  | Ok _ => insert_with_eviction m entry
  | Err e => (m, Err e)
  | Panic => (m, Panic)
  | OutOfFuel => (m, OutOfFuel)
  end.

(** [r.is_err()] *)
Definition is_err {A} (r : outcome LedgerError A) : sweep_outcome bool :=
  match r with
  | Ok _ => Ok false
  | Err _ => Ok true
  | Panic => Panic
  | OutOfFuel => OutOfFuel
  end.
(** [a || b], evaluating [b] only when [a] is false. *)
Definition or_else (a b : sweep_outcome bool) : sweep_outcome bool :=
  let? x := a in if x then Ok true else b.

(** Whether an entry fails the new parameters, as [purge_invalid_for_params]
    decides it after the expiry check. *)
Definition invalid_for_params (params : ProtocolParameters) (entry : MempoolEntry)
    : sweep_outcome bool :=
  let total_ex_units := total_ex_units_of entry in
  or_else (is_err (validate_tx_size params (zlength (me_body entry))))
    (or_else
       (match total_ex_units with
        | Some eu => is_err (validate_tx_ex_units params eu)
        | None => Ok false
        end)
       (is_err (validate_fee params (zlength (me_body entry)) total_ex_units (me_fee entry)))).

Definition purge_invalid_for_params (m : Mempool) (current_slot : SlotNo)
    (params : ProtocolParameters) :=
  run_sweep (fun (_ : unit) e =>
    if me_ttl e <? current_slot then Ok (true, tt)
    else let? invalid := invalid_for_params params e in Ok (invalid, tt)) tt m.

End checked.

(** ** Accessors and snapshots *)

Definition mp_contains (m : Mempool) (tx_id : TxId) : bool := bool_decide (tx_id ∈ mp_tx_ids m).
Definition mp_len (m : Mempool) : Z := zlength (mp_entries m).
Definition mp_size_bytes (m : Mempool) : Z := mp_current_bytes m.

Record MempoolSnapshot := mkSnapshot {
  sn_entries : list IndexedMempoolEntry;
  sn_tx_id_to_pos : gmap TxId nat;
  sn_idx_to_pos : gmap Z nat }.

Definition snapshot (m : Mempool) : MempoolSnapshot :=
  let entries := mp_entries m in
  mkSnapshot entries
    (fold_left (fun acc p => <[im_tx_id p.2 := p.1]> acc) (imap pair entries) ∅)
    (fold_left (fun acc p => <[im_idx p.2 := p.1]> acc) (imap pair entries) ∅).

Definition MEMPOOL_ZERO_IDX : Z := -1.

Definition mempool_has_tx (s : MempoolSnapshot) (tx_id : TxId) : bool :=
  bool_decide (is_Some (sn_tx_id_to_pos s !! tx_id)).
Definition mempool_lookup_tx_by_id (s : MempoolSnapshot) (tx_id : TxId) : option MempoolEntry :=
  pos ← sn_tx_id_to_pos s !! tx_id; e ← sn_entries s !! pos; Some (im_entry e).
Definition mempool_lookup_tx (s : MempoolSnapshot) (idx : Z) : option MempoolEntry :=
  pos ← sn_idx_to_pos s !! idx; e ← sn_entries s !! pos; Some (im_entry e).

(** [sort_by_key] on the index is ascending: descending on its opposite. *)
Definition mempool_txids_after (s : MempoolSnapshot) (idx : Z) : list (TxId * Z * Z) :=
  sort_desc (fun t => - t.1.2)
    (map (fun e => (im_tx_id e, im_idx e, im_size e))
       (List.filter (fun e => idx <? im_idx e) (sn_entries s))).

(** ** The invariant *)

Definition sum_sizes (l : list IndexedMempoolEntry) : Z := foldr (fun e acc => im_size e + acc) 0 l.

Record mempool_inv (m : Mempool) : Prop := {
  inv_sorted : StronglySorted (fun a b => im_fee b <= im_fee a) (mp_entries m);
  inv_nodup : NoDup (map im_tx_id (mp_entries m));
  inv_tx_ids : mp_tx_ids m = list_to_set (map im_tx_id (mp_entries m));
  inv_claimed : forall i t, mp_claimed_inputs m !! i = Some t <->
    exists e, e ∈ mp_entries m /\ im_tx_id e = t /\ i ∈ im_inputs e;
  inv_bytes : mp_current_bytes m = sum_sizes (mp_entries m);
  inv_sizes : Forall (fun e => 0 <= im_size e) (mp_entries m);
  inv_fits : mp_current_bytes m <= U64_MAX;
  inv_capacity : 0 < mp_max_bytes m -> mp_current_bytes m <= mp_max_bytes m;
  inv_idx_nodup : NoDup (map im_idx (mp_entries m));
  inv_idx : Forall (fun e => 0 <= im_idx e < mp_next_idx m) (mp_entries m);
  inv_next : 0 <= mp_next_idx m <= I64_MAX }.

(** ** Index facts *)

Lemma lookup_claim t inputs claimed i :
  claim_inputs t inputs claimed !! i = if bool_decide (i ∈ inputs) then Some t else claimed !! i.
Proof.
  unfold claim_inputs. revert claimed. induction inputs as [|j inputs IH]; intros claimed; [done|].
  simpl. rewrite IH. repeat case_bool_decide; try set_solver.
  - assert (i = j) as -> by set_solver. apply lookup_insert_eq.
  - rewrite lookup_insert_ne by set_solver. done.
Qed.

Lemma lookup_release inputs claimed i :
  release_inputs inputs claimed !! i = if bool_decide (i ∈ inputs) then None else claimed !! i.
Proof.
  unfold release_inputs. revert claimed. induction inputs as [|j inputs IH]; intros claimed; [done|].
  simpl. rewrite IH. repeat case_bool_decide; try set_solver.
  - assert (i = j) as -> by set_solver. apply lookup_delete_eq.
  - rewrite lookup_delete_ne by set_solver. done.
Qed.

Lemma find_conflict_None claimed inputs :
  find_conflict claimed inputs = None <-> forall i, i ∈ inputs -> claimed !! i = None.
Proof.
  induction inputs as [|j inputs IH]; simpl; [set_solver|].
  destruct (claimed !! j) eqn:E; [|set_solver].
  split; [done|]. intros H. rewrite H in E by set_solver. done.
Qed.

Lemma sum_sizes_app l k : sum_sizes (l ++ k) = sum_sizes l + sum_sizes k.
Proof. induction l as [|e l IH]; simpl; [lia|]. unfold sum_sizes in *. simpl. lia. Qed.

#[export] Instance sum_sizes_proper : Proper ((≡ₚ) ==> (=)) sum_sizes.
Proof. intros l k H. induction H; unfold sum_sizes in *; simpl in *; lia. Qed.

Lemma sum_sizes_nonneg l : Forall (fun e => 0 <= im_size e) l -> 0 <= sum_sizes l.
Proof. induction 1; unfold sum_sizes in *; simpl; lia. Qed.

(** ** Preservation of the invariant *)

Lemma same_id_same_entry l e e' :
  NoDup (map im_tx_id l) -> e ∈ l -> e' ∈ l -> im_tx_id e = im_tx_id e' -> e = e'.
Proof.
  intros Hn [i Hi]%list_elem_of_lookup [j Hj]%list_elem_of_lookup Heq.
  enough (i = j) by congruence.
  apply (NoDup_lookup (map im_tx_id l) i j (im_tx_id e)); [done|..].
  - by rewrite list_lookup_fmap, Hi.
  - by rewrite list_lookup_fmap, Hj, Heq.
Qed.

Lemma inv_with_capacity max_bytes : mempool_inv (with_capacity max_bytes).
Proof.
  split; simpl; try (done || lia || apply NoDup_nil_2 || apply Forall_nil_2 || apply SSorted_nil).
  intros i t. rewrite lookup_empty. split; [done|]. intros (e & He & _). set_solver.
Qed.

Lemma inv_forget m e l1 l2 :
  mp_entries m = l1 ++ e :: l2 -> mempool_inv m ->
  mempool_inv (forget m e (l1 ++ l2) (mp_current_bytes m - im_size e)).
Proof.
  intros Hl [Hs Hn Ht Hc Hb Hz Hf Hk Hin Hi Hx].
  assert (mp_entries m ≡ₚ e :: l1 ++ l2) as Hp by (by rewrite Hl, Permutation_middle).
  rewrite Hp in Hn, Hb, Hz, Hin, Hi.
  simpl in Hn, Hin. apply NoDup_cons in Hn as [Hnew Hn], Hin as [_ Hin].
  apply Forall_cons in Hz as [Hz1 Hz], Hi as [_ Hi]. unfold sum_sizes in Hb. simpl in Hb.
  constructor; simpl; try done.
  - rewrite Hl in Hs. clear -Hs. induction l1 as [|a l1 IH]; simpl in *.
    + by apply StronglySorted_inv in Hs as [? _].
    + apply StronglySorted_inv in Hs as [Hs Ha]. constructor; [auto|].
      apply Forall_app in Ha as [Ha1 Ha2]. apply Forall_cons in Ha2 as [_ Ha2].
      by apply Forall_app.
  - rewrite Ht, Hp. simpl. apply set_eq. intros t.
    rewrite elem_of_difference, elem_of_union, elem_of_list_to_set, elem_of_singleton.
    split; [naive_solver|]. intros Ht'. split; [by right|]. by intros ->.
  - intros i t. rewrite lookup_release. case_bool_decide as Hie.
    + split; [done|]. intros (e' & He' & Hid & Hie').
      exfalso. apply Hnew. apply list_elem_of_fmap. exists e'. split; [|done].
      enough (mp_claimed_inputs m !! i = Some (im_tx_id e) /\
              mp_claimed_inputs m !! i = Some (im_tx_id e')) by naive_solver congruence.
      rewrite !Hc. split; eexists; (split; [rewrite Hp|done]); set_solver.
    + rewrite Hc. setoid_rewrite Hp. set_solver.
  - unfold sum_sizes in *. lia.
  - lia.
  - intros ?. specialize (Hk ltac:(done)). lia.
Qed.

(** The conditions under which [insert] admits an entry. *)
Record admissible (m : Mempool) (entry : MempoolEntry) : Prop := {
  adm_fresh : me_tx_id entry ∉ mp_tx_ids m;
  adm_inputs : forall i, i ∈ me_inputs entry -> mp_claimed_inputs m !! i = None;
  adm_word : mp_current_bytes m + me_size_bytes entry <= U64_MAX;
  adm_room : 0 < mp_max_bytes m -> mp_current_bytes m + me_size_bytes entry <= mp_max_bytes m }.

Definition with_entry (m : Mempool) (entry : MempoolEntry) : Mempool :=
  mkMempool (sort_desc im_fee (mp_entries m ++ [mkIndexed (mp_next_idx m) entry]))
    (mp_max_bytes m) (mp_current_bytes m + me_size_bytes entry) (wrap_i64 (mp_next_idx m + 1))
    (claim_inputs (me_tx_id entry) (me_inputs entry) (mp_claimed_inputs m))
    ({[me_tx_id entry]} ∪ mp_tx_ids m).

Lemma insert_admissible m entry :
  admissible m entry -> insert m entry = (with_entry m entry, Ok tt).
Proof.
  intros [Hf Hi Hw Hr]. unfold insert. rewrite bool_decide_eq_false_2 by done.
  rewrite (proj2 (find_conflict_None _ _)) by done.
  unfold checked_add. rewrite (proj2 (Z.leb_le _ _)) by done.
  destruct (0 <? _) eqn:E1; simpl; [|done]. zbool.
  by rewrite (proj2 (Z.ltb_ge _ _)) by auto.
Qed.

Lemma insert_inv m entry m' r :
  insert m entry = (m', r) ->
  (admissible m entry /\ m' = with_entry m entry /\ r = Ok tt) \/ (m' = m /\ exists e, r = Err e).
Proof.
  unfold insert. case_bool_decide; [intros [= <- <-]; eauto|].
  destruct (find_conflict _ _) eqn:Hc; [intros [= <- <-]; eauto|].
  unfold checked_add. destruct (_ <=? _) eqn:Hw; [|intros [= <- <-]; eauto].
  destruct (_ && _) eqn:Hr; intros [= <- <-]; [eauto|]. left. split; [|done].
  constructor; [done|by apply find_conflict_None|zbool; lia|].
  intros Hpos. rewrite (proj2 (Z.ltb_lt _ _)) in Hr by done. zbool; lia.
Qed.

Lemma inv_with_entry m entry :
  mempool_inv m -> admissible m entry -> 0 <= me_size_bytes entry ->
  mp_next_idx m < I64_MAX -> mempool_inv (with_entry m entry).
Proof.
  intros [Hs Hn Ht Hc Hb Hz Hf Hk Hin Hi Hx] [Af Ai Aw Ar] Hsize Hnext.
  set (x := mkIndexed (mp_next_idx m) entry).
  assert (mp_entries (with_entry m entry) ≡ₚ x :: mp_entries m) as Hp.
  { simpl. rewrite sort_desc_perm, <- Permutation_cons_append. done. }
  assert (mp_next_idx (with_entry m entry) = mp_next_idx m + 1) as Hnx.
  { simpl. unfold wrap_i64, I64_MAX in *. rewrite Z.mod_small; lia. }
  constructor.
  - simpl. apply sort_desc_sorted.
  - rewrite Hp. simpl. apply NoDup_cons. split; [|done]. rewrite Ht in Af.
    by rewrite elem_of_list_to_set in Af.
  - rewrite Hp. simpl. by f_equal.
  - intros i t. setoid_rewrite Hp. simpl. rewrite lookup_claim. case_bool_decide as Hi'.
    + split; [intros [= <-]; exists x; set_solver|]. intros (e & He & Hid & Hie).
      apply elem_of_cons in He as [->|He]; [by rewrite <- Hid|].
      enough (mp_claimed_inputs m !! i = Some t) by (rewrite Ai in *; done).
      apply Hc. eauto.
    + rewrite Hc. split; intros (e & He & ?); [exists e; set_solver|].
      apply elem_of_cons in He as [->|He]; [naive_solver|eauto].
  - rewrite Hp. simpl. unfold sum_sizes in *. simpl. unfold im_size at 1. simpl. lia.
  - rewrite Hp. by constructor.
  - done.
  - done.
  - rewrite Hp. simpl. apply NoDup_cons. split; [|done].
    intros (e & He & Hin')%list_elem_of_fmap. rewrite Forall_forall in Hi.
    specialize (Hi _ Hin'). lia.
  - rewrite Hp, Hnx. constructor; [simpl; lia|]. eapply Forall_impl; [exact Hi|]. simpl. lia.
  - rewrite Hnx. lia.
Qed.

(** ** Eviction *)

Definition sum_fees (l : list IndexedMempoolEntry) : Z := foldr (fun e acc => im_fee e + acc) 0 l.

Lemma sum_fees_app l k : sum_fees (l ++ k) = sum_fees l + sum_fees k.
Proof. induction l as [|e l IH]; simpl; [lia|]. unfold sum_fees in *. simpl. lia. Qed.

Lemma sum_fees_nonneg l : Forall (fun e => 0 <= im_fee e) l -> 0 <= sum_fees l.
Proof. induction 1; unfold sum_fees in *; simpl; lia. Qed.

Lemma sum_sizes_one e : sum_sizes [e] = im_size e.
Proof. unfold sum_sizes. simpl. lia. Qed.
Lemma sum_fees_one e : sum_fees [e] = im_fee e.
Proof. unfold sum_fees. simpl. lia. Qed.

Lemma rev_imap_snoc (p : list IndexedMempoolEntry) x :
  rev (imap pair (p ++ [x])) = (length p, x) :: rev (imap pair p).
Proof. rewrite imap_app, rev_app_distr. simpl. by rewrite Nat.add_0_r. Qed.

Lemma sat_add_min f x y :
  0 <= x -> 0 <= y -> Z.min (sat_add f x + y) U64_MAX = Z.min (f + (y + x)) U64_MAX.
Proof. unfold sat_add. lia. Qed.

(** The candidates are a suffix of the entries, all cheaper than the incoming
    one, and without the best of them they would not free enough. *)
Lemma evict_scan_spec needed fee p : forall f g idxs,
  Forall (fun e => 0 <= im_size e /\ 0 <= im_fee e) p -> f <= U64_MAX -> g <= U64_MAX ->
  f < needed ->
  exists k, (k <= length p)%nat
    /\ evict_scan needed fee (rev (imap pair p)) f g idxs
       = (Z.min (f + sum_sizes (drop k p)) U64_MAX, Z.min (g + sum_fees (drop k p)) U64_MAX,
          idxs ++ rev (seq k (length p - k)))
    /\ Forall (fun e => im_fee e < fee) (drop k p)
    /\ ((k < length p)%nat -> Z.min (f + sum_sizes (drop (S k) p)) U64_MAX < needed).
Proof.
  induction p as [|x p IH] using rev_ind; intros f g idxs Hnn Hf Hg Hneed.
  { exists O. simpl. rewrite app_nil_r. split_and!; [lia| |done|lia].
    unfold sum_sizes, sum_fees. simpl. do 2 f_equal; lia. }
  apply Forall_app in Hnn as [Hnn [[Hxs Hxf] _]%Forall_cons].
  rewrite rev_imap_snoc, length_app. simpl.
  destruct (fee <=? im_fee x) eqn:Efee; zbool.
  { exists (length p + 1)%nat. rewrite drop_ge by (rewrite length_app; simpl; lia).
    rewrite Nat.sub_diag. simpl. rewrite app_nil_r. split_and!; [lia| |done|lia].
    unfold sum_sizes, sum_fees. simpl. do 2 f_equal; lia. }
  assert (forall k, (k <= length p)%nat ->
    rev (seq k (length p + 1 - k)) = length p :: rev (seq k (length p - k))) as Hseq.
  { intros k Hk. replace (length p + 1 - k)%nat with (S (length p - k)) by lia.
    rewrite seq_S, rev_app_distr. simpl. do 2 f_equal. lia. }
  destruct (needed <=? sat_add f (im_size x)) eqn:En; zbool.
  { exists (length p). rewrite Hseq, drop_app_length, Nat.sub_diag by lia. simpl.
    unfold sum_sizes, sum_fees. simpl. unfold sat_add. split_and!.
    - lia.
    - do 2 f_equal; lia.
    - by repeat constructor.
    - intros _. rewrite drop_ge by (rewrite length_app; simpl; lia). simpl. lia. }
  destruct (IH (sat_add f (im_size x)) (sat_add g (im_fee x)) (idxs ++ [length p]))
    as (k & Hk & -> & Hall & Hmin); [done|unfold sat_add; lia|unfold sat_add; lia|lia|].
  assert (0 <= sum_sizes (drop k p) /\ 0 <= sum_fees (drop k p)
          /\ 0 <= sum_sizes (drop (S k) p)) as (? & ? & ?).
  { split_and!; (apply sum_sizes_nonneg || apply sum_fees_nonneg); apply Forall_drop;
      (eapply Forall_impl; [exact Hnn|naive_solver]). }
  exists k. rewrite Hseq, drop_app_le, sum_sizes_app, sum_fees_app, <- (assoc_L (++)) by lia.
  rewrite sum_sizes_one, sum_fees_one, !sat_add_min by done.
  split_and!; [lia|done|apply Forall_app; by repeat constructor|].
  intros Hlt. destruct (decide (k = length p)) as [->|].
  - rewrite drop_ge by (rewrite length_app; simpl; lia). unfold sum_sizes, sat_add in *. simpl. lia.
  - rewrite drop_app_le, sum_sizes_app by lia. specialize (Hmin ltac:(lia)).
    rewrite sat_add_min in Hmin by done. by rewrite sum_sizes_one.
Qed.

Lemma sat_sub_size m e :
  mempool_inv m -> e ∈ mp_entries m ->
  sat_sub (mp_current_bytes m) (im_size e) = mp_current_bytes m - im_size e
  /\ wrap64 (mp_current_bytes m - im_size e) = mp_current_bytes m - im_size e.
Proof.
  intros Hinv (l1 & l2 & Hl)%list_elem_of_split.
  pose proof (inv_forget m e l1 l2 Hl Hinv) as Hinv'.
  pose proof (inv_bytes _ Hinv') as Hb. pose proof (inv_fits _ Hinv').
  pose proof (sum_sizes_nonneg _ (inv_sizes _ Hinv')). simpl in *.
  unfold sat_sub. rewrite wrap64_id by (unfold u64; lia). lia.
Qed.

(** Committing the candidate indices cuts the entries down to a prefix. *)
Lemma evict_all_spec j : forall m k ids,
  mempool_inv m -> length (mp_entries m) = (k + j)%nat ->
  exists m', evict_all m (rev (seq k j)) ids
             = Some (ids ++ map im_tx_id (rev (drop k (mp_entries m))), m')
    /\ mempool_inv m' /\ mp_entries m' = take k (mp_entries m)
    /\ mp_max_bytes m' = mp_max_bytes m /\ mp_next_idx m' = mp_next_idx m.
Proof.
  induction j as [|j IH]; intros m k ids Hinv Hlen.
  { exists m. simpl. rewrite drop_ge, app_nil_r, take_ge by lia. done. }
  rewrite seq_S, rev_app_distr. simpl.
  destruct (lookup_lt_is_Some_2 (mp_entries m) (k + j)) as [e He]; [lia|]. rewrite He. simpl.
  pose proof (take_drop_middle _ _ _ He) as Hsplit.
  destruct (sat_sub_size m e Hinv) as [-> _]; [by eapply list_elem_of_lookup_2|].
  destruct (IH (forget m e (take (k + j) (mp_entries m) ++ drop (S (k + j)) (mp_entries m))
                  (mp_current_bytes m - im_size e)) k (ids ++ [im_tx_id e]))
    as (m' & -> & Hinv' & Hm' & Hmax & Hnext).
  { by apply inv_forget. }
  { simpl. rewrite length_app, length_take, length_drop. lia. }
  exists m'. simpl in *. rewrite (drop_ge _ (S (k + j))), app_nil_r in * by lia.
  split_and!; [|done| |done|done].
  - do 2 f_equal. rewrite <- (take_drop_middle _ _ _ He) at 2.
    rewrite (drop_ge _ (S (k + j))), drop_app_le by (rewrite ?length_take; lia).
    rewrite rev_app_distr. simpl. by rewrite <- (assoc_L (++)).
  - rewrite Hm', take_take. f_equal. lia.
Qed.

(** Evicting keeps an entry free of duplicates and conflicts. *)
Lemma inv_prefix_clear m m' entry k :
  mempool_inv m -> mempool_inv m' -> mp_entries m' = take k (mp_entries m) ->
  me_tx_id entry ∉ mp_tx_ids m ->
  (forall i, i ∈ me_inputs entry -> mp_claimed_inputs m !! i = None) ->
  (me_tx_id entry ∉ mp_tx_ids m')
  /\ (forall i, i ∈ me_inputs entry -> mp_claimed_inputs m' !! i = None).
Proof.
  intros Hinv Hinv' Hm' Hf Hc. rewrite (inv_tx_ids _ Hinv) in Hf.
  rewrite (inv_tx_ids _ Hinv'), Hm'. rewrite elem_of_list_to_set in *. split.
  - intros Hin. apply Hf. apply list_elem_of_fmap in Hin as (e & -> & He).
    apply list_elem_of_fmap. exists e. split; [done|]. by eapply elem_of_prefix.
  - intros i Hi. destruct (mp_claimed_inputs m' !! i) as [t|] eqn:E; [|done].
    apply (inv_claimed _ Hinv') in E as (e & He & Hid & Hie). rewrite Hm' in He.
    specialize (Hc i Hi). enough (mp_claimed_inputs m !! i = Some t) by congruence.
    apply (inv_claimed _ Hinv). exists e. split; [|done]. by eapply elem_of_prefix.
Qed.

Lemma sort_desc_rev_seq k j : sort_desc Z.of_nat (rev (seq k j)) = rev (seq k j).
Proof.
  induction j as [|j IH]; [done|]. rewrite seq_S, rev_app_distr. simpl. fold (sort_desc Z.of_nat).
  rewrite IH. destruct j as [|j]; [done|]. rewrite seq_S, rev_app_distr. simpl.
  by rewrite (proj2 (Z.leb_le _ _)) by lia.
Qed.

(** An entry as the node builds it: [usize] and [u64] fields. *)
Definition entry_ok (e : MempoolEntry) : Prop := u64 (me_size_bytes e) /\ u64 (me_fee e).
Definition fees_ok (m : Mempool) : Prop := Forall (fun e => 0 <= im_fee e) (mp_entries m).

(** What an admission may do to the entries: drop a suffix of them, each
    cheaper than the incoming entry and together cheaper, and add the entry. *)
Definition evicts (m : Mempool) (entry : MempoolEntry) (evicted : list TxId) (m' : Mempool) : Prop :=
  exists k, let gone := drop k (mp_entries m) in
    evicted = map im_tx_id (rev gone)
    /\ mp_entries m' ≡ₚ mkIndexed (mp_next_idx m) entry :: take k (mp_entries m)
    /\ Forall (fun e => im_fee e < me_fee entry) gone
    /\ (gone = [] \/ sum_fees gone < me_fee entry)
    /\ (forall e worse, gone = e :: worse ->
         mp_max_bytes m < mp_current_bytes m - sum_sizes worse + me_size_bytes entry).

Lemma evicts_nothing m entry : evicts m entry [] (with_entry m entry).
Proof.
  exists (length (mp_entries m)). rewrite drop_ge, take_ge by lia. simpl.
  split_and!; [done| |done|by left|done].
  by rewrite sort_desc_perm, <- Permutation_cons_append.
Qed.

Lemma insert_with_eviction_spec m entry :
  mempool_inv m -> fees_ok m -> entry_ok entry -> 0 <= mp_max_bytes m ->
  match insert_with_eviction m entry with
  | (m', Ok evicted) =>
      mp_next_idx m' = wrap_i64 (mp_next_idx m + 1) /\ mp_max_bytes m' = mp_max_bytes m
      /\ (mp_next_idx m < I64_MAX -> mempool_inv m') /\ evicts m entry evicted m'
  | (m', Err _) => m' = m
  | _ => False
  end.
Proof.
  intros Hinv Hfees [Hsz Hfee] Hmax. pose proof (inv_fits _ Hinv).
  assert (0 <= mp_current_bytes m) as Hcur
    by (rewrite (inv_bytes _ Hinv); apply sum_sizes_nonneg, Hinv).
  unfold insert_with_eviction. case_bool_decide as Hf; [done|].
  destruct (find_conflict _ _) eqn:Hc; [done|]. rewrite find_conflict_None in Hc.
  unfold checked_add. destruct (_ <=? _) eqn:Hw; [|done]. zbool.
  destruct (_ || _) eqn:Hroom.
  { destruct (insert m entry) as [m' r] eqn:Hins.
    apply insert_inv in Hins as [(Hadm & -> & ->)|(-> & e & ->)]; [|done]. simpl.
    split_and!; [done|done| |apply evicts_nothing].
    intros ?. apply inv_with_entry; [done..| |done]. by destruct Hsz. }
  zbool. destruct (_ <? me_size_bytes entry) eqn:Hbig; [done|]. zbool.
  unfold u64 in *. rewrite wrap64_id by (unfold u64; lia).
  set (needed := sat_sub _ _).
  assert (needed = mp_current_bytes m + me_size_bytes entry - mp_max_bytes m) as Hneed
    by (unfold needed, sat_sub; lia).
  destruct (evict_scan_spec needed (me_fee entry) (mp_entries m) 0 0 [])
    as (k & Hk & -> & Hcheap & Hmin); [|lia..|].
  { apply Forall_and. split; [apply Hinv|exact Hfees]. }
  destruct (_ <? needed) eqn:Hfree; [done|]. destruct (_ <=? Z.min _ _) eqn:Hworth; [done|]. zbool.
  rewrite app_nil_l, sort_desc_rev_seq.
  destruct (evict_all_spec (length (mp_entries m) - k) m k [] Hinv)
    as (m' & -> & Hinv' & Hm' & Hmax' & Hnext); [lia|].
  pose proof (inv_bytes _ Hinv) as Hb. pose proof (inv_bytes _ Hinv') as Hb'.
  rewrite <- (take_drop k (mp_entries m)), sum_sizes_app, <- Hm', <- Hb' in Hb.
  assert (admissible m' entry) as Hadm.
  { destruct (inv_prefix_clear m m' entry k) as [Hf' Hc']; [done..|].
    pose proof (sum_sizes_nonneg _ (Forall_drop _ k _ (inv_sizes _ Hinv))).
    constructor; [done|done|lia|rewrite Hmax'; lia]. }
  rewrite (insert_admissible _ _ Hadm). simpl. split_and!; [by rewrite Hnext|done| |].
  { intros ?. apply inv_with_entry; [done|done|lia|lia]. }
  exists k. cbv zeta. split_and!; [done| |done| |].
  - rewrite <- Hm', <- Hnext. simpl. by rewrite sort_desc_perm, <- Permutation_cons_append.
  - right. lia.
  - intros e worse Hd. assert (k < length (mp_entries m))%nat as Hlt.
    { destruct (decide (k < length (mp_entries m))%nat); [done|].
      by rewrite drop_ge in Hd by lia. }
    specialize (Hmin Hlt). assert (drop (S k) (mp_entries m) = worse) as Hw'.
    { replace (S k) with (k + 1)%nat by lia. by rewrite <- drop_drop, Hd. }
    rewrite Hw' in Hmin. lia.
Qed.

(** ** Removal passes *)

Lemma remove_at_spec m e l1 l2 :
  mempool_inv m -> mp_entries m = l1 ++ e :: l2 ->
  exists m', remove_at m (length l1) = Some (e, m') /\ mempool_inv m'
    /\ mp_entries m' = l1 ++ l2 /\ mp_max_bytes m' = mp_max_bytes m
    /\ mp_next_idx m' = mp_next_idx m.
Proof.
  intros Hinv Hl. unfold remove_at.
  assert (mp_entries m !! length l1 = Some e) as -> by (rewrite Hl; by apply list_lookup_middle).
  simpl. eexists. split; [done|].
  destruct (sat_sub_size m e Hinv) as [_ ->]; [rewrite Hl; set_solver|].
  replace (take (length l1) (mp_entries m)) with l1 by (by rewrite Hl, take_app_length).
  replace (drop (S (length l1)) (mp_entries m)) with l2
    by (by rewrite Hl, cons_middle, (assoc_L (++)), drop_app_length' by (rewrite length_app; simpl; lia)).
  split; [by apply inv_forget|done].
Qed.

(** The same pass on a list, without the bookkeeping: what is kept, what is
    removed and the final state of the callback. *)
Fixpoint partition_with {St} (verdict : St -> MempoolEntry -> sweep_outcome (bool * St)) (st : St)
    (l : list IndexedMempoolEntry)
    : sweep_outcome (list IndexedMempoolEntry * list IndexedMempoolEntry * St) :=
  match l with
  | [] => Ok ([], [], st)
  | e :: l =>
      let? (remove, st) := verdict st (im_entry e) in
      let? (kept, gone, st) := partition_with verdict st l in
      Ok (if remove then (kept, e :: gone, st) else (e :: kept, gone, st))
  end.

Definition same_outcome {A B} (r : sweep_outcome A) (r' : sweep_outcome B) (Q : A -> B -> Prop) : Prop :=
  match r, r' with
  | Ok a, Ok b => Q a b
  | Panic, Panic | OutOfFuel, OutOfFuel => True
  | _, _ => False
  end.

Lemma sweep_spec {St} (verdict : St -> MempoolEntry -> sweep_outcome (bool * St)) rest :
  forall fuel l1 st m count,
  mempool_inv m -> mp_entries m = l1 ++ rest -> (length rest < fuel)%nat ->
  same_outcome (sweep verdict fuel (length l1) st m count) (partition_with verdict st rest)
    (fun '(count', st1, m') '(kept, gone, st2) =>
       st1 = st2 /\ count' = count + zlength gone /\ mempool_inv m' /\ mp_entries m' = l1 ++ kept
       /\ mp_max_bytes m' = mp_max_bytes m /\ mp_next_idx m' = mp_next_idx m).
Proof.
  induction rest as [|e rest IH]; intros fuel l1 st m count Hinv Hl Hfuel;
    (destruct fuel as [|fuel]; [simpl in Hfuel; lia|]); simpl.
  { rewrite lookup_ge_None_2 by (rewrite Hl, app_nil_r; done). simpl.
    rewrite zlength_nil. split_and!; [done|lia|done..]. }
  assert (mp_entries m !! length l1 = Some e) as -> by (rewrite Hl; by apply list_lookup_middle).
  destruct (verdict st (im_entry e)) as [[[|] st']|[]| |]; simpl; [| |done|done].
  - destruct (remove_at_spec m e l1 rest Hinv Hl) as (m1 & -> & Hinv1 & Hl1 & Hmax & Hnext).
    specialize (IH fuel l1 st' m1 (count + 1) Hinv1 Hl1 ltac:(simpl in *; lia)).
    destruct (sweep _ _ _ _ _ _) as [[[c s1] m2]|[]| |], (partition_with _ _ _) as [[[kp gn] s2]|[]| |];
      simpl in *; try done.
    rewrite zlength_cons. rewrite <- Hmax, <- Hnext. intuition lia.
  - specialize (IH fuel (l1 ++ [e]) st' m count Hinv). rewrite length_app, <- !(assoc_L (++)) in IH.
    simpl in IH. rewrite Nat.add_1_r in IH. specialize (IH Hl ltac:(simpl in *; lia)).
    destruct (sweep _ _ _ _ _ _) as [[[c s1] m2]|[]| |], (partition_with _ _ _) as [[[kp gn] s2]|[]| |];
      simpl in *; try done.
    by rewrite <- (assoc_L (++)) in IH.
Qed.

Lemma partition_pure p l :
  partition_with (pure_verdict p) tt l
  = Ok (List.filter (fun e => negb (p (im_entry e))) l, List.filter (fun e => p (im_entry e)) l, tt).
Proof. induction l as [|e l IH]; simpl; [done|]. rewrite IH. simpl. by destruct (p _). Qed.

(** What a pass with a pure criterion does. *)
Definition drops_exactly (p : MempoolEntry -> bool) (m : Mempool)
    (r : sweep_outcome (Z * unit * Mempool)) : Prop :=
  exists m', r = Ok (zlength (List.filter (fun e => p (im_entry e)) (mp_entries m)), tt, m')
    /\ mempool_inv m' /\ mp_entries m' = List.filter (fun e => negb (p (im_entry e))) (mp_entries m)
    /\ mp_max_bytes m' = mp_max_bytes m /\ mp_next_idx m' = mp_next_idx m.

Lemma run_sweep_pure p m :
  mempool_inv m -> drops_exactly p m (run_sweep (pure_verdict p) tt m).
Proof.
  intros Hinv. pose proof (sweep_spec (pure_verdict p) (mp_entries m)
    (S (length (mp_entries m))) [] tt m 0 Hinv eq_refl ltac:(lia)) as H.
  unfold run_sweep. rewrite partition_pure in H. simpl length in H.
  destruct (sweep _ _ _ _ _ _) as [[[c []] m']|[]| |]; simpl in H; try done.
  destruct H as (_ & -> & ? & ? & ? & ?). by exists m'.
Qed.

(** A pass whose callback returns for every entry removes some entries. *)
Lemma partition_kept {St} (verdict : St -> MempoolEntry -> sweep_outcome (bool * St)) l :
  (forall st e, exists r, verdict st e = Ok r) ->
  forall st, exists kept gone st', partition_with verdict st l = Ok (kept, gone, st') /\ kept ⊆ l.
Proof.
  intros Hv. induction l as [|e l IH]; intros st; cbn [partition_with]; [by exists [], [], st|].
  destruct (Hv st (im_entry e)) as [[remove st1] ->]. cbn [obind].
  destruct (IH st1) as (kept & gone & st2 & -> & Hsub). cbn [obind]. destruct remove.
  - exists kept, (e :: gone), st2. split; [done|set_solver].
  - exists (e :: kept), gone, st2. split; [done|set_solver].
Qed.

Lemma run_sweep_kept {St} (verdict : St -> MempoolEntry -> sweep_outcome (bool * St)) st m :
  mempool_inv m -> (forall st e, exists r, verdict st e = Ok r) ->
  exists c st' m', run_sweep verdict st m = Ok (c, st', m') /\ mempool_inv m' /\ mp_entries m' ⊆ mp_entries m
    /\ mp_max_bytes m' = mp_max_bytes m /\ mp_next_idx m' = mp_next_idx m.
Proof.
  intros Hinv Hv. pose proof (sweep_spec verdict (mp_entries m)
    (S (length (mp_entries m))) [] st m 0 Hinv eq_refl ltac:(lia)) as H.
  destruct (partition_kept verdict (mp_entries m) Hv st) as (kept & gone & st2 & E & Hsub). rewrite E in H.
  unfold run_sweep. cbn [length] in H.
  destruct (sweep _ _ _ _ _ _) as [[[c st1] m']|[]| |]; simpl in H; try done.
  destruct H as (_ & _ & ? & Hl & ? & ?). exists c, st1, m'. rewrite Hl. by split_and!.
Qed.

(** ** Checked admission never gets stuck on sane prices *)

Lemma validate_fee_total params size units fee :
  (forall u, units = Some u -> script_fee_fits params u) ->
  validate_fee params size units fee = Ok tt
  \/ exists e, validate_fee params size units fee = Err e.
Proof.
  intros Hfit. unfold validate_fee, total_min_fee. destruct units as [u|]; simpl.
  - rewrite script_fee_spec by auto. simpl. case_match; eauto.
  - case_match; eauto.
Qed.

(** The prices do not overflow [script_fee] on the units of this entry. *)
Definition prices_fit (units_of : MempoolEntry -> option ExUnits) (params : ProtocolParameters)
    (e : MempoolEntry) : Prop :=
  forall u, units_of e = Some u -> script_fee_fits params u.

Lemma precheck_total units_of entry slot params :
  (forall p, params = Some p -> prices_fit units_of p entry) ->
  precheck_ttl_and_params units_of entry slot params = Ok tt
  \/ exists e, precheck_ttl_and_params units_of entry slot params = Err e.
Proof.
  intros Hfit. unfold precheck_ttl_and_params. case_match; [eauto|].
  destruct params as [p|]; [|eauto]. unfold validate_tx_size. case_match; simpl; [eauto|].
  assert (forall r : outcome LedgerError unit, (r = Ok tt \/ exists e, r = Err e) ->
    forall f : LedgerError -> MempoolError, map_err f r = Ok tt \/ exists e, map_err f r = Err e)
    as Hmap by (intros r [->|[? ->]]; simpl; eauto).
  pose proof (validate_fee_total p (zlength (me_body entry)) (units_of entry) (me_fee entry)
                (Hfit p eq_refl)) as Hfee.
  destruct (units_of entry) as [u|]; simpl; [|by apply Hmap].
  unfold validate_tx_ex_units. destruct (max_tx_ex_units p); [case_match; simpl; [eauto|]|];
    by apply Hmap.
Qed.

Lemma invalid_for_params_total units_of params entry :
  prices_fit units_of params entry ->
  exists b, invalid_for_params units_of params entry = Ok b.
Proof.
  intros Hfit. unfold invalid_for_params, validate_tx_size.
  pose proof (validate_fee_total params (zlength (me_body entry)) (units_of entry) (me_fee entry)
                Hfit) as Hfee.
  assert (exists b, is_err (validate_fee params (zlength (me_body entry)) (units_of entry)
                              (me_fee entry)) = Ok b) as [b Hb]
    by (destruct Hfee as [->|[? ->]]; simpl; eauto).
  case_match; simpl; [eauto|]. rewrite Hb.
  destruct (units_of entry) as [u|]; simpl; [|eauto].
  unfold validate_tx_ex_units. destruct (max_tx_ex_units params); simpl; [|eauto].
  case_match; simpl; eauto.
Qed.

(** The verdict of [purge_invalid_for_params] as a boolean. *)
Definition purge_rejects (units_of : MempoolEntry -> option ExUnits) (slot : SlotNo)
    (params : ProtocolParameters) (e : MempoolEntry) : bool :=
  expired_at slot e || match invalid_for_params units_of params e with Ok b => b | _ => false end.

Lemma sweep_ext {St} (v w : St -> MempoolEntry -> sweep_outcome (bool * St)) fuel :
  forall i st m c, (forall st e, e ∈ mp_entries m -> v st (im_entry e) = w st (im_entry e)) ->
  sweep v fuel i st m c = sweep w fuel i st m c.
Proof.
  induction fuel as [|fuel IH]; intros i st m c Hvw; [done|]. simpl.
  destruct (mp_entries m !! i) as [e|] eqn:He; [|done].
  rewrite Hvw by (by eapply list_elem_of_lookup_2).
  destruct (w st _) as [[[|] st']|[]| |]; simpl; [|by apply IH|done|done].
  unfold remove_at. rewrite He. simpl. apply IH. simpl. intros st'' e' He'.
  apply Hvw. apply elem_of_app in He' as [?|?]; [by eapply elem_of_prefix|].
  by eapply elem_of_suffix.
Qed.

Lemma purge_invalid_spec units_of m slot params :
  mempool_inv m -> Forall (fun e => prices_fit units_of params (im_entry e)) (mp_entries m) ->
  drops_exactly (purge_rejects units_of slot params) m
    (purge_invalid_for_params units_of m slot params).
Proof.
  intros Hinv Hfit. unfold purge_invalid_for_params, run_sweep.
  erewrite sweep_ext; [by apply run_sweep_pure|]. intros [] e He.
  rewrite Forall_forall in Hfit. destruct (invalid_for_params_total _ _ _ (Hfit e He)) as [b Hb].
  unfold pure_verdict, purge_rejects, expired_at. rewrite Hb. simpl. by case_match.
Qed.

(** A mempool with one entry that fits. *)
Lemma inv_one max_bytes entry :
  u64 (me_size_bytes entry) -> me_size_bytes entry <= max_bytes ->
  mempool_inv (with_entry (with_capacity max_bytes) entry).
Proof.
  intros [Hsz Hw] Hfit. apply inv_with_entry; [apply inv_with_capacity| |done|done].
  split; simpl; [set_solver|intros i _; apply lookup_empty|lia|lia].
Qed.

(** ** Single removals *)

Lemma pop_best_spec m :
  mempool_inv m ->
  match pop_best m with
  | (None, m') => mp_entries m = [] /\ m' = m
  | (Some best, m') =>
      mempool_inv m' /\ mp_max_bytes m' = mp_max_bytes m /\ mp_next_idx m' = mp_next_idx m
      /\ (exists idx, mp_entries m = mkIndexed idx best :: mp_entries m')
      /\ Forall (fun e => im_fee e <= me_fee best) (mp_entries m')
  end.
Proof.
  intros Hinv. unfold pop_best. destruct (mp_entries m) as [|e rest] eqn:Hl; [done|].
  destruct (sat_sub_size m e Hinv) as [_ ->]; [rewrite Hl; set_solver|].
  split_and!; [by apply (inv_forget m e [] rest)|done|done|exists (im_idx e); by destruct e|].
  pose proof (inv_sorted _ Hinv) as Hs. rewrite Hl in Hs.
  by apply StronglySorted_inv in Hs as [_ ?].
Qed.

Definition has_id (tx_id : TxId) (e : IndexedMempoolEntry) : bool := bool_decide (im_tx_id e = tx_id).

Lemma remove_by_id_spec m tx_id :
  mempool_inv m ->
  exists m', remove_by_id m tx_id = (mp_contains m tx_id, m')
    /\ mempool_inv m' /\ mp_max_bytes m' = mp_max_bytes m /\ mp_next_idx m' = mp_next_idx m
    /\ mp_entries m' = List.filter (fun e => negb (has_id tx_id e)) (mp_entries m).
Proof.
  intros Hinv. unfold remove_by_id, mp_contains. pose proof (inv_nodup _ Hinv) as Hn.
  assert (forall l, tx_id ∉ map im_tx_id l -> List.filter (fun e => negb (has_id tx_id e)) l = l)
    as Hkeep.
  { induction l as [|e l IH]; simpl; [done|]. intros Hni. unfold has_id at 1.
    rewrite bool_decide_eq_false_2 by set_solver. simpl. f_equal. set_solver. }
  pose proof (inv_tx_ids _ Hinv) as Ht. case_bool_decide as Hin; simpl; rewrite Ht in Hin;
    rewrite elem_of_list_to_set in Hin.
  2: { exists m. split_and!; [done..|]. by rewrite Hkeep. }
  pose proof (position_spec (has_id tx_id) (mp_entries m)) as Hpos. unfold has_id in Hpos at 1.
  destruct (position _ _) as [pos|].
  - destruct Hpos as (l1 & e & l2 & Hl & <- & He & _). apply bool_decide_eq_true in He as <-.
    destruct (remove_at_spec m e l1 l2 Hinv Hl) as (m' & -> & ? & Hm' & ? & ?). exists m'.
    split_and!; [done..|]. rewrite Hm'. rewrite Hl, map_app in Hn. simpl in Hn.
    apply NoDup_app in Hn as (_ & Hn1 & [Hn2 _]%NoDup_cons).
    rewrite Hl, List.filter_app. simpl. unfold has_id at 2. rewrite bool_decide_eq_true_2 by done.
    simpl. rewrite !Hkeep; [done|done|]. set_solver.
  - apply list_elem_of_fmap in Hin as (e & -> & He). rewrite Forall_forall in Hpos.
    specialize (Hpos e He). by apply bool_decide_eq_false in Hpos.
Qed.

(** ** Snapshots *)

(** A position index built over a list whose keys are distinct. *)
Lemma position_index_spec `{Countable K} (key : IndexedMempoolEntry -> K) l :
  NoDup (map key l) -> forall k pos,
  (fold_left (fun acc (p : nat * IndexedMempoolEntry) => <[key p.2 := p.1]> acc)
     (imap pair l) ∅ : gmap K nat) !! k = Some pos
  <-> exists e, l !! pos = Some e /\ key e = k.
Proof.
  induction l as [|x l IH] using rev_ind; intros Hn k pos; simpl.
  { rewrite lookup_empty. naive_solver. }
  rewrite imap_app, fold_left_app. simpl. rewrite Nat.add_0_r. rewrite map_app in Hn.
  apply NoDup_app in Hn as (Hn & Hx & _). specialize (IH Hn).
  assert (forall p e, l !! p = Some e -> key e <> key x) as Hne.
  { intros p e Hp%list_elem_of_lookup_2 Heq. apply (Hx (key e)); [by apply list_elem_of_fmap_2|].
    rewrite Heq. set_solver. }
  rewrite lookup_insert_Some, IH. split.
  - intros [[<- <-]|[Hk (e & He & <-)]]; [exists x|exists e].
    + split; [by apply list_lookup_middle|done].
    + split; [by apply lookup_app_l_Some|done].
  - intros (e & [He|[Hge He]]%lookup_app_Some & <-).
    + right. split; [by eapply not_eq_sym, Hne|eauto].
    + left. assert (pos = length l) as -> by (apply lookup_lt_Some in He; simpl in He; lia).
      rewrite Nat.sub_diag in He. by injection He as ->.
Qed.

Lemma snapshot_lookup_id m t e :
  (forall pos, sn_tx_id_to_pos (snapshot m) !! t = Some pos <->
     exists x, mp_entries m !! pos = Some x /\ im_tx_id x = t) ->
  mempool_lookup_tx_by_id (snapshot m) t = Some e <->
  exists idx, mkIndexed idx e ∈ mp_entries m /\ me_tx_id e = t.
Proof.
  intros H. unfold mempool_lookup_tx_by_id. split.
  - intros (pos & (x & Hx & Ht)%H & Hl)%bind_Some. simpl in Hl. rewrite Hx in Hl.
    injection Hl as <-. exists (im_idx x). split; [|done]. destruct x.
    by eapply list_elem_of_lookup_2.
  - intros (idx & [pos Hpos]%list_elem_of_lookup & Ht).
    rewrite (proj2 (H pos)) by (by eexists). simpl. by rewrite Hpos.
Qed.

Lemma snapshot_lookup_idx m idx e :
  (forall pos, sn_idx_to_pos (snapshot m) !! idx = Some pos <->
     exists x, mp_entries m !! pos = Some x /\ im_idx x = idx) ->
  mempool_lookup_tx (snapshot m) idx = Some e <-> mkIndexed idx e ∈ mp_entries m.
Proof.
  intros H. unfold mempool_lookup_tx. split.
  - intros (pos & (x & Hx & <-)%H & Hl)%bind_Some. simpl in Hl. rewrite Hx in Hl.
    injection Hl as <-. destruct x. by eapply list_elem_of_lookup_2.
  - intros [pos Hpos]%list_elem_of_lookup.
    rewrite (proj2 (H pos)) by (by eexists). simpl. by rewrite Hpos.
Qed.

Lemma txids_after_sorted m cursor :
  NoDup (map im_idx (mp_entries m)) ->
  StronglySorted (fun a b => a.1.2 < b.1.2) (mempool_txids_after (snapshot m) cursor).
Proof.
  intros Hn. unfold mempool_txids_after. apply strictly_sorted_keys with (key := fun t => t.1.2).
  - eapply StronglySorted_mono; [|apply sort_desc_sorted]. simpl. lia.
  - rewrite sort_desc_perm, map_map. simpl. clear -Hn.
    induction (mp_entries m) as [|e l IH]; simpl in *; [constructor|].
    apply NoDup_cons in Hn as [Hni Hn]. case_match; [|auto]. simpl. apply NoDup_cons.
    split; [|auto]. intros (x & Hx & Hin)%list_elem_of_fmap. apply Hni. rewrite Hx.
    apply list_elem_of_fmap_2. apply list_elem_of_In, List.filter_In in Hin as [Hin _].
    by apply list_elem_of_In.
Qed.

Lemma txids_after_elem m cursor t idx size :
  (t, idx, size) ∈ mempool_txids_after (snapshot m) cursor <->
  exists e, mkIndexed idx e ∈ mp_entries m /\ cursor < idx /\ me_tx_id e = t
    /\ me_size_bytes e = size.
Proof.
  unfold mempool_txids_after. rewrite sort_desc_perm, list_elem_of_fmap. simpl. split.
  - intros ([i e] & [= -> -> ->] & Hin). apply list_elem_of_In, List.filter_In in Hin as [Hin Hlt].
    simpl in Hlt. zbool. exists e. split_and!; [by apply list_elem_of_In|done..].
  - intros (e & Hin & Hlt & <- & <-). exists (mkIndexed idx e). split; [done|].
    apply list_elem_of_In, List.filter_In. split; [by apply list_elem_of_In|].
    simpl. by apply Z.ltb_lt.
Qed.

(** ** Histories *)

Section history.
Variable units_of : MempoolEntry -> option ExUnits.

(** The calls the node makes on a mempool. *)
Inductive op :=
  | OpInsert (entry : MempoolEntry)
  | OpInsertWithEviction (entry : MempoolEntry)
  | OpInsertChecked (entry : MempoolEntry) (slot : SlotNo) (params : option ProtocolParameters)
  | OpInsertCheckedWithEviction (entry : MempoolEntry) (slot : SlotNo)
      (params : option ProtocolParameters)
  | OpPopBest
  | OpRemoveById (tx_id : TxId)
  | OpRemoveConfirmed (tx_ids : list TxId)
  | OpRemoveConflicting (inputs : list ShelleyTxIn)
  | OpPurgeExpired (slot : SlotNo)
  | OpRevalidate (slot : SlotNo) (available : gset ShelleyTxIn)
  | OpPurgeInvalid (slot : SlotNo) (params : ProtocolParameters)
  | OpRevalidateWithLedger (St : Type) (validate : St -> MempoolEntry -> sweep_outcome (bool * St)) (st : St).

(** A call that returned; its [Result] is dropped, as the mempool goes on. *)
Definition after {E A} (r : Mempool * outcome E A) : sweep_outcome Mempool :=
  match r with
  | (m, Ok _) | (m, Err _) => Ok m
  | (_, Panic) => Panic
  | (_, OutOfFuel) => OutOfFuel
  end.
Definition swept {A} (r : sweep_outcome (Z * A * Mempool)) : sweep_outcome Mempool :=
  let? (_, _, m) := r in Ok m.

Definition apply_op (m : Mempool) (o : op) : sweep_outcome Mempool :=
  match o with
  | OpInsert e => after (insert m e)
  | OpInsertWithEviction e => after (insert_with_eviction m e)
  | OpInsertChecked e slot params => after (insert_checked units_of m e slot params)
  | OpInsertCheckedWithEviction e slot params =>
      after (insert_checked_with_eviction units_of m e slot params)
  | OpPopBest => Ok (pop_best m).2
  | OpRemoveById tx_id => Ok (remove_by_id m tx_id).2
  | OpRemoveConfirmed tx_ids => swept (remove_confirmed m tx_ids)
  | OpRemoveConflicting inputs => swept (remove_conflicting_inputs m inputs)
  | OpPurgeExpired slot => swept (purge_expired m slot)
  | OpRevalidate slot available => swept (revalidate m slot available)
  | OpPurgeInvalid slot params => swept (purge_invalid_for_params units_of m slot params)
  | OpRevalidateWithLedger _ validate st => swept (revalidate_with_ledger m validate st)
  end.

Fixpoint run_ops (m : Mempool) (ops : list op) : sweep_outcome Mempool :=
  match ops with
  | [] => Ok m
  | o :: ops => let? m := apply_op m o in run_ops m ops
  end.

(** The callback of the last call must not panic itself. *)
Definition op_ok (o : op) : Prop :=
  match o with
  | OpInsert e | OpInsertWithEviction e => entry_ok e
  | OpInsertChecked e _ params | OpInsertCheckedWithEviction e _ params =>
      entry_ok e /\ forall p, params = Some p -> prices_fit units_of p e
  | OpPurgeInvalid _ params => forall e, prices_fit units_of params e
  | OpRevalidateWithLedger _ validate _ => forall st e, exists r, validate st e = Ok r
  | _ => True
  end.

(** What every call keeps, with [n] bounding the indices given out. *)
Definition mempool_state (max_bytes n : Z) (m : Mempool) : Prop :=
  mempool_inv m /\ fees_ok m /\ mp_max_bytes m = max_bytes /\ mp_next_idx m <= n.

Lemma state_mono max n m : mempool_state max n m -> mempool_state max (n + 1) m.
Proof. intros (? & ? & ? & ?). split_and!; [done..|lia]. Qed.

Lemma state_subset max n m m' :
  mempool_state max n m -> mempool_inv m' -> mp_entries m' ⊆ mp_entries m ->
  mp_max_bytes m' = mp_max_bytes m -> mp_next_idx m' = mp_next_idx m ->
  mempool_state max (n + 1) m'.
Proof.
  intros (Hinv & Hf & Hmax & Hn) Hinv' Hsub Hmax' Hn'. split_and!; [done| |congruence|lia].
  unfold fees_ok in *. rewrite Forall_forall in *. auto.
Qed.

Lemma state_swept max n m p r :
  mempool_state max n m -> drops_exactly p m r ->
  exists m', swept r = Ok m' /\ mempool_state max (n + 1) m'.
Proof.
  intros Hst (m' & -> & Hinv' & Hm' & Hmax & Hnext). exists m'. split; [done|].
  eapply state_subset; [done..| |done|done]. rewrite Hm'. intros e He.
  apply list_elem_of_In, List.filter_In in He as [He _]. by apply list_elem_of_In.
Qed.

Lemma next_idx_step n idx : 0 <= idx <= I64_MAX -> idx <= n -> n < I64_MAX -> wrap_i64 (idx + 1) <= n + 1.
Proof. unfold wrap_i64, I64_MAX. intros. rewrite Z.mod_small; lia. Qed.

Lemma state_insert max n m entry :
  mempool_state max n m -> entry_ok entry -> n < I64_MAX ->
  exists m', after (insert m entry) = Ok m' /\ mempool_state max (n + 1) m'.
Proof.
  intros Hst [Hsz Hfee] Hn. destruct (insert m entry) as [m' r] eqn:E.
  apply insert_inv in E as [(Hadm & -> & ->)|(-> & e & ->)];
    [|exists m; split; [done|by apply state_mono]].
  destruct Hst as (Hinv & Hf & Hmax & Hidx). eexists. split; [done|]. split_and!; [..|done|].
  - apply inv_with_entry; [done|done|by destruct Hsz|lia].
  - unfold fees_ok. simpl. rewrite sort_desc_perm. apply Forall_app.
    split; [done|]. repeat constructor. by destruct Hfee.
  - apply next_idx_step; [apply Hinv|lia|lia].
Qed.

Lemma state_evict max n m entry :
  0 <= max -> mempool_state max n m -> entry_ok entry -> n < I64_MAX ->
  exists m', after (insert_with_eviction m entry) = Ok m' /\ mempool_state max (n + 1) m'.
Proof.
  intros Hm0 Hst Hok Hn. pose proof Hst as (Hinv & Hf & Hmax & Hidx).
  pose proof (insert_with_eviction_spec m entry Hinv Hf Hok ltac:(lia)) as H.
  destruct (insert_with_eviction m entry) as [m' [ev|e| |]]; simpl; [| |done|done].
  - destruct H as (Hnext & Hmax' & Hinv' & k & _ & Hp & _). exists m'. split; [done|].
    split_and!; [apply Hinv'; lia| |congruence|].
    + unfold fees_ok in *. rewrite Hp. constructor; [|by apply Forall_take]. by destruct Hok as [_ []].
    + rewrite Hnext. apply next_idx_step; [apply Hinv|lia|lia].
  - subst. exists m. split; [done|by apply state_mono].
Qed.

Lemma conflicts_with_nil e : conflicts_with [] e = false.
Proof.
  unfold conflicts_with. induction (me_inputs e) as [|i l IH]; cbn [existsb]; [done|].
  rewrite IH, bool_decide_eq_false_2 by set_solver. done.
Qed.

Lemma remove_conflicting_spec m inputs :
  mempool_inv m -> drops_exactly (conflicts_with inputs) m (remove_conflicting_inputs m inputs).
Proof.
  intros Hinv. unfold remove_conflicting_inputs.
  destruct inputs as [|i inputs]; [|by apply run_sweep_pure]. exists m.
  assert (forall l, List.filter (fun e => conflicts_with [] (im_entry e)) l = []
    /\ List.filter (fun e => negb (conflicts_with [] (im_entry e))) l = l) as Hnone.
  { induction l as [|e l [IH1 IH2]]; simpl; [done|]. by rewrite conflicts_with_nil, IH1, IH2. }
  destruct (Hnone (mp_entries m)) as [-> ->]. done.
Qed.

Lemma apply_op_state max n m o :
  0 <= max -> mempool_state max n m -> op_ok o -> n < I64_MAX ->
  exists m', apply_op m o = Ok m' /\ mempool_state max (n + 1) m'.
Proof.
  intros Hm0 Hst Hok Hn. pose proof Hst as (Hinv & Hf & Hmax & Hidx).
  destruct o as [e|e|e slot params|e slot params| |t|ts|ins|s|s a|s p|St v st]; simpl in *.
  - by apply state_insert.
  - by apply state_evict.
  - destruct Hok as [Hok Hfit]. unfold insert_checked.
    destruct (precheck_total units_of e slot params Hfit) as [->|[err ->]];
      [by apply state_insert|]. exists m. split; [done|by apply state_mono].
  - destruct Hok as [Hok Hfit]. unfold insert_checked_with_eviction.
    destruct (precheck_total units_of e slot params Hfit) as [->|[err ->]];
      [by apply state_evict|]. exists m. split; [done|by apply state_mono].
  - pose proof (pop_best_spec m Hinv) as H. destruct (pop_best m) as [[b|] m']; eexists; (split; [done|]).
    + destruct H as (? & ? & ? & (idx & Hl) & _). eapply state_subset; [done..| |done|done].
      rewrite Hl. simpl. set_solver.
    + destruct H as [_ ->]. by apply state_mono.
  - destruct (remove_by_id_spec m t Hinv) as (m' & -> & ? & ? & ? & Hl). exists m'. split; [done|].
    eapply state_subset; [done..| |done|done]. rewrite Hl. intros x Hx.
    apply list_elem_of_In, List.filter_In in Hx as [Hx _]. by apply list_elem_of_In.
  - eapply state_swept; [done|by apply run_sweep_pure].
  - eapply state_swept; [done|by apply remove_conflicting_spec].
  - eapply state_swept; [done|by apply run_sweep_pure].
  - eapply state_swept; [done|by apply run_sweep_pure].
  - eapply state_swept; [done|]. apply purge_invalid_spec; [done|]. apply Forall_true. auto.
  - unfold revalidate_with_ledger.
    destruct (run_sweep_kept (fun st e => let? (ok, st) := v st e in Ok (negb ok, st)) st m Hinv)
      as (c & st' & m' & -> & ? & ? & ? & ?).
    { intros st0 e. destruct (Hok st0 e) as [[ok st1] ->]. by eexists. }
    exists m'. split; [done|]. by eapply state_subset.
Qed.

Lemma run_ops_state max ops : forall n m,
  0 <= max -> mempool_state max n m -> Forall op_ok ops -> n + zlength ops <= I64_MAX ->
  exists m', run_ops m ops = Ok m' /\ mempool_state max (n + zlength ops) m'.
Proof.
  induction ops as [|o ops IH]; intros n m Hm0 Hst Hok Hlen; simpl.
  { exists m. by rewrite zlength_nil, Z.add_0_r. }
  apply Forall_cons in Hok as [Ho Hok]. rewrite zlength_cons in *.
  pose proof (zlength_nonneg ops).
  destruct (apply_op_state max n m o) as (m1 & -> & Hst1); [done..|lia|]. simpl.
  destruct (IH (n + 1) m1) as (m' & -> & Hst'); [done..|lia|].
  exists m'. split; [done|]. by rewrite (Z.add_assoc n 1).
Qed.

End history.

(** ** Properties *)

(** C15: from an empty mempool, any sequence of fewer than 2^63 calls of its
    operations (all that change it: insertion, eviction, removal, purging and
    both revalidations), on entries whose sizes and fees are machine integers,
    with prices that do not overflow the script fee and validation callbacks
    that return, runs without a panic and leaves a mempool in which the entries
    are in descending fee order with distinct transaction ids, the byte
    counter is the sum of the resident sizes and within the capacity, the
    membership index is exactly the resident ids, and no two resident
    transactions spend a common input. *)
Theorem mempool_history_sound (units_of : MempoolEntry -> option ExUnits) (max_bytes : Z)
    (ops : list op) (Hmax : u64 max_bytes) (Hops : Forall (op_ok units_of) ops)
    (Hlen : zlength ops <= I64_MAX) :
  exists m, run_ops units_of (with_capacity max_bytes) ops = Ok m
    /\ StronglySorted (fun a b => im_fee b <= im_fee a) (mp_entries m)
    /\ NoDup (map im_tx_id (mp_entries m))
    /\ mp_current_bytes m = sum_sizes (mp_entries m)
    /\ (0 < max_bytes -> mp_current_bytes m <= max_bytes)
    /\ (forall t, mp_contains m t = true <-> t ∈ map im_tx_id (mp_entries m))
    /\ (forall e e' i, e ∈ mp_entries m -> e' ∈ mp_entries m ->
          i ∈ im_inputs e -> i ∈ im_inputs e' -> e = e').
Proof.
  destruct Hmax as [Hmax _].
  destruct (run_ops_state units_of max_bytes ops 0 (with_capacity max_bytes))
    as (m & Hrun & Hinv & _ & Hm & _); [done| |done|lia|].
  { split_and!; [apply inv_with_capacity|by constructor|done|simpl; lia]. }
  exists m. split_and!; [done|apply Hinv..| | |].
  - rewrite <- Hm. apply Hinv.
  - intros t. unfold mp_contains. by rewrite bool_decide_eq_true, (inv_tx_ids _ Hinv),
      elem_of_list_to_set.
  - intros e e' i He He' Hi Hi'. apply (same_id_same_entry (mp_entries m)); [apply Hinv|done..|].
    assert (mp_claimed_inputs m !! i = Some (im_tx_id e)
            /\ mp_claimed_inputs m !! i = Some (im_tx_id e')) as [E1 E2]
      by (split; apply (inv_claimed _ Hinv); eauto). congruence.
Qed.

Definition sample_entry (id fee size : Z) (inputs : list ShelleyTxIn) : MempoolEntry :=
  mkMempoolEntry EraConway [id] fee (repeat 0 (Z.to_nat size)) (repeat 0 (Z.to_nat size)) size 100 inputs.
Definition sample_input (n : Z) : ShelleyTxIn := mkTxIn [n] n.

Lemma mempool_history_sound_witness :
  exists m, run_ops (fun _ => None) (with_capacity 10)
    [OpInsert (sample_entry 1 5 4 [sample_input 1]); OpInsert (sample_entry 2 9 4 [sample_input 2]);
     OpInsert (sample_entry 3 8 2 [sample_input 2]);
     OpInsertWithEviction (sample_entry 4 7 6 [sample_input 3]); OpPopBest] = Ok m
  /\ NoDup (map im_tx_id (mp_entries m)).
Proof.
  destruct (mempool_history_sound (fun _ => None) 10
    [OpInsert (sample_entry 1 5 4 [sample_input 1]); OpInsert (sample_entry 2 9 4 [sample_input 2]);
     OpInsert (sample_entry 3 8 2 [sample_input 2]);
     OpInsertWithEviction (sample_entry 4 7 6 [sample_input 3]); OpPopBest]) as (m & Hm & _ & Hn & _).
  - unfold u64, U64_MAX. lia.
  - repeat constructor; discriminate.
  - discriminate.
  - by exists m.
Defined.

(** Admission with eviction is all or nothing. It never panics; an
    error leaves the mempool as it was; on success the invariant holds, the
    evicted transactions are the cheapest entries, each cheaper than the
    incoming one and together cheaper than it, and keeping the best of them
    would have exceeded the capacity. *)
Theorem insert_with_eviction_all_or_nothing (m : Mempool) (entry : MempoolEntry)
    (Hinv : mempool_inv m) (Hfees : fees_ok m) (Hentry : entry_ok entry)
    (Hmax : 0 <= mp_max_bytes m) (Hnext : mp_next_idx m < I64_MAX) :
  match insert_with_eviction m entry with
  | (m', Ok evicted) => mempool_inv m' /\ evicts m entry evicted m'
  | (m', Err _) => m' = m
  | (_, Panic) | (_, OutOfFuel) => False
  end.
Proof.
  pose proof (insert_with_eviction_spec m entry Hinv Hfees Hentry Hmax) as H.
  destruct (insert_with_eviction m entry) as [m' [ev|e| |]]; [|done..].
  destruct H as (_ & _ & H & ?). auto.
Qed.

Lemma insert_with_eviction_all_or_nothing_witness :
  exists m', insert_with_eviction
      (with_entry (with_capacity 10) (sample_entry 1 5 8 [sample_input 1]))
      (sample_entry 2 6 4 [sample_input 2]) = (m', Ok [[1]]) /\ mempool_inv m'.
Proof.
  assert (mempool_inv (with_entry (with_capacity 10) (sample_entry 1 5 8 [sample_input 1]))) as Hinv.
  { by apply inv_one. }
  pose proof (insert_with_eviction_all_or_nothing
    (with_entry (with_capacity 10) (sample_entry 1 5 8 [sample_input 1]))
    (sample_entry 2 6 4 [sample_input 2]) Hinv
    ltac:(repeat constructor; discriminate) ltac:(repeat split; discriminate)
    ltac:(discriminate) ltac:(reflexivity)) as H.
  eexists. split; [vm_compute; reflexivity|]. vm_compute in H. exact (proj1 H).
Defined.

(** Popping returns a transaction whose fee no other resident exceeds
    and leaves exactly the others; removing by id returns whether the id was
    resident and leaves exactly the entries with other ids. Both keep the
    invariant. *)
Theorem single_removals_exact (m : Mempool) (tx_id : TxId) (Hinv : mempool_inv m) :
  (match pop_best m with
   | (None, m') => mp_entries m = [] /\ m' = m
   | (Some best, m') =>
       mempool_inv m' /\ (exists idx, mp_entries m = mkIndexed idx best :: mp_entries m')
       /\ Forall (fun e => im_fee e <= me_fee best) (mp_entries m')
   end)
  /\ exists m', remove_by_id m tx_id = (mp_contains m tx_id, m') /\ mempool_inv m'
       /\ mp_entries m' = List.filter (fun e => negb (has_id tx_id e)) (mp_entries m).
Proof.
  split.
  - pose proof (pop_best_spec m Hinv) as H. destruct (pop_best m) as [[b|] m']; naive_solver.
  - destruct (remove_by_id_spec m tx_id Hinv) as (m' & ? & ? & _ & _ & ?). eauto.
Qed.

Lemma single_removals_exact_witness :
  exists m', pop_best (with_entry (with_capacity 10) (sample_entry 1 5 8 [])) =
    (Some (sample_entry 1 5 8 []), m') /\ mempool_inv m'.
Proof.
  assert (mempool_inv (with_entry (with_capacity 10) (sample_entry 1 5 8 []))) as Hinv.
  { by apply inv_one. }
  destruct (single_removals_exact _ [1] Hinv) as [H _]. eexists. split; [reflexivity|].
  exact (proj1 H).
Defined.

(** Every removal pass visits each entry once and ends; it removes
    exactly the entries its criterion selects (confirmed in a block, spending
    a consumed input, past their ttl, expired or spending an input that is
    gone, failing new protocol parameters), keeps the others in order, reports
    how many it removed and keeps the invariant. *)
Theorem removal_passes_exact (units_of : MempoolEntry -> option ExUnits) (m : Mempool)
    (tx_ids : list TxId) (inputs : list ShelleyTxIn) (slot : SlotNo)
    (available : gset ShelleyTxIn) (params : ProtocolParameters) (Hinv : mempool_inv m)
    (Hfit : Forall (fun e => prices_fit units_of params (im_entry e)) (mp_entries m)) :
  drops_exactly (confirmed_in tx_ids) m (remove_confirmed m tx_ids)
  /\ drops_exactly (conflicts_with inputs) m (remove_conflicting_inputs m inputs)
  /\ drops_exactly (expired_at slot) m (purge_expired m slot)
  /\ drops_exactly (fun e => expired_at slot e || inputs_spent available e) m
       (revalidate m slot available)
  /\ drops_exactly (purge_rejects units_of slot params) m
       (purge_invalid_for_params units_of m slot params).
Proof.
  split_and!; [by apply run_sweep_pure|by apply remove_conflicting_spec|by apply run_sweep_pure..|].
  by apply purge_invalid_spec.
Qed.

Lemma removal_passes_exact_witness :
  let m := with_entry (with_capacity 10) (sample_entry 1 5 8 []) in
  drops_exactly (confirmed_in [[1]]) m (remove_confirmed m [[1]]).
Proof.
  cbv zeta. refine (proj1 (removal_passes_exact (fun _ => None) _ [[1]] [] 0 ∅
    ProtocolParameters_default _ _)).
  - by apply inv_one.
  - simpl. apply Forall_singleton. intros u [=].
Defined.

(** A snapshot answers lookups by transaction id and by index with the
    resident entry and only with it, and the ids after a cursor are exactly
    the entries with a greater index, in the order they were admitted. *)
Theorem snapshot_answers (m : Mempool) (Hinv : mempool_inv m) :
  (forall t e, mempool_lookup_tx_by_id (snapshot m) t = Some e <->
     exists idx, mkIndexed idx e ∈ mp_entries m /\ me_tx_id e = t)
  /\ (forall idx e, mempool_lookup_tx (snapshot m) idx = Some e <-> mkIndexed idx e ∈ mp_entries m)
  /\ (forall t, mempool_has_tx (snapshot m) t = mp_contains m t)
  /\ (forall cursor, let after := mempool_txids_after (snapshot m) cursor in
        StronglySorted (fun a b => a.1.2 < b.1.2) after
        /\ forall t idx size, (t, idx, size) ∈ after <->
             exists e, mkIndexed idx e ∈ mp_entries m /\ cursor < idx /\ me_tx_id e = t
               /\ me_size_bytes e = size).
Proof.
  pose proof (position_index_spec im_tx_id _ (inv_nodup _ Hinv)) as Hid.
  pose proof (position_index_spec im_idx _ (inv_idx_nodup _ Hinv)) as Hidx.
  split_and!.
  - intros t e. apply snapshot_lookup_id, Hid.
  - intros idx e. apply snapshot_lookup_idx, Hidx.
  - intros t. unfold mempool_has_tx, mp_contains. apply bool_decide_ext.
    rewrite (inv_tx_ids _ Hinv), elem_of_list_to_set. simpl. unfold is_Some. setoid_rewrite Hid.
    rewrite list_elem_of_fmap. setoid_rewrite list_elem_of_lookup. naive_solver.
  - intros cursor. split; [apply txids_after_sorted, Hinv|]. intros t idx size.
    apply txids_after_elem.
Qed.

Lemma snapshot_answers_witness :
  let m := with_entry (with_capacity 10) (sample_entry 1 5 8 []) in
  mempool_lookup_tx (snapshot m) 0 = Some (sample_entry 1 5 8 []).
Proof.
  cbv zeta.
  assert (mempool_inv (with_entry (with_capacity 10) (sample_entry 1 5 8 []))) as Hinv.
  { by apply inv_one. }
  destruct (snapshot_answers _ Hinv) as (_ & H & _). apply H. simpl. constructor.
Defined.
