(* ===== verification/Storage.v ===== *)
(** * The block and snapshot stores

    Model of the store traits of [crates/storage/src] and of their in-memory
    implementations: [volatile_db.rs], [immutable_db.rs] and [ledger_db.rs].

    Each trait is a class of operations. What a coordinator may rely on is a
    second class, the laws, stated on the list of blocks (or snapshots) a store
    holds; the in-memory stores discharge it. A [&mut self] method returns the
    new store next to its result. *)

From S2P Require Import Prelude Cbor Types.
Local Open Scope Z_scope.

(** ** Blocks *)

Record Tx := mkTx {
  tx_id : TxId;
  tx_body : list Z;
  tx_witnesses : option (list Z);
  tx_auxiliary_data : option (list Z);
  tx_is_valid : option bool }.

Record BlockHeader := mkHeader {
  bh_hash : HeaderHash;
  bh_prev_hash : HeaderHash;
  bh_slot_no : SlotNo;
  bh_block_no : BlockNo;
  bh_issuer_vkey : list Z;
  bh_protocol_version : option (Z * Z) }.

Record Block := mkBlock {
  blk_era : Era;
  blk_header : BlockHeader;
  blk_transactions : list Tx;
  blk_raw_cbor : option (list Z);
  blk_header_cbor_size : option Z }.

Definition blk_hash (b : Block) : HeaderHash := bh_hash (blk_header b).
Definition blk_slot (b : Block) : SlotNo := bh_slot_no (blk_header b).

Definition point_for_block (b : Block) : Point := BlockPoint (blk_slot b) (blk_hash b).

Inductive StorageError :=
  | DuplicateBlock (h : HeaderHash)
  | PointNotFound
  | Io (msg : string)
  | Serialization (msg : string)
  | Recovery (msg : string).

(** [blocks.last().map_or(Origin, ..)] *)
Definition tip_of (l : list Block) : Point :=
  match last l with Some b => point_for_block b | None => Origin end.

Definition is_hash (h : HeaderHash) (b : Block) : bool := bool_decide (blk_hash b = h).

(** ** The traits *)

Class VolatileStore (V : Type) := {
  vol_add_block : V -> Block -> V * outcome StorageError unit;
  vol_get_block : V -> HeaderHash -> option Block;
  prefix_up_to : V -> Point -> outcome StorageError (list Block);
  prune_up_to : V -> Point -> V * outcome StorageError unit;
  vol_rollback_to : V -> Point -> V;
  vol_tip : V -> Point;
  vol_suffix_after : V -> Point -> list Block;
  garbage_collect : V -> SlotNo -> Z * V;
  block_count : V -> Z }.

Class ImmutableStore (I : Type) := {
  append_block : I -> Block -> I * outcome StorageError unit;
  get_tip : I -> Point;
  imm_get_block : I -> HeaderHash -> option Block;
  contains_block : I -> HeaderHash -> bool;
  imm_suffix_after : I -> Point -> outcome StorageError (list Block);
  imm_len : I -> Z;
  get_block_by_slot : I -> SlotNo -> option Block;
  trim_before_slot : I -> SlotNo -> I * outcome StorageError Z;
  trim_after_slot : I -> SlotNo -> I * outcome StorageError Z }.

Class LedgerStore (L : Type) := {
  save_snapshot : L -> SlotNo -> list Z -> L * outcome StorageError unit;
  latest_snapshot : L -> option (SlotNo * list Z);
  latest_snapshot_before_or_at : L -> SlotNo -> option (SlotNo * list Z);
  truncate_after : L -> option SlotNo -> L * outcome StorageError unit;
  retain_latest : L -> Z -> L * outcome StorageError unit;
  snapshot_count : L -> Z }.

(** ** The in-memory stores *)

Record InMemoryVolatile := mkVolatile { vol_vec : list Block }.
Record InMemoryImmutable := mkImmutable { imm_vec : list Block }.
Record InMemoryLedgerStore := mkLedgerStore { snapshots : list (SlotNo * list Z) }.

Module MemVolatile.

Definition vm_add_block (v : InMemoryVolatile) (block : Block)
    : InMemoryVolatile * outcome StorageError unit :=
  if existsb (is_hash (blk_hash block)) (vol_vec v)
  then (v, Err (DuplicateBlock (blk_hash block)))
  else (mkVolatile (vol_vec v ++ [block]), Ok tt).

Definition vm_get_block (v : InMemoryVolatile) (hash : HeaderHash) : option Block :=
  List.find (is_hash hash) (vol_vec v).

Definition vm_prefix_up_to (v : InMemoryVolatile) (point : Point) : outcome StorageError (list Block) :=
  match point with
  | Origin => Ok []
  | BlockPoint _ hash =>
      let? pos := ok_or (position (is_hash hash) (vol_vec v)) PointNotFound in
      Ok (take (S pos) (vol_vec v))
  end.

Definition vm_prune_up_to (v : InMemoryVolatile) (point : Point)
    : InMemoryVolatile * outcome StorageError unit :=
  match point with
  | Origin => (v, Ok tt)
  | BlockPoint _ hash =>
      match position (is_hash hash) (vol_vec v) with
      | Some pos => (mkVolatile (drop (pos + 1) (vol_vec v)), Ok tt)
      | None => (v, Err PointNotFound)
      end
  end.

Definition vm_rollback_to (v : InMemoryVolatile) (point : Point) : InMemoryVolatile :=
  match point with
  | Origin => mkVolatile []
  | BlockPoint _ hash =>
      match position (is_hash hash) (vol_vec v) with
      | Some pos => mkVolatile (take (pos + 1) (vol_vec v))
      | None => v
      end
  end.

Definition vm_suffix_after (v : InMemoryVolatile) (point : Point) : list Block :=
  match point with
  | Origin => vol_vec v
  | BlockPoint _ hash =>
      match position (is_hash hash) (vol_vec v) with
      | Some pos =>
          if (pos + 1 <? length (vol_vec v))%nat then drop (pos + 1) (vol_vec v) else []
      | None => []
      end
  end.

(** [retain] and the number of blocks it removed *)
Definition vm_garbage_collect (v : InMemoryVolatile) (slot : SlotNo) : Z * InMemoryVolatile :=
  let kept := List.filter (fun b => slot <=? blk_slot b) (vol_vec v) in
  (zlength (vol_vec v) - zlength kept, mkVolatile kept).

End MemVolatile.

#[export] Instance InMemoryVolatile_store : VolatileStore InMemoryVolatile := {
  vol_add_block := MemVolatile.vm_add_block;
  vol_get_block := MemVolatile.vm_get_block;
  prefix_up_to := MemVolatile.vm_prefix_up_to;
  prune_up_to := MemVolatile.vm_prune_up_to;
  vol_rollback_to := MemVolatile.vm_rollback_to;
  vol_tip v := tip_of (vol_vec v);
  vol_suffix_after := MemVolatile.vm_suffix_after;
  garbage_collect := MemVolatile.vm_garbage_collect;
  block_count v := zlength (vol_vec v) }.

Module MemImmutable.

(** The index of the first block after a point. *)
Definition resolve_suffix_start (i : InMemoryImmutable) (point : Point)
    : outcome StorageError nat :=
  match point with
  | Origin => Ok O
  | BlockPoint slot hash =>
      match imm_vec i with
      | [] => Ok O
      | first :: _ =>
          if slot <? blk_slot first then Ok O
          else
            match position (is_hash hash) (imm_vec i) with
            | Some pos => Ok (S pos)
            | None =>
                if blk_slot (List.last (imm_vec i) first) <? slot
                then Ok (length (imm_vec i)) else Err PointNotFound
            end
      end
  end.

Definition mi_append_block (i : InMemoryImmutable) (block : Block)
    : InMemoryImmutable * outcome StorageError unit :=
  if existsb (is_hash (blk_hash block)) (imm_vec i)
  then (i, Err (DuplicateBlock (blk_hash block)))
  else (mkImmutable (imm_vec i ++ [block]), Ok tt).

Definition mi_get_block (i : InMemoryImmutable) (hash : HeaderHash) : option Block :=
  List.find (is_hash hash) (imm_vec i).

Definition mi_contains_block (i : InMemoryImmutable) (hash : HeaderHash) : bool :=
  existsb (is_hash hash) (imm_vec i).

Definition mi_suffix_after (i : InMemoryImmutable) (point : Point) : outcome StorageError (list Block) :=
  let? start := resolve_suffix_start i point in Ok (drop start (imm_vec i)).

Definition mi_get_block_by_slot (i : InMemoryImmutable) (slot : SlotNo) : option Block :=
  List.find (fun b => blk_slot b =? slot) (imm_vec i).

Definition mi_trim_before_slot (i : InMemoryImmutable) (slot : SlotNo)
    : InMemoryImmutable * outcome StorageError Z :=
  let kept := List.filter (fun b => slot <=? blk_slot b) (imm_vec i) in
  (mkImmutable kept, Ok (zlength (imm_vec i) - zlength kept)).

Definition mi_trim_after_slot (i : InMemoryImmutable) (slot : SlotNo)
    : InMemoryImmutable * outcome StorageError Z :=
  let kept := List.filter (fun b => blk_slot b <=? slot) (imm_vec i) in
  (mkImmutable kept, Ok (zlength (imm_vec i) - zlength kept)).

End MemImmutable.

#[export] Instance InMemoryImmutable_store : ImmutableStore InMemoryImmutable := {
  append_block := MemImmutable.mi_append_block;
  get_tip i := tip_of (imm_vec i);
  imm_get_block := MemImmutable.mi_get_block;
  contains_block := MemImmutable.mi_contains_block;
  imm_suffix_after := MemImmutable.mi_suffix_after;
  imm_len i := zlength (imm_vec i);
  get_block_by_slot := MemImmutable.mi_get_block_by_slot;
  trim_before_slot := MemImmutable.mi_trim_before_slot;
  trim_after_slot := MemImmutable.mi_trim_after_slot }.

Module MemLedger.

(** [iter_mut().find(..)] and assignment through the reference: the first
    snapshot of the slot is replaced in place. *)
Fixpoint replace_at (slot : SlotNo) (data : list Z) (l : list (SlotNo * list Z))
    : option (list (SlotNo * list Z)) :=
  match l with
  | [] => None
  | (s, d) :: l =>
      if s =? slot then Some ((s, data) :: l) else cons (s, d) <$> replace_at slot data l
  end.

Definition ml_save_snapshot (st : InMemoryLedgerStore) (slot : SlotNo) (data : list Z)
    : InMemoryLedgerStore * outcome StorageError unit :=
  match replace_at slot data (snapshots st) with
  | Some l => (mkLedgerStore l, Ok tt)
  | None => (mkLedgerStore (sort_desc (fun p => - p.1) (snapshots st ++ [(slot, data)])), Ok tt)
  end.

Definition ml_latest_snapshot_before_or_at (st : InMemoryLedgerStore) (slot : SlotNo) : option (SlotNo * list Z) :=
  List.find (fun p => p.1 <=? slot) (rev (snapshots st)).

Definition ml_truncate_after (st : InMemoryLedgerStore) (slot : option SlotNo)
    : InMemoryLedgerStore * outcome StorageError unit :=
  match slot with
  | Some slot => (mkLedgerStore (List.filter (fun p => p.1 <=? slot) (snapshots st)), Ok tt)
  | None => (mkLedgerStore [], Ok tt)
  end.

Definition ml_retain_latest (st : InMemoryLedgerStore) (max_snapshots : Z)
    : InMemoryLedgerStore * outcome StorageError unit :=
  if max_snapshots =? 0 then (mkLedgerStore [], Ok tt)
  else if max_snapshots <? zlength (snapshots st) then
    (mkLedgerStore (drop (Z.to_nat (zlength (snapshots st) - max_snapshots)) (snapshots st)), Ok tt)
  else (st, Ok tt).

End MemLedger.

#[export] Instance InMemoryLedgerStore_store : LedgerStore InMemoryLedgerStore := {
  save_snapshot := MemLedger.ml_save_snapshot;
  latest_snapshot st := last (snapshots st);
  latest_snapshot_before_or_at := MemLedger.ml_latest_snapshot_before_or_at;
  truncate_after := MemLedger.ml_truncate_after;
  retain_latest := MemLedger.ml_retain_latest;
  snapshot_count st := zlength (snapshots st) }.

(** ** Versioned snapshots *)

Definition SNAPSHOT_MAGIC : list Z := [89; 103; 76; 83].
Definition SNAPSHOT_V1 : Z := 1.

Definition has_header (version : Z) : bool := SNAPSHOT_V1 <? version.

Definition detect_version (data : list Z) : Z :=
  if (8 <=? zlength data) && bool_decide (take 4 data = SNAPSHOT_MAGIC)
  then from_be (take 4 (drop 4 data)) else SNAPSHOT_V1.

(** ** What a coordinator relies on *)

(** The blocks a store holds, oldest first, and how the operations act on
    them. A hash occurs at most once. *)
Definition hashes (l : list Block) : list HeaderHash := map blk_hash l.

Class VolatileLaws (V : Type) `{VolatileStore V} := {
  vol_blocks : V -> list Block;
  law_vol_tip v : vol_tip v = tip_of (vol_blocks v);
  law_vol_get v h : is_Some (vol_get_block v h) <-> h ∈ hashes (vol_blocks v);
  law_vol_add v b : blk_hash b ∉ hashes (vol_blocks v) ->
    exists v', vol_add_block v b = (v', Ok tt) /\ vol_blocks v' = vol_blocks v ++ [b];
  law_vol_add_dup v b : blk_hash b ∈ hashes (vol_blocks v) ->
    vol_add_block v b = (v, Err (DuplicateBlock (blk_hash b)));
  law_prefix v slot l1 b l2 : vol_blocks v = l1 ++ b :: l2 -> blk_hash b ∉ hashes l1 ->
    prefix_up_to v (BlockPoint slot (blk_hash b)) = Ok (l1 ++ [b]);
  law_prefix_missing v slot h : h ∉ hashes (vol_blocks v) ->
    prefix_up_to v (BlockPoint slot h) = Err PointNotFound;
  law_prefix_origin v : prefix_up_to v Origin = Ok [];
  law_prune v slot l1 b l2 : vol_blocks v = l1 ++ b :: l2 -> blk_hash b ∉ hashes l1 ->
    exists v', prune_up_to v (BlockPoint slot (blk_hash b)) = (v', Ok tt) /\ vol_blocks v' = l2;
  law_prune_origin v : prune_up_to v Origin = (v, Ok tt);
  law_vol_rollback v slot l1 b l2 : vol_blocks v = l1 ++ b :: l2 -> blk_hash b ∉ hashes l1 ->
    vol_blocks (vol_rollback_to v (BlockPoint slot (blk_hash b))) = l1 ++ [b];
  law_vol_rollback_origin v : vol_blocks (vol_rollback_to v Origin) = [];
  law_vol_rollback_missing v slot h : h ∉ hashes (vol_blocks v) ->
    vol_blocks (vol_rollback_to v (BlockPoint slot h)) = vol_blocks v }.

Class ImmutableLaws (I : Type) `{ImmutableStore I} := {
  imm_blocks : I -> list Block;
  law_get_tip i : get_tip i = tip_of (imm_blocks i);
  law_contains i h : contains_block i h = bool_decide (h ∈ hashes (imm_blocks i));
  law_imm_get i h : is_Some (imm_get_block i h) <-> h ∈ hashes (imm_blocks i);
  law_append i b : blk_hash b ∉ hashes (imm_blocks i) ->
    exists i', append_block i b = (i', Ok tt) /\ imm_blocks i' = imm_blocks i ++ [b];
  law_suffix_origin i : imm_suffix_after i Origin = Ok (imm_blocks i);
  law_suffix_at i l1 b l2 : imm_blocks i = l1 ++ b :: l2 -> blk_hash b ∉ hashes l1 ->
    Forall (fun x => blk_slot x <= blk_slot b) l1 ->
    imm_suffix_after i (point_for_block b) = Ok l2;
  law_suffix_beyond i b : blk_hash b ∉ hashes (imm_blocks i) ->
    Forall (fun x => blk_slot x < blk_slot b) (imm_blocks i) ->
    imm_suffix_after i (point_for_block b) = Ok [] }.

Class LedgerLaws (L : Type) `{LedgerStore L} := {
  snaps : L -> list (SlotNo * list Z);
  law_latest l : latest_snapshot l = last (snaps l);
  law_latest_before l slot :
    latest_snapshot_before_or_at l slot = last (List.filter (fun p => p.1 <=? slot) (snaps l));
  law_truncate l slot : exists l', truncate_after l slot = (l', Ok tt)
    /\ snaps l' = match slot with
                  | Some slot => List.filter (fun p => p.1 <=? slot) (snaps l)
                  | None => []
                  end;
  law_count l : snapshot_count l = zlength (snaps l) }.

(** ** The in-memory stores keep the contract *)

Lemma existsb_hash h l : existsb (is_hash h) l = bool_decide (h ∈ hashes l).
Proof.
  induction l as [|b l IH]; cbn [existsb hashes map]; [by rewrite bool_decide_eq_false_2 by set_solver|].
  rewrite IH. unfold is_hash. repeat case_bool_decide; simpl; try done; unfold hashes in *; set_solver.
Qed.

Lemma find_hash h l : is_Some (List.find (is_hash h) l) <-> h ∈ hashes l.
Proof.
  induction l as [|b l IH]; simpl; [split; [intros [? [=]]|set_solver]|].
  unfold is_hash at 1. case_bool_decide as Hb; subst.
  - split; [intros _; constructor|eauto].
  - rewrite IH. unfold hashes. simpl. set_solver.
Qed.

Lemma is_hash_absent h l : h ∉ hashes l -> Forall (fun b => is_hash h b = false) l.
Proof.
  intros Hni. apply Forall_forall. intros b Hb. apply bool_decide_eq_false_2. intros <-.
  by apply Hni, list_elem_of_fmap_2.
Qed.

Lemma position_hash h l1 b l2 :
  blk_hash b = h -> h ∉ hashes l1 -> position (is_hash h) (l1 ++ b :: l2) = Some (length l1).
Proof.
  intros Hb Hni. apply position_middle; [by apply bool_decide_eq_true_2|by apply is_hash_absent].
Qed.

Lemma position_hash_missing h l : h ∉ hashes l -> position (is_hash h) l = None.
Proof. intros Hni. by apply position_missing, is_hash_absent. Qed.

Lemma take_S_middle {A} (l1 : list A) b l2 : take (S (length l1)) (l1 ++ b :: l2) = l1 ++ [b].
Proof.
  rewrite cons_middle, (assoc_L (++)). apply take_app_length'. rewrite length_app. simpl. lia.
Qed.

Lemma drop_S_middle {A} (l1 : list A) b l2 : drop (S (length l1)) (l1 ++ b :: l2) = l2.
Proof.
  rewrite cons_middle, (assoc_L (++)). apply drop_app_length'. rewrite length_app. simpl. lia.
Qed.

#[export] Program Instance InMemoryVolatile_laws : VolatileLaws InMemoryVolatile := {
  vol_blocks := vol_vec }.
Next Obligation. done. Qed.
Next Obligation. intros v h. apply find_hash. Qed.
Next Obligation.
  intros v b Hni. simpl. unfold MemVolatile.vm_add_block. rewrite existsb_hash, bool_decide_eq_false_2 by done.
  by eexists.
Qed.
Next Obligation.
  intros v b Hin. simpl. unfold MemVolatile.vm_add_block. by rewrite existsb_hash, bool_decide_eq_true_2.
Qed.
Next Obligation.
  intros v slot l1 b l2 Hv Hni. simpl. rewrite Hv, (position_hash _ l1 b l2) by done. simpl.
  f_equal. apply take_S_middle.
Qed.
Next Obligation. intros v slot h Hni. simpl. by rewrite position_hash_missing. Qed.
Next Obligation. done. Qed.
Next Obligation.
  intros v slot l1 b l2 Hv Hni. simpl. rewrite Hv, (position_hash _ l1 b l2) by done.
  eexists. split; [done|]. simpl. rewrite Nat.add_1_r. apply drop_S_middle.
Qed.
Next Obligation. done. Qed.
Next Obligation.
  intros v slot l1 b l2 Hv Hni. simpl. rewrite Hv, (position_hash _ l1 b l2) by done. simpl.
  rewrite Nat.add_1_r. apply take_S_middle.
Qed.
Next Obligation. done. Qed.
Next Obligation. intros v slot h Hni. simpl. by rewrite position_hash_missing. Qed.

Lemma last_default {A} (l : list A) d : l <> [] -> last l = Some (List.last l d).
Proof.
  induction l as [|x [|y l] IH]; [done|done|]. intros _.
  change (last (x :: y :: l)) with (last (y :: l)). rewrite IH by done. done.
Qed.

#[export] Program Instance InMemoryImmutable_laws : ImmutableLaws InMemoryImmutable := {
  imm_blocks := imm_vec }.
Next Obligation. done. Qed.
Next Obligation. intros i h. apply existsb_hash. Qed.
Next Obligation. intros i h. apply find_hash. Qed.
Next Obligation.
  intros i b Hni. simpl. unfold MemImmutable.mi_append_block. rewrite existsb_hash, bool_decide_eq_false_2 by done.
  by eexists.
Qed.
Next Obligation. intros i. simpl. unfold MemImmutable.mi_suffix_after. simpl. by rewrite drop_0. Qed.
Next Obligation.
  intros i l1 b l2 Hi Hni Hle. simpl. unfold MemImmutable.mi_suffix_after. simpl. rewrite Hi.
  destruct (l1 ++ b :: l2) as [|first rest] eqn:E; [by destruct l1|].
  assert (blk_slot first <= blk_slot b) as Hf.
  { destruct l1; simplify_eq/=; [lia|]. by apply Forall_cons in Hle as [? _]. }
  rewrite (proj2 (Z.ltb_ge _ _)) by done. rewrite <- E, (position_hash _ l1 b l2) by done. simpl.
  f_equal. apply drop_S_middle.
Qed.
Next Obligation.
  intros i b Hni Hlt. simpl. unfold MemImmutable.mi_suffix_after. simpl.
  destruct (imm_vec i) as [|first rest] eqn:E; [done|]. rewrite <- E in *.
  assert (first ∈ imm_vec i) as Hfirst by (rewrite E; constructor).
  assert (List.last (imm_vec i) first ∈ imm_vec i) as Hlast.
  { apply list_elem_of_lookup. exists (pred (length (imm_vec i))). rewrite <- last_lookup.
    apply last_default. by rewrite E. }
  rewrite Forall_forall in Hlt. pose proof (Hlt _ Hfirst). pose proof (Hlt _ Hlast).
  rewrite (proj2 (Z.ltb_ge _ _)) by lia. rewrite position_hash_missing by done.
  rewrite (proj2 (Z.ltb_lt _ _)) by lia. simpl. by rewrite drop_ge.
Qed.

Lemma find_rev_filter {A} (f : A -> bool) l : List.find f (rev l) = last (List.filter f l).
Proof.
  induction l as [|x l IH] using rev_ind; [done|].
  rewrite rev_app_distr, List.filter_app. simpl. destruct (f x); simpl.
  - by rewrite last_snoc.
  - by rewrite app_nil_r.
Qed.

#[export] Program Instance InMemoryLedgerStore_laws : LedgerLaws InMemoryLedgerStore := {
  snaps := snapshots }.
Next Obligation. done. Qed.
Next Obligation. intros l slot. apply find_rev_filter. Qed.
Next Obligation. intros l [slot|]; eexists; split; done. Qed.
Next Obligation. done. Qed.

(** ** The in-memory snapshot store *)

(** One snapshot per slot, oldest first. *)
Definition snapshots_sorted (l : list (SlotNo * list Z)) : Prop :=
  StronglySorted (fun a b => a.1 < b.1) l.

Lemma replace_at_Some slot data l l' :
  MemLedger.replace_at slot data l = Some l' ->
  exists l1 d l2, l = l1 ++ (slot, d) :: l2 /\ l' = l1 ++ (slot, data) :: l2.
Proof.
  revert l'. induction l as [|[s d] l IH]; intros l'; simpl; [done|].
  destruct (s =? slot) eqn:E; zbool.
  - intros [= <-]. subst. by exists [], d, l.
  - intros (k & Hk & ->)%fmap_Some. destruct (IH k Hk) as (l1 & d' & l2 & -> & ->).
    by exists ((s, d) :: l1), d', l2.
Qed.

Lemma replace_at_None slot data l :
  MemLedger.replace_at slot data l = None -> slot ∉ map fst l.
Proof.
  induction l as [|[s d] l IH]; simpl; [set_solver|].
  destruct (s =? slot) eqn:E; zbool; [done|]. intros H%fmap_None. set_solver.
Qed.

Lemma sorted_same_keys {A B} (l : list (Z * A)) (l' : list (Z * B)) :
  map fst l = map fst l' -> StronglySorted (fun a b => a.1 < b.1) l ->
  StronglySorted (fun a b => a.1 < b.1) l'.
Proof.
  revert l'. induction l as [|x l IH]; intros [|y l'] Heq Hs; simpl in *; [constructor|done|done|].
  injection Heq as Hx Heq. apply StronglySorted_inv in Hs as [Hs Hall]. constructor; [auto|].
  apply Forall_forall. intros z Hz. rewrite <- Hx.
  assert (z.1 ∈ map fst l) as (w & -> & Hw)%list_elem_of_fmap
    by (rewrite Heq; by apply list_elem_of_fmap_2).
  rewrite Forall_forall in Hall. auto.
Qed.

Lemma sorted_keys_nodup (l : list (SlotNo * list Z)) : snapshots_sorted l -> NoDup (map fst l).
Proof.
  induction 1 as [|x l Hl IH Hx]; simpl; [constructor|]. apply NoDup_cons. split; [|done].
  intros (y & Hy & Hin)%list_elem_of_fmap. rewrite Forall_forall in Hx. specialize (Hx y Hin).
  simpl in Hx. unfold SlotNo in *. lia.
Qed.

Lemma save_spec st slot data :
  snapshots_sorted (snapshots st) ->
  exists st', save_snapshot st slot data = (st', Ok tt) /\ snapshots_sorted (snapshots st')
    /\ forall s d, (s, d) ∈ snapshots st' <->
         (s = slot /\ d = data) \/ (s <> slot /\ (s, d) ∈ snapshots st).
Proof.
  intros Hs. simpl. unfold MemLedger.ml_save_snapshot.
  destruct (MemLedger.replace_at slot data (snapshots st)) as [l'|] eqn:E; eexists; (split; [done|]).
  - apply replace_at_Some in E as (l1 & d & l2 & Hl & ->). simpl. rewrite Hl in *. split.
    + apply (sorted_same_keys (l1 ++ (slot, d) :: l2)); [|done]. by rewrite !map_app.
    + pose proof (sorted_keys_nodup _ Hs) as Hn. rewrite map_app in Hn. simpl in Hn.
      apply NoDup_app in Hn as (_ & Hn1 & [Hn2 _]%NoDup_cons).
      assert (forall s d, (s, d) ∈ l1 \/ (s, d) ∈ l2 -> s <> slot) as Hne.
      { intros s d' [Hin|Hin] ->; apply (list_elem_of_fmap_2 fst) in Hin; simpl in Hin;
          [apply (Hn1 slot); [done|constructor]|done]. }
      intros s d'. rewrite !elem_of_app, !elem_of_cons. specialize (Hne s d'). naive_solver.
  - apply replace_at_None in E. simpl. split.
    + apply strictly_sorted_keys with (key := fst).
      * eapply StronglySorted_mono; [|apply sort_desc_sorted]. simpl. lia.
      * rewrite sort_desc_perm, map_app. apply NoDup_app. split_and!; [by apply sorted_keys_nodup| |].
        -- set_solver.
        -- apply NoDup_singleton.
    + intros s d. rewrite sort_desc_perm, elem_of_app, list_elem_of_singleton.
      assert ((s, d) ∈ snapshots st -> s <> slot).
      { intros Hin ->. apply E. by apply (list_elem_of_fmap_2 fst) in Hin. }
      naive_solver.
Qed.

Lemma sorted_last l s d :
  snapshots_sorted l -> (s, d) ∈ l -> (forall p, p ∈ l -> p.1 <= s) -> last l = Some (s, d).
Proof.
  intros Hs (l1 & l2 & ->)%list_elem_of_split Hmax. destruct l2 as [|x l2]; [by rewrite last_snoc|].
  apply StronglySorted_app_1_r, StronglySorted_inv in Hs as [_ [Hlt _]%Forall_cons].
  specialize (Hmax x ltac:(set_solver)). simpl in *. lia.
Qed.

Lemma sorted_filter (f : SlotNo * list Z -> bool) l :
  snapshots_sorted l -> snapshots_sorted (List.filter f l).
Proof.
  induction 1 as [|x l Hl IH Hx]; simpl; [constructor|]. destruct (f x); [|done].
  constructor; [done|]. apply Forall_forall. intros y Hy.
  apply list_elem_of_In, List.filter_In in Hy as [Hy _]. rewrite Forall_forall in Hx.
  apply Hx. by apply list_elem_of_In.
Qed.

Lemma retain_spec st max :
  0 <= max ->
  exists st', retain_latest st max = (st', Ok tt)
    /\ snapshot_count st' = Z.min max (snapshot_count st)
    /\ exists old, snapshots st = old ++ snapshots st'.
Proof.
  intros Hmax. simpl. unfold MemLedger.ml_retain_latest. pose proof (zlength_nonneg (snapshots st)).
  destruct (max =? 0) eqn:E0; [|destruct (max <? _) eqn:E1]; zbool; eexists; (split; [done|]); simpl.
  - subst. rewrite zlength_nil. split; [lia|]. exists (snapshots st). by rewrite app_nil_r.
  - split.
    + unfold zlength in *. rewrite length_drop. lia.
    + eexists. by rewrite take_drop.
  - split; [lia|]. by exists [].
Qed.

(** The snapshot store is a sorted map from slots to payloads. Saving
    keeps one snapshot per slot in slot order, replaces the payload of a slot
    that has one and leaves the other slots alone; the snapshot just saved is
    the latest at or before its slot; retaining [max] keeps exactly the newest
    [max] snapshots. *)
Theorem snapshot_store_spec (st : InMemoryLedgerStore) (slot : SlotNo) (data : list Z) (max : Z)
    (Hsorted : snapshots_sorted (snapshots st)) (Hmax : 0 <= max) :
  exists st' st'', save_snapshot st slot data = (st', Ok tt) /\ retain_latest st' max = (st'', Ok tt)
    /\ snapshots_sorted (snapshots st')
    /\ (forall s d, (s, d) ∈ snapshots st' <->
          (s = slot /\ d = data) \/ (s <> slot /\ (s, d) ∈ snapshots st))
    /\ latest_snapshot_before_or_at st' slot = Some (slot, data)
    /\ snapshots_sorted (snapshots st'')
    /\ snapshot_count st'' = Z.min max (snapshot_count st')
    /\ exists old, snapshots st' = old ++ snapshots st''
         /\ forall p q, p ∈ old -> q ∈ snapshots st'' -> p.1 < q.1.
Proof.
  destruct (save_spec st slot data Hsorted) as (st' & Hsave & Hs' & Hmap).
  destruct (retain_spec st' max Hmax) as (st'' & Hretain & Hcount & old & Hold).
  exists st', st''. pose proof Hs' as Hs. rewrite Hold in Hs.
  split_and!; [done|done|done|done| |by eapply StronglySorted_app_1_r|done|].
  - rewrite law_latest_before. apply sorted_last; [by apply sorted_filter| |].
    + apply list_elem_of_In, List.filter_In. split; [|simpl; apply Z.leb_refl].
      apply list_elem_of_In, Hmap. by left.
    + intros p Hp. apply list_elem_of_In, List.filter_In in Hp as [_ Hp]. by zbool.
  - exists old. split; [done|]. intros p q Hp Hq. 
    apply (StronglySorted_app_1_elem_of (fun a b => a.1 < b.1) old (snapshots st'')); done.
Qed.

Lemma snapshot_store_spec_witness :
  exists st'', retain_latest (mkLedgerStore [(5, [5]); (8, [80]); (9, [9])]) 2 = (st'', Ok tt)
    /\ save_snapshot (mkLedgerStore [(5, [5]); (8, [8]); (9, [9])]) 8 [80]
       = (mkLedgerStore [(5, [5]); (8, [80]); (9, [9])], Ok tt)
    /\ snapshot_count st'' = 2.
Proof.
  destruct (snapshot_store_spec (mkLedgerStore [(5, [5]); (8, [8]); (9, [9])]) 8 [80] 2)
    as (st' & st'' & Hsave & Hretain & _ & _ & _ & _ & Hcount & _).
  - repeat constructor.
  - done.
  - assert (st' = mkLedgerStore [(5, [5]); (8, [80]); (9, [9])]) as ->
      by (symmetry; exact (f_equal fst Hsave)).
    exists st''. split; [exact Hretain|]. split; [reflexivity|]. rewrite Hcount. reflexivity.
Defined.
