(* ===== verification/ChainDb.v ===== *)
(** * The chain database

    Model of [crates/storage/src/chain_db.rs]: the coordinator of the
    immutable, volatile and ledger-snapshot stores.

    The coordinator is generic over the three stores, as in the source; its
    theorems are proved against the laws of [Storage.v]. The ledger rules
    ([LedgerState::apply_block]) and the checkpoint codec are variables of the
    section: recovery is correct whatever they are. *)

From S2P Require Import Prelude Cbor Types Storage.
Local Open Scope Z_scope.

(** ** Data *)

Record ChainDb (I V L : Type) := mkChainDb { immutable : I; volatile : V; ledger : L }.
Arguments mkChainDb {I V L}.
Arguments immutable {I V L}.
Arguments volatile {I V L}.
Arguments ledger {I V L}.

Record ChainDbRecovery := mkRecovery { rec_tip : Point; ledger_snapshot_slot : option SlotNo }.
Record LedgerCheckpointRetention := mkRetention { retained_snapshots : Z; pruned_snapshots : Z }.
Record LedgerRecoveryOutcome (LS : Type) := mkRecovered {
  ledger_state : LS;
  rec_point : Point;
  checkpoint_slot : option SlotNo;
  replayed_volatile_blocks : Z }.
Arguments mkRecovered {LS}.
Arguments ledger_state {LS}.
Arguments rec_point {LS}.
Arguments checkpoint_slot {LS}.
Arguments replayed_volatile_blocks {LS}.

Section chain_db.
Context {I V L : Type} `{VS : VolatileStore V} `{IS : ImmutableStore I} `{LSt : LedgerStore L}.

(** The ledger crate: the state, its block transition, its checkpoints. *)
Variable LS : Type.
Variable ls_apply_block : LS -> Block -> outcome LedgerError LS.
Variable ls_tip : LS -> Point.
(** [LedgerStateCheckpoint::from_cbor_bytes(..).restore()] followed by
    [rehydrate_runtime_genesis_from(&base_state)]. *)
Variable checkpoint_restore : LS -> list Z -> outcome LedgerError LS.
(** [Display] and [Debug] of errors and points, as they appear in messages. *)
Variable error_to_string : LedgerError -> string.
Variable point_debug : Point -> string.

Abbreviation DB := (ChainDb I V L).

(** ** Queries *)

Definition db_tip (db : DB) : Point :=
  let volatile_tip := vol_tip (volatile db) in
  if bool_decide (volatile_tip = Origin) then get_tip (immutable db) else volatile_tip.

Definition recovery (db : DB) : ChainDbRecovery :=
  let tip := db_tip db in
  mkRecovery tip
    (match tip with
     | Origin => fst <$> latest_snapshot (ledger db)
     | BlockPoint slot _ => fst <$> latest_snapshot_before_or_at (ledger db) slot
     end).

(** ** Updates *)

Definition add_volatile_block (db : DB) (block : Block) : DB * outcome StorageError unit :=
  let '(v, r) := vol_add_block (volatile db) block in
  (mkChainDb (immutable db) v (ledger db), r).

Definition with_ledger (db : DB) (r : L * outcome StorageError unit)
    : DB * outcome StorageError unit :=
  (mkChainDb (immutable db) (volatile db) r.1, r.2).

Definition save_ledger_snapshot (db : DB) (slot : SlotNo) (data : list Z) :=
  with_ledger db (save_snapshot (ledger db) slot data).
Definition retain_latest_ledger_checkpoints (db : DB) (max_snapshots : Z) :=
  with_ledger db (retain_latest (ledger db) max_snapshots).
Definition clear_ledger_checkpoints (db : DB) := with_ledger db (truncate_after (ledger db) None).

Definition truncate_ledger_checkpoints_after_point (db : DB) (point : Point) :=
  match point with
  | Origin => with_ledger db (truncate_after (ledger db) None)
  | BlockPoint slot _ => with_ledger db (truncate_after (ledger db) (Some slot))
  end.

(** [self.op()?; k]: the store keeps what the failing call left. *)
Definition and_then {A B} (r : DB * outcome StorageError A) (k : DB -> A -> DB * outcome StorageError B)
    : DB * outcome StorageError B :=
  match r with
  | (db, Ok a) => k db a
  | (db, Err e) => (db, Err e)
  | (db, Panic) => (db, Panic)
  | (db, OutOfFuel) => (db, OutOfFuel)
  end.

(** The checkpoint arrives encoded: [checkpoint.to_cbor_bytes()]. *)
Definition persist_ledger_checkpoint (db : DB) (point : Point) (checkpoint : list Z)
    (max_snapshots : Z) : DB * outcome StorageError LedgerCheckpointRetention :=
  match point with
  | Origin => and_then (clear_ledger_checkpoints db) (fun db _ => (db, Ok (mkRetention 0 0)))
  | BlockPoint slot _ =>
      and_then (save_ledger_snapshot db slot checkpoint) (fun db _ =>
        let after_save := snapshot_count (ledger db) in
        and_then (retain_latest_ledger_checkpoints db max_snapshots) (fun db _ =>
          let after_retain := snapshot_count (ledger db) in
          (db, Ok (mkRetention after_retain (sat_sub after_save after_retain)))))
  end.

Definition db_rollback_to (db : DB) (point : Point) : DB * outcome StorageError unit :=
  let volatile_rolled :=
    match point with
    | Origin => Some (vol_rollback_to (volatile db) point)
    | BlockPoint _ hash =>
        if is_Some_dec (vol_get_block (volatile db) hash)
        then Some (vol_rollback_to (volatile db) point)
        else if is_Some_dec (imm_get_block (immutable db) hash)
        then Some (vol_rollback_to (volatile db) Origin)
        else None
    end in
  match volatile_rolled with
  | None => (db, Err PointNotFound)
  | Some v => truncate_ledger_checkpoints_after_point (mkChainDb (immutable db) v (ledger db)) point
  end.

(** The [for block in &blocks] loop of the promotion. *)
Fixpoint promote_loop (i : I) (blocks : list Block) : I * outcome StorageError unit :=
  match blocks with
  | [] => (i, Ok tt)
  | block :: blocks =>
      if contains_block i (blk_hash block) then promote_loop i blocks
      else
        match append_block i block with
        | (i, Ok _) => promote_loop i blocks
        | (i, r) => (i, r)
        end
  end.

Definition promote_volatile_prefix (db : DB) (point : Point) : DB * outcome StorageError Z :=
  match prefix_up_to (volatile db) point with
  | Ok blocks =>
      let '(i, r) := promote_loop (immutable db) blocks in
      and_then (mkChainDb i (volatile db) (ledger db), r) (fun db _ =>
        let '(v, r) := prune_up_to (volatile db) point in
        and_then (mkChainDb (immutable db) v (ledger db), r) (fun db _ => (db, Ok (zlength blocks))))
  | Err e => (db, Err e)
  | Panic => (db, Panic)
  | OutOfFuel => (db, OutOfFuel)
  end.

Definition gc_immutable_before_slot (db : DB) (slot : SlotNo) : DB * outcome StorageError Z :=
  let '(i, r) := trim_before_slot (immutable db) slot in (mkChainDb i (volatile db) (ledger db), r).
Definition truncate_immutable_after_slot (db : DB) (slot : SlotNo) : DB * outcome StorageError Z :=
  let '(i, r) := trim_after_slot (immutable db) slot in (mkChainDb i (volatile db) (ledger db), r).
Definition gc_volatile_before_slot (db : DB) (slot : SlotNo) : Z * DB :=
  let '(n, v) := garbage_collect (volatile db) slot in
  (n, mkChainDb (immutable db) v (ledger db)).

(** ** Recovery *)

Definition volatile_suffix_after (v : V) (replay_from_exclusive : Point)
    : outcome StorageError (list Block) :=
  let volatile_tip := vol_tip v in
  if bool_decide (volatile_tip = Origin) then Ok []
  else
    let? blocks := prefix_up_to v volatile_tip in
    if bool_decide (replay_from_exclusive = Origin) then Ok blocks
    else
      match position (fun b => bool_decide (point_for_block b = replay_from_exclusive)) blocks with
      | Some pos => Ok (drop (pos + 1) blocks)
      | None => Ok blocks
      end.

(** The loop of [try_restore_checkpoint]: one turn per snapshot tried. *)
Fixpoint try_restore_loop (fuel : nat) (l : L) (base_state : LS) (cursor : option SlotNo)
    : outcome StorageError (LS * option SlotNo * Point) :=
  match fuel with
  | O => OutOfFuel
  | S fuel =>
      let raw := match cursor with
                 | Some slot => latest_snapshot_before_or_at l slot
                 | None => latest_snapshot l
                 end in
      match raw with
      | None => Ok (base_state, None, ls_tip base_state)
      | Some (snapshot_slot, data) =>
          match checkpoint_restore base_state data with
          | Ok state => Ok (state, Some snapshot_slot, ls_tip state)
          | Err _ =>
              if snapshot_slot =? 0 then Ok (base_state, None, ls_tip base_state)
              else try_restore_loop fuel l base_state (Some (snapshot_slot - 1))
          | Panic => Panic
          | OutOfFuel => OutOfFuel
          end
      end
  end.

(** A turn that fails excludes a snapshot: count + 1 turns are enough. *)
Definition try_restore_checkpoint (db : DB) (base_state : LS) (max_slot : option SlotNo) :=
  try_restore_loop (S (Z.to_nat (snapshot_count (ledger db)))) (ledger db) base_state max_slot.

Fixpoint apply_all (st : LS) (blocks : list Block) : outcome LedgerError LS :=
  match blocks with
  | [] => Ok st
  | b :: blocks => let? st := ls_apply_block st b in apply_all st blocks
  end.

(** [ledger_state.apply_block(block).map_err(..)?] over a list. *)
Definition replay (st : LS) (blocks : list Block) : outcome StorageError LS :=
  map_err (fun e => Recovery (error_to_string e)) (apply_all st blocks).

Definition recover_ledger_state (db : DB) (base_state : LS)
    : outcome StorageError (LedgerRecoveryOutcome LS) :=
  let best_tip := db_tip db in
  let max_slot := match best_tip with Origin => None | BlockPoint slot _ => Some slot end in
  let? (st, checkpoint_slot, replay_from_exclusive) :=
    try_restore_checkpoint db base_state max_slot in
  let? immutable_replay_blocks := imm_suffix_after (immutable db) replay_from_exclusive in
  let? st := replay st immutable_replay_blocks in
  let replay_anchor :=
    match last immutable_replay_blocks with
    | Some b => point_for_block b
    | None => replay_from_exclusive
    end in
  let? replay_blocks := volatile_suffix_after (volatile db) replay_anchor in
  let? st := replay st replay_blocks in
  let point := ls_tip st in
  if bool_decide (point <> best_tip) then
    Err (Recovery ("recovered ledger tip " +:+ point_debug point
           +:+ " does not match coordinated storage tip " +:+ point_debug best_tip))
  else Ok (mkRecovered st point checkpoint_slot (zlength replay_blocks)).

(** ** The abstract chain *)

Context {VL : VolatileLaws V} {IL : ImmutableLaws I} {LL : LedgerLaws L}.

(** The stores hold a prefix and a suffix of one chain that cover it; a crash
    during a promotion leaves them overlapping. *)
Definition represents (chain : list Block) (db : DB) : Prop :=
  NoDup (hashes chain) /\
  exists i v, (v <= i <= length chain)%nat
    /\ imm_blocks (immutable db) = take i chain /\ vol_blocks (volatile db) = drop v chain.

Lemma tip_of_snoc l b : tip_of (l ++ [b]) = point_for_block b.
Proof. unfold tip_of. by rewrite last_snoc. Qed.

Lemma tip_of_Origin l : tip_of l = Origin <-> l = [].
Proof.
  destruct l as [|b l _] using rev_ind; [done|]. rewrite tip_of_snoc.
  split; [done|]. by destruct l.
Qed.

Lemma tip_of_drop n l : drop n l <> [] -> tip_of (drop n l) = tip_of l.
Proof.
  intros Hne. destruct (drop n l) as [|b k _] eqn:E using rev_ind; [done|].
  rewrite <- (take_drop n l), E, (assoc_L (++)), !tip_of_snoc. done.
Qed.

Lemma represents_tip chain db : represents chain db -> db_tip db = tip_of chain.
Proof.
  intros (_ & i & v & Hvi & Himm & Hvol). unfold db_tip.
  rewrite law_vol_tip, law_get_tip, Himm, Hvol. case_bool_decide as Ht.
  - apply tip_of_Origin in Ht. apply (f_equal length) in Ht. rewrite length_drop in Ht. simpl in Ht.
    by rewrite take_ge by lia.
  - apply tip_of_drop. intros E. by rewrite E in Ht.
Qed.

(** ** Promotion *)

Lemma NoDup_hashes_app l k : NoDup (hashes (l ++ k)) ->
  NoDup (hashes l) /\ NoDup (hashes k) /\ forall b, b ∈ k -> blk_hash b ∉ hashes l.
Proof.
  unfold hashes. rewrite map_app, NoDup_app. intros (? & Hd & ?). split_and!; [done|done|].
  intros b Hb Hin. eapply Hd; [exact Hin|]. by apply list_elem_of_fmap_2.
Qed.

Lemma hashes_mono l k h : (forall b, b ∈ l -> b ∈ k) -> h ∈ hashes l -> h ∈ hashes k.
Proof.
  intros Hlk (b & -> & Hb)%list_elem_of_fmap. apply list_elem_of_fmap_2. auto.
Qed.

Lemma promote_loop_spec l : forall i pre suf n,
  NoDup (hashes (pre ++ l ++ suf)) -> imm_blocks i = take n (pre ++ l ++ suf) ->
  (length pre <= n)%nat ->
  exists i', promote_loop i l = (i', Ok tt)
    /\ imm_blocks i' = take (n `max` (length pre + length l)) (pre ++ l ++ suf).
Proof.
  induction l as [|b l IH]; intros i pre suf n Hnd Hi Hn; simpl.
  { exists i. split; [done|]. rewrite Hi. f_equal. lia. }
  assert (pre ++ (b :: l) ++ suf = (pre ++ [b]) ++ l ++ suf) as Hsplit
    by (by rewrite <- (assoc_L (++))).
  change (b :: l ++ suf) with ((b :: l) ++ suf). rewrite Hsplit in *.
  rewrite law_contains, Hi. destruct (decide (n = length pre)) as [->|Hne].
  - assert (take (length pre) ((pre ++ [b]) ++ l ++ suf) = pre) as Hpre.
    { rewrite <- (assoc_L (++)). apply take_app_length. }
    rewrite Hpre in *. rewrite bool_decide_eq_false_2.
    2: { apply NoDup_hashes_app in Hnd as (Hnd & _ & _).
         apply NoDup_hashes_app in Hnd as (_ & _ & Hnd). apply Hnd. constructor. }
    destruct (law_append i b) as (i1 & -> & Hi1).
    { rewrite Hi. apply NoDup_hashes_app in Hnd as (Hnd & _ & _).
      apply NoDup_hashes_app in Hnd as (_ & _ & Hnd). apply Hnd. constructor. }
    destruct (IH i1 (pre ++ [b]) suf (S (length pre))) as (i' & -> & Hi').
    + done.
    + rewrite Hi1, Hi. symmetry. apply take_app_length'. rewrite length_app. simpl. lia.
    + rewrite length_app. simpl. lia.
    + exists i'. split; [done|]. rewrite Hi', length_app. simpl. f_equal. lia.
  - rewrite bool_decide_eq_true_2.
    2: { rewrite take_app_ge by (rewrite length_app; simpl; lia).
         unfold hashes. rewrite !map_app. simpl. set_solver. }
    destruct (IH i (pre ++ [b]) suf n) as (i' & -> & Hi'); [done|done|rewrite length_app; simpl; lia|].
    exists i'. split; [done|]. rewrite Hi', length_app. simpl. f_equal. lia.
Qed.

(** The promotion of the prefix up to a volatile block, after a crash that
    left [n] blocks in the immutable store. *)
Lemma promote_spec chain db i v slot l1 b l2 :
  NoDup (hashes chain) -> (v <= i <= length chain)%nat ->
  imm_blocks (immutable db) = take i chain -> vol_blocks (volatile db) = drop v chain ->
  drop v chain = l1 ++ b :: l2 ->
  exists db', promote_volatile_prefix db (BlockPoint slot (blk_hash b))
              = (db', Ok (zlength l1 + 1))
    /\ imm_blocks (immutable db') = take (i `max` (v + length l1 + 1)) chain
    /\ vol_blocks (volatile db') = l2 /\ ledger db' = ledger db.
Proof.
  intros Hnd Hvi Himm Hvol Hd. unfold promote_volatile_prefix.
  assert (chain = take v chain ++ (l1 ++ [b]) ++ l2) as Hchain.
  { rewrite <- (assoc_L (++)). simpl. by rewrite <- Hd, take_drop. }
  assert (length (take v chain) = v) as Hlv by (rewrite length_take; lia).
  assert (blk_hash b ∉ hashes l1) as Hni.
  { rewrite Hchain in Hnd. apply NoDup_hashes_app in Hnd as (_ & Hnd & _).
    apply NoDup_hashes_app in Hnd as (Hnd & _ & _).
    apply NoDup_hashes_app in Hnd as (_ & _ & Hnd). apply Hnd. constructor. }
  rewrite (law_prefix (volatile db) slot l1 b l2) by (done || by rewrite Hvol).
  destruct (promote_loop_spec (l1 ++ [b]) (immutable db) (take v chain) l2 i) as (i' & -> & Hi').
  { by rewrite <- Hchain. }
  { by rewrite <- Hchain. }
  { lia. }
  simpl. destruct (law_prune (volatile db) slot l1 b l2) as (v' & -> & Hv'); [by rewrite Hvol|done|].
  simpl. rewrite zlength_app, zlength_cons, zlength_nil. eexists. split; [f_equal; f_equal; lia|].
  simpl. split_and!; [|done|done]. rewrite Hi', <- Hchain, Hlv, length_app. simpl. f_equal. lia.
Qed.

(** A promotion interrupted after the first [n] turns of its loop. *)
Definition crash_during_promotion (db : DB) (blocks : list Block) (n : nat) : DB :=
  mkChainDb (promote_loop (immutable db) (take n blocks)).1 (volatile db) (ledger db).

Lemma crash_spec chain db i v l1 b l2 n :
  NoDup (hashes chain) -> (v <= i <= length chain)%nat ->
  imm_blocks (immutable db) = take i chain -> drop v chain = l1 ++ b :: l2 ->
  exists j, (i <= j <= i `max` (v + length l1 + 1))%nat
    /\ imm_blocks (immutable (crash_during_promotion db (l1 ++ [b]) n)) = take j chain.
Proof.
  intros Hnd Hvi Himm Hd.
  assert (chain = take v chain ++ take n (l1 ++ [b]) ++ drop n (l1 ++ [b]) ++ l2) as Hchain.
  { rewrite (assoc_L (++) (take n _)), take_drop, <- (assoc_L (++)). simpl.
    by rewrite <- Hd, take_drop. }
  assert (length (take v chain) = v) as Hlv by (rewrite length_take; lia).
  destruct (promote_loop_spec (take n (l1 ++ [b])) (immutable db) (take v chain)
              (drop n (l1 ++ [b]) ++ l2) i) as (i' & Hloop & Hi').
  { by rewrite <- Hchain. }
  { by rewrite <- Hchain. }
  { lia. }
  unfold crash_during_promotion. rewrite Hloop. simpl. rewrite Hi', <- Hchain, Hlv.
  eexists. split; [|done]. rewrite length_take, length_app. simpl. lia.
Qed.

(** ** Recovery *)

Definition eligible (cursor : option SlotNo) (l : list (SlotNo * list Z)) : list (SlotNo * list Z) :=
  match cursor with
  | Some slot => List.filter (fun p => p.1 <=? slot) l
  | None => l
  end.

Lemma eligible_elem cursor l p :
  p ∈ eligible cursor l <-> p ∈ l /\ match cursor with Some s => p.1 <= s | None => True end.
Proof.
  destruct cursor as [s|]; simpl; [|naive_solver].
  rewrite !list_elem_of_In, List.filter_In. by rewrite Z.leb_le.
Qed.

(** Trying the next older snapshot leaves fewer to try. *)
Lemma eligible_shrinks cursor l slot data :
  (slot, data) ∈ eligible cursor l ->
  (length (eligible (Some (slot - 1)%Z) l) < length (eligible cursor l))%nat.
Proof.
  intros [Hin Hc]%eligible_elem. simpl in Hc.
  assert (eligible cursor l = List.filter (fun p => match cursor with
            | Some s => p.1 <=? s | None => true end) l) as ->.
  { destruct cursor; [done|]. simpl. symmetry. clear. by induction l; simpl; f_equal. }
  apply (filter_length_lt _ _ l (slot, data)); [|done| |]; simpl.
  - intros [s d] _. simpl. destruct cursor; [|done]. intros. zbool. apply Z.leb_le. lia.
  - apply Z.leb_gt. lia.
  - destruct cursor; [|done]. by apply Z.leb_le.
Qed.

(** A snapshot in the store decodes or is reported corrupt. *)
Definition decodes_or_fails (base : LS) (data : list Z) : Prop :=
  (exists st, checkpoint_restore base data = Ok st) \/ (exists e, checkpoint_restore base data = Err e).

Lemma try_restore_spec fuel l base : forall cursor,
  (length (eligible cursor (snaps l)) < fuel)%nat ->
  Forall (fun p => decodes_or_fails base p.2) (snaps l) ->
  exists st cslot, try_restore_loop fuel l base cursor = Ok (st, cslot, ls_tip st)
    /\ (st = base \/ exists p, p ∈ eligible cursor (snaps l) /\ checkpoint_restore base p.2 = Ok st).
Proof.
  induction fuel as [|fuel IH]; intros cursor Hfuel Hdec; [lia|]. simpl.
  assert (match cursor with
          | Some slot => latest_snapshot_before_or_at l slot
          | None => latest_snapshot l
          end = last (eligible cursor (snaps l))) as ->
    by (destruct cursor; [apply law_latest_before|apply law_latest]).
  destruct (last (eligible cursor (snaps l))) as [[slot data]|] eqn:Hlast; [|by eauto 6].
  assert ((slot, data) ∈ eligible cursor (snaps l)) as Hin by (by apply last_Some_elem_of).
  pose proof (eligible_elem cursor (snaps l) (slot, data)) as [Hel _].
  destruct (Hel Hin) as [Hsn Hc]. rewrite Forall_forall in Hdec.
  destruct (Hdec _ Hsn) as [[st Hst]|[e He]]; simpl in *.
  { rewrite Hst. exists st, (Some slot). split; [done|]. right. by exists (slot, data). }
  rewrite He. destruct (slot =? 0); [by eauto 6|].
  destruct (IH (Some (slot - 1))) as (st & cslot & Hloop & Hor).
  { pose proof (eligible_shrinks cursor _ _ _ Hin). lia. }
  { by apply Forall_forall. }
  exists st, cslot. split; [done|]. destruct Hor as [->|(p & Hp & Hr)]; [by left|right].
  exists p. split; [|done]. apply eligible_elem in Hp as [Hp Hle].
  apply eligible_elem. split; [done|]. destruct cursor; [|done]. lia.
Qed.

Lemma apply_all_app st l k : apply_all st (l ++ k) = obind (apply_all st l) (fun st => apply_all st k).
Proof.
  revert st. induction l as [|b l IH]; intros st; simpl; [done|].
  rewrite obind_assoc. apply obind_ext. auto.
Qed.

Definition increasing (l : list Block) : Prop :=
  StronglySorted (fun a b => blk_slot a < blk_slot b) l.

Lemma increasing_app l k : increasing (l ++ k) ->
  Forall (fun b => Forall (fun a => blk_slot a < blk_slot b) l) k.
Proof.
  unfold increasing. intros Hs. apply Forall_forall. intros b Hb. apply Forall_forall. intros a Ha.
  induction l as [|x l IH]; [set_solver|]. simpl in Hs. apply StronglySorted_inv in Hs as [Hs Hx].
  apply elem_of_cons in Ha as [->|Ha]; [|auto]. rewrite Forall_forall in Hx. apply Hx. set_solver.
Qed.

(** The immutable blocks after the tip of a prefix of the chain. *)
Lemma imm_suffix_prefix chain i imm n :
  NoDup (hashes chain) -> increasing chain -> (i <= length chain)%nat -> (n <= length chain)%nat ->
  imm_blocks imm = take i chain ->
  imm_suffix_after imm (tip_of (take n chain)) = Ok (drop n (take i chain)).
Proof.
  intros Hnd Hinc Hi Hn Himm. destruct (decide (n = O)) as [->|Hn0].
  { rewrite law_suffix_origin, Himm. done. }
  destruct (take_last_split n chain) as (b & Hchain & Htake); [lia|].
  rewrite Htake, tip_of_snoc. pose proof Hnd as Hnd'. pose proof Hinc as Hinc'.
  rewrite Hchain in Hnd', Hinc'. apply NoDup_hashes_app in Hnd' as (_ & _ & Hni).
  apply increasing_app, Forall_cons in Hinc' as [Hlt _]. destruct (decide (n <= i)%nat) as [Hle|Hgt].
  - apply (law_suffix_at imm (take (n - 1) chain) b).
    + rewrite Himm. etransitivity; [symmetry; apply (take_drop (n - 1))|].
      rewrite take_take, Nat.min_l by lia. f_equal.
      rewrite (drop_S (take i chain) b (n - 1)); [by replace (S (n - 1)) with n by lia|].
      rewrite lookup_take_lt by lia. rewrite Hchain.
      apply list_lookup_middle. rewrite length_take. lia.
    + apply Hni. constructor.
    + eapply Forall_impl; [exact Hlt|]. simpl. lia.
  - rewrite drop_ge by (rewrite length_take; lia).
    assert (take i chain = take i (take (n - 1) chain)) as Hti
      by (by rewrite take_take, Nat.min_l by lia).
    apply law_suffix_beyond; rewrite Himm, Hti.
    + intros Hin. apply (Hni b); [constructor|].
      eapply hashes_mono; [|exact Hin]. intros x. apply elem_of_prefix.
    + by apply Forall_take.
Qed.

(** The volatile blocks after the tip of a prefix that reaches them. *)
Lemma vol_suffix_prefix chain v vol m :
  NoDup (hashes chain) -> (v <= m <= length chain)%nat -> vol_blocks vol = drop v chain ->
  volatile_suffix_after vol (tip_of (take m chain)) = Ok (drop m chain).
Proof.
  intros Hnd Hvm Hvol. unfold volatile_suffix_after. rewrite law_vol_tip, Hvol.
  destruct (drop v chain) as [|z q _] eqn:Hd using rev_ind.
  { apply (f_equal length) in Hd. rewrite length_drop in Hd. simpl in Hd.
    rewrite bool_decide_eq_true_2 by done. by rewrite drop_ge by lia. }
  rewrite tip_of_snoc, bool_decide_eq_false_2 by done.
  pose proof Hnd as Hnd'. rewrite <- (take_drop v chain), Hd in Hnd'.
  apply NoDup_hashes_app in Hnd' as (_ & Hq & Hpre). apply NoDup_hashes_app in Hq as (_ & _ & Hq).
  unfold point_for_block at 1. rewrite (law_prefix vol _ q z []); [|done|apply Hq; constructor].
  cbn [obind]. rewrite <- Hd in *. destruct (decide (m = O)) as [->|Hm].
  { rewrite bool_decide_eq_true_2 by done. by replace v with O by lia. }
  destruct (take_last_split m chain) as (b & Hchain & Htake); [lia|].
  rewrite Htake, tip_of_snoc, bool_decide_eq_false_2 by done.
  pose proof Hnd as Hnd'. rewrite Hchain in Hnd'. apply NoDup_hashes_app in Hnd' as (_ & _ & Hb).
  assert (forall l, blk_hash b ∉ hashes l ->
    Forall (fun x => bool_decide (point_for_block x = point_for_block b) = false) l) as Habs.
  { intros l Hl. apply Forall_forall. intros x Hx. apply bool_decide_eq_false_2. intros [= _ Hh].
    apply Hl. rewrite <- Hh. by apply list_elem_of_fmap_2. }
  destruct (decide (v <= m - 1)%nat) as [Hle|Hgt].
  - assert (drop v chain = drop v (take (m - 1) chain) ++ b :: drop m chain) as Hdv.
    { rewrite Hchain at 1. rewrite drop_app_le by (rewrite length_take; lia). done. }
    rewrite Hdv, (position_middle _ (drop v (take (m - 1) chain)) b).
    + rewrite Nat.add_1_r, drop_S_middle. done.
    + by apply bool_decide_eq_true_2.
    + apply Habs. intros Hin. apply (Hb b); [constructor|].
      eapply hashes_mono; [|exact Hin]. intros x. apply elem_of_suffix.
  - replace m with v in * by lia. rewrite position_missing; [done|].
    apply Habs. intros Hin. apply list_elem_of_fmap in Hin as (x & Hx & Hin).
    apply (Hpre x Hin). rewrite <- Hx, Htake. unfold hashes. rewrite map_app. set_solver.
Qed.

(** What recovery assumes of the ledger: a block that applies becomes the tip. *)
Definition apply_sets_tip : Prop :=
  forall st b st', ls_apply_block st b = Ok st' -> ls_tip st' = point_for_block b.

Lemma apply_all_tip st l st' :
  apply_sets_tip -> ls_tip st = Origin -> apply_all st l = Ok st' -> ls_tip st' = tip_of l.
Proof.
  intros Htip Hst Happ. destruct l as [|b l _] using rev_ind; [by simplify_eq/=|].
  rewrite apply_all_app in Happ. simpl in Happ. inv_ok. rewrite tip_of_snoc. eauto.
Qed.

(** A prefix that applies, and the rest of the chain from there. *)
Lemma apply_all_resume base chain final n st :
  apply_all base chain = Ok final -> apply_all base (take n chain) = Ok st ->
  apply_all st (drop n chain) = Ok final.
Proof.
  intros Hfin Hst. rewrite <- (take_drop n chain), apply_all_app, Hst in Hfin. exact Hfin.
Qed.

(** The snapshots recovery may use: those not newer than the tip. *)
Definition snapshot_usable (tip : Point) (p : SlotNo * list Z) : Prop :=
  match tip with Origin => True | BlockPoint slot _ => p.1 <= slot end.

(** Every usable snapshot that decodes is the state after some prefix of the
    chain. *)
Definition snapshots_sound (chain : list Block) (base : LS) (l : L) : Prop :=
  Forall (fun p => decodes_or_fails base p.2) (snaps l) /\
  forall p st, p ∈ snaps l -> snapshot_usable (tip_of chain) p ->
    checkpoint_restore base p.2 = Ok st ->
    exists n, (n <= length chain)%nat /\ apply_all base (take n chain) = Ok st.

Lemma restore_spec chain db base :
  represents chain db -> snapshots_sound chain base (ledger db) ->
  exists st cslot n, (n <= length chain)%nat /\ apply_all base (take n chain) = Ok st
    /\ try_restore_checkpoint db base
         (match db_tip db with Origin => None | BlockPoint slot _ => Some slot end)
       = Ok (st, cslot, ls_tip st).
Proof.
  intros Hrep [Hdec Hsound]. rewrite (represents_tip _ _ Hrep). unfold try_restore_checkpoint.
  set (cursor := match tip_of chain with Origin => None | BlockPoint slot _ => Some slot end).
  destruct (try_restore_spec (S (Z.to_nat (snapshot_count (ledger db)))) (ledger db) base cursor)
    as (st & cslot & -> & Hst); [|done|].
  { rewrite law_count. unfold zlength. rewrite Nat2Z.id. apply Nat.lt_succ_r.
    unfold eligible. destruct cursor; [apply List.filter_length_le|done]. }
  destruct Hst as [->|(p & [Hp Hc]%eligible_elem & Hr)].
  - exists base, cslot, O. split_and!; [lia|done|done].
  - destruct (Hsound p st) as (n & Hn & Hst); [done| |done|by exists st, cslot, n].
    unfold snapshot_usable, cursor in *. by destruct (tip_of chain).
Qed.

(** Replaying the immutable suffix brings the state to the further of the two
    prefixes. *)
Lemma replay_immutable base chain final n i st :
  apply_all base chain = Ok final -> apply_all base (take n chain) = Ok st ->
  exists st1, replay st (drop n (take i chain)) = Ok st1
    /\ apply_all base (take (Nat.max n i) chain) = Ok st1.
Proof.
  intros Hfin Hst. rewrite take_max_split, apply_all_app, Hst. simpl. unfold replay.
  rewrite <- (take_drop (Nat.max n i) chain), take_max_split, <- (assoc_L (++)), apply_all_app, Hst
    in Hfin.
  cbn [obind] in Hfin. rewrite apply_all_app in Hfin.
  destruct (apply_all st (drop n (take i chain))); simpl in *; by eauto.
Qed.

Lemma replay_anchor_tip n i chain :
  (n <= length chain)%nat -> (i <= length chain)%nat ->
  match last (drop n (take i chain)) with
  | Some b => point_for_block b
  | None => tip_of (take n chain)
  end = tip_of (take (Nat.max n i) chain).
Proof.
  intros Hn Hi. destruct (last (drop n (take i chain))) as [b|] eqn:Hl.
  - destruct (decide (n < i)%nat); [|by rewrite drop_ge in Hl by (rewrite length_take; lia)].
    rewrite Nat.max_r by lia. rewrite <- (tip_of_drop n) by (by intros E; rewrite E in Hl).
    unfold tip_of. by rewrite Hl.
  - apply last_None in Hl. apply (f_equal length) in Hl. rewrite length_drop, length_take in Hl.
    simpl in Hl. by rewrite Nat.max_l by lia.
Qed.

Lemma recover_spec chain db base final :
  represents chain db -> increasing chain -> apply_sets_tip -> ls_tip base = Origin ->
  apply_all base chain = Ok final -> snapshots_sound chain base (ledger db) ->
  exists cslot replayed, recover_ledger_state db base
    = Ok (mkRecovered final (tip_of chain) cslot replayed).
Proof.
  intros Hrep Hinc Htip Hbase Hfin Hsound. unfold recover_ledger_state.
  destruct (restore_spec chain db base Hrep Hsound) as (st & cslot & n & Hn & Hst & ->).
  rewrite (represents_tip _ _ Hrep). destruct Hrep as (Hnd & i & v & Hvi & Himm & Hvol).
  cbn [obind]. rewrite (apply_all_tip base (take n chain) st) by done.
  rewrite (imm_suffix_prefix chain i) by (done || lia). cbn [obind].
  destruct (replay_immutable base chain final n i st Hfin Hst) as (st1 & -> & Hst1). cbn [obind].
  rewrite replay_anchor_tip, (vol_suffix_prefix chain v) by (done || lia). cbn [obind]. unfold replay.
  rewrite (apply_all_resume _ _ _ _ _ Hfin Hst1). cbn [map_err obind].
  rewrite (apply_all_tip base chain final), bool_decide_eq_false_2 by (done || naive_solver).
  by eauto.
Qed.

(** ** Rollback *)

(** The stores of a database no promotion of which was interrupted. *)
Definition clean_split (chain : list Block) (i : nat) (db : DB) : Prop :=
  NoDup (hashes chain) /\ (i <= length chain)%nat
  /\ imm_blocks (immutable db) = take i chain /\ vol_blocks (volatile db) = drop i chain.

Lemma truncate_point_spec (db : DB) (v : V) point :
  exists l, truncate_ledger_checkpoints_after_point (mkChainDb (immutable db) v (ledger db)) point
            = (mkChainDb (immutable db) v l, Ok tt)
    /\ snaps l = match point with
                 | Origin => []
                 | BlockPoint slot _ => List.filter (fun p => p.1 <=? slot) (snaps (ledger db))
                 end.
Proof.
  destruct point as [|slot h]; simpl; unfold with_ledger.
  - destruct (law_truncate (ledger db) None) as (l & -> & Hl). by exists l.
  - destruct (law_truncate (ledger db) (Some slot)) as (l & -> & Hl). by exists l.
Qed.

Lemma NoDup_hashes_take n l : NoDup (hashes l) -> NoDup (hashes (take n l)).
Proof. intros Hnd. rewrite <- (take_drop n l) in Hnd. by apply NoDup_hashes_app in Hnd as (? & _). Qed.

Lemma clean_split_immutable chain i db v l :
  clean_split chain i db -> vol_blocks v = [] ->
  clean_split (take i chain) i (mkChainDb (immutable db) v l).
Proof.
  intros (Hnd & Hi & Himm & Hvol) Hv. split_and!; simpl.
  - by apply NoDup_hashes_take.
  - rewrite length_take. lia.
  - by rewrite take_take, Nat.min_id.
  - by rewrite Hv, drop_ge by (rewrite length_take; lia).
Qed.

Lemma clean_split_volatile chain i db v l l1 b l2 :
  clean_split chain i db -> drop i chain = l1 ++ b :: l2 -> vol_blocks v = l1 ++ [b] ->
  let n := (i + length l1 + 1)%nat in
  (i < n <= length chain)%nat /\ last (take n chain) = Some b
  /\ clean_split (take n chain) i (mkChainDb (immutable db) v l).
Proof.
  intros (Hnd & Hi & Himm & Hvol) Hd Hv n.
  assert (chain = take i chain ++ (l1 ++ [b]) ++ l2) as Hchain
    by (by rewrite <- (assoc_L (++)); simpl; rewrite <- Hd, take_drop).
  pose proof (f_equal length Hd) as Hlen. rewrite length_drop, length_app in Hlen. simpl in Hlen.
  assert (take n chain = take i chain ++ l1 ++ [b]) as Hn.
  { rewrite Hchain at 1. rewrite (assoc_L (++)). apply take_app_length'.
    rewrite !length_app, length_take. subst n. simpl. lia. }
  split_and!; [subst n; lia|subst n; lia|by rewrite Hn, (assoc_L (++)), last_snoc|].
  split_and!; simpl.
  - by apply NoDup_hashes_take.
  - rewrite length_take. subst n. lia.
  - by rewrite take_take, Nat.min_l by (subst n; lia).
  - rewrite Hv, Hn, drop_app_length' by (rewrite length_take; lia). done.
Qed.

(** ** Properties *)

(** C13: promotion to immutable storage is crash safe. Interrupted after any
    number of copied blocks, it leaves stores that still cover the same chain
    with the same tip; running it again succeeds and ends with the same
    immutable blocks, volatile blocks and reported count as a promotion that
    was never interrupted. *)
Theorem promotion_crash_safe (chain l1 l2 : list Block) (b : Block) (slot : SlotNo) (n : nat)
    (db : DB) (Hrep : represents chain db) (Hv : vol_blocks (volatile db) = l1 ++ b :: l2) :
  let point := BlockPoint slot (blk_hash b) in
  let crashed := crash_during_promotion db (l1 ++ [b]) n in
  represents chain crashed /\ db_tip crashed = db_tip db
  /\ exists db1 db2, promote_volatile_prefix db point = (db1, Ok (zlength l1 + 1))
       /\ promote_volatile_prefix crashed point = (db2, Ok (zlength l1 + 1))
       /\ imm_blocks (immutable db1) = imm_blocks (immutable db2)
       /\ vol_blocks (volatile db1) = l2 /\ vol_blocks (volatile db2) = l2
       /\ represents chain db1.
Proof.
  intros point crashed. pose proof Hrep as (Hnd & i & v & Hvi & Himm & Hvol).
  assert (drop v chain = l1 ++ b :: l2) as Hd by congruence.
  pose proof (f_equal length Hd) as Hlen. rewrite length_drop, length_app in Hlen. simpl in Hlen.
  destruct (crash_spec chain db i v l1 b l2 n) as (j & Hj & Hjm); [done..|].
  assert (represents chain crashed) as Hcrash.
  { split; [done|]. exists j, v. split_and!; [lia|lia|done|done]. }
  split_and!; [done|by rewrite (represents_tip chain db), (represents_tip chain crashed)|].
  destruct (promote_spec chain db i v slot l1 b l2) as (db1 & Hp1 & Hi1 & Hv1 & _); [done..|].
  destruct (promote_spec chain crashed j v slot l1 b l2) as (db2 & Hp2 & Hi2 & Hv2 & _);
    [done|lia|done..|].
  exists db1, db2. split_and!; [done|done| |done|done|].
  - rewrite Hi1, Hi2. f_equal. lia.
  - split; [done|]. exists (Nat.max i (v + length l1 + 1)), (v + length l1 + 1)%nat.
    split_and!; [lia|lia|done|]. rewrite Hv1, <- drop_drop, <- drop_drop, Hd, drop_app_length. done.
Qed.

(** C12: recovery rebuilds the ledger state of the whole chain. Whatever
    snapshots are present, corrupt or missing, and even when an interrupted
    promotion left blocks in both stores, [recover_ledger_state] ends with the
    state obtained by applying every block of the chain once, in order, from
    the base state, provided the chain is valid, snapshots that decode are
    states of prefixes of the chain, slots increase, and applying a block makes
    it the tip. *)
Theorem recovery_rebuilds_chain_state (chain : list Block) (db : DB) (base final : LS)
    (Hrep : represents chain db) (Hslots : increasing chain) (Htip : apply_sets_tip)
    (Hbase : ls_tip base = Origin) (Hvalid : apply_all base chain = Ok final)
    (Hsnaps : snapshots_sound chain base (ledger db)) :
  exists cslot replayed,
    recover_ledger_state db base = Ok (mkRecovered final (db_tip db) cslot replayed).
Proof.
  destruct (recover_spec chain db base final) as (cslot & replayed & Hr); [done..|].
  rewrite (represents_tip chain db) by done. eauto.
Qed.

(** What rolling the database back does. On success the stores hold a
    prefix of the old chain that keeps every immutable block: it ends at the
    rollback point when that point is volatile, and at the immutable tip when
    the point is immutable or the origin; snapshots newer than the point are
    gone. A point in neither store is refused and nothing changes. *)
Theorem rollback_truncates_chain (chain : list Block) (i : nat) (db : DB) (point : Point)
    (Hsplit : clean_split chain i db) :
  match db_rollback_to db point with
  | (db', Ok _) => exists n, (i <= n <= length chain)%nat
      /\ clean_split (take n chain) i db'
      /\ match point with
         | Origin => n = i /\ snaps (ledger db') = []
         | BlockPoint slot h =>
             ((h ∈ hashes (take i chain) /\ n = i)
              \/ exists b, last (take n chain) = Some b /\ blk_hash b = h)
             /\ snaps (ledger db') = List.filter (fun p => p.1 <=? slot) (snaps (ledger db))
         end
  | (db', Err e) => e = PointNotFound /\ db' = db
      /\ match point with Origin => False | BlockPoint _ h => h ∉ hashes chain end
  | _ => False
  end.
Proof.
  pose proof Hsplit as (Hnd & Hi & Himm & Hvol).
  unfold db_rollback_to. destruct point as [|slot h].
  { destruct (truncate_point_spec db (vol_rollback_to (volatile db) Origin) Origin) as (l & -> & Hl). exists i.
    split_and!; [lia|lia| |done|done].
    apply clean_split_immutable; [done|apply law_vol_rollback_origin]. }
  pose proof (law_vol_get (volatile db) h) as Hvg. pose proof (law_imm_get (immutable db) h) as Hig.
  rewrite Hvol in Hvg. rewrite Himm in Hig. destruct (is_Some_dec _) as [Hs|Hs].
  { apply Hvg in Hs. apply list_elem_of_fmap in Hs as (b & -> & (l1 & l2 & Hd)%list_elem_of_split).
    assert (blk_hash b ∉ hashes l1) as Hni.
    { rewrite <- (take_drop i chain), Hd in Hnd. apply NoDup_hashes_app in Hnd as (_ & Hnd & _).
      apply NoDup_hashes_app in Hnd as (_ & _ & Hnd). apply Hnd. constructor. }
    destruct (truncate_point_spec db (vol_rollback_to (volatile db) (BlockPoint slot (blk_hash b)))
                (BlockPoint slot (blk_hash b))) as (l & -> & Hl).
    destruct (clean_split_volatile chain i db
      (vol_rollback_to (volatile db) (BlockPoint slot (blk_hash b))) l l1 b l2) as (Hn & Hlast & Hc);
      [done|done|apply (law_vol_rollback _ _ l1 b l2); [by rewrite Hvol|done]|].
    exists (i + length l1 + 1)%nat. split_and!; [lia|lia|done|right; eauto|done]. }
  destruct (is_Some_dec _) as [Hs'|Hs'].
  { destruct (truncate_point_spec db (vol_rollback_to (volatile db) Origin) (BlockPoint slot h)) as (l & -> & Hl). exists i.
    split_and!; [lia|lia| |left; split; [by apply Hig|done]|done].
    apply clean_split_immutable; [done|apply law_vol_rollback_origin]. }
  split_and!; [done|done|]. rewrite <- (take_drop i chain). unfold hashes in *. rewrite map_app.
  set_solver.
Qed.

End chain_db.

(** ** A small database *)

Definition sample_block (n : Z) : Block :=
  mkBlock EraShelley (mkHeader [n] [n - 1] (10 * n) n [] None) [] None None.
Definition sample_chain : list Block := [sample_block 1; sample_block 2; sample_block 3].

(** An interrupted promotion left block 2 in both stores; the newest snapshot
    is corrupt. *)
Definition sample_db : ChainDb InMemoryImmutable InMemoryVolatile InMemoryLedgerStore :=
  mkChainDb (mkImmutable [sample_block 1; sample_block 2])
    (mkVolatile [sample_block 2; sample_block 3]) (mkLedgerStore [(10, [1]); (20, [9])]).

(** A ledger that records the blocks applied to it. *)
Definition toy_apply (st : list Block) (b : Block) : outcome LedgerError (list Block) := Ok (st ++ [b]).
Definition toy_restore (_ : list Block) (data : list Z) : outcome LedgerError (list Block) :=
  if bool_decide (data = [1]) then Ok [sample_block 1] else Err CborUnexpectedEof.

Lemma sample_chain_nodup : NoDup (hashes sample_chain).
Proof. apply (bool_decide_unpack _). by vm_compute. Qed.

Lemma sample_db_represents : represents sample_chain sample_db.
Proof.
  split; [apply sample_chain_nodup|]. exists 2%nat, 1%nat. split; [simpl; lia|]. split; reflexivity.
Qed.

Lemma promotion_crash_safe_witness :
  exists db, promote_volatile_prefix (crash_during_promotion sample_db [sample_block 2; sample_block 3] 1)
               (BlockPoint 30 [3]) = (db, Ok 2).
Proof.
  destruct (promotion_crash_safe sample_chain [sample_block 2] [] (sample_block 3) 30 1 sample_db
    sample_db_represents eq_refl) as (_ & _ & _ & db2 & _ & H & _).
  exists db2. exact H.
Defined.

Lemma recovery_rebuilds_chain_state_witness :
  exists cslot replayed,
    recover_ledger_state (list Block) toy_apply tip_of toy_restore (fun _ => EmptyString)
      (fun _ => EmptyString) sample_db []
    = Ok (mkRecovered sample_chain (BlockPoint 30 [3]) cslot replayed).
Proof.
  refine (recovery_rebuilds_chain_state (list Block) toy_apply tip_of toy_restore
    (fun _ => EmptyString) (fun _ => EmptyString) sample_chain sample_db [] sample_chain
    sample_db_represents _ _ eq_refl eq_refl _).
  - repeat constructor.
  - intros st b st' [= <-]. apply tip_of_snoc.
  - split.
    + constructor; [left; by eexists|]. constructor; [right; by eexists|]. constructor.
    + intros [slot data] st Hp _. unfold toy_restore. case_bool_decide; [|done]. intros [= <-].
      exists 1%nat. split; [simpl; lia|done].
Defined.

Lemma rollback_truncates_chain_witness :
  exists db', db_rollback_to
      (mkChainDb (mkImmutable [sample_block 1]) (mkVolatile [sample_block 2; sample_block 3])
         (mkLedgerStore [(10, [1]); (30, [9])])) (BlockPoint 20 [2]) = (db', Ok tt)
    /\ exists n, (1 <= n <= 3)%nat /\ clean_split (take n sample_chain) 1 db'.
Proof.
  pose proof (rollback_truncates_chain sample_chain 1
    (mkChainDb (mkImmutable [sample_block 1]) (mkVolatile [sample_block 2; sample_block 3])
       (mkLedgerStore [(10, [1]); (30, [9])])) (BlockPoint 20 [2])) as H.
  eexists. split; [reflexivity|].
  destruct H as (n & Hn & Hc & _).
  - split; [apply sample_chain_nodup|]. split; [simpl; lia|]. split; reflexivity.
  - by exists n.
Defined.
