(* ===== verification/PlutusData.v ===== *)
(** * Plutus data and its CBOR codec

    Model of the [PlutusData] half of [crates/ledger/src/plutus.rs]: the data
    tree, the encoder that walks it with an explicit work stack, and the
    decoder that rebuilds it with an explicit stack of open containers and a
    bound on nesting. The theorems relate the work-stack encoder to the
    recursive encoding it replaces, and the decoder to the encoder. *)

From S2P Require Import Prelude Cbor CborFacts.
Local Open Scope Z_scope.

(** ** Data *)

Inductive PlutusData :=
  | Data_Constr (alt : Z) (fields : list PlutusData)
  | Data_Map (entries : list (PlutusData * PlutusData))
  | Data_List (items : list PlutusData)
  | Data_Integer (n : Z)
  | Data_Bytes (b : list Z).

(** The derived [PartialEq]. *)
Fixpoint PlutusData_eq (a b : PlutusData) {struct a} : bool :=
  let fix all_eq (xs ys : list PlutusData) : bool :=
    match xs, ys with
    | [], [] => true
    | x :: xs, y :: ys => PlutusData_eq x y && all_eq xs ys
    | _, _ => false
    end in
  let fix pairs_eq (xs ys : list (PlutusData * PlutusData)) : bool :=
    match xs, ys with
    | [], [] => true
    | (k, v) :: xs, (k', v') :: ys => PlutusData_eq k k' && PlutusData_eq v v' && pairs_eq xs ys
    | _, _ => false
    end in
  match a, b with
  | Data_Constr t xs, Data_Constr t' ys => (t =? t') && all_eq xs ys
  | Data_Map xs, Data_Map ys => pairs_eq xs ys
  | Data_List xs, Data_List ys => all_eq xs ys
  | Data_Integer n, Data_Integer n' => n =? n'
  | Data_Bytes b, Data_Bytes b' => bool_decide (b = b')
  | _, _ => false
  end.

Definition CONSTR_TAG_BASE : Z := 121.
Definition CONSTR_TAG_EXT_BASE : Z := 1280.
Definition CONSTR_TAG_EXT_MAX_ALT : Z := 127.
Definition CONSTR_TAG_GENERAL : Z := 102.
Definition BIG_UINT_TAG : Z := 2.
Definition BIG_NINT_TAG : Z := 3.
Definition BOUNDED_BYTES_CHUNK_SIZE : Z := 64.
Definition MAX_DECODE_DEPTH : Z := 256.

(** [BigInt::to_bytes_be]: the magnitude, without leading zero bytes. *)
Definition bytes_needed (n : Z) : nat := Z.to_nat (Z.log2 (Z.abs n) / 8 + 1).
Definition BigInt_to_bytes_be (n : Z) : list Z := to_be (bytes_needed n) (Z.abs n).

(** ** Encoder *)

(** [slice::chunks]. *)
Fixpoint chunks_fuel {A} (fuel : nat) (size : nat) (l : list A) : list (list A) :=
  match fuel, l with
  | _, [] | O, _ => []
  | S fuel, _ => take size l :: chunks_fuel fuel size (drop size l)
  end.
Definition chunks {A} (size : nat) (l : list A) : list (list A) :=
  chunks_fuel (length l) size l.

Definition encode_bounded_bytes (bs : list Z) : list Z :=
  if zlength bs <=? BOUNDED_BYTES_CHUNK_SIZE then Encoder_bytes bs
  else Encoder_raw [95]
       ++ concat (map Encoder_bytes (chunks (Z.to_nat BOUNDED_BYTES_CHUNK_SIZE) bs))
       ++ Encoder_raw [255].

Definition encode_big_int (n : Z) : list Z :=
  if 0 <=? n then
    if n <=? U64_MAX then Encoder_unsigned n
    else Encoder_tag BIG_UINT_TAG ++ encode_bounded_bytes (BigInt_to_bytes_be n)
  else
    let magnitude := - n - 1 in
    if magnitude <=? U64_MAX then Encoder_negative magnitude
    else Encoder_tag BIG_NINT_TAG ++ encode_bounded_bytes (BigInt_to_bytes_be magnitude).

Definition encode_plutus_data_list_header (len : Z) : list Z :=
  if len =? 0 then Encoder_array 0 else Encoder_raw [159].

(** The work items of [encode_cbor]. *)
Inductive Work :=
  | Work_Data (node : PlutusData)
  | Work_Break.

Definition encode_constr_header (alt len : Z) : list Z :=
  (if alt <=? 6 then Encoder_tag (CONSTR_TAG_BASE + alt)
   else if alt <=? CONSTR_TAG_EXT_MAX_ALT then Encoder_tag (CONSTR_TAG_EXT_BASE + (alt - 7))
   else Encoder_tag CONSTR_TAG_GENERAL ++ Encoder_array 2 ++ Encoder_unsigned alt)
  ++ encode_plutus_data_list_header len.

(** The break is pushed below the children. *)
Definition break_if {A} (items : list A) : list Work :=
  match items with [] => [] | _ => [Work_Break] end.

(** One turn of the loop: the bytes a work item appends and the work it
    pushes, top of the stack first. *)
Definition encode_work (w : Work) : list Z * list Work :=
  match w with
  | Work_Break => (Encoder_raw [255], [])
  | Work_Data (Data_Constr alt fields) =>
      (encode_constr_header alt (zlength fields), map Work_Data fields ++ break_if fields)
  | Work_Data (Data_Map entries) =>
      (Encoder_map (zlength entries),
       concat (map (fun e => [Work_Data e.1; Work_Data e.2]) entries))
  | Work_Data (Data_List items) =>
      (encode_plutus_data_list_header (zlength items), map Work_Data items ++ break_if items)
  | Work_Data (Data_Integer n) => (encode_big_int n, [])
  | Work_Data (Data_Bytes b) => (encode_bounded_bytes b, [])
  end.

Definition encode_body (s : list Work * list Z) : outcome LedgerError (list Work * list Z + list Z) :=
  match s with
  | ([], enc) => Ok (inr enc)
  | (w :: stack, enc) => let '(bs, pushed) := encode_work w in
                         Ok (inl (pushed ++ stack, enc ++ bs))
  end.

(** Turns the loop takes: two per node, counting its break. *)
Fixpoint work_turns (d : PlutusData) : nat :=
  match d with
  | Data_Constr _ fields | Data_List fields => 2 + sum_list (map work_turns fields)
  | Data_Map entries => 2 + sum_list (map (fun e => work_turns e.1 + work_turns e.2)%nat entries)
  | Data_Integer _ | Data_Bytes _ => 2
  end.

Definition PlutusData_encode_cbor (d : PlutusData) : outcome LedgerError (list Z) :=
  loopM (S (work_turns d)) encode_body ([Work_Data d], []).

(** ** Decoder *)

Inductive ContainerKind := Kind_List | Kind_Constr (alt : Z).

Inductive DataFrame :=
  | Frame_Seq (kind : ContainerKind) (remaining : option Z) (children : list PlutusData)
  | Frame_Map (remaining : option Z) (entries : list (PlutusData * PlutusData))
      (pending_key : option PlutusData).

Definition fold_frame (f : DataFrame) : PlutusData :=
  match f with
  | Frame_Seq Kind_List _ children => Data_List children
  | Frame_Seq (Kind_Constr alt) _ children => Data_Constr alt children
  | Frame_Map _ entries _ => Data_Map entries
  end.

Definition frame_complete (f : DataFrame) : bool :=
  match f with
  | Frame_Seq _ (Some r) _ => r =? 0
  | Frame_Map (Some r) _ None => r =? 0
  | _ => false
  end.

Definition frame_indef (f : DataFrame) : bool :=
  match f with
  | Frame_Seq _ None _ | Frame_Map None _ _ => true
  | _ => false
  end.

(** Place a finished value into the topmost frame. *)
Definition place (v : PlutusData) (f : DataFrame) : DataFrame :=
  match f with
  | Frame_Seq kind remaining children =>
      Frame_Seq kind (option_map (fun r => sat_sub r 1) remaining) (children ++ [v])
  | Frame_Map remaining entries (Some k) =>
      Frame_Map (option_map (fun r => sat_sub r 1) remaining) (entries ++ [(k, v)]) None
  | Frame_Map remaining entries None => Frame_Map remaining entries (Some v)
  end.

(** [Vec::reserve] panics when the capacity in bytes exceeds [isize::MAX].
    A [PlutusData] takes 32 bytes: a [u64] and a [Vec]. *)
Definition SIZE_OF_PLUTUS_DATA : Z := 32.
Definition vec_reserve (elem_size n : Z) : outcome LedgerError unit :=
  if ISIZE_MAX <? elem_size * n then Panic else Ok tt.

(** The state of the loop: the stack, top first, the pending value and the
    decoder. *)
Definition DataState : Type := list DataFrame * option PlutusData * Decoder.
Definition DataStep : Type := Dec (list DataFrame * option PlutusData).

(** Open a container: an empty one is a value, another one a new frame. *)
Definition open_container (len : option Z) (empty : PlutusData) (elem_size : Z)
    (frame : DataFrame) (stack : list DataFrame) : DataStep :=
  if bool_decide (len = Some 0) then dret (stack, Some empty)
  else
    dlift (match len with Some n => vec_reserve elem_size n | None => Ok tt end) ;;;
    dret (frame :: stack, None).

Definition check_depth (stack : list DataFrame) (max_depth : Z) : outcome LedgerError unit :=
  if max_depth <=? zlength stack then Err (CborNestingTooDeep MAX_DECODE_DEPTH) else Ok tt.

Definition decode_seq (kind : ContainerKind) (max_depth : Z) (stack : list DataFrame)
    : DataStep :=
  dlift (check_depth stack max_depth) ;;;
  len <- Decoder_array_begin ;;
  open_container len (fold_frame (Frame_Seq kind None [])) SIZE_OF_PLUTUS_DATA
    (Frame_Seq kind len []) stack.

(** The constructor alternative or the big integer after a tag. *)
Definition decode_tagged (max_depth : Z) (stack : list DataFrame) : DataStep :=
  tag <- Decoder_tag ;;
  if in_range 121 127 tag then decode_seq (Kind_Constr (tag - CONSTR_TAG_BASE)) max_depth stack
  else if in_range 1280 1400 tag then
    decode_seq (Kind_Constr ((tag - 1280) + 7)) max_depth stack
  else if tag =? CONSTR_TAG_GENERAL then
    outer_len <- Decoder_array ;;
    if negb (outer_len =? 2) then derr (CborInvalidLength 2 outer_len)
    else
      alt <- Decoder_unsigned ;;
      decode_seq (Kind_Constr alt) max_depth stack
  else if tag =? BIG_UINT_TAG then
    raw <- Decoder_bytes_owned ;; dret (stack, Some (Data_Integer (from_be raw)))
  else if tag =? BIG_NINT_TAG then
    raw <- Decoder_bytes_owned ;; dret (stack, Some (Data_Integer (-1 - from_be raw)))
  else derr (CborTypeMismatch 121 (wrap8 tag)).

(** Step 3 of the loop: the next item of the stream. *)
Definition decode_item (max_depth : Z) (stack : list DataFrame) : DataStep :=
  major <- dget Decoder_peek_major ;;
  if major =? 0 then
    v <- Decoder_unsigned ;; dret (stack, Some (Data_Integer v))
  else if major =? 1 then
    v <- Decoder_negative ;; dret (stack, Some (Data_Integer (-1 - v)))
  else if major =? 2 then
    b <- Decoder_bytes_owned ;; dret (stack, Some (Data_Bytes b))
  else if major =? 4 then decode_seq Kind_List max_depth stack
  else if major =? 5 then
    dlift (check_depth stack max_depth) ;;;
    len <- Decoder_map_begin ;;
    open_container len (Data_Map []) (2 * SIZE_OF_PLUTUS_DATA) (Frame_Map len [] None) stack
  else if major =? 6 then decode_tagged max_depth stack
  else derr (CborTypeMismatch 0 major).

Definition decode_body (max_depth : Z) (s : DataState)
    : outcome LedgerError (DataState + PlutusData * Decoder) :=
  match s with
  | ([], Some v, d) => Ok (inr (v, d))
  | (f :: stack, Some v, d) =>
      let top := place v f in
      Ok (inl (if frame_complete top then (stack, Some (fold_frame top), d)
               else (top :: stack, None, d)))
  | (stack, None, d) =>
      match stack with
      | f :: stack' =>
          if frame_indef f && Decoder_is_break d then
            let? (_, d) := Decoder_consume_break d in
            Ok (inl (stack', Some (fold_frame f), d))
          else let? s := decode_item max_depth stack d in Ok (inl s)
      | [] => let? s := decode_item max_depth stack d in Ok (inl s)
      end
  end.

(** Each byte is read once and leads to at most one frame and one value. *)
Definition decode_fuel (d : Decoder) : nat := S (3 * length (data d)).

Definition decode_with_depth (max_depth : Z) : Dec PlutusData :=
  fun d => loopM (decode_fuel d) (decode_body max_depth) ([], None, d).

Definition PlutusData_decode_cbor : Dec PlutusData := decode_with_depth MAX_DECODE_DEPTH.

(** A constructor with two fields, and a map from bytes to a big integer. *)
Example encode_sample :
  PlutusData_encode_cbor
    (Data_Constr 1 [Data_List []; Data_Map [(Data_Bytes [7], Data_Integer (2 ^ 64))]])
  = Ok [216; 122; 159; 128; 161; 65; 7; 194; 73; 1; 0; 0; 0; 0; 0; 0; 0; 0; 255].
Proof. reflexivity. Qed.
Example decode_sample :
  from_cbor_bytes PlutusData_decode_cbor
    [216; 122; 159; 128; 161; 65; 7; 194; 73; 1; 0; 0; 0; 0; 0; 0; 0; 0; 255]
  = Ok (Data_Constr 1 [Data_List []; Data_Map [(Data_Bytes [7], Data_Integer (2 ^ 64))]]).
Proof. reflexivity. Qed.

(** ** Induction on data *)

Section data_induction.
  Context (P : PlutusData -> Prop).
  Context (HConstr : forall alt fields, Forall P fields -> P (Data_Constr alt fields)).
  Context (HMap : forall entries, Forall (fun e => P e.1 /\ P e.2) entries -> P (Data_Map entries)).
  Context (HList : forall items, Forall P items -> P (Data_List items)).
  Context (HInteger : forall n, P (Data_Integer n)).
  Context (HBytes : forall b, P (Data_Bytes b)).

Fixpoint PlutusData_ind' (d : PlutusData) : P d :=
  let fix all (l : list PlutusData) : Forall P l :=
    match l with
    | [] => List.Forall_nil P
    | x :: l => List.Forall_cons P x l (PlutusData_ind' x) (all l)
    end in
  let fix pairs (l : list (PlutusData * PlutusData)) : Forall (fun e => P e.1 /\ P e.2) l :=
    match l with
    | [] => List.Forall_nil _
    | e :: l => List.Forall_cons _ e l (conj (PlutusData_ind' e.1) (PlutusData_ind' e.2)) (pairs l)
    end in
  match d with
  | Data_Constr alt fields => HConstr alt fields (all fields)
  | Data_Map entries => HMap entries (pairs entries)
  | Data_List items => HList items (all items)
  | Data_Integer n => HInteger n
  | Data_Bytes b => HBytes b
  end.
End data_induction.

(** The derived equality is equality. *)
Lemma PlutusData_eq_true a b : PlutusData_eq a b = true <-> a = b.
Proof.
  revert b. induction a as [alt xs IH|xs IH|xs IH|n|bs] using PlutusData_ind';
    intros [alt' ys|ys|ys|n'|bs']; simpl; try (split; congruence).
  - rewrite andb_true_iff, Z.eqb_eq.
    assert (Hall : forall ys, (fix all_eq xs ys := match xs, ys with
      | [], [] => true | x :: xs, y :: ys => PlutusData_eq x y && all_eq xs ys
      | _, _ => false end) xs ys = true <-> xs = ys).
    { induction IH as [|x xs Hx _ IHxs]; intros [|y zs]; try (split; congruence).
      rewrite andb_true_iff, Hx, IHxs. split; [intros [-> ->]|intros [= -> ->]]; done. }
    rewrite Hall. split; [intros [-> ->]|intros [= -> ->]]; done.
  - transitivity (xs = ys); [|split; congruence].
    revert ys. induction IH as [|[k v] xs [Hk Hv] _ IHxs]; intros [|[k' v'] ys];
      try (split; congruence).
    rewrite !andb_true_iff, Hk, Hv, IHxs. simpl.
    split; [intros [[-> ->] ->]|intros [= -> -> ->]]; done.
  - transitivity (xs = ys); [|split; congruence].
    revert ys. induction IH as [|x xs Hx _ IHxs]; intros [|y ys]; try (split; congruence).
    rewrite andb_true_iff, Hx, IHxs. split; [intros [-> ->]|intros [= -> ->]]; done.
  - rewrite Z.eqb_eq. split; congruence.
  - rewrite bool_decide_eq_true. split; congruence.
Qed.

(** ** The recursive encoding *)

Definition list_encoding (body : list Z) (len : Z) : list Z :=
  encode_plutus_data_list_header len ++ body ++ (if len =? 0 then [] else [255]).

Fixpoint encoding (d : PlutusData) : list Z :=
  match d with
  | Data_Constr alt fields =>
      encode_constr_header alt (zlength fields) ++ concat (map encoding fields)
      ++ (if zlength fields =? 0 then [] else [255])
  | Data_Map entries =>
      Encoder_map (zlength entries) ++ concat (map (fun e => encoding e.1 ++ encoding e.2) entries)
  | Data_List items => list_encoding (concat (map encoding items)) (zlength items)
  | Data_Integer n => encode_big_int n
  | Data_Bytes b => encode_bounded_bytes b
  end.

Definition work_encoding (w : Work) : list Z :=
  match w with Work_Data d => encoding d | Work_Break => [255] end.
Definition work_cost (w : Work) : nat :=
  match w with Work_Data d => work_turns d | Work_Break => 1 end.

Lemma encode_work_spec w :
  work_encoding w = (encode_work w).1 ++ concat (map work_encoding (encode_work w).2)
  /\ (S (sum_list (map work_cost (encode_work w).2)) <= work_cost w)%nat.
Proof.
  assert (Hd : forall l, map work_encoding (map Work_Data l) = map encoding l
                /\ map work_cost (map Work_Data l) = map work_turns l)
    by (intros l; by rewrite !map_map).
  assert (Hb : forall (l : list PlutusData), concat (map work_encoding (break_if l))
     = (if zlength l =? 0 then [] else [255]) /\ (sum_list (map work_cost (break_if l)) <= 1)%nat)
    by (intros [|]; simpl; split; done || lia).
  destruct w as [[alt l|l|l|n|b]|]; simpl;
    rewrite ?map_app, ?concat_app, ?sum_list_with_app, ?(proj1 (Hd l)), ?(proj2 (Hd l)),
      ?(proj1 (Hb l)), ?app_nil_r; try (split; [done|simpl; lia]).
  - split; [done|]. pose proof (proj2 (Hb l)). lia.
  - split.
    + f_equal. clear. induction l as [|e l IH]; simpl; [done|].
      by rewrite IH, <- (assoc_L (++)).
    + induction l as [|e l IH]; simpl in *; lia.
  - split; [unfold list_encoding; by rewrite <- ?app_assoc|]. pose proof (proj2 (Hb l)). lia.
Qed.

(** The work-stack loop writes the recursive encoding of its stack. *)
Lemma encode_loop_spec fuel stack enc :
  (sum_list (map work_cost stack) < fuel)%nat ->
  loopM fuel encode_body (stack, enc) = Ok (enc ++ concat (map work_encoding stack)).
Proof.
  revert stack enc. induction fuel as [|fuel IH]; intros stack enc Hf; [lia|].
  destruct stack as [|w stack]; simpl; [by rewrite app_nil_r|].
  destruct (encode_work_spec w) as [He Hc]. destruct (encode_work w) as [bs pushed].
  simpl in *. rewrite IH.
  - by rewrite map_app, concat_app, He, <- !(assoc_L (++)).
  - rewrite map_app, sum_list_with_app. simpl in *. lia.
Qed.

(** The work-stack encoder is total and writes the recursive encoding. *)
Lemma encode_cbor_encoding d : PlutusData_encode_cbor d = Ok (encoding d).
Proof.
  unfold PlutusData_encode_cbor. rewrite encode_loop_spec; simpl.
  - by rewrite app_nil_r.
  - lia.
Qed.

(** ** Leaves *)

Lemma concat_chunks {A} size (l : list A) : (0 < size)%nat -> concat (chunks size l) = l.
Proof.
  intros Hs. unfold chunks. assert (Hl : (length l <= length l)%nat) by lia. revert Hl.
  generalize (length l) at 2 3. intros fuel. revert l.
  induction fuel as [|fuel IH]; intros [|x l] Hl; try done; [simpl in Hl; lia|].
  cbn [chunks_fuel concat]. rewrite IH; [apply take_drop|].
  rewrite length_drop. simpl in *. lia.
Qed.

Lemma decodes_bounded_bytes bs : decodes Decoder_bytes_owned (encode_bounded_bytes bs) bs.
Proof.
  unfold encode_bounded_bytes. case_match; [apply decodes_bytes_owned|].
  eapply decodes_eq; [reflexivity|].
  rewrite <- (concat_chunks (Z.to_nat BOUNDED_BYTES_CHUNK_SIZE) bs) at 2 by (unfold BOUNDED_BYTES_CHUNK_SIZE; lia).
  apply decodes_bytes_owned_chunks.
Qed.

Lemma bytes_needed_bound n : 0 <= Z.abs n < 2 ^ (8 * Z.of_nat (bytes_needed n)).
Proof.
  split; [lia|]. unfold bytes_needed.
  pose proof (Z.log2_nonneg (Z.abs n)). pose proof (Z.div_pos (Z.log2 (Z.abs n)) 8).
  rewrite Z2Nat.id by lia.
  destruct (decide (n = 0)) as [->|Hn]; [done|].
  apply Z.log2_lt_pow2; [lia|].
  pose proof (Z.mod_pos_bound (Z.log2 (Z.abs n)) 8).
  pose proof (Z.div_mod (Z.log2 (Z.abs n)) 8). lia.
Qed.

Lemma from_be_to_bytes_be n : from_be (BigInt_to_bytes_be n) = Z.abs n.
Proof. apply from_be_to_be, bytes_needed_bound. Qed.

(** ** Decoding what was encoded *)

(** A value a Rust program can hold: alternatives are [u64]s and the vectors
    of a map fit the address space. *)
Fixpoint data_ok (d : PlutusData) : Prop :=
  match d with
  | Data_Constr alt fields => u64 alt /\ foldr and True (map data_ok fields)
  | Data_Map entries =>
      2 * SIZE_OF_PLUTUS_DATA * zlength entries <= ISIZE_MAX
      /\ foldr and True (map (fun e => data_ok e.1 /\ data_ok e.2) entries)
  | Data_List items => foldr and True (map data_ok items)
  | Data_Integer _ | Data_Bytes _ => True
  end.

(** Containers on the longest path. *)
Fixpoint depth (d : PlutusData) : Z :=
  match d with
  | Data_Constr _ items | Data_List items => 1 + foldr Z.max 0 (map depth items)
  | Data_Map entries => 1 + foldr Z.max 0 (map (fun e => Z.max (depth e.1) (depth e.2)) entries)
  | Data_Integer _ | Data_Bytes _ => 0
  end.

Lemma depth_nonneg d : 0 <= depth d.
Proof.
  assert (forall l, 0 <= foldr Z.max 0 l) by (induction l; simpl; lia).
  destruct d; simpl; try lia; match goal with |- 0 <= 1 + foldr _ _ ?l => specialize (H l) end; lia.
Qed.

Section round_trip.
  Context (max_depth : Z).

(** [bs] is read as [d]: the loop turns the bytes into a pending value,
    leaving the stack as it was, in fewer than three turns per byte. *)
Definition reads_as (bs : list Z) (d : PlutusData) : Prop :=
  forall stack pre suf,
    zlength stack + depth d <= max_depth ->
    zlength (pre ++ bs ++ suf) <= ISIZE_MAX ->
    exists n, (n + 1 <= 3 * length bs)%nat /\
      runs n (decode_body max_depth) (stack, None, at_ pre (bs ++ suf))
        (stack, Some d, at_ (pre ++ bs) suf).

Lemma is_break_major bs m pre suf :
  first_major bs = Some m -> m <> 7 -> Decoder_is_break (at_ pre (bs ++ suf)) = false.
Proof.
  destruct bs as [|b bs]; [done|]. intros [= <-] Hm. unfold Decoder_is_break.
  rewrite peek_byte_at. apply Z.eqb_neq. intros ->. by apply Hm.
Qed.

(** A turn that reads an item. *)
Lemma turn_item bs m stack stack' v pre suf :
  first_major bs = Some m -> m <> 7 ->
  decodes (decode_item max_depth stack) bs (stack', v) ->
  zlength (pre ++ bs ++ suf) <= ISIZE_MAX ->
  decode_body max_depth (stack, None, at_ pre (bs ++ suf))
  = Ok (inl (stack', v, at_ (pre ++ bs) suf)).
Proof.
  intros Hm H7 Hd Hlen. unfold decode_body. destruct stack as [|f stack].
  - by rewrite Hd.
  - rewrite (is_break_major bs m) by done. rewrite andb_false_r. by rewrite Hd.
Qed.

(** An atom is one turn. *)
Lemma reads_as_atom bs m d :
  first_major bs = Some m -> m <> 7 ->
  (forall stack, decodes (decode_item max_depth stack) bs (stack, Some d)) -> reads_as bs d.
Proof.
  intros Hm H7 Hd stack pre suf _ Hlen. exists 1%nat. split.
  - destruct bs; [done|]. simpl. lia.
  - eapply runs_step; [by eapply turn_item|]. apply runs_refl.
Qed.

(** A turn that closes an indefinite container. *)
Lemma turn_break f stack pre suf :
  frame_indef f = true -> zlength (pre ++ 255 :: suf) <= ISIZE_MAX ->
  decode_body max_depth (f :: stack, None, at_ pre (255 :: suf))
  = Ok (inl (stack, Some (fold_frame f), at_ (pre ++ [255]) suf)).
Proof.
  intros Hf Hlen. unfold decode_body. rewrite Hf. change (255 :: suf) with ([255] ++ suf) in *.
  unfold Decoder_is_break. rewrite (peek_byte_at 255 [] pre suf). cbn [andb].
  change (255 =? BREAK) with true. cbv iota. change [255] with Encoder_break_stop at 1.
  by rewrite (decodes_break pre suf).
Qed.

(** The children of an indefinite sequence. *)
Lemma runs_children kind items :
  Forall (fun d => reads_as (encoding d) d) items ->
  forall stack acc pre suf,
    zlength stack + 1 + foldr Z.max 0 (map depth items) <= max_depth ->
    zlength (pre ++ concat (map encoding items) ++ suf) <= ISIZE_MAX ->
    exists n, (n <= 3 * length (concat (map encoding items)))%nat /\
      runs n (decode_body max_depth)
        (Frame_Seq kind None acc :: stack, None, at_ pre (concat (map encoding items) ++ suf))
        (Frame_Seq kind None (acc ++ items) :: stack, None,
         at_ (pre ++ concat (map encoding items)) suf).
Proof.
  induction 1 as [|d items Hd _ IH]; intros stack acc pre suf Hdep Hlen; simpl in *.
  - exists O. rewrite !app_nil_r. split; [lia|apply runs_refl].
  - rewrite <- !(assoc_L (++)) in *.
    destruct (Hd (Frame_Seq kind None acc :: stack) pre (concat (map encoding items) ++ suf))
      as (n1 & Hn1 & Hr1); [rewrite zlength_cons; lia|done|].
    destruct (IH stack (acc ++ [d]) (pre ++ encoding d) suf) as (n2 & Hn2 & Hr2);
      [lia|by rewrite <- (assoc_L (++))|].
    exists (n1 + S n2)%nat. rewrite length_app. split; [lia|].
    eapply runs_trans; [exact Hr1|]. eapply runs_step; [reflexivity|].
    cbn [place frame_complete option_map]. by rewrite <- !(assoc_L (++)) in Hr2.
Qed.

(** The entries of a definite map. *)
Lemma runs_entries entries :
  Forall (fun e => reads_as (encoding e.1) e.1 /\ reads_as (encoding e.2) e.2) entries ->
  entries <> [] ->
  forall stack acc pre suf,
    zlength stack + 1 + foldr Z.max 0 (map (fun e => Z.max (depth e.1) (depth e.2)) entries)
      <= max_depth ->
    zlength (pre ++ concat (map (fun e => encoding e.1 ++ encoding e.2) entries) ++ suf)
      <= ISIZE_MAX ->
    exists n, (n <= 3 * length (concat (map (fun e => encoding e.1 ++ encoding e.2) entries)))%nat /\
      runs n (decode_body max_depth)
        (Frame_Map (Some (zlength entries)) acc None :: stack, None,
         at_ pre (concat (map (fun e => encoding e.1 ++ encoding e.2) entries) ++ suf))
        (stack, Some (Data_Map (acc ++ entries)),
         at_ (pre ++ concat (map (fun e => encoding e.1 ++ encoding e.2) entries)) suf).
Proof.
  induction 1 as [|[k v] entries [Hk Hv] _ IH]; intros Hne stack acc pre suf Hdep Hlen; [done|].
  cbn [map concat foldr fst snd] in *. rewrite <- !(assoc_L (++)) in *.
  set (rest := concat (map _ entries)) in *.
  set (f := Frame_Map (Some (zlength ((k, v) :: entries))) acc None).
  destruct (Hk (f :: stack) pre (encoding v ++ rest ++ suf)) as (n1 & Hn1 & Hr1);
    [rewrite zlength_cons; lia|done|].
  destruct (Hv (place k f :: stack) (pre ++ encoding k) (rest ++ suf)) as (n2 & Hn2 & Hr2);
    [rewrite zlength_cons; lia|by rewrite <- (assoc_L (++))|].
  rewrite <- !(assoc_L (++)) in Hr2.
  assert (Hsub : sat_sub (zlength ((k, v) :: entries)) 1 = zlength entries).
  { unfold sat_sub. rewrite zlength_cons. pose proof (zlength_nonneg entries). lia. }
  destruct entries as [|e entries'].
  - exists (n1 + S (n2 + 1))%nat. subst rest. simpl in *. rewrite !app_nil_r in *.
    rewrite length_app. split; [lia|]. eapply runs_trans; [exact Hr1|].
    eapply runs_step; [reflexivity|]. eapply runs_trans; [exact Hr2|].
    eapply runs_step; [reflexivity|]. apply runs_refl.
  - destruct (IH ltac:(done) stack (acc ++ [(k, v)]) (pre ++ encoding k ++ encoding v) suf)
      as (n3 & Hn3 & Hr3); [lia|by rewrite <- !(assoc_L (++))|].
    fold rest in Hn3, Hr3. rewrite <- !(assoc_L (++)) in Hr3.
    exists (n1 + S (n2 + S n3))%nat. rewrite !length_app. split; [lia|].
    eapply runs_trans; [exact Hr1|]. eapply runs_step; [reflexivity|].
    eapply runs_trans; [exact Hr2|]. eapply runs_step; [|exact Hr3].
    cbn [decode_body place f option_map]. rewrite Hsub. cbn [frame_complete].
    rewrite zlength_cons. pose proof (zlength_nonneg entries').
    by rewrite (proj2 (Z.eqb_neq _ _)) by lia.
Qed.

(** The header of a sequence and what it opens. *)
Lemma decodes_seq_empty kind stack :
  zlength stack + 1 <= max_depth ->
  decodes (decode_seq kind max_depth stack) (Encoder_array 0)
    (stack, Some (fold_frame (Frame_Seq kind None []))).
Proof.
  intros Hd. unfold decode_seq, check_depth. rewrite (proj2 (Z.leb_gt _ _)) by lia.
  eapply decodes_bind0; [by apply decodes_lift|]. rewrite <- (app_nil_r (Encoder_array 0)).
  eapply decodes_bind; [by apply decodes_array_begin, u64_small|]. apply decodes_ret.
Qed.

Lemma decodes_seq_indef kind stack :
  zlength stack + 1 <= max_depth ->
  decodes (decode_seq kind max_depth stack) [159] (Frame_Seq kind None [] :: stack, None).
Proof.
  intros Hd. unfold decode_seq, check_depth. rewrite (proj2 (Z.leb_gt _ _)) by lia.
  eapply decodes_bind0; [by apply decodes_lift|]. rewrite <- (app_nil_r [159]).
  eapply decodes_bind; [apply decodes_array_begin_indef|].
  eapply decodes_bind0; [by apply decodes_lift|]. apply decodes_ret.
Qed.

(** A sequence after its prefix [h]: the header, the children and the break. *)
Lemma reads_as_seq kind h m items :
  first_major (h ++ encode_plutus_data_list_header (zlength items)) = Some m -> m <> 7 ->
  (forall stack hdr r, first_major hdr = Some 4 ->
     decodes (decode_seq kind max_depth stack) hdr r ->
     decodes (decode_item max_depth stack) (h ++ hdr) r) ->
  Forall (fun d => reads_as (encoding d) d) items ->
  depth (fold_frame (Frame_Seq kind None items)) = 1 + foldr Z.max 0 (map depth items) ->
  reads_as (h ++ list_encoding (concat (map encoding items)) (zlength items))
    (fold_frame (Frame_Seq kind None items)).
Proof.
  intros Hm H7 Hh Hitems Hdep stack pre suf Hst Hlen. rewrite Hdep in Hst.
  assert (Hmax : forall l, 0 <= foldr Z.max 0 l) by (induction l; simpl; lia).
  specialize (Hmax (map depth items)).
  unfold list_encoding, encode_plutus_data_list_header in *.
  destruct items as [|x items].
  - change (zlength [] =? 0) with true in *. cbv iota in *. simpl concat in *.
    rewrite !app_nil_r in *. exists 1%nat. split.
    + rewrite length_app. unfold Encoder_array, Encoder_write_type_and_arg. simpl. lia.
    + eapply runs_step; [|apply runs_refl].
      eapply turn_item; [done..| |done]. apply Hh; [done|]. apply decodes_seq_empty. lia.
  - rewrite (proj2 (Z.eqb_neq (zlength (x :: items)) 0)) in *
      by (rewrite zlength_cons; pose proof (zlength_nonneg items); lia).
    remember (x :: items) as l. unfold Encoder_raw in *. rewrite <- !(assoc_L (++)) in *.
    destruct (runs_children kind l Hitems stack [] (pre ++ h ++ [159]) (255 :: suf))
      as (n & Hn & Hr); [lia|by rewrite <- !(assoc_L (++))|].
    exists (S (S n)). rewrite !length_app. split; [simpl length; lia|].
    eapply runs_step.
    { rewrite (assoc_L (++) h). eapply turn_item; [done..| |].
      - apply Hh; [done|]. apply decodes_seq_indef. lia.
      - by rewrite <- !(assoc_L (++)). }
    eapply runs_snoc; [exact Hr|]. rewrite <- !(assoc_L (++)).
    etransitivity; [apply turn_break; [done|by rewrite <- !(assoc_L (++))]|].
    by rewrite <- !(assoc_L (++)).
Qed.

(** An item whose first byte has major type [m]. *)
Lemma decodes_item_major m stack bs r :
  first_major bs = Some m ->
  decodes (if m =? 0 then v <- Decoder_unsigned ;; dret (stack, Some (Data_Integer v))
           else if m =? 1 then v <- Decoder_negative ;; dret (stack, Some (Data_Integer (-1 - v)))
           else if m =? 2 then b <- Decoder_bytes_owned ;; dret (stack, Some (Data_Bytes b))
           else if m =? 4 then decode_seq Kind_List max_depth stack
           else if m =? 5 then
             dlift (check_depth stack max_depth) ;;;
             len <- Decoder_map_begin ;;
             open_container len (Data_Map []) (2 * SIZE_OF_PLUTUS_DATA) (Frame_Map len [] None) stack
           else if m =? 6 then decode_tagged max_depth stack
           else derr (CborTypeMismatch 0 m)) bs r ->
  decodes (decode_item max_depth stack) bs r.
Proof. intros Hm Hd. eapply decodes_peek; [by apply peek_major_at|exact Hd]. Qed.

Lemma decodes_item_tagged stack bs r :
  first_major bs = Some 6 -> decodes (decode_tagged max_depth stack) bs r ->
  decodes (decode_item max_depth stack) bs r.
Proof. intros Hm Hd. by apply (decodes_item_major 6). Qed.

Lemma first_major_bounded bs : first_major (encode_bounded_bytes bs) = Some 2.
Proof.
  unfold encode_bounded_bytes. case_match; [|done].
  apply first_major_app, first_major_write; [by unfold MAJOR_BYTES|apply zlength_nonneg].
Qed.

Lemma reads_as_bytes b : reads_as (encode_bounded_bytes b) (Data_Bytes b).
Proof.
  apply (reads_as_atom _ 2); [apply first_major_bounded|done|]. intros stack.
  apply (decodes_item_major 2); [apply first_major_bounded|]. simpl.
  eapply decodes_bind_ret; [apply decodes_bounded_bytes|apply decodes_ret].
Qed.

Lemma reads_as_integer n : reads_as (encode_big_int n) (Data_Integer n).
Proof.
  unfold encode_big_int. repeat case_goal; zbool.
  - apply (reads_as_atom _ 0); [by apply first_major_write|done|]. intros stack.
    apply (decodes_item_major 0); [by apply first_major_write|]. simpl.
    eapply decodes_bind_ret; [by apply decodes_unsigned|apply decodes_ret].
  - apply (reads_as_atom _ 6); [done..|]. intros stack.
    apply decodes_item_tagged; [done|]. unfold decode_tagged.
    eapply decodes_bind; [by apply decodes_tag, u64_small|].
    eapply decodes_bind_ret; [apply decodes_bounded_bytes|].
    rewrite from_be_to_bytes_be, Z.abs_eq by lia. apply decodes_ret.
  - apply (reads_as_atom _ 1); [apply first_major_write; unfold MAJOR_NEGATIVE; lia|done|].
    intros stack.
    apply (decodes_item_major 1); [apply first_major_write; unfold MAJOR_NEGATIVE; lia|].
    simpl. eapply decodes_bind_ret; [apply decodes_negative; unfold u64; lia|].
    replace (-1 - (- n - 1)) with n by lia. apply decodes_ret.
  - apply (reads_as_atom _ 6); [done..|]. intros stack.
    apply decodes_item_tagged; [done|]. unfold decode_tagged.
    eapply decodes_bind; [by apply decodes_tag, u64_small|].
    eapply decodes_bind_ret; [apply decodes_bounded_bytes|].
    rewrite from_be_to_bytes_be, Z.abs_eq by lia.
    replace (-1 - (- n - 1)) with n by lia. apply decodes_ret.
Qed.

(** The tag of a constructor selects its alternative. *)
Definition constr_tag (alt : Z) : list Z :=
  if alt <=? 6 then Encoder_tag (CONSTR_TAG_BASE + alt)
  else if alt <=? CONSTR_TAG_EXT_MAX_ALT then Encoder_tag (CONSTR_TAG_EXT_BASE + (alt - 7))
  else Encoder_tag CONSTR_TAG_GENERAL ++ Encoder_array 2 ++ Encoder_unsigned alt.

Lemma first_major_constr_tag alt bs : u64 alt -> first_major (constr_tag alt ++ bs) = Some 6.
Proof.
  intros [??]. unfold constr_tag. apply first_major_app.
  repeat case_match; zbool; try done;
    apply first_major_write; unfold MAJOR_TAG, CONSTR_TAG_BASE, CONSTR_TAG_EXT_BASE; lia.
Qed.

Lemma decodes_constr_tag alt stack hdr r :
  u64 alt -> decodes (decode_seq (Kind_Constr alt) max_depth stack) hdr r ->
  decodes (decode_item max_depth stack) (constr_tag alt ++ hdr) r.
Proof.
  intros Halt Hd. apply decodes_item_tagged; [by apply first_major_constr_tag|].
  unfold decode_tagged, constr_tag, in_range, CONSTR_TAG_BASE, CONSTR_TAG_EXT_BASE,
    CONSTR_TAG_EXT_MAX_ALT, CONSTR_TAG_GENERAL in *. destruct Halt as [? ?].
  destruct (alt <=? 6) eqn:E1; [|destruct (alt <=? 127) eqn:E2]; zbool.
  - eapply decodes_bind; [apply decodes_tag, u64_small; lia|].
    rewrite !(proj2 (Z.leb_le _ _)) by lia. cbn [andb].
    by replace (121 + alt - 121) with alt by lia.
  - eapply decodes_bind; [apply decodes_tag, u64_small; lia|].
    rewrite (proj2 (Z.leb_gt (1280 + (alt - 7)) 127)), andb_false_r by lia.
    rewrite !(proj2 (Z.leb_le _ _)) by lia. cbn [andb].
    by replace (1280 + (alt - 7) - 1280 + 7) with alt by lia.
  - rewrite <- !(assoc_L (++)). eapply decodes_bind; [by apply decodes_tag, u64_small|].
    eapply decodes_bind; [by apply decodes_array, u64_small|].
    eapply decodes_bind; [apply decodes_unsigned; unfold u64; lia|]. exact Hd.
Qed.

Lemma reads_as_map entries :
  2 * SIZE_OF_PLUTUS_DATA * zlength entries <= ISIZE_MAX ->
  Forall (fun e => reads_as (encoding e.1) e.1 /\ reads_as (encoding e.2) e.2) entries ->
  reads_as (encoding (Data_Map entries)) (Data_Map entries).
Proof.
  intros Hsize Hes stack pre suf Hst Hlen. cbn [encoding depth] in *.
  pose proof (zlength_nonneg entries) as H0.
  assert (Hmax : forall l, 0 <= foldr Z.max 0 l) by (induction l; simpl; lia).
  assert (Hu : u64 (zlength entries)).
  { unfold u64, U64_MAX, SIZE_OF_PLUTUS_DATA, ISIZE_MAX in *. lia. }
  assert (Hm : first_major (Encoder_map (zlength entries)) = Some 5) by (by apply first_major_write).
  assert (Hhdr : decodes (decode_item max_depth stack) (Encoder_map (zlength entries))
     (if zlength entries =? 0 then (stack, Some (Data_Map []))
      else (Frame_Map (Some (zlength entries)) [] None :: stack, None))).
  { apply (decodes_item_major 5); [done|]. simpl. unfold check_depth.
    rewrite (proj2 (Z.leb_gt _ _)) by (specialize (Hmax
      (map (fun e => Z.max (depth e.1) (depth e.2)) entries)); lia).
    eapply decodes_bind0; [by apply decodes_lift|]. rewrite <- (app_nil_r (Encoder_map _)).
    eapply decodes_bind; [by apply decodes_map_begin|]. unfold open_container.
    destruct (zlength entries =? 0) eqn:E; zbool.
    - rewrite bool_decide_eq_true_2 by congruence. apply decodes_ret.
    - rewrite bool_decide_eq_false_2 by congruence.
      eapply decodes_bind0; [apply decodes_lift|apply decodes_ret].
      unfold vec_reserve. by rewrite (proj2 (Z.ltb_ge _ _)) by lia. }
  assert (Hpos : (1 <= length (Encoder_map (zlength entries)))%nat)
    by (destruct (Encoder_map _); [done|simpl; lia]).
  assert (entries = [] \/ entries <> []) as [->|Hne] by (destruct entries; auto).
  - simpl concat in *. rewrite !app_nil_r in *. exists 1%nat. split; [simpl; lia|].
    eapply runs_step; [eapply turn_item; [exact Hm|done|exact Hhdr|done]|]. apply runs_refl.
  - rewrite (proj2 (Z.eqb_neq _ _)) in Hhdr by (destruct entries; [done|rewrite zlength_cons in *;
      pose proof (zlength_nonneg entries); lia]).
    rewrite <- !(assoc_L (++)) in *.
    destruct (runs_entries entries Hes Hne stack [] (pre ++ Encoder_map (zlength entries)) suf)
      as (n & Hn & Hr); [lia|by rewrite <- (assoc_L (++))|].
    exists (S n). rewrite length_app. split; [lia|].
    eapply runs_step; [eapply turn_item; [exact Hm|done|exact Hhdr|done]|].
    by rewrite <- (assoc_L (++)) in Hr.
Qed.

Lemma encoding_reads_as d : data_ok d -> reads_as (encoding d) d.
Proof.
  assert (Hall : forall (P : PlutusData -> Prop) l, Forall (fun d => data_ok d -> P d) l ->
            foldr and True (map data_ok l) -> Forall P l).
  { intros P l. induction 1; simpl; [done|]. intros [??]. constructor; auto. }
  induction d as [alt l IH|l IH|l IH|n|b] using PlutusData_ind'; cbn [data_ok]; intros Hok.
  - destruct Hok as [Halt Hok]. eapply Hall in IH; [|exact Hok].
    cbn [encoding]. unfold encode_constr_header. fold (constr_tag alt).
    rewrite <- (assoc_L (++)).
    apply (reads_as_seq (Kind_Constr alt) _ 6);
      [by apply first_major_constr_tag|done| |done|done].
    intros stack hdr r _. by apply decodes_constr_tag.
  - destruct Hok as [Hsize Hok]. apply reads_as_map; [done|]. clear Hsize.
    induction IH as [|[k v] l [Hk Hv] _ IHl]; [done|]. simpl in *.
    destruct Hok as [[??] ?]. constructor; [|by apply IHl]. split; auto.
  - eapply Hall in IH; [|exact Hok]. cbn [encoding].
    apply (reads_as_seq Kind_List [] 4); [|done| |done|done].
    + unfold encode_plutus_data_list_header. by case_match.
    + intros stack hdr r Hm Hd. rewrite app_nil_l. by apply (decodes_item_major 4).
  - apply reads_as_integer.
  - apply reads_as_bytes.
Qed.
End round_trip.

(** ** Termination *)

(** What a turn that reads an item may add to the state. *)
Definition step_size (s : list DataFrame * option PlutusData) : nat :=
  length s.1 + (match s.2 with Some _ => 1 | None => 0 end).

Definition grows (stack : list DataFrame) (m : DataStep) : Prop :=
  forall d r, m d = Ok r -> (step_size r.1 <= length stack + 1)%nat.

Lemma grows_bind {A} stack (m : Dec A) (k : A -> DataStep) :
  (forall a, grows stack (k a)) -> grows stack (dbind m k).
Proof. intros Hk d r H. unfold dbind in H. inv_ok. by eapply Hk. Qed.
Lemma grows_err stack e : grows stack (derr e).
Proof. by intros d r H. Qed.
Lemma grows_value stack v : grows stack (dret (stack, Some v)).
Proof. intros d r [= <-]. unfold step_size. simpl. lia. Qed.
Lemma grows_open len e z f stack : grows stack (open_container len e z f stack).
Proof.
  unfold open_container. case_match; [apply grows_value|]. apply grows_bind.
  intros a d r [= <-]. unfold step_size. simpl. lia.
Qed.
Lemma grows_seq kind max_depth stack : grows stack (decode_seq kind max_depth stack).
Proof. apply grows_bind. intros _. apply grows_bind. intros len. apply grows_open. Qed.

Lemma grows_item max_depth stack : grows stack (decode_item max_depth stack).
Proof.
  apply grows_bind. intros m. unfold decode_tagged.
  repeat first [apply grows_err | apply grows_value | apply grows_open | apply grows_seq
               | apply grows_bind; intros ? | case_match].
Qed.

Lemma reads_open n len e z f stack : reads n false (open_container len e z f stack).
Proof.
  unfold open_container. case_match; [apply reads_ret|].
  apply reads_bind_r; [|intros; apply reads_ret]. apply reads_lift.
  unfold vec_reserve. repeat case_match; done.
Qed.

Lemma reads_seq n kind max_depth stack : reads n true (decode_seq kind max_depth stack).
Proof.
  apply reads_bind_r; [apply reads_lift; unfold check_depth; by case_match|]. intros _.
  apply reads_bind_l; [apply reads_array_begin|]. intros len. apply reads_open.
Qed.

Lemma reads_item n max_depth stack : reads n true (decode_item max_depth stack).
Proof.
  apply reads_peek; [apply peek_major_fuel|]. intros m. unfold decode_tagged.
  repeat case_goal; try apply reads_err; try apply reads_seq;
    try (apply reads_bind_l; [apply reads_expect_major|intros; apply reads_ret]);
    try (apply reads_bind_l; [apply reads_bytes_owned|intros; apply reads_ret]).
  - apply reads_bind_r; [apply reads_lift; unfold check_depth; by case_match|]. intros _.
    apply reads_bind_l; [apply reads_map_begin|]. intros len. apply reads_open.
  - apply reads_bind_l; [apply reads_expect_major|]. intros tag.
    repeat case_goal; try apply reads_err; try (eapply reads_weaken, reads_seq);
      try (eapply reads_weaken, reads_bind_l; [apply reads_bytes_owned|intros; apply reads_ret]).
    eapply reads_weaken, reads_bind_l; [apply reads_expect_major|]. intros len.
    case_match; [apply reads_err|]. eapply reads_weaken, reads_bind_l; [apply reads_expect_major|].
    intros alt. eapply reads_weaken, reads_seq.
Qed.

(** Every turn reads a byte or uses up a value or a frame. *)
Lemma decode_body_turn max_depth s :
  dec_wf s.2 ->
  post (fun r => match r with
    | inl s' => advanced false s.2 s'.2
        /\ (3 * left_of s'.2 + step_size s'.1 < 3 * left_of s.2 + step_size s.1)%nat
    | inr p => advanced false s.2 p.2
    end) (decode_body max_depth s).
Proof.
  destruct s as [[stack v] d]. cbn [snd fst]. intros Hd.
  pose proof (advanced_refl d Hd) as Hrefl.
  assert (Hitem : post (fun r => match r with
    | inl s' => advanced false d s'.2
        /\ (3 * left_of s'.2 + step_size s'.1 < 3 * left_of d + step_size (stack, None))%nat
    | inr p => advanced false d p.2
    end) (let? s := decode_item max_depth stack d in Ok (@inl DataState (PlutusData * Decoder) s))).
  { pose proof (reads_item (S (left_of d)) max_depth stack d Hd ltac:(lia)) as Hr.
    pose proof (grows_item max_depth stack d) as Hg.
    destruct (decode_item max_depth stack d) as [[s' d']| | |]; simpl in *; try done.
    specialize (Hg _ eq_refl). pose proof (advanced_left _ _ _ Hr). simpl in *.
    split; [by eapply advanced_weaken|]. unfold step_size in *. simpl in *. lia. }
  destruct v as [v|]; [destruct stack as [|f stack]|].
  - done.
  - cbn [decode_body post]. case_match; cbn [snd fst]; (split; [done|]); unfold step_size; simpl; lia.
  - destruct stack as [|f stack]; [exact Hitem|]. cbn [decode_body].
    case_match; [|exact Hitem].
    pose proof (reads_consume_break (S (left_of d)) d Hd ltac:(lia)) as Hr.
    destruct (Decoder_consume_break d) as [[[] d']| | |]; simpl in *; try done.
    pose proof (advanced_left _ _ _ Hr). simpl in *.
    split; [by eapply advanced_weaken|]. unfold step_size. simpl. lia.
Qed.

(** The decoder terminates on every input and stays inside it. *)
Lemma reads_plutus_data n : reads n false PlutusData_decode_cbor.
Proof.
  intros d Hd _. unfold PlutusData_decode_cbor, decode_with_depth.
  apply (post_loopM (fun s : DataState => advanced false d s.2) _
           (fun s => 3 * left_of s.2 + step_size s.1)%nat).
  - intros s Hs. eapply post_mono; [apply decode_body_turn, Hs|].
    intros [s'|[v d']]; simpl.
    + intros [Ha Hlt]. split; [by eapply (advanced_trans false false)|done].
    + intros Ha. by eapply (advanced_trans false false).
  - by apply advanced_refl.
  - unfold decode_fuel, left_of, step_size, zlength. destruct Hd as [[??] _]. simpl. lia.
Qed.

(** ** Properties *)

Lemma decodes_plutus_data d :
  data_ok d -> depth d <= MAX_DECODE_DEPTH -> decodes PlutusData_decode_cbor (encoding d) d.
Proof.
  intros Hok Hdep pre suf Hlen.
  destruct (encoding_reads_as MAX_DECODE_DEPTH d Hok [] pre suf) as (n & Hn & Hr);
    [by rewrite zlength_nil|done|].
  unfold PlutusData_decode_cbor, decode_with_depth. eapply runs_returns; [exact Hr|done|].
  unfold decode_fuel, at_. simpl data. rewrite !length_app. lia.
Qed.

(** The iterative encoder is total and writes exactly the recursive
    pre-order encoding, and what it writes decodes to the same value, leaving
    the bytes that follow untouched, for every value nested no deeper than
    the bound the decoder accepts: the two explicit stacks are inverse. *)
Theorem plutus_data_round_trip d :
  data_ok d -> depth d <= MAX_DECODE_DEPTH ->
  exists bs, PlutusData_encode_cbor d = Ok bs /\ bs = encoding d
    /\ decodes PlutusData_decode_cbor bs d.
Proof.
  intros Hok Hdep. exists (encoding d).
  split_and!; [apply encode_cbor_encoding|done|by apply decodes_plutus_data].
Qed.
Lemma plutus_data_round_trip_witness :
  exists bs, PlutusData_encode_cbor (Data_Constr 7 [Data_Map [(Data_Integer (-5), Data_Bytes [1])]]) = Ok bs
    /\ bs = encoding (Data_Constr 7 [Data_Map [(Data_Integer (-5), Data_Bytes [1])]])
    /\ decodes PlutusData_decode_cbor bs (Data_Constr 7 [Data_Map [(Data_Integer (-5), Data_Bytes [1])]]).
Proof.
  apply (plutus_data_round_trip (Data_Constr 7 [Data_Map [(Data_Integer (-5), Data_Bytes [1])]])).
  - vm_compute. repeat split; discriminate.
  - vm_compute. discriminate.
Defined.

(** Decoding [PlutusData] terminates on every byte string, with a value, an
    error or a panic of the allocator. *)
Theorem plutus_data_decode_total bs :
  bytes_ok bs -> zlength bs <= ISIZE_MAX ->
  PlutusData_decode_cbor (Decoder_new bs) <> OutOfFuel.
Proof.
  intros Hb Hl. pose proof (reads_plutus_data (S (length bs)) (Decoder_new bs)) as H.
  destruct (PlutusData_decode_cbor _); try done. exfalso. apply H.
  - by apply Decoder_new_wf.
  - unfold left_of, zlength. simpl. lia.
Qed.
Lemma plutus_data_decode_total_witness :
  PlutusData_decode_cbor (Decoder_new [159; 1; 255]) <> OutOfFuel.
Proof.
  apply plutus_data_decode_total; [|by vm_compute].
  repeat (constructor; [unfold u8, U8_MAX; lia|]). constructor.
Defined.

(** A declared length reaches the allocator before any element is read: an
    array header that announces more elements than the address space can hold
    makes the decoder panic, whatever follows it. *)
Theorem plutus_data_length_panics n suf :
  u64 n -> ISIZE_MAX < SIZE_OF_PLUTUS_DATA * n ->
  zlength (Encoder_array n ++ suf) <= ISIZE_MAX ->
  PlutusData_decode_cbor (Decoder_new (Encoder_array n ++ suf)) = Panic.
Proof.
  intros Hn Hbig Hlen. change (Decoder_new ?l) with (at_ [] l).
  assert (Hmaj : first_major (Encoder_array n) = Some 4)
    by (apply first_major_write; [by unfold MAJOR_ARRAY|apply Hn]).
  assert (Hseq : decode_seq Kind_List MAX_DECODE_DEPTH [] (at_ [] (Encoder_array n ++ suf)) = Panic).
  { unfold decode_seq. cbv [dbind dlift check_depth]. change (MAX_DECODE_DEPTH <=? zlength []) with false. cbn [obind fst snd].
    rewrite (decodes_array_begin n Hn [] suf) by done. cbn [obind fst snd]. unfold open_container.
    rewrite bool_decide_eq_false_2; [|intros [= ->]; unfold ISIZE_MAX in Hbig; lia].
    unfold dbind, dlift, vec_reserve. by rewrite (proj2 (Z.ltb_lt _ _)) by done. }
  unfold PlutusData_decode_cbor, decode_with_depth. cbn [decode_fuel loopM decode_body].
  unfold decode_item at 1. unfold dbind at 1. unfold dget. rewrite (peek_major_at _ _ Hmaj).
  cbn [obind fst snd]. change (4 =? 0) with false. change (4 =? 1) with false.
  change (4 =? 2) with false. change (4 =? 4) with true. cbv iota. by rewrite Hseq.
Qed.
Lemma plutus_data_length_panics_witness :
  PlutusData_decode_cbor (Decoder_new (Encoder_array U64_MAX ++ [])) = Panic.
Proof.
  apply plutus_data_length_panics; [unfold u64, U64_MAX; lia|by vm_compute..|].
  vm_compute. discriminate.
Defined.
