(* ===== verification/Uplc.v ===== *)
(** * The untyped Plutus language

    Model of [crates/plutus/src/types] and [crates/plutus/src/error.rs]: the
    builtin functions with their wire tags and arities, types, constants,
    terms and programs, the runtime values and environments of the evaluator,
    budgets, and the machine's errors.

    Texts of errors that interpolate values keep only their fixed part. The
    elements of the BLS12-381 groups and the hash and signature primitives
    come from third-party libraries: they are the fields of the class
    [PlutusCrypto]. *)

From S2P Require Import Prelude Cbor PlutusData.
Local Open Scope string_scope.
Local Open Scope Z_scope.

(** ** Builtin functions *)

Inductive DefaultFun :=
  | AddInteger | SubtractInteger | MultiplyInteger | DivideInteger | QuotientInteger
  | RemainderInteger | ModInteger | EqualsInteger | LessThanInteger | LessThanEqualsInteger
  | AppendByteString | ConsByteString | SliceByteString | LengthOfByteString | IndexByteString
  | EqualsByteString | LessThanByteString | LessThanEqualsByteString | Sha2_256 | Sha3_256
  | Blake2b_256 | VerifyEd25519Signature | AppendString | EqualsString | EncodeUtf8 | DecodeUtf8
  | IfThenElse | ChooseUnit | Trace | FstPair | SndPair | ChooseList | MkCons | HeadList
  | TailList | NullList | ChooseData | ConstrData | MapData | ListData | IData | BData
  | UnConstrData | UnMapData | UnListData | UnIData | UnBData | EqualsData | MkPairData
  | MkNilData | MkNilPairData | SerialiseData | VerifyEcdsaSecp256k1Signature
  | VerifySchnorrSecp256k1Signature | Bls12_381_G1_Add | Bls12_381_G1_Neg
  | Bls12_381_G1_ScalarMul | Bls12_381_G1_Equal | Bls12_381_G1_HashToGroup
  | Bls12_381_G1_Compress | Bls12_381_G1_Uncompress | Bls12_381_G2_Add | Bls12_381_G2_Neg
  | Bls12_381_G2_ScalarMul | Bls12_381_G2_Equal | Bls12_381_G2_HashToGroup
  | Bls12_381_G2_Compress | Bls12_381_G2_Uncompress | Bls12_381_MillerLoop
  | Bls12_381_MulMlResult | Bls12_381_FinalVerify | Keccak_256 | Blake2b_224
  | IntegerToByteString | ByteStringToInteger | AndByteString | OrByteString | XorByteString
  | ComplementByteString | ReadBit | WriteBits | ReplicateByte | ShiftByteString
  | RotateByteString | CountSetBits | FindFirstSetBit | Ripemd_160 | ExpModInteger.

#[export] Instance DefaultFun_eq_dec : EqDecision DefaultFun.
Proof. solve_decision. Defined.

(** ** Errors *)

Inductive MachineError :=
  | OutOfBudget
  | TypeMismatch (expected actual : string)
  | BuiltinError (builtin message : string)
  | UnboundVariable (index : Z)
  | NonFunctionApplication
  | NonPolymorphicForce
  | BuiltinTermArgumentExpected (expected received : string)
  | EvaluationFailure
  | UnimplementedBuiltin (name : string)
  | DivisionByZero
  | IntegerOverflow
  | IndexOutOfBounds (index length : Z)
  | EmptyList
  | InvalidUtf8
  | UnexpectedConstructorTag (tag branches : Z)
  | NonConstrScrutinized
  | FlatDecodeError (message : string)
  | CryptoError (message : string)
  | MissingBuiltinCost (fun_ : DefaultFun).

Definition is_operational (e : MachineError) : bool :=
  match e with
  | TypeMismatch _ _ | BuiltinError _ _ | DivisionByZero | IntegerOverflow
  | IndexOutOfBounds _ _ | EmptyList | InvalidUtf8 | CryptoError _ | NonConstrScrutinized
  | NonFunctionApplication | NonPolymorphicForce | BuiltinTermArgumentExpected _ _
  | UnexpectedConstructorTag _ _ | EvaluationFailure => true
  | _ => false
  end.

Definition into_ledger_error (e : MachineError) : MachineError :=
  if is_operational e then EvaluationFailure else e.

(** ** Tags and arities *)

(** The discriminant, [self as u8]. *)
Definition DefaultFun_tag (f : DefaultFun) : Z :=
  match f with
  | AddInteger => 0
  | SubtractInteger => 1
  | MultiplyInteger => 2
  | DivideInteger => 3
  | QuotientInteger => 4
  | RemainderInteger => 5
  | ModInteger => 6
  | EqualsInteger => 7
  | LessThanInteger => 8
  | LessThanEqualsInteger => 9
  | AppendByteString => 10
  | ConsByteString => 11
  | SliceByteString => 12
  | LengthOfByteString => 13
  | IndexByteString => 14
  | EqualsByteString => 15
  | LessThanByteString => 16
  | LessThanEqualsByteString => 17
  | Sha2_256 => 18
  | Sha3_256 => 19
  | Blake2b_256 => 20
  | VerifyEd25519Signature => 21
  | AppendString => 22
  | EqualsString => 23
  | EncodeUtf8 => 24
  | DecodeUtf8 => 25
  | IfThenElse => 26
  | ChooseUnit => 27
  | Trace => 28
  | FstPair => 29
  | SndPair => 30
  | ChooseList => 31
  | MkCons => 32
  | HeadList => 33
  | TailList => 34
  | NullList => 35
  | ChooseData => 36
  | ConstrData => 37
  | MapData => 38
  | ListData => 39
  | IData => 40
  | BData => 41
  | UnConstrData => 42
  | UnMapData => 43
  | UnListData => 44
  | UnIData => 45
  | UnBData => 46
  | EqualsData => 47
  | MkPairData => 48
  | MkNilData => 49
  | MkNilPairData => 50
  | SerialiseData => 51
  | VerifyEcdsaSecp256k1Signature => 52
  | VerifySchnorrSecp256k1Signature => 53
  | Bls12_381_G1_Add => 54
  | Bls12_381_G1_Neg => 55
  | Bls12_381_G1_ScalarMul => 56
  | Bls12_381_G1_Equal => 57
  | Bls12_381_G1_HashToGroup => 58
  | Bls12_381_G1_Compress => 59
  | Bls12_381_G1_Uncompress => 60
  | Bls12_381_G2_Add => 61
  | Bls12_381_G2_Neg => 62
  | Bls12_381_G2_ScalarMul => 63
  | Bls12_381_G2_Equal => 64
  | Bls12_381_G2_HashToGroup => 65
  | Bls12_381_G2_Compress => 66
  | Bls12_381_G2_Uncompress => 67
  | Bls12_381_MillerLoop => 68
  | Bls12_381_MulMlResult => 69
  | Bls12_381_FinalVerify => 70
  | Keccak_256 => 71
  | Blake2b_224 => 72
  | IntegerToByteString => 73
  | ByteStringToInteger => 74
  | AndByteString => 75
  | OrByteString => 76
  | XorByteString => 77
  | ComplementByteString => 78
  | ReadBit => 79
  | WriteBits => 80
  | ReplicateByte => 81
  | ShiftByteString => 82
  | RotateByteString => 83
  | CountSetBits => 84
  | FindFirstSetBit => 85
  | Ripemd_160 => 86
  | ExpModInteger => 87
  end.

Definition from_tag (tag : Z) : outcome MachineError DefaultFun :=
  match tag with
  | 0 => Ok AddInteger
  | 1 => Ok SubtractInteger
  | 2 => Ok MultiplyInteger
  | 3 => Ok DivideInteger
  | 4 => Ok QuotientInteger
  | 5 => Ok RemainderInteger
  | 6 => Ok ModInteger
  | 7 => Ok EqualsInteger
  | 8 => Ok LessThanInteger
  | 9 => Ok LessThanEqualsInteger
  | 10 => Ok AppendByteString
  | 11 => Ok ConsByteString
  | 12 => Ok SliceByteString
  | 13 => Ok LengthOfByteString
  | 14 => Ok IndexByteString
  | 15 => Ok EqualsByteString
  | 16 => Ok LessThanByteString
  | 17 => Ok LessThanEqualsByteString
  | 18 => Ok Sha2_256
  | 19 => Ok Sha3_256
  | 20 => Ok Blake2b_256
  | 21 => Ok VerifyEd25519Signature
  | 22 => Ok AppendString
  | 23 => Ok EqualsString
  | 24 => Ok EncodeUtf8
  | 25 => Ok DecodeUtf8
  | 26 => Ok IfThenElse
  | 27 => Ok ChooseUnit
  | 28 => Ok Trace
  | 29 => Ok FstPair
  | 30 => Ok SndPair
  | 31 => Ok ChooseList
  | 32 => Ok MkCons
  | 33 => Ok HeadList
  | 34 => Ok TailList
  | 35 => Ok NullList
  | 36 => Ok ChooseData
  | 37 => Ok ConstrData
  | 38 => Ok MapData
  | 39 => Ok ListData
  | 40 => Ok IData
  | 41 => Ok BData
  | 42 => Ok UnConstrData
  | 43 => Ok UnMapData
  | 44 => Ok UnListData
  | 45 => Ok UnIData
  | 46 => Ok UnBData
  | 47 => Ok EqualsData
  | 48 => Ok MkPairData
  | 49 => Ok MkNilData
  | 50 => Ok MkNilPairData
  | 51 => Ok SerialiseData
  | 52 => Ok VerifyEcdsaSecp256k1Signature
  | 53 => Ok VerifySchnorrSecp256k1Signature
  | 54 => Ok Bls12_381_G1_Add
  | 55 => Ok Bls12_381_G1_Neg
  | 56 => Ok Bls12_381_G1_ScalarMul
  | 57 => Ok Bls12_381_G1_Equal
  | 58 => Ok Bls12_381_G1_HashToGroup
  | 59 => Ok Bls12_381_G1_Compress
  | 60 => Ok Bls12_381_G1_Uncompress
  | 61 => Ok Bls12_381_G2_Add
  | 62 => Ok Bls12_381_G2_Neg
  | 63 => Ok Bls12_381_G2_ScalarMul
  | 64 => Ok Bls12_381_G2_Equal
  | 65 => Ok Bls12_381_G2_HashToGroup
  | 66 => Ok Bls12_381_G2_Compress
  | 67 => Ok Bls12_381_G2_Uncompress
  | 68 => Ok Bls12_381_MillerLoop
  | 69 => Ok Bls12_381_MulMlResult
  | 70 => Ok Bls12_381_FinalVerify
  | 71 => Ok Keccak_256
  | 72 => Ok Blake2b_224
  | 73 => Ok IntegerToByteString
  | 74 => Ok ByteStringToInteger
  | 75 => Ok AndByteString
  | 76 => Ok OrByteString
  | 77 => Ok XorByteString
  | 78 => Ok ComplementByteString
  | 79 => Ok ReadBit
  | 80 => Ok WriteBits
  | 81 => Ok ReplicateByte
  | 82 => Ok ShiftByteString
  | 83 => Ok RotateByteString
  | 84 => Ok CountSetBits
  | 85 => Ok FindFirstSetBit
  | 86 => Ok Ripemd_160
  | 87 => Ok ExpModInteger
  | _ => Err (FlatDecodeError "unknown builtin tag")
  end.

Definition DefaultFun_all : list DefaultFun :=
  [AddInteger; SubtractInteger; MultiplyInteger; DivideInteger; QuotientInteger;
   RemainderInteger; ModInteger; EqualsInteger; LessThanInteger; LessThanEqualsInteger;
   AppendByteString; ConsByteString; SliceByteString; LengthOfByteString; IndexByteString;
   EqualsByteString; LessThanByteString; LessThanEqualsByteString; Sha2_256; Sha3_256;
   Blake2b_256; VerifyEd25519Signature; AppendString; EqualsString; EncodeUtf8; DecodeUtf8;
   IfThenElse; ChooseUnit; Trace; FstPair; SndPair; ChooseList; MkCons; HeadList; TailList;
   NullList; ChooseData; ConstrData; MapData; ListData; IData; BData; UnConstrData; UnMapData;
   UnListData; UnIData; UnBData; EqualsData; MkPairData; MkNilData; MkNilPairData; SerialiseData;
   VerifyEcdsaSecp256k1Signature; VerifySchnorrSecp256k1Signature; Bls12_381_G1_Add;
   Bls12_381_G1_Neg; Bls12_381_G1_ScalarMul; Bls12_381_G1_Equal; Bls12_381_G1_HashToGroup;
   Bls12_381_G1_Compress; Bls12_381_G1_Uncompress; Bls12_381_G2_Add; Bls12_381_G2_Neg;
   Bls12_381_G2_ScalarMul; Bls12_381_G2_Equal; Bls12_381_G2_HashToGroup; Bls12_381_G2_Compress;
   Bls12_381_G2_Uncompress; Bls12_381_MillerLoop; Bls12_381_MulMlResult; Bls12_381_FinalVerify;
   Keccak_256; Blake2b_224; IntegerToByteString; ByteStringToInteger; AndByteString;
   OrByteString; XorByteString; ComplementByteString; ReadBit; WriteBits; ReplicateByte;
   ShiftByteString; RotateByteString; CountSetBits; FindFirstSetBit; Ripemd_160; ExpModInteger].

(** [(type_forces, value_args)] *)
Definition arity (f : DefaultFun) : nat * nat :=
  match f with
  | AddInteger | SubtractInteger | MultiplyInteger | DivideInteger | QuotientInteger
  | RemainderInteger | ModInteger => (0%nat, 2%nat)
  | EqualsInteger | LessThanInteger | LessThanEqualsInteger => (0%nat, 2%nat)
  | AppendByteString => (0%nat, 2%nat)
  | ConsByteString => (0%nat, 2%nat)
  | SliceByteString => (0%nat, 3%nat)
  | LengthOfByteString => (0%nat, 1%nat)
  | IndexByteString => (0%nat, 2%nat)
  | EqualsByteString | LessThanByteString | LessThanEqualsByteString => (0%nat, 2%nat)
  | Sha2_256 | Sha3_256 | Blake2b_256 => (0%nat, 1%nat)
  | VerifyEd25519Signature => (0%nat, 3%nat)
  | AppendString => (0%nat, 2%nat)
  | EqualsString => (0%nat, 2%nat)
  | EncodeUtf8 | DecodeUtf8 => (0%nat, 1%nat)
  | IfThenElse => (1%nat, 3%nat)
  | ChooseUnit => (1%nat, 2%nat)
  | Trace => (1%nat, 2%nat)
  | FstPair | SndPair => (2%nat, 1%nat)
  | ChooseList => (2%nat, 3%nat)
  | MkCons => (1%nat, 2%nat)
  | HeadList | TailList | NullList => (1%nat, 1%nat)
  | ChooseData => (1%nat, 6%nat)
  | ConstrData | MkPairData => (0%nat, 2%nat)
  | MapData | ListData | IData | BData => (0%nat, 1%nat)
  | UnConstrData | UnMapData | UnListData | UnIData | UnBData => (0%nat, 1%nat)
  | EqualsData => (0%nat, 2%nat)
  | MkNilData | MkNilPairData => (0%nat, 1%nat)
  | SerialiseData => (0%nat, 1%nat)
  | VerifyEcdsaSecp256k1Signature | VerifySchnorrSecp256k1Signature => (0%nat, 3%nat)
  | Bls12_381_G1_Add | Bls12_381_G1_ScalarMul | Bls12_381_G1_Equal => (0%nat, 2%nat)
  | Bls12_381_G1_Neg | Bls12_381_G1_Compress | Bls12_381_G1_Uncompress => (0%nat, 1%nat)
  | Bls12_381_G1_HashToGroup => (0%nat, 2%nat)
  | Bls12_381_G2_Add | Bls12_381_G2_ScalarMul | Bls12_381_G2_Equal => (0%nat, 2%nat)
  | Bls12_381_G2_Neg | Bls12_381_G2_Compress | Bls12_381_G2_Uncompress => (0%nat, 1%nat)
  | Bls12_381_G2_HashToGroup => (0%nat, 2%nat)
  | Bls12_381_MillerLoop | Bls12_381_MulMlResult | Bls12_381_FinalVerify => (0%nat, 2%nat)
  | Keccak_256 | Blake2b_224 | Ripemd_160 => (0%nat, 1%nat)
  | IntegerToByteString => (0%nat, 3%nat)
  | ByteStringToInteger => (0%nat, 2%nat)
  | AndByteString | OrByteString | XorByteString => (0%nat, 3%nat)
  | ComplementByteString | CountSetBits | FindFirstSetBit => (0%nat, 1%nat)
  | ReadBit => (0%nat, 2%nat)
  | WriteBits => (0%nat, 3%nat)
  | ReplicateByte | ShiftByteString | RotateByteString => (0%nat, 2%nat)
  | ExpModInteger => (0%nat, 3%nat)
  end.

Definition DefaultFun_name (f : DefaultFun) : string :=
  match f with
  | AddInteger => "addInteger"
  | SubtractInteger => "subtractInteger"
  | MultiplyInteger => "multiplyInteger"
  | DivideInteger => "divideInteger"
  | QuotientInteger => "quotientInteger"
  | RemainderInteger => "remainderInteger"
  | ModInteger => "modInteger"
  | EqualsInteger => "equalsInteger"
  | LessThanInteger => "lessThanInteger"
  | LessThanEqualsInteger => "lessThanEqualsInteger"
  | AppendByteString => "appendByteString"
  | ConsByteString => "consByteString"
  | SliceByteString => "sliceByteString"
  | LengthOfByteString => "lengthOfByteString"
  | IndexByteString => "indexByteString"
  | EqualsByteString => "equalsByteString"
  | LessThanByteString => "lessThanByteString"
  | LessThanEqualsByteString => "lessThanEqualsByteString"
  | Sha2_256 => "sha2_256"
  | Sha3_256 => "sha3_256"
  | Blake2b_256 => "blake2b_256"
  | VerifyEd25519Signature => "verifyEd25519Signature"
  | AppendString => "appendString"
  | EqualsString => "equalsString"
  | EncodeUtf8 => "encodeUtf8"
  | DecodeUtf8 => "decodeUtf8"
  | IfThenElse => "ifThenElse"
  | ChooseUnit => "chooseUnit"
  | Trace => "trace"
  | FstPair => "fstPair"
  | SndPair => "sndPair"
  | ChooseList => "chooseList"
  | MkCons => "mkCons"
  | HeadList => "headList"
  | TailList => "tailList"
  | NullList => "nullList"
  | ChooseData => "chooseData"
  | ConstrData => "constrData"
  | MapData => "mapData"
  | ListData => "listData"
  | IData => "iData"
  | BData => "bData"
  | UnConstrData => "unConstrData"
  | UnMapData => "unMapData"
  | UnListData => "unListData"
  | UnIData => "unIData"
  | UnBData => "unBData"
  | EqualsData => "equalsData"
  | MkPairData => "mkPairData"
  | MkNilData => "mkNilData"
  | MkNilPairData => "mkNilPairData"
  | SerialiseData => "serialiseData"
  | VerifyEcdsaSecp256k1Signature => "verifyEcdsaSecp256k1Signature"
  | VerifySchnorrSecp256k1Signature => "verifySchnorrSecp256k1Signature"
  | Bls12_381_G1_Add => "bls12_381_G1_add"
  | Bls12_381_G1_Neg => "bls12_381_G1_neg"
  | Bls12_381_G1_ScalarMul => "bls12_381_G1_scalarMul"
  | Bls12_381_G1_Equal => "bls12_381_G1_equal"
  | Bls12_381_G1_HashToGroup => "bls12_381_G1_hashToGroup"
  | Bls12_381_G1_Compress => "bls12_381_G1_compress"
  | Bls12_381_G1_Uncompress => "bls12_381_G1_uncompress"
  | Bls12_381_G2_Add => "bls12_381_G2_add"
  | Bls12_381_G2_Neg => "bls12_381_G2_neg"
  | Bls12_381_G2_ScalarMul => "bls12_381_G2_scalarMul"
  | Bls12_381_G2_Equal => "bls12_381_G2_equal"
  | Bls12_381_G2_HashToGroup => "bls12_381_G2_hashToGroup"
  | Bls12_381_G2_Compress => "bls12_381_G2_compress"
  | Bls12_381_G2_Uncompress => "bls12_381_G2_uncompress"
  | Bls12_381_MillerLoop => "bls12_381_millerLoop"
  | Bls12_381_MulMlResult => "bls12_381_mulMlResult"
  | Bls12_381_FinalVerify => "bls12_381_finalVerify"
  | Keccak_256 => "keccak_256"
  | Blake2b_224 => "blake2b_224"
  | IntegerToByteString => "integerToByteString"
  | ByteStringToInteger => "byteStringToInteger"
  | AndByteString => "andByteString"
  | OrByteString => "orByteString"
  | XorByteString => "xorByteString"
  | ComplementByteString => "complementByteString"
  | ReadBit => "readBit"
  | WriteBits => "writeBits"
  | ReplicateByte => "replicateByte"
  | ShiftByteString => "shiftByteString"
  | RotateByteString => "rotateByteString"
  | CountSetBits => "countSetBits"
  | FindFirstSetBit => "findFirstSetBit"
  | Ripemd_160 => "ripemd_160"
  | ExpModInteger => "expModInteger"
  end.

#[export] Instance DefaultFun_countable : Countable DefaultFun.
Proof.
  refine (inj_countable (fun f => Z.to_N (DefaultFun_tag f))
    (fun n => match from_tag (Z.of_N n) with Ok f => Some f | _ => None end) _).
  by intros [].
Defined.

(** ** Budgets *)

Record ExBudget := mkExBudget { cpu : Z; mem : Z }.

#[export] Instance ExBudget_eq_dec : EqDecision ExBudget.
Proof. solve_decision. Defined.

Definition is_within_limit (b : ExBudget) : bool := (0 <=? cpu b) && (0 <=? mem b).

(** [i64::checked_sub] *)
Definition checked_sub_i64 (a b : Z) : option Z :=
  if (I64_MIN <=? a - b) && (a - b <=? I64_MAX) then Some (a - b) else None.

(** Both components are charged before the sign is tested. *)
Definition ExBudget_spend (b cost : ExBudget) : outcome MachineError ExBudget :=
  let? cpu_after := ok_or (checked_sub_i64 (cpu b) (cpu cost)) OutOfBudget in
  let? mem_after := ok_or (checked_sub_i64 (mem b) (mem cost)) OutOfBudget in
  if (cpu_after <? 0) || (mem_after <? 0) then Err OutOfBudget
  else Ok (mkExBudget cpu_after mem_after).

(** ** Types, constants, terms *)

Inductive Ty :=
  | Ty_Integer | Ty_ByteString | Ty_String | Ty_Unit | Ty_Bool
  | Ty_List (elem : Ty)
  | Ty_Pair (fst snd : Ty)
  | Ty_Data
  | Ty_Bls12_381_G1_Element | Ty_Bls12_381_G2_Element | Ty_Bls12_381_MlResult.

(** The primitives behind the cryptographic builtins. [inl] is the library's
    error. *)
Class PlutusCrypto := {
  G1Element : Type;
  G2Element : Type;
  MlResult : Type;
  sha2_256_hash : list Z -> list Z;
  sha3_256_hash : list Z -> list Z;
  keccak_256_hash : list Z -> list Z;
  ripemd_160_hash : list Z -> list Z;
  hash_bytes_256 : list Z -> list Z;
  hash_bytes_224 : list Z -> list Z;
  ed25519_verify : list Z -> list Z -> list Z -> bool;
  secp256k1_verify_ecdsa : list Z -> list Z -> list Z -> string + bool;
  secp256k1_verify_schnorr : list Z -> list Z -> list Z -> string + bool;
  g1_add : G1Element -> G1Element -> G1Element;
  g1_neg : G1Element -> G1Element;
  g1_scalar_mul : list Z -> bool -> G1Element -> G1Element;
  g1_equal : G1Element -> G1Element -> bool;
  g1_hash_to_group : list Z -> list Z -> string + G1Element;
  g1_compress : G1Element -> list Z;
  g1_uncompress : list Z -> string + G1Element;
  g2_add : G2Element -> G2Element -> G2Element;
  g2_neg : G2Element -> G2Element;
  g2_scalar_mul : list Z -> bool -> G2Element -> G2Element;
  g2_equal : G2Element -> G2Element -> bool;
  g2_hash_to_group : list Z -> list Z -> string + G2Element;
  g2_compress : G2Element -> list Z;
  g2_uncompress : list Z -> string + G2Element;
  miller_loop : G1Element -> G2Element -> MlResult;
  mul_ml_result : MlResult -> MlResult -> MlResult;
  final_verify : MlResult -> MlResult -> bool;
}.

Section terms.
  Context `{PlutusCrypto}.

(** A [String] is its UTF-8 bytes. *)
Inductive Constant :=
  | Constant_Integer (n : Z)
  | Constant_ByteString (bs : list Z)
  | Constant_String (s : list Z)
  | Constant_Unit
  | Constant_Bool (b : bool)
  | Constant_ProtoList (ty : Ty) (items : list Constant)
  | Constant_ProtoPair (ty_a ty_b : Ty) (a b : Constant)
  | Constant_Data (d : PlutusData)
  | Constant_Bls12_381_G1_Element (e : G1Element)
  | Constant_Bls12_381_G2_Element (e : G2Element)
  | Constant_Bls12_381_MlResult (r : MlResult).

(** De Bruijn indices are 1-based, the most recent binder being 1. *)
Inductive Term :=
  | Term_Var (index : Z)
  | Term_LamAbs (body : Term)
  | Term_Apply (fun_ arg : Term)
  | Term_Delay (body : Term)
  | Term_Force (inner : Term)
  | Term_Constant (c : Constant)
  | Term_Builtin (f : DefaultFun)
  | Term_Error
  | Term_Constr (tag : Z) (fields : list Term)
  | Term_Case (scrutinee : Term) (branches : list Term).

Record UplcProgram := mkProgram { major : Z; minor : Z; patch : Z; term : Term }.

(** ** Runtime values *)

Inductive Value :=
  | Value_Constant (c : Constant)
  | Value_Lambda (body : Term) (env : list Value)
  | Value_Delay (body : Term) (env : list Value)
  | Value_BuiltinApp (fun_ : DefaultFun) (forces : nat) (args : list Value)
  | Value_Constr (tag : Z) (fields : list Value).

(** The cons-list [Environment]: the most recent binding first. *)
Definition Environment : Type := list Value.
Definition Environment_new : Environment := [].
Definition Environment_extend (env : Environment) (val : Value) : Environment := val :: env.

Definition Environment_lookup (env : Environment) (index : Z) : outcome MachineError Value :=
  if (index =? 0) || (zlength env <? index) then Err (UnboundVariable index)
  else ok_or (env !! Z.to_nat (index - 1)) (UnboundVariable index).

Definition type_name (v : Value) : string :=
  match v with
  | Value_Constant _ => "constant"
  | Value_Lambda _ _ => "lambda"
  | Value_Delay _ _ => "delay"
  | Value_BuiltinApp _ _ _ => "builtin"
  | Value_Constr _ _ => "constr"
  end.

Definition as_constant (v : Value) : outcome MachineError Constant :=
  match v with
  | Value_Constant c => Ok c
  | other => Err (TypeMismatch "constant" (type_name other))
  end.
End terms.

(** A concrete instance, for evaluating examples: hashes are the identity,
    group elements are trivial and every signature verifies. *)
Definition trivial_crypto : PlutusCrypto := {|
  G1Element := unit; G2Element := unit; MlResult := unit;
  sha2_256_hash := id; sha3_256_hash := id; keccak_256_hash := id; ripemd_160_hash := id;
  hash_bytes_256 := id; hash_bytes_224 := id;
  ed25519_verify := fun _ _ _ => true;
  secp256k1_verify_ecdsa := fun _ _ _ => inr true;
  secp256k1_verify_schnorr := fun _ _ _ => inr true;
  g1_add := fun _ _ => tt; g1_neg := fun _ => tt; g1_scalar_mul := fun _ _ _ => tt;
  g1_equal := fun _ _ => true; g1_hash_to_group := fun _ _ => inr tt;
  g1_compress := fun _ => []; g1_uncompress := fun _ => inr tt;
  g2_add := fun _ _ => tt; g2_neg := fun _ => tt; g2_scalar_mul := fun _ _ _ => tt;
  g2_equal := fun _ _ => true; g2_hash_to_group := fun _ _ => inr tt;
  g2_compress := fun _ => []; g2_uncompress := fun _ => inr tt;
  miller_loop := fun _ _ => tt; mul_ml_result := fun _ _ => tt;
  final_verify := fun _ _ => true |}.

(** ** The tags are a bijection *)

Lemma DefaultFun_all_complete f : f ∈ DefaultFun_all.
Proof. destruct f; unfold DefaultFun_all; repeat constructor. Qed.

(** Wire tags and functions correspond one to one: a tag decodes to the
    function with that tag, every function is in the table at its tag, and
    the tags without a function are exactly those from 88 on. *)
Theorem builtin_tags_bijective f tag :
  (from_tag tag = Ok f <-> tag = DefaultFun_tag f)
  /\ DefaultFun_all !! Z.to_nat (DefaultFun_tag f) = Some f
  /\ ((exists g, from_tag tag = Ok g) <-> 0 <= tag < zlength DefaultFun_all).
Proof.
  assert (Hback : from_tag (DefaultFun_tag f) = Ok f) by (by destruct f).
  assert (Hfwd : forall g, from_tag tag = Ok g -> tag = DefaultFun_tag g).
  { intros g Hg. unfold from_tag in Hg. repeat case_match; inv_ok; try done; by injection Hg as <-. }
  split_and!.
  - split; [apply Hfwd|by intros ->].
  - by destruct f.
  - change (zlength DefaultFun_all) with 88. split.
    + intros [g Hg]. rewrite (Hfwd g Hg). destruct g; simpl; lia.
    + intros Hr. assert (Hin : exists g, tag = DefaultFun_tag g).
      { assert (Hl : (Z.to_nat tag < length DefaultFun_all)%nat) by (simpl; lia).
        apply lookup_lt_is_Some in Hl as [g Hg]. exists g.
        assert (Hall : forallb (fun i => match DefaultFun_all !! i with
                   | Some g => DefaultFun_tag g =? Z.of_nat i | None => false end)
                   (seq 0 88) = true) by (by vm_compute).
        rewrite forallb_forall in Hall. specialize (Hall (Z.to_nat tag)).
        rewrite Hg in Hall. rewrite in_seq in Hall. specialize (Hall ltac:(lia)).
        apply Z.eqb_eq in Hall. lia. }
      destruct Hin as [g ->]. exists g. by destruct g.
Qed.
