(* ===== verification/CostModel.v ===== *)
(** * The cost model of the Plutus evaluator

    Model of [crates/plutus/src/cost_model.rs] and its submodules: the sizes
    of arguments, the costing functions with their saturating arithmetic, the
    step costs, and the construction of a cost model from a map of named
    parameters; and of the part of [crates/node/genesis/src/lib.rs] that turns
    the ordered protocol-parameter arrays into such maps. *)

From S2P Require Import Prelude Cbor PlutusData Uplc.
Local Open Scope string_scope.
Local Open Scope Z_scope.

(** ** Saturating [i64] arithmetic *)

Definition clamp_i64 (z : Z) : Z := Z.max I64_MIN (Z.min z I64_MAX).
Definition sat_add_i64 (a b : Z) : Z := clamp_i64 (a + b).
Definition sat_mul_i64 (a b : Z) : Z := clamp_i64 (a * b).
(** [+] on [i64], which wraps in the release profile. *)
Definition wrap_i64 (z : Z) : Z := (z + 2 ^ 63) mod 2 ^ 64 - 2 ^ 63.
Definition add_i64 (a b : Z) : Z := wrap_i64 (a + b).

(** ** Step kinds and their costs *)

Inductive StepKind :=
  | Step_Constant | Step_Var | Step_LamAbs | Step_Apply | Step_Delay | Step_Force
  | Step_Builtin | Step_Constr | Step_Case.

#[export] Instance StepKind_eq_dec : EqDecision StepKind.
Proof. solve_decision. Defined.

Definition StepKind_COUNT : nat := 9.
Definition StepKind_ALL : list StepKind :=
  [Step_Constant; Step_Var; Step_LamAbs; Step_Apply; Step_Delay; Step_Force;
   Step_Builtin; Step_Constr; Step_Case].
Definition StepKind_index (k : StepKind) : nat :=
  match k with
  | Step_Constant => 0 | Step_Var => 1 | Step_LamAbs => 2 | Step_Apply => 3
  | Step_Delay => 4 | Step_Force => 5 | Step_Builtin => 6 | Step_Constr => 7
  | Step_Case => 8
  end.

Record StepCosts := mkStepCosts {
  var_cpu : Z; var_mem : Z;
  constant_cpu : Z; constant_mem : Z;
  lam_cpu : Z; lam_mem : Z;
  apply_cpu : Z; apply_mem : Z;
  delay_cpu : Z; delay_mem : Z;
  force_cpu : Z; force_mem : Z;
  builtin_cpu : Z; builtin_mem : Z;
  constr_cpu : Z; constr_mem : Z;
  case_cpu : Z; case_mem : Z }.

Definition StepCosts_default : StepCosts :=
  mkStepCosts 100 100 100 100 100 100 100 100 100 100 100 100 100 100 100 100 100 100.

Definition StepCosts_cost (s : StepCosts) (kind : StepKind) : ExBudget :=
  match kind with
  | Step_Var => mkExBudget (var_cpu s) (var_mem s)
  | Step_Constant => mkExBudget (constant_cpu s) (constant_mem s)
  | Step_LamAbs => mkExBudget (lam_cpu s) (lam_mem s)
  | Step_Apply => mkExBudget (apply_cpu s) (apply_mem s)
  | Step_Delay => mkExBudget (delay_cpu s) (delay_mem s)
  | Step_Force => mkExBudget (force_cpu s) (force_mem s)
  | Step_Builtin => mkExBudget (builtin_cpu s) (builtin_mem s)
  | Step_Constr => mkExBudget (constr_cpu s) (constr_mem s)
  | Step_Case => mkExBudget (case_cpu s) (case_mem s)
  end.

(** ** Argument sizes *)

(** [BigInt::bits]: the bits of the magnitude. *)
Definition BigInt_bits (n : Z) : Z := if n =? 0 then 0 else Z.log2 (Z.abs n) + 1.

Definition integer_ex_memory (n : Z) : Z :=
  if n =? 0 then 1
  else
    let words := sat_add (BigInt_bits n) 63 / 64 in
    if words <=? I64_MAX then words else I64_MAX.

Definition bytestring_ex_memory (len : Z) : Z := sat_sub len 1 / 8 + 1.

Fixpoint data_ex_memory (d : PlutusData) : Z :=
  match d with
  | Data_Constr _ fields => add_i64 4 (foldl add_i64 0 (map data_ex_memory fields))
  | Data_Map pairs =>
      add_i64 4 (foldl add_i64 0
        (map (fun p => add_i64 (data_ex_memory p.1) (data_ex_memory p.2)) pairs))
  | Data_List items => add_i64 4 (foldl add_i64 0 (map data_ex_memory items))
  | Data_Integer n => add_i64 4 (integer_ex_memory n)
  | Data_Bytes bs => add_i64 4 (bytestring_ex_memory (zlength bs))
  end.

(** [s.chars().count()]: the bytes that start a character. *)
Definition char_count (s : list Z) : Z :=
  zlength (List.filter (fun b => negb (utf8_tail b)) s).

Section sizes.
  Context `{PlutusCrypto}.

Definition constant_ex_memory (c : Constant) : Z :=
  match c with
  | Constant_Integer n => integer_ex_memory n
  | Constant_ByteString bs => bytestring_ex_memory (zlength bs)
  | Constant_String s => char_count s
  | Constant_Unit => 1
  | Constant_Bool _ => 1
  | Constant_ProtoList _ elems => zlength elems
  | Constant_ProtoPair _ _ _ _ => I64_MAX
  | Constant_Data d => data_ex_memory d
  | Constant_Bls12_381_G1_Element _ => 18
  | Constant_Bls12_381_G2_Element _ => 36
  | Constant_Bls12_381_MlResult _ => 72
  end.

Definition ex_memory (value : Value) : Z :=
  match value with
  | Value_Constant c => constant_ex_memory c
  | _ => 1
  end.
End sizes.

(** ** Costing functions *)

Inductive CostExpr :=
  | Cost_Constant (c : Z)
  | Cost_LinearInX (intercept slope : Z)
  | Cost_LinearInY (intercept slope : Z)
  | Cost_LinearInZ (intercept slope : Z)
  | Cost_LinearForm (intercept x y z : Z)
  | Cost_AddedSizes (intercept slope : Z)
  | Cost_MaxSize (intercept slope : Z)
  | Cost_MinSize (intercept slope : Z)
  | Cost_SubtractedSizes (intercept slope minimum : Z)
  | Cost_MaxSizeYZ (intercept slope : Z)
  | Cost_ExpModCost (c00 c11 c12 : Z)
  | Cost_MultipliedSizes (intercept slope : Z)
  | Cost_LinearOnDiagonal (constant intercept slope : Z)
  | Cost_ConstAboveDiagonal (constant : Z) (inner : CostExpr)
  | Cost_TwoVarQuadratic (minimum c00 c10 c01 c20 c11 c02 : Z)
  | Cost_QuadraticInY (c0 c1 c2 : Z)
  | Cost_QuadraticInZ (c0 c1 c2 : Z)
  | Cost_LiteralInYOrLinearInZ (intercept slope : Z).

(** A missing size counts as 1, a negative one as 0. *)
Definition size_at (sizes : list Z) (idx : nat) : Z := Z.max (default 1 (sizes !! idx)) 0.

Local Notation "a +! b" := (sat_add_i64 a b) (at level 50, left associativity).
Local Notation "a *! b" := (sat_mul_i64 a b) (at level 40, left associativity).

Fixpoint CostExpr_evaluate (e : CostExpr) (sizes : list Z) : Z :=
  let sz := size_at sizes in
  let raw :=
    match e with
    | Cost_Constant c => c
    | Cost_LinearInX intercept slope => intercept +! slope *! sz 0%nat
    | Cost_LinearInY intercept slope => intercept +! slope *! sz 1%nat
    | Cost_LinearInZ intercept slope => intercept +! slope *! sz 2%nat
    | Cost_LinearForm intercept x y z =>
        intercept +! x *! sz 0%nat +! y *! sz 1%nat +! z *! sz 2%nat
    | Cost_AddedSizes intercept slope => intercept +! slope *! (sz 0%nat +! sz 1%nat)
    | Cost_MaxSize intercept slope => intercept +! slope *! Z.max (sz 0%nat) (sz 1%nat)
    | Cost_MinSize intercept slope => intercept +! slope *! Z.min (sz 0%nat) (sz 1%nat)
    | Cost_SubtractedSizes intercept slope minimum =>
        Z.max minimum (intercept +! slope *! Z.max (sz 0%nat - sz 1%nat) 0)
    | Cost_MaxSizeYZ intercept slope => intercept +! slope *! Z.max (sz 1%nat) (sz 2%nat)
    | Cost_ExpModCost c00 c11 c12 =>
        let aa := sz 0%nat in
        let ee := sz 1%nat in
        let mm := sz 2%nat in
        let em := ee *! mm in
        let cost0 := c00 +! c11 *! em +! c12 *! (em *! mm) in
        if mm <? aa then cost0 +! Z.quot cost0 2 else cost0
    | Cost_MultipliedSizes intercept slope => intercept +! slope *! (sz 0%nat *! sz 1%nat)
    | Cost_LinearOnDiagonal constant intercept slope =>
        if sz 0%nat =? sz 1%nat then intercept +! slope *! sz 0%nat else constant
    | Cost_ConstAboveDiagonal constant inner =>
        if sz 0%nat <? sz 1%nat then constant else CostExpr_evaluate inner sizes
    | Cost_TwoVarQuadratic minimum c00 c10 c01 c20 c11 c02 =>
        let x := sz 0%nat in
        let y := sz 1%nat in
        let val := c00 +! c10 *! x +! c01 *! y +! c20 *! (x *! x)
                   +! c11 *! (x *! y) +! c02 *! (y *! y) in
        Z.max val minimum
    | Cost_QuadraticInY c0 c1 c2 =>
        let y := sz 1%nat in c0 +! c1 *! y +! c2 *! (y *! y)
    | Cost_QuadraticInZ c0 c1 c2 =>
        let z := sz 2%nat in c0 +! c1 *! z +! c2 *! (z *! z)
    | Cost_LiteralInYOrLinearInZ intercept slope =>
        let y := sz 1%nat in
        if y =? 0 then intercept +! slope *! sz 2%nat else y
    end in
  Z.max raw 0.

Record BuiltinCostEntry := mkBuiltinCostEntry { entry_cpu : CostExpr; entry_mem : CostExpr }.

Definition BuiltinCostEntry_constant (cpu mem : Z) : BuiltinCostEntry :=
  mkBuiltinCostEntry (Cost_Constant cpu) (Cost_Constant mem).

Inductive BuiltinSemanticsVariant := Variant_A | Variant_B | Variant_C.

#[export] Instance BuiltinSemanticsVariant_eq_dec : EqDecision BuiltinSemanticsVariant.
Proof. solve_decision. Defined.

Record CostModel := mkCostModel {
  step_costs : StepCosts;
  startup_cost : ExBudget;
  flat_cpu : Z;
  flat_mem : Z;
  builtin_costs : gmap DefaultFun BuiltinCostEntry;
  builtin_semantics_variant : BuiltinSemanticsVariant;
  strict_builtin_costs : bool }.

Definition CostModel_default : CostModel :=
  mkCostModel StepCosts_default (mkExBudget 100 100) 1000 1000 ∅ Variant_B false.

Definition CostModel_step_cost (cm : CostModel) (kind : StepKind) : ExBudget :=
  StepCosts_cost (step_costs cm) kind.

Definition machine_step_cost (cm : CostModel) : ExBudget :=
  let s := step_costs cm in
  mkExBudget
    (foldr Z.max (var_cpu s) [constant_cpu s; lam_cpu s; apply_cpu s; delay_cpu s; force_cpu s;
                              builtin_cpu s; constr_cpu s; case_cpu s])
    (foldr Z.max (var_mem s) [constant_mem s; lam_mem s; apply_mem s; delay_mem s; force_mem s;
                              builtin_mem s; constr_mem s; case_mem s]).

Section builtin_cost.
  Context `{PlutusCrypto}.

Definition BuiltinCostEntry_evaluate (e : BuiltinCostEntry) (args : list Value) : ExBudget :=
  let sizes := map ex_memory args in
  mkExBudget (CostExpr_evaluate (entry_cpu e) sizes) (CostExpr_evaluate (entry_mem e) sizes).

Definition builtin_cost (cm : CostModel) (fun_ : DefaultFun) (args : list Value)
    : outcome MachineError ExBudget :=
  match builtin_costs cm !! fun_ with
  | Some entry => Ok (BuiltinCostEntry_evaluate entry args)
  | None =>
      if strict_builtin_costs cm then Err (MissingBuiltinCost fun_)
      else Ok (mkExBudget (flat_cpu cm) (flat_mem cm))
  end.
End builtin_cost.

(** ** Construction from named parameters *)

Inductive CostModelError :=
  | MissingParameter (name : string)
  | NegativeParameter (name : string) (value : Z).

Definition ParamMap : Type := gmap string Z.

Definition named_value (params : ParamMap) (key : string) : outcome CostModelError Z :=
  let? value := ok_or (params !! key) (MissingParameter key) in
  if value <? 0 then Err (NegativeParameter key value) else Ok value.

Definition CostTable : Type := gmap DefaultFun BuiltinCostEntry.

(** [if let Some(entry) = ... { map.insert(fun, entry); }] *)
Definition insert_some (fun_ : DefaultFun) (entry : option BuiltinCostEntry) (map : CostTable)
    : CostTable :=
  match entry with Some e => <[fun_ := e]> map | None => map end.

(** [for (fun, prefix) in [...] { ... }] *)
Definition for_each {A} (items : list A) (body : A -> CostTable -> CostTable) (map : CostTable)
    : CostTable :=
  fold_left (fun map x => body x map) items map.

(** [build_per_builtin_costs], one definition per paragraph of the source. *)
Section per_builtin.
  Context (get : string -> option Z).
  Context (variant : BuiltinSemanticsVariant).

(** An entry of two two-parameter expressions, from the four keys that most
    builtins have. *)
Definition entry_4 (mk_cpu mk_mem : Z -> Z -> CostExpr) (p : string) : option BuiltinCostEntry :=
  ci ← get (p +:+ "-cpu-arguments-intercept");
  cs ← get (p +:+ "-cpu-arguments-slope");
  mi ← get (p +:+ "-memory-arguments-intercept");
  ms ← get (p +:+ "-memory-arguments-slope");
  Some (mkBuiltinCostEntry (mk_cpu ci cs) (mk_mem mi ms)).

(** A two-parameter CPU expression with a constant memory cost that has a
    default. *)
Definition entry_mem_const (mk_cpu : Z -> Z -> CostExpr) (dflt : Z) (p : string)
    : option BuiltinCostEntry :=
  ci ← get (p +:+ "-cpu-arguments-intercept");
  cs ← get (p +:+ "-cpu-arguments-slope");
  Some (mkBuiltinCostEntry (mk_cpu ci cs)
          (Cost_Constant (default dflt (get (p +:+ "-memory-arguments"))))).

Definition costs_add_sub : CostTable -> CostTable :=
  for_each [(AddInteger, "addInteger"); (SubtractInteger, "subtractInteger")]
    (fun '(f, p) => insert_some f (entry_4 Cost_MaxSize Cost_MaxSize p)).

Definition costs_multiply : CostTable -> CostTable :=
  insert_some MultiplyInteger
    (entry_4 (match variant with
              | Variant_A => Cost_AddedSizes
              | Variant_B | Variant_C => Cost_MultipliedSizes
              end) Cost_AddedSizes "multiplyInteger").

Definition division_cpu (p : string) : option CostExpr :=
  let constant := default 0 (get (p +:+ "-cpu-arguments-constant")) in
  let c k := default 0 (get (p +:+ "-cpu-arguments-model-arguments-" +:+ k)) in
  match get (p +:+ "-cpu-arguments-model-arguments-c00") with
  | Some c00 =>
      Some (Cost_ConstAboveDiagonal constant
              (Cost_TwoVarQuadratic (c "minimum") c00 (c "c10") (c "c01") (c "c20") (c "c11")
                 (c "c02")))
  | None =>
      match get (p +:+ "-cpu-arguments-model-arguments-intercept"),
            get (p +:+ "-cpu-arguments-model-arguments-slope") with
      | Some ci, Some cs => Some (Cost_ConstAboveDiagonal constant (Cost_MultipliedSizes ci cs))
      | _, _ => Cost_Constant <$> get (p +:+ "-cpu-arguments-constant")
      end
  end.

Definition division_mem (f : DefaultFun) (p : string) : option CostExpr :=
  let linear_in_y :=
    bool_decide (f = ModInteger \/ f = RemainderInteger) && bool_decide (variant = Variant_C) in
  match get (p +:+ "-memory-arguments-intercept"), get (p +:+ "-memory-arguments-slope") with
  | Some mi, Some ms =>
      Some (if linear_in_y then Cost_LinearInY mi ms
            else Cost_SubtractedSizes mi ms (default 0 (get (p +:+ "-memory-arguments-minimum"))))
  | _, _ => Cost_Constant <$> get (p +:+ "-memory-arguments-intercept")
  end.

Definition costs_division : CostTable -> CostTable :=
  for_each [(DivideInteger, "divideInteger"); (ModInteger, "modInteger");
            (QuotientInteger, "quotientInteger"); (RemainderInteger, "remainderInteger")]
    (fun '(f, p) => insert_some f
       (cpu ← division_cpu p; mem ← division_mem f p; Some (mkBuiltinCostEntry cpu mem))).

Definition costs_integer_comparison : CostTable -> CostTable :=
  for_each [(EqualsInteger, "equalsInteger"); (LessThanInteger, "lessThanInteger");
            (LessThanEqualsInteger, "lessThanEqualsInteger")]
    (fun '(f, p) => insert_some f
       (let cpu :=
          match get (p +:+ "-cpu-arguments-intercept"), get (p +:+ "-cpu-arguments-slope") with
          | Some ci, Some cs => Some (Cost_MinSize ci cs)
          | _, _ => Cost_Constant <$> get (p +:+ "-cpu-arguments")
          end in
        let mem := Cost_Constant (default 1 (get (p +:+ "-memory-arguments"))) in
        cpu ← cpu; Some (mkBuiltinCostEntry cpu mem))).

Definition costs_append_bytestring : CostTable -> CostTable :=
  insert_some AppendByteString (entry_4 Cost_AddedSizes Cost_AddedSizes "appendByteString").
Definition costs_cons_bytestring : CostTable -> CostTable :=
  insert_some ConsByteString (entry_4 Cost_LinearInY Cost_AddedSizes "consByteString").

(** Linear CPU and memory, the memory parameters having defaults. *)
Definition entry_linear_mem (mk_cpu mk_mem : Z -> Z -> CostExpr) (dmi dms : Z) (p : string)
    : option BuiltinCostEntry :=
  ci ← get (p +:+ "-cpu-arguments-intercept");
  cs ← get (p +:+ "-cpu-arguments-slope");
  Some (mkBuiltinCostEntry (mk_cpu ci cs)
          (mk_mem (default dmi (get (p +:+ "-memory-arguments-intercept")))
                  (default dms (get (p +:+ "-memory-arguments-slope"))))).

Definition costs_slice_bytestring : CostTable -> CostTable :=
  insert_some SliceByteString
    (entry_linear_mem Cost_LinearInZ Cost_LinearInZ 4 0 "sliceByteString").

(** The diagonal model of [equalsByteString] and [equalsString]: the constant
    defaults to the intercept. *)
Definition entry_diagonal (p : string) : option BuiltinCostEntry :=
  ci ← get (p +:+ "-cpu-arguments-intercept");
  cs ← get (p +:+ "-cpu-arguments-slope");
  Some (mkBuiltinCostEntry
          (Cost_LinearOnDiagonal (default ci (get (p +:+ "-cpu-arguments-constant"))) ci cs)
          (Cost_Constant (default 1 (get (p +:+ "-memory-arguments"))))).

Definition costs_equals_bytestring : CostTable -> CostTable :=
  insert_some EqualsByteString (entry_diagonal "equalsByteString").
Definition costs_less_than_bytestring : CostTable -> CostTable :=
  insert_some LessThanByteString (entry_mem_const Cost_MinSize 1 "lessThanByteString").

(** The [<=] comparison falls back to the costs of [<]. *)
Definition costs_less_than_equals_bytestring (map : CostTable) : CostTable :=
  match entry_mem_const Cost_MinSize 1 "lessThanEqualsByteString" with
  | Some e => <[LessThanEqualsByteString := e]> map
  | None => insert_some LessThanEqualsByteString (map !! LessThanByteString) map
  end.

Definition costs_sha : CostTable -> CostTable :=
  for_each [(Sha2_256, "sha2_256"); (Sha3_256, "sha3_256")]
    (fun '(f, p) => insert_some f (entry_mem_const Cost_LinearInX 4 p)).

(** Two spellings of a key: the first one found wins. *)
Definition insert_first (f : DefaultFun) (entry : string -> option BuiltinCostEntry)
    (spellings : list string) : CostTable -> CostTable :=
  for_each spellings (fun p map =>
    match map !! f with Some _ => map | None => insert_some f (entry p) map end).

Definition costs_blake2b : CostTable -> CostTable :=
  insert_first Blake2b_256 (entry_mem_const Cost_LinearInX 4) ["blake2b"; "blake2b_256"].
Definition costs_ed25519 : CostTable -> CostTable :=
  insert_first VerifyEd25519Signature (entry_mem_const Cost_LinearInY 1)
    ["verifyEd25519Signature"; "verifySignature"].

Definition costs_append_string : CostTable -> CostTable :=
  insert_some AppendString (entry_4 Cost_AddedSizes Cost_AddedSizes "appendString").
Definition costs_equals_string : CostTable -> CostTable :=
  insert_some EqualsString (entry_diagonal "equalsString").
Definition costs_utf8 : CostTable -> CostTable :=
  for_each [(EncodeUtf8, "encodeUtf8"); (DecodeUtf8, "decodeUtf8")]
    (fun '(f, p) => insert_some f (entry_linear_mem Cost_LinearInX Cost_LinearInX 0 1 p)).

Definition CONSTANT_BUILTINS : list (string * DefaultFun) :=
  [("ifThenElse", IfThenElse); ("chooseUnit", ChooseUnit); ("trace", Trace);
   ("fstPair", FstPair); ("sndPair", SndPair); ("chooseList", ChooseList);
   ("mkCons", MkCons); ("headList", HeadList); ("tailList", TailList);
   ("nullList", NullList); ("chooseData", ChooseData); ("constrData", ConstrData);
   ("mapData", MapData); ("listData", ListData); ("iData", IData); ("bData", BData);
   ("unConstrData", UnConstrData); ("unMapData", UnMapData); ("unListData", UnListData);
   ("unIData", UnIData); ("unBData", UnBData); ("mkPairData", MkPairData);
   ("mkNilData", MkNilData); ("mkNilPairData", MkNilPairData);
   ("lengthOfByteString", LengthOfByteString); ("indexByteString", IndexByteString)].

(** A constant CPU cost with a constant memory cost that has a default. *)
Definition entry_constant (dflt : Z) (p : string) : option BuiltinCostEntry :=
  c ← get (p +:+ "-cpu-arguments");
  Some (BuiltinCostEntry_constant c (default dflt (get (p +:+ "-memory-arguments")))).

Definition costs_constant : CostTable -> CostTable :=
  for_each CONSTANT_BUILTINS (fun '(p, f) map =>
    match map !! f with Some _ => map | None => insert_some f (entry_constant 1 p) map end).

Definition costs_equals_data : CostTable -> CostTable :=
  insert_some EqualsData (entry_mem_const Cost_MinSize 1 "equalsData").
Definition costs_serialise_data : CostTable -> CostTable :=
  insert_some SerialiseData
    (entry_linear_mem Cost_LinearInX Cost_LinearInX 0 2 "serialiseData").

Definition costs_secp256k1 : CostTable -> CostTable :=
  for_each [(VerifyEcdsaSecp256k1Signature, "verifyEcdsaSecp256k1Signature");
            (VerifySchnorrSecp256k1Signature, "verifySchnorrSecp256k1Signature")]
    (fun '(f, p) => insert_some f
       (match entry_mem_const Cost_LinearInY 10 p with
        | Some e => Some e
        | None => entry_constant 10 p
        end)).

Definition costs_bls_constant : CostTable -> CostTable :=
  for_each [(Bls12_381_G1_Add, "bls12_381_G1_add"); (Bls12_381_G1_Neg, "bls12_381_G1_neg");
            (Bls12_381_G1_Equal, "bls12_381_G1_equal");
            (Bls12_381_G1_Compress, "bls12_381_G1_compress");
            (Bls12_381_G1_Uncompress, "bls12_381_G1_uncompress");
            (Bls12_381_G2_Add, "bls12_381_G2_add"); (Bls12_381_G2_Neg, "bls12_381_G2_neg");
            (Bls12_381_G2_Equal, "bls12_381_G2_equal");
            (Bls12_381_G2_Compress, "bls12_381_G2_compress");
            (Bls12_381_G2_Uncompress, "bls12_381_G2_uncompress");
            (Bls12_381_MillerLoop, "bls12_381_millerLoop");
            (Bls12_381_MulMlResult, "bls12_381_mulMlResult");
            (Bls12_381_FinalVerify, "bls12_381_finalVerify")]
    (fun '(f, p) => insert_some f (entry_constant 6 p)).

Definition costs_bls_scalar_mul : CostTable -> CostTable :=
  for_each [(Bls12_381_G1_ScalarMul, "bls12_381_G1_scalarMul");
            (Bls12_381_G2_ScalarMul, "bls12_381_G2_scalarMul")]
    (fun '(f, p) => insert_some f (entry_mem_const Cost_LinearInX 6 p)).
Definition costs_bls_hash : CostTable -> CostTable :=
  for_each [(Bls12_381_G1_HashToGroup, "bls12_381_G1_hashToGroup");
            (Bls12_381_G2_HashToGroup, "bls12_381_G2_hashToGroup")]
    (fun '(f, p) => insert_some f (entry_mem_const Cost_LinearInX 6 p)).
Definition costs_v3_hashing : CostTable -> CostTable :=
  for_each [(Keccak_256, "keccak_256"); (Blake2b_224, "blake2b_224");
            (Ripemd_160, "ripemd_160")]
    (fun '(f, p) => insert_some f (entry_mem_const Cost_LinearInX 4 p)).

(** Quadratic CPU with linear memory. *)
Definition entry_quadratic (mk_cpu : Z -> Z -> Z -> CostExpr) (mk_mem : Z -> Z -> CostExpr)
    (k0 k1 k2 p : string) : option BuiltinCostEntry :=
  c0 ← get (p +:+ "-cpu-arguments-" +:+ k0);
  c1 ← get (p +:+ "-cpu-arguments-" +:+ k1);
  c2 ← get (p +:+ "-cpu-arguments-" +:+ k2);
  mi ← get (p +:+ "-memory-arguments-intercept");
  ms ← get (p +:+ "-memory-arguments-slope");
  Some (mkBuiltinCostEntry (mk_cpu c0 c1 c2) (mk_mem mi ms)).

Definition costs_integer_to_bytestring : CostTable -> CostTable :=
  insert_some IntegerToByteString
    (entry_quadratic Cost_QuadraticInZ Cost_LiteralInYOrLinearInZ "c0" "c1" "c2"
       "integerToByteString").
Definition costs_bytestring_to_integer : CostTable -> CostTable :=
  insert_some ByteStringToInteger
    (entry_quadratic Cost_QuadraticInY Cost_LinearInY "c0" "c1" "c2" "byteStringToInteger").
Definition costs_exp_mod : CostTable -> CostTable :=
  insert_some ExpModInteger
    (match entry_quadratic Cost_ExpModCost Cost_LinearInZ "coefficient00" "coefficient11"
             "coefficient12" "expModInteger" with
     | Some e => Some e
     | None => entry_constant 1 "expModInteger"
     end).

Definition costs_bitwise_logic : CostTable -> CostTable :=
  for_each [(AndByteString, "andByteString"); (OrByteString, "orByteString");
            (XorByteString, "xorByteString")]
    (fun '(f, p) => insert_some f
       (entry_quadratic (fun ci cs1 cs2 => Cost_LinearForm ci 0 cs1 cs2) Cost_MaxSizeYZ
          "intercept" "slope1" "slope2" p)).
Definition costs_complement : CostTable -> CostTable :=
  insert_some ComplementByteString
    (entry_4 Cost_LinearInX Cost_LinearInX "complementByteString").
Definition costs_read_bit : CostTable -> CostTable :=
  insert_some ReadBit
    (c ← get "readBit-cpu-arguments"; m ← get "readBit-memory-arguments";
     Some (BuiltinCostEntry_constant c m)).
Definition costs_write_bits : CostTable -> CostTable :=
  insert_some WriteBits (entry_4 Cost_LinearInY Cost_LinearInX "writeBits").
Definition costs_replicate_byte : CostTable -> CostTable :=
  insert_some ReplicateByte (entry_4 Cost_LinearInX Cost_LinearInX "replicateByte").
Definition costs_shift_rotate : CostTable -> CostTable :=
  for_each [(ShiftByteString, "shiftByteString"); (RotateByteString, "rotateByteString")]
    (fun '(f, p) => insert_some f (entry_4 Cost_LinearInX Cost_LinearInX p)).
Definition costs_bit_counts : CostTable -> CostTable :=
  for_each [(CountSetBits, "countSetBits"); (FindFirstSetBit, "findFirstSetBit")]
    (fun '(f, p) => insert_some f (entry_mem_const Cost_LinearInX 1 p)).

Definition build_per_builtin_costs : CostTable :=
  costs_bit_counts $ costs_shift_rotate $ costs_replicate_byte $ costs_write_bits $
  costs_read_bit $ costs_complement $ costs_bitwise_logic $ costs_exp_mod $
  costs_bytestring_to_integer $ costs_integer_to_bytestring $ costs_v3_hashing $
  costs_bls_hash $ costs_bls_scalar_mul $ costs_bls_constant $ costs_secp256k1 $
  costs_serialise_data $ costs_equals_data $ costs_constant $ costs_utf8 $
  costs_equals_string $ costs_append_string $ costs_ed25519 $ costs_blake2b $ costs_sha $
  costs_less_than_equals_bytestring $ costs_less_than_bytestring $
  costs_equals_bytestring $ costs_slice_bytestring $ costs_cons_bytestring $
  costs_append_bytestring $ costs_integer_comparison $ costs_division $ costs_multiply $
  costs_add_sub ∅.
End per_builtin.

Definition from_alonzo_genesis_params_with_variant (params : ParamMap)
    (variant : BuiltinSemanticsVariant) : outcome CostModelError CostModel :=
  let get k := params !! k in
  let? var_cpu := named_value params "cekVarCost-exBudgetCPU" in
  let? var_mem := named_value params "cekVarCost-exBudgetMemory" in
  let? constant_cpu := named_value params "cekConstCost-exBudgetCPU" in
  let? constant_mem := named_value params "cekConstCost-exBudgetMemory" in
  let? lam_cpu := named_value params "cekLamCost-exBudgetCPU" in
  let? lam_mem := named_value params "cekLamCost-exBudgetMemory" in
  let? apply_cpu := named_value params "cekApplyCost-exBudgetCPU" in
  let? apply_mem := named_value params "cekApplyCost-exBudgetMemory" in
  let? delay_cpu := named_value params "cekDelayCost-exBudgetCPU" in
  let? delay_mem := named_value params "cekDelayCost-exBudgetMemory" in
  let? force_cpu := named_value params "cekForceCost-exBudgetCPU" in
  let? force_mem := named_value params "cekForceCost-exBudgetMemory" in
  let builtin_step_cpu := default var_cpu (get "cekBuiltinCost-exBudgetCPU") in
  let builtin_step_mem := default var_mem (get "cekBuiltinCost-exBudgetMemory") in
  let constr_cpu := default apply_cpu (get "cekConstrCost-exBudgetCPU") in
  let constr_mem := default apply_mem (get "cekConstrCost-exBudgetMemory") in
  let case_cpu := default apply_cpu (get "cekCaseCost-exBudgetCPU") in
  let case_mem := default apply_mem (get "cekCaseCost-exBudgetMemory") in
  let step_costs := mkStepCosts var_cpu var_mem constant_cpu constant_mem lam_cpu lam_mem
    apply_cpu apply_mem delay_cpu delay_mem force_cpu force_mem builtin_step_cpu
    builtin_step_mem constr_cpu constr_mem case_cpu case_mem in
  let builtin_cpu := default 1000 (get "cekBuiltinCost-exBudgetCPU") in
  let builtin_mem := default 1000 (get "cekBuiltinCost-exBudgetMemory") in
  let startup_cost := mkExBudget (default 0 (get "cekStartupCost-exBudgetCPU"))
                        (default 0 (get "cekStartupCost-exBudgetMemory")) in
  Ok (mkCostModel step_costs startup_cost builtin_cpu builtin_mem
        (build_per_builtin_costs get variant) variant true).

Definition from_alonzo_genesis_params (params : ParamMap) : outcome CostModelError CostModel :=
  from_alonzo_genesis_params_with_variant params Variant_B.

(** ** Non-negative models *)

Definition budget_nonneg (b : ExBudget) : Prop := 0 <= cpu b /\ 0 <= mem b.

(** No step, start-up or fallback cost is negative. *)
Definition cost_model_nonneg (cm : CostModel) : Prop :=
  (forall kind, budget_nonneg (CostModel_step_cost cm kind))
  /\ budget_nonneg (startup_cost cm)
  /\ 0 <= flat_cpu cm /\ 0 <= flat_mem cm.

Lemma CostModel_default_nonneg : cost_model_nonneg CostModel_default.
Proof. split_and!; try done. by intros []. Qed.

(** Whatever its parameters, a costing function is never negative. *)
Lemma CostExpr_evaluate_nonneg e sizes : 0 <= CostExpr_evaluate e sizes.
Proof. destruct e; apply Z.le_max_r. Qed.

Lemma builtin_cost_nonneg `{PlutusCrypto} cm f args c :
  cost_model_nonneg cm -> builtin_cost cm f args = Ok c -> budget_nonneg c.
Proof.
  intros (_ & _ & ? & ?) Hc. unfold builtin_cost in Hc.
  destruct (_ !! _); [|destruct (strict_builtin_costs cm)]; inv_ok.
  - split; apply CostExpr_evaluate_nonneg.
  - done.
Qed.

(** A model built from non-negative parameters is non-negative. *)
Lemma from_params_nonneg params variant cm :
  (forall k v, params !! k = Some v -> 0 <= v) ->
  from_alonzo_genesis_params_with_variant params variant = Ok cm -> cost_model_nonneg cm.
Proof.
  intros Hp H. assert (Hd : forall k d, 0 <= d -> 0 <= default d (params !! k)).
  { intros k d Hd. destruct (params !! k) eqn:E; simpl; [by eapply Hp|done]. }
  assert (Hn : forall k v, named_value params k = Ok v -> 0 <= v).
  { intros k v Hv. unfold named_value in Hv. inv_ok. by zbool. }
  unfold from_alonzo_genesis_params_with_variant in H. inv_ok.
  repeat match goal with Hv : named_value _ _ = Ok _ |- _ => apply Hn in Hv end.
  split_and!; simpl; try (by apply Hd).
  - intros []; split; simpl; try done; by apply Hd.
  - split; simpl; by apply Hd.
Qed.
