(* ===== verification/GenesisCosts.v ===== *)
(** * Cost models from protocol parameters

    Model of the part of [crates/node/genesis/src/lib.rs] that names the
    entries of an ordered protocol-parameter array and builds the cost model
    of a Plutus version from them, and of the version type of
    [crates/ledger/src/plutus_validation.rs]. *)

From S2P Require Import Prelude Cbor PlutusData Uplc CostModel.
Local Open Scope string_scope.
Local Open Scope Z_scope.

(** ** Plutus versions *)

Inductive PlutusVersion := PlutusV1 | PlutusV2 | PlutusV3.

Definition cost_model_key (v : PlutusVersion) : Z :=
  match v with PlutusV1 => 0 | PlutusV2 => 1 | PlutusV3 => 2 end.
Definition first_supported_protocol_major (v : PlutusVersion) : Z :=
  match v with PlutusV1 => 5 | PlutusV2 => 7 | PlutusV3 => 9 end.

Inductive GenesisCostModelError :=
  | GenesisCostModel (e : CostModelError)
  | UnsupportedConwayV3ArrayLength (actual : Z) (supported : list Z)
  | IncompleteConwayV3Mapping (expected mapped : Z)
  | InvalidProtocolCostModelLength (language actual expected : Z).

(** ** Names *)

Definition PLUTUS_V1_INITIAL_COST_MODEL_LEN : Z := 166.
Definition PLUTUS_V2_INITIAL_COST_MODEL_LEN : Z := 175.
Definition SUPPORTED_CONWAY_V3_ARRAY_LENGTHS : list Z := [251; 302].

Definition PLUTUS_V1_PARAM_NAMES : list string :=
  ["addInteger-cpu-arguments-intercept";
   "addInteger-cpu-arguments-slope";
   "addInteger-memory-arguments-intercept";
   "addInteger-memory-arguments-slope";
   "appendByteString-cpu-arguments-intercept";
   "appendByteString-cpu-arguments-slope";
   "appendByteString-memory-arguments-intercept";
   "appendByteString-memory-arguments-slope";
   "appendString-cpu-arguments-intercept";
   "appendString-cpu-arguments-slope";
   "appendString-memory-arguments-intercept";
   "appendString-memory-arguments-slope";
   "bData-cpu-arguments";
   "bData-memory-arguments";
   "blake2b-cpu-arguments-intercept";
   "blake2b-cpu-arguments-slope";
   "blake2b-memory-arguments";
   "cekApplyCost-exBudgetCPU";
   "cekApplyCost-exBudgetMemory";
   "cekBuiltinCost-exBudgetCPU";
   "cekBuiltinCost-exBudgetMemory";
   "cekConstCost-exBudgetCPU";
   "cekConstCost-exBudgetMemory";
   "cekDelayCost-exBudgetCPU";
   "cekDelayCost-exBudgetMemory";
   "cekForceCost-exBudgetCPU";
   "cekForceCost-exBudgetMemory";
   "cekLamCost-exBudgetCPU";
   "cekLamCost-exBudgetMemory";
   "cekStartupCost-exBudgetCPU";
   "cekStartupCost-exBudgetMemory";
   "cekVarCost-exBudgetCPU";
   "cekVarCost-exBudgetMemory";
   "chooseData-cpu-arguments";
   "chooseData-memory-arguments";
   "chooseList-cpu-arguments";
   "chooseList-memory-arguments";
   "chooseUnit-cpu-arguments";
   "chooseUnit-memory-arguments";
   "consByteString-cpu-arguments-intercept";
   "consByteString-cpu-arguments-slope";
   "consByteString-memory-arguments-intercept";
   "consByteString-memory-arguments-slope";
   "constrData-cpu-arguments";
   "constrData-memory-arguments";
   "decodeUtf8-cpu-arguments-intercept";
   "decodeUtf8-cpu-arguments-slope";
   "decodeUtf8-memory-arguments-intercept";
   "decodeUtf8-memory-arguments-slope";
   "divideInteger-cpu-arguments-constant";
   "divideInteger-cpu-arguments-model-arguments-intercept";
   "divideInteger-cpu-arguments-model-arguments-slope";
   "divideInteger-memory-arguments-intercept";
   "divideInteger-memory-arguments-minimum";
   "divideInteger-memory-arguments-slope";
   "encodeUtf8-cpu-arguments-intercept";
   "encodeUtf8-cpu-arguments-slope";
   "encodeUtf8-memory-arguments-intercept";
   "encodeUtf8-memory-arguments-slope";
   "equalsByteString-cpu-arguments-constant";
   "equalsByteString-cpu-arguments-intercept";
   "equalsByteString-cpu-arguments-slope";
   "equalsByteString-memory-arguments";
   "equalsData-cpu-arguments-intercept";
   "equalsData-cpu-arguments-slope";
   "equalsData-memory-arguments";
   "equalsInteger-cpu-arguments-intercept";
   "equalsInteger-cpu-arguments-slope";
   "equalsInteger-memory-arguments";
   "equalsString-cpu-arguments-constant";
   "equalsString-cpu-arguments-intercept";
   "equalsString-cpu-arguments-slope";
   "equalsString-memory-arguments";
   "fstPair-cpu-arguments";
   "fstPair-memory-arguments";
   "headList-cpu-arguments";
   "headList-memory-arguments";
   "iData-cpu-arguments";
   "iData-memory-arguments";
   "ifThenElse-cpu-arguments";
   "ifThenElse-memory-arguments";
   "indexByteString-cpu-arguments";
   "indexByteString-memory-arguments";
   "lengthOfByteString-cpu-arguments";
   "lengthOfByteString-memory-arguments";
   "lessThanByteString-cpu-arguments-intercept";
   "lessThanByteString-cpu-arguments-slope";
   "lessThanByteString-memory-arguments";
   "lessThanEqualsByteString-cpu-arguments-intercept";
   "lessThanEqualsByteString-cpu-arguments-slope";
   "lessThanEqualsByteString-memory-arguments";
   "lessThanEqualsInteger-cpu-arguments-intercept";
   "lessThanEqualsInteger-cpu-arguments-slope";
   "lessThanEqualsInteger-memory-arguments";
   "lessThanInteger-cpu-arguments-intercept";
   "lessThanInteger-cpu-arguments-slope";
   "lessThanInteger-memory-arguments";
   "listData-cpu-arguments";
   "listData-memory-arguments";
   "mapData-cpu-arguments";
   "mapData-memory-arguments";
   "mkCons-cpu-arguments";
   "mkCons-memory-arguments";
   "mkNilData-cpu-arguments";
   "mkNilData-memory-arguments";
   "mkNilPairData-cpu-arguments";
   "mkNilPairData-memory-arguments";
   "mkPairData-cpu-arguments";
   "mkPairData-memory-arguments";
   "modInteger-cpu-arguments-constant";
   "modInteger-cpu-arguments-model-arguments-intercept";
   "modInteger-cpu-arguments-model-arguments-slope";
   "modInteger-memory-arguments-intercept";
   "modInteger-memory-arguments-minimum";
   "modInteger-memory-arguments-slope";
   "multiplyInteger-cpu-arguments-intercept";
   "multiplyInteger-cpu-arguments-slope";
   "multiplyInteger-memory-arguments-intercept";
   "multiplyInteger-memory-arguments-slope";
   "nullList-cpu-arguments";
   "nullList-memory-arguments";
   "quotientInteger-cpu-arguments-constant";
   "quotientInteger-cpu-arguments-model-arguments-intercept";
   "quotientInteger-cpu-arguments-model-arguments-slope";
   "quotientInteger-memory-arguments-intercept";
   "quotientInteger-memory-arguments-minimum";
   "quotientInteger-memory-arguments-slope";
   "remainderInteger-cpu-arguments-constant";
   "remainderInteger-cpu-arguments-model-arguments-intercept";
   "remainderInteger-cpu-arguments-model-arguments-slope";
   "remainderInteger-memory-arguments-intercept";
   "remainderInteger-memory-arguments-minimum";
   "remainderInteger-memory-arguments-slope";
   "sha2_256-cpu-arguments-intercept";
   "sha2_256-cpu-arguments-slope";
   "sha2_256-memory-arguments";
   "sha3_256-cpu-arguments-intercept";
   "sha3_256-cpu-arguments-slope";
   "sha3_256-memory-arguments";
   "sliceByteString-cpu-arguments-intercept";
   "sliceByteString-cpu-arguments-slope";
   "sliceByteString-memory-arguments-intercept";
   "sliceByteString-memory-arguments-slope";
   "sndPair-cpu-arguments";
   "sndPair-memory-arguments";
   "subtractInteger-cpu-arguments-intercept";
   "subtractInteger-cpu-arguments-slope";
   "subtractInteger-memory-arguments-intercept";
   "subtractInteger-memory-arguments-slope";
   "tailList-cpu-arguments";
   "tailList-memory-arguments";
   "trace-cpu-arguments";
   "trace-memory-arguments";
   "unBData-cpu-arguments";
   "unBData-memory-arguments";
   "unConstrData-cpu-arguments";
   "unConstrData-memory-arguments";
   "unIData-cpu-arguments";
   "unIData-memory-arguments";
   "unListData-cpu-arguments";
   "unListData-memory-arguments";
   "unMapData-cpu-arguments";
   "unMapData-memory-arguments";
   "verifySignature-cpu-arguments-intercept";
   "verifySignature-cpu-arguments-slope";
   "verifySignature-memory-arguments"].

Definition CONWAY_V3_PARAM_NAMES : list string :=
  ["addInteger-cpu-arguments-intercept";
   "addInteger-cpu-arguments-slope";
   "addInteger-memory-arguments-intercept";
   "addInteger-memory-arguments-slope";
   "appendByteString-cpu-arguments-intercept";
   "appendByteString-cpu-arguments-slope";
   "appendByteString-memory-arguments-intercept";
   "appendByteString-memory-arguments-slope";
   "appendString-cpu-arguments-intercept";
   "appendString-cpu-arguments-slope";
   "appendString-memory-arguments-intercept";
   "appendString-memory-arguments-slope";
   "bData-cpu-arguments";
   "bData-memory-arguments";
   "blake2b_256-cpu-arguments-intercept";
   "blake2b_256-cpu-arguments-slope";
   "blake2b_256-memory-arguments";
   "cekApplyCost-exBudgetCPU";
   "cekApplyCost-exBudgetMemory";
   "cekBuiltinCost-exBudgetCPU";
   "cekBuiltinCost-exBudgetMemory";
   "cekConstCost-exBudgetCPU";
   "cekConstCost-exBudgetMemory";
   "cekDelayCost-exBudgetCPU";
   "cekDelayCost-exBudgetMemory";
   "cekForceCost-exBudgetCPU";
   "cekForceCost-exBudgetMemory";
   "cekLamCost-exBudgetCPU";
   "cekLamCost-exBudgetMemory";
   "cekStartupCost-exBudgetCPU";
   "cekStartupCost-exBudgetMemory";
   "cekVarCost-exBudgetCPU";
   "cekVarCost-exBudgetMemory";
   "chooseData-cpu-arguments";
   "chooseData-memory-arguments";
   "chooseList-cpu-arguments";
   "chooseList-memory-arguments";
   "chooseUnit-cpu-arguments";
   "chooseUnit-memory-arguments";
   "consByteString-cpu-arguments-intercept";
   "consByteString-cpu-arguments-slope";
   "consByteString-memory-arguments-intercept";
   "consByteString-memory-arguments-slope";
   "constrData-cpu-arguments";
   "constrData-memory-arguments";
   "decodeUtf8-cpu-arguments-intercept";
   "decodeUtf8-cpu-arguments-slope";
   "decodeUtf8-memory-arguments-intercept";
   "decodeUtf8-memory-arguments-slope";
   "divideInteger-cpu-arguments-constant";
   "divideInteger-cpu-arguments-model-arguments-c00";
   "divideInteger-cpu-arguments-model-arguments-c01";
   "divideInteger-cpu-arguments-model-arguments-c02";
   "divideInteger-cpu-arguments-model-arguments-c10";
   "divideInteger-cpu-arguments-model-arguments-c11";
   "divideInteger-cpu-arguments-model-arguments-c20";
   "divideInteger-cpu-arguments-model-arguments-minimum";
   "divideInteger-memory-arguments-intercept";
   "divideInteger-memory-arguments-minimum";
   "divideInteger-memory-arguments-slope";
   "encodeUtf8-cpu-arguments-intercept";
   "encodeUtf8-cpu-arguments-slope";
   "encodeUtf8-memory-arguments-intercept";
   "encodeUtf8-memory-arguments-slope";
   "equalsByteString-cpu-arguments-constant";
   "equalsByteString-cpu-arguments-intercept";
   "equalsByteString-cpu-arguments-slope";
   "equalsByteString-memory-arguments";
   "equalsData-cpu-arguments-intercept";
   "equalsData-cpu-arguments-slope";
   "equalsData-memory-arguments";
   "equalsInteger-cpu-arguments-intercept";
   "equalsInteger-cpu-arguments-slope";
   "equalsInteger-memory-arguments";
   "equalsString-cpu-arguments-constant";
   "equalsString-cpu-arguments-intercept";
   "equalsString-cpu-arguments-slope";
   "equalsString-memory-arguments";
   "fstPair-cpu-arguments";
   "fstPair-memory-arguments";
   "headList-cpu-arguments";
   "headList-memory-arguments";
   "iData-cpu-arguments";
   "iData-memory-arguments";
   "ifThenElse-cpu-arguments";
   "ifThenElse-memory-arguments";
   "indexByteString-cpu-arguments";
   "indexByteString-memory-arguments";
   "lengthOfByteString-cpu-arguments";
   "lengthOfByteString-memory-arguments";
   "lessThanByteString-cpu-arguments-intercept";
   "lessThanByteString-cpu-arguments-slope";
   "lessThanByteString-memory-arguments";
   "lessThanEqualsByteString-cpu-arguments-intercept";
   "lessThanEqualsByteString-cpu-arguments-slope";
   "lessThanEqualsByteString-memory-arguments";
   "lessThanEqualsInteger-cpu-arguments-intercept";
   "lessThanEqualsInteger-cpu-arguments-slope";
   "lessThanEqualsInteger-memory-arguments";
   "lessThanInteger-cpu-arguments-intercept";
   "lessThanInteger-cpu-arguments-slope";
   "lessThanInteger-memory-arguments";
   "listData-cpu-arguments";
   "listData-memory-arguments";
   "mapData-cpu-arguments";
   "mapData-memory-arguments";
   "mkCons-cpu-arguments";
   "mkCons-memory-arguments";
   "mkNilData-cpu-arguments";
   "mkNilData-memory-arguments";
   "mkNilPairData-cpu-arguments";
   "mkNilPairData-memory-arguments";
   "mkPairData-cpu-arguments";
   "mkPairData-memory-arguments";
   "modInteger-cpu-arguments-constant";
   "modInteger-cpu-arguments-model-arguments-c00";
   "modInteger-cpu-arguments-model-arguments-c01";
   "modInteger-cpu-arguments-model-arguments-c02";
   "modInteger-cpu-arguments-model-arguments-c10";
   "modInteger-cpu-arguments-model-arguments-c11";
   "modInteger-cpu-arguments-model-arguments-c20";
   "modInteger-cpu-arguments-model-arguments-minimum";
   "modInteger-memory-arguments-intercept";
   "modInteger-memory-arguments-slope";
   "multiplyInteger-cpu-arguments-intercept";
   "multiplyInteger-cpu-arguments-slope";
   "multiplyInteger-memory-arguments-intercept";
   "multiplyInteger-memory-arguments-slope";
   "nullList-cpu-arguments";
   "nullList-memory-arguments";
   "quotientInteger-cpu-arguments-constant";
   "quotientInteger-cpu-arguments-model-arguments-c00";
   "quotientInteger-cpu-arguments-model-arguments-c01";
   "quotientInteger-cpu-arguments-model-arguments-c02";
   "quotientInteger-cpu-arguments-model-arguments-c10";
   "quotientInteger-cpu-arguments-model-arguments-c11";
   "quotientInteger-cpu-arguments-model-arguments-c20";
   "quotientInteger-cpu-arguments-model-arguments-minimum";
   "quotientInteger-memory-arguments-intercept";
   "quotientInteger-memory-arguments-minimum";
   "quotientInteger-memory-arguments-slope";
   "remainderInteger-cpu-arguments-constant";
   "remainderInteger-cpu-arguments-model-arguments-c00";
   "remainderInteger-cpu-arguments-model-arguments-c01";
   "remainderInteger-cpu-arguments-model-arguments-c02";
   "remainderInteger-cpu-arguments-model-arguments-c10";
   "remainderInteger-cpu-arguments-model-arguments-c11";
   "remainderInteger-cpu-arguments-model-arguments-c20";
   "remainderInteger-cpu-arguments-model-arguments-minimum";
   "remainderInteger-memory-arguments-intercept";
   "remainderInteger-memory-arguments-slope";
   "serialiseData-cpu-arguments-intercept";
   "serialiseData-cpu-arguments-slope";
   "serialiseData-memory-arguments-intercept";
   "serialiseData-memory-arguments-slope";
   "sha2_256-cpu-arguments-intercept";
   "sha2_256-cpu-arguments-slope";
   "sha2_256-memory-arguments";
   "sha3_256-cpu-arguments-intercept";
   "sha3_256-cpu-arguments-slope";
   "sha3_256-memory-arguments";
   "sliceByteString-cpu-arguments-intercept";
   "sliceByteString-cpu-arguments-slope";
   "sliceByteString-memory-arguments-intercept";
   "sliceByteString-memory-arguments-slope";
   "sndPair-cpu-arguments";
   "sndPair-memory-arguments";
   "subtractInteger-cpu-arguments-intercept";
   "subtractInteger-cpu-arguments-slope";
   "subtractInteger-memory-arguments-intercept";
   "subtractInteger-memory-arguments-slope";
   "tailList-cpu-arguments";
   "tailList-memory-arguments";
   "trace-cpu-arguments";
   "trace-memory-arguments";
   "unBData-cpu-arguments";
   "unBData-memory-arguments";
   "unConstrData-cpu-arguments";
   "unConstrData-memory-arguments";
   "unIData-cpu-arguments";
   "unIData-memory-arguments";
   "unListData-cpu-arguments";
   "unListData-memory-arguments";
   "unMapData-cpu-arguments";
   "unMapData-memory-arguments";
   "verifyEcdsaSecp256k1Signature-cpu-arguments";
   "verifyEcdsaSecp256k1Signature-memory-arguments";
   "verifyEd25519Signature-cpu-arguments-intercept";
   "verifyEd25519Signature-cpu-arguments-slope";
   "verifyEd25519Signature-memory-arguments";
   "verifySchnorrSecp256k1Signature-cpu-arguments-intercept";
   "verifySchnorrSecp256k1Signature-cpu-arguments-slope";
   "verifySchnorrSecp256k1Signature-memory-arguments";
   "cekConstrCost-exBudgetCPU";
   "cekConstrCost-exBudgetMemory";
   "cekCaseCost-exBudgetCPU";
   "cekCaseCost-exBudgetMemory";
   "bls12_381_G1_add-cpu-arguments";
   "bls12_381_G1_add-memory-arguments";
   "bls12_381_G1_compress-cpu-arguments";
   "bls12_381_G1_compress-memory-arguments";
   "bls12_381_G1_equal-cpu-arguments";
   "bls12_381_G1_equal-memory-arguments";
   "bls12_381_G1_hashToGroup-cpu-arguments-intercept";
   "bls12_381_G1_hashToGroup-cpu-arguments-slope";
   "bls12_381_G1_hashToGroup-memory-arguments";
   "bls12_381_G1_neg-cpu-arguments";
   "bls12_381_G1_neg-memory-arguments";
   "bls12_381_G1_scalarMul-cpu-arguments-intercept";
   "bls12_381_G1_scalarMul-cpu-arguments-slope";
   "bls12_381_G1_scalarMul-memory-arguments";
   "bls12_381_G1_uncompress-cpu-arguments";
   "bls12_381_G1_uncompress-memory-arguments";
   "bls12_381_G2_add-cpu-arguments";
   "bls12_381_G2_add-memory-arguments";
   "bls12_381_G2_compress-cpu-arguments";
   "bls12_381_G2_compress-memory-arguments";
   "bls12_381_G2_equal-cpu-arguments";
   "bls12_381_G2_equal-memory-arguments";
   "bls12_381_G2_hashToGroup-cpu-arguments-intercept";
   "bls12_381_G2_hashToGroup-cpu-arguments-slope";
   "bls12_381_G2_hashToGroup-memory-arguments";
   "bls12_381_G2_neg-cpu-arguments";
   "bls12_381_G2_neg-memory-arguments";
   "bls12_381_G2_scalarMul-cpu-arguments-intercept";
   "bls12_381_G2_scalarMul-cpu-arguments-slope";
   "bls12_381_G2_scalarMul-memory-arguments";
   "bls12_381_G2_uncompress-cpu-arguments";
   "bls12_381_G2_uncompress-memory-arguments";
   "bls12_381_finalVerify-cpu-arguments";
   "bls12_381_finalVerify-memory-arguments";
   "bls12_381_millerLoop-cpu-arguments";
   "bls12_381_millerLoop-memory-arguments";
   "bls12_381_mulMlResult-cpu-arguments";
   "bls12_381_mulMlResult-memory-arguments";
   "keccak_256-cpu-arguments-intercept";
   "keccak_256-cpu-arguments-slope";
   "keccak_256-memory-arguments";
   "blake2b_224-cpu-arguments-intercept";
   "blake2b_224-cpu-arguments-slope";
   "blake2b_224-memory-arguments";
   "integerToByteString-cpu-arguments-c0";
   "integerToByteString-cpu-arguments-c1";
   "integerToByteString-cpu-arguments-c2";
   "integerToByteString-memory-arguments-intercept";
   "integerToByteString-memory-arguments-slope";
   "byteStringToInteger-cpu-arguments-c0";
   "byteStringToInteger-cpu-arguments-c1";
   "byteStringToInteger-cpu-arguments-c2";
   "byteStringToInteger-memory-arguments-intercept";
   "byteStringToInteger-memory-arguments-slope";
   "andByteString-cpu-arguments-intercept";
   "andByteString-cpu-arguments-slope1";
   "andByteString-cpu-arguments-slope2";
   "andByteString-memory-arguments-intercept";
   "andByteString-memory-arguments-slope";
   "orByteString-cpu-arguments-intercept";
   "orByteString-cpu-arguments-slope1";
   "orByteString-cpu-arguments-slope2";
   "orByteString-memory-arguments-intercept";
   "orByteString-memory-arguments-slope";
   "xorByteString-cpu-arguments-intercept";
   "xorByteString-cpu-arguments-slope1";
   "xorByteString-cpu-arguments-slope2";
   "xorByteString-memory-arguments-intercept";
   "xorByteString-memory-arguments-slope";
   "complementByteString-cpu-arguments-intercept";
   "complementByteString-cpu-arguments-slope";
   "complementByteString-memory-arguments-intercept";
   "complementByteString-memory-arguments-slope";
   "readBit-cpu-arguments";
   "readBit-memory-arguments";
   "writeBits-cpu-arguments-intercept";
   "writeBits-cpu-arguments-slope";
   "writeBits-memory-arguments-intercept";
   "writeBits-memory-arguments-slope";
   "replicateByte-cpu-arguments-intercept";
   "replicateByte-cpu-arguments-slope";
   "replicateByte-memory-arguments-intercept";
   "replicateByte-memory-arguments-slope";
   "shiftByteString-cpu-arguments-intercept";
   "shiftByteString-cpu-arguments-slope";
   "shiftByteString-memory-arguments-intercept";
   "shiftByteString-memory-arguments-slope";
   "rotateByteString-cpu-arguments-intercept";
   "rotateByteString-cpu-arguments-slope";
   "rotateByteString-memory-arguments-intercept";
   "rotateByteString-memory-arguments-slope";
   "countSetBits-cpu-arguments-intercept";
   "countSetBits-cpu-arguments-slope";
   "countSetBits-memory-arguments";
   "findFirstSetBit-cpu-arguments-intercept";
   "findFirstSetBit-cpu-arguments-slope";
   "findFirstSetBit-memory-arguments";
   "ripemd_160-cpu-arguments-intercept";
   "ripemd_160-cpu-arguments-slope";
   "ripemd_160-memory-arguments";
   "expModInteger-cpu-arguments-coefficient00";
   "expModInteger-cpu-arguments-coefficient11";
   "expModInteger-cpu-arguments-coefficient12";
   "expModInteger-memory-arguments-intercept";
   "expModInteger-memory-arguments-slope"].

Definition ordered_plutus_v1_param_names : list string := PLUTUS_V1_PARAM_NAMES.

(** The renaming of the Alonzo-era spellings. *)
Definition v2_name (name : string) : string :=
  if String.eqb name "blake2b-cpu-arguments-intercept" then "blake2b_256-cpu-arguments-intercept"
  else if String.eqb name "blake2b-cpu-arguments-slope" then "blake2b_256-cpu-arguments-slope"
  else if String.eqb name "blake2b-memory-arguments" then "blake2b_256-memory-arguments"
  else if String.eqb name "verifySignature-cpu-arguments-intercept" then
    "verifyEd25519Signature-cpu-arguments-intercept"
  else if String.eqb name "verifySignature-cpu-arguments-slope" then
    "verifyEd25519Signature-cpu-arguments-slope"
  else if String.eqb name "verifySignature-memory-arguments" then
    "verifyEd25519Signature-memory-arguments"
  else name.

(** [names.splice(i..i, new)], where [i] is the position of a name, plus
    [offset]; an absent name is a failed [expect]. *)
Definition splice_at (name : string) (offset : nat) (new names : list string)
    : outcome GenesisCostModelError (list string) :=
  match position (fun n => String.eqb n name) names with
  | Some i => Ok (take (i + offset) names ++ new ++ drop (i + offset) names)%list
  | None => Panic
  end.

Definition ordered_plutus_v2_param_names : outcome GenesisCostModelError (list string) :=
  let names := map v2_name ordered_plutus_v1_param_names in
  let? names := splice_at "remainderInteger-memory-arguments-slope" 1
    ["serialiseData-cpu-arguments-intercept"; "serialiseData-cpu-arguments-slope";
     "serialiseData-memory-arguments-intercept"; "serialiseData-memory-arguments-slope"] names in
  let? names := splice_at "verifyEd25519Signature-cpu-arguments-intercept" 0
    ["verifyEcdsaSecp256k1Signature-cpu-arguments";
     "verifyEcdsaSecp256k1Signature-memory-arguments"] names in
  splice_at "verifyEd25519Signature-memory-arguments" 1
    ["verifySchnorrSecp256k1Signature-cpu-arguments-intercept";
     "verifySchnorrSecp256k1Signature-cpu-arguments-slope";
     "verifySchnorrSecp256k1Signature-memory-arguments"] names.

(** [zip] and [collect] into a [BTreeMap]: a later entry replaces an earlier
    one with the same name. *)
Definition named_params (names : list string) (values : list Z) : ParamMap :=
  fold_left (fun m '(name, value) => <[name := value]> m) (zip names values) ∅.

Definition conway_v3_named_params (values : list Z) : ParamMap :=
  named_params CONWAY_V3_PARAM_NAMES values.

Definition ensure_conway_v3_mapping_complete (expected mapped : Z)
    : outcome GenesisCostModelError unit :=
  if (expected =? mapped)%Z then Ok tt else Err (IncompleteConwayV3Mapping expected mapped).

Definition select_semantics_variant (version : PlutusVersion)
    (protocol_version : option (Z * Z)) : BuiltinSemanticsVariant :=
  match version with
  | PlutusV1 | PlutusV2 =>
      match protocol_version with
      | Some (major, _) => if (major <? 9)%Z then Variant_A else Variant_B
      | None => Variant_B
      end
  | PlutusV3 => Variant_C
  end.

Definition build_plutus_cost_model_from_protocol_values_for_protocol
    (version : PlutusVersion) (protocol_version : option (Z * Z)) (values : list Z)
    : outcome GenesisCostModelError CostModel :=
  let? named :=
    match version with
    | PlutusV1 =>
        if negb (zlength values =? PLUTUS_V1_INITIAL_COST_MODEL_LEN)%Z then
          Err (InvalidProtocolCostModelLength (cost_model_key version) (zlength values)
                 PLUTUS_V1_INITIAL_COST_MODEL_LEN)
        else Ok (named_params PLUTUS_V1_PARAM_NAMES values)
    | PlutusV2 =>
        if negb (zlength values =? PLUTUS_V2_INITIAL_COST_MODEL_LEN)%Z then
          Err (InvalidProtocolCostModelLength (cost_model_key version) (zlength values)
                 PLUTUS_V2_INITIAL_COST_MODEL_LEN)
        else let? names := ordered_plutus_v2_param_names in Ok (named_params names values)
    | PlutusV3 =>
        if negb (bool_decide (zlength values ∈ SUPPORTED_CONWAY_V3_ARRAY_LENGTHS)) then
          Err (UnsupportedConwayV3ArrayLength (zlength values) SUPPORTED_CONWAY_V3_ARRAY_LENGTHS)
        else
          let named := conway_v3_named_params values in
          let? _ := ensure_conway_v3_mapping_complete (zlength values)
                      (Z.of_nat (length (map_to_list named))) in
          Ok named
    end in
  map_err GenesisCostModel
    (from_alonzo_genesis_params_with_variant named
       (select_semantics_variant version protocol_version)).

Definition build_plutus_cost_model_from_protocol_values (version : PlutusVersion)
    (values : list Z) : outcome GenesisCostModelError CostModel :=
  build_plutus_cost_model_from_protocol_values_for_protocol version None values.

(** ** Coverage *)

(** The builtins a version's array prices: those with a smaller tag. *)
Definition priced_tags (version : PlutusVersion) (len : Z) : Z :=
  match version with
  | PlutusV1 => 51
  | PlutusV2 => 54
  | PlutusV3 => if (len =? 251)%Z then 75 else 88
  end.

(** The table built from [params] prices exactly the tags below [limit]. *)
Definition covers (params : ParamMap) (variant : BuiltinSemanticsVariant) (limit : Z) : bool :=
  let table := build_per_builtin_costs (fun k => params !! k) variant in
  forallb (fun f => Bool.eqb (match table !! f with Some _ => true | None => false end)
                      (DefaultFun_tag f <? limit)%Z) DefaultFun_all.

Lemma covers_spec params variant limit f :
  covers params variant limit = true ->
  is_Some (build_per_builtin_costs (fun k => params !! k) variant !! f)
  <-> DefaultFun_tag f < limit.
Proof.
  intros Hc. unfold covers in Hc. rewrite forallb_forall in Hc.
  specialize (Hc f (proj1 (list_elem_of_In _ _) (DefaultFun_all_complete f))).
  apply Bool.eqb_prop in Hc. rewrite <- Z.ltb_lt, <- Hc.
  split; [by intros [e ->]|]. case_match; [by eexists|done].
Qed.

(** Evaluate a table over the values of a list of known length. *)
Ltac cover_by_evaluation values Hl variant :=
  repeat (destruct values as [|? values]; [discriminate Hl|]);
  destruct values; [|discriminate Hl]; clear Hl; destruct variant; vm_compute; reflexivity.

Lemma covers_v1 values variant :
  length values = 166%nat ->
  covers (named_params PLUTUS_V1_PARAM_NAMES values) variant 51 = true.
Proof. intros Hl. cover_by_evaluation values Hl variant. Qed.

Lemma covers_v2 values variant :
  length values = 175%nat ->
  covers (named_params
    (match ordered_plutus_v2_param_names with Ok names => names | _ => [] end) values)
    variant 54 = true.
Proof. intros Hl. cover_by_evaluation values Hl variant. Qed.

Lemma covers_v3_251 values variant :
  length values = 251%nat -> covers (conway_v3_named_params values) variant 75 = true.
Proof. intros Hl. cover_by_evaluation values Hl variant. Qed.

Lemma covers_v3_302 values variant :
  length values = 302%nat -> covers (conway_v3_named_params values) variant 88 = true.
Proof. intros Hl. cover_by_evaluation values Hl variant. Qed.

(** ** Named parameters *)

Lemma named_params_values names values k v :
  named_params names values !! k = Some v -> v ∈ values.
Proof.
  unfold named_params.
  assert (H : forall l (m : gmap string Z), fold_left (fun m '(name, value) => <[name := value]> m) l m
              !! k = Some v -> m !! k = Some v \/ v ∈ l.*2).
  { induction l as [|[n w] l IH]; intros m Hm; [by left|]. simpl in *.
    destruct (IH _ Hm) as [Hi|Hi]; [|right; by apply elem_of_cons; right].
    destruct (decide (n = k)) as [->|Hne].
    - rewrite lookup_insert_eq in Hi. injection Hi as <-. right. apply elem_of_cons. by left.
    - rewrite lookup_insert_ne in Hi by done. by left. }
  intros Hv. destruct (H _ ∅ Hv) as [He|He]; [by rewrite lookup_empty in He|].
  apply list_elem_of_fmap in He as ([n w] & -> & Hin). simpl.
  by apply elem_of_zip_r in Hin.
Qed.

Lemma named_params_present names values k :
  k ∈ take (length values) names -> is_Some (named_params names values !! k).
Proof.
  unfold named_params.
  assert (H : forall l (m : gmap string Z), is_Some (m !! k) \/ k ∈ l.*1 ->
     is_Some (fold_left (fun m '(name, value) => <[name := value]> m) l m !! k)).
  { induction l as [|[n w] l IH]; intros m Hm; simpl in *.
    - destruct Hm as [Hm|Hm]; [done|by apply elem_of_nil in Hm].
    - apply IH. destruct (decide (n = k)) as [->|Hne].
      + left. rewrite lookup_insert_eq. by eexists.
      + destruct Hm as [Hm|Hm]; [left; by rewrite lookup_insert_ne|].
        apply elem_of_cons in Hm as [->|Hm]; [done|by right]. }
  intros Hk. apply H. right. clear H. revert names Hk.
  induction values as [|v values IH]; intros [|n names] Hk; simpl in *;
    try (by apply elem_of_nil in Hk).
  apply elem_of_cons in Hk as [->|Hk]; apply elem_of_cons; [by left|]. right. by apply IH.
Qed.

(** The parameters the constructor requires. *)
Definition required_params : list string :=
  ["cekVarCost-exBudgetCPU"; "cekVarCost-exBudgetMemory"; "cekConstCost-exBudgetCPU";
   "cekConstCost-exBudgetMemory"; "cekLamCost-exBudgetCPU"; "cekLamCost-exBudgetMemory";
   "cekApplyCost-exBudgetCPU"; "cekApplyCost-exBudgetMemory"; "cekDelayCost-exBudgetCPU";
   "cekDelayCost-exBudgetMemory"; "cekForceCost-exBudgetCPU"; "cekForceCost-exBudgetMemory"].

Lemma from_params_succeeds params variant :
  (forall k, k ∈ required_params -> is_Some (params !! k)) ->
  (forall k v, params !! k = Some v -> 0 <= v) ->
  exists cm, from_alonzo_genesis_params_with_variant params variant = Ok cm.
Proof.
  intros Hk Hv.
  assert (Hn : forall k, k ∈ required_params -> exists v, named_value params k = Ok v).
  { intros k Hin. destruct (Hk k Hin) as [v E]. exists v. unfold named_value. rewrite E. simpl.
    pose proof (Hv _ _ E). by rewrite (proj2 (Z.ltb_ge _ _)). }
  unfold from_alonzo_genesis_params_with_variant.
  repeat match goal with
  | |- context [named_value params ?k] =>
      destruct (Hn k) as [? ->]; [unfold required_params; repeat constructor|]; cbn [obind]
  end.
  by eexists.
Qed.

(** No name of the table is repeated: every value of the array is mapped. *)
Lemma v3_mapping_complete values :
  length values = 251%nat \/ length values = 302%nat ->
  Z.of_nat (length (map_to_list (conway_v3_named_params values))) = zlength values.
Proof.
  intros [Hl|Hl]; repeat (destruct values as [|? values]; [discriminate Hl|]);
    destruct values; try discriminate Hl; clear Hl; vm_compute; reflexivity.
Qed.

Lemma required_among names n :
  forallb (fun k => existsb (String.eqb k) (take n names)) required_params = true ->
  forall k, k ∈ required_params -> k ∈ take n names.
Proof.
  intros H k Hk. rewrite forallb_forall in H. apply list_elem_of_In in Hk.
  specialize (H k Hk). apply existsb_exists in H as (x & Hx & He).
  apply String.eqb_eq in He as ->. by apply list_elem_of_In.
Qed.

(** The array lengths a version accepts. *)
Definition accepted_length (version : PlutusVersion) (len : Z) : Prop :=
  match version with
  | PlutusV1 => len = 166
  | PlutusV2 => len = 175
  | PlutusV3 => len = 251 \/ len = 302
  end.

(** What an accepted array is turned into, before the costs are read. *)
Definition version_names (version : PlutusVersion) : list string :=
  match version with
  | PlutusV1 => PLUTUS_V1_PARAM_NAMES
  | PlutusV2 => match ordered_plutus_v2_param_names with Ok names => names | _ => [] end
  | PlutusV3 => CONWAY_V3_PARAM_NAMES
  end.

Lemma build_accepted version protocol_version values :
  accepted_length version (zlength values) ->
  build_plutus_cost_model_from_protocol_values_for_protocol version protocol_version values
  = map_err GenesisCostModel
      (from_alonzo_genesis_params_with_variant (named_params (version_names version) values)
         (select_semantics_variant version protocol_version)).
Proof.
  intros Hl. unfold build_plutus_cost_model_from_protocol_values_for_protocol.
  destruct version; cbn [accepted_length] in Hl.
  - by rewrite Hl.
  - rewrite Hl. change (negb (175 =? PLUTUS_V2_INITIAL_COST_MODEL_LEN)%Z) with false. cbv iota.
    assert (Ho : exists names, ordered_plutus_v2_param_names = Ok names)
      by (eexists; vm_compute; reflexivity).
    destruct Ho as [names Ho]. unfold version_names. by rewrite Ho.
  - assert (Hs : bool_decide (zlength values ∈ SUPPORTED_CONWAY_V3_ARRAY_LENGTHS) = true).
    { apply bool_decide_eq_true. unfold SUPPORTED_CONWAY_V3_ARRAY_LENGTHS.
      destruct Hl as [-> | ->]; repeat constructor. }
    rewrite Hs. cbn [negb]. unfold ensure_conway_v3_mapping_complete.
    rewrite v3_mapping_complete, Z.eqb_refl by (unfold zlength in Hl; lia). done.
Qed.

Lemma build_rejected version protocol_version values :
  ~ accepted_length version (zlength values) ->
  exists e, build_plutus_cost_model_from_protocol_values_for_protocol
              version protocol_version values = Err e.
Proof.
  intros Hl. unfold build_plutus_cost_model_from_protocol_values_for_protocol.
  destruct version; cbn [accepted_length] in Hl.
  - rewrite (proj2 (Z.eqb_neq _ _)) by done. simpl. by eexists.
  - rewrite (proj2 (Z.eqb_neq _ _)) by done. simpl. by eexists.
  - rewrite bool_decide_eq_false_2; [simpl; by eexists|].
    unfold SUPPORTED_CONWAY_V3_ARRAY_LENGTHS. rewrite !elem_of_cons, elem_of_nil. tauto.
Qed.

(** Each version's table prices exactly its builtins. *)
Lemma version_covers version variant values :
  accepted_length version (zlength values) ->
  covers (named_params (version_names version) values) variant
    (priced_tags version (zlength values)) = true.
Proof.
  intros Hl. unfold zlength in Hl. destruct version; cbn [accepted_length] in Hl.
  - apply covers_v1. lia.
  - apply covers_v2. lia.
  - unfold priced_tags, zlength. destruct Hl as [Hl|Hl]; rewrite Hl.
    + apply covers_v3_251. lia.
    + apply covers_v3_302. lia.
Qed.

Lemma version_required version (values : list Z) :
  accepted_length version (zlength values) ->
  forall k, k ∈ required_params -> k ∈ take (length values) (version_names version).
Proof.
  intros Hl. apply required_among. unfold zlength in Hl.
  assert (Hn : length values = 166%nat /\ version = PlutusV1
    \/ length values = 175%nat /\ version = PlutusV2
    \/ length values = 251%nat /\ version = PlutusV3
    \/ length values = 302%nat /\ version = PlutusV3)
    by (destruct version; cbn [accepted_length] in Hl; lia || naive_solver lia).
  destruct Hn as [[-> ->]|[[-> ->]|[[-> ->]|[-> ->]]]]; vm_compute; reflexivity.
Qed.

(** The cost model of a Plutus version built from an ordered array of
    protocol parameters: an array of an unknown length is rejected; one of an
    accepted length with non-negative entries always yields a model; and every
    model that is built is strict, selects the semantics of the protocol
    version and prices exactly the builtins of that language version, so that
    a script restricted to them never meets a missing price. *)
Theorem protocol_cost_models version protocol_version values :
  match build_plutus_cost_model_from_protocol_values_for_protocol
          version protocol_version values with
  | Ok cm =>
      accepted_length version (zlength values)
      /\ strict_builtin_costs cm = true
      /\ builtin_semantics_variant cm = select_semantics_variant version protocol_version
      /\ (forall f, is_Some (builtin_costs cm !! f)
            <-> DefaultFun_tag f < priced_tags version (zlength values))
      /\ (Forall (fun v => 0 <= v) values -> cost_model_nonneg cm)
  | Err _ => accepted_length version (zlength values) -> ~ Forall (fun v => 0 <= v) values
  | Panic | OutOfFuel => False
  end.
Proof.
  set (variant := select_semantics_variant version protocol_version).
  set (named := named_params (version_names version) values).
  assert (Hdec : accepted_length version (zlength values)
                 \/ ~ accepted_length version (zlength values))
    by (destruct version; cbn [accepted_length]; lia).
  destruct Hdec as [Hl|Hl].
  2:{ destruct (build_rejected version protocol_version values Hl) as [e ->]. by intros. }
  rewrite (build_accepted _ _ _ Hl). fold named variant.
  assert (Hval : Forall (fun v => 0 <= v) values -> forall k v, named !! k = Some v -> 0 <= v).
  { intros Hv k v Hk. apply named_params_values in Hk. by eapply Forall_forall in Hv. }
  assert (Hreq : forall k, k ∈ required_params -> is_Some (named !! k)).
  { intros k Hk. by apply named_params_present, version_required. }
  destruct (from_alonzo_genesis_params_with_variant named variant) as [cm|e| |] eqn:E;
    cbn [map_err].
  - pose proof (version_covers version variant values Hl) as Hc. fold named in Hc.
    split; [done|].
    assert (Hcm : strict_builtin_costs cm = true /\ builtin_semantics_variant cm = variant
      /\ builtin_costs cm = build_per_builtin_costs (fun k => named !! k) variant).
    { unfold from_alonzo_genesis_params_with_variant in E. by inv_ok. }
    destruct Hcm as (-> & -> & ->). split_and!; [done|done| |].
    + intros f. by apply covers_spec.
    + intros Hv. eapply from_params_nonneg; [by apply Hval|exact E].
  - intros _ Hv. destruct (from_params_succeeds named variant Hreq (Hval Hv)) as [cm Hcm].
    congruence.
  - unfold from_alonzo_genesis_params_with_variant, named_value, ok_or in E.
    by repeat (case_match; simpl in E; try discriminate E).
  - unfold from_alonzo_genesis_params_with_variant, named_value, ok_or in E.
    by repeat (case_match; simpl in E; try discriminate E).
Qed.
