(* ===== verification/Builtins.v ===== *)
(** * The builtin functions

    Model of [crates/plutus/src/builtins.rs]: the dispatcher
    [evaluate_builtin] with its argument extraction, the conversions between
    integers and byte strings, the bitwise operations and modular
    exponentiation. Diagnostics written to the log when an environment
    variable is set are not modelled; the [trace] builtin's log is. An index
    [args[i]] that is out of range panics. *)

From S2P Require Import Prelude Cbor PlutusData Uplc CostModel.
From Stdlib Require Import Zpow_facts.
Local Open Scope string_scope.
Local Open Scope Z_scope.

Section builtins.
  Context `{PlutusCrypto}.

(** ** Argument extraction *)

Definition constant_type_name (c : Constant) : string :=
  match c with
  | Constant_Integer _ => "integer"
  | Constant_ByteString _ => "bytestring"
  | Constant_String _ => "string"
  | Constant_Unit => "unit"
  | Constant_Bool _ => "bool"
  | Constant_ProtoList _ _ => "list"
  | Constant_ProtoPair _ _ _ _ => "pair"
  | Constant_Data _ => "data"
  | Constant_Bls12_381_G1_Element _ => "bls12_381_G1_element"
  | Constant_Bls12_381_G2_Element _ => "bls12_381_G2_element"
  | Constant_Bls12_381_MlResult _ => "bls12_381_MlResult"
  end.

Definition data_variant_name (d : PlutusData) : string :=
  match d with
  | Data_Constr _ _ => "Constr"
  | Data_Map _ => "Map"
  | Data_List _ => "List"
  | Data_Integer _ => "Integer"
  | Data_Bytes _ => "Bytes"
  end.

(** [args[i]] *)
Definition arg (args : list Value) (i : nat) : outcome MachineError Value :=
  match args !! i with Some v => Ok v | None => Panic end.

Definition mismatch {A} (expected : string) (other : Constant) : outcome MachineError A :=
  Err (TypeMismatch expected (constant_type_name other)).

Definition get_int (val : Value) : outcome MachineError Z :=
  let? c := as_constant val in
  match c with Constant_Integer i => Ok i | other => mismatch "integer" other end.
Definition get_bool (val : Value) : outcome MachineError bool :=
  let? c := as_constant val in
  match c with Constant_Bool b => Ok b | other => mismatch "bool" other end.
Definition get_unit (val : Value) : outcome MachineError unit :=
  let? c := as_constant val in
  match c with Constant_Unit => Ok tt | other => mismatch "unit" other end.
Definition get_bytestring (val : Value) : outcome MachineError (list Z) :=
  let? c := as_constant val in
  match c with Constant_ByteString bs => Ok bs | other => mismatch "bytestring" other end.
Definition get_string (val : Value) : outcome MachineError (list Z) :=
  let? c := as_constant val in
  match c with Constant_String s => Ok s | other => mismatch "string" other end.
Definition get_data (val : Value) : outcome MachineError PlutusData :=
  let? c := as_constant val in
  match c with Constant_Data d => Ok d | other => mismatch "data" other end.
Definition get_list_with_type (val : Value) : outcome MachineError (Ty * list Constant) :=
  let? c := as_constant val in
  match c with Constant_ProtoList ty items => Ok (ty, items) | other => mismatch "list" other end.
Definition get_list (val : Value) : outcome MachineError (list Constant) :=
  let? (_, items) := get_list_with_type val in Ok items.
Definition get_pair (val : Value) : outcome MachineError (Constant * Constant) :=
  let? c := as_constant val in
  match c with Constant_ProtoPair _ _ a b => Ok (a, b) | other => mismatch "pair" other end.
Definition get_g1 (val : Value) : outcome MachineError G1Element :=
  let? c := as_constant val in
  match c with
  | Constant_Bls12_381_G1_Element e => Ok e
  | other => mismatch "bls12_381_G1_element" other
  end.
Definition get_g2 (val : Value) : outcome MachineError G2Element :=
  let? c := as_constant val in
  match c with
  | Constant_Bls12_381_G2_Element e => Ok e
  | other => mismatch "bls12_381_G2_element" other
  end.
Definition get_ml (val : Value) : outcome MachineError MlResult :=
  let? c := as_constant val in
  match c with
  | Constant_Bls12_381_MlResult r => Ok r
  | other => mismatch "bls12_381_MlResult" other
  end.

(** [iter().map(f).collect::<Result<Vec<_>, _>>()] *)
Fixpoint collect {A B} (f : A -> outcome MachineError B) (l : list A)
    : outcome MachineError (list B) :=
  match l with
  | [] => Ok []
  | x :: l => let? y := f x in let? ys := collect f l in Ok (y :: ys)
  end.

Definition get_data_list (val : Value) : outcome MachineError (list PlutusData) :=
  let? items := get_list val in
  collect (fun c => match c with Constant_Data d => Ok d | other => mismatch "data element" other end)
    items.
Definition data_of (c : Constant) : outcome MachineError PlutusData :=
  match c with Constant_Data d => Ok d | other => mismatch "data" other end.
Definition get_data_pair_list (val : Value)
    : outcome MachineError (list (PlutusData * PlutusData)) :=
  let? items := get_list val in
  collect (fun c => match c with
    | Constant_ProtoPair _ _ a b => let? ka := data_of a in let? vb := data_of b in Ok (ka, vb)
    | other => mismatch "pair" other
    end) items.
Definition get_int_list (val : Value) : outcome MachineError (list Z) :=
  let? items := get_list val in
  collect (fun c => match c with
    | Constant_Integer i => Ok i
    | other => mismatch "integer list element" other
    end) items.
Definition get_bool_list (val : Value) : outcome MachineError (list bool) :=
  let? items := get_list val in
  collect (fun c => match c with
    | Constant_Bool b => Ok b
    | other => mismatch "bool list element" other
    end) items.

Definition arg_int args i := let? v := arg args i in get_int v.
Definition arg_bool args i := let? v := arg args i in get_bool v.
Definition arg_bytestring args i := let? v := arg args i in get_bytestring v.
Definition arg_string args i := let? v := arg args i in get_string v.
Definition arg_data args i := let? v := arg args i in get_data v.
Definition arg_list args i := let? v := arg args i in get_list v.
Definition arg_g1 args i := let? v := arg args i in get_g1 v.
Definition arg_g2 args i := let? v := arg args i in get_g2 v.
Definition arg_ml args i := let? v := arg args i in get_ml v.

Definition int_binop (args : list Value) (op : Z -> Z -> outcome MachineError Z)
    : outcome MachineError Value :=
  let? a := arg_int args 0 in
  let? b := arg_int args 1 in
  let? r := op a b in
  Ok (Value_Constant (Constant_Integer r)).

(** ** Integers and byte strings *)

Definition bigint_to_i128_for_error (value : Z) : Z :=
  Z.max (- 2 ^ 127) (Z.min value (2 ^ 127 - 1)).

Definition integer_to_bytestring (little_endian : bool) (required_len value : Z)
    : outcome MachineError (list Z) :=
  if value <? 0 then Err (BuiltinError "integerToByteString" "negative integer")
  else if required_len <? 0 then
    Err (BuiltinError "integerToByteString" "negative required length")
  else if 8192 <? required_len then
    Err (BuiltinError "integerToByteString" "required length too large")
  else
    let req := Z.to_nat required_len in
    if value =? 0 then Ok (repeat 0 req)
    else
      let big_endian := BigInt_to_bytes_be value in
      let? result :=
        if (0 <? req)%nat then
          if (req <? length big_endian)%nat then
            Err (BuiltinError "integerToByteString" "integer requires more bytes than allowed")
          else Ok (repeat 0 (req - length big_endian) ++ big_endian)%list
        else Ok big_endian in
      Ok (if little_endian then reverse result else result).

Definition bytestring_to_integer (little_endian : bool) (bs : list Z) : Z :=
  match bs with
  | [] => 0
  | _ => if little_endian then from_be (reverse bs) else from_be bs
  end.

Definition int_to_scalar_bytes (val : Z) : list Z * bool :=
  if Z.abs val =? 0 then ([0], false) else (BigInt_to_bytes_be (Z.abs val), val <? 0).

(** [base.modpow(exp, m)] for a positive [m]. *)
Definition exp_mod_integer (base exp modulus : Z) : outcome MachineError Z :=
  if modulus =? 0 then Err DivisionByZero
  else if exp <? 0 then Err (BuiltinError "expModInteger" "negative exponent")
  else
    let m := Z.abs modulus in
    if m =? 1 then Ok 0 else Ok (Zpow_mod base exp m).

(** ** Bitwise operations *)

Definition bitwise_binop (a b : list Z) (pad : bool) (op : Z -> Z -> Z) : list Z :=
  let '(shorter, longer) := if (length a <=? length b)%nat then (a, b) else (b, a) in
  let offset := (length longer - length shorter)%nat in
  if negb pad then zip_with op (drop offset longer) shorter
  else (map (fun byte => op byte 0) (take offset longer)
        ++ zip_with op (drop offset longer) shorter)%list.

(** [!b] on [u8]. *)
Definition not8 (b : Z) : Z := Z.lxor b 255.

Definition read_bit (bs : list Z) (bit_index : Z) : outcome MachineError bool :=
  if (bit_index <? 0) || (zlength bs * 8 <=? bit_index) then
    Err (IndexOutOfBounds (bigint_to_i128_for_error bit_index) (zlength bs * 8))
  else
    let byte_idx := zlength bs - 1 - bit_index / 8 in
    match bs !! Z.to_nat byte_idx with
    | Some b => Ok (Z.land (Z.shiftr b (bit_index mod 8)) 1 =? 1)
    | None => Panic
    end.

Definition write_bit (len : Z) (result : list Z) (idx : Z) (val : bool)
    : outcome MachineError (list Z) :=
  if (idx <? 0) || (len * 8 <=? idx) then
    Err (IndexOutOfBounds (bigint_to_i128_for_error idx) (len * 8))
  else
    let byte_idx := Z.to_nat (zlength result - 1 - idx / 8) in
    let mask := Z.shiftl 1 (idx mod 8) in
    match result !! byte_idx with
    | Some b => Ok (<[byte_idx := if val then Z.lor b mask else Z.land b (not8 mask)]> result)
    | None => Panic
    end.

Fixpoint write_bits_loop (len : Z) (result : list Z) (writes : list (Z * bool))
    : outcome MachineError (list Z) :=
  match writes with
  | [] => Ok result
  | (idx, val) :: writes =>
      let? result := write_bit len result idx val in write_bits_loop len result writes
  end.

Definition write_bits (bs : list Z) (indices : list Z) (values : list bool)
    : outcome MachineError (list Z) :=
  if negb (length indices =? length values)%nat then
    Err (BuiltinError "writeBits" "indices length != values length")
  else write_bits_loop (zlength bs) bs (zip indices values).

(** Byte [i] of the result of a left shift: it only depends on two bytes. *)
Definition shift_left_byte (bs : list Z) (byte_shift bit_shift : nat) (i : nat) : Z :=
  if (i + byte_shift <? length bs)%nat then
    Z.lor (wrap8 (Z.shiftl (bs !!! (i + byte_shift)%nat) (Z.of_nat bit_shift)))
      (if (0 <? bit_shift)%nat && (i + byte_shift + 1 <? length bs)%nat
       then Z.shiftr (bs !!! (i + byte_shift + 1)%nat) (8 - Z.of_nat bit_shift) else 0)
  else 0.
Definition shift_right_byte (bs : list Z) (byte_shift bit_shift : nat) (i : nat) : Z :=
  if (byte_shift <=? i)%nat then
    Z.lor (Z.shiftr (bs !!! (i - byte_shift)%nat) (Z.of_nat bit_shift))
      (if (0 <? bit_shift)%nat && (byte_shift <? i)%nat
       then wrap8 (Z.shiftl (bs !!! (i - byte_shift - 1)%nat) (8 - Z.of_nat bit_shift)) else 0)
  else 0.

Definition shift_bytestring (bs : list Z) (shift : Z) : list Z :=
  match bs with
  | [] => []
  | _ =>
      if zlength bs * 8 <=? Z.abs shift then repeat 0 (length bs)
      else
        let byte_shift := Z.to_nat (Z.abs shift / 8) in
        let bit_shift := Z.to_nat (Z.abs shift mod 8) in
        if 0 <? shift then map (shift_left_byte bs byte_shift bit_shift) (seq 0 (length bs))
        else if shift <? 0 then
          map (shift_right_byte bs byte_shift bit_shift) (seq 0 (length bs))
        else bs
  end.

Definition rotate_bytestring (bs : list Z) (rot : Z) : list Z :=
  match bs with
  | [] => []
  | _ =>
      let total_bits := zlength bs * 8 in
      let effective := rot mod total_bits in
      if effective =? 0 then bs
      else zip_with Z.lor (shift_bytestring bs effective)
             (shift_bytestring bs (effective - total_bits))
  end.

(** [u8::count_ones], [u8::trailing_zeros]. *)
Definition bits8 : list Z := [0; 1; 2; 3; 4; 5; 6; 7].
Definition count_ones (b : Z) : Z := zlength (List.filter (Z.testbit b) bits8).
Definition trailing_zeros (b : Z) : Z := default 8 (head (List.filter (Z.testbit b) bits8)).

(** The scan from the last byte, which has number [n] from the end. *)
Fixpoint find_first_set_bit_from (n : Z) (rev_bs : list Z) : Z :=
  match rev_bs with
  | [] => -1
  | b :: rest =>
      if negb (b =? 0) then n * 8 + trailing_zeros b else find_first_set_bit_from (n + 1) rest
  end.
Definition find_first_set_bit (bs : list Z) : Z := find_first_set_bit_from 0 (reverse bs).

(** ** Other helpers *)

(** [<] and [<=] on byte vectors are lexicographic. *)
Fixpoint bytes_lt (a b : list Z) : bool :=
  match a, b with
  | _, [] => false
  | [], _ :: _ => true
  | x :: a, y :: b => (x <? y) || ((x =? y) && bytes_lt a b)
  end.
Definition bytes_le (a b : list Z) : bool := negb (bytes_lt b a).

Definition slice_bytestring (start count : Z) (bs : list Z) : list Z :=
  let start_idx := Z.max start 0 in
  let end_idx := Z.min (start + count) (zlength bs) in
  if end_idx <=? start_idx then [] else zslice start_idx end_idx bs.

Definition cons_byte (variant : BuiltinSemanticsVariant) (byte_val : Z)
    : outcome MachineError Z :=
  match variant with
  | Variant_A | Variant_B => Ok (byte_val mod 256)
  | Variant_C =>
      if (byte_val <? 0) || (255 <? byte_val)
      then Err (IndexOutOfBounds (bigint_to_i128_for_error byte_val) 256)
      else Ok byte_val
  end.

Definition replicate_byte (len byte_val : Z) : outcome MachineError (list Z) :=
  if (len <? 0) || (8192 <? len) then
    Err (BuiltinError "replicateByte" "length out of range")
  else if (byte_val <? 0) || (255 <? byte_val) then
    Err (BuiltinError "replicateByte" "byte value out of range")
  else Ok (repeat byte_val (Z.to_nat len)).

Definition verify_ed25519 (vkey msg sig : list Z) : bool :=
  if negb (zlength vkey =? 32) || negb (zlength sig =? 64) then false
  else ed25519_verify vkey msg sig.

(** [unwrap_or(false)] *)
Definition unwrap_or_false (r : string + bool) : bool :=
  match r with inr b => b | inl _ => false end.
(** [map_err(|e| MachineError::CryptoError(..))] *)
Definition crypto_result {A} (r : string + A) : outcome MachineError A :=
  match r with inr a => Ok a | inl e => Err (CryptoError e) end.

Definition VInt (n : Z) : Value := Value_Constant (Constant_Integer n).
Definition VBool (b : bool) : Value := Value_Constant (Constant_Bool b).
Definition VBytes (bs : list Z) : Value := Value_Constant (Constant_ByteString bs).
Definition VString (s : list Z) : Value := Value_Constant (Constant_String s).
Definition VData (d : PlutusData) : Value := Value_Constant (Constant_Data d).
Definition VList (ty : Ty) (items : list Constant) : Value :=
  Value_Constant (Constant_ProtoList ty items).
Definition VG1 (e : G1Element) : Value := Value_Constant (Constant_Bls12_381_G1_Element e).
Definition VG2 (e : G2Element) : Value := Value_Constant (Constant_Bls12_381_G2_Element e).
Definition VMl (r : MlResult) : Value := Value_Constant (Constant_Bls12_381_MlResult r).

(** ** Dispatch *)

Definition eval_integer (f : DefaultFun) (args : list Value) : outcome MachineError Value :=
  let nonzero op := fun a b => if b =? 0 then Err DivisionByZero else Ok (op a b) in
  match f with
  | AddInteger => int_binop args (fun a b => Ok (a + b))
  | SubtractInteger => int_binop args (fun a b => Ok (a - b))
  | MultiplyInteger => int_binop args (fun a b => Ok (a * b))
  | DivideInteger => int_binop args (nonzero Z.div)
  | QuotientInteger => int_binop args (nonzero Z.quot)
  | RemainderInteger => int_binop args (nonzero Z.rem)
  | ModInteger => int_binop args (nonzero Z.modulo)
  | EqualsInteger => let? a := arg_int args 0 in let? b := arg_int args 1 in Ok (VBool (a =? b))
  | LessThanInteger => let? a := arg_int args 0 in let? b := arg_int args 1 in Ok (VBool (a <? b))
  | LessThanEqualsInteger =>
      let? a := arg_int args 0 in let? b := arg_int args 1 in Ok (VBool (a <=? b))
  | _ => Panic
  end.

Definition eval_bytestring (variant : BuiltinSemanticsVariant) (f : DefaultFun)
    (args : list Value) : outcome MachineError Value :=
  match f with
  | AppendByteString =>
      let? a := arg_bytestring args 0 in let? b := arg_bytestring args 1 in
      Ok (VBytes (a ++ b)%list)
  | ConsByteString =>
      let? byte_val := arg_int args 0 in
      let? bs := arg_bytestring args 1 in
      let? byte := cons_byte variant byte_val in
      Ok (VBytes (byte :: bs))
  | SliceByteString =>
      let? start := arg_int args 0 in
      let? count := arg_int args 1 in
      let? bs := arg_bytestring args 2 in
      Ok (VBytes (slice_bytestring start count bs))
  | LengthOfByteString => let? bs := arg_bytestring args 0 in Ok (VInt (zlength bs))
  | IndexByteString =>
      let? bs := arg_bytestring args 0 in
      let? idx := arg_int args 1 in
      if (idx <? 0) || (zlength bs <=? idx) then
        Err (IndexOutOfBounds (bigint_to_i128_for_error idx) (zlength bs))
      else
        match bs !! Z.to_nat idx with Some b => Ok (VInt b) | None => Panic end
  | EqualsByteString =>
      let? a := arg_bytestring args 0 in let? b := arg_bytestring args 1 in
      Ok (VBool (bool_decide (a = b)))
  | LessThanByteString =>
      let? a := arg_bytestring args 0 in let? b := arg_bytestring args 1 in
      Ok (VBool (bytes_lt a b))
  | LessThanEqualsByteString =>
      let? a := arg_bytestring args 0 in let? b := arg_bytestring args 1 in
      Ok (VBool (bytes_le a b))
  | _ => Panic
  end.

Definition eval_crypto (f : DefaultFun) (args : list Value) : outcome MachineError Value :=
  let hash h := let? bs := arg_bytestring args 0 in Ok (VBytes (h bs)) in
  let verify check :=
    let? vk := arg_bytestring args 0 in
    let? msg := arg_bytestring args 1 in
    let? sig := arg_bytestring args 2 in
    Ok (VBool (check vk msg sig)) in
  match f with
  | Sha2_256 => hash sha2_256_hash
  | Sha3_256 => hash sha3_256_hash
  | Blake2b_256 => hash hash_bytes_256
  | Keccak_256 => hash keccak_256_hash
  | Ripemd_160 => hash ripemd_160_hash
  | Blake2b_224 => hash hash_bytes_224
  | VerifyEd25519Signature => verify verify_ed25519
  | VerifyEcdsaSecp256k1Signature =>
      verify (fun vk msg sig => unwrap_or_false (secp256k1_verify_ecdsa vk msg sig))
  | VerifySchnorrSecp256k1Signature =>
      verify (fun vk msg sig => unwrap_or_false (secp256k1_verify_schnorr vk msg sig))
  | _ => Panic
  end.

Definition dispatch_bls12_381_builtin (f : DefaultFun) (args : list Value)
    : outcome MachineError Value :=
  match f with
  | Bls12_381_G1_Add => let? a := arg_g1 args 0 in let? b := arg_g1 args 1 in Ok (VG1 (g1_add a b))
  | Bls12_381_G1_Neg => let? a := arg_g1 args 0 in Ok (VG1 (g1_neg a))
  | Bls12_381_G1_ScalarMul =>
      let? scalar := arg_int args 0 in
      let? point := arg_g1 args 1 in
      let '(magnitude, negative) := int_to_scalar_bytes scalar in
      Ok (VG1 (g1_scalar_mul magnitude negative point))
  | Bls12_381_G1_Equal =>
      let? a := arg_g1 args 0 in let? b := arg_g1 args 1 in Ok (VBool (g1_equal a b))
  | Bls12_381_G1_HashToGroup =>
      let? msg := arg_bytestring args 0 in
      let? dst := arg_bytestring args 1 in
      let? point := crypto_result (g1_hash_to_group msg dst) in
      Ok (VG1 point)
  | Bls12_381_G1_Compress => let? point := arg_g1 args 0 in Ok (VBytes (g1_compress point))
  | Bls12_381_G1_Uncompress =>
      let? bs := arg_bytestring args 0 in
      let? point := crypto_result (g1_uncompress bs) in
      Ok (VG1 point)
  | Bls12_381_G2_Add => let? a := arg_g2 args 0 in let? b := arg_g2 args 1 in Ok (VG2 (g2_add a b))
  | Bls12_381_G2_Neg => let? a := arg_g2 args 0 in Ok (VG2 (g2_neg a))
  | Bls12_381_G2_ScalarMul =>
      let? scalar := arg_int args 0 in
      let? point := arg_g2 args 1 in
      let '(magnitude, negative) := int_to_scalar_bytes scalar in
      Ok (VG2 (g2_scalar_mul magnitude negative point))
  | Bls12_381_G2_Equal =>
      let? a := arg_g2 args 0 in let? b := arg_g2 args 1 in Ok (VBool (g2_equal a b))
  | Bls12_381_G2_HashToGroup =>
      let? msg := arg_bytestring args 0 in
      let? dst := arg_bytestring args 1 in
      let? point := crypto_result (g2_hash_to_group msg dst) in
      Ok (VG2 point)
  | Bls12_381_G2_Compress => let? point := arg_g2 args 0 in Ok (VBytes (g2_compress point))
  | Bls12_381_G2_Uncompress =>
      let? bs := arg_bytestring args 0 in
      let? point := crypto_result (g2_uncompress bs) in
      Ok (VG2 point)
  | Bls12_381_MillerLoop =>
      let? g1 := arg_g1 args 0 in let? g2 := arg_g2 args 1 in Ok (VMl (miller_loop g1 g2))
  | Bls12_381_MulMlResult =>
      let? a := arg_ml args 0 in let? b := arg_ml args 1 in Ok (VMl (mul_ml_result a b))
  | Bls12_381_FinalVerify =>
      let? a := arg_ml args 0 in let? b := arg_ml args 1 in Ok (VBool (final_verify a b))
  | _ => Panic
  end.

Definition eval_string (f : DefaultFun) (args : list Value) : outcome MachineError Value :=
  match f with
  | AppendString =>
      let? a := arg_string args 0 in let? b := arg_string args 1 in Ok (VString (a ++ b)%list)
  | EqualsString =>
      let? a := arg_string args 0 in let? b := arg_string args 1 in
      Ok (VBool (bool_decide (a = b)))
  | EncodeUtf8 => let? s := arg_string args 0 in Ok (VBytes s)
  | DecodeUtf8 =>
      let? bs := arg_bytestring args 0 in
      if utf8_valid bs then Ok (VString bs) else Err InvalidUtf8
  | _ => Panic
  end.

(** Conditionals and projections, which return one of their arguments. *)
Definition eval_control (f : DefaultFun) (args : list Value) : outcome MachineError Value :=
  match f with
  | IfThenElse => let? cond := arg_bool args 0 in arg args (if cond then 1 else 2)
  | ChooseUnit => let? v := arg args 0 in let? _ := get_unit v in arg args 1
  | FstPair => let? v := arg args 0 in let? (a, _) := get_pair v in Ok (Value_Constant a)
  | SndPair => let? v := arg args 0 in let? (_, b) := get_pair v in Ok (Value_Constant b)
  | ChooseList =>
      let? list := arg_list args 0 in
      arg args (match list with [] => 1 | _ => 2 end)
  | ChooseData =>
      let? data := arg_data args 0 in
      arg args (match data with
                | Data_Constr _ _ => 1
                | Data_Map _ => 2
                | Data_List _ => 3
                | Data_Integer _ => 4
                | Data_Bytes _ => 5
                end)
  | _ => Panic
  end.

Definition eval_list (f : DefaultFun) (args : list Value) : outcome MachineError Value :=
  match f with
  | MkCons =>
      let? v := arg args 0 in
      let? elem := as_constant v in
      let? l := arg args 1 in
      let? (ty, items) := get_list_with_type l in
      Ok (VList ty (elem :: items))
  | HeadList =>
      let? list := arg_list args 0 in
      match list with [] => Err EmptyList | c :: _ => Ok (Value_Constant c) end
  | TailList =>
      let? v := arg args 0 in
      let? (ty, items) := get_list_with_type v in
      match items with [] => Err EmptyList | _ :: rest => Ok (VList ty rest) end
  | NullList =>
      let? list := arg_list args 0 in
      Ok (VBool (match list with [] => true | _ => false end))
  | _ => Panic
  end.

Definition Ty_data_pair : Ty := Ty_Pair Ty_Data Ty_Data.

Definition eval_data (f : DefaultFun) (args : list Value) : outcome MachineError Value :=
  let wrong expected data := Err (TypeMismatch expected (data_variant_name data)) in
  match f with
  | ConstrData =>
      let? tag := arg_int args 0 in
      let? v := arg args 1 in
      let? list := get_data_list v in
      if (0 <=? tag) && (tag <=? U64_MAX) then Ok (VData (Data_Constr tag list))
      else Err (BuiltinError "constrData" "constructor tag out of range")
  | MapData =>
      let? v := arg args 0 in let? list := get_data_pair_list v in Ok (VData (Data_Map list))
  | ListData =>
      let? v := arg args 0 in let? list := get_data_list v in Ok (VData (Data_List list))
  | IData => let? i := arg_int args 0 in Ok (VData (Data_Integer i))
  | BData => let? bs := arg_bytestring args 0 in Ok (VData (Data_Bytes bs))
  | UnConstrData =>
      let? data := arg_data args 0 in
      match data with
      | Data_Constr tag fields =>
          Ok (Value_Constant (Constant_ProtoPair Ty_Integer (Ty_List Ty_Data)
                (Constant_Integer tag) (Constant_ProtoList Ty_Data (map Constant_Data fields))))
      | _ => wrong "Constr data" data
      end
  | UnMapData =>
      let? data := arg_data args 0 in
      match data with
      | Data_Map entries =>
          Ok (VList Ty_data_pair
                (map (fun e => Constant_ProtoPair Ty_Data Ty_Data (Constant_Data e.1)
                                 (Constant_Data e.2)) entries))
      | _ => wrong "Map data" data
      end
  | UnListData =>
      let? data := arg_data args 0 in
      match data with
      | Data_List items => Ok (VList Ty_Data (map Constant_Data items))
      | _ => wrong "List data" data
      end
  | UnIData =>
      let? data := arg_data args 0 in
      match data with Data_Integer i => Ok (VInt i) | _ => wrong "Integer data" data end
  | UnBData =>
      let? data := arg_data args 0 in
      match data with Data_Bytes bs => Ok (VBytes bs) | _ => wrong "Bytes data" data end
  | EqualsData =>
      let? a := arg_data args 0 in let? b := arg_data args 1 in Ok (VBool (PlutusData_eq a b))
  | MkPairData =>
      let? a := arg_data args 0 in let? b := arg_data args 1 in
      Ok (Value_Constant (Constant_ProtoPair Ty_Data Ty_Data (Constant_Data a) (Constant_Data b)))
  | MkNilData => let? v := arg args 0 in let? _ := get_unit v in Ok (VList Ty_Data [])
  | MkNilPairData => let? v := arg args 0 in let? _ := get_unit v in Ok (VList Ty_data_pair [])
  | SerialiseData =>
      let? data := arg_data args 0 in
      let? bytes := map_err (fun _ => EvaluationFailure) (PlutusData_encode_cbor data) in
      Ok (VBytes bytes)
  | _ => Panic
  end.

Definition eval_bitwise (f : DefaultFun) (args : list Value) : outcome MachineError Value :=
  let logical op :=
    let? pad := arg_bool args 0 in
    let? a := arg_bytestring args 1 in
    let? b := arg_bytestring args 2 in
    Ok (VBytes (bitwise_binop a b pad op)) in
  match f with
  | IntegerToByteString =>
      let? endianness := arg_bool args 0 in
      let? required_len := arg_int args 1 in
      let? value := arg_int args 2 in
      let? bs := integer_to_bytestring endianness required_len value in
      Ok (VBytes bs)
  | ByteStringToInteger =>
      let? endianness := arg_bool args 0 in
      let? bs := arg_bytestring args 1 in
      Ok (VInt (bytestring_to_integer endianness bs))
  | AndByteString => logical Z.land
  | OrByteString => logical Z.lor
  | XorByteString => logical Z.lxor
  | ComplementByteString => let? bs := arg_bytestring args 0 in Ok (VBytes (map not8 bs))
  | ReadBit =>
      let? bs := arg_bytestring args 0 in
      let? idx := arg_int args 1 in
      let? bit := read_bit bs idx in
      Ok (VBool bit)
  | WriteBits =>
      let? bs := arg_bytestring args 0 in
      let? v := arg args 1 in
      let? indices := get_int_list v in
      let? w := arg args 2 in
      let? values := get_bool_list w in
      let? result := write_bits bs indices values in
      Ok (VBytes result)
  | ReplicateByte =>
      let? len := arg_int args 0 in
      let? byte_val := arg_int args 1 in
      let? bs := replicate_byte len byte_val in
      Ok (VBytes bs)
  | ShiftByteString =>
      let? bs := arg_bytestring args 0 in
      let? shift := arg_int args 1 in
      Ok (VBytes (shift_bytestring bs shift))
  | RotateByteString =>
      let? bs := arg_bytestring args 0 in
      let? rot := arg_int args 1 in
      Ok (VBytes (rotate_bytestring bs rot))
  | CountSetBits =>
      let? bs := arg_bytestring args 0 in
      Ok (VInt (foldr Z.add 0 (map count_ones bs)))
  | FindFirstSetBit =>
      let? bs := arg_bytestring args 0 in Ok (VInt (find_first_set_bit bs))
  | ExpModInteger =>
      let? base := arg_int args 0 in
      let? exp := arg_int args 1 in
      let? modulus := arg_int args 2 in
      if modulus =? 0 then Err DivisionByZero
      else let? result := exp_mod_integer base exp modulus in Ok (VInt result)
  | _ => Panic
  end.

(** The result and the log after the call. *)
Definition evaluate_builtin (fun_ : DefaultFun) (args : list Value) (cost_model : CostModel)
    (logs : list (list Z)) : outcome MachineError (Value * list (list Z)) :=
  let pure m := let? v := m in Ok (v, logs) in
  match fun_ with
  | AddInteger | SubtractInteger | MultiplyInteger | DivideInteger | QuotientInteger
  | RemainderInteger | ModInteger | EqualsInteger | LessThanInteger | LessThanEqualsInteger =>
      pure (eval_integer fun_ args)
  | AppendByteString | ConsByteString | SliceByteString | LengthOfByteString | IndexByteString
  | EqualsByteString | LessThanByteString | LessThanEqualsByteString =>
      pure (eval_bytestring (builtin_semantics_variant cost_model) fun_ args)
  | Sha2_256 | Sha3_256 | Blake2b_256 | VerifyEd25519Signature
  | VerifyEcdsaSecp256k1Signature | VerifySchnorrSecp256k1Signature
  | Keccak_256 | Blake2b_224 | Ripemd_160 => pure (eval_crypto fun_ args)
  | AppendString | EqualsString | EncodeUtf8 | DecodeUtf8 => pure (eval_string fun_ args)
  | IfThenElse | ChooseUnit | FstPair | SndPair | ChooseList | ChooseData =>
      pure (eval_control fun_ args)
  | Trace =>
      let? msg := arg_string args 0 in
      let? v := arg args 1 in
      Ok (v, logs ++ [msg])%list
  | MkCons | HeadList | TailList | NullList => pure (eval_list fun_ args)
  | ConstrData | MapData | ListData | IData | BData | UnConstrData | UnMapData | UnListData
  | UnIData | UnBData | EqualsData | MkPairData | MkNilData | MkNilPairData | SerialiseData =>
      pure (eval_data fun_ args)
  | Bls12_381_G1_Add | Bls12_381_G1_Neg | Bls12_381_G1_ScalarMul | Bls12_381_G1_Equal
  | Bls12_381_G1_HashToGroup | Bls12_381_G1_Compress | Bls12_381_G1_Uncompress
  | Bls12_381_G2_Add | Bls12_381_G2_Neg | Bls12_381_G2_ScalarMul | Bls12_381_G2_Equal
  | Bls12_381_G2_HashToGroup | Bls12_381_G2_Compress | Bls12_381_G2_Uncompress
  | Bls12_381_MillerLoop | Bls12_381_MulMlResult | Bls12_381_FinalVerify =>
      pure (dispatch_bls12_381_builtin fun_ args)
  | IntegerToByteString | ByteStringToInteger | AndByteString | OrByteString | XorByteString
  | ComplementByteString | ReadBit | WriteBits | ReplicateByte | ShiftByteString
  | RotateByteString | CountSetBits | FindFirstSetBit | ExpModInteger =>
      pure (eval_bitwise fun_ args)
  end.
End builtins.

(** ** Saturated calls do not crash *)

(** [m] ends in a value that satisfies [P] or in an error the ledger reports
    as an evaluation failure: it neither panics nor leaves the language. *)
Definition operational {A} (P : A -> Prop) (m : outcome MachineError A) : Prop :=
  match m with
  | Ok a => P a
  | Err e => is_operational e = true
  | Panic | OutOfFuel => False
  end.

Lemma operational_bind {A B} (P : A -> Prop) (Q : B -> Prop) m (k : A -> outcome MachineError B) :
  operational P m -> (forall a, P a -> operational Q (k a)) -> operational Q (obind m k).
Proof. destruct m; simpl; auto. Qed.

Lemma operational_mono {A} (P Q : A -> Prop) m :
  operational P m -> (forall a, P a -> Q a) -> operational Q m.
Proof. destruct m; simpl; auto. Qed.

Section safety.
  Context `{PlutusCrypto}.

Definition any {A} (a : A) : Prop := True.

Lemma operational_arg args i :
  (i < length args)%nat -> operational (fun v => v ∈ args) (arg args i).
Proof.
  intros Hi. unfold arg. apply lookup_lt_is_Some in Hi as [v E]. rewrite E.
  by eapply list_elem_of_lookup_2.
Qed.

Lemma operational_constant v : operational any (as_constant v).
Proof. by destruct v. Qed.

Lemma operational_collect {A B} (f : A -> outcome MachineError B) l :
  (forall x, operational any (f x)) -> operational any (collect f l).
Proof.
  intros Hf. induction l as [|x l IH]; simpl; [done|].
  eapply operational_bind; [apply Hf|]. intros y _. eapply operational_bind; [apply IH|done].
Qed.

(** Reading a constant of one kind. *)
Ltac op_get :=
  eapply operational_bind; [apply operational_constant|]; intros c _; by destruct c.

Lemma operational_int v : operational any (get_int v).
Proof. op_get. Qed.
Lemma operational_bool v : operational any (get_bool v).
Proof. op_get. Qed.
Lemma operational_unit v : operational any (get_unit v).
Proof. op_get. Qed.
Lemma operational_bytestring v : operational any (get_bytestring v).
Proof. op_get. Qed.
Lemma operational_string v : operational any (get_string v).
Proof. op_get. Qed.
Lemma operational_data v : operational any (get_data v).
Proof. op_get. Qed.
Lemma operational_list_ty v : operational any (get_list_with_type v).
Proof. op_get. Qed.
Lemma operational_pair v : operational any (get_pair v).
Proof. op_get. Qed.
Lemma operational_g1 v : operational any (get_g1 v).
Proof. op_get. Qed.
Lemma operational_g2 v : operational any (get_g2 v).
Proof. op_get. Qed.
Lemma operational_ml v : operational any (get_ml v).
Proof. op_get. Qed.
Lemma operational_list v : operational any (get_list v).
Proof. eapply operational_bind; [apply operational_list_ty|]. by intros [ty l]. Qed.

Lemma operational_data_of c : operational any (data_of c).
Proof. by destruct c. Qed.
Lemma operational_data_list v : operational any (get_data_list v).
Proof.
  eapply operational_bind; [apply operational_list|]. intros l _.
  apply operational_collect. by intros [].
Qed.
Lemma operational_data_pairs v : operational any (get_data_pair_list v).
Proof.
  eapply operational_bind; [apply operational_list|]. intros l _.
  apply operational_collect. intros []; try done.
  eapply operational_bind; [apply operational_data_of|]. intros ka _.
  eapply operational_bind; [apply operational_data_of|done].
Qed.
Lemma operational_int_list v : operational any (get_int_list v).
Proof.
  eapply operational_bind; [apply operational_list|]. intros l _.
  apply operational_collect. by intros [].
Qed.
Lemma operational_bool_list v : operational any (get_bool_list v).
Proof.
  eapply operational_bind; [apply operational_list|]. intros l _.
  apply operational_collect. by intros [].
Qed.

Lemma operational_crypto {A} (r : string + A) : operational any (crypto_result r).
Proof. by destruct r. Qed.

Lemma operational_to_bytes le len v : operational any (integer_to_bytestring le len v).
Proof. unfold integer_to_bytestring. by repeat case_match. Qed.
Lemma operational_exp_mod b e m : operational any (exp_mod_integer b e m).
Proof. unfold exp_mod_integer. by repeat case_match. Qed.
Lemma operational_replicate n b : operational any (replicate_byte n b).
Proof. unfold replicate_byte. by repeat case_match. Qed.
Lemma operational_cons_byte v b : operational any (cons_byte v b).
Proof. unfold cons_byte. by repeat case_match. Qed.

(** The byte that holds a bit of a byte string of [len] bytes. *)
Lemma bit_byte_range len i :
  0 <= i < len * 8 -> 0 <= len - 1 - i / 8 < len.
Proof.
  intros Hi. pose proof (Z.div_pos i 8). pose proof (Z.div_lt_upper_bound i 8 len). lia.
Qed.

Lemma operational_read_bit bs i : operational any (read_bit bs i).
Proof.
  unfold read_bit. case_match eqn:E; [done|]. zbool.
  destruct (bit_byte_range (zlength bs) i) as [??]; [lia|].
  destruct (lookup_lt_is_Some_2 bs (Z.to_nat (zlength bs - 1 - i / 8))) as [b ->]; [|done].
  unfold zlength in *. lia.
Qed.

Lemma operational_write_bit len result i b :
  zlength result = len -> operational (fun r => zlength r = len) (write_bit len result i b).
Proof.
  intros Hl. unfold write_bit. case_match eqn:E; [done|]. zbool.
  destruct (bit_byte_range len i) as [??]; [lia|].
  destruct (lookup_lt_is_Some_2 result (Z.to_nat (zlength result - 1 - i / 8))) as [x ->];
    [unfold zlength in *; lia|].
  simpl. unfold zlength in *. by rewrite length_insert.
Qed.

Lemma operational_write_bits bs ids vs : operational any (write_bits bs ids vs).
Proof.
  unfold write_bits. case_match; [done|].
  assert (Hl : forall ws result, zlength result = zlength bs ->
            operational any (write_bits_loop (zlength bs) result ws)).
  { induction ws as [|[i v] ws IH]; intros result Hr; simpl; [done|].
    eapply operational_bind; [by apply operational_write_bit|]. intros r. apply IH. }
  by apply Hl.
Qed.
End safety.

Create HintDb operational.
#[export] Hint Resolve operational_constant operational_int operational_bool operational_unit
  operational_bytestring operational_string operational_data operational_list_ty
  operational_pair operational_g1 operational_g2 operational_ml operational_list
  operational_data_list operational_data_pairs operational_int_list operational_bool_list
  operational_crypto operational_to_bytes operational_exp_mod operational_replicate
  operational_cons_byte operational_read_bit operational_write_bits : operational.

(** Walk through a chain of argument reads. *)
Ltac op_steps :=
  repeat match goal with
  | |- operational _ (obind (obind _ _) _) => rewrite obind_assoc
  | |- operational _ (obind (arg _ _) _) =>
      eapply operational_bind; [apply operational_arg; simpl in *; lia|]; intros ? ?
  | |- operational _ (arg _ _) =>
      eapply operational_mono; [apply operational_arg; simpl in *; lia|]; intros ? ?; by right
  | |- operational _ (obind (Ok _) _) => cbn [obind]
  | |- operational _ (obind (Err _) _) => cbn [obind]
  | |- operational _ (obind (if _ then _ else _) _) => case_match
  | |- operational _ (obind (match _ with _ => _ end) _) => case_match
  | |- operational _ (obind _ _) =>
      eapply operational_bind; [solve [eauto with operational]|]; intros ? ?
  | |- operational _ (let '(_, _) := ?p in _) => destruct p
  | |- operational _ (if _ then _ else _) => case_match
  | |- operational _ (match _ with _ => _ end) => case_match
  | |- operational _ (Ok _) => simpl; first [left; by eexists | by right | done]
  | |- operational _ (Err _) => done
  end.

Section builtin_safety.
  Context `{PlutusCrypto}.

(** A constant, or one of the arguments. *)
Definition from_args (args : list Value) (v : Value) : Prop :=
  (exists c, v = Value_Constant c) \/ v ∈ args.

Lemma builtin_operational f args cm logs :
  (snd (arity f) <= length args)%nat ->
  operational (fun r => from_args args r.1) (evaluate_builtin f args cm logs).
Proof.
  intros Hlen. unfold from_args.
  destruct f; cbn [arity snd] in Hlen;
    cbn [evaluate_builtin eval_integer eval_bytestring eval_crypto eval_string eval_control
         eval_list eval_data eval_bitwise dispatch_bls12_381_builtin int_binop];
    unfold int_binop, arg_int, arg_bool, arg_bytestring, arg_string, arg_data, arg_list, arg_g1,
      arg_g2, arg_ml; op_steps.
  - match goal with E : _ !! _ = None |- _ => apply lookup_ge_None in E end.
    zbool. unfold zlength in *. lia.
  - destruct a0; op_steps.
  - destruct a0; op_steps.
  - destruct a0; op_steps.
  - rewrite encode_cbor_encoding. cbn [map_err]. op_steps.
Qed.
End builtin_safety.
