(* ===== verification/BuiltinFacts.v ===== *)
(** * What the integer and bit builtins compute

    The builtins on byte strings work byte by byte. Here a byte string is read
    as one number, its bytes most significant first, and the builtins are
    proved to be the shifts, rotations, bit tests and conversions of that
    number. *)

From S2P Require Import Prelude Cbor PlutusData Uplc CostModel Builtins.
Local Open Scope Z_scope.

(** ** Bits of a byte string *)

(** Bit [k], counted from the least significant bit of the last byte. *)
Definition bit_at (bs : list Z) (k : Z) : bool :=
  match bs !! Z.to_nat (zlength bs - 1 - k / 8) with
  | Some b => (0 <=? k) && (k <? 8 * zlength bs) && Z.testbit b (k mod 8)
  | None => false
  end.

Lemma bit_at_low bs k : k < 0 -> bit_at bs k = false.
Proof.
  intros Hk. unfold bit_at. destruct (bs !! _); [|done].
  by rewrite (proj2 (Z.leb_gt 0 k)) by lia.
Qed.
Lemma bit_at_high bs k : 8 * zlength bs <= k -> bit_at bs k = false.
Proof.
  intros Hk. unfold bit_at. destruct (bs !! _); [|done].
  rewrite (proj2 (Z.ltb_ge k _)) by lia. by rewrite andb_false_r.
Qed.

(** Bit [8q + r] is bit [r] of the byte that is [q] from the end. *)
Lemma bit_at_byte bs q r b :
  0 <= r < 8 -> 0 <= q -> bs !! Z.to_nat (zlength bs - 1 - q) = Some b -> q < zlength bs ->
  bit_at bs (8 * q + r) = Z.testbit b r.
Proof.
  intros Hr Hq Hb Hlt. unfold bit_at.
  replace ((8 * q + r) / 8) with q by (rewrite Z.mul_comm, Z.div_add_l, Z.div_small; lia).
  replace ((8 * q + r) mod 8) with r
    by (rewrite Z.add_comm, Z.mul_comm, Z.mod_add, Z.mod_small; lia).
  rewrite Hb, (proj2 (Z.leb_le 0 _)), (proj2 (Z.ltb_lt _ _)) by lia. done.
Qed.

Lemma from_be_app bs b : from_be (bs ++ [b]) = 256 * from_be bs + b.
Proof. unfold from_be. rewrite fold_left_app. simpl. lia. Qed.

(** The bits of the number are the bits of the byte string. *)
Lemma testbit_from_be bs k : bytes_ok bs -> 0 <= k -> Z.testbit (from_be bs) k = bit_at bs k.
Proof.
  intros Hbs. revert k. induction bs as [|b bs IH] using rev_ind; intros k Hk.
  - rewrite bit_at_high by (unfold zlength; simpl; lia). apply Z.bits_0.
  - apply Forall_app in Hbs as [Hbs Hb]. inversion Hb as [|? ? Hb8 _]; subst.
    unfold u8, U8_MAX in Hb8. rewrite from_be_app.
    assert (Hz : zlength (bs ++ [b]) = zlength bs + 1) by (rewrite zlength_app; done).
    pose proof (zlength_nonneg bs) as Hn.
    destruct (decide (k < 8)) as [Hlt|Hge].
    + replace (256 * from_be bs + b) with (b + from_be bs * 2 ^ 8) by lia.
      rewrite <- (Z.mod_pow2_bits_low _ 8) by lia. rewrite Z.mod_add, Z.mod_small by lia.
      replace k with (8 * 0 + k) at 2 by lia. symmetry.
      apply bit_at_byte; try lia. rewrite Hz. replace (zlength bs + 1 - 1 - 0) with (zlength bs) by lia.
      unfold zlength. rewrite Nat2Z.id, lookup_app_r, Nat.sub_diag by lia. done.
    + replace k with ((k - 8) + 8) at 1 by lia.
      rewrite <- Z.shiftr_spec by lia. rewrite Z.shiftr_div_pow2 by lia.
      replace ((256 * from_be bs + b) / 2 ^ 8) with (from_be bs).
      2: { change (2 ^ 8) with 256. rewrite Z.mul_comm, Z.div_add_l, Z.div_small by lia. lia. }
      rewrite IH by (done || lia). unfold bit_at. rewrite Hz.
      assert (Hd : k / 8 = (k - 8) / 8 + 1).
      { replace k with (k - 8 + 1 * 8) at 1 by lia. by rewrite Z.div_add by lia. }
      assert (Hm : k mod 8 = (k - 8) mod 8).
      { replace k with (k - 8 + 1 * 8) at 1 by lia. by rewrite Z.mod_add by lia. }
      pose proof (Z.div_pos (k - 8) 8 ltac:(lia) ltac:(lia)) as Hdp.
      rewrite Hd, Hm. replace (zlength bs + 1 - 1 - ((k - 8) / 8 + 1))
        with (zlength bs - 1 - (k - 8) / 8) by lia.
      destruct (decide (k - 8 < 8 * zlength bs)) as [Hin|Hout].
      * assert ((k - 8) / 8 < zlength bs) by (apply Z.div_lt_upper_bound; lia).
        rewrite lookup_app_l by (unfold zlength in *; lia).
        destruct (bs !! _); [|done].
        rewrite !(proj2 (Z.leb_le 0 _)), !(proj2 (Z.ltb_lt _ _)) by lia. done.
      * rewrite !(proj2 (Z.ltb_ge _ _)) by lia. rewrite !andb_false_r. by repeat case_match.
Qed.

(** Byte strings of the same length with the same bits are the same number. *)
Lemma from_be_bits bs v :
  bytes_ok bs -> 0 <= v -> (forall k, 0 <= k -> bit_at bs k = Z.testbit v k) -> from_be bs = v.
Proof.
  intros Hb Hv Hk. apply Z.bits_inj'. intros k Hk0. by rewrite testbit_from_be, Hk by done.
Qed.

(** ** Shifts *)

Lemma byte_high b j : u8 b -> 8 <= j -> Z.testbit b j = false.
Proof.
  unfold u8, U8_MAX. intros Hb Hj. destruct (decide (b = 0)) as [->|]; [apply Z.bits_0|].
  apply Z.bits_above_log2; [lia|]. apply Z.log2_lt_pow2; [lia|].
  eapply Z.lt_le_trans; [|apply (Z.pow_le_mono_r 2 8); lia]. lia.
Qed.

Lemma testbit_wrap8_shiftl b s r :
  0 <= r < 8 -> Z.testbit (wrap8 (Z.shiftl b s)) r = Z.testbit b (r - s).
Proof.
  intros Hr. unfold wrap8. rewrite Z.mod_pow2_bits_low by lia. by rewrite Z.shiftl_spec by lia.
Qed.

Lemma lookup_total_byte (bs : list Z) i : (i < length bs)%nat -> bs !! i = Some (bs !!! i).
Proof. intros Hi. apply list_lookup_lookup_total_lt. done. Qed.

Lemma Forall_lookup_byte (bs : list Z) i : bytes_ok bs -> (i < length bs)%nat -> u8 (bs !!! i).
Proof. intros Hb Hi. eapply Forall_lookup_1; [exact Hb|]. by apply lookup_total_byte. Qed.

(** A bit of the result of a map over the positions. *)
Lemma bit_at_map_seq (f : nat -> Z) n q r :
  0 <= r < 8 -> 0 <= q < Z.of_nat n ->
  bit_at (map f (seq 0 n)) (8 * q + r) = Z.testbit (f (n - 1 - Z.to_nat q)%nat) r.
Proof.
  intros Hr Hq. assert (Hz : zlength (map f (seq 0 n)) = Z.of_nat n)
    by (unfold zlength; by rewrite length_map, length_seq).
  apply bit_at_byte; rewrite ?Hz; try lia.
  rewrite list_lookup_fmap, lookup_seq_lt by lia. simpl. do 2 f_equal. lia.
Qed.

(** Splitting a bit position into byte and bit. *)
Lemma split_position k w : 0 <= k < 8 * w -> exists q r, k = 8 * q + r /\ 0 <= r < 8 /\ 0 <= q < w.
Proof.
  intros Hk. exists (k / 8), (k mod 8). pose proof (Z.div_mod k 8 ltac:(lia)).
  pose proof (Z.mod_pos_bound k 8 ltac:(lia)). lia.
Qed.

Lemma bit_shift_left bs n k :
  bytes_ok bs -> 0 < n < 8 * zlength bs -> 0 <= k < 8 * zlength bs ->
  bit_at (map (shift_left_byte bs (Z.to_nat (n / 8)) (Z.to_nat (n mod 8))) (seq 0 (length bs))) k
  = bit_at bs (k - n).
Proof.
  intros Hb Hn Hk. destruct (split_position k (zlength bs) Hk) as (q & r & -> & Hr & Hq).
  destruct (split_position n (zlength bs) ltac:(lia)) as (B & s & -> & Hs & HB).
  replace ((8 * B + s) / 8) with B by (rewrite Z.mul_comm, Z.div_add_l, Z.div_small; lia).
  replace ((8 * B + s) mod 8) with s
    by (rewrite Z.add_comm, Z.mul_comm, Z.mod_add, Z.mod_small; lia).
  assert (HL : zlength bs = Z.of_nat (length bs)) by done. rewrite HL in *.
  rewrite bit_at_map_seq by lia. unfold shift_left_byte. rewrite Z2Nat.id by lia.
  set (i := (length bs - 1 - Z.to_nat q)%nat).
  destruct (decide (q < B)) as [Hlt|Hge].
  { rewrite (proj2 (Nat.ltb_ge _ _)) by lia. rewrite Z.bits_0, bit_at_low by lia. done. }
  rewrite (proj2 (Nat.ltb_lt _ _)) by lia.
  rewrite Z.lor_spec, testbit_wrap8_shiftl by lia.
  destruct (decide (s <= r)) as [Hsr|Hsr].
  - replace (8 * q + r - (8 * B + s)) with (8 * (q - B) + (r - s)) by lia.
    rewrite (bit_at_byte bs (q - B) (r - s) (bs !!! (i + Z.to_nat B)%nat)); try lia.
    2: { rewrite HL. replace (Z.to_nat _) with (i + Z.to_nat B)%nat by lia. apply lookup_total_byte. lia. }
    destruct (_ && _) eqn:E; [|by rewrite Z.bits_0, orb_false_r].
    apply andb_true_iff in E as [E1 E2]. apply Nat.ltb_lt in E1, E2.
    rewrite Z.shiftr_spec by lia. rewrite (byte_high (bs !!! (i + Z.to_nat B + 1)%nat));
      [apply orb_false_r|apply Forall_lookup_byte; [done|lia]|lia].
  - rewrite (Z.testbit_neg_r _ (r - s)) by lia. rewrite orb_false_l.
    replace (8 * q + r - (8 * B + s)) with (8 * (q - B - 1) + (8 + r - s)) by lia.
    rewrite (proj2 (Nat.ltb_lt 0 _)) by lia. cbn [andb].
    destruct (decide (q = B)) as [->|].
    + rewrite (proj2 (Nat.ltb_ge _ _)) by lia. rewrite Z.bits_0, bit_at_low by lia. done.
    + rewrite (proj2 (Nat.ltb_lt _ (length bs))) by lia. rewrite Z.shiftr_spec by lia.
      rewrite (bit_at_byte bs (q - B - 1) (8 + r - s) (bs !!! (i + Z.to_nat B + 1)%nat)); try lia.
      { f_equal. lia. }
      rewrite HL. replace (Z.to_nat _) with (i + Z.to_nat B + 1)%nat by lia.
      apply lookup_total_byte. lia.
Qed.

Lemma bit_shift_right bs n k :
  bytes_ok bs -> 0 < n < 8 * zlength bs -> 0 <= k < 8 * zlength bs ->
  bit_at (map (shift_right_byte bs (Z.to_nat (n / 8)) (Z.to_nat (n mod 8))) (seq 0 (length bs))) k
  = bit_at bs (k + n).
Proof.
  intros Hb Hn Hk. destruct (split_position k (zlength bs) Hk) as (q & r & -> & Hr & Hq).
  destruct (split_position n (zlength bs) ltac:(lia)) as (B & s & -> & Hs & HB).
  replace ((8 * B + s) / 8) with B by (rewrite Z.mul_comm, Z.div_add_l, Z.div_small; lia).
  replace ((8 * B + s) mod 8) with s
    by (rewrite Z.add_comm, Z.mul_comm, Z.mod_add, Z.mod_small; lia).
  assert (HL : zlength bs = Z.of_nat (length bs)) by done. rewrite HL in *.
  rewrite bit_at_map_seq by lia. unfold shift_right_byte. rewrite Z2Nat.id by lia.
  set (i := (length bs - 1 - Z.to_nat q)%nat).
  destruct (decide (Z.of_nat i < B)) as [Hlt|Hge].
  { rewrite (proj2 (Nat.leb_gt _ _)) by lia. rewrite Z.bits_0, bit_at_high by lia. done. }
  rewrite (proj2 (Nat.leb_le _ _)) by lia.
  rewrite Z.lor_spec, Z.shiftr_spec by lia.
  destruct (decide (r + s < 8)) as [Hsr|Hsr].
  - replace (8 * q + r + (8 * B + s)) with (8 * (q + B) + (r + s)) by lia.
    rewrite (bit_at_byte bs (q + B) (r + s) (bs !!! (i - Z.to_nat B)%nat)); try lia.
    2: { rewrite HL. replace (Z.to_nat _) with (i - Z.to_nat B)%nat by lia. apply lookup_total_byte. lia. }
    destruct (_ && _) eqn:E; [|by rewrite Z.bits_0, orb_false_r].
    rewrite testbit_wrap8_shiftl by lia. rewrite (Z.testbit_neg_r _ (r - (8 - s))) by lia.
    apply orb_false_r.
  - rewrite (byte_high (bs !!! (i - Z.to_nat B)%nat)) by (lia || (apply Forall_lookup_byte; [done|lia])).
    rewrite orb_false_l.
    replace (8 * q + r + (8 * B + s)) with (8 * (q + B + 1) + (r + s - 8)) by lia.
    rewrite (proj2 (Nat.ltb_lt 0 _)) by lia. cbn [andb].
    destruct (decide (Z.of_nat i = B)) as [HiB|].
    + rewrite (proj2 (Nat.ltb_ge _ _)) by lia. rewrite Z.bits_0, bit_at_high by lia. done.
    + rewrite (proj2 (Nat.ltb_lt _ i)) by lia. rewrite testbit_wrap8_shiftl by lia.
      rewrite (bit_at_byte bs (q + B + 1) (r + s - 8) (bs !!! (i - Z.to_nat B - 1)%nat)); try lia.
      { f_equal. lia. }
      rewrite HL. replace (Z.to_nat _) with (i - Z.to_nat B - 1)%nat by lia.
      apply lookup_total_byte. lia.
Qed.

Lemma u8_of_bits b : 0 <= b -> (forall j, 8 <= j -> Z.testbit b j = false) -> u8 b.
Proof.
  intros Hb Hj. assert (E : b = b mod 2 ^ 8).
  { apply Z.bits_inj'. intros j Hj0. destruct (decide (j < 8)).
    - by rewrite Z.mod_pow2_bits_low by lia.
    - rewrite Z.mod_pow2_bits_high by lia. apply Hj. lia. }
  rewrite E. pose proof (Z.mod_pos_bound b (2 ^ 8) ltac:(lia)). unfold u8, U8_MAX. lia.
Qed.

Lemma u8_wrap8 z : u8 (wrap8 z).
Proof. unfold wrap8, u8, U8_MAX. pose proof (Z.mod_pos_bound z (2 ^ 8) ltac:(lia)). lia. Qed.
Lemma u8_shiftr b s : u8 b -> 0 <= s -> u8 (Z.shiftr b s).
Proof.
  unfold u8, U8_MAX. intros Hb Hs. rewrite Z.shiftr_div_pow2 by done.
  pose proof (Z.pow_pos_nonneg 2 s ltac:(lia) Hs). split; [apply Z.div_pos; lia|].
  apply Z.div_le_upper_bound; nia.
Qed.
Lemma u8_lor a b : u8 a -> u8 b -> u8 (Z.lor a b).
Proof.
  intros Ha Hb. apply u8_of_bits.
  - apply Z.lor_nonneg. unfold u8 in *. lia.
  - intros j Hj. by rewrite Z.lor_spec, !byte_high.
Qed.
Lemma u8_zero : u8 0.
Proof. unfold u8, U8_MAX. lia. Qed.

Lemma bytes_ok_map_seq (f : nat -> Z) n :
  (forall i, (i < n)%nat -> u8 (f i)) -> bytes_ok (map f (seq 0 n)).
Proof.
  intros Hf. apply Forall_forall. intros x Hx. apply list_elem_of_fmap in Hx as (i & -> & Hi).
  apply elem_of_seq in Hi. apply Hf. lia.
Qed.

Lemma bytes_ok_repeat n : bytes_ok (repeat 0 n).
Proof. induction n; constructor; [apply u8_zero|done]. Qed.

Lemma u8_shift_left_byte bs B r i : bytes_ok bs -> (r < 8)%nat -> u8 (shift_left_byte bs B r i).
Proof.
  intros Hb Hr. unfold shift_left_byte.
  destruct (Nat.ltb_spec (i + B) (length bs)); [|apply u8_zero].
  apply u8_lor; [apply u8_wrap8|]. destruct (_ && _) eqn:E; [|apply u8_zero].
  apply andb_true_iff in E as [_ E]. apply Nat.ltb_lt in E.
  apply u8_shiftr; [by apply Forall_lookup_byte|lia].
Qed.

Lemma u8_shift_right_byte bs B r i :
  bytes_ok bs -> (i < length bs)%nat -> u8 (shift_right_byte bs B r i).
Proof.
  intros Hb Hi. unfold shift_right_byte.
  destruct (Nat.leb_spec B i); [|apply u8_zero].
  apply u8_lor; [apply u8_shiftr; [apply Forall_lookup_byte; [done|lia]|lia]|].
  destruct (_ && _); [apply u8_wrap8|apply u8_zero].
Qed.

Lemma shift_bytes_ok bs n :
  bytes_ok bs -> bytes_ok (shift_bytestring bs n) /\ length (shift_bytestring bs n) = length bs.
Proof.
  intros Hb. unfold shift_bytestring. destruct bs as [|b0 bs']; [done|]. set (bs := b0 :: bs') in *.
  destruct (zlength bs * 8 <=? Z.abs n) eqn:E; zbool.
  { split; [apply bytes_ok_repeat|apply repeat_length]. }
  pose proof (Z.mod_pos_bound (Z.abs n) 8 ltac:(lia)).
  destruct (0 <? n); [|destruct (n <? 0); [|done]];
    (split; [|by rewrite length_map, length_seq]); apply bytes_ok_map_seq; intros i Hi.
  - apply u8_shift_left_byte; [done|lia].
  - by apply u8_shift_right_byte.
Qed.

Lemma bit_at_zeros n k : bit_at (repeat 0 n) k = false.
Proof.
  unfold bit_at. destruct (repeat 0 n !! _) as [b|] eqn:E; [|done].
  apply list_elem_of_lookup_2, list_elem_of_In, repeat_spec in E as ->.
  by rewrite Z.bits_0, andb_false_r.
Qed.

(** Bit [k] of a byte string shifted by [n], either way, is bit [k - n]. *)
Lemma bit_shift bs n k :
  bytes_ok bs -> 0 <= k < 8 * zlength bs -> bit_at (shift_bytestring bs n) k = bit_at bs (k - n).
Proof.
  intros Hb Hk. unfold shift_bytestring. destruct bs as [|b0 bs']; [done|].
  set (bs := b0 :: bs') in *.
  destruct (zlength bs * 8 <=? Z.abs n) eqn:E; zbool.
  { rewrite bit_at_zeros. symmetry.
    destruct (decide (0 < n)); [apply bit_at_low|apply bit_at_high]; lia. }
  destruct (0 <? n) eqn:E1; zbool.
  { rewrite (Z.abs_eq n) by lia. apply bit_shift_left; [done|lia|done]. }
  destruct (n <? 0) eqn:E2; zbool.
  { rewrite (Z.abs_neq n) by lia. rewrite bit_shift_right by (done || lia).
    by replace (k - n) with (k + - n) by lia. }
  by replace (k - n) with k by lia.
Qed.

(** The number a shift computes. *)
Lemma shift_value bs n :
  bytes_ok bs ->
  from_be (shift_bytestring bs n)
  = if 0 <=? n then (from_be bs * 2 ^ n) mod 2 ^ (8 * zlength bs) else from_be bs / 2 ^ (- n).
Proof.
  intros Hb. destruct (shift_bytes_ok bs n Hb) as [Hok Hlen].
  assert (Hz : zlength (shift_bytestring bs n) = zlength bs) by (unfold zlength; by rewrite Hlen).
  pose proof (zlength_nonneg bs) as Hn. pose proof (from_be_range bs Hb) as Hrange.
  apply Z.bits_inj'. intros k Hk. rewrite testbit_from_be by done.
  destruct (Z.leb_spec 0 n) as [Hn0|Hn0].
  - destruct (decide (k < 8 * zlength bs)).
    + rewrite Z.mod_pow2_bits_low, bit_shift, Z.mul_pow2_bits by (done || lia).
      destruct (decide (k - n < 0)); [by rewrite bit_at_low, Z.testbit_neg_r|].
      by rewrite testbit_from_be by (done || lia).
    + rewrite bit_at_high, Z.mod_pow2_bits_high by lia. done.
  - rewrite Z.div_pow2_bits, testbit_from_be by (done || lia).
    destruct (decide (k < 8 * zlength bs)).
    + rewrite bit_shift by (done || lia). by replace (k - n) with (k + - n) by lia.
    + by rewrite !bit_at_high by lia.
Qed.

(** ** Rotations *)

Lemma bit_at_lor a b k :
  length a = length b -> bit_at (zip_with Z.lor a b) k = bit_at a k || bit_at b k.
Proof.
  intros Hl. unfold bit_at.
  assert (Hz : zlength (zip_with Z.lor a b) = zlength a)
    by (unfold zlength; rewrite length_zip_with; lia).
  assert (Hz' : zlength b = zlength a) by (unfold zlength; lia).
  rewrite Hz, Hz', lookup_zip_with. set (i := Z.to_nat _).
  destruct (a !! i) as [x|] eqn:Ea; simpl.
  - destruct (lookup_lt_is_Some_2 b i) as [y Ey].
    { apply lookup_lt_Some in Ea. lia. }
    rewrite Ey. simpl. rewrite Z.lor_spec. by destruct (0 <=? k), (k <? _).
  - destruct (b !! i) eqn:Eb; [|done]. apply lookup_lt_Some in Eb. apply lookup_ge_None in Ea. lia.
Qed.

Lemma bit_rotate bs n k :
  bytes_ok bs -> 0 <= k < 8 * zlength bs ->
  bit_at (rotate_bytestring bs n) k = bit_at bs ((k - n) mod (8 * zlength bs)).
Proof.
  intros Hb Hk. unfold rotate_bytestring. destruct bs as [|b0 bs']; [done|].
  set (bs := b0 :: bs') in *. rewrite (Z.mul_comm (zlength bs) 8). remember (8 * zlength bs) as T eqn:HT.
  rewrite Zminus_mod, (Z.mod_small k) by lia.
  pose proof (Z.mod_pos_bound n T ltac:(lia)) as He. set (e := n mod T) in *.
  destruct (e =? 0) eqn:E0; zbool.
  { rewrite E0, Z.sub_0_r, Z.mod_small by lia. done. }
  rewrite bit_at_lor by (by rewrite !(proj2 (shift_bytes_ok bs _ Hb))).
  rewrite !bit_shift by (done || lia).
  destruct (decide (e <= k)).
  - rewrite (bit_at_high bs (k - (e - T))), orb_false_r, Z.mod_small by lia. done.
  - rewrite (bit_at_low bs (k - e)), orb_false_l by lia.
    rewrite <- (Z.mod_add (k - e) 1 T), Z.mod_small by lia. f_equal. lia.
Qed.

Lemma rotate_bytes_ok bs n :
  bytes_ok bs -> bytes_ok (rotate_bytestring bs n) /\ length (rotate_bytestring bs n) = length bs.
Proof.
  intros Hb. unfold rotate_bytestring. destruct bs as [|b0 bs']; [done|]. set (bs := b0 :: bs') in *.
  destruct (_ =? 0); [done|].
  destruct (shift_bytes_ok bs (n mod (zlength bs * 8)) Hb) as [H1 L1].
  destruct (shift_bytes_ok bs (n mod (zlength bs * 8) - zlength bs * 8) Hb) as [H2 L2].
  split; [|rewrite length_zip_with; lia].
  apply Forall_lookup_2. intros i x Hx. apply lookup_zip_with_Some in Hx as (a & b & -> & Ha & Hb').
  apply u8_lor; [exact (Forall_lookup_1 _ _ _ _ H1 Ha)|exact (Forall_lookup_1 _ _ _ _ H2 Hb')].
Qed.

(** ** Single bits *)

Lemma read_bit_at bs k : 0 <= k < 8 * zlength bs -> read_bit bs k = Ok (bit_at bs k).
Proof.
  intros Hk. unfold read_bit, bit_at.
  rewrite (proj2 (Z.ltb_ge k 0)), (proj2 (Z.leb_gt (zlength bs * 8) k)) by lia. cbn [orb].
  assert (Hq : 0 <= k / 8 < zlength bs)
    by (split; [apply Z.div_pos; lia|apply Z.div_lt_upper_bound; lia]).
  destruct (bs !! _) as [b|] eqn:E.
  - rewrite (proj2 (Z.leb_le 0 k)), (proj2 (Z.ltb_lt k _)) by lia. cbn [andb].
    change 1 with (Z.ones 1) at 1. rewrite Z.land_ones by lia. change (2 ^ 1) with 2.
    rewrite <- Z.bit0_mod, Z.shiftr_spec, Z.add_0_l by lia. by destruct (Z.testbit b (k mod 8)).
  - apply lookup_ge_None in E. unfold zlength in *. lia.
Qed.

Lemma bit_at_insert bs k j b :
  0 <= k < 8 * zlength bs -> 0 <= j < 8 * zlength bs ->
  bit_at (<[Z.to_nat (zlength bs - 1 - k / 8) := b]> bs) j
  = if k / 8 =? j / 8 then Z.testbit b (j mod 8) else bit_at bs j.
Proof.
  intros Hk Hj. unfold bit_at.
  assert (Hz : zlength (<[Z.to_nat (zlength bs - 1 - k / 8) := b]> bs) = zlength bs)
    by (unfold zlength; by rewrite length_insert).
  rewrite Hz.
  assert (0 <= k / 8 < zlength bs)
    by (split; [apply Z.div_pos; lia|apply Z.div_lt_upper_bound; lia]).
  assert (0 <= j / 8 < zlength bs)
    by (split; [apply Z.div_pos; lia|apply Z.div_lt_upper_bound; lia]).
  destruct (k / 8 =? j / 8) eqn:E; zbool.
  - rewrite E, list_lookup_insert_eq by (unfold zlength in *; lia).
    rewrite (proj2 (Z.leb_le 0 j)), (proj2 (Z.ltb_lt j _)) by lia. done.
  - rewrite list_lookup_insert_ne by (unfold zlength in *; lia). done.
Qed.

Lemma testbit_set b (v : bool) r j :
  u8 b -> 0 <= r < 8 -> 0 <= j < 8 ->
  Z.testbit (if v then Z.lor b (Z.shiftl 1 r) else Z.land b (not8 (Z.shiftl 1 r))) j
  = if j =? r then v else Z.testbit b j.
Proof.
  intros Hb Hr Hj. unfold not8. rewrite Z.shiftl_1_l.
  assert (E255 : Z.testbit 255 j = true)
    by (change 255 with (Z.ones 8); rewrite Z.ones_spec_low; [done|lia]).
  destruct v; rewrite ?Z.lor_spec, ?Z.land_spec, ?Z.lxor_spec, ?E255, Z.pow2_bits_eqb by lia;
    rewrite (Z.eqb_sym r j); destruct (j =? r); rewrite ?orb_false_r, ?orb_true_r, ?andb_true_r,
      ?andb_false_r; done.
Qed.

Lemma write_bit_at bs k v :
  bytes_ok bs -> 0 <= k < 8 * zlength bs ->
  exists bs', write_bit (zlength bs) bs k v = Ok bs' /\ bytes_ok bs' /\ length bs' = length bs
    /\ forall j, 0 <= j < 8 * zlength bs -> bit_at bs' j = if j =? k then v else bit_at bs j.
Proof.
  intros Hb Hk. unfold write_bit.
  rewrite (proj2 (Z.ltb_ge k 0)), (proj2 (Z.leb_gt (zlength bs * 8) k)) by lia. cbn [orb].
  assert (Hq : 0 <= k / 8 < zlength bs)
    by (split; [apply Z.div_pos; lia|apply Z.div_lt_upper_bound; lia]).
  assert (Hr : 0 <= k mod 8 < 8) by (apply Z.mod_pos_bound; lia).
  destruct (bs !! _) as [b|] eqn:E; [|apply lookup_ge_None in E; unfold zlength in *; lia].
  assert (Hu : u8 b) by exact (Forall_lookup_1 _ _ _ _ Hb E).
  eexists. split; [done|]. split; [|split; [apply length_insert|]].
  - apply Forall_insert; [done|]. destruct v.
    + apply u8_lor; [done|]. rewrite Z.shiftl_1_l. unfold u8, U8_MAX.
      pose proof (Z.pow_le_mono_r 2 (k mod 8) 7 ltac:(lia) ltac:(lia)).
      pose proof (Z.pow_pos_nonneg 2 (k mod 8) ltac:(lia) ltac:(lia)). lia.
    + apply u8_of_bits; [apply Z.land_nonneg; left; unfold u8 in Hu; lia|].
      intros j Hj. by rewrite Z.land_spec, (byte_high b) by done.
  - intros j Hj. rewrite bit_at_insert by done.
    pose proof (Z.mod_pos_bound j 8 ltac:(lia)). pose proof (Z.div_mod j 8 ltac:(lia)).
    pose proof (Z.div_mod k 8 ltac:(lia)).
    destruct (k / 8 =? j / 8) eqn:E8; zbool.
    + rewrite testbit_set by done.
      destruct (j mod 8 =? k mod 8) eqn:Em; zbool.
      * by rewrite (proj2 (Z.eqb_eq j k)) by lia.
      * rewrite (proj2 (Z.eqb_neq j k)) by lia. unfold bit_at. rewrite <- E8, E.
        rewrite (proj2 (Z.leb_le 0 j)), (proj2 (Z.ltb_lt j _)) by lia. done.
    + rewrite (proj2 (Z.eqb_neq j k)) by lia. done.
Qed.

(** The value the last of a sequence of writes leaves at a position. *)
Fixpoint last_write (writes : list (Z * bool)) (j : Z) (old : bool) : bool :=
  match writes with
  | [] => old
  | (k, v) :: writes => last_write writes j (if j =? k then v else old)
  end.

Lemma write_bits_loop_at writes bs :
  bytes_ok bs -> Forall (fun w => 0 <= fst w < 8 * zlength bs) writes ->
  exists bs', write_bits_loop (zlength bs) bs writes = Ok bs' /\ bytes_ok bs'
    /\ length bs' = length bs
    /\ forall j, 0 <= j < 8 * zlength bs -> bit_at bs' j = last_write writes j (bit_at bs j).
Proof.
  revert bs. induction writes as [|[k v] writes IH]; intros bs Hb Hw; [by eexists|].
  inversion Hw as [|? ? Hk Hw']; subst. cbn [fst] in Hk.
  destruct (write_bit_at bs k v Hb Hk) as (bs1 & E1 & Hb1 & Hl1 & Hat1).
  assert (Hz : zlength bs1 = zlength bs) by (unfold zlength; by rewrite Hl1).
  rewrite <- Hz in Hw'. destruct (IH bs1 Hb1 Hw') as (bs2 & E2 & Hb2 & Hl2 & Hat2).
  rewrite Hz in E2, Hat2. exists bs2. split; [|split; [done|split; [congruence|]]].
  - cbn [write_bits_loop]. by rewrite E1.
  - intros j Hj. rewrite Hat2, Hat1 by done. done.
Qed.

(** A write out of range fails, whatever was written before. *)
Lemma write_bits_loop_err writes bs :
  bytes_ok bs -> ~ Forall (fun w => 0 <= fst w < 8 * zlength bs) writes ->
  exists e, write_bits_loop (zlength bs) bs writes = Err e.
Proof.
  revert bs. induction writes as [|[k v] writes IH]; intros bs Hb Hw; [by destruct Hw|].
  cbn [write_bits_loop]. destruct (decide (0 <= k < 8 * zlength bs)) as [Hk|Hk].
  - destruct (write_bit_at bs k v Hb Hk) as (bs1 & E1 & Hb1 & Hl1 & _). rewrite E1. cbn [obind].
    assert (Hz : zlength bs1 = zlength bs) by (unfold zlength; by rewrite Hl1).
    rewrite <- Hz. apply IH; [done|]. rewrite Hz. intros Hf. apply Hw. by constructor.
  - unfold write_bit. destruct (_ || _) eqn:E; [by eexists|].
    apply orb_false_iff in E as [E1 E2]. zbool. lia.
Qed.

(** ** Integers as byte strings *)

Lemma from_be_zeros n bs : from_be (repeat 0 n ++ bs) = from_be bs.
Proof. induction n as [|n IH]; [done|]. cbn [repeat app]. unfold from_be in *. simpl. exact IH. Qed.

(** The byte string [integer_to_bytestring] makes is the number again. *)
Lemma integer_to_bytestring_value le len v bs :
  integer_to_bytestring le len v = Ok bs ->
  0 <= v /\ 0 <= len <= 8192 /\ bytestring_to_integer le bs = v
  /\ (0 < len -> zlength bs = len /\ v < 2 ^ (8 * len)).
Proof.
  unfold integer_to_bytestring. intros H.
  destruct (v <? 0) eqn:E0; [done|]. destruct (len <? 0) eqn:E1; [done|].
  destruct (8192 <? len) eqn:E2; [done|]. zbool. split; [lia|]. split; [lia|].
  assert (Hval : forall bs, bytestring_to_integer le bs
                            = from_be (if le then reverse bs else bs)).
  { intros [|x l]; [by destruct le|]. by destruct le. }
  rewrite Hval. destruct (v =? 0) eqn:E3; zbool.
  { injection H as <-. split.
    2: { intros Hpos. split; [unfold zlength; rewrite repeat_length; lia|].
         pose proof (Z.pow_pos_nonneg 2 (8 * len)). lia. }
    assert (Hz : forall n, from_be (repeat 0 n) = 0).
    { intros n. rewrite <- (app_nil_r (repeat 0 n)). apply from_be_zeros. }
    destruct le; [|rewrite Hz; lia].
    assert (Hr : forall n, reverse (repeat 0 n) = repeat 0 n).
    { intros n. induction n as [|n IH]; [done|]. cbn [repeat]. rewrite reverse_cons, IH.
      symmetry. apply repeat_cons. }
    rewrite Hr, Hz. lia. }
  destruct (0 <? Z.to_nat len)%nat eqn:E4; cbn [obind] in H.
  - destruct (Z.to_nat len <? _)%nat eqn:E5; [done|]. cbn [obind] in H. injection H as <-.
    apply Nat.ltb_lt in E4. apply Nat.ltb_ge in E5.
    split.
    2: { intros _. split.
         - unfold zlength; destruct le; rewrite ?length_reverse, length_app, repeat_length; lia.
         - pose proof (bytes_needed_bound v) as Hn. rewrite Z.abs_eq in Hn by lia.
           unfold BigInt_to_bytes_be in E5. rewrite length_to_be in E5.
           eapply Z.lt_le_trans; [apply Hn|apply Z.pow_le_mono_r; lia]. }
    destruct le; rewrite ?reverse_involutive, from_be_zeros, from_be_to_bytes_be; lia.
  - injection H as <-. apply Nat.ltb_ge in E4. split; [|lia].
    destruct le; rewrite ?reverse_involutive, from_be_to_bytes_be; lia.
Qed.

Lemma bytes_needed_fits v len :
  0 < v -> 0 <= len -> v < 2 ^ (8 * len) -> (bytes_needed v <= Z.to_nat len)%nat.
Proof.
  intros Hv Hl Hlt. unfold bytes_needed. rewrite Z.abs_eq by lia.
  apply Z.log2_lt_pow2 in Hlt; [|done].
  assert (Z.log2 v / 8 < len) by (apply Z.div_lt_upper_bound; lia).
  pose proof (Z.div_pos (Z.log2 v) 8 (Z.log2_nonneg v) ltac:(lia)). lia.
Qed.

Lemma integer_to_bytestring_fits le len v :
  0 <= v -> 0 <= len <= 8192 -> len = 0 \/ v < 2 ^ (8 * len) ->
  exists bs, integer_to_bytestring le len v = Ok bs.
Proof.
  intros Hv Hl Hfit. unfold integer_to_bytestring.
  rewrite (proj2 (Z.ltb_ge v 0)), (proj2 (Z.ltb_ge len 0)), (proj2 (Z.ltb_ge 8192 len)) by lia.
  destruct (v =? 0) eqn:E0; [by eexists|]. zbool.
  destruct (0 <? Z.to_nat len)%nat eqn:E1; [|by eexists]. apply Nat.ltb_lt in E1.
  destruct Hfit as [->|Hfit]; [simpl in E1; lia|].
  pose proof (bytes_needed_fits v len ltac:(lia) ltac:(lia) Hfit).
  rewrite (proj2 (Nat.ltb_ge _ _)) by (unfold BigInt_to_bytes_be; by rewrite length_to_be).
  by eexists.
Qed.

(** The bit-level builtins [shiftByteString] and [rotateByteString] act on
    the number the byte string stands for: a shift keeps the length and
    multiplies by a power of two, losing what leaves at the top, or divides
    by one, for any distance; a rotation by any distance, negative or beyond
    the length too, keeps the length and moves bit [k - n], taken modulo the
    number of bits, to bit [k]. *)
Theorem shift_and_rotate (bs : list Z) (n : Z) (Hbytes : bytes_ok bs) :
  (length (shift_bytestring bs n) = length bs
   /\ from_be (shift_bytestring bs n)
      = if 0 <=? n then (from_be bs * 2 ^ n) mod 2 ^ (8 * zlength bs)
        else from_be bs / 2 ^ (- n))
  /\ (length (rotate_bytestring bs n) = length bs
      /\ forall k, 0 <= k < 8 * zlength bs ->
           Z.testbit (from_be (rotate_bytestring bs n)) k
           = Z.testbit (from_be bs) ((k - n) mod (8 * zlength bs))).
Proof.
  split; split; [by apply shift_bytes_ok|by apply shift_value|by apply rotate_bytes_ok|].
  intros k Hk. rewrite !testbit_from_be; [by apply bit_rotate| | | |].
  - done.
  - apply Z.mod_pos_bound; lia.
  - by apply rotate_bytes_ok.
  - lia.
Qed.

Lemma shift_and_rotate_witness :
  (length (shift_bytestring [1; 255] 4) = 2%nat
   /\ from_be (shift_bytestring [1; 255] 4) = (from_be [1; 255] * 2 ^ 4) mod 2 ^ 16)
  /\ (length (rotate_bytestring [1; 255] 4) = 2%nat
      /\ forall k, 0 <= k < 16 ->
           Z.testbit (from_be (rotate_bytestring [1; 255] 4)) k
           = Z.testbit (from_be [1; 255]) ((k - 4) mod 16)).
Proof.
  apply (shift_and_rotate [1; 255] 4). repeat constructor; unfold u8, U8_MAX; lia.
Defined.

(** [writeBits] and [readBit]: with as many values as positions, the write
    succeeds exactly when every position is inside the byte string, and then
    each position reads back the last value written to it, or its old bit;
    reading outside the byte string is an error. *)
Theorem bits_read_back (bs indices : list Z) (values : list bool)
    (Hbytes : bytes_ok bs) (Hlen : length indices = length values) :
  (Forall (fun k => 0 <= k < 8 * zlength bs) indices ->
     exists bs', write_bits bs indices values = Ok bs' /\ length bs' = length bs
       /\ forall j, 0 <= j < 8 * zlength bs ->
            read_bit bs' j = Ok (last_write (zip indices values) j (Z.testbit (from_be bs) j)))
  /\ (~ Forall (fun k => 0 <= k < 8 * zlength bs) indices ->
       exists e, write_bits bs indices values = Err e)
  /\ (forall j, ~ 0 <= j < 8 * zlength bs -> exists e, read_bit bs j = Err e).
Proof.
  assert (Hz : Forall (fun k => 0 <= k < 8 * zlength bs) indices
               <-> Forall (fun w => 0 <= fst w < 8 * zlength bs) (zip indices values)).
  { rewrite <- (fst_zip indices values) at 1 by lia. by rewrite Forall_fmap. }
  unfold write_bits. rewrite Hlen, Nat.eqb_refl. cbn [negb]. split; [|split].
  - intros Hin. apply Hz in Hin. destruct (write_bits_loop_at _ bs Hbytes Hin) as (b & E & _ & Hl & Hat).
    exists b. split; [done|]. split; [done|]. intros j Hj.
    assert (Hzb : zlength b = zlength bs) by (unfold zlength; by rewrite Hl).
    rewrite read_bit_at, Hat, testbit_from_be by (done || lia). done.
  - intros Hout. apply write_bits_loop_err; [done|]. by rewrite <- Hz.
  - intros j Hj. unfold read_bit. destruct (_ || _) eqn:E; [by eexists|].
    apply orb_false_iff in E as [E1 E2]. zbool. lia.
Qed.

Lemma bits_read_back_witness :
  exists bs', write_bits [0; 7] [9; 0; 9] [true; false; false] = Ok bs'
    /\ length bs' = 2%nat
    /\ forall j, 0 <= j < 16 ->
         read_bit bs' j
         = Ok (last_write (zip [9; 0; 9] [true; false; false]) j (Z.testbit (from_be [0; 7]) j)).
Proof.
  apply (proj1 (bits_read_back [0; 7] [9; 0; 9] [true; false; false]
           ltac:(repeat constructor; unfold u8, U8_MAX; lia) eq_refl)).
  repeat constructor; unfold zlength; simpl; lia.
Defined.

(** [integerToByteString] and [byteStringToInteger], in either byte order:
    the conversion succeeds exactly on the non-negative integers that fit the
    length asked for (any size when it is 0), and converting back gives the
    integer; the byte string has the length asked for. *)
Theorem integer_bytes_round_trip (le : bool) (len v : Z) :
  let fits := 0 <= v /\ 0 <= len <= 8192 /\ (len = 0 \/ v < 2 ^ (8 * len)) in
  match integer_to_bytestring le len v with
  | Ok bs => fits /\ bytestring_to_integer le bs = v /\ (len = 0 \/ zlength bs = len)
  | Err _ => ~ fits
  | _ => False
  end.
Proof.
  intros fits. pose proof (operational_to_bytes le len v) as Hop.
  destruct (integer_to_bytestring le len v) as [bs|e| |] eqn:E; try done.
  - destruct (integer_to_bytestring_value _ _ _ _ E) as (Hv & Hl & Hval & Hlen).
    unfold fits. destruct (decide (len = 0)) as [E0|E0]; [tauto|].
    destruct (Hlen ltac:(lia)) as [Hz Hf]. tauto.
  - intros (Hv & Hl & Hf). destruct (integer_to_bytestring_fits le len v Hv Hl Hf) as [bs Hbs].
    congruence.
Qed.
