(* ===== verification/Cek.v ===== *)
(** * The CEK machine

    Model of [crates/plutus/src/machine.rs] and of the entry points of
    [crates/plutus/src/lib.rs]: continuation frames, the compute and return
    transitions, application and forcing of values, and the batched
    accounting of step costs. The fields of [CekMachine] that the accounting
    reads and writes are grouped in [Accounting]; the diagnostic dumps, which
    environment variables enable, are not modelled. *)

From S2P Require Import Prelude Cbor PlutusData Uplc CostModel Builtins.
Local Open Scope string_scope.
Local Open Scope Z_scope.

(** ** Accounting *)

Record Accounting := mkAccounting {
  budget : ExBudget;
  cost_model : CostModel;
  steps : Z;
  max_steps : Z;
  pending_step_counts : list Z;
  pending_steps_total : Z;
  step_slippage : Z }.

Definition DEFAULT_STEP_SLIPPAGE : Z := 200.

Definition spend_budget (a : Accounting) (cost : ExBudget) : outcome MachineError Accounting :=
  let? b := ExBudget_spend (budget a) cost in
  Ok (mkAccounting b (cost_model a) (steps a) (max_steps a) (pending_step_counts a)
        (pending_steps_total a) (step_slippage a)).

(** The cost of the pending counts, kind by kind, in saturating arithmetic. *)
Definition add_pending (cm : CostModel) (counts : list Z) (cost : ExBudget) (kind : StepKind)
    : ExBudget :=
  let count := wrap_i64 (default 0 (counts !! StepKind_index kind)) in
  if count =? 0 then cost
  else
    let step_cost := CostModel_step_cost cm kind in
    mkExBudget (sat_add_i64 (Uplc.cpu cost) (sat_mul_i64 (Uplc.cpu step_cost) count))
               (sat_add_i64 (Uplc.mem cost) (sat_mul_i64 (Uplc.mem step_cost) count)).
Definition pending_cost (cm : CostModel) (counts : list Z) : ExBudget :=
  fold_left (add_pending cm counts) StepKind_ALL (mkExBudget 0 0).

Definition no_pending : list Z := repeat 0 StepKind_COUNT.

Definition spend_accumulated_step_budget (a : Accounting) : outcome MachineError Accounting :=
  if pending_steps_total a =? 0 then Ok a
  else
    let cost := pending_cost (cost_model a) (pending_step_counts a) in
    spend_budget (mkAccounting (budget a) (cost_model a) (steps a) (max_steps a) no_pending 0
                    (step_slippage a)) cost.

(** [steps] never passes [max_steps + 1]. *)
Definition spend_step (a : Accounting) (kind : StepKind) : outcome MachineError Accounting :=
  let steps' := steps a + 1 in
  if max_steps a <? steps' then Err OutOfBudget
  else
    let counts := alter (fun c => sat_add c 1) (StepKind_index kind) (pending_step_counts a) in
    let total := sat_add (pending_steps_total a) 1 in
    let a := mkAccounting (budget a) (cost_model a) steps' (max_steps a) counts total
               (step_slippage a) in
    if step_slippage a <=? total then spend_accumulated_step_budget a else Ok a.

Section cek.
  Context `{PlutusCrypto}.

(** ** Frames, states, machine *)

Inductive Frame :=
  | Frame_ApplyArg (env : Environment) (arg : Term)
  | Frame_ApplyFun (fun_ : Value)
  | Frame_Force
  | Frame_ConstrFields (tag : Z) (evaluated : list Value) (remaining : list Term)
      (env : Environment)
  | Frame_CaseBranches (branches : list Term) (env : Environment)
  | Frame_CaseApply (remaining : list Value).

Inductive State :=
  | Computing (t : Term) (env : Environment)
  | Returning (v : Value)
  | Done (v : Value).

(** The stack of frames has its top first. *)
Record CekMachine := mkCekMachine {
  frames : list Frame;
  acct : Accounting;
  logs : list (list Z) }.

Definition with_step_slippage (b : ExBudget) (cm : CostModel) (slippage : Z) : CekMachine :=
  mkCekMachine []
    (mkAccounting b cm 0 10000000000 no_pending 0 (Z.max slippage 1)) [].
Definition CekMachine_new (b : ExBudget) (cm : CostModel) : CekMachine :=
  with_step_slippage b cm DEFAULT_STEP_SLIPPAGE.

Definition remaining_budget (m : CekMachine) : ExBudget := budget (acct m).
Definition steps_taken (m : CekMachine) : Z := steps (acct m).

Definition StepResult : Type := outcome MachineError (State * CekMachine).

(** ** Compute *)

Definition step_compute (m : CekMachine) (t : Term) (env : Environment) : StepResult :=
  let charge kind (k : CekMachine -> StepResult) :=
    let? a := spend_step (acct m) kind in k (mkCekMachine (frames m) a (logs m)) in
  let push m f := mkCekMachine (f :: frames m) (acct m) (logs m) in
  match t with
  | Term_Var index =>
      charge Step_Var (fun m =>
        let? val := Environment_lookup env index in Ok (Returning val, m))
  | Term_LamAbs body =>
      charge Step_LamAbs (fun m => Ok (Returning (Value_Lambda body env), m))
  | Term_Apply fun_ arg =>
      charge Step_Apply (fun m => Ok (Computing fun_ env, push m (Frame_ApplyArg env arg)))
  | Term_Delay body =>
      charge Step_Delay (fun m => Ok (Returning (Value_Delay body env), m))
  | Term_Force inner =>
      charge Step_Force (fun m => Ok (Computing inner env, push m Frame_Force))
  | Term_Constant c =>
      charge Step_Constant (fun m => Ok (Returning (Value_Constant c), m))
  | Term_Builtin f =>
      charge Step_Builtin (fun m => Ok (Returning (Value_BuiltinApp f 0 []), m))
  | Term_Error => Err EvaluationFailure
  | Term_Constr tag fields =>
      charge Step_Constr (fun m =>
        match fields with
        | [] => Ok (Returning (Value_Constr tag []), m)
        | first :: remaining =>
            Ok (Computing first env, push m (Frame_ConstrFields tag [] remaining env))
        end)
  | Term_Case scrutinee branches =>
      charge Step_Case (fun m =>
        Ok (Computing scrutinee env, push m (Frame_CaseBranches branches env)))
  end.

(** ** Apply and force *)

(** Run a saturated builtin and charge for it. *)
Definition run_builtin (m : CekMachine) (f : DefaultFun) (args : list Value) : StepResult :=
  let? (result, logs) := evaluate_builtin f args (cost_model (acct m)) (logs m) in
  let? cost := builtin_cost (cost_model (acct m)) f args in
  let? a := spend_budget (acct m) cost in
  Ok (Returning result, mkCekMachine (frames m) a logs).

Definition apply_fun (m : CekMachine) (fun_ arg : Value) : StepResult :=
  match fun_ with
  | Value_Lambda body env => Ok (Computing body (Environment_extend env arg), m)
  | Value_BuiltinApp builtin forces args =>
      let '(needed_forces, needed_args) := arity builtin in
      if (forces <? needed_forces)%nat then
        Err (BuiltinTermArgumentExpected "force" "argument")
      else
        let args := (args ++ [arg])%list in
        if (needed_forces <=? forces)%nat && (needed_args <=? length args)%nat
        then run_builtin m builtin args
        else Ok (Returning (Value_BuiltinApp builtin forces args), m)
  | _ => Err NonFunctionApplication
  end.

Definition force_value (m : CekMachine) (value : Value) : StepResult :=
  match value with
  | Value_Delay body env => Ok (Computing body env, m)
  | Value_BuiltinApp f forces args =>
      let '(needed_forces, needed_args) := arity f in
      if (needed_forces <=? forces)%nat then
        Err (BuiltinTermArgumentExpected "argument" "force")
      else
        let new_forces := S forces in
        if (needed_forces <=? new_forces)%nat && (needed_args <=? length args)%nat
        then run_builtin m f args
        else Ok (Returning (Value_BuiltinApp f new_forces args), m)
  | _ => Err NonPolymorphicForce
  end.

(** ** Return *)

Definition step_return (m : CekMachine) (value : Value) : StepResult :=
  match frames m with
  | [] => Ok (Done value, m)
  | frame :: rest =>
      let m := mkCekMachine rest (acct m) (logs m) in
      let push f := mkCekMachine (f :: rest) (acct m) (logs m) in
      match frame with
      | Frame_ApplyArg env arg_term => Ok (Computing arg_term env, push (Frame_ApplyFun value))
      | Frame_ApplyFun fun_val => apply_fun m fun_val value
      | Frame_Force => force_value m value
      | Frame_ConstrFields tag evaluated remaining env =>
          let evaluated := (evaluated ++ [value])%list in
          match remaining with
          | [] => Ok (Returning (Value_Constr tag evaluated), m)
          | next :: remaining =>
              Ok (Computing next env, push (Frame_ConstrFields tag evaluated remaining env))
          end
      | Frame_CaseBranches branches env =>
          match value with
          | Value_Constr tag fields =>
              if zlength branches <=? tag then
                Err (UnexpectedConstructorTag tag (zlength branches))
              else
                let? branch := ok_or (branches !! Z.to_nat tag) (UnexpectedConstructorTag tag 0) in
                Ok (Computing branch env,
                    match fields with [] => m | _ => push (Frame_CaseApply fields) end)
          | _ => Err NonConstrScrutinized
          end
      | Frame_CaseApply remaining =>
          match remaining with
          | [] => Ok (Returning value, m)
          | next_arg :: remaining =>
              apply_fun (match remaining with [] => m | _ => push (Frame_CaseApply remaining) end)
                value next_arg
          end
      end
  end.

(** ** The loop *)

Definition cek_body (s : State * CekMachine)
    : outcome MachineError (State * CekMachine + Value * CekMachine) :=
  match s with
  | (Computing t env, m) => let? s := step_compute m t env in Ok (inl s)
  | (Returning v, m) => let? s := step_return m v in Ok (inl s)
  | (Done v, m) =>
      let? a := spend_accumulated_step_budget (acct m) in
      Ok (inr (v, mkCekMachine (frames m) a (logs m)))
  end.

Definition evaluate (fuel : nat) (m : CekMachine) (t : Term)
    : outcome MachineError (Value * CekMachine) :=
  let? a := spend_budget (acct m) (startup_cost (cost_model (acct m))) in
  loopM fuel cek_body (Computing t Environment_new, mkCekMachine (frames m) a (logs m)).

Definition evaluate_term (fuel : nat) (t : Term) (b : ExBudget) (cm : CostModel)
    : outcome MachineError (Value * list (list Z)) :=
  let? (result, m) := evaluate fuel (CekMachine_new b cm) t in Ok (result, logs m).

Definition evaluate_program (fuel : nat) (p : UplcProgram) (b : ExBudget) (cm : CostModel)
    : outcome MachineError (Value * list (list Z)) :=
  evaluate_term fuel (term p) b cm.
End cek.
