(* ===== verification/CekSafety.v ===== *)
(** * Termination and safety of the CEK machine

    Every evaluation ends, whatever the term, the budget and the cost model:
    computing steps are bounded by [max_steps], and between two of them the
    machine only unwinds its stack. A closed term never reaches an unbound
    variable, and no evaluation panics: the only errors are those the ledger
    reports as an evaluation failure, exhaustion of the budget, and a builtin
    without a price in a strict cost model. *)

From S2P Require Import Prelude Cbor PlutusData Uplc CostModel Builtins Cek.
Local Open Scope Z_scope.

(** ** Accounting leaves the parameters alone *)

Definition same_params (a a' : Accounting) : Prop :=
  cost_model a' = cost_model a /\ max_steps a' = max_steps a
  /\ step_slippage a' = step_slippage a.

Lemma spend_budget_spec a c a' :
  spend_budget a c = Ok a' -> same_params a a' /\ steps a' = steps a.
Proof. unfold spend_budget. intros. inv_ok. done. Qed.

Lemma spend_accumulated_spec a a' :
  spend_accumulated_step_budget a = Ok a' -> same_params a a' /\ steps a' = steps a.
Proof.
  unfold spend_accumulated_step_budget. intros Hs. inv_ok; [done|].
  by apply spend_budget_spec in Hs.
Qed.

Lemma spend_step_spec a k a' :
  spend_step a k = Ok a' ->
  same_params a a' /\ steps a' = steps a + 1 /\ steps a + 1 <= max_steps a.
Proof.
  unfold spend_step. intros Hs. inv_ok; zbool; [|done].
  by apply spend_accumulated_spec in Hs as [? ?].
Qed.

Lemma spend_budget_errors a c :
  match spend_budget a c with Ok _ => True | Err e => e = OutOfBudget | _ => False end.
Proof.
  unfold spend_budget, ExBudget_spend. destruct (checked_sub_i64 _ _); [|done].
  destruct (checked_sub_i64 _ _); [|done]. cbn [ok_or obind]. by destruct (_ || _).
Qed.

Lemma spend_accumulated_errors a :
  match spend_accumulated_step_budget a with
  | Ok _ => True | Err e => e = OutOfBudget | _ => False end.
Proof.
  unfold spend_accumulated_step_budget. destruct (_ =? _); [done|]. apply spend_budget_errors.
Qed.

Lemma spend_step_errors a k :
  match spend_step a k with Ok _ => True | Err e => e = OutOfBudget | _ => False end.
Proof.
  unfold spend_step. destruct (_ <? _); [done|]. destruct (_ <=? _); [|done].
  apply spend_accumulated_errors.
Qed.

Section safety.
  Context `{PlutusCrypto}.

(** ** Errors of a run *)

(** The errors a run may end with; [open] allows unbound variables. *)
Definition run_error (cm : CostModel) (open : Prop) (e : MachineError) : Prop :=
  is_operational e = true \/ e = OutOfBudget
  \/ (exists f, e = MissingBuiltinCost f /\ strict_builtin_costs cm = true
                /\ builtin_costs cm !! f = None)
  \/ (open /\ exists i, e = UnboundVariable i).

(** [m] ends in a value that satisfies [P] or in such an error. *)
Definition ends {A} (cm : CostModel) (open : Prop) (P : A -> Prop) (m : outcome MachineError A)
    : Prop :=
  match m with
  | Ok a => P a
  | Err e => run_error cm open e
  | Panic | OutOfFuel => False
  end.

Lemma ends_bind {A B} cm open (P : A -> Prop) (Q : B -> Prop) m k :
  ends cm open P m -> (forall a, P a -> ends cm open Q (k a)) -> ends cm open Q (obind m k).
Proof. destruct m; simpl; auto. Qed.

Lemma ends_mono {A} cm open (P Q : A -> Prop) m :
  ends cm open P m -> (forall a, P a -> Q a) -> ends cm open Q m.
Proof. destruct m; simpl; auto. Qed.

Lemma ends_budget {A} cm open (P : A -> Prop) m :
  match m with Ok _ => True | Err e => e = OutOfBudget | _ => False end ->
  (forall a, m = Ok a -> P a) -> ends cm open P m.
Proof. destruct m as [a|e| |]; simpl; auto. intros -> _. right. by left. Qed.

Lemma ends_operational {A} cm open (P : A -> Prop) m :
  operational P m -> ends cm open P m.
Proof. destruct m; simpl; auto. intros. by left. Qed.

(** ** Scoping *)

Fixpoint scoped (n : Z) (t : Term) : bool :=
  match t with
  | Term_Var i => (1 <=? i) && (i <=? n)
  | Term_LamAbs body => scoped (n + 1) body
  | Term_Apply f a => scoped n f && scoped n a
  | Term_Delay body | Term_Force body => scoped n body
  | Term_Constr _ fields => forallb (scoped n) fields
  | Term_Case s branches => scoped n s && forallb (scoped n) branches
  | Term_Constant _ | Term_Builtin _ | Term_Error => true
  end.

Fixpoint value_scoped (v : Value) : bool :=
  match v with
  | Value_Constant _ => true
  | Value_Lambda body env => scoped (zlength env + 1) body && forallb value_scoped env
  | Value_Delay body env => scoped (zlength env) body && forallb value_scoped env
  | Value_BuiltinApp _ _ args => forallb value_scoped args
  | Value_Constr _ fields => forallb value_scoped fields
  end.
Definition env_scoped (env : Environment) : bool := forallb value_scoped env.

Definition frame_scoped (f : Frame) : bool :=
  match f with
  | Frame_ApplyArg env arg => env_scoped env && scoped (zlength env) arg
  | Frame_ApplyFun v => value_scoped v
  | Frame_Force => true
  | Frame_ConstrFields _ evaluated remaining env =>
      forallb value_scoped evaluated && forallb (scoped (zlength env)) remaining && env_scoped env
  | Frame_CaseBranches branches env =>
      forallb (scoped (zlength env)) branches && env_scoped env
  | Frame_CaseApply remaining => forallb value_scoped remaining
  end.

Definition state_scoped (s : State) : bool :=
  match s with
  | Computing t env => scoped (zlength env) t && env_scoped env
  | Returning v | Done v => value_scoped v
  end.

Definition machine_scoped (s : State * CekMachine) : bool :=
  state_scoped s.1 && forallb frame_scoped (frames s.2).

Lemma lookup_ends cm (open : Prop) (env : Environment) i :
  open \/ 1 <= i <= zlength env ->
  ends cm open (fun v => v ∈ env) (Environment_lookup env i).
Proof.
  intros Hi. unfold Environment_lookup.
  destruct ((i =? 0) || (zlength env <? i)) eqn:E.
  - right. right. right. split; [|by eexists]. destruct Hi as [|Hi]; [done|].
    apply orb_true_iff in E as [E|E]; zbool; lia.
  - unfold ok_or. destruct (_ !! _) as [v|] eqn:Hv; simpl.
    + by eapply list_elem_of_lookup_2.
    + right. right. right. split; [|by eexists]. destruct Hi as [|Hi]; [done|].
      apply lookup_ge_None in Hv. unfold zlength in *. lia.
Qed.

Lemma env_scoped_elem env v : env_scoped env = true -> v ∈ env -> value_scoped v = true.
Proof.
  unfold env_scoped. rewrite forallb_forall. intros He Hv. by apply He, list_elem_of_In.
Qed.

(** ** One turn *)

(** The work left on the stack between two computing steps. *)
Definition frame_weight (f : Frame) : nat :=
  match f with Frame_CaseApply remaining => S (length remaining) | _ => 1 end.
Definition stack_weight (s : State * CekMachine) : nat :=
  match s.1 with
  | Returning _ => S (sum_list (map frame_weight (frames s.2)))
  | Computing _ _ | Done _ => 0
  end.
Definition steps_left (m : CekMachine) : nat :=
  Z.to_nat (max_steps (acct m) + 1 - steps (acct m)).

(** A turn uses up a step, or unwinds the stack without taking one. *)
Definition descends (s s' : State * CekMachine) : Prop :=
  same_params (acct s.2) (acct s'.2)
  /\ ((steps_left s'.2 < steps_left s.2)%nat
      \/ steps_left s'.2 = steps_left s.2 /\ (stack_weight s' < stack_weight s)%nat).

(** The turn is right for [open] terms, and for closed ones when the state is
    scoped. *)
Definition good_turn (open : Prop) (s s' : State * CekMachine) : Prop :=
  descends s s' /\ (open \/ machine_scoped s' = true).

Lemma compute_turn open m t env :
  open \/ machine_scoped (Computing t env, m) = true ->
  ends (cost_model (acct m)) open (good_turn open (Computing t env, m)) (step_compute m t env).
Proof.
  intros Hs.
  assert (Hcharge : forall k (K : Accounting -> StepResult),
    (forall a, same_params (acct m) a -> steps a = steps (acct m) + 1 ->
       steps (acct m) + 1 <= max_steps (acct m) ->
       ends (cost_model (acct m)) open
         (fun r => acct r.2 = a /\ (open \/ machine_scoped r = true)) (K a)) ->
    ends (cost_model (acct m)) open (good_turn open (Computing t env, m))
      (obind (spend_step (acct m) k) K)).
  { intros k K HK. eapply ends_bind; [apply ends_budget; [apply spend_step_errors|];
      intros a Ha; exact (spend_step_spec _ _ _ Ha)|].
    intros a (Hp & Hst & Hmax). eapply ends_mono; [by apply HK|]. intros r [Ha Hr].
    split; [|done]. split; [by rewrite Ha|]. left. unfold steps_left.
    rewrite Ha, Hst. simpl. destruct Hp as (_ & -> & _). lia. }
  unfold machine_scoped in *. cbn [state_scoped fst snd frames] in Hs.
  destruct t; cbn [step_compute]; try (apply Hcharge; intros a _ _ _).
  - eapply ends_bind; [apply (lookup_ends _ open env index)|].
    { destruct Hs as [|Hs]; [by left|right]. cbn [scoped] in Hs. by zbool. }
    intros v Hv. simpl. split; [done|]. destruct Hs as [?|Hs]; [by left|right]. zbool.
    apply andb_true_iff. split; [by eapply env_scoped_elem|done].
  - simpl. split; [done|]. destruct Hs as [?|Hs]; [by left|right]. zbool. simpl in *.
    by apply andb_true_iff; split; [apply andb_true_iff|].
  - simpl. split; [done|]. destruct Hs as [?|Hs]; [by left|right]. simpl in Hs. zbool. simpl.
    by repeat (apply andb_true_iff; split).
  - simpl. split; [done|]. destruct Hs as [?|Hs]; [by left|right]. zbool. simpl in *.
    by apply andb_true_iff; split; [apply andb_true_iff|].
  - simpl. split; [done|]. destruct Hs as [?|Hs]; [by left|right]. simpl in Hs. zbool. simpl.
    by repeat (apply andb_true_iff; split).
  - simpl. split; [done|]. destruct Hs as [?|Hs]; [by left|right]. by zbool.
  - simpl. split; [done|]. destruct Hs as [?|Hs]; [by left|right]. by zbool.
  - by left.
  - destruct fields as [|first remaining]; simpl; (split; [done|]);
      (destruct Hs as [?|Hs]; [by left|right]); simpl in Hs; zbool; simpl; [done|].
    by repeat (apply andb_true_iff; split).
  - simpl. split; [done|]. destruct Hs as [?|Hs]; [by left|right]. simpl in Hs. zbool. simpl.
    by repeat (apply andb_true_iff; split).
Qed.

(** Close a scoping goal whose parts are among the hypotheses. *)
Ltac scoping :=
  cbn [scoped value_scoped frame_scoped state_scoped forallb fst snd frames] in *;
  rewrite ?forallb_app in *; cbn [forallb] in *; rewrite ?andb_true_iff in *; tauto.

(** A saturated builtin returns, or ends the run with an allowed error. *)
Lemma run_builtin_ends open m f args :
  (snd (arity f) <= length args)%nat ->
  ends (cost_model (acct m)) open
    (fun r => exists v a lg, r = (Returning v, mkCekMachine (frames m) a lg)
       /\ same_params (acct m) a /\ steps a = steps (acct m) /\ from_args args v)
    (run_builtin m f args).
Proof.
  intros Hlen. unfold run_builtin.
  eapply ends_bind; [by apply ends_operational, builtin_operational|]. intros [v lg] Hv.
  eapply (ends_bind _ _ any).
  { unfold builtin_cost. destruct (_ !! f) eqn:E; [done|].
    destruct (strict_builtin_costs _) eqn:Es; [|done]. right. right. left. by exists f. }
  intros c _. eapply ends_bind.
  { apply ends_budget; [apply spend_budget_errors|]. intros a Ha.
    exact (spend_budget_spec _ _ _ Ha). }
  intros a [Hp Hs]. simpl. by exists v, a, lg.
Qed.

Lemma from_args_scoped args v :
  from_args args v -> forallb value_scoped args = true -> value_scoped v = true.
Proof.
  intros [[c ->]|Hv] Ha; [done|]. rewrite forallb_forall in Ha. by apply Ha, list_elem_of_In.
Qed.

(** What applying or forcing a value leads to: the stack is unchanged. *)
Definition continues (open : Prop) (m : CekMachine) (r : State * CekMachine) : Prop :=
  frames r.2 = frames m /\ same_params (acct m) (acct r.2)
  /\ steps (acct r.2) = steps (acct m)
  /\ (forall v, r.1 <> Done v)
  /\ (open \/ state_scoped r.1 = true).

Lemma apply_fun_ends (open : Prop) m f a :
  open \/ value_scoped f = true /\ value_scoped a = true ->
  ends (cost_model (acct m)) open (continues open m) (apply_fun m f a).
Proof.
  intros Hs. destruct f as [c|body env|body env|f forces args|tag fields]; simpl;
    try (by left).
  - split_and!; try done. destruct Hs as [?|[Hf Ha]]; [by left|right]. simpl in *. zbool.
    unfold Environment_extend, env_scoped. rewrite zlength_cons, Z.add_comm. simpl.
    rewrite Ha. by apply andb_true_iff.
  - destruct (arity f) as [nf na] eqn:Ear. destruct (forces <? nf)%nat; [by left|].
    assert (Hargs : open \/ forallb value_scoped (args ++ [a]) = true).
    { destruct Hs as [?|[Hf Ha]]; [by left|right]. rewrite forallb_app. simpl in *.
      by rewrite Hf, Ha. }
    destruct (_ && _) eqn:Esat.
    + apply andb_true_iff in Esat as [_ Hna]. apply Nat.leb_le in Hna.
      eapply ends_mono; [apply run_builtin_ends; by rewrite Ear|].
      intros r (v & ac & lg & -> & Hp & Hst & Hv). split_and!; try done.
      destruct Hargs as [?|Hargs]; [by left|right]. by eapply from_args_scoped.
    + simpl. split_and!; done.
Qed.

Lemma force_value_ends (open : Prop) m v :
  open \/ value_scoped v = true ->
  ends (cost_model (acct m)) open (continues open m) (force_value m v).
Proof.
  intros Hs. destruct v as [c|body env|body env|f forces args|tag fields]; simpl; try (by left).
  - split_and!; done.
  - destruct (arity f) as [nf na] eqn:Ear. destruct (nf <=? forces)%nat; [by left|].
    destruct (match nf with _ => _ end && _) eqn:Esat.
    + apply andb_true_iff in Esat as [_ Hna]. apply Nat.leb_le in Hna.
      eapply ends_mono; [apply run_builtin_ends; by rewrite Ear|].
      intros r (v & ac & lg & -> & Hp & Hst & Hv). split_and!; try done.
      destruct Hs as [?|Hs]; [by left|right]. by eapply from_args_scoped.
    + simpl. split_and!; done.
Qed.

(** Popping a frame and continuing is a good turn. *)
Lemma continues_turn (open : Prop) m m1 v r :
  continues open m1 r -> acct m1 = acct m ->
  (sum_list (map frame_weight (frames m1)) < sum_list (map frame_weight (frames m)))%nat ->
  (open \/ forallb frame_scoped (frames m1) = true) ->
  good_turn open (Returning v, m) r.
Proof.
  intros (Hf & Hp & Hst & Hd & Hs) Ha Hw Hfs. rewrite Ha in *. split.
  - split; [done|]. right. unfold steps_left. destruct Hp as (_ & Hmax & _).
    rewrite Hst, Hmax. split; [done|]. unfold stack_weight. rewrite Hf. simpl.
    destruct r.1; lia.
  - destruct Hs as [?|Hs]; [by left|]. destruct Hfs as [?|Hfs]; [by left|right].
    unfold machine_scoped. by rewrite Hs, Hf.
Qed.

Lemma return_turn (open : Prop) m v :
  open \/ machine_scoped (Returning v, m) = true ->
  ends (cost_model (acct m)) open (good_turn open (Returning v, m)) (step_return m v).
Proof.
  intros Hs. unfold machine_scoped in Hs. cbn [state_scoped fst snd] in Hs.
  unfold step_return. destruct (frames m) as [|f rest] eqn:Ef.
  { simpl. split; [|destruct Hs as [?|Hs]; [by left|right]].
    - split; [done|]. right. unfold stack_weight. simpl. lia.
    - unfold machine_scoped. simpl. by rewrite Ef. }
  assert (Hrest : open \/ value_scoped v = true /\ frame_scoped f = true
            /\ forallb frame_scoped rest = true).
  { destruct Hs as [?|Hs]; [by left|right]. simpl in Hs. by zbool. }
  clear Hs. set (m1 := mkCekMachine rest (acct m) (logs m)).
  assert (Hturn : forall r, continues open m1 r -> good_turn open (Returning v, m) r).
  { intros r Hr. eapply continues_turn; [exact Hr|done| |].
    - rewrite Ef. simpl. destruct f; simpl; lia.
    - destruct Hrest as [?|(_ & _ & ?)]; [by left|by right]. }
  assert (Hcomp : forall t env fr,
    open \/ scoped (zlength env) t && env_scoped env && forallb frame_scoped fr = true ->
    good_turn open (Returning v, m) (Computing t env, mkCekMachine fr (acct m) (logs m))).
  { intros t env fr Hsc. split; [|done]. split; [done|]. right. split; [done|].
    unfold stack_weight. simpl. lia. }
  destruct f as [env arg|fv| |tag evaluated remaining env|branches env|remaining];
    cbn [frame_scoped] in Hrest.
  - apply Hcomp. scoping.
  - eapply ends_mono; [apply (apply_fun_ends open m1)|exact Hturn]. tauto.
  - eapply ends_mono; [apply (force_value_ends open m1)|exact Hturn]. tauto.
  - destruct remaining as [|next remaining].
    + apply Hturn. split_and!; try done. scoping.
    + apply Hcomp. scoping.
  - destruct v as [| | | |tag fields]; try (by left).
    destruct (zlength branches <=? tag); [by left|]. unfold ok_or.
    destruct (branches !! Z.to_nat tag) as [b|] eqn:Eb; [|by left]. cbn [obind].
    assert (Hb : open \/ scoped (zlength env) b = true).
    { destruct Hrest as [?|(_ & Hf & _)]; [by left|right]. zbool.
      match goal with Hx : forallb _ branches = true |- _ => rewrite forallb_forall in Hx;
        apply Hx, list_elem_of_In end. by eapply list_elem_of_lookup_2. }
    destruct fields as [|x fields]; apply Hcomp; scoping.
  - destruct remaining as [|next remaining].
    + apply Hturn. split_and!; try done. tauto.
    + destruct remaining as [|y remaining].
      { eapply ends_mono; [apply (apply_fun_ends open m1); scoping|exact Hturn]. }
      eapply ends_mono; [apply (apply_fun_ends open
        (mkCekMachine (Frame_CaseApply (y :: remaining) :: rest) (acct m) (logs m))); scoping|].
      intros r Hr. eapply continues_turn; [exact Hr|done|rewrite Ef; simpl; lia|scoping].
Qed.

(** ** Runs *)

Lemma cek_turn (open : Prop) s m :
  open \/ machine_scoped (s, m) = true ->
  ends (cost_model (acct m)) open
    (fun r => match r with
     | inl s' => good_turn open (s, m) s'
     | inr p => open \/ value_scoped p.1 = true
     end) (cek_body (s, m)).
Proof.
  intros Hs. destruct s as [t env|v|v]; cbn [cek_body].
  - eapply ends_bind; [by apply compute_turn|done].
  - eapply ends_bind; [by apply return_turn|done].
  - eapply (ends_bind _ _ any); [apply ends_budget; [apply spend_accumulated_errors|done]|].
    intros a _. simpl. unfold machine_scoped in Hs. simpl in Hs.
    destruct Hs as [?|Hs]; [by left|right]. by zbool.
Qed.

(** From every state, enough fuel ends the run. *)
Lemma run_ends (open : Prop) s :
  open \/ machine_scoped s = true ->
  exists fuel, forall fuel', (fuel <= fuel')%nat ->
    ends (cost_model (acct s.2)) open (fun p => open \/ value_scoped p.1 = true)
      (loopM fuel' cek_body s).
Proof.
  remember (steps_left s.2) as n eqn:Hn. revert s Hn.
  induction (lt_wf n) as [n _ IHn]. intros s. remember (stack_weight s) as w eqn:Hw. revert s Hw.
  induction (lt_wf w) as [w _ IHw]. intros [s m] Hw Hn Hs.
  pose proof (cek_turn open s m Hs) as Ht.
  destruct (cek_body (s, m)) as [[s'|p]|e| |] eqn:E; cbn [ends] in Ht; try done.
  - destruct Ht as [[Hp Hd] Hs'].
    assert (IH : exists fuel, forall fuel', (fuel <= fuel')%nat ->
      ends (cost_model (acct s'.2)) open (fun p => open \/ value_scoped p.1 = true)
        (loopM fuel' cek_body s')).
    { destruct Hd as [Hlt|[Heq Hlt]].
      - apply (IHn (steps_left s'.2)); [simpl in *; lia|done|done].
      - apply (IHw (stack_weight s')); [lia|done|simpl in *; lia|done]. }
    destruct IH as [fuel IH]. exists (S fuel). intros [|fuel'] Hle; [lia|].
    cbn [loopM]. rewrite E. cbn [obind]. destruct Hp as (Hcm & _). cbn [snd] in *.
    rewrite <- Hcm. apply IH. lia.
  - exists 1%nat. intros [|fuel'] Hle; [lia|]. cbn [loopM]. by rewrite E.
  - exists 1%nat. intros [|fuel'] Hle; [lia|]. cbn [loopM]. by rewrite E.
Qed.

Lemma evaluate_ends (open : Prop) m t :
  open \/ scoped 0 t = true -> frames m = [] ->
  exists fuel, forall fuel', (fuel <= fuel')%nat ->
    ends (cost_model (acct m)) open (fun p => open \/ value_scoped p.1 = true)
      (evaluate fuel' m t).
Proof.
  intros Ht Hf. unfold evaluate.
  pose proof (spend_budget_errors (acct m) (startup_cost (cost_model (acct m)))) as He.
  destruct (spend_budget _ _) as [a|e| |] eqn:Ea; try done.
  - destruct (run_ends open (Computing t Environment_new, mkCekMachine (frames m) a (logs m)))
      as [fuel Hfuel].
    { destruct Ht as [?|Ht]; [by left|right]. unfold machine_scoped.
      cbn [fst snd state_scoped frames]. change (zlength Environment_new) with 0.
      by rewrite Ht, Hf. }
    exists fuel. intros fuel' Hle. simpl. specialize (Hfuel fuel' Hle). simpl in Hfuel.
    apply spend_budget_spec in Ea as [(Hcm & _) _]. by rewrite Hcm in Hfuel.
  - exists O. intros fuel' _. simpl. right. left. exact He.
Qed.
End safety.

(** ** Properties *)

Section properties.
  Context `{PlutusCrypto}.

(** Every evaluation terminates: for any term, budget, cost model and
    slippage there is an amount of fuel from which on the outcome no longer
    changes and is a value or an error, never an exhausted bound of the model
    or a panic. *)
Theorem cek_terminates t b cm slippage :
  exists fuel r, r <> OutOfFuel /\ r <> Panic
    /\ forall fuel', (fuel <= fuel')%nat ->
         evaluate fuel' (with_step_slippage b cm slippage) t = r.
Proof.
  set (m := with_step_slippage b cm slippage).
  destruct (evaluate_ends True m t ltac:(by left) eq_refl) as [fuel Hf].
  pose proof (Hf fuel ltac:(lia)) as Hr. exists fuel, (evaluate fuel m t).
  split; [by intros E; rewrite E in Hr|]. split; [by intros E; rewrite E in Hr|].
  intros fuel' Hle. unfold evaluate in *. destruct (spend_budget _ _); try done. simpl in *.
  apply loopM_mono; [|done]. intros E. by rewrite E in Hr.
Qed.

(** C17: a closed term never fails for an unbound variable and never panics: its
    evaluation yields a value without free variables, an evaluation failure
    in the ledger's sense, an exhausted budget, or a builtin that a strict
    cost model does not price. *)
Theorem closed_terms_evaluate_safely t b cm slippage :
  scoped 0 t = true ->
  exists fuel, forall fuel', (fuel <= fuel')%nat ->
    match evaluate fuel' (with_step_slippage b cm slippage) t with
    | Ok (v, _) => value_scoped v = true
    | Err e =>
        into_ledger_error e = EvaluationFailure \/ e = OutOfBudget
        \/ exists f, e = MissingBuiltinCost f /\ strict_builtin_costs cm = true
                     /\ builtin_costs cm !! f = None
    | Panic | OutOfFuel => False
    end.
Proof.
  intros Ht.
  destruct (evaluate_ends False (with_step_slippage b cm slippage) t ltac:(by right) eq_refl)
    as [fuel Hf].
  exists fuel. intros fuel' Hle. specialize (Hf fuel' Hle).
  destruct (evaluate _ _ _) as [[v m']|e| |]; simpl in *; try done.
  - by destruct Hf.
  - destruct Hf as [He|[He|[He|[[] _]]]]; [left|by right; left|by right; right].
    unfold into_ledger_error. by rewrite He.
Qed.
End properties.

Lemma closed_terms_evaluate_safely_witness :
  let t := @Term_Apply trivial_crypto (Term_LamAbs (Term_Force (Term_Var 1)))
             (Term_Delay (Term_Constant (@Constant_Integer trivial_crypto 7))) in
  scoped 0 t = true
  /\ exists fuel, forall fuel', (fuel <= fuel')%nat ->
    match evaluate fuel' (with_step_slippage (mkExBudget 10000 10000) CostModel_default 200) t with
    | Ok (v, _) => value_scoped v = true
    | Err e =>
        into_ledger_error e = EvaluationFailure \/ e = OutOfBudget
        \/ exists f, e = MissingBuiltinCost f /\ strict_builtin_costs CostModel_default = true
                     /\ builtin_costs CostModel_default !! f = None
    | Panic | OutOfFuel => False
    end.
Proof.
  split; [reflexivity|].
  apply (@closed_terms_evaluate_safely trivial_crypto). reflexivity.
Defined.
