(* ===== verification/CekSemantics.v ===== *)
(** * The CEK machine implements the big-step semantics of the language

    A reference semantics that has no machine: which value a term evaluates to
    in an environment, which charges it incurs on the way and what it logs.
    The machine with its explicit stack computes exactly this relation: it
    returns a value if and only if the semantics gives that value and the
    accounting accepts the charges in the order of the semantics. *)

From S2P Require Import Prelude Cbor PlutusData Uplc CostModel Builtins Cek CekSafety.
Local Open Scope Z_scope.

(** ** Charges *)

Inductive charge :=
  | Charge_step (kind : StepKind)
  | Charge_builtin (cost : ExBudget).

Definition spend_charge (a : Accounting) (c : charge) : outcome MachineError Accounting :=
  match c with
  | Charge_step kind => spend_step a kind
  | Charge_builtin cost => spend_budget a cost
  end.

Fixpoint spend_charges (a : Accounting) (cs : list charge) : outcome MachineError Accounting :=
  match cs with
  | [] => Ok a
  | c :: cs => let? a := spend_charge a c in spend_charges a cs
  end.

Lemma spend_charges_app a cs1 cs2 a' :
  spend_charges a (cs1 ++ cs2) = Ok a'
  <-> exists a1, spend_charges a cs1 = Ok a1 /\ spend_charges a1 cs2 = Ok a'.
Proof.
  revert a. induction cs1 as [|c cs1 IH]; intros a; simpl.
  - split; [by exists a|]. by intros (a1 & [= ->] & ?).
  - destruct (spend_charge a c) as [a1| | |]; simpl.
    + apply IH.
    + by split; [|intros (? & ? & ?)].
    + by split; [|intros (? & ? & ?)].
    + by split; [|intros (? & ? & ?)].
Qed.

Lemma spend_charge_params a c a' : spend_charge a c = Ok a' -> same_params a a'.
Proof.
  destruct c; simpl; [intros Ha; by apply spend_step_spec in Ha as [? _]|].
  intros Ha. by apply spend_budget_spec in Ha as [? _].
Qed.

Lemma spend_charges_cost_model a cs a' :
  spend_charges a cs = Ok a' -> cost_model a' = cost_model a.
Proof.
  revert a. induction cs as [|c cs IH]; intros a Hs; simpl in Hs; [by injection Hs as <-|].
  apply obind_Ok_inv in Hs as (a1 & Ha1 & Hs). apply spend_charge_params in Ha1 as (Hc & _).
  rewrite (IH _ Hs). exact Hc.
Qed.

Section semantics.
  Context `{PlutusCrypto}.
  Context (cm : CostModel).

Abbreviation Logs := (list (list Z)).

(** ** Big-step semantics *)

(** [eval env t lg v cs lg']: in [env], with log [lg], the term [t] evaluates
    to [v], incurring the charges [cs] and leaving the log [lg']. *)
Inductive eval : Environment -> Term -> Logs -> Value -> list charge -> Logs -> Prop :=
  | eval_var env i lg v :
      Environment_lookup env i = Ok v ->
      eval env (Term_Var i) lg v [Charge_step Step_Var] lg
  | eval_lam env body lg :
      eval env (Term_LamAbs body) lg (Value_Lambda body env) [Charge_step Step_LamAbs] lg
  | eval_delay env body lg :
      eval env (Term_Delay body) lg (Value_Delay body env) [Charge_step Step_Delay] lg
  | eval_constant env c lg :
      eval env (Term_Constant c) lg (Value_Constant c) [Charge_step Step_Constant] lg
  | eval_builtin env f lg :
      eval env (Term_Builtin f) lg (Value_BuiltinApp f 0 []) [Charge_step Step_Builtin] lg
  | eval_apply env f a lg vf lg1 va lg2 v lg3 cs1 cs2 cs3 :
      eval env f lg vf cs1 lg1 -> eval env a lg1 va cs2 lg2 -> apply_to vf va lg2 v cs3 lg3 ->
      eval env (Term_Apply f a) lg v (Charge_step Step_Apply :: cs1 ++ cs2 ++ cs3) lg3
  | eval_force env t lg vt lg1 v lg2 cs1 cs2 :
      eval env t lg vt cs1 lg1 -> force_of vt lg1 v cs2 lg2 ->
      eval env (Term_Force t) lg v (Charge_step Step_Force :: cs1 ++ cs2) lg2
  | eval_constr env tag ts lg vs cs lg' :
      eval_all env ts lg vs cs lg' ->
      eval env (Term_Constr tag ts) lg (Value_Constr tag vs) (Charge_step Step_Constr :: cs) lg'
  | eval_case env t bs lg tag fields lg1 b vb lg2 v lg3 cs1 cs2 cs3 :
      eval env t lg (Value_Constr tag fields) cs1 lg1 ->
      tag < zlength bs -> bs !! Z.to_nat tag = Some b ->
      eval env b lg1 vb cs2 lg2 -> apply_all vb fields lg2 v cs3 lg3 ->
      eval env (Term_Case t bs) lg v (Charge_step Step_Case :: cs1 ++ cs2 ++ cs3) lg3
with apply_to : Value -> Value -> Logs -> Value -> list charge -> Logs -> Prop :=
  | apply_lambda body env a lg v cs lg' :
      eval (Environment_extend env a) body lg v cs lg' ->
      apply_to (Value_Lambda body env) a lg v cs lg'
  | apply_partial f forces args a lg :
      (fst (arity f) <= forces)%nat -> (length (args ++ [a]) < snd (arity f))%nat ->
      apply_to (Value_BuiltinApp f forces args) a lg
        (Value_BuiltinApp f forces (args ++ [a])) [] lg
  | apply_saturated f forces args a lg v lg' c :
      (fst (arity f) <= forces)%nat -> (snd (arity f) <= length (args ++ [a]))%nat ->
      evaluate_builtin f (args ++ [a]) cm lg = Ok (v, lg') ->
      builtin_cost cm f (args ++ [a]) = Ok c ->
      apply_to (Value_BuiltinApp f forces args) a lg v [Charge_builtin c] lg'
with force_of : Value -> Logs -> Value -> list charge -> Logs -> Prop :=
  | force_delay body env lg v cs lg' :
      eval env body lg v cs lg' -> force_of (Value_Delay body env) lg v cs lg'
  | force_partial f forces args lg :
      (forces < fst (arity f))%nat ->
      ~ ((fst (arity f) <= S forces)%nat /\ (snd (arity f) <= length args)%nat) ->
      force_of (Value_BuiltinApp f forces args) lg (Value_BuiltinApp f (S forces) args) [] lg
  | force_saturated f forces args lg v lg' c :
      (forces < fst (arity f))%nat ->
      (fst (arity f) <= S forces)%nat -> (snd (arity f) <= length args)%nat ->
      evaluate_builtin f args cm lg = Ok (v, lg') -> builtin_cost cm f args = Ok c ->
      force_of (Value_BuiltinApp f forces args) lg v [Charge_builtin c] lg'
with eval_all : Environment -> list Term -> Logs -> list Value -> list charge -> Logs -> Prop :=
  | eval_all_nil env lg : eval_all env [] lg [] [] lg
  | eval_all_cons env t ts lg v lg1 vs lg2 cs1 cs2 :
      eval env t lg v cs1 lg1 -> eval_all env ts lg1 vs cs2 lg2 ->
      eval_all env (t :: ts) lg (v :: vs) (cs1 ++ cs2) lg2
with apply_all : Value -> list Value -> Logs -> Value -> list charge -> Logs -> Prop :=
  | apply_all_nil v lg : apply_all v [] lg v [] lg
  | apply_all_cons v a args lg v1 lg1 w lg2 cs1 cs2 :
      apply_to v a lg v1 cs1 lg1 -> apply_all v1 args lg1 w cs2 lg2 ->
      apply_all v (a :: args) lg w (cs1 ++ cs2) lg2.

(** What a stack of frames makes of a value. *)
Inductive unwind : list Frame -> Value -> Logs -> Value -> list charge -> Logs -> Prop :=
  | unwind_nil v lg : unwind [] v lg v [] lg
  | unwind_apply_arg env t K vf lg va lg1 v lg2 w lg3 cs1 cs2 cs3 :
      eval env t lg va cs1 lg1 -> apply_to vf va lg1 v cs2 lg2 -> unwind K v lg2 w cs3 lg3 ->
      unwind (Frame_ApplyArg env t :: K) vf lg w (cs1 ++ cs2 ++ cs3) lg3
  | unwind_apply_fun vf K va lg v lg1 w lg2 cs1 cs2 :
      apply_to vf va lg v cs1 lg1 -> unwind K v lg1 w cs2 lg2 ->
      unwind (Frame_ApplyFun vf :: K) va lg w (cs1 ++ cs2) lg2
  | unwind_force K vt lg v lg1 w lg2 cs1 cs2 :
      force_of vt lg v cs1 lg1 -> unwind K v lg1 w cs2 lg2 ->
      unwind (Frame_Force :: K) vt lg w (cs1 ++ cs2) lg2
  | unwind_fields tag evaluated ts env K v lg vs lg1 w lg2 cs1 cs2 :
      eval_all env ts lg vs cs1 lg1 ->
      unwind K (Value_Constr tag (evaluated ++ v :: vs)) lg1 w cs2 lg2 ->
      unwind (Frame_ConstrFields tag evaluated ts env :: K) v lg w (cs1 ++ cs2) lg2
  | unwind_branches bs env K tag fields lg b vb lg1 v lg2 w lg3 cs1 cs2 cs3 :
      tag < zlength bs -> bs !! Z.to_nat tag = Some b ->
      eval env b lg vb cs1 lg1 -> apply_all vb fields lg1 v cs2 lg2 -> unwind K v lg2 w cs3 lg3 ->
      unwind (Frame_CaseBranches bs env :: K) (Value_Constr tag fields) lg w
        (cs1 ++ cs2 ++ cs3) lg3
  | unwind_case_apply args K vf lg v lg1 w lg2 cs1 cs2 :
      apply_all vf args lg v cs1 lg1 -> unwind K v lg1 w cs2 lg2 ->
      unwind (Frame_CaseApply args :: K) vf lg w (cs1 ++ cs2) lg2.

(** What a machine state still has to do. *)
Definition goes (s : State) (K : list Frame) (lg : Logs) (w : Value) (cs : list charge)
    (lg' : Logs) : Prop :=
  match s with
  | Computing t env =>
      exists v cs1 lg1 cs2, eval env t lg v cs1 lg1 /\ unwind K v lg1 w cs2 lg'
                            /\ cs = cs1 ++ cs2
  | Returning v => unwind K v lg w cs lg'
  | Done v => w = v /\ cs = [] /\ lg' = lg
  end.

(** ** Soundness *)

(** A transition of the machine is backed by the semantics: what the next
    state does, preceded by the charges of the transition, the current state
    does too. *)
Definition backed (s : State) (m : CekMachine) (s' : State) (m' : CekMachine) : Prop :=
  exists cs0, spend_charges (acct m) cs0 = Ok (acct m')
    /\ forall w cs lg', goes s' (frames m') (logs m') w cs lg' ->
         goes s (frames m) (logs m) w (cs0 ++ cs) lg'.

Lemma run_builtin_backed m f args s' m' :
  cost_model (acct m) = cm -> run_builtin m f args = Ok (s', m') ->
  exists v c, evaluate_builtin f args cm (logs m) = Ok (v, logs m')
    /\ builtin_cost cm f args = Ok c /\ s' = Returning v /\ frames m' = frames m
    /\ spend_charges (acct m) [Charge_builtin c] = Ok (acct m').
Proof.
  intros Hcm Hr. unfold run_builtin in Hr. rewrite Hcm in Hr.
  apply obind_Ok_inv in Hr as ([v lg] & Hev & Hr). apply obind_Ok_inv in Hr as (c & Hc & Hr).
  apply obind_Ok_inv in Hr as (a & Hs & Hr). injection Hr as <- <-.
  exists v, c. split_and!; try done. simpl. by rewrite Hs.
Qed.

(** Applying a value takes the machine where [apply_to] leads. *)
Lemma apply_fun_backed m vf va s' m' :
  cost_model (acct m) = cm -> apply_fun m vf va = Ok (s', m') ->
  exists cs0, spend_charges (acct m) cs0 = Ok (acct m')
    /\ forall w cs lg', goes s' (frames m') (logs m') w cs lg' ->
         exists v cs1 lg1 cs2, apply_to vf va (logs m) v cs1 lg1
           /\ unwind (frames m) v lg1 w cs2 lg' /\ cs0 ++ cs = cs1 ++ cs2.
Proof.
  intros Hcm Ha. destruct vf as [c|body env|body env|f forces args|tag fields]; simpl in Ha;
    try discriminate Ha.
  - inv_ok. exists []. split; [done|]. intros w cs lg' (v & cs1 & lg1 & cs2 & He & Hu & ->).
    exists v, cs1, lg1, cs2. split_and!; [by constructor|done|done].
  - destruct (arity f) as [nf na] eqn:Ear. destruct (forces <? nf)%nat eqn:Ef; [done|].
    apply Nat.ltb_ge in Ef. destruct (_ && _) eqn:Es.
    + apply andb_true_iff in Es as [_ Es]. apply Nat.leb_le in Es.
      apply run_builtin_backed in Ha as (v & c & Hev & Hc & -> & Hfr & Hsp); [|done].
      exists [Charge_builtin c]. split; [done|]. intros w cs lg' Hu. rewrite Hfr in Hu.
      exists v, [Charge_builtin c], (logs m'), cs. split_and!; [|done|done].
      apply apply_saturated; rewrite ?Ear; done.
    + inv_ok. exists []. split; [done|]. intros w cs lg' Hu.
      exists (Value_BuiltinApp f forces (args ++ [va])), [], (logs m'), cs.
      split_and!; [|done|done]. apply apply_partial; rewrite ?Ear; [done|].
      apply andb_false_iff in Es as [Es|Es]; apply Nat.leb_gt in Es; simpl in *; lia.
Qed.

Lemma force_value_backed m vt s' m' :
  cost_model (acct m) = cm -> force_value m vt = Ok (s', m') ->
  exists cs0, spend_charges (acct m) cs0 = Ok (acct m')
    /\ forall w cs lg', goes s' (frames m') (logs m') w cs lg' ->
         exists v cs1 lg1 cs2, force_of vt (logs m) v cs1 lg1
           /\ unwind (frames m) v lg1 w cs2 lg' /\ cs0 ++ cs = cs1 ++ cs2.
Proof.
  intros Hcm Ha. destruct vt as [c|body env|body env|f forces args|tag fields];
    try discriminate Ha.
  - simpl in Ha. inv_ok. exists []. split; [done|].
    intros w cs lg' (v & cs1 & lg1 & cs2 & He & Hu & ->).
    exists v, cs1, lg1, cs2. split_and!; [by constructor|done|done].
  - unfold force_value in Ha. destruct (arity f) as [nf na] eqn:Ear.
    destruct (nf <=? forces)%nat eqn:Ef; [done|]. apply Nat.leb_gt in Ef.
    destruct (_ && _) eqn:Es.
    + apply andb_true_iff in Es as [Es1 Es]. apply Nat.leb_le in Es, Es1.
      apply run_builtin_backed in Ha as (v & c & Hev & Hc & -> & Hfr & Hsp); [|done].
      exists [Charge_builtin c]. split; [done|]. intros w cs lg' Hu. rewrite Hfr in Hu.
      exists v, [Charge_builtin c], (logs m'), cs. split_and!; [|done|done].
      apply force_saturated; rewrite ?Ear; done.
    + inv_ok. exists []. split; [done|]. intros w cs lg' Hu.
      exists (Value_BuiltinApp f (S forces) args), [], (logs m'), cs.
      split_and!; [|done|done]. apply force_partial; rewrite ?Ear; [done|]. cbn [fst snd].
      intros [H1 H2]. apply Nat.leb_le in H1, H2. by rewrite H1, H2 in Es.
Qed.

Lemma step_compute_backed m t env s' m' :
  step_compute m t env = Ok (s', m') -> backed (Computing t env) m s' m'.
Proof.
  intros Hs. destruct t; cbn [step_compute] in Hs; try discriminate Hs;
    apply obind_Ok_inv in Hs as (a & Ha & Hs);
    match type of Ha with spend_step _ ?k = _ => exists [Charge_step k] end.
  - apply obind_Ok_inv in Hs as (v & Hv & Hs). injection Hs as <- <-.
    split; [simpl; by rewrite Ha|]. intros w cs lg' Hu. simpl in *.
    eexists _, _, _, _. split_and!; [by constructor|exact Hu|done].
  - injection Hs as <- <-. split; [simpl; by rewrite Ha|]. intros w cs lg' Hu. simpl in *.
    eexists _, _, _, _. split_and!; [by constructor|exact Hu|done].
  - injection Hs as <- <-. split; [simpl; by rewrite Ha|].
    intros w cs lg' (vf & cs1 & lg1 & cs2 & He & Hu & ->). simpl in Hu.
    inversion Hu; subst. eexists _, _, _, _. split_and!; [by econstructor|done|].
    simpl. by rewrite <- ?(assoc_L (++)).
  - injection Hs as <- <-. split; [simpl; by rewrite Ha|]. intros w cs lg' Hu. simpl in *.
    eexists _, _, _, _. split_and!; [by constructor|exact Hu|done].
  - injection Hs as <- <-. split; [simpl; by rewrite Ha|].
    intros w cs lg' (vf & cs1 & lg1 & cs2 & He & Hu & ->). simpl in Hu.
    inversion Hu; subst. eexists _, _, _, _. split_and!; [by econstructor|done|].
    simpl. by rewrite <- ?(assoc_L (++)).
  - injection Hs as <- <-. split; [simpl; by rewrite Ha|]. intros w cs lg' Hu. simpl in *.
    eexists _, _, _, _. split_and!; [by constructor|exact Hu|done].
  - injection Hs as <- <-. split; [simpl; by rewrite Ha|]. intros w cs lg' Hu. simpl in *.
    eexists _, _, _, _. split_and!; [by constructor|exact Hu|done].
  - destruct fields as [|first remaining]; injection Hs as <- <-; (split; [simpl; by rewrite Ha|]).
    + intros w cs lg' Hu. simpl in *.
      eexists _, _, _, _. split_and!; [by repeat constructor|exact Hu|done].
    + intros w cs lg' (v & cs1 & lg1 & cs2 & He & Hu & ->). simpl in Hu. inversion Hu; subst.
      eexists _, _, _, _. split_and!; [constructor; by econstructor|done|].
      simpl. by rewrite <- ?(assoc_L (++)).
  - injection Hs as <- <-. split; [simpl; by rewrite Ha|].
    intros w cs lg' (vf & cs1 & lg1 & cs2 & He & Hu & ->). simpl in Hu.
    inversion Hu; subst. eexists _, _, _, _. split_and!; [by econstructor|done|].
    simpl. by rewrite <- ?(assoc_L (++)).
Qed.

Lemma step_return_backed m v s' m' :
  cost_model (acct m) = cm -> step_return m v = Ok (s', m') -> backed (Returning v) m s' m'.
Proof.
  intros Hcm Hs. unfold step_return in Hs. unfold backed. cbn [goes].
  destruct (frames m) as [|f K] eqn:Ef.
  { injection Hs as <- <-. exists []. split; [done|]. intros w cs lg' (-> & -> & ->). constructor. }
  destruct f as [env arg|fv| |tag evaluated remaining env|branches env|remaining].
  - injection Hs as <- <-. exists []. split; [done|].
    intros w cs lg' (va & cs1 & lg1 & cs2 & He & Hu & ->). simpl in Hu. inversion Hu; subst.
    simpl. by econstructor.
  - apply apply_fun_backed in Hs as (cs0 & Hsp & Hg); [|done]. exists cs0. split; [done|].
    intros w cs lg' Hgo. destruct (Hg w cs lg' Hgo) as (v1 & cs1 & lg1 & cs2 & Ha & Hu & ->).
    by econstructor.
  - apply force_value_backed in Hs as (cs0 & Hsp & Hg); [|done]. exists cs0. split; [done|].
    intros w cs lg' Hgo. destruct (Hg w cs lg' Hgo) as (v1 & cs1 & lg1 & cs2 & Ha & Hu & ->).
    by econstructor.
  - destruct remaining as [|next remaining]; injection Hs as <- <-; exists []; (split; [done|]).
    + intros w cs lg' Hu. simpl in *. change cs with ([] ++ cs). econstructor; [constructor|done].
    + intros w cs lg' (v1 & cs1 & lg1 & cs2 & He & Hu & ->). simpl in *. inversion Hu; subst.
      rewrite (assoc_L (++)). econstructor; [by econstructor|].
      by rewrite <- (assoc_L (++)) in *.
  - destruct v as [| | | |tag fields]; try discriminate Hs.
    destruct (zlength branches <=? tag) eqn:Et; [done|]. zbool. unfold ok_or in Hs.
    destruct (branches !! Z.to_nat tag) as [b|] eqn:Eb; [|done]. injection Hs as <- <-.
    exists []. split; [by destruct fields|].
    intros w cs lg' (vb & cs1 & lg1 & cs2 & He & Hu & ->). simpl.
    destruct fields as [|x fields]; simpl in *.
    + change cs2 with ([] ++ cs2). econstructor; [done|done|done|constructor|done].
    + inversion Hu; subst. by econstructor.
  - destruct remaining as [|next remaining].
    { injection Hs as <- <-. exists []. split; [done|]. intros w cs lg' Hu. simpl in *.
      change cs with ([] ++ cs). econstructor; [constructor|done]. }
    destruct remaining as [|y remaining];
      apply apply_fun_backed in Hs as (cs0 & Hsp & Hg); try done; exists cs0; (split; [done|]);
      intros w cs lg' Hgo; destruct (Hg w cs lg' Hgo) as (v1 & cs1 & lg1 & cs2 & Ha & Hu & ->);
      simpl in Hu.
    + rewrite <- (app_nil_r cs1). econstructor; [|done]. econstructor; [done|constructor].
    + inversion Hu; subst. rewrite (assoc_L (++)). econstructor; [|done]. by econstructor.
Qed.

(** A run that returns is backed by the semantics. *)
Lemma run_sound fuel s m w m' :
  cost_model (acct m) = cm ->
  loopM fuel cek_body (s, m) = Ok (w, m') ->
  exists cs a, goes s (frames m) (logs m) w cs (logs m')
    /\ spend_charges (acct m) cs = Ok a /\ spend_accumulated_step_budget a = Ok (acct m').
Proof.
  revert s m. induction fuel as [|fuel IH]; intros s m Hcm Hr; [done|]. cbn [loopM] in Hr.
  assert (Hstep : forall s1 m1, backed s m s1 m1 -> loopM fuel cek_body (s1, m1) = Ok (w, m') ->
    exists cs a, goes s (frames m) (logs m) w cs (logs m')
      /\ spend_charges (acct m) cs = Ok a /\ spend_accumulated_step_budget a = Ok (acct m')).
  { intros s1 m1 (cs0 & Hsp & Hg) Hl. destruct (IH s1 m1) as (cs & a & Hgo & Ha & Hf); [|done|].
    - by rewrite (spend_charges_cost_model _ _ _ Hsp).
    - exists (cs0 ++ cs), a. split_and!; [by apply Hg| |done].
      apply spend_charges_app. by exists (acct m1). }
  destruct s as [t env|v|v]; cbn [cek_body] in Hr.
  - apply obind_Ok_inv in Hr as (r & Hr1 & Hr). apply obind_Ok_inv in Hr1 as ([s1 m1] & Hs & Hr1).
    injection Hr1 as <-. eapply Hstep; [by apply step_compute_backed|done].
  - apply obind_Ok_inv in Hr as (r & Hr1 & Hr). apply obind_Ok_inv in Hr1 as ([s1 m1] & Hs & Hr1).
    injection Hr1 as <-. eapply Hstep; [by apply step_return_backed|done].
  - apply obind_Ok_inv in Hr as (r & Hr1 & Hr). apply obind_Ok_inv in Hr1 as (a & Ha & Hr1).
    injection Hr1 as <-. injection Hr as <- <-. exists [], (acct m). split_and!; done.
Qed.

(** ** Completeness *)

(** From [s], the machine reaches [s'] in some number of turns. *)
Definition reaches (s : State * CekMachine) (s' : State * CekMachine) : Prop :=
  exists n, runs n cek_body s s'.

Lemma reaches_refl s : reaches s s.
Proof. exists O. apply runs_refl. Qed.
Lemma reaches_trans s1 s2 s3 : reaches s1 s2 -> reaches s2 s3 -> reaches s1 s3.
Proof. intros [n Hn] [k Hk]. exists (n + k)%nat. by eapply runs_trans. Qed.
Lemma reaches_step s1 s2 s3 : cek_body s1 = Ok (inl s2) -> reaches s2 s3 -> reaches s1 s3.
Proof. intros Hs [n Hn]. exists (S n). by eapply runs_step. Qed.

(** The machine follows each judgement of the semantics, on any stack, when
    the accounting accepts its charges. *)
Definition follows_eval env t lg v cs lg' : Prop :=
  forall K a a', cost_model a = cm -> spend_charges a cs = Ok a' ->
    reaches (Computing t env, mkCekMachine K a lg) (Returning v, mkCekMachine K a' lg').
Definition follows_apply vf va lg v cs lg' : Prop :=
  forall K a a', cost_model a = cm -> spend_charges a cs = Ok a' ->
    exists s1, apply_fun (mkCekMachine K a lg) vf va = Ok s1
      /\ reaches s1 (Returning v, mkCekMachine K a' lg').
Definition follows_force vt lg v cs lg' : Prop :=
  forall K a a', cost_model a = cm -> spend_charges a cs = Ok a' ->
    exists s1, force_value (mkCekMachine K a lg) vt = Ok s1
      /\ reaches s1 (Returning v, mkCekMachine K a' lg').
Definition follows_fields env ts lg vs cs lg' : Prop :=
  forall tag evaluated K a a', cost_model a = cm -> spend_charges a cs = Ok a' ->
    match ts with
    | [] => vs = [] /\ a' = a /\ lg' = lg
    | t :: ts =>
        reaches (Computing t env, mkCekMachine (Frame_ConstrFields tag evaluated ts env :: K) a lg)
          (Returning (Value_Constr tag (evaluated ++ vs)), mkCekMachine K a' lg')
    end.
Definition case_frames (args : list Value) (K : list Frame) : list Frame :=
  match args with [] => K | _ => Frame_CaseApply args :: K end.
Definition follows_args v args lg w cs lg' : Prop :=
  forall K a a', cost_model a = cm -> spend_charges a cs = Ok a' ->
    reaches (Returning v, mkCekMachine (case_frames args K) a lg)
      (Returning w, mkCekMachine K a' lg').

Scheme eval_mut := Minimality for eval Sort Prop
  with apply_mut := Minimality for apply_to Sort Prop
  with force_mut := Minimality for force_of Sort Prop
  with fields_mut := Minimality for eval_all Sort Prop
  with args_mut := Minimality for apply_all Sort Prop.

(** Split the charges of a composite judgement. *)
Ltac split_charges :=
  repeat match goal with
  | Hs : spend_charges _ (_ :: _) = Ok _ |- _ =>
      cbn [spend_charges] in Hs; apply obind_Ok_inv in Hs as (? & ? & Hs)
  | Hs : spend_charges _ (_ ++ _) = Ok _ |- _ => apply spend_charges_app in Hs as (? & ? & Hs)
  | Hs : spend_charges _ [] = Ok _ |- _ => injection Hs as <-
  | Hs : Ok _ = Ok _ |- _ => injection Hs as <-
  end.

(** The cost model is carried along every charge. *)
Ltac same_model :=
  cbn [acct frames logs] in *;
  repeat match goal with
  | Hs : spend_charges _ _ = Ok _ |- _ => apply spend_charges_cost_model in Hs
  | Hs : spend_charge _ _ = Ok _ |- _ => apply spend_charge_params in Hs as (? & _)
  end; congruence.

(** The first turn of a term: charge a step and continue. *)
Lemma compute_first a kind a1 t env K lg s2 s3 :
  spend_charge a (Charge_step kind) = Ok a1 ->
  (spend_step a kind = Ok a1 ->
     step_compute (mkCekMachine K a lg) t env = Ok s2) ->
  reaches s2 s3 -> reaches (Computing t env, mkCekMachine K a lg) s3.
Proof.
  intros Ha Hs Hr. eapply reaches_step; [|exact Hr]. cbn [cek_body]. by rewrite (Hs Ha).
Qed.

Lemma return_first K a lg v s2 s3 :
  step_return (mkCekMachine K a lg) v = Ok s2 -> reaches s2 s3 ->
  reaches (Returning v, mkCekMachine K a lg) s3.
Proof. intros Hs Hr. eapply reaches_step; [|exact Hr]. cbn [cek_body]. by rewrite Hs. Qed.

Lemma eval_followed env t lg v cs lg' :
  eval env t lg v cs lg' -> follows_eval env t lg v cs lg'.
Proof.
  apply (eval_mut follows_eval follows_apply follows_force follows_fields follows_args);
    clear env t lg v cs lg'; unfold follows_eval, follows_apply, follows_force, follows_fields,
      follows_args.
  - intros env i lg v Hl K a a' Hcm Hs. split_charges.
    eapply compute_first; [eassumption|intros Ha; simpl; rewrite Ha; simpl; by rewrite Hl|].
    apply reaches_refl.
  - intros env body lg K a a' Hcm Hs. split_charges.
    eapply compute_first; [eassumption|intros Ha; simpl; by rewrite Ha|]. apply reaches_refl.
  - intros env body lg K a a' Hcm Hs. split_charges.
    eapply compute_first; [eassumption|intros Ha; simpl; by rewrite Ha|]. apply reaches_refl.
  - intros env c lg K a a' Hcm Hs. split_charges.
    eapply compute_first; [eassumption|intros Ha; simpl; by rewrite Ha|]. apply reaches_refl.
  - intros env f lg K a a' Hcm Hs. split_charges.
    eapply compute_first; [eassumption|intros Ha; simpl; by rewrite Ha|]. apply reaches_refl.
  - intros env f x lg vf lg1 va lg2 v lg3 cs1 cs2 cs3 _ IHf _ IHx _ IHa K a a' Hcm Hs.
    split_charges.
    eapply compute_first; [eassumption|intros Ha; simpl; by rewrite Ha|].
    eapply reaches_trans; [eapply IHf; [|eassumption]; same_model|].
    eapply return_first; [reflexivity|].
    eapply reaches_trans; [eapply IHx; [|eassumption]; same_model|].
    edestruct IHa as (s1 & Hap & Hr); [|exact Hs|]; [same_model|].
    eapply return_first; [exact Hap|exact Hr].
  - intros env t lg vt lg1 v lg2 cs1 cs2 _ IHt _ IHf K a a' Hcm Hs. split_charges.
    eapply compute_first; [eassumption|intros Ha; simpl; by rewrite Ha|].
    eapply reaches_trans; [eapply IHt; [|eassumption]; same_model|].
    edestruct IHf as (s1 & Hap & Hr); [|exact Hs|]; [same_model|].
    eapply return_first; [exact Hap|exact Hr].
  - intros env tag ts lg vs cs lg' _ IH K a a' Hcm Hs. split_charges.
    specialize (IH tag [] K x a' ltac:(same_model) Hs). destruct ts as [|t ts].
    + destruct IH as (-> & -> & ->).
      eapply compute_first; [eassumption|intros Ha; simpl; by rewrite Ha|]. apply reaches_refl.
    + eapply compute_first; [eassumption|intros Ha; simpl; by rewrite Ha|]. exact IH.
  - intros env t bs lg tag fields lg1 b vb lg2 v lg3 cs1 cs2 cs3 _ IHt Htag Hb _ IHb _ IHa K a a'
      Hcm Hs. split_charges.
    eapply compute_first; [eassumption|intros Ha; simpl; by rewrite Ha|].
    eapply reaches_trans; [eapply IHt; [|eassumption]; same_model|].
    eapply (return_first _ _ _ _ (Computing b env, mkCekMachine (case_frames fields K) x0 lg1)).
    { cbn [step_return frames]. rewrite (proj2 (Z.leb_gt _ _)) by done. rewrite Hb.
      by destruct fields. }
    eapply reaches_trans; [eapply (IHb (case_frames fields K)); [|eassumption]; same_model|].
    eapply (IHa K); [same_model|exact Hs].
  - intros body env x lg v cs lg' _ IH K a a' Hcm Hs. eexists. split; [reflexivity|].
    by apply IH.
  - intros f forces args x lg Hf Hn K a a' Hcm Hs. split_charges. cbn [apply_fun].
    destruct (arity f) as [nf na]. cbn [fst snd] in *.
    rewrite (proj2 (Nat.ltb_ge _ _)) by done. rewrite (proj2 (Nat.leb_gt na _)) by done.
    rewrite andb_false_r. eexists. split; [reflexivity|]. apply reaches_refl.
  - intros f forces args x lg v lg' c Hf Hn Hev Hc K a a' Hcm Hs. split_charges.
    cbn [apply_fun]. destruct (arity f) as [nf na]. cbn [fst snd] in *.
    rewrite (proj2 (Nat.ltb_ge _ _)) by done. rewrite !(proj2 (Nat.leb_le _ _)) by done.
    cbn [andb]. unfold run_builtin. cbn [acct logs frames]. rewrite Hcm, Hev. cbn [obind].
    rewrite Hc. cbn [obind spend_charge] in *. rewrite H0. cbn [obind].
    eexists. split; [reflexivity|]. apply reaches_refl.
  - intros body env lg v cs lg' _ IH K a a' Hcm Hs. eexists. split; [reflexivity|].
    by apply IH.
  - intros f forces args lg Hf Hn K a a' Hcm Hs. split_charges. unfold force_value.
    destruct (arity f) as [nf na]. cbn [fst snd] in *.
    rewrite (proj2 (Nat.leb_gt _ _)) by done.
    replace ((nf <=? S forces)%nat && (na <=? length args)%nat) with false.
    + eexists. split; [reflexivity|]. apply reaches_refl.
    + symmetry. apply not_true_is_false. rewrite andb_true_iff, !Nat.leb_le. tauto.
  - intros f forces args lg v lg' c Hf Hsf Hn Hev Hc K a a' Hcm Hs. split_charges.
    unfold force_value. destruct (arity f) as [nf na]. cbn [fst snd] in *.
    rewrite (proj2 (Nat.leb_gt nf forces)) by done.
    rewrite (proj2 (Nat.leb_le nf (S forces))), (proj2 (Nat.leb_le na _)) by done.
    cbn [andb]. unfold run_builtin. cbn [acct logs frames]. rewrite Hcm, Hev. cbn [obind].
    rewrite Hc. cbn [obind spend_charge] in *. rewrite H0. cbn [obind].
    eexists. split; [reflexivity|]. apply reaches_refl.
  - intros env lg tag evaluated K a a' Hcm Hs. by split_charges.
  - intros env t ts lg v lg1 vs lg2 cs1 cs2 _ IHt _ IHts tag evaluated K a a' Hcm Hs.
    split_charges. eapply reaches_trans; [eapply IHt; [|eassumption]; same_model|].
    specialize (IHts tag (evaluated ++ [v]) K x a' ltac:(same_model) Hs).
    destruct ts as [|t' ts]; (eapply return_first; [reflexivity|]).
    + destruct IHts as (-> & -> & ->). apply reaches_refl.
    + by rewrite <- (assoc_L (++)) in IHts.
  - intros v lg K a a' Hcm Hs. split_charges. apply reaches_refl.
  - intros v x args lg v1 lg1 w lg2 cs1 cs2 _ IHa _ IHargs K a a' Hcm Hs. split_charges.
    destruct (IHa (case_frames args K) a x0 Hcm ltac:(done)) as (s1 & Hap & Hr).
    eapply return_first; [|eapply reaches_trans; [exact Hr|]].
    + cbn [step_return case_frames frames]. by destruct args.
    + eapply IHargs; [same_model|exact Hs].
Qed.

(** The machine and the semantics agree: a run returns a value exactly when
    the semantics derives it and the accounting accepts the start-up cost, the
    charges of the derivation in order, and the final settlement. *)
Lemma evaluate_iff_semantics m t v a' lg :
  frames m = [] -> cost_model (acct m) = cm ->
  (exists fuel m', evaluate fuel m t = Ok (v, m') /\ acct m' = a' /\ logs m' = lg)
  <-> exists a0 cs a1, spend_budget (acct m) (startup_cost cm) = Ok a0
        /\ eval Environment_new t (logs m) v cs lg
        /\ spend_charges a0 cs = Ok a1 /\ spend_accumulated_step_budget a1 = Ok a'.
Proof.
  intros Hf Hcm. unfold evaluate. rewrite Hf, Hcm. split.
  - intros (fuel & m' & He & <- & <-). apply obind_Ok_inv in He as (a0 & Ha0 & He).
    pose proof (spend_budget_spec _ _ _ Ha0) as [(Hc0 & _) _].
    apply run_sound in He as (cs & a1 & (v0 & cs1 & lg1 & cs2 & Hev & Hu & ->) & Hsp & Hfl);
      [|by simpl; congruence].
    simpl in Hu. inversion Hu; subst. rewrite app_nil_r in Hsp. by exists a0, cs1, a1.
  - intros (a0 & cs & a1 & Ha0 & Hev & Hsp & Hfl). rewrite Ha0. cbn [obind].
    pose proof (spend_budget_spec _ _ _ Ha0) as [(Hc0 & _) _].
    destruct (eval_followed _ _ _ _ _ _ Hev [] a0 a1 ltac:(congruence) Hsp) as [n Hn].
    exists (S (S n)), (mkCekMachine [] a' lg). split; [|done].
    eapply (runs_returns (S n) _ _ _ (Done v, mkCekMachine [] a1 lg)); [| |lia].
    + eapply runs_snoc; [exact Hn|]. reflexivity.
    + cbn [cek_body acct]. by rewrite Hfl.
Qed.
End semantics.
