(* ===== verification/CekBudget.v ===== *)
(** * Budget accounting of the CEK machine

    The machine counts its steps by kind and pays for them in batches, in
    saturating 64-bit arithmetic. For cost models without negative costs this
    is equivalent to paying the exact price of every step at once: an
    evaluation succeeds exactly when the language gives the term a value, the
    number of steps is within the limit and the budget covers the start-up
    cost and the sum of all charges; and what remains is the difference. In
    particular the size of the batches cannot be observed on success. *)

From S2P Require Import Prelude Cbor PlutusData Uplc CostModel Builtins Cek CekSafety.
From S2P Require Import CekSemantics.
Local Open Scope Z_scope.

(** ** Exact prices *)

Definition charge_cost (cm : CostModel) (c : charge) : ExBudget :=
  match c with
  | Charge_step kind => CostModel_step_cost cm kind
  | Charge_builtin cost => cost
  end.
Definition total_cpu (cm : CostModel) (cs : list charge) : Z :=
  foldr Z.add 0 (map (fun c => cpu (charge_cost cm c)) cs).
Definition total_mem (cm : CostModel) (cs : list charge) : Z :=
  foldr Z.add 0 (map (fun c => mem (charge_cost cm c)) cs).
Definition step_count (cs : list charge) : Z :=
  zlength (List.filter (fun c => match c with Charge_step _ => true | _ => false end) cs).

Definition count_of (counts : list Z) (kind : StepKind) : Z :=
  default 0 (counts !! StepKind_index kind).

(** What the pending counts cost, exactly. *)
Definition owed (price : StepKind -> Z) (counts : list Z) : Z :=
  foldr Z.add 0 (map (fun k => count_of counts k * price k) StepKind_ALL).
Definition cpu_price (cm : CostModel) (k : StepKind) : Z := cpu (CostModel_step_cost cm k).
Definition mem_price (cm : CostModel) (k : StepKind) : Z := mem (CostModel_step_cost cm k).

(** ** The invariant of the accounting *)

(** The limit is far below [2^63], so that counts are exact. *)
Definition STEP_LIMIT : Z := 10000000000.

Record acct_ok (a : Accounting) : Prop := {
  ok_model : cost_model_nonneg (cost_model a);
  ok_cpu : 0 <= cpu (budget a) < I64_MAX;
  ok_mem : 0 <= mem (budget a) < I64_MAX;
  ok_limit : max_steps a = STEP_LIMIT;
  ok_length : length (pending_step_counts a) = StepKind_COUNT;
  ok_nonneg : Forall (fun c => 0 <= c) (pending_step_counts a);
  ok_total : foldr Z.add 0 (pending_step_counts a) = pending_steps_total a;
  ok_steps : pending_steps_total a <= steps a <= max_steps a }.

Lemma clamp_add x y :
  0 <= x -> 0 <= y -> sat_add_i64 (clamp_i64 x) (clamp_i64 y) = clamp_i64 (x + y).
Proof. intros. unfold sat_add_i64, clamp_i64, I64_MIN, I64_MAX. lia. Qed.

Lemma wrap_i64_small c : 0 <= c <= I64_MAX -> wrap_i64 c = c.
Proof. intros. unfold wrap_i64, I64_MAX in *. rewrite Z.mod_small; lia. Qed.

Lemma add_pending_clamp cm counts k x y :
  cost_model_nonneg cm -> 0 <= count_of counts k <= I64_MAX -> 0 <= x -> 0 <= y ->
  add_pending cm counts (mkExBudget (clamp_i64 x) (clamp_i64 y)) k
  = mkExBudget (clamp_i64 (x + count_of counts k * cpu_price cm k))
               (clamp_i64 (y + count_of counts k * mem_price cm k)).
Proof.
  intros (Hm & _) Hc Hx Hy. unfold add_pending. fold (count_of counts k).
  rewrite wrap_i64_small by done. destruct (Hm k) as [Hcpu Hmem].
  fold (cpu_price cm k) in *. fold (mem_price cm k) in *.
  destruct (count_of counts k =? 0) eqn:E; zbool.
  - rewrite E, !Z.mul_0_l, !Z.add_0_r. done.
  - unfold sat_mul_i64. cbn [cpu mem]. rewrite !clamp_add by nia.
    by rewrite (Z.mul_comm (cpu_price _ _)), (Z.mul_comm (mem_price _ _)).
Qed.

Lemma fold_pending_clamp cm counts ks x y :
  cost_model_nonneg cm -> (forall k, 0 <= count_of counts k <= I64_MAX) -> 0 <= x -> 0 <= y ->
  fold_left (add_pending cm counts) ks (mkExBudget (clamp_i64 x) (clamp_i64 y))
  = mkExBudget
      (clamp_i64 (x + foldr Z.add 0 (map (fun k => count_of counts k * cpu_price cm k) ks)))
      (clamp_i64 (y + foldr Z.add 0 (map (fun k => count_of counts k * mem_price cm k) ks))).
Proof.
  intros Hm Hc. revert x y. induction ks as [|k ks IH]; intros x y Hx Hy; simpl.
  - by rewrite !Z.add_0_r.
  - rewrite add_pending_clamp by done. destruct (Hc k) as [Hk _]. destruct (proj1 Hm k) as [??].
    unfold cpu_price, mem_price in *. rewrite IH by nia. by rewrite !Z.add_assoc.
Qed.

(** The saturating sum is the exact one, clamped. *)
Lemma pending_cost_clamp cm counts :
  cost_model_nonneg cm -> (forall k, 0 <= count_of counts k <= I64_MAX) ->
  pending_cost cm counts
  = mkExBudget (clamp_i64 (owed (cpu_price cm) counts)) (clamp_i64 (owed (mem_price cm) counts)).
Proof.
  intros Hm Hc. unfold pending_cost. change (mkExBudget 0 0) with (mkExBudget (clamp_i64 0) (clamp_i64 0)).
  by rewrite fold_pending_clamp.
Qed.

Lemma owed_nonneg price counts :
  (forall k, 0 <= price k) -> (forall k, 0 <= count_of counts k) -> 0 <= owed price counts.
Proof.
  intros Hp Hc. unfold owed. induction StepKind_ALL as [|k ks IH]; simpl; [lia|].
  specialize (Hp k). specialize (Hc k). nia.
Qed.

Lemma spend_exact b cx cy :
  0 <= cpu b < I64_MAX -> 0 <= mem b < I64_MAX -> 0 <= cx -> 0 <= cy ->
  ExBudget_spend b (mkExBudget (clamp_i64 cx) (clamp_i64 cy))
  = if (cx <=? cpu b) && (cy <=? mem b) then Ok (mkExBudget (cpu b - cx) (mem b - cy))
    else Err OutOfBudget.
Proof.
  intros Hc Hm Hx Hy. unfold ExBudget_spend, checked_sub_i64, clamp_i64, I64_MIN, I64_MAX in *.
  cbn [cpu mem].
  rewrite !(proj2 (Z.leb_le (-9223372036854775808) _)) by lia.
  rewrite !(proj2 (Z.leb_le _ 9223372036854775807)) by lia. cbn [andb ok_or obind].
  destruct (cx <=? cpu b) eqn:E1; destruct (cy <=? mem b) eqn:E2; zbool; cbn [andb].
  - rewrite !(proj2 (Z.ltb_ge _ 0)) by lia. cbn [orb]. do 2 f_equal; lia.
  - rewrite (proj2 (Z.ltb_lt (mem b - _) 0)) by lia. by rewrite orb_true_r.
  - by rewrite (proj2 (Z.ltb_lt (cpu b - _) 0)) by lia.
  - by rewrite (proj2 (Z.ltb_lt (cpu b - _) 0)) by lia.
Qed.

Lemma spend_exact_any b c :
  0 <= cpu b < I64_MAX -> 0 <= mem b < I64_MAX -> budget_nonneg c ->
  match ExBudget_spend b c with
  | Ok b' => cpu c <= cpu b /\ mem c <= mem b
             /\ b' = mkExBudget (cpu b - cpu c) (mem b - mem c)
  | Err e => ~ (cpu c <= cpu b /\ mem c <= mem b)
  | _ => False
  end.
Proof.
  intros Hc Hm [Hx Hy]. unfold ExBudget_spend, checked_sub_i64, I64_MIN, I64_MAX in *.
  rewrite (proj2 (Z.leb_le (cpu b - cpu c) _)), (proj2 (Z.leb_le (mem b - mem c) _)) by lia.
  rewrite !andb_true_r.
  destruct (-9223372036854775808 <=? cpu b - cpu c) eqn:E1; zbool; cbn [ok_or obind]; [|lia].
  destruct (-9223372036854775808 <=? mem b - mem c) eqn:E2; zbool; cbn [ok_or obind]; [|lia].
  destruct ((cpu b - cpu c <? 0) || (mem b - mem c <? 0)) eqn:E; [|zbool; split_and!; lia || done].
  apply orb_true_iff in E as [E|E]; zbool; lia.
Qed.

(** ** What is left once the pending steps are paid *)

Definition avail_cpu (a : Accounting) : Z :=
  cpu (budget a) - owed (cpu_price (cost_model a)) (pending_step_counts a).
Definition avail_mem (a : Accounting) : Z :=
  mem (budget a) - owed (mem_price (cost_model a)) (pending_step_counts a).

Lemma count_le_total (counts : list Z) k :
  Forall (fun c => 0 <= c) counts -> 0 <= count_of counts k <= foldr Z.add 0 counts.
Proof.
  intros Hc. unfold count_of. generalize (StepKind_index k). intros i. revert i.
  induction Hc as [|c counts Hc Hcs IH]; intros i; simpl; [lia|].
  assert (0 <= foldr Z.add 0 counts) by (destruct (IH O); lia).
  destruct i as [|i]; simpl; [lia|]. specialize (IH i). lia.
Qed.

Lemma counts_bounded a k :
  acct_ok a -> 0 <= count_of (pending_step_counts a) k <= I64_MAX.
Proof.
  intros Ha. pose proof (count_le_total _ k (ok_nonneg a Ha)) as Hk.
  rewrite (ok_total a Ha) in Hk. pose proof (ok_steps a Ha). rewrite (ok_limit a Ha) in *.
  unfold STEP_LIMIT, I64_MAX in *. lia.
Qed.

Lemma owed_ok a :
  acct_ok a ->
  0 <= owed (cpu_price (cost_model a)) (pending_step_counts a)
  /\ 0 <= owed (mem_price (cost_model a)) (pending_step_counts a).
Proof.
  intros Ha. destruct (ok_model a Ha) as (Hm & _).
  split; apply owed_nonneg; try (intros k; apply Hm); intros k; by apply counts_bounded.
Qed.

Lemma owed_none price : owed price no_pending = 0.
Proof. reflexivity. Qed.

Lemma owed_total_zero price counts :
  Forall (fun c => 0 <= c) counts -> foldr Z.add 0 counts = 0 -> owed price counts = 0.
Proof.
  intros Hc Hz. unfold owed. induction StepKind_ALL as [|k ks IH]; simpl; [done|].
  pose proof (count_le_total counts k Hc). replace (count_of counts k) with 0 by lia. lia.
Qed.

(** Settling the pending steps. *)
Lemma flush_spec a :
  acct_ok a ->
  match spend_accumulated_step_budget a with
  | Ok a' => acct_ok a' /\ steps a' = steps a /\ cost_model a' = cost_model a
      /\ avail_cpu a' = avail_cpu a /\ avail_mem a' = avail_mem a
      /\ budget a' = mkExBudget (avail_cpu a) (avail_mem a)
  | Err _ => ~ (0 <= avail_cpu a /\ 0 <= avail_mem a)
  | _ => False
  end.
Proof.
  intros Ha. destruct (owed_ok a Ha) as [Hoc Hom]. unfold spend_accumulated_step_budget.
  destruct (pending_steps_total a =? 0) eqn:Et; zbool.
  { assert (Hz : forall price, owed price (pending_step_counts a) = 0).
    { intros price. apply owed_total_zero; [apply ok_nonneg, Ha|].
      by rewrite (ok_total a Ha). }
    unfold avail_cpu, avail_mem. rewrite !Hz, !Z.sub_0_r. split_and!; try done.
    by destruct (budget a). }
  unfold spend_budget. cbn [budget cost_model steps max_steps pending_step_counts
    pending_steps_total step_slippage].
  rewrite pending_cost_clamp by (apply ok_model, Ha || (intros k; by apply counts_bounded)).
  rewrite spend_exact by (apply ok_cpu, Ha || apply ok_mem, Ha || done).
  unfold avail_cpu, avail_mem.
  destruct ((_ <=? cpu (budget a)) && _) eqn:E; cbn [obind];
    cbn [budget cost_model steps max_steps pending_step_counts pending_steps_total cpu mem].
  - zbool. rewrite owed_none, !Z.sub_0_r. split_and!; try done.
    pose proof (ok_cpu a Ha). pose proof (ok_mem a Ha). pose proof (ok_steps a Ha).
    split; cbn [budget cost_model steps max_steps pending_step_counts pending_steps_total cpu mem];
      try (by apply Ha); try lia; try done.
    + by repeat (constructor; [lia|]).
    + pose proof (ok_total a Ha). destruct (count_le_total _ Step_Var (ok_nonneg a Ha)). lia.
  - apply andb_false_iff in E as [E|E]; zbool; lia.
Qed.

(** Counting one more step of a kind. *)
Lemma alter_counts counts k :
  length counts = StepKind_COUNT -> Forall (fun c => 0 <= c) counts ->
  (forall k, count_of counts k < U64_MAX) ->
  let counts' := alter (fun c => sat_add c 1) (StepKind_index k) counts in
  length counts' = StepKind_COUNT /\ Forall (fun c => 0 <= c) counts'
  /\ foldr Z.add 0 counts' = foldr Z.add 0 counts + 1
  /\ forall price, owed price counts' = owed price counts + price k.
Proof.
  intros Hl Hn Hb counts'. subst counts'.
  destruct counts as [|c0 [|c1 [|c2 [|c3 [|c4 [|c5 [|c6 [|c7 [|c8 [|? ?]]]]]]]]]];
    try discriminate Hl.
  pose proof (Hb k) as Hk. unfold count_of in Hk.
  repeat match goal with Hf : Forall _ (_ :: _) |- _ => inversion Hf; clear Hf; subst end.
  assert (Hs : forall c, c < U64_MAX -> sat_add c 1 = c + 1) by (intros; unfold sat_add; lia).
  destruct k; simpl in *; rewrite Hs by done; split_and!; try done;
    try (repeat constructor; lia); try lia;
    intros price; unfold owed, count_of; simpl; ring.
Qed.

Lemma spend_step_exact a k :
  acct_ok a ->
  match spend_step a k with
  | Ok a' => acct_ok a' /\ steps a' = steps a + 1 /\ cost_model a' = cost_model a
      /\ avail_cpu a' = avail_cpu a - cpu_price (cost_model a) k
      /\ avail_mem a' = avail_mem a - mem_price (cost_model a) k
  | Err _ => ~ (steps a + 1 <= STEP_LIMIT
                /\ cpu_price (cost_model a) k <= avail_cpu a
                /\ mem_price (cost_model a) k <= avail_mem a)
  | _ => False
  end.
Proof.
  intros Ha. unfold spend_step. pose proof (ok_limit a Ha) as Hlim.
  destruct (max_steps a <? steps a + 1) eqn:El; zbool; [lia|].
  destruct (alter_counts (pending_step_counts a) k) as (Hl & Hn & Ht & Ho).
  - apply Ha.
  - apply Ha.
  - intros k'. pose proof (counts_bounded a k' Ha). unfold U64_MAX, I64_MAX in *. lia.
  - set (counts' := alter _ _ _) in *.
    pose proof (ok_steps a Ha) as Hst. rewrite (ok_limit a Ha) in Hst.
    assert (Htot : sat_add (pending_steps_total a) 1 = pending_steps_total a + 1).
    { unfold sat_add, STEP_LIMIT, U64_MAX in *. lia. }
    rewrite Htot.
    set (a1 := mkAccounting (budget a) (cost_model a) (steps a + 1) (max_steps a) counts'
                 (pending_steps_total a + 1) (step_slippage a)).
    assert (Hok : acct_ok a1).
    { split; cbn [a1 budget cost_model steps max_steps pending_step_counts pending_steps_total];
        try (by apply Ha); try done.
      - by rewrite Ht, (ok_total a Ha).
      - rewrite (ok_limit a Ha). lia. }
    assert (Hav : avail_cpu a1 = avail_cpu a - cpu_price (cost_model a) k
                  /\ avail_mem a1 = avail_mem a - mem_price (cost_model a) k).
    { unfold avail_cpu, avail_mem.
      cbn [a1 budget cost_model pending_step_counts]. rewrite !Ho. lia. }
    destruct (step_slippage a1 <=? _); [|split_and!; try done; apply Hav].
    pose proof (flush_spec a1 Hok) as Hf.
    destruct (spend_accumulated_step_budget a1) as [a'| | |]; try done.
    + destruct Hf as (? & ? & ? & ? & ? & ?). split_and!; try done; lia.
    + intros (_ & ? & ?). apply Hf. lia.
Qed.

Lemma spend_budget_exact a c :
  acct_ok a -> budget_nonneg c ->
  match spend_budget a c with
  | Ok a' => acct_ok a' /\ steps a' = steps a /\ cost_model a' = cost_model a
      /\ avail_cpu a' = avail_cpu a - cpu c /\ avail_mem a' = avail_mem a - mem c
  | Err _ => ~ (cpu c <= avail_cpu a /\ mem c <= avail_mem a)
  | _ => False
  end.
Proof.
  intros Ha Hc. destruct (owed_ok a Ha) as [Hoc Hom]. unfold spend_budget.
  pose proof (spend_exact_any (budget a) c (ok_cpu a Ha) (ok_mem a Ha) Hc) as Hs.
  unfold avail_cpu, avail_mem.
  destruct (ExBudget_spend (budget a) c) as [b'| | |]; cbn [obind]; try done.
  - destruct Hs as (H1 & H2 & ->). pose proof (ok_cpu a Ha). pose proof (ok_mem a Ha).
    destruct Hc as [??].
    cbn [budget cost_model steps pending_step_counts cpu mem]. split_and!; try done; try lia.
    split; cbn [budget cost_model steps max_steps pending_step_counts pending_steps_total cpu mem];
      try (by apply Ha); lia.
  - intros [? ?]. apply Hs. lia.
Qed.

(** ** Sequences of charges *)

(** No builtin charge of the sequence is negative. *)
Definition charge_nonneg (c : charge) : Prop :=
  match c with Charge_step _ => True | Charge_builtin cost => budget_nonneg cost end.

Lemma charge_cost_nonneg cm c :
  cost_model_nonneg cm -> charge_nonneg c -> budget_nonneg (charge_cost cm c).
Proof. intros (Hm & _) Hc. destruct c; [apply Hm|exact Hc]. Qed.

Lemma totals_nonneg cm cs :
  cost_model_nonneg cm -> Forall charge_nonneg cs ->
  0 <= total_cpu cm cs /\ 0 <= total_mem cm cs.
Proof.
  intros Hm Hcs. unfold total_cpu, total_mem.
  induction Hcs as [|c cs Hc Hcs IH]; simpl; [lia|].
  destruct (charge_cost_nonneg cm c Hm Hc). lia.
Qed.

Lemma step_count_cons c cs :
  step_count (c :: cs)
  = match c with Charge_step _ => 1 | Charge_builtin _ => 0 end + step_count cs.
Proof. unfold step_count, zlength. destruct c; cbn [List.filter length]; lia. Qed.

Lemma step_count_nonneg cs : 0 <= step_count cs.
Proof. unfold step_count, zlength. lia. Qed.

(** One charge, of either sort. *)
Lemma charge_exact a c :
  acct_ok a -> charge_nonneg c ->
  match spend_charge a c with
  | Ok a' => acct_ok a' /\ steps a' = steps a + step_count [c] /\ cost_model a' = cost_model a
      /\ avail_cpu a' = avail_cpu a - cpu (charge_cost (cost_model a) c)
      /\ avail_mem a' = avail_mem a - mem (charge_cost (cost_model a) c)
  | Err _ => ~ (steps a + step_count [c] <= STEP_LIMIT
                /\ cpu (charge_cost (cost_model a) c) <= avail_cpu a
                /\ mem (charge_cost (cost_model a) c) <= avail_mem a)
  | _ => False
  end.
Proof.
  intros Ha Hc. rewrite step_count_cons. change (step_count []) with 0. rewrite Z.add_0_r.
  destruct c as [kind|cost]; cbn [spend_charge charge_cost].
  - apply spend_step_exact, Ha.
  - rewrite Z.add_0_r. pose proof (spend_budget_exact a cost Ha Hc) as Hs.
    destruct (spend_budget a cost); try done. tauto.
Qed.

Lemma charges_exact cs a :
  acct_ok a -> Forall charge_nonneg cs ->
  match spend_charges a cs with
  | Ok a' => acct_ok a' /\ steps a' = steps a + step_count cs /\ cost_model a' = cost_model a
      /\ avail_cpu a' = avail_cpu a - total_cpu (cost_model a) cs
      /\ avail_mem a' = avail_mem a - total_mem (cost_model a) cs
  | Err _ => ~ (steps a + step_count cs <= STEP_LIMIT
                /\ total_cpu (cost_model a) cs <= avail_cpu a
                /\ total_mem (cost_model a) cs <= avail_mem a)
  | _ => False
  end.
Proof.
  intros Ha Hcs. revert a Ha. induction Hcs as [|c cs Hc Hcs IH]; intros a Ha.
  { cbn [spend_charges]. change (step_count []) with 0. unfold total_cpu, total_mem. simpl.
    split_and!; try done; lia. }
  destruct (totals_nonneg (cost_model a) cs (ok_model a Ha) Hcs) as [Htc Htm].
  pose proof (step_count_nonneg cs) as Hn.
  assert (Hsc : step_count (c :: cs) = step_count [c] + step_count cs).
  { rewrite !(step_count_cons c). change (step_count []) with 0. lia. }
  assert (Hcpu : total_cpu (cost_model a) (c :: cs)
                 = cpu (charge_cost (cost_model a) c) + total_cpu (cost_model a) cs) by done.
  assert (Hmem : total_mem (cost_model a) (c :: cs)
                 = mem (charge_cost (cost_model a) c) + total_mem (cost_model a) cs) by done.
  rewrite Hsc, Hcpu, Hmem. cbn [spend_charges].
  pose proof (charge_exact a c Ha Hc) as H1.
  destruct (spend_charge a c) as [a1| | |]; cbn [obind]; try done.
  - destruct H1 as (Ha1 & Hs1 & Hm1 & Hc1 & Hmm1). specialize (IH a1 Ha1). rewrite Hm1 in IH.
    destruct (spend_charges a1 cs) as [a2| | |]; try done.
    + destruct IH as (? & ? & ? & ? & ?). split_and!; try done; lia.
    + intros (? & ? & ?). apply IH. lia.
  - intros (? & ? & ?). apply H1. lia.
Qed.

(** ** The refinement *)

Section refinement.
  Context `{PlutusCrypto}.

Lemma eval_charges_nonneg cm env t lg v cs lg' :
  cost_model_nonneg cm -> eval cm env t lg v cs lg' -> Forall charge_nonneg cs.
Proof.
  intros Hm He. revert env t lg v cs lg' He.
  apply (eval_mut cm (fun _ _ _ _ cs _ => Forall charge_nonneg cs)
           (fun _ _ _ _ cs _ => Forall charge_nonneg cs) (fun _ _ _ cs _ => Forall charge_nonneg cs)
           (fun _ _ _ _ cs _ => Forall charge_nonneg cs)
           (fun _ _ _ _ cs _ => Forall charge_nonneg cs));
    intros; repeat apply Forall_app_2; repeat (constructor; simpl; try done);
    repeat apply Forall_app_2; eauto; by eapply builtin_cost_nonneg.
Qed.

Lemma with_step_slippage_ok b cm slippage :
  cost_model_nonneg cm -> 0 <= cpu b < I64_MAX -> 0 <= mem b < I64_MAX ->
  acct_ok (acct (with_step_slippage b cm slippage)).
Proof.
  intros Hm Hc Hb. split; simpl; try done. by repeat (constructor; [lia|]).
Qed.

(** The price of a derivation: start-up and every charge. *)
Definition left_over (cm : CostModel) (b : ExBudget) (cs : list charge) : ExBudget :=
  mkExBudget (cpu b - cpu (startup_cost cm) - total_cpu cm cs)
             (mem b - mem (startup_cost cm) - total_mem cm cs).

(** The start-up cost, the charges of a derivation and the final settlement
    are accepted exactly when the budget covers them. *)
Lemma payment_exact a cs :
  acct_ok a -> Forall charge_nonneg cs ->
  let b' := left_over (cost_model a) (mkExBudget (avail_cpu a) (avail_mem a)) cs in
  match (let? a0 := spend_budget a (startup_cost (cost_model a)) in
         let? a1 := spend_charges a0 cs in spend_accumulated_step_budget a1) with
  | Ok a2 => steps a2 = steps a + step_count cs /\ steps a2 <= STEP_LIMIT /\ budget a2 = b'
             /\ 0 <= cpu b' /\ 0 <= mem b'
  | Err _ => ~ (steps a + step_count cs <= STEP_LIMIT /\ 0 <= cpu b' /\ 0 <= mem b')
  | _ => False
  end.
Proof.
  intros Hok Hcs b'. destruct (ok_model a Hok) as (_ & Hstart & _).
  destruct (totals_nonneg (cost_model a) cs (ok_model a Hok) Hcs) as [Htc Htm].
  pose proof (step_count_nonneg cs) as Hn0. subst b'. unfold left_over. cbn [cpu mem].
  pose proof (spend_budget_exact a (startup_cost (cost_model a)) Hok Hstart) as H0.
  destruct (spend_budget a _) as [a0| | |]; cbn [obind]; try done; [|intros (? & ? & ?); apply H0; lia].
  destruct H0 as (Ho0 & Hs0 & Hm0 & Hc0 & Hme0).
  pose proof (charges_exact cs a0 Ho0 Hcs) as H1. rewrite Hm0 in H1.
  destruct (spend_charges a0 cs) as [a1| | |]; cbn [obind]; try done;
    [|intros (? & ? & ?); apply H1; lia].
  destruct H1 as (Ho1 & Hs1 & _ & Hc1 & Hme1). pose proof (flush_spec a1 Ho1) as H2.
  destruct (spend_accumulated_step_budget a1) as [a2| | |]; try done;
    [|intros (? & ? & ?); apply H2; lia].
  destruct H2 as (Ho2 & Hs2 & _ & _ & _ & Hb2).
  pose proof (ok_cpu _ Ho2) as Hcpu2. pose proof (ok_mem _ Ho2) as Hmem2.
  pose proof (ok_steps _ Ho2) as Hst. rewrite (ok_limit _ Ho2) in Hst.
  rewrite Hb2 in Hcpu2, Hmem2. cbn [cpu mem] in Hcpu2, Hmem2.
  split_and!; [lia|lia| |lia|lia]. rewrite Hb2. f_equal; lia.
Qed.

(** The machine computes the semantics, for any state of its accounting. *)
Lemma machine_exact m t v b' n lg :
  acct_ok (acct m) -> frames m = [] -> steps (acct m) = 0 ->
  ((exists fuel m', evaluate fuel m t = Ok (v, m')
      /\ remaining_budget m' = b' /\ steps_taken m' = n /\ logs m' = lg)
   <-> exists cs, eval (cost_model (acct m)) Environment_new t (logs m) v cs lg
        /\ n = step_count cs /\ n <= STEP_LIMIT
        /\ b' = left_over (cost_model (acct m))
                  (mkExBudget (avail_cpu (acct m)) (avail_mem (acct m))) cs
        /\ 0 <= cpu b' /\ 0 <= mem b').
Proof.
  intros Hok Hf Hs0. set (cm := cost_model (acct m)).
  pose proof (evaluate_iff_semantics cm m t v) as Hiff. split.
  - intros (fuel & m' & He & <- & <- & <-).
    destruct (proj1 (Hiff (acct m') (logs m') Hf eq_refl)) as (a0 & cs & a1 & Ha0 & Hev & Hsp & Hfl);
      [by exists fuel, m'|].
    pose proof (payment_exact (acct m) cs Hok
                  (eval_charges_nonneg _ _ _ _ _ _ _ (ok_model _ Hok) Hev)) as Hp.
    fold cm in Hp. rewrite Ha0 in Hp. cbn [obind] in Hp. rewrite Hsp in Hp. cbn [obind] in Hp.
    rewrite Hfl in Hp. destruct Hp as (Hst & Hle & Hb & Hc & Hm).
    exists cs. unfold remaining_budget, steps_taken. rewrite Hb. split_and!; try done; lia.
  - intros (cs & Hev & -> & Hn & -> & Hc & Hme).
    pose proof (payment_exact (acct m) cs Hok
                  (eval_charges_nonneg _ _ _ _ _ _ _ (ok_model _ Hok) Hev)) as Hp. fold cm in Hp.
    destruct (spend_budget (acct m) (startup_cost cm)) as [a0| | |] eqn:Ha0; cbn [obind] in Hp;
      try done; [|exfalso; apply Hp; split_and!; try done; lia].
    destruct (spend_charges a0 cs) as [a1| | |] eqn:Hsp; cbn [obind] in Hp; try done;
      [|exfalso; apply Hp; split_and!; try done; lia].
    destruct (spend_accumulated_step_budget a1) as [a2| | |] eqn:Hfl; try done;
      [|exfalso; apply Hp; split_and!; try done; lia].
    destruct Hp as (Hst & Hle & Hb & _).
    destruct (proj2 (Hiff a2 lg Hf eq_refl)) as (fuel & m' & He & Ha & Hl); [by exists a0, cs, a1|].
    exists fuel, m'. unfold remaining_budget, steps_taken. rewrite Ha.
    split_and!; try done; lia.
Qed.

Lemma fresh_machine_avail b cm slippage :
  avail_cpu (acct (with_step_slippage b cm slippage)) = cpu b
  /\ avail_mem (acct (with_step_slippage b cm slippage)) = mem b.
Proof.
  unfold avail_cpu, avail_mem. cbn [with_step_slippage acct pending_step_counts budget].
  rewrite !owed_none. lia.
Qed.

(** C16: the machine computes the semantics of the language, with exact
    prices: under a cost model without negative costs and a budget below
    [i64::MAX], some number of turns of the machine returns the value [v]
    with remaining budget [b'], [n] steps taken and the log [lg] if and only
    if the big-step semantics evaluates the closed term to [v] with log [lg]
    by a derivation of [n] steps, [n] is within the step limit, and [b'] is
    the budget less the start-up cost and the exact cost of every step and
    builtin call, not negative in either dimension. The right side does not
    mention the size of the batches in which steps are paid, nor saturation:
    neither can be observed when an evaluation succeeds. *)
Theorem cek_implements_semantics cm b slippage t v b' n lg :
  cost_model_nonneg cm -> 0 <= cpu b < I64_MAX -> 0 <= mem b < I64_MAX ->
  ((exists fuel m', evaluate fuel (with_step_slippage b cm slippage) t = Ok (v, m')
      /\ remaining_budget m' = b' /\ steps_taken m' = n /\ logs m' = lg)
   <-> exists cs, eval cm Environment_new t [] v cs lg
        /\ n = step_count cs /\ n <= STEP_LIMIT
        /\ b' = left_over cm b cs /\ 0 <= cpu b' /\ 0 <= mem b').
Proof.
  intros Hm Hcpu Hmem. pose proof (with_step_slippage_ok b cm slippage Hm Hcpu Hmem) as Hok.
  rewrite (machine_exact (with_step_slippage b cm slippage) t v b' n lg Hok eq_refl eq_refl).
  destruct (fresh_machine_avail b cm slippage) as [-> ->].
  by replace (mkExBudget (cpu b) (mem b)) with b by (by destruct b).
Qed.
End refinement.

(** [(\x. case (constr 1 [x]) [error, (\y. addInteger y 1)]) 2]: a closed term
    that uses most of the machine. *)
Definition sample_term `{PlutusCrypto} : Term :=
  Term_Apply
    (Term_LamAbs
       (Term_Case (Term_Constr 1 [Term_Var 1])
          [Term_Error;
           Term_LamAbs (Term_Apply (Term_Apply (Term_Builtin AddInteger) (Term_Var 1))
                          (Term_Constant (Constant_Integer 1)))]))
    (Term_Constant (Constant_Integer 2)).

Lemma cek_implements_semantics_witness :
  cost_model_nonneg CostModel_default
  /\ exists cs,
       @eval trivial_crypto CostModel_default Environment_new (@sample_term trivial_crypto) []
         (@Value_Constant trivial_crypto (@Constant_Integer trivial_crypto 3)) cs []
       /\ 12 = step_count cs /\ 12 <= STEP_LIMIT
       /\ mkExBudget 7700 7700 = left_over CostModel_default (mkExBudget 10000 10000) cs
       /\ 0 <= cpu (mkExBudget 7700 7700) /\ 0 <= mem (mkExBudget 7700 7700).
Proof.
  split; [apply CostModel_default_nonneg|].
  apply (@cek_implements_semantics trivial_crypto CostModel_default (mkExBudget 10000 10000) 200
           (@sample_term trivial_crypto)).
  - apply CostModel_default_nonneg.
  - vm_compute; split; discriminate || reflexivity.
  - vm_compute; split; discriminate || reflexivity.
  - exists 60%nat. eexists. split; [vm_compute; reflexivity|]. vm_compute. split_and!; reflexivity.
Defined.
