(* ===== verification/Flat.v ===== *)
(** * The Flat decoder of Plutus scripts

    Model of [crates/plutus/src/flat.rs], [flat/default_universe.rs] and
    [flat/instance_flat.rs], and of [evaluate_script] of [crates/plutus/src/lib.rs]:
    bits, naturals, integers and byte strings; constant types and constants;
    terms, decoded with an explicit stack of work and one of results; the check
    that a program is closed; the CBOR envelope of a script. Error messages
    keep their fixed text and leave out the numbers printed with it. *)

From S2P Require Import Prelude Cbor CborFacts PlutusData Uplc CostModel Builtins Cek CekSafety.
Local Open Scope string_scope.
Local Open Scope Z_scope.

(** ** Decoder state *)

(** [fl_bit] is the bit within the current byte, 0 the most significant. *)
Record FlatDecoder := mkFlat { fl_bytes : list Z; fl_pos : Z; fl_bit : Z }.
Definition FlatDecoder_new (bytes : list Z) : FlatDecoder := mkFlat bytes 0 0.

(** A reader: [&mut self] with a [Result]. *)
Definition Flat (A : Type) : Type := FlatDecoder -> outcome MachineError (A * FlatDecoder).
Definition fret {A} (a : A) : Flat A := fun d => Ok (a, d).
Definition ferr {A} (message : string) : Flat A := fun _ => Err (FlatDecodeError message).
Definition fbind {A B} (m : Flat A) (k : A -> Flat B) : Flat B :=
  fun d => let? (a, d) := m d in k a d.
Definition flift {A} (o : outcome MachineError A) : Flat A := fun d => let? a := o in Ok (a, d).

Declare Scope flat_scope.
Delimit Scope flat_scope with flat.
Notation "'read' x ':=' m 'in' k" := (fbind m (fun x => k))
  (at level 10, x pattern, m at level 100, k at level 200, only parsing) : flat_scope.
Local Open Scope flat_scope.

(** One turn of a decoding loop per bit of the input, and a few more: every
    turn of every loop below consumes a bit or uses up what a bit queued. *)
Definition flat_fuel (d : FlatDecoder) : nat := S (S (16 * S (length (fl_bytes d)))).

(** A loop whose state is a value and the decoder. *)
Definition floop {St R} (body : St -> Flat (St + R)) (s : St) : Flat R :=
  fun d =>
    loopM (flat_fuel d)
      (fun '(s, d) =>
         let? (r, d) := body s d in
         Ok (match r with inl s => inl (s, d) | inr r => inr (r, d) end))
      (s, d).

(** ** Bits, naturals, integers *)

Definition read_bit : Flat bool :=
  fun d =>
    if zlength (fl_bytes d) <=? fl_pos d then Err (FlatDecodeError "unexpected end of input")
    else
      match fl_bytes d !! Z.to_nat (fl_pos d) with
      | None => Panic
      | Some byte =>
          let result := Z.land (Z.shiftr byte (7 - fl_bit d)) 1 =? 1 in
          let bit := fl_bit d + 1 in
          Ok (result,
              if 8 <=? bit then mkFlat (fl_bytes d) (fl_pos d + 1) 0
              else mkFlat (fl_bytes d) (fl_pos d) bit)
      end.

Fixpoint read_bits (n : nat) (result : Z) : Flat Z :=
  match n with
  | O => fret result
  | S n =>
      read b := read_bit in
      read_bits n (Z.lor (wrap8 (Z.shiftl result 1)) (Z.b2z b))
  end.
Definition read_bits8 (n : nat) : Flat Z := read_bits n 0.

(** [u64::checked_shl] checks the distance only: bits shifted out are lost. *)
Definition checked_shl (v shift : Z) : option Z :=
  if 64 <=? shift then None else Some (wrap64 (Z.shiftl v shift)).

Definition natural_body (s : Z * Z) : Flat (Z * Z + Z) :=
  let '(result, shift) := s in
  read byte := read_bits8 8 in
  read shifted := flift (ok_or (checked_shl (Z.land byte 127) shift)
                           (FlatDecodeError "natural number too large")) in
  let result := Z.lor result shifted in
  if Z.land byte 128 =? 0 then fret (inr result)
  else
    let shift := shift + 7 in
    if 63 <? shift then ferr "natural number overflow" else fret (inl (result, shift)).
Definition read_natural : Flat Z := floop natural_body (0, 0).

(** The shift is a [u32]; it cannot overflow on inputs of less than half a
    gigabyte and is left unbounded here. *)
Definition integer_body (s : Z * Z) : Flat (Z * Z + Z) :=
  let '(result, shift) := s in
  read byte := read_bits8 8 in
  let result := Z.lor result (Z.shiftl (Z.land byte 127) shift) in
  if Z.land byte 128 =? 0 then fret (inr result) else fret (inl (result, shift + 7)).
Definition zigzag_decode (result : Z) : Z :=
  if Z.land result 1 =? 0 then Z.shiftr result 1 else 0 - (Z.shiftr result 1 + 1).
Definition read_integer : Flat Z :=
  read result := floop integer_body (0, 0) in fret (zigzag_decode result).

(** ** Byte strings and lists *)

Definition filler_body (_ : unit) : Flat (unit + unit) :=
  read b := read_bit in fret (if b then inr tt else inl tt).
Definition read_filler : Flat unit := floop filler_body tt.

(** Chunks are read at the byte position, whatever the bit position is. *)
Definition bytestring_body (result : list Z) : Flat (list Z + list Z) :=
  fun d =>
    let len := zlength (fl_bytes d) in
    if len <=? fl_pos d then Err (FlatDecodeError "unexpected end in bytestring")
    else
      match fl_bytes d !! Z.to_nat (fl_pos d) with
      | None => Panic
      | Some chunk_len =>
          let pos := fl_pos d + 1 in
          if chunk_len =? 0 then Ok (inr result, mkFlat (fl_bytes d) pos (fl_bit d))
          else if len <? pos + chunk_len then Err (FlatDecodeError "bytestring chunk exceeds input")
          else
            Ok (inl (result ++ zslice pos (pos + chunk_len) (fl_bytes d))%list,
                mkFlat (fl_bytes d) (pos + chunk_len) (fl_bit d))
      end.
Definition read_bytestring : Flat (list Z) :=
  read _ := read_filler in floop bytestring_body [].

Definition read_string : Flat (list Z) :=
  read bytes := read_bytestring in
  if utf8_valid bytes then fret bytes else ferr "invalid UTF-8 in string constant".

Definition list_body {T} (read_elem : Flat T) (items : list T) : Flat (list T + list T) :=
  read more := read_bit in
  if more : bool then read x := read_elem in fret (inl (items ++ [x])%list) else fret (inr items).
Definition read_list {T} (read_elem : Flat T) : Flat (list T) := floop (list_body read_elem) [].

(** ** Constant types *)

Definition MAX_TERM_DECODE_DEPTH : nat := 512.
Definition MAX_TYPE_DECODE_DEPTH : nat := MAX_TERM_DECODE_DEPTH.

Inductive DecodedUni :=
  | Uni_Star (ty : Ty)
  | Uni_ProtoList
  | Uni_ProtoPair
  | Uni_PartialPair (ty : Ty).

Definition apply_uni (fun_ arg : DecodedUni) : outcome MachineError DecodedUni :=
  match fun_, arg with
  | Uni_ProtoList, Uni_Star arg_ty => Ok (Uni_Star (Ty_List arg_ty))
  | Uni_ProtoPair, Uni_Star arg_ty => Ok (Uni_PartialPair arg_ty)
  | Uni_PartialPair left_ty, Uni_Star right_ty => Ok (Uni_Star (Ty_Pair left_ty right_ty))
  | _, _ => Err (FlatDecodeError "ill-kinded constant type application")
  end.

(** The parser's slice and position are the list of the tags not yet read. *)
Definition next_tag (tags : list Z) : outcome MachineError (Z * list Z) :=
  match tags with
  | [] => Err (FlatDecodeError "unexpected end of constant type tags")
  | tag :: tags => Ok (tag, tags)
  end.

Fixpoint parse_uni (depth_remaining : nat) (tags : list Z)
    : outcome MachineError (DecodedUni * list Z) :=
  match depth_remaining with
  | O => Err (FlatDecodeError "type nesting exceeded depth budget")
  | S next =>
      let? (tag, tags) := next_tag tags in
      match tag with
      | 0 => Ok (Uni_Star Ty_Integer, tags)
      | 1 => Ok (Uni_Star Ty_ByteString, tags)
      | 2 => Ok (Uni_Star Ty_String, tags)
      | 3 => Ok (Uni_Star Ty_Unit, tags)
      | 4 => Ok (Uni_Star Ty_Bool, tags)
      | 5 => Ok (Uni_ProtoList, tags)
      | 6 => Ok (Uni_ProtoPair, tags)
      | 7 =>
          let? (fun_, tags) := parse_uni next tags in
          let? (arg, tags) := parse_uni next tags in
          let? u := apply_uni fun_ arg in
          Ok (u, tags)
      | 8 => Ok (Uni_Star Ty_Data, tags)
      | 9 => Ok (Uni_Star Ty_Bls12_381_G1_Element, tags)
      | 10 => Ok (Uni_Star Ty_Bls12_381_G2_Element, tags)
      | 11 => Ok (Uni_Star Ty_Bls12_381_MlResult, tags)
      | 12 => Err (FlatDecodeError "DefaultUniProtoArray constants are not supported")
      | 13 => Err (FlatDecodeError "DefaultUniValue constants are not supported")
      | _ => Err (FlatDecodeError "unknown type tag")
      end
  end.

Definition decode_type_list_with_depth (depth_remaining : nat) : Flat Ty :=
  read tags := read_list (read_bits8 4) in
  match tags with
  | [] => ferr "empty constant type tag list"
  | _ =>
      read (u, rest) := flift (parse_uni depth_remaining tags) in
      match u with
      | Uni_Star ty =>
          match rest with
          | [] => fret ty
          | _ => ferr "trailing constant type tags"
          end
      | _ => ferr "non-star type cannot have a Flat constant value"
      end
  end.

Section flat.
  Context `{PlutusCrypto}.

(** ** Constants *)

Definition decode_plutus_data : Flat PlutusData :=
  read cbor_bytes := read_bytestring in
  flift (map_err (fun _ => FlatDecodeError "PlutusData CBOR")
           (let? (data, _) := PlutusData_decode_cbor (Decoder_new cbor_bytes) in Ok data)).

Definition or_invalid {A} (message : string) (r : string + A) : Flat A :=
  match r with inl _ => ferr message | inr a => fret a end.

Fixpoint decode_constant_with_depth (depth_remaining : nat) (ty : Ty) : Flat Constant :=
  match depth_remaining with
  | O => ferr "constant nesting exceeded depth budget"
  | S next =>
      match ty with
      | Ty_Integer => read val := read_integer in fret (Constant_Integer val)
      | Ty_ByteString => read bs := read_bytestring in fret (Constant_ByteString bs)
      | Ty_String => read s := read_string in fret (Constant_String s)
      | Ty_Unit => fret Constant_Unit
      | Ty_Bool => read b := read_bit in fret (Constant_Bool b)
      | Ty_List elem_ty =>
          read items := read_list (decode_constant_with_depth next elem_ty) in
          fret (Constant_ProtoList elem_ty items)
      | Ty_Pair a_ty b_ty =>
          read a := decode_constant_with_depth next a_ty in
          read b := decode_constant_with_depth next b_ty in
          fret (Constant_ProtoPair a_ty b_ty a b)
      | Ty_Data => read data := decode_plutus_data in fret (Constant_Data data)
      | Ty_Bls12_381_G1_Element =>
          read bs := read_bytestring in
          read elem := or_invalid "invalid G1 element" (g1_uncompress bs) in
          fret (Constant_Bls12_381_G1_Element elem)
      | Ty_Bls12_381_G2_Element =>
          read bs := read_bytestring in
          read elem := or_invalid "invalid G2 element" (g2_uncompress bs) in
          fret (Constant_Bls12_381_G2_Element elem)
      | Ty_Bls12_381_MlResult => ferr "MlResult cannot appear in Flat-encoded programs"
      end
  end.

(** ** Terms *)

Inductive Wrap1Op := Wrap_Delay | Wrap_LamAbs | Wrap_Force.
Inductive ListBuild := Build_Constr (tag : Z) | Build_Case.
Inductive WorkFrame :=
  | ReadTerm
  | Wrap1 (op : Wrap1Op)
  | WrapApply
  | ReadListContinuation (build : ListBuild) (marker : nat).

(** The stacks of work and of results have their top first. *)
Definition Stacks : Type := list WorkFrame * list Term.

Definition dispatch_term_tag (work : list WorkFrame) (results : list Term) : Flat Stacks :=
  read tag := read_bits8 4 in
  match tag with
  | 0 => read index := read_natural in fret (work, Term_Var index :: results)
  | 1 => fret (ReadTerm :: Wrap1 Wrap_Delay :: work, results)
  | 2 => fret (ReadTerm :: Wrap1 Wrap_LamAbs :: work, results)
  | 3 => fret (ReadTerm :: ReadTerm :: WrapApply :: work, results)
  | 4 =>
      read ty := decode_type_list_with_depth MAX_TYPE_DECODE_DEPTH in
      read constant := decode_constant_with_depth MAX_TYPE_DECODE_DEPTH ty in
      fret (work, Term_Constant constant :: results)
  | 5 => fret (ReadTerm :: Wrap1 Wrap_Force :: work, results)
  | 6 => fret (work, Term_Error :: results)
  | 7 =>
      read b := read_bits8 7 in
      read f := flift (from_tag b) in
      fret (work, Term_Builtin f :: results)
  | 8 =>
      read tag_val := read_natural in
      fret (ReadListContinuation (Build_Constr tag_val) (length results) :: work, results)
  | 9 => fret (ReadTerm :: ReadListContinuation Build_Case (length results) :: work, results)
  | _ => ferr "unknown term tag"
  end.

Definition wrap1 (op : Wrap1Op) (body : Term) : Term :=
  match op with
  | Wrap_Delay => Term_Delay body
  | Wrap_LamAbs => Term_LamAbs body
  | Wrap_Force => Term_Force body
  end.

(** [Vec::split_off]: the items above the marker, oldest first, and the rest. *)
Definition split_off (marker : nat) (results : list Term) : list Term * list Term :=
  let n := (length results - marker)%nat in (rev (take n results), drop n results).

Definition build_list (build : ListBuild) (items : list Term) : outcome MachineError Term :=
  match build with
  | Build_Constr tag_val => Ok (Term_Constr tag_val items)
  | Build_Case =>
      match items with
      | [] => Err (FlatDecodeError "case missing scrutinee")
      | scrutinee :: branches => Ok (Term_Case scrutinee branches)
      end
  end.

Definition term_body (s : Stacks) : Flat (Stacks + Term) :=
  match s with
  | ([], results) =>
      match results with
      | [t] => fret (inr t)
      | _ => ferr "term decoder finished with other than one result on stack"
      end
  | (ReadTerm :: work, results) => read s := dispatch_term_tag work results in fret (inl s)
  | (Wrap1 op :: work, results) =>
      match results with
      | [] => ferr "term build underflow"
      | body :: results => fret (inl (work, wrap1 op body :: results))
      end
  | (WrapApply :: work, results) =>
      match results with
      | [] => ferr "apply arg underflow"
      | [_] => ferr "apply fun underflow"
      | arg :: fun_ :: results => fret (inl (work, Term_Apply fun_ arg :: results))
      end
  | (ReadListContinuation build marker :: work, results) =>
      read more := read_bit in
      if more : bool then
        fret (inl (ReadTerm :: ReadListContinuation build marker :: work, results))
      else if (length results <? marker)%nat then ferr "list build underflow"
      else
        let '(items, results) := split_off marker results in
        read t := flift (build_list build items) in
        fret (inl (work, t :: results))
  end.
Definition decode_term : Flat Term := floop term_body ([ReadTerm], []).

Definition decode_program : Flat UplcProgram :=
  read major := read_natural in
  read minor := read_natural in
  read patch := read_natural in
  read t := decode_term in
  fret (mkProgram (wrap32 major) (wrap32 minor) (wrap32 patch) t).

(** ** Closed programs, scripts *)

Fixpoint validate_term_closed (t : Term) (scope_depth : Z) : outcome MachineError unit :=
  match t with
  | Term_Var index =>
      if (index =? 0) || (scope_depth <? index) then Err (FlatDecodeError "open term") else Ok tt
  | Term_LamAbs body => validate_term_closed body (sat_add scope_depth 1)
  | Term_Apply f arg =>
      let? _ := validate_term_closed f scope_depth in validate_term_closed arg scope_depth
  | Term_Delay body | Term_Force body => validate_term_closed body scope_depth
  | Term_Constr _ fields =>
      (fix try_for_each l := match l with
       | [] => Ok tt
       | x :: l => let? _ := validate_term_closed x scope_depth in try_for_each l
       end) fields
  | Term_Case scrutinee branches =>
      let? _ := validate_term_closed scrutinee scope_depth in
      (fix try_for_each l := match l with
       | [] => Ok tt
       | x :: l => let? _ := validate_term_closed x scope_depth in try_for_each l
       end) branches
  | Term_Constant _ | Term_Builtin _ | Term_Error => Ok tt
  end.

Definition decode_flat_program (bytes : list Z) : outcome MachineError UplcProgram :=
  let? (program, _) := decode_program (FlatDecoder_new bytes) in
  let? _ := validate_term_closed (term program) 0 in
  Ok program.

Definition decode_script_bytes_with_remainder_policy (script_bytes : list Z)
    (allow_remainder : bool) : outcome MachineError UplcProgram :=
  let? (flat_bytes, d) :=
    map_err (fun _ => FlatDecodeError "PlutusBinary CBOR bytestring")
      (Decoder_bytes_owned (Decoder_new script_bytes)) in
  if negb allow_remainder && negb (Decoder_is_empty d)
  then Err (FlatDecodeError "trailing bytes after PlutusBinary script")
  else decode_flat_program flat_bytes.
Definition decode_script_bytes (script_bytes : list Z) : outcome MachineError UplcProgram :=
  decode_script_bytes_with_remainder_policy script_bytes false.
Definition decode_script_bytes_allowing_remainder (script_bytes : list Z)
    : outcome MachineError UplcProgram :=
  decode_script_bytes_with_remainder_policy script_bytes true.

Definition evaluate_script (fuel : nat) (script_bytes : list Z) (b : ExBudget) (cm : CostModel)
    : outcome MachineError (Value * list (list Z)) :=
  let? program := decode_script_bytes script_bytes in evaluate_program fuel program b cm.
End flat.
