(* ===== verification/FlatFacts.v ===== *)
(** * Decoding scripts: termination and closed programs

    Every loop of the Flat decoder consumes input, so decoding ends on every
    byte string; and a program that is decoded has no free variable, so the
    machine that evaluates it cannot fail for want of a binding. *)

From S2P Require Import Prelude Cbor CborFacts PlutusData Uplc CostModel Builtins Cek.
From S2P Require Import CekSafety Flat.
Local Open Scope Z_scope.
Local Open Scope flat_scope.

(** ** Input that is left *)

Record flat_wf (d : FlatDecoder) : Prop := {
  wf_bytes : bytes_ok (fl_bytes d);
  wf_size : zlength (fl_bytes d) <= ISIZE_MAX;
  wf_pos : 0 <= fl_pos d <= zlength (fl_bytes d);
  wf_bit : 0 <= fl_bit d <= 7 }.

(** Never zero, so that it also bounds misaligned positions at the end. *)
Definition bits_left (d : FlatDecoder) : Z :=
  8 * (zlength (fl_bytes d) - fl_pos d) + 8 - fl_bit d.

Definition spent (k : Z) (d d' : FlatDecoder) : Prop :=
  fl_bytes d' = fl_bytes d /\ bits_left d' + k <= bits_left d.

(** [m] does not run out of fuel, consumes at least [k] bits when it succeeds
    and returns a value with [Q]. *)
Definition spends {A} (k : Z) (Q : A -> Prop) (m : Flat A) : Prop :=
  forall d, flat_wf d -> post (fun r => flat_wf r.2 /\ spent k d r.2 /\ Q r.1) (m d).

Abbreviation any := (fun _ => True).

Lemma spent_refl d : spent 0 d d.
Proof. split; [done|lia]. Qed.

Lemma spent_trans k1 k2 d1 d2 d3 : spent k1 d1 d2 -> spent k2 d2 d3 -> spent (k1 + k2) d1 d3.
Proof. intros [? ?] [? ?]. split; [congruence|lia]. Qed.

Lemma spent_weaken k k' d d' : spent k d d' -> k' <= k -> spent k' d d'.
Proof. intros [? ?] ?. split; [done|lia]. Qed.

Lemma spends_weaken {A} k k' (Q Q' : A -> Prop) m :
  spends k Q m -> k' <= k -> (forall a, Q a -> Q' a) -> spends k' Q' m.
Proof.
  intros Hm Hk HQ d Hd. eapply post_mono; [by apply Hm|]. intros [a d'] (? & ? & ?). simpl in *.
  split_and!; [done|by eapply spent_weaken|by apply HQ].
Qed.

Lemma spends_ret {A} (Q : A -> Prop) a : Q a -> spends 0 Q (fret a).
Proof. intros Ha d Hd. simpl. split_and!; [done|apply spent_refl|done]. Qed.

Lemma spends_err {A} k (Q : A -> Prop) message : spends k Q (ferr message).
Proof. by intros d Hd. Qed.

Lemma spends_lift {A} (Q : A -> Prop) (o : outcome MachineError A) :
  post Q o -> spends 0 Q (flift o).
Proof.
  intros Ho d Hd. unfold flift. eapply post_bind; [exact Ho|]. intros a Ha. simpl.
  split_and!; [done|apply spent_refl|done].
Qed.

Lemma spends_bind {A B} k1 k2 (P : A -> Prop) (Q : B -> Prop) m (f : A -> Flat B) :
  spends k1 P m -> (forall a, P a -> spends k2 Q (f a)) -> spends (k1 + k2) Q (fbind m f).
Proof.
  intros Hm Hf d Hd. unfold fbind. eapply post_bind; [by apply Hm|].
  intros [a d1] (Hd1 & Hs & Ha). simpl in *. eapply post_mono; [by apply Hf|].
  intros [b d2] (Hd2 & Hs2 & Hb). simpl in *. split_and!; [done| |done]. by eapply spent_trans.
Qed.

(** The same with the amount of the first reader kept. *)
Lemma spends_then {A B} k (P : A -> Prop) (Q : B -> Prop) m (f : A -> Flat B) :
  spends k P m -> (forall a, P a -> spends 0 Q (f a)) -> spends k Q (fbind m f).
Proof. intros. rewrite <- (Z.add_0_r k). by eapply spends_bind. Qed.

(** ... or forgotten. *)
Lemma spends_any {A B} k (P : A -> Prop) (Q : B -> Prop) m (f : A -> Flat B) :
  spends k P m -> 0 <= k -> (forall a, P a -> spends 0 Q (f a)) -> spends 0 Q (fbind m f).
Proof. intros Hm Hk Hf. eapply spends_weaken; [by eapply spends_then|done|done]. Qed.

(** Loops: an invariant, and a measure that counts two per bit left. *)
Lemma spends_floop {St R} (I : St -> FlatDecoder -> Prop) (Q : R -> Prop) (mu : St -> Z) k
    (body : St -> Flat (St + R)) s :
  (forall s d, flat_wf d -> I s d ->
     post (fun r => flat_wf r.2 /\
             match r.1 with
             | inl s' => spent 0 d r.2 /\ I s' r.2
                         /\ 2 * bits_left r.2 + mu s' < 2 * bits_left d + mu s
             | inr a => spent k d r.2 /\ Q a
             end) (body s d)) ->
  (forall s, 0 <= mu s) -> mu s <= 1 -> (forall d, flat_wf d -> I s d) ->
  spends k Q (floop body s).
Proof.
  intros Hb Hmu Hs HI d Hd. unfold floop.
  assert (Hleft : forall d, flat_wf d -> 0 <= bits_left d).
  { intros d' Hd'. pose proof (wf_pos _ Hd'). pose proof (wf_bit _ Hd'). unfold bits_left. lia. }
  apply (post_loopM (fun '(s', d') => flat_wf d' /\ spent 0 d d' /\ I s' d')
           (fun r => flat_wf r.2 /\ spent k d r.2 /\ Q r.1)
           (fun '(s', d') => Z.to_nat (2 * bits_left d' + mu s'))).
  - intros [s1 d1] (Hd1 & Hsp & HI1). eapply post_bind; [by apply Hb|].
    intros [[s2|a] d2] (Hd2 & H2); simpl in *.
    + destruct H2 as (Hsp2 & HI2 & Hlt). split.
      * split_and!; [done| |done]. change 0 with (0 + 0). by eapply spent_trans.
      * pose proof (Hleft _ Hd2). pose proof (Hmu s2). lia.
    + destruct H2 as [Hsp2 Ha]. split_and!; [done| |done]. change k with (0 + k).
      by eapply spent_trans.
  - split_and!; [done|apply spent_refl|by apply HI].
  - pose proof (wf_pos _ Hd). pose proof (wf_bit _ Hd). unfold bits_left, flat_fuel.
    unfold zlength in *. lia.
Qed.

(** A loop each turn of which consumes a bit. *)
Lemma spends_loop {St R} (body : St -> Flat (St + R)) s k :
  k <= 1 -> (forall s, spends 1 any (body s)) -> spends k any (floop body s).
Proof.
  intros Hk Hb. apply (spends_floop (fun _ _ => True) any (fun _ => 0)); try done.
  intros s1 d Hd _. eapply post_mono; [by apply Hb|].
  intros [[s2|a] d2] (Hd2 & Hs2 & _); simpl in *; (split; [done|]).
  - split_and!; [by eapply spent_weaken|done|]. destruct Hs2. lia.
  - split; [|done]. by eapply spent_weaken.
Qed.

(** ** The readers *)

Lemma spends_read_bit : spends 1 any read_bit.
Proof.
  intros d Hd. unfold read_bit. pose proof (wf_pos _ Hd). pose proof (wf_bit _ Hd).
  destruct (zlength (fl_bytes d) <=? fl_pos d) eqn:Ep; [done|]. zbool.
  destruct (fl_bytes d !! Z.to_nat (fl_pos d)) as [byte|]; [|done]. simpl.
  destruct (8 <=? fl_bit d + 1) eqn:Eb; zbool; (split_and!; [|split; [done|]|done]);
    try (split; simpl; try apply Hd; lia); unfold bits_left; simpl; lia.
Qed.

Lemma spends_read_bits n acc : spends (Z.of_nat n) any (read_bits n acc).
Proof.
  revert acc. induction n as [|n IH]; intros acc; [by apply spends_ret|].
  replace (Z.of_nat (S n)) with (1 + Z.of_nat n) by lia.
  eapply spends_bind; [apply spends_read_bit|]. intros b _. apply IH.
Qed.

Lemma wrap64_nonneg z : 0 <= wrap64 z.
Proof. apply wrap64_range. Qed.

Lemma spends_read_natural : spends 1 (fun n => 0 <= n) read_natural.
Proof.
  apply (spends_floop (fun s _ => 0 <= s.1) _ (fun _ => 0)); try done.
  intros [result shift] d Hd Hr. simpl in Hr.
  assert (Hb : spends 8 (fun r => match r with inl s => 0 <= s.1 | inr n => 0 <= n end)
                 (natural_body (result, shift))).
  { eapply spends_then; [apply (spends_read_bits 8)|]. intros byte _.
    eapply (spends_then 0 (fun n => 0 <= n)); [apply spends_lift|].
    { unfold ok_or, checked_shl. destruct (64 <=? shift); [done|]. apply wrap64_nonneg. }
    intros shifted Hsh. assert (0 <= Z.lor result shifted) by (by apply Z.lor_nonneg).
    cbv zeta. destruct (Z.land byte 128 =? 0); [by apply spends_ret|].
    destruct (63 <? shift + 7); [apply spends_err|by apply spends_ret]. }
  eapply post_mono; [by apply Hb|].
  intros [[s2|a] d2] (Hd2 & Hs2 & HQ); simpl in *; (split; [done|]).
  - split_and!; [by eapply spent_weaken|done|]. destruct Hs2. lia.
  - split; [|done]. by eapply spent_weaken.
Qed.

Lemma spends_read_integer : spends 1 any read_integer.
Proof.
  eapply spends_then; [|intros; by apply spends_ret]. apply spends_loop; [done|].
  intros [result shift]. eapply spends_then.
  { eapply spends_weaken; [apply (spends_read_bits 8)|done|done]. }
  intros byte _. cbv zeta. destruct (Z.land byte 128 =? 0); by apply spends_ret.
Qed.

Lemma spends_read_list {T} k (Q : T -> Prop) (m : Flat T) :
  0 <= k -> spends k Q m -> spends 1 any (read_list m).
Proof.
  intros Hk Hm. apply spends_loop; [done|]. intros items.
  eapply spends_then; [apply spends_read_bit|]. intros [] _; [|by apply spends_ret].
  eapply spends_weaken; [eapply spends_then; [apply Hm|intros; by apply (spends_ret any)]|done|done].
Qed.

(** What a byte string read from the input is. *)
Definition byte_string (bs : list Z) : Prop := bytes_ok bs /\ zlength bs <= ISIZE_MAX.

Lemma spends_chunks : spends 0 byte_string (floop bytestring_body []).
Proof.
  apply (spends_floop (fun acc d => bytes_ok acc /\ zlength acc <= fl_pos d) _ (fun _ => 0));
    try done.
  2: { intros d Hd. split; [constructor|]. rewrite zlength_nil. apply (wf_pos _ Hd). }
  intros acc d Hd [Hacc Hlen]. unfold bytestring_body.
  pose proof (wf_pos _ Hd). pose proof (wf_bit _ Hd). pose proof (wf_size _ Hd).
  destruct (zlength (fl_bytes d) <=? fl_pos d) eqn:Ep; [done|]. zbool.
  destruct (fl_bytes d !! Z.to_nat (fl_pos d)) as [n|] eqn:En; [|done].
  assert (Hn : u8 n) by (eapply Forall_lookup_1; [apply (wf_bytes _ Hd)|exact En]).
  unfold u8 in Hn. destruct (n =? 0) eqn:E0; zbool.
  - simpl. split; [split; simpl; try apply Hd; lia|]. split.
    + split; [done|]. unfold bits_left. simpl. lia.
    + split; [done|lia].
  - destruct (zlength (fl_bytes d) <? fl_pos d + 1 + n) eqn:El; [done|]. zbool. simpl.
    split; [split; simpl; try apply Hd; lia|]. split_and!.
    + split; [done|]. unfold bits_left. simpl. lia.
    + apply Forall_app_2; [done|]. apply zslice_bytes_ok, Hd.
    + rewrite zlength_app, length_zslice by lia. lia.
    + unfold bits_left. simpl. lia.
Qed.

Lemma spends_read_bytestring : spends 1 byte_string read_bytestring.
Proof.
  eapply spends_then; [|intros; apply spends_chunks]. apply spends_loop; [done|]. intros [].
  eapply spends_then; [apply spends_read_bit|]. intros b _. by apply spends_ret.
Qed.

Lemma parse_uni_ends depth tags : parse_uni depth tags <> OutOfFuel.
Proof.
  enough (H : post any (parse_uni depth tags)) by (intros E; by rewrite E in H).
  revert tags. induction depth as [|depth IH]; intros tags; [done|]. cbn [parse_uni].
  eapply (post_bind any); [by destruct tags|]. intros [tag rest] _.
  assert (H7 : post any (let? (fun_, tags0) := parse_uni depth rest in
                         let? (arg, tags1) := parse_uni depth tags0 in
                         let? u := apply_uni fun_ arg in Ok (u, tags1))).
  { eapply post_bind; [apply IH|]. intros [f t1] _. eapply post_bind; [apply IH|].
    intros [a t2] _. eapply (post_bind any); [|done]. by destruct f, a. }
  destruct tag as [|p|p]; try done. repeat (destruct p as [p|p|]; try done).
Qed.

Lemma spends_decode_type_list depth : spends 1 any (decode_type_list_with_depth depth).
Proof.
  eapply spends_then.
  { eapply (spends_read_list 4); [done|]. apply (spends_read_bits 4). }
  intros tags _. destruct tags as [|tag tags]; [apply spends_err|]. change 0 with (0 + 0).
  eapply (spends_bind 0 0 any any).
  { apply spends_lift. pose proof (parse_uni_ends depth (tag :: tags)).
    by destruct (parse_uni _ _). }
  intros [u rest] _. destruct u; try apply spends_err.
  destruct rest; [by apply spends_ret|apply spends_err].
Qed.

Section facts.
  Context `{PlutusCrypto}.

Lemma spends_decode_plutus_data : spends 1 any decode_plutus_data.
Proof.
  eapply spends_then; [apply spends_read_bytestring|]. intros bs [Hb Hl]. apply spends_lift.
  assert (Hr : post any (PlutusData_decode_cbor (Decoder_new bs))).
  { eapply post_mono; [apply (reads_plutus_data (S (length bs)))|done].
    - by apply Decoder_new_wf.
    - unfold left_of, zlength. simpl. lia. }
  destruct (PlutusData_decode_cbor _) as [[data d]| | |]; done.
Qed.

Lemma spends_decode_constant depth ty : spends 0 any (decode_constant_with_depth depth ty).
Proof.
  revert ty. induction depth as [|depth IH]; intros ty; [apply spends_err|].
  cbn [decode_constant_with_depth].
  destruct ty; first [by apply spends_ret | apply spends_err | idtac].
  - eapply spends_any; [apply spends_read_integer|done|]. intros. by apply spends_ret.
  - eapply spends_any; [apply spends_read_bytestring|done|]. intros. by apply spends_ret.
  - eapply (spends_any 1 any); [|done|intros; by apply spends_ret].
    eapply spends_then; [apply spends_read_bytestring|]. intros bs _.
    destruct (utf8_valid bs); [by apply spends_ret|apply spends_err].
  - eapply spends_any; [apply spends_read_bit|done|]. intros. by apply spends_ret.
  - eapply spends_any; [by eapply (spends_read_list 0); [|apply IH]|done|].
    intros. by apply spends_ret.
  - eapply spends_any; [apply IH|done|]. intros a _.
    eapply spends_any; [apply IH|done|]. intros b _. by apply spends_ret.
  - eapply spends_any; [apply spends_decode_plutus_data|done|]. intros. by apply spends_ret.
  - eapply spends_any; [apply spends_read_bytestring|done|]. intros bs _.
    eapply (spends_any 0 any); [|done|intros; by apply spends_ret].
    destruct (g1_uncompress bs); [apply spends_err|by apply spends_ret].
  - eapply spends_any; [apply spends_read_bytestring|done|]. intros bs _.
    eapply (spends_any 0 any); [|done|intros; by apply spends_ret].
    destruct (g2_uncompress bs); [apply spends_err|by apply spends_ret].
Qed.

Lemma from_tag_ends b : post any (from_tag b).
Proof. destruct b as [|p|p]; try done. do 7 (destruct p as [p|p|]; try done). Qed.

(** The indices of a term, which the code holds as [u64], are not negative. *)
Fixpoint indices_nonneg (t : Term) : Prop :=
  match t with
  | Term_Var i => 0 <= i
  | Term_LamAbs body | Term_Delay body | Term_Force body => indices_nonneg body
  | Term_Apply f a => indices_nonneg f /\ indices_nonneg a
  | Term_Constr _ ts => foldr (fun t P => indices_nonneg t /\ P) True ts
  | Term_Case s bs => indices_nonneg s /\ foldr (fun t P => indices_nonneg t /\ P) True bs
  | Term_Constant _ | Term_Builtin _ | Term_Error => True
  end.

Lemma foldr_and_Forall {A} (P : A -> Prop) l :
  foldr (fun x Q => P x /\ Q) True l <-> Forall P l.
Proof. induction l as [|x l IH]; simpl; [done|]. by rewrite Forall_cons, IH. Qed.

(** A tag is four bits and queues at most three frames in place of one. *)
Lemma spends_dispatch work results :
  Forall indices_nonneg results ->
  spends 4 (fun s => (length s.1 <= length work + 3)%nat /\ Forall indices_nonneg s.2)
    (dispatch_term_tag work results).
Proof.
  intros Hres. eapply spends_then; [apply (spends_read_bits 4)|]. intros tag _.
  set (Q := fun s : Stacks => (length s.1 <= length work + 3)%nat /\ Forall indices_nonneg s.2).
  assert (Hret : forall w r, (length w <= 3 + length work)%nat -> Forall indices_nonneg r ->
    spends 0 Q (fret (w, r))).
  { intros w r Hw Hr. apply spends_ret. split; [simpl; lia|done]. }
  assert (Hw : (length work <= 3 + length work)%nat) by lia.
  destruct (decide (tag = 0)) as [->|]; [|destruct (decide (tag = 4)) as [->|];
    [|destruct (decide (tag = 7)) as [->|]; [|destruct (decide (tag = 8)) as [->|]]]].
  - eapply spends_any; [apply spends_read_natural|done|].
    intros. apply Hret; [done|by constructor].
  - eapply spends_any; [apply spends_decode_type_list|done|].
    intros ty _. eapply spends_then; [apply spends_decode_constant|]. intros.
    apply Hret; [done|by constructor].
  - eapply spends_any; [apply (spends_read_bits 7)|done|].
    intros b _. eapply spends_then; [apply spends_lift, from_tag_ends|]. intros.
    apply Hret; [done|by constructor].
  - eapply spends_any; [apply spends_read_natural|done|].
    intros. apply Hret; [simpl; lia|done].
  - destruct tag as [|p|p]; [done| |apply spends_err].
    do 4 (try destruct p as [p|p|]); try done; try apply spends_err;
      apply Hret; simpl; try lia; try done; by constructor.
Qed.

Lemma split_off_Forall (P : Term -> Prop) marker results :
  Forall P results -> Forall P (split_off marker results).1 /\ Forall P (split_off marker results).2.
Proof.
  intros Hr. unfold split_off. simpl. split; [|by apply Forall_drop].
  apply List.Forall_rev. by apply Forall_take.
Qed.

Lemma build_list_nonneg build items :
  Forall indices_nonneg items -> post indices_nonneg (build_list build items).
Proof.
  intros Hi. destruct build; simpl; [by apply foldr_and_Forall|].
  destruct Hi; simpl; [done|]. split; [done|]. by apply foldr_and_Forall.
Qed.

Lemma spends_decode_term : spends 0 indices_nonneg decode_term.
Proof.
  apply (spends_floop (fun s _ => Forall indices_nonneg s.2) indices_nonneg
           (fun s => Z.of_nat (length s.1))); [|intros; lia|done|intros; by constructor].
  intros [work results] d Hd Hres. simpl in Hres.
  assert (Hstay : forall r : Stacks + Term,
    match r with
    | inl s => (length s.1 < length work)%nat /\ Forall indices_nonneg s.2
    | inr t => indices_nonneg t
    end ->
    post (fun r => flat_wf r.2 /\
      match r.1 with
      | inl s' => spent 0 d r.2 /\ Forall indices_nonneg s'.2
          /\ 2 * bits_left r.2 + Z.of_nat (length s'.1) < 2 * bits_left d + Z.of_nat (length work)
      | inr a => spent 0 d r.2 /\ indices_nonneg a
      end) (fret r d)).
  { intros [s|t] Hr; simpl; (split; [done|]); (split; [apply spent_refl|]); [|done].
    destruct Hr. split; [done|lia]. }
  destruct work as [|[| op | | build marker] work]; cbn [term_body].
  - destruct Hres as [|t results Ht [|]]; try done. by apply Hstay.
  - eapply post_bind; [by apply (spends_dispatch work results)|].
    intros [s d1] (Hd1 & Hs1 & Hlen & Hs). simpl in *. split; [done|].
    split_and!; [by eapply spent_weaken|done|]. destruct Hs1. lia.
  - destruct Hres as [|t results Ht Hres]; [done|]. apply Hstay. simpl. split; [lia|].
    constructor; [by destruct op|done].
  - destruct Hres as [|t1 ? Ht1 [|t2 results Ht2 Hres]]; try done. apply Hstay. simpl.
    split; [lia|]. by constructor.
  - eapply post_bind; [by apply spends_read_bit|]. intros [more d1] (Hd1 & Hs1 & _). simpl in *.
    pose proof (spent_weaken 1 0 d d1 Hs1 ltac:(lia)). destruct Hs1 as [Hb1 Hl1]. destruct more.
    + simpl. split_and!; [done|done|done|]. lia.
    + destruct (length results <? marker)%nat; [done|].
      destruct (split_off_Forall _ marker results Hres) as [Hi Hr]. simpl in Hi, Hr.
      pose proof (build_list_nonneg build _ Hi) as Ht. unfold fbind, flift.
      destruct (build_list build _); try done. simpl in *.
      split_and!; [done|done|by constructor|]. lia.
Qed.

Lemma spends_decode_program : spends 0 (fun p => indices_nonneg (term p)) decode_program.
Proof.
  unfold decode_program. do 3 (eapply spends_any; [apply spends_read_natural|done|intros]).
  eapply spends_then; [apply spends_decode_term|]. intros. by apply spends_ret.
Qed.

(** ** Closed programs *)

(** Induction on terms, through the lists of fields and branches. *)
Lemma Term_nested_ind (P : Term -> Prop) :
  (forall i, P (Term_Var i)) -> (forall body, P body -> P (Term_LamAbs body)) ->
  (forall f a, P f -> P a -> P (Term_Apply f a)) ->
  (forall body, P body -> P (Term_Delay body)) -> (forall inner, P inner -> P (Term_Force inner)) ->
  (forall c, P (Term_Constant c)) -> (forall f, P (Term_Builtin f)) -> P Term_Error ->
  (forall tag ts, Forall P ts -> P (Term_Constr tag ts)) ->
  (forall s bs, P s -> Forall P bs -> P (Term_Case s bs)) ->
  forall t, P t.
Proof.
  intros Hv Hl Ha Hd Hf Hc Hb He Hk Hs. fix IH 1. intros t. destruct t.
  - apply Hv.
  - apply Hl, IH.
  - apply Ha; apply IH.
  - apply Hd, IH.
  - apply Hf, IH.
  - apply Hc.
  - apply Hb.
  - apply He.
  - apply Hk. induction fields; constructor; [apply IH|done].
  - apply Hs; [apply IH|]. induction branches; constructor; [apply IH|done].
Qed.

(** [try_for_each], as the validator uses it. *)
Definition validate_all (scope_depth : Z) (ts : list Term) : outcome MachineError unit :=
  foldr (fun t rest => let? _ := validate_term_closed t scope_depth in rest) (Ok tt) ts.

Lemma validate_constr tag ts n : validate_term_closed (Term_Constr tag ts) n = validate_all n ts.
Proof. done. Qed.
Lemma validate_case s bs n :
  validate_term_closed (Term_Case s bs) n
  = let? _ := validate_term_closed s n in validate_all n bs.
Proof. done. Qed.

(** The validator accepts exactly the terms in scope: the saturation of the
    depth at [u64::MAX] is harmless, as no index is larger. *)
Definition var_fits (n : Z) (t : Term) : Prop :=
  forall m, n <= m -> indices_nonneg t -> validate_term_closed t n = Ok tt -> scoped m t = true.

Lemma validate_all_scoped ts n m :
  Forall (var_fits n) ts -> n <= m -> foldr (fun t P => indices_nonneg t /\ P) True ts ->
  validate_all n ts = Ok tt -> forallb (scoped m) ts = true.
Proof.
  intros Hts Hle. induction Hts as [|t ts Ht Hts IH]; [done|]. cbn [validate_all foldr forallb].
  intros [Hi His] Hv. apply obind_Ok_inv in Hv as ([] & Hv & Hvs). rewrite (Ht m) by done.
  by apply IH.
Qed.

Lemma validate_scoped t n : var_fits n t.
Proof.
  revert n. induction t as [i|body IH|f a IHf IHa|body IH|inner IH|c|f| |tag ts IH|s bs IHs IH]
    using Term_nested_ind; intros n m Hle Hi Hv; try done.
  - cbn [validate_term_closed scoped indices_nonneg] in *.
    destruct ((i =? 0) || (n <? i)) eqn:E; [done|]. apply orb_false_iff in E as [? ?]. zbool.
    apply andb_true_iff. split; apply Z.leb_le; lia.
  - cbn [validate_term_closed scoped] in *. eapply IH; [|done|exact Hv]. unfold sat_add. lia.
  - cbn [validate_term_closed scoped] in *. destruct Hi.
    apply obind_Ok_inv in Hv as ([] & Hf & Ha). by rewrite (IHf n m), (IHa n m).
  - by apply (IH n m).
  - by apply (IH n m).
  - rewrite validate_constr in Hv. cbn [scoped]. eapply validate_all_scoped; [|done|done|exact Hv].
    eapply Forall_impl; [exact IH|]. auto.
  - destruct Hi. rewrite validate_case in Hv. apply obind_Ok_inv in Hv as ([] & Hs & Hb).
    cbn [scoped]. rewrite (IHs n m) by done. eapply validate_all_scoped; [|done|done|exact Hb].
    eapply Forall_impl; [exact IH|]. auto.
Qed.

(** ** Scripts *)

(** What a CBOR byte string holds was in the input. *)
Definition taken (d : Decoder) (v : list Z) (d' : Decoder) : Prop :=
  dec_wf d' /\ data d' = data d /\ bytes_ok v /\ zlength v <= pos d' - pos d.

Lemma bytes_definite_taken d v d' :
  dec_wf d -> Decoder_bytes_definite d = Ok (v, d') -> taken d v d'.
Proof.
  intros Hd Hv. unfold Decoder_bytes_definite, dbind in Hv.
  apply obind_Ok_inv in Hv as ([len d1] & H1 & Hv).
  pose proof (reads_expect_major (S (left_of d)) MAJOR_BYTES d Hd ltac:(lia)) as Ha.
  rewrite H1 in Ha. destruct Ha as (Hd1 & He1 & Hp1). simpl in *.
  pose proof (reads_read_exact (S (left_of d1)) len d1 Hd1 ltac:(lia)) as Hb.
  rewrite Hv in Hb. destruct Hb as (Hd2 & He2 & Hp2). simpl in *.
  unfold Decoder_read_exact in Hv. destruct (zlength (data d1) <? _) eqn:E1; [done|].
  destruct (_ <? pos d1) eqn:E2; [done|]. zbool. injection Hv as <- <-. simpl in *.
  refine (conj Hd2 (conj He1 (conj _ _))); [apply zslice_bytes_ok, Hd1|].
  destruct Hd1 as [? _]. cbn [pos]. rewrite length_zslice by lia. lia.
Qed.

Lemma chunk_loop_taken fuel d acc d0 v d' :
  dec_wf d -> data d = data d0 -> bytes_ok acc -> zlength acc <= pos d - pos d0 ->
  loopM fuel
    (fun '(assembled, d) =>
       let? b := Decoder_peek_byte d in
       if b =? BREAK then let? (_, d) := Decoder_bump d in Ok (inr (assembled, d))
       else let? (c, d) := Decoder_bytes_definite d in Ok (inl (assembled ++ c, d)))
    (acc, d) = Ok (v, d') ->
  taken d0 v d'.
Proof.
  revert d acc. induction fuel as [|fuel IH]; intros d acc Hd He Ha Hl Hr; [done|].
  cbn [loopM] in Hr. apply obind_Ok_inv in Hr as (r & Hr1 & Hr).
  apply obind_Ok_inv in Hr1 as (b & Hb & Hr1). apply peek_byte_inv in Hb as [Hlt _]; [|done].
  destruct (b =? BREAK).
  - destruct (bump_spec d Hd Hlt) as [E (Hd1 & He1 & Hp1)]. rewrite E in Hr1. simpl in *.
    injection Hr1 as <-. injection Hr as <- <-.
    refine (conj Hd1 (conj He (conj Ha _))). cbn [pos]. lia.
  - apply obind_Ok_inv in Hr1 as ([c d1] & Hc & Hr1). injection Hr1 as <-.
    apply bytes_definite_taken in Hc as (Hd1 & He1 & Hbc & Hlc); [|done].
    eapply IH; [done| | | |exact Hr].
    + congruence.
    + by apply Forall_app_2.
    + rewrite zlength_app. lia.
Qed.

Lemma bytes_owned_taken d v d' :
  dec_wf d -> Decoder_bytes_owned d = Ok (v, d') -> taken d v d'.
Proof.
  intros Hd Hv. unfold Decoder_bytes_owned, dbind, dget in Hv.
  apply obind_Ok_inv in Hv as ([b d1] & Hb & Hv). apply obind_Ok_inv in Hb as (b' & Hb & E).
  injection E as -> <-. apply peek_byte_inv in Hb as [Hlt _]; [|done].
  cbv zeta in Hv. cbn [fst snd] in Hv. destruct (negb _); [done|]. destruct (_ =? AI_INDEF).
  - destruct (bump_spec d Hd Hlt) as [E (Hd2 & He2 & Hp2)]. rewrite E in Hv. cbn [obind snd] in Hv.
    eapply chunk_loop_taken; [exact Hd2|done|constructor| |exact Hv].
    rewrite zlength_nil. cbn [pos]. lia.
  - by apply bytes_definite_taken.
Qed.

Lemma validate_ends t n : validate_term_closed t n <> OutOfFuel.
Proof.
  enough (H1 : post any (validate_term_closed t n)) by (intros E; by rewrite E in H1).
  assert (Hall : forall n ts, Forall (fun t => forall n, post any (validate_term_closed t n)) ts ->
    post any (validate_all n ts)).
  { intros k ts Hts. induction Hts as [|t' ts Ht Hts IH]; [done|].
    eapply post_bind; [apply Ht|]. intros. apply IH. }
  revert n. induction t using Term_nested_ind; intros n; try done.
  - cbn [validate_term_closed]. by destruct (_ || _).
  - apply IHt.
  - cbn [validate_term_closed]. eapply post_bind; [apply IHt1|]. intros. apply IHt2.
  - apply IHt.
  - apply IHt.
  - rewrite validate_constr. by apply Hall.
  - rewrite validate_case. eapply post_bind; [apply IHt|]. intros. by apply Hall.
Qed.

Lemma decode_flat_program_spec bytes :
  byte_string bytes -> post (fun p => scoped 0 (term p) = true) (decode_flat_program bytes).
Proof.
  intros [Hb Hl]. unfold decode_flat_program. eapply post_bind.
  { apply spends_decode_program. split; simpl; [done|done| |lia].
    pose proof (zlength_nonneg bytes). lia. }
  intros [p d] (_ & _ & Hi). simpl in *.
  pose proof (validate_scoped (term p) 0 0 ltac:(lia) Hi) as Hs.
  pose proof (validate_ends (term p) 0) as He.
  destruct (validate_term_closed (term p) 0) as [[]| | |] eqn:E; try done. by apply Hs.
Qed.

Lemma decode_script_spec script_bytes allow_remainder :
  byte_string script_bytes ->
  post (fun p => scoped 0 (term p) = true)
    (decode_script_bytes_with_remainder_policy script_bytes allow_remainder).
Proof.
  intros [Hb Hl]. unfold decode_script_bytes_with_remainder_policy.
  pose proof (Decoder_new_wf _ Hb Hl) as Hwf.
  pose proof (reads_bytes_owned (S (left_of (Decoder_new script_bytes))) _ Hwf ltac:(lia)) as Hr.
  destruct (Decoder_bytes_owned (Decoder_new script_bytes)) as [[bytes d]| | |] eqn:E; try done.
  apply bytes_owned_taken in E as (Hwf' & He & Hbs & Hlen); [|done].
  cbn [map_err obind]. destruct (negb allow_remainder && _); [done|].
  apply decode_flat_program_spec. split; [done|].
  destruct Hwf' as [Hp [Hsz _]]. rewrite He in *. simpl in *. lia.
Qed.

(** What a script can end with once it is decoded: a value without free
    variables, a failure of the script, an exhausted budget, or, under a cost
    model that demands a cost for every builtin, a missing one. *)
Definition script_error (cm : CostModel) (e : MachineError) : Prop :=
  into_ledger_error e = EvaluationFailure \/ e = OutOfBudget
  \/ exists f, e = MissingBuiltinCost f /\ strict_builtin_costs cm = true
               /\ builtin_costs cm !! f = None.

Lemma closed_term_outcome m t :
  scoped 0 t = true -> frames m = [] ->
  exists fuel, forall fuel', (fuel <= fuel')%nat ->
    match evaluate fuel' m t with
    | Ok (v, _) => value_scoped v = true
    | Err e => script_error (cost_model (acct m)) e
    | Panic | OutOfFuel => False
    end.
Proof.
  intros Ht Hf. destruct (evaluate_ends False m t ltac:(by right) Hf) as [fuel Hfuel].
  exists fuel. intros fuel' Hle. specialize (Hfuel fuel' Hle).
  destruct (evaluate _ _ _) as [[v m']|e| |]; simpl in *; try done.
  - by destruct Hfuel.
  - destruct Hfuel as [He|[He|[He|[[] _]]]]; [left|by right; left|by right; right].
    unfold into_ledger_error. by rewrite He.
Qed.

(** C18: what evaluating a script comes to, whatever its budget and cost model
    and its bytes, up to [ISIZE_MAX] of them. If the decoder refuses the bytes,
    with its error. If they decode, the program is closed and, for all
    sufficiently many turns of the machine alike, evaluation ends with a value
    without free variables or one of the errors of [script_error]: the machine
    does not panic, loop or look up a variable that is not bound. The decoder
    always ends; it may panic itself, on a CBOR length that wraps, and then
    evaluation panics with it, before the machine starts. *)
Theorem evaluate_script_safe script_bytes b cm :
  bytes_ok script_bytes -> zlength script_bytes <= ISIZE_MAX ->
  match decode_script_bytes script_bytes with
  | Ok p =>
      scoped 0 (term p) = true
      /\ exists fuel, forall fuel', (fuel <= fuel')%nat ->
           match evaluate_script fuel' script_bytes b cm with
           | Ok (v, _) => value_scoped v = true
           | Err e => script_error cm e
           | Panic | OutOfFuel => False
           end
  | Err e => forall fuel, evaluate_script fuel script_bytes b cm = Err e
  | Panic => forall fuel, evaluate_script fuel script_bytes b cm = Panic
  | OutOfFuel => False
  end.
Proof.
  intros Hb Hl. pose proof (decode_script_spec script_bytes false (conj Hb Hl)) as Hd.
  unfold evaluate_script. fold (decode_script_bytes script_bytes) in Hd.
  destruct (decode_script_bytes script_bytes) as [p|e| |] eqn:E; try done. simpl in Hd.
  split; [done|].
  destruct (closed_term_outcome (CekMachine_new b cm) (term p) Hd eq_refl) as [fuel Hf].
  exists fuel. intros fuel' Hle. specialize (Hf fuel' Hle).
  cbn [obind]. unfold evaluate_program, evaluate_term.
  by destruct (evaluate _ _ _) as [[v m]| | |].
Qed.
End facts.

#[local] Existing Instance trivial_crypto.

Lemma evaluate_script_safe_witness :
  let script := [70; 1; 0; 0; 72; 5; 129] in
  bytes_ok script
  /\ match decode_script_bytes script with
     | Ok p =>
         scoped 0 (term p) = true
         /\ exists fuel, forall fuel', (fuel <= fuel')%nat ->
              match evaluate_script fuel' script (mkExBudget 1000 1000) CostModel_default with
              | Ok (v, _) => value_scoped v = true
              | Err e => script_error CostModel_default e
              | Panic | OutOfFuel => False
              end
     | Err e => forall fuel, evaluate_script fuel script (mkExBudget 1000 1000) CostModel_default = Err e
     | Panic => forall fuel, evaluate_script fuel script (mkExBudget 1000 1000) CostModel_default = Panic
     | OutOfFuel => False
     end.
Proof.
  assert (Hb : bytes_ok [70; 1; 0; 0; 72; 5; 129])
    by (repeat constructor; unfold u8, U8_MAX; lia).
  split; [exact Hb|].
  apply (@evaluate_script_safe trivial_crypto); [exact Hb|]. vm_compute. discriminate.
Defined.
