(* ===== verification/FlatCodec.v ===== *)
(** * The Flat format: a reference encoding and the round trip

    The node only decodes Flat. The encoding is written here from the
    description of the wire format at the head of [flat.rs]: bits most
    significant first, naturals in groups of seven bits with a continuation
    bit, zigzag integers, lists with a bit before each element, byte strings
    padded to a byte boundary and cut into chunks of at most 255 bytes. What
    is encoded depends on the position because of the padding, so an encoding
    is a function of the number of bits before it. *)

From S2P Require Import Prelude Cbor CborFacts PlutusData Uplc CostModel Builtins Cek.
From S2P Require Import CekSafety Flat FlatFacts.
Local Open Scope Z_scope.
Local Open Scope flat_scope.

(** ** Bits *)

Definition nbits (n : nat) (v : Z) : list bool :=
  map (fun i => Z.testbit v (Z.of_nat i)) (reverse (seq 0 n)).
Definition bits_of (bytes : list Z) : list bool := concat (map (nbits 8) bytes).

Definition Enc : Type := nat -> list bool.
Definition ebits (l : list bool) : Enc := fun _ => l.
Definition eapp (e1 e2 : Enc) : Enc := fun n => e1 n ++ e2 (n + length (e1 n))%nat.
Infix "+++" := eapp (at level 60, right associativity).

(** The decoder at bit [n]. *)
Definition fat (bytes : list Z) (n : nat) : FlatDecoder :=
  mkFlat bytes (Z.of_nat n / 8) (Z.of_nat n mod 8).

(** The reader reads the encoding, wherever it stands, and returns [a]. *)
Definition fdecodes {A} (m : Flat A) (e : Enc) (a : A) : Prop :=
  forall bytes pre rest, bytes_ok bytes ->
    bits_of bytes = pre ++ e (length pre) ++ rest ->
    m (fat bytes (length pre)) = Ok (a, fat bytes (length pre + length (e (length pre)))).

Lemma length_nbits n v : length (nbits n v) = n.
Proof. unfold nbits. by rewrite length_map, length_reverse, length_seq. Qed.

Lemma bits_of_cons b bytes : bits_of (b :: bytes) = nbits 8 b ++ bits_of bytes.
Proof. done. Qed.
Lemma bits_of_app b1 b2 : bits_of (b1 ++ b2) = bits_of b1 ++ bits_of b2.
Proof. unfold bits_of. by rewrite map_app, concat_app. Qed.

Lemma length_bits_of bytes : length (bits_of bytes) = (8 * length bytes)%nat.
Proof.
  induction bytes as [|b bytes IH]; [done|].
  rewrite bits_of_cons, length_app, length_nbits, IH. simpl. lia.
Qed.

(** ** Composition *)

Lemma fdecodes_ret {A} (a : A) : fdecodes (fret a) (ebits []) a.
Proof. intros bytes pre rest _ _. simpl. by rewrite Nat.add_0_r. Qed.

Lemma fdecodes_bind {A B} (m : Flat A) (k : A -> Flat B) e1 e2 a b :
  fdecodes m e1 a -> fdecodes (k a) e2 b -> fdecodes (fbind m k) (e1 +++ e2) b.
Proof.
  intros Hm Hk bytes pre rest Hb E. unfold eapp in *. rewrite <- (assoc_L (++)) in E.
  unfold fbind. rewrite (Hm bytes pre _ Hb E). cbn [obind].
  rewrite (assoc_L (++)) in E. rewrite <- length_app in E |- *.
  rewrite (Hk bytes _ rest Hb E). by rewrite !length_app, Nat.add_assoc.
Qed.

(** A last step that reads nothing. *)
Lemma fdecodes_map {A B} (m : Flat A) (f : A -> Flat B) e a b :
  fdecodes m e a -> f a = fret b -> fdecodes (fbind m f) e b.
Proof.
  intros Hm Hf bytes pre rest Hb E. unfold fbind. rewrite (Hm bytes pre rest Hb E). cbn [obind].
  by rewrite Hf.
Qed.

Lemma fdecodes_lift {A} (a : A) : fdecodes (flift (Ok a)) (ebits []) a.
Proof. apply fdecodes_ret. Qed.

(** Loops: a turn that continues, and one that ends. [loop_reads body s e a]:
    from the state [s] the loop reads [e] and returns [a], in at most one turn
    per bit. *)
Definition fbody {St R} (body : St -> Flat (St + R)) (sd : St * FlatDecoder)
    : outcome MachineError (St * FlatDecoder + R * FlatDecoder) :=
  let? (r, d) := body sd.1 sd.2 in
  Ok (match r with inl s => inl (s, d) | inr r => inr (r, d) end).

Definition loop_reads {St R} (body : St -> Flat (St + R)) (s : St) (e : Enc) (a : R) : Prop :=
  forall bytes pre rest, bytes_ok bytes ->
    bits_of bytes = pre ++ e (length pre) ++ rest ->
    forall fuel, (length (e (length pre)) <= fuel)%nat ->
    loopM fuel (fbody body) (s, fat bytes (length pre))
    = Ok (a, fat bytes (length pre + length (e (length pre)))).

Lemma loop_reads_end {St R} (body : St -> Flat (St + R)) s e a :
  fdecodes (body s) e (inr a) -> (forall n, (0 < length (e n))%nat) -> loop_reads body s e a.
Proof.
  intros Hb He bytes pre rest Hok E fuel Hf. specialize (He (length pre)).
  destruct fuel as [|fuel]; [lia|]. cbn [loopM]. unfold fbody. cbn [fst snd].
  by rewrite (Hb bytes pre rest Hok E).
Qed.

Lemma loop_reads_step {St R} (body : St -> Flat (St + R)) s s' e1 e2 a :
  fdecodes (body s) e1 (inl s') -> (forall n, (0 < length (e1 n))%nat) ->
  loop_reads body s' e2 a -> loop_reads body s (e1 +++ e2) a.
Proof.
  intros Hb He Hr bytes pre rest Hok E fuel Hf. specialize (He (length pre)). unfold eapp in *.
  rewrite length_app in Hf |- *. destruct fuel as [|fuel]; [lia|].
  rewrite <- (assoc_L (++)) in E. cbn [loopM]. unfold fbody at 1. cbn [fst snd].
  rewrite (Hb bytes pre _ Hok E). cbn [obind]. rewrite (assoc_L (++)) in E.
  rewrite <- length_app in E, Hf |- *.
  rewrite (Hr bytes _ rest Hok E) by (rewrite !length_app in *; lia).
  by rewrite !length_app, Nat.add_assoc.
Qed.

Lemma floop_fbody {St R} (body : St -> Flat (St + R)) s d :
  floop body s d = loopM (flat_fuel d) (fbody body) (s, d).
Proof.
  unfold floop. generalize (flat_fuel d) as fuel. intros fuel. revert s d.
  induction fuel as [|fuel IH]; intros s d; [done|]. cbn [loopM].
  unfold fbody at 1. cbn [fst snd]. destruct (body s d) as [[[s2|r] d2]| | |]; try done.
  cbn [obind]. apply IH.
Qed.

Lemma fdecodes_floop {St R} (body : St -> Flat (St + R)) s e a :
  loop_reads body s e a -> fdecodes (floop body s) e a.
Proof.
  intros Hr bytes pre rest Hok E. rewrite floop_fbody.
  apply (Hr bytes pre rest Hok E). unfold flat_fuel. cbn [fl_bytes fat].
  apply (f_equal length) in E. rewrite length_bits_of, !length_app in E. lia.
Qed.

(** ** Bits and small numbers *)

Lemma lookup_nbits n v i :
  (i < n)%nat -> nbits n v !! i = Some (Z.testbit v (Z.of_nat (n - 1 - i))).
Proof.
  intros Hi. unfold nbits. rewrite list_lookup_fmap, reverse_lookup by (by rewrite length_seq).
  rewrite length_seq, lookup_seq_lt by lia. simpl. do 3 f_equal. lia.
Qed.

Lemma lookup_bits_of bytes n b :
  bits_of bytes !! n = Some b ->
  exists byte, bytes !! (n / 8)%nat = Some byte
    /\ b = Z.testbit byte (7 - Z.of_nat (n mod 8)).
Proof.
  revert n. induction bytes as [|byte bytes IH]; intros n Hn; [done|].
  rewrite bits_of_cons in Hn. destruct (decide (n < 8)%nat) as [Hlt|Hge].
  - rewrite lookup_app_l, lookup_nbits in Hn by (rewrite ?length_nbits; lia).
    injection Hn as <-. rewrite Nat.div_small, Nat.mod_small by lia. exists byte.
    split; [done|]. f_equal. lia.
  - rewrite lookup_app_r, length_nbits in Hn by (rewrite length_nbits; lia).
    apply IH in Hn as (byte' & Hb & ->). exists byte'.
    replace n with ((n - 8) + 1 * 8)%nat at 1 3 by lia.
    rewrite Nat.div_add, Nat.Div0.mod_add by lia. rewrite Nat.add_1_r. done.
Qed.

Lemma fat_next bytes n :
  (if 8 <=? Z.of_nat n mod 8 + 1 then mkFlat bytes (Z.of_nat n / 8 + 1) 0
   else mkFlat bytes (Z.of_nat n / 8) (Z.of_nat n mod 8 + 1)) = fat bytes (S n).
Proof.
  unfold fat. replace (Z.of_nat (S n)) with (Z.of_nat n + 1) by lia.
  pose proof (Z.div_mod (Z.of_nat n) 8 ltac:(lia)).
  pose proof (Z.mod_pos_bound (Z.of_nat n) 8 ltac:(lia)).
  destruct (8 <=? _) eqn:E; zbool.
  - f_equal; [apply (Z.div_unique _ _ _ 0)|apply (Z.mod_unique _ _ (Z.of_nat n / 8 + 1))]; lia.
  - f_equal; [apply (Z.div_unique _ _ _ (Z.of_nat n mod 8 + 1))|
              apply (Z.mod_unique _ _ (Z.of_nat n / 8))]; lia.
Qed.

Lemma fdecodes_read_bit b : fdecodes read_bit (ebits [b]) b.
Proof.
  intros bytes pre rest _ E. cbn [ebits length] in *.
  assert (Hn : bits_of bytes !! length pre = Some b) by (rewrite E; cbn [app]; by apply list_lookup_middle).
  apply lookup_bits_of in Hn as (byte & Hb & ->). unfold read_bit. cbn [fl_bytes fl_pos fl_bit fat].
  assert (Hpos : Z.to_nat (Z.of_nat (length pre) / 8) = (length pre / 8)%nat).
  { rewrite <- (Nat2Z.inj_div _ 8). apply Nat2Z.id. }
  rewrite Hpos, Hb. apply lookup_lt_Some in Hb.
  rewrite (proj2 (Z.leb_gt _ _)).
  2: { pose proof (Nat2Z.inj_div (length pre) 8). unfold zlength. simpl in *. lia. }
  rewrite fat_next. rewrite Nat.add_1_r. do 2 f_equal.
  rewrite Nat2Z.inj_mod. change (Z.of_nat 8) with 8.
  rewrite Z.land_ones with (n := 1) by lia. change (2 ^ 1) with 2.
  rewrite <- Z.bit0_mod, Z.shiftr_spec by lia. rewrite Z.add_0_l.
  clear E. by destruct (Z.testbit byte (7 - Z.of_nat (length pre) mod 8)).
Qed.

(** The value of bits read into a [u8]. *)
Definition bits_value (l : list bool) (acc : Z) : Z :=
  fold_left (fun acc b => Z.lor (wrap8 (Z.shiftl acc 1)) (Z.b2z b)) l acc.

Lemma fdecodes_read_bits l acc :
  fdecodes (read_bits (length l) acc) (ebits l) (bits_value l acc).
Proof.
  revert acc. induction l as [|b l IH]; intros acc; [apply fdecodes_ret|].
  change (ebits (b :: l)) with (ebits [b] +++ ebits l).
  eapply fdecodes_bind; [apply fdecodes_read_bit|]. apply IH.
Qed.

Lemma bits_value_small n v :
  (n = 4 \/ n = 7 \/ n = 8)%nat -> 0 <= v < 2 ^ Z.of_nat n -> bits_value (nbits n v) 0 = v.
Proof.
  intros Hn Hv.
  assert (Hall : Forall (fun k => bits_value (nbits n (Z.of_nat k)) 0 = Z.of_nat k)
                   (seq 0 (2 ^ n))).
  { destruct Hn as [->|[->| ->]]; apply (bool_decide_unpack _); by vm_compute. }
  rewrite Forall_forall in Hall. specialize (Hall (Z.to_nat v)).
  rewrite Z2Nat.id in Hall by lia. apply Hall. apply elem_of_seq.
  assert (Z.of_nat (2 ^ n) = 2 ^ Z.of_nat n) by (by rewrite Nat2Z.inj_pow). lia.
Qed.

Lemma fdecodes_read_bits8 n v :
  (n = 4 \/ n = 7 \/ n = 8)%nat -> 0 <= v < 2 ^ Z.of_nat n ->
  fdecodes (read_bits8 n) (ebits (nbits n v)) v.
Proof.
  intros Hn Hv. pose proof (fdecodes_read_bits (nbits n v) 0) as Hr.
  by rewrite length_nbits, bits_value_small in Hr.
Qed.

(** ** Naturals and integers *)

(** Digits in base 128, least significant first. *)
Fixpoint digits (n : nat) (v : Z) : list Z :=
  match n with
  | O => [v]
  | S n => if v <? 128 then [v] else v mod 128 :: digits n (v / 128)
  end.
Definition natural_digits (v : Z) : list Z := digits (Z.to_nat (Z.log2 v / 7)) v.
Definition digits_value (ds : list Z) : Z := foldr (fun d acc => d + 128 * acc) 0 ds.

(** Every group but the last has its continuation bit set. *)
Fixpoint group_bytes (ds : list Z) : list Z :=
  match ds with
  | [] => []
  | [d] => [d]
  | d :: ds => d + 128 :: group_bytes ds
  end.

Definition enc_natural (v : Z) : Enc := ebits (bits_of (group_bytes (natural_digits v))).
Definition zigzag (v : Z) : Z := if 0 <=? v then 2 * v else - 2 * v - 1.
Definition enc_integer (v : Z) : Enc := enc_natural (zigzag v).

Lemma digits_spec n v :
  0 <= v < 128 ^ Z.of_nat (S n) ->
  digits_value (digits n v) = v /\ Forall (fun d => 0 <= d < 128) (digits n v)
  /\ (0 < length (digits n v) <= S n)%nat.
Proof.
  revert v. induction n as [|n IH]; intros v Hv; cbn [digits].
  - simpl. split_and!; [lia| |lia|lia]. by repeat constructor; lia.
  - destruct (v <? 128) eqn:E; zbool.
    { simpl. split_and!; [lia| |lia|lia]. by repeat constructor; lia. }
    pose proof (Z.mod_pos_bound v 128 ltac:(lia)).
    destruct (IH (v / 128)) as (Hval & Hr & Hl).
    { replace (Z.of_nat (S (S n))) with (1 + Z.of_nat (S n)) in Hv by lia.
      rewrite Z.pow_add_r in Hv by lia. split; [apply Z.div_pos; lia|].
      apply Z.div_lt_upper_bound; lia. }
    cbn [length]. split_and!; [|by constructor|lia|lia].
    unfold digits_value in *. cbn [foldr]. rewrite Hval. pose proof (Z.div_mod v 128). lia.
Qed.

Lemma natural_digits_spec v :
  0 <= v ->
  digits_value (natural_digits v) = v /\ Forall (fun d => 0 <= d < 128) (natural_digits v)
  /\ (0 < length (natural_digits v))%nat
  /\ Z.of_nat (length (natural_digits v)) <= Z.log2 v / 7 + 1.
Proof.
  intros Hv. pose proof (Z.log2_nonneg v). unfold natural_digits.
  assert (Hk : 0 <= Z.log2 v / 7) by (apply Z.div_pos; lia).
  destruct (digits_spec (Z.to_nat (Z.log2 v / 7)) v) as (? & ? & ?).
  - split; [done|]. replace (Z.of_nat (S (Z.to_nat (Z.log2 v / 7)))) with (Z.log2 v / 7 + 1) by lia.
    change 128 with (2 ^ 7). rewrite <- Z.pow_mul_r by lia.
    destruct (decide (v = 0)) as [->|]; [by vm_compute|].
    pose proof (Z.log2_spec v ltac:(lia)) as [_ Hlt]. eapply Z.lt_le_trans; [exact Hlt|].
    apply Z.pow_le_mono_r; [lia|]. pose proof (Z.div_mod (Z.log2 v) 7).
    pose proof (Z.mod_pos_bound (Z.log2 v) 7). lia.
  - split_and!; [done|done|lia|lia].
Qed.

(** What the decoder takes from a group. *)
Lemma group_parts d :
  0 <= d < 128 ->
  Z.land d 127 = d /\ Z.land d 128 = 0 /\ Z.land (d + 128) 127 = d /\ Z.land (d + 128) 128 = 128.
Proof.
  intros Hd.
  assert (Hall : Forall (fun k => Z.land (Z.of_nat k) 127 = Z.of_nat k
     /\ Z.land (Z.of_nat k) 128 = 0 /\ Z.land (Z.of_nat k + 128) 127 = Z.of_nat k
     /\ Z.land (Z.of_nat k + 128) 128 = 128) (seq 0 128)).
  { apply (bool_decide_unpack _). by vm_compute. }
  rewrite Forall_forall in Hall. specialize (Hall (Z.to_nat d)).
  rewrite Z2Nat.id in Hall by lia. apply Hall, elem_of_seq. lia.
Qed.

Lemma lor_shiftl_add r d s : 0 <= s -> 0 <= r < 2 ^ s -> Z.lor r (Z.shiftl d s) = r + d * 2 ^ s.
Proof.
  intros Hs Hr. assert (Hz : Z.land r (Z.shiftl d s) = 0).
  { apply Z.bits_inj'. intros i Hi. rewrite Z.land_spec, Z.bits_0.
    destruct (decide (i < s)) as [Hlt|Hge].
    - rewrite (Z.shiftl_spec_low d) by done. apply andb_false_r.
    - destruct (decide (r = 0)) as [->|]; [by rewrite Z.bits_0|].
      rewrite (Z.bits_above_log2 r); [done|lia|]. apply Z.log2_lt_pow2; [lia|].
      eapply Z.lt_le_trans; [apply Hr|]. apply Z.pow_le_mono_r; lia. }
  rewrite <- Z.lxor_lor by done. rewrite <- Z.add_nocarry_lxor by done.
  by rewrite Z.shiftl_mul_pow2.
Qed.

(** Reading one group. *)
Lemma fdecodes_group byte : u8 byte -> fdecodes (read_bits8 8) (ebits (nbits 8 byte)) byte.
Proof.
  intros Hb. apply fdecodes_read_bits8; [auto|]. unfold u8, U8_MAX in Hb.
  change (2 ^ Z.of_nat 8) with 256. lia.
Qed.

Lemma group_bytes_cons d ds :
  ds <> [] -> bits_of (group_bytes (d :: ds)) = nbits 8 (d + 128) ++ bits_of (group_bytes ds).
Proof. by destruct ds. Qed.

Lemma integer_loop ds r s :
  ds <> [] -> Forall (fun d => 0 <= d < 128) ds -> 0 <= s -> 0 <= r < 2 ^ s ->
  loop_reads integer_body (r, s) (ebits (bits_of (group_bytes ds))) (r + digits_value ds * 2 ^ s).
Proof.
  intros Hne Hds. revert r s Hne. induction Hds as [|d ds Hd Hds IH]; intros r s Hne Hs Hr; [done|].
  destruct (group_parts d Hd) as (H1 & H2 & H3 & H4). destruct ds as [|d' ds].
  - apply loop_reads_end; [|intros n; cbn; lia]. cbn [group_bytes]. unfold bits_of. simpl concat.
    eapply fdecodes_map; [apply fdecodes_group; unfold u8, U8_MAX; lia|].
    cbv zeta beta. rewrite H1, H2, lor_shiftl_add by done. unfold digits_value. simpl.
    repeat f_equal. lia.
  - rewrite group_bytes_cons by done. set (ds' := d' :: ds) in *.
    change (ebits (?a ++ ?b)) with (ebits a +++ ebits b).
    assert (Hpow : 2 ^ (s + 7) = 2 ^ s * 128) by (by rewrite Z.pow_add_r by lia).
    eapply loop_reads_step with (s' := (r + d * 2 ^ s, s + 7)); [|intros n; cbn; lia|].
    + eapply fdecodes_map; [apply fdecodes_group; unfold u8, U8_MAX; lia|].
      cbv zeta beta. by rewrite H3, H4, lor_shiftl_add.
    + replace (r + digits_value (d :: ds') * 2 ^ s)
        with (r + d * 2 ^ s + digits_value ds' * 2 ^ (s + 7)).
      * apply IH; [done|lia|]. rewrite Hpow. pose proof (Z.pow_pos_nonneg 2 s). nia.
      * rewrite Hpow. unfold digits_value. cbn [foldr]. lia.
Qed.

Lemma zigzag_decode_zigzag v : 0 <= zigzag v /\ zigzag_decode (zigzag v) = v.
Proof.
  unfold zigzag, zigzag_decode. destruct (0 <=? v) eqn:E; zbool; (split; [lia|]);
    rewrite Z.land_ones with (n := 1) by lia; change (2 ^ 1) with 2;
    rewrite Z.shiftr_div_pow2 by lia; change (2 ^ 1) with 2.
  - rewrite Z.mul_comm, Z.mod_mul, Z.div_mul by lia. done.
  - replace (-2 * v - 1) with (1 + (- v - 1) * 2) by lia.
    rewrite Z.mod_add, Z.div_add by lia. change (1 mod 2 =? 0) with false.
    change (1 / 2) with 0. cbv iota. lia.
Qed.

Lemma fdecodes_integer v : fdecodes read_integer (enc_integer v) v.
Proof.
  destruct (zigzag_decode_zigzag v) as [Hz Hd].
  destruct (natural_digits_spec (zigzag v) Hz) as (Hv & Hr & Hl & _).
  eapply fdecodes_map; [|by rewrite Hd].
  apply fdecodes_floop. unfold enc_integer, enc_natural.
  replace (zigzag v) with (0 + digits_value (natural_digits (zigzag v)) * 2 ^ 0) at 2 by lia.
  apply integer_loop; [|done|lia|by vm_compute].
  intros E. rewrite E in Hl. simpl in Hl. lia.
Qed.

(** A shift keeps the bits that fit. *)
Lemma wrap64_shiftl d s :
  0 <= s <= 63 -> 0 <= d -> wrap64 (Z.shiftl d s) = Z.shiftl (d mod 2 ^ (64 - s)) s.
Proof.
  intros Hs Hd. unfold wrap64. rewrite !Z.shiftl_mul_pow2 by lia.
  replace (2 ^ 64) with (2 ^ (64 - s) * 2 ^ s) by (rewrite <- Z.pow_add_r by lia; f_equal; lia).
  rewrite Z.mul_mod_distr_r; [done|..]; pose proof (Z.pow_pos_nonneg 2 s);
    pose proof (Z.pow_pos_nonneg 2 (64 - s)); lia.
Qed.

Lemma lor_wrap64 r d s :
  0 <= s <= 63 -> 0 <= d -> 0 <= r < 2 ^ s ->
  Z.lor r (wrap64 (Z.shiftl d s)) = wrap64 (r + d * 2 ^ s).
Proof.
  intros Hs Hd Hr. rewrite wrap64_shiftl, lor_shiftl_add by lia. unfold wrap64.
  pose proof (Z.pow_pos_nonneg 2 (64 - s) ltac:(lia) ltac:(lia)) as Hp.
  pose proof (Z.pow_pos_nonneg 2 s ltac:(lia) ltac:(lia)) as Hp'.
  pose proof (Z.mod_pos_bound d (2 ^ (64 - s)) Hp).
  assert (E : 2 ^ 64 = 2 ^ (64 - s) * 2 ^ s) by (rewrite <- Z.pow_add_r by lia; f_equal; lia).
  apply (Z.mod_unique _ _ (d / 2 ^ (64 - s))); [left; nia|].
  pose proof (Z.div_mod d (2 ^ (64 - s)) ltac:(lia)). nia.
Qed.

Lemma natural_loop ds r s :
  ds <> [] -> Forall (fun d => 0 <= d < 128) ds ->
  0 <= s -> s + 7 * (zlength ds - 1) <= 63 -> 0 <= r < 2 ^ s ->
  loop_reads natural_body (r, s) (ebits (bits_of (group_bytes ds)))
    (wrap64 (r + digits_value ds * 2 ^ s)).
Proof.
  intros Hne Hds. revert r s Hne.
  induction Hds as [|d ds Hd Hds IH]; intros r s Hne Hs Hlen Hr; [done|].
  destruct (group_parts d Hd) as (H1 & H2 & H3 & H4).
  rewrite zlength_cons in Hlen. pose proof (zlength_nonneg ds).
  assert (Hsh : forall v, checked_shl v s = Some (wrap64 (Z.shiftl v s))).
  { intros v. unfold checked_shl. by rewrite (proj2 (Z.leb_gt _ _)) by lia. }
  assert (Hlift : forall (f : Z -> Flat (Z * Z + Z)) x, fbind (flift (Ok x)) f = f x) by done.
  destruct ds as [|d' ds].
  - apply loop_reads_end; [|intros n; cbn; lia]. cbn [group_bytes]. unfold bits_of. simpl concat.
    eapply fdecodes_map; [apply fdecodes_group; unfold u8, U8_MAX; lia|].
    cbv beta. rewrite Hsh. cbn [ok_or]. rewrite Hlift. cbv zeta. rewrite H1, H2, lor_wrap64 by lia.
    unfold digits_value. simpl. repeat f_equal. lia.
  - rewrite group_bytes_cons by done. set (ds' := d' :: ds) in *.
    change (ebits (?a ++ ?b)) with (ebits a +++ ebits b).
    assert (0 < zlength ds') by (unfold ds', zlength; simpl; lia).
    assert (Hpow : 2 ^ (s + 7) = 2 ^ s * 128) by (by rewrite Z.pow_add_r by lia).
    pose proof (Z.pow_pos_nonneg 2 s ltac:(lia) Hs).
    assert (Hsmall : 0 <= r + d * 2 ^ s < 2 ^ (s + 7)) by (rewrite Hpow; nia).
    assert (Hid : wrap64 (r + d * 2 ^ s) = r + d * 2 ^ s).
    { unfold wrap64. apply Z.mod_small. split; [lia|]. eapply Z.lt_le_trans; [apply Hsmall|].
      apply Z.pow_le_mono_r; lia. }
    eapply loop_reads_step with (s' := (r + d * 2 ^ s, s + 7)); [|intros n; cbn; lia|].
    + eapply fdecodes_map; [apply fdecodes_group; unfold u8, U8_MAX; lia|].
      cbv beta. rewrite Hsh. cbn [ok_or]. rewrite Hlift. cbv zeta. rewrite H3, H4, lor_wrap64 by lia.
      rewrite Hid. change (128 =? 0) with false. cbv iota.
      by rewrite (proj2 (Z.ltb_ge _ _)) by lia.
    + replace (r + digits_value (d :: ds') * 2 ^ s)
        with (r + d * 2 ^ s + digits_value ds' * 2 ^ (s + 7)).
      * apply IH; [done|lia|lia|done].
      * rewrite Hpow. unfold digits_value. cbn [foldr]. lia.
Qed.

(** Naturals are read modulo [2^64] up to ten groups. *)
Lemma fdecodes_natural_wrap v :
  0 <= v < 2 ^ 70 -> fdecodes read_natural (enc_natural v) (wrap64 v).
Proof.
  intros Hv. destruct (natural_digits_spec v ltac:(lia)) as (Hval & Hr & Hl & Hlen).
  apply fdecodes_floop. unfold enc_natural.
  replace (wrap64 v) with (wrap64 (0 + digits_value (natural_digits v) * 2 ^ 0)) by (f_equal; lia).
  apply natural_loop; [|done|lia| |by vm_compute].
  - intros E. rewrite E in Hl. simpl in Hl. lia.
  - unfold zlength. assert (Z.log2 v < 70).
    { destruct (decide (v = 0)) as [->|]; [done|]. apply Z.log2_lt_pow2; lia. }
    assert (Z.log2 v / 7 < 10) by (apply Z.div_lt_upper_bound; lia). lia.
Qed.

Lemma fdecodes_natural v : u64 v -> fdecodes read_natural (enc_natural v) v.
Proof.
  intros Hv. rewrite <- (wrap64_id v Hv) at 2. apply fdecodes_natural_wrap.
  unfold u64, U64_MAX in Hv. change (2 ^ 70) with 1180591620717411303424. lia.
Qed.

(** ** Byte strings and lists *)

Definition efiller : Enc := fun n => repeat false (7 - n mod 8) ++ [true].
Definition chunk_bytes (cs : list (list Z)) : list Z :=
  concat (map (fun c => zlength c :: c) cs) ++ [0].
Definition enc_bytes (bs : list Z) : Enc :=
  efiller +++ ebits (bits_of (chunk_bytes (chunks 255 bs))).

Fixpoint enc_list (es : list Enc) : Enc :=
  match es with
  | [] => ebits [false]
  | e :: es => (ebits [true] +++ e) +++ enc_list es
  end.

Lemma fdecodes_filler : fdecodes read_filler efiller tt.
Proof.
  assert (Hk : forall k, loop_reads filler_body tt (ebits (repeat false k ++ [true])) tt).
  { induction k as [|k IH].
    - apply loop_reads_end; [|intros; cbn; lia].
      eapply fdecodes_map; [apply fdecodes_read_bit|done].
    - change (ebits (repeat false (S k) ++ [true]))
        with (ebits [false] +++ ebits (repeat false k ++ [true])).
      eapply loop_reads_step; [|intros; cbn; lia|exact IH].
      eapply fdecodes_map; [apply fdecodes_read_bit|done]. }
  intros bytes pre rest Hok E.
  apply (fdecodes_floop _ _ _ _ (Hk (7 - length pre mod 8)%nat) bytes pre rest Hok E).
Qed.

Lemma bits_of_prefix bytes c rest :
  bytes_ok bytes -> bytes_ok c -> bits_of bytes = bits_of c ++ rest ->
  exists tail, bytes = c ++ tail.
Proof.
  intros Hb Hc. revert bytes Hb. induction Hc as [|x c Hx Hc IH]; intros bytes Hb E.
  { by exists bytes. }
  destruct Hb as [|y bytes Hy Hb].
  { apply (f_equal length) in E. by rewrite bits_of_cons, !length_app, length_nbits in E. }
  rewrite !bits_of_cons, <- (assoc_L (++)) in E. apply app_inj_1 in E as [Exy E];
    [|by rewrite !length_nbits].
  assert (x = y) as ->.
  { apply (f_equal (fun l => bits_value l 0)) in Exy.
    unfold u8, U8_MAX in *. rewrite !bits_value_small in Exy by (auto || (change (2 ^ Z.of_nat 8) with 256; lia)).
    done. }
  destruct (IH bytes Hb E) as [tail ->]. by exists tail.
Qed.

Lemma aligned_bytes bytes pre c rest k :
  bytes_ok bytes -> bytes_ok c -> length pre = (8 * k)%nat ->
  bits_of bytes = pre ++ bits_of c ++ rest -> exists tail, drop k bytes = c ++ tail.
Proof.
  intros Hb Hc Hl E. apply (bits_of_prefix _ _ rest); [by apply Forall_drop|done|].
  rewrite <- (take_drop k bytes), bits_of_app in E.
  apply (f_equal length) in E as El. rewrite !length_app, !length_bits_of, length_take, length_drop in El.
  apply app_inj_1 in E as [_ E]; [done|]. rewrite length_bits_of, length_take. lia.
Qed.

Lemma chunk_bytes_cons c cs : chunk_bytes (c :: cs) = (zlength c :: c) ++ chunk_bytes cs.
Proof. unfold chunk_bytes. simpl. by rewrite (assoc_L (++)). Qed.

(** The chunk loop, from a byte boundary. *)
Lemma chunk_loop_reads cs acc bytes k tail fuel :
  Forall (fun c => 0 < length c <= 255)%nat cs ->
  drop k bytes = chunk_bytes cs ++ tail -> (length cs < fuel)%nat ->
  loopM fuel (fbody bytestring_body) (acc, mkFlat bytes (Z.of_nat k) 0)
  = Ok (acc ++ concat cs, mkFlat bytes (Z.of_nat (k + length (chunk_bytes cs))) 0).
Proof.
  intros Hcs. revert acc k fuel.
  induction Hcs as [|c cs Hc Hcs IH]; intros acc k fuel Hd Hf; (destruct fuel as [|fuel]; [lia|]);
    cbn [loopM]; unfold fbody at 1; cbn [fst snd]; unfold bytestring_body;
    cbn [fl_bytes fl_pos fl_bit]; rewrite Nat2Z.id.
  - assert (Hk : bytes !! k = Some 0).
    { pose proof (lookup_drop bytes k 0) as Hl. rewrite Nat.add_0_r in Hl. by rewrite <- Hl, Hd. }
    rewrite Hk. apply lookup_lt_Some in Hk.
    rewrite (proj2 (Z.leb_gt _ _)) by (unfold zlength; lia). cbn.
    rewrite app_nil_r. repeat f_equal. lia.
  - rewrite chunk_bytes_cons in Hd.
    assert (Hk : bytes !! k = Some (zlength c)).
    { pose proof (lookup_drop bytes k 0) as Hl. rewrite Nat.add_0_r in Hl. by rewrite <- Hl, Hd. }
    rewrite Hk. apply lookup_lt_Some in Hk.
    apply (f_equal length) in Hd as Hlen. rewrite length_drop, !length_app in Hlen. cbn [length] in Hlen.
    rewrite (proj2 (Z.leb_gt _ _)) by (unfold zlength; lia).
    rewrite (proj2 (Z.eqb_neq (zlength c) 0)) by (unfold zlength; lia).
    rewrite (proj2 (Z.ltb_ge _ _)) by (unfold zlength; lia). cbn [obind].
    replace (Z.of_nat k + 1 + zlength c) with (Z.of_nat (k + S (length c))) by (unfold zlength; lia).
    assert (Hdrop : drop (S k) bytes = c ++ chunk_bytes cs ++ tail).
    { replace (S k) with (k + 1)%nat by lia. rewrite <- drop_drop, Hd. cbn.
      by rewrite drop_0, <- (assoc_L (++)). }
    rewrite IH.
    + rewrite chunk_bytes_cons, length_app. cbn [length concat].
      replace (zslice (Z.of_nat k + 1) (Z.of_nat (k + S (length c))) bytes) with c.
      * rewrite <- (assoc_L (++)). do 3 f_equal. lia.
      * unfold zslice. replace (Z.to_nat (Z.of_nat k + 1)) with (S k) by lia. rewrite Hdrop.
        replace (Z.to_nat _) with (length c) by lia. by rewrite take_app_length.
    + replace (k + S (length c))%nat with (S k + length c)%nat by lia.
      by rewrite <- drop_drop, Hdrop, drop_app_length.
    + simpl in Hf. lia.
Qed.

Lemma chunks_bounds (bs : list Z) :
  Forall (fun c : list Z => 0 < length c <= 255)%nat (chunks 255 bs).
Proof.
  unfold chunks. generalize (length bs) as fuel. intros fuel. revert bs.
  induction fuel as [|fuel IH]; intros [|b bs]; cbn [chunks_fuel]; try constructor; [|apply IH].
  rewrite length_take. cbn [length]. lia.
Qed.

Lemma chunk_bytes_ok cs :
  Forall (fun c => 0 < length c <= 255)%nat cs -> Forall bytes_ok cs -> bytes_ok (chunk_bytes cs).
Proof.
  intros Hl Hb. induction Hl as [|c cs Hc Hl IH].
  { repeat constructor; unfold u8, U8_MAX; lia. }
  inversion Hb; subst. rewrite chunk_bytes_cons. apply Forall_app_2; [|by apply IH].
  constructor; [|done]. unfold u8, U8_MAX, zlength. lia.
Qed.

Lemma length_chunk_bytes cs : (length cs < length (chunk_bytes cs))%nat.
Proof.
  induction cs as [|c cs IH]; [cbn; lia|]. rewrite chunk_bytes_cons, length_app. cbn [length]. lia.
Qed.

Lemma Forall_chunks (P : Z -> Prop) bs : Forall P bs -> Forall (Forall P) (chunks 255 bs).
Proof.
  unfold chunks. generalize (length bs) as fuel. intros fuel. revert bs.
  induction fuel as [|fuel IH]; intros [|b bs] Hb; cbn [chunks_fuel]; try constructor.
  - by apply Forall_take.
  - by apply IH, Forall_drop.
Qed.

Lemma fdecodes_bytestring bs : bytes_ok bs -> fdecodes read_bytestring (enc_bytes bs) bs.
Proof.
  intros Hbs. set (cs := chunks 255 bs).
  pose proof (chunks_bounds bs) as Hcs. pose proof (Forall_chunks _ _ Hbs) as Hcb. fold cs in Hcs, Hcb.
  intros bytes pre rest Hok E. unfold enc_bytes, eapp in *. fold cs in E |- *.
  rewrite <- (assoc_L (++)) in E. unfold read_bytestring, fbind.
  rewrite (fdecodes_filler bytes pre _ Hok E). cbn [obind].
  rewrite (assoc_L (++)) in E. rewrite <- length_app in E. unfold ebits in E |- *.
  assert (Hal : exists k, length (pre ++ efiller (length pre)) = (8 * k)%nat).
  { exists (length pre / 8 + 1)%nat. unfold efiller. rewrite !length_app, repeat_length. cbn [length].
    pose proof (Nat.div_mod_eq (length pre) 8).
    pose proof (Nat.mod_upper_bound (length pre) 8 ltac:(lia)). lia. }
  destruct Hal as [k Hk].
  destruct (aligned_bytes bytes _ _ rest k Hok (chunk_bytes_ok cs Hcs Hcb) Hk E) as [tail Ht].
  assert (Hfat : forall j, fat bytes (8 * j) = mkFlat bytes (Z.of_nat j) 0).
  { intros j. unfold fat. replace (Z.of_nat (8 * j)) with (Z.of_nat j * 8) by lia.
    by rewrite Z.div_mul, Z.mod_mul by lia. }
  rewrite <- length_app, Hk, Hfat, floop_fbody.
  rewrite (chunk_loop_reads cs [] bytes k tail _ Hcs Ht).
  - rewrite length_app. replace (length (bits_of (chunk_bytes cs)))
      with (8 * length (chunk_bytes cs))%nat by (by rewrite length_bits_of).
    rewrite length_app in Hk.
    replace (length pre + (length (efiller (length pre)) + 8 * length (chunk_bytes cs)))%nat
      with (8 * (k + length (chunk_bytes cs)))%nat by lia.
    rewrite Hfat. unfold cs. by rewrite concat_chunks by lia.
  - unfold flat_fuel. cbn [fl_bytes]. apply (f_equal length) in Ht.
    rewrite length_drop, length_app in Ht. pose proof (length_chunk_bytes cs). lia.
Qed.

Lemma fdecodes_list {T} (m : Flat T) es xs :
  Forall2 (fdecodes m) es xs -> fdecodes (read_list m) (enc_list es) xs.
Proof.
  intros Hxs. apply fdecodes_floop.
  enough (Hl : forall acc, loop_reads (list_body m) acc (enc_list es) (acc ++ xs)) by apply (Hl []).
  induction Hxs as [|e x es xs Hx Hxs IH]; intros acc; cbn [enc_list].
  - rewrite app_nil_r. apply loop_reads_end; [|intros; cbn; lia].
    eapply fdecodes_map; [apply fdecodes_read_bit|done].
  - apply (loop_reads_step _ _ (acc ++ [x])).
    + eapply fdecodes_bind; [apply fdecodes_read_bit|].
      cbv iota. eapply fdecodes_map; [exact Hx|done].
    + intros n. unfold eapp, ebits. rewrite length_app. simpl. lia.
    + specialize (IH (acc ++ [x])). by rewrite <- (assoc_L (++)) in IH.
Qed.

(** ** Types *)

Fixpoint ty_tags (ty : Ty) : list Z :=
  match ty with
  | Ty_Integer => [0]
  | Ty_ByteString => [1]
  | Ty_String => [2]
  | Ty_Unit => [3]
  | Ty_Bool => [4]
  | Ty_List elem => 7 :: 5 :: ty_tags elem
  | Ty_Pair a b => 7 :: 7 :: 6 :: ty_tags a ++ ty_tags b
  | Ty_Data => [8]
  | Ty_Bls12_381_G1_Element => [9]
  | Ty_Bls12_381_G2_Element => [10]
  | Ty_Bls12_381_MlResult => [11]
  end.
Definition enc_type (ty : Ty) : Enc := enc_list (map (fun tag => ebits (nbits 4 tag)) (ty_tags ty)).

(** How deep the parser goes. *)
Fixpoint uni_depth (ty : Ty) : nat :=
  match ty with
  | Ty_List elem => S (S (uni_depth elem))
  | Ty_Pair a b => S (Nat.max (S (S (uni_depth a))) (uni_depth b))
  | _ => 1
  end.

Lemma parse_uni_tags ty rest depth :
  (uni_depth ty <= depth)%nat -> parse_uni depth (ty_tags ty ++ rest) = Ok (Uni_Star ty, rest).
Proof.
  revert rest depth. induction ty as [| | | | |elem IH|a IHa b IHb| | | |]; intros rest depth Hd;
    (destruct depth as [|depth]; [simpl in Hd; lia|]); try done.
  - cbn [uni_depth] in Hd. destruct depth as [|depth]; [lia|]. cbn [ty_tags app].
    change (parse_uni (S (S depth)) (7 :: 5 :: ty_tags elem ++ rest))
      with (let? (arg, tags) := parse_uni (S depth) (ty_tags elem ++ rest) in
            let? u := apply_uni Uni_ProtoList arg in Ok (u, tags)).
    by rewrite IH by lia.
  - cbn [uni_depth] in Hd. destruct depth as [|[|depth]]; [lia|lia|]. cbn [ty_tags app].
    rewrite <- (assoc_L (++)).
    change (parse_uni (S (S (S depth))) (7 :: 7 :: 6 :: ty_tags a ++ ty_tags b ++ rest))
      with (let? (fun_, tags) :=
              (let? (arg, tags) := parse_uni (S depth) (ty_tags a ++ ty_tags b ++ rest) in
               let? u := apply_uni Uni_ProtoPair arg in Ok (u, tags)) in
            let? (arg, tags) := parse_uni (S (S depth)) tags in
            let? u := apply_uni fun_ arg in Ok (u, tags)).
    rewrite IHa by lia. cbn [obind apply_uni]. by rewrite IHb by lia.
Qed.

Lemma ty_tags_range ty : Forall (fun tag => 0 <= tag < 16) (ty_tags ty).
Proof.
  induction ty; simpl; repeat (apply List.Forall_cons; [lia|]); try apply Forall_app_2; done || constructor.
Qed.

Lemma fdecodes_type ty depth :
  (uni_depth ty <= depth)%nat -> fdecodes (decode_type_list_with_depth depth) (enc_type ty) ty.
Proof.
  intros Hd. apply (fdecodes_map _ _ _ (ty_tags ty)).
  - apply fdecodes_list. pose proof (ty_tags_range ty) as Hr.
    induction Hr as [|tag tags Ht Hr IH]; simpl; constructor; [|exact IH].
    apply fdecodes_read_bits8; [auto|done].
  - pose proof (parse_uni_tags ty [] depth Hd) as Hp. rewrite app_nil_r in Hp.
    assert (ty_tags ty <> []) by (by destruct ty).
    destruct (ty_tags ty) as [|tag tags]; [done|]. by rewrite Hp.
Qed.

(** ** Constants *)

Section terms.
  Context `{PlutusCrypto}.

Fixpoint enc_constant (ty : Ty) (c : Constant) : Enc :=
  match ty, c with
  | Ty_Integer, Constant_Integer v => enc_integer v
  | Ty_ByteString, Constant_ByteString bs => enc_bytes bs
  | Ty_String, Constant_String s => enc_bytes s
  | Ty_Unit, Constant_Unit => ebits []
  | Ty_Bool, Constant_Bool b => ebits [b]
  | Ty_List t, Constant_ProtoList _ items => enc_list (map (enc_constant t) items)
  | Ty_Pair ta tb, Constant_ProtoPair _ _ a b => enc_constant ta a +++ enc_constant tb b
  | Ty_Data, Constant_Data d => enc_bytes (encoding d)
  | Ty_Bls12_381_G1_Element, Constant_Bls12_381_G1_Element e => enc_bytes (g1_compress e)
  | Ty_Bls12_381_G2_Element, Constant_Bls12_381_G2_Element e => enc_bytes (g2_compress e)
  | _, _ => ebits []
  end.

(** Values of a type, with the limits the representation of the code has:
    byte strings of bytes, valid UTF-8, data the node can encode, and group
    elements that their compressed form determines. *)
Fixpoint constant_ok (ty : Ty) (c : Constant) : Prop :=
  match ty, c with
  | Ty_Integer, Constant_Integer _ => True
  | Ty_ByteString, Constant_ByteString bs => bytes_ok bs
  | Ty_String, Constant_String s => bytes_ok s /\ utf8_valid s = true
  | Ty_Unit, Constant_Unit => True
  | Ty_Bool, Constant_Bool _ => True
  | Ty_List t, Constant_ProtoList t' items => t' = t /\ Forall (constant_ok t) items
  | Ty_Pair ta tb, Constant_ProtoPair ta' tb' a b =>
      ta' = ta /\ tb' = tb /\ constant_ok ta a /\ constant_ok tb b
  | Ty_Data, Constant_Data d =>
      data_ok d /\ depth d <= MAX_DECODE_DEPTH /\ byte_string (encoding d)
  | Ty_Bls12_381_G1_Element, Constant_Bls12_381_G1_Element e =>
      bytes_ok (g1_compress e) /\ g1_uncompress (g1_compress e) = inr e
  | Ty_Bls12_381_G2_Element, Constant_Bls12_381_G2_Element e =>
      bytes_ok (g2_compress e) /\ g2_uncompress (g2_compress e) = inr e
  | _, _ => False
  end.

Fixpoint ty_depth (ty : Ty) : nat :=
  match ty with
  | Ty_List elem => S (ty_depth elem)
  | Ty_Pair a b => S (Nat.max (ty_depth a) (ty_depth b))
  | _ => 1
  end.
Lemma ty_depth_uni ty : (ty_depth ty <= uni_depth ty)%nat.
Proof. induction ty; simpl; lia. Qed.

Lemma fdecodes_data d :
  data_ok d -> depth d <= MAX_DECODE_DEPTH -> byte_string (encoding d) ->
  fdecodes decode_plutus_data (enc_bytes (encoding d)) d.
Proof.
  intros Hok Hdep [Hb Hl]. eapply fdecodes_map; [by apply fdecodes_bytestring|].
  pose proof (decodes_plutus_data d Hok Hdep [] []) as Hd. rewrite app_nil_r in Hd.
  change (Decoder_new (encoding d)) with (at_ [] (encoding d)). by rewrite Hd.
Qed.

Lemma fdecodes_constant ty c depth :
  constant_ok ty c -> (ty_depth ty <= depth)%nat ->
  fdecodes (decode_constant_with_depth depth ty) (enc_constant ty c) c.
Proof.
  revert c depth. induction ty as [| | | | |t IH|ta IHa tb IHb| | | |]; intros c depth Hc Hd;
    (destruct depth as [|depth]; [simpl in Hd; lia|]);
    cbn [decode_constant_with_depth ty_depth] in *; destruct c; try done;
    cbn [constant_ok enc_constant] in *.
  - eapply fdecodes_map; [apply fdecodes_integer|done].
  - eapply fdecodes_map; [by apply fdecodes_bytestring|done].
  - destruct Hc as [Hb Hu]. eapply fdecodes_map; [|done].
    eapply fdecodes_map; [by apply fdecodes_bytestring|]. by rewrite Hu.
  - apply fdecodes_ret.
  - eapply fdecodes_map; [apply fdecodes_read_bit|done].
  - destruct Hc as [-> Hc]. eapply fdecodes_map; [|done]. apply fdecodes_list.
    induction Hc as [|x items Hx Hc IHc]; simpl; constructor; [|exact IHc]. apply IH; [done|lia].
  - destruct Hc as (-> & -> & Ha & Hb). eapply fdecodes_bind; [apply IHa; [done|lia]|].
    eapply fdecodes_map; [apply IHb; [done|lia]|done].
  - destruct Hc as (? & ? & ?). eapply fdecodes_map; [by apply fdecodes_data|done].
  - destruct Hc as [Hb He]. eapply fdecodes_map; [by apply fdecodes_bytestring|]. by rewrite He.
  - destruct Hc as [Hb He]. eapply fdecodes_map; [by apply fdecodes_bytestring|]. by rewrite He.
Qed.

(** ** Terms *)

Definition constant_ty (c : Constant) : Ty :=
  match c with
  | Constant_Integer _ => Ty_Integer
  | Constant_ByteString _ => Ty_ByteString
  | Constant_String _ => Ty_String
  | Constant_Unit => Ty_Unit
  | Constant_Bool _ => Ty_Bool
  | Constant_ProtoList ty _ => Ty_List ty
  | Constant_ProtoPair ta tb _ _ => Ty_Pair ta tb
  | Constant_Data _ => Ty_Data
  | Constant_Bls12_381_G1_Element _ => Ty_Bls12_381_G1_Element
  | Constant_Bls12_381_G2_Element _ => Ty_Bls12_381_G2_Element
  | Constant_Bls12_381_MlResult _ => Ty_Bls12_381_MlResult
  end.

Definition enc_tag (tag : Z) : Enc := ebits (nbits 4 tag).

Fixpoint enc_term (t : Term) : Enc :=
  match t with
  | Term_Var i => enc_tag 0 +++ enc_natural i
  | Term_Delay body => enc_tag 1 +++ enc_term body
  | Term_LamAbs body => enc_tag 2 +++ enc_term body
  | Term_Apply f a => enc_tag 3 +++ enc_term f +++ enc_term a
  | Term_Constant c =>
      enc_tag 4 +++ enc_type (constant_ty c) +++ enc_constant (constant_ty c) c
  | Term_Force inner => enc_tag 5 +++ enc_term inner
  | Term_Error => enc_tag 6
  | Term_Builtin f => enc_tag 7 +++ ebits (nbits 7 (DefaultFun_tag f))
  | Term_Constr tag ts => (enc_tag 8 +++ enc_natural tag) +++ enc_list (map enc_term ts)
  | Term_Case s bs => enc_tag 9 +++ enc_term s +++ enc_list (map enc_term bs)
  end.

(** Indices and constructor tags are [u64], constants are of their type. *)
Fixpoint term_ok (t : Term) : Prop :=
  match t with
  | Term_Var i => u64 i
  | Term_Delay body | Term_LamAbs body | Term_Force body => term_ok body
  | Term_Apply f a => term_ok f /\ term_ok a
  | Term_Constant c =>
      constant_ok (constant_ty c) c /\ (uni_depth (constant_ty c) <= MAX_TYPE_DECODE_DEPTH)%nat
  | Term_Error | Term_Builtin _ => True
  | Term_Constr tag ts => u64 tag /\ foldr (fun t P => term_ok t /\ P) True ts
  | Term_Case s bs => term_ok s /\ foldr (fun t P => term_ok t /\ P) True bs
  end.

(** From the stacks [s], the loop reads [e] and arrives at [s'], saving [c]
    turns of one per bit. *)
Definition moves (c : Z) (s : Stacks) (e : Enc) (s' : Stacks) : Prop :=
  forall bytes pre rest, bytes_ok bytes ->
    bits_of bytes = pre ++ e (length pre) ++ rest ->
    exists k, Z.of_nat k + c <= Z.of_nat (length (e (length pre)))
      /\ runs k (fbody term_body) (s, fat bytes (length pre))
           (s', fat bytes (length pre + length (e (length pre)))).

Lemma moves_weaken c c' s e s' : moves c s e s' -> c' <= c -> moves c' s e s'.
Proof.
  intros Hm Hc bytes pre rest Hb E. destruct (Hm bytes pre rest Hb E) as (k & Hk & Hr).
  exists k. split; [lia|done].
Qed.

Lemma moves_trans c1 c2 s1 s2 s3 e1 e2 :
  moves c1 s1 e1 s2 -> moves c2 s2 e2 s3 -> moves (c1 + c2) s1 (e1 +++ e2) s3.
Proof.
  intros H1 H2 bytes pre rest Hb E. unfold eapp in *. rewrite <- (assoc_L (++)) in E.
  destruct (H1 bytes pre _ Hb E) as (k1 & Hk1 & Hr1).
  rewrite (assoc_L (++)) in E. rewrite <- length_app in E.
  destruct (H2 bytes _ rest Hb E) as (k2 & Hk2 & Hr2).
  exists (k1 + k2)%nat. rewrite !length_app in *. split; [lia|].
  eapply runs_trans; [exact Hr1|]. by rewrite Nat.add_assoc.
Qed.

Lemma moves_step c s e s' :
  fdecodes (term_body s) e (inl s') -> (forall n, 1 + c <= Z.of_nat (length (e n))) ->
  moves c s e s'.
Proof.
  intros Hd He bytes pre rest Hb E. exists 1%nat. split; [specialize (He (length pre)); lia|].
  eapply runs_step; [|apply runs_refl]. unfold fbody. cbn [fst snd].
  by rewrite (Hd bytes pre rest Hb E).
Qed.

(** A step that reads nothing, after others. *)
Lemma moves_then c s1 s2 s3 e :
  moves c s1 e s2 -> (forall d, term_body s2 d = Ok (inl s3, d)) -> moves (c - 1) s1 e s3.
Proof.
  intros H1 H2 bytes pre rest Hb E. destruct (H1 bytes pre rest Hb E) as (k & Hk & Hr).
  exists (S k). split; [lia|]. eapply runs_snoc; [exact Hr|]. unfold fbody. cbn [fst snd].
  by rewrite H2.
Qed.

(** Reading a tag: alone, and with what follows it. *)
Lemma dispatch_moves tag work results s' :
  0 <= tag < 16 ->
  fdecodes (dispatch_term_tag work results) (enc_tag tag) s' ->
  moves 3 (ReadTerm :: work, results) (enc_tag tag) s'.
Proof.
  intros Ht Hd. apply moves_step; [|intros n; unfold enc_tag, ebits; rewrite length_nbits; lia].
  eapply fdecodes_map; [exact Hd|done].
Qed.

Lemma dispatch_moves_with tag work results e s' :
  fdecodes (dispatch_term_tag work results) (enc_tag tag +++ e) s' ->
  moves 3 (ReadTerm :: work, results) (enc_tag tag +++ e) s'.
Proof.
  intros Hd. apply moves_step.
  - eapply fdecodes_map; [exact Hd|done].
  - intros n. unfold eapp, enc_tag, ebits. rewrite length_app, length_nbits. lia.
Qed.

Lemma fdecodes_tag tag :
  0 <= tag < 16 -> fdecodes (read_bits8 4) (enc_tag tag) tag.
Proof. intros Ht. apply fdecodes_read_bits8; [auto|done]. Qed.

(** The term is read whatever the stacks are, and is pushed. *)
Definition term_reads (t : Term) : Prop :=
  forall work results, moves 0 (ReadTerm :: work, results) (enc_term t) (work, t :: results).

Lemma list_moves build work results ts items t :
  Forall term_reads ts -> build_list build (items ++ ts) = Ok t ->
  moves 0 (ReadListContinuation build (length results) :: work, rev items ++ results)
    (enc_list (map enc_term ts)) (work, t :: results).
Proof.
  intros Hts. revert items. induction Hts as [|t1 ts Ht1 Hts IH]; intros items Hb; simpl.
  - rewrite app_nil_r in Hb. apply moves_step; [|intros n; cbn; lia].
    eapply fdecodes_map; [apply fdecodes_read_bit|]. cbv iota.
    rewrite length_app, length_rev. rewrite (proj2 (Nat.ltb_ge _ _)) by lia. unfold split_off.
    rewrite length_app, length_rev. replace (length items + length results - length results)%nat
      with (length (rev items)) by (rewrite length_rev; lia).
    rewrite take_app_length, drop_app_length, rev_involutive. by rewrite Hb.
  - change 0 with ((0 + 0) + 0). eapply moves_trans; [eapply moves_trans|].
    + apply moves_step; [|intros n; cbn; lia].
      eapply fdecodes_map; [apply (fdecodes_read_bit true)|]. reflexivity.
    + apply Ht1.
    + specialize (IH (items ++ [t1])). rewrite rev_unit, <- (assoc_L (++)) in IH. by apply IH.
Qed.

Ltac read_tag := eapply fdecodes_map; [by apply fdecodes_tag|reflexivity].

Lemma wrap1_reads tag op body :
  (forall work results, moves 3 (ReadTerm :: work, results) (enc_tag tag)
                          (ReadTerm :: Wrap1 op :: work, results)) ->
  term_reads body ->
  forall work results, moves 0 (ReadTerm :: work, results) (enc_tag tag +++ enc_term body)
                         (work, wrap1 op body :: results).
Proof.
  intros Ht Hb work results. apply (moves_weaken (3 + 0 - 1)); [|lia].
  eapply moves_then; [eapply moves_trans; [apply Ht|apply Hb]|]. done.
Qed.

Lemma enc_term_reads t : term_ok t -> term_reads t.
Proof.
  assert (Hall : forall ts, Forall (fun t => term_ok t -> term_reads t) ts ->
    foldr (fun t P => term_ok t /\ P) True ts -> Forall term_reads ts).
  { intros ts Hts. induction Hts; simpl; [done|]. intros [? ?]. constructor; auto. }
  induction t as [i|body IH|f a IHf IHa|body IH|inner IH|c|f| |tag ts IH|s bs IHs IH]
    using Term_nested_ind; cbn [term_ok enc_term]; intros Hok work results.
  - apply (moves_weaken 3); [|lia]. apply dispatch_moves_with.
    eapply fdecodes_bind; [by apply fdecodes_tag|]. cbv iota.
    eapply fdecodes_map; [by apply fdecodes_natural|reflexivity].
  - apply (wrap1_reads 2 Wrap_LamAbs); [|by apply IH]. intros w r.
    apply dispatch_moves; [done|]. read_tag.
  - destruct Hok as [Hf Ha]. apply (moves_weaken (3 + (0 + 0) - 1)); [|lia].
    eapply moves_then; [eapply moves_trans; [apply dispatch_moves; [done|]; read_tag|]|].
    + eapply moves_trans; [by apply IHf|by apply IHa].
    + done.
  - apply (wrap1_reads 1 Wrap_Delay); [|by apply IH]. intros w r.
    apply dispatch_moves; [done|]. read_tag.
  - apply (wrap1_reads 5 Wrap_Force); [|by apply IH]. intros w r.
    apply dispatch_moves; [done|]. read_tag.
  - destruct Hok as [Hc Hd]. apply (moves_weaken 3); [|lia]. apply dispatch_moves_with.
    eapply fdecodes_bind; [by apply fdecodes_tag|]. cbv iota.
    eapply fdecodes_bind; [by apply fdecodes_type|].
    eapply fdecodes_map; [apply fdecodes_constant; [done|]|reflexivity].
    pose proof (ty_depth_uni (constant_ty c)). lia.
  - apply (moves_weaken 3); [|lia]. apply dispatch_moves_with.
    eapply fdecodes_bind; [by apply fdecodes_tag|]. cbv iota.
    eapply fdecodes_map.
    + apply fdecodes_read_bits8; [auto|]. by destruct f.
    + by destruct f.
  - apply (moves_weaken 3); [|lia]. apply dispatch_moves; [done|]. read_tag.
  - destruct Hok as [Ht Hts]. apply (moves_weaken (3 + 0)); [|lia]. eapply moves_trans.
    + apply dispatch_moves_with. eapply fdecodes_bind; [by apply fdecodes_tag|]. cbv iota.
      eapply fdecodes_map; [by apply fdecodes_natural|reflexivity].
    + apply (list_moves (Build_Constr tag) work results ts []); [by apply Hall|done].
  - destruct Hok as [Hs Hbs]. apply (moves_weaken (3 + (0 + 0))); [|lia]. eapply moves_trans.
    + apply dispatch_moves; [done|]. read_tag.
    + eapply moves_trans; [by apply IHs|].
      apply (list_moves Build_Case work results bs [s]); [by apply Hall|done].
Qed.

(** ** Programs *)

Definition enc_program (p : UplcProgram) : Enc :=
  enc_natural (major p) +++ enc_natural (minor p) +++ enc_natural (patch p) +++ enc_term (term p).

Lemma fdecodes_term t : term_ok t -> fdecodes decode_term (enc_term t) t.
Proof.
  intros Hok bytes pre rest Hb E. unfold decode_term. rewrite floop_fbody.
  destruct (enc_term_reads t Hok [] [] bytes pre rest Hb E) as (k & Hk & Hr).
  eapply runs_returns; [exact Hr|done|]. unfold flat_fuel. cbn [fl_bytes fat].
  apply (f_equal length) in E. rewrite length_bits_of, !length_app in E. lia.
Qed.

Definition program_ok (p : UplcProgram) : Prop :=
  u32 (major p) /\ u32 (minor p) /\ u32 (patch p) /\ term_ok (term p)
  /\ scoped 0 (term p) = true.

Lemma fdecodes_program p : program_ok p -> fdecodes decode_program (enc_program p) p.
Proof.
  intros (Hma & Hmi & Hpa & Ht & _).
  assert (Hu : forall v, u32 v -> u64 v) by (unfold u32, u64, U32_MAX, U64_MAX; intros; lia).
  do 3 (eapply fdecodes_bind; [by apply fdecodes_natural, Hu|]).
  eapply fdecodes_map; [by apply fdecodes_term|]. rewrite !wrap32_id by done. by destruct p.
Qed.

(** The validator accepts every term in scope. *)
Definition accepted (t : Term) : Prop :=
  forall m, 0 <= m -> term_ok t -> scoped m t = true ->
    validate_term_closed t (Z.min m U64_MAX) = Ok tt.

Lemma accepted_all ts m :
  Forall accepted ts -> 0 <= m -> foldr (fun t P => term_ok t /\ P) True ts ->
  forallb (scoped m) ts = true -> validate_all (Z.min m U64_MAX) ts = Ok tt.
Proof.
  intros Hts Hm. induction Hts as [|t ts Ht Hts IH]; [done|]. cbn [foldr forallb].
  intros [Hok Hoks] Hs. apply andb_true_iff in Hs as [Hs Hss]. cbn [validate_all foldr].
  rewrite Ht by done. by apply IH.
Qed.

Lemma scoped_accepted t : accepted t.
Proof.
  induction t as [i|body IH|f a IHf IHa|body IH|inner IH|c|f| |tag ts IH|s bs IHs IH]
    using Term_nested_ind; intros m Hm Hok Hs; try done.
  - cbn [term_ok scoped validate_term_closed] in *. apply andb_true_iff in Hs as [H1 H2]. zbool.
    unfold u64 in Hok. rewrite (proj2 (Z.eqb_neq i 0)), (proj2 (Z.ltb_ge _ i)) by lia. done.
  - cbn [term_ok scoped validate_term_closed] in *.
    replace (sat_add (Z.min m U64_MAX) 1) with (Z.min (m + 1) U64_MAX)
      by (unfold sat_add, U64_MAX in *; lia).
    apply IH; [lia|done|done].
  - cbn [term_ok scoped validate_term_closed] in *. destruct Hok.
    apply andb_true_iff in Hs as [? ?]. rewrite IHf by done. by apply IHa.
  - by apply IH.
  - by apply IH.
  - destruct Hok. rewrite validate_constr. by apply accepted_all.
  - destruct Hok. cbn [scoped] in Hs. apply andb_true_iff in Hs as [? ?].
    rewrite validate_case, IHs by done. by apply accepted_all.
Qed.

Lemma decode_flat_program_reads p bytes rest :
  program_ok p -> bytes_ok bytes -> bits_of bytes = enc_program p 0%nat ++ rest ->
  decode_flat_program bytes = Ok p.
Proof.
  intros Hok Hb E. unfold decode_flat_program.
  pose proof (fdecodes_program p Hok bytes [] rest Hb E) as Hd.
  change (fat bytes (length [])) with (FlatDecoder_new bytes) in Hd. rewrite Hd. cbn [obind].
  destruct Hok as (_ & _ & _ & Ht & Hs).
  pose proof (scoped_accepted (term p) 0 ltac:(lia) Ht Hs) as Hv.
  change (Z.min 0 U64_MAX) with 0 in Hv. by rewrite Hv.
Qed.

(** ** Packing bits into bytes *)

Fixpoint pack (n : nat) (l : list bool) : list Z :=
  match n with
  | O => []
  | S n => bits_value (take 8 l) 0 :: pack n (drop 8 l)
  end.

(** A whole program, padded to a byte boundary. *)
Definition flat_encode (p : UplcProgram) : list Z :=
  let l := (enc_program p +++ efiller) 0%nat in pack (length l / 8) l.

Lemma nbits_bits_value l :
  length l = 8%nat -> nbits 8 (bits_value l 0) = l /\ u8 (bits_value l 0).
Proof.
  intros Hl. destruct l as [|b0 [|b1 [|b2 [|b3 [|b4 [|b5 [|b6 [|b7 [|? ?]]]]]]]]]; try done.
  clear Hl. by destruct b0, b1, b2, b3, b4, b5, b6, b7.
Qed.

Lemma pack_spec n l : length l = (8 * n)%nat -> bits_of (pack n l) = l /\ bytes_ok (pack n l).
Proof.
  revert l. induction n as [|n IH]; intros l Hl.
  - destruct l; [|done]. split; [done|constructor].
  - cbn [pack]. rewrite bits_of_cons. destruct (nbits_bits_value (take 8 l)) as [Hn Hu].
    { rewrite length_take. lia. }
    destruct (IH (drop 8 l)) as [E Hb]; [rewrite length_drop; lia|].
    rewrite Hn, E. split; [apply take_drop|by constructor].
Qed.

Lemma flat_encode_spec p :
  bits_of (flat_encode p) = enc_program p 0%nat ++ efiller (length (enc_program p 0%nat))
  /\ bytes_ok (flat_encode p).
Proof.
  unfold flat_encode, eapp. cbn [Nat.add]. set (l := enc_program p 0%nat).
  apply pack_spec. unfold efiller. rewrite !length_app, repeat_length. cbn [length].
  pose proof (Nat.div_mod_eq (length l) 8).
  pose proof (Nat.mod_upper_bound (length l) 8 ltac:(lia)).
  replace (length l + (7 - length l mod 8 + 1))%nat with ((length l / 8 + 1) * 8)%nat by lia.
  rewrite Nat.div_mul by lia. lia.
Qed.

(** C19: scripts are read back: the decoder recovers every program of
    [program_ok] from its Flat encoding in a CBOR byte string; bytes after the
    script are refused by the strict entry point (PlutusV3) and ignored by the
    other one (PlutusV1 and PlutusV2). Such a program is closed, its version
    numbers, tags and variables have machine width, its constants have the
    type they are written with, nested at most 512 deep, and its Plutus data
    constants are at most 256 deep; the depth of its term is not bounded. *)
Theorem flat_script_round_trip p suffix :
  program_ok p ->
  zlength (Encoder_bytes (flat_encode p) ++ suffix) <= ISIZE_MAX ->
  decode_script_bytes_allowing_remainder (Encoder_bytes (flat_encode p) ++ suffix) = Ok p
  /\ decode_script_bytes (Encoder_bytes (flat_encode p) ++ suffix)
     = match suffix with
       | [] => Ok p
       | _ => Err (FlatDecodeError "trailing bytes after PlutusBinary script"%string)
       end.
Proof.
  intros Hok Hlen. destruct (flat_encode_spec p) as [Hbits Hb].
  pose proof (decodes_bytes_owned (flat_encode p) [] suffix Hlen) as Hd.
  change (at_ [] ?l) with (Decoder_new l) in Hd.
  unfold decode_script_bytes_allowing_remainder, decode_script_bytes,
    decode_script_bytes_with_remainder_policy.
  rewrite Hd. cbn [map_err obind negb andb].
  rewrite (decode_flat_program_reads p _ _ Hok Hb Hbits). split; [done|].
  unfold Decoder_is_empty, at_. cbn [data pos app]. rewrite zlength_app.
  destruct suffix as [|x suffix].
  - by rewrite zlength_nil, Z.add_0_r, Z.leb_refl.
  - rewrite zlength_cons. pose proof (zlength_nonneg suffix).
    by rewrite (proj2 (Z.leb_gt _ _)) by lia.
Qed.

(** A natural that does not fit in 64 bits is not refused: up to ten groups
    the decoder returns it modulo [2^64], because [checked_shl] only checks
    the distance of the shift. A variable with index [2^64 + 1] is read as the
    variable with index 1. *)
Theorem read_natural_truncates v bytes rest :
  2 ^ 64 <= v < 2 ^ 70 -> bytes_ok bytes -> bits_of bytes = enc_natural v 0%nat ++ rest ->
  exists d, read_natural (FlatDecoder_new bytes) = Ok (v mod 2 ^ 64, d).
Proof.
  intros Hv Hb E. pose proof (fdecodes_natural_wrap v ltac:(lia) bytes [] rest Hb E) as Hd.
  eexists. exact Hd.
Qed.
End terms.

#[local] Existing Instance trivial_crypto.

(** [program 1.1.0 (\x. case (constr 2 [x]) [force (delay #aabb)]) 5] *)
Definition sample_program : UplcProgram :=
  mkProgram 1 1 0
    (Term_Apply
       (Term_LamAbs
          (Term_Case (Term_Constr 2 [Term_Var 1])
             [Term_Force (Term_Delay (Term_Constant (Constant_ByteString [170; 187])))]))
       (Term_Constant (Constant_Integer 5))).

Lemma flat_script_round_trip_witness :
  program_ok sample_program
  /\ decode_script_bytes_allowing_remainder (Encoder_bytes (flat_encode sample_program) ++ [0])
     = Ok sample_program
  /\ decode_script_bytes (Encoder_bytes (flat_encode sample_program) ++ [0])
     = Err (FlatDecodeError "trailing bytes after PlutusBinary script"%string).
Proof.
  assert (Hok : program_ok sample_program).
  { unfold program_ok, u32, U32_MAX. simpl. unfold u64, U64_MAX, bytes_ok, u8, U8_MAX.
    unfold MAX_TYPE_DECODE_DEPTH, MAX_TERM_DECODE_DEPTH. split_and!; try lia; try done.
    repeat (constructor; [lia|]). constructor. }
  split; [exact Hok|].
  apply (flat_script_round_trip sample_program [0] Hok). by vm_compute.
Defined.

Lemma read_natural_truncates_witness :
  exists d, read_natural (FlatDecoder_new [129; 128; 128; 128; 128; 128; 128; 128; 128; 2])
            = Ok ((2 ^ 64 + 1) mod 2 ^ 64, d).
Proof.
  apply (read_natural_truncates (2 ^ 64 + 1) _ []).
  - lia.
  - unfold bytes_ok, u8, U8_MAX. repeat (constructor; [lia|]). constructor.
  - by vm_compute.
Defined.
