(* ===== verification/ScriptContext.v ===== *)
(** * Script contexts

    What a Plutus script is told about the transaction that runs it. Model of
    the context builders of [crates/node/plutus-eval/src/lib.rs], with the types
    they read: [TxContext], [ScriptPurpose] and [PlutusScriptEval] of
    [crates/ledger/src/plutus_validation.rs], the governance types of
    [eras/conway.rs], the outputs of [utxo.rs] and [eras/], and [Script] of
    [plutus.rs]. A [BTreeMap] is its list of bindings in key order; the
    [HashMap] of witness datums is a list of bindings in the order its
    iterator happens to produce. *)

From S2P Require Import Prelude Cbor CborFacts Types ProtocolParams NativeScript PlutusData Uplc CostModel.
From S2P Require Import GenesisCosts Builtins.
Local Open Scope string_scope.
Local Open Scope Z_scope.

(** ** Governance *)

Inductive Vote := Vote_No | Vote_Yes | Vote_Abstain.

Inductive Voter :=
  | Voter_CommitteeKeyHash (h : list Z)
  | Voter_CommitteeScript (h : list Z)
  | Voter_DRepKeyHash (h : list Z)
  | Voter_DRepScript (h : list Z)
  | Voter_StakePool (h : list Z).

Record GovActionId := mkGovActionId { ga_transaction_id : list Z; ga_index : Z }.

Record Constitution := mkConstitution {
  co_anchor : Anchor;
  co_guardrails_script_hash : option (list Z) }.

Record VotingProcedure := mkVotingProcedure { vp_vote : Vote; vp_anchor : option Anchor }.
Definition VotingProcedures : Type := list (Voter * list (GovActionId * VotingProcedure)).

(** ** Outputs *)

Definition PolicyAssets : Type := list (list Z * list (list Z * Z)).
Inductive MaryValue :=
  | Value_Coin (coin : Z)
  | Value_CoinAndAssets (coin : Z) (assets : PolicyAssets).
Definition value_coin (v : MaryValue) : Z :=
  match v with Value_Coin c | Value_CoinAndAssets c _ => c end.
Definition value_multi_asset (v : MaryValue) : option PolicyAssets :=
  match v with Value_Coin _ => None | Value_CoinAndAssets _ ma => Some ma end.

Inductive Script :=
  | Script_Native (s : NativeScript)
  | Script_PlutusV1 (bytes : list Z)
  | Script_PlutusV2 (bytes : list Z)
  | Script_PlutusV3 (bytes : list Z).

Inductive DatumOption :=
  | Datum_Hash (h : list Z)
  | Datum_Inline (d : PlutusData).

Inductive MultiEraTxOut :=
  | Out_Shelley (address : list Z) (amount : Z)
  | Out_Mary (address : list Z) (amount : MaryValue)
  | Out_Alonzo (address : list Z) (amount : MaryValue) (datum_hash : option (list Z))
  | Out_Babbage (address : list Z) (amount : MaryValue) (datum_option : option DatumOption)
      (script_ref : option Script).

(** ** Hashes *)

Definition language_tag (v : PlutusVersion) : Z :=
  match v with PlutusV1 => 1 | PlutusV2 => 2 | PlutusV3 => 3 end.

Section context.
  Context `{PlutusCrypto}.

Definition plutus_script_hash (version : PlutusVersion) (script_bytes : list Z) : list Z :=
  hash_bytes_224 (language_tag version :: script_bytes).

(** [script.to_cbor_bytes()] is [script_encoding]: lemma [encode_script_encoding]. *)
Definition native_script_hash (s : NativeScript) : list Z :=
  hash_bytes_224 (0 :: script_encoding s).

Definition script_hash_from_ref (s : Script) : list Z :=
  match s with
  | Script_Native s => native_script_hash s
  | Script_PlutusV1 bytes => plutus_script_hash PlutusV1 bytes
  | Script_PlutusV2 bytes => plutus_script_hash PlutusV2 bytes
  | Script_PlutusV3 bytes => plutus_script_hash PlutusV3 bytes
  end.

(** ** Transactions *)

Inductive GovAction :=
  | ParameterChange (prev_action_id : option GovActionId) (update : ProtocolParameterUpdate)
      (guardrails_script_hash : option (list Z))
  | HardForkInitiation (prev_action_id : option GovActionId) (protocol_version : Z * Z)
  | TreasuryWithdrawals (withdrawals : list (RewardAccount * Z))
      (guardrails_script_hash : option (list Z))
  | NoConfidence (prev_action_id : option GovActionId)
  | UpdateCommittee (prev_action_id : option GovActionId) (members_to_remove : list StakeCredential)
      (members_to_add : list (StakeCredential * Z)) (quorum : UnitInterval)
  | NewConstitution (prev_action_id : option GovActionId) (constitution : Constitution)
  | InfoAction.

Record ProposalProcedure := mkProposal {
  pp_deposit : Z;
  pp_reward_account : list Z;
  pp_gov_action : GovAction;
  pp_anchor : Anchor }.

Inductive ScriptPurpose :=
  | Purpose_Spending (tx_id : list Z) (index : Z)
  | Purpose_Minting (policy_id : list Z)
  | Purpose_Certifying (cert_index : Z) (certificate : DCert)
  | Purpose_Rewarding (reward_account : RewardAccount)
  | Purpose_Voting (voter : Voter)
  | Purpose_Proposing (proposal_index : Z) (proposal : ProposalProcedure).

Record TxContext := mkTxContext {
  tx_hash : list Z;
  tx_fee : Z;
  tx_outputs : list MultiEraTxOut;
  tx_validity_start : option Z;
  tx_ttl : option Z;
  tx_required_signers : list (list Z);
  tx_mint : PolicyAssets;
  tx_withdrawals : list (RewardAccount * Z);
  tx_reference_inputs : list ShelleyTxIn;
  tx_current_treasury_value : option Z;
  tx_treasury_donation : option Z;
  tx_inputs : list (ShelleyTxIn * MultiEraTxOut);
  tx_certificates : list DCert;
  tx_witness_datums : list (list Z * PlutusData);
  tx_resolved_reference_inputs : list (ShelleyTxIn * MultiEraTxOut);
  tx_redeemers : list (ScriptPurpose * PlutusData);
  tx_voting_procedures : option VotingProcedures;
  tx_proposal_procedures : list ProposalProcedure;
  tx_protocol_version : option (Z * Z) }.

(** The variants of [LedgerError] that evaluation returns. Texts that are
    printed errors are the errors. *)
Inductive FailReason :=
  | Reason_CostModel (e : GenesisCostModelError)
  | Reason_Machine (e : MachineError)
  | Reason_NotTrue.
Inductive EvalError :=
  | PlutusScriptDecodeError (hash : list Z)
  | PlutusScriptFailed (hash : list Z) (reason : FailReason)
  | UnsupportedPlutusPurpose (message : string)
  | UnsupportedPlutusContext (message : string)
  | UnsupportedCertificate (message : string)
  | MalformedProposal (action : GovAction).

(** ** Small builders *)

Definition bool_data (value : bool) : PlutusData := Data_Constr (if value then 1 else 0) [].

Definition maybe_data (d : option PlutusData) : PlutusData :=
  match d with Some d => Data_Constr 0 [d] | None => Data_Constr 1 [] end.

Definition credential_data (c : StakeCredential) : PlutusData :=
  match c with
  | AddrKeyHash h => Data_Constr 0 [Data_Bytes h]
  | ScriptHash h => Data_Constr 1 [Data_Bytes h]
  end.
Definition staking_credential_data (c : StakeCredential) : PlutusData :=
  Data_Constr 0 [credential_data c].
Definition drep_credential_data (c : StakeCredential) : PlutusData :=
  Data_Constr 0 [credential_data c].
Definition committee_credential_data (c : StakeCredential) : PlutusData :=
  Data_Constr 0 [credential_data c].

Definition tx_id_data (version : PlutusVersion) (tx_id : list Z) : PlutusData :=
  match version with
  | PlutusV1 | PlutusV2 => Data_Constr 0 [Data_Bytes tx_id]
  | PlutusV3 => Data_Bytes tx_id
  end.
Definition tx_out_ref_data (version : PlutusVersion) (tx_id : list Z) (index : Z) : PlutusData :=
  Data_Constr 0 [tx_id_data version tx_id; Data_Integer index].

Definition maybe_lovelace (value : option Z) : PlutusData :=
  match value with Some v => Data_Constr 0 [Data_Integer v] | None => Data_Constr 1 [] end.
Definition maybe_script_hash_data (h : option (list Z)) : PlutusData :=
  match h with Some h => Data_Constr 0 [Data_Bytes h] | None => Data_Constr 1 [] end.

Definition drep_data (d : DRep) : PlutusData :=
  match d with
  | DRepKeyHash h => Data_Constr 0 [drep_credential_data (AddrKeyHash h)]
  | DRepScriptHash h => Data_Constr 0 [drep_credential_data (ScriptHash h)]
  | AlwaysAbstain => Data_Constr 1 []
  | AlwaysNoConfidence => Data_Constr 2 []
  end.
Definition delegatee_stake_data (pool : list Z) : PlutusData := Data_Constr 0 [Data_Bytes pool].
Definition delegatee_vote_data (d : DRep) : PlutusData := Data_Constr 1 [drep_data d].
Definition delegatee_stake_vote_data (pool : list Z) (d : DRep) : PlutusData :=
  Data_Constr 2 [Data_Bytes pool; drep_data d].

Definition unit_interval_data (u : UnitInterval) : PlutusData :=
  Data_List [Data_Integer (numerator u); Data_Integer (denominator u)].
Definition constitution_data_v3 (c : Constitution) : PlutusData :=
  Data_Constr 0 [maybe_script_hash_data (co_guardrails_script_hash c)].
Definition protocol_version_data (pv : Z * Z) : PlutusData :=
  Data_Constr 0 [Data_Integer pv.1; Data_Integer pv.2].
Definition vote_data_v3 (v : Vote) : PlutusData :=
  match v with
  | Vote_No => Data_Constr 0 []
  | Vote_Yes => Data_Constr 1 []
  | Vote_Abstain => Data_Constr 2 []
  end.
Definition gov_action_id_data (id : GovActionId) : PlutusData :=
  Data_Constr 0 [Data_Bytes (ga_transaction_id id); Data_Integer (ga_index id)].
Definition maybe_gov_action_id_data (id : option GovActionId) : PlutusData :=
  match id with Some id => Data_Constr 0 [gov_action_id_data id] | None => Data_Constr 1 [] end.

Definition voter_data_v3 (v : Voter) : PlutusData :=
  match v with
  | Voter_CommitteeKeyHash h => Data_Constr 0 [committee_credential_data (AddrKeyHash h)]
  | Voter_CommitteeScript h => Data_Constr 0 [committee_credential_data (ScriptHash h)]
  | Voter_DRepKeyHash h => Data_Constr 1 [drep_credential_data (AddrKeyHash h)]
  | Voter_DRepScript h => Data_Constr 1 [drep_credential_data (ScriptHash h)]
  | Voter_StakePool h => Data_Constr 2 [Data_Bytes h]
  end.

Definition gov_action_data_v3 (a : GovAction) : PlutusData :=
  match a with
  | ParameterChange prev update guardrails =>
      Data_Constr 0 [maybe_gov_action_id_data prev; Data_Bytes (ProtocolParameterUpdate_encode update);
                     maybe_script_hash_data guardrails]
  | HardForkInitiation prev pv =>
      Data_Constr 1 [maybe_gov_action_id_data prev; protocol_version_data pv]
  | TreasuryWithdrawals withdrawals guardrails =>
      Data_Constr 2
        [Data_Map (map (fun w => (credential_data (ra_credential w.1), Data_Integer w.2)) withdrawals);
         maybe_script_hash_data guardrails]
  | NoConfidence prev => Data_Constr 3 [maybe_gov_action_id_data prev]
  | UpdateCommittee prev remove add quorum =>
      Data_Constr 4
        [maybe_gov_action_id_data prev; Data_List (map committee_credential_data remove);
         Data_Map (map (fun m => (committee_credential_data m.1, Data_Integer m.2)) add);
         unit_interval_data quorum]
  | NewConstitution prev constitution =>
      Data_Constr 5 [maybe_gov_action_id_data prev; constitution_data_v3 constitution]
  | InfoAction => Data_Constr 6 []
  end.

Definition proposal_procedure_data_v3 (p : ProposalProcedure) : outcome EvalError PlutusData :=
  let? account := ok_or (RewardAccount_from_bytes (pp_reward_account p))
                    (MalformedProposal (pp_gov_action p)) in
  Ok (Data_Constr 0 [Data_Integer (pp_deposit p); credential_data (ra_credential account);
                     gov_action_data_v3 (pp_gov_action p)]).

(** ** Certificates *)

Definition legacy_dcert_data (c : DCert) : outcome EvalError PlutusData :=
  match c with
  | AccountRegistration cred | AccountRegistrationDeposit cred _ =>
      Ok (Data_Constr 0 [staking_credential_data cred])
  | AccountUnregistration cred | AccountUnregistrationDeposit cred _ =>
      Ok (Data_Constr 1 [staking_credential_data cred])
  | DelegationToStakePool cred pool =>
      Ok (Data_Constr 2 [staking_credential_data cred; Data_Bytes pool])
  | PoolRegistration params =>
      Ok (Data_Constr 3 [Data_Bytes (operator params); Data_Bytes (vrf_keyhash params)])
  | PoolRetirement pool epoch => Ok (Data_Constr 4 [Data_Bytes pool; Data_Integer epoch])
  | GenesisDelegation _ _ _ => Ok (Data_Constr 5 [])
  | DelegationToDrep _ _ | DelegationToStakePoolAndDrep _ _ _
  | AccountRegistrationDelegationToStakePool _ _ _ | AccountRegistrationDelegationToDrep _ _ _
  | AccountRegistrationDelegationToStakePoolAndDrep _ _ _ _ | CommitteeAuthorization _ _
  | CommitteeResignation _ _ | DrepRegistration _ _ _ | DrepUnregistration _ _ | DrepUpdate _ _ =>
      Err (UnsupportedCertificate "Certificate has no Plutus V1/V2 DCert encoding")
  | MoveInstantaneousReward _ _ =>
      Err (UnsupportedCertificate "MoveInstantaneousReward has no Plutus V1/V2 DCert encoding")
  end.

Definition certifying_purpose_data (c : DCert) : outcome EvalError PlutusData :=
  let? d := legacy_dcert_data c in Ok (Data_Constr 3 [d]).

Definition is_conway_bootstrap_phase (pv : option (Z * Z)) : bool :=
  match pv with Some (major, _) => major =? 9 | None => false end.

Definition tx_cert_data_v3 (c : DCert) (pv : option (Z * Z)) : outcome EvalError PlutusData :=
  let bootstrap := is_conway_bootstrap_phase pv in
  match c with
  | AccountRegistration cred => Ok (Data_Constr 0 [credential_data cred; maybe_lovelace None])
  | AccountUnregistration cred => Ok (Data_Constr 1 [credential_data cred; maybe_lovelace None])
  | DelegationToStakePool cred pool =>
      Ok (Data_Constr 2 [credential_data cred; delegatee_stake_data pool])
  | AccountRegistrationDeposit cred deposit =>
      Ok (Data_Constr 0 [credential_data cred;
                         maybe_lovelace (if bootstrap then None else Some deposit)])
  | AccountUnregistrationDeposit cred refund =>
      Ok (Data_Constr 1 [credential_data cred;
                         maybe_lovelace (if bootstrap then None else Some refund)])
  | DelegationToDrep cred drep =>
      Ok (Data_Constr 2 [credential_data cred; delegatee_vote_data drep])
  | DelegationToStakePoolAndDrep cred pool drep =>
      Ok (Data_Constr 2 [credential_data cred; delegatee_stake_vote_data pool drep])
  | AccountRegistrationDelegationToStakePool cred pool deposit =>
      Ok (Data_Constr 3 [credential_data cred; delegatee_stake_data pool; Data_Integer deposit])
  | AccountRegistrationDelegationToDrep cred drep deposit =>
      Ok (Data_Constr 3 [credential_data cred; delegatee_vote_data drep; Data_Integer deposit])
  | AccountRegistrationDelegationToStakePoolAndDrep cred pool drep deposit =>
      Ok (Data_Constr 3 [credential_data cred; delegatee_stake_vote_data pool drep;
                         Data_Integer deposit])
  | DrepRegistration cred deposit _ =>
      Ok (Data_Constr 4 [drep_credential_data cred; Data_Integer deposit])
  | DrepUpdate cred _ => Ok (Data_Constr 5 [drep_credential_data cred])
  | DrepUnregistration cred refund =>
      Ok (Data_Constr 6 [drep_credential_data cred; Data_Integer refund])
  | PoolRegistration params =>
      Ok (Data_Constr 7 [Data_Bytes (operator params); Data_Bytes (vrf_keyhash params)])
  | PoolRetirement pool epoch => Ok (Data_Constr 8 [Data_Bytes pool; Data_Integer epoch])
  | CommitteeAuthorization cold hot =>
      Ok (Data_Constr 9 [committee_credential_data cold; committee_credential_data hot])
  | CommitteeResignation cold _ => Ok (Data_Constr 10 [committee_credential_data cold])
  | GenesisDelegation _ _ _ =>
      Err (UnsupportedCertificate "GenesisDelegation has no Plutus V3 TxCert encoding")
  | MoveInstantaneousReward _ _ =>
      Err (UnsupportedCertificate "MoveInstantaneousReward has no Plutus V3 TxCert encoding")
  end.

(** ** Purposes *)

Definition script_purpose_data_v1v2 (version : PlutusVersion) (purpose : ScriptPurpose)
    : outcome EvalError PlutusData :=
  match purpose with
  | Purpose_Minting policy_id => Ok (Data_Constr 0 [Data_Bytes policy_id])
  | Purpose_Spending tx_id index => Ok (Data_Constr 1 [tx_out_ref_data version tx_id index])
  | Purpose_Rewarding account =>
      Ok (Data_Constr 2 [staking_credential_data (ra_credential account)])
  | Purpose_Certifying _ certificate => certifying_purpose_data certificate
  | Purpose_Voting _ =>
      Err (UnsupportedPlutusPurpose "Voting purposes require Plutus V3 ScriptContext encoding")
  | Purpose_Proposing _ _ =>
      Err (UnsupportedPlutusPurpose "Proposing purposes require Plutus V3 ScriptContext encoding")
  end.

Definition script_purpose_data_v3 (purpose : ScriptPurpose) (pv : option (Z * Z))
    : outcome EvalError PlutusData :=
  match purpose with
  | Purpose_Minting policy_id => Ok (Data_Constr 0 [Data_Bytes policy_id])
  | Purpose_Spending tx_id index => Ok (Data_Constr 1 [tx_out_ref_data PlutusV3 tx_id index])
  | Purpose_Rewarding account => Ok (Data_Constr 2 [credential_data (ra_credential account)])
  | Purpose_Certifying cert_index certificate =>
      let? d := tx_cert_data_v3 certificate pv in Ok (Data_Constr 3 [Data_Integer cert_index; d])
  | Purpose_Voting voter => Ok (Data_Constr 4 [voter_data_v3 voter])
  | Purpose_Proposing proposal_index proposal =>
      let? d := proposal_procedure_data_v3 proposal in
      Ok (Data_Constr 5 [Data_Integer proposal_index; d])
  end.

Definition script_info_data_v3 (purpose : ScriptPurpose) (datum : option PlutusData)
    (pv : option (Z * Z)) : outcome EvalError PlutusData :=
  match purpose with
  | Purpose_Minting policy_id => Ok (Data_Constr 0 [Data_Bytes policy_id])
  | Purpose_Spending tx_id index =>
      Ok (Data_Constr 1 [tx_out_ref_data PlutusV3 tx_id index; maybe_data datum])
  | Purpose_Rewarding account => Ok (Data_Constr 2 [credential_data (ra_credential account)])
  | Purpose_Certifying cert_index certificate =>
      let? d := tx_cert_data_v3 certificate pv in Ok (Data_Constr 3 [Data_Integer cert_index; d])
  | Purpose_Voting voter => Ok (Data_Constr 4 [voter_data_v3 voter])
  | Purpose_Proposing proposal_index proposal =>
      let? d := proposal_procedure_data_v3 proposal in
      Ok (Data_Constr 5 [Data_Integer proposal_index; d])
  end.

(** ** Addresses, values, outputs *)

Definition pointer_staking_credential_data (p : PointerAddress) : PlutusData :=
  Data_Constr 1 [Data_Integer (pa_slot p); Data_Integer (pa_tx_index p);
                 Data_Integer (pa_cert_index p)].

Definition plutus_address_data (address_bytes : list Z) : option PlutusData :=
  match Address_from_bytes address_bytes with
  | None => None
  | Some (Base base) =>
      Some (Data_Constr 0 [credential_data (ba_payment base);
                           maybe_data (Some (staking_credential_data (ba_staking base)))])
  | Some (Enterprise e) => Some (Data_Constr 0 [credential_data (ea_payment e); maybe_data None])
  | Some (Pointer p) =>
      Some (Data_Constr 0 [credential_data (pa_payment p);
                           maybe_data (Some (pointer_staking_credential_data p))])
  | Some (Reward _) | Some (Byron _) => None
  end.

Definition assets_data (assets : PolicyAssets) : list (PlutusData * PlutusData) :=
  map (fun p => (Data_Bytes p.1,
                 Data_Map (map (fun a => (Data_Bytes a.1, Data_Integer a.2)) p.2))) assets.
Definition ada_entry (coin : Z) : PlutusData * PlutusData :=
  (Data_Bytes [], Data_Map [(Data_Bytes [], Data_Integer coin)]).

Definition plutus_value_data (v : MaryValue) : PlutusData :=
  Data_Map (ada_entry (value_coin v)
            :: match value_multi_asset v with Some ma => assets_data ma | None => [] end).

Definition datum_hash_data (h : option (list Z)) : PlutusData :=
  match h with Some h => Data_Constr 0 [Data_Bytes h] | None => Data_Constr 1 [] end.

Definition plutus_output_data (version : PlutusVersion) (o : MultiEraTxOut) : option PlutusData :=
  let txout address amount rest :=
    match plutus_address_data address with
    | None => None
    | Some a => Some (Data_Constr 0 (a :: plutus_value_data amount :: rest))
    end in
  match o with
  | Out_Shelley address amount => txout address (Value_Coin amount) [Data_Constr 1 []]
  | Out_Mary address amount => txout address amount [Data_Constr 1 []]
  | Out_Alonzo address amount datum_hash => txout address amount [datum_hash_data datum_hash]
  | Out_Babbage address amount datum_option script_ref =>
      match version with
      | PlutusV1 =>
          txout address amount
            [match datum_option with
             | Some (Datum_Hash h) => Data_Constr 0 [Data_Bytes h]
             | _ => Data_Constr 1 []
             end]
      | _ =>
          txout address amount
            [match datum_option with
             | Some (Datum_Hash h) => Data_Constr 1 [Data_Bytes h]
             | Some (Datum_Inline d) => Data_Constr 2 [d]
             | None => Data_Constr 0 []
             end;
             match script_ref with
             | Some s => Data_Constr 0 [Data_Bytes (script_hash_from_ref s)]
             | None => Data_Constr 1 []
             end]
      end
  end.

Definition plutus_input_data (version : PlutusVersion) (i : ShelleyTxIn * MultiEraTxOut)
    : option PlutusData :=
  match plutus_output_data version i.2 with
  | None => None
  | Some o =>
      Some (Data_Constr 0 [tx_out_ref_data version (ti_transaction_id i.1) (ti_index i.1); o])
  end.

(** ** Validity range *)

Definition posix_time_range (start stop : option Z) (pv : option (Z * Z)) : PlutusData :=
  let lower :=
    match start with
    | Some s => Data_Constr 0 [Data_Constr 1 [Data_Integer s]; Data_Constr 1 []]
    | None => Data_Constr 0 [Data_Constr 0 []; Data_Constr 1 []]
    end in
  let upper :=
    match stop with
    | Some e =>
        let conway := match pv with Some (major, _) => 9 <=? major | None => false end in
        let upper_is_closed := match start with None => negb conway | Some _ => false end in
        Data_Constr 0 [Data_Constr 1 [Data_Integer e]; bool_data upper_is_closed]
    | None => Data_Constr 0 [Data_Constr 2 []; Data_Constr 1 []]
    end in
  Data_Constr 0 [lower; upper].

(** ** TxInfo *)

(** [[u8; 32]] is ordered lexicographically. *)
Definition datum_le (a b : list Z * PlutusData) : Prop := bytes_le a.1 b.1 = true.
#[export] Instance datum_le_dec : RelDecision datum_le.
Proof. intros a b. unfold datum_le. apply _. Defined.
Definition sorted_witness_datums (ctx : TxContext) : list (list Z * PlutusData) :=
  merge_sort datum_le (tx_witness_datums ctx).

(** [collect] into a [Result]: the first error, or all values. *)
Fixpoint collect {A B} (f : A -> outcome EvalError B) (l : list A) : outcome EvalError (list B) :=
  match l with
  | [] => Ok []
  | x :: l => let? y := f x in let? ys := collect f l in Ok (y :: ys)
  end.

Definition is_babbage_v1_unsupported (o : MultiEraTxOut) : option string :=
  match o with
  | Out_Babbage _ _ (Some (Datum_Inline _)) _ =>
      Some "Inline datums not supported in Plutus V1 context"
  | Out_Babbage _ _ _ (Some _) => Some "Reference scripts not supported in Plutus V1 context"
  | _ => None
  end.

Definition guard (c : bool) (message : string) : outcome EvalError unit :=
  if c then Err (UnsupportedPlutusContext message) else Ok tt.

Definition guard_legacy_plutus_context_features (version : PlutusVersion) (ctx : TxContext)
    : outcome EvalError unit :=
  let v1 := match version with PlutusV1 => true | _ => false end in
  let? _ := guard (v1 && negb (length (tx_resolved_reference_inputs ctx) =? 0)%nat)
              "Reference inputs require Plutus V2 context support" in
  let? _ :=
    if v1 then
      let? _ := collect (fun o =>
                  match is_babbage_v1_unsupported o with
                  | Some message => Err (UnsupportedPlutusContext message)
                  | None => Ok tt
                  end) (map snd (tx_inputs ctx) ++ tx_outputs ctx)%list in Ok tt
    else Ok tt in
  let? _ := guard (bool_decide (is_Some (tx_voting_procedures ctx)))
              "Voting procedures require Plutus V3 context support" in
  let? _ := guard (negb (length (tx_proposal_procedures ctx) =? 0)%nat)
              "Proposal procedures require Plutus V3 context support" in
  let? _ := guard (bool_decide (is_Some (tx_current_treasury_value ctx)))
              "Current treasury value requires Plutus V3 context support" in
  guard (bool_decide (is_Some (tx_treasury_donation ctx)))
    "Treasury donation requires Plutus V3 context support".

Definition votes_data (procedures : option VotingProcedures) : PlutusData :=
  Data_Map
    (map (fun v => (voter_data_v3 v.1,
                    Data_Map (map (fun p => (gov_action_id_data p.1, vote_data_v3 (vp_vote p.2)))
                                v.2)))
       (default [] procedures)).

Definition build_tx_info (version : PlutusVersion) (ctx : TxContext) (slot_to_posix_ms : Z -> Z)
    : outcome EvalError PlutusData :=
  let? _ :=
    match version with
    | PlutusV3 => Ok tt
    | _ => guard_legacy_plutus_context_features version ctx
    end in
  let inputs_data := Data_List (omap (plutus_input_data version) (tx_inputs ctx)) in
  let ref_inputs_data :=
    Data_List (omap (plutus_input_data version) (tx_resolved_reference_inputs ctx)) in
  let outputs_data := Data_List (omap (plutus_output_data version) (tx_outputs ctx)) in
  let fee_v1v2 := plutus_value_data (Value_Coin (tx_fee ctx)) in
  let fee_v3 := Data_Integer (tx_fee ctx) in
  let mint_entries := assets_data (tx_mint ctx) in
  let wdrl_entries_v2 :=
    map (fun w => (staking_credential_data (ra_credential w.1), Data_Integer w.2))
      (tx_withdrawals ctx) in
  let wdrl_entries_v3 :=
    map (fun w => (credential_data (ra_credential w.1), Data_Integer w.2)) (tx_withdrawals ctx) in
  let valid_range :=
    posix_time_range (slot_to_posix_ms <$> tx_validity_start ctx) (slot_to_posix_ms <$> tx_ttl ctx)
      (tx_protocol_version ctx) in
  let signatories := Data_List (map Data_Bytes (tx_required_signers ctx)) in
  let witness_datums := sorted_witness_datums ctx in
  let datums := Data_Map (map (fun d => (Data_Bytes d.1, d.2)) witness_datums) in
  let tx_id := tx_id_data version (tx_hash ctx) in
  match version with
  | PlutusV1 =>
      let? dcerts := collect legacy_dcert_data (tx_certificates ctx) in
      Ok (Data_Constr 0
        [inputs_data; outputs_data; fee_v1v2; Data_Map (ada_entry 0 :: mint_entries);
         Data_List dcerts;
         Data_List (map (fun w => Data_Constr 0 [w.1; w.2]) wdrl_entries_v2);
         valid_range; signatories;
         Data_List (map (fun d => Data_Constr 0 [Data_Bytes d.1; d.2]) witness_datums); tx_id])
  | PlutusV2 =>
      let? redeemers := collect (fun r => let? p := script_purpose_data_v1v2 version r.1 in
                                          Ok (p, r.2)) (tx_redeemers ctx) in
      let? dcerts := collect legacy_dcert_data (tx_certificates ctx) in
      Ok (Data_Constr 0
        [inputs_data; ref_inputs_data; outputs_data; fee_v1v2;
         Data_Map (ada_entry 0 :: mint_entries); Data_List dcerts; Data_Map wdrl_entries_v2;
         valid_range; signatories; Data_Map redeemers; datums; tx_id])
  | PlutusV3 =>
      let pv := tx_protocol_version ctx in
      let? redeemers := collect (fun r => let? p := script_purpose_data_v3 r.1 pv in
                                          Ok (p, r.2)) (tx_redeemers ctx) in
      let? tx_certs := collect (fun c => tx_cert_data_v3 c pv) (tx_certificates ctx) in
      let current_treasury := maybe_data (Data_Integer <$> tx_current_treasury_value ctx) in
      let treasury_donation := maybe_data (Data_Integer <$> tx_treasury_donation ctx) in
      let votes := votes_data (tx_voting_procedures ctx) in
      let? proposals := collect proposal_procedure_data_v3 (tx_proposal_procedures ctx) in
      Ok (Data_Constr 0
        [inputs_data; ref_inputs_data; outputs_data; fee_v3; Data_Map mint_entries;
         Data_List tx_certs; Data_Map wdrl_entries_v3; valid_range; signatories;
         Data_Map redeemers; datums; tx_id; votes; Data_List proposals; current_treasury;
         treasury_donation])
  end.

(** ** ScriptContext *)

Definition script_context_data (version : PlutusVersion) (purpose : ScriptPurpose)
    (datum : option PlutusData) (redeemer : PlutusData) (ctx : TxContext)
    (slot_to_posix_ms : Z -> Z) : outcome EvalError PlutusData :=
  match version with
  | PlutusV1 | PlutusV2 =>
      let? info := build_tx_info version ctx slot_to_posix_ms in
      let? p := script_purpose_data_v1v2 version purpose in
      Ok (Data_Constr 0 [info; p])
  | PlutusV3 =>
      let? info := build_tx_info version ctx slot_to_posix_ms in
      let? p := script_info_data_v3 purpose datum (tx_protocol_version ctx) in
      Ok (Data_Constr 0 [info; redeemer; p])
  end.

(** ** When a context can be built *)

Lemma collect_ok {A B} (f : A -> outcome EvalError B) l :
  (exists ys, collect f l = Ok ys) <-> Forall (fun x => exists y, f x = Ok y) l.
Proof.
  induction l as [|x l IH]; cbn [collect]; [by split; [|eexists]|].
  rewrite Forall_cons, <- IH. split.
  - intros [ys E]. apply obind_Ok_inv in E as (y & Hy & E).
    apply obind_Ok_inv in E as (ys' & Hys & E). eauto.
  - intros [[y Hy] [ys Hys]]. exists (y :: ys). by rewrite Hy, Hys.
Qed.

Lemma obind_ok {A B} (m : outcome EvalError A) (k : A -> outcome EvalError B) :
  (exists b, obind m k = Ok b) <-> exists a, m = Ok a /\ exists b, k a = Ok b.
Proof.
  destruct m as [a| | |]; simpl; split.
  - eauto.
  - by intros (? & [= ->] & ?).
  - by intros [].
  - by intros (? & ? & ?).
  - by intros [].
  - by intros (? & ? & ?).
  - by intros [].
  - by intros (? & ? & ?).
Qed.

Lemma guard_ok c message : (exists u, guard c message = Ok u) <-> c = false.
Proof. unfold guard. destruct c; split; try done; [by intros []|]. by exists tt. Qed.

(** Certificates that scripts of a version can be told about. *)
Definition cert_ok (version : PlutusVersion) (c : DCert) : Prop :=
  match c with
  | AccountRegistration _ | AccountUnregistration _ | DelegationToStakePool _ _
  | AccountRegistrationDeposit _ _ | AccountUnregistrationDeposit _ _ | PoolRegistration _
  | PoolRetirement _ _ => True
  | GenesisDelegation _ _ _ => version <> PlutusV3
  | MoveInstantaneousReward _ _ => False
  | _ => version = PlutusV3
  end.

Definition proposal_ok (p : ProposalProcedure) : Prop :=
  is_Some (RewardAccount_from_bytes (pp_reward_account p)).

Definition purpose_ok (version : PlutusVersion) (p : ScriptPurpose) : Prop :=
  match p with
  | Purpose_Spending _ _ | Purpose_Minting _ | Purpose_Rewarding _ => True
  | Purpose_Certifying _ c => cert_ok version c
  | Purpose_Voting _ => version = PlutusV3
  | Purpose_Proposing _ p => version = PlutusV3 /\ proposal_ok p
  end.

(** No field that only Conway transactions have. *)
Definition pre_conway (ctx : TxContext) : Prop :=
  tx_voting_procedures ctx = None /\ tx_proposal_procedures ctx = []
  /\ tx_current_treasury_value ctx = None /\ tx_treasury_donation ctx = None.

(** No inline datum and no reference script. *)
Definition v1_output (o : MultiEraTxOut) : Prop :=
  match o with
  | Out_Babbage _ _ (Some (Datum_Inline _)) _ | Out_Babbage _ _ _ (Some _) => False
  | _ => True
  end.

Definition context_supported (version : PlutusVersion) (purpose : ScriptPurpose) (ctx : TxContext)
    : Prop :=
  Forall (cert_ok version) (tx_certificates ctx) /\ purpose_ok version purpose
  /\ match version with
     | PlutusV1 =>
         pre_conway ctx /\ tx_resolved_reference_inputs ctx = []
         /\ Forall v1_output (map snd (tx_inputs ctx) ++ tx_outputs ctx)%list
     | PlutusV2 =>
         pre_conway ctx /\ Forall (fun r => purpose_ok version r.1) (tx_redeemers ctx)
     | PlutusV3 =>
         Forall (fun r => purpose_ok version r.1) (tx_redeemers ctx)
         /\ Forall proposal_ok (tx_proposal_procedures ctx)
     end.

Lemma legacy_dcert_ok version c :
  version <> PlutusV3 -> (exists d, legacy_dcert_data c = Ok d) <-> cert_ok version c.
Proof.
  intros Hv. destruct c; simpl; split; try done; try (by intros []); intros _; by eexists.
Qed.

Lemma tx_cert_ok c pv : (exists d, tx_cert_data_v3 c pv = Ok d) <-> cert_ok PlutusV3 c.
Proof. destruct c; simpl; split; try done; try (by intros []); intros _; by eexists. Qed.

Lemma proposal_data_ok p : (exists d, proposal_procedure_data_v3 p = Ok d) <-> proposal_ok p.
Proof.
  unfold proposal_procedure_data_v3, proposal_ok, ok_or.
  destruct (RewardAccount_from_bytes _); simpl; split; try done; try (by intros []); intros _;
    by eexists.
Qed.

Lemma purpose_legacy_ok version p :
  version <> PlutusV3 ->
  (exists d, script_purpose_data_v1v2 version p = Ok d) <-> purpose_ok version p.
Proof.
  intros Hv. destruct p; cbn [script_purpose_data_v1v2 purpose_ok];
    try (split; [done|intros _; by eexists]); try (split; [by intros []|]; tauto).
  unfold certifying_purpose_data. rewrite obind_ok, <- (legacy_dcert_ok version) by done.
  split; [intros (d & Hd & _); eauto|]. intros [d Hd]. exists d. eauto.
Qed.

(** The two V3 builders succeed alike. *)
Lemma obind_pure_ok {A B} (m : outcome EvalError A) (f : A -> B) :
  (exists b, (let? a := m in Ok (f a)) = Ok b) <-> exists a, m = Ok a.
Proof. rewrite obind_ok. split; [intros (a & Ha & _); eauto|intros [a Ha]; eauto]. Qed.

Lemma purpose_v3_ok p pv :
  (exists d, script_purpose_data_v3 p pv = Ok d) <-> purpose_ok PlutusV3 p.
Proof.
  destruct p; cbn [script_purpose_data_v3 purpose_ok];
    try (split; [done|intros _; by eexists]).
  - by rewrite obind_pure_ok, tx_cert_ok.
  - rewrite obind_pure_ok, proposal_data_ok. tauto.
Qed.

Lemma info_v3_ok p datum pv :
  (exists d, script_info_data_v3 p datum pv = Ok d) <-> purpose_ok PlutusV3 p.
Proof.
  destruct p; cbn [script_info_data_v3 purpose_ok]; try (split; [done|intros _; by eexists]).
  - by rewrite obind_pure_ok, tx_cert_ok.
  - rewrite obind_pure_ok, proposal_data_ok. tauto.
Qed.

Lemma v1_output_ok o :
  (exists u : unit, match is_babbage_v1_unsupported o with
             | Some message => Err (UnsupportedPlutusContext message)
             | None => Ok tt
             end = Ok u) <-> v1_output o.
Proof.
  destruct o as [| | |a v [[h|d]|] [s|]]; simpl; split; try done; try (by intros []); intros _;
    by eexists.
Qed.

Lemma pre_conway_guards ctx :
  (exists u,
    (let? _ := guard (bool_decide (is_Some (tx_voting_procedures ctx)))
              "Voting procedures require Plutus V3 context support" in
     let? _ := guard (negb (length (tx_proposal_procedures ctx) =? 0)%nat)
              "Proposal procedures require Plutus V3 context support" in
     let? _ := guard (bool_decide (is_Some (tx_current_treasury_value ctx)))
              "Current treasury value requires Plutus V3 context support" in
     guard (bool_decide (is_Some (tx_treasury_donation ctx)))
       "Treasury donation requires Plutus V3 context support") = Ok u) <-> pre_conway ctx.
Proof.
  assert (Hopt : forall A (o : option A), bool_decide (is_Some o) = false <-> o = None).
  { intros A o. rewrite bool_decide_eq_false, <- eq_None_not_Some. done. }
  assert (Hlist : forall A (l : list A), negb (length l =? 0)%nat = false <-> l = []).
  { intros A l. by destruct l. }
  unfold pre_conway. rewrite <- !Hopt, <- Hlist. unfold guard.
  destruct (bool_decide (is_Some (tx_voting_procedures ctx))),
    (negb (length (tx_proposal_procedures ctx) =? 0)%nat),
    (bool_decide (is_Some (tx_current_treasury_value ctx))),
    (bool_decide (is_Some (tx_treasury_donation ctx))); simpl; split;
    try (by intros (? & ? & ? & ?)); try (by intros []); intros _; by eexists.
Qed.

Lemma legacy_guard_ok version ctx :
  version <> PlutusV3 ->
  (exists u, guard_legacy_plutus_context_features version ctx = Ok u)
  <-> pre_conway ctx
      /\ (version = PlutusV1 -> tx_resolved_reference_inputs ctx = []
           /\ Forall v1_output (map snd (tx_inputs ctx) ++ tx_outputs ctx)%list).
Proof.
  intros Hv. unfold guard_legacy_plutus_context_features. destruct version; [| |done].
  - rewrite obind_ok. cbn [andb]. setoid_rewrite (obind_ok (let? _ := collect _ _ in Ok tt)).
    rewrite <- pre_conway_guards. split.
    + intros (u & Hu & u2 & Hu2 & Hrest). split; [done|]. intros _. split.
      * assert (Hg := proj1 (guard_ok _ _) (ex_intro _ u Hu)).
        by destruct (tx_resolved_reference_inputs ctx).
      * assert (Hc := proj1 (obind_pure_ok _ _) (ex_intro _ u2 Hu2)). apply collect_ok in Hc.
        eapply Forall_impl; [exact Hc|]. intros o. apply v1_output_ok.
    + intros [Hrest Hv1]. destruct (Hv1 eq_refl) as [-> Ho]. exists tt. split; [done|].
      destruct (proj2 (collect_ok (fun o => match is_babbage_v1_unsupported o with
             | Some message => Err (UnsupportedPlutusContext message)
             | None => Ok tt
             end) (map snd (tx_inputs ctx) ++ tx_outputs ctx)%list)) as [ys ->].
      * eapply Forall_impl; [exact Ho|]. intros o. apply v1_output_ok.
      * exists tt. split; [done|exact Hrest].
  - cbn [andb guard obind]. rewrite pre_conway_guards. split; [|by intros []].
    intros Hp. by split.
Qed.

Lemma redeemers_ok {B} (f : ScriptPurpose -> outcome EvalError B) (P : ScriptPurpose -> Prop) rs :
  (forall p, (exists d, f p = Ok d) <-> P p) ->
  (exists ys, collect (fun r : ScriptPurpose * PlutusData => let? p := f r.1 in Ok (p, r.2)) rs
              = Ok ys)
  <-> Forall (fun r => P r.1) rs.
Proof.
  intros Hf. rewrite collect_ok. apply Forall_iff. intros r. by rewrite obind_pure_ok.
Qed.

Lemma collect_iff {A B} (f : A -> outcome EvalError B) (P : A -> Prop) l :
  (forall x, (exists y, f x = Ok y) <-> P x) ->
  (exists ys, collect f l = Ok ys) <-> Forall P l.
Proof. intros Hf. rewrite collect_ok. by apply Forall_iff. Qed.

(** Results that are not used further leave only the condition. *)
Lemma obind_ok_iff {A B} (m : outcome EvalError A) (k : A -> outcome EvalError B) (P Q : Prop) :
  ((exists a, m = Ok a) <-> P) -> (forall a, (exists b, k a = Ok b) <-> Q) ->
  (exists b, obind m k = Ok b) <-> P /\ Q.
Proof.
  intros Hm Hk. rewrite obind_ok, <- Hm. split.
  - intros (a & Ha & Hb). split; [eauto|]. by apply (Hk a).
  - intros [[a Ha] HQ]. exists a. split; [done|]. by apply Hk.
Qed.

Lemma ok_iff_True {A} (a : A) : (exists b : A, Ok a = Ok b :> outcome EvalError A) <-> True.
Proof. split; [done|]. intros _. by exists a. Qed.

Lemma tx_info_ok version ctx t :
  (exists d, build_tx_info version ctx t = Ok d)
  <-> Forall (cert_ok version) (tx_certificates ctx)
      /\ match version with
         | PlutusV1 =>
             pre_conway ctx /\ tx_resolved_reference_inputs ctx = []
             /\ Forall v1_output (map snd (tx_inputs ctx) ++ tx_outputs ctx)%list
         | PlutusV2 =>
             pre_conway ctx /\ Forall (fun r => purpose_ok version r.1) (tx_redeemers ctx)
         | PlutusV3 =>
             Forall (fun r => purpose_ok version r.1) (tx_redeemers ctx)
             /\ Forall proposal_ok (tx_proposal_procedures ctx)
         end.
Proof.
  unfold build_tx_info. destruct version.
  - rewrite (obind_ok_iff _ _ _ (Forall (cert_ok PlutusV1) (tx_certificates ctx))
               (legacy_guard_ok PlutusV1 ctx ltac:(done))); [tauto|]. intros _.
    rewrite obind_pure_ok. apply collect_iff. intros c. by apply legacy_dcert_ok.
  - rewrite (obind_ok_iff _ _ _ (Forall (fun r => purpose_ok PlutusV2 r.1) (tx_redeemers ctx)
               /\ Forall (cert_ok PlutusV2) (tx_certificates ctx))
               (legacy_guard_ok PlutusV2 ctx ltac:(done))).
    { split; [tauto|]. intros (? & ? & ?). by split_and!. }
    intros _. apply obind_ok_iff.
    + apply redeemers_ok. intros p. by apply purpose_legacy_ok.
    + intros rs. rewrite obind_pure_ok. apply collect_iff. intros c. by apply legacy_dcert_ok.
  - cbn [obind]. rewrite (obind_ok_iff _ _ (Forall (fun r => purpose_ok PlutusV3 r.1) (tx_redeemers ctx))
      (Forall (cert_ok PlutusV3) (tx_certificates ctx) /\ Forall proposal_ok (tx_proposal_procedures ctx)));
      [tauto| |].
    + apply (redeemers_ok (fun p => script_purpose_data_v3 p (tx_protocol_version ctx))).
      intros p. apply purpose_v3_ok.
    + intros rs. apply obind_ok_iff.
      * apply collect_iff. intros c. apply tx_cert_ok.
      * intros cs. rewrite obind_pure_ok. apply collect_iff. intros p. apply proposal_data_ok.
Qed.

(** ** What a script does not see *)

Definition output_address (o : MultiEraTxOut) : list Z :=
  match o with Out_Shelley a _ | Out_Mary a _ | Out_Alonzo a _ _ | Out_Babbage a _ _ _ => a end.
(** An output at an address that can be read and has a payment credential. *)
Definition expressible (o : MultiEraTxOut) : bool :=
  match Address_from_bytes (output_address o) with
  | Some (Base _) | Some (Enterprise _) | Some (Pointer _) => true
  | _ => false
  end.
(** The transaction without the inputs and outputs at other addresses. *)
Definition visible (ctx : TxContext) : TxContext :=
  let seen := List.filter (fun i : ShelleyTxIn * MultiEraTxOut => expressible i.2) in
  mkTxContext (tx_hash ctx) (tx_fee ctx) (List.filter expressible (tx_outputs ctx)) (tx_validity_start ctx)
    (tx_ttl ctx) (tx_required_signers ctx) (tx_mint ctx) (tx_withdrawals ctx) (tx_reference_inputs ctx)
    (tx_current_treasury_value ctx) (tx_treasury_donation ctx) (seen (tx_inputs ctx))
    (tx_certificates ctx) (tx_witness_datums ctx) (seen (tx_resolved_reference_inputs ctx)) (tx_redeemers ctx)
    (tx_voting_procedures ctx) (tx_proposal_procedures ctx) (tx_protocol_version ctx).

Lemma omap_seen {A B} (f : A -> option B) (g : A -> bool) l :
  (forall x, g x = false -> f x = None) -> omap f (List.filter g l) = omap f l.
Proof.
  intros Hg. induction l as [|x l IH]; [done|]. cbn [List.filter omap list_omap].
  destruct (g x) eqn:E; cbn [omap list_omap]; rewrite IH; [done|]. by rewrite (Hg x E).
Qed.
Lemma address_data_none a :
  plutus_address_data a = None
  <-> match Address_from_bytes a with Some (Base _) | Some (Enterprise _) | Some (Pointer _) => false | _ => true end = true.
Proof. unfold plutus_address_data. by destruct (Address_from_bytes a) as [[]|]. Qed.
Lemma output_data_none version o : expressible o = false -> plutus_output_data version o = None.
Proof.
  intros He.
  assert (Ha : plutus_address_data (output_address o) = None).
  { apply address_data_none. unfold expressible in He. by destruct (Address_from_bytes (output_address o)) as [[]|]. }
  destruct o; cbn [output_address] in Ha; cbn [plutus_output_data]; rewrite Ha; by destruct version.
Qed.
Lemma input_data_none version (i : ShelleyTxIn * MultiEraTxOut) : expressible i.2 = false -> plutus_input_data version i = None.
Proof. intros He. unfold plutus_input_data. by rewrite output_data_none. Qed.

Lemma elem_of_seen {A} (g : A -> bool) x l : x ∈ List.filter g l -> x ∈ l.
Proof. intros [Hx _]%list_elem_of_In%List.filter_In. by apply list_elem_of_In. Qed.

Lemma guard_visible version ctx :
  version <> PlutusV3 -> (exists u, guard_legacy_plutus_context_features version ctx = Ok u) ->
  guard_legacy_plutus_context_features version (visible ctx) = guard_legacy_plutus_context_features version ctx.
Proof.
  intros Hv Hg. pose proof Hg as [[] ->].
  apply legacy_guard_ok in Hg as [Hp H1]; [|done].
  destruct (proj2 (legacy_guard_ok version (visible ctx) Hv)) as [[] ->]; [|done].
  split; [done|]. intros E. destruct (H1 E) as [Hr Ho]. cbn [visible tx_resolved_reference_inputs tx_inputs tx_outputs].
  rewrite Hr. split; [done|]. apply Forall_app in Ho as [Hi Ho]. rewrite Forall_forall in Hi, Ho.
  apply Forall_app. split; apply Forall_forall; intros o Hin.
  - apply Hi. apply list_elem_of_fmap in Hin as (i & -> & Hin). apply list_elem_of_fmap. exists i.
    split; [done|]. by eapply elem_of_seen.
  - apply Ho. by eapply elem_of_seen.
Qed.

Lemma info_visible version ctx t :
  (exists d, build_tx_info version ctx t = Ok d) -> build_tx_info version (visible ctx) t = build_tx_info version ctx t.
Proof.
  intros [d Hd]. unfold build_tx_info in *.
  assert (Hguard : match version with PlutusV3 => Ok tt | _ => guard_legacy_plutus_context_features version (visible ctx) end
    = match version with PlutusV3 => Ok tt | _ => guard_legacy_plutus_context_features version ctx end).
  { destruct version; [| |done]; apply guard_visible; try done;
      (destruct (guard_legacy_plutus_context_features _ ctx); [by eexists|done..]). }
  rewrite Hguard. cbn [visible tx_inputs tx_resolved_reference_inputs tx_outputs].
  rewrite !(omap_seen (plutus_input_data version)) by apply input_data_none.
  by rewrite (omap_seen (plutus_output_data version)) by apply output_data_none.
Qed.

(** When a script context exists, and what it leaves out. For each Plutus
    version the context is built exactly when the certificates, the purpose,
    the redeemers and the extra fields of the transaction are ones that
    version's scripts can express: known certificates, a known purpose and
    redeemers, for V1 and V2 none of the Conway fields, for V1 neither reference
    inputs nor inline datums nor reference scripts in the outputs it spends or
    creates, and for V3 proposals with a readable return account; otherwise an
    error is returned. Addresses are no such condition: inputs, reference inputs
    and outputs at Byron, reward or unreadable addresses, which no version can
    express, are left out without an error, and the context is the one of the
    transaction without them. *)
Theorem script_context_exists version purpose datum redeemer ctx t :
  ((exists d, script_context_data version purpose datum redeemer ctx t = Ok d)
   <-> context_supported version purpose ctx)
  /\ (context_supported version purpose ctx ->
        script_context_data version purpose datum redeemer (visible ctx) t
        = script_context_data version purpose datum redeemer ctx t).
Proof.
  assert (Hiff : (exists d, script_context_data version purpose datum redeemer ctx t = Ok d)
    <-> context_supported version purpose ctx).
  { unfold script_context_data, context_supported.
    assert (Hinfo := tx_info_ok version ctx t).
    destruct version;
      rewrite (obind_ok_iff _ _ _ (purpose_ok _ purpose) Hinfo) by
        (intros info; rewrite obind_pure_ok; by apply purpose_legacy_ok || apply info_v3_ok); tauto. }
  split; [exact Hiff|]. intros Hs. apply Hiff in Hs as [d Hd]. unfold script_context_data in *.
  assert (Hinfo : exists i, build_tx_info version ctx t = Ok i).
  { destruct version; destruct (build_tx_info _ ctx t); try done; by eexists. }
  by rewrite (info_visible version ctx t Hinfo).
Qed.

(** ** Order of the witness datums *)

Lemma bytes_lt_irrefl a : bytes_lt a a = false.
Proof. induction a as [|x a IH]; [done|]. simpl. by rewrite Z.ltb_irrefl, Z.eqb_refl, IH. Qed.

Lemma bytes_lt_trichotomy a b : bytes_lt a b = false -> bytes_lt b a = false -> a = b.
Proof.
  revert b. induction a as [|x a IH]; intros [|y b] H1 H2; simpl in *; try done.
  apply orb_false_iff in H1 as [H1 H1']. apply orb_false_iff in H2 as [H2 H2']. zbool.
  assert (x = y) as -> by lia. rewrite Z.eqb_refl in *. f_equal. by apply IH.
Qed.

Lemma bytes_lt_trans a b c : bytes_lt a b = true -> bytes_lt b c = true -> bytes_lt a c = true.
Proof.
  revert b c. induction a as [|x a IH]; intros [|y b] [|z c] H1 H2; simpl in *; try done.
  apply orb_true_iff in H1. apply orb_true_iff in H2. apply orb_true_iff.
  rewrite !andb_true_iff, !Z.ltb_lt, !Z.eqb_eq in *.
  destruct H1 as [?|[-> ?]], H2 as [?|[-> ?]]; try (left; lia). right. eauto.
Qed.

Lemma datum_le_antisymm (x y : list Z * PlutusData) : datum_le x y -> datum_le y x -> x.1 = y.1.
Proof.
  unfold datum_le, bytes_le. rewrite !negb_true_iff. intros. by apply bytes_lt_trichotomy.
Qed.

Instance datum_le_total : Total datum_le.
Proof.
  intros x y. unfold datum_le, bytes_le. destruct (bytes_lt y.1 x.1) eqn:E; [right|by left].
  destruct (bytes_lt x.1 y.1) eqn:E'; [|done].
  pose proof (bytes_lt_trans _ _ _ E E') as Ht. by rewrite bytes_lt_irrefl in Ht.
Qed.

Instance datum_le_trans : Transitive datum_le.
Proof.
  intros x y z. unfold datum_le, bytes_le. rewrite !negb_true_iff. intros H1 H2.
  apply not_true_is_false. intros E. destruct (bytes_lt x.1 y.1) eqn:Exy.
  - rewrite (bytes_lt_trans _ _ _ E Exy) in H2. done.
  - apply (bytes_lt_trichotomy _ _ H1) in Exy. rewrite <- Exy in E. by rewrite E in H2.
Qed.

(** Sorting forgets the order the datums came in. *)
Lemma sort_datums_perm (ds ds' : list (list Z * PlutusData)) :
  NoDup (map fst ds) -> ds ≡ₚ ds' -> merge_sort datum_le ds = merge_sort datum_le ds'.
Proof.
  intros Hnd Hp. apply (StronglySorted_unique_strong datum_le).
  - intros x y Hx Hy Hxy Hyx. rewrite merge_sort_Permutation in Hx, Hy. rewrite <- Hp in Hy.
    pose proof (datum_le_antisymm x y Hxy Hyx) as E.
    apply list_elem_of_lookup in Hx as [i Hi]. apply list_elem_of_lookup in Hy as [j Hj].
    assert (i = j) as ->; [|congruence].
    eapply NoDup_lookup; [exact Hnd| |].
    + rewrite list_lookup_fmap, Hi. reflexivity.
    + rewrite list_lookup_fmap, Hj. simpl. by rewrite E.
  - apply StronglySorted_merge_sort; apply _.
  - apply StronglySorted_merge_sort; apply _.
  - by rewrite !merge_sort_Permutation.
Qed.

Definition with_witness_datums (ctx : TxContext) (ds : list (list Z * PlutusData)) : TxContext :=
  mkTxContext (tx_hash ctx) (tx_fee ctx) (tx_outputs ctx) (tx_validity_start ctx) (tx_ttl ctx)
    (tx_required_signers ctx) (tx_mint ctx) (tx_withdrawals ctx) (tx_reference_inputs ctx)
    (tx_current_treasury_value ctx) (tx_treasury_donation ctx) (tx_inputs ctx)
    (tx_certificates ctx) ds (tx_resolved_reference_inputs ctx) (tx_redeemers ctx)
    (tx_voting_procedures ctx) (tx_proposal_procedures ctx) (tx_protocol_version ctx).

(** Scripts see the same context on every node and in every run: the witness
    datums are kept in a hash map, whose iteration order is arbitrary, but the
    context does not depend on it. *)
Theorem context_order_independent version purpose datum redeemer ctx t ds :
  NoDup (map fst (tx_witness_datums ctx)) -> tx_witness_datums ctx ≡ₚ ds ->
  script_context_data version purpose datum redeemer (with_witness_datums ctx ds) t
  = script_context_data version purpose datum redeemer ctx t.
Proof.
  intros Hnd Hp.
  assert (E : sorted_witness_datums (with_witness_datums ctx ds) = sorted_witness_datums ctx).
  { unfold sorted_witness_datums. simpl. symmetry. by apply sort_datums_perm. }
  unfold script_context_data, build_tx_info. rewrite E. done.
Qed.
End context.
