(* ===== verification/PlutusEval.v ===== *)
(** * The node's Plutus evaluator

    Model of [CekPlutusEvaluator] of [crates/node/plutus-eval/src/lib.rs], the
    implementation of the ledger's [PlutusEvaluator] trait: it decodes a script,
    builds its context, applies it to its arguments, prices it with the active
    cost model, runs the CEK machine and judges the result. The conversion of
    slots to POSIX time is computed with floating-point numbers and is a
    parameter here; the environment-variable diagnostics are not modelled. *)

From S2P Require Import Prelude Cbor CborFacts ProtocolParams Fees Types NativeScript PlutusData Uplc.
From S2P Require Import CostModel GenesisCosts Builtins Cek CekSafety CekSemantics CekBudget.
From S2P Require Import Flat FlatFacts ScriptContext.
Local Open Scope Z_scope.

Section evaluator.
  Context `{PlutusCrypto}.

Record PlutusScriptEval := mkPlutusScriptEval {
  pe_script_hash : list Z;
  pe_version : PlutusVersion;
  pe_script_bytes : list Z;
  pe_purpose : ScriptPurpose;
  pe_datum : option PlutusData;
  pe_redeemer : PlutusData;
  pe_ex_units : ExUnits;
  pe_cost_model : option (list Z) }.

(** The evaluator's own cost model, and its clock when it is configured with
    a system start. *)
Record CekPlutusEvaluator := mkEvaluator {
  ev_cost_model : CostModel;
  ev_clock : option (Z -> Z) }.

Definition evaluator_slot_to_posix_ms (ev : CekPlutusEvaluator) (slot : Z) : Z :=
  match ev_clock ev with Some clock => clock slot | None => slot end.

Definition decode_script_bytes_for_version (version : PlutusVersion) (script_bytes : list Z)
    : outcome MachineError UplcProgram :=
  match version with
  | PlutusV1 | PlutusV2 => decode_script_bytes_allowing_remainder script_bytes
  | PlutusV3 => decode_script_bytes script_bytes
  end.

Definition data_term (d : PlutusData) : Term := Term_Constant (Constant_Data d).

Definition map_machine_error (hash : list Z) (e : MachineError) : EvalError :=
  match into_ledger_error e with
  | FlatDecodeError _ => PlutusScriptDecodeError hash
  | other => PlutusScriptFailed hash (Reason_Machine other)
  end.

(** The arguments in the order of the script interface. *)
Definition applied_term (t : Term) (datum : option PlutusData) (redeemer context : PlutusData)
    : Term :=
  match datum with
  | Some datum =>
      Term_Apply (Term_Apply (Term_Apply t (data_term datum)) (data_term redeemer))
        (data_term context)
  | None => Term_Apply (Term_Apply t (data_term redeemer)) (data_term context)
  end.

Definition active_cost_model (ev : CekPlutusEvaluator) (e : PlutusScriptEval) (ctx : TxContext)
    : outcome EvalError CostModel :=
  match pe_cost_model e with
  | Some values =>
      map_err (fun err => PlutusScriptFailed (pe_script_hash e) (Reason_CostModel err))
        (build_plutus_cost_model_from_protocol_values_for_protocol (pe_version e)
           (tx_protocol_version ctx) values)
  | None => Ok (ev_cost_model ev)
  end.

(** [steps as i64] and [mem as i64]. *)
Definition declared_budget (e : PlutusScriptEval) : ExBudget :=
  mkExBudget (wrap_i64 (ProtocolParams.steps (pe_ex_units e))) (wrap_i64 (ProtocolParams.mem (pe_ex_units e))).

Definition judge_result (version : PlutusVersion) (hash : list Z) (v : Value)
    : outcome EvalError unit :=
  match version with
  | PlutusV3 =>
      match v with
      | Value_Constant (Constant_Bool true) => Ok tt
      | _ => Err (PlutusScriptFailed hash Reason_NotTrue)
      end
  | _ => Ok tt
  end.

Definition evaluator_evaluate (fuel : nat) (ev : CekPlutusEvaluator) (e : PlutusScriptEval)
    (ctx : TxContext) : outcome EvalError unit :=
  let? program :=
    map_err (fun _ => PlutusScriptDecodeError (pe_script_hash e))
      (decode_script_bytes_for_version (pe_version e) (pe_script_bytes e)) in
  let? context :=
    script_context_data (pe_version e) (pe_purpose e) (pe_datum e) (pe_redeemer e) ctx
      (evaluator_slot_to_posix_ms ev) in
  let applied := applied_term (term program) (pe_datum e) (pe_redeemer e) context in
  let? cm := active_cost_model ev e ctx in
  let? (result, _) :=
    map_err (map_machine_error (pe_script_hash e))
      (evaluate fuel (CekMachine_new (declared_budget e) cm) applied) in
  judge_result (pe_version e) (pe_script_hash e) result.

Definition is_script_well_formed (version : PlutusVersion) (protocol_version : option (Z * Z))
    (script_bytes : list Z) : outcome MachineError bool :=
  let too_early :=
    match protocol_version with
    | Some (major, _) => major <? first_supported_protocol_major version
    | None => false
    end in
  if too_early then Ok false
  else
    match decode_script_bytes_for_version version script_bytes with
    | Ok _ => Ok true
    | Err _ => Ok false
    | Panic => Panic
    | OutOfFuel => OutOfFuel
    end.

(** ** Cost models from protocol parameters *)

Lemma named_params_nonneg names values k v :
  Forall (fun x => 0 <= x) values -> named_params names values !! k = Some v -> 0 <= v.
Proof.
  intros Hv. unfold named_params.
  assert (Hm : forall (m : ParamMap), (forall k v, m !! k = Some v -> 0 <= v) ->
    forall k v, fold_left (fun m '(name, value) => <[name := value]> m) (zip names values) m !! k
                = Some v -> 0 <= v).
  { revert names. induction Hv as [|x values Hx Hv IH]; intros [|n names] m Hm k' v' Hk; simpl in Hk;
      try by eapply Hm.
    eapply IH; [|exact Hk]. intros k2 v2 Hk2. apply lookup_insert_Some in Hk2 as [[_ <-]|[_ Hk2]];
      [done|by eapply Hm]. }
  apply Hm. intros k' v' Hk. by apply lookup_empty_Some in Hk.
Qed.

Lemma map_err_Ok_inv {E F A} (f : E -> F) (m : outcome E A) a : map_err f m = Ok a -> m = Ok a.
Proof. destruct m; simpl; congruence. Qed.

Lemma protocol_cost_model_nonneg version pv values cm :
  Forall (fun x => 0 <= x) values ->
  build_plutus_cost_model_from_protocol_values_for_protocol version pv values = Ok cm ->
  cost_model_nonneg cm.
Proof.
  intros Hv Hb. unfold build_plutus_cost_model_from_protocol_values_for_protocol in Hb.
  apply obind_Ok_inv in Hb as (named & Hn & Hb). apply map_err_Ok_inv in Hb.
  eapply from_params_nonneg; [|exact Hb]. intros k v. revert Hn.
  destruct version; case_match; intros Hn; try discriminate Hn.
  - injection Hn as <-. by apply named_params_nonneg.
  - apply obind_Ok_inv in Hn as (names & _ & Hn). injection Hn as <-. by apply named_params_nonneg.
  - apply obind_Ok_inv in Hn as ([] & _ & Hn). injection Hn as <-. by apply named_params_nonneg.
Qed.

(** ** The verdict *)

(** Costs that are not negative, the node's own and the protocol's. *)
Definition prices_ok (ev : CekPlutusEvaluator) (e : PlutusScriptEval) : Prop :=
  cost_model_nonneg (ev_cost_model ev)
  /\ match pe_cost_model e with Some values => Forall (fun x => 0 <= x) values | None => True end.

Lemma active_cost_model_nonneg ev e ctx cm :
  prices_ok ev e -> active_cost_model ev e ctx = Ok cm -> cost_model_nonneg cm.
Proof.
  intros [Hev He] Hc. unfold active_cost_model in Hc. destruct (pe_cost_model e) as [values|].
  - apply map_err_Ok_inv in Hc. by eapply protocol_cost_model_nonneg.
  - by injection Hc as <-.
Qed.

Definition units_fit (u : ExUnits) : Prop :=
  0 <= ProtocolParams.steps u < I64_MAX /\ 0 <= ProtocolParams.mem u < I64_MAX.

Lemma declared_budget_exact e :
  units_fit (pe_ex_units e) ->
  declared_budget e = mkExBudget (ProtocolParams.steps (pe_ex_units e)) (ProtocolParams.mem (pe_ex_units e)).
Proof. intros [Hs Hm]. unfold declared_budget. by rewrite !wrap_i64_small by lia. Qed.

(** The machine within a declared budget. *)
Lemma run_within_budget b cm t v :
  cost_model_nonneg cm -> 0 <= cpu b < I64_MAX -> 0 <= mem b < I64_MAX ->
  (exists fuel m', evaluate fuel (CekMachine_new b cm) t = Ok (v, m'))
  <-> exists cs lg, eval cm Environment_new t [] v cs lg /\ step_count cs <= STEP_LIMIT
        /\ cpu (startup_cost cm) + total_cpu cm cs <= cpu b
        /\ mem (startup_cost cm) + total_mem cm cs <= mem b.
Proof.
  intros Hcm Hs Hm.
  pose proof (with_step_slippage_ok b cm DEFAULT_STEP_SLIPPAGE Hcm Hs Hm) as Hok.
  pose proof (fun b' n lg => machine_exact (CekMachine_new b cm) t v b' n lg Hok eq_refl eq_refl)
    as Hx.
  destruct (fresh_machine_avail b cm DEFAULT_STEP_SLIPPAGE) as [Ha1 Ha2].
  unfold left_over in Hx. unfold CekMachine_new in *. rewrite Ha1, Ha2 in Hx.
  cbn [cpu mem acct cost_model with_step_slippage logs] in Hx. split.
  - intros (fuel & m' & He).
    destruct (proj1 (Hx (remaining_budget m') (steps_taken m') (logs m')))
      as (cs & Hev & Hn & Hle & Hbb & Hc & Hme); [by exists fuel, m'|].
    exists cs, (logs m'). rewrite Hbb in Hc, Hme. cbn [cpu mem] in Hc, Hme.
    split_and!; try done; lia.
  - intros (cs & lg & Hev & Hle & Hc & Hme).
    destruct (proj2 (Hx (left_over cm b cs) (step_count cs) lg)) as (fuel & m' & He & _); [|by exists fuel, m'].
    exists cs. unfold left_over. split_and!; [done|done|done|reflexivity| |]; cbn [cpu mem]; lia.
Qed.

(** A script is accepted for a derivation of the language's semantics. *)
Definition script_accepts (ev : CekPlutusEvaluator) (e : PlutusScriptEval) (ctx : TxContext) : Prop :=
  exists program context cm v cs lg,
    decode_script_bytes_for_version (pe_version e) (pe_script_bytes e) = Ok program
    /\ script_context_data (pe_version e) (pe_purpose e) (pe_datum e) (pe_redeemer e) ctx
         (evaluator_slot_to_posix_ms ev) = Ok context
    /\ active_cost_model ev e ctx = Ok cm
    /\ eval cm Environment_new
         (applied_term (term program) (pe_datum e) (pe_redeemer e) context) [] v cs lg
    /\ step_count cs <= STEP_LIMIT
    /\ cpu (startup_cost cm) + total_cpu cm cs <= ProtocolParams.steps (pe_ex_units e)
    /\ mem (startup_cost cm) + total_mem cm cs <= ProtocolParams.mem (pe_ex_units e)
    /\ (pe_version e = PlutusV3 -> v = Value_Constant (Constant_Bool true)).

Lemma judge_result_ok version hash v :
  judge_result version hash v = Ok tt
  <-> (version = PlutusV3 -> v = Value_Constant (Constant_Bool true)).
Proof.
  unfold judge_result. destruct version; try done.
  split; [|by intros ->]. intros E _. repeat case_match; congruence.
Qed.

(** C1: the node's verdict on a script is the one the language defines. Given a
    declared budget below [i64::MAX] and prices that are not negative, the
    evaluator accepts a script, with enough turns of the machine, if and only
    if: its bytes decode under the rules of its version; its context exists;
    the active cost model can be built; the big-step semantics evaluates the
    script, applied to its datum, redeemer and context, to a value; the
    derivation has no more steps than the limit; the declared units cover the
    start-up cost and the exact cost of every step and builtin call; and, for
    PlutusV3, the value is true. *)
Theorem plutus_verdict ev e ctx :
  prices_ok ev e -> units_fit (pe_ex_units e) ->
  (exists fuel, evaluator_evaluate fuel ev e ctx = Ok tt) <-> script_accepts ev e ctx.
Proof.
  intros Hp Hu. pose proof (declared_budget_exact e Hu) as Hb. destruct Hu as [Hs Hm].
  pose proof (fun cm t v Hcm => run_within_budget (declared_budget e) cm t v Hcm) as Hmachine.
  rewrite Hb in Hmachine. cbn [cpu mem] in Hmachine.
  unfold script_accepts, evaluator_evaluate. rewrite Hb. split.
  - intros [fuel E]. apply obind_Ok_inv in E as (program & Hd & E). apply map_err_Ok_inv in Hd.
    apply obind_Ok_inv in E as (context & Hctx & E). cbv zeta in E.
    apply obind_Ok_inv in E as (cm & Hcm & E).
    apply obind_Ok_inv in E as ([v m'] & He & E). apply map_err_Ok_inv in He.
    pose proof (proj1 (judge_result_ok _ _ _) E) as Hv.
    destruct (proj1 (Hmachine cm (applied_term (term program) (pe_datum e) (pe_redeemer e) context)
      v (active_cost_model_nonneg _ _ _ _ Hp Hcm) Hs Hm))
      as (cs & lg & ? & ? & ? & ?); [by exists fuel, m'|].
    exists program, context, cm, v, cs, lg. by split_and!.
  - intros (program & context & cm & v & cs & lg & Hd & Hctx & Hcm & Hev & Hle & Hc & Hme & Hv).
    destruct (proj2 (Hmachine cm (applied_term (term program) (pe_datum e) (pe_redeemer e) context)
      v (active_cost_model_nonneg _ _ _ _ Hp Hcm) Hs Hm)) as (fuel & m' & He); [by exists cs, lg|].
    exists fuel. rewrite Hd. cbn [map_err obind]. rewrite Hctx. cbn [obind]. cbv zeta.
    rewrite Hcm. cbn [obind]. rewrite He. cbn [map_err obind]. by apply judge_result_ok.
Qed.
End evaluator.

(** ** Witnesses *)

#[local] Existing Instance trivial_crypto.

Definition sample_context : TxContext :=
  mkTxContext (repeat 1 32) 200000 [] None (Some 100) [] [] [] [] None None [] []
    [(repeat 9 32, Data_Integer 1); (repeat 4 32, Data_Integer 2)] [] [] None [] (Some (9, 0)).

(** [\redeemer. \context. True] in PlutusV3. *)
Definition sample_eval : PlutusScriptEval :=
  mkPlutusScriptEval (repeat 2 28) PlutusV3 [70; 1; 1; 0; 34; 74; 33]
    (Purpose_Minting (repeat 3 28)) None (Data_Integer 42) (mkExUnits 20000 20000) None.
Definition sample_evaluator : CekPlutusEvaluator := mkEvaluator CostModel_default None.

Lemma plutus_verdict_witness :
  prices_ok sample_evaluator sample_eval /\ units_fit (pe_ex_units sample_eval)
  /\ script_accepts sample_evaluator sample_eval sample_context.
Proof.
  assert (Hp : prices_ok sample_evaluator sample_eval)
    by (split; [apply CostModel_default_nonneg|exact I]).
  assert (Hu : units_fit (pe_ex_units sample_eval))
    by (split; vm_compute; split; discriminate || reflexivity).
  split; [exact Hp|]. split; [exact Hu|].
  apply (plutus_verdict sample_evaluator sample_eval sample_context Hp Hu).
  exists 40%nat. vm_compute. reflexivity.
Defined.

Lemma context_order_independent_witness :
  NoDup (map fst (tx_witness_datums sample_context))
  /\ script_context_data PlutusV3 (Purpose_Minting (repeat 3 28)) None (Data_Integer 42)
       (with_witness_datums sample_context
          [(repeat 4 32, Data_Integer 2); (repeat 9 32, Data_Integer 1)]) (fun s => s)
     = script_context_data PlutusV3 (Purpose_Minting (repeat 3 28)) None (Data_Integer 42)
         sample_context (fun s => s).
Proof.
  assert (Hnd : NoDup (map fst (tx_witness_datums sample_context)))
    by (apply (bool_decide_unpack _); vm_compute; exact I).
  split; [exact Hnd|].
  apply (context_order_independent PlutusV3 _ None _ sample_context (fun s => s) _ Hnd).
  apply Permutation_swap.
Defined.
