(* ===== verification/Utxo.v ===== *)
(** * The UTxO set and the transaction balance

    The multi-era UTxO set of [crates/ledger/src/utxo.rs] and how a
    transaction of each era changes it: which inputs it may spend, the balance
    of lovelace and of the other assets, the outputs it adds; the collateral
    transition of a transaction whose scripts fail; reference inputs and the
    limits on reference scripts. *)

From stdpp Require Import gmap sorting strings.
From S2P Require Import Prelude Cbor Types NativeScript PlutusData Uplc Builtins ScriptContext.
Local Open Scope string_scope.
Local Open Scope Z_scope.

(** ** Data *)

(** A [BTreeMap] of [BTreeMap]s while it is being summed; in an output it is
    the list of its entries, in order. *)
Abbreviation MultiAsset := (gmap (list Z) (gmap (list Z) Z)).

Record ShelleyTxOut := mkShelleyTxOut { so_address : list Z; so_amount : Z }.
Record MaryTxOut := mkMaryTxOut { mo_address : list Z; mo_amount : MaryValue }.
Record AlonzoTxOut := mkAlonzoTxOut {
  ao_address : list Z; ao_amount : MaryValue; ao_datum_hash : option (list Z) }.
Record BabbageTxOut := mkBabbageTxOut {
  bo_address : list Z; bo_amount : MaryValue; bo_datum_option : option DatumOption;
  bo_script_ref : option Script }.

Definition Out_of_shelley (o : ShelleyTxOut) : MultiEraTxOut :=
  Out_Shelley (so_address o) (so_amount o).
Definition Out_of_mary (o : MaryTxOut) : MultiEraTxOut := Out_Mary (mo_address o) (mo_amount o).
Definition Out_of_alonzo (o : AlonzoTxOut) : MultiEraTxOut :=
  Out_Alonzo (ao_address o) (ao_amount o) (ao_datum_hash o).
Definition Out_of_babbage (o : BabbageTxOut) : MultiEraTxOut :=
  Out_Babbage (bo_address o) (bo_amount o) (bo_datum_option o) (bo_script_ref o).

Definition MultiEraTxOut_coin (o : MultiEraTxOut) : Z :=
  match o with
  | Out_Shelley _ amount => amount
  | Out_Mary _ amount | Out_Alonzo _ amount _ | Out_Babbage _ amount _ _ => value_coin amount
  end.
Definition MultiEraTxOut_address (o : MultiEraTxOut) : list Z :=
  match o with
  | Out_Shelley a _ | Out_Mary a _ | Out_Alonzo a _ _ | Out_Babbage a _ _ _ => a
  end.
Definition MultiEraTxOut_value (o : MultiEraTxOut) : MaryValue :=
  match o with
  | Out_Shelley _ amount => Value_Coin amount
  | Out_Mary _ amount | Out_Alonzo _ amount _ | Out_Babbage _ amount _ _ => amount
  end.
Definition MultiEraTxOut_script_ref (o : MultiEraTxOut) : option Script :=
  match o with Out_Babbage _ _ _ script_ref => script_ref | _ => None end.

Definition Script_binary_size (s : Script) : Z :=
  match s with
  | Script_Native ns => zlength (script_encoding ns)
  | Script_PlutusV1 bytes | Script_PlutusV2 bytes | Script_PlutusV3 bytes => zlength bytes
  end.

(** The fields of the transaction bodies that the UTxO rules read. *)
Record ByronTxIn := mkByronTxIn { bi_txid : list Z; bi_index : Z }.
Record ByronTxOut := mkByronTxOut { bto_address : list Z; bto_amount : Z }.
Record ByronTx := mkByronTx {
  btx_inputs : list ByronTxIn; btx_outputs : list ByronTxOut }.
Record ShelleyTxBody := mkShelleyTxBody {
  sb_inputs : list ShelleyTxIn; sb_outputs : list ShelleyTxOut; sb_fee : Z; sb_ttl : Z }.
(** Allegra to Conway bodies differ in the type of their outputs. *)
Record TxBody (Output : Type) := mkTxBody {
  tb_inputs : list ShelleyTxIn;
  tb_outputs : list Output;
  tb_fee : Z;
  tb_ttl : option Z;
  tb_validity_interval_start : option Z }.
Arguments mkTxBody {Output}.
Arguments tb_inputs {Output}.
Arguments tb_outputs {Output}.
Arguments tb_fee {Output}.
Arguments tb_ttl {Output}.
Arguments tb_validity_interval_start {Output}.

(** The signed quantities of a [MintAsset], in order. *)
Definition MintAsset : Type := PolicyAssets.
Definition AllegraTxBody : Type := TxBody ShelleyTxOut.
Record MaryTxBody := mkMaryTxBody { my_body : TxBody MaryTxOut; my_mint : option MintAsset }.
Record AlonzoTxBody := mkAlonzoTxBody { al_body : TxBody AlonzoTxOut; al_mint : option MintAsset }.
Record BabbageTxBody := mkBabbageTxBody {
  ba_body : TxBody BabbageTxOut; ba_mint : option MintAsset }.
Record ConwayTxBody := mkConwayTxBody {
  cw_body : TxBody BabbageTxOut; cw_mint : option MintAsset; cw_treasury_donation : option Z }.

Abbreviation MultiEraUtxo := (gmap ShelleyTxIn MultiEraTxOut).

(** ** Checks and sums *)

Definition checked_add_u64 (a b : Z) (site : string) : outcome LedgerError Z :=
  if a + b <=? U64_MAX then Ok (a + b) else Err (ValueOverflow site).
Definition checked_add2 : Z -> Z -> string -> outcome LedgerError Z := checked_add_u64.
Definition checked_add3 (a b c : Z) (site : string) : outcome LedgerError Z :=
  let? x := checked_add_u64 a b site in checked_add_u64 x c site.

Fixpoint sum_coins_from (acc : Z) (coins : list Z) (site : string) : outcome LedgerError Z :=
  match coins with
  | [] => Ok acc
  | c :: coins => let? acc := checked_add_u64 acc c site in sum_coins_from acc coins site
  end.
Definition checked_sum_coins (coins : list Z) (site : string) : outcome LedgerError Z :=
  sum_coins_from 0 coins site.

Fixpoint sum_consumed_from (total : Z) (utxo : MultiEraUtxo) (inputs : list ShelleyTxIn)
    : outcome LedgerError Z :=
  match inputs with
  | [] => Ok total
  | input :: inputs =>
      let? entry := ok_or (utxo !! input) InputNotInUtxo in
      let? total := checked_add_u64 total (MultiEraTxOut_coin entry) "sum_consumed_coin" in
      sum_consumed_from total utxo inputs
  end.
Definition sum_consumed_coin : MultiEraUtxo -> list ShelleyTxIn -> outcome LedgerError Z :=
  sum_consumed_from 0.

(** [*entry.entry(name).or_insert(0) += qty] *)
Definition add_assets (entry : gmap (list Z) Z) (assets : list (list Z * Z)) : gmap (list Z) Z :=
  foldl (fun e '(name, qty) => <[name := wrap64 (default 0 (e !! name) + qty)]> e) entry assets.
Definition add_multi_asset (dst : MultiAsset) (src : PolicyAssets) : MultiAsset :=
  foldl (fun d '(policy, assets) => <[policy := add_assets (default ∅ (d !! policy)) assets]> d)
    dst src.
Definition add_value (total : MultiAsset) (v : MaryValue) : MultiAsset :=
  match value_multi_asset v with Some ma => add_multi_asset total ma | None => total end.
Definition sum_output_multi_asset (amounts : list MaryValue) : MultiAsset :=
  foldl add_value ∅ amounts.
Definition sum_consumed_multi_asset (utxo : MultiEraUtxo) (inputs : list ShelleyTxIn)
    : MultiAsset :=
  foldl (fun total input =>
           match utxo !! input with
           | Some entry => add_value total (MultiEraTxOut_value entry)
           | None => total
           end) ∅ inputs.

Definition ADA_POLICY_ID : list Z := repeat 0 28.
Definition validate_no_ada_in_mint (mint : option MintAsset) : outcome LedgerError unit :=
  match mint with
  | Some minted =>
      if existsb (fun '(policy, _) => bool_decide (policy = ADA_POLICY_ID)) minted
      then Err TriesToForgeADA else Ok tt
  | None => Ok tt
  end.

Definition mint_quantity (current qty : Z) : Z :=
  if 0 <=? qty then sat_add current qty else sat_sub current (Z.abs qty).
Definition mint_assets (entry : gmap (list Z) Z) (assets : list (list Z * Z))
    : gmap (list Z) Z :=
  foldl (fun e '(name, qty) => <[name := mint_quantity (default 0 (e !! name)) qty]> e)
    entry assets.
Definition mint_multi_asset (expected : MultiAsset) (minted : MintAsset) : MultiAsset :=
  foldl (fun d '(policy, assets) => <[policy := mint_assets (default ∅ (d !! policy)) assets]> d)
    expected minted.

(** The keys of two maps, in the order of a [BTreeSet]. *)
Definition key_le (a b : list Z) : Prop := bytes_le a b = true.
#[export] Instance key_le_dec : RelDecision key_le.
Proof. intros a b. unfold key_le. apply _. Defined.
Definition all_keys {A} (m m' : gmap (list Z) A) : list (list Z) :=
  merge_sort key_le (elements (dom m ∪ dom m' : gset (list Z))).

Fixpoint check_all {A E} (check : A -> outcome E unit) (l : list A) : outcome E unit :=
  match l with
  | [] => Ok tt
  | x :: l => let? _ := check x in check_all check l
  end.

Definition check_multi_asset_preservation (consumed produced : MultiAsset)
    (mint : option MintAsset) : outcome LedgerError unit :=
  let expected :=
    match mint with Some minted => mint_multi_asset consumed minted | None => consumed end in
  check_all (fun policy =>
      let expected_assets := default ∅ (expected !! policy) in
      let produced_assets := default ∅ (produced !! policy) in
      check_all (fun name =>
          let exp := default 0 (expected_assets !! name) in
          let prod := default 0 (produced_assets !! name) in
          if exp =? prod then Ok tt else Err (MultiAssetNotPreserved policy name exp prod))
        (all_keys expected_assets produced_assets))
    (all_keys expected produced).

Definition check_coin_preservation (consumed produced fee : Z) : outcome LedgerError unit :=
  let? produced_plus_fee := checked_add_u64 produced fee "produced + fee" in
  if consumed =? produced_plus_fee then Ok tt else Err (ValueNotPreserved consumed produced fee).

Definition validate_nonempty (inputs : list ShelleyTxIn) : outcome LedgerError unit :=
  match inputs with [] => Err NoInputs | _ => Ok tt end.

(** A set of the inputs is smaller than their list when one repeats. *)
Definition validate_no_duplicate_inputs (inputs : list ShelleyTxIn) : outcome LedgerError unit :=
  if (size (list_to_set inputs : gset ShelleyTxIn) =? length inputs)%nat then Ok tt
  else Err DuplicateInput.

Definition check_validity (ttl start : option Z) (current_slot : Z) : outcome LedgerError unit :=
  let? _ :=
    match ttl with
    | Some ttl => if ttl <? current_slot then Err (TxExpired ttl current_slot) else Ok tt
    | None => Ok tt
    end in
  match start with
  | Some start => if current_slot <? start then Err (TxNotYetValid start current_slot) else Ok tt
  | None => Ok tt
  end.

(** ** State updates *)

Definition remove_inputs (utxo : MultiEraUtxo) (inputs : list ShelleyTxIn) : MultiEraUtxo :=
  foldl (fun u input => delete input u) utxo inputs.

(** [index: idx as u16] *)
Fixpoint insert_outputs (tx_id : list Z) (idx : Z) (outputs : list MultiEraTxOut)
    (utxo : MultiEraUtxo) : MultiEraUtxo :=
  match outputs with
  | [] => utxo
  | o :: outputs =>
      insert_outputs tx_id (idx + 1) outputs (<[mkTxIn tx_id (wrap16 idx) := o]> utxo)
  end.
Definition spend_and_create (utxo : MultiEraUtxo) (tx_id : list Z) (inputs : list ShelleyTxIn)
    (outputs : list MultiEraTxOut) : MultiEraUtxo :=
  insert_outputs tx_id 0 outputs (remove_inputs utxo inputs).

(** ** Applying a transaction *)

Definition byron_input (i : ByronTxIn) : ShelleyTxIn := mkTxIn (bi_txid i) (wrap16 (bi_index i)).

(** Byron outputs are stored as Shelley outputs. *)
Definition Out_of_byron (o : ByronTxOut) : MultiEraTxOut :=
  Out_Shelley (bto_address o) (bto_amount o).

Definition apply_byron_tx_with_id (utxo : MultiEraUtxo) (tx_id : list Z) (tx : ByronTx)
    : outcome LedgerError MultiEraUtxo :=
  match btx_inputs tx, btx_outputs tx with
  | [], _ => Err NoInputs
  | _, [] => Err NoOutputs
  | _, _ =>
      let shelley_inputs := map byron_input (btx_inputs tx) in
      let? consumed := sum_consumed_coin utxo shelley_inputs in
      let? produced := checked_sum_coins (map bto_amount (btx_outputs tx)) "byron produced sum" in
      if consumed <? produced then Err (ValueNotPreserved consumed produced 0)
      else Ok (spend_and_create utxo tx_id shelley_inputs (map Out_of_byron (btx_outputs tx)))
  end.

Definition apply_shelley_tx_withdrawals (utxo : MultiEraUtxo) (tx_id : list Z)
    (body : ShelleyTxBody) (current_slot withdrawal_total deposits refunds : Z)
    : outcome LedgerError MultiEraUtxo :=
  let? _ := validate_nonempty (sb_inputs body) in
  let? _ := validate_no_duplicate_inputs (sb_inputs body) in
  if sb_ttl body <? current_slot then Err (TxExpired (sb_ttl body) current_slot)
  else
    let? consumed := sum_consumed_coin utxo (sb_inputs body) in
    let? produced := checked_sum_coins (map so_amount (sb_outputs body)) "shelley produced sum" in
    let? available :=
      checked_add3 consumed withdrawal_total refunds "shelley consumed+wdrl+refunds" in
    let? charges := checked_add2 (sb_fee body) deposits "shelley fee+deposits" in
    let? _ := check_coin_preservation available produced charges in
    Ok (spend_and_create utxo tx_id (sb_inputs body) (map Out_of_shelley (sb_outputs body))).

(** The checks that the Allegra to Babbage functions share; [era] is the
    prefix of the overflow sites. *)
Definition check_inputs_and_coin {Output} (era : string) (coin : Output -> Z)
    (utxo : MultiEraUtxo) (body : TxBody Output)
    (current_slot withdrawal_total deposits refunds : Z) : outcome LedgerError unit :=
  let? _ := validate_nonempty (tb_inputs body) in
  let? _ := validate_no_duplicate_inputs (tb_inputs body) in
  let? _ := check_validity (tb_ttl body) (tb_validity_interval_start body) current_slot in
  let? consumed := sum_consumed_coin utxo (tb_inputs body) in
  let? produced := checked_sum_coins (map coin (tb_outputs body)) (era ++ " produced sum") in
  let? available :=
    checked_add3 consumed withdrawal_total refunds (era ++ " consumed+wdrl+refunds") in
  let? charges := checked_add2 (tb_fee body) deposits (era ++ " fee+deposits") in
  check_coin_preservation available produced charges.

Definition check_assets {Output} (amount : Output -> MaryValue) (utxo : MultiEraUtxo)
    (body : TxBody Output) (mint : option MintAsset) : outcome LedgerError unit :=
  let? _ := validate_no_ada_in_mint mint in
  check_multi_asset_preservation (sum_consumed_multi_asset utxo (tb_inputs body))
    (sum_output_multi_asset (map amount (tb_outputs body))) mint.

Definition apply_allegra_tx_withdrawals (utxo : MultiEraUtxo) (tx_id : list Z)
    (body : AllegraTxBody) (current_slot withdrawal_total deposits refunds : Z)
    : outcome LedgerError MultiEraUtxo :=
  let? _ := check_inputs_and_coin "allegra" so_amount utxo body current_slot withdrawal_total
              deposits refunds in
  Ok (spend_and_create utxo tx_id (tb_inputs body) (map Out_of_shelley (tb_outputs body))).

Definition apply_mary_tx_withdrawals (utxo : MultiEraUtxo) (tx_id : list Z)
    (body : MaryTxBody) (current_slot withdrawal_total deposits refunds : Z)
    : outcome LedgerError MultiEraUtxo :=
  let? _ := check_inputs_and_coin "mary" (fun o => value_coin (mo_amount o)) utxo (my_body body)
              current_slot withdrawal_total deposits refunds in
  let? _ := check_assets mo_amount utxo (my_body body) (my_mint body) in
  Ok (spend_and_create utxo tx_id (tb_inputs (my_body body))
        (map Out_of_mary (tb_outputs (my_body body)))).

Definition apply_alonzo_tx_withdrawals (utxo : MultiEraUtxo) (tx_id : list Z)
    (body : AlonzoTxBody) (current_slot withdrawal_total deposits refunds : Z)
    : outcome LedgerError MultiEraUtxo :=
  let? _ := check_inputs_and_coin "alonzo" (fun o => value_coin (ao_amount o)) utxo
              (al_body body) current_slot withdrawal_total deposits refunds in
  let? _ := check_assets ao_amount utxo (al_body body) (al_mint body) in
  Ok (spend_and_create utxo tx_id (tb_inputs (al_body body))
        (map Out_of_alonzo (tb_outputs (al_body body)))).

Definition apply_babbage_tx_withdrawals (utxo : MultiEraUtxo) (tx_id : list Z)
    (body : BabbageTxBody) (current_slot withdrawal_total deposits refunds : Z)
    : outcome LedgerError MultiEraUtxo :=
  let? _ := check_inputs_and_coin "babbage" (fun o => value_coin (bo_amount o)) utxo
              (ba_body body) current_slot withdrawal_total deposits refunds in
  let? _ := check_assets bo_amount utxo (ba_body body) (ba_mint body) in
  Ok (spend_and_create utxo tx_id (tb_inputs (ba_body body))
        (map Out_of_babbage (tb_outputs (ba_body body)))).

Definition apply_conway_tx_withdrawals (utxo : MultiEraUtxo) (tx_id : list Z)
    (body : ConwayTxBody) (current_slot withdrawal_total deposits refunds : Z)
    : outcome LedgerError MultiEraUtxo :=
  let b := cw_body body in
  let? _ := validate_nonempty (tb_inputs b) in
  let? _ := validate_no_duplicate_inputs (tb_inputs b) in
  let? _ := check_validity (tb_ttl b) (tb_validity_interval_start b) current_slot in
  let? consumed := sum_consumed_coin utxo (tb_inputs b) in
  let? produced :=
    checked_sum_coins (map (fun o => value_coin (bo_amount o)) (tb_outputs b))
      "conway produced sum" in
  let? charges :=
    checked_add3 (tb_fee b) deposits (default 0 (cw_treasury_donation body))
      "conway fee+deposits+donation" in
  let? available :=
    checked_add3 consumed withdrawal_total refunds "conway consumed+wdrl+refunds" in
  let? _ := check_coin_preservation available produced charges in
  let? _ := check_assets bo_amount utxo b (cw_mint body) in
  Ok (spend_and_create utxo tx_id (tb_inputs b) (map Out_of_babbage (tb_outputs b))).

(** A transaction whose scripts failed only pays its collateral. *)
Definition apply_collateral_only (utxo : MultiEraUtxo) (tx_id : list Z)
    (collateral : option (list ShelleyTxIn)) (collateral_return : option BabbageTxOut)
    (num_outputs : Z) : MultiEraUtxo :=
  let utxo := remove_inputs utxo (default [] collateral) in
  match collateral_return with
  | Some ret => <[mkTxIn tx_id (wrap16 num_outputs) := Out_of_babbage ret]> utxo
  | None => utxo
  end.

(** ** Reference inputs *)

Definition MAX_REF_SCRIPT_SIZE_PER_TX : Z := 204800.

Definition validate_reference_inputs (utxo : MultiEraUtxo) (ref_inputs : list ShelleyTxIn)
    : outcome LedgerError unit :=
  check_all (fun input =>
      match utxo !! input with Some _ => Ok tt | None => Err ReferenceInputNotInUtxo end)
    ref_inputs.

Definition validate_reference_input_disjointness (inputs ref_inputs : list ShelleyTxIn)
    : outcome LedgerError unit :=
  check_all (fun ri =>
      check_all (fun inp =>
          if bool_decide (ri = inp) then Err ReferenceInputContention else Ok tt) inputs)
    ref_inputs.

Definition total_ref_scripts_size (utxo : MultiEraUtxo) (spending_inputs : list ShelleyTxIn)
    (ref_inputs : option (list ShelleyTxIn)) : Z :=
  foldl (fun total input =>
           match utxo !! input with
           | Some txout =>
               match MultiEraTxOut_script_ref txout with
               | Some sr => sat_add total (Script_binary_size sr)
               | None => total
               end
           | None => total
           end) 0 (spending_inputs ++ default [] ref_inputs)%list.

Definition validate_tx_ref_scripts_size (utxo : MultiEraUtxo)
    (spending_inputs : list ShelleyTxIn) (ref_inputs : option (list ShelleyTxIn))
    : outcome LedgerError unit :=
  let actual := total_ref_scripts_size utxo spending_inputs ref_inputs in
  if MAX_REF_SCRIPT_SIZE_PER_TX <? actual
  then Err (TxRefScriptsSizeTooBig actual MAX_REF_SCRIPT_SIZE_PER_TX) else Ok tt.

Definition validate_outside_forecast (current_slot stability_window : Z) (ttl : option Z)
    (has_redeemers : bool) : outcome LedgerError unit :=
  match ttl with
  | Some upper_bound =>
      let limit := sat_add current_slot stability_window in
      if has_redeemers && (limit <? upper_bound) then Err (OutsideForecast upper_bound limit)
      else Ok tt
  | None => Ok tt
  end.
