(* ===== verification/UtxoBalance.v ===== *)
(** * The transaction balance is kept

    What an accepted transaction does to the lovelace and to every other asset
    held in the UTxO set, for the rules of every era, and where the rules stop
    short of it. *)

From stdpp Require Import gmap sorting strings.
From S2P Require Import Prelude Cbor Types NativeScript PlutusData Uplc Builtins.
From S2P Require Import ScriptContext Utxo.
Local Open Scope string_scope.
Local Open Scope Z_scope.

(** ** Totals over the UTxO set *)

Definition utxo_total (f : MultiEraTxOut -> Z) (u : gmap ShelleyTxIn MultiEraTxOut) : Z :=
  map_fold (fun _ o z => f o + z) 0 u.
Definition sum_of {A} (f : A -> Z) (l : list A) : Z := foldr (fun a z => f a + z) 0 l.
(** What a list of inputs is worth; an input that is not in the set is worth nothing. *)
Definition worth (f : MultiEraTxOut -> Z) (u : MultiEraUtxo) (inputs : list ShelleyTxIn) : Z :=
  sum_of (fun i => default 0 (f <$> u !! i)) inputs.

Definition fresh_id (u : MultiEraUtxo) (tx_id : list Z) : Prop := forall i, u !! mkTxIn tx_id i = None.

Section totals.
  Context (f : MultiEraTxOut -> Z).

Lemma utxo_total_insert (u : gmap ShelleyTxIn MultiEraTxOut) i o :
  u !! i = None -> utxo_total f (<[i := o]> u) = f o + utxo_total f u.
Proof.
  intros Hi. unfold utxo_total. rewrite map_fold_insert_L; [done| |done]. intros. lia.
Qed.

Lemma utxo_total_delete u i :
  utxo_total f (delete i u) = utxo_total f u - default 0 (f <$> u !! i).
Proof.
  destruct (u !! i) as [o|] eqn:E; simpl.
  - rewrite <- (insert_delete_id u i o E) at 2.
    rewrite utxo_total_insert by apply lookup_delete_eq. lia.
  - rewrite delete_id by done. lia.
Qed.

Lemma worth_delete u i inputs : i ∉ inputs -> worth f (delete i u) inputs = worth f u inputs.
Proof.
  induction inputs as [|j js IH]; [done|]. intros Hi. apply not_elem_of_cons in Hi as [Hj Hi].
  unfold worth in *. simpl. rewrite lookup_delete_ne by done. by rewrite IH.
Qed.

Lemma remove_inputs_total u inputs :
  NoDup inputs -> utxo_total f (remove_inputs u inputs) = utxo_total f u - worth f u inputs.
Proof.
  revert u. induction inputs as [|i js IH]; intros u Hd; [unfold worth; simpl; lia|].
  apply NoDup_cons in Hd as [Hi Hd]. unfold remove_inputs in *. simpl.
  rewrite IH, worth_delete, utxo_total_delete by done. unfold worth. simpl. lia.
Qed.

Lemma remove_inputs_lookup u inputs i : u !! i = None -> remove_inputs u inputs !! i = None.
Proof.
  revert u. induction inputs as [|j js IH]; intros u Hi; [done|]. unfold remove_inputs in *.
  simpl. apply IH. destruct (decide (i = j)) as [->|]; [apply lookup_delete_eq|].
  by rewrite lookup_delete_ne.
Qed.

Lemma insert_outputs_total tx_id outputs idx u :
  0 <= idx -> idx + zlength outputs <= 65536 ->
  (forall j, idx <= j -> u !! mkTxIn tx_id j = None) ->
  utxo_total f (insert_outputs tx_id idx outputs u) = utxo_total f u + sum_of f outputs.
Proof.
  revert idx u. induction outputs as [|o os IH]; intros idx u Hidx Hlen Hfree;
    [unfold sum_of; simpl; lia|].
  unfold zlength in *. cbn [length] in Hlen. simpl.
  rewrite IH; [|lia|lia|].
  - rewrite utxo_total_insert; [unfold sum_of; simpl; lia|].
    rewrite wrap16_id by (unfold u16, U16_MAX; lia). apply Hfree. lia.
  - intros j Hj. rewrite wrap16_id by (unfold u16, U16_MAX; lia).
    rewrite lookup_insert_ne by (intros [=]; lia). apply Hfree. lia.
Qed.

(** The books of one transaction. *)
Lemma spend_and_create_total u tx_id inputs outputs :
  NoDup inputs -> fresh_id u tx_id -> zlength outputs <= 65536 ->
  utxo_total f (spend_and_create u tx_id inputs outputs)
  = utxo_total f u - worth f u inputs + sum_of f outputs.
Proof.
  intros Hd Hf Hl. unfold spend_and_create.
  rewrite insert_outputs_total; [by rewrite remove_inputs_total|lia|lia|].
  intros j _. apply remove_inputs_lookup, Hf.
Qed.
End totals.

Lemma sum_of_map {A B} (f : B -> Z) (g : A -> B) l : sum_of f (map g l) = sum_of (fun a => f (g a)) l.
Proof. induction l as [|a l IH]; [done|]. unfold sum_of in *. simpl. by rewrite IH. Qed.

Lemma sum_of_ext {A} (f g : A -> Z) l : (forall a, f a = g a) -> sum_of f l = sum_of g l.
Proof. intros H. induction l as [|a l IH]; [done|]. unfold sum_of in *. simpl. by rewrite IH, H. Qed.

Lemma sum_of_omap {A B} (f : B -> Z) (g : A -> option B) l :
  sum_of f (omap g l) = sum_of (fun a => default 0 (f <$> g a)) l.
Proof.
  induction l as [|a l IH]; [done|]. unfold sum_of in *. csimpl.
  destruct (g a) as [b|]; csimpl; rewrite IH; [done|lia].
Qed.

(** ** What the checks establish *)

Lemma checked_add_exact a b site r : checked_add_u64 a b site = Ok r -> r = a + b.
Proof. unfold checked_add_u64. case_match; [by intros [= <-]|done]. Qed.
Lemma checked_add3_exact a b c site r : checked_add3 a b c site = Ok r -> r = a + b + c.
Proof.
  unfold checked_add3. intros H. destruct (checked_add_u64 a b site) eqn:E; [|done..].
  apply checked_add_exact in E as ->. by apply checked_add_exact in H.
Qed.

Lemma sum_coins_exact coins acc site r :
  sum_coins_from acc coins site = Ok r -> r = acc + sum_of (fun c => c) coins.
Proof.
  revert acc. induction coins as [|c cs IH]; intros acc; simpl.
  - intros [= <-]. unfold sum_of. simpl. lia.
  - destruct (checked_add_u64 acc c site) eqn:E; [|done..]. apply checked_add_exact in E as ->.
    intros H. apply IH in H as ->. unfold sum_of. simpl. lia.
Qed.

Lemma sum_consumed_exact u inputs total r :
  sum_consumed_from total u inputs = Ok r ->
  r = total + worth MultiEraTxOut_coin u inputs /\ Forall (fun i => is_Some (u !! i)) inputs.
Proof.
  revert total. induction inputs as [|i js IH]; intros total; simpl.
  - intros [= <-]. unfold worth, sum_of. simpl. split; [lia|constructor].
  - destruct (u !! i) as [o|] eqn:Ei; [|done]. simpl.
    destruct (checked_add_u64 _ _ _) eqn:E; [|done..]. apply checked_add_exact in E as ->.
    intros H. apply IH in H as [-> Hs]. unfold worth, sum_of in *. simpl.
    split; [lia|]. constructor; [by eexists|done].
Qed.

Lemma no_duplicates inputs : validate_no_duplicate_inputs inputs = Ok tt <-> NoDup inputs.
Proof.
  unfold validate_no_duplicate_inputs.
  assert (Hs : (size (list_to_set inputs : gset ShelleyTxIn) = length inputs) <-> NoDup inputs).
  { split; [|apply size_list_to_set].
    induction inputs as [|i js IH]; [constructor|]. cbn [list_to_set length]. intros Hs.
    assert (Hle : forall l : list ShelleyTxIn,
              (size (list_to_set l : gset ShelleyTxIn) <= length l)%nat).
    { induction l as [|x l IHl]; [done|]. cbn [list_to_set length]. rewrite size_union_alt, size_singleton.
      pose proof (subseteq_size (list_to_set l ∖ {[x]} : gset ShelleyTxIn) (list_to_set l)
                    ltac:(set_solver)). lia. }
    specialize (Hle js). rewrite size_union_alt, size_singleton in Hs.
    pose proof (subseteq_size (list_to_set js ∖ {[i]} : gset ShelleyTxIn) (list_to_set js)
                  ltac:(set_solver)) as Hsub.
    constructor; [|apply IH; lia]. intros Hi.
    pose proof (subset_size (list_to_set js ∖ {[i]} : gset ShelleyTxIn) (list_to_set js)
                  ltac:(set_solver)). lia. }
  destruct (_ =? _)%nat eqn:E; [apply Nat.eqb_eq in E|apply Nat.eqb_neq in E]; split; try done; tauto.
Qed.

(** ** Quantities of one asset *)

Section asset.
  Context (policy name : list Z).

(** The quantities a list of assets gives the asset, in order. *)
Definition name_entries (assets : list (list Z * Z)) : list Z :=
  omap (fun '(n, q) => if bool_decide (n = name) then Some q else None) assets.
Definition asset_entries (ma : PolicyAssets) : list Z :=
  flat_map (fun '(p, assets) => if bool_decide (p = policy) then name_entries assets else []) ma.
Definition quantity (ma : PolicyAssets) : Z := sum_of (fun q => q) (asset_entries ma).
Definition value_quantity (v : MaryValue) : Z :=
  match value_multi_asset v with Some ma => quantity ma | None => 0 end.
Definition out_quantity (o : MultiEraTxOut) : Z := value_quantity (MultiEraTxOut_value o).
Definition mint_amount (mint : option MintAsset) : Z :=
  match mint with Some ma => quantity ma | None => 0 end.

Definition get (m : MultiAsset) : Z := default 0 (default ∅ (m !! policy) !! name).

(** Both loops over a bundle update the entry of the asset once per
    occurrence and leave it alone otherwise. *)
Section updates.
  Context (op : Z -> Z -> Z).

Definition update_assets (entry : gmap (list Z) Z) (assets : list (list Z * Z)) : gmap (list Z) Z :=
  foldl (fun e '(n, q) => <[n := op (default 0 (e !! n)) q]> e) entry assets.
Definition update_bundle (m : MultiAsset) (ma : PolicyAssets) : MultiAsset :=
  foldl (fun d '(p, assets) => <[p := update_assets (default ∅ (d !! p)) assets]> d) m ma.

Lemma update_assets_get entry assets :
  default 0 (update_assets entry assets !! name)
  = foldl op (default 0 (entry !! name)) (name_entries assets).
Proof.
  revert entry. unfold update_assets, name_entries.
  induction assets as [|[n q] l IH]; intros entry; [done|]. cbn [foldl]. rewrite IH. simpl.
  destruct (bool_decide_reflect (n = name)) as [->|Hn].
  - by rewrite lookup_insert_eq.
  - by rewrite lookup_insert_ne.
Qed.

Lemma update_bundle_get m ma : get (update_bundle m ma) = foldl op (get m) (asset_entries ma).
Proof.
  revert m. unfold update_bundle, asset_entries.
  induction ma as [|[p assets] l IH]; intros m; [done|]. cbn [foldl flat_map]. rewrite IH.
  rewrite foldl_app. f_equal. unfold get.
  destruct (bool_decide_reflect (p = policy)) as [->|Hp].
  - rewrite lookup_insert_eq. cbn [default]. apply update_assets_get.
  - by rewrite lookup_insert_ne.
Qed.
End updates.

Lemma wrap64_add a b : wrap64 (wrap64 a + b) = wrap64 (a + b).
Proof. unfold wrap64. by rewrite Zplus_mod_idemp_l. Qed.

Lemma fold_wrapping qs a :
  u64 a -> foldl (fun x q => wrap64 (x + q)) a qs = wrap64 (a + sum_of (fun q => q) qs).
Proof.
  revert a. induction qs as [|q qs IH]; intros a Ha; unfold sum_of in *; simpl.
  - by rewrite Z.add_0_r, wrap64_id.
  - rewrite IH by apply wrap64_range. rewrite wrap64_add. f_equal. lia.
Qed.

Lemma add_value_get m v :
  u64 (get m) -> get (add_value m v) = wrap64 (get m + value_quantity v).
Proof.
  intros Hm. unfold add_value, value_quantity. destruct (value_multi_asset v) as [ma|].
  - change (add_multi_asset m ma) with (update_bundle (fun x q => wrap64 (x + q)) m ma).
    rewrite update_bundle_get. by apply fold_wrapping.
  - by rewrite Z.add_0_r, wrap64_id.
Qed.

Lemma add_values_get vs m :
  u64 (get m) -> get (foldl add_value m vs) = wrap64 (get m + sum_of value_quantity vs).
Proof.
  revert m. induction vs as [|v vs IH]; intros m Hm; unfold sum_of in *; simpl.
  - by rewrite Z.add_0_r, wrap64_id.
  - rewrite IH; rewrite add_value_get by done; [|apply wrap64_range].
    rewrite wrap64_add. f_equal. lia.
Qed.

Lemma get_empty : get ∅ = 0.
Proof. unfold get. by rewrite lookup_empty. Qed.

(** The sums of the code are the sums of the quantities, modulo [2^64]. *)
Lemma sum_output_get amounts :
  get (sum_output_multi_asset amounts) = wrap64 (sum_of value_quantity amounts).
Proof.
  unfold sum_output_multi_asset. rewrite add_values_get, get_empty; [done|].
  rewrite get_empty. by unfold u64, U64_MAX.
Qed.

Lemma consumed_values (u : MultiEraUtxo) (inputs : list ShelleyTxIn) m :
  foldl (fun total input =>
           match u !! input with
           | Some entry => add_value total (MultiEraTxOut_value entry)
           | None => total
           end) m inputs
  = foldl add_value m (omap (fun i => MultiEraTxOut_value <$> u !! i) inputs).
Proof.
  revert m. induction inputs as [|i js IH]; intros m; [done|]. simpl. rewrite IH.
  by destruct (u !! i).
Qed.

Lemma sum_consumed_get u inputs :
  get (sum_consumed_multi_asset u inputs) = wrap64 (worth out_quantity u inputs).
Proof.
  unfold sum_consumed_multi_asset. rewrite consumed_values.
  rewrite add_values_get, get_empty by (rewrite get_empty; by unfold u64, U64_MAX).
  f_equal. rewrite Z.add_0_l, sum_of_omap. unfold worth, sum_of.
  induction inputs as [|i js IH]; [done|]. cbn [foldr]. rewrite IH. by destruct (u !! i).
Qed.

Lemma mint_get m minted :
  get (mint_multi_asset m minted) = foldl mint_quantity (get m) (asset_entries minted).
Proof. apply (update_bundle_get mint_quantity). Qed.

(** ** Keys *)

Lemma elem_of_all_keys {A} (m m' : gmap (list Z) A) k :
  k ∈ all_keys m m' <-> is_Some (m !! k) \/ is_Some (m' !! k).
Proof.
  unfold all_keys. rewrite (merge_sort_Permutation key_le), elem_of_elements, elem_of_union, !elem_of_dom.
  done.
Qed.

Lemma check_all_ok {A E} (check : A -> outcome E unit) l :
  check_all check l = Ok tt -> Forall (fun x => check x = Ok tt) l.
Proof.
  induction l as [|x l IH]; [constructor|]. simpl.
  destruct (check x) as [[]| | |] eqn:E1; [|done..]. constructor; [done|by apply IH].
Qed.

Lemma check_all_intro {A E} (check : A -> outcome E unit) l :
  Forall (fun x => check x = Ok tt) l -> check_all check l = Ok tt.
Proof. induction 1 as [|x l Hx _ IH]; [done|]. simpl. by rewrite Hx. Qed.

Lemma assets_balance consumed produced mint :
  check_multi_asset_preservation consumed produced mint = Ok tt ->
  get (match mint with Some minted => mint_multi_asset consumed minted | None => consumed end)
  = get produced.
Proof.
  unfold check_multi_asset_preservation. intros H. apply check_all_ok in H.
  set (expected := match mint with Some _ => _ | None => _ end) in *.
  rewrite Forall_forall in H. unfold get.
  destruct (decide (policy ∈ all_keys expected produced)) as [Hp|Hp].
  - specialize (H _ Hp). apply check_all_ok in H. rewrite Forall_forall in H.
    destruct (decide (name ∈ all_keys (default ∅ (expected !! policy))
                                (default ∅ (produced !! policy)))) as [Hn|Hn].
    + specialize (H _ Hn). cbv beta zeta in H. destruct (_ =? _) eqn:E; [by zbool|done].
    + rewrite elem_of_all_keys in Hn.
      destruct (default ∅ (expected !! policy) !! name); [destruct Hn; left; by eexists|].
      destruct (default ∅ (produced !! policy) !! name); [destruct Hn; right; by eexists|done].
  - rewrite elem_of_all_keys in Hp.
    destruct (expected !! policy); [destruct Hp; left; by eexists|].
    destruct (produced !! policy); [destruct Hp; right; by eexists|done].
Qed.
End asset.

(** ** Transactions of every era *)

(** A transaction with the withdrawals, deposits and refunds the ledger
    computed for it. *)
Inductive EraTx :=
  | Tx_Shelley (body : ShelleyTxBody)
  | Tx_Allegra (body : AllegraTxBody)
  | Tx_Mary (body : MaryTxBody)
  | Tx_Alonzo (body : AlonzoTxBody)
  | Tx_Babbage (body : BabbageTxBody)
  | Tx_Conway (body : ConwayTxBody).

Definition apply_tx (u : MultiEraUtxo) (tx_id : list Z) (tx : EraTx) (slot w d r : Z)
    : outcome LedgerError MultiEraUtxo :=
  match tx with
  | Tx_Shelley b => apply_shelley_tx_withdrawals u tx_id b slot w d r
  | Tx_Allegra b => apply_allegra_tx_withdrawals u tx_id b slot w d r
  | Tx_Mary b => apply_mary_tx_withdrawals u tx_id b slot w d r
  | Tx_Alonzo b => apply_alonzo_tx_withdrawals u tx_id b slot w d r
  | Tx_Babbage b => apply_babbage_tx_withdrawals u tx_id b slot w d r
  | Tx_Conway b => apply_conway_tx_withdrawals u tx_id b slot w d r
  end.

Definition era_inputs (tx : EraTx) : list ShelleyTxIn :=
  match tx with
  | Tx_Shelley b => sb_inputs b
  | Tx_Allegra b => tb_inputs b
  | Tx_Mary b => tb_inputs (my_body b)
  | Tx_Alonzo b => tb_inputs (al_body b)
  | Tx_Babbage b => tb_inputs (ba_body b)
  | Tx_Conway b => tb_inputs (cw_body b)
  end.
Definition era_outputs (tx : EraTx) : list MultiEraTxOut :=
  match tx with
  | Tx_Shelley b => map Out_of_shelley (sb_outputs b)
  | Tx_Allegra b => map Out_of_shelley (tb_outputs b)
  | Tx_Mary b => map Out_of_mary (tb_outputs (my_body b))
  | Tx_Alonzo b => map Out_of_alonzo (tb_outputs (al_body b))
  | Tx_Babbage b => map Out_of_babbage (tb_outputs (ba_body b))
  | Tx_Conway b => map Out_of_babbage (tb_outputs (cw_body b))
  end.
(** The fee, and the donation of a Conway transaction. *)
Definition era_charge (tx : EraTx) : Z :=
  match tx with
  | Tx_Shelley b => sb_fee b
  | Tx_Allegra b => tb_fee b
  | Tx_Mary b => tb_fee (my_body b)
  | Tx_Alonzo b => tb_fee (al_body b)
  | Tx_Babbage b => tb_fee (ba_body b)
  | Tx_Conway b => tb_fee (cw_body b) + default 0 (cw_treasury_donation b)
  end.
(** The mint field of the eras that have one. *)
Definition era_mint (tx : EraTx) : option (option MintAsset) :=
  match tx with
  | Tx_Shelley _ | Tx_Allegra _ => None
  | Tx_Mary b => Some (my_mint b)
  | Tx_Alonzo b => Some (al_mint b)
  | Tx_Babbage b => Some (ba_mint b)
  | Tx_Conway b => Some (cw_mint b)
  end.

Ltac next_check H E :=
  match type of H with
  | obind ?m _ = Ok _ => destruct m eqn:E; cbn [obind] in H; [|discriminate H..]
  | (if ?b then Err _ else _) = Ok _ => destruct b eqn:E; [discriminate H|]
  end.

Lemma coin_preserved consumed produced fee x :
  check_coin_preservation consumed produced fee = Ok x -> consumed = produced + fee.
Proof.
  unfold check_coin_preservation. intros H. next_check H E.
  apply checked_add_exact in E as ->. destruct (_ =? _) eqn:E1; [|done]. by zbool.
Qed.

(** The coin equation, whatever the order the code forms its sums in. *)
Lemma coin_books u inputs coins w d r fee don site1 site2 consumed produced available charges x :
  sum_consumed_coin u inputs = Ok consumed ->
  checked_sum_coins coins site1 = Ok produced ->
  checked_add3 consumed w r site2 = Ok available ->
  charges = fee + d + don ->
  check_coin_preservation available produced charges = Ok x ->
  worth MultiEraTxOut_coin u inputs + w + r = sum_of (fun c => c) coins + fee + d + don.
Proof.
  intros H1 H2 H3 -> H5. apply sum_consumed_exact in H1 as [-> _]. apply sum_coins_exact in H2 as ->.
  apply checked_add3_exact in H3 as ->. apply coin_preserved in H5. lia.
Qed.

Lemma spend_checks {Output} era (coin : Output -> Z) u (body : TxBody Output) slot w d r x :
  check_inputs_and_coin era coin u body slot w d r = Ok x ->
  NoDup (tb_inputs body)
  /\ worth MultiEraTxOut_coin u (tb_inputs body) + w + r
     = sum_of coin (tb_outputs body) + tb_fee body + d.
Proof.
  unfold check_inputs_and_coin. intros H.
  next_check H E1. next_check H E2. destruct a0. apply no_duplicates in E2.
  next_check H E3. next_check H E4. next_check H E5. next_check H E6. next_check H E7.
  split; [done|]. apply checked_add_exact in E7.
  assert (Hc : a4 = tb_fee body + d + 0) by lia.
  pose proof (coin_books _ _ _ _ _ _ _ _ _ _ _ _ _ _ _ E4 E5 E6 Hc H) as Hb.
  rewrite sum_of_map in Hb. change (fun a => coin a) with coin in Hb. lia.
Qed.

(** The part of acceptance the eras with assets share. *)
Lemma assets_accepted {Output} (amount : Output -> MaryValue) (out : Output -> MultiEraTxOut) u
    tx_id (body : TxBody Output) mint w d r charge x :
  (forall o, MultiEraTxOut_value (out o) = amount o) ->
  NoDup (tb_inputs body) ->
  worth MultiEraTxOut_coin u (tb_inputs body) + w + r
    = sum_of (fun o => value_coin (amount o)) (tb_outputs body) + charge + d ->
  check_assets amount u body mint = Ok x ->
  NoDup (tb_inputs body)
  /\ spend_and_create u tx_id (tb_inputs body) (map out (tb_outputs body))
     = spend_and_create u tx_id (tb_inputs body) (map out (tb_outputs body))
  /\ worth MultiEraTxOut_coin u (tb_inputs body) + w + r
     = sum_of MultiEraTxOut_coin (map out (tb_outputs body)) + charge + d
  /\ check_multi_asset_preservation (sum_consumed_multi_asset u (tb_inputs body))
       (sum_output_multi_asset (map MultiEraTxOut_value (map out (tb_outputs body)))) mint = Ok tt.
Proof.
  intros Hout Hd Hb Hc. unfold check_assets in Hc. next_check Hc E. destruct x.
  assert (Hco : forall o, MultiEraTxOut_coin o = value_coin (MultiEraTxOut_value o)) by (by intros []).
  split; [done|]. split; [done|]. split.
  - rewrite Hb, sum_of_map. do 2 f_equal. apply sum_of_ext. intros o. by rewrite Hco, Hout.
  - rewrite map_map. erewrite map_ext; [exact Hc|done].
Qed.

(** What acceptance means, for every era. *)
Lemma accepted u tx_id tx slot w d r u' :
  apply_tx u tx_id tx slot w d r = Ok u' ->
  NoDup (era_inputs tx)
  /\ u' = spend_and_create u tx_id (era_inputs tx) (era_outputs tx)
  /\ worth MultiEraTxOut_coin u (era_inputs tx) + w + r
     = sum_of MultiEraTxOut_coin (era_outputs tx) + era_charge tx + d
  /\ match era_mint tx with
     | Some mint =>
         check_multi_asset_preservation (sum_consumed_multi_asset u (era_inputs tx))
           (sum_output_multi_asset (map MultiEraTxOut_value (era_outputs tx))) mint = Ok tt
     | None => True
     end.
Proof.
  destruct tx as [b|b|b|b|b|b]; cbn [apply_tx era_inputs era_outputs era_charge era_mint]; intros H.
  - unfold apply_shelley_tx_withdrawals in H.
    next_check H E1. next_check H E2. destruct a0. apply no_duplicates in E2. next_check H E3.
    next_check H E4. next_check H E5. next_check H E6. next_check H E7. next_check H E8.
    injection H as <-. apply checked_add_exact in E7.
    assert (Hc : a3 = sb_fee b + d + 0) by lia.
    pose proof (coin_books _ _ _ _ _ _ _ _ _ _ _ _ _ _ _ E4 E5 E6 Hc E8) as Hb.
    rewrite sum_of_map in Hb. rewrite sum_of_map. split; [done|]. split; [done|]. split; [|done].
    cbn [MultiEraTxOut_coin Out_of_shelley]. lia.
  - unfold apply_allegra_tx_withdrawals in H. next_check H E1. injection H as <-.
    apply spend_checks in E1 as [Hd Hb]. by rewrite sum_of_map.
  - unfold apply_mary_tx_withdrawals in H. next_check H E1. next_check H E2. injection H as <-.
    apply spend_checks in E1 as [Hd Hb]. eapply assets_accepted; eauto.
  - unfold apply_alonzo_tx_withdrawals in H. next_check H E1. next_check H E2. injection H as <-.
    apply spend_checks in E1 as [Hd Hb]. eapply assets_accepted; eauto.
  - unfold apply_babbage_tx_withdrawals in H. next_check H E1. next_check H E2. injection H as <-.
    apply spend_checks in E1 as [Hd Hb]. eapply assets_accepted; eauto.
  - unfold apply_conway_tx_withdrawals in H.
    next_check H E1. next_check H E2. destruct a0. apply no_duplicates in E2. next_check H E3.
    next_check H E4. next_check H E5. next_check H E6. next_check H E7. next_check H E8.
    next_check H E9. injection H as <-. apply checked_add3_exact in E6.
    pose proof (coin_books _ _ _ _ _ _ _ _ _ _ _ _ _ _ _ E4 E5 E7 E6 E8) as Hb.
    rewrite sum_of_map in Hb.
    assert (Hb' : worth MultiEraTxOut_coin u (tb_inputs (cw_body b)) + w + r
      = sum_of (fun o => value_coin (bo_amount o)) (tb_outputs (cw_body b))
        + (tb_fee (cw_body b) + default 0 (cw_treasury_donation b)) + d) by lia.
    eapply assets_accepted; eauto.
Qed.

(** The check compares the two sides of every asset. *)
Lemma assets_check consumed produced mint :
  (forall p n,
     get p n (match mint with Some minted => mint_multi_asset consumed minted | None => consumed end)
     = get p n produced) ->
  check_multi_asset_preservation consumed produced mint = Ok tt.
Proof.
  intros H. unfold check_multi_asset_preservation.
  apply check_all_intro, Forall_forall. intros p _.
  apply check_all_intro, Forall_forall. intros n _.
  specialize (H p n). unfold get in H. cbv zeta. by rewrite H, Z.eqb_refl.
Qed.

(** ** Lovelace *)

(** C2: no transaction of the Shelley to Conway rules creates or destroys
    lovelace: when the transaction is accepted, what the UTxO set holds
    afterwards, with the fee, the donation and the deposits taken, is what it
    held before with the withdrawals and refunds added. The new transaction
    id must not be in the set, and the outputs must fit the 16-bit index. *)
Theorem lovelace_conserved (u : MultiEraUtxo) (tx_id : list Z) (tx : EraTx) (slot w d r : Z)
    (u' : MultiEraUtxo)
    (Hok : apply_tx u tx_id tx slot w d r = Ok u')
    (Hfresh : fresh_id u tx_id) (Houtputs : zlength (era_outputs tx) <= 65536) :
  utxo_total MultiEraTxOut_coin u' + era_charge tx + d
  = utxo_total MultiEraTxOut_coin u + w + r.
Proof.
  apply accepted in Hok as (Hd & -> & Hb & _). rewrite spend_and_create_total by done. lia.
Qed.

(** ** Other assets *)

(** What a [BTreeMap] guarantees of the list of its entries. *)
Definition keys_unique (ma : PolicyAssets) : Prop :=
  NoDup (map fst ma) /\ Forall (fun e => NoDup (map fst e.2)) ma.

Lemma name_entries_unique name assets :
  NoDup (map fst assets) -> (length (name_entries name assets) <= 1)%nat.
Proof.
  unfold name_entries. induction assets as [|[n q] l IH]; intros Hd; [simpl; lia|].
  apply NoDup_cons in Hd as [Hn Hd]. csimpl.
  destruct (bool_decide_reflect (n = name)) as [->|]; [|by apply IH].
  assert (E : omap (fun '(n, q) => if bool_decide (n = name) then Some q else None) l = []).
  { clear IH Hd. induction l as [|[n q'] l IH]; [done|]. csimpl in *.
    apply not_elem_of_cons in Hn as [Hn Hl]. rewrite bool_decide_eq_false_2 by done. by apply IH. }
  rewrite E. simpl. lia.
Qed.

Lemma asset_entries_unique p n ma :
  keys_unique ma -> (length (asset_entries p n ma) <= 1)%nat.
Proof.
  intros [Hd Hn]. unfold asset_entries. induction ma as [|[q assets] l IH]; [simpl; lia|].
  apply NoDup_cons in Hd as [Hq Hd]. inversion Hn as [|? ? Hassets Hl]; subst.
  cbn [flat_map]. rewrite length_app.
  destruct (bool_decide_reflect (q = p)) as [->|]; [|apply IH; done].
  assert (E : flat_map (fun '(p', assets) =>
                if bool_decide (p' = p) then name_entries n assets else []) l = []).
  { clear IH Hd Hn Hl. induction l as [|[q a] l IH]; [done|]. cbn [flat_map].
    apply not_elem_of_cons in Hq as [Hq Hl]. cbn [fst] in Hq.
    rewrite bool_decide_eq_false_2 by done. by apply IH. }
  rewrite E. pose proof (name_entries_unique n assets Hassets). simpl. lia.
Qed.

Lemma mint_exact c qs :
  (length qs <= 1)%nat -> 0 <= c <= U64_MAX -> 0 <= c + sum_of (fun q => q) qs <= U64_MAX ->
  foldl mint_quantity c qs = c + sum_of (fun q => q) qs.
Proof.
  intros Hl Hc Hs. destruct qs as [|q [|q' qs]]; unfold sum_of in *; simpl in *; [lia| |lia].
  unfold mint_quantity, sat_add, sat_sub. destruct (0 <=? q) eqn:E; zbool; lia.
Qed.

(** C25: from Mary on, an accepted transaction changes the amount of every asset
    in the UTxO set by exactly what its mint field says, as long as no sum of
    that asset leaves the 64-bit range: neither side of the transaction has
    [2^64] units or more, and it burns no more than it consumes. *)
Theorem assets_conserved (p n : list Z) (u : MultiEraUtxo) (tx_id : list Z) (tx : EraTx)
    (slot w d r : Z) (u' : MultiEraUtxo) (mint : option MintAsset)
    (Hok : apply_tx u tx_id tx slot w d r = Ok u')
    (Hmint : era_mint tx = Some mint) (Hkeys : keys_unique (default [] mint))
    (Hfresh : fresh_id u tx_id) (Houtputs : zlength (era_outputs tx) <= 65536)
    (Hin : u64 (worth (out_quantity p n) u (era_inputs tx)))
    (Hout : u64 (sum_of (out_quantity p n) (era_outputs tx)))
    (Hburn : u64 (worth (out_quantity p n) u (era_inputs tx) + mint_amount p n mint)) :
  utxo_total (out_quantity p n) u' = utxo_total (out_quantity p n) u + mint_amount p n mint.
Proof.
  apply accepted in Hok as (Hd & -> & _ & Hc). rewrite Hmint in Hc.
  apply (assets_balance p n) in Hc. rewrite sum_output_get, sum_of_map in Hc.
  change (fun a => value_quantity p n (MultiEraTxOut_value a)) with (out_quantity p n) in Hc.
  rewrite spend_and_create_total, <- (wrap64_id _ Hout), <- Hc by done.
  destruct mint as [minted|]; cbn [mint_amount default] in *.
  - rewrite mint_get, sum_consumed_get, wrap64_id by done.
    rewrite mint_exact; [unfold quantity; lia|by apply asset_entries_unique|apply Hin|apply Hburn].
  - rewrite sum_consumed_get, wrap64_id by done. lia.
Qed.

(** ** Where the balance is not kept *)

(** A Conway transaction with one input worth [c] lovelace and nothing else,
    without fee, in its checks on inputs and lovelace. *)
Lemma single_input_tx u i o c tx_id slot outputs mint :
  u !! i = Some o -> MultiEraTxOut_value o = Value_Coin c -> u64 c ->
  checked_sum_coins (map (fun o => value_coin (bo_amount o)) outputs) "conway produced sum" = Ok c ->
  validate_no_ada_in_mint mint = Ok tt ->
  (forall p n,
     get p n (match mint with Some minted => mint_multi_asset ∅ minted | None => ∅ end)
     = wrap64 (sum_of (fun o => value_quantity p n (bo_amount o)) outputs)) ->
  apply_conway_tx_withdrawals u tx_id
    (mkConwayTxBody (mkTxBody [i] outputs 0 None None) mint None) slot 0 0 0
  = Ok (spend_and_create u tx_id [i] (map Out_of_babbage outputs)).
Proof.
  intros Hi Hv Hc Hsum Hada Hget. unfold apply_conway_tx_withdrawals.
  cbn [cw_body tb_inputs tb_outputs tb_fee tb_ttl tb_validity_interval_start cw_mint
       cw_treasury_donation validate_nonempty obind check_validity].
  rewrite (proj2 (no_duplicates [i]) (NoDup_singleton i)). cbn [obind].
  unfold u64 in Hc. assert (Hcoin : MultiEraTxOut_coin o = c).
  { destruct o; simpl in *; by simplify_eq. }
  assert (Hadd : forall a b site, 0 <= a -> 0 <= b -> a + b <= U64_MAX ->
                 checked_add_u64 a b site = Ok (a + b)).
  { intros a b site _ _ Hle. unfold checked_add_u64. by rewrite (proj2 (Z.leb_le _ _)). }
  unfold sum_consumed_coin. cbn [sum_consumed_from]. rewrite Hi. cbn [ok_or obind].
  rewrite Hcoin, Hadd by lia. cbn [obind]. rewrite Hsum. cbn [obind default].
  unfold checked_add3, check_coin_preservation. rewrite !Z.add_0_l.
  repeat (rewrite Hadd by lia; cbn [obind]). rewrite !Z.add_0_r, Z.eqb_refl. cbn [obind].
  unfold check_assets. cbn [tb_inputs tb_outputs]. rewrite Hada. cbn [obind].
  rewrite assets_check; [done|]. intros p n. rewrite sum_output_get, sum_of_map, <- Hget.
  unfold sum_consumed_multi_asset. cbn [foldl]. rewrite Hi. unfold add_value. by rewrite Hv.
Qed.

Lemma checked_sum_one c k site : u64 c -> checked_sum_coins (c :: repeat 0 k) site = Ok c.
Proof.
  intros Hc. unfold u64 in Hc. unfold checked_sum_coins. cbn [sum_coins_from].
  unfold checked_add_u64 at 1. rewrite Z.add_0_l, (proj2 (Z.leb_le c U64_MAX)) by lia.
  cbn [obind]. induction k as [|k IH]; [done|]. cbn [repeat sum_coins_from].
  unfold checked_add_u64 at 1. rewrite Z.add_0_r, (proj2 (Z.leb_le c U64_MAX)) by lia. exact IH.
Qed.

Definition plain_output (v : MaryValue) : BabbageTxOut := mkBabbageTxOut [] v None None.

Lemma quantity_single p n p' n' q :
  quantity p' n' [(p, [(n, q)])] = if bool_decide (p = p') then (if bool_decide (n = n') then q else 0) else 0.
Proof.
  unfold quantity, asset_entries, name_entries. simpl.
  destruct (bool_decide (p = p')); [|done]. simpl.
  destruct (bool_decide (n = n')); unfold sum_of; simpl; lia.
Qed.

(** The range conditions of the asset balance are not checked. The sums of
    the outputs wrap: whoever owns an output of lovelace alone can submit a
    Conway transaction that mints nothing and still adds [2^64] units of any
    asset to the UTxO set. And burning saturates: a transaction may claim to
    burn an asset none of its inputs holds. *)
Theorem asset_rule_gaps (u : MultiEraUtxo) (i : ShelleyTxIn) (o : MultiEraTxOut) (c : Z)
    (tx_id : list Z) (slot : Z) (p n : list Z)
    (Hi : u !! i = Some o) (Hv : MultiEraTxOut_value o = Value_Coin c) (Hc : u64 c)
    (Hfresh : fresh_id u tx_id) (Hp : p <> ADA_POLICY_ID) :
  (exists body u', apply_conway_tx_withdrawals u tx_id body slot 0 0 0 = Ok u'
     /\ cw_mint body = None
     /\ utxo_total (out_quantity p n) u' = utxo_total (out_quantity p n) u + 2 ^ 64)
  /\ (exists body u', apply_conway_tx_withdrawals u tx_id body slot 0 0 0 = Ok u'
       /\ mint_amount p n (cw_mint body) = -1
       /\ utxo_total (out_quantity p n) u' = utxo_total (out_quantity p n) u).
Proof.
  assert (Hworth : worth (out_quantity p n) u [i] = 0).
  { unfold worth, sum_of. cbn [foldr]. rewrite Hi. simpl. unfold out_quantity. by rewrite Hv. }
  split.
  - set (half k := plain_output (Value_CoinAndAssets k [(p, [(n, 2 ^ 63)])])).
    eexists (mkConwayTxBody (mkTxBody [i] [half c; half 0] 0 None None) None None), _.
    split; [eapply single_input_tx; try done|split; [done|]].
    + by apply (checked_sum_one c 1).
    + intros p' n'. rewrite get_empty. unfold sum_of. simpl. unfold value_quantity. simpl.
      rewrite !quantity_single. by repeat case_match.
    + rewrite spend_and_create_total; [|apply NoDup_singleton|done|done].
      rewrite Hworth, sum_of_map. unfold sum_of, out_quantity, value_quantity. simpl.
      rewrite quantity_single, !bool_decide_eq_true_2 by done. lia.
  - eexists (mkConwayTxBody (mkTxBody [i] [plain_output (Value_Coin c)] 0 None None)
               (Some [(p, [(n, -1)])]) None), _.
    split; [eapply single_input_tx; try done|split].
    + by apply (checked_sum_one c 0).
    + simpl. by rewrite bool_decide_eq_false_2.
    + intros p' n'. rewrite mint_get, get_empty. unfold sum_of, asset_entries, name_entries. simpl.
      destruct (bool_decide (p = p')); [|done]. simpl. by destruct (bool_decide (n = n')).
    + simpl. by rewrite quantity_single, !bool_decide_eq_true_2.
    + rewrite spend_and_create_total; [|apply NoDup_singleton|done|done].
      rewrite Hworth. unfold sum_of, out_quantity, value_quantity. simpl. lia.
Qed.

(** A Byron transaction whose inputs do not repeat creates no lovelace; but
    the inputs are not checked to differ. An input named twice is counted
    twice and removed once, so the owner of an output worth [c] can turn it
    into one worth [2c]. *)
Theorem byron_repeated_inputs (u : MultiEraUtxo) (tx_id : list Z)
    (Hfresh : fresh_id u tx_id) :
  (forall tx u', apply_byron_tx_with_id u tx_id tx = Ok u' ->
     NoDup (map byron_input (btx_inputs tx)) -> zlength (btx_outputs tx) <= 65536 ->
     utxo_total MultiEraTxOut_coin u' <= utxo_total MultiEraTxOut_coin u)
  /\ (forall i o, u !! i = Some o -> u16 (ti_index i) -> u64 (2 * MultiEraTxOut_coin o) ->
       exists tx u', apply_byron_tx_with_id u tx_id tx = Ok u'
         /\ utxo_total MultiEraTxOut_coin u'
            = utxo_total MultiEraTxOut_coin u + MultiEraTxOut_coin o).
Proof.
  split.
  - intros tx u' H Hd Hl. unfold apply_byron_tx_with_id in H.
    destruct (btx_inputs tx) as [|i is'] eqn:Ei; [done|]. rewrite <- Ei in *.
    destruct (btx_outputs tx) as [|o os] eqn:Eo; [done|]. rewrite <- Eo in *.
    next_check H E1. next_check H E2. next_check H E3. injection H as <-. zbool.
    apply sum_consumed_exact in E1 as [-> _]. apply sum_coins_exact in E2 as ->.
    rewrite spend_and_create_total; [|done|done|].
    + rewrite sum_of_map. rewrite sum_of_map in E3.
      rewrite (sum_of_ext (fun a => MultiEraTxOut_coin (Out_of_byron a)) bto_amount) by done.
      change (fun a => bto_amount a) with bto_amount in E3. lia.
    + unfold zlength in *. by rewrite length_map.
  - intros [txid idx] o Hi Hidx Hc. cbn [ti_index] in Hidx. set (c := MultiEraTxOut_coin o) in *.
    eexists (mkByronTx [mkByronTxIn txid idx; mkByronTxIn txid idx] [mkByronTxOut [] (2 * c)]), _.
    unfold apply_byron_tx_with_id. cbn [btx_inputs btx_outputs map].
    unfold byron_input. cbn [bi_txid bi_index]. rewrite wrap16_id by done.
    unfold u64 in Hc. assert (0 <= c) by lia.
    unfold sum_consumed_coin. cbn [sum_consumed_from]. rewrite Hi. cbn [ok_or obind]. fold c.
    unfold checked_add_u64. rewrite Z.add_0_l, (proj2 (Z.leb_le c U64_MAX)) by lia. cbn [obind].
    rewrite (proj2 (Z.leb_le (c + c) U64_MAX)) by lia. cbn [obind bto_amount].
    pose proof (checked_sum_one (2 * c) 0 "byron produced sum" Hc) as Hs. cbn [repeat] in Hs.
    rewrite Hs. cbn [obind]. rewrite (proj2 (Z.ltb_ge (c + c) (2 * c))) by lia.
    split; [done|]. unfold spend_and_create, remove_inputs. cbn [foldl insert_outputs].
    rewrite wrap16_id by (unfold u16, U16_MAX; lia).
    rewrite utxo_total_insert.
    + rewrite !utxo_total_delete, lookup_delete_eq, Hi. simpl. fold c. lia.
    + destruct (decide (mkTxIn txid idx = mkTxIn tx_id 0)) as [->|Hne]; [apply lookup_delete_eq|].
      rewrite !lookup_delete_ne by done. apply Hfresh.
Qed.

(** ** Witnesses *)

Definition sample_in : ShelleyTxIn := mkTxIn [1] 0.
Definition sample_token : PolicyAssets := [([7], [([8], 5)])].
Definition sample_utxo : MultiEraUtxo :=
  <[sample_in := Out_Mary [] (Value_CoinAndAssets 10 sample_token)]>
    (<[mkTxIn [2] 0 := Out_Shelley [] 20]> ∅).
(** Spends the token, mints three more and pays a fee. *)
Definition sample_conway : ConwayTxBody :=
  mkConwayTxBody
    (mkTxBody [sample_in]
       [mkBabbageTxOut [] (Value_CoinAndAssets 4 [([7], [([8], 8)])]) None None;
        mkBabbageTxOut [] (Value_Coin 5) None None] 2 None (Some 3))
    (Some [([7], [([8], 3)])]) (Some 1).

Lemma sample_fresh : fresh_id sample_utxo [3].
Proof. intros i. unfold sample_utxo. by rewrite !lookup_insert_ne, lookup_empty. Qed.

Lemma lovelace_conserved_witness :
  exists u', apply_tx sample_utxo [3] (Tx_Conway sample_conway) 5 2 0 0 = Ok u'
    /\ utxo_total MultiEraTxOut_coin u' + 3 + 0 = 30 + 2 + 0.
Proof.
  eexists. split; [vm_compute; reflexivity|].
  apply (lovelace_conserved sample_utxo [3] (Tx_Conway sample_conway) 5 2 0 0);
    [vm_compute; reflexivity|apply sample_fresh|vm_compute; discriminate].
Defined.

Lemma assets_conserved_witness :
  exists u', apply_tx sample_utxo [3] (Tx_Conway sample_conway) 5 2 0 0 = Ok u'
    /\ utxo_total (out_quantity [7] [8]) u' = 5 + 3.
Proof.
  eexists. split; [vm_compute; reflexivity|].
  apply (assets_conserved [7] [8] sample_utxo [3] (Tx_Conway sample_conway) 5 2 0 0 _
           (Some [([7], [([8], 3)])]));
    [vm_compute; reflexivity|reflexivity| |apply sample_fresh|vm_compute; discriminate| | |].
  - split; repeat constructor; set_solver.
  - vm_compute; split; discriminate.
  - vm_compute; split; discriminate.
  - vm_compute; split; discriminate.
Defined.

Lemma asset_rule_gaps_witness :
  exists body u', apply_conway_tx_withdrawals sample_utxo [3] body 5 0 0 0 = Ok u'
    /\ cw_mint body = None /\ utxo_total (out_quantity [7] [8]) u' = 5 + 2 ^ 64.
Proof.
  apply (proj1 (asset_rule_gaps sample_utxo (mkTxIn [2] 0) (Out_Shelley [] 20) 20 [3] 5 [7] [8]
    ltac:(vm_compute; reflexivity) ltac:(reflexivity) ltac:(vm_compute; split; discriminate)
    sample_fresh ltac:(discriminate))).
Defined.

Lemma byron_repeated_inputs_witness :
  exists tx u', apply_byron_tx_with_id sample_utxo [3] tx = Ok u'
    /\ utxo_total MultiEraTxOut_coin u' = 30 + 20.
Proof.
  apply (proj2 (byron_repeated_inputs sample_utxo [3] sample_fresh) (mkTxIn [2] 0)
           (Out_Shelley [] 20)).
  - vm_compute; reflexivity.
  - vm_compute; split; discriminate.
  - vm_compute; split; discriminate.
Defined.
