(* ===== verification/Staking.v ===== *)
(** * Registries of the ledger and stake snapshots

    Model of the containers of [crates/ledger/src/state/]: reward accounts,
    stake credentials, stake pools, delegated representatives, the
    constitutional committee, the deposit pot, treasury and reserves and
    instantaneous rewards; and of [crates/ledger/src/stake.rs], which computes
    who holds how much stake from them. A struct whose only field is a map is
    that map. Plain [+] on [u64] wraps. *)

From stdpp Require Import gmap.
From S2P Require Import Prelude Cbor Types TypesCodec BTree ProtocolParams.
From S2P Require Import NativeScript PlutusData Uplc Builtins ScriptContext Utxo.
Local Open Scope Z_scope.

Abbreviation PoolKeyHash := (list Z).

(** ** Reward accounts: [state/reward_accounts.rs] *)

Record RewardAccountState := mkRewardState {
  ras_balance : Z;
  ras_delegated_pool : option PoolKeyHash }.
#[export] Instance RewardAccountState_eta : Eta RewardAccountState :=
  fun s => mkRewardState (ras_balance s) (ras_delegated_pool s).
Abbreviation RewardAccounts := (list (RewardAccount * RewardAccountState)).

Definition set_balance (b : Z) (s : RewardAccountState) : RewardAccountState :=
  s <| ras_balance := b |>.
(** [state.set_balance(state.balance().saturating_add(amount))] *)
Definition credit (amount : Z) (s : RewardAccountState) : RewardAccountState :=
  set_balance (sat_add (ras_balance s) amount) s.
Definition debit (amount : Z) (s : RewardAccountState) : RewardAccountState :=
  set_balance (sat_sub (ras_balance s) amount) s.

Definition accounts_balance (accounts : RewardAccounts) (account : RewardAccount) : Z :=
  match bt_get account accounts with Some s => ras_balance s | None => 0 end.
Definition find_account_by_credential (accounts : RewardAccounts) (cred : StakeCredential)
    : option RewardAccount :=
  List.find (fun a => key_eqb (ra_credential a) cred) (bt_keys accounts).
Definition credit_by_credential (accounts : RewardAccounts) (cred : StakeCredential) (amount : Z)
    : RewardAccounts * bool :=
  match find_account_by_credential accounts cred with
  | Some key =>
      match bt_get key accounts with
      | Some _ => (bt_alter (credit amount) key accounts, true)
      | None => (accounts, false)
      end
  | None => (accounts, false)
  end.

(** ** Stake credentials: [state/stake_credentials.rs] *)

Record StakeCredentialState := mkCredentialState {
  sc_delegated_pool : option PoolKeyHash;
  sc_delegated_drep : option DRep;
  sc_deposit : Z;
  sc_registration_ptr : option (Z * Z * Z) }.
#[export] Instance StakeCredentialState_eta : Eta StakeCredentialState :=
  fun s => mkCredentialState (sc_delegated_pool s) (sc_delegated_drep s) (sc_deposit s)
             (sc_registration_ptr s).
Abbreviation StakeCredentialsMap := (list (StakeCredential * StakeCredentialState)).

Definition register (creds : StakeCredentialsMap) (cred : StakeCredential)
    : StakeCredentialsMap * bool :=
  if bt_contains cred creds then (creds, false)
  else (bt_insert cred (mkCredentialState None None 0 None) creds, true).
Definition register_with_deposit (creds : StakeCredentialsMap) (cred : StakeCredential) (deposit : Z)
    : StakeCredentialsMap * bool :=
  if bt_contains cred creds then (creds, false)
  else (bt_insert cred (mkCredentialState None None deposit None) creds, true).
Definition register_with_ptr (creds : StakeCredentialsMap) (cred : StakeCredential) (deposit : Z)
    (ptr : option (Z * Z * Z)) : StakeCredentialsMap * bool :=
  if bt_contains cred creds then (creds, false)
  else (bt_insert cred (mkCredentialState None None deposit ptr) creds, true).
Definition unregister (creds : StakeCredentialsMap) (cred : StakeCredential)
    : StakeCredentialsMap * option StakeCredentialState :=
  (bt_remove cred creds, bt_get cred creds).

(** [for v in m.values_mut() { *v = f(v) }] *)
Definition map_values {K V} (f : V -> V) (m : list (K * V)) : list (K * V) :=
  (fun e => (e.1, f e.2)) <$> m.

Definition clear_drep_delegation (creds : StakeCredentialsMap) (drep : DRep) : StakeCredentialsMap :=
  map_values (fun s =>
    match sc_delegated_drep s with
    | Some d => if key_eqb d drep then s <| sc_delegated_drep := None |> else s
    | None => s
    end) creds.
Definition is_builtin_drep (d : DRep) : bool :=
  match d with AlwaysAbstain | AlwaysNoConfidence => true | _ => false end.

(** ** Delegated representatives: [state/drep_state.rs] *)

Record RegisteredDrep := mkRegisteredDrep {
  rd_anchor : option Anchor;
  rd_deposit : Z;
  rd_last_active_epoch : option EpochNo }.
#[export] Instance RegisteredDrep_eta : Eta RegisteredDrep :=
  fun r => mkRegisteredDrep (rd_anchor r) (rd_deposit r) (rd_last_active_epoch r).
Abbreviation DrepState := (list (DRep * RegisteredDrep)).

Definition touch_activity (epoch : EpochNo) (r : RegisteredDrep) : RegisteredDrep :=
  r <| rd_last_active_epoch := Some epoch |>.
Definition drep_register (dreps : DrepState) (drep : DRep) (state : RegisteredDrep)
    : DrepState * bool :=
  if bt_contains drep dreps then (dreps, false) else (bt_insert drep state dreps, true).
Definition drep_unregister (dreps : DrepState) (drep : DRep) : DrepState * option RegisteredDrep :=
  (bt_remove drep dreps, bt_get drep dreps).
(** [last_active_epoch.is_some_and(|e| e + drep_activity < epoch)] *)
Definition drep_inactive (epoch : EpochNo) (drep_activity : Z) (r : RegisteredDrep) : bool :=
  match rd_last_active_epoch r with
  | Some e => sat_add e drep_activity <? epoch
  | None => false
  end.
Definition inactive_dreps (dreps : DrepState) (epoch : EpochNo) (drep_activity : Z) : list DRep :=
  (List.filter (fun e => drep_inactive epoch drep_activity e.2) dreps).*1.

Definition cleanup_dangling_drep_delegations (creds : StakeCredentialsMap) (dreps : DrepState)
    : StakeCredentialsMap :=
  map_values (fun s =>
    match sc_delegated_drep s with
    | Some drep =>
        if negb (is_builtin_drep drep) && negb (bt_contains drep dreps)
        then s <| sc_delegated_drep := None |> else s
    | None => s
    end) creds.
Definition clear_pool_delegations (creds : StakeCredentialsMap) (retired : list PoolKeyHash)
    : StakeCredentialsMap :=
  match retired with
  | [] => creds
  | _ =>
      map_values (fun s =>
        match sc_delegated_pool s with
        | Some pool =>
            if List.existsb (key_eqb pool) retired then s <| sc_delegated_pool := None |> else s
        | None => s
        end) creds
  end.

(** ** Stake pools: [state/pool_state.rs] *)

Record RegisteredPool := mkRegisteredPool {
  rp_params : PoolParams;
  rp_retiring_epoch : option EpochNo;
  rp_deposit : Z }.
#[export] Instance RegisteredPool_eta : Eta RegisteredPool :=
  fun p => mkRegisteredPool (rp_params p) (rp_retiring_epoch p) (rp_deposit p).
Record PoolState := mkPoolState {
  pool_entries : list (PoolKeyHash * RegisteredPool);
  future_params : list (PoolKeyHash * PoolParams) }.
#[export] Instance PoolState_eta : Eta PoolState :=
  fun p => mkPoolState (pool_entries p) (future_params p).

Definition pool_register_with_deposit (ps : PoolState) (params : PoolParams) (deposit : Z)
    : PoolState :=
  match bt_get (operator params) (pool_entries ps) with
  | Some _ =>
      ps <| pool_entries := bt_alter (fun e => e <| rp_retiring_epoch := None |>) (operator params)
                              (pool_entries ps) |>
         <| future_params := bt_insert (operator params) params (future_params ps) |>
  | None =>
      ps <| pool_entries := bt_insert (operator params) (mkRegisteredPool params None deposit)
                              (pool_entries ps) |>
  end.
Definition pool_retire (ps : PoolState) (op : PoolKeyHash) (epoch : EpochNo) : PoolState * bool :=
  match bt_get op (pool_entries ps) with
  | None => (ps, false)
  | Some _ =>
      (ps <| pool_entries := bt_alter (fun e => e <| rp_retiring_epoch := Some epoch |>) op
                               (pool_entries ps) |>, true)
  end.
(** [retiring_epoch.is_some_and(|e| e <= epoch)] *)
Definition retires_by (epoch : EpochNo) (p : RegisteredPool) : bool :=
  match rp_retiring_epoch p with Some e => e <=? epoch | None => false end.
Definition process_retirements (ps : PoolState) (current_epoch : EpochNo)
    : PoolState * list PoolKeyHash :=
  let retiring := (List.filter (fun e => retires_by current_epoch e.2) (pool_entries ps)).*1 in
  (foldl (fun ps key =>
            ps <| pool_entries := bt_remove key (pool_entries ps) |>
               <| future_params := bt_remove key (future_params ps) |>) ps retiring,
   retiring).
Definition find_pool_by_vrf_key (ps : PoolState) (vrf_key : list Z) : option PoolKeyHash :=
  match List.find (fun e => key_eqb (vrf_keyhash e.2) vrf_key) (future_params ps) with
  | Some e => Some e.1
  | None =>
      fst <$> List.find (fun e => negb (bt_contains e.1 (future_params ps))
                                  && key_eqb (vrf_keyhash (rp_params e.2)) vrf_key)
                (pool_entries ps)
  end.
Definition adopt_future_params (ps : PoolState) : PoolState :=
  foldl (fun ps e =>
           ps <| pool_entries := bt_alter (fun p => p <| rp_params := e.2 |>) e.1 (pool_entries ps) |>)
    (ps <| future_params := [] |>) (future_params ps).

(** ** The committee: [state/committee_state.rs] *)

Inductive CommitteeAuth :=
  | CommitteeHotCredential (c : StakeCredential)
  | CommitteeMemberResigned (anchor : option Anchor).
Record CommitteeMemberState := mkMember {
  cm_authorization : option CommitteeAuth;
  cm_expires_at : option Z }.
#[export] Instance CommitteeMemberState_eta : Eta CommitteeMemberState :=
  fun m => mkMember (cm_authorization m) (cm_expires_at m).
Abbreviation CommitteeState := (list (StakeCredential * CommitteeMemberState)).

Definition is_expired (current_epoch : EpochNo) (m : CommitteeMemberState) : bool :=
  match cm_expires_at m with Some term => term <? current_epoch | None => false end.
Definition hot_credential (m : CommitteeMemberState) : option StakeCredential :=
  match cm_authorization m with Some (CommitteeHotCredential c) => Some c | _ => None end.
Definition is_resigned (m : CommitteeMemberState) : bool :=
  match cm_authorization m with Some (CommitteeMemberResigned _) => true | _ => false end.
Definition is_enacted_member (m : CommitteeMemberState) : bool := is_some (cm_expires_at m).

Definition register_with_term (cs : CommitteeState) (cred : StakeCredential) (expires_at : Z)
    : CommitteeState * bool :=
  match bt_get cred cs with
  | Some _ => (bt_alter (fun m => m <| cm_expires_at := Some expires_at |>) cred cs, false)
  | None => (bt_insert cred (mkMember None (Some expires_at)) cs, true)
  end.
Definition clear_membership (cs : CommitteeState) (cred : StakeCredential) : CommitteeState :=
  bt_alter (fun m => m <| cm_expires_at := None |>) cred cs.
Definition clear_all_membership (cs : CommitteeState) : CommitteeState :=
  map_values (fun m => m <| cm_expires_at := None |>) cs.
Definition prune_non_members (cs : CommitteeState) : CommitteeState :=
  List.filter (fun e => is_some (cm_expires_at e.2)) cs.

(** ** Deposits, treasury, instantaneous rewards *)

Record DepositPot := mkDepositPot {
  key_deposits : Z; pool_deposits : Z; drep_deposits : Z; proposal_deposits : Z }.
#[export] Instance DepositPot_eta : Eta DepositPot :=
  fun p => mkDepositPot (key_deposits p) (pool_deposits p) (drep_deposits p) (proposal_deposits p).
Definition DepositPot_total (p : DepositPot) : Z :=
  sat_add (sat_add (sat_add (key_deposits p) (pool_deposits p)) (drep_deposits p))
    (proposal_deposits p).
Definition add_key_deposit (p : DepositPot) (amount : Z) : DepositPot :=
  p <| key_deposits := sat_add (key_deposits p) amount |>.
Definition return_key_deposit (p : DepositPot) (amount : Z) : DepositPot :=
  p <| key_deposits := sat_sub (key_deposits p) amount |>.
Definition add_pool_deposit (p : DepositPot) (amount : Z) : DepositPot :=
  p <| pool_deposits := sat_add (pool_deposits p) amount |>.
Definition return_pool_deposit (p : DepositPot) (amount : Z) : DepositPot :=
  p <| pool_deposits := sat_sub (pool_deposits p) amount |>.
Definition add_drep_deposit (p : DepositPot) (amount : Z) : DepositPot :=
  p <| drep_deposits := sat_add (drep_deposits p) amount |>.
Definition return_drep_deposit (p : DepositPot) (amount : Z) : DepositPot :=
  p <| drep_deposits := sat_sub (drep_deposits p) amount |>.
Definition add_proposal_deposit (p : DepositPot) (amount : Z) : DepositPot :=
  p <| proposal_deposits := sat_add (proposal_deposits p) amount |>.
Definition return_proposal_deposit (p : DepositPot) (amount : Z) : DepositPot :=
  p <| proposal_deposits := sat_sub (proposal_deposits p) amount |>.

Record AccountingState := mkAccounting { treasury : Z; reserves : Z }.
#[export] Instance AccountingState_eta : Eta AccountingState :=
  fun a => mkAccounting (treasury a) (reserves a).

Record InstantaneousRewards := mkInstantaneous {
  ir_reserves : list (StakeCredential * Z);
  ir_treasury : list (StakeCredential * Z);
  delta_reserves : Z;
  delta_treasury : Z }.
Definition no_rewards : InstantaneousRewards := mkInstantaneous [] [] 0 0.
Definition ir_is_empty (ir : InstantaneousRewards) : bool :=
  match ir_reserves ir, ir_treasury ir with
  | [], [] => (delta_reserves ir =? 0) && (delta_treasury ir =? 0)
  | _, _ => false
  end.

(** ** Stake: [stake.rs] *)

Abbreviation IndividualStake := (list (StakeCredential * Z)).
Definition stake_get (stake : IndividualStake) (cred : StakeCredential) : Z :=
  default 0 (bt_get cred stake).
Definition stake_add (stake : IndividualStake) (cred : StakeCredential) (amount : Z)
    : IndividualStake := bt_entry 0 (fun v => wrap64 (v + amount)) cred stake.

Record StakeSnapshot := mkSnapshot {
  sn_stake : IndividualStake;
  sn_delegations : list (StakeCredential * PoolKeyHash);
  sn_pool_params : list (PoolKeyHash * PoolParams) }.
Definition empty_snapshot : StakeSnapshot := mkSnapshot [] [] [].

Record PoolStakeDistribution := mkDistribution {
  pd_pool_stakes : list (PoolKeyHash * Z);
  pd_pool_vrf_keys : list (PoolKeyHash * list Z);
  pd_total_stake : Z }.

Definition pool_stake_distribution (s : StakeSnapshot) : PoolStakeDistribution :=
  let '(pool_stakes, total_stake) :=
    foldl (fun '(pool_stakes, total_stake) '(cred, pool_hash) =>
      if negb (bt_contains pool_hash (sn_pool_params s)) then (pool_stakes, total_stake)
      else
        let amount := stake_get (sn_stake s) cred in
        if amount =? 0 then (pool_stakes, total_stake)
        else (bt_entry 0 (fun v => wrap64 (v + amount)) pool_hash pool_stakes,
              sat_add total_stake amount))
      ([], 0) (sn_delegations s) in
  let pool_vrf_keys :=
    foldl (fun keys pool_hash =>
      match bt_get pool_hash (sn_pool_params s) with
      | Some params => bt_insert pool_hash (vrf_keyhash params) keys
      | None => keys
      end) [] (bt_keys pool_stakes) in
  mkDistribution pool_stakes pool_vrf_keys total_stake.
Definition pool_stake (d : PoolStakeDistribution) (pool : PoolKeyHash) : Z :=
  default 0 (bt_get pool (pd_pool_stakes d)).
Definition relative_stake (d : PoolStakeDistribution) (pool : PoolKeyHash) : Z * Z :=
  if pd_total_stake d =? 0 then (0, 1) else (pool_stake d pool, pd_total_stake d).

Record StakeSnapshots := mkSnapshots {
  ss_mark : StakeSnapshot;
  ss_set : StakeSnapshot;
  ss_go : StakeSnapshot;
  ss_fee_pot : Z;
  ss_previous_fee_pot : Z }.
#[export] Instance StakeSnapshots_eta : Eta StakeSnapshots :=
  fun s => mkSnapshots (ss_mark s) (ss_set s) (ss_go s) (ss_fee_pot s) (ss_previous_fee_pot s).
Definition rotate (s : StakeSnapshots) (new_mark : StakeSnapshot) : StakeSnapshots * Z :=
  (mkSnapshots new_mark (ss_mark s) (ss_set s) 0 (ss_fee_pot s), ss_fee_pot s).
Definition accumulate_fees (s : StakeSnapshots) (fees : Z) : StakeSnapshots :=
  s <| ss_fee_pot := sat_add (ss_fee_pot s) fees |>.

Definition pointer_map (creds : StakeCredentialsMap) : list (Z * Z * Z * StakeCredential) :=
  bt_collect (omap (fun e => (fun ptr => (ptr, e.1)) <$> sc_registration_ptr e.2) creds).
(** What one output adds. *)
Definition stake_of_output (creds : StakeCredentialsMap) (ptrs : list (Z * Z * Z * StakeCredential))
    (stake : IndividualStake) (txout : MultiEraTxOut) : IndividualStake :=
  match Address_from_bytes (MultiEraTxOut_address txout) with
  | Some (Base b) =>
      if bt_contains (ba_staking b) creds then stake_add stake (ba_staking b) (MultiEraTxOut_coin txout)
      else stake
  | Some (Pointer p) =>
      match bt_get (pa_slot p, pa_tx_index p, pa_cert_index p) ptrs with
      | Some cred => stake_add stake cred (MultiEraTxOut_coin txout)
      | None => stake
      end
  | _ => stake
  end.
Definition compute_stake_snapshot (utxo : MultiEraUtxo) (stake_creds : StakeCredentialsMap)
    (reward_accounts : RewardAccounts) (pool_state : PoolState) : StakeSnapshot :=
  let ptr_to_cred := pointer_map stake_creds in
  let stake := foldl (stake_of_output stake_creds ptr_to_cred) [] (map_to_list utxo).*2 in
  let stake :=
    foldl (fun stake '(account, state) =>
      if (0 <? ras_balance state) && bt_contains (ra_credential account) stake_creds
      then stake_add stake (ra_credential account) (ras_balance state) else stake)
      stake reward_accounts in
  let delegations :=
    foldl (fun m '(cred, state) =>
      match sc_delegated_pool state with
      | Some pool => bt_insert cred pool m
      | None => m
      end) [] stake_creds in
  let pool_params :=
    foldl (fun m '(pool, registered) => bt_insert pool (rp_params registered) m) []
      (pool_entries pool_state) in
  mkSnapshot stake delegations pool_params.

Definition compute_drep_stake_distribution (snapshot : StakeSnapshot)
    (stake_creds : StakeCredentialsMap) (proposal_deposits : list (StakeCredential * Z))
    : list (DRep * Z) :=
  foldl (fun drep_stakes '(cred, state) =>
    match sc_delegated_drep state with
    | Some drep =>
        let amount := sat_add (stake_get (sn_stake snapshot) cred)
                        (default 0 (bt_get cred proposal_deposits)) in
        if 0 <? amount then bt_entry 0 (fun v => wrap64 (v + amount)) drep drep_stakes
        else drep_stakes
    | None => drep_stakes
    end) [] stake_creds.

Definition augment_pool_dist_with_proposal_deposits (d : PoolStakeDistribution)
    (stake_creds : StakeCredentialsMap) (proposal_deposits : list (StakeCredential * Z))
    : PoolStakeDistribution :=
  foldl (fun d '(cred, deposit) =>
    if deposit =? 0 then d
    else
      match bt_get cred stake_creds ≫= sc_delegated_pool with
      | Some pool =>
          match bt_get pool (pd_pool_stakes d) with
          | Some _ =>
              mkDistribution (bt_alter (fun s => sat_add s deposit) pool (pd_pool_stakes d))
                (pd_pool_vrf_keys d) (sat_add (pd_total_stake d) deposit)
          | None => d
          end
      | None => d
      end) d proposal_deposits.
