(* ===== verification/RewardsFacts.v ===== *)
(** * Rewards: exactness and bounds

    The truncating helpers, [maxPool] against the rational formula, the
    division of a pool's reward and the total paid out at an epoch boundary. *)

From Stdlib Require Import QArith Qround Qminmax.
From stdpp Require Import list.
From S2P Require Import Prelude Cbor Types TypesCodec BTree ProtocolParams Fees WideArith Staking Rewards.
Local Open Scope Z_scope.

Lemma checked_mul128_some a b : a * b < 2 ^ 128 -> checked_mul128 a b = Some (a * b).
Proof. intros H. unfold checked_mul128. by rewrite (proj2 (Z.ltb_lt _ _) H). Qed.
Lemma checked_mul128_none a b : 2 ^ 128 <= a * b -> checked_mul128 a b = None.
Proof. intros H. unfold checked_mul128. by rewrite (proj2 (Z.ltb_ge _ _) H). Qed.

Lemma mul_div_split a b c : 0 < c -> a * b / c = a / c * b + a mod c * b / c.
Proof.
  intros Hc. rewrite (Z.div_mod a c) at 1 by lia.
  replace ((c * (a / c) + a mod c) * b) with (a mod c * b + a / c * b * c) by ring.
  rewrite Z.div_add by lia. lia.
Qed.

Lemma sat128_le a : Z.min a U128_MAX <= a.
Proof. lia. Qed.

(** What is missing from the exact value when the last product overflows. *)
Definition dropped (a b c : Z) : Z :=
  if 2 ^ 128 <=? (a mod c) * (b mod c) then (a mod c) * (b mod c) / c else 0.

Lemma floor_mul_div_value a b c :
  0 <= a -> 0 <= b -> 0 < c ->
  floor_mul_div a b c = Z.min (a * b / c - dropped a b c) U128_MAX.
Proof.
  intros Ha Hb Hc. unfold floor_mul_div, dropped.
  pose proof (Z.mod_pos_bound a c Hc) as Hr. pose proof (Z.mod_pos_bound b c Hc) as Hr2.
  pose proof (Z.div_pos a c Ha Hc) as Hq. pose proof (Z.div_pos b c Hb Hc) as Hq2.
  rewrite (proj2 (Z.eqb_neq c 0)) by lia.
  assert (Hrb : a mod c * (b mod c) <= a mod c * b) by (apply Z.mul_le_mono_nonneg_l; mlia).
  assert (Hab : a mod c * b <= a * b) by (apply Z.mul_le_mono_nonneg_r; mlia).
  assert (Hdiv : forall x, 0 <= x < 2 ^ 128 -> 0 <= x / c <= U128_MAX).
  { intros x Hx. split; [apply Z.div_pos; lia|]. etransitivity; [apply (Z.div_le_upper_bound x c x); nia|].
    unfold U128_MAX. lits. lia. }
  destruct (Z.lt_ge_cases (a * b) (2 ^ 128)) as [H1|H1].
  { rewrite checked_mul128_some by done. specialize (Hdiv (a * b)).
    rewrite (proj2 (Z.leb_gt _ _)) by lia. nia. }
  rewrite checked_mul128_none by done. cbv zeta.
  rewrite (mul_div_split a b c) by lia.
  destruct (Z.lt_ge_cases (a mod c * b) (2 ^ 128)) as [H2|H2].
  { rewrite checked_mul128_some by done. specialize (Hdiv (a mod c * b)).
    rewrite (proj2 (Z.leb_gt _ _)) by lia. unfold sat_add128, sat_mul128. nia. }
  rewrite checked_mul128_none by done.
  rewrite (Z.mul_comm (a mod c) b), (mul_div_split b (a mod c) c), (Z.mul_comm (a mod c) (b mod c)) by lia.
  destruct (Z.lt_ge_cases (b mod c * (a mod c)) (2 ^ 128)) as [H3|H3].
  - rewrite checked_mul128_some by done. specialize (Hdiv (b mod c * (a mod c))).
    rewrite (proj2 (Z.leb_gt _ _)) by lia. unfold sat_add128, sat_mul128. nia.
  - rewrite checked_mul128_none by done.
    rewrite (proj2 (Z.leb_le _ _)) by lia. unfold sat_add128, sat_mul128. unfold U128_MAX. nia.
Qed.

Lemma floor_mul_div_exact a b c :
  0 <= a -> 0 <= b -> 0 < c -> (a mod c) * (b mod c) < 2 ^ 128 ->
  floor_mul_div a b c = Z.min (a * b / c) U128_MAX.
Proof.
  intros Ha Hb Hc H. rewrite floor_mul_div_value by done. unfold dropped.
  rewrite (proj2 (Z.leb_gt _ _)) by done. f_equal. lia.
Qed.
Lemma floor_mul_div_le a b c :
  0 <= a -> 0 <= b -> 0 < c -> 0 <= floor_mul_div a b c <= a * b / c.
Proof.
  intros Ha Hb Hc. rewrite floor_mul_div_value by done. unfold dropped.
  pose proof (Z.mod_pos_bound a c Hc). pose proof (Z.mod_pos_bound b c Hc).
  pose proof (Z.mod_le a c Ha Hc). pose proof (Z.mod_le b c Hb Hc).
  assert (a mod c * (b mod c) <= a * b) by (apply Z.mul_le_mono_nonneg; lia).
  assert (a mod c * (b mod c) / c <= a * b / c) by (apply Z.div_le_mono; lia).
  assert (0 <= a mod c * (b mod c) / c) by (apply Z.div_pos; lia).
  unfold U128_MAX. destruct (_ <=? _); lia.
Qed.

(** ** [maxPool] *)

(** The formula of the documentation, over the rationals. *)
Definition Qratio (n d : Z) : Q := inject_Z n / inject_Z d.
Definition maxPool (R n_opt : Z) (a0 : Q) (sigma s : Q) : Q :=
  let z := Qratio 1 n_opt in
  let sigma' := Qmin sigma z in
  let s' := Qmin s z in
  (inject_Z R / (1 + a0) * (sigma' + s' * a0 * ((sigma' - s' * ((z - sigma') / z)) / z)))%Q.

(** Numerator and denominator of [maxPool] for [sigma' = a / b] and [s' = c / d]. *)
Definition mp_num (r k an ad a b c d : Z) : Z :=
  r * (ad * a * d * (b * d) + c * an * k * (a * d - c * (b - k * a)) * b).
Definition mp_den (an ad b d : Z) : Z := (ad + an) * (b * d) * (b * d).

Lemma mp_den_pos an ad b d : 0 <= an -> 0 < ad -> 0 < b -> 0 < d -> 0 < mp_den an ad b d.
Proof. intros. unfold mp_den. repeat apply Z.mul_pos_pos; lia. Qed.

Lemma inject_Z_nonzero z : 0 < z -> ~ (inject_Z z == 0)%Q.
Proof. intros Hz E. unfold Qeq in E. cbn in E. lia. Qed.

Lemma maxPool_fraction r k an ad a b c d :
  0 < k -> 0 < ad -> 0 <= an -> 0 < b -> 0 < d ->
  ((inject_Z r / (1 + Qratio an ad) *
   (Qratio a b + Qratio c d * Qratio an ad *
     ((Qratio a b - Qratio c d * ((Qratio 1 k - Qratio a b) / Qratio 1 k)) / Qratio 1 k)))
   == Qratio (mp_num r k an ad a b c d) (mp_den an ad b d))%Q.
Proof.
  intros Hk Had Han Hb Hd. unfold mp_num, mp_den, Qratio, Z.sub.
  repeat (rewrite inject_Z_plus || rewrite inject_Z_mult || rewrite inject_Z_opp).
  assert (Hs : ~ (inject_Z ad + inject_Z an == 0)%Q).
  { rewrite <- inject_Z_plus. apply inject_Z_nonzero. lia. }
  change (inject_Z 1) with 1%Q.
  apply inject_Z_nonzero in Hk, Had, Hb, Hd.
  field. repeat split; try done.
Qed.

Lemma Qfloor_ratio n d : 0 < d -> Qfloor (Qratio n d) = n / d.
Proof.
  intros Hd. unfold Qratio. destruct d as [|p|]; try lia.
  rewrite <- (Qmake_Qdiv n p). done.
Qed.

Lemma Qratio_le n d n' d' : 0 < d -> 0 < d' -> (Qratio n d <= Qratio n' d')%Q <-> n * d' <= n' * d.
Proof.
  intros Hd Hd'. destruct d as [|d|], d' as [|d'|]; try lia.
  unfold Qratio. rewrite <- (Qmake_Qdiv n d), <- (Qmake_Qdiv n' d'). done.
Qed.
Lemma Qratio_eq n d n' d' : 0 < d -> 0 < d' -> n * d' = n' * d -> (Qratio n d == Qratio n' d')%Q.
Proof. intros Hd Hd' E. apply Qle_antisym; apply Qratio_le; lia. Qed.

Lemma reduced_ratio_spec p k t :
  u64 p -> u64 k -> u64 t -> 0 < k -> 0 < t ->
  exists n d, reduced_ratio p k t = Ok (n, d) /\ u64 n /\ u64 d /\ 0 < d /\ k * n <= d /\
    n * t <= p * d /\ (0 < p -> 0 < n) /\ (Qratio n d == Qmin (Qratio p t) (Qratio 1 k))%Q.
Proof.
  intros Hp Hk Ht Hk0 Ht0. unfold reduced_ratio.
  assert (Hs : exists n d, saturated_ratio p k t = (n, d) /\ u64 n /\ u64 d /\ 0 < d /\ k * n <= d /\
    n * t <= p * d /\ (0 < p -> 0 < n) /\ (Qratio n d == Qmin (Qratio p t) (Qratio 1 k))%Q).
  { unfold saturated_ratio. unfold u64 in *. rewrite checked_mul128_some by (unfold U64_MAX in *; nia).
    destruct (Z.leb_spec (p * k) t) as [Hle|Hgt].
    - exists p, t. split_and!; try lia; try done.
      symmetry. apply Q.min_l. apply Qratio_le; lia.
    - exists 1, k. split_and!; try (unfold U64_MAX in *; lia); try done.
      symmetry. apply Q.min_r. apply Qratio_le; lia. }
  destruct Hs as (n & d & -> & Hn & Hd & Hd0 & Hkn & Hnt & Hpos & HQ).
  rewrite gcd128_spec by (unfold u128, u64, U64_MAX in *; lits; lia). cbn [obind].
  assert (Hg : 0 < Z.gcd n d).
  { pose proof (Z.gcd_nonneg n d). destruct (Z.eq_dec (Z.gcd n d) 0) as [E|]; [|lia].
    apply Z.gcd_eq_0 in E. lia. }
  rewrite (Z.max_l (Z.gcd n d) 1) by lia. set (g := Z.gcd n d) in *.
  destruct (Z.gcd_divide_l n d) as [n' En], (Z.gcd_divide_r n d) as [d' Ed]. fold g in En, Ed.
  rewrite En, Ed, !Z.div_mul by lia. exists n', d'. unfold u64 in *.
  split_and!; try done; try nia.
  rewrite <- HQ. apply Qratio_eq; [nia|lia|]. rewrite En, Ed. ring.
Qed.

Lemma mul_bits a b i j :
  0 <= i -> 0 <= j -> 0 <= a < 2 ^ i -> 0 <= b < 2 ^ j -> 0 <= a * b < 2 ^ (i + j).
Proof. intros Hi Hj Ha Hb. rewrite Z.pow_add_r by done. nia. Qed.
Lemma u64_bits a : u64 a -> 0 <= a < 2 ^ 64.
Proof. unfold u64, U64_MAX. lits. lia. Qed.
Lemma bits_u128 a : 0 <= a < 2 ^ 64 -> u128 a.
Proof. unfold u128. lits. lia. Qed.
Lemma bits_mono a i j : 0 <= i <= j -> 0 <= a < 2 ^ i -> 0 <= a < 2 ^ j.
Proof. intros Hij Ha. pose proof (Z.pow_le_mono_r 2 i j). lia. Qed.

(** [bits a i] proves [0 <= a < 2 ^ i] for a product of factors whose sizes are
    in the context. *)
Ltac bits :=
  first [ eassumption | apply mul_bits; [| |bits|bits]; lia ].

Section fraction.
Context (r k an ad a b c d : Z).
Context (Hr : 0 <= r < 2 ^ 64) (Hk : 0 <= k < 2 ^ 64) (Han : 0 <= an < 2 ^ 64) (Had : 0 <= ad < 2 ^ 64)
  (Ha : 0 <= a < 2 ^ 64) (Hb : 0 <= b < 2 ^ 64) (Hc : 0 <= c < 2 ^ 64) (Hd : 0 <= d < 2 ^ 64).

Lemma term1_spec :
  let t := u512_mul_u256 (U256_mul_u128 (widening_mul ad a) d) (widening_mul b d) in
  ok512 t /\ v512 t = ad * a * d * (b * d) /\ v512 t < 2 ^ 320.
Proof using Had Ha Hb Hd.
  cbv zeta. destruct (widening_mul_spec ad a) as [O1 V1]; [by apply bits_u128..|].
  destruct (widening_mul_spec b d) as [O2 V2]; [by apply bits_u128..|].
  assert (B : 0 <= ad * a * d < 2 ^ (64 + 64 + 64)) by bits.
  destruct (U256_mul_u128_spec (widening_mul ad a) d) as [O3 V3];
    [done|by apply bits_u128|rewrite V1; lits; lia|].
  destruct (u512_mul_u256_spec _ _ O3 O2) as [O4 V4].
  rewrite V4, V3, V2, V1. split_and!; try done.
  assert (0 <= ad * a * d * (b * d) < 2 ^ (64 + 64 + 64 + (64 + 64))) by bits. lia.
Qed.

Lemma term2_spec x :
  ok256 x -> v256 x < 2 ^ 128 ->
  let t := U512_mul_u128 (u512_mul_u256 (U256_mul_u128 (widening_mul c an) k) x) b in
  ok512 t /\ v512 t = c * an * k * v256 x * b /\ v512 t < 2 ^ 384.
Proof using Hk Han Hb Hc.
  cbv zeta. intros Ox Bx. pose proof (v256_range _ Ox) as Rx.
  destruct (widening_mul_spec c an) as [O1 V1]; [by apply bits_u128..|].
  assert (B : 0 <= c * an * k < 2 ^ (64 + 64 + 64)) by bits.
  destruct (U256_mul_u128_spec (widening_mul c an) k) as [O3 V3];
    [done|by apply bits_u128|rewrite V1; lits; lia|].
  destruct (u512_mul_u256_spec _ _ O3 Ox) as [O4 V4].
  assert (Bv : 0 <= v256 x < 2 ^ 128) by lia.
  assert (Bt : 0 <= c * an * k * v256 x * b < 2 ^ (64 + 64 + 64 + 128 + 64)) by bits.
  destruct (U512_mul_u128_spec (u512_mul_u256 (U256_mul_u128 (widening_mul c an) k) x) b) as [O5 V5];
    [done|by apply bits_u128|rewrite V4, V3, V1; lits; lia|].
  rewrite V5, V4, V3, V1. split_and!; try done. lia.
Qed.

Lemma den_spec :
  let t := u512_mul_u256 (U256_mul_u128 (widening_mul b d) (ad + an)) (widening_mul b d) in
  ok512 t /\ v512 t = mp_den an ad b d /\ v512 t < 2 ^ 321.
Proof using Han Had Hb Hd.
  cbv zeta. destruct (widening_mul_spec b d) as [O1 V1]; [by apply bits_u128..|].
  assert (Bs : 0 <= ad + an < 2 ^ 65) by (lits; lia).
  assert (B : 0 <= b * d * (ad + an) < 2 ^ (64 + 64 + 65)) by bits.
  destruct (U256_mul_u128_spec (widening_mul b d) (ad + an)) as [O3 V3];
    [done|unfold u128; lits; lia|rewrite V1; lits; lia|].
  destruct (u512_mul_u256_spec _ _ O3 O1) as [O4 V4].
  rewrite V4, V3, V1. unfold mp_den. split_and!; [done|ring|].
  assert (0 <= b * d * (ad + an) * (b * d) < 2 ^ (64 + 64 + 65 + (64 + 64))) by bits. lia.
Qed.

Lemma max_pool_fraction_spec :
  k * a <= b ->
  match max_pool_fraction r k an ad a b c d with
  | None => mp_num r k an ad a b c d <= 0
  | Some (num, den) =>
      ok512 num /\ ok512 den /\ v512 num = mp_num r k an ad a b c d /\ v512 den = mp_den an ad b d
  end.
Proof using Hr Hk Han Had Ha Hb Hc Hd.
  intros Hka. unfold max_pool_fraction.
  assert (Bka : 0 <= k * a < 2 ^ (64 + 64)) by bits.
  replace (sat_sub b (sat_mul128 k a)) with (b - k * a)
    by (unfold sat_sub, sat_mul128, U128_MAX; lits; lia).
  assert (Hf : 0 <= b - k * a < 2 ^ 64) by lia.
  destruct (widening_mul_spec a d) as [O1 V1]; [by apply bits_u128..|].
  destruct (widening_mul_spec c (b - k * a)) as [O2 V2]; [by apply bits_u128..|].
  assert (B1 : 0 <= a * d < 2 ^ (64 + 64)) by bits.
  assert (B2 : 0 <= c * (b - k * a) < 2 ^ (64 + 64)) by bits.
  rewrite u256_lt_spec, V1, V2 by done.
  destruct term1_spec as (Ot & Vt & Bt), den_spec as (Od & Vd & _).
  destruct (Z.ltb_spec (a * d) (c * (b - k * a))) as [Hneg|Hpos].
  - destruct (U256_checked_sub_spec _ _ O2 O1) as [Os Vs]; [lia|].
    destruct (term2_spec _ Os) as (Ou & Vu & Bu); [lia|].
    rewrite u512_lt_spec, U512_eqb_spec, Vt, Vu, Vs, V1, V2 by done. unfold mp_num.
    set (T := ad * a * d * (b * d)) in *.
    set (W := c * an * k * (c * (b - k * a) - a * d) * b) in *.
    replace (c * an * k * (a * d - c * (b - k * a)) * b) with (- W) by (subst W; ring).
    destruct (Z.ltb_spec T W) as [H|H]; [cbn; nia|].
    destruct (Z.eqb_spec T W) as [H'|H']; [cbn; nia|]. cbn [orb fmap option_fmap option_map].
    rewrite Vs, V1, V2 in Vu. fold W in Vu.
    destruct (u512_sub_spec _ _ Ot Ou) as [Ox Vx]; [lia|].
    destruct (U512_mul_u128_spec _ r Ox) as [Oy Vy]; [by apply bits_u128|rewrite Vx; lits; nia|].
    split_and!; try done. rewrite Vy, Vx, Vt, Vu. ring.
  - destruct (U256_checked_sub_spec _ _ O1 O2) as [Os Vs]; [lia|].
    destruct (term2_spec _ Os) as (Ou & Vu & Bu); [lia|].
    destruct (U512_add_spec _ _ Ot Ou) as [Ox Vx]; [lits; lia|]. cbn [fmap option_fmap option_map].
    destruct (U512_mul_u128_spec _ r Ox) as [Oy Vy]; [by apply bits_u128|rewrite Vx; lits; nia|].
    split_and!; try done. rewrite Vy, Vx, Vt, Vu, Vs, V1, V2. unfold mp_num. ring.
Qed.
End fraction.

(** The denominators for which the long division is exact: all but those of
    exactly 256 bits. *)
Definition divisible_den (den : Z) : Prop := den <= 2 ^ 255 \/ 2 ^ 256 <= den.
Definition max_pool_divisible (n_opt : Z) (a0 : UnitInterval) (pool_stake pledge total_stake : Z)
    : Prop :=
  forall sigma s,
    reduced_ratio pool_stake n_opt total_stake = Ok sigma -> reduced_ratio pledge n_opt total_stake = Ok s ->
    divisible_den (mp_den (numerator a0) (Z.max (denominator a0) 1) sigma.2 s.2).

Lemma max_pool_reward_fraction R k a0 p pi t :
  u64 R -> u64 k -> u64 (numerator a0) -> u64 (denominator a0) -> u64 p -> u64 pi -> u64 t ->
  0 < R -> 0 < k -> 0 < p -> 0 < t -> max_pool_divisible k a0 p pi t ->
  exists a b c d,
    max_pool_reward R k a0 p pi t =
      Ok (Z.min (Z.max 0 (mp_num R k (numerator a0) (Z.max (denominator a0) 1) a b c d /
                          mp_den (numerator a0) (Z.max (denominator a0) 1) b d)) U64_MAX) /\
    0 < b /\ 0 < d /\ 0 <= a /\ 0 <= c /\ k * a <= b /\ k * c <= d /\ a * t <= p * b /\
    (Qratio a b == Qmin (Qratio p t) (Qratio 1 k))%Q /\ (Qratio c d == Qmin (Qratio pi t) (Qratio 1 k))%Q.
Proof.
  intros HR Hk Han Had Hp Hpi Ht HR0 Hk0 Hp0 Ht0 Hdiv. unfold max_pool_reward.
  rewrite !(proj2 (Z.eqb_neq _ 0)) by lia. cbn [orb].
  destruct (reduced_ratio_spec p k t) as (a & b & E1 & Ha & Hb & Hb0 & Hka & Hat & _ & Q1); try done.
  destruct (reduced_ratio_spec pi k t) as (c & d & E2 & Hc & Hd & Hd0 & Hkc & _ & _ & Q2); try done.
  exists a, b, c, d. rewrite E1, E2. cbn [obind fst snd]. specialize (Hdiv _ _ E1 E2). cbn [snd] in Hdiv.
  split; [|unfold u64 in *; split_and!; first [done|lia]].
  assert (Had' : u64 (Z.max (denominator a0) 1)) by (unfold u64, U64_MAX in *; lia).
  set (ad := Z.max (denominator a0) 1) in *. set (an := numerator a0) in *.
  assert (Hden : 0 < mp_den an ad b d).
  { apply mp_den_pos; unfold u64 in *; lia. }
  pose proof (max_pool_fraction_spec R k an ad a b c d) as Hf.
  specialize (Hf ltac:(by apply u64_bits) ltac:(by apply u64_bits) ltac:(by apply u64_bits)
    ltac:(by apply u64_bits) ltac:(by apply u64_bits) ltac:(by apply u64_bits) ltac:(by apply u64_bits)
    ltac:(by apply u64_bits) Hka).
  destruct (den_spec an ad b d) as (_ & Vd & Bd); [by apply u64_bits..|].
  destruct (max_pool_fraction R k an ad a b c d) as [[num den]|].
  - destruct Hf as (On & Od & Vn & Vden).
    destruct (u512_div_u512_spec num den) as (q & -> & Eq); [done|done|lia| |].
    { rewrite Vden. destruct Hdiv as [|]; [by left|right]. split; [done|]. lits. lia. }
    cbn [obind]. rewrite Eq, Vn, Vden, Z.max_r; [done|].
    apply Z.div_pos; [|done]. rewrite <- Vn. apply (v512_range _ On).
  - rewrite Z.max_l; [done|]. apply Z.div_le_upper_bound; lia.
Qed.

#[export] Instance maxPool_inner_proper r an k :
  Proper (Qeq ==> Qeq ==> Qeq) (fun sigma s : Q =>
    inject_Z r / (1 + an) * (sigma + s * an * ((sigma - s * ((Qratio 1 k - sigma) / Qratio 1 k)) / Qratio 1 k)))%Q.
Proof. intros x x' Hx y y' Hy. by rewrite Hx, Hy. Qed.

(** C26: the reward of a perfectly performing pool, computed with 512-bit
    integers from the reduced stake and pledge ratios, is the rational formula
    [maxPool] of the documentation rounded down once, clamped to zero when the
    pledge term makes it negative, for all 64-bit inputs whose exact
    denominator does not have exactly 256 bits. *)
Theorem max_pool_reward_exact R k a0 p pi t :
  u64 R -> u64 k -> u64 (numerator a0) -> u64 (denominator a0) -> u64 p -> u64 pi -> u64 t ->
  0 < k -> 0 < p -> 0 < t -> max_pool_divisible k a0 p pi t ->
  max_pool_reward R k a0 p pi t =
    Ok (Z.min (Z.max 0 (Qfloor (maxPool R k (Qratio (numerator a0) (Z.max (denominator a0) 1))
                                  (Qratio p t) (Qratio pi t)))) U64_MAX).
Proof.
  intros HR Hk Han Had Hp Hpi Ht Hk0 Hp0 Ht0 Hdiv.
  destruct (Z.eq_dec R 0) as [->|HR0].
  { unfold max_pool_reward. rewrite !(proj2 (Z.eqb_neq _ 0)) by lia. cbn [orb].
    unfold maxPool. cbv zeta. rewrite (Qfloor_comp _ 0); [done|].
    change (inject_Z 0) with 0%Q. unfold Qdiv. by rewrite !Qmult_0_l. }
  destruct (max_pool_reward_fraction R k a0 p pi t) as
    (a & b & c & d & -> & Hb & Hd & _ & _ & _ & _ & _ & Q1 & Q2); try done; [unfold u64 in *; lia|].
  unfold maxPool. cbv zeta.
  rewrite (Qfloor_comp _ _ (maxPool_inner_proper _ _ _ _ _ (Qeq_sym _ _ Q1) _ _ (Qeq_sym _ _ Q2))).
  rewrite (Qfloor_comp _ _ (maxPool_fraction R k (numerator a0) (Z.max (denominator a0) 1) a b c d
    Hk0 ltac:(lia) ltac:(apply Han) Hb Hd)).
  rewrite Qfloor_ratio; [done|]. apply mp_den_pos; unfold u64 in *; lia.
Qed.

Lemma max_pool_reward_le R k a0 p pi t v :
  u64 R -> u64 k -> u64 (numerator a0) -> u64 (denominator a0) -> u64 p -> u64 pi -> u64 t ->
  0 < t -> (0 < k -> 0 < p -> max_pool_divisible k a0 p pi t) ->
  max_pool_reward R k a0 p pi t = Ok v -> 0 <= v <= U64_MAX /\ v * t <= R * p.
Proof.
  intros HR Hk Han Had Hp Hpi Ht Ht0 Hdiv.
  destruct (decide (0 < R /\ 0 < k /\ 0 < p)) as [(HR0 & Hk0 & Hp0)|Hz].
  2: { unfold max_pool_reward. unfold u64 in *. intros E.
       assert (Hb : (t =? 0) || (k =? 0) || (R =? 0) || (p =? 0) = true).
       { destruct (Z.eqb_spec t 0), (Z.eqb_spec k 0), (Z.eqb_spec R 0), (Z.eqb_spec p 0); done || lia. }
       rewrite Hb in E. injection E as <-. unfold U64_MAX. nia. }
  destruct (max_pool_reward_fraction R k a0 p pi t) as
    (a & b & c & d & -> & Hb & Hd & Ha & Hc & Hka & Hkc & Hat & _); try done; [auto|].
  intros E. injection E as <-. set (ad := Z.max (denominator a0) 1). set (an := numerator a0).
  assert (Hden : 0 < mp_den an ad b d).
  { apply mp_den_pos; unfold u64 in *; lia. }
  split; [unfold U64_MAX; lia|].
  set (q := mp_num R k an ad a b c d / mp_den an ad b d).
  enough (Hq : q * b <= R * a).
  { assert (Z.max 0 q * b <= R * a) by nia.
    assert (Z.max 0 q * b * t <= R * p * b) by nia. unfold U64_MAX. nia. }
  pose proof (Z.mul_div_le (mp_num R k an ad a b c d) _ Hden) as Hqd. fold q in Hqd.
  assert (Hnum : mp_num R k an ad a b c d * b <= R * a * mp_den an ad b d).
  { unfold mp_num, mp_den.
    assert (HS : a * d - c * (b - k * a) <= a * d) by nia.
    assert (Hin : c * k * (a * d - c * (b - k * a)) <= a * d * d).
    { destruct (Z.le_gt_cases 0 (a * d - c * (b - k * a))); nia. }
    assert (Hex : c * an * k * (a * d - c * (b - k * a)) * b * b <= an * (a * d * d) * b * b).
    { unfold u64 in *. assert (0 <= an * b * b) by nia.
      replace (c * an * k * (a * d - c * (b - k * a)) * b * b)
        with (an * b * b * (c * k * (a * d - c * (b - k * a)))) by ring.
      replace (an * (a * d * d) * b * b) with (an * b * b * (a * d * d)) by ring. nia. }
    nia. }
  nia.
Qed.

(** ** Stake of a snapshot *)

(** What a delegation that satisfies [P] weighs. *)
Definition weight (s : StakeSnapshot) (P : StakeCredential -> PoolKeyHash -> bool)
    (e : StakeCredential * PoolKeyHash) : Z :=
  if P e.1 e.2 then stake_get (sn_stake s) e.1 else 0.
Definition stake_where (P : StakeCredential -> PoolKeyHash -> bool) (s : StakeSnapshot) : Z :=
  lsum (weight s P) (sn_delegations s).

Record snapshot_ok (s : StakeSnapshot) : Prop := {
  snap_nonneg : forall cred, 0 <= stake_get (sn_stake s) cred;
  snap_total : stake_where (fun _ _ => true) s <= U64_MAX }.

Lemma weight_nonneg s P e : snapshot_ok s -> 0 <= weight s P e.
Proof. intros Hok. unfold weight. pose proof (snap_nonneg s Hok e.1). destruct (P _ _); lia. Qed.
Lemma weight_le s P Q e :
  snapshot_ok s -> (P e.1 e.2 = true -> Q e.1 e.2 = true) -> weight s P e <= weight s Q e.
Proof.
  intros Hok HPQ. unfold weight. pose proof (snap_nonneg s Hok e.1).
  destruct (P e.1 e.2); [by rewrite HPQ|]. destruct (Q e.1 e.2); lia.
Qed.
Lemma stake_where_le P Q s :
  snapshot_ok s -> (forall c p, P c p = true -> Q c p = true) -> stake_where P s <= stake_where Q s.
Proof. intros Hok HPQ. apply lsum_le. intros e. apply weight_le; auto. Qed.
Lemma stake_where_nonneg P s : snapshot_ok s -> 0 <= stake_where P s.
Proof. intros Hok. apply lsum_nonneg. intros e. by apply weight_nonneg. Qed.

(** The loop of [pool_stake_distribution]. *)
Definition dist_step (s : StakeSnapshot) :=
  fun '(pool_stakes, total_stake) '(cred, pool_hash) =>
    if negb (bt_contains pool_hash (sn_pool_params s)) then (pool_stakes, total_stake)
    else
      let amount := stake_get (sn_stake s) cred in
      if amount =? 0 then (pool_stakes, total_stake)
      else (bt_entry 0 (fun v => wrap64 (v + amount)) pool_hash pool_stakes,
            sat_add total_stake amount).

Definition known_pool (s : StakeSnapshot) (_ : StakeCredential) (p : PoolKeyHash) : bool :=
  bt_contains p (sn_pool_params s).
Definition in_pool (s : StakeSnapshot) (pool : PoolKeyHash) (c : StakeCredential) (p : PoolKeyHash)
    : bool := key_eqb p pool && known_pool s c p.
Definition pool_sum (acc : list (PoolKeyHash * Z)) (pool : PoolKeyHash) : Z := default 0 (bt_get pool acc).

Lemma dist_step_spec s acc total e :
  snapshot_ok s -> 0 <= total -> total + weight s (known_pool s) e <= U64_MAX ->
  (forall pool, 0 <= pool_sum acc pool /\ pool_sum acc pool + weight s (in_pool s pool) e <= U64_MAX) ->
  let r := dist_step s (acc, total) e in
  (forall pool, pool_sum r.1 pool = pool_sum acc pool + weight s (in_pool s pool) e) /\
  r.2 = total + weight s (known_pool s) e.
Proof.
  intros Hok Ht Hb Hacc r. subst r. destruct e as [cred p]. pose proof (snap_nonneg s Hok cred) as Hs.
  unfold weight, in_pool, known_pool in *. cbn [dist_step fst snd] in *.
  destruct (bt_contains p (sn_pool_params s)); cbn [negb].
  2: { cbn [fst snd]. split; [intros pool; rewrite andb_false_r|]; lia. }
  destruct (Z.eqb_spec (stake_get (sn_stake s) cred) 0) as [E0|E0]; cbn [fst snd].
  { split; [intros pool|lia]. destruct (key_eqb p pool); cbn [andb]; lia. }
  set (amount := stake_get (sn_stake s) cred) in *. split; [|unfold sat_add; lia].
  intros pool. specialize (Hacc pool). unfold pool_sum, bt_entry in *.
  destruct (key_eqb_reflect p pool) as [->|Hne]; cbn [andb] in *.
  - rewrite bt_get_insert. cbn [default]. apply Z.mod_small. unfold U64_MAX in *. lits. lia.
  - rewrite bt_get_insert_ne by congruence. lia.
Qed.

Lemma dist_loop s l acc total :
  snapshot_ok s -> 0 <= total -> total + lsum (weight s (known_pool s)) l <= U64_MAX ->
  (forall pool, 0 <= pool_sum acc pool /\ pool_sum acc pool + lsum (weight s (in_pool s pool)) l <= U64_MAX) ->
  let r := foldl (dist_step s) (acc, total) l in
  (forall pool, pool_sum r.1 pool = pool_sum acc pool + lsum (weight s (in_pool s pool)) l) /\
  r.2 = total + lsum (weight s (known_pool s)) l.
Proof.
  intros Hok. revert acc total. induction l as [|e l IH]; intros acc total Ht Hb Hacc r; subst r.
  { unfold lsum in *. cbn [foldl fst snd foldr] in *. split; [intros pool|]; lia. }
  rewrite lsum_cons in Hb. setoid_rewrite lsum_cons in Hacc. setoid_rewrite lsum_cons.
  assert (Hrest : forall P, 0 <= weight s P e /\ 0 <= lsum (weight s P) l).
  { intros P. split; [|apply lsum_nonneg; intros]; by apply weight_nonneg. }
  pose proof (Hrest (known_pool s)).
  destruct (dist_step_spec s acc total e) as [H1 H2]; [done|done|lia| |].
  { intros pool. specialize (Hacc pool). pose proof (Hrest (in_pool s pool)). lia. }
  cbn [foldl]. destruct (dist_step s (acc, total) e) as [acc' total']. cbn [fst snd] in *. subst total'.
  destruct (IH acc' (total + weight s (known_pool s) e)) as [H3 H4]; [lia|lia| |].
  { intros pool. rewrite H1. specialize (Hacc pool). pose proof (Hrest (in_pool s pool)). lia. }
  split; [|lia]. intros pool. rewrite H3, H1. lia.
Qed.

(** A pool's stake is what is delegated to it, and the total is all of it. *)
Lemma pool_stake_distribution_spec s :
  snapshot_ok s ->
  (forall pool, pool_stake (pool_stake_distribution s) pool = stake_where (in_pool s pool) s) /\
  pd_total_stake (pool_stake_distribution s) = stake_where (known_pool s) s.
Proof.
  intros Hok. unfold pool_stake_distribution.
  change (foldl _ ([], 0) (sn_delegations s)) with (foldl (dist_step s) ([], 0) (sn_delegations s)).
  destruct (dist_loop s (sn_delegations s) [] 0) as [H1 H2]; [done|lia| | |].
  - etransitivity; [|apply (snap_total s Hok)]. apply (stake_where_le (known_pool s)); auto.
  - intros pool. change (pool_sum [] pool) with 0. split; [done|].
    etransitivity; [|apply (snap_total s Hok)]. apply (stake_where_le (in_pool s pool)); auto.
  - destruct (foldl (dist_step s) ([], 0) (sn_delegations s)) as [ps t]. cbn [fst snd] in *.
    split; [intros pool; unfold pool_stake; cbn; apply (H1 pool)|]. exact H2.
Qed.

(** ** The division of a pool's reward *)

Definition is_owner (owners : list (list Z)) (c : StakeCredential) : bool :=
  List.existsb (key_eqb c) (AddrKeyHash <$> owners).
Definition owner_of (owners : list (list Z)) (pool : PoolKeyHash) (c : StakeCredential) (p : PoolKeyHash)
    : bool := key_eqb p pool && is_owner owners c.
Definition member_of (owners : list (list Z)) (pool : PoolKeyHash) (c : StakeCredential) (p : PoolKeyHash)
    : bool := key_eqb p pool && negb (is_owner owners c).

Lemma wrap64_le z : 0 <= z -> 0 <= wrap64 z <= z.
Proof. intros Hz. unfold wrap64. pose proof (Z.mod_pos_bound z (2 ^ 64)). pose proof (Z.mod_le z (2 ^ 64)). lia. Qed.

Lemma is_owner_spec owners c : is_owner owners c = true <-> exists o, o ∈ owners /\ c = AddrKeyHash o.
Proof.
  unfold is_owner. rewrite existsb_exists. split.
  - intros (x & Hx & E). apply key_eqb_spec in E as <-. apply list_elem_of_In, list_elem_of_fmap in Hx as (o & -> & Ho).
    eauto.
  - intros (o & Ho & ->). exists (AddrKeyHash o). split; [|apply key_eqb_refl].
    apply list_elem_of_In. by apply list_elem_of_fmap_2.
Qed.

Lemma owner_share s pool owners o :
  snapshot_ok s -> o ∉ owners ->
  (if delegates_to s pool (AddrKeyHash o) then stake_get (sn_stake s) (AddrKeyHash o) else 0)
    + stake_where (owner_of owners pool) s <= stake_where (owner_of (o :: owners) pool) s.
Proof.
  intros Hok Ho. set (mine := fun c p => key_eqb p pool && key_eqb c (AddrKeyHash o)).
  assert (Hle : stake_where mine s + stake_where (owner_of owners pool) s
                <= stake_where (owner_of (o :: owners) pool) s).
  { unfold stake_where. rewrite <- lsum_add. apply lsum_le. intros e. unfold weight, owner_of, mine.
    pose proof (snap_nonneg s Hok e.1). destruct (key_eqb e.2 pool); cbn [andb]; [|lia].
    change (is_owner (o :: owners) e.1) with (key_eqb e.1 (AddrKeyHash o) || is_owner owners e.1).
    destruct (key_eqb_reflect e.1 (AddrKeyHash o)) as [E|]; cbn [orb]; [|lia].
    destruct (is_owner owners e.1) eqn:Ei; [|lia]. exfalso.
    apply is_owner_spec in Ei as (o' & Ho' & E'). rewrite E in E'. by injection E' as <-. }
  etransitivity; [|exact Hle]. apply Z.add_le_mono_r. unfold delegates_to.
  destruct (bt_get (AddrKeyHash o) (sn_delegations s)) as [p|] eqn:Eg; [|by apply stake_where_nonneg].
  destruct (key_eqb p pool) eqn:Ep; [|by apply stake_where_nonneg].
  pose proof (lsum_elem (weight s mine) (AddrKeyHash o, p) (sn_delegations s)
                (fun e => weight_nonneg s _ e Hok) (bt_get_elem _ _ _ Eg)) as Hel.
  unfold weight at 1, mine at 1 in Hel. cbn [fst snd] in Hel. by rewrite Ep, key_eqb_refl in Hel.
Qed.

Lemma owner_stake_le s pool owners :
  snapshot_ok s -> NoDup owners ->
  0 <= owner_delegated_stake s pool owners <= stake_where (owner_of owners pool) s.
Proof.
  intros Hok Hnd. unfold owner_delegated_stake. set (f := fun (sum : Z) (o : list Z) => _).
  enough (Hgen : forall sum, 0 <= sum ->
    0 <= foldl f sum owners <= sum + stake_where (owner_of owners pool) s) by (apply (Hgen 0); lia).
  induction Hnd as [|o owners Ho Hnd IH]; intros sum Hsum; cbn [foldl].
  { pose proof (stake_where_nonneg (owner_of [] pool) s Hok). lia. }
  pose proof (owner_share s pool owners o Hok Ho) as Hx. pose proof (snap_nonneg s Hok (AddrKeyHash o)).
  subst f. cbn beta in *. set (x := if delegates_to _ _ _ then _ else _) in *.
  assert (0 <= x) by (subst x; destruct (delegates_to _ _ _); lia).
  pose proof (wrap64_le (sum + x)). specialize (IH (wrap64 (sum + x))). lia.
Qed.

Lemma owners_and_members s pool owners :
  snapshot_ok s -> bt_contains pool (sn_pool_params s) = true ->
  stake_where (owner_of owners pool) s + stake_where (member_of owners pool) s
  = pool_stake (pool_stake_distribution s) pool.
Proof.
  intros Hok Hc. destruct (pool_stake_distribution_spec s Hok) as [-> _].
  unfold stake_where. rewrite <- lsum_add. apply lsum_ext. intros e.
  unfold weight, owner_of, member_of, in_pool, known_pool.
  destruct (key_eqb_reflect e.2 pool) as [->|]; cbn [andb]; [|done]. rewrite Hc.
  destruct (is_owner owners e.1); cbn [negb]; lia.
Qed.

Section members.
Context (params : RewardParams) (s : StakeSnapshot) (pool : PoolKeyHash) (owners : list (list Z)).
Context (profit x den : Z) (Hok : snapshot_ok s) (Hprofit : u64 profit) (Hx : 0 <= x) (Hden : 0 < den).

(** A delegator is paid at most its exact share. *)
Lemma member_reward_le e amount :
  member_reward params pool s owners profit x den e = Some amount ->
  0 < amount /\ amount * den <= profit * x * weight s (member_of owners pool) e.
Proof using Hok Hprofit Hx Hden.
  destruct e as [cred p]. unfold member_reward, weight, member_of. cbn [fst snd].
  destruct (key_eqb p pool); cbn [negb andb]; [|done].
  change (List.existsb (key_eqb cred) (AddrKeyHash <$> owners)) with (is_owner owners cred).
  destruct (is_owner owners cred); cbn [negb]; [done|]. destruct (_ && _); [done|].
  destruct (_ =? 0); [done|]. rewrite (proj2 (Z.ltb_lt 0 den)) by done.
  pose proof (snap_nonneg s Hok cred). unfold u64 in *.
  set (t := stake_get (sn_stake s) cred) in *.
  assert (Hm : 0 <= sat_mul128 x t <= x * t) by (unfold sat_mul128, U128_MAX; nia).
  pose proof (floor_mul_div_le profit (sat_mul128 x t) den ltac:(lia) ltac:(lia) Hden) as Hf.
  pose proof (wrap64_le (floor_mul_div profit (sat_mul128 x t) den) ltac:(lia)) as Hw.
  destruct (Z.ltb_spec 0 (wrap64 (floor_mul_div profit (sat_mul128 x t) den))); [|done].
  intros [= <-]. split; [done|].
  pose proof (Z.mul_div_le (profit * sat_mul128 x t) den Hden). nia.
Qed.

Lemma members_total l m :
  Forall (fun e => 0 <= e.2) m ->
  let r := foldl (fun m e => match member_reward params pool s owners profit x den e with
                             | Some amount => bt_insert e.1 amount m
                             | None => m
                             end) m l in
  Forall (fun e => 0 <= e.2) r /\
  bt_sum id r * den <= bt_sum id m * den + profit * x * lsum (weight s (member_of owners pool)) l.
Proof using Hok Hprofit Hx Hden.
  revert m. induction l as [|e l IH]; intros m Hm r; subst r; [split; [done|change (lsum _ []) with 0; cbn [foldl]; lia]|].
  cbn [foldl]. rewrite lsum_cons. pose proof (weight_nonneg s (member_of owners pool) e Hok).
  assert (0 <= profit * x) by (unfold u64 in *; nia).
  destruct (member_reward params pool s owners profit x den e) as [amount|] eqn:E.
  - apply member_reward_le in E as [Hpos Ha].
    destruct (IH (bt_insert e.1 amount m)) as [H1 H2]; [apply (bt_insert_Forall (fun v => 0 <= v)); [lia|done]|].
    split; [done|]. pose proof (bt_sum_insert_le id e.1 amount m Hm) as Hins. change (id amount) with amount in Hins.
    apply (Z.mul_le_mono_nonneg_r _ _ den) in Hins; [|lia].
    rewrite Z.mul_add_distr_r in Hins. rewrite Z.mul_add_distr_l. lia.
  - destruct (IH m Hm) as [H1 H2]. split; [done|]. nia.
Qed.
End members.

Record pool_params_ok (pp : PoolParams) : Prop := {
  pp_pledge : u64 (pledge pp);
  pp_cost : u64 (cost pp);
  pp_margin_num : 0 <= numerator (margin pp) <= Z.max (denominator (margin pp)) 1;
  pp_margin_den : u64 (denominator (margin pp));
  pp_owners : NoDup (pool_owners pp) }.

Record reward_params_ok (p : RewardParams) : Prop := {
  rp_n_opt : u64 (rw_n_opt p);
  rp_a0_num : u64 (numerator (rw_a0 p));
  rp_a0_den : u64 (denominator (rw_a0 p));
  rp_supply : u64 (rw_max_lovelace_supply p);
  rp_reserves : u64 (rw_reserves p);
  rp_fees : u64 (rw_fee_pot p);
  rp_rho : 0 <= numerator (rw_rho p) <= Z.max (denominator (rw_rho p)) 1;
  rp_rho_den : u64 (denominator (rw_rho p));
  rp_tau : 0 <= numerator (rw_tau p) <= denominator (rw_tau p);
  rp_tau_den : u64 (denominator (rw_tau p));
  rp_eta : 0 <= numerator (rw_eta p) /\ u64 (denominator (rw_eta p)) }.

(** Operator and delegators never get more than the profit to divide. *)
Lemma division_le profit m x den_m pool own members extra total :
  0 <= profit -> 0 <= x -> 0 <= m -> m + x = den_m -> 0 < pool -> 0 < den_m ->
  own + members <= pool ->
  extra * (den_m * pool) <= profit * (m * pool + x * own) ->
  total * (den_m * pool) <= profit * x * members ->
  extra + total <= profit.
Proof.
  intros Hp Hx Hm <- Hpool Hd Hle He Ht.
  assert (Hd' : 0 < (m + x) * pool) by nia.
  assert (profit * x * (own + members) <= profit * x * pool) by (apply Z.mul_le_mono_nonneg_l; nia).
  assert ((extra + total) * ((m + x) * pool) <= profit * ((m + x) * pool)) by nia. nia.
Qed.

Lemma mul_rational_le coin ratio :
  0 <= coin -> 0 <= numerator ratio -> 0 <= denominator ratio ->
  0 <= mul_rational coin ratio <= U64_MAX /\
  mul_rational coin ratio * denominator ratio <= coin * numerator ratio.
Proof.
  intros Hc Hn Hd. unfold mul_rational. destruct (Z.eqb_spec (denominator ratio) 0) as [->|]; [unfold U64_MAX; nia|].
  pose proof (floor_mul_div_le coin (numerator ratio) (denominator ratio) Hc Hn ltac:(lia)) as Hf.
  pose proof (Z.mul_div_le (coin * numerator ratio) (denominator ratio) ltac:(lia)).
  split; [unfold U64_MAX; lia|]. nia.
Qed.

Section pool.
Context (R : Z) (params : RewardParams) (s : StakeSnapshot) (pool : PoolKeyHash) (pp : PoolParams)
  (perf : UnitInterval).
Context (HR : u64 R) (Hparams : reward_params_ok params) (Hok : snapshot_ok s)
  (Hpp : bt_get pool (sn_pool_params s) = Some pp) (Hppok : pool_params_ok pp)
  (Hperf : 0 <= numerator perf /\ 0 <= denominator perf).
Let dist := pool_stake_distribution s.
Let t := total_stake_for_sigma params dist.
Context (Hdiv : 0 < rw_n_opt params -> 0 < pool_stake dist pool -> 0 < t ->
  max_pool_divisible (rw_n_opt params) (rw_a0 params) (pool_stake dist pool) (pledge pp) t).

Lemma dist_u64 p : u64 (pool_stake dist p) /\ u64 (pd_total_stake dist).
Proof using Hok.
  subst dist. destruct (pool_stake_distribution_spec s Hok) as [H1 H2]. rewrite H1, H2.
  pose proof (snap_total s Hok). unfold u64.
  split; (split; [by apply stake_where_nonneg|etransitivity; [apply (stake_where_le _ (fun _ _ => true))|]; done]).
Qed.
Lemma sigma_u64 : u64 t.
Proof using Hok Hparams.
  pose proof (dist_u64 []) as [_ Ht]. subst t. unfold total_stake_for_sigma.
  destruct Hparams. unfold u64, sat_sub in *. destruct (_ <? _); lia.
Qed.

Lemma optimal_ok :
  exists v, max_pool_reward R (rw_n_opt params) (rw_a0 params) (pool_stake dist pool) (pledge pp) t = Ok v /\
    0 <= v <= U64_MAX /\ v * t <= R * pool_stake dist pool /\ (v = 0 \/ 0 < pool_stake dist pool /\ 0 < t).
Proof using HR Hparams Hok Hppok Hdiv.
  pose proof sigma_u64 as Ht. pose proof (dist_u64 pool) as [Hp _]. destruct Hparams, Hppok.
  assert (Hzero : t = 0 \/ rw_n_opt params = 0 \/ R = 0 \/ pool_stake dist pool = 0 \/
    (0 < t /\ 0 < rw_n_opt params /\ 0 < R /\ 0 < pool_stake dist pool)) by (unfold u64 in *; lia).
  destruct (decide (0 < t /\ 0 < rw_n_opt params /\ 0 < R /\ 0 < pool_stake dist pool)) as [(H1 & H2 & H3 & H4)|Hn].
  - destruct (max_pool_reward_fraction R (rw_n_opt params) (rw_a0 params) (pool_stake dist pool) (pledge pp) t)
      as (a & b & c & d & E & _); try done; [auto|].
    eexists. split; [exact E|].
    destruct (max_pool_reward_le R (rw_n_opt params) (rw_a0 params) (pool_stake dist pool) (pledge pp) t _
      HR ltac:(done) ltac:(done) ltac:(done) Hp ltac:(done) Ht H1 ltac:(auto) E) as [Hv Hle]. auto.
  - exists 0. unfold max_pool_reward.
    replace ((t =? 0) || (rw_n_opt params =? 0) || (R =? 0) || (pool_stake dist pool =? 0)) with true.
    2: { symmetry. destruct (Z.eqb_spec t 0), (Z.eqb_spec (rw_n_opt params) 0), (Z.eqb_spec R 0),
           (Z.eqb_spec (pool_stake dist pool) 0); done || (exfalso; lia). }
    unfold u64, U64_MAX in *. split_and!; try done; [|by left]. nia.
Qed.

(** What holds of the amounts of a pool. *)
Record sound_breakdown (br : PoolRewardBreakdown) : Prop := {
  sb_leader : 0 <= leader_reward br;
  sb_members : Forall (fun e => 0 <= e.2) (member_rewards br);
  sb_total : leader_reward br + bt_sum id (member_rewards br) <= apparent_performance_reward br;
  sb_pot : apparent_performance_reward br <= R;
  sb_share : apparent_performance_reward br * denominator perf * t
             <= R * pool_stake dist pool * numerator perf;
  sb_zero : apparent_performance_reward br = 0 \/
            0 < pool_stake dist pool /\ 0 < t /\ 0 < denominator perf }.

Lemma empty_breakdown : sound_breakdown (mkBreakdown 0 0 []).
Proof using HR Hok Hperf.
  pose proof (dist_u64 pool) as [Hp _]. unfold u64 in *. split; cbn; try lia; try constructor; nia.
Qed.

Lemma leader_extra_le profit m x den_m own :
  0 <= profit -> 0 <= m -> 0 <= x -> 0 <= own -> u64 den_m -> 0 < den_m -> 0 < pool_stake dist pool ->
  let p := Z.max (pool_stake dist pool) 1 in
  let extra := wrap64 (floor_mul_div profit (sat_add128 (sat_mul128 m p) (sat_mul128 x own))
                         (sat_mul128 den_m p)) in
  0 <= extra /\ extra * (den_m * pool_stake dist pool) <= profit * (m * pool_stake dist pool + x * own).
Proof using HR Hok t.
  intros Hprofit Hm Hx Hown Hden Hpos Hstake p extra. subst p extra.
  rewrite (Z.max_l (pool_stake dist pool) 1) by lia. pose proof (dist_u64 pool) as [Hp _].
  set (p := pool_stake dist pool) in *. set (n := sat_add128 _ _).
  assert (Hn : 0 <= n <= m * p + x * own) by (subst n; unfold sat_add128, sat_mul128, U128_MAX; nia).
  replace (sat_mul128 den_m p) with (den_m * p)
    by (unfold sat_mul128, U128_MAX, u64, U64_MAX in *; nia).
  pose proof (floor_mul_div_le profit n (den_m * p) ltac:(lia) ltac:(lia) ltac:(nia)) as Hf.
  pose proof (wrap64_le (floor_mul_div profit n (den_m * p)) ltac:(lia)) as Hw.
  pose proof (Z.mul_div_le (profit * n) (den_m * p) ltac:(nia)) as Hq. split; [lia|].
  transitivity (profit * n); [|apply Z.mul_le_mono_nonneg_l; lia].
  etransitivity; [|exact Hq]. rewrite (Z.mul_comm (den_m * p)). apply Z.mul_le_mono_nonneg_r; [nia|lia].
Qed.

(** The branch with a profit to divide. *)
Lemma profit_divided apparent :
  cost pp < apparent <= R -> 0 < pool_stake dist pool ->
  let m_num := numerator (margin pp) in
  let m_den := Z.max (denominator (margin pp)) 1 in
  let p := Z.max (pool_stake dist pool) 1 in
  let x := sat_sub m_den m_num in
  let own := owner_delegated_stake s pool (pool_owners pp) in
  let den := sat_mul128 m_den p in
  let extra := wrap64 (floor_mul_div (apparent - cost pp)
                 (sat_add128 (sat_mul128 m_num p) (sat_mul128 x own)) den) in
  let members := foldl (fun m e =>
      match member_reward params pool s (pool_owners pp) (apparent - cost pp) x den e with
      | Some amount => bt_insert e.1 amount m
      | None => m
      end) [] (sn_delegations s) in
  0 <= extra /\ Forall (fun e => 0 <= e.2) members /\ cost pp + extra + bt_sum id members <= apparent.
Proof using HR Hok Hpp Hppok t.
  intros Happ Hst. cbv zeta. destruct Hppok as [_ Hcost Hmn Hmd Hown].
  pose proof (owner_stake_le s pool (pool_owners pp) Hok Hown) as Ho.
  pose proof (owners_and_members s pool (pool_owners pp) Hok) as Hom.
  unfold bt_contains in Hom. rewrite Hpp in Hom. specialize (Hom eq_refl).
  pose proof (dist_u64 pool) as [Hp _]. fold dist in Hom.
  generalize dependent (owner_delegated_stake s pool (pool_owners pp)). intros own Ho.
  generalize dependent (numerator (margin pp)). intros m Hmn.
  assert (Hdm : u64 (Z.max (denominator (margin pp)) 1) /\ 0 < Z.max (denominator (margin pp)) 1)
    by (unfold u64, U64_MAX in *; lia).
  generalize dependent (Z.max (denominator (margin pp)) 1). intros den_m Hmn [Hdm Hdpos].
  replace (sat_sub den_m m) with (den_m - m) by (unfold sat_sub; lia).
  destruct (leader_extra_le (apparent - cost pp) m (den_m - m) den_m own) as [He Hed];
    [lia|lia|lia|lia|done|done|done|].
  replace (sat_mul128 den_m (Z.max (pool_stake dist pool) 1)) with (den_m * pool_stake dist pool) in *
    by (unfold sat_mul128, U128_MAX, u64, U64_MAX in *; nia).
  destruct (members_total params s pool (pool_owners pp) (apparent - cost pp) (den_m - m)
    (den_m * pool_stake dist pool) Hok ltac:(unfold u64 in *; lia) ltac:(lia) ltac:(nia) (sn_delegations s) [])
    as [Hmem Htot]; [constructor|]. cbv zeta in Hmem, Htot.
  fold (stake_where (member_of (pool_owners pp) pool) s) in Htot.
  change (bt_sum id []) with 0 in Htot. rewrite Z.mul_0_l, Z.add_0_l in Htot.
  split_and!; [exact He|exact Hmem|].
  assert (Hsum := fun H1 H2 H3 H4 H5 => division_le (apparent - cost pp) m (den_m - m) den_m (pool_stake dist pool) own
      (stake_where (member_of (pool_owners pp) pool) s) _ _ H1 H2 H3 H4 Hst Hdpos H5 Hed Htot).
  clear Hed Htot Hmem. specialize (Hsum ltac:(lia) ltac:(lia) ltac:(lia) ltac:(lia) ltac:(lia)). lia.
Qed.

(** What the pool may divide. *)
Lemma apparent_bounds v :
  0 <= v <= U64_MAX -> v * t <= R * pool_stake dist pool ->
  (v = 0 \/ 0 < pool_stake dist pool /\ 0 < t) ->
  let apparent := mul_rational_capped v perf R in
  0 <= apparent <= R /\ apparent * denominator perf * t <= R * pool_stake dist pool * numerator perf /\
  (apparent = 0 \/ 0 < pool_stake dist pool /\ 0 < t /\ 0 < denominator perf).
Proof using HR Hparams Hok Hperf.
  intros Hv Hvt Hvz. cbv zeta. pose proof sigma_u64 as Ht. destruct Hperf as [Hpn Hpd].
  destruct (mul_rational_le v perf) as [Ha Had]; [lia..|]. unfold mul_rational_capped.
  pose proof (dist_u64 pool) as [Hp _].
  assert (Hz : denominator perf = 0 -> mul_rational v perf = 0) by (intros E; unfold mul_rational; by rewrite E).
  generalize dependent (mul_rational v perf). intros q Ha Had Hz.
  assert (Hq : Z.min q R * denominator perf <= v * numerator perf) by nia.
  assert (Hpos : 0 <= Z.min q R <= R) by (unfold u64 in *; lia).
  clear Hdiv. clearbody t.
  split_and!; [lia|lia|unfold u64 in *; nia|].
  destruct (Z.eq_dec (Z.min q R) 0) as [|Hnz]; [by left|right].
  destruct (Z.eq_dec (denominator perf) 0) as [E0|]; [specialize (Hz E0); lia|].
  destruct Hvz as [->|]; [|lia]. nia.
Qed.

Lemma compute_pool_reward_split :
  exists br, compute_pool_reward R params pool s dist perf = Ok br /\ sound_breakdown br.
Proof using HR Hparams Hok Hpp Hppok Hperf Hdiv.
  unfold compute_pool_reward. rewrite Hpp.
  destruct (_ <? pledge pp); [eexists; split; [done|apply empty_breakdown]|].
  destruct optimal_ok as (v & Ev & Hv & Hvt & Hvz). change (total_stake_for_sigma params dist) with t.
  rewrite Ev. cbn [obind]. destruct (apparent_bounds v Hv Hvt Hvz) as (Happ & Hshare & Hzero).
  clear Ev Hv Hvt Hvz. generalize dependent (mul_rational_capped v perf R). intros apparent Happ Hshare Hzero.
  destruct (Z.leb_spec apparent (cost pp)) as [Hle|Hgt].
  { eexists. split; [done|]. split; cbn [leader_reward member_rewards apparent_performance_reward]; auto; try lia.
    change (bt_sum id []) with 0. lia. }
  pose proof (pp_cost pp Hppok) as Hcost. unfold u64 in Hcost, HR.
  assert (Hst : 0 < pool_stake dist pool) by lia.
  destruct (profit_divided apparent ltac:(lia) Hst) as (He & Hmem & Hsum).
  pose proof (bt_sum_nonneg id _ Hmem) as Hpos.
  eexists. split; [reflexivity|]. cbv zeta in He, Hmem, Hsum.
  split; cbn [leader_reward member_rewards apparent_performance_reward]; auto; try lia.
  - clear -He Hcost Hgt. unfold sat_add, U64_MAX. destruct (_ && _); lia.
  - clear -He Hcost Hsum Hpos Hgt. unfold sat_add. destruct (_ && _); lia.
Qed.
End pool.

(** ** Paying out *)

Lemma reward_pot_split params :
  reward_params_ok params -> rw_reserves params + rw_fee_pot params <= U64_MAX ->
  let pot := compute_epoch_reward_pot params in
  0 <= pot_delta_reserves pot <= rw_reserves params /\ 0 <= pot_treasury_cut pot /\ u64 (rewards_pot pot) /\
  rewards_pot pot + pot_treasury_cut pot = pot_delta_reserves pot + rw_fee_pot params.
Proof.
  intros [] Hsum. unfold compute_epoch_reward_pot. cbv zeta. cbn [pot_delta_reserves pot_treasury_cut rewards_pot].
  set (eta := if _ || _ then _ else _).
  assert (He : 0 <= numerator eta <= denominator eta /\ 0 < denominator eta).
  { subst eta. unfold u64 in *. destruct (Z.eqb_spec (denominator (rw_eta params)) 0); cbn [orb]; [cbn; lia|].
    destruct (Z.leb_spec (denominator (rw_eta params)) (numerator (rw_eta params))); cbn; lia. }
  set (c := denominator eta * _). set (b := numerator eta * _).
  assert (Hbc : 0 <= b <= c /\ 0 < c) by (subst b c; nia).
  assert (Hr : u64 (rw_reserves params)) by done. unfold u64 in *.
  pose proof (floor_mul_div_le (rw_reserves params) b c ltac:(lia) ltac:(lia) ltac:(lia)) as Hf.
  assert (Hd : rw_reserves params * b / c <= rw_reserves params) by (apply Z.div_le_upper_bound; nia).
  pose proof (wrap64_le (floor_mul_div (rw_reserves params) b c) ltac:(lia)) as Hw.
  generalize dependent (wrap64 (floor_mul_div (rw_reserves params) b c)). intros delta Hw.
  assert (Hta : sat_add delta (rw_fee_pot params) = delta + rw_fee_pot params) by (unfold sat_add; lia).
  rewrite Hta. destruct (mul_rational_le (delta + rw_fee_pot params) (rw_tau params)) as [Hm Hmd]; [lia..|].
  assert (Hle : mul_rational (delta + rw_fee_pot params) (rw_tau params) <= delta + rw_fee_pot params).
  { destruct (Z.eq_dec (denominator (rw_tau params)) 0) as [E|]; [|nia].
    unfold mul_rational. rewrite E. cbn. lia. }
  unfold sat_sub. lia.
Qed.

Definition nonneg_map {K} (m : list (K * Z)) : Prop := Forall (fun e => 0 <= e.2) m.
Lemma bt_entry_credit {K} `{OrdKey K} (k : K) amount m :
  bt_sorted m -> nonneg_map m -> 0 <= amount -> bt_sum id m + amount <= U64_MAX ->
  let m' := bt_entry 0 (fun v => sat_add v amount) k m in
  bt_sorted m' /\ nonneg_map m' /\ bt_sum id m' = bt_sum id m + amount.
Proof.
  intros Hs Hn Ha Hb. cbv zeta. unfold bt_entry. rewrite bt_sum_insert by done.
  assert (Hv : 0 <= default 0 (bt_get k m) <= bt_sum id m).
  { destruct (bt_get k m) as [v|] eqn:E; cbn [default].
    - split; [|by apply (bt_sum_get id k m v)]. apply bt_get_elem in E.
      by apply (proj1 (Forall_forall _ _) Hn (k, v)).
    - split; [done|]. by apply bt_sum_nonneg. }
  split_and!; [by apply bt_insert_sorted|apply (bt_insert_Forall (fun v => 0 <= v)); [unfold sat_add, U64_MAX; lia|done]|].
  unfold sat_add. destruct (bt_get k m) as [v|]; cbn [default id] in *; unfold id; lia.
Qed.

Record payout_ok (p : Payout) : Prop := {
  po_sorted : bt_sorted (po_members p) /\ bt_sorted (po_leaders p);
  po_nonneg : nonneg_map (po_members p) /\ nonneg_map (po_leaders p);
  po_sums : bt_sum id (po_leaders p) + bt_sum id (po_members p) = po_total p }.

Lemma payout_total_nonneg p :
  payout_ok p -> 0 <= bt_sum id (po_leaders p) /\ 0 <= bt_sum id (po_members p).
Proof. intros [_ [] _]. split; by apply bt_sum_nonneg. Qed.

Lemma pay_leader_ok account amount p :
  payout_ok p -> 0 <= amount -> po_total p + amount <= U64_MAX ->
  payout_ok (pay_leader account amount p) /\ po_total (pay_leader account amount p) = po_total p + amount.
Proof.
  intros Hp Ha Hb. pose proof (payout_total_nonneg p Hp). destruct Hp as [[Hs1 Hs2] [Hn1 Hn2] Hsum].
  unfold pay_leader. destruct (Z.ltb_spec 0 amount); [|split; [by split|lia]].
  destruct (bt_entry_credit account amount (po_leaders p)) as (H1 & H2 & H3); [done|done|lia|lia|].
  split; [split; cbn [po_total po_members po_leaders]; auto; rewrite H3|cbn [po_total]];
    unfold sat_add; lia.
Qed.
Lemma pay_member_ok p e :
  payout_ok p -> 0 <= e.2 -> po_total p + e.2 <= U64_MAX ->
  payout_ok (pay_member p e) /\ po_total (pay_member p e) = po_total p + e.2.
Proof.
  intros Hp Ha Hb. pose proof (payout_total_nonneg p Hp). destruct Hp as [[Hs1 Hs2] [Hn1 Hn2] Hsum].
  destruct (bt_entry_credit e.1 e.2 (po_members p)) as (H1 & H2 & H3); [done|done|lia|lia|].
  unfold pay_member. split; [split; cbn [po_total po_members po_leaders]; auto; rewrite H3|cbn [po_total]];
    unfold sat_add; lia.
Qed.
Lemma pay_members_ok p l :
  payout_ok p -> nonneg_map l -> po_total p + bt_sum id l <= U64_MAX ->
  payout_ok (foldl pay_member p l) /\ po_total (foldl pay_member p l) = po_total p + bt_sum id l.
Proof.
  intros Hp Hl. revert p Hp. induction Hl as [|e l He Hl IH]; intros p Hp Hb.
  { change (bt_sum id []) with 0. cbn [foldl]. split; [done|lia]. }
  destruct e as [c v]. rewrite bt_sum_cons in *. change (id v) with v in *. cbn [snd] in He.
  pose proof (bt_sum_nonneg id l Hl). cbn [foldl].
  destruct (pay_member_ok p (c, v)) as [H1 H2]; [done|done|cbn; lia|]. cbn [snd] in H2.
  destruct (IH (pay_member p (c, v)) H1) as [H3 H4]; [lia|]. split; [done|lia].
Qed.

Section payout.
Context (R : Z) (params : RewardParams) (s : StakeSnapshot) (perf : list (PoolKeyHash * UnitInterval)).
Context (share : PoolKeyHash -> Z) (X : Z).
Context (HR : u64 R) (Hparams : reward_params_ok params) (Hok : snapshot_ok s) (HX : 0 < X).
Let dist := pool_stake_distribution s.
Let t := total_stake_for_sigma params dist.

(** What a pool of the snapshot has to satisfy: its share bounds its
    performance times its relative stake. *)
Record pool_ok (pool : PoolKeyHash) (pp : PoolParams) : Prop := {
  po_params : pool_params_ok pp;
  po_share : 0 <= share pool;
  po_div : 0 < rw_n_opt params -> 0 < pool_stake dist pool -> 0 < t ->
    max_pool_divisible (rw_n_opt params) (rw_a0 params) (pool_stake dist pool) (pledge pp) t;
  po_perf : let r := default (mkUnitInterval 0 1) (bt_get pool perf) in
    0 <= numerator r /\ 0 <= denominator r /\
    (0 < pool_stake dist pool -> 0 < t ->
     pool_stake dist pool * numerator r * X <= share pool * denominator r * t) }.

Lemma share_bound ap num den stake sh t' :
  0 <= ap -> 0 <= sh -> ap * den * t' <= R * stake * num -> stake * num * X <= sh * den * t' ->
  0 < den -> 0 < t' -> ap * X <= R * sh.
Proof using HR HX.
  clear t. intros Hap Hsh H1 H2 Hd Ht. unfold u64 in HR.
  assert (H3 : ap * den * t' * X <= R * (sh * den * t')) by nia.
  assert (Hc : 0 < den * t') by nia.
  apply (Z.mul_le_mono_pos_r _ _ (den * t') Hc). nia.
Qed.

Lemma pay_pool_ok p pool pp :
  payout_ok p -> bt_get pool (sn_pool_params s) = Some pp -> pool_ok pool pp ->
  po_total p + R <= U64_MAX \/ po_total p * X + R * share pool <= U64_MAX * X ->
  exists p', pay_pool params s dist perf R p (pool, pp) = Ok p' /\ payout_ok p' /\
    po_total p' * X <= po_total p * X + R * share pool.
Proof using HR Hparams Hok HX.
  intros Hp Hg [Hpp Hsh Hdiv Hperf] Hroom. unfold pay_pool. cbv zeta in Hperf.
  set (r := default _ _) in *. destruct Hperf as (Hn & Hd & Hbound).
  destruct (compute_pool_reward_split R params s pool pp r HR Hparams Hok Hg Hpp (conj Hn Hd) Hdiv)
    as (br & Ebr & [Hl Hm Htot Hpot Hs Hz]).
  fold dist in Ebr. rewrite Ebr. cbn [obind].
  pose proof (bt_sum_nonneg id _ Hm) as Hmn.
  assert (Hap : apparent_performance_reward br * X <= R * share pool).
  { destruct Hz as [->|(H1 & H2 & H3)]; [unfold u64 in HR; nia|].
    eapply share_bound; [lia|done|exact Hs|exact (Hbound H1 H2)|done|done]. }
  assert (Hroom' : po_total p + apparent_performance_reward br <= U64_MAX) by (destruct Hroom; [lia|nia]).
  destruct (pay_leader_ok (reward_account pp) (leader_reward br) p) as [P1 T1]; [done|done|lia|].
  destruct (pay_members_ok (pay_leader (reward_account pp) (leader_reward br) p) (member_rewards br))
    as [P2 T2]; [done|done|lia|].
  eexists. split; [done|]. split; [done|]. rewrite T2, T1. nia.
Qed.

Lemma pay_pools_ok pools p :
  payout_ok p -> Forall (fun e => bt_get e.1 (sn_pool_params s) = Some e.2 /\ pool_ok e.1 e.2) pools ->
  po_total p * X + R * lsum (fun e => share e.1) pools <= U64_MAX * X ->
  exists p', pay_pools params s dist perf R p pools = Ok p' /\ payout_ok p' /\
    po_total p' * X <= po_total p * X + R * lsum (fun e => share e.1) pools.
Proof using HR Hparams Hok HX.
  intros Hp Hall. revert p Hp. induction Hall as [|[pool pp] pools [Hg Hpool] Hall IH]; intros p Hp Hb.
  { exists p. split_and!; [done|done|]. change (lsum _ []) with 0. lia. }
  rewrite lsum_cons in Hb. rewrite lsum_cons. cbn [fst snd] in *. unfold u64 in HR.
  rewrite Z.mul_add_distr_l in Hb. rewrite Z.mul_add_distr_l.
  assert (Hrest : 0 <= lsum (fun e : PoolKeyHash * PoolParams => share e.1) pools).
  { clear -Hall. induction Hall as [|[q qq] l [_ Hq] _ IH]; [done|]. rewrite lsum_cons.
    pose proof (po_share _ _ Hq). cbn [fst snd] in *. lia. }
  destruct (pay_pool_ok p pool pp) as (p1 & E1 & P1 & T1); [done|done|done|right; nia|].
  cbn [pay_pools]. rewrite E1. cbn [obind].
  destruct (IH p1 P1) as (p2 & E2 & P2 & T2); [lia|].
  exists p2. split_and!; [done|done|lia].
Qed.
End payout.

(** ** The epoch *)

Definition paid_out (d : EpochRewardDistribution) : Z :=
  bt_sum id (leader_deltas d) + bt_sum id (reward_deltas d).

Lemma epoch_rewards_ok params s perf share X :
  reward_params_ok params -> rw_reserves params + rw_fee_pot params <= U64_MAX ->
  snapshot_ok s -> bt_sorted (sn_pool_params s) -> 0 < X ->
  Forall (fun e => pool_ok params s perf share X e.1 e.2) (sn_pool_params s) ->
  lsum (fun e => share e.1) (sn_pool_params s) <= X ->
  exists d, compute_epoch_rewards params s perf = Ok d /\
    (bt_sorted (reward_deltas d) /\ bt_sorted (leader_deltas d)) /\
    (nonneg_map (reward_deltas d) /\ nonneg_map (leader_deltas d)) /\
    0 <= rd_delta_reserves d <= rw_reserves params /\ 0 <= treasury_cut d /\ 0 <= unclaimed d /\
    distributed d = paid_out d /\
    rd_delta_reserves d + rw_fee_pot params = treasury_cut d + distributed d + unclaimed d.
Proof.
  intros Hparams Hsum Hok Hsorted HX Hall Hshare. unfold compute_epoch_rewards, paid_out.
  destruct (reward_pot_split params Hparams Hsum) as (Hd & Ht & HR & Hpot).
  set (pot := compute_epoch_reward_pot params) in *.
  destruct (pay_pools_ok (rewards_pot pot) params s perf share X HR Hparams Hok HX (sn_pool_params s)
              (mkPayout [] [] 0)) as (p & -> & [Hps Hpn Hpsum] & Htotal).
  - split; cbn; [split; constructor|split; constructor|done].
  - apply Forall_forall. intros [pool pp] Hin. split; [by apply bt_elem_get|].
    by apply (proj1 (Forall_forall _ _) Hall (pool, pp)).
  - unfold u64 in HR. cbn [po_total]. nia.
  - cbn [obind]. eexists. split; [done|].
    cbn [reward_deltas leader_deltas rd_delta_reserves treasury_cut unclaimed distributed po_total] in *.
    assert (Hle : po_total p <= rewards_pot pot) by (unfold u64 in HR; nia).
    unfold sat_sub. split_and!; tauto || lia.
Qed.

(** ** Examples and limits *)

Lemma max_pool_reward_exact_witness :
  max_pool_reward 10000000000000 500 (mkUnitInterval 3 10) 60000000000000 1000000000000 32000000000000000
  = Ok 14490614670.
Proof.
  rewrite max_pool_reward_exact; try (unfold u64, U64_MAX; cbn; lia); [reflexivity|].
  intros sigma s E1 E2. vm_compute in E1, E2. injection E1 as <-. injection E2 as <-.
  left. vm_compute. discriminate.
Defined.

Definition example_pool : PoolParams :=
  mkPoolParams [1] [2] 0 340000000 (mkUnitInterval (2 ^ 54) (2 ^ 59))
    (mkRewardAccount 1 (AddrKeyHash [3])) [] [] None.
Definition example_snapshot : StakeSnapshot :=
  mkSnapshot [(AddrKeyHash [4], 60000000000000)] [(AddrKeyHash [4], [1])] [([1], example_pool)].
Definition example_params : RewardParams :=
  mkRewardParams (mkUnitInterval 3 1000) (mkUnitInterval 2 10) (mkUnitInterval 3 10) 500 340000000
    13000000000000000 0 45000000000000000 (mkUnitInterval 1 1) false [].

(** Two places where the integer arithmetic leaves the formulas: with a
    denominator of 256 bits the long division loses a bit and a pool with half
    of the stake earns nothing; and with a margin whose denominator is [2^59]
    the product of profit and share overflows in every split of
    [floor_mul_div], so the last term is dropped and the operator and the
    delegators of a pool that earned over 14,000 ada are paid its cost alone. *)
Theorem reward_arithmetic_gaps :
  (let t := 18446744073709551615 in
   max_pool_reward 1000000 1 (mkUnitInterval 0 1) (t / 2) 1 t = Ok 0 /\
   Qfloor (maxPool 1000000 1 (Qratio 0 1) (Qratio (t / 2) t) (Qratio 1 t)) = 499999) /\
  compute_pool_reward 10000000000000 example_params [1] example_snapshot
    (pool_stake_distribution example_snapshot) (mkUnitInterval 1 1)
  = Ok (mkBreakdown 14423076923 340000000 []).
Proof. split; [split|]; vm_compute; reflexivity. Qed.
