(* ===== verification/Governance.v ===== *)
(** * Governance: votes, ratification, enactment

    Model of [crates/ledger/src/state/governance_action_state.rs],
    [state/ratify.rs] and [state/enact.rs] with the parameter groups of
    [state.rs]: how the votes of the committee, the representatives and the
    stake pools are counted against the thresholds of an action, and what an
    enacted action changes. *)

From stdpp Require Import list.
From S2P Require Import Prelude Cbor Types TypesCodec BTree ProtocolParams.
From S2P Require Import NativeScript PlutusData Uplc Builtins ScriptContext Staking.
Local Open Scope Z_scope.

(** ** Keys *)

#[export, refine] Instance GovActionId_ord : OrdKey GovActionId :=
  {| ord_key g := ga_transaction_id g ++ [ga_index g] |}.
Proof. abstract (intros [] []; simpl; intros E; apply app_inj_tail in E as [-> ->]; done). Defined.
#[export, refine] Instance Voter_ord : OrdKey Voter := {|
  ord_key v := match v with
    | Voter_CommitteeKeyHash h => 0 :: h | Voter_CommitteeScript h => 1 :: h
    | Voter_DRepKeyHash h => 2 :: h | Voter_DRepScript h => 3 :: h
    | Voter_StakePool h => 4 :: h end |}.
Proof. abstract (intros [] []; simpl; congruence). Defined.

Inductive ConwayGovActionPurpose :=
  | Purpose_ParameterChange | Purpose_HardFork | Purpose_Committee | Purpose_Constitution
  | Purpose_TreasuryWithdrawals | Purpose_Info.
#[export, refine] Instance purpose_ord : OrdKey ConwayGovActionPurpose := {|
  ord_key p := [match p with
    | Purpose_ParameterChange => 0 | Purpose_HardFork => 1 | Purpose_Committee => 2
    | Purpose_Constitution => 3 | Purpose_TreasuryWithdrawals => 4 | Purpose_Info => 5 end] |}.
Proof. abstract (intros [] []; simpl; congruence). Defined.

Definition conway_gov_action_purpose (a : GovAction) : ConwayGovActionPurpose :=
  match a with
  | ParameterChange _ _ _ => Purpose_ParameterChange
  | HardForkInitiation _ _ => Purpose_HardFork
  | NoConfidence _ | UpdateCommittee _ _ _ _ => Purpose_Committee
  | NewConstitution _ _ => Purpose_Constitution
  | TreasuryWithdrawals _ _ => Purpose_TreasuryWithdrawals
  | InfoAction => Purpose_Info
  end.

(** [None] where the action has no lineage. *)
Definition gov_action_prev_id (a : GovAction) : option (option GovActionId) :=
  match a with
  | ParameterChange prev _ _ | HardForkInitiation prev _ | NoConfidence prev
  | UpdateCommittee prev _ _ _ | NewConstitution prev _ => Some prev
  | TreasuryWithdrawals _ _ | InfoAction => None
  end.

(** ** Stored actions *)

Record GovernanceActionState := mkActionState {
  gs_proposal : ProposalProcedure;
  gs_votes : list (Voter * Vote);
  gs_proposed_in : option EpochNo;
  gs_expires_after : option EpochNo }.
#[export] Instance GovernanceActionState_eta : Eta GovernanceActionState :=
  fun s => mkActionState (gs_proposal s) (gs_votes s) (gs_proposed_in s) (gs_expires_after s).
Abbreviation GovernanceActions := (list (GovActionId * GovernanceActionState)).

Definition gs_action (s : GovernanceActionState) : GovAction := pp_gov_action (gs_proposal s).
Definition new_with_lifetime (proposal : ProposalProcedure) (proposed_in : EpochNo)
    (gov_action_lifetime : option Z) : GovernanceActionState :=
  mkActionState proposal [] (Some proposed_in)
    ((fun lifetime => sat_add proposed_in lifetime) <$> gov_action_lifetime).
Definition record_vote (s : GovernanceActionState) (voter : Voter) (vote : Vote)
    : GovernanceActionState :=
  s <| gs_votes := bt_insert voter vote (gs_votes s) |>.

(** [stake.rs]: deposits count as stake of the account they return to. *)
Definition compute_proposal_deposits_per_credential (actions : GovernanceActions)
    : list (StakeCredential * Z) :=
  foldl (fun deposits s =>
    let proposal := gs_proposal s in
    if pp_deposit proposal =? 0 then deposits
    else
      match RewardAccount_from_bytes (pp_reward_account proposal) with
      | Some ra => bt_entry 0 (fun v => wrap64 (v + pp_deposit proposal)) (ra_credential ra) deposits
      | None => deposits
      end) [] (bt_values actions).

(** ** Parameter groups *)

Record ModifiedGroups := mkGroups {
  g_network : bool; g_economic : bool; g_technical : bool; g_gov : bool; g_security : bool }.
Definition conway_modified_pparam_groups (u : ProtocolParameterUpdate) : ModifiedGroups :=
  let economic_security :=
    is_some (u_min_fee_a u) || is_some (u_min_fee_b u) || is_some (u_coins_per_utxo_byte u)
    || is_some (u_min_fee_ref_script_cost_per_byte u) in
  let network_security :=
    is_some (u_max_block_body_size u) || is_some (u_max_tx_size u)
    || is_some (u_max_block_header_size u) || is_some (u_max_block_ex_units u)
    || is_some (u_max_val_size u) in
  let network := is_some (u_max_tx_ex_units u) || is_some (u_max_collateral_inputs u) in
  let economic :=
    is_some (u_key_deposit u) || is_some (u_pool_deposit u) || is_some (u_rho u)
    || is_some (u_tau u) || is_some (u_min_pool_cost u) || is_some (u_price_mem u)
    || is_some (u_price_step u) || is_some (u_min_utxo_value u) in
  let technical :=
    is_some (u_e_max u) || is_some (u_n_opt u) || is_some (u_a0 u)
    || is_some (u_collateral_percentage u) || is_some (u_cost_models u) in
  let gov :=
    is_some (u_pool_voting_thresholds u) || is_some (u_drep_voting_thresholds u)
    || is_some (u_min_committee_size u) || is_some (u_committee_term_limit u)
    || is_some (u_gov_action_lifetime u) || is_some (u_drep_deposit u)
    || is_some (u_drep_activity u) in
  let gov_security := is_some (u_gov_action_deposit u) in
  mkGroups (network_security || network) (economic_security || economic) technical
    (gov || gov_security)
    (economic_security || network_security || gov_security || is_some (u_protocol_version u)).
Definition has_drep_group (g : ModifiedGroups) : bool :=
  g_network g || g_economic g || g_technical g || g_gov g.

(** The closure [include]: keep the larger ratio. *)
Definition include_threshold (selected : option UnitInterval) (candidate : UnitInterval)
    : option UnitInterval :=
  Some match selected with
       | Some current =>
           if numerator candidate * denominator current <=? numerator current * denominator candidate
           then current else candidate
       | None => candidate
       end.
Definition conway_drep_parameter_change_threshold (u : ProtocolParameterUpdate)
    (thresholds : DRepVotingThresholds) : option UnitInterval :=
  let groups := conway_modified_pparam_groups u in
  if negb (has_drep_group groups) then None
  else
    let include (b : bool) t selected := if b then include_threshold selected t else selected in
    include (g_gov groups) (dt_pp_gov_group thresholds)
      (include (g_technical groups) (dt_pp_technical_group thresholds)
         (include (g_economic groups) (dt_pp_economic_group thresholds)
            (include (g_network groups) (dt_pp_network_group thresholds) None))).

(** ** Tallies *)

Record VoteTally := mkTally { t_yes : Z; t_no : Z; t_abstain : Z; t_total : Z }.
Definition meets_threshold (t : VoteTally) (threshold : UnitInterval) : bool :=
  let active := sat_sub (t_total t) (t_abstain t) in
  if active =? 0 then numerator threshold =? 0
  else numerator threshold * active <=? t_yes t * denominator threshold.

(** [+=] on the counters. *)
Definition count_vote (add : Z -> Z -> Z) (weight : Z) (vote : option Vote) (t : VoteTally)
    : VoteTally :=
  match vote with
  | Some Vote_Yes => mkTally (add (t_yes t) weight) (t_no t) (t_abstain t) (t_total t)
  | Some Vote_No => mkTally (t_yes t) (add (t_no t) weight) (t_abstain t) (t_total t)
  | Some Vote_Abstain => mkTally (t_yes t) (t_no t) (add (t_abstain t) weight) (t_total t)
  | None => t
  end.
Definition count_total (add : Z -> Z -> Z) (weight : Z) (t : VoteTally) : VoteTally :=
  mkTally (t_yes t) (t_no t) (t_abstain t) (add (t_total t) weight).
Definition no_votes : VoteTally := mkTally 0 0 0 0.
Definition wrapping_add (a b : Z) : Z := wrap64 (a + b).

Definition counts_as_member (epoch : EpochNo) (m : CommitteeMemberState) : bool :=
  is_enacted_member m && negb (is_resigned m) && negb (is_expired epoch m).
Definition count_active_committee_members (cs : CommitteeState) (current_epoch : EpochNo) : Z :=
  Z.of_nat (length (List.filter (fun e => counts_as_member current_epoch e.2) cs)).

Definition hot_voter (m : CommitteeMemberState) : option Voter :=
  (fun c => match c with
            | AddrKeyHash h => Voter_CommitteeKeyHash h
            | ScriptHash h => Voter_CommitteeScript h
            end) <$> hot_credential m.
Definition tally_committee_votes (action : GovernanceActionState) (cs : CommitteeState)
    (current_epoch : EpochNo) : VoteTally :=
  foldl (fun t '(_, m) =>
    if negb (is_enacted_member m) then t
    else if is_resigned m then t
    else if is_expired current_epoch m then t
    else
      count_vote wrapping_add 1 (hot_voter m ≫= fun v => bt_get v (gs_votes action))
        (count_total wrapping_add 1 t)) no_votes cs.

Definition tally_drep_votes (action : GovernanceActionState) (dreps : DrepState)
    (drep_delegated_stake : list (DRep * Z)) (current_epoch : EpochNo) (drep_activity : Z)
    (count_no_confidence_as_yes : bool) : VoteTally :=
  let registered drep voter stake t :=
    match bt_get drep dreps with
    | None => t
    | Some reg =>
        if drep_inactive current_epoch drep_activity reg then t
        else count_vote sat_add stake (bt_get voter (gs_votes action)) (count_total sat_add stake t)
    end in
  foldl (fun t '(drep, stake) =>
    match drep with
    | AlwaysAbstain => t
    | AlwaysNoConfidence =>
        let t := count_total sat_add stake t in
        if count_no_confidence_as_yes then count_vote sat_add stake (Some Vote_Yes) t else t
    | DRepKeyHash h => registered drep (Voter_DRepKeyHash h) stake t
    | DRepScriptHash h => registered drep (Voter_DRepScript h) stake t
    end) no_votes drep_delegated_stake.

Inductive DefaultVote := Default_No | Default_Abstain | Default_NoConfidence.
Definition default_stake_pool_vote (pool_hash : PoolKeyHash) (pool_state : PoolState)
    (stake_credentials : StakeCredentialsMap) : DefaultVote :=
  match bt_get pool_hash (pool_entries pool_state) with
  | None => Default_No
  | Some pool =>
      match bt_get (ra_credential (reward_account (rp_params pool))) stake_credentials with
      | None => Default_No
      | Some state =>
          match sc_delegated_drep state with
          | Some AlwaysAbstain => Default_Abstain
          | Some AlwaysNoConfidence => Default_NoConfidence
          | _ => Default_No
          end
      end
  end.

Definition is_hard_fork (a : GovAction) : bool :=
  match a with HardForkInitiation _ _ => true | _ => false end.
Definition is_no_confidence (a : GovAction) : bool :=
  match a with NoConfidence _ => true | _ => false end.
(** What a pool that did not vote counts as. *)
Definition silent_pool_vote (a : GovAction) (is_bootstrap_phase : bool) (default : DefaultVote)
    : option Vote :=
  if is_hard_fork a then None
  else if is_bootstrap_phase then Some Vote_Abstain
  else
    match default with
    | Default_Abstain => Some Vote_Abstain
    | Default_NoConfidence => if is_no_confidence a then Some Vote_Yes else None
    | Default_No => None
    end.
Definition tally_spo_votes (action : GovernanceActionState) (dist : PoolStakeDistribution)
    (is_bootstrap_phase : bool) (pool_state : PoolState) (stake_credentials : StakeCredentialsMap)
    : VoteTally :=
  let t :=
    foldl (fun t '(pool_hash, stake) =>
      let vote :=
        match bt_get (Voter_StakePool pool_hash) (gs_votes action) with
        | Some vote => Some vote
        | None => silent_pool_vote (gs_action action) is_bootstrap_phase
                    (default_stake_pool_vote pool_hash pool_state stake_credentials)
        end in
      count_vote sat_add stake vote t) no_votes (pd_pool_stakes dist) in
  mkTally (t_yes t) (t_no t) (t_abstain t) (pd_total_stake dist).

(** ** Thresholds and acceptance *)

Definition drep_threshold_for_action (a : GovAction) (has_committee : bool)
    (thresholds : DRepVotingThresholds) : option UnitInterval :=
  match a with
  | ParameterChange _ u _ => conway_drep_parameter_change_threshold u thresholds
  | HardForkInitiation _ _ => Some (dt_hard_fork_initiation thresholds)
  | NoConfidence _ => Some (dt_motion_no_confidence thresholds)
  | UpdateCommittee _ _ _ _ =>
      Some (if has_committee then dt_committee_normal thresholds
            else dt_committee_no_confidence thresholds)
  | NewConstitution _ _ => Some (dt_update_to_constitution thresholds)
  | TreasuryWithdrawals _ _ => Some (dt_treasury_withdrawal thresholds)
  | InfoAction => None
  end.
Definition spo_threshold_for_action (a : GovAction) (has_committee : bool)
    (thresholds : PoolVotingThresholds) : option UnitInterval :=
  match a with
  | ParameterChange _ u _ =>
      if g_security (conway_modified_pparam_groups u) then Some (pt_pp_security_group thresholds)
      else None
  | HardForkInitiation _ _ => Some (pt_hard_fork_initiation thresholds)
  | NoConfidence _ => Some (pt_motion_no_confidence thresholds)
  | UpdateCommittee _ _ _ _ =>
      Some (if has_committee then pt_committee_normal thresholds
            else pt_committee_no_confidence thresholds)
  | NewConstitution _ _ | TreasuryWithdrawals _ _ | InfoAction => None
  end.

Definition accepted_by_committee (action : GovernanceActionState) (cs : CommitteeState)
    (committee_quorum : UnitInterval) (current_epoch : EpochNo) (min_committee_size : Z)
    (is_bootstrap_phase has_committee : bool) : bool :=
  match gs_action action with
  | NoConfidence _ | UpdateCommittee _ _ _ _ => true
  | InfoAction => false
  | _ =>
      if negb has_committee then false
      else if negb is_bootstrap_phase
              && (count_active_committee_members cs current_epoch <? min_committee_size) then false
      else meets_threshold (tally_committee_votes action cs current_epoch) committee_quorum
  end.
Definition accepted_by_dreps (action : GovernanceActionState) (has_committee : bool)
    (dreps : DrepState) (drep_delegated_stake : list (DRep * Z)) (current_epoch : EpochNo)
    (drep_activity : Z) (thresholds : DRepVotingThresholds) : bool :=
  match drep_threshold_for_action (gs_action action) has_committee thresholds with
  | None => true
  | Some threshold =>
      meets_threshold
        (tally_drep_votes action dreps drep_delegated_stake current_epoch drep_activity
           (is_no_confidence (gs_action action))) threshold
  end.
Definition accepted_by_spo (action : GovernanceActionState) (has_committee : bool)
    (dist : PoolStakeDistribution) (thresholds : PoolVotingThresholds) (is_bootstrap_phase : bool)
    (pool_state : PoolState) (stake_credentials : StakeCredentialsMap) : bool :=
  match spo_threshold_for_action (gs_action action) has_committee thresholds with
  | None => true
  | Some threshold =>
      meets_threshold (tally_spo_votes action dist is_bootstrap_phase pool_state stake_credentials)
        threshold
  end.

Definition zero_drep : DRepVotingThresholds :=
  let zero := mkUnitInterval 0 1 in mkDRepThresholds zero zero zero zero zero zero zero zero zero zero.

Definition ratify_action (action : GovernanceActionState) (cs : CommitteeState)
    (committee_quorum : UnitInterval) (dreps : DrepState) (drep_delegated_stake : list (DRep * Z))
    (current_epoch : EpochNo) (drep_activity : Z) (drep_thresholds : DRepVotingThresholds)
    (pool_stake_dist : PoolStakeDistribution) (pool_thresholds : PoolVotingThresholds)
    (min_committee_size : Z) (is_bootstrap_phase has_committee : bool) (pool_state : PoolState)
    (stake_credentials : StakeCredentialsMap) : bool :=
  accepted_by_committee action cs committee_quorum current_epoch min_committee_size
    is_bootstrap_phase has_committee
  && accepted_by_dreps action has_committee dreps drep_delegated_stake current_epoch drep_activity
       (if is_bootstrap_phase then zero_drep else drep_thresholds)
  && accepted_by_spo action has_committee pool_stake_dist pool_thresholds is_bootstrap_phase
       pool_state stake_credentials.

(** ** Enactment *)

Record EnactState := mkEnactState {
  es_constitution : Constitution;
  es_committee_quorum : UnitInterval;
  es_has_committee : bool;
  es_prev_pparams_update : option GovActionId;
  es_prev_hard_fork : option GovActionId;
  es_prev_committee : option GovActionId;
  es_prev_constitution : option GovActionId }.
#[export] Instance EnactState_eta : Eta EnactState :=
  fun s => mkEnactState (es_constitution s) (es_committee_quorum s) (es_has_committee s)
             (es_prev_pparams_update s) (es_prev_hard_fork s) (es_prev_committee s)
             (es_prev_constitution s).
Definition EnactState_default : EnactState :=
  mkEnactState (mkConstitution (mkAnchor [] (replicate 32 0)) None) (mkUnitInterval 0 1) true
    None None None None.
Definition enacted_root (s : EnactState) (purpose : ConwayGovActionPurpose) : option GovActionId :=
  match purpose with
  | Purpose_ParameterChange => es_prev_pparams_update s
  | Purpose_HardFork => es_prev_hard_fork s
  | Purpose_Committee => es_prev_committee s
  | Purpose_Constitution => es_prev_constitution s
  | Purpose_TreasuryWithdrawals | Purpose_Info => None
  end.

Inductive EnactOutcome :=
  | NoEffect
  | ConstitutionUpdated
  | CommitteeRemoved
  | CommitteeUpdated (members_removed members_added : Z)
  | HardForkEnacted (new_version : Z * Z)
  | TreasuryWithdrawn (total_withdrawn : Z)
  | ParameterChangeRecorded.

(** The parts of the ledger an enactment may change. *)
Record Enactable := mkEnactable {
  en_enact : EnactState;
  en_committee : CommitteeState;
  en_protocol_params : option ProtocolParameters;
  en_reward_accounts : RewardAccounts;
  en_accounting : AccountingState }.
#[export] Instance Enactable_eta : Eta Enactable :=
  fun e => mkEnactable (en_enact e) (en_committee e) (en_protocol_params e) (en_reward_accounts e)
             (en_accounting e).

Definition remove_members (cs : CommitteeState) (members : list StakeCredential)
    : CommitteeState * Z :=
  foldl (fun '(cs, removed) cred =>
    match bt_get cred cs with
    | Some m => if is_some (cm_expires_at m) then (clear_membership cs cred, removed + 1)
                else (cs, removed)
    | None => (cs, removed)
    end) (cs, 0) members.
Definition add_members (cs : CommitteeState) (members : list (StakeCredential * Z))
    : CommitteeState * Z :=
  foldl (fun '(cs, added) '(cred, term) =>
    let '(cs, fresh) := register_with_term cs cred term in
    (cs, if fresh : bool then added + 1 else added)) (cs, 0) members.

(** One treasury withdrawal: accounts, treasury, total paid. *)
Definition withdraw_one (st : RewardAccounts * Z * Z) (w : RewardAccount * Z)
    : RewardAccounts * Z * Z :=
  let '(accounts, treasury, total) := st in
  let '(ra, amount) := w in
  if amount =? 0 then st
  else
    match bt_get ra accounts with
    | Some _ => (bt_alter (credit amount) ra accounts, sat_sub treasury amount, sat_add total amount)
    | None => st
    end.

Definition enact_gov_action_at_epoch (e : Enactable) (action_id : GovActionId) (action : GovAction)
    : Enactable * EnactOutcome :=
  match action with
  | InfoAction => (e, NoEffect)
  | NewConstitution _ constitution =>
      (e <| en_enact := (en_enact e) <| es_constitution := constitution |>
                                   <| es_prev_constitution := Some action_id |> |>,
       ConstitutionUpdated)
  | NoConfidence _ =>
      (e <| en_committee := clear_all_membership (en_committee e) |>
         <| en_enact := (en_enact e) <| es_committee_quorum := mkUnitInterval 0 1 |>
                                   <| es_has_committee := false |>
                                   <| es_prev_committee := Some action_id |> |>,
       CommitteeRemoved)
  | UpdateCommittee _ to_remove to_add quorum =>
      let '(cs, removed) := remove_members (en_committee e) to_remove in
      let '(cs, added) := add_members cs to_add in
      (e <| en_committee := cs |>
         <| en_enact := (en_enact e) <| es_committee_quorum := quorum |>
                                   <| es_has_committee := true |>
                                   <| es_prev_committee := Some action_id |> |>,
       CommitteeUpdated removed added)
  | HardForkInitiation _ version =>
      let params := default ProtocolParameters_default (en_protocol_params e) in
      (e <| en_protocol_params := Some (params <| protocol_version := Some version |>) |>
         <| en_enact := (en_enact e) <| es_prev_hard_fork := Some action_id |> |>,
       HardForkEnacted version)
  | TreasuryWithdrawals withdrawals _ =>
      let '(accounts, treasury', total) :=
        foldl withdraw_one (en_reward_accounts e, treasury (en_accounting e), 0) withdrawals in
      (e <| en_reward_accounts := accounts |>
         <| en_accounting := (en_accounting e) <| treasury := treasury' |> |>,
       TreasuryWithdrawn total)
  | ParameterChange _ update _ =>
      let params := default ProtocolParameters_default (en_protocol_params e) in
      (e <| en_protocol_params := Some (apply_update params update) |>
         <| en_enact := (en_enact e) <| es_prev_pparams_update := Some action_id |> |>,
       ParameterChangeRecorded)
  end.
