(* ===== verification/GovernanceFacts.v ===== *)
(** * Ratification and enactment: what they guarantee

    The tallies as exact sums over ballots, the effect of one more "yes", the
    strictest threshold of a parameter change, and the accounting of enacted
    withdrawals. *)

From stdpp Require Import list.
From S2P Require Import Prelude Cbor Types TypesCodec BTree ProtocolParams Fees WideArith.
From S2P Require Import NativeScript PlutusData Uplc Builtins ScriptContext Staking Governance.
Local Open Scope Z_scope.

(** ** Ballots *)

Definition ballot : Type := option Vote * Z.
Definition vote_eqb (a b : Vote) : bool :=
  match a, b with
  | Vote_Yes, Vote_Yes | Vote_No, Vote_No | Vote_Abstain, Vote_Abstain => true
  | _, _ => false
  end.
Definition cast (v : Vote) (b : ballot) : Z :=
  match b.1 with Some w => if vote_eqb v w then b.2 else 0 | None => 0 end.
Definition ballot_tally (l : list ballot) : VoteTally :=
  mkTally (lsum (cast Vote_Yes) l) (lsum (cast Vote_No) l) (lsum (cast Vote_Abstain) l) (lsum snd l).
Definition ballots_ok (l : list ballot) : Prop :=
  Forall (fun b => 0 <= b.2) l /\ lsum snd l <= U64_MAX.

Definition count_ballot (add : Z -> Z -> Z) (t : VoteTally) (b : ballot) : VoteTally :=
  count_vote add b.2 b.1 (count_total add b.2 t).
(** [add] is exact below the maximum. *)
Definition exact_add (add : Z -> Z -> Z) : Prop :=
  forall a b, 0 <= a -> 0 <= b -> a + b <= U64_MAX -> add a b = a + b.
Lemma sat_add_exact : exact_add sat_add.
Proof. intros a b Ha Hb Hle. unfold sat_add. lia. Qed.
Lemma wrapping_add_exact : exact_add wrapping_add.
Proof. intros a b Ha Hb Hle. apply Z.mod_small. unfold U64_MAX in Hle. lits. lia. Qed.

Definition tally_add (t u : VoteTally) : VoteTally :=
  mkTally (t_yes t + t_yes u) (t_no t + t_no u) (t_abstain t + t_abstain u) (t_total t + t_total u).
Definition tally_bounded (t : VoteTally) (room : Z) : Prop :=
  0 <= t_yes t /\ 0 <= t_no t /\ 0 <= t_abstain t /\ t_yes t + t_no t + t_abstain t <= t_total t /\
  t_total t + room <= U64_MAX.

Lemma count_ballot_exact add t b :
  exact_add add -> 0 <= b.2 -> tally_bounded t b.2 ->
  count_ballot add t b = tally_add t (ballot_tally [b]).
Proof.
  intros Hadd Hb (Hy & Hn & Ha & Hsum & Hroom). destruct b as [v w]. cbn [snd] in *.
  unfold count_ballot, count_total, tally_add, ballot_tally, lsum, cast. cbn [fst snd foldr].
  destruct v as [[]|]; cbn [count_vote t_yes t_no t_abstain t_total vote_eqb];
    rewrite ?Hadd by lia; f_equal; lia.
Qed.
Lemma cast_le v b : 0 <= b.2 -> 0 <= cast v b <= b.2.
Proof. intros Hb. unfold cast. destruct b.1 as [w|]; [destruct (vote_eqb v w)|]; lia. Qed.
Lemma cast_sum b : 0 <= b.2 -> cast Vote_Yes b + cast Vote_No b + cast Vote_Abstain b <= b.2.
Proof. intros Hb. unfold cast. destruct b.1 as [[]|]; cbn; lia. Qed.

Lemma count_ballots add l t :
  exact_add add -> Forall (fun b => 0 <= b.2) l -> tally_bounded t (lsum snd l) ->
  foldl (count_ballot add) t l = tally_add t (ballot_tally l).
Proof.
  intros Hadd Hl. revert t. induction Hl as [|b l Hb Hl IH]; intros t Ht.
  { destruct t. unfold tally_add, ballot_tally, lsum. cbn. by rewrite !Z.add_0_r. }
  assert (0 <= lsum snd l) by (clear -Hl; induction Hl; rewrite ?lsum_cons; [done|lia]).
  rewrite lsum_cons in Ht. destruct Ht as (Hy & Hn & Ha & Hsum & Hroom). cbn [foldl].
  pose proof (cast_sum b Hb). pose proof (cast_le Vote_Yes b Hb). pose proof (cast_le Vote_No b Hb).
  pose proof (cast_le Vote_Abstain b Hb).
  rewrite count_ballot_exact by (done || unfold tally_bounded; lia).
  unfold tally_add, ballot_tally in *. rewrite !lsum_cons. change (lsum ?f []) with 0.
  rewrite IH; cbn [t_yes t_no t_abstain t_total].
  - f_equal; lia.
  - unfold tally_bounded. cbn [t_yes t_no t_abstain t_total]. lia.
Qed.
Lemma count_from_zero add l :
  exact_add add -> ballots_ok l -> foldl (count_ballot add) no_votes l = ballot_tally l.
Proof.
  intros Hadd [Hl Hb]. rewrite count_ballots; [|done..|]; [|unfold tally_bounded, no_votes; cbn; lia].
  unfold tally_add, no_votes, ballot_tally. cbn [t_yes t_no t_abstain t_total]. done.
Qed.

(** ** The ballots of each role *)

Definition committee_ballots (votes : list (Voter * Vote)) (epoch : EpochNo) (cs : CommitteeState)
    : list ballot :=
  omap (fun e => if counts_as_member epoch e.2
                 then Some (hot_voter e.2 ≫= fun v => bt_get v votes, 1) else None) cs.
Definition drep_ballot (votes : list (Voter * Vote)) (dreps : DrepState) (epoch : EpochNo)
    (activity : Z) (no_confidence : bool) (e : DRep * Z) : option ballot :=
  let registered drep voter :=
    reg ← bt_get drep dreps;
    if drep_inactive epoch activity reg then None else Some (bt_get voter votes, e.2) in
  match e.1 with
  | AlwaysAbstain => None
  | AlwaysNoConfidence => Some (if no_confidence then Some Vote_Yes else None, e.2)
  | DRepKeyHash h => registered e.1 (Voter_DRepKeyHash h)
  | DRepScriptHash h => registered e.1 (Voter_DRepScript h)
  end.
Definition spo_ballot (votes : list (Voter * Vote)) (a : GovAction) (bootstrap : bool)
    (ps : PoolState) (creds : StakeCredentialsMap) (e : PoolKeyHash * Z) : ballot :=
  (match bt_get (Voter_StakePool e.1) votes with
   | Some v => Some v
   | None => silent_pool_vote a bootstrap (default_stake_pool_vote e.1 ps creds)
   end, e.2).

Lemma foldl_omap {A B C} (f : C -> B -> C) (g : A -> option B) (h : C -> A -> C) l acc :
  (forall acc x, h acc x = match g x with Some y => f acc y | None => acc end) ->
  foldl h acc l = foldl f acc (omap g l).
Proof.
  intros Hh. revert acc. induction l as [|x l IH]; intros acc; [done|].
  cbn [foldl omap list_omap]. rewrite Hh, IH. by destruct (g x).
Qed.

Lemma committee_tally action cs epoch :
  ballots_ok (committee_ballots (gs_votes action) epoch cs) ->
  tally_committee_votes action cs epoch
  = ballot_tally (committee_ballots (gs_votes action) epoch cs).
Proof.
  intros Hok. rewrite <- (count_from_zero wrapping_add _ wrapping_add_exact Hok).
  apply foldl_omap. intros t [c m]. unfold counts_as_member. cbn [snd].
  destruct (is_enacted_member m), (is_resigned m), (is_expired epoch m); done.
Qed.
Lemma drep_tally action dreps stakes epoch activity nc :
  ballots_ok (omap (drep_ballot (gs_votes action) dreps epoch activity nc) stakes) ->
  tally_drep_votes action dreps stakes epoch activity nc
  = ballot_tally (omap (drep_ballot (gs_votes action) dreps epoch activity nc) stakes).
Proof.
  intros Hok. rewrite <- (count_from_zero sat_add _ sat_add_exact Hok).
  apply foldl_omap. intros t [d w]. unfold drep_ballot, count_ballot. cbn [fst snd].
  destruct d; cbn; try done; [| |by destruct nc].
  all: destruct (bt_get _ dreps) as [reg|]; cbn; [|done]; by destruct (drep_inactive _ _ _).
Qed.

(** The pools' loop leaves the total to the distribution. *)
Definition same_votes (t u : VoteTally) : Prop :=
  t_yes t = t_yes u /\ t_no t = t_no u /\ t_abstain t = t_abstain u.
Lemma count_vote_same add w v t u : same_votes t u -> same_votes (count_vote add w v t) (count_ballot add u (v, w)).
Proof.
  intros (H1 & H2 & H3). unfold same_votes, count_ballot, count_total.
  destruct v as [[]|]; cbn [count_vote fst snd t_yes t_no t_abstain]; by rewrite ?H1, ?H2, ?H3.
Qed.
Lemma count_votes_same {A} add (b : A -> ballot) l t u :
  same_votes t u ->
  same_votes (foldl (fun t x => count_vote add (b x).2 (b x).1 t) t l) (foldl (count_ballot add) u (b <$> l)).
Proof.
  revert t u. induction l as [|x l IH]; intros t u Hs; [done|]. cbn [foldl fmap list_fmap].
  apply IH. rewrite (surjective_pairing (b x)) at 3. by apply count_vote_same.
Qed.
Lemma spo_tally action dist bootstrap ps creds :
  let ballots := spo_ballot (gs_votes action) (gs_action action) bootstrap ps creds <$> pd_pool_stakes dist in
  ballots_ok ballots -> lsum snd (pd_pool_stakes dist) = pd_total_stake dist ->
  tally_spo_votes action dist bootstrap ps creds = ballot_tally ballots.
Proof.
  intros ballots Hok Htot. unfold tally_spo_votes. cbv zeta.
  pose proof (count_votes_same sat_add (spo_ballot (gs_votes action) (gs_action action) bootstrap ps creds)
    (pd_pool_stakes dist) no_votes no_votes ltac:(done)) as (H1 & H2 & H3). fold ballots in H1, H2, H3.
  rewrite (count_from_zero sat_add _ sat_add_exact Hok) in H1, H2, H3.
  assert (Ef : forall l t, foldl (fun t '(pool_hash, stake) =>
      count_vote sat_add stake match bt_get (Voter_StakePool pool_hash) (gs_votes action) with
        | Some vote => Some vote
        | None => silent_pool_vote (gs_action action) bootstrap (default_stake_pool_vote pool_hash ps creds)
        end t) t l
    = foldl (fun t x => count_vote sat_add (spo_ballot (gs_votes action) (gs_action action) bootstrap ps creds x).2
        (spo_ballot (gs_votes action) (gs_action action) bootstrap ps creds x).1 t) t l).
  { induction l as [|[p w] l IH]; intros t; [done|]. cbn [foldl]. apply IH. }
  rewrite Ef, H1, H2, H3, <- Htot. unfold ballot_tally. f_equal. subst ballots. clear.
  induction (pd_pool_stakes dist) as [|x l IH]; [done|]. cbn [fmap list_fmap]. rewrite !lsum_cons. by rewrite IH.
Qed.

(** ** One more "yes" *)

(** The same electorate where some votes have become "yes". *)
Definition more_yes (b b' : ballot) : Prop := b'.2 = b.2 /\ (b'.1 = b.1 \/ b'.1 = Some Vote_Yes).
Definition valid_ratio (u : UnitInterval) : Prop := 0 <= numerator u <= denominator u.

Lemma more_yes_sums l l' :
  Forall2 more_yes l l' -> Forall (fun b => 0 <= b.2) l ->
  lsum snd l' = lsum snd l /\ lsum (cast Vote_Abstain) l' <= lsum (cast Vote_Abstain) l /\
  lsum (cast Vote_Yes) l + lsum (cast Vote_Abstain) l <= lsum (cast Vote_Yes) l' + lsum (cast Vote_Abstain) l'.
Proof.
  induction 1 as [|[v w] [v' w'] l l' [Hw Hv] _ IH]; intros Hn; [done|].
  inversion Hn; subst. cbn [fst snd] in *. subst w'. destruct (IH ltac:(done)) as (I1 & I2 & I3).
  rewrite !lsum_cons. unfold cast at 1 3 5 7 9 11. cbn [fst snd].
  destruct Hv as [->| ->]; [|destruct v as [[]|]]; cbn [vote_eqb]; try lia.
Qed.
Lemma tally_ok l :
  Forall (fun b => 0 <= b.2) l ->
  0 <= lsum (cast Vote_Yes) l /\ 0 <= lsum (cast Vote_Abstain) l /\
  lsum (cast Vote_Yes) l + lsum (cast Vote_Abstain) l <= lsum snd l.
Proof.
  induction 1 as [|b l Hb Hl IH]; [done|]. rewrite !lsum_cons.
  pose proof (cast_sum b Hb). pose proof (cast_le Vote_Yes b Hb). pose proof (cast_le Vote_No b Hb).
  pose proof (cast_le Vote_Abstain b Hb). lia.
Qed.
Lemma more_yes_meets l l' threshold :
  valid_ratio threshold -> Forall (fun b => 0 <= b.2) l -> Forall2 more_yes l l' ->
  meets_threshold (ballot_tally l) threshold = true -> meets_threshold (ballot_tally l') threshold = true.
Proof.
  intros [Hn Hd] Hl Hmore. destruct (more_yes_sums l l' Hmore Hl) as (HT & HA & HY).
  destruct (tally_ok l Hl) as (Hy & Ha & Hsum).
  unfold meets_threshold, ballot_tally, sat_sub. cbn [t_yes t_abstain t_total]. rewrite HT.
  generalize dependent (lsum (cast Vote_Yes) l). generalize dependent (lsum (cast Vote_Yes) l').
  generalize dependent (lsum (cast Vote_Abstain) l). generalize dependent (lsum (cast Vote_Abstain) l').
  intros a' a HA Ha y' y HY Hy Hsum.
  rewrite !Z.max_l by lia.
  destruct (Z.eqb_spec (lsum snd l - a) 0) as [E|E].
  - intros Hz. apply Z.eqb_eq in Hz. rewrite Hz. destruct (_ =? 0); [done|]. apply Z.leb_le. nia.
  - intros Hm. apply Z.leb_le in Hm. destruct (Z.eqb_spec (lsum snd l - a') 0) as [E'|E']; [lia|].
    apply Z.leb_le. nia.
Qed.

(** ** Thresholds *)

Definition ratio_le (a b : UnitInterval) : Prop :=
  numerator a * denominator b <= numerator b * denominator a.
Definition positive_ratio (u : UnitInterval) : Prop := 0 <= numerator u /\ 0 < denominator u.

Definition drep_groups (g : ModifiedGroups) (t : DRepVotingThresholds) : list UnitInterval :=
  (if g_network g then [dt_pp_network_group t] else []) ++
  (if g_economic g then [dt_pp_economic_group t] else []) ++
  (if g_technical g then [dt_pp_technical_group t] else []) ++
  (if g_gov g then [dt_pp_gov_group t] else []).

Lemma ratio_le_trans a b c : positive_ratio a -> positive_ratio b -> positive_ratio c ->
  ratio_le a b -> ratio_le b c -> ratio_le a c.
Proof. unfold ratio_le, positive_ratio. intros [? ?] [? ?] [? ?] ? ?. nia. Qed.

Definition strictest (l : list UnitInterval) (r : option UnitInterval) : Prop :=
  match r with
  | Some t => t ∈ l /\ Forall (fun x => ratio_le x t) l
  | None => l = []
  end.
Lemma include_strictest l r x :
  Forall positive_ratio (l ++ [x]) -> strictest l r -> strictest (l ++ [x]) (include_threshold r x).
Proof.
  intros Hpos Hr. apply Forall_app in Hpos as [Hl Hx]. inversion Hx as [|? ? Hx' _]; subst.
  destruct r as [t|]; cbn in *.
  - destruct Hr as [Hin Hall]. pose proof (proj1 (Forall_forall _ _) Hl t Hin) as Ht.
    destruct (Z.leb_spec (numerator x * denominator t) (numerator t * denominator x)).
    + split; [set_solver|]. apply Forall_app. split; [done|]. by apply Forall_singleton.
    + split; [set_solver|]. apply Forall_app. split; [|apply Forall_singleton; unfold ratio_le; lia].
      apply Forall_forall. intros y Hy. pose proof (proj1 (Forall_forall _ _) Hl y Hy).
      apply (ratio_le_trans y t x); [done..|exact (proj1 (Forall_forall _ _) Hall y Hy)|].
      unfold ratio_le. lia.
  - subst l. split; [set_solver|]. apply Forall_singleton. unfold ratio_le. lia.
Qed.

Definition maybe_include (b : bool) (t : UnitInterval) (selected : option UnitInterval) :=
  if b then include_threshold selected t else selected.
Lemma maybe_include_strictest (b : bool) l r x :
  Forall positive_ratio (l ++ [x]) -> strictest l r ->
  strictest (l ++ if b then [x] else []) (maybe_include b x r).
Proof. destruct b; cbn [maybe_include]; [apply include_strictest|]. by rewrite app_nil_r. Qed.

(** The representatives' threshold for a parameter change is the strictest
    one among the groups the update touches: it is one of their thresholds, no
    touched group asks for more, and there is none only when no group is
    touched. *)
Theorem parameter_change_threshold u t :
  Forall positive_ratio [dt_pp_network_group t; dt_pp_economic_group t; dt_pp_technical_group t; dt_pp_gov_group t] ->
  let groups := drep_groups (conway_modified_pparam_groups u) t in
  match conway_drep_parameter_change_threshold u t with
  | Some threshold => threshold ∈ groups /\ Forall (fun x => ratio_le x threshold) groups
  | None => groups = []
  end.
Proof.
  intros Hpos groups. subst groups. unfold conway_drep_parameter_change_threshold, drep_groups, has_drep_group.
  set (g := conway_modified_pparam_groups u).
  rewrite !Forall_cons in Hpos. destruct Hpos as (Hn & He & Ht & Hg & _).
  assert (Hend : strictest (((([] ++ if g_network g then [dt_pp_network_group t] else [])
       ++ if g_economic g then [dt_pp_economic_group t] else [])
       ++ if g_technical g then [dt_pp_technical_group t] else [])
       ++ if g_gov g then [dt_pp_gov_group t] else [])
    (maybe_include (g_gov g) (dt_pp_gov_group t) (maybe_include (g_technical g) (dt_pp_technical_group t)
      (maybe_include (g_economic g) (dt_pp_economic_group t) (maybe_include (g_network g) (dt_pp_network_group t) None))))).
  { repeat apply maybe_include_strictest; [..|done];
      destruct (g_network g), (g_economic g), (g_technical g); cbn [app];
      repeat (apply List.Forall_cons; [done|]); apply List.Forall_nil. }
  rewrite <- !(assoc_L (++)) in Hend. cbn [app] in Hend.
  destruct (g_network g), (g_economic g), (g_technical g), (g_gov g); exact Hend.
Qed.

(** ** Ratification *)

Lemma get_record_yes (v w : Voter) votes :
  bt_get w (bt_insert v Vote_Yes votes) = bt_get w votes \/ bt_get w (bt_insert v Vote_Yes votes) = Some Vote_Yes.
Proof.
  destruct (key_eqb_reflect w v) as [->|Hne]; [right; apply bt_get_insert|left; by apply bt_get_insert_ne].
Qed.
Lemma omap_Forall2 {A B} (R : B -> B -> Prop) (f g : A -> option B) l :
  (forall x, match f x, g x with Some a, Some b => R a b | None, None => True | _, _ => False end) ->
  Forall2 R (omap f l) (omap g l).
Proof.
  intros Hfg. induction l as [|x l IH]; [constructor|]. cbn [omap list_omap]. specialize (Hfg x).
  destruct (f x), (g x); try done. by constructor.
Qed.

Section yes.
Context (votes : list (Voter * Vote)) (voter : Voter).
Let votes' := bt_insert voter Vote_Yes votes.

Lemma committee_more_yes epoch cs :
  Forall2 more_yes (committee_ballots votes epoch cs) (committee_ballots votes' epoch cs).
Proof.
  apply omap_Forall2. intros [c m]. cbn [snd]. destruct (counts_as_member epoch m); [|done]. split; [done|].
  cbn [fst]. destruct (hot_voter m) as [v|]; cbn; [apply get_record_yes|by left].
Qed.
Lemma drep_more_yes dreps epoch activity nc stakes :
  Forall2 more_yes (omap (drep_ballot votes dreps epoch activity nc) stakes)
    (omap (drep_ballot votes' dreps epoch activity nc) stakes).
Proof.
  apply omap_Forall2. intros [d w]. unfold drep_ballot. cbn [fst snd].
  destruct d as [h|h| |]; [| |done|by split; [|left]].
  all: destruct (bt_get _ dreps) as [reg|]; cbn; [|done]; destruct (drep_inactive _ _ _); [done|].
  all: split; [done|]; apply get_record_yes.
Qed.
Lemma spo_more_yes a bootstrap ps creds stakes :
  Forall2 more_yes (spo_ballot votes a bootstrap ps creds <$> stakes)
    (spo_ballot votes' a bootstrap ps creds <$> stakes).
Proof.
  induction stakes as [|[p w] l IH]; [constructor|]. cbn [fmap list_fmap]. constructor; [|done].
  split; [done|]. unfold spo_ballot. cbn [fst snd].
  destruct (get_record_yes voter (Voter_StakePool p) votes) as [E|E]; fold votes' in E; rewrite E; [by left|by right].
Qed.
End yes.

Lemma more_yes_ballots_ok l l' : Forall2 more_yes l l' -> ballots_ok l -> ballots_ok l'.
Proof.
  intros Hm [Hn Hs]. destruct (more_yes_sums l l' Hm Hn) as (E & _). split; [|lia].
  clear -Hm Hn. induction Hm as [|b b' l l' [Hw _] _ IH]; [done|].
  inversion Hn; subst. constructor; [lia|auto].
Qed.

(** The electorate: stakes that add up within 64 bits, valid thresholds. *)
Record electorate_ok (votes : list (Voter * Vote)) (a : GovAction) (cs : CommitteeState)
    (quorum : UnitInterval) (dreps : DrepState) (stakes : list (DRep * Z)) (epoch : EpochNo)
    (activity : Z) (dt : DRepVotingThresholds) (dist : PoolStakeDistribution)
    (pt : PoolVotingThresholds) (bootstrap committee : bool) (ps : PoolState)
    (creds : StakeCredentialsMap) : Prop := {
  eo_committee : ballots_ok (committee_ballots votes epoch cs);
  eo_dreps : ballots_ok (omap (drep_ballot votes dreps epoch activity (is_no_confidence a)) stakes);
  eo_pools : ballots_ok (spo_ballot votes a bootstrap ps creds <$> pd_pool_stakes dist);
  eo_total : lsum snd (pd_pool_stakes dist) = pd_total_stake dist;
  eo_quorum : valid_ratio quorum;
  eo_drep_threshold : forall t, drep_threshold_for_action a committee (if bootstrap then zero_drep else dt) = Some t -> valid_ratio t;
  eo_pool_threshold : forall t, spo_threshold_for_action a committee pt = Some t -> valid_ratio t }.

(** C27: a "yes" never hurts. If an action is ratified, it still is after any
    committee member, representative or pool records a "yes", whether they had
    voted "no", abstained or not voted, for every action, threshold, stake
    distribution and phase. *)
Theorem yes_vote_keeps_ratified action voter cs quorum dreps stakes epoch activity dt dist pt min_size bootstrap
    committee ps creds :
  electorate_ok (gs_votes action) (gs_action action) cs quorum dreps stakes epoch activity dt dist pt bootstrap
    committee ps creds ->
  ratify_action action cs quorum dreps stakes epoch activity dt dist pt min_size bootstrap committee ps creds
    = true ->
  ratify_action (record_vote action voter Vote_Yes) cs quorum dreps stakes epoch activity dt dist pt min_size
    bootstrap committee ps creds = true.
Proof.
  intros [Hc Hd Hp Htot Hq Hdt Hpt]. unfold ratify_action.
  rewrite !andb_true_iff. intros [[Rc Rd] Rp].
  set (action' := record_vote action voter Vote_Yes).
  assert (Ea : gs_action action' = gs_action action) by done.
  assert (Ev : gs_votes action' = bt_insert voter Vote_Yes (gs_votes action)) by done.
  pose proof (committee_more_yes (gs_votes action) voter epoch cs) as Mc.
  pose proof (drep_more_yes (gs_votes action) voter dreps epoch activity (is_no_confidence (gs_action action)) stakes) as Md.
  pose proof (spo_more_yes (gs_votes action) voter (gs_action action) bootstrap ps creds (pd_pool_stakes dist)) as Mp.
  split_and!.
  - unfold accepted_by_committee in *. rewrite Ea. rewrite committee_tally in Rc by done.
    assert (Hm : meets_threshold (ballot_tally (committee_ballots (gs_votes action) epoch cs)) quorum = true ->
      meets_threshold (tally_committee_votes action' cs epoch) quorum = true).
    { rewrite committee_tally; rewrite Ev; [|by eapply more_yes_ballots_ok].
      apply more_yes_meets; [done|apply Hc|done]. }
    destruct (gs_action action); try done; repeat case_match; auto.
  - unfold accepted_by_dreps in *. rewrite Ea.
    destruct (drep_threshold_for_action _ _ _) as [t|] eqn:Et; [|done].
    rewrite drep_tally in Rd by done. rewrite drep_tally; rewrite Ev; [|by eapply more_yes_ballots_ok].
    eapply more_yes_meets; [by apply Hdt|apply Hd|done|done].
  - unfold accepted_by_spo in *. rewrite Ea.
    destruct (spo_threshold_for_action _ _ _) as [t|] eqn:Et; [|done].
    rewrite spo_tally in Rp by done. rewrite spo_tally; rewrite ?Ev, ?Ea; [|by eapply more_yes_ballots_ok|done].
    eapply more_yes_meets; [by apply Hpt|apply Hp|done|done].
Qed.

(** ** Witnesses *)

Definition example_update : ProtocolParameterUpdate :=
  ProtocolParameterUpdate_default <| u_min_fee_a := Some 50 |> <| u_drep_activity := Some 20 |>.
Lemma parameter_change_threshold_witness :
  let groups := drep_groups (conway_modified_pparam_groups example_update) DRepVotingThresholds_default in
  groups = [mkUnitInterval 67 100; mkUnitInterval 75 100] /\
  mkUnitInterval 75 100 ∈ groups /\ Forall (fun x => ratio_le x (mkUnitInterval 75 100)) groups.
Proof.
  split; [reflexivity|]. apply (parameter_change_threshold example_update DRepVotingThresholds_default).
  repeat (apply List.Forall_cons; [unfold positive_ratio; cbn; lia|]). apply List.Forall_nil.
Defined.

Definition example_action : GovernanceActionState :=
  mkActionState (mkProposal 100 [] (HardForkInitiation None (10, 0)) (mkAnchor [] []))
    [(Voter_CommitteeKeyHash [1], Vote_Yes); (Voter_DRepKeyHash [2], Vote_Yes);
     (Voter_StakePool [3], Vote_Yes); (Voter_StakePool [4], Vote_Abstain)] None None.
Definition example_committee : CommitteeState :=
  [(AddrKeyHash [9], mkMember (Some (CommitteeHotCredential (AddrKeyHash [1]))) (Some 100))].
Definition example_dreps : DrepState := [(DRepKeyHash [2], mkRegisteredDrep None 0 (Some 5))].
Definition example_dist : PoolStakeDistribution :=
  mkDistribution [([3], 600); ([4], 300); ([5], 100)] [] 1000.

Lemma yes_vote_keeps_ratified_witness :
  ratify_action (record_vote example_action (Voter_StakePool [4]) Vote_Yes) example_committee
    (mkUnitInterval 2 3) example_dreps [(DRepKeyHash [2], 700); (AlwaysNoConfidence, 300)] 7 20
    DRepVotingThresholds_default example_dist PoolVotingThresholds_default 1 false true
    (mkPoolState [] []) [] = true.
Proof.
  apply yes_vote_keeps_ratified; [|vm_compute; reflexivity].
  assert (Hok : forall l : list ballot, forallb (fun b => 0 <=? b.2) l && (lsum snd l <=? U64_MAX) = true -> ballots_ok l).
  { intros l E. apply andb_true_iff in E as [E1 E2]. split; [|by apply Z.leb_le].
    apply Forall_forall. intros b Hb. rewrite forallb_forall in E1.
    apply Z.leb_le, E1. by apply list_elem_of_In. }
  split; try (apply Hok; vm_compute; reflexivity); try reflexivity.
  - unfold valid_ratio. cbn. lia.
  - intros t [= <-]. unfold valid_ratio. cbn. lia.
  - intros t [= <-]. unfold valid_ratio. cbn. lia.
Defined.
