(* ===== verification/LedgerState.v ===== *)
(** * The ledger state

    The state of [crates/ledger/src/state.rs] between blocks, without the chain
    tip and the Byron hand-over: registries, governance, pots, parameters and
    the pending updates, with the operations of the state itself: due
    parameter updates, donations, enactment. *)

From stdpp Require Import list gmap.
From S2P Require Import Prelude Cbor Types TypesCodec BTree ProtocolParams.
From S2P Require Import NativeScript PlutusData Uplc Builtins ScriptContext Utxo Staking Governance.
Local Open Scope Z_scope.

Record GenesisDelegationState := mkGenesisDelegation { gd_delegate : list Z; gd_vrf : list Z }.
Abbreviation GenesisHash := (list Z).
(** [(u64, GenesisHash)] *)
#[export, refine] Instance future_key_ord : OrdKey (Z * GenesisHash) :=
  {| ord_key k := k.1 :: k.2 |}.
Proof. abstract (intros [] []; simpl; congruence). Defined.

Record LedgerState := mkLedger {
  ls_current_era : Era;
  ls_current_epoch : EpochNo;
  ls_expected_network_id : option Z;
  ls_governance_actions : GovernanceActions;
  ls_pool_state : PoolState;
  ls_stake_credentials : StakeCredentialsMap;
  ls_committee_state : CommitteeState;
  ls_drep_state : DrepState;
  ls_reward_accounts : RewardAccounts;
  ls_multi_era_utxo : MultiEraUtxo;
  ls_protocol_params : option ProtocolParameters;
  ls_previous_protocol_params : option ProtocolParameters;
  ls_deposit_pot : DepositPot;
  ls_accounting : AccountingState;
  ls_enact_state : EnactState;
  ls_gen_delegs : list (GenesisHash * GenesisDelegationState);
  ls_future_gen_delegs : list (Z * GenesisHash * GenesisDelegationState);
  ls_pending_pparam_updates : list (EpochNo * list (GenesisHash * ProtocolParameterUpdate));
  ls_utxos_donation : Z;
  ls_instantaneous_rewards : InstantaneousRewards;
  ls_genesis_update_quorum : Z;
  ls_num_dormant_epochs : Z;
  ls_blocks_made : list (PoolKeyHash * Z);
  ls_blocks_made_prev : list (PoolKeyHash * Z);
  ls_max_lovelace_supply : Z;
  ls_slots_per_epoch : Z;
  ls_active_slot_coeff : UnitInterval;
  ls_stability_window : option Z }.
#[export] Instance LedgerState_eta : Eta LedgerState := fun l =>
  mkLedger (ls_current_era l) (ls_current_epoch l) (ls_expected_network_id l)
    (ls_governance_actions l) (ls_pool_state l) (ls_stake_credentials l) (ls_committee_state l)
    (ls_drep_state l) (ls_reward_accounts l) (ls_multi_era_utxo l) (ls_protocol_params l)
    (ls_previous_protocol_params l) (ls_deposit_pot l) (ls_accounting l) (ls_enact_state l)
    (ls_gen_delegs l) (ls_future_gen_delegs l) (ls_pending_pparam_updates l) (ls_utxos_donation l)
    (ls_instantaneous_rewards l) (ls_genesis_update_quorum l) (ls_num_dormant_epochs l)
    (ls_blocks_made l) (ls_blocks_made_prev l) (ls_max_lovelace_supply l) (ls_slots_per_epoch l)
    (ls_active_slot_coeff l) (ls_stability_window l).

Definition previous_protocol_params (l : LedgerState) : option ProtocolParameters :=
  match ls_previous_protocol_params l with
  | Some p => Some p
  | None => ls_protocol_params l
  end.
Definition snapshot_previous_protocol_params (l : LedgerState) : LedgerState :=
  l <| ls_previous_protocol_params := ls_protocol_params l |>.
Definition rotate_blocks_made_for_epoch_boundary (l : LedgerState) : LedgerState :=
  l <| ls_blocks_made_prev := ls_blocks_made l |> <| ls_blocks_made := [] |>.
Definition accumulate_donation (l : LedgerState) (amount : Z) : LedgerState :=
  l <| ls_utxos_donation := sat_add (ls_utxos_donation l) amount |>.
Definition flush_donations_to_treasury (l : LedgerState) : LedgerState * Z :=
  let donated := ls_utxos_donation l in
  (if 0 <? donated then
     let acct := ls_accounting l in
     l <| ls_accounting := acct <| treasury := sat_add (treasury acct) donated |> |>
       <| ls_utxos_donation := 0 |>
   else l, donated).
Definition enact_action (l : LedgerState) (id : GovActionId) (action : GovAction)
    : LedgerState * EnactOutcome :=
  let '(e, outcome) :=
    enact_gov_action_at_epoch
      (mkEnactable (ls_enact_state l) (ls_committee_state l) (ls_protocol_params l)
         (ls_reward_accounts l) (ls_accounting l)) id action in
  (l <| ls_enact_state := en_enact e |> <| ls_committee_state := en_committee e |>
     <| ls_protocol_params := en_protocol_params e |>
     <| ls_reward_accounts := en_reward_accounts e |> <| ls_accounting := en_accounting e |>,
   outcome).

(** ** Parameter updates of the genesis delegates *)

#[export] Instance UnitInterval_eq_dec : EqDecision UnitInterval.
Proof. solve_decision. Defined.
#[export] Instance ExUnits_eq_dec : EqDecision ExUnits.
Proof. solve_decision. Defined.
#[export] Instance PoolVotingThresholds_eq_dec : EqDecision PoolVotingThresholds.
Proof. solve_decision. Defined.
#[export] Instance DRepVotingThresholds_eq_dec : EqDecision DRepVotingThresholds.
Proof. solve_decision. Defined.
#[export] Instance CostModels_eq_dec : EqDecision CostModels.
Proof. unfold CostModels. solve_decision. Defined.
#[export] Instance ProtocolParameterUpdate_eq_dec : EqDecision ProtocolParameterUpdate.
Proof. solve_decision. Defined.

(** One proposal counted: the first equal entry is incremented, a new one goes last. *)
Fixpoint count_proposal (p : ProtocolParameterUpdate) (counts : list (ProtocolParameterUpdate * Z))
    : list (ProtocolParameterUpdate * Z) :=
  match counts with
  | [] => [(p, 1)]
  | (q, n) :: counts =>
      if decide (q = p) then (q, n + 1) :: counts else (q, n) :: count_proposal p counts
  end.
(** [max_by_key]: the last of the largest. *)
Definition max_by_count (counts : list (ProtocolParameterUpdate * Z))
    : option (ProtocolParameterUpdate * Z) :=
  foldl (fun best e =>
    match best with
    | Some b => if b.2 <=? e.2 then Some e else best
    | None => Some e
    end) None counts.

Definition apply_pending_pparam_updates (l : LedgerState) (epoch : EpochNo) : LedgerState * Z :=
  let proposals := bt_get epoch (ls_pending_pparam_updates l) in
  let l := l <| ls_pending_pparam_updates :=
                  List.filter (fun e => epoch <? e.1)
                    (bt_remove epoch (ls_pending_pparam_updates l)) |> in
  match proposals with
  | Some ((_ :: _) as proposals) =>
      let gen_delegs_count := Z.of_nat (length (ls_gen_delegs l)) in
      if gen_delegs_count =? 0 then (l, 0)
      else
        let valid :=
          (List.filter (fun e => bt_contains e.1 (ls_gen_delegs l)) proposals).*2 in
        match valid with
        | [] => (l, 0)
        | _ =>
            let quorum := gen_delegs_count / 2 + 1 in
            let counts := foldl (fun counts p => count_proposal p counts) [] valid in
            match max_by_count counts with
            | Some (winning_update, count) =>
                if quorum <=? count then
                  let params := default ProtocolParameters_default (ls_protocol_params l) in
                  (l <| ls_protocol_params := Some (apply_update params winning_update) |>,
                   field_count winning_update)
                else (l, 0)
            | None => (l, 0)
            end
        end
  | _ => (l, 0)
  end.
Definition apply_due_pending_pparam_updates (l : LedgerState) (epoch : EpochNo) : LedgerState * Z :=
  let due_epochs := List.filter (fun e => e <=? epoch) (bt_keys (ls_pending_pparam_updates l)) in
  foldl (fun '(l, sum) due =>
    let '(l, n) := apply_pending_pparam_updates l due in (l, sum + n)) (l, 0) due_epochs.
