(* ===== verification/EpochBoundary.v ===== *)
(** * The epoch boundary

    Model of [crates/ledger/src/epoch_boundary.rs]: the transition that closes
    an epoch. Rewards are computed from the oldest snapshot and credited,
    instantaneous rewards paid, a new stake snapshot taken, pools retired,
    due parameter updates applied, the pots settled, governance actions
    ratified, enacted, expired and pruned, and deposits returned. *)

From stdpp Require Import list gmap.
From S2P Require Import Prelude Cbor Types TypesCodec BTree ProtocolParams Fees WideArith.
From S2P Require Import NativeScript PlutusData Uplc Builtins ScriptContext Utxo.
From S2P Require Import Staking Rewards Governance LedgerState.
Local Open Scope Z_scope.

(** ** Block production *)

(** [blocks_made.values().sum()] *)
Definition total_blocks (blocks_made : list (PoolKeyHash * Z)) : Z :=
  foldl (fun sum b => wrap64 (sum + b)) 0 (bt_values blocks_made).

(** [d.numerator * 10 >= d.denominator * 8 && d.denominator > 0] *)
Definition mostly_centralised (d : UnitInterval) : bool :=
  (0 <? denominator d) && (wrap64 (denominator d * 8) <=? wrap64 (numerator d * 10)).

Definition compute_eta (d_param asc : UnitInterval) (slots_per_epoch : Z)
    (blocks_made : list (PoolKeyHash * Z)) : fee_outcome UnitInterval :=
  let one := mkUnitInterval 1 1 in
  if mostly_centralised d_param then Ok one
  else if (slots_per_epoch =? 0) || (denominator asc =? 0) || (numerator asc =? 0) then Ok one
  else
    let one_minus_d_num := sat_sub (denominator d_param) (numerator d_param) in
    let? expected :=
      div_u128 (wrap128 (one_minus_d_num * numerator asc * slots_per_epoch))
        (denominator d_param * denominator asc) in
    if expected =? 0 then Ok one
    else
      let blocks := total_blocks blocks_made in
      if expected <=? blocks then Ok one
      else Ok (mkUnitInterval blocks (wrap64 expected)).

(** The same Euclidean loop at both widths. *)
Definition boundary_gcd (a b : Z) : fee_outcome Z := gcd_loop 257 a b.
(** A pair divided by its greatest common divisor. *)
Definition divide_by_gcd (a b : Z) : fee_outcome (Z * Z) :=
  let? g := boundary_gcd a b in
  let? a' := div_u128 a g in
  let? b' := div_u128 b g in
  Ok (a', b').
Definition ceil_div_u128 (a b : Z) : Z := if b =? 0 then 0 else (a + b - 1) / b.

Definition apparent_performance_ratio (blocks_produced total_active_stake pool_stake total_blocks : Z)
    : fee_outcome (option UnitInterval) :=
  if (blocks_produced =? 0) || (total_active_stake =? 0) || (pool_stake =? 0) || (total_blocks =? 0)
  then Ok None
  else
    let? p := divide_by_gcd blocks_produced total_blocks in
    let '(n1, d2) := p in
    let? p := divide_by_gcd total_active_stake pool_stake in
    let '(n2, d1) := p in
    let? p := divide_by_gcd n1 d1 in
    let '(n1, d1) := p in
    let? p := divide_by_gcd n2 d2 in
    let '(n2, d2) := p in
    let num := sat_mul128 n1 n2 in
    let den := sat_mul128 d1 d2 in
    if den =? 0 then Ok None
    else
      let? p := divide_by_gcd num den in
      let '(num, den) := p in
      let '(num, den) :=
        if (U64_MAX <? num) || (U64_MAX <? den) then
          let scale := Z.max (ceil_div_u128 num U64_MAX) (ceil_div_u128 den U64_MAX) in
          (Z.max (num / scale) 1, Z.max (den / scale) 1)
        else (num, den) in
      Ok (Some (mkUnitInterval (wrap64 num) (wrap64 den))).

Fixpoint derive_performance_loop (dist : PoolStakeDistribution) (total_stake total : Z)
    (blocks_made : list (PoolKeyHash * Z)) (performance : list (PoolKeyHash * UnitInterval))
    : fee_outcome (list (PoolKeyHash * UnitInterval)) :=
  match blocks_made with
  | [] => Ok performance
  | (pool_hash, blocks_produced) :: rest =>
      let stake := pool_stake dist pool_hash in
      if stake =? 0 then derive_performance_loop dist total_stake total rest performance
      else
        let? ratio := apparent_performance_ratio blocks_produced total_stake stake total in
        derive_performance_loop dist total_stake total rest
          match ratio with Some r => bt_insert pool_hash r performance | None => performance end
  end.
Definition derive_pool_performance (blocks_made : list (PoolKeyHash * Z))
    (reward_snapshot : StakeSnapshot) (d : UnitInterval)
    : fee_outcome (list (PoolKeyHash * UnitInterval)) :=
  if mostly_centralised d then
    Ok (bt_collect ((fun pool => (pool, mkUnitInterval 1 1)) <$> bt_keys blocks_made))
  else
    let dist := pool_stake_distribution reward_snapshot in
    let total_stake := pd_total_stake dist in
    match blocks_made with
    | [] => Ok []
    | _ =>
        if total_stake =? 0 then Ok []
        else
          let total := total_blocks blocks_made in
          if total =? 0 then Ok []
          else derive_performance_loop dist total_stake total blocks_made []
    end.

(** ** Crediting rewards *)

(** [if let Some(state) = accounts.get_mut(account) { credit } else { .. }] *)
Definition credit_account (accounts : RewardAccounts) (account : RewardAccount) (amount : Z)
    : RewardAccounts * bool :=
  match bt_get account accounts with
  | Some _ => (bt_alter (credit amount) account accounts, true)
  | None => (accounts, false)
  end.

(** Accounts, accounts credited, lovelace without a registered account. *)
Definition credit_leader (st : RewardAccounts * Z * Z) (e : RewardAccount * Z)
    : RewardAccounts * Z * Z :=
  let '(ra, count, lost) := st in
  let '(account, amount) := e in
  if amount =? 0 then st
  else
    match credit_account ra account amount with
    | (ra, true) => (ra, count + 1, lost)
    | (ra, false) => (ra, count, sat_add lost amount)
    end.
Definition credit_member (st : RewardAccounts * Z * Z) (e : StakeCredential * Z)
    : RewardAccounts * Z * Z :=
  let '(ra, count, lost) := st in
  let '(cred, amount) := e in
  if amount =? 0 then st
  else
    match credit_by_credential ra cred amount with
    | (ra, true) => (ra, count + 1, lost)
    | (ra, false) => (ra, count, sat_add lost amount)
    end.
Definition distribute_rewards (accounts : RewardAccounts) (dist : EpochRewardDistribution)
    : RewardAccounts * Z * Z :=
  foldl credit_member (foldl credit_leader (accounts, 0, 0) (leader_deltas dist))
    (reward_deltas dist).

(** ** Instantaneous rewards *)

Definition wrap_i64 (z : Z) : Z := (z + 2 ^ 63) mod 2 ^ 64 - 2 ^ 63.
(** [(-delta) as u64] *)
Definition neg_as_u64 (delta : Z) : Z := wrap64 (wrap_i64 (- delta)).
Definition apply_signed_delta (pot delta : Z) : Z :=
  if 0 <? delta then sat_add pot delta
  else if delta <? 0 then sat_sub pot (neg_as_u64 delta)
  else pot.

Record MirEpochResult := mkMirResult {
  mr_accounts_credited : Z;
  mr_from_reserves : Z;
  mr_from_treasury : Z;
  mr_pot_delta_reserves : Z;
  mr_pot_delta_treasury : Z;
  mr_pots_insufficient : bool }.

Definition sum_i64 (m : list (StakeCredential * Z)) : Z :=
  foldl (fun sum v => wrap_i64 (sum + v)) 0 (bt_values m).
Definition merge_deltas (combined m : list (StakeCredential * Z)) : list (StakeCredential * Z) :=
  foldl (fun c '(cred, delta) => bt_entry 0 (fun v => wrap_i64 (v + delta)) cred c) combined m.
(** One entry of the merged map. *)
Definition credit_mir (cred_to_account : list (StakeCredential * RewardAccount))
    (st : RewardAccounts * Z) (e : StakeCredential * Z) : RewardAccounts * Z :=
  let '(ra, credited) := st in
  let '(cred, delta) := e in
  if delta =? 0 then st
  else
    match bt_get cred cred_to_account with
    | None => st
    | Some account =>
        match bt_get account ra with
        | None => st
        | Some _ =>
            (bt_alter (if 0 <? delta then credit delta else debit (neg_as_u64 delta)) account ra,
             credited + 1)
        end
    end.

(** Reward accounts and pots after the transfer; the ledger's record of
    pending rewards is emptied by the caller. *)
Definition apply_mir (ir : InstantaneousRewards) (accounts : RewardAccounts) (acct : AccountingState)
    : RewardAccounts * AccountingState * MirEpochResult :=
  if ir_is_empty ir then (accounts, acct, mkMirResult 0 0 0 0 0 false)
  else
    let delta_r := delta_reserves ir in
    let delta_t := delta_treasury ir in
    let cred_to_account := bt_collect ((fun a => (ra_credential a, a)) <$> bt_keys accounts) in
    let registered e := bt_contains e.1 cred_to_account in
    let filtered_reserves := bt_collect (List.filter registered (ir_reserves ir)) in
    let filtered_treasury := bt_collect (List.filter registered (ir_treasury ir)) in
    let total_reserves := sum_i64 filtered_reserves in
    let total_treasury := sum_i64 filtered_treasury in
    let available_reserves := wrap64 (Z.max (reserves acct + delta_r) 0) in
    let available_treasury := wrap64 (Z.max (treasury acct + delta_t) 0) in
    let reserves_ok := (total_reserves <=? 0) || (total_reserves <=? available_reserves) in
    let treasury_ok := (total_treasury <=? 0) || (total_treasury <=? available_treasury) in
    let can_pay := reserves_ok && treasury_ok in
    let '(accounts, credited, from_r, from_t) :=
      if can_pay && (negb (total_reserves =? 0) || negb (total_treasury =? 0)) then
        let combined := merge_deltas (merge_deltas [] filtered_reserves) filtered_treasury in
        let '(accounts, credited) := foldl (credit_mir cred_to_account) (accounts, 0) combined in
        (accounts, credited, Z.max total_reserves 0, Z.max total_treasury 0)
      else (accounts, 0, 0, 0) in
    let acct :=
      if can_pay then
        mkAccounting
          (apply_signed_delta (apply_signed_delta (treasury acct) delta_t) (wrap_i64 (- total_treasury)))
          (apply_signed_delta (apply_signed_delta (reserves acct) delta_r) (wrap_i64 (- total_reserves)))
      else acct in
    (accounts, acct, mkMirResult credited from_r from_t delta_r delta_t (negb can_pay)).
Definition apply_mir_at_epoch_boundary (l : LedgerState) : LedgerState * MirEpochResult :=
  let '(accounts, acct, result) :=
    apply_mir (ls_instantaneous_rewards l) (ls_reward_accounts l) (ls_accounting l) in
  (l <| ls_instantaneous_rewards := no_rewards |> <| ls_reward_accounts := accounts |>
     <| ls_accounting := acct |>, result).

(** ** Pool retirement *)

(** Accounts, pot, lovelace refunded, lovelace unclaimed. *)
Definition refund_pool (st : RewardAccounts * DepositPot * Z * Z) (e : PoolKeyHash * RewardAccount * Z)
    : RewardAccounts * DepositPot * Z * Z :=
  let '(accounts, pot, refunded, unclaimed) := st in
  let '(_, account, deposit) := e in
  if deposit =? 0 then st
  else
    let '(accounts, paid) := credit_account accounts account deposit in
    (accounts, return_pool_deposit pot deposit,
     (if paid then sat_add refunded deposit else refunded),
     (if paid then unclaimed else sat_add unclaimed deposit)).

Definition retire_pools_with_refunds (l : LedgerState) (epoch : EpochNo)
    : LedgerState * list PoolKeyHash * Z * Z :=
  let retiring :=
    (fun e => (e.1, reward_account (rp_params e.2), rp_deposit e.2))
      <$> List.filter (fun e => retires_by epoch e.2) (pool_entries (ls_pool_state l)) in
  match retiring with
  | [] => (l, [], 0, 0)
  | _ =>
      let '(pools, retired_keys) := process_retirements (ls_pool_state l) epoch in
      let '(accounts, pot, refunded, unclaimed) :=
        foldl refund_pool (ls_reward_accounts l, ls_deposit_pot l, 0, 0) retiring in
      (l <| ls_pool_state := pools |>
         <| ls_stake_credentials := clear_pool_delegations (ls_stake_credentials l) retired_keys |>
         <| ls_reward_accounts := accounts |> <| ls_deposit_pot := pot |>,
       retired_keys, refunded, unclaimed)
  end.

(** ** Proposals: expiry, descendants, lineage *)

(** A deposit goes back to the account named by the proposal, if it parses and
    is registered. *)
Definition refund_deposit (accounts : RewardAccounts) (raw_account : list Z) (deposit : Z)
    : RewardAccounts * bool :=
  match RewardAccount_from_bytes raw_account with
  | Some account => credit_account accounts account deposit
  | None => (accounts, false)
  end.
(** Accounts, lovelace refunded, lovelace unclaimed. *)
Definition refund_target (st : RewardAccounts * Z * Z) (target : list Z * Z)
    : RewardAccounts * Z * Z :=
  let '(accounts, refunded, unclaimed) := st in
  let '(accounts, paid) := refund_deposit accounts target.1 target.2 in
  (accounts, (if paid then sat_add refunded target.2 else refunded),
   (if paid then unclaimed else sat_add unclaimed target.2)).

Definition deposit_target (s : GovernanceActionState) : list Z * Z :=
  (pp_reward_account (gs_proposal s), pp_deposit (gs_proposal s)).
(** Remove the actions, in order, and collect where their deposits go. *)
Definition remove_actions (actions : GovernanceActions) (ids : list GovActionId)
    : GovernanceActions * list (list Z * Z) :=
  foldl (fun '(actions, targets) id =>
    match bt_get id actions with
    | Some s => (bt_remove id actions, targets ++ [deposit_target s])
    | None => (actions, targets)
    end) (actions, []) ids.

(** [expires_after.is_some_and(|e| e < epoch)] *)
Definition action_expired (epoch : EpochNo) (s : GovernanceActionState) : bool :=
  match gs_expires_after s with Some e => e <? epoch | None => false end.
Definition remove_expired_governance_actions (l : LedgerState) (epoch : EpochNo)
    : LedgerState * list GovActionId * Z * Z :=
  let expired_ids :=
    (List.filter (fun e => action_expired epoch e.2) (ls_governance_actions l)).*1 in
  match expired_ids with
  | [] => (l, [], 0, 0)
  | _ =>
      let '(actions, targets) := remove_actions (ls_governance_actions l) expired_ids in
      let '(accounts, refunded, unclaimed) :=
        foldl refund_target (ls_reward_accounts l, 0, 0) targets in
      (l <| ls_governance_actions := actions |> <| ls_reward_accounts := accounts |>,
       expired_ids, refunded, unclaimed)
  end.

(** A [BTreeSet]. *)
Abbreviation BTreeSet K := (list (K * unit)).
Definition set_insert {K} `{OrdKey K} (k : K) (s : BTreeSet K) : BTreeSet K := bt_insert k tt s.
Definition set_collect {K} `{OrdKey K} (l : list K) : BTreeSet K :=
  foldl (fun s k => set_insert k s) [] l.

(** The proposals a removed one is the parent of, not yet marked. *)
Definition next_wave (actions : GovernanceActions) (all_removed : BTreeSet GovActionId)
    : list GovActionId :=
  (List.filter (fun e =>
     negb (bt_contains e.1 all_removed)
     && match gov_action_prev_id (gs_action e.2) with
        | Some (Some parent) => bt_contains parent all_removed
        | _ => false
        end) actions).*1.
Fixpoint mark_descendants (fuel : nat) (actions : GovernanceActions)
    (all_removed : BTreeSet GovActionId) : fee_outcome (BTreeSet GovActionId) :=
  match fuel with
  | O => OutOfFuel
  | S fuel =>
      match next_wave actions all_removed with
      | [] => Ok all_removed
      | wave => mark_descendants fuel actions (foldl (fun s id => set_insert id s) all_removed wave)
      end
  end.
(** Actions, accounts, lovelace refunded, lovelace unclaimed. *)
Definition remove_and_refund (st : GovernanceActions * RewardAccounts * Z * Z) (id : GovActionId)
    : GovernanceActions * RewardAccounts * Z * Z :=
  let '(actions, accounts, refunded, unclaimed) := st in
  match bt_get id actions with
  | Some s =>
      let '(accounts, refunded, unclaimed) :=
        refund_target (accounts, refunded, unclaimed) (deposit_target s) in
      (bt_remove id actions, accounts, refunded, unclaimed)
  | None => st
  end.
(** Every turn marks a pending action: one turn more than there are actions is enough. *)
Definition remove_descendants_of (l : LedgerState) (removed_ids : list GovActionId)
    : fee_outcome (LedgerState * Z * Z) :=
  let actions := ls_governance_actions l in
  let? all_removed := mark_descendants (S (length actions)) actions (set_collect removed_ids) in
  let descendant_ids :=
    List.filter (fun id => negb (List.existsb (key_eqb id) removed_ids)) (bt_keys all_removed) in
  let '(actions, accounts, refunded, unclaimed) :=
    foldl remove_and_refund (actions, ls_reward_accounts l, 0, 0) descendant_ids in
  Ok (l <| ls_governance_actions := actions |> <| ls_reward_accounts := accounts |>,
      refunded, unclaimed).

Definition gov_id_eqb (a b : option GovActionId) : bool :=
  match a, b with
  | None, None => true
  | Some a, Some b => key_eqb a b
  | _, _ => false
  end.
(** One pass over the proposals of a purpose: the valid ones so far, and
    whether the pass found a new one. *)
Definition validate_pass (new_root : option GovActionId)
    (proposals : list (GovActionId * option GovActionId)) (valid : BTreeSet GovActionId)
    : BTreeSet GovActionId * bool :=
  foldl (fun '(valid, changed) '(id, prev) =>
    if bt_contains id valid then (valid, changed)
    else if gov_id_eqb prev new_root
            || match prev with Some p => bt_contains p valid | None => false end
         then (set_insert id valid, true)
    else (valid, changed)) (valid, false) proposals.
Fixpoint validate_lineage (fuel : nat) (new_root : option GovActionId)
    (proposals : list (GovActionId * option GovActionId)) (valid : BTreeSet GovActionId)
    : fee_outcome (BTreeSet GovActionId) :=
  match fuel with
  | O => OutOfFuel
  | S fuel =>
      match validate_pass new_root proposals valid with
      | (valid, true) => validate_lineage fuel new_root proposals valid
      | (valid, false) => Ok valid
      end
  end.
Fixpoint remove_lineage_conflicting_proposals (l : LedgerState)
    (enacted_purposes : list ConwayGovActionPurpose) : fee_outcome (list GovActionId) :=
  match enacted_purposes with
  | [] => Ok []
  | purpose :: rest =>
      let new_root := enacted_root (ls_enact_state l) purpose in
      let proposals :=
        (fun e => (e.1, gov_action_prev_id (gs_action e.2) ≫= id))
          <$> List.filter (fun e => key_eqb (conway_gov_action_purpose (gs_action e.2)) purpose)
                (ls_governance_actions l) in
      let? valid := validate_lineage (S (length proposals)) new_root proposals [] in
      let stale := List.filter (fun id => negb (bt_contains id valid)) proposals.*1 in
      let? more := remove_lineage_conflicting_proposals l rest in
      Ok (stale ++ more)
  end.

(** ** Ratification and enactment *)

Definition action_priority (a : GovAction) : Z :=
  match a with
  | NoConfidence _ => 0
  | UpdateCommittee _ _ _ _ => 1
  | NewConstitution _ _ => 2
  | HardForkInitiation _ _ => 3
  | ParameterChange _ _ _ => 4
  | TreasuryWithdrawals _ _ => 5
  | InfoAction => 6
  end.
Definition delaying_action (a : GovAction) : bool :=
  match a with
  | NoConfidence _ | HardForkInitiation _ _ | UpdateCommittee _ _ _ _ | NewConstitution _ _ => true
  | _ => false
  end.
Definition prev_action_as_expected (s : GovernanceActionState) (es : EnactState) : bool :=
  match gov_action_prev_id (gs_action s) with
  | None => true
  | Some prev => gov_id_eqb prev (enacted_root es (conway_gov_action_purpose (gs_action s)))
  end.
(** [withdrawals.values().sum()] *)
Definition withdrawal_sum (withdrawals : list (RewardAccount * Z)) : Z :=
  foldl (fun sum v => wrap64 (sum + v)) 0 (bt_values withdrawals).
Definition withdrawal_can_withdraw (a : GovAction) (treasury : Z) : bool :=
  match a with
  | TreasuryWithdrawals withdrawals _ => withdrawal_sum withdrawals <=? treasury
  | _ => true
  end.
Definition valid_committee_term (a : GovAction) (max_term : option Z) (current_epoch : EpochNo)
    : bool :=
  match max_term, a with
  | Some max_term, UpdateCommittee _ _ members _ =>
      forallb (fun expiry => expiry <=? sat_add current_epoch max_term) (bt_values members)
  | _, _ => true
  end.

(** [sort_by]: a stable sort. *)
Fixpoint sort_insert {A} (le : A -> A -> bool) (x : A) (l : list A) : list A :=
  match l with
  | [] => [x]
  | y :: l => if le x y then x :: y :: l else y :: sort_insert le x l
  end.
Definition sort_by {A} (le : A -> A -> bool) (l : list A) : list A := foldr (sort_insert le) [] l.
Definition priority_of (actions : GovernanceActions) (id : GovActionId) : Z :=
  match bt_get id actions with Some s => action_priority (gs_action s) | None => U8_MAX end.
Definition ratification_order (actions : GovernanceActions) (a b : GovActionId) : bool :=
  match priority_of actions a ?= priority_of actions b with
  | Lt => true
  | Gt => false
  | Eq => match key_compare a b with Gt => false | _ => true end
  end.

Record RatifyAndEnactResult := mkRatifyResult {
  rr_enacted_ids : list GovActionId;
  rr_outcomes : list EnactOutcome;
  rr_enacted_deposit_refunds : Z;
  rr_removed_due_to_enactment : list GovActionId;
  rr_removed_deposit_refunds : Z;
  rr_unclaimed_deposits : Z }.
Definition RatifyAndEnactResult_default : RatifyAndEnactResult := mkRatifyResult [] [] 0 [] 0 0.

(** The variables of the loop. *)
Record RatifyLoop := mkRatifyLoop {
  rl_ledger : LedgerState;
  rl_enacted_ids : list GovActionId;
  rl_outcomes : list EnactOutcome;
  rl_deposit_targets : list (list Z * Z);
  rl_enacted_purposes : BTreeSet ConwayGovActionPurpose;
  rl_delayed : bool;
  rl_withdrawal_budget : Z }.
#[export] Instance RatifyLoop_eta : Eta RatifyLoop := fun s =>
  mkRatifyLoop (rl_ledger s) (rl_enacted_ids s) (rl_outcomes s) (rl_deposit_targets s)
    (rl_enacted_purposes s) (rl_delayed s) (rl_withdrawal_budget s).

(** The block ['guards]; the parameters are unwrapped for the last one. *)
Definition passes_guards (st : RatifyLoop) (s : GovernanceActionState) (current_epoch : EpochNo)
    (drep_activity : Z) (drep_delegated_stake : list (DRep * Z))
    (pool_stake_dist : PoolStakeDistribution) : fee_outcome bool :=
  let l := rl_ledger st in
  if negb (prev_action_as_expected s (ls_enact_state l)) then Ok false
  else if negb (valid_committee_term (gs_action s) (ls_protocol_params l ≫= committee_term_limit)
                  current_epoch) then Ok false
  else if rl_delayed st then Ok false
  else if negb (withdrawal_can_withdraw (gs_action s) (rl_withdrawal_budget st)) then Ok false
  else
    match ls_protocol_params l with
    | None => Panic
    | Some pp =>
        Ok (ratify_action s (ls_committee_state l) (es_committee_quorum (ls_enact_state l))
              (ls_drep_state l) drep_delegated_stake current_epoch drep_activity
              (default DRepVotingThresholds_default (drep_voting_thresholds pp)) pool_stake_dist
              (default PoolVotingThresholds_default (pool_voting_thresholds pp))
              (default 0 (min_committee_size pp))
              (match protocol_version pp with Some (major, _) => major =? 9 | None => false end)
              (es_has_committee (ls_enact_state l)) (ls_pool_state l) (ls_stake_credentials l))
    end.

Definition hard_fork_fixups (l : LedgerState) (a : GovAction) : LedgerState :=
  match a with
  | HardForkInitiation _ (major, _) =>
      if major =? 10 then
        l <| ls_stake_credentials :=
               cleanup_dangling_drep_delegations (ls_stake_credentials l) (ls_drep_state l) |>
      else l
  | _ => l
  end.

Definition enact_ratified (st : RatifyLoop) (id : GovActionId) (s : GovernanceActionState)
    : RatifyLoop :=
  let l := rl_ledger st in
  let l := l <| ls_governance_actions := bt_remove id (ls_governance_actions l) |> in
  let '(l, outcome) := enact_action l id (gs_action s) in
  mkRatifyLoop (hard_fork_fixups l (gs_action s))
    (rl_enacted_ids st ++ [id]) (rl_outcomes st ++ [outcome])
    (rl_deposit_targets st ++ [deposit_target s])
    (set_insert (conway_gov_action_purpose (gs_action s)) (rl_enacted_purposes st))
    (rl_delayed st || delaying_action (gs_action s))
    match gs_action s with
    | TreasuryWithdrawals withdrawals _ =>
        sat_sub (rl_withdrawal_budget st) (withdrawal_sum withdrawals)
    | _ => rl_withdrawal_budget st
    end.

Definition ratify_step (current_epoch : EpochNo) (drep_activity : Z)
    (drep_delegated_stake : list (DRep * Z)) (pool_stake_dist : PoolStakeDistribution)
    (st : RatifyLoop) (id : GovActionId) : fee_outcome RatifyLoop :=
  match bt_get id (ls_governance_actions (rl_ledger st)) with
  | None => Ok st
  | Some s =>
      let? passed :=
        passes_guards st s current_epoch drep_activity drep_delegated_stake pool_stake_dist in
      if passed : bool then Ok (enact_ratified st id s)
      else if negb (action_expired current_epoch s) && delaying_action (gs_action s)
      then Ok (st <| rl_delayed := true |>)
      else Ok st
  end.
Fixpoint ratify_loop (current_epoch : EpochNo) (drep_activity : Z)
    (drep_delegated_stake : list (DRep * Z)) (pool_stake_dist : PoolStakeDistribution)
    (st : RatifyLoop) (ids : list GovActionId) : fee_outcome RatifyLoop :=
  match ids with
  | [] => Ok st
  | id :: ids =>
      let? st := ratify_step current_epoch drep_activity drep_delegated_stake pool_stake_dist st id in
      ratify_loop current_epoch drep_activity drep_delegated_stake pool_stake_dist st ids
  end.

Definition ratify_and_enact (l : LedgerState) (current_epoch : EpochNo) (snapshots : StakeSnapshots)
    (drep_activity : Z) : fee_outcome (LedgerState * RatifyAndEnactResult) :=
  match ls_protocol_params l with
  | None => Ok (l, RatifyAndEnactResult_default)
  | Some _ =>
      let deposits := compute_proposal_deposits_per_credential (ls_governance_actions l) in
      let drep_delegated_stake :=
        compute_drep_stake_distribution (ss_mark snapshots) (ls_stake_credentials l) deposits in
      let pool_stake_dist :=
        augment_pool_dist_with_proposal_deposits (pool_stake_distribution (ss_mark snapshots))
          (ls_stake_credentials l) deposits in
      let sorted_ids :=
        sort_by (ratification_order (ls_governance_actions l)) (bt_keys (ls_governance_actions l)) in
      let? st :=
        ratify_loop current_epoch drep_activity drep_delegated_stake pool_stake_dist
          (mkRatifyLoop l [] [] [] [] false (treasury (ls_accounting l))) sorted_ids in
      let l := rl_ledger st in
      match rl_enacted_ids st with
      | [] => Ok (l, RatifyAndEnactResult_default)
      | _ =>
          let? stale := remove_lineage_conflicting_proposals l (bt_keys (rl_enacted_purposes st)) in
          let '(actions, stale_targets) := remove_actions (ls_governance_actions l) stale in
          (* the loop over [enumerate()]: the first [enacted_count] refunds count as enacted *)
          let enacted_count := length (rl_enacted_ids st) in
          let targets := rl_deposit_targets st ++ stale_targets in
          let '(accounts, enacted_refunded, unclaimed) :=
            foldl refund_target (ls_reward_accounts l, 0, 0) (take enacted_count targets) in
          let '(accounts, subtree_refunded, unclaimed) :=
            foldl refund_target (accounts, 0, unclaimed) (drop enacted_count targets) in
          Ok (l <| ls_governance_actions := actions |> <| ls_reward_accounts := accounts |>,
              mkRatifyResult (rl_enacted_ids st) (rl_outcomes st) enacted_refunded stale
                subtree_refunded unclaimed)
      end
  end.

(** ** The boundary *)

Inductive EpochError := MissingProtocolParameters.
Definition infallible {A} (m : fee_outcome A) : outcome EpochError A :=
  map_err (fun e : Empty_set => match e with end) m.

Record EpochBoundaryEvent := mkEvent {
  ev_new_epoch : EpochNo;
  ev_pparam_updates_applied : Z;
  ev_retired_pool_keys : list PoolKeyHash;
  ev_pool_deposit_refunds : Z;
  ev_unclaimed_pool_deposits : Z;
  ev_rewards_distributed : Z;
  ev_treasury_delta : Z;
  ev_unclaimed_rewards : Z;
  ev_delta_reserves : Z;
  ev_accounts_rewarded : Z;
  ev_governance_deposit_refunds : Z;
  ev_expired_gov_action_ids : list GovActionId;
  ev_dreps_expired : Z;
  ev_ratified : RatifyAndEnactResult;
  ev_unclaimed_governance_deposits : Z;
  ev_donations_transferred : Z;
  ev_mir : MirEpochResult }.

Definition reward_params_of (l : LedgerState) (prev params : ProtocolParameters) (fee_pot : Z)
    (eta : UnitInterval) : RewardParams :=
  let prev_pv_major := match protocol_version prev with Some (major, _) => major | None => 0 end in
  let prefilter := prev_pv_major <? 7 in
  mkRewardParams (rho prev) (tau prev) (a0 prev) (n_opt prev) (min_pool_cost params)
    (reserves (ls_accounting l)) fee_pot (ls_max_lovelace_supply l) eta prefilter
    (if prefilter then bt_keys (set_collect (ra_credential <$> bt_keys (ls_reward_accounts l)))
     else []).

(** Step 1: the reward update, from the previous parameters, the oldest
    snapshot and the delayed fees and block counts. *)
Definition epoch_rewards (l : LedgerState) (prev params : ProtocolParameters)
    (snapshots : StakeSnapshots) (pool_performance : list (PoolKeyHash * UnitInterval))
    : fee_outcome EpochRewardDistribution :=
  let d_param := default (mkUnitInterval 0 1) (param_d prev) in
  let? eta :=
    compute_eta d_param (ls_active_slot_coeff l) (ls_slots_per_epoch l) (ls_blocks_made_prev l) in
  let? performance :=
    match pool_performance, ls_blocks_made_prev l with
    | [], _ :: _ => derive_pool_performance (ls_blocks_made_prev l) (ss_go snapshots) d_param
    | _, _ => Ok pool_performance
    end in
  compute_epoch_rewards (reward_params_of l prev params (ss_previous_fee_pot snapshots) eta)
    (ss_go snapshots) performance.

(** Step 4: reserves and treasury after the reward update. *)
Definition settle_pots (acct : AccountingState) (dist : EpochRewardDistribution)
    (unregistered_rewards unclaimed_pool_deposits : Z) : AccountingState :=
  mkAccounting
    (sat_add (sat_add (sat_add (treasury acct) (treasury_cut dist)) unregistered_rewards)
       unclaimed_pool_deposits)
    (sat_add (sat_sub (reserves acct) (rd_delta_reserves dist)) (unclaimed dist)).

(** Steps 5 to 5c: ratification, expiry, descendants, unclaimed deposits,
    donations and the deposit pot. *)
Definition governance_steps (l : LedgerState) (new_epoch : EpochNo) (snapshots : StakeSnapshots)
    (drep_activity : Z)
    : fee_outcome (LedgerState * RatifyAndEnactResult * list GovActionId * Z * Z * Z) :=
  let? r := ratify_and_enact l new_epoch snapshots drep_activity in
  let '(l, ratified) := r in
  let '(l, expired_ids, refunds, expired_unclaimed) := remove_expired_governance_actions l new_epoch in
  let? d :=
    match expired_ids with
    | [] => Ok (l, 0, 0)
    | _ => remove_descendants_of l expired_ids
    end in
  let '(l, descendant_refunds, descendant_unclaimed) := d in
  let total_unclaimed :=
    sat_add (sat_add expired_unclaimed descendant_unclaimed) (rr_unclaimed_deposits ratified) in
  let l :=
    if 0 <? total_unclaimed then
      let acct := ls_accounting l in
      l <| ls_accounting := acct <| treasury := sat_add (treasury acct) total_unclaimed |> |>
    else l in
  let '(l, donated) := flush_donations_to_treasury l in
  let reduction :=
    sat_add (sat_add (sat_add (sat_add (sat_add (sat_add refunds expired_unclaimed)
      descendant_refunds) descendant_unclaimed) (rr_enacted_deposit_refunds ratified))
      (rr_removed_deposit_refunds ratified)) (rr_unclaimed_deposits ratified) in
  let l := l <| ls_deposit_pot := return_proposal_deposit (ls_deposit_pot l) reduction |> in
  Ok (l, ratified, expired_ids, sat_add refunds descendant_refunds, expired_unclaimed, donated).

Definition apply_epoch_boundary (l : LedgerState) (new_epoch : EpochNo) (snapshots : StakeSnapshots)
    (pool_performance : list (PoolKeyHash * UnitInterval))
    : outcome EpochError (LedgerState * StakeSnapshots * EpochBoundaryEvent) :=
  let l := l <| ls_current_epoch := new_epoch |> in
  let? params := ok_or (ls_protocol_params l) MissingProtocolParameters in
  let? prev := ok_or (previous_protocol_params l) MissingProtocolParameters in
  let drep_activity := default U64_MAX (drep_activity params) in
  let? dist := infallible (epoch_rewards l prev params snapshots pool_performance) in
  let '(accounts, accounts_rewarded, unregistered) :=
    distribute_rewards (ls_reward_accounts l) dist in
  let l := l <| ls_reward_accounts := accounts |> in
  let '(l, mir) := apply_mir_at_epoch_boundary l in
  let new_mark :=
    compute_stake_snapshot (ls_multi_era_utxo l) (ls_stake_credentials l) (ls_reward_accounts l)
      (ls_pool_state l) in
  let '(snapshots, _) := rotate snapshots new_mark in
  let l := rotate_blocks_made_for_epoch_boundary l in
  let l := l <| ls_pool_state := adopt_future_params (ls_pool_state l) |> in
  let '(l, retired_keys, pool_refunds, unclaimed_pool) := retire_pools_with_refunds l new_epoch in
  let l := snapshot_previous_protocol_params l in
  let '(l, updates_applied) := apply_due_pending_pparam_updates l new_epoch in
  let l := l <| ls_accounting := settle_pots (ls_accounting l) dist unregistered unclaimed_pool |> in
  let? g := infallible (governance_steps l new_epoch snapshots drep_activity) in
  let '(l, ratified, expired_ids, governance_refunds, expired_unclaimed, donated) := g in
  let l :=
    match ls_governance_actions l with
    | [] => l <| ls_num_dormant_epochs := sat_add (ls_num_dormant_epochs l) 1 |>
    | _ => l
    end in
  let l := l <| ls_committee_state := prune_non_members (ls_committee_state l) |> in
  let dreps_expired :=
    Z.of_nat (length (inactive_dreps (ls_drep_state l) new_epoch drep_activity)) in
  Ok (l, snapshots,
      mkEvent new_epoch updates_applied retired_keys pool_refunds unclaimed_pool (distributed dist)
        (sat_add (treasury_cut dist) unregistered) (unclaimed dist) (rd_delta_reserves dist)
        accounts_rewarded governance_refunds expired_ids dreps_expired ratified
        (sat_add (rr_unclaimed_deposits ratified) expired_unclaimed) donated mir).
