(* ===== verification/EpochFacts.v ===== *)
(** * The epoch boundary conserves lovelace

    Each step of [EpochBoundary] moves lovelace between reward accounts,
    deposits, treasury and reserves; the lemmas account for every step and the
    theorems add them up. *)

From stdpp Require Import list gmap.
From S2P Require Import Prelude Cbor Types TypesCodec BTree ProtocolParams Fees WideArith.
From S2P Require Import NativeScript PlutusData Uplc Builtins ScriptContext Utxo.
From S2P Require Import Staking Rewards RewardsFacts Governance LedgerState EpochBoundary.
Local Open Scope Z_scope.
#[local] Arguments bt_sum : simpl never.
#[local] Arguments lsum : simpl never.
#[local] Arguments sat_add : simpl never.
#[local] Arguments sat_sub : simpl never.

(** ** Reward accounts *)

Definition held (accounts : RewardAccounts) : Z := bt_sum ras_balance accounts.
Definition accounts_ok (accounts : RewardAccounts) : Prop :=
  Forall (fun e => 0 <= ras_balance e.2) accounts.

Lemma held_nonneg accounts : accounts_ok accounts -> 0 <= held accounts.
Proof. apply bt_sum_nonneg. Qed.
Lemma bt_alter_Forall {K V} `{OrdKey K} (P : V -> Prop) (f : V -> V) (k : K) m :
  (forall v, P v -> P (f v)) -> Forall (fun e => P e.2) m -> Forall (fun e => P e.2) (bt_alter f k m).
Proof.
  intros Hf. induction 1 as [|[k' v] m Hv Hm IH]; [constructor|]. cbn [bt_alter].
  destruct (key_eqb k k'); constructor; cbn in *; auto.
Qed.

Lemma credit_spec accounts a amount s :
  accounts_ok accounts -> 0 <= amount -> held accounts + amount <= U64_MAX ->
  bt_get a accounts = Some s ->
  accounts_ok (bt_alter (credit amount) a accounts) /\
  held (bt_alter (credit amount) a accounts) = held accounts + amount.
Proof.
  intros Hok Ha Hb Hg. pose proof (bt_sum_get ras_balance a accounts s Hok Hg) as Hs.
  pose proof (bt_get_elem _ _ _ Hg) as Hel. pose proof (proj1 (Forall_forall _ _) Hok _ Hel) as Hpos.
  cbn [snd] in Hpos. split.
  - apply (bt_alter_Forall (fun s => 0 <= ras_balance s)); [|done]. intros v Hv.
    change (ras_balance (credit amount v)) with (sat_add (ras_balance v) amount). unfold sat_add, U64_MAX. lia.
  - unfold held in *. rewrite (bt_sum_alter _ _ _ _ _ Hg).
    change (ras_balance (credit amount s)) with (sat_add (ras_balance s) amount). unfold sat_add. lia.
Qed.

Lemma credit_account_spec accounts a amount :
  accounts_ok accounts -> 0 <= amount -> held accounts + amount <= U64_MAX ->
  let r := credit_account accounts a amount in
  accounts_ok r.1 /\ held r.1 = held accounts + if r.2 then amount else 0.
Proof.
  intros Hok Ha Hb. unfold credit_account. destruct (bt_get a accounts) as [s|] eqn:E; cbn [fst snd].
  - by eapply credit_spec.
  - split; [done|lia].
Qed.
Lemma credit_by_credential_spec accounts c amount :
  accounts_ok accounts -> 0 <= amount -> held accounts + amount <= U64_MAX ->
  let r := credit_by_credential accounts c amount in
  accounts_ok r.1 /\ held r.1 = held accounts + if r.2 then amount else 0.
Proof.
  intros Hok Ha Hb. unfold credit_by_credential.
  destruct (find_account_by_credential accounts c) as [a|]; [|cbn [fst snd]; split; [done|lia]].
  apply (credit_account_spec accounts a amount Hok Ha Hb).
Qed.

(** ** Crediting rewards *)

Definition lost_inv (room : Z) (st : RewardAccounts * Z * Z) (total : Z) : Prop :=
  accounts_ok st.1.1 /\ 0 <= st.2 /\ held st.1.1 + st.2 = total /\ total + room <= U64_MAX.

(** A loop that credits each amount or counts it as lost. *)
Lemma credit_loop {K} (step : RewardAccounts * Z * Z -> K * Z -> RewardAccounts * Z * Z)
    (pay : RewardAccounts -> K -> Z -> RewardAccounts * bool) l st total :
  (forall ra n lost k amount, step (ra, n, lost) (k, amount) =
     if amount =? 0 then (ra, n, lost)
     else match pay ra k amount with
          | (ra, true) => (ra, n + 1, lost)
          | (ra, false) => (ra, n, sat_add lost amount)
          end) ->
  (forall ra k amount, accounts_ok ra -> 0 <= amount -> held ra + amount <= U64_MAX ->
     accounts_ok (pay ra k amount).1 /\ held (pay ra k amount).1 = held ra + if (pay ra k amount).2 then amount else 0) ->
  nonneg_map l -> lost_inv (bt_sum id l) st total ->
  lost_inv 0 (foldl step st l) (total + bt_sum id l).
Proof.
  intros Hstep Hpay Hl. revert st total. induction Hl as [|[k v] l Hv Hl IH]; intros st total Hinv.
  { change (bt_sum id []) with 0 in *. by rewrite Z.add_0_r. }
  rewrite bt_sum_cons in *. change (id v) with v in *. cbn [snd] in Hv.
  destruct st as [[ra n] lost]. destruct Hinv as (Hok & Hlost & Hsum & Hroom). cbn [fst snd] in *.
  pose proof (bt_sum_nonneg id l Hl) as Hrest. pose proof (held_nonneg ra Hok) as Hh.
  cbn [foldl]. rewrite Hstep, Z.add_assoc. apply IH. unfold lost_inv.
  destruct (Z.eqb_spec v 0) as [->|Hnz]; [cbn [fst snd]; split_and!; try done; lia|].
  destruct (Hpay ra k v) as [H1 H2]; [done|done|lia|].
  destruct (pay ra k v) as [ra' [|]]; cbn [fst snd] in *; split_and!; try done; unfold sat_add; lia.
Qed.

Lemma distribute_rewards_spec accounts d :
  accounts_ok accounts -> nonneg_map (leader_deltas d) -> nonneg_map (reward_deltas d) ->
  held accounts + paid_out d <= U64_MAX ->
  let '(accounts', _, lost) := distribute_rewards accounts d in
  accounts_ok accounts' /\ 0 <= lost /\ held accounts' + lost = held accounts + paid_out d.
Proof.
  intros Hok Hl Hm Hb. unfold paid_out in *. unfold distribute_rewards.
  pose proof (bt_sum_nonneg id _ Hm) as Hm0. pose proof (bt_sum_nonneg id _ Hl) as Hl0.
  pose proof (held_nonneg _ Hok) as Hh.
  destruct (credit_loop credit_leader credit_account (leader_deltas d) (accounts, 0, 0) (held accounts))
    as (Hok1 & Hlost1 & Hsum1 & _); [done|apply credit_account_spec|done| |].
  { unfold lost_inv. cbn [fst snd]. split_and!; try done; lia. }
  destruct (credit_loop credit_member credit_by_credential (reward_deltas d)
    (foldl credit_leader (accounts, 0, 0) (leader_deltas d)) (held accounts + bt_sum id (leader_deltas d)))
    as (Hok2 & Hlost2 & Hsum2 & _); [done|apply credit_by_credential_spec|done| |].
  { unfold lost_inv. split_and!; try done; lia. }
  destruct (foldl credit_member _ (reward_deltas d)) as [[accounts' n] lost]. cbn [fst snd] in *.
  split_and!; try done; lia.
Qed.

(** ** Refunds *)

Definition refund_inv (room : Z) (st : RewardAccounts * Z * Z) (h r : Z) : Prop :=
  accounts_ok st.1.1 /\ 0 <= st.1.2 /\ 0 <= st.2 /\ held st.1.1 + st.2 = h /\ st.1.2 + st.2 = r /\
  r <= h /\ h + room <= U64_MAX.

Lemma refund_deposit_spec accounts raw amount :
  accounts_ok accounts -> 0 <= amount -> held accounts + amount <= U64_MAX ->
  let r := refund_deposit accounts raw amount in
  accounts_ok r.1 /\ held r.1 = held accounts + if r.2 then amount else 0.
Proof.
  intros Hok Ha Hb. unfold refund_deposit. destruct (RewardAccount_from_bytes raw) as [a|].
  - by apply credit_account_spec.
  - cbn [fst snd]. split; [done|lia].
Qed.
Lemma refund_target_spec st target h r room :
  0 <= target.2 -> 0 <= room -> refund_inv (target.2 + room) st h r ->
  refund_inv room (refund_target st target) (h + target.2) (r + target.2).
Proof.
  intros Ht Hroom. destruct st as [[accounts refunded] unclaimed], target as [raw amount].
  intros (Hok & H1 & H2 & H3 & H4 & H5 & H6). cbn [fst snd] in *. unfold refund_target. cbn [fst snd].
  pose proof (held_nonneg _ Hok).
  destruct (refund_deposit_spec accounts raw amount Hok Ht) as [Hok' Hh]; [lia|].
  destruct (refund_deposit accounts raw amount) as [accounts' [|]]; unfold refund_inv; cbn [fst snd] in *;
    unfold sat_add; split_and!; try done; lia.
Qed.
Lemma refund_targets_spec targets st h r room :
  nonneg_map targets -> 0 <= room -> refund_inv (bt_sum id targets + room) st h r ->
  refund_inv room (foldl refund_target st targets) (h + bt_sum id targets) (r + bt_sum id targets).
Proof.
  intros Ht Hroom. revert st h r. induction Ht as [|[raw v] l Hv Hl IH]; intros st h r Hinv.
  { change (bt_sum id []) with 0 in *. by rewrite !Z.add_0_r. }
  rewrite bt_sum_cons in *. change (id v) with v in *. cbn [snd] in Hv.
  pose proof (bt_sum_nonneg id l Hl). cbn [foldl]. rewrite !Z.add_assoc. apply IH.
  rewrite <- Z.add_assoc in Hinv.
  apply (refund_target_spec st (raw, v) h r (bt_sum id l + room) Hv ltac:(lia) Hinv).
Qed.

(** ** Retired pools *)

Lemma pools_refund retiring accounts pot r u :
  Forall (fun e => 0 <= e.2) retiring -> accounts_ok accounts -> 0 <= u ->
  lsum snd retiring <= pool_deposits pot ->
  held accounts + u + lsum snd retiring <= U64_MAX ->
  let '(accounts', pot', r', u') := foldl refund_pool (accounts, pot, r, u) retiring in
  accounts_ok accounts' /\ 0 <= u' /\
  pot' = pot <| pool_deposits := pool_deposits pot - lsum snd retiring |> /\
  held accounts' + u' = held accounts + u + lsum snd retiring.
Proof.
  intros Hr. revert accounts pot r u. induction Hr as [|[[k a] v] l Hv Hl IH]; intros accounts pot r u Hok Hu Hpot Hb.
  { change (lsum snd []) with 0 in *. cbn [foldl]. split_and!; [done|done| |lia].
    destruct pot. unfold set_field. cbn. by rewrite Z.sub_0_r. }
  rewrite lsum_cons in *. cbn [snd] in *.
  assert (Hrest : 0 <= lsum snd l) by (clear -Hl; induction Hl; [done|rewrite lsum_cons; lia]).
  pose proof (held_nonneg _ Hok) as Hh. cbn [foldl refund_pool].
  destruct (Z.eqb_spec v 0) as [->|Hnz].
  { specialize (IH accounts pot r u Hok Hu ltac:(lia) ltac:(lia)).
    destruct (foldl refund_pool _ l) as [[[accounts' pot'] r'] u'].
    destruct IH as (H1 & H2 & -> & H4). split_and!; try done; lia. }
  destruct (credit_account_spec accounts a v Hok Hv) as [Hok' Hh']; [lia|].
  destruct (credit_account accounts a v) as [accounts1 paid]. cbn [fst snd] in *.
  pose proof (held_nonneg _ Hok') as Hh1.
  specialize (IH accounts1 (return_pool_deposit pot v) (if paid then sat_add r v else r)
    (if paid then u else sat_add u v) Hok').
  assert (Hpd : pool_deposits (return_pool_deposit pot v) = pool_deposits pot - v) 
    by (change (sat_sub (pool_deposits pot) v = pool_deposits pot - v); unfold sat_sub; lia).
  destruct (foldl refund_pool _ l) as [[[accounts' pot'] r'] u'].
  destruct IH as (H1 & H2 & -> & H4); [destruct paid; unfold sat_add, U64_MAX; lia
    |lia|destruct paid; unfold sat_add; lia|].
  split_and!; try done.
  - destruct pot as [a1 a2 a3 a4]. unfold set_field. cbn in *. unfold sat_sub. f_equal. lia.
  - destruct paid; unfold sat_add in H4; lia.
Qed.

(** ** Removing bindings *)

Lemma bt_sum_remove_all {K V} `{OrdKey K} (f : V -> Z) (l m : list (K * V)) :
  NoDup l.*1 -> Forall (fun e => bt_get e.1 m = Some e.2) l ->
  bt_sum f (foldl (fun m k => bt_remove k m) m l.*1) = bt_sum f m - bt_sum f l.
Proof.
  revert m. induction l as [|[k v] l IH]; intros m Hnd Hl; [change (bt_sum f []) with 0; cbn [fmap list_fmap foldl]; lia|].
  cbn [fmap list_fmap fst foldl] in *. inversion Hnd as [|? ? Hk Hnd']; subst.
  inversion Hl as [|? ? Hg Hl']; subst. cbn [fst snd] in Hg.
  rewrite IH; [rewrite (bt_sum_remove f k m v Hg), bt_sum_cons; lia|done|].
  apply Forall_forall. intros [k' v'] He. cbn [fst snd].
  rewrite bt_get_remove_ne; [exact (proj1 (Forall_forall _ _) Hl' _ He)|].
  intros ->. apply Hk. apply list_elem_of_fmap. by exists (k, v').
Qed.
Lemma bt_sorted_NoDup {K V} `{OrdKey K} (m : list (K * V)) : bt_sorted m -> NoDup m.*1.
Proof.
  induction m as [|[k v] m IH]; intros Hs; [constructor|]. apply bt_sorted_cons in Hs as [Hs Hall].
  cbn [fmap list_fmap fst]. constructor; [|auto]. intros (e & Ek & He)%list_elem_of_fmap.
  pose proof (proj1 (Forall_forall _ _) Hall e He) as Hlt. cbn beta in Hlt.
  rewrite <- Ek in Hlt. by apply key_lt_irrefl in Hlt.
Qed.
Lemma filter_sublist {A} (p : A -> bool) l : List.filter p l `sublist_of` l.
Proof. induction l as [|x l IH]; cbn [List.filter]; [constructor|]. destruct (p x); by constructor. Qed.
Lemma bt_filter_entries {K V} `{OrdKey K} (p : K * V -> bool) (m : list (K * V)) :
  bt_sorted m ->
  bt_sorted (List.filter p m) /\ Forall (fun e => bt_get e.1 m = Some e.2) (List.filter p m).
Proof.
  intros Hs. pose proof (filter_sublist p m) as Hsub. split; [by eapply sublist_sorted|].
  apply Forall_forall. intros [k v] He. apply bt_elem_get; [done|].
  refine (proj1 (Forall_forall (fun x => x ∈ m) _) _ _ He). eapply Forall_sublist_of; [exact Hsub|].
  by apply Forall_forall.
Qed.
Lemma bt_sum_lsum {K V} (f : V -> Z) (m : list (K * V)) : bt_sum f m = lsum (fun e => f e.2) m.
Proof. done. Qed.
Lemma lsum_sublist {A} (f : A -> Z) l l' :
  l `sublist_of` l' -> Forall (fun x => 0 <= f x) l' -> 0 <= lsum f l <= lsum f l'.
Proof.
  induction 1 as [|x l l' _ IH|x l l' _ IH]; intros Hf; [done|inversion Hf; subst; rewrite ?lsum_cons..].
  - specialize (IH ltac:(done)). lia.
  - specialize (IH ltac:(done)). lia.
Qed.
Lemma lsum_fmap {A B} (f : B -> Z) (g : A -> B) l : lsum f (g <$> l) = lsum (fun x => f (g x)) l.
Proof. induction l as [|x l IH]; [done|]. cbn [fmap list_fmap]. rewrite !lsum_cons. by rewrite IH. Qed.

(** ** Pools *)

Definition pools_owed (ps : PoolState) : Z := bt_sum rp_deposit (pool_entries ps).
Definition pools_ok (ps : PoolState) : Prop :=
  bt_sorted (pool_entries ps) /\ Forall (fun e => 0 <= rp_deposit e.2) (pool_entries ps).

Lemma bt_sum_alter_same {K V} `{OrdKey K} (f : V -> Z) (g : V -> V) (k : K) m :
  (forall v, f (g v) = f v) -> bt_sum f (bt_alter g k m) = bt_sum f m.
Proof.
  intros Hg. destruct (bt_get k m) as [v|] eqn:E; [|by rewrite bt_alter_none].
  rewrite (bt_sum_alter _ _ _ _ _ E), Hg. lia.
Qed.
Lemma adopt_future_params_owed ps :
  pools_ok ps -> pools_ok (adopt_future_params ps) /\ pools_owed (adopt_future_params ps) = pools_owed ps.
Proof.
  unfold adopt_future_params. intros Hok.
  assert (Hgen : forall l qs, pools_ok qs ->
    let r := foldl (fun ps e => ps <| pool_entries := bt_alter (fun p => p <| rp_params := e.2 |>) e.1 (pool_entries ps) |>) qs l in
    pools_ok r /\ pools_owed r = pools_owed qs).
  { induction l as [|e l IH]; intros qs [Hs Hq]; [done|]. cbn [foldl].
    destruct (IH (qs <| pool_entries := bt_alter (fun p => p <| rp_params := e.2 |>) e.1 (pool_entries qs) |>)) as [H1 H2].
    { split; cbn; [by apply bt_alter_sorted|]. by apply (bt_alter_Forall (fun p => 0 <= rp_deposit p)). }
    split; [exact H1|]. etransitivity; [exact H2|]. unfold pools_owed. cbn. by apply bt_sum_alter_same. }
  set (start := ps <| future_params := [] |>).
  destruct (Hgen (future_params ps) start Hok) as [H1 H2].
  split; [exact H1|]. etransitivity; [exact H2|done].
Qed.

Lemma process_retirements_entries ps epoch :
  pool_entries (process_retirements ps epoch).1
  = foldl (fun m k => bt_remove k m) (pool_entries ps) (process_retirements ps epoch).2.
Proof.
  unfold process_retirements. cbn [fst snd]. generalize ((List.filter (fun e => retires_by epoch e.2) (pool_entries ps)).*1).
  intros l. revert ps. induction l as [|k l IH]; intros ps; [done|]. cbn [foldl]. by rewrite IH.
Qed.
Lemma foldl_remove_sublist {K V} `{OrdKey K} (ks : list K) (m : list (K * V)) :
  foldl (fun m k => bt_remove k m) m ks `sublist_of` m.
Proof.
  revert m. induction ks as [|k ks IH]; intros m; [done|]. cbn [foldl].
  etransitivity; [apply IH|apply bt_remove_sublist].
Qed.
Lemma process_retirements_owed ps epoch :
  pools_ok ps ->
  let retiring := List.filter (fun e => retires_by epoch e.2) (pool_entries ps) in
  let r := process_retirements ps epoch in
  pools_ok r.1 /\ pools_owed r.1 = pools_owed ps - bt_sum rp_deposit retiring /\
  0 <= bt_sum rp_deposit retiring <= pools_owed ps.
Proof.
  intros [Hs Hq] retiring r. destruct (bt_filter_entries (fun e => retires_by epoch e.2) _ Hs) as [Hrs Hrg].
  assert (Ee : pool_entries r.1 = foldl (fun m k => bt_remove k m) (pool_entries ps) retiring.*1)
    by apply process_retirements_entries.
  split; [|split].
  - split; rewrite Ee.
    + eapply sublist_sorted; [apply foldl_remove_sublist|done].
    + eapply Forall_sublist_of; [apply foldl_remove_sublist|done].
  - unfold pools_owed. rewrite Ee. apply bt_sum_remove_all; [by apply bt_sorted_NoDup|done].
  - apply (lsum_sublist (fun e : PoolKeyHash * RegisteredPool => rp_deposit e.2)); [apply filter_sublist|done].
Qed.

(** Retiring pools moves their deposits to accounts or leaves them unclaimed. *)
Lemma retire_pools_spec l epoch :
  accounts_ok (ls_reward_accounts l) -> pools_ok (ls_pool_state l) ->
  pools_owed (ls_pool_state l) <= pool_deposits (ls_deposit_pot l) ->
  held (ls_reward_accounts l) + pools_owed (ls_pool_state l) <= U64_MAX ->
  let '(l', _, _, unclaimed) := retire_pools_with_refunds l epoch in
  exists pools creds accounts paid,
    l' = l <| ls_pool_state := pools |> <| ls_stake_credentials := creds |>
           <| ls_reward_accounts := accounts |>
           <| ls_deposit_pot := (ls_deposit_pot l) <| pool_deposits := pool_deposits (ls_deposit_pot l) - paid |> |> /\
    accounts_ok accounts /\ pools_ok pools /\ 0 <= unclaimed /\ 0 <= paid <= pools_owed (ls_pool_state l) /\
    pools_owed pools = pools_owed (ls_pool_state l) - paid /\
    held accounts + unclaimed = held (ls_reward_accounts l) + paid.
Proof.
  intros Hok Hps Howed Hb. unfold retire_pools_with_refunds.
  destruct (process_retirements_owed (ls_pool_state l) epoch Hps) as (Hps' & Ho & Hr).
  set (chosen := List.filter _ _) in *. set (retiring := _ <$> chosen).
  assert (Hsum : lsum snd retiring = bt_sum rp_deposit chosen) by (subst retiring; by rewrite lsum_fmap).
  assert (Hnn : Forall (fun e => 0 <= e.2) retiring).
  { apply Forall_fmap. eapply Forall_impl; [eapply Forall_sublist_of; [apply filter_sublist|exact (proj2 Hps)]|].
    done. }
  destruct (process_retirements (ls_pool_state l) epoch) as [pools keys]. cbn [fst snd] in *.
  pose proof (pools_refund retiring (ls_reward_accounts l) (ls_deposit_pot l) 0 0 Hnn Hok
    ltac:(lia) ltac:(lia) ltac:(lia)) as Href.
  destruct (foldl refund_pool _ retiring) as [[[accounts pot] r] u]. destruct Href as (H1 & H2 & -> & H4).
  clearbody retiring. destruct retiring as [|e0 retiring].
  - change (lsum snd []) with 0 in *.
    exists (ls_pool_state l), (ls_stake_credentials l), (ls_reward_accounts l), 0.
    split_and!; try done; try lia. rewrite Z.sub_0_r.
    replace ((ls_deposit_pot l) <| pool_deposits := pool_deposits (ls_deposit_pot l) |>) with (ls_deposit_pot l)
      by (by destruct (ls_deposit_pot l)).
    by destruct l.
  - exists pools, (clear_pool_delegations (ls_stake_credentials l) keys), accounts, (lsum snd (e0 :: retiring)).
    split_and!; try done; lia.
Qed.

(** ** Proposals *)

Definition deposit_of (s : GovernanceActionState) : Z := pp_deposit (gs_proposal s).
Definition actions_owed (actions : GovernanceActions) : Z := bt_sum deposit_of actions.
Definition actions_ok (actions : GovernanceActions) : Prop :=
  Forall (fun e => 0 <= deposit_of e.2) actions.

Lemma bt_remove_ok actions id : actions_ok actions -> actions_ok (bt_remove id actions).
Proof. intros H. eapply Forall_sublist_of; [apply bt_remove_sublist|done]. Qed.
Lemma action_deposit actions id s : actions_ok actions -> bt_get id actions = Some s -> 0 <= deposit_of s.
Proof. intros H Hg%bt_get_elem. exact (proj1 (Forall_forall _ _) H _ Hg). Qed.

(** Removed actions, kept for the refund. *)
Definition removal_inv (st : GovernanceActions * list (list Z * Z)) (total : Z) : Prop :=
  actions_ok st.1 /\ nonneg_map st.2 /\ actions_owed st.1 + bt_sum id st.2 = total.
Lemma remove_actions_spec actions ids :
  actions_ok actions -> removal_inv (remove_actions actions ids) (actions_owed actions).
Proof.
  intros Hok. unfold remove_actions.
  assert (Hgen : forall st total, removal_inv st total -> removal_inv (foldl (fun '(actions, targets) id =>
    match bt_get id actions with
    | Some s => (bt_remove id actions, targets ++ [deposit_target s])
    | None => (actions, targets)
    end) st ids) total).
  { induction ids as [|i ids IH]; intros [acts targets] total Hinv; [done|]. cbn [foldl]. apply IH.
    destruct Hinv as (Ha & Ht & Hsum). cbn [fst snd] in *.
    destruct (bt_get i acts) as [s|] eqn:E; [|done]. pose proof (action_deposit _ _ _ Ha E) as Hd.
    unfold removal_inv, actions_owed in *. cbn [fst snd]. split_and!; [by apply bt_remove_ok| |].
    - apply Forall_app. split; [done|]. by apply Forall_singleton.
    - unfold deposit_target. rewrite (bt_sum_remove deposit_of i acts s E), bt_sum_app, bt_sum_cons.
      change (bt_sum id []) with 0. change (id (pp_deposit (gs_proposal s))) with (deposit_of s). lia. }
  apply Hgen. unfold removal_inv. cbn [fst snd]. split_and!; [done|constructor|]. change (bt_sum id []) with 0. lia.
Qed.

(** Refunding targets from nothing refunded. *)
Lemma refund_all accounts targets r0 u0 :
  accounts_ok accounts -> nonneg_map targets -> 0 <= r0 -> 0 <= u0 -> r0 <= held accounts ->
  held accounts + u0 + bt_sum id targets <= U64_MAX ->
  let '(accounts', r, u) := foldl refund_target (accounts, r0, u0) targets in
  accounts_ok accounts' /\ 0 <= r /\ 0 <= u /\ r <= held accounts' /\
  held accounts' + u = held accounts + u0 + bt_sum id targets /\ r + u = r0 + u0 + bt_sum id targets.
Proof.
  intros Hok Ht Hr Hu Hle Hb.
  pose proof (refund_targets_spec targets (accounts, r0, u0) (held accounts + u0) (r0 + u0) 0 Ht ltac:(lia)) as H.
  destruct (foldl refund_target _ targets) as [[accounts' r] u].
  destruct H as (H1 & H2 & H3 & H4 & H5 & H6 & _); [unfold refund_inv; cbn [fst snd]; split_and!; try done; lia|].
  cbn [fst snd] in *. split_and!; try done; lia.
Qed.

Lemma remove_expired_spec l epoch :
  accounts_ok (ls_reward_accounts l) -> actions_ok (ls_governance_actions l) ->
  held (ls_reward_accounts l) + actions_owed (ls_governance_actions l) <= U64_MAX ->
  let '(l', _, refunds, unclaimed) := remove_expired_governance_actions l epoch in
  exists actions accounts,
    l' = l <| ls_governance_actions := actions |> <| ls_reward_accounts := accounts |> /\
    accounts_ok accounts /\ actions_ok actions /\ 0 <= refunds /\ 0 <= unclaimed /\
    0 <= actions_owed actions /\
    held accounts + unclaimed + actions_owed actions = held (ls_reward_accounts l) + actions_owed (ls_governance_actions l) /\
    refunds + unclaimed + actions_owed actions = actions_owed (ls_governance_actions l).
Proof.
  intros Hok Ha Hb. unfold remove_expired_governance_actions.
  set (ids := _.*1). clearbody ids. pose proof (held_nonneg _ Hok) as Hh.
  pose proof (bt_sum_nonneg deposit_of _ Ha : 0 <= actions_owed _) as Ho.
  destruct ids as [|i ids].
  { exists (ls_governance_actions l), (ls_reward_accounts l). split_and!; try done; try lia. by destruct l. }
  destruct (remove_actions_spec (ls_governance_actions l) (i :: ids) Ha) as (H1 & H2 & H3).
  destruct (remove_actions (ls_governance_actions l) (i :: ids)) as [acts targets]. cbn [fst snd] in *.
  pose proof (bt_sum_nonneg deposit_of _ H1 : 0 <= actions_owed _) as Ho1.
  pose proof (refund_all (ls_reward_accounts l) targets 0 0 Hok H2 ltac:(lia) ltac:(lia) ltac:(lia) ltac:(lia)) as Hr.
  destruct (foldl refund_target _ targets) as [[accounts r] u]. destruct Hr as (R1 & R2 & R3 & R4 & R5 & R6).
  exists acts, accounts. split_and!; try done; lia.
Qed.

(** *** Marking descendants ends *)

Definition unmarked {A} (P : A -> bool) (l : list A) : nat := length (List.filter (fun x => negb (P x)) l).
Lemma unmarked_le {A} (P Q : A -> bool) l :
  (forall x, P x = true -> Q x = true) -> (unmarked Q l <= unmarked P l)%nat.
Proof.
  intros HPQ. unfold unmarked. induction l as [|x l IH]; [done|]. cbn [List.filter].
  specialize (HPQ x). destruct (P x), (Q x); cbn [negb length]; try lia; discriminate (HPQ eq_refl).
Qed.
Lemma unmarked_lt {A} (P Q : A -> bool) l x :
  (forall x, P x = true -> Q x = true) -> x ∈ l -> P x = false -> Q x = true -> (unmarked Q l < unmarked P l)%nat.
Proof.
  intros HPQ Hx HP HQ. apply list_elem_of_split in Hx as (l1 & l2 & ->).
  unfold unmarked. rewrite !List.filter_app, !length_app. cbn [List.filter]. rewrite HP, HQ. cbn [negb length].
  pose proof (unmarked_le P Q l1 HPQ). pose proof (unmarked_le P Q l2 HPQ). unfold unmarked in *. lia.
Qed.
Lemma unmarked_length {A} (P : A -> bool) l : (unmarked P l <= length l)%nat.
Proof. apply sublist_length, filter_sublist. Qed.
Lemma set_insert_mono {K} `{OrdKey K} (k x : K) (s : BTreeSet K) :
  bt_contains x s = true -> bt_contains x (set_insert k s) = true.
Proof.
  unfold set_insert, bt_contains. destruct (key_eqb_reflect x k) as [->|Hne]; [by rewrite bt_get_insert|].
  by rewrite bt_get_insert_ne.
Qed.
Lemma set_insert_in {K} `{OrdKey K} (k : K) (s : BTreeSet K) : bt_contains k (set_insert k s) = true.
Proof. unfold set_insert, bt_contains. by rewrite bt_get_insert. Qed.
Lemma insert_all_mono {K} `{OrdKey K} (l : list K) (x : K) (s : BTreeSet K) :
  bt_contains x s = true \/ x ∈ l -> bt_contains x (foldl (fun s id => set_insert id s) s l) = true.
Proof.
  revert s. induction l as [|k l IH]; intros s Hx; [destruct Hx as [?|?%not_elem_of_nil]; done|].
  cbn [foldl]. apply IH. destruct Hx as [Hx|Hx]; [left; by apply set_insert_mono|].
  apply elem_of_cons in Hx as [->|Hx]; [left; apply set_insert_in|by right].
Qed.
Lemma mark_descendants_ends fuel actions marked :
  (unmarked (fun e => bt_contains e.1 marked) actions < fuel)%nat ->
  exists all, mark_descendants fuel actions marked = Ok all.
Proof.
  revert marked. induction fuel as [|fuel IH]; intros marked Hf; [lia|]. cbn [mark_descendants].
  destruct (next_wave actions marked) as [|i wave] eqn:Ew; [by eexists|]. apply IH.
  assert (Hi : i ∈ next_wave actions marked) by (rewrite Ew; set_solver).
  unfold next_wave in Hi. apply list_elem_of_fmap in Hi as (e & -> & He).
  apply list_elem_of_In, List.filter_In in He as [He Hc]. apply andb_true_iff in Hc as [Hc _].
  eapply Nat.lt_le_trans; [|apply (proj1 (Nat.lt_succ_r _ _)); exact Hf].
  apply (unmarked_lt (fun e => bt_contains e.1 marked) _ _ e); [|by apply list_elem_of_In|by apply negb_true_iff|].
  - intros x Hx. apply insert_all_mono. by left.
  - apply insert_all_mono. right. set_solver.
Qed.

Definition descend_inv (st : GovernanceActions * RewardAccounts * Z * Z) (h d : Z) : Prop :=
  let '(actions, accounts, r, u) := st in
  actions_ok actions /\ accounts_ok accounts /\ 0 <= r /\ 0 <= u /\ r <= held accounts /\
  held accounts + u + actions_owed actions = h /\ r + u + actions_owed actions = d.
Lemma remove_and_refund_spec st i h d :
  h <= U64_MAX -> descend_inv st h d -> descend_inv (remove_and_refund st i) h d.
Proof.
  intros Hh. destruct st as [[[acts accounts] r] u]. intros (Ha & Hok & Hr & Hu & Hle & H1 & H2).
  cbn [remove_and_refund]. destruct (bt_get i acts) as [s|] eqn:E; [|by split_and!].
  pose proof (action_deposit _ _ _ Ha E) as Hd. pose proof (held_nonneg _ Hok).
  pose proof (bt_remove_ok acts i Ha) as Ha'.
  pose proof (bt_sum_nonneg deposit_of _ Ha' : 0 <= actions_owed _) as Ho.
  assert (Eo : actions_owed (bt_remove i acts) = actions_owed acts - deposit_of s) by by apply bt_sum_remove.
  pose proof (refund_target_spec (accounts, r, u) (deposit_target s) (held accounts + u) (r + u) 0 Hd ltac:(lia)) as Hs.
  change (deposit_target s).2 with (deposit_of s) in Hs.
  destruct (refund_target _ (deposit_target s)) as [[accounts' r'] u'].
  destruct Hs as (S1 & S2 & S3 & S4 & S5 & S6 & _); [unfold refund_inv; cbn [fst snd]; split_and!; try done; lia|].
  cbn [fst snd] in *. unfold descend_inv. split_and!; try done; lia.
Qed.
Lemma remove_descendants_spec l removed :
  accounts_ok (ls_reward_accounts l) -> actions_ok (ls_governance_actions l) ->
  held (ls_reward_accounts l) + actions_owed (ls_governance_actions l) <= U64_MAX ->
  exists actions accounts r u,
    remove_descendants_of l removed
      = Ok (l <| ls_governance_actions := actions |> <| ls_reward_accounts := accounts |>, r, u) /\
    accounts_ok accounts /\ actions_ok actions /\ 0 <= r /\ 0 <= u /\ 0 <= actions_owed actions /\
    held accounts + u + actions_owed actions = held (ls_reward_accounts l) + actions_owed (ls_governance_actions l) /\
    r + u + actions_owed actions = actions_owed (ls_governance_actions l).
Proof.
  intros Hok Ha Hb. unfold remove_descendants_of.
  destruct (mark_descendants_ends (S (length (ls_governance_actions l))) (ls_governance_actions l) (set_collect removed))
    as [all ->].
  { apply Nat.lt_succ_r, unmarked_length. }
  cbn [obind]. set (ids := List.filter _ _). clearbody ids.
  assert (Hgen : forall st, descend_inv st (held (ls_reward_accounts l) + actions_owed (ls_governance_actions l)) (actions_owed (ls_governance_actions l)) ->
    descend_inv (foldl remove_and_refund st ids) (held (ls_reward_accounts l) + actions_owed (ls_governance_actions l)) (actions_owed (ls_governance_actions l))).
  { clear -Hb. induction ids as [|i ids IH]; intros st Hst; [done|]. cbn [foldl]. apply IH. by apply remove_and_refund_spec. }
  specialize (Hgen (ls_governance_actions l, ls_reward_accounts l, 0, 0)).
  destruct (foldl remove_and_refund _ ids) as [[[actions accounts] r] u].
  destruct Hgen as (H1 & H2 & H3 & H4 & H5 & H6 & H7).
  { unfold descend_inv. pose proof (held_nonneg _ Hok). split_and!; try done; lia. }
  pose proof (bt_sum_nonneg deposit_of _ H1 : 0 <= actions_owed _).
  exists actions, accounts, r, u. split_and!; try done; lia.
Qed.

(** *** Validating lineages ends *)

Lemma validate_pass_grows root proposals valid :
  let r := validate_pass root proposals valid in
  (forall x, bt_contains x valid = true -> bt_contains x r.1 = true) /\
  (r.2 = true -> exists e, e ∈ proposals /\ bt_contains e.1 valid = false /\ bt_contains e.1 r.1 = true).
Proof.
  cbv zeta. unfold validate_pass. set (f := fun '(valid, changed) '(id, prev) => _).
  assert (Hgen : forall l st, let r := foldl f st l in
    (forall x, bt_contains x st.1 = true -> bt_contains x r.1 = true) /\
    (r.2 = true -> st.2 = true \/ exists e, e ∈ l /\ bt_contains e.1 st.1 = false /\ bt_contains e.1 r.1 = true)).
  { induction l as [|[i prev] l IH]; intros [v c] r; subst r; [split; [done|by left]|]. cbn [foldl].
    assert (Hf : f (v, c) (i, prev) = (v, c) \/ (f (v, c) (i, prev) = (set_insert i v, true) /\ bt_contains i v = false)).
    { subst f. cbn beta iota. destruct (bt_contains i v) eqn:Ei; [by left|].
      destruct (_ || _); [by right|by left]. }
    destruct Hf as [->|[-> Ei]].
    - destruct (IH (v, c)) as [H1 H2]. split; [done|]. intros Hr. destruct (H2 Hr) as [|(e & He & H)]; [by left|].
      right. exists e. split; [apply elem_of_cons; by right|done].
    - destruct (IH (set_insert i v, true)) as [H1 H2]. cbn [fst snd] in *. split.
      + intros x Hx. apply H1. by apply set_insert_mono.
      + intros _. right. exists (i, prev). split_and!; [apply elem_of_cons; by left|done|]. apply H1, set_insert_in. }
  destruct (Hgen proposals (valid, false)) as [H1 H2]. split; [done|]. intros Hr.
  destruct (H2 Hr) as [|(e & He & H)]; [done|by exists e].
Qed.
Lemma validate_lineage_ends fuel root proposals valid :
  (unmarked (fun e => bt_contains e.1 valid) proposals < fuel)%nat ->
  exists v, validate_lineage fuel root proposals valid = Ok v.
Proof.
  revert valid. induction fuel as [|fuel IH]; intros valid Hf; [lia|]. cbn [validate_lineage].
  destruct (validate_pass_grows root proposals valid) as [H1 H2].
  destruct (validate_pass root proposals valid) as [valid' [|]]; cbn [fst snd] in *; [|by eexists].
  destruct (H2 eq_refl) as (e & He & Hv & Hv'). apply IH.
  eapply Nat.lt_le_trans; [|apply (proj1 (Nat.lt_succ_r _ _)); exact Hf].
  apply (unmarked_lt (fun e => bt_contains e.1 valid) _ _ e); auto.
Qed.
Lemma lineage_ends l purposes : exists ids, remove_lineage_conflicting_proposals l purposes = Ok ids.
Proof.
  induction purposes as [|p purposes IH]; [by eexists|]. cbn [remove_lineage_conflicting_proposals].
  set (proposals := _ <$> List.filter _ _).
  destruct (validate_lineage_ends (S (length proposals)) (enacted_root (ls_enact_state l) p) proposals [])
    as [v Ev].
  { apply Nat.lt_succ_r, unmarked_length. }
  rewrite Ev. cbn [obind]. destruct IH as [more ->]. cbn [obind]. by eexists.
Qed.

(** ** Enactment *)

Definition withdrawals_ok (a : GovAction) : Prop :=
  match a with
  | TreasuryWithdrawals w _ => nonneg_map w /\ bt_sum id w <= U64_MAX
  | _ => True
  end.
Definition withdrawn (a : GovAction) : Z :=
  match a with TreasuryWithdrawals w _ => bt_sum id w | _ => 0 end.

Lemma wrapped_sum_exact {K} (m : list (K * Z)) :
  nonneg_map m -> bt_sum id m <= U64_MAX -> foldl (fun sum v => wrap64 (sum + v)) 0 (bt_values m) = bt_sum id m.
Proof.
  intros Hm Hb.
  enough (Hgen : forall sum, 0 <= sum -> sum + bt_sum id m <= U64_MAX ->
    foldl (fun sum v => wrap64 (sum + v)) sum (bt_values m) = sum + bt_sum id m) by (rewrite Hgen; lia).
  clear Hb. induction Hm as [|[k v] m Hv Hm IH]; intros sum Hs Hb; [change (bt_sum id []) with 0; cbn; lia|].
  rewrite bt_sum_cons in *. change (id v) with v in *. cbn [snd] in Hv. pose proof (bt_sum_nonneg id m Hm).
  unfold bt_values in *. cbn [fmap list_fmap foldl snd].
  rewrite wrap64_id by (unfold u64; lia). rewrite IH by lia. lia.
Qed.
Lemma withdrawal_sum_exact w : nonneg_map w -> bt_sum id w <= U64_MAX -> withdrawal_sum w = bt_sum id w.
Proof. apply wrapped_sum_exact. Qed.

Lemma withdraw_all w accounts t total :
  nonneg_map w -> accounts_ok accounts -> bt_sum id w <= t -> held accounts + t <= U64_MAX ->
  let '(accounts', t', _) := foldl withdraw_one (accounts, t, total) w in
  accounts_ok accounts' /\ held accounts' + t' = held accounts + t /\ t - bt_sum id w <= t'.
Proof.
  intros Hw. revert accounts t total. induction Hw as [|[a v] w Hv Hw IH]; intros accounts t total Hok Hle Hb.
  { change (bt_sum id []) with 0. cbn [foldl]. split_and!; [done|lia|lia]. }
  rewrite bt_sum_cons in *. change (id v) with v in *. cbn [snd] in Hv. pose proof (bt_sum_nonneg id w Hw).
  cbn [foldl withdraw_one]. pose proof (held_nonneg _ Hok).
  destruct (Z.eqb_spec v 0) as [->|Hnz].
  { specialize (IH accounts t total Hok ltac:(lia) Hb). destruct (foldl withdraw_one _ w) as [[accounts' t'] n].
    destruct IH as (H1 & H2 & H3). split_and!; try done; lia. }
  destruct (bt_get a accounts) as [s|] eqn:E.
  - destruct (credit_spec accounts a v s Hok Hv ltac:(lia) E) as [H1 H2].
    specialize (IH (bt_alter (credit v) a accounts) (sat_sub t v) (sat_add total v) H1).
    destruct (foldl withdraw_one _ w) as [[accounts' t'] n].
    destruct IH as (H3 & H4 & H5); [unfold sat_sub; lia|unfold sat_sub; lia|].
    unfold sat_sub in *. split_and!; try done; lia.
  - specialize (IH accounts t total Hok ltac:(lia) Hb). destruct (foldl withdraw_one _ w) as [[accounts' t'] n].
    destruct IH as (H1 & H2 & H3). split_and!; try done; lia.
Qed.

(** What governance leaves alone. *)
Record same_pots (l l' : LedgerState) : Prop := {
  sp_deposits : ls_deposit_pot l' = ls_deposit_pot l;
  sp_donation : ls_utxos_donation l' = ls_utxos_donation l;
  sp_reserves : reserves (ls_accounting l') = reserves (ls_accounting l);
  sp_pools : ls_pool_state l' = ls_pool_state l;
  sp_utxo : ls_multi_era_utxo l' = ls_multi_era_utxo l }.
#[export] Instance same_pots_preorder : PreOrder same_pots.
Proof.
  split; [by intros l; split|].
  intros l1 l2 l3 [A1 A2 A3 A4 A5] [B1 B2 B3 B4 B5]. split; congruence.
Qed.
Definition wealth (l : LedgerState) : Z := held (ls_reward_accounts l) + treasury (ls_accounting l).

Lemma enact_action_spec l i a :
  accounts_ok (ls_reward_accounts l) -> withdrawals_ok a -> withdrawn a <= treasury (ls_accounting l) ->
  wealth l <= U64_MAX ->
  let l' := (enact_action l i a).1 in
  same_pots l l' /\ ls_governance_actions l' = ls_governance_actions l /\ accounts_ok (ls_reward_accounts l') /\
  wealth l' = wealth l /\ treasury (ls_accounting l) - withdrawn a <= treasury (ls_accounting l') /\
  (ls_protocol_params l <> None -> ls_protocol_params l' <> None).
Proof.
  intros Hok Hw Hle Hb. unfold wealth in *. unfold enact_action.
  destruct a as [prev u g|prev v|w g|prev|prev rm add q|prev c|];
    cbn [enact_gov_action_at_epoch]; cbn [withdrawn] in *.
  3: { destruct Hw as [Hw Hs].
       pose proof (withdraw_all w (ls_reward_accounts l) (treasury (ls_accounting l)) 0 Hw Hok Hle Hb) as H.
       cbn [en_reward_accounts en_accounting].
       destruct (foldl withdraw_one _ w) as [[accounts t'] n]. destruct H as (H1 & H2 & H3).
       cbn. split_and!; try done; try (by split). }
  4: { destruct (remove_members _ rm) as [cs n]. destruct (add_members cs add) as [cs' n'].
       cbn. split_and!; try done; try lia; try (by split). }
  all: cbn; split_and!; try done; try lia; try (by split).
Qed.
Lemma hard_fork_fixups_spec l a :
  let l' := hard_fork_fixups l a in
  same_pots l l' /\ ls_governance_actions l' = ls_governance_actions l /\
  ls_reward_accounts l' = ls_reward_accounts l /\ ls_accounting l' = ls_accounting l /\
  ls_protocol_params l' = ls_protocol_params l.
Proof.
  cbv zeta. destruct a; try (by split_and!). cbn [hard_fork_fixups]. destruct protocol_version as [major minor].
  destruct (major =? 10); [|by split_and!]. by split_and!.
Qed.

(** ** Ratification *)

Record ratify_inv (l0 : LedgerState) (st : RatifyLoop) : Prop := {
  ri_pots : same_pots l0 (rl_ledger st);
  ri_accounts : accounts_ok (ls_reward_accounts (rl_ledger st));
  ri_wealth : wealth (rl_ledger st) = wealth l0;
  ri_removed : removal_inv (ls_governance_actions (rl_ledger st), rl_deposit_targets st)
                 (actions_owed (ls_governance_actions l0));
  ri_withdrawals : Forall (fun e => withdrawals_ok (gs_action e.2)) (ls_governance_actions (rl_ledger st));
  ri_budget : 0 <= rl_withdrawal_budget st <= treasury (ls_accounting (rl_ledger st));
  ri_params : ls_protocol_params (rl_ledger st) <> None;
  ri_lengths : length (rl_enacted_ids st) = length (rl_deposit_targets st) }.

Section ratification.
Context (l0 : LedgerState) (epoch : EpochNo) (activity : Z) (dreps : list (DRep * Z)) (dist : PoolStakeDistribution).
Context (Hwealth : wealth l0 <= U64_MAX).

Lemma enact_ratified_inv st i s :
  ratify_inv l0 st -> bt_get i (ls_governance_actions (rl_ledger st)) = Some s ->
  withdrawal_can_withdraw (gs_action s) (rl_withdrawal_budget st) = true ->
  ratify_inv l0 (enact_ratified st i s).
Proof using Hwealth.
  intros [Hp Hok Hw (Ha & Ht & Hsum) Hwd Hb Hpp Hlen] Hg Hcan. cbn [fst snd] in *.
  pose proof (proj1 (Forall_forall _ _) Hwd _ (bt_get_elem _ _ _ Hg)) as Hws. cbn [snd] in Hws.
  assert (Hfit : withdrawn (gs_action s) <= rl_withdrawal_budget st /\
     match gs_action s with
     | TreasuryWithdrawals w _ => sat_sub (rl_withdrawal_budget st) (withdrawal_sum w)
     | _ => rl_withdrawal_budget st
     end = rl_withdrawal_budget st - withdrawn (gs_action s)).
  { destruct (gs_action s) as [ | |w g| | | | ]; cbn [withdrawn] in *; try (split; lia).
    destruct Hws as [Hn Hs]. cbn in Hcan. rewrite withdrawal_sum_exact in * by done. apply Z.leb_le in Hcan.
    unfold sat_sub. lia. }
  unfold enact_ratified. destruct Hfit as [Hfit Ebud].
  set (l1 := (rl_ledger st) <| ls_governance_actions := bt_remove i (ls_governance_actions (rl_ledger st)) |>).
  destruct (enact_action_spec l1 i (gs_action s)) as (E1 & E2 & E3 & E4 & E5 & E6);
    [exact Hok|exact Hws|change (withdrawn (gs_action s) <= treasury (ls_accounting (rl_ledger st))); lia
    |change (wealth (rl_ledger st) <= U64_MAX); lia|].
  destruct (enact_action l1 i (gs_action s)) as [l2 outcome]. cbn [fst] in *.
  destruct (hard_fork_fixups_spec l2 (gs_action s)) as (F1 & F2 & F3 & F4 & F5).
  pose proof (action_deposit _ _ _ Ha Hg) as Hd. rewrite Ebud.
  split; cbn [rl_ledger rl_deposit_targets rl_withdrawal_budget rl_enacted_ids].
  - transitivity l2; [|done]. transitivity l1; [|done]. transitivity (rl_ledger st); [done|by split].
  - by rewrite F3.
  - unfold wealth in *. rewrite F3, F4, E4. exact Hw.
  - rewrite F2, E2. change (ls_governance_actions l1) with (bt_remove i (ls_governance_actions (rl_ledger st))).
    unfold removal_inv, actions_owed, deposit_target in *. cbn [fst snd]. split_and!.
    + by apply bt_remove_ok.
    + apply Forall_app. split; [done|]. by apply Forall_singleton.
    + rewrite (bt_sum_remove deposit_of i _ s Hg), bt_sum_app, bt_sum_cons.
      change (bt_sum id []) with 0. change (id (pp_deposit (gs_proposal s))) with (deposit_of s). lia.
  - rewrite F2, E2. eapply Forall_sublist_of; [apply bt_remove_sublist|done].
  - rewrite F4. change (treasury (ls_accounting l1)) with (treasury (ls_accounting (rl_ledger st))) in E5.
    assert (0 <= withdrawn (gs_action s)); [|lia].
    destruct (gs_action s); cbn [withdrawn]; try lia. destruct Hws. by apply bt_sum_nonneg.
  - rewrite F5. apply E6. exact Hpp.
  - rewrite !length_app, Hlen. done.
Qed.

Lemma ratify_step_inv st i :
  ratify_inv l0 st -> exists st', ratify_step epoch activity dreps dist st i = Ok st' /\ ratify_inv l0 st'.
Proof using Hwealth.
  intros Hinv. unfold ratify_step. destruct (bt_get i _) as [s|] eqn:Eg; [|by exists st].
  unfold passes_guards.
  assert (Hno : exists st', (if negb (action_expired epoch s) && delaying_action (gs_action s)
     then Ok (E := Empty_set) (st <| rl_delayed := true |>) else Ok st) = Ok st' /\ ratify_inv l0 st').
  { destruct (_ && _); eexists; (split; [done|]); [|done]. destruct Hinv; by split. }
  destruct (prev_action_as_expected _ _); cbn [negb obind]; [|done].
  destruct (valid_committee_term _ _ _); cbn [negb obind]; [|done].
  destruct (rl_delayed st); cbn [negb obind]; [done|].
  destruct (withdrawal_can_withdraw _ _) eqn:Ew; cbn [negb obind]; [|done].
  pose proof (ri_params l0 st Hinv) as Hpp. destruct (ls_protocol_params (rl_ledger st)) as [pp|]; [|done].
  cbn [obind]. destruct (ratify_action _ _ _ _ _ _ _ _ _ _ _ _ _ _ _); [|done].
  eexists. split; [done|]. by apply enact_ratified_inv.
Qed.
Lemma ratify_loop_inv ids st :
  ratify_inv l0 st -> exists st', ratify_loop epoch activity dreps dist st ids = Ok st' /\ ratify_inv l0 st'.
Proof using Hwealth.
  revert st. induction ids as [|i ids IH]; intros st Hinv; [by exists st|]. cbn [ratify_loop].
  destruct (ratify_step_inv st i Hinv) as (st1 & -> & Hinv1). cbn [obind]. by apply IH.
Qed.
End ratification.

(** Ratification moves withdrawals from the treasury to accounts and deposits
    of removed proposals to accounts or to the unclaimed sum. *)
Lemma ratify_and_enact_spec l epoch snapshots activity :
  ls_protocol_params l <> None ->
  accounts_ok (ls_reward_accounts l) -> actions_ok (ls_governance_actions l) -> 0 <= treasury (ls_accounting l) ->
  Forall (fun e => withdrawals_ok (gs_action e.2)) (ls_governance_actions l) ->
  wealth l + actions_owed (ls_governance_actions l) <= U64_MAX ->
  exists l' r, ratify_and_enact l epoch snapshots activity = Ok (l', r) /\
    same_pots l l' /\ accounts_ok (ls_reward_accounts l') /\ actions_ok (ls_governance_actions l') /\
    0 <= treasury (ls_accounting l') /\
    let refunds := rr_enacted_deposit_refunds r + rr_removed_deposit_refunds r in
    let unclaimed := rr_unclaimed_deposits r in
    0 <= rr_enacted_deposit_refunds r /\ 0 <= rr_removed_deposit_refunds r /\ 0 <= unclaimed /\
    0 <= actions_owed (ls_governance_actions l') /\
    wealth l' + unclaimed + actions_owed (ls_governance_actions l') = wealth l + actions_owed (ls_governance_actions l) /\
    refunds + unclaimed + actions_owed (ls_governance_actions l') = actions_owed (ls_governance_actions l).
Proof.
  intros Hpp Hok Ha Ht Hw Hb. unfold ratify_and_enact.
  pose proof (bt_sum_nonneg deposit_of _ Ha : 0 <= actions_owed _) as Ho.
  destruct (ls_protocol_params l) as [pp|] eqn:Epp; [|done].
  set (ids := sort_by _ _). set (deposits := compute_proposal_deposits_per_credential _).
  destruct (ratify_loop_inv l epoch activity
    (compute_drep_stake_distribution (ss_mark snapshots) (ls_stake_credentials l) deposits)
    (augment_pool_dist_with_proposal_deposits (pool_stake_distribution (ss_mark snapshots))
       (ls_stake_credentials l) deposits) ltac:(lia) ids
    (mkRatifyLoop l [] [] [] [] false (treasury (ls_accounting l)))) as (st & -> & [Ip Iok Iw (Ia & It & Isum) Iwd Ib Ipp Ilen]).
  { split; cbn [rl_ledger rl_deposit_targets rl_withdrawal_budget]; try done; try lia; [|by rewrite Epp].
    unfold removal_inv. cbn [fst snd]. split_and!; [done|constructor|]. change (bt_sum id []) with 0. lia. }
  cbn [obind fst snd] in *. pose proof (bt_sum_nonneg deposit_of _ Ia : 0 <= actions_owed _) as Ho1.
  pose proof (held_nonneg _ Iok) as Hh.
  destruct (rl_enacted_ids st) as [|i0 rest] eqn:Eids.
  { destruct (rl_deposit_targets st); [|done]. change (bt_sum id []) with 0 in Isum.
    exists (rl_ledger st), RatifyAndEnactResult_default. cbn [rr_enacted_deposit_refunds rr_removed_deposit_refunds
      rr_unclaimed_deposits RatifyAndEnactResult_default]. split_and!; try done; lia. }
  destruct (lineage_ends (rl_ledger st) (bt_keys (rl_enacted_purposes st))) as [stale ->]. cbn [obind].
  destruct (remove_actions_spec (ls_governance_actions (rl_ledger st)) stale Ia) as (R1 & R2 & R3).
  destruct (remove_actions _ stale) as [acts targets]. cbn [fst snd] in *.
  pose proof (bt_sum_nonneg deposit_of _ R1 : 0 <= actions_owed _) as Ho2.
  set (all := rl_deposit_targets st ++ targets). set (n := length (i0 :: rest)).
  assert (Hall : nonneg_map all) by by apply Forall_app.
  assert (Hsum : bt_sum id (take n all) + bt_sum id (drop n all) = bt_sum id (rl_deposit_targets st) + bt_sum id targets)
    by (rewrite <- bt_sum_app, take_drop; apply bt_sum_app).
  assert (Htake : nonneg_map (take n all)) by by apply Forall_take.
  assert (Hdrop : nonneg_map (drop n all)) by by apply Forall_drop.
  pose proof (bt_sum_nonneg id _ Htake) as P1. pose proof (bt_sum_nonneg id _ Hdrop) as P2. unfold wealth in *.
  pose proof (refund_all (ls_reward_accounts (rl_ledger st)) (take n all) 0 0 Iok Htake ltac:(lia) ltac:(lia)
    ltac:(lia) ltac:(lia)) as Q1.
  destruct (foldl refund_target _ (take n all)) as [[acc1 r1] u1]. destruct Q1 as (A1 & A2 & A3 & A4 & A5 & A6).
  pose proof (held_nonneg _ A1).
  pose proof (refund_all acc1 (drop n all) 0 u1 A1 Hdrop ltac:(lia) ltac:(lia) ltac:(lia) ltac:(lia)) as Q2.
  destruct (foldl refund_target _ (drop n all)) as [[acc2 r2] u2]. destruct Q2 as (B1 & B2 & B3 & B4 & B5 & B6).
  eexists _, _. split; [done|]. cbn. unfold wealth. cbn.
  split_and!; try done; try lia. destruct Ip. by split.
Qed.
