(* ===== verification/EpochShares.v ===== *)
(** * Block production and the reward budget

    The ratios of [derive_pool_performance] are exact when the products fit in
    64 bits, so that the pools' shares of the reward pot never add up to more
    than the pot. *)

From stdpp Require Import list gmap.
From S2P Require Import Prelude Cbor Types TypesCodec BTree ProtocolParams Fees WideArith.
From S2P Require Import NativeScript PlutusData Uplc Builtins ScriptContext Utxo.
From S2P Require Import Staking Rewards RewardsFacts Governance LedgerState EpochBoundary EpochFacts.
Local Open Scope Z_scope.
#[local] Arguments bt_sum : simpl never.
#[local] Arguments lsum : simpl never.

(** ** Reduced ratios *)

Lemma boundary_gcd_spec a b : u128 a -> u128 b -> boundary_gcd a b = Ok (Z.gcd a b).
Proof. intros Ha Hb. apply (gcd_euclid_spec 128); [lits; lia|done]. Qed.
Lemma divide_by_gcd_spec a b :
  0 < a -> 0 < b -> u128 a -> u128 b ->
  exists a' b', divide_by_gcd a b = Ok (a', b') /\ 0 < a' <= a /\ 0 < b' <= b /\ a * b' = b * a'.
Proof.
  intros Ha Hb Ua Ub. unfold divide_by_gcd. rewrite boundary_gcd_spec by done. cbn [obind].
  assert (Hg : 0 < Z.gcd a b) by (pose proof (Z.gcd_nonneg a b); destruct (Z.eq_dec (Z.gcd a b) 0) as [E|];
    [apply Z.gcd_eq_0_l in E; lia|lia]).
  destruct (Z.gcd_divide_l a b) as [x Ex], (Z.gcd_divide_r a b) as [y Ey].
  set (g := Z.gcd a b) in *. clearbody g.
  unfold div_u128. rewrite (proj2 (Z.eqb_neq g 0)) by lia. cbn [obind].
  exists x, y. rewrite Ex at 1. rewrite Ey at 1. rewrite !Z.div_mul by lia. split; [done|]. subst a b. split_and!; nia.
Qed.

Lemma reduce_cross B A S T n1 d2 n2 d1 n1' d1' n2' d2' :
  0 < d1 -> 0 < d2 -> B * d2 = T * n1 -> A * d1 = S * n2 -> n1 * d1' = d1 * n1' -> n2 * d2' = d2 * n2' ->
  B * A * (d1' * d2') = S * T * (n1' * n2').
Proof.
  intros Hd1 Hd2 E1 E2 E3 E4. apply (Z.mul_reg_l _ _ (d1 * d2)); [nia|].
  transitivity ((B * d2) * (A * d1) * (d1' * d2')); [ring|]. rewrite E1, E2.
  transitivity (T * S * (n1 * d1') * (n2 * d2')); [ring|]. rewrite E3, E4. ring.
Qed.

Lemma apparent_performance_exact B A S T :
  0 < B -> 0 < A -> 0 < S -> 0 < T -> B * A <= U64_MAX -> S * T <= U64_MAX ->
  exists n d, apparent_performance_ratio B A S T = Ok (Some (mkUnitInterval n d)) /\
    0 < n /\ 0 < d /\ B * A * d = S * T * n.
Proof.
  intros HB HA HS HT H1 H2. unfold apparent_performance_ratio.
  rewrite !(proj2 (Z.eqb_neq _ 0)) by lia. cbn [orb].
  assert (Hb : forall x, 0 < x <= U64_MAX -> u128 x) by (intros x Hx; unfold u128, U64_MAX in *; lits; lia).
  destruct (divide_by_gcd_spec B T) as (n1 & d2 & -> & Hn1 & Hd2 & E1); [done|done|apply Hb; nia..|]. cbn [obind].
  destruct (divide_by_gcd_spec A S) as (n2 & d1 & -> & Hn2 & Hd1 & E2); [done|done|apply Hb; nia..|]. cbn [obind].
  destruct (divide_by_gcd_spec n1 d1) as (n1' & d1' & -> & Hn1' & Hd1' & E3); [lia|lia|apply Hb; nia..|]. cbn [obind].
  destruct (divide_by_gcd_spec n2 d2) as (n2' & d2' & -> & Hn2' & Hd2' & E4); [lia|lia|apply Hb; nia..|]. cbn [obind].
  pose proof (reduce_cross B A S T n1 d2 n2 d1 n1' d1' n2' d2' ltac:(lia) ltac:(lia) E1 E2 E3 E4) as Ec.
  assert (Hn : 0 < n1' * n2' <= U64_MAX) by (split; [nia|]; transitivity (B * A); [apply Z.mul_le_mono_nonneg; lia|lia]).
  assert (Hd : 0 < d1' * d2' <= U64_MAX) by (split; [nia|]; transitivity (S * T); [apply Z.mul_le_mono_nonneg; lia|lia]).
  clear E1 E2 E3 E4.
  replace (sat_mul128 n1' n2') with (n1' * n2') by (unfold sat_mul128, U128_MAX, U64_MAX in *; lits; lia).
  replace (sat_mul128 d1' d2') with (d1' * d2') by (unfold sat_mul128, U128_MAX, U64_MAX in *; lits; lia).
  set (num := n1' * n2') in *. set (den := d1' * d2') in *. clearbody num den.
  rewrite (proj2 (Z.eqb_neq den 0)) by lia.
  destruct (divide_by_gcd_spec num den) as (n & d & -> & Hn' & Hd' & E); [lia|lia|by apply Hb..|]. cbn [obind].
  rewrite !(proj2 (Z.ltb_ge U64_MAX _)) by lia. cbn [orb]. cbv zeta beta iota.
  rewrite !wrap64_id by (unfold u64; lia).
  exists n, d. split_and!; [done|lia|lia|].
  apply (Z.mul_reg_l _ _ den); [lia|].
  transitivity (B * A * den * d); [ring|]. rewrite Ec. transitivity (S * T * (num * d)); [ring|]. rewrite E. ring.
Qed.

Lemma derive_loop_spec dist A T l perf :
  0 < A -> 0 < T -> (forall p, 0 <= pool_stake dist p) ->
  Forall (fun e => 0 <= e.2 /\ e.2 * A <= U64_MAX /\ pool_stake dist e.1 * T <= U64_MAX) l ->
  exists perf', derive_performance_loop dist A T l perf = Ok perf' /\
    forall pool r, bt_get pool perf' = Some r -> bt_get pool perf = Some r \/
      exists b, (pool, b) ∈ l /\ 0 < numerator r /\ 0 < denominator r /\
        b * A * denominator r = pool_stake dist pool * T * numerator r.
Proof.
  intros HA HT Hs Hl. revert perf. induction Hl as [|[p b] l (Hb & HbA & HsT) Hl IH]; intros perf.
  { exists perf. split; [done|auto]. }
  cbn [fst snd] in *. cbn [derive_performance_loop]. specialize (Hs p) as Hp.
  assert (Hskip : forall perf', (forall pool r, bt_get pool perf' = Some r -> bt_get pool perf = Some r \/
      exists b0, (pool, b0) ∈ l /\ 0 < numerator r /\ 0 < denominator r /\
        b0 * A * denominator r = pool_stake dist pool * T * numerator r) ->
    forall pool r, bt_get pool perf' = Some r -> bt_get pool perf = Some r \/
      exists b0, (pool, b0) ∈ (p, b) :: l /\ 0 < numerator r /\ 0 < denominator r /\
        b0 * A * denominator r = pool_stake dist pool * T * numerator r).
  { intros perf' H pool r Hg. destruct (H pool r Hg) as [|(b0 & Hin & H')]; [by left|right].
    exists b0. split; [apply elem_of_cons; by right|done]. }
  destruct (Z.eqb_spec (pool_stake dist p) 0) as [E0|E0].
  { destruct (IH perf) as (perf' & -> & H). exists perf'. split; [done|by apply Hskip]. }
  destruct (Z.eq_dec b 0) as [->|Hb0].
  { unfold apparent_performance_ratio. cbn [Z.eqb orb obind].
    destruct (IH perf) as (perf' & -> & H). exists perf'. split; [done|by apply Hskip]. }
  destruct (apparent_performance_exact b A (pool_stake dist p) T) as (n & d & -> & Hn & Hd & E); try lia.
  cbn [obind]. destruct (IH (bt_insert p (mkUnitInterval n d) perf)) as (perf' & -> & H). exists perf'. split; [done|].
  intros pool r Hg. destruct (H pool r Hg) as [Hi|(b0 & Hin & H')].
  - destruct (key_eqb_reflect pool p) as [->|Hne].
    + rewrite bt_get_insert in Hi. injection Hi as <-. right. exists b. split; [apply elem_of_cons; by left|]. cbn. auto.
    + rewrite bt_get_insert_ne in Hi by done. by left.
  - right. exists b0. split; [apply elem_of_cons; by right|done].
Qed.

(** ** Sums over pools *)

Lemma lsum_swap {A B} (g : A -> B -> Z) l1 l2 :
  lsum (fun x => lsum (g x) l2) l1 = lsum (fun y => lsum (fun x => g x y) l1) l2.
Proof.
  induction l1 as [|x l1 IH]; [|rewrite lsum_cons, IH, <- lsum_add; apply lsum_ext; intros y; by rewrite lsum_cons].
  change (lsum _ []) with 0. symmetry. induction l2 as [|y l2 IH]; [done|]. rewrite lsum_cons, IH. done.
Qed.
Lemma lsum_zero {A} (f : A -> Z) l : (forall x, x ∈ l -> f x = 0) -> lsum f l = 0.
Proof.
  induction l as [|x l IH]; intros H; [done|]. rewrite lsum_cons, IH, H; [done|apply elem_of_cons; by left|].
  intros y Hy. apply H, elem_of_cons. by right.
Qed.

Lemma get_sum_le {K V} `{OrdKey K} (pools : list (K * V)) (m : list (K * Z)) :
  NoDup pools.*1 -> bt_sorted m -> nonneg_map m ->
  lsum (fun e => default 0 (bt_get e.1 m)) pools <= bt_sum id m.
Proof.
  revert m. induction pools as [|[k v] pools IH]; intros m Hnd Hs Hm; [by apply bt_sum_nonneg|].
  inversion Hnd as [|? ? Hk Hnd']; subst. rewrite lsum_cons. cbn [fst].
  assert (Hsub : nonneg_map (bt_remove k m)) by (eapply Forall_sublist_of; [apply bt_remove_sublist|done]).
  specialize (IH (bt_remove k m) Hnd' (bt_remove_sorted k m Hs) Hsub).
  replace (lsum (fun e => default 0 (bt_get e.1 m)) pools)
    with (lsum (fun e => default 0 (bt_get e.1 (bt_remove k m))) pools).
  - destruct (bt_get k m) as [w|] eqn:E; cbn [default].
    + rewrite (bt_sum_remove id k m w E) in IH. unfold id in *. lia.
    + rewrite (bt_remove_none k m E) in *. lia.
  - clear IH. induction pools as [|[k' v'] pools IH]; [done|]. rewrite !lsum_cons. cbn [fst].
    cbn [fmap list_fmap fst] in Hk, Hnd. apply not_elem_of_cons in Hk as [Hne Hk].
    inversion Hnd' as [|? ? Hk' Hnd'']; subst.
    rewrite bt_get_remove_ne by congruence. f_equal. apply IH; [|done|done]. constructor; done.
Qed.

Lemma pool_stakes_total s :
  snapshot_ok s -> NoDup (sn_pool_params s).*1 ->
  lsum (fun e => pool_stake (pool_stake_distribution s) e.1) (sn_pool_params s)
  <= pd_total_stake (pool_stake_distribution s).
Proof.
  intros Hok Hnd. destruct (pool_stake_distribution_spec s Hok) as [H1 H2]. rewrite H2.
  rewrite (lsum_ext _ (fun e => stake_where (in_pool s e.1) s)) by (intros e; apply H1).
  unfold stake_where. rewrite lsum_swap. apply lsum_le. intros [c p].
  pose proof (snap_nonneg s Hok c) as Hc. unfold weight, in_pool. cbn [fst snd].
  destruct (known_pool s c p); cycle 1.
  { rewrite lsum_zero; [lia|]. intros e _. by rewrite andb_false_r. }
  induction (sn_pool_params s) as [|[k v] pools IH]; [done|]. rewrite lsum_cons. cbn [fst].
  cbn [fmap list_fmap fst] in Hnd. inversion Hnd as [|? ? Hk Hnd']; subst. rewrite andb_true_r.
  destruct (key_eqb_reflect p k) as [->|Hne]; [|by apply IH].
  rewrite lsum_zero; [lia|]. intros [k' v'] Hin. cbn [fst]. rewrite andb_true_r, key_eqb_ne; [done|].
  intros ->. apply Hk, list_elem_of_fmap. by exists (k', v').
Qed.

Lemma total_blocks_spec m : nonneg_map m -> bt_sum id m <= U64_MAX -> total_blocks m = bt_sum id m.
Proof. apply wrapped_sum_exact. Qed.

(** ** The shares of the pools *)

(** Blocks and stake for which the ratios are exact: [t] is the stake the
    relative sizes are taken of. *)
Record production_ok (blocks_made : list (PoolKeyHash * Z)) (s : StakeSnapshot) (t : Z) : Prop := {
  pr_sorted : bt_sorted blocks_made;
  pr_nonneg : nonneg_map blocks_made;
  pr_sum : bt_sum id blocks_made <= U64_MAX;
  pr_active : pd_total_stake (pool_stake_distribution s) <= t;
  pr_fits : Forall (fun e =>
    e.2 * pd_total_stake (pool_stake_distribution s) <= U64_MAX /\
    pool_stake (pool_stake_distribution s) e.1 * bt_sum id blocks_made <= U64_MAX) blocks_made }.

(** The performance the boundary uses when none is given. *)
Definition boundary_performance (blocks_made : list (PoolKeyHash * Z)) (s : StakeSnapshot)
    (d : UnitInterval) : fee_outcome (list (PoolKeyHash * UnitInterval)) :=
  match blocks_made with
  | _ :: _ => derive_pool_performance blocks_made s d
  | [] => Ok []
  end.

Section shares.
Context (params : RewardParams) (s : StakeSnapshot) (blocks_made : list (PoolKeyHash * Z)) (d : UnitInterval).
Let dist := pool_stake_distribution s.
Let t := total_stake_for_sigma params dist.
Context (Hok : snapshot_ok s) (Hsorted : bt_sorted (sn_pool_params s)) (Hp : production_ok blocks_made s t).
Context (Hpools : Forall (fun e => pool_params_ok e.2 /\
  (0 < rw_n_opt params -> 0 < pool_stake dist e.1 -> 0 < t ->
   max_pool_divisible (rw_n_opt params) (rw_a0 params) (pool_stake dist e.1) (pledge e.2) t)) (sn_pool_params s)).

(** Shares under which every pool is paid within the pot. *)
Definition shares_ok (perf : list (PoolKeyHash * UnitInterval)) (share : PoolKeyHash -> Z) (X : Z) : Prop :=
  0 < X /\ Forall (fun e => pool_ok params s perf share X e.1 e.2) (sn_pool_params s) /\
  lsum (fun e => share e.1) (sn_pool_params s) <= X.

Lemma stakes_nonneg p : 0 <= pool_stake dist p.
Proof using Hok. subst dist. rewrite (proj1 (pool_stake_distribution_spec s Hok)). by apply stake_where_nonneg. Qed.

Lemma pools_share perf share X :
  0 < X -> (forall p, 0 <= share p) -> lsum (fun e => share e.1) (sn_pool_params s) <= X ->
  (forall p r, bt_get p perf = Some r -> 0 <= numerator r /\ 0 <= denominator r /\
     (0 < pool_stake dist p -> 0 < t -> pool_stake dist p * numerator r * X <= share p * denominator r * t)) ->
  shares_ok perf share X.
Proof using Hpools.
  intros HX Hshare Hsum Hr. split_and!; [done| |done].
  eapply Forall_impl; [exact Hpools|]. intros [p pp] [H1 H2]. cbn [fst snd] in *.
  split; [done|done|exact H2|]. cbv zeta. destruct (bt_get p perf) as [r|] eqn:E; cbn [default].
  - exact (Hr p r E).
  - cbn [numerator denominator]. split_and!; try lia. intros _ Ht. specialize (Hshare p).
    change (0 < t) in Ht. assert (Hnn : 0 <= share p * 1 * t) by nia. rewrite Z.mul_0_r, Z.mul_0_l. exact Hnn.
Qed.

Lemma no_blocks_shares : shares_ok [] (fun _ => 0) 1.
Proof using Hpools. apply pools_share; [lia|done|rewrite lsum_zero; [lia|done]|done]. Qed.

Lemma collect_ones (l : list PoolKeyHash) p r :
  bt_get p (bt_collect ((fun pool => (pool, mkUnitInterval 1 1)) <$> l)) = Some r -> r = mkUnitInterval 1 1.
Proof.
  unfold bt_collect.
  enough (Hg : forall acc, (forall p r, bt_get p acc = Some r -> r = mkUnitInterval 1 1) ->
    forall p r, bt_get p (foldl (fun m e => bt_insert e.1 e.2 m) acc ((fun pool => (pool, mkUnitInterval 1 1)) <$> l)) = Some r ->
    r = mkUnitInterval 1 1) by (apply Hg; done).
  clear p r. induction l as [|k l IH]; intros acc Hacc p r; [apply Hacc|]. cbn [fmap list_fmap foldl fst snd]. apply IH.
  intros p' r'. destruct (key_eqb_reflect p' k) as [->|Hne].
  - rewrite bt_get_insert. by intros [= <-].
  - rewrite bt_get_insert_ne by done. apply Hacc.
Qed.

(** The pools' shares add up to at most one, whichever way the performance is
    derived. *)
Lemma performance_shares :
  exists perf share X, boundary_performance blocks_made s d = Ok perf /\ shares_ok perf share X.
Proof using Hok Hsorted Hp Hpools.
  destruct Hp as [Hbs Hbn Hbsum Hact Hfits]. fold dist in Hact, Hfits.
  destruct (Z.eq_dec (bt_sum id blocks_made) 0) as [Ez|Enz]; [|pose proof (bt_sum_nonneg id _ Hbn) as Hpos].
  all: unfold boundary_performance; destruct blocks_made as [|e rest] eqn:Eb;
    [exists [], (fun _ => 0), 1; split; [done|exact no_blocks_shares]|].
  all: rewrite <- Eb in *; unfold derive_pool_performance; destruct (mostly_centralised d).
  1, 3: eexists _, (pool_stake dist), (Z.max t 1); split; [reflexivity|]; apply pools_share;
    [lia|exact stakes_nonneg
    |etransitivity; [apply (pool_stakes_total s Hok (bt_sorted_NoDup _ Hsorted))|fold dist; lia]
    |intros p r ->%collect_ones; cbn [numerator denominator]; split_and!; [lia..|intros _ Ht; rewrite Z.max_l by lia; lia]].
  all: fold dist; cbv zeta; destruct (Z.eqb_spec (pd_total_stake dist) 0) as [E0|E0].
  1, 3: exists [], (fun _ => 0), 1; split; [by rewrite Eb|exact no_blocks_shares].
  all: rewrite (total_blocks_spec blocks_made Hbn Hbsum).
  - rewrite Ez. exists [], (fun _ => 0), 1. split; [by rewrite Eb|exact no_blocks_shares].
  - rewrite (proj2 (Z.eqb_neq _ 0)) by lia.
    assert (HA : 0 < pd_total_stake dist).
    { destruct (pool_stake_distribution_spec s Hok) as [_ H2]. fold dist in H2.
      pose proof (stake_where_nonneg (known_pool s) s Hok). lia. }
    destruct (derive_loop_spec dist (pd_total_stake dist) (bt_sum id blocks_made) blocks_made [])
      as (perf & Eperf & Hperf); [done|lia|exact stakes_nonneg| |].
    { apply Forall_forall. intros x Hx. split; [exact (proj1 (Forall_forall _ _) Hbn _ Hx)|].
      exact (proj1 (Forall_forall _ _) Hfits _ Hx). }
    exists perf, (fun p => default 0 (bt_get p blocks_made)), (bt_sum id blocks_made).
    split; [by rewrite Eb in Eperf |- *|]. apply pools_share; [lia| | |].
    + intros p. destruct (bt_get p blocks_made) as [b|] eqn:Eg; cbn [default]; [|done].
      apply bt_get_elem in Eg. exact (proj1 (Forall_forall _ _) Hbn _ Eg).
    + by apply get_sum_le; [apply bt_sorted_NoDup|..].
    + intros p r Hg. destruct (Hperf p r Hg) as [|(b & Hin & Hn & Hd & E)]; [done|].
      pose proof (proj1 (Forall_forall _ _) Hbn _ Hin) as Hb0. cbn [snd] in Hb0.
      rewrite (bt_elem_get p b blocks_made Hbs Hin). cbn [default]. split_and!; [lia..|]. intros _ Ht.
      assert (b * denominator r * pd_total_stake dist <= b * denominator r * t)
        by (apply Z.mul_le_mono_nonneg_l; nia).
      change (id b) with b. lia.
Qed.
End shares.
