(* ===== verification/EpochConservation.v ===== *)
(** * Lovelace is conserved at the epoch boundary

    Instantaneous rewards, block-production ratios and parameter updates, the
    steps of [EpochFacts], and the theorem that adds them up: the lovelace in
    reserves, treasury, reward accounts, deposits, fees and donations is the
    same before and after. *)

From stdpp Require Import list gmap.
From S2P Require Import Prelude Cbor Types TypesCodec BTree ProtocolParams Fees WideArith.
From S2P Require Import NativeScript PlutusData Uplc Builtins ScriptContext Utxo.
From S2P Require Import Staking Rewards RewardsFacts Governance LedgerState EpochBoundary EpochFacts EpochShares.
Local Open Scope Z_scope.
#[local] Arguments bt_sum : simpl never.
#[local] Arguments lsum : simpl never.
#[local] Arguments sat_add : simpl never.
#[local] Arguments sat_sub : simpl never.

(** ** Parameter updates and donations touch no account *)

Record same_money (l l' : LedgerState) : Prop := {
  sm_pots : same_pots l l';
  sm_accounts : ls_reward_accounts l' = ls_reward_accounts l;
  sm_accounting : ls_accounting l' = ls_accounting l;
  sm_actions : ls_governance_actions l' = ls_governance_actions l }.
#[export] Instance same_money_preorder : PreOrder same_money.
Proof.
  split; [by intros l; split|]. intros l1 l2 l3 [A1 A2 A3 A4] [B1 B2 B3 B4].
  split; [by transitivity l2|congruence..].
Qed.

Lemma apply_pending_money l epoch :
  same_money l (apply_pending_pparam_updates l epoch).1 /\
  (ls_protocol_params l <> None -> ls_protocol_params (apply_pending_pparam_updates l epoch).1 <> None).
Proof.
  unfold apply_pending_pparam_updates. repeat case_match; cbn [fst]; (split; [by split|done]).
Qed.
Lemma apply_due_money l epoch :
  same_money l (apply_due_pending_pparam_updates l epoch).1 /\
  (ls_protocol_params l <> None -> ls_protocol_params (apply_due_pending_pparam_updates l epoch).1 <> None).
Proof.
  unfold apply_due_pending_pparam_updates. generalize 0.
  generalize (List.filter (fun e => e <=? epoch) (bt_keys (ls_pending_pparam_updates l))). intros due.
  revert l. induction due as [|e due IH]; intros l n; [done|]. cbn [foldl].
  destruct (apply_pending_money l e) as [H1 H2].
  destruct (apply_pending_pparam_updates l e) as [l1 k]. cbn [fst] in *.
  destruct (IH l1 (n + k)) as [H3 H4]. split; [by transitivity l1|auto].
Qed.

(** ** Governance *)

Lemma acct_same acct : acct <| treasury := treasury acct + 0 |> = acct.
Proof. destruct acct. cbn. by rewrite Z.add_0_r. Qed.
Lemma credit_treasury l amount :
  0 <= amount -> treasury (ls_accounting l) + amount <= U64_MAX ->
  (if 0 <? amount then
     let acct := ls_accounting l in
     l <| ls_accounting := acct <| treasury := sat_add (treasury acct) amount |> |>
   else l)
  = l <| ls_accounting := (ls_accounting l) <| treasury := treasury (ls_accounting l) + amount |> |>.
Proof.
  intros Ha Hb. destruct (Z.ltb_spec 0 amount) as [|Hle]; cbv zeta.
  - unfold sat_add. by rewrite Z.min_l.
  - replace amount with 0 by lia. rewrite acct_same. by destruct l.
Qed.
Lemma flush_donations_spec l :
  0 <= ls_utxos_donation l -> treasury (ls_accounting l) + ls_utxos_donation l <= U64_MAX ->
  flush_donations_to_treasury l
  = (l <| ls_accounting := (ls_accounting l) <| treasury := treasury (ls_accounting l) + ls_utxos_donation l |> |>
       <| ls_utxos_donation := 0 |>, ls_utxos_donation l).
Proof.
  intros Hd Hb. unfold flush_donations_to_treasury. f_equal.
  destruct (Z.ltb_spec 0 (ls_utxos_donation l)) as [|Hle].
  - unfold sat_add. by rewrite Z.min_l.
  - assert (E : ls_utxos_donation l = 0) by lia. rewrite E, acct_same. destruct l. cbn in E. by rewrite E.
Qed.

Definition proposals_ok (l : LedgerState) : Prop :=
  actions_ok (ls_governance_actions l) /\
  Forall (fun e => withdrawals_ok (gs_action e.2)) (ls_governance_actions l) /\
  actions_owed (ls_governance_actions l) <= proposal_deposits (ls_deposit_pot l).
Definition pot_total (p : DepositPot) : Z :=
  key_deposits p + pool_deposits p + drep_deposits p + proposal_deposits p.

Lemma governance_steps_spec l epoch snapshots activity :
  ls_protocol_params l <> None -> accounts_ok (ls_reward_accounts l) -> proposals_ok l ->
  0 <= treasury (ls_accounting l) -> 0 <= ls_utxos_donation l ->
  wealth l + ls_utxos_donation l + proposal_deposits (ls_deposit_pot l) <= U64_MAX ->
  exists l' r ids a b c, governance_steps l epoch snapshots activity = Ok (l', r, ids, a, b, c) /\
    accounts_ok (ls_reward_accounts l') /\ actions_ok (ls_governance_actions l') /\
    0 <= treasury (ls_accounting l') /\ reserves (ls_accounting l') = reserves (ls_accounting l) /\
    ls_pool_state l' = ls_pool_state l /\ ls_utxos_donation l' = 0 /\
    ls_multi_era_utxo l' = ls_multi_era_utxo l /\
    key_deposits (ls_deposit_pot l') = key_deposits (ls_deposit_pot l) /\
    pool_deposits (ls_deposit_pot l') = pool_deposits (ls_deposit_pot l) /\
    drep_deposits (ls_deposit_pot l') = drep_deposits (ls_deposit_pot l) /\
    proposal_deposits (ls_deposit_pot l') - actions_owed (ls_governance_actions l')
      = proposal_deposits (ls_deposit_pot l) - actions_owed (ls_governance_actions l) /\
    wealth l' + proposal_deposits (ls_deposit_pot l')
      = wealth l + ls_utxos_donation l + proposal_deposits (ls_deposit_pot l).
Proof.
  intros Hpp Hok (Ha & Hw & Howed) Ht Hdon Hb. unfold governance_steps.
  pose proof (held_nonneg _ Hok) as Hh. pose proof (bt_sum_nonneg deposit_of _ Ha : 0 <= actions_owed _) as Ho.
  destruct (ratify_and_enact_spec l epoch snapshots activity Hpp Hok Ha Ht Hw ltac:(lia))
    as (l1 & r & -> & [P1 P2 P3 P4 P5] & Hok1 & Ha1 & Ht1 & G1 & G2 & G3 & G4 & G5 & G6). cbn [obind].
  pose proof (held_nonneg _ Hok1) as Hh1. unfold wealth in *.
  pose proof (remove_expired_spec l1 epoch Hok1 Ha1 ltac:(lia)) as Hexp.
  destruct (remove_expired_governance_actions l1 epoch) as [[[l2 ids] refunds] expired].
  destruct Hexp as (acts2 & acc2 & -> & Hok2 & Ha2 & X1 & X2 & X3 & X4 & X5).
  pose proof (held_nonneg _ Hok2) as Hh2.
  set (l2 := l1 <| ls_governance_actions := acts2 |> <| ls_reward_accounts := acc2 |>).
  assert (Hdesc : exists acts3 acc3 r3 u3,
    match ids with [] => Ok (E := Empty_set) (l2, 0, 0) | _ => remove_descendants_of l2 ids end
      = Ok (l2 <| ls_governance_actions := acts3 |> <| ls_reward_accounts := acc3 |>, r3, u3) /\
    accounts_ok acc3 /\ actions_ok acts3 /\ 0 <= r3 /\ 0 <= u3 /\ 0 <= actions_owed acts3 /\
    held acc3 + u3 + actions_owed acts3 = held acc2 + actions_owed acts2 /\
    r3 + u3 + actions_owed acts3 = actions_owed acts2).
  { destruct ids as [|i ids].
    - exists acts2, acc2, 0, 0. split_and!; try done; lia.
    - apply (remove_descendants_spec l2 (i :: ids)); [done|done|cbn; lia]. }
  destruct Hdesc as (acts3 & acc3 & r3 & u3 & -> & Hok3 & Ha3 & D1 & D2 & D3 & D4 & D5). cbn [obind].
  set (l3 := l2 <| ls_governance_actions := acts3 |> <| ls_reward_accounts := acc3 |>).
  assert (Eu : sat_add (sat_add expired u3) (rr_unclaimed_deposits r) = expired + u3 + rr_unclaimed_deposits r)
    by (unfold sat_add; lia).
  assert (Er : sat_add (sat_add (sat_add (sat_add (sat_add (sat_add refunds expired) r3) u3)
      (rr_enacted_deposit_refunds r)) (rr_removed_deposit_refunds r)) (rr_unclaimed_deposits r)
    = refunds + expired + r3 + u3 + rr_enacted_deposit_refunds r + rr_removed_deposit_refunds r + rr_unclaimed_deposits r)
    by (unfold sat_add; lia).
  rewrite Er, Eu.
  pose proof (held_nonneg _ Hok3) as Hh3.
  rewrite (credit_treasury l3); [|lia|change (ls_accounting l3) with (ls_accounting l1); lia].
  rewrite flush_donations_spec; cycle 1.
  { change (0 <= ls_utxos_donation l1). lia. }
  { change (treasury (ls_accounting l1) + (expired + u3 + rr_unclaimed_deposits r) + ls_utxos_donation l1 <= U64_MAX). lia. }
  cbv zeta. do 6 eexists. split; [reflexivity|]. unfold wealth, sat_sub.
  cbn. rewrite P1, P2, P3, P4, P5. unfold sat_sub. split_and!; try done; lia.
Qed.

(** ** Instantaneous rewards *)

Definition I63 : Z := 2 ^ 63 - 1.
Record mir_ok (ir : InstantaneousRewards) (acct : AccountingState) : Prop := {
  mo_sorted : bt_sorted (ir_reserves ir) /\ bt_sorted (ir_treasury ir);
  mo_nonneg : nonneg_map (ir_reserves ir) /\ nonneg_map (ir_treasury ir);
  mo_sum : bt_sum id (ir_reserves ir) + bt_sum id (ir_treasury ir) <= I63;
  mo_deltas : delta_reserves ir + delta_treasury ir = 0;
  mo_delta : - I63 <= delta_reserves ir <= I63;
  mo_left : 0 <= reserves acct + delta_reserves ir /\ 0 <= treasury acct + delta_treasury ir }.

Lemma wrap_i64_id z : - I63 <= z <= I63 -> wrap_i64 z = z.
Proof. unfold wrap_i64, I63. intros Hz. rewrite Z.mod_small; lits; lia. Qed.
Lemma apply_signed_delta_spec pot d :
  - I63 <= d <= I63 -> 0 <= pot + d <= U64_MAX -> apply_signed_delta pot d = pot + d.
Proof.
  intros Hd Hp. unfold apply_signed_delta. destruct (Z.ltb_spec 0 d); [unfold sat_add; lia|].
  destruct (Z.ltb_spec d 0); [|lia]. unfold neg_as_u64. rewrite wrap_i64_id by lia.
  rewrite wrap64_id by (unfold u64, U64_MAX, I63 in *; lits; lia). unfold sat_sub. lia.
Qed.
Lemma sum_i64_spec m : nonneg_map m -> bt_sum id m <= I63 -> sum_i64 m = bt_sum id m.
Proof.
  intros Hm Hb. unfold sum_i64.
  enough (Hgen : forall sum, 0 <= sum -> sum + bt_sum id m <= I63 ->
    foldl (fun sum v => wrap_i64 (sum + v)) sum (bt_values m) = sum + bt_sum id m) by (rewrite Hgen; lia).
  clear Hb. induction Hm as [|[k v] m Hv Hm IH]; intros sum Hs Hb; [change (bt_sum id []) with 0; cbn; lia|].
  rewrite bt_sum_cons in *. change (id v) with v in *. cbn [snd] in Hv. pose proof (bt_sum_nonneg id m Hm).
  unfold bt_values in *. cbn [fmap list_fmap foldl snd]. rewrite wrap_i64_id by lia. rewrite IH by lia. lia.
Qed.

Lemma collect_get {K V} `{OrdKey K} (l : list (K * V)) k v : bt_get k (bt_collect l) = Some v -> (k, v) ∈ l.
Proof.
  unfold bt_collect. enough (Hgen : forall acc, bt_get k (foldl (fun m e => bt_insert e.1 e.2 m) acc l) = Some v ->
    bt_get k acc = Some v \/ (k, v) ∈ l) by (intros E; by destruct (Hgen [] E)).
  induction l as [|[k' v'] l IH]; intros acc E; [by left|]. cbn [foldl fst snd] in E.
  destruct (IH _ E) as [Hg|Hin]; [|right; apply elem_of_cons; by right].
  destruct (key_eqb_reflect k k') as [->|Hne].
  - rewrite bt_get_insert in Hg. injection Hg as ->. right. apply elem_of_cons. by left.
  - rewrite bt_get_insert_ne in Hg by done. by left.
Qed.
Lemma keys_get {K V} `{OrdKey K} (m : list (K * V)) k : k ∈ bt_keys m -> bt_get k m <> None.
Proof.
  induction m as [|[k' v] m IH]; [by intros ?%not_elem_of_nil|].
  unfold bt_keys. cbn [fmap list_fmap fst bt_get]. intros [->|Hin]%elem_of_cons; [by rewrite key_eqb_refl|].
  destruct (key_eqb k k'); [done|auto].
Qed.

Lemma merge_deltas_spec (P : StakeCredential -> Prop) m c :
  bt_sorted c -> nonneg_map c -> nonneg_map m -> bt_sum id c + bt_sum id m <= I63 ->
  Forall (fun e => P e.1) c -> Forall (fun e => P e.1) m ->
  let r := merge_deltas c m in
  bt_sorted r /\ nonneg_map r /\ bt_sum id r = bt_sum id c + bt_sum id m /\ Forall (fun e => P e.1) r.
Proof.
  intros Hs Hc Hm. revert c Hs Hc. induction Hm as [|[k v] m Hv Hm IH]; intros c Hs Hc Hb Pc Pm r; subst r.
  { change (bt_sum id []) with 0. cbn. split_and!; try done. lia. }
  rewrite bt_sum_cons in *. change (id v) with v in *. cbn [snd] in Hv. pose proof (bt_sum_nonneg id m Hm).
  inversion Pm as [|? ? Pk Pm']; subst. cbn [fst] in Pk.
  unfold merge_deltas. cbn [foldl]. fold (merge_deltas (bt_entry 0 (fun x => wrap_i64 (x + v)) k c) m).
  assert (Hw : 0 <= default 0 (bt_get k c) <= bt_sum id c).
  { destruct (bt_get k c) as [w|] eqn:E; cbn [default].
    - split; [|by apply (bt_sum_get id k c w)]. apply bt_get_elem in E. exact (proj1 (Forall_forall _ _) Hc _ E).
    - split; [done|by apply bt_sum_nonneg]. }
  unfold bt_entry. rewrite wrap_i64_id by lia.
  assert (Es : bt_sum id (bt_insert k (default 0 (bt_get k c) + v) c) = bt_sum id c + v).
  { rewrite bt_sum_insert by done. destruct (bt_get k c); cbn [default]; unfold id; lia. }
  destruct (IH (bt_insert k (default 0 (bt_get k c) + v) c)) as (H1 & H2 & H3 & H4); try done; try lia.
  - by apply bt_insert_sorted.
  - apply (bt_insert_Forall (fun x => 0 <= x)); [lia|done].
  - by apply bt_insert_forall.
  - split_and!; try done. lia.
Qed.

Lemma credit_mir_loop c2a l accounts n :
  (forall c a, bt_get c c2a = Some a -> a ∈ bt_keys accounts) -> accounts_ok accounts -> nonneg_map l ->
  Forall (fun e => bt_contains e.1 c2a = true) l -> Forall (fun e => e.2 <= I63) l ->
  held accounts + bt_sum id l <= U64_MAX ->
  let r := foldl (credit_mir c2a) (accounts, n) l in
  accounts_ok r.1 /\ held r.1 = held accounts + bt_sum id l.
Proof.
  intros Hc Hok Hl. revert accounts n Hc Hok.
  induction Hl as [|[cred v] l Hv Hl IH]; intros accounts n Hc Hok Pc Pv Hb r; subst r.
  { change (bt_sum id []) with 0. cbn [foldl fst]. split; [done|lia]. }
  rewrite bt_sum_cons in *. change (id v) with v in *. cbn [snd] in Hv. pose proof (bt_sum_nonneg id l Hl).
  inversion Pc as [|? ? Pk Pc']; inversion Pv as [|? ? Pv1 Pv']; subst. cbn [fst snd] in *.
  cbn [foldl credit_mir]. destruct (Z.eqb_spec v 0) as [->|Hnz].
  { destruct (IH accounts n) as [H1 H2]; [done..|lia|]. split; [done|lia]. }
  unfold bt_contains in Pk. destruct (bt_get cred c2a) as [a|] eqn:Ea; [|done].
  pose proof (keys_get accounts a (Hc _ _ Ea)) as Hg. destruct (bt_get a accounts) as [s|] eqn:Es; [|done].
  rewrite (proj2 (Z.ltb_lt 0 v)) by lia.
  destruct (credit_spec accounts a v s Hok Hv ltac:(lia) Es) as [C1 C2].
  destruct (IH (bt_alter (credit v) a accounts) (n + 1)) as [H1 H2]; try done; try lia.
  - intros c a' Hca. rewrite bt_alter_keys. by eapply Hc.
  - split; [done|lia].
Qed.

Lemma filtered_spec (p : StakeCredential * Z -> bool) m :
  bt_sorted m -> nonneg_map m ->
  let f := bt_collect (List.filter p m) in
  f = List.filter p m /\ bt_sorted f /\ nonneg_map f /\ 0 <= bt_sum id f <= bt_sum id m /\
  Forall (fun e => p e = true) f.
Proof.
  intros Hs Hn. cbv zeta. destruct (bt_filter_entries p m Hs) as [Hfs _].
  assert (E : bt_collect (List.filter p m) = List.filter p m) by by apply (bt_collect_append [] (List.filter p m)).
  rewrite E. split; [done|]. split; [done|]. split; [|split].
  - eapply Forall_sublist_of; [apply filter_sublist|done].
  - apply (lsum_sublist (fun e : StakeCredential * Z => id e.2)); [apply filter_sublist|done].
  - apply Forall_forall. intros e He. by apply list_elem_of_In, List.filter_In in He as [_ He].
Qed.
Lemma bounded_entries {K} (m : list (K * Z)) b : nonneg_map m -> bt_sum id m <= b -> Forall (fun e => e.2 <= b) m.
Proof.
  induction 1 as [|[k v] m Hv Hm IH]; intros Hb; [constructor|]. rewrite bt_sum_cons in Hb. change (id v) with v in Hb.
  cbn [snd] in Hv. pose proof (bt_sum_nonneg id m Hm). constructor; cbn [snd]; [lia|]. apply IH. lia.
Qed.

Lemma apply_mir_spec ir accounts acct :
  accounts_ok accounts -> 0 <= reserves acct -> 0 <= treasury acct ->
  held accounts + reserves acct + treasury acct <= U64_MAX ->
  ir_is_empty ir = true \/ mir_ok ir acct ->
  let '(accounts', acct', _) := apply_mir ir accounts acct in
  accounts_ok accounts' /\ 0 <= reserves acct' /\ 0 <= treasury acct' /\
  held accounts' + reserves acct' + treasury acct' = held accounts + reserves acct + treasury acct /\
  Z.min (reserves acct) (reserves acct + delta_reserves ir - bt_sum id (ir_reserves ir)) <= reserves acct'.
Proof.
  intros Hok Hr Ht Hb Hir. unfold apply_mir. destruct (ir_is_empty ir) eqn:Ee; [split_and!; done || lia|].
  destruct Hir as [|[[Hs1 Hs2] [Hn1 Hn2] Hsum Hdel Hd [Hl1 Hl2]]]; [done|].
  set (c2a := bt_collect ((fun a => (ra_credential a, a)) <$> bt_keys accounts)). set (reg := fun e : StakeCredential * Z => bt_contains e.1 c2a).
  destruct (filtered_spec reg _ Hs1 Hn1) as (_ & F1 & F2 & F3 & F4).
  destruct (filtered_spec reg _ Hs2 Hn2) as (_ & G1 & G2 & G3 & G4).
  set (fr := bt_collect (List.filter reg (ir_reserves ir))) in *.
  set (ft := bt_collect (List.filter reg (ir_treasury ir))) in *. clearbody fr ft.
  assert (Hc : forall c a, bt_get c c2a = Some a -> a ∈ bt_keys accounts).
  { intros c a Hg%collect_get. apply list_elem_of_fmap in Hg as (a' & [= -> ->] & Ha). done. }
  pose proof (held_nonneg _ Hok) as Hh.
  rewrite !sum_i64_spec by (done || lia).
  rewrite (Z.max_l (reserves acct + delta_reserves ir) 0), (Z.max_l (treasury acct + delta_treasury ir) 0) by lia.
  rewrite !wrap64_id by (unfold u64; lia).
  assert (Hguard : ((bt_sum id fr <=? 0) || (bt_sum id fr <=? reserves acct + delta_reserves ir)) = true ->
    bt_sum id fr <= reserves acct + delta_reserves ir).
  { intros [E|E]%orb_true_iff; apply Z.leb_le in E; lia. }
  assert (Hguard' : ((bt_sum id ft <=? 0) || (bt_sum id ft <=? treasury acct + delta_treasury ir)) = true ->
    bt_sum id ft <= treasury acct + delta_treasury ir).
  { intros [E|E]%orb_true_iff; apply Z.leb_le in E; lia. }
  destruct ((bt_sum id fr <=? 0) || _); cbn [andb]; [|split_and!; done || lia].
  destruct ((bt_sum id ft <=? 0) || _); cbn [andb]; [|split_and!; done || lia].
  specialize (Hguard eq_refl). specialize (Hguard' eq_refl).
  rewrite !(wrap_i64_id (- _)) by lia.
  rewrite !(apply_signed_delta_spec (reserves acct)), !(apply_signed_delta_spec (treasury acct)) by lia.
  rewrite !apply_signed_delta_spec by lia.
  destruct (merge_deltas_spec (fun c => bt_contains c c2a = true) fr []) as (M1 & M2 & M3 & M4);
    [constructor|constructor|done|change (bt_sum id []) with 0; lia|constructor|done|].
  change (bt_sum id []) with 0 in M3.
  destruct (merge_deltas_spec (fun c => bt_contains c c2a = true) ft (merge_deltas [] fr)) as (N1 & N2 & N3 & N4);
    [done|done|done|lia|done|done|].
  set (combined := merge_deltas (merge_deltas [] fr) ft) in *. clearbody combined.
  destruct (credit_mir_loop c2a combined accounts 0 Hc Hok N2 N4) as [C1 C2];
    [apply bounded_entries; [done|lia]|lia|].
  destruct (negb (bt_sum id fr =? 0) || negb (bt_sum id ft =? 0)) eqn:Ez.
  - destruct (foldl (credit_mir c2a) (accounts, 0) combined) as [accounts' n]. cbn [fst] in *.
    cbn. split_and!; try done; lia.
  - apply orb_false_iff in Ez as [Z1 Z2]. apply negb_false_iff, Z.eqb_eq in Z1, Z2.
    cbn. split_and!; try done; lia.
Qed.

(** ** The whole boundary *)

(** Lovelace outside the unspent outputs. *)
Definition boundary_total (l : LedgerState) (ss : StakeSnapshots) : Z :=
  reserves (ls_accounting l) + treasury (ls_accounting l) + held (ls_reward_accounts l)
  + pot_total (ls_deposit_pot l) + ls_utxos_donation l + ss_fee_pot ss + ss_previous_fee_pot ss.

(** What the reward update reads: the previous parameters, the fees of the
    epoch before, the oldest snapshot and the block counts. *)
Record rewards_ready (l : LedgerState) (prev : ProtocolParameters) (ss : StakeSnapshots) : Prop := {
  rr_n_opt : u64 (n_opt prev);
  rr_a0 : u64 (numerator (a0 prev)) /\ u64 (denominator (a0 prev));
  rr_rho : 0 <= numerator (rho prev) <= Z.max (denominator (rho prev)) 1 /\ u64 (denominator (rho prev));
  rr_tau : 0 <= numerator (tau prev) <= denominator (tau prev) /\ u64 (denominator (tau prev));
  rr_d : 0 < denominator (default (mkUnitInterval 0 1) (param_d prev));
  rr_asc : u64 (denominator (ls_active_slot_coeff l));
  rr_supply : u64 (ls_max_lovelace_supply l);
  rr_snapshot : snapshot_ok (ss_go ss);
  rr_pools_sorted : bt_sorted (sn_pool_params (ss_go ss));
  rr_production : production_ok (ls_blocks_made_prev l) (ss_go ss)
    (if 0 <? ls_max_lovelace_supply l
     then sat_sub (ls_max_lovelace_supply l) (reserves (ls_accounting l))
     else pd_total_stake (pool_stake_distribution (ss_go ss)));
  rr_pool_params : Forall (fun e => pool_params_ok e.2 /\
    let dist := pool_stake_distribution (ss_go ss) in
    let t := if 0 <? ls_max_lovelace_supply l
             then sat_sub (ls_max_lovelace_supply l) (reserves (ls_accounting l)) else pd_total_stake dist in
    (0 < n_opt prev -> 0 < pool_stake dist e.1 -> 0 < t ->
     max_pool_divisible (n_opt prev) (a0 prev) (pool_stake dist e.1) (pledge e.2) t))
    (sn_pool_params (ss_go ss)) }.

Lemma compute_eta_spec d asc slots blocks :
  0 < denominator d -> u64 (denominator asc) -> nonneg_map blocks -> bt_sum id blocks <= U64_MAX ->
  exists eta, compute_eta d asc slots blocks = Ok eta /\ 0 <= numerator eta /\ u64 (denominator eta).
Proof.
  intros Hd Ha Hn Hs. assert (H1 : 0 <= 1 /\ u64 1) by (unfold u64, U64_MAX; lia).
  unfold compute_eta. destruct (mostly_centralised d); [by eexists|].
  destruct (Z.eqb_spec (denominator asc) 0) as [|Hz]; [rewrite orb_true_r; by eexists|]. rewrite orb_false_r.
  destruct (_ || _); [by eexists|]. unfold div_u128.
  rewrite (proj2 (Z.eqb_neq _ 0)) by (unfold u64 in *; nia). cbn [obind].
  destruct (_ =? 0); [by eexists|]. rewrite total_blocks_spec by done.
  destruct (_ <=? _); [by eexists|]. eexists. split; [done|]. cbn [numerator denominator].
  split; [by apply bt_sum_nonneg|]. unfold u64, wrap64, U64_MAX. 
  pose proof (Z.mod_pos_bound (wrap128 (sat_sub (denominator d) (numerator d) * numerator asc * slots)
    / (denominator d * denominator asc)) (2 ^ 64) ltac:(lits; lia)). lits. lia.
Qed.

Lemma epoch_rewards_total l prev params ss :
  rewards_ready l prev ss -> 0 <= reserves (ls_accounting l) -> 0 <= ss_previous_fee_pot ss ->
  reserves (ls_accounting l) + ss_previous_fee_pot ss <= U64_MAX ->
  exists d, epoch_rewards l prev params ss [] = Ok d /\
    (nonneg_map (reward_deltas d) /\ nonneg_map (leader_deltas d)) /\
    0 <= rd_delta_reserves d <= reserves (ls_accounting l) /\ 0 <= treasury_cut d /\ 0 <= unclaimed d /\
    rd_delta_reserves d + ss_previous_fee_pot ss = treasury_cut d + paid_out d + unclaimed d.
Proof.
  intros [] Hr Hf Hb. unfold epoch_rewards.
  destruct rr_production0 as [P1 P2 P3 P4 P5] eqn:EP. clear EP.
  destruct (compute_eta_spec (default (mkUnitInterval 0 1) (param_d prev)) (ls_active_slot_coeff l)
    (ls_slots_per_epoch l) (ls_blocks_made_prev l)) as (eta & -> & He1 & He2); [done..|]. cbn [obind].
  set (rp := reward_params_of l prev params (ss_previous_fee_pot ss) eta).
  destruct (performance_shares rp (ss_go ss) (ls_blocks_made_prev l)
    (default (mkUnitInterval 0 1) (param_d prev)) ltac:(done) ltac:(done) rr_production0 rr_pool_params0)
    as (perf & share & X & Eperf & HX & Hpools & Hsum).
  assert (Ep : match ls_blocks_made_prev l with
    | _ :: _ => derive_pool_performance (ls_blocks_made_prev l) (ss_go ss) (default (mkUnitInterval 0 1) (param_d prev))
    | [] => Ok [] end = Ok perf) by (rewrite <- Eperf; by destruct (ls_blocks_made_prev l)).
  rewrite Ep. cbn [obind].
  assert (Hrp : reward_params_ok rp).
  { split; try tauto; try done; subst rp; cbn [rw_reserves rw_fee_pot reward_params_of]; unfold u64; lia. }
  destruct (epoch_rewards_ok rp (ss_go ss) perf share X Hrp) as (d & E & _ & Hn & Hd & Ht & Hu & Hdist & Hsplit); try done.
  exists d. rewrite <- Hdist. done.
Qed.

Record boundary_ready (l : LedgerState) (ss : StakeSnapshots) : Prop := {
  br_params : ls_protocol_params l <> None;
  br_rewards : forall prev, previous_protocol_params l = Some prev -> rewards_ready l prev ss;
  br_accounts : accounts_ok (ls_reward_accounts l);
  br_pools : pools_ok (ls_pool_state l);
  br_pool_pot : pools_owed (ls_pool_state l) <= pool_deposits (ls_deposit_pot l);
  br_proposals : proposals_ok l;
  br_pots : 0 <= key_deposits (ls_deposit_pot l) /\ 0 <= drep_deposits (ls_deposit_pot l) /\
    0 <= reserves (ls_accounting l) /\ 0 <= treasury (ls_accounting l) /\ 0 <= ls_utxos_donation l /\
    0 <= ss_fee_pot ss /\ 0 <= ss_previous_fee_pot ss;
  br_total : boundary_total l ss <= I63;
  br_mir : ir_is_empty (ls_instantaneous_rewards l) = true \/
    mir_ok (ls_instantaneous_rewards l) (ls_accounting l);
  (** The reserves cover both the instantaneous rewards and the expansion. *)
  br_order : forall prev params d, previous_protocol_params l = Some prev ->
    epoch_rewards l prev params ss [] = Ok d ->
    rd_delta_reserves d <= reserves (ls_accounting l) + delta_reserves (ls_instantaneous_rewards l)
      - bt_sum id (ir_reserves (ls_instantaneous_rewards l)) }.

(** What the boundary keeps. *)
Record conserved (l l' : LedgerState) (ss ss' : StakeSnapshots) : Prop := {
  cv_total : boundary_total l' ss' = boundary_total l ss;
  cv_accounts : accounts_ok (ls_reward_accounts l');
  cv_pools : pools_ok (ls_pool_state l');
  cv_actions : actions_ok (ls_governance_actions l');
  cv_pots : 0 <= reserves (ls_accounting l') /\ 0 <= treasury (ls_accounting l');
  cv_pool_pot : pool_deposits (ls_deposit_pot l') - pools_owed (ls_pool_state l')
    = pool_deposits (ls_deposit_pot l) - pools_owed (ls_pool_state l);
  cv_proposal_pot : proposal_deposits (ls_deposit_pot l') - actions_owed (ls_governance_actions l')
    = proposal_deposits (ls_deposit_pot l) - actions_owed (ls_governance_actions l);
  cv_utxo : ls_multi_era_utxo l' = ls_multi_era_utxo l }.

Lemma settle_pots_spec acct d lost unclaimed_pool :
  0 <= treasury acct -> 0 <= treasury_cut d -> 0 <= lost -> 0 <= unclaimed_pool -> 0 <= unclaimed d ->
  0 <= rd_delta_reserves d <= reserves acct ->
  reserves acct + unclaimed d <= U64_MAX -> treasury acct + treasury_cut d + lost + unclaimed_pool <= U64_MAX ->
  settle_pots acct d lost unclaimed_pool
  = mkAccounting (treasury acct + treasury_cut d + lost + unclaimed_pool)
      (reserves acct - rd_delta_reserves d + unclaimed d).
Proof. intros. unfold settle_pots, sat_add, sat_sub. f_equal; lia. Qed.

(** Steps 1 to 4, as amounts: rewards, instantaneous rewards, retired pools,
    parameter updates, pots. *)
Definition settled (l : LedgerState) (epoch : EpochNo) (d : EpochRewardDistribution) : LedgerState :=
  let '(accounts, _, lost) := distribute_rewards (ls_reward_accounts l) d in
  let l := (apply_mir_at_epoch_boundary (l <| ls_reward_accounts := accounts |>)).1 in
  let l := rotate_blocks_made_for_epoch_boundary l in
  let l := l <| ls_pool_state := adopt_future_params (ls_pool_state l) |> in
  let '(l, _, _, unclaimed_pool) := retire_pools_with_refunds l epoch in
  let l := (apply_due_pending_pparam_updates (snapshot_previous_protocol_params l) epoch).1 in
  l <| ls_accounting := settle_pots (ls_accounting l) d lost unclaimed_pool |>.

Record settled_ok (l l' : LedgerState) (ss : StakeSnapshots) : Prop := {
  so_params : ls_protocol_params l' <> None;
  so_accounts : accounts_ok (ls_reward_accounts l');
  so_pools : pools_ok (ls_pool_state l');
  so_nonneg : 0 <= reserves (ls_accounting l') /\ 0 <= treasury (ls_accounting l');
  so_actions : ls_governance_actions l' = ls_governance_actions l;
  so_donation : ls_utxos_donation l' = ls_utxos_donation l;
  so_utxo : ls_multi_era_utxo l' = ls_multi_era_utxo l;
  so_pots : exists paid, 0 <= paid /\
    ls_deposit_pot l' = (ls_deposit_pot l) <| pool_deposits := pool_deposits (ls_deposit_pot l) - paid |> /\
    pools_owed (ls_pool_state l') = pools_owed (ls_pool_state l) - paid /\
    held (ls_reward_accounts l') + reserves (ls_accounting l') + treasury (ls_accounting l')
    = held (ls_reward_accounts l) + reserves (ls_accounting l) + treasury (ls_accounting l)
      + ss_previous_fee_pot ss + paid }.

Lemma boundary_parts l ss :
  boundary_ready l ss ->
  0 <= held (ls_reward_accounts l) /\ 0 <= pools_owed (ls_pool_state l) /\
  0 <= proposal_deposits (ls_deposit_pot l) /\
  held (ls_reward_accounts l) + reserves (ls_accounting l) + treasury (ls_accounting l)
    + ss_previous_fee_pot ss + pool_deposits (ls_deposit_pot l) + proposal_deposits (ls_deposit_pot l)
    + ls_utxos_donation l <= I63.
Proof.
  intros [_ _ Ha [_ Hp] Hpp (Hac & _ & Hpr) Hnn Ht _ _]. pose proof (held_nonneg _ Ha).
  pose proof (bt_sum_nonneg rp_deposit _ Hp : 0 <= pools_owed _).
  pose proof (bt_sum_nonneg deposit_of _ Hac : 0 <= actions_owed _).
  unfold boundary_total, pot_total in Ht. split_and!; lia.
Qed.

Lemma settled_spec l epoch ss prev params d :
  boundary_ready l ss -> previous_protocol_params l = Some prev -> epoch_rewards l prev params ss [] = Ok d ->
  settled_ok l (settled l epoch d) ss.
Proof.
  intros Hready Hprev Hd. pose proof (boundary_parts l ss Hready) as (Hh & Ho & Hpr0 & Hsum).
  destruct Hready as [Hpp Hrw Hok Hps Hpot _ (_ & _ & Hr & Ht & Hdon & _ & Hf) _ Hmir Hord].
  specialize (Hord prev params d Hprev Hd).
  destruct (epoch_rewards_total l prev params ss (Hrw prev Hprev) Hr Hf) as
    (d' & Ed & [N1 N2] & Hdelta & Hcut & Hun & Hsplit); [unfold I63, U64_MAX in *; lits; lia|].
  rewrite Hd in Ed. injection Ed as <-.
  assert (HI : 2 * I63 <= U64_MAX) by (unfold I63, U64_MAX; lits; lia).
  pose proof (bt_sum_nonneg id _ N1) as P1. pose proof (bt_sum_nonneg id _ N2) as P2.
  assert (Hpaid : 0 <= paid_out d) by (unfold paid_out; lia).
  unfold settled. clear Hd Hprev Hrw.
  pose proof (distribute_rewards_spec (ls_reward_accounts l) d Hok N2 N1 ltac:(lia)) as Hdist.
  destruct (distribute_rewards (ls_reward_accounts l) d) as [[acc1 n1] lost].
  destruct Hdist as (Hok1 & Hlost & Hh1). pose proof (held_nonneg _ Hok1) as Hn1.
  unfold apply_mir_at_epoch_boundary. cbn [ls_instantaneous_rewards ls_reward_accounts ls_accounting].
  pose proof (apply_mir_spec (ls_instantaneous_rewards l) acc1 (ls_accounting l) Hok1 Hr Ht ltac:(lia) Hmir) as Hm.
  change (ls_instantaneous_rewards (l <| ls_reward_accounts := acc1 |>)) with (ls_instantaneous_rewards l).
  change (ls_accounting (l <| ls_reward_accounts := acc1 |>)) with (ls_accounting l).
  change (ls_reward_accounts (l <| ls_reward_accounts := acc1 |>)) with acc1.
  destruct (apply_mir (ls_instantaneous_rewards l) acc1 (ls_accounting l)) as [[acc2 acct2] mir].
  destruct Hm as (Hok2 & Hr2 & Ht2 & Hsum2 & Hleft). pose proof (held_nonneg _ Hok2) as Hn2. cbn [fst].
  destruct (adopt_future_params_owed (ls_pool_state l) Hps) as [Hps2 Ho2].
  set (l2 := rotate_blocks_made_for_epoch_boundary _).
  change (ls_pool_state l2) with (ls_pool_state l).
  set (l3 := l2 <| ls_pool_state := adopt_future_params (ls_pool_state l) |>).
  pose proof (retire_pools_spec l3 epoch) as Hret.
  change (ls_reward_accounts l3) with acc2 in Hret. change (ls_deposit_pot l3) with (ls_deposit_pot l) in Hret.
  change (ls_pool_state l3) with (adopt_future_params (ls_pool_state l)) in Hret. rewrite Ho2 in Hret.
  specialize (Hret Hok2 Hps2 Hpot ltac:(lia)).
  destruct (retire_pools_with_refunds l3 epoch) as [[[l4 keys] refunded] unclaimed_pool].
  destruct Hret as (pools & creds & acc3 & paid & -> & Hok3 & Hps3 & Hu3 & Hpd & Hpo & Hh3).
  set (l4 := snapshot_previous_protocol_params _).
  destruct (apply_due_money l4 epoch) as [[[D1 D2 D3 D4 D5] M2 M3 M4] Hpp'].
  set (l5 := (apply_due_pending_pparam_updates l4 epoch).1) in *. clearbody l5.
  pose proof (held_nonneg _ Hok3) as Hn3.
  change (ls_accounting l4) with acct2 in *. change (ls_reward_accounts l4) with acc3 in *.
  change (ls_pool_state l4) with pools in *. change (ls_utxos_donation l4) with (ls_utxos_donation l) in *.
  change (ls_deposit_pot l4) with ((ls_deposit_pot l) <| pool_deposits := pool_deposits (ls_deposit_pot l) - paid |>) in *.
  change (ls_governance_actions l4) with (ls_governance_actions l) in *.
  change (ls_multi_era_utxo l4) with (ls_multi_era_utxo l) in *.
  rewrite M3. rewrite settle_pots_spec by lia.
  split; cbn; try (by auto); try congruence; try lia.
  exists paid. rewrite M2, D1, D4. split_and!; try done; lia.
Qed.

(** C5: an epoch boundary neither creates nor destroys lovelace, under the
    conditions of [boundary_ready]: protocol parameters are set and the reward
    parameters, snapshots and counts of blocks are in range; no balance is
    negative, and the pots cover the pool and proposal deposits owed; all the
    amounts add up to at most [2^63]; pending instantaneous rewards are sorted,
    not negative, balanced between the pots and covered; and the reserves cover
    both these rewards and the monetary expansion. Performance is taken from the
    blocks made: the performance map is empty, as both callers in the node pass
    it. Then [apply_epoch_boundary] succeeds, and reserves, treasury, reward accounts,
    deposit pot, donations and fees add up to what they were: rewards, treasury
    cut, pool and proposal refunds, expired proposals, enacted withdrawals and
    donations included. The pots still cover exactly the deposits owed beyond
    what they covered before, and the unspent outputs are untouched. *)
Theorem epoch_boundary_conserves_lovelace l epoch ss :
  boundary_ready l ss ->
  exists l' ss' event, apply_epoch_boundary l epoch ss [] = Ok (l', ss', event) /\ conserved l l' ss ss'.
Proof.
  intros Hready. set (l1 := l <| ls_current_epoch := epoch |>).
  assert (Hready1 : boundary_ready l1 ss).
  { destruct Hready. split; try done. intros prev Hp. destruct (br_rewards0 prev Hp). by split. }
  pose proof (boundary_parts l1 ss Hready1) as (Hh & Ho & Hpr0 & Hsum).
  pose proof (br_pool_pot l1 ss Hready1) as Hpot.
  destruct (br_pots l1 ss Hready1) as (_ & _ & Hr & Ht & Hdon & _ & Hf).
  assert (HI : 2 * I63 <= U64_MAX) by (unfold I63, U64_MAX; lits; lia).
  pose proof (br_params l1 ss Hready1) as Hpp.
  unfold apply_epoch_boundary. fold l1. destruct (ls_protocol_params l1) as [params|] eqn:Epp; [|done].
  assert (Hprev : exists prev, previous_protocol_params l1 = Some prev).
  { unfold previous_protocol_params. rewrite Epp. destruct (ls_previous_protocol_params l1); by eexists. }
  destruct Hprev as [prev Hprev]. rewrite Hprev. cbn [ok_or obind].
  destruct (epoch_rewards_total l1 prev params ss (br_rewards _ _ Hready1 prev Hprev) Hr Hf ltac:(lia)) as (d & Ed & _).
  rewrite Ed. cbn [infallible map_err obind].
  destruct (settled_spec l1 epoch ss prev params d Hready1 Hprev Ed) as [S1 S2 S3 [S4 S4'] S5 S6 S7 (paid & S8 & S9 & S10 & S11)].
  unfold settled in *.
  destruct (distribute_rewards (ls_reward_accounts l1) d) as [[acc1 n1] lost].
  destruct (apply_mir_at_epoch_boundary (l1 <| ls_reward_accounts := acc1 |>)) as [l2 mir]. cbn [fst] in *.
  unfold rotate. set (mark := compute_stake_snapshot _ _ _ _).
  set (ss' := mkSnapshots mark (ss_mark ss) (ss_set ss) 0 (ss_fee_pot ss)).
  destruct (retire_pools_with_refunds _ epoch) as [[[l3 keys] refunded] unclaimed_pool].
  destruct (apply_due_pending_pparam_updates (snapshot_previous_protocol_params l3) epoch) as [l4 applied].
  cbn [fst] in *. set (l5 := l4 <| ls_accounting := _ |>) in *. clearbody l5.
  pose proof (bt_sum_nonneg rp_deposit _ (proj2 S3) : 0 <= pools_owed (ls_pool_state l5)) as Hpo5.
  destruct (br_proposals _ _ Hready1) as (A1 & A2 & A3).
  assert (Eprop : proposal_deposits (ls_deposit_pot l5) = proposal_deposits (ls_deposit_pot l1)) by by rewrite S9.
  destruct (governance_steps_spec l5 epoch ss' (default U64_MAX (drep_activity params)))
    as (l6 & r & ids & a & b & c & Eg & G1 & G2 & G3 & G4 & G5 & G6 & G7 & G8 & G9 & G10 & G11 & G12); try done.
  { unfold proposals_ok. by rewrite S5, Eprop. }
  { by rewrite S6. }
  { unfold wealth. rewrite S6, Eprop. lia. }
  rewrite Eg. cbn [infallible map_err obind].
  do 3 eexists. split; [reflexivity|].
  assert (Edep : pot_total (ls_deposit_pot l6) = pot_total (ls_deposit_pot l1) - paid
    - proposal_deposits (ls_deposit_pot l1) + proposal_deposits (ls_deposit_pot l6)).
  { unfold pot_total. rewrite G8, G9, G10, S9. cbn. lia. }
  assert (Etot : boundary_total l6 ss' = boundary_total l1 ss).
  { unfold boundary_total. subst ss'. cbn [ss_fee_pot ss_previous_fee_pot]. unfold wealth in G12. rewrite G6, Edep. lia. }
  assert (Epool : pool_deposits (ls_deposit_pot l5) = pool_deposits (ls_deposit_pot l1) - paid) by by rewrite S9.
  rewrite S5, Eprop in G11.
  assert (Hc : conserved l1 l6 ss ss').
  { split; try done; rewrite ?G5, ?G9; try done; try lia. congruence. }
  destruct (ls_governance_actions l6); destruct Hc; split; assumption.
Qed.

(** ** An epoch boundary, run *)

Definition account (n : Z) : RewardAccount := mkRewardAccount 1 (AddrKeyHash (replicate 28 n)).
Definition boundary_pool (n : Z) : PoolParams :=
  mkPoolParams (replicate 28 n) (replicate 32 n) 100000000 340000000 (mkUnitInterval 1 50) (account n)
    [replicate 28 n] [] None.
Definition expired_proposal : GovernanceActionState :=
  mkActionState (mkProposal 100000000000 (RewardAccount_to_bytes (account 3)) InfoAction (mkAnchor [] (replicate 32 0)))
    [] (Some 490) (Some 496).
Definition boundary_params : ProtocolParameters :=
  ProtocolParameters_default <| n_opt := 500 |> <| protocol_version := Some (9, 0) |>.
(** A producing pool, a pool that retires, an expired proposal, a pending
    reward from the reserves and a donation. *)
Definition boundary_ledger : LedgerState :=
  mkLedger EraConway 499 (Some 1) [(mkGovActionId (replicate 32 7) 0, expired_proposal)]
    (mkPoolState [(replicate 28 1, mkRegisteredPool (boundary_pool 1) None 500000000);
                  (replicate 28 2, mkRegisteredPool (boundary_pool 2) (Some 500) 500000000)] [])
    [(AddrKeyHash (replicate 28 1), mkCredentialState (Some (replicate 28 1)) None 2000000 None)]
    [] [] [(account 1, mkRewardState 0 None); (account 3, mkRewardState 0 None)]
    ∅ (Some boundary_params) None
    (mkDepositPot 2000000 1000000000 0 100000000000) (mkAccounting 1500000000000000 7000000000000000)
    EnactState_default [] [] [] 1000000000
    (mkInstantaneous [(AddrKeyHash (replicate 28 3), 5000000)] [] 0 0) 5 0
    [] [(replicate 28 1, 40)] 45000000000000000 800 (mkUnitInterval 1 20) None.
Definition boundary_snapshots : StakeSnapshots :=
  mkSnapshots empty_snapshot empty_snapshot
    (mkSnapshot [(AddrKeyHash (replicate 28 1), 60000000000000)]
       [(AddrKeyHash (replicate 28 1), replicate 28 1)] [(replicate 28 1, boundary_pool 1)])
    70000000000 60000000000.

(** A decidable arithmetic fact of closed terms. *)
Ltac closed_fact := unfold u64, U64_MAX; vm_compute; repeat split; discriminate.

Lemma boundary_rewards_ready : rewards_ready boundary_ledger boundary_params boundary_snapshots.
Proof.
  split; [closed_fact|closed_fact|closed_fact|closed_fact|closed_fact|closed_fact|closed_fact| | | |].
  - split; [|closed_fact]. intros cred. unfold stake_get. cbn [boundary_snapshots ss_go sn_stake bt_get].
    destruct (key_eqb _ _); cbn [default]; unfold id; lia.
  - repeat constructor.
  - split; [repeat constructor|apply Forall_singleton; closed_fact|closed_fact|closed_fact|].
    apply Forall_singleton. closed_fact.
  - apply Forall_singleton. split.
    + split; [closed_fact|closed_fact|closed_fact|closed_fact|apply NoDup_singleton].
    + cbv zeta. intros _ _ _ sigma s E1 E2. vm_compute in E1, E2. injection E1 as <-. injection E2 as <-.
      left. closed_fact.
Qed.

Lemma epoch_boundary_conserves_lovelace_witness :
  exists l' ss' event,
    apply_epoch_boundary boundary_ledger 500 boundary_snapshots [] = Ok (l', ss', event) /\
    conserved boundary_ledger l' boundary_snapshots ss'.
Proof.
  apply (epoch_boundary_conserves_lovelace boundary_ledger 500 boundary_snapshots).
  split; [discriminate| | | |closed_fact| |closed_fact|closed_fact| |].
  - intros prev [= <-]. exact boundary_rewards_ready.
  - repeat constructor; discriminate.
  - split; repeat constructor; discriminate.
  - split_and!; [repeat constructor; discriminate|repeat constructor|discriminate].
  - right. split; [split; repeat constructor|split; repeat constructor; discriminate|closed_fact|reflexivity|closed_fact|closed_fact].
  - intros prev params d [= <-] Ed.
    assert (E : epoch_rewards boundary_ledger boundary_params boundary_params boundary_snapshots [] = Ok d) by exact Ed.
    vm_compute in E. injection E as <-. closed_fact.
Defined.

(** Two ways the boundary pays out more than there is. Instantaneous
    rewards are taken from the reserves before the monetary expansion computed
    from the larger reserves is subtracted, and the subtraction saturates: a
    boundary whose pending rewards empty the reserves creates lovelace. And the
    sum that guards a treasury withdrawal wraps: amounts that add up to [2^64]
    pass the guard with an empty treasury and are credited in full. *)
Theorem boundary_overspends :
  (let l := boundary_ledger <| ls_instantaneous_rewards :=
     mkInstantaneous [(AddrKeyHash (replicate 28 3), 7000000000000000)] [] 0 0 |> in
   exists l' ss' event, apply_epoch_boundary l 500 boundary_snapshots [] = Ok (l', ss', event) /\
     mr_pots_insufficient (ev_mir event) = false /\
     boundary_total l' ss' = boundary_total l boundary_snapshots + ev_delta_reserves event /\
     0 < ev_delta_reserves event) /\
  (let a := TreasuryWithdrawals [(account 1, 2 ^ 63); (account 3, 2 ^ 63)] None in
   let l := boundary_ledger <| ls_accounting := mkAccounting 0 0 |> in
   withdrawal_can_withdraw a 0 = true /\
   held (ls_reward_accounts (enact_action l (mkGovActionId (replicate 32 8) 0) a).1) = 2 ^ 64).
Proof.
  cbv zeta. split; [|split; vm_compute; reflexivity].
  set (l := boundary_ledger <| ls_instantaneous_rewards := _ |>).
  destruct (apply_epoch_boundary l 500 boundary_snapshots []) as [[[l' ss'] event]| | |] eqn:E; try (vm_compute in E; discriminate).
  vm_compute in E. injection E as <- <- <-. do 3 eexists. split; [reflexivity|]. split_and!; vm_compute; reflexivity.
Qed.
