(* ===== verification/Certificates.v ===== *)
(** * Certificates and withdrawals

    Model of the delegation, pool and governance-certificate rules of
    [crates/ledger/src/state.rs]: [apply_certificates_and_withdrawals_with_future]
    with its helpers, the pending instantaneous rewards and the genesis
    delegations. A rule that fails returns the error; the caller then drops the
    staged copies of the registries, so the state on failure is not modelled. *)

From stdpp Require Import list gmap.
From S2P Require Import Prelude Cbor Types TypesCodec BTree ProtocolParams Fees WideArith.
From S2P Require Import NativeScript PlutusData Uplc Builtins ScriptContext Utxo.
From S2P Require Import Staking Governance LedgerState EpochBoundary.
Local Open Scope Z_scope.

(** The variants of [LedgerError] these rules return. *)
Inductive CertError :=
  | RewardAccountNotRegistered (account : RewardAccount)
  | WithdrawalExceedsBalance (account : RewardAccount) (requested available : Z)
  | WithdrawalNotFullDrain (account : RewardAccount) (requested balance : Z)
  | ConwayCertificateInPreConwayEra
  | PreConwayCertificateInConwayEra
  | DepositIncorrectDELEG (supplied expected : Z)
  | IncorrectDepositDELEG (supplied expected : Z)
  | RefundIncorrectDELEG (supplied expected : Z)
  | IncorrectKeyDepositRefund (supplied expected : Z)
  | StakeCredentialAlreadyRegistered (c : StakeCredential)
  | StakeCredentialNotRegistered (c : StakeCredential)
  | StakeCredentialHasRewards (c : StakeCredential) (balance : Z)
  | PoolCostTooLow (cost min_pool_cost : Z)
  | PoolMarginInvalid (numerator denominator : Z)
  | PoolRewardAccountNetworkMismatch (actual expected : Z)
  | PoolMetadataUrlTooLong (len : Z)
  | DuplicatePoolOwner (owner : list Z)
  | VrfKeyAlreadyRegistered (pool vrf_key existing_pool : list Z)
  | PoolRetirementTooEarly (retirement_epoch current_epoch : Z)
  | PoolRetirementTooFar (retirement_epoch current_epoch e_max max_epoch : Z)
  | PoolNotRegistered (pool : list Z)
  | DrepIncorrectDeposit (supplied expected : Z)
  | DrepIncorrectRefund (supplied expected : Z)
  | DrepAlreadyRegistered (d : DRep)
  | DrepNotRegistered (d : DRep)
  | DelegateeDRepNotRegistered (d : DRep)
  | CommitteeHasPreviouslyResigned (c : StakeCredential)
  | CommitteeIsUnknown (c : StakeCredential)
  | GenesisKeyNotInMapping (genesis_hash : list Z)
  | DuplicateGenesisDelegate (delegate_hash : list Z)
  | DuplicateGenesisVrf (vrf_hash : list Z)
  | MIRCertificateTooLateInEpoch (slot deadline : Z)
  | MIRNegativesNotCurrentlyAllowed
  | MIRProducesNegativeUpdate
  | MIRInsufficientPotBalance (pot : MirPot) (available required : Z)
  | MIRTransferNotCurrentlyAllowed
  | MIRInsufficientForTransfer (pot : MirPot) (available required : Z).
Abbreviation cert_outcome := (outcome CertError).
(** [if b { return Err(e) }] *)
Definition reject_if (b : bool) (e : CertError) : cert_outcome unit := if b then Err e else Ok tt.

Record MirValidationContext := mkMirContext {
  mc_current_slot : Z;
  mc_mir_deadline_slot : option Z;
  mc_alonzo_mir_transfers : bool;
  mc_reserves : Z;
  mc_treasury : Z;
  mc_instantaneous_rewards : InstantaneousRewards }.

Record CertificateValidationContext := mkCertContext {
  cx_key_deposit : Z;
  cx_pool_deposit : Z;
  cx_min_pool_cost : Z;
  cx_e_max : Z;
  cx_current_epoch : EpochNo;
  cx_expected_network_id : option Z;
  cx_drep_deposit : option Z;
  cx_is_conway : bool;
  cx_bootstrap_phase : bool;
  cx_post_pv10 : bool }.

Definition conway_bootstrap_phase (pv : option (Z * Z)) : bool :=
  match pv with Some (major, _) => major =? 9 | None => false end.
Definition conway_post_pv10 (pv : option (Z * Z)) : bool :=
  match pv with Some (major, _) => 10 <? major | None => false end.
Definition certificate_validation_context (l : LedgerState) : CertificateValidationContext :=
  let is_conway := bool_decide (ls_current_era l = EraConway) in
  let pv := ls_protocol_params l ≫= protocol_version in
  let bootstrap_phase := is_conway && conway_bootstrap_phase pv in
  let post_pv10 := is_conway && conway_post_pv10 pv in
  match ls_protocol_params l with
  | Some p =>
      mkCertContext (key_deposit p) (pool_deposit p) (min_pool_cost p) (e_max p)
        (ls_current_epoch l) (ls_expected_network_id l) (drep_deposit p) is_conway bootstrap_phase
        post_pv10
  | None =>
      mkCertContext 0 0 0 U64_MAX (ls_current_epoch l) (ls_expected_network_id l) None is_conway
        bootstrap_phase post_pv10
  end.

Record CertBalanceAdjustment := mkAdjustment {
  adj_withdrawal_total : Z;
  adj_total_deposits : Z;
  adj_total_refunds : Z }.

(** The registries the rules change, with the running totals. *)
Record CertState := mkCertState {
  ct_pools : PoolState;
  ct_creds : StakeCredentialsMap;
  ct_committee : CommitteeState;
  ct_dreps : DrepState;
  ct_accounts : RewardAccounts;
  ct_pot : DepositPot;
  ct_gen_delegs : list (GenesisHash * GenesisDelegationState);
  ct_future : list (Z * GenesisHash * GenesisDelegationState);
  ct_deposits : Z;
  ct_refunds : Z }.
#[export] Instance CertState_eta : Eta CertState := fun s =>
  mkCertState (ct_pools s) (ct_creds s) (ct_committee s) (ct_dreps s) (ct_accounts s) (ct_pot s)
    (ct_gen_delegs s) (ct_future s) (ct_deposits s) (ct_refunds s).

(** ** Withdrawals *)

Definition drain_withdrawal (st : RewardAccounts * Z) (entry : RewardAccount * Z)
    : cert_outcome (RewardAccounts * Z) :=
  let '(accounts, withdrawal_total) := st in
  let '(account, requested) := entry in
  match find_account_by_credential accounts (ra_credential account) with
  | None => Err (RewardAccountNotRegistered account)
  | Some reward_key =>
      match bt_get reward_key accounts with
      | None => Panic
      | Some state =>
          let available := ras_balance state in
          if available <? requested then Err (WithdrawalExceedsBalance account requested available)
          else if negb (requested =? available)
          then Err (WithdrawalNotFullDrain account requested available)
          else Ok (bt_alter (set_balance (available - requested)) reward_key accounts,
                   sat_add withdrawal_total requested)
      end
  end.
Fixpoint drain_withdrawals (st : RewardAccounts * Z) (entries : list (RewardAccount * Z))
    : cert_outcome (RewardAccounts * Z) :=
  match entries with
  | [] => Ok st
  | e :: entries => let? st := drain_withdrawal st e in drain_withdrawals st entries
  end.

(** ** Stake credentials *)

Definition register_stake_credential (creds : StakeCredentialsMap) (cred : StakeCredential)
    (deposit : Z) (ptr : option (Z * Z * Z)) : cert_outcome StakeCredentialsMap :=
  let '(creds, fresh) := register_with_ptr creds cred deposit ptr in
  if fresh then Ok creds else Err (StakeCredentialAlreadyRegistered cred).
Definition register_reward_account_for_credential (accounts : RewardAccounts)
    (cred : StakeCredential) (expected_network_id : option Z) : RewardAccounts :=
  match expected_network_id with
  | None => accounts
  | Some network =>
      match find_account_by_credential accounts cred with
      | Some _ => accounts
      | None => bt_insert (mkRewardAccount network cred) (mkRewardState 0 None) accounts
      end
  end.

(** [account.credential == credential] *)
Definition belongs_to (cred : StakeCredential) (e : RewardAccount * RewardAccountState) : bool :=
  key_eqb (ra_credential e.1) cred.
Definition unregister_stake_credential (creds : StakeCredentialsMap) (accounts : RewardAccounts)
    (cred : StakeCredential) : cert_outcome (StakeCredentialsMap * RewardAccounts) :=
  if negb (bt_contains cred creds) then Err (StakeCredentialNotRegistered cred)
  else
    let reward_balance :=
      foldl (fun sum s => wrap64 (sum + ras_balance s)) 0
        (bt_values (List.filter (belongs_to cred) accounts)) in
    if negb (reward_balance =? 0) then Err (StakeCredentialHasRewards cred reward_balance)
    else Ok ((unregister creds cred).1, List.filter (fun e => negb (belongs_to cred e)) accounts).

Definition delegate_stake_credential (pools : PoolState) (creds : StakeCredentialsMap)
    (accounts : RewardAccounts) (cred : StakeCredential) (pool : PoolKeyHash)
    (check_pool_registered : bool) : cert_outcome (StakeCredentialsMap * RewardAccounts) :=
  if check_pool_registered && negb (bt_contains pool (pool_entries pools))
  then Err (PoolNotRegistered pool)
  else
    match bt_get cred creds with
    | None => Err (StakeCredentialNotRegistered cred)
    | Some _ =>
        Ok (bt_alter (fun s => s <| sc_delegated_pool := Some pool |>) cred creds,
            (fun e => if belongs_to cred e
                      then (e.1, e.2 <| ras_delegated_pool := Some pool |>) else e) <$> accounts)
    end.

(** ** Committee *)

Definition is_potential_future_member (cold : StakeCredential) (actions : GovernanceActions) : bool :=
  List.existsb (fun s =>
    match gs_action s with
    | UpdateCommittee _ _ members_to_add _ => bt_contains cold members_to_add
    | _ => false
    end) (bt_values actions).
(** The flow [authorize_committee_hot_credential] and
    [resign_committee_cold_credential] share. *)
Definition set_committee_authorization (committee : CommitteeState) (actions : GovernanceActions)
    (cold : StakeCredential) (authorization : CommitteeAuth) : cert_outcome CommitteeState :=
  let resigned := match bt_get cold committee with Some m => is_resigned m | None => false end in
  if resigned then Err (CommitteeHasPreviouslyResigned cold)
  else
    let is_current_member :=
      match bt_get cold committee with Some m => is_some (cm_expires_at m) | None => false end in
    if negb is_current_member && negb (is_potential_future_member cold actions)
    then Err (CommitteeIsUnknown cold)
    else
      let committee :=
        match bt_get cold committee with
        | None => bt_insert cold (mkMember None None) committee
        | Some _ => committee
        end in
      Ok (bt_alter (fun m => m <| cm_authorization := Some authorization |>) cold committee).
Definition authorize_committee_hot_credential (committee : CommitteeState)
    (actions : GovernanceActions) (cold hot : StakeCredential) : cert_outcome CommitteeState :=
  set_committee_authorization committee actions cold (CommitteeHotCredential hot).
Definition resign_committee_cold_credential (committee : CommitteeState)
    (actions : GovernanceActions) (cold : StakeCredential) (anchor : option Anchor)
    : cert_outcome CommitteeState :=
  set_committee_authorization committee actions cold (CommitteeMemberResigned anchor).

(** ** Representatives *)

Definition drep_from_credential (cred : StakeCredential) : DRep :=
  match cred with
  | AddrKeyHash h => DRepKeyHash h
  | ScriptHash h => DRepScriptHash h
  end.
Definition register_drep (dreps : DrepState) (cred : StakeCredential) (deposit : Z)
    (anchor : option Anchor) : cert_outcome DrepState :=
  let drep := drep_from_credential cred in
  let '(dreps, fresh) := drep_register dreps drep (mkRegisteredDrep anchor deposit None) in
  if fresh then Ok dreps else Err (DrepAlreadyRegistered drep).
Definition unregister_drep (dreps : DrepState) (creds : StakeCredentialsMap) (cred : StakeCredential)
    (refund : option Z) : cert_outcome (DrepState * StakeCredentialsMap) :=
  let drep := drep_from_credential cred in
  let? _ :=
    match refund, bt_get drep dreps with
    | Some supplied, Some entry =>
        reject_if (negb (supplied =? rd_deposit entry)) (DrepIncorrectRefund supplied (rd_deposit entry))
    | _, _ => Ok tt
    end in
  match drep_unregister dreps drep with
  | (_, None) => Err (DrepNotRegistered drep)
  | (dreps, Some _) => Ok (dreps, clear_drep_delegation creds drep)
  end.
Definition update_drep (dreps : DrepState) (cred : StakeCredential) (anchor : option Anchor)
    : cert_outcome DrepState :=
  let drep := drep_from_credential cred in
  match bt_get drep dreps with
  | None => Err (DrepNotRegistered drep)
  | Some _ => Ok (bt_alter (fun r => r <| rd_anchor := anchor |>) drep dreps)
  end.
Definition delegate_drep (creds : StakeCredentialsMap) (dreps : DrepState) (cred : StakeCredential)
    (drep : DRep) (bootstrap_phase : bool) : cert_outcome StakeCredentialsMap :=
  match bt_get cred creds with
  | None => Err (StakeCredentialNotRegistered cred)
  | Some _ =>
      if negb bootstrap_phase && negb (is_builtin_drep drep) && negb (bt_contains drep dreps)
      then Err (DelegateeDRepNotRegistered drep)
      else Ok (bt_alter (fun s => s <| sc_delegated_drep := Some drep |>) cred creds)
  end.
Definition touch_drep (current_epoch : EpochNo) (num_dormant_epochs : Z) (bootstrap_phase : bool)
    (dreps : DrepState) (cert : DCert) : DrepState :=
  let touch cred :=
    let dormant := if bootstrap_phase then 0 else num_dormant_epochs in
    bt_alter (touch_activity (sat_sub current_epoch dormant)) (drep_from_credential cred) dreps in
  match cert with
  | DrepRegistration c _ _ => touch c
  | DrepUpdate c _ => touch c
  | _ => dreps
  end.
Definition touch_drep_activity_for_certs (certificates : option (list DCert)) (dreps : DrepState)
    (current_epoch : EpochNo) (num_dormant_epochs : Z) (bootstrap_phase : bool) : DrepState :=
  match certificates with
  | None => dreps
  | Some certs => foldl (touch_drep current_epoch num_dormant_epochs bootstrap_phase) dreps certs
  end.

(** ** Genesis delegation *)

(** The loop that collects stops at the first key beyond the slot. *)
Fixpoint ready_delegations (current_slot : Z)
    (future : list (Z * GenesisHash * GenesisDelegationState))
    : list (Z * GenesisHash * GenesisDelegationState) :=
  match future with
  | [] => []
  | (key, value) :: future =>
      if current_slot <? key.1 then [] else (key, value) :: ready_delegations current_slot future
  end.
Definition apply_scheduled_genesis_delegations
    (gen_delegs : list (GenesisHash * GenesisDelegationState))
    (future : list (Z * GenesisHash * GenesisDelegationState)) (current_slot : Z)
    : list (GenesisHash * GenesisDelegationState) * list (Z * GenesisHash * GenesisDelegationState) :=
  foldl (fun '(gen_delegs, future) '(key, value) =>
    (bt_insert key.2 value gen_delegs, bt_remove key future)) (gen_delegs, future)
    (ready_delegations current_slot future).
Definition schedule_future_genesis_delegation
    (future : list (Z * GenesisHash * GenesisDelegationState)) (activation_slot : Z)
    (genesis_hash : GenesisHash) (delegation : GenesisDelegationState)
    : list (Z * GenesisHash * GenesisDelegationState) :=
  bt_insert (activation_slot, genesis_hash) delegation
    (List.filter (fun e => negb (key_eqb e.1.2 genesis_hash)) future).

(** Another genesis key uses what [field] reads. *)
Definition used_by_other (field : GenesisDelegationState -> list Z) (hash : list Z)
    (genesis_hash : GenesisHash) (st : CertState) : bool :=
  List.existsb (fun e => negb (key_eqb e.1 genesis_hash) && key_eqb (field e.2) hash) (ct_gen_delegs st)
  || List.existsb (fun e => negb (key_eqb e.1.2 genesis_hash) && key_eqb (field e.2) hash) (ct_future st).
Definition delegate_genesis (st : CertState) (genesis_hash delegate_hash vrf_hash : list Z)
    (current_slot : Z) (stability_window : option Z) : cert_outcome CertState :=
  let? _ := reject_if (negb (bt_contains genesis_hash (ct_gen_delegs st)))
              (GenesisKeyNotInMapping genesis_hash) in
  let? _ := reject_if (used_by_other gd_delegate delegate_hash genesis_hash st)
              (DuplicateGenesisDelegate delegate_hash) in
  let? _ := reject_if (used_by_other gd_vrf vrf_hash genesis_hash st) (DuplicateGenesisVrf vrf_hash) in
  let deleg := mkGenesisDelegation delegate_hash vrf_hash in
  Ok match stability_window with
     | Some sw =>
         st <| ct_future := schedule_future_genesis_delegation (ct_future st)
                              (sat_add current_slot sw) genesis_hash deleg |>
     | None => st <| ct_gen_delegs := bt_insert genesis_hash deleg (ct_gen_delegs st) |>
     end.

(** ** Instantaneous rewards *)

Definition sat_i64 (z : Z) : Z := Z.max (- 2 ^ 63) (Z.min z (2 ^ 63 - 1)).
Definition pot_map (ir : InstantaneousRewards) (pot : MirPot) : list (StakeCredential * Z) :=
  match pot with Reserves => ir_reserves ir | Treasury => ir_treasury ir end.
Definition pot_delta (ir : InstantaneousRewards) (pot : MirPot) : Z :=
  match pot with Reserves => delta_reserves ir | Treasury => delta_treasury ir end.
Definition pot_balance (mc : MirValidationContext) (pot : MirPot) : Z :=
  match pot with Reserves => mc_reserves mc | Treasury => mc_treasury mc end.
(** [values().filter(|v| v > 0).map(|v| v as u64).sum()] *)
Definition positive_sum (m : list (StakeCredential * Z)) : Z :=
  foldl (fun sum v => wrap64 (sum + v)) 0 (List.filter (fun v => 0 <? v) (bt_values m)).
Definition with_pot_delta (balance delta : Z) : Z :=
  if 0 <=? delta then sat_add balance delta else sat_sub balance (neg_as_u64 delta).

Definition validate_mir (mc : MirValidationContext) (pot : MirPot) (target : MirTarget)
    : cert_outcome unit :=
  let ir := mc_instantaneous_rewards mc in
  let? _ :=
    match mc_mir_deadline_slot mc with
    | Some deadline =>
        reject_if (deadline <=? mc_current_slot mc)
          (MIRCertificateTooLateInEpoch (mc_current_slot mc) deadline)
    | None => Ok tt
    end in
  match target with
  | StakeCredentials m =>
      let? _ :=
        if negb (mc_alonzo_mir_transfers mc)
        then reject_if (List.existsb (fun e => e.2 <? 0) m) MIRNegativesNotCurrentlyAllowed
        else
          reject_if
            (List.existsb (fun e => sat_i64 (default 0 (bt_get e.1 (pot_map ir pot)) + e.2) <? 0) m)
            MIRProducesNegativeUpdate in
      let total_required := positive_sum (merge_deltas (pot_map ir pot) m) in
      let available :=
        if mc_alonzo_mir_transfers mc then with_pot_delta (pot_balance mc pot) (pot_delta ir pot)
        else pot_balance mc pot in
      reject_if (available <? total_required) (MIRInsufficientPotBalance pot available total_required)
  | SendToOppositePot coin =>
      let? _ := reject_if (negb (mc_alonzo_mir_transfers mc)) MIRTransferNotCurrentlyAllowed in
      let with_delta := with_pot_delta (pot_balance mc pot) (pot_delta ir pot) in
      let available_after := sat_sub with_delta (positive_sum (pot_map ir pot)) in
      reject_if (available_after <? coin) (MIRInsufficientForTransfer pot available_after coin)
  end.

Definition accumulate_mir (ir : InstantaneousRewards) (cert : DCert) : InstantaneousRewards :=
  match cert with
  | MoveInstantaneousReward pot (StakeCredentials m) =>
      match pot with
      | Reserves =>
          mkInstantaneous (merge_deltas (ir_reserves ir) m) (ir_treasury ir) (delta_reserves ir)
            (delta_treasury ir)
      | Treasury =>
          mkInstantaneous (ir_reserves ir) (merge_deltas (ir_treasury ir) m) (delta_reserves ir)
            (delta_treasury ir)
      end
  | MoveInstantaneousReward pot (SendToOppositePot coin) =>
      let signed_coin := wrap_i64 coin in
      match pot with
      | Reserves =>
          mkInstantaneous (ir_reserves ir) (ir_treasury ir) (sat_i64 (delta_reserves ir - signed_coin))
            (sat_i64 (delta_treasury ir + signed_coin))
      | Treasury =>
          mkInstantaneous (ir_reserves ir) (ir_treasury ir) (sat_i64 (delta_reserves ir + signed_coin))
            (sat_i64 (delta_treasury ir - signed_coin))
      end
  | _ => ir
  end.
Definition accumulate_mir_from_certs (ir : InstantaneousRewards) (certs : option (list DCert))
    : InstantaneousRewards :=
  match certs with None => ir | Some certs => foldl accumulate_mir ir certs end.

(** ** One certificate *)

(** The certificates of tags 7 to 18. *)
Definition conway_only (cert : DCert) : bool :=
  match cert with
  | AccountRegistrationDeposit _ _ | AccountUnregistrationDeposit _ _ | DelegationToDrep _ _
  | DelegationToStakePoolAndDrep _ _ _ | AccountRegistrationDelegationToStakePool _ _ _
  | AccountRegistrationDelegationToDrep _ _ _
  | AccountRegistrationDelegationToStakePoolAndDrep _ _ _ _ | CommitteeAuthorization _ _
  | CommitteeResignation _ _ | DrepRegistration _ _ _ | DrepUnregistration _ _ | DrepUpdate _ _ => true
  | _ => false
  end.
Definition pre_conway_only (cert : DCert) : bool :=
  match cert with GenesisDelegation _ _ _ | MoveInstantaneousReward _ _ => true | _ => false end.
Definition era_gate (ctx : CertificateValidationContext) (cert : DCert) : cert_outcome unit :=
  let? _ := reject_if (conway_only cert && negb (cx_is_conway ctx)) ConwayCertificateInPreConwayEra in
  reject_if (pre_conway_only cert && cx_is_conway ctx) PreConwayCertificateInConwayEra.

Definition add_key (deposit : Z) (st : CertState) : CertState :=
  st <| ct_pot := add_key_deposit (ct_pot st) deposit |>
     <| ct_deposits := sat_add (ct_deposits st) deposit |>.
Definition return_key (refund : Z) (st : CertState) : CertState :=
  st <| ct_pot := return_key_deposit (ct_pot st) refund |>
     <| ct_refunds := sat_add (ct_refunds st) refund |>.

Definition register_account (ctx : CertificateValidationContext) (ptr : Z * Z * Z) (st : CertState)
    (cred : StakeCredential) (deposit : Z) : cert_outcome CertState :=
  let? creds := register_stake_credential (ct_creds st) cred deposit (Some ptr) in
  let accounts :=
    register_reward_account_for_credential (ct_accounts st) cred (cx_expected_network_id ctx) in
  Ok (add_key deposit (st <| ct_creds := creds |> <| ct_accounts := accounts |>)).
(** The checks of the Conway registration certificates, and the registration. *)
Definition register_account_deposit (ctx : CertificateValidationContext) (ptr : Z * Z * Z)
    (st : CertState) (cred : StakeCredential) (deposit : Z) : cert_outcome CertState :=
  let? _ :=
    reject_if (cx_is_conway ctx && negb (deposit =? cx_key_deposit ctx))
      (if cx_post_pv10 ctx then DepositIncorrectDELEG deposit (cx_key_deposit ctx)
       else IncorrectDepositDELEG deposit (cx_key_deposit ctx)) in
  let? _ :=
    reject_if (cx_is_conway ctx && bt_contains cred (ct_creds st))
      (StakeCredentialAlreadyRegistered cred) in
  if negb (bt_contains cred (ct_creds st)) then register_account ctx ptr st cred deposit else Ok st.
Definition unregister_account (st : CertState) (cred : StakeCredential) (refund : Z)
    : cert_outcome CertState :=
  let? r := unregister_stake_credential (ct_creds st) (ct_accounts st) cred in
  let '(creds, accounts) := r in
  Ok (return_key refund (st <| ct_creds := creds |> <| ct_accounts := accounts |>)).
Definition unregister_account_deposit (ctx : CertificateValidationContext) (st : CertState)
    (cred : StakeCredential) (refund : Z) : cert_outcome CertState :=
  let raw_stored := match bt_get cred (ct_creds st) with Some s => sc_deposit s | None => 0 end in
  let expected_deposit := if 0 <? raw_stored then raw_stored else cx_key_deposit ctx in
  let? _ :=
    reject_if (cx_is_conway ctx && negb (refund =? expected_deposit))
      (if cx_post_pv10 ctx then RefundIncorrectDELEG refund expected_deposit
       else IncorrectKeyDepositRefund refund expected_deposit) in
  unregister_account st cred refund.
Definition delegate_to_pool (st : CertState) (cred : StakeCredential) (pool : PoolKeyHash)
    : cert_outcome CertState :=
  let? r := delegate_stake_credential (ct_pools st) (ct_creds st) (ct_accounts st) cred pool true in
  let '(creds, accounts) := r in
  Ok (st <| ct_creds := creds |> <| ct_accounts := accounts |>).
Definition delegate_to_drep (ctx : CertificateValidationContext) (st : CertState)
    (cred : StakeCredential) (drep : DRep) : cert_outcome CertState :=
  let? creds := delegate_drep (ct_creds st) (ct_dreps st) cred drep (cx_bootstrap_phase ctx) in
  Ok (st <| ct_creds := creds |>).

Fixpoint first_duplicate (seen : list (list Z)) (owners : list (list Z)) : option (list Z) :=
  match owners with
  | [] => None
  | owner :: owners =>
      if List.existsb (key_eqb owner) seen then Some owner
      else first_duplicate (owner :: seen) owners
  end.
Definition check_vrf_key (ctx : CertificateValidationContext) (pools : PoolState) (params : PoolParams)
    : cert_outcome unit :=
  if cx_post_pv10 ctx then
    let is_new := negb (bt_contains (operator params) (pool_entries pools)) in
    match find_pool_by_vrf_key pools (vrf_keyhash params) with
    | Some existing =>
        reject_if (is_new || negb (key_eqb existing (operator params)))
          (VrfKeyAlreadyRegistered (operator params) (vrf_keyhash params) existing)
    | None => Ok tt
    end
  else Ok tt.
Definition register_pool (ctx : CertificateValidationContext) (st : CertState) (params : PoolParams)
    : cert_outcome CertState :=
  let? _ := reject_if (cost params <? cx_min_pool_cost ctx)
              (PoolCostTooLow (cost params) (cx_min_pool_cost ctx)) in
  let? _ := reject_if ((denominator (margin params) =? 0)
                       || (denominator (margin params) <? numerator (margin params)))
              (PoolMarginInvalid (numerator (margin params)) (denominator (margin params))) in
  let? _ :=
    match cx_expected_network_id ctx with
    | Some expected =>
        reject_if (negb (ra_network (reward_account params) =? expected))
          (PoolRewardAccountNetworkMismatch (ra_network (reward_account params)) expected)
    | None => Ok tt
    end in
  let? _ :=
    match pool_metadata params with
    | Some metadata =>
        reject_if (64 <? zlength (pm_url metadata)) (PoolMetadataUrlTooLong (zlength (pm_url metadata)))
    | None => Ok tt
    end in
  let? _ :=
    match first_duplicate [] (pool_owners params) with
    | Some owner => Err (DuplicatePoolOwner owner)
    | None => Ok tt
    end in
  let? _ := check_vrf_key ctx (ct_pools st) params in
  let is_new := negb (bt_contains (operator params) (pool_entries (ct_pools st))) in
  let st := st <| ct_pools := pool_register_with_deposit (ct_pools st) params (cx_pool_deposit ctx) |> in
  Ok (if is_new
      then st <| ct_pot := add_pool_deposit (ct_pot st) (cx_pool_deposit ctx) |>
              <| ct_deposits := sat_add (ct_deposits st) (cx_pool_deposit ctx) |>
      else st).
Definition retire_pool (ctx : CertificateValidationContext) (st : CertState) (pool : PoolKeyHash)
    (epoch : EpochNo) : cert_outcome CertState :=
  let? _ := reject_if (epoch <=? cx_current_epoch ctx)
              (PoolRetirementTooEarly epoch (cx_current_epoch ctx)) in
  let max_epoch := sat_add (cx_current_epoch ctx) (cx_e_max ctx) in
  let? _ := reject_if (max_epoch <? epoch)
              (PoolRetirementTooFar epoch (cx_current_epoch ctx) (cx_e_max ctx) max_epoch) in
  let '(pools, found) := pool_retire (ct_pools st) pool epoch in
  if found then Ok (st <| ct_pools := pools |>) else Err (PoolNotRegistered pool).

Definition register_representative (ctx : CertificateValidationContext) (st : CertState)
    (cred : StakeCredential) (deposit : Z) (anchor : option Anchor) : cert_outcome CertState :=
  let? _ :=
    match cx_drep_deposit ctx with
    | Some expected => reject_if (negb (deposit =? expected)) (DrepIncorrectDeposit deposit expected)
    | None => Ok tt
    end in
  let? dreps := register_drep (ct_dreps st) cred deposit anchor in
  Ok (st <| ct_dreps := dreps |> <| ct_pot := add_drep_deposit (ct_pot st) deposit |>
         <| ct_deposits := sat_add (ct_deposits st) deposit |>).
Definition unregister_representative (st : CertState) (cred : StakeCredential) (refund : Z)
    : cert_outcome CertState :=
  let? r := unregister_drep (ct_dreps st) (ct_creds st) cred (Some refund) in
  let '(dreps, creds) := r in
  Ok (st <| ct_dreps := dreps |> <| ct_creds := creds |>
         <| ct_pot := return_drep_deposit (ct_pot st) refund |>
         <| ct_refunds := sat_add (ct_refunds st) refund |>).

Section rules.
Context (ctx : CertificateValidationContext) (governance_actions : GovernanceActions)
  (current_slot tx_index : Z) (stability_window : option Z) (mir_ctx : option MirValidationContext).

Definition apply_certificate (cert_index : Z) (st : CertState) (cert : DCert)
    : cert_outcome CertState :=
  let ptr := (current_slot, tx_index, cert_index) in
  let? _ := era_gate ctx cert in
  match cert with
  | AccountRegistration cred => register_account ctx ptr st cred (cx_key_deposit ctx)
  | AccountRegistrationDeposit cred deposit => register_account_deposit ctx ptr st cred deposit
  | AccountUnregistration cred => unregister_account st cred (cx_key_deposit ctx)
  | AccountUnregistrationDeposit cred refund => unregister_account_deposit ctx st cred refund
  | DelegationToStakePool cred pool => delegate_to_pool st cred pool
  | AccountRegistrationDelegationToStakePool cred pool deposit =>
      let? st := register_account_deposit ctx ptr st cred deposit in
      delegate_to_pool st cred pool
  | DelegationToDrep cred drep => delegate_to_drep ctx st cred drep
  | DelegationToStakePoolAndDrep cred pool drep =>
      let? st := delegate_to_pool st cred pool in
      delegate_to_drep ctx st cred drep
  | AccountRegistrationDelegationToDrep cred drep deposit =>
      let? st := register_account_deposit ctx ptr st cred deposit in
      delegate_to_drep ctx st cred drep
  | AccountRegistrationDelegationToStakePoolAndDrep cred pool drep deposit =>
      let? st := register_account_deposit ctx ptr st cred deposit in
      let? st := delegate_to_pool st cred pool in
      delegate_to_drep ctx st cred drep
  | CommitteeAuthorization cold hot =>
      let? committee := authorize_committee_hot_credential (ct_committee st) governance_actions cold hot in
      Ok (st <| ct_committee := committee |>)
  | CommitteeResignation cold anchor =>
      let? committee := resign_committee_cold_credential (ct_committee st) governance_actions cold anchor in
      Ok (st <| ct_committee := committee |>)
  | PoolRegistration params => register_pool ctx st params
  | PoolRetirement pool epoch => retire_pool ctx st pool epoch
  | DrepRegistration cred deposit anchor => register_representative ctx st cred deposit anchor
  | DrepUnregistration cred refund => unregister_representative st cred refund
  | DrepUpdate cred anchor =>
      let? dreps := update_drep (ct_dreps st) cred anchor in
      Ok (st <| ct_dreps := dreps |>)
  | GenesisDelegation genesis_hash delegate_hash vrf_hash =>
      delegate_genesis st genesis_hash delegate_hash vrf_hash current_slot stability_window
  | MoveInstantaneousReward pot target =>
      let? _ := match mir_ctx with Some mc => validate_mir mc pot target | None => Ok tt end in
      Ok st
  end.

Fixpoint apply_certificates (cert_index : Z) (st : CertState) (certs : list DCert)
    : cert_outcome CertState :=
  match certs with
  | [] => Ok st
  | cert :: certs =>
      let? st := apply_certificate cert_index st cert in
      apply_certificates (cert_index + 1) st certs
  end.

(** The totals start at zero. *)
Definition apply_certificates_and_withdrawals_with_future (st : CertState)
    (certificates : option (list DCert)) (withdrawals : option (list (RewardAccount * Z)))
    : cert_outcome (CertState * CertBalanceAdjustment) :=
  let? r := drain_withdrawals (ct_accounts st, 0) (default [] withdrawals) in
  let '(accounts, withdrawal_total) := r in
  let st := st <| ct_accounts := accounts |> <| ct_deposits := 0 |> <| ct_refunds := 0 |> in
  let? st := apply_certificates 0 st (default [] certificates) in
  Ok (st, mkAdjustment withdrawal_total (ct_deposits st) (ct_refunds st)).
End rules.

(** Without block context: no schedule, no pointers, no check of instantaneous
    rewards. *)
Definition apply_certificates_and_withdrawals (ctx : CertificateValidationContext)
    (governance_actions : GovernanceActions) (st : CertState) (certificates : option (list DCert))
    (withdrawals : option (list (RewardAccount * Z))) : cert_outcome (CertState * CertBalanceAdjustment) :=
  apply_certificates_and_withdrawals_with_future ctx governance_actions 0 0 None None
    (st <| ct_future := [] |>) certificates withdrawals.
