(* ===== verification/CertificateFacts.v ===== *)
(** * What certificates and withdrawals preserve

    The rules of [Certificates] keep the registries consistent: the deposit pot
    holds exactly the deposits recorded in the registries, delegations point to
    registered pools and representatives, reward accounts belong to registered
    credentials. Together with the balance of the transaction, the lovelace of
    outputs, deposits and reward accounts is conserved. *)

From stdpp Require Import list gmap.
From S2P Require Import Prelude Cbor Types TypesCodec BTree ProtocolParams Fees WideArith.
From S2P Require Import NativeScript PlutusData Uplc Builtins ScriptContext Utxo UtxoBalance.
From S2P Require Import Staking RewardsFacts Governance LedgerState EpochBoundary EpochFacts EpochConservation.
From S2P Require Import Certificates.
Local Open Scope Z_scope.
#[local] Arguments bt_sum : simpl never.
#[local] Arguments lsum : simpl never.
#[local] Arguments sat_add : simpl never.
#[local] Arguments sat_sub : simpl never.
#[local] Arguments bt_insert : simpl never.
#[local] Arguments bt_alter : simpl never.
#[local] Arguments bt_remove : simpl never.
#[local] Arguments bt_contains : simpl never.

(** ** Postconditions *)

(** The computation does not panic, and a result satisfies [Q]. *)
Definition ensures {A} (m : cert_outcome A) (Q : A -> Prop) : Prop :=
  match m with Ok a => Q a | Err _ => True | _ => False end.

Lemma ensures_bind {A B} (m : cert_outcome A) (k : A -> cert_outcome B) P Q :
  ensures m P -> (forall a, P a -> ensures (k a) Q) -> ensures (obind m k) Q.
Proof. destruct m; cbn; auto. Qed.
Lemma ensures_mono {A} (m : cert_outcome A) (P Q : A -> Prop) :
  (forall a, P a -> Q a) -> ensures m P -> ensures m Q.
Proof. destruct m; cbn; auto. Qed.
Lemma ensures_reject b e : ensures (reject_if b e) (fun _ => b = false).
Proof. by destruct b. Qed.
Lemma ensures_inv {A} (m : cert_outcome A) Q a : ensures m Q -> m = Ok a -> Q a.
Proof. intros H E. by rewrite E in H. Qed.

(** Step over a check. *)
Ltac check H := eapply ensures_bind; [apply ensures_reject|]; intros [] H; cbn beta in H.

(** ** Maps *)

Section maps.
Context {K V : Type} `{OrdKey K}.
Implicit Types (m : list (K * V)).
Lemma contains_insert k k' v m : bt_contains k m = true -> bt_contains k (bt_insert k' v m) = true.
Proof.
  unfold bt_contains. destruct (key_eqb_reflect k k') as [->|Hne]; [by rewrite bt_get_insert|].
  by rewrite bt_get_insert_ne.
Qed.
Lemma contains_insert_self k v m : bt_contains k (bt_insert k v m) = true.
Proof. unfold bt_contains. by rewrite bt_get_insert. Qed.
Lemma contains_alter f k k' m : bt_contains k (bt_alter f k' m) = bt_contains k m.
Proof.
  unfold bt_contains. destruct (key_eqb_reflect k k') as [->|Hne].
  - rewrite bt_get_alter. by destruct (bt_get k' m).
  - by rewrite bt_get_alter_ne.
Qed.
Lemma contains_remove k k' m : k <> k' -> bt_contains k (bt_remove k' m) = bt_contains k m.
Proof. intros Hne. unfold bt_contains. by rewrite bt_get_remove_ne. Qed.
Lemma get_map_values (f : V -> V) k m : bt_get k (map_values f m) = f <$> bt_get k m.
Proof. induction m as [|[k' v] m IH]; [done|]. cbn. by destruct (key_eqb k k'). Qed.
Lemma contains_map_values (f : V -> V) k m : bt_contains k (map_values f m) = bt_contains k m.
Proof. unfold bt_contains. rewrite get_map_values. by destruct (bt_get k m). Qed.
Lemma map_values_sorted (f : V -> V) m : bt_sorted m -> bt_sorted (map_values f m).
Proof.
  rewrite !bt_sorted_keys. replace (bt_keys (map_values f m)) with (bt_keys m); [done|].
  unfold bt_keys, map_values. rewrite <- list_fmap_compose. by apply list_fmap_ext.
Qed.
Lemma map_values_sum (g : V -> Z) (f : V -> V) m :
  (forall v, g (f v) = g v) -> bt_sum g (map_values f m) = bt_sum g m.
Proof.
  intros Hf. induction m as [|[k v] m IH]; [done|].
  change (map_values f ((k, v) :: m)) with ((k, f v) :: map_values f m). by rewrite !bt_sum_cons, IH, Hf.
Qed.
Lemma fresh_insert_sum (g : V -> Z) k v m :
  bt_contains k m = false -> bt_sum g (bt_insert k v m) = bt_sum g m + g v.
Proof.
  unfold bt_contains, bt_insert. induction m as [|[k' v'] m IH]; cbn [bt_get btree_insert]; intros Hc.
  { rewrite bt_sum_cons. lia. }
  unfold key_eqb in Hc. destruct (key_compare k k'); [done|..]; rewrite !bt_sum_cons; [lia|]. rewrite IH by done. lia.
Qed.
Lemma contains_get k m : bt_contains k m = true -> exists v, bt_get k m = Some v.
Proof. unfold bt_contains. destruct (bt_get k m); [by eexists|done]. Qed.
End maps.
#[export] Hint Resolve contains_insert contains_insert_self map_values_sorted : btree.

(** ** The invariant *)

(** A credential paid the deposit and delegates to what is registered. *)
Record cred_ok (ctx : CertificateValidationContext) (pools : PoolState) (dreps : DrepState)
    (s : StakeCredentialState) : Prop := {
  co_deposit : sc_deposit s = cx_key_deposit ctx;
  co_pool : forall p, sc_delegated_pool s = Some p -> bt_contains p (pool_entries pools) = true;
  co_drep : forall d, cx_bootstrap_phase ctx = false -> sc_delegated_drep s = Some d ->
    is_builtin_drep d || bt_contains d dreps = true }.

Record registry_ok (ctx : CertificateValidationContext) (st : CertState) : Prop := {
  ro_sorted : bt_sorted (ct_creds st) /\ bt_sorted (ct_dreps st) /\ bt_sorted (pool_entries (ct_pools st));
  ro_creds : Forall (fun e => cred_ok ctx (ct_pools st) (ct_dreps st) e.2) (ct_creds st);
  ro_pools : Forall (fun e => 0 <= rp_deposit e.2) (pool_entries (ct_pools st));
  ro_dreps : Forall (fun e => 0 <= rd_deposit e.2) (ct_dreps st);
  ro_accounts : accounts_ok (ct_accounts st);
  ro_owners : Forall (fun e => bt_contains (ra_credential e.1) (ct_creds st) = true) (ct_accounts st);
  ro_pots : key_deposits (ct_pot st) = bt_sum sc_deposit (ct_creds st) /\
    pool_deposits (ct_pot st) = pools_owed (ct_pools st) /\
    drep_deposits (ct_pot st) = bt_sum rd_deposit (ct_dreps st) /\
    0 <= proposal_deposits (ct_pot st) }.

(** What the pot held when the totals were zero. *)
Definition balance (st : CertState) : Z := pot_total (ct_pot st) + ct_refunds st - ct_deposits st.
(** The invariant of the loop, with [room] left for deposits. *)
Record loop_ok (ctx : CertificateValidationContext) (room : Z) (st : CertState) : Prop := {
  lo_registry : registry_ok ctx st;
  lo_totals : 0 <= ct_deposits st /\ 0 <= ct_refunds st /\ 0 <= balance st;
  lo_room : pot_total (ct_pot st) + ct_refunds st + room <= U64_MAX;
  lo_held : held (ct_accounts st) <= U64_MAX }.
Definition evolves (ctx : CertificateValidationContext) (room : Z) (st st' : CertState) : Prop :=
  loop_ok ctx room st' /\ balance st' = balance st /\
  held (ct_accounts st') = held (ct_accounts st) /\
  proposal_deposits (ct_pot st') = proposal_deposits (ct_pot st).

Lemma evolves_trans ctx r1 r2 st1 st2 st3 :
  evolves ctx r1 st1 st2 -> evolves ctx r2 st2 st3 -> evolves ctx r2 st1 st3.
Proof. intros (_ & H1 & H2 & H3) (H4 & H5 & H6 & H7). split; [done|]. split_and!; congruence. Qed.
Lemma loop_ok_weaken ctx room room' st : room' <= room -> loop_ok ctx room st -> loop_ok ctx room' st.
Proof. intros Hr []. split; try done. lia. Qed.
Lemma registry_pot_nonneg ctx st :
  0 <= cx_key_deposit ctx -> registry_ok ctx st ->
  0 <= key_deposits (ct_pot st) /\ 0 <= pool_deposits (ct_pot st) /\ 0 <= drep_deposits (ct_pot st) /\
  0 <= proposal_deposits (ct_pot st).
Proof.
  intros Hk [_ Hc Hp Hd _ _ (E1 & E2 & E3 & E4)]. rewrite E1, E2, E3. split_and!; try apply bt_sum_nonneg; try done.
  eapply Forall_impl; [exact Hc|]. intros e [-> _ _]. done.
Qed.

(** ** Accounts *)

Lemma find_account_in accounts cred a :
  find_account_by_credential accounts cred = Some a -> a ∈ bt_keys accounts /\ ra_credential a = cred.
Proof.
  unfold find_account_by_credential. intros [Hin E]%List.find_some.
  split; [by apply list_elem_of_In|by apply key_eqb_spec].
Qed.
Lemma find_account_none accounts cred n :
  find_account_by_credential accounts cred = None -> bt_contains (mkRewardAccount n cred) accounts = false.
Proof.
  unfold find_account_by_credential, bt_contains. intros Hf.
  destruct (bt_get (mkRewardAccount n cred) accounts) as [s|] eqn:E; [|done]. exfalso.
  apply bt_get_elem in E. assert (Hin : List.In (mkRewardAccount n cred) (bt_keys accounts)).
  { apply list_elem_of_In, list_elem_of_fmap. by exists (mkRewardAccount n cred, s). }
  apply (List.find_none _ _ Hf) in Hin. cbn [ra_credential] in Hin. by rewrite key_eqb_refl in Hin.
Qed.

(** Nothing but registrations of [creds] and a credential owns the accounts. *)
Definition owners_in (creds : StakeCredentialsMap) (accounts : RewardAccounts) : Prop :=
  Forall (fun e => bt_contains (ra_credential e.1) creds = true) accounts.

Lemma register_reward_account_spec accounts (creds : StakeCredentialsMap) cred network s :
  accounts_ok accounts -> owners_in creds accounts ->
  let accounts' := register_reward_account_for_credential accounts cred network in
  accounts_ok accounts' /\ owners_in (bt_insert cred s creds) accounts' /\ held accounts' = held accounts.
Proof.
  intros Hok Hown. cbv zeta.
  assert (Hown' : owners_in (bt_insert cred s creds) accounts).
  { eapply Forall_impl; [exact Hown|]. intros e. apply contains_insert. }
  unfold register_reward_account_for_credential. destruct network as [n|]; [|done].
  destruct (find_account_by_credential accounts cred) eqn:Ef; [done|].
  pose proof (find_account_none accounts cred n Ef) as Hc. split_and!.
  - apply (bt_insert_Forall (fun s => 0 <= ras_balance s)); done.
  - apply (bt_insert_forall (fun a => bt_contains (ra_credential a) (bt_insert cred s creds) = true)); [|done].
    apply contains_insert_self.
  - unfold held. rewrite fresh_insert_sum by done. cbn [ras_balance]. lia.
Qed.

Lemma wrapped_values_sum {K} (f : RewardAccountState -> Z) (m : list (K * RewardAccountState)) :
  Forall (fun e => 0 <= f e.2) m -> bt_sum f m <= U64_MAX ->
  foldl (fun sum s => wrap64 (sum + f s)) 0 (bt_values m) = bt_sum f m.
Proof.
  intros Hm Hb. pose proof (wrapped_sum_exact ((fun e => (e.1, f e.2)) <$> m)) as H.
  assert (Es : bt_sum id ((fun e => (e.1, f e.2)) <$> m) = bt_sum f m).
  { clear. induction m as [|[k v] m IH]; [done|]. cbn [fmap list_fmap fst snd].
    rewrite !bt_sum_cons. rewrite <- IH. done. }
  rewrite <- Es, <- H; [|by apply Forall_fmap|lia].
  clear. unfold bt_values. generalize 0. induction m as [|[k v] m IH]; intros z; [done|]. cbn. apply IH.
Qed.
Lemma split_sum {K V} (f : V -> Z) (p : K * V -> bool) m :
  bt_sum f m = bt_sum f (List.filter p m) + bt_sum f (List.filter (fun e => negb (p e)) m).
Proof.
  induction m as [|[k v] m IH]; [done|]. cbn [List.filter]. rewrite bt_sum_cons, IH.
  destruct (p (k, v)); cbn [negb]; rewrite bt_sum_cons; lia.
Qed.

Lemma unregister_spec ctx creds accounts cred :
  accounts_ok accounts -> owners_in creds accounts -> held accounts <= U64_MAX ->
  Forall (fun e => sc_deposit e.2 = cx_key_deposit ctx) creds ->
  ensures (unregister_stake_credential creds accounts cred) (fun '(creds', accounts') =>
    creds' = bt_remove cred creds /\ bt_sum sc_deposit creds' = bt_sum sc_deposit creds - cx_key_deposit ctx /\
    accounts_ok accounts' /\ owners_in creds' accounts' /\ held accounts' = held accounts).
Proof.
  intros Hok Hown Hh Hdep. unfold unregister_stake_credential.
  destruct (bt_contains cred creds) eqn:Ec; cbn [negb]; [|done].
  assert (Hf : accounts_ok (List.filter (belongs_to cred) accounts))
    by (eapply Forall_sublist_of; [apply filter_sublist|done]).
  assert (Hg : accounts_ok (List.filter (fun e => negb (belongs_to cred e)) accounts))
    by (eapply Forall_sublist_of; [apply filter_sublist|done]).
  pose proof (split_sum ras_balance (belongs_to cred) accounts) as Hsplit.
  pose proof (held_nonneg _ Hf). pose proof (held_nonneg _ Hg). unfold held in *.
  rewrite (wrapped_values_sum ras_balance) by (done || lia).
  destruct (Z.eqb_spec (bt_sum ras_balance (List.filter (belongs_to cred) accounts)) 0) as [E0|]; cbn [negb]; [|done].
  cbn [ensures unregister fst]. apply contains_get in Ec as [s Es]. split_and!; [done| |done| |lia].
  - rewrite (bt_sum_remove _ _ _ _ Es). apply bt_get_elem in Es.
    rewrite (proj1 (Forall_forall _ _) Hdep _ Es : sc_deposit s = cx_key_deposit ctx). done.
  - apply Forall_forall. intros e He. apply list_elem_of_In, List.filter_In in He as [He Hn].
    rewrite contains_remove; [exact (proj1 (Forall_forall _ _) Hown _ (proj2 (list_elem_of_In _ _) He))|].
    intros Eq. unfold belongs_to in Hn. by rewrite Eq, key_eqb_refl in Hn.
Qed.

(** ** Registration and deregistration *)

Ltac open_state st :=
  destruct st as [pools creds committee dreps accounts pot gd fut dep ref];
  cbn [ct_pools ct_creds ct_committee ct_dreps ct_accounts ct_pot ct_gen_delegs ct_future ct_deposits ct_refunds] in *.

Section rules.
Context (ctx : CertificateValidationContext).
Context (Hkey : 0 <= cx_key_deposit ctx) (Hpool : 0 <= cx_pool_deposit ctx).
Abbreviation kd := (cx_key_deposit ctx).

Lemma register_account_spec ptr st cred room :
  0 <= room -> loop_ok ctx (kd + room) st -> ensures (register_account ctx ptr st cred kd) (evolves ctx room st).
Proof using Hkey.
  intros Hroom [Hreg Htot Hr Hh]. pose proof (registry_pot_nonneg ctx st Hkey Hreg) as Hnn.
  destruct Hreg as [(S1 & S2 & S3) Hc Hp Hd Ha Ho (E1 & E2 & E3 & E4)].
  unfold register_account, register_stake_credential, register_with_ptr.
  destruct (bt_contains cred (ct_creds st)) eqn:Ec; [done|]. cbn [obind ensures].
  destruct (register_reward_account_spec (ct_accounts st) (ct_creds st) cred (cx_expected_network_id ctx)
    (mkCredentialState None None kd (Some ptr)) Ha Ho) as (R1 & R2 & R3).
  set (accounts' := register_reward_account_for_credential _ _ _) in *. clearbody accounts'.
  pose proof (fresh_insert_sum sc_deposit cred (mkCredentialState None None kd (Some ptr)) _ Ec) as Es.
  unfold evolves, balance, pot_total in *. open_state st. destruct pot as [p1 p2 p3 p4]. cbn in *.
  assert (Es1 : sat_add p1 kd = p1 + kd) by (unfold sat_add; lia).
  assert (Es2 : sat_add dep kd = dep + kd) by (unfold sat_add; lia).
  split_and!; [split; unfold balance, pot_total; cbn|..]; try (rewrite ?Es1, ?Es2; lia).
  split; unfold pools_owed; cbn; try done.
  - split_and!; try done. by apply bt_insert_sorted.
  - apply (bt_insert_Forall (cred_ok ctx pools dreps)); [|done]. by split.
  - rewrite Es1. split_and!; try done. lia.
Qed.

Lemma unregister_account_spec st cred room :
  0 <= room -> loop_ok ctx room st -> ensures (unregister_account st cred kd) (evolves ctx room st).
Proof using Hkey.
  intros Hroom [Hreg Htot Hr Hh]. pose proof (registry_pot_nonneg ctx st Hkey Hreg) as Hnn.
  destruct Hreg as [(S1 & S2 & S3) Hc Hp Hd Ha Ho (E1 & E2 & E3 & E4)]. unfold unregister_account.
  eapply ensures_bind.
  { apply (unregister_spec ctx); [done|done|done|]. eapply Forall_impl; [exact Hc|]. by intros e []. }
  intros [creds' accounts'] (-> & U1 & U2 & U3 & U4). cbn [ensures].
  assert (Hle : 0 <= bt_sum sc_deposit (bt_remove cred (ct_creds st))).
  { apply bt_sum_nonneg. eapply Forall_sublist_of; [apply bt_remove_sublist|].
    eapply Forall_impl; [exact Hc|]. intros e [Hdep _ _]. by rewrite Hdep. }
  unfold evolves, balance, pot_total in *. open_state st. destruct pot as [p1 p2 p3 p4]. cbn in *.
  assert (Es1 : sat_sub p1 kd = p1 - kd) by (unfold sat_sub; lia).
  assert (Es2 : sat_add ref kd = ref + kd) by (unfold sat_add; lia).
  split_and!; [split; unfold balance, pot_total; cbn|..]; try (rewrite ?Es1, ?Es2; lia).
  split; unfold pools_owed; cbn; try done.
  - split_and!; try done. by apply bt_remove_sorted.
  - eapply Forall_sublist_of; [apply bt_remove_sublist|done].
  - rewrite Es1. split_and!; try done. lia.
Qed.

(** Only the delegations change. *)
Lemma delegation_evolves st f cred accounts' room :
  loop_ok ctx room st -> (forall s, sc_deposit (f s) = sc_deposit s) ->
  (forall s, cred_ok ctx (ct_pools st) (ct_dreps st) s -> cred_ok ctx (ct_pools st) (ct_dreps st) (f s)) ->
  accounts_ok accounts' -> bt_keys accounts' = bt_keys (ct_accounts st) ->
  held accounts' = held (ct_accounts st) ->
  evolves ctx room st (st <| ct_creds := bt_alter f cred (ct_creds st) |> <| ct_accounts := accounts' |>).
Proof using Type.
  intros [[(S1 & S2 & S3) Hc Hp Hd Ha Ho (E1 & E2 & E3 & E4)] Htot Hr Hh] Hf Hok Ha' Hk Hhe.
  unfold evolves, balance in *. open_state st. split_and!; try done. split; [split|..]; cbn; try done; try lia.
  - split_and!; try done. by apply bt_alter_sorted.
  - by apply (bt_alter_Forall (cred_ok ctx pools dreps)).
  - assert (Hall : Forall (fun a => bt_contains (ra_credential a) creds = true) (bt_keys accounts')).
    { rewrite Hk. by apply Forall_fmap. }
    apply Forall_fmap in Hall. eapply Forall_impl; [exact Hall|]. intros e He. cbn beta in *.
    by rewrite contains_alter.
  - split_and!; try done. by rewrite bt_sum_alter_same.
Qed.

Lemma redelegated accounts cred pool :
  accounts_ok accounts ->
  let accounts' := (fun e => if belongs_to cred e then (e.1, e.2 <| ras_delegated_pool := Some pool |>) else e) <$> accounts in
  accounts_ok accounts' /\ bt_keys accounts' = bt_keys accounts /\ held accounts' = held accounts.
Proof using Type.
  intros Hok. cbv zeta. unfold held, bt_keys. induction Hok as [|[a s] l Hs Hl (IH1 & IH2 & IH3)]; [split_and!; [constructor|done..]|].
  cbn [fmap list_fmap]. split_and!.
  - constructor; [|exact IH1]. by destruct (belongs_to cred (a, s)).
  - f_equal; [by destruct (belongs_to cred (a, s))|exact IH2].
  - rewrite bt_sum_cons, <- IH3. by destruct (belongs_to cred (a, s)).
Qed.
Lemma delegate_to_pool_spec st cred pool room :
  loop_ok ctx room st -> ensures (delegate_to_pool st cred pool) (evolves ctx room st).
Proof using Type.
  intros Hok. unfold delegate_to_pool, delegate_stake_credential. cbn [andb].
  destruct (bt_contains pool (pool_entries (ct_pools st))) eqn:Ep; cbn [negb]; [|done].
  destruct (bt_get cred (ct_creds st)); [|done]. cbn [obind ensures].
  destruct (redelegated (ct_accounts st) cred pool (ro_accounts _ _ (lo_registry _ _ _ Hok))) as (R1 & R2 & R3).
  apply delegation_evolves; try done. intros s0 [C1 C2 C3]. split; cbn; try done. by intros p [= <-].
Qed.
Lemma delegate_to_drep_spec st cred drep room :
  loop_ok ctx room st -> ensures (delegate_to_drep ctx st cred drep) (evolves ctx room st).
Proof using Type.
  intros Hok. unfold delegate_to_drep, delegate_drep. destruct (bt_get cred (ct_creds st)); [|done].
  destruct (negb (cx_bootstrap_phase ctx) && negb (is_builtin_drep drep) && negb (bt_contains drep (ct_dreps st))) eqn:Eb;
    [done|]. cbn [obind ensures].
  pose proof (delegation_evolves st (fun s => s <| sc_delegated_drep := Some drep |>) cred (ct_accounts st) room Hok) as H.
  assert (Hown : accounts_ok (ct_accounts st)) by apply (ro_accounts _ _ (lo_registry _ _ _ Hok)).
  open_state st. apply H; try done. intros s0 [C1 C2 C3]. split; cbn; try done.
  intros d Hb [= <-]. rewrite Hb in Eb. cbn in Eb. by destruct (is_builtin_drep drep), (bt_contains drep dreps).
Qed.

(** ** Pools *)

Lemma cred_ok_mono pools pools' dreps dreps' s :
  (forall p, bt_contains p (pool_entries pools) = true -> bt_contains p (pool_entries pools') = true) ->
  (forall d, bt_contains d dreps = true -> bt_contains d dreps' = true) ->
  cred_ok ctx pools dreps s -> cred_ok ctx pools' dreps' s.
Proof using Type.
  intros Hp Hd [C1 C2 C3]. split; auto. intros d Hb Hs. specialize (C3 d Hb Hs).
  apply orb_true_iff in C3 as [->|C3]; [done|]. by rewrite (Hd d C3), orb_true_r.
Qed.
Lemma pools_evolve st pools' pot' deposits' room room' :
  loop_ok ctx room st -> bt_sorted (pool_entries pools') ->
  (forall p, bt_contains p (pool_entries (ct_pools st)) = true -> bt_contains p (pool_entries pools') = true) ->
  Forall (fun e => 0 <= rp_deposit e.2) (pool_entries pools') ->
  (let fee := pools_owed pools' - pools_owed (ct_pools st) in
   0 <= fee /\ fee + room' <= room /\ deposits' = ct_deposits st + fee /\
   pot' = (ct_pot st) <| pool_deposits := pool_deposits (ct_pot st) + fee |>) ->
  evolves ctx room' st (st <| ct_pools := pools' |> <| ct_pot := pot' |> <| ct_deposits := deposits' |>).
Proof using Type.
  intros [[(S1 & S2 & S3) Hc Hp Hd Ha Ho (E1 & E2 & E3 & E4)] Htot Hr Hh] Hs Hm Hdep (F1 & F2 & -> & ->).
  unfold evolves, balance, pot_total in *. open_state st. destruct pot as [p1 p2 p3 p4]. cbn in *.
  split_and!; try done; try lia. split; unfold balance, pot_total; cbn; try done; try lia.
  split; cbn; try done; try lia.
  eapply Forall_impl; [exact Hc|]. intros e. by apply cred_ok_mono.
Qed.

Lemma register_pool_spec st params room :
  0 <= room -> loop_ok ctx (cx_pool_deposit ctx + room) st ->
  ensures (register_pool ctx st params) (evolves ctx room st).
Proof using Hkey Hpool.
  intros Hroom Hok. pose proof (registry_pot_nonneg ctx st Hkey (lo_registry _ _ _ Hok)) as Hnn.
  unfold register_pool. check H1. check H2.
  eapply ensures_bind with (P := fun _ => True); [destruct (cx_expected_network_id ctx); [|done];
    eapply ensures_mono; [|apply ensures_reject]; done|]. intros _ _.
  eapply ensures_bind with (P := fun _ => True); [destruct (pool_metadata params); [|done];
    eapply ensures_mono; [|apply ensures_reject]; done|]. intros _ _.
  eapply ensures_bind with (P := fun _ => True); [by destruct (first_duplicate [] _)|]. intros _ _.
  eapply ensures_bind with (P := fun _ => True).
  { unfold check_vrf_key. destruct (cx_post_pv10 ctx); [|done]. destruct (find_pool_by_vrf_key _ _); [|done].
    eapply ensures_mono; [|apply ensures_reject]; done. }
  intros _ _. cbn [ensures]. pose proof Hok as [[(S1 & S2 & S3) Hc Hp Hd Ha Ho (E1 & E2 & E3 & E4)] Htot Hr Hh].
  unfold pool_register_with_deposit. destruct (bt_contains (operator params) (pool_entries (ct_pools st))) eqn:Ec; cbn [negb].
  - apply contains_get in Ec as [rp Erp]. rewrite Erp.
    pose proof (fun pools' => pools_evolve st pools' (ct_pot st) (ct_deposits st) (cx_pool_deposit ctx + room) room Hok) as H.
    open_state st. apply H; clear H; cbn.
    + by apply bt_alter_sorted.
    + intros p. by rewrite contains_alter.
    + by apply (bt_alter_Forall (fun p => 0 <= rp_deposit p)).
    + unfold pools_owed. cbn. rewrite bt_sum_alter_same by done. split_and!; try lia.
      rewrite Z.sub_diag, Z.add_0_r. by destruct pot.
  - pose proof Ec as Eg. unfold bt_contains in Eg. destruct (bt_get _ _) eqn:Egg; [done|]. clear Eg Egg.
    pose proof (fun pools' pot' deposits' => pools_evolve st pools' pot' deposits' (cx_pool_deposit ctx + room) room Hok) as H.
    unfold balance, pot_total in *. open_state st. apply H; clear H; cbn.
    + by apply bt_insert_sorted.
    + intros p. apply contains_insert.
    + by apply (bt_insert_Forall (fun p => 0 <= rp_deposit p)).
    + unfold pools_owed in *. cbn in *. rewrite fresh_insert_sum by done. cbn [rp_deposit].
      destruct pot as [p1 p2 p3 p4]. cbn in *. split_and!; try (unfold sat_add; lia).
      unfold add_pool_deposit, set_field. cbn. unfold sat_add. f_equal. lia.
Qed.
Lemma retire_pool_spec st pool epoch room :
  loop_ok ctx room st -> ensures (retire_pool ctx st pool epoch) (evolves ctx room st).
Proof using Type.
  intros Hok. unfold retire_pool. check H1. check H2. unfold pool_retire.
  destruct (bt_get pool (pool_entries (ct_pools st))); [|done]. cbn [ensures].
  pose proof (fun pools' => pools_evolve st pools' (ct_pot st) (ct_deposits st) room room Hok) as H.
  pose proof Hok as [[(S1 & S2 & S3) Hc Hp Hd Ha Ho (E1 & E2 & E3 & E4)] Htot Hr Hh].
  open_state st. apply H; clear H; cbn.
  - by apply bt_alter_sorted.
  - intros p. by rewrite contains_alter.
  - by apply (bt_alter_Forall (fun p => 0 <= rp_deposit p)).
  - unfold pools_owed. cbn. rewrite bt_sum_alter_same by done. split_and!; try lia.
    rewrite Z.sub_diag, Z.add_0_r. by destruct pot.
Qed.

(** ** Representatives *)

Lemma clear_drep_ok creds pools dreps d :
  bt_sorted dreps -> Forall (fun e => cred_ok ctx pools dreps e.2) creds ->
  Forall (fun e => cred_ok ctx pools (bt_remove d dreps) e.2) (clear_drep_delegation creds d).
Proof using Type.
  intros Hs Hc. apply Forall_fmap. eapply Forall_impl; [exact Hc|]. intros [c s] [C1 C2 C3]. cbn in *.
  destruct (sc_delegated_drep s) as [x|] eqn:Ex; [|split; try done; congruence].
  destruct (key_eqb_reflect x d) as [->|Hne]; [by split|]. split; try done.
  intros x' Hb Hx. rewrite Ex in Hx. injection Hx as <-. rewrite contains_remove by done. by apply C3.
Qed.
Lemma clear_drep_deposit creds d :
  bt_sum sc_deposit (clear_drep_delegation creds d) = bt_sum sc_deposit creds.
Proof using Type.
  apply map_values_sum. intros s. destruct (sc_delegated_drep s) as [x|]; [|done]. by destruct (key_eqb x d).
Qed.

Lemma register_representative_spec st cred deposit anchor room :
  0 <= deposit -> 0 <= room -> loop_ok ctx (deposit + room) st ->
  ensures (register_representative ctx st cred deposit anchor) (evolves ctx room st).
Proof using Hkey.
  intros Hdep Hroom [Hreg Htot Hr Hh]. pose proof (registry_pot_nonneg ctx st Hkey Hreg) as Hnn.
  destruct Hreg as [(S1 & S2 & S3) Hc Hp Hd Ha Ho (E1 & E2 & E3 & E4)]. unfold register_representative.
  eapply ensures_bind with (P := fun _ => True); [destruct (cx_drep_deposit ctx); [|done];
    eapply ensures_mono; [|apply ensures_reject]; done|]. intros _ _.
  unfold register_drep, drep_register. set (d := drep_from_credential cred).
  destruct (bt_contains d (ct_dreps st)) eqn:Ec; [done|]. cbn [obind ensures].
  pose proof (fresh_insert_sum rd_deposit d (mkRegisteredDrep anchor deposit None) _ Ec) as Es.
  unfold evolves, balance, pot_total in *. open_state st. destruct pot as [p1 p2 p3 p4]. cbn in *.
  assert (Es1 : sat_add p3 deposit = p3 + deposit) by (unfold sat_add; lia).
  assert (Es2 : sat_add dep deposit = dep + deposit) by (unfold sat_add; lia).
  split_and!; [split; unfold balance, pot_total; cbn|..]; try (rewrite ?Es1, ?Es2; lia).
  split; cbn; try done.
  - split_and!; try done. by apply bt_insert_sorted.
  - eapply Forall_impl; [exact Hc|]. intros e. apply cred_ok_mono; [done|]. intros x. apply contains_insert.
  - by apply (bt_insert_Forall (fun r => 0 <= rd_deposit r)).
  - rewrite Es1. split_and!; try done. lia.
Qed.

Lemma unregister_representative_spec st cred refund room :
  0 <= room -> loop_ok ctx room st ->
  ensures (unregister_representative st cred refund) (evolves ctx room st).
Proof using Hkey.
  intros Hroom [Hreg Htot Hr Hh]. pose proof (registry_pot_nonneg ctx st Hkey Hreg) as Hnn.
  destruct Hreg as [(S1 & S2 & S3) Hc Hp Hd Ha Ho (E1 & E2 & E3 & E4)].
  unfold unregister_representative, unregister_drep. set (d := drep_from_credential cred).
  destruct (bt_get d (ct_dreps st)) as [r|] eqn:Eg; cbn [drep_unregister];
    [|cbn; unfold drep_unregister; by rewrite Eg].
  destruct (Z.eqb_spec refund (rd_deposit r)) as [->|]; cbn [negb reject_if obind ensures]; [|done].
  unfold drep_unregister. rewrite Eg. cbn [obind ensures].
  pose proof (bt_sum_remove rd_deposit d _ r Eg) as Es.
  pose proof (bt_sum_get rd_deposit d _ r Hd Eg) as Hle.
  assert (Hr0 : 0 <= rd_deposit r) by (apply bt_get_elem in Eg; exact (proj1 (Forall_forall _ _) Hd _ Eg)).
  assert (Hd' : Forall (fun e => 0 <= rd_deposit e.2) (bt_remove d (ct_dreps st)))
    by (eapply Forall_sublist_of; [apply bt_remove_sublist|done]).
  pose proof (bt_sum_nonneg rd_deposit _ Hd') as Hs0.
  unfold evolves, balance, pot_total in *. open_state st. destruct pot as [p1 p2 p3 p4]. cbn in *.
  assert (Es1 : sat_sub p3 (rd_deposit r) = p3 - rd_deposit r) by (unfold sat_sub; lia).
  assert (Es2 : sat_add ref (rd_deposit r) = ref + rd_deposit r) by (unfold sat_add; lia).
  split_and!; [split; unfold balance, pot_total; cbn|..]; try (rewrite ?Es1, ?Es2; lia).
  split; cbn; try done.
  - split_and!; [by apply map_values_sorted|by apply bt_remove_sorted|done].
  - by apply clear_drep_ok.
  - eapply Forall_impl; [exact Ho|]. intros e He. unfold clear_drep_delegation. by rewrite contains_map_values.
  - rewrite Es1, clear_drep_deposit. split_and!; try done. lia.
Qed.

Lemma update_drep_spec st cred anchor room :
  loop_ok ctx room st ->
  ensures (let? dreps := update_drep (ct_dreps st) cred anchor in Ok (st <| ct_dreps := dreps |>))
    (evolves ctx room st).
Proof using Type.
  intros [[(S1 & S2 & S3) Hc Hp Hd Ha Ho (E1 & E2 & E3 & E4)] Htot Hr Hh]. unfold update_drep.
  set (d := drep_from_credential cred). destruct (bt_get d (ct_dreps st)); [|done]. cbn [obind ensures].
  unfold evolves, balance in *. open_state st. split_and!; try done. split; cbn; try done. split; cbn; try done.
  - split_and!; try done. by apply bt_alter_sorted.
  - eapply Forall_impl; [exact Hc|]. intros e. apply cred_ok_mono; [done|]. intros x. by rewrite contains_alter.
  - by apply (bt_alter_Forall (fun r => 0 <= rd_deposit r)).
  - by rewrite bt_sum_alter_same.
Qed.

(** ** Every certificate *)

(** The deposit a certificate may take. *)
Definition cert_deposit (cert : DCert) : Z :=
  match cert with
  | AccountRegistration _ | AccountRegistrationDeposit _ _ | AccountRegistrationDelegationToStakePool _ _ _
  | AccountRegistrationDelegationToDrep _ _ _ | AccountRegistrationDelegationToStakePoolAndDrep _ _ _ _ =>
      cx_key_deposit ctx
  | PoolRegistration _ => cx_pool_deposit ctx
  | DrepRegistration _ deposit _ => deposit
  | _ => 0
  end.

Lemma register_account_deposit_spec ptr st cred deposit room :
  cx_is_conway ctx = true -> 0 <= room -> loop_ok ctx (kd + room) st ->
  ensures (register_account_deposit ctx ptr st cred deposit) (evolves ctx room st).
Proof using Hkey.
  intros Hcw Hroom Hok. unfold register_account_deposit. rewrite Hcw. cbn [andb]. check H1. check H2.
  rewrite H2. cbn [negb]. apply negb_false_iff, Z.eqb_eq in H1. rewrite H1. by apply register_account_spec.
Qed.
Lemma unregister_account_deposit_spec st cred refund room :
  cx_is_conway ctx = true -> 0 <= room -> loop_ok ctx room st ->
  ensures (unregister_account_deposit ctx st cred refund) (evolves ctx room st).
Proof using Hkey.
  intros Hcw Hroom Hok. unfold unregister_account_deposit. rewrite Hcw. cbn [andb].
  destruct (bt_get cred (ct_creds st)) as [s|] eqn:Eg; cycle 1.
  { check H1. unfold unregister_account, unregister_stake_credential, bt_contains. by rewrite Eg. }
  assert (Es : sc_deposit s = kd).
  { apply bt_get_elem in Eg.
    exact (co_deposit _ _ _ _ (proj1 (Forall_forall _ _) (ro_creds _ _ (lo_registry _ _ _ Hok)) _ Eg)). }
  rewrite Es. replace (if 0 <? kd then kd else kd) with kd by (by destruct (0 <? kd)).
  check H1. apply negb_false_iff, Z.eqb_eq in H1. rewrite H1. by apply unregister_account_spec.
Qed.

Lemma evolves_refl room room' st : room' <= room -> loop_ok ctx room st -> evolves ctx room' st st.
Proof using Type. intros Hr Hok. split_and!; try done. by apply (loop_ok_weaken ctx room). Qed.
Lemma ensures_then (m : cert_outcome CertState) (k : CertState -> cert_outcome CertState) r1 r2 st :
  ensures m (evolves ctx r1 st) -> (forall st', loop_ok ctx r1 st' -> ensures (k st') (evolves ctx r2 st')) ->
  ensures (obind m k) (evolves ctx r2 st).
Proof using Type.
  intros Hm Hk. eapply ensures_bind; [exact Hm|]. intros st1 H1. eapply ensures_mono; [|apply Hk, H1].
  intros st2 H2. by eapply evolves_trans.
Qed.

Section certificate.
Context (actions : GovernanceActions) (slot tx_index : Z) (window : option Z) (mir : option MirValidationContext).

Lemma committee_evolves st committee room :
  loop_ok ctx room st -> evolves ctx room st (st <| ct_committee := committee |>).
Proof using Type. intros [[] ? ? ?]. by split. Qed.
Lemma gen_delegs_evolve st gen_delegs room :
  loop_ok ctx room st -> evolves ctx room st (st <| ct_gen_delegs := gen_delegs |>).
Proof using Type. intros [[] ? ? ?]. by split. Qed.
Lemma future_evolves st future room :
  loop_ok ctx room st -> evolves ctx room st (st <| ct_future := future |>).
Proof using Type. intros [[] ? ? ?]. by split. Qed.
Lemma set_committee_no_panic committee cold auth :
  ensures (set_committee_authorization committee actions cold auth) (fun _ => True).
Proof using Type. unfold set_committee_authorization. repeat case_match; done. Qed.
Lemma validate_mir_no_panic mc pot target : ensures (validate_mir mc pot target) (fun _ => True).
Proof using Type.
  unfold validate_mir.
  eapply ensures_bind with (P := fun _ => True); [destruct (mc_mir_deadline_slot mc); [|done];
    eapply ensures_mono; [|apply ensures_reject]; done|]. intros _ _.
  destruct target.
  - eapply ensures_bind with (P := fun _ => True);
      [destruct (negb _); (eapply ensures_mono; [|apply ensures_reject]; done)|]. intros _ _.
    eapply ensures_mono; [|apply ensures_reject]; done.
  - check H. eapply ensures_mono; [|apply ensures_reject]; done.
Qed.

Lemma apply_certificate_spec i st cert room :
  0 <= room -> 0 <= cert_deposit cert -> loop_ok ctx (cert_deposit cert + room) st ->
  ensures (apply_certificate ctx actions slot tx_index window mir i st cert) (evolves ctx room st).
Proof using Hkey Hpool.
  intros Hroom Hdep Hok. unfold apply_certificate, era_gate. cbv zeta.
  eapply ensures_bind with (P := fun _ => conway_only cert = true -> cx_is_conway ctx = true).
  { check H1. eapply ensures_mono; [|apply ensures_reject]. intros _ _ Hc. rewrite Hc in H1.
    by destruct (cx_is_conway ctx). }
  intros _ Hera. destruct cert; cbn [cert_deposit conway_only] in *; try rewrite Z.add_0_l in Hok;
    try specialize (Hera eq_refl).
  - by apply register_account_spec.
  - by apply unregister_account_spec.
  - by apply delegate_to_pool_spec.
  - by apply register_pool_spec.
  - by apply retire_pool_spec.
  - unfold delegate_genesis. check H1. check H2. check H3. cbn [ensures].
    destruct window; [by apply future_evolves|by apply gen_delegs_evolve].
  - eapply ensures_bind with (P := fun _ => True); [destruct mir; [apply validate_mir_no_panic|done]|].
    intros _ _. cbn [ensures]. by apply (evolves_refl room).
  - by apply register_account_deposit_spec.
  - by apply unregister_account_deposit_spec.
  - by apply delegate_to_drep_spec.
  - apply (ensures_then _ _ room); [by apply delegate_to_pool_spec|]. intros. by apply delegate_to_drep_spec.
  - apply (ensures_then _ _ room); [by apply register_account_deposit_spec|]. intros. by apply delegate_to_pool_spec.
  - apply (ensures_then _ _ room); [by apply register_account_deposit_spec|]. intros. by apply delegate_to_drep_spec.
  - apply (ensures_then _ _ room); [by apply register_account_deposit_spec|]. intros.
    apply (ensures_then _ _ room); [by apply delegate_to_pool_spec|]. intros. by apply delegate_to_drep_spec.
  - eapply ensures_bind; [apply set_committee_no_panic|]. intros c _. by apply committee_evolves.
  - eapply ensures_bind; [apply set_committee_no_panic|]. intros c _. by apply committee_evolves.
  - by apply register_representative_spec.
  - by apply unregister_representative_spec.
  - by apply update_drep_spec.
Qed.

Lemma apply_certificates_spec certs i st extra :
  Forall (fun c => 0 <= cert_deposit c) certs -> 0 <= extra -> loop_ok ctx (lsum cert_deposit certs + extra) st ->
  ensures (apply_certificates ctx actions slot tx_index window mir i st certs) (evolves ctx extra st).
Proof using Hkey Hpool.
  intros Hc Hextra. revert i st. induction Hc as [|c certs Hc Hcs IH]; intros i st Hok.
  { change (lsum cert_deposit [] + extra) with extra in Hok. cbn [apply_certificates ensures]. by apply (evolves_refl extra). }
  rewrite lsum_cons in Hok. cbn [apply_certificates].
  assert (0 <= lsum cert_deposit certs) by (clear -Hcs; induction Hcs; [apply Z.le_refl|rewrite lsum_cons; lia]).
  apply (ensures_then _ _ (lsum cert_deposit certs + extra)); [|by intros; apply IH].
  apply apply_certificate_spec; [lia|done|]. eapply loop_ok_weaken; [|exact Hok]. lia.
Qed.
End certificate.
End rules.

(** ** Withdrawals *)

Lemma drain_spec ws accounts total :
  accounts_ok accounts -> 0 <= total -> held accounts + total <= U64_MAX ->
  ensures (drain_withdrawals (accounts, total) ws) (fun '(accounts', total') =>
    accounts_ok accounts' /\ bt_keys accounts' = bt_keys accounts /\ 0 <= total' /\
    held accounts' + total' = held accounts + total).
Proof.
  revert accounts total. induction ws as [|[a v] ws IH]; intros accounts total Hok Ht Hb; [done|].
  cbn [drain_withdrawals drain_withdrawal].
  destruct (find_account_by_credential accounts (ra_credential a)) as [key|] eqn:Ef; [|done].
  apply find_account_in in Ef as [Hin _].
  pose proof (keys_get accounts key Hin) as Hg. destruct (bt_get key accounts) as [s|] eqn:Eg; [|done].
  destruct (_ <? v); [done|]. destruct (Z.eqb_spec v (ras_balance s)) as [->|]; cbn [negb]; [|done].
  cbn [obind]. pose proof (bt_sum_get ras_balance key accounts s Hok Eg) as Hle.
  assert (Hs : 0 <= ras_balance s) by (apply bt_get_elem in Eg; exact (proj1 (Forall_forall _ _) Hok _ Eg)).
  assert (Hok' : accounts_ok (bt_alter (set_balance (ras_balance s - ras_balance s)) key accounts)).
  { apply (bt_alter_Forall (fun s => 0 <= ras_balance s)); [|done]. intros x _. cbn. lia. }
  assert (Hh : held (bt_alter (set_balance (ras_balance s - ras_balance s)) key accounts) = held accounts - ras_balance s).
  { unfold held. rewrite (bt_sum_alter _ _ _ _ _ Eg). cbn. lia. }
  assert (Et : sat_add total (ras_balance s) = total + ras_balance s) by (unfold sat_add, held in *; lia).
  rewrite Et. eapply ensures_mono; [|apply IH; [done|lia|lia]].
  intros [accounts' total'] (H1 & H2 & H3 & H4). rewrite bt_alter_keys in H2. split_and!; try done. lia.
Qed.

Lemma drained_registry ctx st drained :
  registry_ok ctx st -> accounts_ok drained -> bt_keys drained = bt_keys (ct_accounts st) ->
  registry_ok ctx (st <| ct_accounts := drained |> <| ct_deposits := 0 |> <| ct_refunds := 0 |>).
Proof.
  intros [S Hc Hp Hd Ha Ho E] Hok Hk. open_state st. split; cbn; try done.
  assert (Hall : Forall (fun a => bt_contains (ra_credential a) creds = true) (bt_keys drained))
    by (rewrite Hk; by apply Forall_fmap).
  by apply Forall_fmap in Hall.
Qed.

(** What a transaction brings to the rules. *)
Record certs_ready (ctx : CertificateValidationContext) (st : CertState) (certs : list DCert) : Prop := {
  cr_key : 0 <= cx_key_deposit ctx;
  cr_pool : 0 <= cx_pool_deposit ctx;
  cr_registry : registry_ok ctx st;
  cr_deposits : Forall (fun c => 0 <= cert_deposit ctx c) certs;
  cr_room : pot_total (ct_pot st) + lsum (cert_deposit ctx) certs <= U64_MAX;
  cr_held : held (ct_accounts st) <= U64_MAX }.
(** The registries stay consistent, and the totals say what moved. *)
Definition settled_certs (ctx : CertificateValidationContext) (st : CertState)
    (r : CertState * CertBalanceAdjustment) : Prop :=
  registry_ok ctx r.1 /\
  held (ct_accounts r.1) + adj_withdrawal_total r.2 = held (ct_accounts st) /\
  pot_total (ct_pot r.1) + adj_total_refunds r.2 = pot_total (ct_pot st) + adj_total_deposits r.2 /\
  proposal_deposits (ct_pot r.1) = proposal_deposits (ct_pot st).

(** With [extra] room in the pot, that much is left of it. *)
Lemma certificates_settle_room ctx actions slot i window mir st certs ws extra :
  certs_ready ctx st (default [] certs) -> 0 <= extra ->
  pot_total (ct_pot st) + lsum (cert_deposit ctx) (default [] certs) + extra <= U64_MAX ->
  ensures (apply_certificates_and_withdrawals_with_future ctx actions slot i window mir st certs ws)
    (fun r => settled_certs ctx st r /\
       0 <= adj_total_deposits r.2 /\ adj_total_deposits r.2 + pot_total (ct_pot st) + extra <= U64_MAX).
Proof.
  intros [Hk Hp Hreg Hdep _ Hheld] Hextra Hroom. unfold apply_certificates_and_withdrawals_with_future.
  eapply ensures_bind.
  { apply (drain_spec (default [] ws) (ct_accounts st) 0); [by destruct Hreg|lia|lia]. }
  intros [accounts w] (D1 & D2 & D3 & D4).
  pose proof (registry_pot_nonneg ctx st Hk Hreg) as Hnn.
  pose proof (drained_registry ctx st accounts Hreg D1 D2) as Hreg'.
  set (st1 := st <| ct_accounts := accounts |> <| ct_deposits := 0 |> <| ct_refunds := 0 |>) in *.
  eapply ensures_bind.
  { apply (apply_certificates_spec ctx Hk Hp actions slot i window mir (default [] certs) 0 st1 extra Hdep Hextra).
    split; [done|..]; unfold balance; change (ct_pot st1) with (ct_pot st); change (ct_accounts st1) with accounts;
      change (ct_refunds st1) with 0; change (ct_deposits st1) with 0; unfold pot_total in *; lia. }
  intros st' ([H1 H2 H3 H4] & Hbal & Hh & Hpr). cbn [ensures]. unfold settled_certs. cbn [fst snd adj_withdrawal_total adj_total_refunds adj_total_deposits].
  change (ct_accounts st1) with accounts in Hh.
  assert (Eb : balance st1 = pot_total (ct_pot st)).
  { unfold balance. change (ct_pot st1) with (ct_pot st). change (ct_refunds st1) with 0.
    change (ct_deposits st1) with 0. lia. }
  rewrite Eb in Hbal. unfold balance in Hbal. split_and!; [done|lia|lia|done|lia|lia].
Qed.

Lemma certificates_settle ctx actions slot i window mir st certs ws :
  certs_ready ctx st (default [] certs) ->
  ensures (apply_certificates_and_withdrawals_with_future ctx actions slot i window mir st certs ws)
    (settled_certs ctx st).
Proof.
  intros Hready. eapply ensures_mono; [|apply (certificates_settle_room _ _ _ _ _ _ _ _ _ 0); [done|lia|]].
  - by intros r [Hr _].
  - destruct Hready. lia.
Qed.

(** C7: certificates and withdrawals keep the ledger's books. Whatever the list,
    the rules return a state or an error and never panic; in the new state the
    deposit pot is exactly the sum of the deposits recorded for credentials,
    pools and representatives, every delegation points to a registered pool and
    (outside the bootstrap phase) to a registered or built-in representative,
    every reward account belongs to a registered credential, and the reported
    totals are what left the accounts, entered the pot and left it. The
    conditions are [certs_ready]: the books are in this order before, with
    every recorded key deposit equal to the current key deposit (without which
    [certificate_gaps] breaks the pot), no deposit asked or recorded is
    negative, the pot has room for the deposits of the list, and the accounts
    hold at most [2^64 - 1]. *)
Theorem certificates_keep_registries ctx actions slot i window mir st certs ws :
  certs_ready ctx st (default [] certs) ->
  ensures (apply_certificates_and_withdrawals_with_future ctx actions slot i window mir st certs ws)
    (settled_certs ctx st).
Proof. apply certificates_settle. Qed.

(** C6: a Shelley to Conway transaction conserves the lovelace of the ledger. If
    the certificate and withdrawal rules accept its certificates and the rules
    of the unspent outputs accept its body with the totals they report, then
    outputs, deposits and reward accounts together lose exactly the fee and the
    donation. The books are in order before ([certs_ready], with every recorded
    key deposit equal to the current one), the set has no output of this
    transaction yet, and there are at most [65536] outputs. *)
Theorem transaction_conserves_lovelace ctx actions slot i window mir st certs ws st' adj u tx_id tx u' :
  certs_ready ctx st (default [] certs) ->
  apply_certificates_and_withdrawals_with_future ctx actions slot i window mir st certs ws = Ok (st', adj) ->
  apply_tx u tx_id tx slot (adj_withdrawal_total adj) (adj_total_deposits adj) (adj_total_refunds adj) = Ok u' ->
  fresh_id u tx_id -> zlength (era_outputs tx) <= 65536 ->
  utxo_total MultiEraTxOut_coin u' + pot_total (ct_pot st') + held (ct_accounts st') + era_charge tx
  = utxo_total MultiEraTxOut_coin u + pot_total (ct_pot st) + held (ct_accounts st).
Proof.
  intros Hready Hc Htx Hfresh Hout.
  destruct (ensures_inv _ _ _ (certificates_settle ctx actions slot i window mir st certs ws Hready) Hc)
    as (_ & H1 & H2 & _). cbn [fst snd] in *.
  apply accepted in Htx as (Hd & -> & Hb & _). rewrite spend_and_create_total by done. lia.
Qed.

(** ** Examples and limits *)

Definition sample_key (n : Z) : StakeCredential := AddrKeyHash (replicate 28 n).
Definition sample_context : CertificateValidationContext :=
  mkCertContext 2 5 0 18 100 (Some 1) (Some 5) true false false.
Definition sample_certs : CertState :=
  mkCertState (mkPoolState [(replicate 28 9, mkRegisteredPool (boundary_pool 9) None 5)] [])
    [(sample_key 1, mkCredentialState None None 2 None)] [] [] [(account 1, mkRewardState 7 None)]
    (mkDepositPot 2 5 0 0) [] [] 0 0.
(** Registers and delegates a key, registers a representative, and withdraws
    from an account before it is closed. *)
Definition sample_cert_list : list DCert :=
  [AccountRegistrationDelegationToStakePool (sample_key 2) (replicate 28 9) 2; DrepRegistration (sample_key 3) 5 None;
   DelegationToDrep (sample_key 2) (DRepKeyHash (replicate 28 3)); AccountUnregistrationDeposit (sample_key 1) 2].

Lemma sample_certs_ready : certs_ready sample_context sample_certs sample_cert_list.
Proof.
  split; [closed_fact|closed_fact| |repeat constructor; closed_fact|closed_fact|closed_fact].
  split; [split_and!; repeat constructor| |repeat constructor; closed_fact|constructor|repeat constructor; closed_fact
         |repeat constructor|split_and!; closed_fact || reflexivity].
  constructor; [|constructor]. split; [reflexivity|discriminate|discriminate].
Qed.

Lemma certificates_keep_registries_witness :
  exists r, apply_certificates_and_withdrawals_with_future sample_context [] 5 0 None None sample_certs
      (Some sample_cert_list) (Some [(account 1, 7)]) = Ok r /\
    settled_certs sample_context sample_certs r /\ r.2 = mkAdjustment 7 7 2.
Proof.
  pose proof (certificates_keep_registries sample_context [] 5 0 None None sample_certs
    (Some sample_cert_list) (Some [(account 1, 7)]) sample_certs_ready) as H.
  eexists. split; [vm_compute; reflexivity|]. split; [|reflexivity]. vm_compute in H. exact H.
Defined.

Lemma transaction_conserves_lovelace_witness :
  exists st' adj u',
    apply_certificates_and_withdrawals_with_future sample_context [] 5 0 None None sample_certs
      (Some sample_cert_list) (Some [(account 1, 7)]) = Ok (st', adj) /\
    apply_tx sample_utxo [3] (Tx_Conway sample_conway) 5 (adj_withdrawal_total adj)
      (adj_total_deposits adj) (adj_total_refunds adj) = Ok u' /\
    utxo_total MultiEraTxOut_coin u' + pot_total (ct_pot st') + held (ct_accounts st') + 3 = 30 + 7 + 7.
Proof.
  do 3 eexists. split; [vm_compute; reflexivity|]. split; [vm_compute; reflexivity|].
  eapply (transaction_conserves_lovelace sample_context [] 5 0 None None sample_certs (Some sample_cert_list)
    (Some [(account 1, 7)]) _ _ sample_utxo [3] (Tx_Conway sample_conway) _ sample_certs_ready);
    [vm_compute; reflexivity|vm_compute; reflexivity|apply sample_fresh|vm_compute; discriminate].
Defined.

(** Two places where the books do not close. A deregistration without an
    amount refunds the current key deposit, not the recorded one: after the
    parameter went from 2 to 3 the refund takes lovelace nobody deposited. And
    the transfers between the pots in one transaction are each compared with the
    pots before the transaction: two transfers of the whole reserves pass, and
    the epoch boundary adds both to the treasury. *)
Theorem certificate_gaps :
  (exists st' adj,
     apply_certificates_and_withdrawals_with_future (mkCertContext 3 5 0 18 100 (Some 1) (Some 5) true false false)
       [] 5 0 None None sample_certs (Some [AccountUnregistration (sample_key 1)]) (Some [(account 1, 7)]) = Ok (st', adj) /\
     ct_creds st' = [] /\
     pot_total (ct_pot st') + adj_total_refunds adj = pot_total (ct_pot sample_certs) + adj_total_deposits adj + 1) /\
  (let mc := mkMirContext 5 None true 10 0 no_rewards in
   let certs := [MoveInstantaneousReward Reserves (SendToOppositePot 10);
                 MoveInstantaneousReward Reserves (SendToOppositePot 10)] in
   let ctx := mkCertContext 2 5 0 18 100 (Some 1) (Some 5) false false false in
   exists st' adj,
     apply_certificates_and_withdrawals_with_future ctx [] 5 0 None (Some mc) sample_certs (Some certs) None
       = Ok (st', adj) /\
     let '(_, acct, _) := apply_mir (accumulate_mir_from_certs no_rewards (Some certs)) (ct_accounts st')
                            (mkAccounting 0 10) in
     acct = mkAccounting 20 0).
Proof.
  split; do 2 eexists; (split; [vm_compute; reflexivity|]); [split; vm_compute; reflexivity|vm_compute; reflexivity].
Qed.
