(* ===== verification/TxOutCodec.v ===== *)
(** * Encodings of transaction outputs and of the UTxO set

    The CBOR codecs of inputs, values, datums, scripts and outputs of every
    era ([crates/ledger/src/eras/{shelley,mary,alonzo,babbage}.rs],
    [crates/ledger/src/plutus.rs]) and of the whole UTxO set
    ([crates/ledger/src/utxo.rs]), as the ledger stores it in a snapshot, with
    the round trip of the set. *)

From stdpp Require Import gmap sorting strings.
From S2P Require Import Prelude Cbor CborFacts CborSkip Types AddressFacts NativeScript.
From S2P Require Import TypesCodec PlutusData Uplc Builtins ScriptContext Utxo.
Local Open Scope Z_scope.

(** ** Inputs *)

Definition ShelleyTxIn_encode (i : ShelleyTxIn) : list Z :=
  Encoder_array 2 ++ Encoder_bytes (ti_transaction_id i) ++ Encoder_unsigned (ti_index i).
Definition ShelleyTxIn_decode : Dec ShelleyTxIn :=
  len <- Decoder_array ;; expect_len 2 len ;;;
  transaction_id <- decode_hash32 ;;
  index <- Decoder_unsigned ;;
  dret (mkTxIn transaction_id (wrap16 index)).

(** ** Values *)

Definition encode_assets (assets : list (list Z * Z)) : list Z :=
  Encoder_map (zlength assets)
  ++ concat (map (fun e => Encoder_bytes e.1 ++ Encoder_unsigned e.2) assets).
Definition encode_multi_asset (ma : PolicyAssets) : list Z :=
  Encoder_map (zlength ma) ++ concat (map (fun e => Encoder_bytes e.1 ++ encode_assets e.2) ma).
Definition Value_encode (v : MaryValue) : list Z :=
  match v with
  | Value_Coin c => Encoder_unsigned c
  | Value_CoinAndAssets c ma => Encoder_array 2 ++ Encoder_unsigned c ++ encode_multi_asset ma
  end.

Definition insert_nonzero_asset (assets : list (list Z * Z)) (name : list Z) (qty : Z)
    : list (list Z * Z) :=
  if negb (qty =? 0) then btree_insert bytes_compare name qty assets else assets.
Definition insert_nonempty_policy (ma : PolicyAssets) (policy : list Z)
    (assets : list (list Z * Z)) : PolicyAssets :=
  match assets with [] => ma | _ => btree_insert bytes_compare policy assets ma end.

(** [while !dec.is_break() { .. } dec.consume_break()] *)
Definition until_break {S} (item : S -> Dec S) (s : S) : Dec S :=
  fun d =>
    loopM (dec_fuel d)
      (fun '(s, d) =>
         if Decoder_is_break d then let? (_, d) := Decoder_consume_break d in Ok (inr (s, d))
         else let? (s, d) := item s d in Ok (inl (s, d)))
      (s, d).
(** A map of a known number of entries, or ended by a break. *)
Definition decode_entries {S} (item : S -> Dec S) (s : S) : Dec S :=
  len <- Decoder_map_begin ;;
  match len with
  | Some count => dfor count item s
  | None => until_break item s
  end.

Definition decode_asset (assets : list (list Z * Z)) : Dec (list (list Z * Z)) :=
  name <- Decoder_bytes ;;
  if 32 <? zlength name then derr (AssetNameTooLong (zlength name))
  else qty <- Decoder_unsigned ;; dret (insert_nonzero_asset assets name qty).
Definition decode_policy (ma : PolicyAssets) : Dec PolicyAssets :=
  policy <- decode_hash28 ;;
  assets <- decode_entries decode_asset [] ;;
  dret (insert_nonempty_policy ma policy assets).
Definition decode_multi_asset_unsigned : Dec PolicyAssets := decode_entries decode_policy [].

Definition Value_decode : Dec MaryValue :=
  major <- dget Decoder_peek_major ;;
  if major =? 0 then coin <- Decoder_unsigned ;; dret (Value_Coin coin)
  else if major =? 4 then
    len <- Decoder_array ;; expect_len 2 len ;;;
    coin <- Decoder_unsigned ;;
    ma <- decode_multi_asset_unsigned ;;
    dret (match ma with [] => Value_Coin coin | _ => Value_CoinAndAssets coin ma end)
  else derr (CborTypeMismatch 0 major).

(** ** Scripts and datums *)

(** [ns.encode_cbor] writes [script_encoding ns]: lemma [encode_script_encoding]. *)
Definition Script_encode (s : Script) : list Z :=
  match s with
  | Script_Native ns => Encoder_array 2 ++ Encoder_unsigned 0 ++ script_encoding ns
  | Script_PlutusV1 bytes => Encoder_array 2 ++ Encoder_unsigned 1 ++ Encoder_bytes bytes
  | Script_PlutusV2 bytes => Encoder_array 2 ++ Encoder_unsigned 2 ++ Encoder_bytes bytes
  | Script_PlutusV3 bytes => Encoder_array 2 ++ Encoder_unsigned 3 ++ Encoder_bytes bytes
  end.
Definition Script_decode : Dec Script :=
  len <- Decoder_array ;; expect_len 2 len ;;;
  tag <- Decoder_unsigned ;;
  if tag =? 0 then ns <- NativeScript_decode_cbor ;; dret (Script_Native ns)
  else if tag =? 1 then bytes <- Decoder_bytes ;; dret (Script_PlutusV1 bytes)
  else if tag =? 2 then bytes <- Decoder_bytes ;; dret (Script_PlutusV2 bytes)
  else if tag =? 3 then bytes <- Decoder_bytes ;; dret (Script_PlutusV3 bytes)
  else derr (CborTypeMismatch 0 (wrap8 tag)).

(** Decoding a nested encoding; what follows the value inside is not read. *)
Definition decode_inner {A} (m : Dec A) (inner : list Z) : outcome LedgerError A :=
  let? (a, _) := m (Decoder_new inner) in Ok a.

Definition ScriptRef_encode (s : Script) : list Z :=
  Encoder_tag 24 ++ Encoder_bytes (Script_encode s).
Definition ScriptRef_decode : Dec Script :=
  tag <- Decoder_tag ;;
  if negb (tag =? 24) then derr (CborTypeMismatch 24 (wrap8 tag))
  else
    inner_bytes <- Decoder_bytes ;;
    script <- dlift (decode_inner Script_decode inner_bytes) ;;
    dret script.

(** [pd.encode_cbor] writes [encoding pd]: lemma [encode_cbor_encoding]. *)
Definition DatumOption_encode (d : DatumOption) : list Z :=
  match d with
  | Datum_Hash h => Encoder_array 2 ++ Encoder_unsigned 0 ++ Encoder_bytes h
  | Datum_Inline pd =>
      Encoder_array 2 ++ Encoder_unsigned 1 ++ Encoder_tag 24 ++ Encoder_bytes (encoding pd)
  end.
Definition DatumOption_decode : Dec DatumOption :=
  len <- Decoder_array ;; expect_len 2 len ;;;
  tag <- Decoder_unsigned ;;
  if tag =? 0 then h <- decode_hash32 ;; dret (Datum_Hash h)
  else if tag =? 1 then
    cbor_tag <- Decoder_tag ;;
    if negb (cbor_tag =? 24) then derr (CborTypeMismatch 24 (wrap8 cbor_tag))
    else
      inner_bytes <- Decoder_bytes ;;
      pd <- dlift (decode_inner PlutusData_decode_cbor inner_bytes) ;;
      dret (Datum_Inline pd)
  else derr (CborTypeMismatch 0 (wrap8 tag)).

(** ** Outputs *)

Definition ShelleyTxOut_encode (o : ShelleyTxOut) : list Z :=
  Encoder_array 2 ++ Encoder_bytes (so_address o) ++ Encoder_unsigned (so_amount o).
Definition ShelleyTxOut_decode : Dec ShelleyTxOut :=
  len <- Decoder_array ;; expect_len 2 len ;;;
  address <- Decoder_bytes ;;
  amount <- Decoder_unsigned ;;
  dret (mkShelleyTxOut address amount).

Definition MaryTxOut_encode (o : MaryTxOut) : list Z :=
  Encoder_array 2 ++ Encoder_bytes (mo_address o) ++ Value_encode (mo_amount o).
Definition MaryTxOut_decode : Dec MaryTxOut :=
  len <- Decoder_array ;; expect_len 2 len ;;;
  address <- Decoder_bytes ;;
  amount <- Value_decode ;;
  dret (mkMaryTxOut address amount).

Definition AlonzoTxOut_encode (o : AlonzoTxOut) : list Z :=
  Encoder_array (match ao_datum_hash o with Some _ => 3 | None => 2 end)
  ++ Encoder_bytes (ao_address o) ++ Value_encode (ao_amount o)
  ++ match ao_datum_hash o with Some h => Encoder_bytes h | None => [] end.
(** The datum hash of an array output of length [len]. *)
Definition decode_datum_hash (len : Z) : Dec (option (list Z)) :=
  if len =? 3 then h <- decode_hash32 ;; dret (Some h) else dret None.
Definition AlonzoTxOut_decode : Dec AlonzoTxOut :=
  len <- Decoder_array ;;
  if negb (len =? 2) && negb (len =? 3) then derr (CborInvalidLength 2 len)
  else
    address <- Decoder_bytes ;;
    amount <- Value_decode ;;
    datum_hash <- decode_datum_hash len ;;
    dret (mkAlonzoTxOut address amount datum_hash).

Definition BabbageTxOut_encode (o : BabbageTxOut) : list Z :=
  Encoder_map (2 + (match bo_datum_option o with Some _ => 1 | None => 0 end)
                 + (match bo_script_ref o with Some _ => 1 | None => 0 end))
  ++ Encoder_unsigned 0 ++ Encoder_bytes (bo_address o)
  ++ Encoder_unsigned 1 ++ Value_encode (bo_amount o)
  ++ match bo_datum_option o with
     | Some datum => Encoder_unsigned 2 ++ DatumOption_encode datum
     | None => []
     end
  ++ match bo_script_ref o with
     | Some sref => Encoder_unsigned 3 ++ ScriptRef_encode sref
     | None => []
     end.

Definition decode_pre_babbage_txout : Dec BabbageTxOut :=
  len <- Decoder_array ;;
  if negb (len =? 2) && negb (len =? 3) then derr (CborInvalidLength 2 len)
  else
    address <- Decoder_bytes ;;
    amount <- Value_decode ;;
    datum_hash <- decode_datum_hash len ;;
    dret (mkBabbageTxOut address amount (Datum_Hash <$> datum_hash) None).

(** The fields of a map output as they are read. *)
Record TxOutFields := mkTxOutFields {
  tf_address : option (list Z);
  tf_amount : option MaryValue;
  tf_datum_option : option DatumOption;
  tf_script_ref : option Script }.
Definition decode_txout_field (f : TxOutFields) : Dec TxOutFields :=
  key <- Decoder_unsigned ;;
  if key =? 0 then
    a <- Decoder_bytes ;;
    dret (mkTxOutFields (Some a) (tf_amount f) (tf_datum_option f) (tf_script_ref f))
  else if key =? 1 then
    v <- Value_decode ;;
    dret (mkTxOutFields (tf_address f) (Some v) (tf_datum_option f) (tf_script_ref f))
  else if key =? 2 then
    d <- DatumOption_decode ;;
    dret (mkTxOutFields (tf_address f) (tf_amount f) (Some d) (tf_script_ref f))
  else if key =? 3 then
    s <- ScriptRef_decode ;;
    dret (mkTxOutFields (tf_address f) (tf_amount f) (tf_datum_option f) (Some s))
  else Decoder_skip ;;; dret f.
Definition decode_post_alonzo_txout : Dec BabbageTxOut :=
  map_len <- Decoder_map ;;
  f <- dfor map_len decode_txout_field (mkTxOutFields None None None None) ;;
  address <- dlift (ok_or (tf_address f) (CborInvalidLength 1 0)) ;;
  amount <- dlift (ok_or (tf_amount f) (CborInvalidLength 1 0)) ;;
  dret (mkBabbageTxOut address amount (tf_datum_option f) (tf_script_ref f)).
Definition BabbageTxOut_decode : Dec BabbageTxOut :=
  major <- dget Decoder_peek_major ;;
  if major =? 4 then decode_pre_babbage_txout
  else if major =? 5 then decode_post_alonzo_txout
  else derr (CborTypeMismatch 4 major).

(** [inner_cbor_size] measures these encodings. *)
Definition inner_encode (o : MultiEraTxOut) : list Z :=
  match o with
  | Out_Shelley a v => ShelleyTxOut_encode (mkShelleyTxOut a v)
  | Out_Mary a v => MaryTxOut_encode (mkMaryTxOut a v)
  | Out_Alonzo a v h => AlonzoTxOut_encode (mkAlonzoTxOut a v h)
  | Out_Babbage a v d s => BabbageTxOut_encode (mkBabbageTxOut a v d s)
  end.
Definition inner_cbor_size (o : MultiEraTxOut) : Z := zlength (inner_encode o).

Definition era_tag (o : MultiEraTxOut) : Z :=
  match o with
  | Out_Shelley _ _ => 0 | Out_Mary _ _ => 1 | Out_Alonzo _ _ _ => 2 | Out_Babbage _ _ _ _ => 3
  end.
Definition MultiEraTxOut_encode (o : MultiEraTxOut) : list Z :=
  Encoder_array 2 ++ Encoder_unsigned (era_tag o) ++ inner_encode o.
Definition MultiEraTxOut_decode : Dec MultiEraTxOut :=
  len <- Decoder_array ;; expect_len 2 len ;;;
  tag <- Decoder_unsigned ;;
  if tag =? 0 then o <- ShelleyTxOut_decode ;; dret (Out_of_shelley o)
  else if tag =? 1 then o <- MaryTxOut_decode ;; dret (Out_of_mary o)
  else if tag =? 2 then o <- AlonzoTxOut_decode ;; dret (Out_of_alonzo o)
  else if tag =? 3 then o <- BabbageTxOut_decode ;; dret (Out_of_babbage o)
  else derr (CborInvalidAdditionalInfo (wrap8 tag)).

(** ** The UTxO set *)

(** The derived order of [ShelleyTxIn]. *)
Definition txin_le (a b : ShelleyTxIn) : Prop :=
  match bytes_compare (ti_transaction_id a) (ti_transaction_id b) with
  | Lt => True
  | Eq => ti_index a <= ti_index b
  | Gt => False
  end.
Definition entry_le (a b : ShelleyTxIn * MultiEraTxOut) : Prop := txin_le a.1 b.1.
#[export] Instance entry_le_dec : RelDecision entry_le.
Proof. intros a b. unfold entry_le, txin_le. destruct (bytes_compare _ _); apply _. Defined.

Definition encode_entry (e : ShelleyTxIn * MultiEraTxOut) : list Z :=
  Encoder_array 2 ++ ShelleyTxIn_encode e.1 ++ MultiEraTxOut_encode e.2.
Definition MultiEraUtxo_encode (u : MultiEraUtxo) : list Z :=
  let entries := merge_sort entry_le (map_to_list u) in
  Encoder_array (zlength entries) ++ concat (map encode_entry entries).

Definition decode_entry (u : MultiEraUtxo) : Dec MultiEraUtxo :=
  pair_len <- Decoder_array ;; expect_len 2 pair_len ;;;
  txin <- ShelleyTxIn_decode ;;
  txout <- MultiEraTxOut_decode ;;
  dret (<[txin := txout]> u).
Definition MultiEraUtxo_decode : Dec MultiEraUtxo :=
  len <- Decoder_array ;; dfor len decode_entry ∅.

(** ** Well-formed values *)

Definition key_lt {A} (a b : list Z * A) : Prop := bytes_compare a.1 b.1 = Lt.

(** What the decoders produce: sorted, without zero quantities and empty
    policies. *)
Definition assets_ok (assets : list (list Z * Z)) : Prop :=
  assets <> [] /\ Forall (fun e => zlength e.1 <= 32 /\ u64 e.2 /\ e.2 <> 0) assets
  /\ StronglySorted key_lt assets.
Definition value_ok (v : MaryValue) : Prop :=
  match v with
  | Value_Coin c => u64 c
  | Value_CoinAndAssets c ma =>
      u64 c /\ ma <> [] /\ Forall (fun e => hash28 e.1 /\ assets_ok e.2) ma
      /\ StronglySorted key_lt ma
  end.
Definition script_wf (s : Script) : Prop :=
  match s with
  | Script_Native ns => script_ok ns /\ script_depth ns <= NATIVE_MAX_DECODE_DEPTH
  | _ => True
  end.
Definition datum_wf (d : DatumOption) : Prop :=
  match d with
  | Datum_Hash h => hash32 h
  | Datum_Inline pd => data_ok pd /\ depth pd <= MAX_DECODE_DEPTH
  end.
Definition out_ok (o : MultiEraTxOut) : Prop :=
  match o with
  | Out_Shelley _ v => u64 v
  | Out_Mary _ v => value_ok v
  | Out_Alonzo _ v h => value_ok v /\ option_ok hash32 h
  | Out_Babbage _ v d s => value_ok v /\ option_ok datum_wf d /\ option_ok script_wf s
  end.
Definition txin_ok (i : ShelleyTxIn) : Prop := hash32 (ti_transaction_id i) /\ u16 (ti_index i).
Definition utxo_ok (u : MultiEraUtxo) : Prop := map_Forall (fun i o => txin_ok i /\ out_ok o) u.

(** ** Loops and maps *)

(** Inserting a sorted list into a map puts every entry last. *)
Lemma insert_sorted {V} (m acc : list (list Z * V)) :
  StronglySorted key_lt (acc ++ m) ->
  foldl (fun acc e => btree_insert bytes_compare e.1 e.2 acc) acc m = acc ++ m.
Proof.
  revert acc. induction m as [|[k v] m IH]; intros acc Hs; [by rewrite app_nil_r|].
  cbn [foldl fst snd]. rewrite btree_insert_last.
  - rewrite IH by (by rewrite <- (assoc_L (++))). by rewrite <- (assoc_L (++)).
  - intros. apply bytes_compare_antisym.
  - apply Forall_forall. intros e He.
    apply (StronglySorted_app_1_elem_of key_lt acc _ e (k, v) Hs He). set_solver.
Qed.

(** A counted map, its entries folded into the result. *)
Lemma decodes_entries {A S} (items : list A) (enc : A -> list Z) (step : S -> A -> S)
    (m : S -> Dec S) s :
  (forall s x, x ∈ items -> decodes (m s) (enc x) (step s x)) ->
  (forall x, x ∈ items -> 1 <= zlength (enc x)) ->
  decodes (decode_entries m s) (Encoder_map (zlength items) ++ concat (map enc items))
    (foldl step s items).
Proof.
  intros Hm Hne. apply decodes_if_fits. intros Hfit. rewrite zlength_app in Hfit.
  pose proof (zlength_concat items enc Hne). pose proof (zlength_nonneg (Encoder_map (zlength items))).
  eapply decodes_bind; [apply decodes_map_begin, u64_zlength; lia|]. by apply decodes_dfor.
Qed.

Lemma decodes_inner {A} (m : Dec A) bs a :
  decodes m bs a -> zlength bs <= ISIZE_MAX -> decode_inner m bs = Ok a.
Proof.
  intros Hm Hlen. unfold decode_inner. specialize (Hm [] []).
  rewrite app_nil_r in Hm. cbn [app] in Hm. unfold at_ in Hm. cbn [app] in Hm.
  change (zlength (A := Z) []) with 0 in Hm. unfold Decoder_new. by rewrite Hm.
Qed.

(** A wrapped encoding. *)
Lemma decodes_nested {A B} (m : Dec A) (k : A -> Dec B) inner a b :
  decodes m inner a -> decodes (k a) [] b ->
  decodes (x <- Decoder_bytes ;; a <- dlift (decode_inner m x) ;; k a) (Encoder_bytes inner) b.
Proof.
  intros Hm Hk. apply decodes_if_fits. intros Hfit.
  eapply decodes_bind_ret; [apply decodes_bytes|].
  eapply decodes_bind0; [apply decodes_lift, (decodes_inner _ _ _ Hm)|done].
  unfold Encoder_bytes in Hfit. rewrite zlength_app in Hfit.
  pose proof (zlength_nonneg (Encoder_write_type_and_arg MAJOR_BYTES (zlength inner))). lia.
Qed.

(** ** Round trips *)

Lemma decodes_ShelleyTxIn i : txin_ok i -> decodes ShelleyTxIn_decode (ShelleyTxIn_encode i) i.
Proof.
  destruct i as [h n]. intros [Hh Hn]. cbn [ti_transaction_id ti_index] in *.
  unfold ShelleyTxIn_decode, ShelleyTxIn_encode. cbn [ti_transaction_id ti_index].
  codec_step. codec_step. codec_step.
  eapply decodes_bind_ret; [apply decodes_unsigned, u64_small; unfold u16, U16_MAX in Hn; lia|].
  rewrite wrap16_id by done. apply decodes_ret.
Qed.

Lemma bytes_first bs rest : 1 <= zlength (Encoder_bytes bs ++ rest).
Proof.
  rewrite zlength_app. pose proof (zlength_nonneg rest). unfold Encoder_bytes. rewrite zlength_app.
  pose proof (zlength_nonneg bs).
  pose proof (write_nonempty MAJOR_BYTES (zlength bs)). lia.
Qed.

Lemma decodes_assets assets :
  assets_ok assets -> decodes (decode_entries decode_asset []) (encode_assets assets) assets.
Proof.
  intros (Hne & Hall & Hs). rewrite Forall_forall in Hall.
  assert (Hfold : foldl (fun acc e => insert_nonzero_asset acc e.1 e.2) [] assets = assets).
  { transitivity (foldl (fun acc e => btree_insert bytes_compare e.1 e.2 acc) [] assets);
      [|by apply (insert_sorted assets [])].
    clear Hne Hs. generalize (@nil (list Z * Z)). induction assets as [|e l IH]; intros acc; [done|].
    cbn [foldl]. rewrite IH by (intros; apply Hall; set_solver). f_equal.
    unfold insert_nonzero_asset. by rewrite (proj2 (Z.eqb_neq e.2 0)) by (apply Hall; set_solver). }
  rewrite <- Hfold at 2.
  apply (decodes_entries assets (fun e => Encoder_bytes e.1 ++ Encoder_unsigned e.2)
           (fun acc e => insert_nonzero_asset acc e.1 e.2)).
  - intros acc e He. destruct (Hall e He) as (Hlen & Hu & Hz). unfold decode_asset.
    eapply decodes_bind; [apply decodes_bytes|]. cbv beta.
    rewrite (proj2 (Z.ltb_ge 32 _)) by lia.
    eapply decodes_bind_ret; [by apply decodes_unsigned|apply decodes_ret].
  - intros e He. apply bytes_first.
Qed.

Lemma decodes_multi_asset ma :
  Forall (fun e => hash28 e.1 /\ assets_ok e.2) ma -> StronglySorted key_lt ma ->
  decodes decode_multi_asset_unsigned (encode_multi_asset ma) ma.
Proof.
  intros Hall Hs. rewrite Forall_forall in Hall.
  assert (Hfold : foldl (fun acc e => insert_nonempty_policy acc e.1 e.2) [] ma = ma).
  { transitivity (foldl (fun acc e => btree_insert bytes_compare e.1 e.2 acc) [] ma);
      [|by apply (insert_sorted ma [])].
    clear Hs. generalize (@nil (list Z * list (list Z * Z))).
    induction ma as [|e l IH]; intros acc; [done|].
    cbn [foldl]. rewrite IH by (intros; apply Hall; set_solver). f_equal.
    unfold insert_nonempty_policy. destruct (Hall e ltac:(set_solver)) as [_ [Hne _]].
    by destruct e.2. }
  rewrite <- Hfold at 2.
  apply (decodes_entries ma (fun e => Encoder_bytes e.1 ++ encode_assets e.2)
           (fun acc e => insert_nonempty_policy acc e.1 e.2)).
  - intros acc e He. destruct (Hall e He) as [Hp Ha]. unfold decode_policy.
    eapply decodes_bind; [by apply decodes_hash28|].
    eapply decodes_bind_ret; [by apply decodes_assets|apply decodes_ret].
  - intros e He. apply bytes_first.
Qed.

Lemma decodes_Value v : value_ok v -> decodes Value_decode (Value_encode v) v.
Proof.
  intros Hv. unfold Value_decode. destruct v as [c|c ma]; cbn [Value_encode value_ok] in *.
  - eapply decodes_peek; [apply peek_major_at, first_major_write; unfold MAJOR_UNSIGNED, u64 in *; lia|].
    cbn [Z.eqb MAJOR_UNSIGNED]. eapply decodes_bind_ret; [by apply decodes_unsigned|apply decodes_ret].
  - destruct Hv as (Hc & Hne & Hall & Hs).
    eapply decodes_peek; [apply peek_major_at, first_major_app, first_major_write; unfold MAJOR_ARRAY; lia|].
    cbn [Z.eqb MAJOR_ARRAY Pos.eqb]. codec_step. codec_step.
    eapply decodes_bind; [by apply decodes_unsigned|].
    eapply decodes_bind_ret; [by apply decodes_multi_asset|]. destruct ma; [done|apply decodes_ret].
Qed.
#[local] Hint Resolve decodes_Value decodes_ShelleyTxIn : cbor.

Lemma decodes_Script s : script_wf s -> decodes Script_decode (Script_encode s) s.
Proof.
  intros Hs. unfold Script_decode. destruct s as [ns|b|b|b]; cbn [Script_encode script_wf] in *;
    do 2 codec_step;
    (eapply decodes_bind; [apply decodes_unsigned, u64_small; lia|]); cbn [Z.eqb Pos.eqb].
  - destruct Hs. eapply decodes_bind_ret; [by apply decodes_native_script|apply decodes_ret].
  - eapply decodes_bind_ret; [apply decodes_bytes|apply decodes_ret].
  - eapply decodes_bind_ret; [apply decodes_bytes|apply decodes_ret].
  - eapply decodes_bind_ret; [apply decodes_bytes|apply decodes_ret].
Qed.

Lemma decodes_ScriptRef s : script_wf s -> decodes ScriptRef_decode (ScriptRef_encode s) s.
Proof.
  intros Hs. unfold ScriptRef_decode, ScriptRef_encode.
  eapply decodes_bind; [apply decodes_tag, u64_small; lia|]. cbn [negb Z.eqb Pos.eqb].
  eapply decodes_nested; [by apply decodes_Script|apply decodes_ret].
Qed.

Lemma decodes_DatumOption d : datum_wf d -> decodes DatumOption_decode (DatumOption_encode d) d.
Proof.
  intros Hd. unfold DatumOption_decode. destruct d as [h|pd]; cbn [DatumOption_encode datum_wf] in *;
    do 2 codec_step;
    (eapply decodes_bind; [apply decodes_unsigned, u64_small; lia|]); cbn [Z.eqb Pos.eqb].
  - eapply decodes_bind_ret; [by apply decodes_hash32|apply decodes_ret].
  - eapply decodes_bind; [apply decodes_tag, u64_small; lia|]. cbn [negb Z.eqb Pos.eqb].
    destruct Hd. eapply decodes_nested; [by apply decodes_plutus_data|apply decodes_ret].
Qed.
#[local] Hint Resolve decodes_ScriptRef decodes_DatumOption : cbor.

Lemma decodes_ShelleyTxOut o :
  u64 (so_amount o) -> decodes ShelleyTxOut_decode (ShelleyTxOut_encode o) o.
Proof.
  destruct o as [a v]. intros Hv. unfold ShelleyTxOut_decode, ShelleyTxOut_encode.
  cbn [so_address so_amount] in *. codec.
Qed.

Lemma decodes_MaryTxOut o : value_ok (mo_amount o) -> decodes MaryTxOut_decode (MaryTxOut_encode o) o.
Proof.
  destruct o as [a v]. intros Hv. unfold MaryTxOut_decode, MaryTxOut_encode.
  cbn [mo_address mo_amount] in *. codec.
Qed.

Lemma decodes_AlonzoTxOut o :
  value_ok (ao_amount o) -> option_ok hash32 (ao_datum_hash o) ->
  decodes AlonzoTxOut_decode (AlonzoTxOut_encode o) o.
Proof.
  destruct o as [a v h]. intros Hv Hh. unfold AlonzoTxOut_decode, AlonzoTxOut_encode.
  cbn [ao_address ao_amount ao_datum_hash] in *. destruct h as [h|]; cbn [option_ok] in Hh;
    (eapply decodes_bind; [apply decodes_array, u64_small; lia|]);
    cbn [negb Z.eqb Pos.eqb andb]; (eapply decodes_bind; [apply decodes_bytes|]);
    (eapply decodes_bind; [by apply decodes_Value|]).
  - eapply decodes_bind_ret; [|apply decodes_ret].
    unfold decode_datum_hash. cbn [Z.eqb Pos.eqb].
    eapply decodes_bind_ret; [by apply decodes_hash32|apply decodes_ret].
  - eapply decodes_bind0; apply decodes_ret.
Qed.

(** The fields of a map output, each after its key. *)
Inductive TxOutField :=
  | Field_address (a : list Z)
  | Field_amount (v : MaryValue)
  | Field_datum (d : DatumOption)
  | Field_script (s : Script).
Definition field_encode (f : TxOutField) : list Z :=
  match f with
  | Field_address a => Encoder_unsigned 0 ++ Encoder_bytes a
  | Field_amount v => Encoder_unsigned 1 ++ Value_encode v
  | Field_datum d => Encoder_unsigned 2 ++ DatumOption_encode d
  | Field_script s => Encoder_unsigned 3 ++ ScriptRef_encode s
  end.
Definition field_ok (f : TxOutField) : Prop :=
  match f with
  | Field_address _ => True
  | Field_amount v => value_ok v
  | Field_datum d => datum_wf d
  | Field_script s => script_wf s
  end.
Definition set_field (t : TxOutFields) (f : TxOutField) : TxOutFields :=
  match f with
  | Field_address a => mkTxOutFields (Some a) (tf_amount t) (tf_datum_option t) (tf_script_ref t)
  | Field_amount v => mkTxOutFields (tf_address t) (Some v) (tf_datum_option t) (tf_script_ref t)
  | Field_datum d => mkTxOutFields (tf_address t) (tf_amount t) (Some d) (tf_script_ref t)
  | Field_script s => mkTxOutFields (tf_address t) (tf_amount t) (tf_datum_option t) (Some s)
  end.

Lemma decodes_field t f : field_ok f -> decodes (decode_txout_field t) (field_encode f) (set_field t f).
Proof.
  intros Hf. unfold decode_txout_field. destruct f; cbn [field_encode set_field field_ok] in *;
    (eapply decodes_bind; [apply decodes_unsigned, u64_small; lia|]); cbn [Z.eqb Pos.eqb].
  - eapply decodes_bind_ret; [apply decodes_bytes|apply decodes_ret].
  - eapply decodes_bind_ret; [by apply decodes_Value|apply decodes_ret].
  - eapply decodes_bind_ret; [by apply decodes_DatumOption|apply decodes_ret].
  - eapply decodes_bind_ret; [by apply decodes_ScriptRef|apply decodes_ret].
Qed.

Lemma decodes_BabbageTxOut o :
  value_ok (bo_amount o) -> option_ok datum_wf (bo_datum_option o) ->
  option_ok script_wf (bo_script_ref o) ->
  decodes BabbageTxOut_decode (BabbageTxOut_encode o) o.
Proof.
  destruct o as [a v d s]. cbn [bo_amount bo_datum_option bo_script_ref]. intros Hv Hd Hs.
  set (fields := [Field_address a; Field_amount v] ++ (Field_datum <$> option_list d)
                 ++ (Field_script <$> option_list s)).
  assert (Henc : BabbageTxOut_encode (mkBabbageTxOut a v d s)
                 = Encoder_map (zlength fields) ++ concat (map field_encode fields)).
  { unfold BabbageTxOut_encode. cbn [bo_address bo_amount bo_datum_option bo_script_ref].
    destruct d, s; cbn; by rewrite <- ?(assoc_L (++)), ?app_nil_r. }
  rewrite Henc. unfold BabbageTxOut_decode.
  eapply decodes_peek; [apply peek_major_at, first_major_app, first_major_write;
                        [unfold MAJOR_MAP; lia|apply zlength_nonneg]|].
  cbn [Z.eqb MAJOR_MAP Pos.eqb]. unfold decode_post_alonzo_txout.
  eapply decodes_bind; [apply decodes_map, u64_small; destruct d, s; vm_compute; split; discriminate|].
  eapply decodes_bind_ret.
  { apply (decodes_dfor fields field_encode set_field). intros t f Hf. apply decodes_field.
    revert f Hf. apply Forall_forall. destruct d, s; repeat constructor; done. }
  destruct d, s; (eapply decodes_bind0; [by apply decodes_lift|]);
    (eapply decodes_bind0; [by apply decodes_lift|]); apply decodes_ret.
Qed.

Lemma decodes_MultiEraTxOut o :
  out_ok o -> decodes MultiEraTxOut_decode (MultiEraTxOut_encode o) o.
Proof.
  intros Ho. unfold MultiEraTxOut_decode, MultiEraTxOut_encode. do 2 codec_step.
  eapply decodes_bind; [apply decodes_unsigned, u64_small; destruct o; cbn; lia|].
  destruct o as [a v|a v|a v h|a v d s]; cbn [era_tag Z.eqb Pos.eqb inner_encode out_ok] in *.
  - eapply decodes_bind_ret; [by apply decodes_ShelleyTxOut|apply decodes_ret].
  - eapply decodes_bind_ret; [by apply decodes_MaryTxOut|apply decodes_ret].
  - destruct Ho. eapply decodes_bind_ret; [by apply decodes_AlonzoTxOut|apply decodes_ret].
  - destruct Ho as (? & ? & ?).
    eapply decodes_bind_ret; [by apply decodes_BabbageTxOut|apply decodes_ret].
Qed.

(** ** The whole set *)

Lemma fold_insert_map (l : list (ShelleyTxIn * MultiEraTxOut)) (acc : MultiEraUtxo) :
  NoDup l.*1 -> foldl (fun u e => <[e.1 := e.2]> u) acc l = list_to_map l ∪ acc.
Proof.
  revert acc. induction l as [|[k v] l IH]; intros acc Hd;
    [by rewrite list_to_map_nil, map_empty_union|].
  csimpl in *. apply NoDup_cons in Hd as [Hk Hd]. rewrite IH by done.
  rewrite <- insert_union_l. apply (symmetry (R := eq)). apply insert_union_r.
  by apply not_elem_of_list_to_map_1.
Qed.

Lemma decodes_entry u e :
  txin_ok e.1 -> out_ok e.2 -> decodes (decode_entry u) (encode_entry e) (<[e.1 := e.2]> u).
Proof.
  intros Hi Ho. unfold decode_entry, encode_entry. do 2 codec_step.
  eapply decodes_bind; [by apply decodes_ShelleyTxIn|].
  eapply decodes_bind_ret; [by apply decodes_MultiEraTxOut|apply decodes_ret].
Qed.

(** C29: a snapshot of the UTxO set is read back: for every set whose inputs and
    outputs are within the ranges of their types, decoding the encoding of
    the set, of whatever eras its outputs are, gives the same set and leaves
    the bytes that follow. *)
Theorem utxo_round_trip (u : MultiEraUtxo) (Hu : utxo_ok u) :
  decodes MultiEraUtxo_decode (MultiEraUtxo_encode u) u.
Proof.
  set (entries := merge_sort entry_le (map_to_list u)).
  assert (Hp : entries ≡ₚ map_to_list u) by apply merge_sort_Permutation.
  assert (Hfold : foldl (fun u e => <[e.1 := e.2]> u) ∅ entries = u).
  { rewrite fold_insert_map; [|by rewrite Hp; apply NoDup_fst_map_to_list].
    rewrite map_union_empty, <- (list_to_map_to_list u). apply list_to_map_proper; [|done].
    rewrite Hp. apply NoDup_fst_map_to_list. }
  apply decodes_if_fits. unfold MultiEraUtxo_encode. fold entries. intros Hfit.
  rewrite zlength_app in Hfit. unfold MultiEraUtxo_decode.
  assert (Hn : zlength entries <= zlength (concat (map encode_entry entries))).
  { apply zlength_concat. intros e _. apply nonempty_app, write_nonempty. }
  pose proof (zlength_nonneg (Encoder_array (zlength entries))).
  eapply decodes_bind; [apply decodes_array, u64_zlength; lia|]. cbv beta.
  rewrite <- Hfold at 1. apply (decodes_dfor entries encode_entry (fun u e => <[e.1 := e.2]> u)).
  intros s [i o] He. rewrite Hp in He. apply elem_of_map_to_list in He.
  destruct (Hu i o He). by apply decodes_entry.
Qed.

(** A reference to a transaction output is read with its index truncated to
    16 bits, so that an encoding that names output [n] for [n >= 65536] names
    output [n mod 65536]. *)
Theorem input_index_truncated (h : list Z) (n : Z) (Hh : hash32 h) (Hn : u64 n) :
  decodes ShelleyTxIn_decode (ShelleyTxIn_encode (mkTxIn h n)) (mkTxIn h (n mod 65536)).
Proof.
  unfold ShelleyTxIn_decode, ShelleyTxIn_encode. cbn [ti_transaction_id ti_index].
  do 3 codec_step. eapply decodes_bind_ret; [by apply decodes_unsigned|apply decodes_ret].
Qed.

Lemma input_index_truncated_witness :
  decodes ShelleyTxIn_decode (ShelleyTxIn_encode (mkTxIn (repeat 9 32) 65539)) (mkTxIn (repeat 9 32) 3).
Proof.
  apply (input_index_truncated (repeat 9 32) 65539); [reflexivity|].
  unfold u64, U64_MAX; lia.
Defined.

Definition sample_set : MultiEraUtxo :=
  <[mkTxIn (repeat 1 32) 0 :=
      Out_Babbage [1; 2] (Value_CoinAndAssets 5 [(repeat 7 28, [([1], 5); ([2], 6)])])
        (Some (Datum_Inline (Data_Constr 1 [Data_Integer 4])))
        (Some (Script_Native (ScriptAny [InvalidBefore 3])))]>
  (<[mkTxIn (repeat 1 32) 1 := Out_Shelley [3] 77]> ∅).

Lemma utxo_round_trip_witness :
  decodes MultiEraUtxo_decode (MultiEraUtxo_encode sample_set) sample_set.
Proof.
  apply (utxo_round_trip sample_set). unfold utxo_ok, sample_set.
  apply map_Forall_insert_2; [|apply map_Forall_insert_2; [|apply map_Forall_empty]].
  - split; [split; [done|unfold u16, U16_MAX; cbn; lia]|].
    cbn. unfold u64, U64_MAX, i64, I64_MIN, I64_MAX, MAX_DECODE_DEPTH, NATIVE_MAX_DECODE_DEPTH.
    repeat (split || lia || done || constructor); cbn; lia || done.
  - split; [split; [done|unfold u16, U16_MAX; cbn; lia]|]. cbn. unfold u64, U64_MAX. lia.
Defined.
