(* ===== verification/Phase1.v ===== *)
(** * Phase-1 validation and collateral

    The checks a transaction passes before its scripts run
    ([crates/ledger/src/state/phase1_validation.rs]): size and fee, the
    minimum lovelace and maximum size of the outputs
    ([crates/ledger/src/min_utxo.rs]) and the collateral it pledges
    ([crates/ledger/src/collateral.rs]). *)

From stdpp Require Import gmap.
From S2P Require Import Prelude Cbor CborSkip Types TypesCodec ProtocolParams Fees FeeTiers NativeScript.
From S2P Require Import PlutusData Uplc Builtins ScriptContext Utxo UtxoBalance TxOutCodec.
Local Open Scope Z_scope.

(** ** Outputs *)

Definition min_lovelace_for_utxo (params : ProtocolParameters) (serialized_output_size : Z)
    : option Z :=
  match coins_per_utxo_byte params with
  | Some per_byte => Some (sat_mul per_byte (wrap64 (serialized_output_size + 160)))
  | None => min_utxo_value params
  end.

Definition validate_min_utxo_for_size (params : ProtocolParameters) (output : MultiEraTxOut)
    (serialized_size : Z) : outcome LedgerError unit :=
  match min_lovelace_for_utxo params serialized_size with
  | Some minimum =>
      let actual := MultiEraTxOut_coin output in
      if actual <? minimum then Err (OutputTooSmall minimum actual) else Ok tt
  | None => Ok tt
  end.
Definition validate_min_utxo (params : ProtocolParameters) (output : MultiEraTxOut)
    : outcome LedgerError unit :=
  validate_min_utxo_for_size params output (inner_cbor_size output).
Definition validate_all_outputs_min_utxo (params : ProtocolParameters)
    (outputs : list MultiEraTxOut) : outcome LedgerError unit :=
  check_all (validate_min_utxo params) outputs.
Definition validate_all_outputs_min_utxo_with_sizes (params : ProtocolParameters)
    (outputs : list MultiEraTxOut) (serialized_sizes : list Z) : outcome LedgerError unit :=
  if negb (length outputs =? length serialized_sizes)%nat
  then Err (CborInvalidLength (zlength outputs) (zlength serialized_sizes))
  else check_all (fun '(o, size) => validate_min_utxo_for_size params o size)
         (zip outputs serialized_sizes).

Definition validate_output_not_too_big (params : ProtocolParameters)
    (outputs : list MultiEraTxOut) : outcome LedgerError unit :=
  match max_val_size params with
  | None => Ok tt
  | Some max_val =>
      check_all (fun o =>
          let size := zlength (Value_encode (MultiEraTxOut_value o)) in
          if max_val <? size then Err (OutputTooBig size max_val) else Ok tt) outputs
  end.

Definition validate_no_zero_valued_multi_asset (outputs : list MultiEraTxOut)
    : outcome LedgerError unit :=
  check_all (fun o =>
      match MultiEraTxOut_value o with
      | Value_CoinAndAssets _ ma =>
          check_all (fun '(policy_id, assets) =>
              check_all (fun '(asset_name, quantity) =>
                  if quantity =? 0 then Err (ZeroValuedMultiAssetOutput policy_id asset_name)
                  else Ok tt) assets) ma
      | Value_Coin _ => Ok tt
      end) outputs.

(** ** Bootstrap addresses *)

Definition BOOT_ADDR_ATTRS_MAX : Z := 64.

(** [m.ok()?]: an error makes the function return [None]; a panic does not. *)
Definition ok_then {A B} (m : outcome LedgerError A) (k : A -> outcome LedgerError (option B))
    : outcome LedgerError (option B) :=
  match m with
  | Ok a => k a
  | Err _ => Ok None
  | Panic => Panic
  | OutOfFuel => OutOfFuel
  end.

(** [let _ = dec.tag().ok()]: the bytes that were read stay read when it fails. *)
Definition skip_optional_tag (d : Decoder) : Decoder :=
  match Decoder_read_byte d with
  | Ok (initial, d1) =>
      if Z.shiftr initial 5 =? MAJOR_TAG then
        match Decoder_read_argument initial d1 with Ok (_, d2) => d2 | _ => d1 end
      else d1
  | _ => d
  end.

Definition byron_addr_attrs_size (raw : list Z) : outcome LedgerError (option Z) :=
  match raw with
  | [] => Ok None
  | header :: _ =>
      if negb (Z.land header 240 =? 128) then Ok None
      else
        ok_then (Decoder_array (Decoder_new raw)) (fun '(arr_len, dec) =>
        if negb (arr_len =? 2) then Ok None
        else
        ok_then (Decoder_tag dec) (fun '(tag, dec) =>
        if negb (tag =? 24) then Ok None
        else
        ok_then (Decoder_bytes dec) (fun '(payload, _) =>
        ok_then (Decoder_array (Decoder_new payload)) (fun '(inner_len, pdec) =>
        if inner_len <? 2 then Ok None
        else
        ok_then (Decoder_bytes (skip_optional_tag pdec)) (fun '(_, pdec) =>
        ok_then (Decoder_skip pdec) (fun '(_, pdec') =>
        Ok (Some (Decoder_position pdec' - Decoder_position pdec))))))))
  end.


Definition validate_output_boot_addr_attrs (outputs : list MultiEraTxOut)
    : outcome LedgerError unit :=
  check_all (fun o =>
      let? attrs := byron_addr_attrs_size (MultiEraTxOut_address o) in
      match attrs with
      | Some size =>
          if BOOT_ADDR_ATTRS_MAX <? size then Err (OutputBootAddrAttrsTooBig size) else Ok tt
      | None => Ok tt
      end) outputs.

(** ** Collateral *)

Definition fee_collateral_required (fee percentage : Z) : Z :=
  wrap64 ((fee * percentage + 100 - 1) / 100).

Definition has_non_ada (o : MultiEraTxOut) : bool :=
  match MultiEraTxOut_value o with
  | Value_Coin _ => false
  | Value_CoinAndAssets _ assets => match assets with [] => false | _ => true end
  end.

(** The loop over the collateral inputs: lovelace and whether there is more. *)
Fixpoint sum_collateral (utxo : MultiEraUtxo) (inputs : list ShelleyTxIn) (input_coin : Z)
    (inputs_have_non_ada : bool) : outcome LedgerError (Z * bool) :=
  match inputs with
  | [] => Ok (input_coin, inputs_have_non_ada)
  | input :: inputs =>
      let? txout := ok_or (utxo !! input) CollateralInputNotInUtxo in
      let? _ :=
        match Address_from_bytes (MultiEraTxOut_address txout) with
        | Some addr => if negb (Address_is_vkey_locked addr) then Err CollateralNotVKeyLocked else Ok tt
        | None => Ok tt
        end in
      sum_collateral utxo inputs (sat_add input_coin (MultiEraTxOut_coin txout))
        (inputs_have_non_ada || has_non_ada txout)
  end.

Definition effective_collateral (input_coin : Z) (inputs_have_non_ada : bool)
    (collateral_return : option MultiEraTxOut) : outcome LedgerError Z :=
  match collateral_return with
  | Some ret =>
      let return_coin := MultiEraTxOut_coin ret in
      if input_coin <? return_coin then Err (CollateralBalanceNegative input_coin return_coin)
      else if negb inputs_have_non_ada && has_non_ada ret then Err CollateralContainsNonAda
      else Ok (input_coin - return_coin)
  | None => if inputs_have_non_ada then Err CollateralContainsNonAda else Ok input_coin
  end.

Definition check_collateral_count (params : ProtocolParameters) (count : Z)
    : outcome LedgerError unit :=
  match max_collateral_inputs params with
  | Some max => if max <? count then Err (TooManyCollateralInputs count max) else Ok tt
  | None => Ok tt
  end.

Definition validate_collateral (params : ProtocolParameters) (utxo : MultiEraUtxo)
    (collateral_inputs : list ShelleyTxIn) (declared_fee : Z)
    (collateral_return : option MultiEraTxOut) (total_collateral : option Z)
    : outcome LedgerError Z :=
  match collateral_inputs with
  | [] => Err NoCollateralInputs
  | _ =>
      let? _ := check_collateral_count params (zlength collateral_inputs) in
      let? (input_coin, non_ada) := sum_collateral utxo collateral_inputs 0 false in
      let? effective := effective_collateral input_coin non_ada collateral_return in
      let? _ :=
        match total_collateral with
        | Some declared =>
            if negb (effective =? declared)
            then Err (IncorrectTotalCollateralField declared effective) else Ok tt
        | None => Ok tt
        end in
      let? _ :=
        match collateral_percentage params with
        | Some pct =>
            let required := fee_collateral_required declared_fee pct in
            if effective <? required
            then Err (InsufficientCollateral declared_fee pct required effective) else Ok tt
        | None => Ok tt
        end in
      Ok effective
  end.

(** ** The phase-1 rules *)

Definition validate_pre_alonzo_tx (params : ProtocolParameters) (tx_body_size declared_fee : Z)
    (outputs : list MultiEraTxOut) : outcome LedgerError unit :=
  let? _ := validate_tx_size params tx_body_size in
  let? _ := validate_fee params tx_body_size None declared_fee in
  let? _ := validate_all_outputs_min_utxo params outputs in
  let? _ := validate_output_not_too_big params outputs in
  let? _ := validate_no_zero_valued_multi_asset outputs in
  validate_output_boot_addr_attrs outputs.

(** The sizes of all outputs, when they are known for all of them. *)
Definition all_raw_sizes (output_raw_sizes : option (list Z))
    (collateral_return : option MultiEraTxOut) (collateral_return_raw_size : option Z)
    : option (list Z) :=
  match output_raw_sizes, collateral_return with
  | Some sizes, Some _ =>
      match collateral_return_raw_size with
      | Some size => Some (sizes ++ [size])
      | None => None
      end
  | Some sizes, None => Some sizes
  | None, _ => None
  end.

Definition validate_alonzo_plus_tx (params : ProtocolParameters) (utxo : MultiEraUtxo)
    (tx_body_size declared_fee : Z) (outputs : list MultiEraTxOut)
    (output_raw_sizes : option (list Z)) (collateral_inputs : option (list ShelleyTxIn))
    (total_ex_units : option ExUnits) (collateral_return : option MultiEraTxOut)
    (collateral_return_raw_size total_collateral : option Z) (has_redeemers : bool)
    (ref_scripts_size : Z) (enforce_collateral_input_limit : bool) : outcome LedgerError unit :=
  let? _ := validate_tx_size params tx_body_size in
  let? _ := validate_conway_fee params tx_body_size total_ex_units ref_scripts_size declared_fee in
  let? _ :=
    match total_ex_units with Some eu => validate_tx_ex_units params eu | None => Ok tt end in
  let all_outputs := (outputs ++ option_list collateral_return)%list in
  let? _ :=
    match all_raw_sizes output_raw_sizes collateral_return collateral_return_raw_size with
    | Some sizes => validate_all_outputs_min_utxo_with_sizes params all_outputs sizes
    | None => validate_all_outputs_min_utxo params all_outputs
    end in
  let? _ := validate_output_not_too_big params all_outputs in
  let? _ := validate_no_zero_valued_multi_asset all_outputs in
  let? _ := validate_output_boot_addr_attrs all_outputs in
  let? _ :=
    match collateral_inputs with
    | Some collateral =>
        if enforce_collateral_input_limit
        then check_collateral_count params (zlength collateral) else Ok tt
    | None => Ok tt
    end in
  let collateral := default [] collateral_inputs in
  if negb has_redeemers then Ok tt
  else
    match collateral with
    | [] => Err MissingCollateralForScripts
    | _ =>
        let? _ :=
          validate_collateral params utxo collateral declared_fee collateral_return
            total_collateral in
        Ok tt
    end.

(** ** Collateral and the UTxO set *)

Lemma sum_collateral_exact u inputs coin non_ada r :
  0 <= coin -> coin + worth MultiEraTxOut_coin u inputs <= U64_MAX ->
  Forall (fun i => option_ok (fun o => 0 <= MultiEraTxOut_coin o) (u !! i)) inputs ->
  sum_collateral u inputs coin non_ada = Ok r -> r.1 = coin + worth MultiEraTxOut_coin u inputs.
Proof.
  revert coin non_ada. induction inputs as [|i js IH]; intros coin non_ada Hc Hfit Hpos H.
  - injection H as <-. unfold worth, sum_of. simpl. lia.
  - inversion Hpos as [|? ? Hi Hjs]; subst. cbn [sum_collateral] in H.
    assert (Hw : worth MultiEraTxOut_coin u (i :: js)
                 = default 0 (MultiEraTxOut_coin <$> u !! i) + worth MultiEraTxOut_coin u js) by done.
    assert (Hw0 : 0 <= worth MultiEraTxOut_coin u js).
    { clear -Hjs. unfold worth, sum_of. induction Hjs as [|j js Hj _ IH]; [done|]. cbn [foldr].
      destruct (u !! j); simpl in *; lia. }
    rewrite Hw in *. destruct (u !! i) as [o|]; [|done]. simpl in Hi, Hfit. cbn [ok_or obind] in H.
    next_check H E. apply IH in H; unfold sat_add in *; rewrite ?Z.min_l in * by lia; simpl; lia || done.
Qed.

Lemma collateral_only_total u tx_id inputs ret n :
  NoDup inputs -> fresh_id u tx_id ->
  utxo_total MultiEraTxOut_coin (apply_collateral_only u tx_id (Some inputs) ret n)
  = utxo_total MultiEraTxOut_coin u - worth MultiEraTxOut_coin u inputs
    + default 0 ((fun r => MultiEraTxOut_coin (Out_of_babbage r)) <$> ret).
Proof.
  intros Hd Hf. unfold apply_collateral_only. cbn [default]. destruct ret as [r|].
  - rewrite utxo_total_insert by (apply remove_inputs_lookup, Hf).
    rewrite remove_inputs_total by done. simpl. lia.
  - rewrite remove_inputs_total by done. simpl. lia.
Qed.

Lemma effective_exact coin non_ada ret e :
  effective_collateral coin non_ada ret = Ok e ->
  e = coin - default 0 (MultiEraTxOut_coin <$> ret).
Proof.
  unfold effective_collateral. destruct ret as [r|]; intros H; simpl.
  - next_check H E1. next_check H E2. by injection H as <-.
  - next_check H E1. injection H as <-. lia.
Qed.

(** What a successful [validate_collateral] has checked. *)
Lemma validated_collateral params u inputs fee ret total e :
  Forall (fun i => option_ok (fun o => 0 <= MultiEraTxOut_coin o) (u !! i)) inputs ->
  worth MultiEraTxOut_coin u inputs <= U64_MAX ->
  validate_collateral params u inputs fee ret total = Ok e ->
  e = worth MultiEraTxOut_coin u inputs - default 0 (MultiEraTxOut_coin <$> ret)
  /\ (forall pct, collateral_percentage params = Some pct -> fee_collateral_required fee pct <= e)
  /\ option_ok (fun t => t = e) total.
Proof.
  intros Hpos Hfit H. unfold validate_collateral in H. destruct inputs as [|i js]; [done|].
  set (inputs := i :: js) in *. next_check H E1. next_check H E2. destruct a0 as [coin non_ada].
  next_check H E3. next_check H E4. next_check H E5. injection H as <-.
  apply sum_collateral_exact in E2; [|lia|lia|done]. apply effective_exact in E3.
  cbn [fst] in E2. split; [lia|]. split.
  - intros pct Hpct. rewrite Hpct in E5. cbv zeta in E5. next_check E5 E6. zbool. lia.
  - destruct total as [t|]; [|done]. destruct (negb _) eqn:E6 in E4; [done|]. zbool. simpl. lia.
Qed.

(** The requirement is the percentage of the fee, rounded up, modulo [2^64]. *)
Lemma collateral_requirement fee pct :
  0 <= fee * pct <= 100 * U64_MAX ->
  fee * pct <= 100 * fee_collateral_required fee pct < fee * pct + 100.
Proof.
  intros Hrange. unfold fee_collateral_required. rewrite wrap64_id.
  - pose proof (Z.div_mod (fee * pct + 100 - 1) 100 ltac:(lia)).
    pose proof (Z.mod_pos_bound (fee * pct + 100 - 1) 100 ltac:(lia)). lia.
  - unfold u64. split; [apply Z.div_pos; lia|].
    assert ((fee * pct + 100 - 1) / 100 < U64_MAX + 1) by (apply Z.div_lt_upper_bound; lia). lia.
Qed.

(** C28: a transaction with scripts that passes phase 1 pays when its scripts
    fail. Its collateral inputs must be distinct, of non-negative amounts that
    sum within 64 bits, and no output of the set may carry its identifier yet.
    The collateral transition then takes exactly the pledged collateral out of
    the UTxO set: at least what [fee_collateral_required] asks for, and the
    total the transaction declares, if it does. That requirement is the
    percentage of the declared fee, rounded up, as long as it fits 64 bits; the
    cast wraps beyond, so that a fee of 12297829382473034411 lovelace, which
    nothing balances when the scripts fail, asks for one lovelace at 150%. *)
Theorem failed_script_pays_collateral (params : ProtocolParameters) (u : MultiEraUtxo)
    (tx_id : list Z) (body_size fee : Z) (outputs : list MultiEraTxOut)
    (sizes : option (list Z)) (collateral : list ShelleyTxIn) (units : option ExUnits)
    (ret : option BabbageTxOut) (ret_size total : option Z) (ref_size : Z) (limit : bool) (n pct : Z)
    (Hok : validate_alonzo_plus_tx params u body_size fee outputs sizes (Some collateral) units
             (Out_of_babbage <$> ret) ret_size total true ref_size limit = Ok tt)
    (Hdistinct : NoDup collateral) (Hfresh : fresh_id u tx_id)
    (Hcoins : Forall (fun i => option_ok (fun o => 0 <= MultiEraTxOut_coin o) (u !! i)) collateral)
    (Hfit : worth MultiEraTxOut_coin u collateral <= U64_MAX)
    (Hpct : collateral_percentage params = Some pct) :
  (exists paid,
    utxo_total MultiEraTxOut_coin (apply_collateral_only u tx_id (Some collateral) ret n) + paid
    = utxo_total MultiEraTxOut_coin u
    /\ fee_collateral_required fee pct <= paid
    /\ (0 <= fee * pct <= 100 * U64_MAX -> fee * pct <= 100 * paid)
    /\ option_ok (fun t => t = paid) total)
  /\ fee_collateral_required 12297829382473034411 150 = 1.
Proof.
  split; [|reflexivity]. unfold validate_alonzo_plus_tx in Hok. cbv zeta in Hok.
  do 8 (let E := fresh "E" in next_check Hok E). cbn [negb default id] in Hok.
  destruct collateral as [|i js]; [done|]. set (collateral := i :: js) in *.
  next_check Hok Ec. apply validated_collateral in Ec as (-> & Hreq & Htotal); [|done|done].
  specialize (Hreq pct Hpct). eexists. split_and!; [|exact Hreq| |exact Htotal].
  - rewrite collateral_only_total by done. destruct ret; simpl; lia.
  - intros Hr. apply collateral_requirement in Hr. lia.
Qed.

(** ** Gaps in the collateral rule *)

(** The address of an output lets it be collateral. *)
Definition spendable (o : MultiEraTxOut) : Prop :=
  option_ok (fun a => Address_is_vkey_locked a = true) (Address_from_bytes (MultiEraTxOut_address o)).

Lemma sum_collateral_step u i js coin b o :
  u !! i = Some o -> spendable o ->
  sum_collateral u (i :: js) coin b
  = sum_collateral u js (sat_add coin (MultiEraTxOut_coin o)) (b || has_non_ada o).
Proof.
  intros Hi Hs. cbn [sum_collateral]. rewrite Hi. cbn [ok_or obind]. unfold spendable in Hs.
  destruct (Address_from_bytes _); simpl in Hs; [rewrite Hs|]; done.
Qed.

Lemma collateral_accepted params u inputs fee ret coin non_ada :
  inputs <> [] ->
  check_collateral_count params (zlength inputs) = Ok tt ->
  sum_collateral u inputs 0 false = Ok (coin, non_ada) ->
  MultiEraTxOut_coin ret <= coin -> negb non_ada && has_non_ada ret = false ->
  option_ok (fun pct => fee_collateral_required fee pct <= coin - MultiEraTxOut_coin ret)
    (collateral_percentage params) ->
  validate_collateral params u inputs fee (Some ret) None = Ok (coin - MultiEraTxOut_coin ret).
Proof.
  intros Hne Hc Hs Hle Hn Hp. unfold validate_collateral. destruct inputs; [done|].
  rewrite Hc. cbn [obind]. rewrite Hs. cbn [obind effective_collateral].
  rewrite (proj2 (Z.ltb_ge _ _)) by lia. rewrite Hn. cbn [obind].
  destruct (collateral_percentage params); [|done]. simpl in Hp.
  by rewrite (proj2 (Z.ltb_ge _ _)) by lia.
Qed.

(** The collateral inputs are not checked to differ, and the other assets of
    the return output are not compared with those of the inputs. (1) An input
    of [c] lovelace pledged twice counts as [2c]: a return output of [r <= 2c]
    is accepted, and when the scripts fail the UTxO set gains [r - c]
    lovelace. (2) With one token among the inputs, a return output with any
    assets is accepted, and they are in the UTxO set when the scripts fail. *)
Theorem collateral_gaps (params : ProtocolParameters) (u : MultiEraUtxo) (tx_id : list Z)
    (i : ShelleyTxIn) (o : MultiEraTxOut) (fee n : Z) (ret : BabbageTxOut)
    (Hi : u !! i = Some o) (Hspend : spendable o) (Hfresh : fresh_id u tx_id)
    (Hcount : check_collateral_count params 1 = Ok tt /\ check_collateral_count params 2 = Ok tt)
    (Hc : 0 <= MultiEraTxOut_coin o /\ 2 * MultiEraTxOut_coin o <= U64_MAX) :
  let c := MultiEraTxOut_coin o in
  let r := MultiEraTxOut_coin (Out_of_babbage ret) in
  let pays e := option_ok (fun pct => fee_collateral_required fee pct <= e)
                  (collateral_percentage params) in
  (has_non_ada o = false -> has_non_ada (Out_of_babbage ret) = false -> r <= 2 * c ->
   pays (2 * c - r) ->
     validate_collateral params u [i; i] fee (Some (Out_of_babbage ret)) None = Ok (2 * c - r)
     /\ utxo_total MultiEraTxOut_coin (apply_collateral_only u tx_id (Some [i; i]) (Some ret) n)
        = utxo_total MultiEraTxOut_coin u + (r - c))
  /\ (has_non_ada o = true -> r <= c -> pays (c - r) ->
        validate_collateral params u [i] fee (Some (Out_of_babbage ret)) None = Ok (c - r)
        /\ forall p q, utxo_total (out_quantity p q)
                         (apply_collateral_only u tx_id (Some [i]) (Some ret) n)
             = utxo_total (out_quantity p q) u - out_quantity p q o
               + out_quantity p q (Out_of_babbage ret)).
Proof.
  intros c r pays. assert (Hadd : sat_add 0 c = c /\ sat_add c c = 2 * c) by (unfold sat_add; lia).
  split.
  - intros Ho Hr Hle Hp. split.
    + apply (collateral_accepted _ _ _ _ _ (2 * c) false); try done; try apply Hcount.
      rewrite !(sum_collateral_step u i _ _ _ o Hi Hspend), Ho. cbn [sum_collateral orb].
      fold c. by rewrite (proj1 Hadd), (proj2 Hadd).
    + unfold apply_collateral_only, remove_inputs. cbn [default foldl id].
      rewrite utxo_total_insert.
      * rewrite !utxo_total_delete, lookup_delete_eq, Hi. simpl. subst c r. simpl. lia.
      * apply (remove_inputs_lookup _ [i; i]), Hfresh.
  - intros Ho Hle Hp. split.
    + apply (collateral_accepted _ _ _ _ _ c true); try done; try apply Hcount.
      rewrite (sum_collateral_step u i _ _ _ o Hi Hspend), Ho. cbn [sum_collateral orb].
      fold c. by rewrite (proj1 Hadd).
    + intros p q. unfold apply_collateral_only, remove_inputs. cbn [default foldl id].
      rewrite utxo_total_insert; [rewrite utxo_total_delete, Hi; simpl; lia|].
      apply (remove_inputs_lookup _ [i]), Hfresh.
Qed.

(** ** An address that stops the node *)

Lemma check_all_app {A E} (check : A -> outcome E unit) l l' :
  check_all check l = Ok tt -> check_all check (l ++ l') = check_all check l'.
Proof.
  induction l as [|x l IH]; [done|]. cbn [app check_all].
  destruct (check x) as [[]| | |]; cbn [obind]; done.
Qed.

(** A bootstrap address whose payload claims [2^64 - 1] bytes. *)
Definition crafted_address : list Z := [130; 216; 24; 91; 255; 255; 255; 255; 255; 255; 255; 255].

(** Measuring the attributes of a bootstrap address does not only accept or
    reject: a transaction that passes the other phase-1 checks and has an
    output with the crafted address makes the check panic, because the
    length of the payload overflows the reading position. *)
Theorem crafted_address_panics (params : ProtocolParameters) (body_size fee : Z)
    (before after : list MultiEraTxOut) (o : MultiEraTxOut)
    (Haddr : MultiEraTxOut_address o = crafted_address)
    (Hsize : validate_tx_size params body_size = Ok tt)
    (Hfee : validate_fee params body_size None fee = Ok tt)
    (Hmin : validate_all_outputs_min_utxo params (before ++ o :: after) = Ok tt)
    (Hbig : validate_output_not_too_big params (before ++ o :: after) = Ok tt)
    (Hzero : validate_no_zero_valued_multi_asset (before ++ o :: after) = Ok tt)
    (Hbefore : validate_output_boot_addr_attrs before = Ok tt) :
  validate_pre_alonzo_tx params body_size fee (before ++ o :: after) = Panic.
Proof.
  unfold validate_pre_alonzo_tx. rewrite Hsize, Hfee, Hmin, Hbig, Hzero. cbn [obind].
  unfold validate_output_boot_addr_attrs in *. rewrite check_all_app by done.
  cbn [check_all]. rewrite Haddr. reflexivity.
Qed.

(** ** Witnesses *)

Definition alonzo_params : ProtocolParameters :=
  alonzo_defaults <| coins_per_utxo_byte := None |>.

Lemma crafted_address_panics_witness :
  validate_pre_alonzo_tx alonzo_params 100 200000
    [Out_Shelley [1] 5; Out_Shelley crafted_address 7] = Panic.
Proof.
  apply (crafted_address_panics alonzo_params 100 200000 [Out_Shelley [1] 5] []
           (Out_Shelley crafted_address 7)); vm_compute; reflexivity.
Defined.

Definition pledge : ShelleyTxIn := mkTxIn [2] 0.
Definition pledge_utxo : MultiEraUtxo := <[pledge := Out_Shelley [] 1000000]> ∅.
Lemma pledge_fresh : fresh_id pledge_utxo [3].
Proof. intros i. unfold pledge_utxo, pledge. by rewrite lookup_insert_ne. Qed.

Lemma failed_script_pays_collateral_witness :
  exists paid,
    utxo_total MultiEraTxOut_coin
      (apply_collateral_only pledge_utxo [3] (Some [pledge]) (Some (plain_output (Value_Coin 400000))) 1)
      + paid = utxo_total MultiEraTxOut_coin pledge_utxo
    /\ fee_collateral_required 200000 150 <= paid
    /\ (0 <= 200000 * 150 <= 100 * U64_MAX -> 200000 * 150 <= 100 * paid)
    /\ option_ok (fun t => t = paid) (Some 600000).
Proof.
  apply (failed_script_pays_collateral alonzo_params pledge_utxo [3] 100 200000 [] None [pledge] None
           (Some (plain_output (Value_Coin 400000))) None (Some 600000) 0 true 1 150).
  - vm_compute. reflexivity.
  - apply NoDup_singleton.
  - apply pledge_fresh.
  - constructor; [vm_compute; discriminate|constructor].
  - vm_compute. discriminate.
  - reflexivity.
Defined.

(** A million lovelace pledged twice, 1.7 million returned. *)
Lemma collateral_gaps_witness :
  validate_collateral alonzo_params pledge_utxo [pledge; pledge] 200000
    (Some (Out_of_babbage (plain_output (Value_Coin 1700000)))) None = Ok 300000
  /\ utxo_total MultiEraTxOut_coin
       (apply_collateral_only pledge_utxo [3] (Some [pledge; pledge])
          (Some (plain_output (Value_Coin 1700000))) 1)
     = utxo_total MultiEraTxOut_coin pledge_utxo + 700000.
Proof.
  refine (proj1 (collateral_gaps alonzo_params pledge_utxo [3] pledge (Out_Shelley [] 1000000)
    200000 1 (plain_output (Value_Coin 1700000)) _ _ pledge_fresh _ _) _ _ _ _).
  - vm_compute. reflexivity.
  - vm_compute. exact I.
  - vm_compute. split; reflexivity.
  - vm_compute. split; discriminate.
  - reflexivity.
  - reflexivity.
  - vm_compute. discriminate.
  - vm_compute. discriminate.
Defined.
