(* ===== verification/SumKes.v ===== *)
(** * Key-evolving signatures

    Model of [crates/crypto/src/kes.rs] and [crates/crypto/src/sum_kes.rs]:
    single-period signatures, their compact and indexed forms, and the sum
    composition, a binary tree of single-period keys whose verification key is
    the hash of its two subtrees. Ed25519 and Blake2b-256 come from third-party
    crates: they are the parameter classes [Ed25519] and [Blake2b256]. *)

From S2P Require Import Prelude Cbor Types Consensus.
Local Open Scope Z_scope.

Inductive CryptoError :=
  | InvalidVerificationKey
  | SignatureVerificationFailed
  | InvalidKesPeriod (period : Z)
  | InvalidKesKeyMaterialLength (len : Z)
  | InvalidKesDepth (depth : Z)
  | KesVerificationKeyMismatch
  | CryptoInvalidVrfProof
  | CryptoKesPeriodOverflow.

Definition crypto_outcome := outcome CryptoError.

(** [&data[from..to]] *)
Definition byte_range {E} (from to : Z) (data : list Z) : outcome E (list Z) :=
  if to <=? zlength data then Ok (zslice from to data) else Panic.

(** ** Ed25519 *)

Class Ed25519 := {
  ed_public : list Z -> list Z;
  ed_sign : list Z -> list Z -> list Z;
  ed_decompresses : list Z -> bool;
  ed_verify_strict : list Z -> list Z -> list Z -> bool }.

(** What the code relies on: sizes, and that signatures verify. *)
Class Ed25519Laws `{Ed25519} := {
  ed_public_size : forall seed, zlength (ed_public seed) = 32;
  ed_sign_size : forall seed m, zlength (ed_sign seed m) = 64;
  ed_public_valid : forall seed, ed_decompresses (ed_public seed) = true;
  ed_correct : forall seed m, ed_verify_strict (ed_public seed) m (ed_sign seed m) = true }.

Section Kes.
Context `{Ed25519, Blake2b256}.

Definition SigningKey_verification_key (seed : list Z) : crypto_outcome (list Z) :=
  Ok (ed_public seed).
Definition SigningKey_sign (seed message : list Z) : crypto_outcome (list Z) :=
  Ok (ed_sign seed message).
Definition VerificationKey_verify (key message signature : list Z) : crypto_outcome unit :=
  if ed_decompresses key then
    if ed_verify_strict key message signature then Ok tt else Err SignatureVerificationFailed
  else Err InvalidVerificationKey.

(** ** Single-period signatures *)

Definition KES_TOTAL_PERIODS : Z := 1.
Definition KES_SIGNATURE_SIZE : Z := 64.
Definition KES_KEY_SIZE : Z := 32.

Definition ensure_supported_period (period : Z) : crypto_outcome unit :=
  if period <? KES_TOTAL_PERIODS then Ok tt else Err (InvalidKesPeriod period).

Definition KesPeriod_next (period : Z) : crypto_outcome Z :=
  if period + 1 <=? U32_MAX then Ok (period + 1) else Err CryptoKesPeriodOverflow.

Definition KesSigningKey_verification_key (seed : list Z) : crypto_outcome (list Z) :=
  SigningKey_verification_key seed.

Definition KesSigningKey_sign (seed : list Z) (period : Z) (message : list Z)
    : crypto_outcome (list Z) :=
  let? _ := ensure_supported_period period in
  SigningKey_sign seed message.

Definition KesVerificationKey_verify (key : list Z) (period : Z) (message signature : list Z)
    : crypto_outcome unit :=
  let? _ := ensure_supported_period period in
  VerificationKey_verify key message signature.

(** [CompactKesSignature]: the signature followed by the key. *)
Definition compact_signature (sig : list Z) : list Z := zslice 0 KES_SIGNATURE_SIZE sig.
Definition compact_verification_key (sig : list Z) : list Z :=
  drop (Z.to_nat KES_SIGNATURE_SIZE) sig.

Definition sign_compact (seed : list Z) (period : Z) (message : list Z)
    : crypto_outcome (list Z) :=
  let? _ := ensure_supported_period period in
  let? key := KesSigningKey_verification_key seed in
  let? signature := KesSigningKey_sign seed period message in
  Ok (signature ++ key).

Definition verify_compact (key : list Z) (period : Z) (message signature : list Z)
    : crypto_outcome unit :=
  let? _ := ensure_supported_period period in
  if decide (compact_verification_key signature = key)
  then KesVerificationKey_verify key period message (compact_signature signature)
  else Err KesVerificationKeyMismatch.

(** ** One key per period *)

(** [SimpleKesSigningKey]: a list of seeds; [SimpleKesVerificationKey]: a list
    of keys. *)
Fixpoint chunks_exact (fuel : nat) (size : nat) (bytes : list Z) : list (list Z) :=
  match fuel with
  | O => []
  | S fuel =>
      if (length bytes <? size)%nat then [] else take size bytes :: chunks_exact fuel size (drop size bytes)
  end.

Definition simple_from_bytes (bytes : list Z) : crypto_outcome (list (list Z)) :=
  if zlength bytes =? 0 then Err (InvalidKesDepth 0)
  else if negb (zlength bytes mod KES_KEY_SIZE =? 0) then
    Err (InvalidKesKeyMaterialLength (zlength bytes))
  else Ok (chunks_exact (length bytes) (Z.to_nat KES_KEY_SIZE) bytes).

Definition simple_to_bytes (keys : list (list Z)) : list Z := concat keys.

Fixpoint collect_keys (seeds : list (list Z)) : crypto_outcome (list (list Z)) :=
  match seeds with
  | [] => Ok []
  | seed :: seeds =>
      let? key := KesSigningKey_verification_key seed in
      let? keys := collect_keys seeds in
      Ok (key :: keys)
  end.

Definition simple_at (keys : list (list Z)) (period : Z) : crypto_outcome (list Z) :=
  ok_or (keys !! Z.to_nat period) (InvalidKesPeriod period).

Definition simple_sign (seeds : list (list Z)) (period : Z) (message : list Z)
    : crypto_outcome (list Z) :=
  let? seed := simple_at seeds period in
  KesSigningKey_sign seed 0 message.

Definition simple_verify (keys : list (list Z)) (period : Z) (message signature : list Z)
    : crypto_outcome unit :=
  let? key := simple_at keys period in
  KesVerificationKey_verify key 0 message signature.

(** [SimpleKesSignature]: the period in four bytes, then the signature. *)
Definition indexed_period (sig : list Z) : Z := from_be (zslice 0 4 sig).
Definition indexed_signature (sig : list Z) : list Z := drop 4 sig.

Definition sign_indexed (seeds : list (list Z)) (period : Z) (message : list Z)
    : crypto_outcome (list Z) :=
  let? signature := simple_sign seeds period message in
  Ok (to_be 4 period ++ signature).

Definition verify_indexed (keys : list (list Z)) (message signature : list Z)
    : crypto_outcome unit :=
  simple_verify keys (indexed_period signature) message (indexed_signature signature).

(** [SimpleCompactKesSignature]: the period, then the compact signature. *)
Definition sign_indexed_compact (seeds : list (list Z)) (period : Z) (message : list Z)
    : crypto_outcome (list Z) :=
  let? seed := simple_at seeds period in
  let? signature := sign_compact seed 0 message in
  Ok (to_be 4 period ++ signature).

Definition verify_indexed_compact (keys : list (list Z)) (message signature : list Z)
    : crypto_outcome unit :=
  let? key := simple_at keys (indexed_period signature) in
  if decide (compact_verification_key (indexed_signature signature) = key)
  then KesVerificationKey_verify key 0 message (compact_signature (indexed_signature signature))
  else Err KesVerificationKeyMismatch.

(** ** The sum composition *)

Definition VK_SIZE : Z := 32.
Definition SIG_SIZE : Z := 64.
Definition SEED_SIZE : Z := 32.

(** [SumKesSignature] and [SumKesSigningKey] *)
Record Deep := mkDeep { tree_depth : nat; tree_data : list Z }.

Definition signature_expected_size (depth : nat) : Z := SIG_SIZE + Z.of_nat depth * (2 * VK_SIZE).

Definition SumKesSignature_from_bytes (depth : nat) (bytes : list Z) : crypto_outcome Deep :=
  if zlength bytes =? signature_expected_size depth then Ok (mkDeep depth bytes)
  else Err (InvalidKesKeyMaterialLength (zlength bytes)).

Definition base_signature (sig : list Z) : crypto_outcome (list Z) := byte_range 0 SIG_SIZE sig.

(** Levels are stored from the leaf outwards. *)
Definition sig_vk_left (sig : list Z) (level : nat) : crypto_outcome (list Z) :=
  let off := signature_expected_size level in byte_range off (off + VK_SIZE) sig.
Definition sig_vk_right (sig : list Z) (level : nat) : crypto_outcome (list Z) :=
  let off := signature_expected_size level + VK_SIZE in byte_range off (off + VK_SIZE) sig.

(** [1u32 << depth], where the shift amount is taken modulo 32. *)
Definition total_periods (depth : nat) : Z := Z.shiftl 1 (Z.of_nat depth mod 32).

Fixpoint sk_size (depth : nat) : Z :=
  match depth with
  | O => SEED_SIZE
  | S depth => sk_size depth + SEED_SIZE + 2 * VK_SIZE
  end.

Definition SumKesSigningKey_from_bytes (depth : nat) (bytes : list Z) : crypto_outcome Deep :=
  if zlength bytes =? sk_size depth then Ok (mkDeep depth bytes)
  else Err (InvalidKesKeyMaterialLength (zlength bytes)).

Definition expand_seed (seed : list Z) : list Z * list Z :=
  (blake2b_256 (1 :: seed), blake2b_256 (2 :: seed)).

Definition hash_pair_of_vkeys (vk_left vk_right : list Z) : list Z :=
  blake2b_256 (vk_left ++ vk_right).

(** Fields of a signing key whose child has depth [child]. *)
Definition extract_child_sk (child : nat) (sk : list Z) : crypto_outcome (list Z) :=
  byte_range 0 (sk_size child) sk.
Definition extract_seed_right (child : nat) (sk : list Z) : crypto_outcome (list Z) :=
  byte_range (sk_size child) (sk_size child + SEED_SIZE) sk.
Definition extract_vk_left_from_sk (child : nat) (sk : list Z) : crypto_outcome (list Z) :=
  let off := sk_size child + SEED_SIZE in byte_range off (off + VK_SIZE) sk.
Definition extract_vk_right_from_sk (child : nat) (sk : list Z) : crypto_outcome (list Z) :=
  let off := sk_size child + SEED_SIZE + VK_SIZE in byte_range off (off + VK_SIZE) sk.

Definition derive_sum_kes_vk (sk : Deep) : crypto_outcome (list Z) :=
  match tree_depth sk with
  | O => let? seed := byte_range 0 SEED_SIZE (tree_data sk) in SigningKey_verification_key seed
  | S child =>
      let? vk_left := extract_vk_left_from_sk child (tree_data sk) in
      let? vk_right := extract_vk_right_from_sk child (tree_data sk) in
      Ok (hash_pair_of_vkeys vk_left vk_right)
  end.

Fixpoint gen_sum_kes_signing_key (seed : list Z) (depth : nat) : crypto_outcome Deep :=
  match depth with
  | O => Ok (mkDeep 0 seed)
  | S child =>
      let '(left_seed, right_seed) := expand_seed seed in
      let? sk_left := gen_sum_kes_signing_key left_seed child in
      let? vk_left := derive_sum_kes_vk sk_left in
      let? sk_right := gen_sum_kes_signing_key right_seed child in
      let? vk_right := derive_sum_kes_vk sk_right in
      Ok (mkDeep depth (tree_data sk_left ++ right_seed ++ vk_left ++ vk_right))
  end.

Fixpoint sign_at (depth : nat) (sk : list Z) (period : Z) (message : list Z)
    : crypto_outcome (list Z) :=
  if total_periods depth <=? period then Err (InvalidKesPeriod period)
  else
    match depth with
    | O =>
        let? seed := byte_range 0 SEED_SIZE sk in
        KesSigningKey_sign seed 0 message
    | S child =>
        let half := total_periods depth / 2 in
        let? child_sk := extract_child_sk child sk in
        let? vk_left := extract_vk_left_from_sk child sk in
        let? vk_right := extract_vk_right_from_sk child sk in
        let child_period := if period <? half then period else period - half in
        let? child_sig := sign_at child child_sk child_period message in
        Ok (child_sig ++ vk_left ++ vk_right)
    end.

Definition sign_sum_kes (sk : Deep) (period : Z) (message : list Z) : crypto_outcome Deep :=
  let? sig := sign_at (tree_depth sk) (tree_data sk) period message in
  Ok (mkDeep (tree_depth sk) sig).

Fixpoint verify_at (depth : nat) (vk : list Z) (period : Z) (message sig : list Z)
    : crypto_outcome unit :=
  match depth with
  | O =>
      let? base := base_signature sig in
      KesVerificationKey_verify vk 0 message base
  | S child =>
      if total_periods depth <=? period then Err (InvalidKesPeriod period)
      else
        let? vk_left := sig_vk_left sig child in
        let? vk_right := sig_vk_right sig child in
        if decide (vk = hash_pair_of_vkeys vk_left vk_right) then
          let half := total_periods depth / 2 in
          let? child_sig := byte_range 0 (signature_expected_size child) sig in
          if period <? half then verify_at child vk_left period message child_sig
          else verify_at child vk_right (period - half) message child_sig
        else Err KesVerificationKeyMismatch
  end.

Definition verify_sum_kes (vk : list Z) (period : Z) (message : list Z) (sig : Deep)
    : crypto_outcome unit :=
  verify_at (tree_depth sig) vk period message (tree_data sig).

Definition zeroed_seed : list Z := replicate (Z.to_nat SEED_SIZE) 0.

Fixpoint update_at (depth : nat) (sk : list Z) (current_period : Z)
    : crypto_outcome (option (list Z)) :=
  if total_periods depth <=? wrap32 (current_period + 1) then Ok None
  else
    match depth with
    | O => Ok None
    | S child =>
        let half := total_periods depth / 2 in
        match wrap32 (current_period + 1) ?= half with
        | Lt =>
            let? child_sk := extract_child_sk child sk in
            let? updated := update_at child child_sk current_period in
            match updated with
            | Some new_child =>
                let? seed_right := extract_seed_right child sk in
                let? vk_left := extract_vk_left_from_sk child sk in
                let? vk_right := extract_vk_right_from_sk child sk in
                Ok (Some (new_child ++ seed_right ++ vk_left ++ vk_right))
            | None => Ok None
            end
        | Eq =>
            let? seed_right := extract_seed_right child sk in
            let? new_child := gen_sum_kes_signing_key seed_right child in
            let? vk_left := extract_vk_left_from_sk child sk in
            let? vk_right := extract_vk_right_from_sk child sk in
            Ok (Some (tree_data new_child ++ zeroed_seed ++ vk_left ++ vk_right))
        | Gt =>
            let? child_sk := extract_child_sk child sk in
            let? updated := update_at child child_sk (wrap32 (current_period - half)) in
            match updated with
            | Some new_child =>
                let? vk_left := extract_vk_left_from_sk child sk in
                let? vk_right := extract_vk_right_from_sk child sk in
                Ok (Some (new_child ++ zeroed_seed ++ vk_left ++ vk_right))
            | None => Ok None
            end
        end
    end.

Definition update_sum_kes (sk : Deep) (current_period : Z) : crypto_outcome (option Deep) :=
  let? updated := update_at (tree_depth sk) (tree_data sk) current_period in
  Ok (mkDeep (tree_depth sk) <$> updated).

(** ** The keys of a tree *)

(** The verification key of the tree grown from a seed. *)
Fixpoint tree_key (depth : nat) (seed : list Z) : list Z :=
  match depth with
  | O => ed_public seed
  | S child =>
      let '(l, r) := expand_seed seed in
      hash_pair_of_vkeys (tree_key child l) (tree_key child r)
  end.

(** The seed of the leaf that signs in period [t]. *)
Fixpoint leaf_seed (depth : nat) (seed : list Z) (t : Z) : list Z :=
  match depth with
  | O => seed
  | S child =>
      let '(l, r) := expand_seed seed in
      if t <? 2 ^ Z.of_nat child then leaf_seed child l t
      else leaf_seed child r (t - 2 ^ Z.of_nat child)
  end.

(** The signing key as it stands in period [t]. *)
Fixpoint key_at (depth : nat) (seed : list Z) (t : Z) : list Z :=
  match depth with
  | O => seed
  | S child =>
      let '(l, r) := expand_seed seed in
      let keys := tree_key child l ++ tree_key child r in
      if t <? 2 ^ Z.of_nat child then key_at child l t ++ r ++ keys
      else key_at child r (t - 2 ^ Z.of_nat child) ++ zeroed_seed ++ keys
  end.

(** The keys beside the path to leaf [t], from the leaf outwards. *)
Fixpoint path_keys (depth : nat) (seed : list Z) (t : Z) : list Z :=
  match depth with
  | O => []
  | S child =>
      let '(l, r) := expand_seed seed in
      let keys := tree_key child l ++ tree_key child r in
      if t <? 2 ^ Z.of_nat child then path_keys child l t ++ keys
      else path_keys child r (t - 2 ^ Z.of_nat child) ++ keys
  end.

(** Two strings of two keys with one hash. *)
Definition key_collision : Prop :=
  exists x y : list Z, zlength x = 64 /\ zlength y = 64 /\ x <> y /\ blake2b_256 x = blake2b_256 y.

Context `{!Ed25519Laws} (hash_size : forall m, zlength (blake2b_256 m) = 32).

Lemma byte_range_app {E} (pre bs suf : list Z) from to :
  from = zlength pre -> to = zlength pre + zlength bs ->
  @byte_range E from to (pre ++ bs ++ suf) = Ok bs.
Proof.
  intros -> ->. unfold byte_range. rewrite zslice_app.
  rewrite (proj2 (Z.leb_le _ _)); [done|].
  rewrite !zlength_app. pose proof (zlength_nonneg suf). lia.
Qed.

Lemma byte_range_head {E} (bs suf : list Z) to :
  to = zlength bs -> @byte_range E 0 to (bs ++ suf) = Ok bs.
Proof. intros ->. by apply (byte_range_app [] bs suf). Qed.

Lemma byte_range_last {E} (pre bs : list Z) from to :
  from = zlength pre -> to = zlength pre + zlength bs ->
  @byte_range E from to (pre ++ bs) = Ok bs.
Proof. intros. rewrite <- (app_nil_r bs) at 1. by apply byte_range_app. Qed.

Lemma total_periods_pow depth : (depth < 32)%nat -> total_periods depth = 2 ^ Z.of_nat depth.
Proof.
  intros ?. unfold total_periods. rewrite Z.mod_small by lia. rewrite Z.shiftl_mul_pow2; lia.
Qed.

Lemma half_periods child :
  (S child < 32)%nat -> total_periods (S child) / 2 = 2 ^ Z.of_nat child.
Proof.
  intros ?. rewrite total_periods_pow by lia. rewrite Nat2Z.inj_succ, Z.pow_succ_r by lia.
  rewrite Z.mul_comm. apply Z.div_mul. lia.
Qed.

Lemma periods_double child : 2 ^ Z.of_nat (S child) = 2 * 2 ^ Z.of_nat child.
Proof. rewrite Nat2Z.inj_succ, Z.pow_succ_r by lia. done. Qed.

Lemma periods_pos child : 0 < 2 ^ Z.of_nat child.
Proof. lia. Qed.

Lemma tree_key_size depth seed : zlength (tree_key depth seed) = 32.
Proof. destruct depth; cbn; [apply ed_public_size | apply hash_size]. Qed.

Lemma zeroed_seed_size : zlength zeroed_seed = 32.
Proof. done. Qed.

Lemma key_at_size depth : forall seed t, zlength seed = 32 -> zlength (key_at depth seed t) = sk_size depth.
Proof.
  induction depth as [|child IH]; intros seed t Hs; cbn [key_at sk_size]; [done|].
  unfold expand_seed. destruct (_ <? _);
    rewrite !zlength_app, IH, !tree_key_size, ?zeroed_seed_size, ?hash_size by apply hash_size;
    unfold SEED_SIZE, VK_SIZE; lia.
Qed.

(** A signing key with its child, saved seed and keys. *)
Lemma fields_of child (c s kl kr : list Z) :
  zlength c = sk_size child -> zlength s = 32 -> zlength kl = 32 -> zlength kr = 32 ->
  let sk := c ++ s ++ kl ++ kr in
  extract_child_sk child sk = Ok c /\ extract_seed_right child sk = Ok s
  /\ extract_vk_left_from_sk child sk = Ok kl /\ extract_vk_right_from_sk child sk = Ok kr.
Proof.
  intros Hc Hs Hl Hr sk. unfold sk, extract_child_sk, extract_seed_right,
    extract_vk_left_from_sk, extract_vk_right_from_sk, SEED_SIZE, VK_SIZE. repeat split.
  - by apply byte_range_head.
  - apply byte_range_app; lia.
  - rewrite app_assoc. apply byte_range_app; rewrite zlength_app; lia.
  - rewrite !app_assoc. apply byte_range_last; rewrite !zlength_app; lia.
Qed.

Lemma derive_key depth seed t :
  zlength seed = 32 -> derive_sum_kes_vk (mkDeep depth (key_at depth seed t)) = Ok (tree_key depth seed).
Proof.
  intros Hs. destruct depth as [|child]; cbn [derive_sum_kes_vk tree_depth tree_data key_at tree_key].
  - unfold SEED_SIZE. rewrite <- (app_nil_r seed) at 1. rewrite byte_range_head by lia. done.
  - unfold expand_seed. destruct (_ <? _);
      match goal with |- context [extract_vk_left_from_sk child (?c ++ ?s ++ _ ++ _)] =>
        destruct (fields_of child c s (tree_key child (blake2b_256 (1 :: seed)))
          (tree_key child (blake2b_256 (2 :: seed)))) as (_ & _ & -> & ->) end;
      rewrite ?key_at_size, ?tree_key_size by apply hash_size; auto.
Qed.

Lemma gen_key depth : forall seed,
  zlength seed = 32 -> gen_sum_kes_signing_key seed depth = Ok (mkDeep depth (key_at depth seed 0)).
Proof.
  induction depth as [|child IH]; intros seed Hs; cbn [gen_sum_kes_signing_key key_at]; [done|].
  unfold expand_seed. rewrite !IH by apply hash_size. cbn [obind].
  rewrite !derive_key by apply hash_size. cbn [obind tree_data].
  by rewrite (proj2 (Z.ltb_lt _ _)) by apply periods_pos.
Qed.

(** The child of a signing key, with the keys of its level. *)
Lemma key_at_left child seed t :
  t < 2 ^ Z.of_nat child ->
  key_at (S child) seed t =
    key_at child (fst (expand_seed seed)) t ++ snd (expand_seed seed)
    ++ tree_key child (fst (expand_seed seed)) ++ tree_key child (snd (expand_seed seed)).
Proof. intros ?. cbn. by rewrite (proj2 (Z.ltb_lt _ _)). Qed.

Lemma key_at_right child seed t :
  2 ^ Z.of_nat child <= t ->
  key_at (S child) seed t =
    key_at child (snd (expand_seed seed)) (t - 2 ^ Z.of_nat child) ++ zeroed_seed
    ++ tree_key child (fst (expand_seed seed)) ++ tree_key child (snd (expand_seed seed)).
Proof. intros ?. cbn. by rewrite (proj2 (Z.ltb_ge _ _)). Qed.

Lemma fst_seed_size seed : zlength (fst (expand_seed seed)) = 32.
Proof. apply hash_size. Qed.
Lemma snd_seed_size seed : zlength (snd (expand_seed seed)) = 32.
Proof. apply hash_size. Qed.
#[local] Hint Resolve fst_seed_size snd_seed_size tree_key_size zeroed_seed_size : core.

Ltac key_fields :=
  match goal with |- context [?c ++ ?s ++ tree_key ?d ?l ++ tree_key ?d ?r] =>
    let F := fresh "F" in
    pose proof (fields_of d c s (tree_key d l) (tree_key d r)) as F;
    destruct F as (Fc & Fs & Fl & Fr); rewrite ?key_at_size by auto; auto end.

Lemma u32_period child t :
  (S child < 32)%nat -> 0 <= t < 2 ^ Z.of_nat (S child) -> wrap32 (t + 1) = t + 1.
Proof.
  intros Hd Ht. apply wrap32_id. unfold u32, U32_MAX.
  pose proof (Z.pow_le_mono_r 2 (Z.of_nat (S child)) 31). lia.
Qed.

Lemma update_key depth : forall seed t,
  (depth < 32)%nat -> zlength seed = 32 -> 0 <= t < 2 ^ Z.of_nat depth ->
  update_at depth (key_at depth seed t) t =
    Ok (if t + 1 <? 2 ^ Z.of_nat depth then Some (key_at depth seed (t + 1)) else None).
Proof.
  induction depth as [|child IH]; intros seed t Hd Hs Ht.
  - cbn. replace t with 0 by (cbn in Ht; lia). done.
  - cbn [update_at]. rewrite half_periods, total_periods_pow, (u32_period child) by lia.
    rewrite periods_double in *.
    destruct (Z.leb_spec (2 * 2 ^ Z.of_nat child) (t + 1)); destruct (Z.ltb_spec (t + 1) (2 * 2 ^ Z.of_nat child));
      try lia; [done|].
    destruct (Z.compare_spec (t + 1) (2 ^ Z.of_nat child)) as [He|Hl|Hg].
    + rewrite key_at_left by lia. key_fields. rewrite Fs. cbn [obind].
      rewrite gen_key by auto. cbn [obind tree_data]. rewrite Fl, Fr. cbn [obind].
      rewrite key_at_right by lia. by replace (t + 1 - 2 ^ Z.of_nat child) with 0 by lia.
    + rewrite key_at_left by lia. key_fields. rewrite Fc. cbn [obind].
      rewrite IH by (auto; lia). cbn [obind]. rewrite (proj2 (Z.ltb_lt _ _)) by lia.
      rewrite Fs, Fl, Fr. cbn [obind]. by rewrite key_at_left by lia.
    + rewrite key_at_right by lia. key_fields. rewrite Fc. cbn [obind].
      replace (wrap32 _) with (t - 2 ^ Z.of_nat child)
        by (symmetry; apply wrap32_id; pose proof (Z.pow_le_mono_r 2 (Z.of_nat child) 31);
            unfold u32, U32_MAX; lia).
      rewrite IH by (auto; lia). cbn [obind]. rewrite (proj2 (Z.ltb_lt _ _)) by lia.
      rewrite Fl, Fr. cbn [obind]. rewrite key_at_right by lia. do 3 f_equal. f_equal. lia.
Qed.

Lemma path_keys_size depth : forall seed t, zlength (path_keys depth seed t) = Z.of_nat depth * 64.
Proof.
  induction depth as [|child IH]; intros seed t; [done|].
  cbn [path_keys]. unfold expand_seed.
  destruct (_ <? _); rewrite !zlength_app, IH, !tree_key_size; lia.
Qed.

Lemma sign_key depth : forall seed t m,
  (depth < 32)%nat -> zlength seed = 32 -> 0 <= t < 2 ^ Z.of_nat depth ->
  sign_at depth (key_at depth seed t) t m = Ok (ed_sign (leaf_seed depth seed t) m ++ path_keys depth seed t).
Proof.
  induction depth as [|child IH]; intros seed t m Hd Hs Ht.
  - cbn [sign_at key_at leaf_seed path_keys]. rewrite total_periods_pow by lia.
    rewrite (proj2 (Z.leb_gt _ _)) by lia. unfold SEED_SIZE.
    rewrite <- (app_nil_r seed) at 1. rewrite byte_range_head by lia. cbn. by rewrite app_nil_r.
  - cbn [sign_at]. rewrite half_periods, total_periods_pow by lia.
    rewrite (proj2 (Z.leb_gt _ _)) by lia. rewrite periods_double in *.
    cbn [path_keys leaf_seed].
    destruct (Z.ltb_spec t (2 ^ Z.of_nat child)).
    + rewrite key_at_left by lia. key_fields. rewrite Fc, Fl, Fr. cbn [obind].
      rewrite IH by (auto; lia). cbn [obind]. unfold expand_seed. cbn [fst snd].
      by rewrite <- app_assoc.
    + rewrite key_at_right by lia. key_fields. rewrite Fc, Fl, Fr. cbn [obind].
      rewrite IH by (auto; lia). cbn [obind]. unfold expand_seed. cbn [fst snd].
      by rewrite <- app_assoc.
Qed.

(** What is read back from a signature: the part for the child and the keys of
    the level. *)
Lemma signature_fields child (c kl kr : list Z) :
  zlength c = signature_expected_size child -> zlength kl = 32 -> zlength kr = 32 ->
  let sig := c ++ kl ++ kr in
  @byte_range CryptoError 0 (signature_expected_size child) sig = Ok c
  /\ sig_vk_left sig child = Ok kl /\ sig_vk_right sig child = Ok kr.
Proof.
  intros Hc Hl Hr sig. unfold sig, sig_vk_left, sig_vk_right, VK_SIZE. repeat split.
  - by apply byte_range_head.
  - apply byte_range_app; lia.
  - rewrite app_assoc. apply byte_range_last; rewrite zlength_app; lia.
Qed.

Lemma signature_size depth seed t (base : list Z) :
  zlength base = 64 -> zlength (base ++ path_keys depth seed t) = signature_expected_size depth.
Proof.
  intros Hb. rewrite zlength_app, path_keys_size, Hb. unfold signature_expected_size, SIG_SIZE, VK_SIZE. lia.
Qed.

Lemma verify_key depth : forall seed t m (base : list Z),
  (depth < 32)%nat -> 0 <= t < 2 ^ Z.of_nat depth -> zlength base = 64 ->
  verify_at depth (tree_key depth seed) t m (base ++ path_keys depth seed t) =
    VerificationKey_verify (ed_public (leaf_seed depth seed t)) m base.
Proof.
  induction depth as [|child IH]; intros seed t m base Hd Ht Hb.
  - cbn. unfold base_signature, SIG_SIZE. by rewrite byte_range_head by lia.
  - cbn [verify_at]. rewrite half_periods, total_periods_pow by lia.
    rewrite (proj2 (Z.leb_gt _ _)) by lia. rewrite periods_double in *.
    cbn [path_keys leaf_seed tree_key]. unfold expand_seed.
    set (l := blake2b_256 (1 :: seed)). set (r := blake2b_256 (2 :: seed)).
    destruct (Z.ltb_spec t (2 ^ Z.of_nat child)); rewrite app_assoc;
      match goal with |- context [(base ++ path_keys child ?s ?u) ++ _] =>
        destruct (signature_fields child (base ++ path_keys child s u) (tree_key child l)
          (tree_key child r)) as (-> & -> & ->); auto using signature_size end;
      cbn [obind]; rewrite decide_True by done; apply IH; lia.
Qed.

Lemma byte_range_inv {E} from to (l r : list Z) :
  @byte_range E from to l = Ok r -> to <= zlength l /\ r = zslice from to l.
Proof. unfold byte_range. destruct (Z.leb_spec to (zlength l)); [|done]. intros [= <-]. done. Qed.

Lemma zslice_split {A} (a b c : Z) (l : list A) :
  0 <= a <= b -> b <= c -> zslice a b l ++ zslice b c l = zslice a c l.
Proof.
  intros ? ?. unfold zslice. replace (Z.to_nat b) with (Z.to_nat a + Z.to_nat (b - a))%nat by lia.
  rewrite <- drop_drop. set (k := drop (Z.to_nat a) l).
  replace (Z.to_nat (c - a)) with (Z.to_nat (b - a) + Z.to_nat (c - b))%nat by lia.
  by rewrite take_take_drop.
Qed.

Lemma take_zslice {A} (a b : Z) (l : list A) :
  0 <= a <= b -> take (Z.to_nat a) (zslice 0 b l) = take (Z.to_nat a) l.
Proof. intros ?. unfold zslice. rewrite drop_0, take_take. f_equal. lia. Qed.

(** An accepted signature is one of the leaf of its period, unless two
    different pairs of keys have the same hash. *)
Lemma verify_sound depth : forall seed t m (sig : list Z),
  (depth < 32)%nat -> 0 <= t < 2 ^ Z.of_nat depth -> zlength sig = signature_expected_size depth ->
  verify_at depth (tree_key depth seed) t m sig = Ok tt ->
  key_collision \/ VerificationKey_verify (ed_public (leaf_seed depth seed t)) m (take 64 sig) = Ok tt.
Proof.
  induction depth as [|child IH]; intros seed t m sig Hd Ht Hsz.
  - cbn. unfold base_signature. intros (b & Hb & Hv)%obind_Ok_inv.
    apply byte_range_inv in Hb as [_ ->]. by right.
  - cbn [verify_at]. rewrite half_periods, total_periods_pow by lia.
    rewrite (proj2 (Z.leb_gt _ _)) by lia. rewrite periods_double in *.
    intros (kl & Hl & Hv)%obind_Ok_inv. apply obind_Ok_inv in Hv as (kr & Hr & Hv).
    apply byte_range_inv in Hl as [Hl ->]. apply byte_range_inv in Hr as [Hr ->].
    assert (Hc : 0 <= signature_expected_size child)
      by (unfold signature_expected_size, SIG_SIZE, VK_SIZE; lia).
    case_decide as Hk; [|done]. apply obind_Ok_inv in Hv as (c & Hs & Hv).
    apply byte_range_inv in Hs as [Hs ->].
    set (e := signature_expected_size child) in *. unfold VK_SIZE in *.
    assert (Hzl : zlength (zslice e (e + 32) sig) = 32) by (rewrite length_zslice; lia).
    assert (Hzr : zlength (zslice (e + 32) (e + 32 + 32) sig) = 32) by (rewrite length_zslice; lia).
    assert (Hce : zlength (zslice 0 e sig) = e) by (rewrite length_zslice; lia).
    cbn [tree_key leaf_seed] in *. unfold expand_seed in *.
    destruct (decide (tree_key child (blake2b_256 (1 :: seed)) ++ tree_key child (blake2b_256 (2 :: seed))
      = zslice e (e + 32) sig ++ zslice (e + 32) (e + 32 + 32) sig)) as [Heq|Hne].
    + apply app_inj_1 in Heq as [Hel Her].
      2: { apply Nat2Z.inj. change (zlength (tree_key child (blake2b_256 (1 :: seed)))
             = zlength (zslice e (e + 32) sig)). by rewrite tree_key_size, Hzl. }
      rewrite <- Hel, <- Her in Hv.
      assert (E64 : 64 <= e) by (unfold e, signature_expected_size, SIG_SIZE, VK_SIZE; lia).
      replace (take 64 sig) with (take (Z.to_nat 64) (zslice 0 e sig)) by (apply take_zslice; lia).
      destruct (Z.ltb_spec t (2 ^ Z.of_nat child)); eapply IH; eauto; lia.
    + left. exists (tree_key child (blake2b_256 (1 :: seed)) ++ tree_key child (blake2b_256 (2 :: seed))),
        (zslice e (e + 32) sig ++ zslice (e + 32) (e + 32 + 32) sig).
      rewrite !zlength_app, !tree_key_size, Hzl, Hzr. repeat split; done.
Qed.

(** [n] evolutions of a key that stands in period [t]. *)
Fixpoint evolve (n : nat) (sk : Deep) (t : Z) : crypto_outcome (option Deep) :=
  match n with
  | O => Ok (Some sk)
  | S n =>
      let? updated := update_sum_kes sk t in
      match updated with
      | Some sk => evolve n sk (t + 1)
      | None => Ok None
      end
  end.

Lemma evolve_key depth seed n : forall t,
  (depth < 32)%nat -> zlength seed = 32 -> 0 <= t < 2 ^ Z.of_nat depth ->
  evolve n (mkDeep depth (key_at depth seed t)) t =
    Ok (if t + Z.of_nat n <? 2 ^ Z.of_nat depth
        then Some (mkDeep depth (key_at depth seed (t + Z.of_nat n))) else None).
Proof.
  induction n as [|n IH]; intros t Hd Hs Ht; cbn [evolve].
  - by rewrite Z.add_0_r, (proj2 (Z.ltb_lt _ _)) by lia.
  - unfold update_sum_kes. cbn [tree_depth tree_data]. rewrite update_key by done. cbn [obind].
    destruct (Z.ltb_spec (t + 1) (2 ^ Z.of_nat depth)); cbn [fmap option_fmap option_map].
    + rewrite IH by lia. by replace (t + 1 + Z.of_nat n) with (t + Z.of_nat (S n)) by lia.
    + by rewrite (proj2 (Z.ltb_ge _ _)) by lia.
Qed.

Lemma verification_ok key m sig :
  VerificationKey_verify key m sig = Ok tt -> ed_verify_strict key m sig = true.
Proof. unfold VerificationKey_verify. by repeat case_goal. Qed.

(** C9: the sum composition is a signature scheme for [2 ^ depth] periods: a
    generated key evolves exactly that many periods and never changes its
    verification key; in each period the evolved key signs every message and
    the signature verifies for that period, the signature parsing back from its
    bytes; and conversely a signature that verifies for a period contains an
    Ed25519 signature by that period's leaf key, unless two different pairs of
    keys with the same Blake2b-256 hash are at hand. *)
Theorem sum_kes_signatures (depth : nat) (seed : list Z) :
  (depth < 32)%nat -> zlength seed = 32 ->
  exists sk vk,
    gen_sum_kes_signing_key seed depth = Ok sk /\ derive_sum_kes_vk sk = Ok vk
    /\ (forall t m, 0 <= t < 2 ^ Z.of_nat depth ->
          exists sk_t sig,
            evolve (Z.to_nat t) sk 0 = Ok (Some sk_t) /\ derive_sum_kes_vk sk_t = Ok vk
            /\ sign_sum_kes sk_t t m = Ok sig
            /\ SumKesSignature_from_bytes depth (tree_data sig) = Ok sig
            /\ verify_sum_kes vk t m sig = Ok tt)
    /\ (forall n, 2 ^ Z.of_nat depth <= Z.of_nat n -> evolve n sk 0 = Ok None)
    /\ (forall t m bytes sig, 0 <= t < 2 ^ Z.of_nat depth ->
          SumKesSignature_from_bytes depth bytes = Ok sig -> verify_sum_kes vk t m sig = Ok tt ->
          key_collision \/ ed_verify_strict (ed_public (leaf_seed depth seed t)) m (take 64 bytes) = true).
Proof.
  intros Hd Hs. exists (mkDeep depth (key_at depth seed 0)), (tree_key depth seed).
  pose proof (periods_pos depth) as Hp. split_and!.
  - by apply gen_key.
  - by apply derive_key.
  - intros t m Ht. exists (mkDeep depth (key_at depth seed t)).
    exists (mkDeep depth (ed_sign (leaf_seed depth seed t) m ++ path_keys depth seed t)).
    assert (Hb : zlength (ed_sign (leaf_seed depth seed t) m) = 64) by apply ed_sign_size.
    split_and!.
    + rewrite evolve_key by (auto; lia). by rewrite Z.add_0_l, Z2Nat.id, (proj2 (Z.ltb_lt _ _)) by lia.
    + by apply derive_key.
    + unfold sign_sum_kes. cbn [tree_depth tree_data]. by rewrite sign_key.
    + unfold SumKesSignature_from_bytes. cbn [tree_data]. by rewrite signature_size, Z.eqb_refl.
    + unfold verify_sum_kes. cbn [tree_depth tree_data]. rewrite verify_key by done.
      unfold VerificationKey_verify. by rewrite ed_public_valid, ed_correct.
  - intros n Hn. rewrite evolve_key by (auto; lia). by rewrite (proj2 (Z.ltb_ge _ _)) by lia.
  - intros t m bytes sig Ht. unfold SumKesSignature_from_bytes.
    destruct (Z.eqb_spec (zlength bytes) (signature_expected_size depth)); [|done].
    intros [= <-]. unfold verify_sum_kes. cbn [tree_depth tree_data].
    intros Hv. apply verify_sound in Hv as [?|?]; auto using verification_ok.
Qed.

(** ** Indexed signatures *)

Lemma collect_keys_public seeds : collect_keys seeds = Ok (ed_public <$> seeds).
Proof. induction seeds as [|s seeds IH]; cbn; [done|]. by rewrite IH. Qed.

Lemma chunks_of_keys keys : forall fuel,
  Forall (fun k => zlength k = 32) keys -> (length (concat keys) <= fuel)%nat ->
  chunks_exact fuel 32 (concat keys) = keys.
Proof.
  induction keys as [|k keys IH]; intros fuel Hk Hf; [by destruct fuel|].
  inversion_clear Hk as [|? ? Hk1 Hks]. assert (Hlen : length k = 32%nat) by (unfold zlength in Hk1; lia).
  destruct fuel as [|fuel]; cbn in Hf; rewrite length_app in Hf; [lia|].
  cbn [chunks_exact concat]. rewrite length_app, (proj2 (Nat.ltb_ge _ _)) by lia.
  rewrite take_app_length', drop_app_length' by done. f_equal. apply IH; [done|lia].
Qed.

(** The stored form of a list of keys is read back. *)
Lemma simple_keys_round_trip keys :
  keys <> [] -> Forall (fun k => zlength k = 32) keys ->
  simple_from_bytes (simple_to_bytes keys) = Ok keys.
Proof.
  intros Hne Hk. unfold simple_from_bytes, simple_to_bytes, KES_KEY_SIZE.
  assert (Hlen : zlength (concat keys) = 32 * zlength keys).
  { clear Hne. induction Hk as [|k keys Hk1 Hks IH]; [done|].
    cbn [concat]. rewrite zlength_app, zlength_cons, IH. lia. }
  destruct keys as [|k keys]; [done|]. rewrite Hlen, zlength_cons. pose proof (zlength_nonneg keys).
  rewrite (proj2 (Z.eqb_neq _ _)) by lia. rewrite Z.mul_comm, Z.mod_mul by lia.
  cbn [negb Z.eqb]. f_equal. by apply chunks_of_keys.
Qed.

#[local] Arguments to_be : simpl never.

(** Both indexed forms verify with the period they carry. *)
Lemma indexed_signatures seeds keys t m :
  collect_keys seeds = Ok keys -> 0 <= t < zlength seeds -> zlength seeds <= U32_MAX ->
  exists sig csig,
    sign_indexed seeds t m = Ok sig /\ verify_indexed keys m sig = Ok tt
    /\ sign_indexed_compact seeds t m = Ok csig /\ verify_indexed_compact keys m csig = Ok tt.
Proof.
  rewrite collect_keys_public. intros [= <-] Ht Hu.
  destruct (lookup_lt_is_Some_2 seeds (Z.to_nat t)) as [seed Hseed]; [unfold zlength in *; lia|].
  assert (Hper : forall l, indexed_period (to_be 4 t ++ l) = t).
  { intros l. unfold indexed_period. replace (zslice 0 4 _) with (to_be 4 t) by done.
    apply from_be_to_be. cbn. unfold U32_MAX in *. lia. }
  assert (Hsig : forall l, indexed_signature (to_be 4 t ++ l) = l) by done.
  assert (Hcs : forall l k : list Z, zlength l = 64 -> compact_signature (l ++ k) = l).
  { intros l k Hl. unfold compact_signature, KES_SIGNATURE_SIZE. rewrite <- Hl.
    apply (zslice_app [] l k). }
  assert (Hck : forall l k : list Z, zlength l = 64 -> compact_verification_key (l ++ k) = k).
  { intros l k Hl. unfold compact_verification_key, KES_SIGNATURE_SIZE. rewrite <- Hl.
    unfold zlength. rewrite Nat2Z.id. apply drop_app_length. }
  unfold sign_indexed, sign_indexed_compact, simple_sign, simple_at. rewrite Hseed. cbn.
  eexists _, _. split_and!; [done| |done|].
  - unfold verify_indexed, simple_verify, simple_at. rewrite Hper, Hsig, list_lookup_fmap, Hseed.
    cbn. unfold VerificationKey_verify. by rewrite ed_public_valid, ed_correct.
  - unfold verify_indexed_compact, simple_at. rewrite Hper, Hsig, list_lookup_fmap, Hseed. cbn [obind ok_or fmap option_fmap option_map].
    rewrite Hck, Hcs, decide_True by apply ed_sign_size || done.
    cbn. unfold VerificationKey_verify. by rewrite ed_public_valid, ed_correct.
Qed.

End Kes.

(** ** A toy scheme *)

Definition pad32 (l : list Z) : list Z := take 32 (l ++ replicate 32 0).

Lemma pad32_size l : zlength (pad32 l) = 32.
Proof. unfold zlength, pad32. rewrite length_take, length_app, length_replicate. lia. Qed.

Definition toy_ed : Ed25519 := {|
  ed_public := pad32;
  ed_sign seed m := pad32 seed ++ pad32 m;
  ed_decompresses _ := true;
  ed_verify_strict key m sig := bool_decide (sig = key ++ pad32 m) |}.

Lemma toy_ed_laws : @Ed25519Laws toy_ed.
Proof.
  split; cbn; intros.
  - apply pad32_size.
  - by rewrite zlength_app, !pad32_size.
  - done.
  - by apply bool_decide_eq_true.
Qed.

Lemma toy_hash_size m : zlength (toy_hash m) = 32.
Proof.
  unfold zlength, toy_hash. rewrite length_take. cbn [length].
  rewrite length_app, length_replicate. lia.
Qed.

(** A tree of depth two: the key of period three signs. *)
Lemma sum_kes_signatures_witness :
  exists sk vk,
    @gen_sum_kes_signing_key toy_ed toy_hash (pad32 [7]) 2 = Ok sk
    /\ @derive_sum_kes_vk toy_ed toy_hash sk = Ok vk
    /\ exists sk_3 sig,
         @evolve toy_ed toy_hash 3 sk 0 = Ok (Some sk_3)
         /\ @sign_sum_kes toy_ed sk_3 3 [1; 2; 3] = Ok sig
         /\ @verify_sum_kes toy_ed toy_hash vk 3 [1; 2; 3] sig = Ok tt.
Proof.
  destruct (@sum_kes_signatures toy_ed toy_hash toy_ed_laws toy_hash_size 2 (pad32 [7])
    ltac:(lia) ltac:(vm_compute; reflexivity)) as (sk & vk & Hg & Hd & Hs & _).
  exists sk, vk. split; [exact Hg|]. split; [exact Hd|].
  destruct (Hs 3 [1; 2; 3] ltac:(cbn; lia)) as (sk3 & sig & He & _ & Hsig & _ & Hv).
  exists sk3, sig. split; [exact He|]. split; [exact Hsig|exact Hv].
Defined.
