(* ===== verification/Headers.v ===== *)
(** * Block headers

    Model of the header codecs of [crates/ledger/src/eras/shelley.rs]
    (Shelley to Alonzo with two VRF certificates, Babbage and Conway with one),
    of operational certificates and their counters
    ([crates/consensus/src/ocert]), of header verification
    ([crates/consensus/src/header.rs]) and of the checks the sync pipeline
    applies to a received block ([crates/node/sync/src/lib.rs]): protocol
    version, KES signature over the bytes on the wire, body hash, body size and
    certificate counter. Blake2b-224 is the parameter class [Blake2b224]. *)

From stdpp Require Import list.
From S2P Require Import Prelude Cbor CborFacts CborSkip Types AddressFacts TypesCodec BTree MiniProtocol Consensus.
From S2P Require Import Staking SumKes.
Local Open Scope string_scope.
Local Open Scope Z_scope.
Local Open Scope list_scope.

Class Blake2b224 := blake2b_224 : list Z -> list Z.

(** ** Wire formats *)

Record ShelleyVrfCert := mkVrfCert { vrf_output : list Z; vrf_proof : list Z }.

Definition ShelleyVrfCert_encode (c : ShelleyVrfCert) : list Z :=
  Encoder_array 2 ++ Encoder_bytes (vrf_output c) ++ Encoder_bytes (vrf_proof c).
Definition ShelleyVrfCert_decode : Dec ShelleyVrfCert :=
  len <- Decoder_array ;;
  expect_len 2 len ;;;
  output <- Decoder_bytes ;;
  proof <- decode_fixed 80 ;;
  dret (mkVrfCert output proof).

Record ShelleyOpCert := mkShelleyOpCert {
  so_hot_vkey : list Z;
  so_sequence_number : Z;
  so_kes_period : Z;
  so_sigma : list Z }.

Definition ShelleyOpCert_encode_fields (c : ShelleyOpCert) : list Z :=
  Encoder_bytes (so_hot_vkey c) ++ Encoder_unsigned (so_sequence_number c)
  ++ Encoder_unsigned (so_kes_period c) ++ Encoder_bytes (so_sigma c).
Definition ShelleyOpCert_decode_fields : Dec ShelleyOpCert :=
  hot_vkey <- decode_fixed 32 ;;
  sequence_number <- Decoder_unsigned ;;
  kes_period <- Decoder_unsigned ;;
  sigma <- decode_fixed 64 ;;
  dret (mkShelleyOpCert hot_vkey sequence_number kes_period sigma).

Record ShelleyHeaderBody := mkShelleyBody {
  sh_block_number : Z;
  sh_slot : Z;
  sh_prev_hash : option (list Z);
  sh_issuer_vkey : list Z;
  sh_vrf_vkey : list Z;
  sh_nonce_vrf : ShelleyVrfCert;
  sh_leader_vrf : ShelleyVrfCert;
  sh_block_body_size : Z;
  sh_block_body_hash : list Z;
  sh_operational_cert : ShelleyOpCert;
  sh_protocol_version : Z * Z }.

Definition ShelleyHeaderBody_encode (b : ShelleyHeaderBody) : list Z :=
  Encoder_array 15
  ++ Encoder_unsigned (sh_block_number b)
  ++ Encoder_unsigned (sh_slot b)
  ++ encode_nullable Encoder_bytes (sh_prev_hash b)
  ++ Encoder_bytes (sh_issuer_vkey b)
  ++ Encoder_bytes (sh_vrf_vkey b)
  ++ ShelleyVrfCert_encode (sh_nonce_vrf b)
  ++ ShelleyVrfCert_encode (sh_leader_vrf b)
  ++ Encoder_unsigned (sh_block_body_size b)
  ++ Encoder_bytes (sh_block_body_hash b)
  ++ ShelleyOpCert_encode_fields (sh_operational_cert b)
  ++ Encoder_unsigned (sh_protocol_version b).1
  ++ Encoder_unsigned (sh_protocol_version b).2.

Definition ShelleyHeaderBody_decode : Dec ShelleyHeaderBody :=
  len <- Decoder_array ;;
  expect_len 15 len ;;;
  block_number <- Decoder_unsigned ;;
  slot <- Decoder_unsigned ;;
  prev_hash <- decode_nullable decode_hash32 ;;
  issuer_vkey <- decode_hash32 ;;
  vrf_vkey <- decode_hash32 ;;
  nonce_vrf <- ShelleyVrfCert_decode ;;
  leader_vrf <- ShelleyVrfCert_decode ;;
  body_size <- Decoder_unsigned ;;
  body_hash <- decode_hash32 ;;
  opcert <- ShelleyOpCert_decode_fields ;;
  proto_major <- Decoder_unsigned ;;
  proto_minor <- Decoder_unsigned ;;
  dret (mkShelleyBody block_number slot prev_hash issuer_vkey vrf_vkey nonce_vrf leader_vrf
          (wrap32 body_size) body_hash opcert (proto_major, proto_minor)).

Record ShelleyHeader := mkShelleyHeader { sh_body : ShelleyHeaderBody; sh_signature : list Z }.

Definition ShelleyHeader_encode (h : ShelleyHeader) : list Z :=
  Encoder_array 2 ++ ShelleyHeaderBody_encode (sh_body h) ++ Encoder_bytes (sh_signature h).
Definition ShelleyHeader_decode : Dec ShelleyHeader :=
  len <- Decoder_array ;;
  expect_len 2 len ;;;
  body <- ShelleyHeaderBody_decode ;;
  signature <- Decoder_bytes ;;
  dret (mkShelleyHeader body signature).

Record PraosHeaderBody := mkPraosBody {
  ph_block_number : Z;
  ph_slot : Z;
  ph_prev_hash : option (list Z);
  ph_issuer_vkey : list Z;
  ph_vrf_vkey : list Z;
  ph_vrf_result : ShelleyVrfCert;
  ph_block_body_size : Z;
  ph_block_body_hash : list Z;
  ph_operational_cert : ShelleyOpCert;
  ph_protocol_version : Z * Z }.

(** The fields before the certificate, common to both encodings. *)
Definition praos_prefix_encode (b : PraosHeaderBody) : list Z :=
  Encoder_unsigned (ph_block_number b)
  ++ Encoder_unsigned (ph_slot b)
  ++ encode_nullable Encoder_bytes (ph_prev_hash b)
  ++ Encoder_bytes (ph_issuer_vkey b)
  ++ Encoder_bytes (ph_vrf_vkey b)
  ++ ShelleyVrfCert_encode (ph_vrf_result b)
  ++ Encoder_unsigned (ph_block_body_size b)
  ++ Encoder_bytes (ph_block_body_hash b).

Definition PraosHeaderBody_encode (b : PraosHeaderBody) : list Z :=
  Encoder_array 14
  ++ praos_prefix_encode b
  ++ ShelleyOpCert_encode_fields (ph_operational_cert b)
  ++ Encoder_unsigned (ph_protocol_version b).1
  ++ Encoder_unsigned (ph_protocol_version b).2.

(** The certificate and the version: inlined, or in arrays of their own. *)
Definition praos_suffix_decode (len : Z) : Dec (ShelleyOpCert * Z * Z) :=
  if len =? 14 then
    opcert <- ShelleyOpCert_decode_fields ;;
    proto_major <- Decoder_unsigned ;;
    proto_minor <- Decoder_unsigned ;;
    dret (opcert, proto_major, proto_minor)
  else
    opcert_len <- Decoder_array ;;
    expect_len 4 opcert_len ;;;
    opcert <- ShelleyOpCert_decode_fields ;;
    proto_len <- Decoder_array ;;
    expect_len 2 proto_len ;;;
    proto_major <- Decoder_unsigned ;;
    proto_minor <- Decoder_unsigned ;;
    dret (opcert, proto_major, proto_minor).

Definition PraosHeaderBody_decode : Dec PraosHeaderBody :=
  len <- Decoder_array ;;
  (if negb (len =? 14) && negb (len =? 10) then derr (CborInvalidLength 14 len) else dret tt) ;;;
  block_number <- Decoder_unsigned ;;
  slot <- Decoder_unsigned ;;
  prev_hash <- decode_nullable decode_hash32 ;;
  issuer_vkey <- decode_hash32 ;;
  vrf_vkey <- decode_hash32 ;;
  vrf_result <- ShelleyVrfCert_decode ;;
  body_size <- Decoder_unsigned ;;
  body_hash <- decode_hash32 ;;
  suffix <- praos_suffix_decode len ;;
  let '(opcert, proto_major, proto_minor) := suffix in
  dret (mkPraosBody block_number slot prev_hash issuer_vkey vrf_vkey vrf_result
          (wrap32 body_size) body_hash opcert (proto_major, proto_minor)).

Record PraosHeader := mkPraosHeader { ph_body : PraosHeaderBody; ph_signature : list Z }.

Definition PraosHeader_encode (h : PraosHeader) : list Z :=
  Encoder_array 2 ++ PraosHeaderBody_encode (ph_body h) ++ Encoder_bytes (ph_signature h).
Definition PraosHeader_decode : Dec PraosHeader :=
  len <- Decoder_array ;;
  expect_len 2 len ;;;
  body <- PraosHeaderBody_decode ;;
  signature <- Decoder_bytes ;;
  dret (mkPraosHeader body signature).

(** ** Errors *)

(** The header, certificate and leadership cases of [ConsensusError]. *)
Inductive HeaderError :=
  | InvalidActiveSlotCoeff
  | InvalidVrfProof
  | InvalidOpCertSignature
  | InvalidKesSignature
  | KesPeriodTooEarly (current cert_start : Z)
  | KesPeriodExpired (current cert_end : Z)
  | KesPeriodOverflow
  | InvalidSlotsPerKesPeriod
  | VrfLeaderCheckFailed
  | TpraosOverlaySlotNotActive (slot : Z)
  | WrongGenesisColdKey (expected actual : list Z)
  | NoCounterForKeyHash (hash : list Z)
  | OcertCounterTooOld (stored received : Z)
  | OcertCounterTooFar (stored received : Z)
  | VrfKeyMismatch (expected actual : list Z)
  | ObsoleteNode (header_major max_major : Z).

(** The cases of [SyncError] the block checks return. *)
Inductive BlockError :=
  | LedgerDecode (e : LedgerError)
  | ConsensusFailure (e : HeaderError)
  | VrfVerification (slot : Z) (era : string) (epoch_nonce : NonceT) (source : HeaderError)
  | BlockBodyHashMismatch
  | WrongBlockBodySize (declared actual : Z)
  | ProtocolVersionTooHigh (major max : Z)
  | ProtocolVersionMismatch (era : Era) (major minor : Z) (expected_range : string)
  | HeaderProtVerTooHigh (header_major pp_major : Z).

Section Verification.
Context `{Ed25519, Blake2b256, Blake2b224}.

(** ** Operational certificates *)

Record OpCert := mkOpCert {
  oc_hot_vkey : list Z;
  oc_sequence_number : Z;
  oc_kes_period : Z;
  oc_sigma : list Z }.

Definition signable_bytes (c : OpCert) : list Z :=
  oc_hot_vkey c ++ to_be 8 (oc_sequence_number c) ++ to_be 8 (oc_kes_period c).

Definition OpCert_verify (c : OpCert) (cold_vk : list Z) : outcome HeaderError unit :=
  map_err (fun _ => InvalidOpCertSignature)
    (VerificationKey_verify cold_vk (signable_bytes c) (oc_sigma c)).

Definition kes_period_of_slot (slot slots_per_kes_period : Z) : outcome HeaderError Z :=
  if slots_per_kes_period =? 0 then Err InvalidSlotsPerKesPeriod
  else Ok (slot / slots_per_kes_period).

Definition check_kes_period (c : OpCert) (current_kes_period max_kes_evolutions : Z)
    : outcome HeaderError unit :=
  if current_kes_period <? oc_kes_period c then
    Err (KesPeriodTooEarly current_kes_period (oc_kes_period c))
  else if U64_MAX <? oc_kes_period c + max_kes_evolutions then Err KesPeriodOverflow
  else if oc_kes_period c + max_kes_evolutions <=? current_kes_period then
    Err (KesPeriodExpired current_kes_period (oc_kes_period c + max_kes_evolutions))
  else Ok tt.

(** ** Certificate counters *)

Definition OcertCounters := list (list Z * Z).

Inductive OcertCounterRule := RuleTPraos | RulePraos.

Definition for_pv_major (pv_major : Z) : OcertCounterRule :=
  if 7 <=? pv_major then RulePraos else RuleTPraos.

Definition validate_and_update_with_rule (counters : OcertCounters) (pool_key_hash : list Z)
    (new_seq : Z) (pool_in_dist : bool) (rule : OcertCounterRule)
    : outcome HeaderError OcertCounters :=
  match bt_get pool_key_hash counters with
  | Some stored =>
      if new_seq <? stored then Err (OcertCounterTooOld stored new_seq)
      else if match rule with RulePraos => sat_add stored 1 <? new_seq | RuleTPraos => false end then
        Err (OcertCounterTooFar stored new_seq)
      else Ok (bt_insert pool_key_hash new_seq counters)
  | None =>
      if pool_in_dist then Ok (bt_insert pool_key_hash new_seq counters)
      else Err (NoCounterForKeyHash pool_key_hash)
  end.

Definition validate_and_update (counters : OcertCounters) (pool_key_hash : list Z) (new_seq : Z)
    (pool_in_dist : bool) : outcome HeaderError OcertCounters :=
  validate_and_update_with_rule counters pool_key_hash new_seq pool_in_dist RulePraos.

Definition counters_clear (counters : OcertCounters) : OcertCounters := [].

Definition OcertCounters_encode (counters : OcertCounters) : list Z :=
  Encoder_map (zlength counters)
  ++ concat ((fun e => Encoder_bytes e.1 ++ Encoder_unsigned e.2) <$> counters).

Definition OcertCounters_decode : Dec OcertCounters :=
  entries <- Decoder_map ;;
  dfor entries (fun counters =>
    key <- decode_fixed 28 ;;
    seq <- Decoder_unsigned ;;
    dret (bt_insert key seq counters)) [].

(** ** Header verification *)

Record HeaderBody := mkHeaderBody {
  hb_block_number : BlockNo;
  hb_slot : SlotNo;
  hb_prev_hash : option HeaderHash;
  hb_issuer_vkey : list Z;
  hb_vrf_vkey : list Z;
  hb_leader_vrf_output : list Z;
  hb_leader_vrf_proof : list Z;
  hb_nonce_vrf_output : option (list Z);
  hb_nonce_vrf_proof : option (list Z);
  hb_block_body_size : Z;
  hb_block_body_hash : list Z;
  hb_operational_cert : OpCert;
  hb_protocol_version : Z * Z }.

Definition to_signable_bytes (b : HeaderBody) : list Z :=
  to_be 8 (hb_block_number b)
  ++ to_be 8 (hb_slot b)
  ++ match hb_prev_hash b with None => [0] | Some h => 1 :: h end
  ++ hb_issuer_vkey b
  ++ hb_vrf_vkey b
  ++ to_be 4 (hb_block_body_size b)
  ++ hb_block_body_hash b
  ++ signable_bytes (hb_operational_cert b)
  ++ oc_sigma (hb_operational_cert b)
  ++ to_be 8 (hb_protocol_version b).1
  ++ to_be 8 (hb_protocol_version b).2.

(** [Header] of the consensus crate. *)
Record ConsensusHeader := mkHeader { ch_body : HeaderBody; ch_kes_signature : Deep }.

Definition verify_header_with_signed_bytes (h : ConsensusHeader)
    (slots_per_kes_period max_kes_evolutions : Z) (signed_bytes_override : option (list Z))
    : outcome HeaderError unit :=
  let cert := hb_operational_cert (ch_body h) in
  let? _ := OpCert_verify cert (hb_issuer_vkey (ch_body h)) in
  let? current_kes_period := kes_period_of_slot (hb_slot (ch_body h)) slots_per_kes_period in
  let? _ := check_kes_period cert current_kes_period max_kes_evolutions in
  let signable := default (to_signable_bytes (ch_body h)) signed_bytes_override in
  if current_kes_period <? oc_kes_period cert then
    Err (KesPeriodTooEarly current_kes_period (oc_kes_period cert))
  else
    let kes_offset := current_kes_period - oc_kes_period cert in
    if U32_MAX <? kes_offset then Err KesPeriodOverflow
    else
      map_err (fun _ => InvalidKesSignature)
        (verify_sum_kes (oc_hot_vkey cert) kes_offset signable (ch_kes_signature h)).

Definition verify_header (h : ConsensusHeader) (slots_per_kes_period max_kes_evolutions : Z)
    : outcome HeaderError unit :=
  verify_header_with_signed_bytes h slots_per_kes_period max_kes_evolutions None.

Definition check_header_protocol_version (header_major max_major_protocol_version : Z)
    : outcome HeaderError unit :=
  if max_major_protocol_version <? header_major
  then Err (ObsoleteNode header_major max_major_protocol_version) else Ok tt.

Definition verify_opcert_only (c : OpCert) (cold_vk : list Z) (current_slot : SlotNo)
    (slots_per_kes_period max_kes_evolutions : Z) : outcome HeaderError unit :=
  let? _ := OpCert_verify c cold_vk in
  let? current_kes_period := kes_period_of_slot current_slot slots_per_kes_period in
  check_kes_period c current_kes_period max_kes_evolutions.

(** ** From ledger headers to consensus headers *)

Definition SHELLEY_KES_DEPTH : nat := 6.

Definition shelley_opcert_to_consensus (c : ShelleyOpCert) : OpCert :=
  mkOpCert (so_hot_vkey c) (so_sequence_number c) (so_kes_period c) (so_sigma c).

Definition shelley_header_body_to_consensus (b : ShelleyHeaderBody) : HeaderBody :=
  mkHeaderBody (sh_block_number b) (sh_slot b) (sh_prev_hash b) (sh_issuer_vkey b) (sh_vrf_vkey b)
    (vrf_output (sh_leader_vrf b)) (vrf_proof (sh_leader_vrf b))
    (Some (vrf_output (sh_nonce_vrf b))) (Some (vrf_proof (sh_nonce_vrf b)))
    (sh_block_body_size b) (sh_block_body_hash b)
    (shelley_opcert_to_consensus (sh_operational_cert b)) (sh_protocol_version b).

Definition praos_header_body_to_consensus (b : PraosHeaderBody) : HeaderBody :=
  mkHeaderBody (ph_block_number b) (ph_slot b) (ph_prev_hash b) (ph_issuer_vkey b) (ph_vrf_vkey b)
    (vrf_output (ph_vrf_result b)) (vrf_proof (ph_vrf_result b)) None None
    (ph_block_body_size b) (ph_block_body_hash b)
    (shelley_opcert_to_consensus (ph_operational_cert b)) (ph_protocol_version b).

Definition kes_signature_from_bytes (signature : list Z) : outcome BlockError Deep :=
  map_err (fun _ => LedgerDecode (CborInvalidLength (signature_expected_size SHELLEY_KES_DEPTH)
                                    (zlength signature)))
    (SumKesSignature_from_bytes SHELLEY_KES_DEPTH signature).

Definition shelley_header_to_consensus (h : ShelleyHeader) : outcome BlockError ConsensusHeader :=
  let? kes_sig := kes_signature_from_bytes (sh_signature h) in
  Ok (mkHeader (shelley_header_body_to_consensus (sh_body h)) kes_sig).

Definition praos_header_to_consensus (h : PraosHeader) : outcome BlockError ConsensusHeader :=
  let? kes_sig := kes_signature_from_bytes (ph_signature h) in
  Ok (mkHeader (praos_header_body_to_consensus (ph_body h)) kes_sig).

Definition verify_shelley_header_with_body_cbor (h : ShelleyHeader) (body_cbor : option (list Z))
    (slots_per_kes_period max_kes_evolutions : Z) : outcome BlockError unit :=
  let? consensus_hdr := shelley_header_to_consensus h in
  map_err ConsensusFailure
    (verify_header_with_signed_bytes consensus_hdr slots_per_kes_period max_kes_evolutions body_cbor).

Definition verify_praos_header_with_body_cbor (h : PraosHeader) (body_cbor : option (list Z))
    (slots_per_kes_period max_kes_evolutions : Z) : outcome BlockError unit :=
  let? consensus_hdr := praos_header_to_consensus h in
  map_err ConsensusFailure
    (verify_header_with_signed_bytes consensus_hdr slots_per_kes_period max_kes_evolutions body_cbor).

(** ** Blocks of every era *)

(** [Rest] stands for what a block holds beside its header. *)
Inductive ByronBlock := EpochBoundary (epoch : Z) | MainBlock (epoch slot_in_epoch : Z).

Inductive MultiEraBlock (Rest : Type) :=
  | BlockByron (block : ByronBlock) (era_tag : Z) (rest : Rest)
  | BlockShelley (header : ShelleyHeader) (rest : Rest)
  | BlockAlonzo (header : ShelleyHeader) (rest : Rest)
  | BlockBabbage (header : PraosHeader) (rest : Rest)
  | BlockConway (header : PraosHeader) (rest : Rest).
#[global] Arguments BlockByron {_} _ _ _.
#[global] Arguments BlockShelley {_} _ _.
#[global] Arguments BlockAlonzo {_} _ _.
#[global] Arguments BlockBabbage {_} _ _.
#[global] Arguments BlockConway {_} _ _.

Context {Rest : Type}.

Definition BYRON_SLOTS_PER_EPOCH : Z := 21600.

Definition absolute_slot (b : ByronBlock) (slots_per_epoch : Z) : Z :=
  match b with
  | EpochBoundary epoch => wrap64 (epoch * slots_per_epoch)
  | MainBlock epoch slot_in_epoch => wrap64 (wrap64 (epoch * slots_per_epoch) + slot_in_epoch)
  end.

Definition block_slot (b : MultiEraBlock Rest) : SlotNo :=
  match b with
  | BlockByron block _ _ => absolute_slot block BYRON_SLOTS_PER_EPOCH
  | BlockShelley h _ | BlockAlonzo h _ => sh_slot (sh_body h)
  | BlockBabbage h _ | BlockConway h _ => ph_slot (ph_body h)
  end.

Definition era_label (b : MultiEraBlock Rest) : string :=
  match b with
  | BlockByron _ _ _ => "Byron"
  | BlockShelley _ _ => "Shelley"
  | BlockAlonzo _ _ => "Alonzo"
  | BlockBabbage _ _ => "Babbage"
  | BlockConway _ _ => "Conway"
  end.

Definition declared_body_size (b : MultiEraBlock Rest) : option Z :=
  match b with
  | BlockByron _ _ _ => None
  | BlockShelley h _ | BlockAlonzo h _ => Some (sh_block_body_size (sh_body h))
  | BlockBabbage h _ | BlockConway h _ => Some (ph_block_body_size (ph_body h))
  end.

Definition block_protocol_version (b : MultiEraBlock Rest) : option (Z * Z) :=
  match b with
  | BlockByron _ _ _ => None
  | BlockShelley h _ | BlockAlonzo h _ => Some (sh_protocol_version (sh_body h))
  | BlockBabbage h _ | BlockConway h _ => Some (ph_protocol_version (ph_body h))
  end.

Definition block_era (b : MultiEraBlock Rest) : Era :=
  match b with
  | BlockByron _ _ _ => EraByron
  | BlockShelley h _ =>
      match (sh_protocol_version (sh_body h)).1 with
      | 3 => EraAllegra
      | 4 => EraMary
      | _ => EraShelley
      end
  | BlockAlonzo _ _ => EraAlonzo
  | BlockBabbage _ _ => EraBabbage
  | BlockConway _ _ => EraConway
  end.

Definition block_issuer_vkey (b : MultiEraBlock Rest) : option (list Z) :=
  match b with
  | BlockByron _ _ _ => None
  | BlockShelley h _ | BlockAlonzo h _ => Some (sh_issuer_vkey (sh_body h))
  | BlockBabbage h _ | BlockConway h _ => Some (ph_issuer_vkey (ph_body h))
  end.

Definition block_vrf_vkey (b : MultiEraBlock Rest) : option (list Z) :=
  match b with
  | BlockByron _ _ _ => None
  | BlockShelley h _ | BlockAlonzo h _ => Some (sh_vrf_vkey (sh_body h))
  | BlockBabbage h _ | BlockConway h _ => Some (ph_vrf_vkey (ph_body h))
  end.

Definition block_opcert_sequence_number (b : MultiEraBlock Rest) : option Z :=
  match b with
  | BlockByron _ _ _ => None
  | BlockShelley h _ | BlockAlonzo h _ => Some (so_sequence_number (sh_operational_cert (sh_body h)))
  | BlockBabbage h _ | BlockConway h _ => Some (so_sequence_number (ph_operational_cert (ph_body h)))
  end.

(** ** Checks on a received block *)

Definition validate_protocol_version_for_era (era : Era) (major minor : Z)
    (max_major_protocol_version : option Z) : outcome BlockError unit :=
  let? _ :=
    match max_major_protocol_version with
    | Some max =>
        match check_header_protocol_version major max with
        | Err (ObsoleteNode header_major max_major) =>
            Err (ProtocolVersionTooHigh header_major max_major)
        | _ => Ok tt
        end
    | None => Ok tt
    end in
  let check valid range :=
    if valid : bool then Ok tt else Err (ProtocolVersionMismatch era major minor range) in
  match era with
  | EraByron => Ok tt
  | EraShelley => check ((major =? 2) || (major =? 3)) "2..=3"
  | EraAllegra => check ((major =? 3) || (major =? 4)) "3..=4"
  | EraMary => check ((major =? 4) || (major =? 5)) "4..=5"
  | EraAlonzo => check ((5 <=? major) && (major <=? 7)) "5..=7"
  | EraBabbage => check ((7 <=? major) && (major <=? 9)) "7..=9"
  | EraConway => check (9 <=? major) "9+"
  end.

Definition validate_block_protocol_version_with_max (b : MultiEraBlock Rest)
    (max_major_protocol_version : option Z) : outcome BlockError unit :=
  match block_protocol_version b with
  | None => Ok tt
  | Some (major, minor) =>
      validate_protocol_version_for_era (block_era b) major minor max_major_protocol_version
  end.

Record VerificationConfig := mkVerificationConfig {
  vc_slots_per_kes_period : Z;
  vc_max_kes_evolutions : Z;
  vc_verify_body_hash : bool;
  vc_max_major_protocol_version : option Z;
  vc_pp_major_protocol_version : option Z;
  vc_network_magic : option Z }.

Definition MAINNET_NETWORK_MAGIC : Z := 764824073.
Definition DIJKSTRA_MAJOR_PROTOCOL_VERSION : Z := 12.

Definition enforce_header_protocol_version_window (c : VerificationConfig) (pp_major : Z) : bool :=
  match vc_network_magic c with
  | Some magic => magic =? MAINNET_NETWORK_MAGIC
  | None => true
  end || (DIJKSTRA_MAJOR_PROTOCOL_VERSION <=? pp_major).

(** The era tags of blocks with a Shelley-style header. *)
Definition shelley_family_tag (era_tag : Z) : bool := (2 <=? era_tag) && (era_tag <=? 7).

Definition extract_header_body_cbor_from_raw_block (raw : list Z)
    : outcome BlockError (option (list Z)) :=
  map_err LedgerDecode
    (let? (outer_len, d) := Decoder_array_begin (Decoder_new raw) in
     if match outer_len with Some len => negb (len =? 2) | None => false end then Ok None
     else
       let? (era_tag, d) := Decoder_unsigned d in
       if negb (shelley_family_tag era_tag) then Ok None
       else
         let? (_, d) := Decoder_array_begin d in
         let? (_, d) := Decoder_array_begin d in
         let body_start := Decoder_position d in
         let? (_, d) := Decoder_skip d in
         let body_end := Decoder_position d in
         Ok (Some (zslice body_start body_end raw))).

Definition verify_multi_era_block_with_raw (b : MultiEraBlock Rest) (raw_block : option (list Z))
    (config : VerificationConfig) : outcome BlockError unit :=
  let? _ := validate_block_protocol_version_with_max b (vc_max_major_protocol_version config) in
  let? _ :=
    match vc_pp_major_protocol_version config, block_protocol_version b with
    | Some pp_major, Some (header_major, _) =>
        if enforce_header_protocol_version_window config pp_major
           && (wrap64 (pp_major + 1) <? header_major)
        then Err (HeaderProtVerTooHigh header_major pp_major) else Ok tt
    | _, _ => Ok tt
    end in
  let? body_cbor :=
    match raw_block with
    | Some raw =>
        match extract_header_body_cbor_from_raw_block raw with
        | Ok o => Ok o
        | Err _ => Ok None
        | Panic => Panic
        | OutOfFuel => OutOfFuel
        end
    | None => Ok None
    end in
  let spk := vc_slots_per_kes_period config in
  let mke := vc_max_kes_evolutions config in
  match b with
  | BlockShelley h _ | BlockAlonzo h _ => verify_shelley_header_with_body_cbor h body_cbor spk mke
  | BlockBabbage h _ | BlockConway h _ => verify_praos_header_with_body_cbor h body_cbor spk mke
  | BlockByron _ _ _ => Ok tt
  end.

(** One body segment: its hash goes to the end of [combined]. *)
Definition hash_segment (combined : list Z) : Dec (list Z) :=
  segment <- span_item ;; dret (combined ++ blake2b_256 segment).

Definition compute_block_body_hash (block_bytes : list Z) : outcome LedgerError (list Z) :=
  let? (arr_len, d) := Decoder_array (Decoder_new block_bytes) in
  if negb ((4 <=? arr_len) && (arr_len <=? 5)) then Err (CborInvalidLength 4 arr_len)
  else
    let? (_, d) := Decoder_skip d in
    let? (combined, _) := dfor (arr_len - 1) hash_segment [] d in
    Ok (blake2b_256 combined).

Definition extract_header_block_body_hash (inner_block : list Z) : outcome LedgerError (list Z) :=
  let? (_, d) := Decoder_array (Decoder_new inner_block) in
  let? (_, d) := Decoder_array d in
  let? (hb_len, d) := Decoder_array d in
  let? skip_count :=
    if hb_len =? 15 then Ok 8
    else if (hb_len =? 14) || (hb_len =? 10) then Ok 7
    else Err (CborInvalidLength 15 hb_len) in
  let? (_, d) := dfor skip_count (fun _ => Decoder_skip) tt d in
  let? (result, _) := decode_fixed 32 d in
  Ok result.

Definition verify_block_body_hash (raw_envelope : list Z) : outcome BlockError unit :=
  let? (_, d) := map_err LedgerDecode (Decoder_array (Decoder_new raw_envelope)) in
  let? (era_tag, d) := map_err LedgerDecode (Decoder_unsigned d) in
  if (era_tag =? 0) || (era_tag =? 1) then Ok tt
  else
    let? (inner_bytes, _) := map_err LedgerDecode (span_item d) in
    let? computed := map_err LedgerDecode (compute_block_body_hash inner_bytes) in
    let? declared := map_err LedgerDecode (extract_header_block_body_hash inner_bytes) in
    if decide (computed = declared) then Ok tt else Err BlockBodyHashMismatch.

Definition compute_actual_body_size (raw_inner_block : list Z) : outcome BlockError Z :=
  map_err LedgerDecode
    (let? (_, d) := Decoder_array (Decoder_new raw_inner_block) in
     let? (_, d) := Decoder_skip d in
     Ok (wrap32 (zlength raw_inner_block - Decoder_position d))).

Definition validate_block_body_size (b : MultiEraBlock Rest) (raw_inner_block : list Z)
    : outcome BlockError unit :=
  match declared_body_size b with
  | None => Ok tt
  | Some declared =>
      let? actual := compute_actual_body_size raw_inner_block in
      if declared =? actual then Ok tt else Err (WrongBlockBodySize declared actual)
  end.

Definition opcert_counter_check (b : MultiEraBlock Rest) (counters : OcertCounters)
    (pool_in_dist : list Z -> bool) : outcome BlockError OcertCounters :=
  match block_issuer_vkey b, block_opcert_sequence_number b with
  | Some issuer_vkey, Some new_seq =>
      let pool_hash := blake2b_224 issuer_vkey in
      map_err ConsensusFailure
        (validate_and_update counters pool_hash new_seq (pool_in_dist pool_hash))
  | _, _ => Ok counters
  end.

Definition validate_block_opcert_counter (b : MultiEraBlock Rest) (counters : OcertCounters)
    (stake_dist : PoolStakeDistribution) : outcome BlockError OcertCounters :=
  opcert_counter_check b counters (fun pool => bt_contains pool (pd_pool_stakes stake_dist)).

Definition validate_block_opcert_counter_permissive (b : MultiEraBlock Rest)
    (counters : OcertCounters) : outcome BlockError OcertCounters :=
  opcert_counter_check b counters (fun _ => true).

End Verification.
