(* ===== verification/HeaderFacts.v ===== *)
(** * What header verification guarantees

    The header codecs read back what they write, the bytes handed to signature
    verification are those of the header body on the wire, an accepted block is
    certified by its issuer and signed for its period, and the certificate
    counters of a pool never go back. *)

From stdpp Require Import list.
From S2P Require Import Prelude Cbor CborFacts CborSkip Types AddressFacts TypesCodec BTree MiniProtocol Consensus.
From S2P Require Import Staking SumKes Headers.
Local Open Scope Z_scope.

(** ** Round trips *)

(** [codec] for an encoding that is already in the order of the reader. *)
Ltac codec_along :=
  cbv beta iota; repeat (codec_step; cbv beta iota; cbn [negb andb Z.eqb Pos.eqb]; cbv iota).

(** What the Rust types guarantee: array sizes and integer widths. *)
Definition vrf_cert_ok (c : ShelleyVrfCert) : Prop := zlength (vrf_proof c) = 80.
Definition opcert_ok (c : ShelleyOpCert) : Prop :=
  zlength (so_hot_vkey c) = 32 /\ u64 (so_sequence_number c) /\ u64 (so_kes_period c)
  /\ zlength (so_sigma c) = 64.
Definition prev_hash_ok : option (list Z) -> Prop := option_ok (fun h => zlength h = 32).

Record shelley_body_ok (b : ShelleyHeaderBody) : Prop := {
  shok_number : u64 (sh_block_number b);
  shok_slot : u64 (sh_slot b);
  shok_prev : prev_hash_ok (sh_prev_hash b);
  shok_issuer : zlength (sh_issuer_vkey b) = 32;
  shok_vrf : zlength (sh_vrf_vkey b) = 32;
  shok_nonce : vrf_cert_ok (sh_nonce_vrf b);
  shok_leader : vrf_cert_ok (sh_leader_vrf b);
  shok_size : u32 (sh_block_body_size b);
  shok_hash : zlength (sh_block_body_hash b) = 32;
  shok_cert : opcert_ok (sh_operational_cert b);
  shok_major : u64 (sh_protocol_version b).1;
  shok_minor : u64 (sh_protocol_version b).2 }.

Record praos_body_ok (b : PraosHeaderBody) : Prop := {
  phok_number : u64 (ph_block_number b);
  phok_slot : u64 (ph_slot b);
  phok_prev : prev_hash_ok (ph_prev_hash b);
  phok_issuer : zlength (ph_issuer_vkey b) = 32;
  phok_vrf : zlength (ph_vrf_vkey b) = 32;
  phok_result : vrf_cert_ok (ph_vrf_result b);
  phok_size : u32 (ph_block_body_size b);
  phok_hash : zlength (ph_block_body_hash b) = 32;
  phok_cert : opcert_ok (ph_operational_cert b);
  phok_major : u64 (ph_protocol_version b).1;
  phok_minor : u64 (ph_protocol_version b).2 }.

Lemma decodes_ShelleyVrfCert c :
  vrf_cert_ok c -> decodes ShelleyVrfCert_decode (ShelleyVrfCert_encode c) c.
Proof.
  destruct c as [output proof]. unfold vrf_cert_ok, ShelleyVrfCert_decode, ShelleyVrfCert_encode.
  cbn [vrf_output vrf_proof]. intros. codec.
Qed.
#[local] Hint Resolve decodes_ShelleyVrfCert : cbor.

Lemma decodes_opcert_fields c :
  opcert_ok c -> decodes ShelleyOpCert_decode_fields (ShelleyOpCert_encode_fields c) c.
Proof.
  destruct c as [hot seq period sigma].
  unfold opcert_ok, ShelleyOpCert_decode_fields, ShelleyOpCert_encode_fields.
  cbn [so_hot_vkey so_sequence_number so_kes_period so_sigma].
  intros (? & ? & ? & ?). codec.
Qed.
#[local] Hint Resolve decodes_opcert_fields : cbor.

Lemma decodes_prev_hash h :
  prev_hash_ok h -> decodes (decode_nullable decode_hash32) (encode_nullable Encoder_bytes h) h.
Proof. apply (decodes_ip 32). Qed.
#[local] Hint Resolve decodes_prev_hash : cbor.

Lemma decodes_unsigned32 v : u32 v -> decodes Decoder_unsigned (Encoder_unsigned v) v.
Proof. intros. apply decodes_unsigned, u64_small. unfold u32, U32_MAX in *. lia. Qed.
#[local] Hint Resolve decodes_unsigned32 : cbor.

Lemma decodes_ShelleyHeaderBody b :
  shelley_body_ok b -> decodes ShelleyHeaderBody_decode (ShelleyHeaderBody_encode b) b.
Proof.
  destruct b as [n s p iv vv nv lv sz bh oc [ma mi]]. intros []; cbn in * |-.
  unfold ShelleyHeaderBody_decode, ShelleyHeaderBody_encode. cbn [sh_block_number sh_slot sh_prev_hash
    sh_issuer_vkey sh_vrf_vkey sh_nonce_vrf sh_leader_vrf sh_block_body_size sh_block_body_hash
    sh_operational_cert sh_protocol_version fst snd].
  rewrite <- (wrap32_id sz) at 2 by done. codec_along.
Qed.
#[local] Hint Resolve decodes_ShelleyHeaderBody : cbor.

Lemma app_prefix {A} (a b c d e f g h s : list A) :
  (a ++ b ++ c ++ d ++ e ++ f ++ g ++ h) ++ s = a ++ b ++ c ++ d ++ e ++ f ++ g ++ h ++ s.
Proof. by rewrite <- !app_assoc. Qed.

(** Any encoding of the certificate and the version that the reader of the
    announced length accepts. *)
Lemma decodes_praos_body len suffix b :
  len = 14 \/ len = 10 -> praos_body_ok b ->
  decodes (praos_suffix_decode len) suffix
    (ph_operational_cert b, (ph_protocol_version b).1, (ph_protocol_version b).2) ->
  decodes PraosHeaderBody_decode (Encoder_array len ++ praos_prefix_encode b ++ suffix) b.
Proof.
  destruct b as [n s p iv vv vr sz bh oc [ma mi]]. intros Hlen [] Hs; cbn in * |-.
  unfold PraosHeaderBody_decode, praos_prefix_encode.
  cbn [ph_block_number ph_slot ph_prev_hash
    ph_issuer_vkey ph_vrf_vkey ph_vrf_result ph_block_body_size ph_block_body_hash
    ph_operational_cert ph_protocol_version fst snd].
  rewrite app_prefix.
  eapply decodes_bind; [apply decodes_array, u64_small; lia|].
  apply decodes_skip_unit; [destruct Hlen as [-> | ->]; apply decodes_ret|].
  do 8 (eapply decodes_bind; [solve [eauto with cbor]|]; cbv beta).
  rewrite (wrap32_id sz) by done.
  eapply decodes_bind_ret; [exact Hs|]. apply decodes_ret.
Qed.

Lemma decodes_PraosHeaderBody b :
  praos_body_ok b -> decodes PraosHeaderBody_decode (PraosHeaderBody_encode b) b.
Proof.
  intros Hb. apply decodes_praos_body; [by left|done|]. destruct Hb.
  unfold praos_suffix_decode. cbn [Z.eqb Pos.eqb]. codec_along.
Qed.
#[local] Hint Resolve decodes_PraosHeaderBody : cbor.

(** The grouped form other nodes send. *)
Definition praos_grouped_encode (b : PraosHeaderBody) : list Z :=
  Encoder_array 10 ++ praos_prefix_encode b
  ++ Encoder_array 4 ++ ShelleyOpCert_encode_fields (ph_operational_cert b)
  ++ Encoder_array 2 ++ Encoder_unsigned (ph_protocol_version b).1
  ++ Encoder_unsigned (ph_protocol_version b).2.

Lemma decodes_praos_grouped b :
  praos_body_ok b -> decodes PraosHeaderBody_decode (praos_grouped_encode b) b.
Proof.
  intros Hb. apply decodes_praos_body; [by right|done|]. destruct Hb.
  unfold praos_suffix_decode. cbn [Z.eqb Pos.eqb]. codec_along.
Qed.

Lemma decodes_ShelleyHeader h :
  shelley_body_ok (sh_body h) -> decodes ShelleyHeader_decode (ShelleyHeader_encode h) h.
Proof.
  destruct h as [b s]. cbn [sh_body]. intros.
  unfold ShelleyHeader_decode, ShelleyHeader_encode. cbn [sh_body sh_signature]. codec_along.
Qed.

Lemma decodes_PraosHeader h :
  praos_body_ok (ph_body h) -> decodes PraosHeader_decode (PraosHeader_encode h) h.
Proof.
  destruct h as [b s]. cbn [ph_body]. intros.
  unfold PraosHeader_decode, PraosHeader_encode. cbn [ph_body ph_signature]. codec_along.
Qed.

(** ** Encodings are single items *)

Definition head_width (v : Z) : arg_width :=
  if v <=? 23 then Arg0 else if v <=? U8_MAX then Arg1 else if v <=? U16_MAX then Arg2
  else if v <=? U32_MAX then Arg4 else Arg8.

Lemma write_is_head major v :
  u64 v ->
  Encoder_write_type_and_arg major v = encode_head major (head_width v) v
  /\ arg_fits (head_width v) v = true.
Proof.
  intros Hv. unfold u64 in Hv. unfold Encoder_write_type_and_arg, encode_head, head_width, arg_fits.
  destruct (Z.ltb_spec v 24); destruct (Z.leb_spec v 23); try lia.
  - rewrite wrap8_id by (unfold u8, U8_MAX; lia). split; [done|]. cbn. lia.
  - destruct (Z.leb_spec v U8_MAX).
    { rewrite wrap8_id by (unfold u8; lia). split; [done|]. cbn. lia. }
    destruct (Z.leb_spec v U16_MAX).
    { rewrite wrap16_id by (unfold u16; lia). split; [done|]. cbn. lia. }
    destruct (Z.leb_spec v U32_MAX).
    { rewrite wrap32_id by (unfold u32; lia). split; [done|]. cbn. lia. }
    split; [done|]. cbn. lia.
Qed.

Lemma item_unsigned v : u64 v -> is_item (Encoder_unsigned v).
Proof.
  intros Hv. destruct (write_is_head MAJOR_UNSIGNED v Hv) as [He Hf].
  exists (IInt false (head_width v) v). split; [done|]. exact He.
Qed.

Lemma item_bytes bs : u64 (zlength bs) -> is_item (Encoder_bytes bs).
Proof.
  intros Hv. destruct (write_is_head MAJOR_BYTES (zlength bs) Hv) as [He Hf].
  exists (IStr false (head_width (zlength bs)) bs). split; [done|]. unfold Encoder_bytes. by rewrite He.
Qed.

Lemma item_null : is_item Encoder_null.
Proof. by exists (ISimple 22). Qed.

Lemma items_of l : Forall is_item l -> exists its, forallb item_ok its = true /\ l = map encode_item its.
Proof.
  induction 1 as [|bs l (it & Hok & ->) _ (its & Hoks & ->)]; [by exists []|].
  exists (it :: its). cbn. by rewrite Hok, Hoks.
Qed.

Lemma item_array l : Forall is_item l -> u64 (zlength l) -> is_item (Encoder_array (zlength l) ++ concat l).
Proof.
  intros (its & Hoks & ->)%items_of Hl. unfold zlength in *. rewrite length_map in *.
  destruct (write_is_head MAJOR_ARRAY _ Hl) as [He Hf].
  exists (IArray (head_width (zlength its)) its). cbn [item_ok encode_item]. unfold Encoder_array.
  split; [by rewrite Hoks, andb_true_r|]. by rewrite He.
Qed.

Lemma item_map (l : list (list Z * list Z)) :
  Forall (fun e => is_item e.1 /\ is_item e.2) l -> u64 (zlength l) ->
  is_item (Encoder_map (zlength l) ++ concat ((fun e => e.1 ++ e.2) <$> l)).
Proof.
  intros Hl Hz.
  assert (exists its : list (item * item), forallb (fun p => item_ok p.1 && item_ok p.2) its = true
    /\ l = (fun p => (encode_item p.1, encode_item p.2)) <$> its) as (its & Hoks & ->).
  { clear Hz. induction Hl as [|[k v] l [(ik & Hk & Ek) (iv & Hv & Ev)] _ (its & Hoks & ->)]; [by exists []|].
    cbn in Ek, Ev. subst. exists ((ik, iv) :: its). cbn. by rewrite Hk, Hv, Hoks. }
  unfold zlength in *. rewrite length_fmap in *.
  destruct (write_is_head MAJOR_MAP _ Hz) as [He Hf].
  exists (IMap (head_width (zlength its)) its). cbn [item_ok encode_item]. unfold Encoder_map.
  split; [by rewrite Hoks, andb_true_r|]. rewrite He. f_equal. by rewrite <- list_fmap_compose.
Qed.

(** An array of a known number of parts. *)
Ltac item_parts parts :=
  match goal with |- is_item (Encoder_array ?n ++ ?bs) =>
    replace n with (zlength parts) by done;
    replace bs with (concat parts) by (cbn [concat]; by rewrite <- ?app_assoc, ?app_nil_r);
    apply item_array; [repeat apply Forall_cons_2; try apply Forall_nil_2 | done] end.

Lemma u64_fixed (bs : list Z) n : zlength bs = n -> 0 <= n <= 1000 -> u64 (zlength bs).
Proof. intros -> ?. apply u64_small. lia. Qed.

Lemma item_vrf_cert c :
  vrf_cert_ok c -> u64 (zlength (vrf_output c)) -> is_item (ShelleyVrfCert_encode c).
Proof.
  intros Hp Ho. unfold ShelleyVrfCert_encode.
  item_parts [Encoder_bytes (vrf_output c); Encoder_bytes (vrf_proof c)].
  - by apply item_bytes.
  - eapply item_bytes, u64_fixed; [exact Hp|lia].
Qed.

Lemma item_prev_hash h : prev_hash_ok h -> is_item (encode_nullable Encoder_bytes h).
Proof.
  destruct h; cbn [encode_nullable]; intros Hh; [|apply item_null].
  eapply item_bytes, u64_fixed; [exact Hh|lia].
Qed.

Lemma item_praos_body b :
  praos_body_ok b -> u64 (zlength (vrf_output (ph_vrf_result b))) -> is_item (PraosHeaderBody_encode b).
Proof.
  intros [] Ho. unfold PraosHeaderBody_encode, praos_prefix_encode, ShelleyOpCert_encode_fields.
  destruct phok_cert0 as (? & ? & ? & ?).
  item_parts [Encoder_unsigned (ph_block_number b); Encoder_unsigned (ph_slot b);
    encode_nullable Encoder_bytes (ph_prev_hash b); Encoder_bytes (ph_issuer_vkey b);
    Encoder_bytes (ph_vrf_vkey b); ShelleyVrfCert_encode (ph_vrf_result b);
    Encoder_unsigned (ph_block_body_size b); Encoder_bytes (ph_block_body_hash b);
    Encoder_bytes (so_hot_vkey (ph_operational_cert b));
    Encoder_unsigned (so_sequence_number (ph_operational_cert b));
    Encoder_unsigned (so_kes_period (ph_operational_cert b));
    Encoder_bytes (so_sigma (ph_operational_cert b));
    Encoder_unsigned (ph_protocol_version b).1; Encoder_unsigned (ph_protocol_version b).2];
    try (by apply item_unsigned); try (by apply item_prev_hash); try (by apply item_vrf_cert);
    try (eapply item_bytes, u64_fixed; [eassumption|lia]).
  apply item_unsigned, u64_small. unfold u32, U32_MAX in *. lia.
Qed.

(** ** The bytes that were signed *)

(** The start of a block on the wire: the envelope with the era tag, the block
    and the header, with heads of any width, then the header body and whatever
    follows it. *)
Record wire_block (raw : list Z) (tag : Z) (body : list Z) : Prop := {
  wire_size : zlength raw <= ISIZE_MAX;
  wire_tag : 2 <= tag <= 7;
  wire_body : is_item body;
  wire_layout : exists w0 w1 w2 w3 n rest,
    arg_fits w0 2 = true /\ arg_fits w1 tag = true /\ arg_fits w2 n = true /\ arg_fits w3 2 = true
    /\ raw = encode_head MAJOR_ARRAY w0 2 ++ encode_head MAJOR_UNSIGNED w1 tag
             ++ encode_head MAJOR_ARRAY w2 n ++ encode_head MAJOR_ARRAY w3 2 ++ body ++ rest }.

(** The reader at the start of its input. *)
Lemma decodes_start {A} (m : Dec A) bs a suf :
  decodes m bs a -> zlength (bs ++ suf) <= ISIZE_MAX ->
  m (Decoder_new (bs ++ suf)) = Ok (a, at_ bs suf).
Proof. intros Hm Hl. exact (Hm [] suf Hl). Qed.

(** The next reader, when the whole input has the right size. *)
Lemma decodes_next {A} (m : Dec A) pre bs a suf raw :
  decodes m bs a -> pre ++ bs ++ suf = raw -> zlength raw <= ISIZE_MAX ->
  m (at_ pre (bs ++ suf)) = Ok (a, at_ (pre ++ bs) suf).
Proof. intros Hm Hr Hl. apply Hm. by rewrite Hr. Qed.

Lemma signed_bytes_on_wire raw tag body :
  wire_block raw tag body -> extract_header_body_cbor_from_raw_block raw = Ok (Some body).
Proof.
  intros [Hsz Htag (it & Hit & ->) (w0 & w1 & w2 & w3 & n & rest & F0 & F1 & F2 & F3 & Hraw)].
  unfold extract_header_body_cbor_from_raw_block. rewrite Hraw.
  set (h0 := encode_head MAJOR_ARRAY w0 2) in *. set (h1 := encode_head MAJOR_UNSIGNED w1 tag) in *.
  set (h2 := encode_head MAJOR_ARRAY w2 n) in *. set (h3 := encode_head MAJOR_ARRAY w3 2) in *.
  rewrite (decodes_start _ h0 (Some 2)) by (apply decodes_array_begin_head || (by rewrite <- Hraw); done).
  cbn [obind Z.eqb Pos.eqb negb].
  rewrite (decodes_next _ h0 h1 tag _ raw);
    [|by apply (decodes_expect_head MAJOR_UNSIGNED)|by rewrite Hraw|done].
  cbn [obind]. unfold shelley_family_tag.
  rewrite (proj2 (Z.leb_le 2 tag)), (proj2 (Z.leb_le tag 7)) by lia. cbn [andb negb].
  rewrite (decodes_next _ (h0 ++ h1) h2 (Some n) _ raw);
    [|by apply decodes_array_begin_head|by rewrite Hraw, <- !app_assoc|done].
  cbn [obind].
  rewrite (decodes_next _ ((h0 ++ h1) ++ h2) h3 (Some 2) _ raw);
    [|by apply decodes_array_begin_head|by rewrite Hraw, <- !app_assoc|done].
  cbn [obind].
  rewrite (decodes_next _ (((h0 ++ h1) ++ h2) ++ h3) (encode_item it) tt _ raw);
    [|by apply decodes_skip|by rewrite Hraw, <- !app_assoc|done].
  cbn [obind map_err]. do 2 f_equal. unfold Decoder_position. cbn [at_ pos].
  set (pre := ((h0 ++ h1) ++ h2) ++ h3). rewrite zlength_app.
  replace (h0 ++ _) with (pre ++ encode_item it ++ rest) by (unfold pre; by rewrite <- !app_assoc).
  apply zslice_app.
Qed.

(** ** What acceptance means *)

Section Accepted.
Context `{Ed25519, Blake2b256, Blake2b224} {Rest : Type}.

(** The header of a block as the checks see it. *)
Definition header_view (b : MultiEraBlock Rest) : option (HeaderBody * list Z) :=
  match b with
  | BlockByron _ _ _ => None
  | BlockShelley h _ | BlockAlonzo h _ =>
      Some (shelley_header_body_to_consensus (sh_body h), sh_signature h)
  | BlockBabbage h _ | BlockConway h _ =>
      Some (praos_header_body_to_consensus (ph_body h), ph_signature h)
  end.

(** The issuer certified the hot key, the slot lies in the certificate's
    window, and the hot key signed [message] for the period. *)
Record header_certified (spk mke : Z) (hb : HeaderBody) (signature message : list Z) : Prop := {
  hc_period_length : spk <> 0;
  hc_from : oc_kes_period (hb_operational_cert hb) <= hb_slot hb / spk;
  hc_until : hb_slot hb / spk < oc_kes_period (hb_operational_cert hb) + mke;
  hc_window : oc_kes_period (hb_operational_cert hb) + mke <= U64_MAX;
  hc_cold_key : VerificationKey_verify (hb_issuer_vkey hb) (signable_bytes (hb_operational_cert hb))
                  (oc_sigma (hb_operational_cert hb)) = Ok tt;
  hc_size : zlength signature = signature_expected_size SHELLEY_KES_DEPTH;
  hc_offset : hb_slot hb / spk - oc_kes_period (hb_operational_cert hb) <= U32_MAX;
  hc_hot_key : verify_sum_kes (oc_hot_vkey (hb_operational_cert hb))
                 (hb_slot hb / spk - oc_kes_period (hb_operational_cert hb)) message
                 (mkDeep SHELLEY_KES_DEPTH signature) = Ok tt }.

(** The major versions of an era, as a block of it announces them. *)
Definition version_of_era (era : Era) (major : Z) : Prop :=
  match era with
  | EraByron => True
  | EraShelley => 2 <= major <= 3
  | EraAllegra => 3 <= major <= 4
  | EraMary => 4 <= major <= 5
  | EraAlonzo => 5 <= major <= 7
  | EraBabbage => 7 <= major <= 9
  | EraConway => 9 <= major
  end.

Definition version_accepted (config : VerificationConfig) (b : MultiEraBlock Rest) (major : Z) : Prop :=
  (forall max, vc_max_major_protocol_version config = Some max -> major <= max)
  /\ version_of_era (block_era b) major
  /\ (forall pp, vc_pp_major_protocol_version config = Some pp ->
        enforce_header_protocol_version_window config pp = true -> major <= wrap64 (pp + 1)).

Lemma ok_unit {E} (m : outcome E unit) (k : outcome E unit) :
  (let? _ := m in k) = Ok tt <-> m = Ok tt /\ k = Ok tt.
Proof.
  split.
  - intros (u & Hm & Hk)%obind_Ok_inv. by destruct u.
  - by intros [-> ->].
Qed.

Lemma map_err_ok {E F A} (f : E -> F) (m : outcome E A) a : map_err f m = Ok a <-> m = Ok a.
Proof. destruct m; cbn; split; congruence. Qed.

Lemma if_ok {E} (c : bool) (e : E) : (if c then Ok tt else Err e) = Ok tt <-> c = true.
Proof. by destruct c. Qed.
Lemma if_err {E} (c : bool) (e : E) (k : outcome E unit) :
  (if c then Err e else k) = Ok tt <-> c = false /\ k = Ok tt.
Proof. destruct c; naive_solver. Qed.

Lemma verify_view hb signature spk mke message :
  (let? kes := kes_signature_from_bytes signature in
   map_err ConsensusFailure (verify_header_with_signed_bytes (mkHeader hb kes) spk mke (Some message)))
    = Ok tt
  <-> header_certified spk mke hb signature message.
Proof.
  unfold kes_signature_from_bytes, SumKesSignature_from_bytes.
  destruct (Z.eqb_spec (zlength signature) (signature_expected_size SHELLEY_KES_DEPTH)) as [Hz|Hz].
  2: { split; [done|]. by intros []. }
  cbn [map_err obind]. rewrite map_err_ok. unfold verify_header_with_signed_bytes.
  cbn [ch_body ch_kes_signature default]. rewrite ok_unit. unfold OpCert_verify. rewrite map_err_ok.
  unfold kes_period_of_slot. destruct (Z.eqb_spec spk 0) as [->|Hspk].
  { split; [by intros [_ ?]|]. by intros []. }
  cbn [obind]. rewrite ok_unit. unfold check_kes_period. rewrite !if_err, map_err_ok.
  rewrite !Z.ltb_ge, Z.leb_gt. split.
  - intros (? & (? & ? & ? & _) & ? & ? & ?). by split.
  - intros []. repeat (split; [done|]). done.
Qed.

Lemma version_check b (config : VerificationConfig) v :
  block_protocol_version b = Some v ->
  validate_block_protocol_version_with_max b (vc_max_major_protocol_version config) = Ok tt
  /\ match vc_pp_major_protocol_version config, block_protocol_version b with
     | Some pp_major, Some (header_major, _) =>
         if enforce_header_protocol_version_window config pp_major
            && (wrap64 (pp_major + 1) <? header_major)
         then Err (HeaderProtVerTooHigh header_major pp_major) else Ok tt
     | _, _ => Ok tt
     end = Ok tt
  <-> version_accepted config b v.1.
Proof.
  intros Hv. destruct v as [major minor]. cbn [fst].
  unfold validate_block_protocol_version_with_max, validate_protocol_version_for_era, version_accepted.
  rewrite Hv, ok_unit.
  assert (Hmax : match vc_max_major_protocol_version config with
    | Some max => match check_header_protocol_version major max with
                  | Err (ObsoleteNode h m) => Err (ProtocolVersionTooHigh h m)
                  | _ => Ok tt end
    | None => Ok tt end = Ok tt
    <-> (forall max, vc_max_major_protocol_version config = Some max -> major <= max)).
  { destruct (vc_max_major_protocol_version config) as [max|]; [|done].
    unfold check_header_protocol_version. destruct (Z.ltb_spec max major).
    - split; [done|]. intros Hm. specialize (Hm _ eq_refl). lia.
    - split; [|done]. intros _ m [= <-]. lia. }
  assert (Hera : (let check valid range :=
      if valid : bool then Ok tt
      else Err (ProtocolVersionMismatch (block_era b) major minor range) in
    match block_era b with
    | EraByron => Ok tt
    | EraShelley => check ((major =? 2) || (major =? 3)) "2..=3"%string
    | EraAllegra => check ((major =? 3) || (major =? 4)) "3..=4"%string
    | EraMary => check ((major =? 4) || (major =? 5)) "4..=5"%string
    | EraAlonzo => check ((5 <=? major) && (major <=? 7)) "5..=7"%string
    | EraBabbage => check ((7 <=? major) && (major <=? 9)) "7..=9"%string
    | EraConway => check (9 <=? major) "9+"%string
    end) = Ok tt <-> version_of_era (block_era b) major).
  { destruct (block_era b); cbn [version_of_era]; cbv zeta; rewrite ?if_ok; try done; lia. }
  rewrite Hmax, Hera. destruct (vc_pp_major_protocol_version config) as [pp|].
  - rewrite if_err. split.
    + intros [[? ?] [Hw _]]. split_and!; [done..|]. intros ? [= <-] He. rewrite He in Hw. cbn in Hw. lia.
    + intros (? & ? & Hw). split_and!; [done..| |done].
      destruct (enforce_header_protocol_version_window config pp) eqn:He; [|done]. cbn.
      specialize (Hw _ eq_refl He). lia.
  - naive_solver.
Qed.

Lemma accepted_view b raw tag body (config : VerificationConfig) hb signature :
  wire_block raw tag body -> header_view b = Some (hb, signature) ->
  verify_multi_era_block_with_raw b (Some raw) config = Ok tt
  <-> version_accepted config b (hb_protocol_version hb).1
      /\ header_certified (vc_slots_per_kes_period config) (vc_max_kes_evolutions config)
           hb signature body.
Proof.
  intros Hw Hv. unfold verify_multi_era_block_with_raw. rewrite (signed_bytes_on_wire _ _ _ Hw).
  change (@obind BlockError (option (list Z)) unit (Ok (Some body)))
    with (fun k : option (list Z) -> outcome BlockError unit => k (Some body)). cbv beta iota zeta.
  rewrite !ok_unit, (and_assoc (_ = _)).
  destruct b as [? ? ?|h ?|h ?|h ?|h ?]; [done|..]; injection Hv as <- <-;
    erewrite version_check by reflexivity; cbn [hb_protocol_version shelley_header_body_to_consensus
      praos_header_body_to_consensus];
    rewrite <- verify_view; unfold verify_shelley_header_with_body_cbor, verify_praos_header_with_body_cbor,
      shelley_header_to_consensus, praos_header_to_consensus; by rewrite obind_assoc.
Qed.

Lemma kes_period_bound depth vk t m (bytes : list Z) :
  (0 < depth < 32)%nat -> verify_at depth vk t m bytes = Ok tt -> t < 2 ^ Z.of_nat depth.
Proof.
  intros Hd. destruct depth as [|child]; [lia|]. cbn [verify_at].
  rewrite total_periods_pow by lia. by destruct (Z.leb_spec (2 ^ Z.of_nat (S child)) t).
Qed.

(** C8: the node accepts the header of a received Shelley-family block exactly
    when the version is one of its era and within the configured bounds, the
    issuer's cold key signed the operational certificate, the slot lies in the
    certificate's window, and the certified key signed, for the period of the
    slot, the bytes of the header body as they stand on the wire, whatever the
    widths of the CBOR heads before them. If the certified key is one the sum
    composition generates, the Ed25519 signature in the header is one of the
    leaf key of that period over those bytes, or a collision of Blake2b-256 is
    at hand. *)
Theorem accepted_block_is_certified `{!Ed25519Laws}
    (hash_size : forall m, zlength (blake2b_256 m) = 32)
    (b : MultiEraBlock Rest) (raw : list Z) (tag : Z) (body : list Z) (config : VerificationConfig)
    (hb : HeaderBody) (signature : list Z) :
  wire_block raw tag body -> header_view b = Some (hb, signature) ->
  (verify_multi_era_block_with_raw b (Some raw) config = Ok tt
   <-> version_accepted config b (hb_protocol_version hb).1
       /\ header_certified (vc_slots_per_kes_period config) (vc_max_kes_evolutions config)
            hb signature body)
  /\ (forall seed, oc_hot_vkey (hb_operational_cert hb) = tree_key SHELLEY_KES_DEPTH seed ->
        verify_multi_era_block_with_raw b (Some raw) config = Ok tt ->
        let offset := hb_slot hb / vc_slots_per_kes_period config
                      - oc_kes_period (hb_operational_cert hb) in
        key_collision
        \/ ed_verify_strict (ed_public (leaf_seed SHELLEY_KES_DEPTH seed offset)) body
             (take 64 signature) = true).
Proof.
  intros Hw Hv. pose proof (accepted_view b raw tag body config hb signature Hw Hv) as Hiff.
  split; [exact Hiff|]. intros seed Hk [_ [? Hf ? ? ? Hs ? Hhot]]%Hiff. cbv zeta.
  rewrite Hk in Hhot. unfold verify_sum_kes in Hhot. cbn [tree_depth tree_data] in Hhot.
  pose proof (kes_period_bound SHELLEY_KES_DEPTH _ _ _ _ ltac:(unfold SHELLEY_KES_DEPTH; lia) Hhot).
  apply verify_sound in Hhot as [?|?]; auto using verification_ok; [unfold SHELLEY_KES_DEPTH; lia|lia].
Qed.

End Accepted.

(** ** Certificate counters *)

Section Counters.
Context `{Blake2b224} {Rest : Type}.

(** The counters after a run of blocks, checked as during sync. *)
Fixpoint run_counters (blocks : list (MultiEraBlock Rest)) (counters : OcertCounters)
    : outcome BlockError OcertCounters :=
  match blocks with
  | [] => Ok counters
  | b :: blocks =>
      let? counters := validate_block_opcert_counter_permissive b counters in
      run_counters blocks counters
  end.

(** The certificate number of a block of [pool]. *)
Definition number_of (pool : list Z) (b : MultiEraBlock Rest) : option Z :=
  match block_issuer_vkey b, block_opcert_sequence_number b with
  | Some key, Some n => if decide (blake2b_224 key = pool) then Some n else None
  | _, _ => None
  end.

(** Each number repeats the one before it or follows it. *)
Fixpoint in_step (stored : option Z) (numbers : list Z) : Prop :=
  match numbers with
  | [] => True
  | n :: numbers =>
      match stored with Some s => s <= n <= sat_add s 1 | None => True end /\ in_step (Some n) numbers
  end.

Definition last_number (stored : option Z) (numbers : list Z) : option Z :=
  match last numbers with Some n => Some n | None => stored end.

Lemma last_number_cons stored n numbers :
  last_number stored (n :: numbers) = last_number (Some n) numbers.
Proof.
  unfold last_number. rewrite last_cons. by destruct (last numbers).
Qed.

Lemma counter_step (counters : OcertCounters) pool n :
  (match bt_get pool counters with Some s => s <= n <= sat_add s 1 | None => True end ->
   validate_and_update counters pool n true = Ok (bt_insert pool n counters))
  /\ (forall c, validate_and_update counters pool n true = Ok c ->
        match bt_get pool counters with Some s => s <= n <= sat_add s 1 | None => True end).
Proof.
  unfold validate_and_update, validate_and_update_with_rule.
  destruct (bt_get pool counters) as [s|]; [cbv iota|done].
  destruct (Z.ltb_spec n s); destruct (Z.ltb_spec (sat_add s 1) n); split; intros; done || lia.
Qed.

(** What one block does to the counter of every pool. *)
Lemma counter_block (b : MultiEraBlock Rest) counters :
  (exists pool n, number_of pool b = Some n /\ (forall p, p <> pool -> number_of p b = None)
     /\ validate_block_opcert_counter_permissive b counters
        = map_err ConsensusFailure (validate_and_update counters pool n true))
  \/ ((forall p, number_of p b = None)
      /\ validate_block_opcert_counter_permissive b counters = Ok counters).
Proof.
  unfold validate_block_opcert_counter_permissive, opcert_counter_check, number_of.
  destruct b as [? ? ?|h ?|h ?|h ?|h ?]; cbn [block_issuer_vkey block_opcert_sequence_number];
    [by right|left..]; eexists _, _; (split; [by rewrite decide_True|]);
    (split; [|done]); intros p Hp; by rewrite decide_False by congruence.
Qed.

(** C24: during sync the counters accept a run of blocks exactly when, for every
    pool, the certificate numbers of its blocks start at or one above the
    stored number and each repeats or follows the one before it; afterwards the
    stored number of a pool is that of its last block. So a superseded
    certificate is refused for good. *)
Theorem opcert_numbers_in_step (blocks : list (MultiEraBlock Rest)) (counters : OcertCounters) :
  ((exists c, run_counters blocks counters = Ok c)
   <-> forall pool, in_step (bt_get pool counters) (omap (number_of pool) blocks))
  /\ (forall c, run_counters blocks counters = Ok c ->
        forall pool, bt_get pool c = last_number (bt_get pool counters) (omap (number_of pool) blocks)).
Proof.
  revert counters. induction blocks as [|b blocks IH]; intros counters; cbn [run_counters].
  { split; [by split; eauto|]. by intros ? [= <-]. }
  destruct (counter_block b counters) as [(pool & n & Hn & Hother & ->)|[Hnone ->]].
  - destruct (counter_step counters pool n) as [Hok Hinv].
    assert (Hstep : forall p, omap (number_of p) (b :: blocks) =
      if decide (p = pool) then n :: omap (number_of p) blocks else omap (number_of p) blocks).
    { intros p. cbn. case_decide as Hp; [by subst; rewrite Hn|by rewrite Hother]. }
    assert (Hget : forall p, bt_get p (bt_insert pool n counters) =
      if decide (p = pool) then Some n else bt_get p counters).
    { intros p. case_decide; [subst; apply bt_get_insert|by apply bt_get_insert_ne]. }
    destruct (IH (bt_insert pool n counters)) as [IH1 IH2]. split.
    + split.
      * intros [c Hc]. destruct (validate_and_update counters pool n true) as [c'| | |] eqn:Hv; try done.
        pose proof (Hinv _ eq_refl) as Hb. specialize (Hok Hb) as [= ->]. cbn in Hc.
        intros p. rewrite Hstep. pose proof (proj1 IH1 (ex_intro _ _ Hc) p) as Hp. rewrite Hget in Hp.
        case_decide as Hpp; [subst; by split|done].
      * intros Hall. pose proof (Hall pool) as Hp. rewrite Hstep, decide_True in Hp by done.
        rewrite (Hok (proj1 Hp)). cbn. apply IH1. intros p. rewrite Hget. specialize (Hall p).
        rewrite Hstep in Hall. case_decide; [by apply Hall|done].
    + intros c Hc p. destruct (validate_and_update counters pool n true) as [c'| | |] eqn:Hv; try done.
      specialize (Hok (Hinv _ eq_refl)) as [= ->]. cbn in Hc.
      rewrite (IH2 _ Hc), Hstep, Hget. case_decide; [by rewrite last_number_cons|done].
  - assert (Hstep : forall p, omap (number_of p) (b :: blocks) = omap (number_of p) blocks).
    { intros p. cbn. by rewrite Hnone. }
    cbn [obind]. destruct (IH counters) as [IH1 IH2]. split.
    + rewrite IH1. split; intros Hall p; specialize (Hall p); by rewrite Hstep in *.
    + intros c Hc p. by rewrite (IH2 _ Hc), Hstep.
Qed.

End Counters.

(** The counters saved beside a checkpoint are read back. *)
Lemma decodes_OcertCounters (counters : OcertCounters) :
  bt_sorted counters -> Forall (fun e => zlength e.1 = 28 /\ u64 e.2) counters ->
  u64 (zlength counters) ->
  decodes OcertCounters_decode (OcertCounters_encode counters) counters.
Proof.
  intros Hs Hok Hn. unfold OcertCounters_decode, OcertCounters_encode.
  eapply decodes_bind; [by apply decodes_map|]. cbv beta.
  replace counters with (foldl (fun m e => bt_insert e.1 e.2 m) [] counters) at 3.
  2: { apply (bt_collect_append []); done. }
  apply (decodes_dfor counters (fun e => Encoder_bytes e.1 ++ Encoder_unsigned e.2)
    (fun m e => bt_insert e.1 e.2 m)).
  intros m [k v] He. rewrite Forall_forall in Hok. destruct (Hok _ He) as [Hk Hv]. cbn in Hk, Hv.
  cbn [fst snd]. codec_along.
Qed.

(** ** Where the rules fall short of their description *)

(** Two rules are stricter than described. The table of versions lists
    major version 5 for Mary, as the signal for Alonzo, but the era of a
    Shelley-format block is read off its version, 5 is taken for Shelley, and
    the block is refused, whatever its other contents. And the counter rule of
    the TPraos eras admits any higher number, but the sync pipeline applies the
    Praos rule to their blocks and refuses a certificate that skips a number. *)
Theorem header_rule_gaps `{Ed25519, Blake2b256, Blake2b224} {Rest : Type}
    (h : ShelleyHeader) (rest : Rest) (config : VerificationConfig) (raw : option (list Z)) :
  ((sh_protocol_version (sh_body h)).1 = 5 ->
     exists e, verify_multi_era_block_with_raw (BlockShelley h rest) raw config = Err e)
  /\ (forall (counters : OcertCounters) stored,
        let pool := blake2b_224 (sh_issuer_vkey (sh_body h)) in
        let number := so_sequence_number (sh_operational_cert (sh_body h)) in
        bt_get pool counters = Some stored -> stored + 1 < number -> number <= U64_MAX ->
        validate_and_update_with_rule counters pool number true
          (for_pv_major (match block_era (BlockShelley h rest) with EraMary => 4 | _ => 2 end))
          = Ok (bt_insert pool number counters)
        /\ validate_block_opcert_counter_permissive (BlockShelley h rest) counters
           = Err (ConsensusFailure (OcertCounterTooFar stored number))).
Proof.
  split.
  - intros H5. unfold verify_multi_era_block_with_raw, validate_block_protocol_version_with_max.
    cbn [block_protocol_version]. destruct (sh_protocol_version (sh_body h)) as [major minor] eqn:Hv.
    cbn in H5. subst major. cbn [block_era]. rewrite Hv. cbn [fst].
    unfold validate_protocol_version_for_era, check_header_protocol_version.
    destruct (vc_max_major_protocol_version config) as [max|]; [destruct (max <? 5)|];
      cbn [obind]; eauto.
  - intros counters stored pool number Hget Hlt Hmax.
    assert (Hs : sat_add stored 1 = stored + 1) by (unfold sat_add; lia).
    assert (Hr : forall e : Era, for_pv_major (match e with EraMary => 4 | _ => 2 end) = RuleTPraos)
      by by intros [].
    rewrite Hr. unfold validate_block_opcert_counter_permissive, opcert_counter_check.
    cbn [block_issuer_vkey block_opcert_sequence_number]. fold pool number.
    unfold validate_and_update, validate_and_update_with_rule. rewrite Hget.
    rewrite (proj2 (Z.ltb_ge _ _)), Hs, (proj2 (Z.ltb_lt _ _)) by lia. done.
Qed.

(** ** A certified block *)

Definition sample_seed : list Z := pad32 [7].
Definition sample_cold : list Z := pad32 [9].
#[local] Existing Instance toy_ed.
#[local] Existing Instance toy_hash.
#[local] Instance toy_hash28 : Blake2b224 := take 28.

Definition sample_opcert : ShelleyOpCert :=
  let hot := tree_key SHELLEY_KES_DEPTH sample_seed in
  mkShelleyOpCert hot 1 10 (ed_sign sample_cold (signable_bytes (mkOpCert hot 1 10 []))).

Definition sample_body : PraosHeaderBody :=
  mkPraosBody 5 1300 (Some (pad32 [3])) (ed_public sample_cold) (pad32 [4])
    (mkVrfCert (pad32 [5]) (replicate 80 6)) 4 (pad32 [8]) sample_opcert (9, 0).

(** Period 13 is the fourth of the certificate. *)
Definition sample_signature : list Z :=
  match sign_at SHELLEY_KES_DEPTH (key_at SHELLEY_KES_DEPTH sample_seed 3) 3
          (PraosHeaderBody_encode sample_body) with
  | Ok s => s
  | _ => []
  end.
Definition sample_block : MultiEraBlock unit :=
  BlockConway (mkPraosHeader sample_body sample_signature) tt.
Definition sample_raw : list Z :=
  Encoder_array 2 ++ Encoder_unsigned 7 ++ Encoder_array 5 ++ Encoder_array 2
  ++ PraosHeaderBody_encode sample_body ++ Encoder_bytes sample_signature ++ [128; 128; 160; 128].
Definition sample_config : VerificationConfig := mkVerificationConfig 100 62 true (Some 10) (Some 9) None.

Lemma sample_wire : wire_block sample_raw 7 (PraosHeaderBody_encode sample_body).
Proof.
  split; [vm_compute; discriminate|lia| |].
  - apply item_praos_body; [|vm_compute; by split].
    split; vm_compute; repeat split; discriminate.
  - by exists Arg0, Arg0, Arg0, Arg0, 5, (Encoder_bytes sample_signature ++ [128; 128; 160; 128]).
Qed.

Lemma accepted_block_is_certified_witness :
  let hb := praos_header_body_to_consensus sample_body in
  wire_block sample_raw 7 (PraosHeaderBody_encode sample_body)
  /\ header_certified 100 62 hb sample_signature (PraosHeaderBody_encode sample_body)
  /\ (key_collision
      \/ ed_verify_strict (ed_public (leaf_seed SHELLEY_KES_DEPTH sample_seed 3))
           (PraosHeaderBody_encode sample_body) (take 64 sample_signature) = true).
Proof.
  intros hb. split; [exact sample_wire|].
  destruct (@accepted_block_is_certified toy_ed toy_hash unit toy_ed_laws toy_hash_size
    sample_block sample_raw 7 (PraosHeaderBody_encode sample_body) sample_config hb sample_signature
    sample_wire eq_refl) as [Hiff Hleaf].
  assert (Hv : verify_multi_era_block_with_raw sample_block (Some sample_raw) sample_config = Ok tt)
    by (vm_compute; reflexivity).
  split; [exact (proj2 (proj1 Hiff Hv))|].
  exact (Hleaf sample_seed eq_refl Hv).
Defined.

Lemma header_rule_gaps_witness :
  exists e, verify_multi_era_block_with_raw
    (BlockShelley (mkShelleyHeader (mkShelleyBody 1 2 None [] [] (mkVrfCert [] []) (mkVrfCert [] []) 0 []
       sample_opcert (5, 0)) []) tt) None sample_config = Err e.
Proof.
  exact (proj1 (header_rule_gaps (mkShelleyHeader (mkShelleyBody 1 2 None [] [] (mkVrfCert [] [])
    (mkVrfCert [] []) 0 [] sample_opcert (5, 0)) []) tt sample_config None) eq_refl).
Defined.
