(* ===== verification/Leader.v ===== *)
(** * Slot leadership

    Model of [crates/consensus/src/praos.rs] and [praos/]: VRF inputs, the
    active slot coefficient with its logarithm, the comparison against the
    leader threshold, and the checks of leader and nonce proofs; and of the
    part of [crates/node/sync/src/lib.rs] that decides whether the issuer of a
    block was entitled to its slot, by stake or by the overlay schedule of the
    early eras. Big integers are [Z]; 64-bit floats are the standard library's
    specification of binary64. The VRF itself is the parameter class [Vrf]. *)

From stdpp Require Import list.
From Stdlib Require Import Floats.SpecFloat.
From S2P Require Import Prelude Cbor Types TypesCodec BTree Consensus Fees WideArith LedgerState.
From S2P Require Import Staking SumKes Headers.
Local Open Scope string_scope.
Local Open Scope Z_scope.
Local Open Scope list_scope.

(** ** Binary64 *)

Abbreviation f64 := spec_float.
Definition f64_of_int (n : Z) : f64 := binary_normalize 53 1024 n 0 false.
Definition f64_div : f64 -> f64 -> f64 := SFdiv 53 1024.
Definition f64_mul : f64 -> f64 -> f64 := SFmul 53 1024.

(** [x as uN] for [max = 2^N - 1]: truncation, saturating. *)
Definition f64_to_uint (max : Z) (x : f64) : Z :=
  match x with
  | S754_finite false m e =>
      Z.min max (if 0 <=? e then Z.pos m * 2 ^ e else Z.pos m / 2 ^ (- e))
  | S754_infinity false => max
  | _ => 0
  end.

(** [x.floor()] followed by the conversion: for numbers that are not negative
    the conversion already rounds down. *)
Definition f64_floor_to_uint : Z -> f64 -> Z := f64_to_uint.

(** [x.round()] followed by the conversion; halves are rounded up. *)
Definition f64_round_to_uint (max : Z) (x : f64) : Z :=
  match x with
  | S754_finite false m e =>
      Z.min max (if 0 <=? e then Z.pos m * 2 ^ e
                 else (2 * Z.pos m + 2 ^ (- e)) / 2 ^ (- e + 1))
  | S754_infinity false => max
  | _ => 0
  end.

Definition f64_finite (x : f64) : bool :=
  match x with S754_zero _ | S754_finite _ _ _ => true | _ => false end.

(** ** The active slot coefficient *)

Record ActiveSlotCoeff := mkCoeff { f_val : f64; log_num : Z; log_den : Z }.

Definition LN_SERIES_TERMS : nat := 260.
Definition EXP_SERIES_TERMS : nat := 80.

(** Division of both parts by their greatest common divisor, when it is
    neither 0 nor 1. *)
Definition reduce (num den : Z) : Z * Z :=
  let g := Z.gcd num den in
  if negb (g =? 0) && negb (g =? 1) then (num / g, den / g) else (num, den).

(** One turn of [compute_neg_ln_one_minus], for the term [k]. *)
Record LnState := mkLn { ln_sum_num : Z; ln_sum_den : Z; ln_p_pow : Z; ln_q_pow : Z }.

Definition ln_turn (p q k : Z) (st : LnState) : LnState :=
  let p_pow_k := ln_p_pow st * p in
  let q_pow_k := ln_q_pow st * q in
  let term_num := p_pow_k in
  let term_den := k * q_pow_k in
  let sum_num := ln_sum_num st * term_den + term_num * ln_sum_den st in
  let sum_den := ln_sum_den st * term_den in
  let '(sum_num, sum_den) := if k mod 20 =? 0 then reduce sum_num sum_den else (sum_num, sum_den) in
  mkLn sum_num sum_den p_pow_k q_pow_k.

(** The turns from term [k] on. *)
Fixpoint ln_turns (terms : nat) (p q k : Z) (st : LnState) : LnState :=
  match terms with
  | O => st
  | S terms => ln_turns terms p q (k + 1) (ln_turn p q k st)
  end.

Definition compute_neg_ln_one_minus (p q : Z) (terms : nat) : Z * Z :=
  let st := ln_turns terms p q 1 (mkLn 0 1 1 1) in
  reduce (ln_sum_num st) (ln_sum_den st).

Definition from_rational (num den : Z) : outcome HeaderError ActiveSlotCoeff :=
  if (den =? 0) || (num =? 0) || (den <? num) then Err InvalidActiveSlotCoeff
  else
    let '(log_num, log_den) := compute_neg_ln_one_minus num den LN_SERIES_TERMS in
    Ok (mkCoeff (f64_div (f64_of_int num) (f64_of_int den)) log_num log_den).

(** [gcd_u64]: Euclid's algorithm; the second argument, below [2^32] here,
    halves in two turns. *)
Definition coeff_gcd (a b : Z) : outcome HeaderError Z :=
  map_err (fun _ => InvalidActiveSlotCoeff) (gcd_loop 65 a b).

Definition ActiveSlotCoeff_new (f : f64) : outcome HeaderError ActiveSlotCoeff :=
  if negb (f64_finite f) || SFleb f (S754_zero false) || SFltb (f64_of_int 1) f
  then Err InvalidActiveSlotCoeff
  else
    let scale := 1000000000 in
    let num := f64_round_to_uint U64_MAX (f64_mul f (f64_of_int scale)) in
    let? g := coeff_gcd num scale in
    from_rational (num / g) (scale / g).

Definition coeff_eqb (a b : ActiveSlotCoeff) : bool :=
  log_num a * log_den b =? log_num b * log_den a.

(** ** The threshold comparison *)

(** [taylor_exp_cmp] from term [k] on: [target > q * exp(-x)], decided by
    partial sums of the series. *)
Fixpoint taylor_turns (terms : nat) (target x_num x_den k sum_num sum_den term_num term_den : Z)
    : bool :=
  match terms with
  | O => false
  | S terms =>
      let '(term_num, term_den) := reduce (term_num * x_num) (term_den * x_den * k) in
      let common_add := sum_num * term_den in
      let common_term := term_num * sum_den in
      let new_den := sum_den * term_den in
      if k mod 2 =? 1 then
        if common_term <=? common_add then
          let sum_num := common_add - common_term in
          if sum_num <? target * new_den then true
          else
            let '(sum_num, sum_den) := reduce sum_num new_den in
            taylor_turns terms target x_num x_den (k + 1) sum_num sum_den term_num term_den
        else true
      else
        let sum_num := common_add + common_term in
        if target * new_den <=? sum_num then false
        else
          let '(sum_num, sum_den) := reduce sum_num new_den in
          taylor_turns terms target x_num x_den (k + 1) sum_num sum_den term_num term_den
  end.

Definition taylor_exp_cmp (q target x_num x_den : Z) : bool :=
  taylor_turns EXP_SERIES_TERMS target x_num x_den 1 (q * x_den) x_den q 1.

Inductive VrfMode := ModeTPraos | ModePraos.
Inductive VrfUsage := UsageLeader | UsageNonce.

Section Leadership.
Context `{Blake2b256}.

(** The natural number an output stands for and its bound. *)
Definition cert_nat (mode : VrfMode) (vrf_output : list Z) : Z * Z :=
  match mode with
  | ModeTPraos => (from_be vrf_output, Z.shiftl 1 512)
  | ModePraos => (from_be (blake2b_256 (76 :: vrf_output)), Z.shiftl 1 256)
  end.

Definition check_leader_value (vrf_output : list Z) (sigma_num sigma_den : Z)
    (active_slot_coeff : ActiveSlotCoeff) (mode : VrfMode) : outcome HeaderError bool :=
  if sigma_den =? 0 then Err InvalidActiveSlotCoeff
  else if sigma_num =? 0 then Ok false
  else
    let '(nat, max) := cert_nat mode vrf_output in
    if max <=? nat then Ok false
    else
      Ok (taylor_exp_cmp max (max - nat) (sigma_num * log_num active_slot_coeff)
            (sigma_den * log_den active_slot_coeff)).

(** ** VRF inputs *)

Definition raw_vrf_input_bytes (slot : SlotNo) (epoch_nonce : NonceT) : list Z :=
  to_be 8 slot ++ match epoch_nonce with Hash h => h | Neutral => [] end.

Definition praos_vrf_input (slot : SlotNo) (epoch_nonce : NonceT) : list Z :=
  blake2b_256 (raw_vrf_input_bytes slot epoch_nonce).

Definition tpraos_seed_tag_hash (usage : VrfUsage) : list Z :=
  blake2b_256 (to_be 8 match usage with UsageNonce => 0 | UsageLeader => 1 end).

Definition tpraos_vrf_seed (slot : SlotNo) (epoch_nonce : NonceT) (usage : VrfUsage) : list Z :=
  zip_with Z.lxor (blake2b_256 (raw_vrf_input_bytes slot epoch_nonce)) (tpraos_seed_tag_hash usage).

Definition vrf_input (slot : SlotNo) (epoch_nonce : NonceT) (mode : VrfMode) (usage : VrfUsage)
    : list Z :=
  match mode with
  | ModePraos => praos_vrf_input slot epoch_nonce
  | ModeTPraos => tpraos_vrf_seed slot epoch_nonce usage
  end.

End Leadership.

(** ** Proofs *)

(** The VRF of the crypto crate: a proof and its output, and the output a proof
    certifies under a key. *)
Class Vrf := {
  vrf_public : list Z -> list Z;
  vrf_prove : list Z -> list Z -> option (list Z * list Z);
  vrf_verify : list Z -> list Z -> list Z -> option (list Z) }.

Definition VRF_PROOF_SIZE : Z := 80.

Section Proofs.
Context `{Blake2b256, Vrf}.

Definition check_is_leader (sk : list Z) (slot : SlotNo) (epoch_nonce : NonceT)
    (sigma_num sigma_den : Z) (active_slot_coeff : ActiveSlotCoeff) (mode : VrfMode)
    : outcome HeaderError (option (list Z * list Z)) :=
  let input := vrf_input slot epoch_nonce mode UsageLeader in
  let? (output, proof) := ok_or (vrf_prove sk input) InvalidVrfProof in
  let? is_leader := check_leader_value output sigma_num sigma_den active_slot_coeff mode in
  Ok (if is_leader : bool then Some (output, proof) else None).

Definition verify_proof (vk input proof_bytes : list Z) : outcome HeaderError (list Z) :=
  if zlength proof_bytes =? VRF_PROOF_SIZE then ok_or (vrf_verify vk input proof_bytes) InvalidVrfProof
  else Err InvalidVrfProof.

Definition verify_leader_proof_output (vk : list Z) (slot : SlotNo) (epoch_nonce : NonceT)
    (proof_bytes : list Z) (mode : VrfMode) : outcome HeaderError (list Z) :=
  verify_proof vk (vrf_input slot epoch_nonce mode UsageLeader) proof_bytes.

Definition verify_leader_proof (vk : list Z) (slot : SlotNo) (epoch_nonce : NonceT)
    (proof_bytes : list Z) (sigma_num sigma_den : Z) (active_slot_coeff : ActiveSlotCoeff)
    (mode : VrfMode) : outcome HeaderError bool :=
  let? output := verify_leader_proof_output vk slot epoch_nonce proof_bytes mode in
  check_leader_value output sigma_num sigma_den active_slot_coeff mode.

Definition verify_nonce_proof (vk : list Z) (slot : SlotNo) (epoch_nonce : NonceT)
    (nonce_proof_bytes : list Z) : outcome HeaderError unit :=
  let? _ := verify_proof vk (tpraos_vrf_seed slot epoch_nonce UsageNonce) nonce_proof_bytes in
  Ok tt.

(** ** Leadership of a block *)

Context `{Blake2b224} {Rest : Type}.

(** The VRF fields of a header: key, leader proof, nonce proof, slot, mode. *)
Definition vrf_fields (b : MultiEraBlock Rest)
    : option (list Z * list Z * option (list Z) * SlotNo * VrfMode) :=
  match b with
  | BlockByron _ _ _ => None
  | BlockShelley h _ | BlockAlonzo h _ =>
      let hb := sh_body h in
      Some (sh_vrf_vkey hb, vrf_proof (sh_leader_vrf hb), Some (vrf_proof (sh_nonce_vrf hb)),
            sh_slot hb, ModeTPraos)
  | BlockBabbage h _ | BlockConway h _ =>
      let hb := ph_body h in
      Some (ph_vrf_vkey hb, vrf_proof (ph_vrf_result hb), None, ph_slot hb, ModePraos)
  end.

Record VrfVerificationParams := mkVrfParams {
  vp_epoch_nonce : NonceT;
  vp_sigma_num : Z;
  vp_sigma_den : Z;
  vp_active_slot_coeff : ActiveSlotCoeff }.

Definition verify_block_vrf (b : MultiEraBlock Rest) (params : VrfVerificationParams)
    : outcome BlockError bool :=
  match vrf_fields b with
  | None => Ok true
  | Some (vk, leader_proof, nonce_proof, slot, mode) =>
      let failed := VrfVerification slot (era_label b) (vp_epoch_nonce params) in
      let? leader_ok :=
        map_err failed
          (verify_leader_proof vk slot (vp_epoch_nonce params) leader_proof (vp_sigma_num params)
             (vp_sigma_den params) (vp_active_slot_coeff params) mode) in
      let? _ :=
        match nonce_proof with
        | Some np => map_err failed (verify_nonce_proof vk slot (vp_epoch_nonce params) np)
        | None => Ok tt
        end in
      Ok leader_ok
  end.

Definition verify_block_vrf_with_stake (b : MultiEraBlock Rest) (epoch_nonce : NonceT)
    (stake_dist : PoolStakeDistribution) (active_slot_coeff : ActiveSlotCoeff)
    : outcome BlockError bool :=
  match block_issuer_vkey b with
  | None => Ok true
  | Some issuer_vkey =>
      let pool_hash := blake2b_224 issuer_vkey in
      let? _ :=
        match block_vrf_vkey b with
        | Some vrf_vkey =>
            let vrf_hash_block := blake2b_256 vrf_vkey in
            match bt_get pool_hash (pd_pool_vrf_keys stake_dist) with
            | Some registered =>
                if decide (vrf_hash_block = registered) then Ok tt
                else Err (ConsensusFailure (VrfKeyMismatch registered vrf_hash_block))
            | None => Ok tt
            end
        | None => Ok tt
        end in
      let '(sigma_num, sigma_den) := relative_stake stake_dist pool_hash in
      verify_block_vrf b (mkVrfParams epoch_nonce sigma_num sigma_den active_slot_coeff)
  end.

Definition verify_block_vrf_with_genesis_delegate (b : MultiEraBlock Rest) (epoch_nonce : NonceT)
    (delegation : GenesisDelegationState) : outcome HeaderError bool :=
  match block_issuer_vkey b with
  | None => Ok true
  | Some issuer_vkey =>
      let issuer_hash := blake2b_224 issuer_vkey in
      if decide (issuer_hash <> gd_delegate delegation) then
        Err (WrongGenesisColdKey (gd_delegate delegation) issuer_hash)
      else
        match block_vrf_vkey b with
        | None => Ok false
        | Some vrf_vkey =>
            let vrf_hash_block := blake2b_256 vrf_vkey in
            if decide (vrf_hash_block <> gd_vrf delegation) then
              Err (VrfKeyMismatch (gd_vrf delegation) vrf_hash_block)
            else
              match b with
              | BlockShelley h _ | BlockAlonzo h _ =>
                  let hb := sh_body h in
                  let? _ := verify_leader_proof_output vrf_vkey (sh_slot hb) epoch_nonce
                              (vrf_proof (sh_leader_vrf hb)) ModeTPraos in
                  let? _ := verify_nonce_proof vrf_vkey (sh_slot hb) epoch_nonce
                              (vrf_proof (sh_nonce_vrf hb)) in
                  Ok true
              | _ => Ok false
              end
        end
  end.

(** ** The overlay schedule *)

Definition is_tpraos_block (b : MultiEraBlock Rest) : bool :=
  match b with BlockShelley _ _ | BlockAlonzo _ _ => true | _ => false end.

Definition ceil_ratio_u128 (num den : Z) : Z :=
  if den =? 0 then 0 else (num + den - 1) / den.

(** The products fit in 128 bits. *)
Definition overlay_step (offset : Z) (d : UnitInterval) : Z :=
  ceil_ratio_u128 (offset * numerator d) (denominator d).

Definition is_overlay_slot (first_slot : SlotNo) (d : UnitInterval) (slot : SlotNo) : bool :=
  if (denominator d =? 0) || (numerator d =? 0) || (slot <? first_slot) then false
  else
    let offset := slot - first_slot in
    overlay_step offset d <? overlay_step (sat_add offset 1) d.

Inductive TpraosOverlaySlot :=
  | NonActive
  | Active (genesis_hash : GenesisHash) (delegation : GenesisDelegationState).

(** The classification of [TpraosOverlaySlotContext]; its other fields are
    diagnostics. *)
Definition lookup_tpraos_overlay_schedule (first_slot : SlotNo)
    (gen_delegs : list (GenesisHash * GenesisDelegationState)) (d : UnitInterval)
    (active_slot_coeff : ActiveSlotCoeff) (slot : SlotNo) : option TpraosOverlaySlot :=
  if negb (is_overlay_slot first_slot d slot) then None
  else
    let offset := slot - first_slot in
    let position := overlay_step offset d in
    let asc_inv := f64_floor_to_uint (2 ^ 128 - 1) (f64_div (f64_of_int 1) (f_val active_slot_coeff)) in
    match gen_delegs with
    | [] => Some NonActive
    | _ =>
        if (asc_inv =? 0) || negb (position mod asc_inv =? 0) then Some NonActive
        else
          let genesis_idx := (position / asc_inv) mod zlength gen_delegs in
          match gen_delegs !! Z.to_nat genesis_idx with
          | Some (genesis_hash, delegation) => Some (Active genesis_hash delegation)
          | None => Some NonActive
          end
    end.

(** The leadership check of [advance_ledger_with_epoch_boundary] on one block,
    for the schedule of its slot. *)
Definition verify_block_leadership (b : MultiEraBlock Rest) (epoch_nonce : NonceT)
    (overlay_slot : option TpraosOverlaySlot) (stake_dist : PoolStakeDistribution)
    (active_slot_coeff : ActiveSlotCoeff) : outcome BlockError unit :=
  let failed := VrfVerification (block_slot b) (era_label b) epoch_nonce in
  let? valid :=
    match overlay_slot with
    | Some NonActive => Err (failed (TpraosOverlaySlotNotActive (block_slot b)))
    | Some (Active _ delegation) =>
        map_err failed (verify_block_vrf_with_genesis_delegate b epoch_nonce delegation)
    | None =>
        if pd_total_stake stake_dist =? 0 then Ok true
        else verify_block_vrf_with_stake b epoch_nonce stake_dist active_slot_coeff
    end in
  if valid : bool then Ok tt else Err (failed VrfLeaderCheckFailed).

End Proofs.
