(* ===== verification/LeaderFacts.v ===== *)
(** * What the leader check decides

    The comparison of [taylor_exp_cmp] stops at its first or second term, so
    that it compares with the tangent of the exponential and not with the
    exponential. The theorems say exactly which outputs lead, relate this to
    the rule the code documents, and to the schedule of the early eras. *)

From stdpp Require Import list.
From Stdlib Require Import Floats.SpecFloat Reals Lra.
From S2P Require Import Prelude Cbor Types TypesCodec BTree Consensus Fees WideArith LedgerState.
From S2P Require Import Staking SumKes Headers Leader.
Local Open Scope Z_scope.

(** ** Reduction keeps the fraction *)

Lemma reduce_spec num den :
  0 <= num -> 0 < den ->
  0 <= (reduce num den).1 /\ 0 < (reduce num den).2 /\ num * (reduce num den).2 = (reduce num den).1 * den.
Proof.
  intros Hn Hd. unfold reduce. set (g := Z.gcd num den).
  destruct (negb (g =? 0) && negb (g =? 1)) eqn:Hg; cbn [fst snd]; [|nia].
  assert (Hg0 : 0 < g) by (pose proof (Z.gcd_nonneg num den); lia).
  destruct (Z.gcd_divide_l num den) as [a Ha], (Z.gcd_divide_r num den) as [b Hb].
  fold g in Ha, Hb. rewrite Ha at 1 2 3. rewrite Hb at 1 2 3. rewrite !Z.div_mul by lia.
  nia.
Qed.

(** ** The comparison *)

(** A sum that [target] does not exceed is not exceeded after the next term,
    which is added. *)
Lemma taylor_even terms target x_num x_den k sum_num sum_den term_num term_den :
  k mod 2 = 0 -> 0 < k -> 0 <= x_num -> 0 < x_den -> 0 <= sum_num -> 0 < sum_den -> 0 <= term_num -> 0 < term_den ->
  target * sum_den <= sum_num ->
  taylor_turns terms target x_num x_den k sum_num sum_den term_num term_den = false.
Proof.
  intros Hk Hk0 Hx Hxd Hs Hsd Ht Htd Hle. destruct terms as [|terms]; [done|]. cbn [taylor_turns].
  destruct (reduce_spec (term_num * x_num) (term_den * x_den * k)) as (Hr1 & Hr2 & _); [nia|nia|].
  destruct (reduce _ _) as [tn td]. cbn [fst snd] in *. rewrite Hk. cbn [Z.eqb].
  rewrite (proj2 (Z.leb_le _ _)); [done|]. nia.
Qed.

(** The comparison is against the tangent [q * (1 - x)]. *)
Lemma taylor_is_tangent q target x_num x_den :
  0 < q -> 0 <= target -> 0 <= x_num -> 0 < x_den ->
  taylor_exp_cmp q target x_num x_den = (q * (x_den - x_num) <? target * x_den).
Proof.
  intros Hq Htg Hx Hxd. unfold taylor_exp_cmp, EXP_SERIES_TERMS.
  change 80%nat with (S 79). generalize 79%nat. intros terms. cbn [taylor_turns].
  destruct (reduce_spec (q * x_num) (1 * x_den * 1)) as (Ht & Htd & Hte); [nia|nia|].
  destruct (reduce (q * x_num) (1 * x_den * 1)) as [tn td]. cbn [fst snd] in *.
  change (1 mod 2 =? 1) with true. cbv iota.
  (* [tn / td] is [q * x] *)
  assert (Hcmp : (tn * x_den <=? q * x_den * td) = (x_num <=? x_den)).
  { destruct (Z.leb_spec x_num x_den); [apply Z.leb_le|apply Z.leb_gt]; nia. }
  rewrite Hcmp. destruct (Z.leb_spec x_num x_den) as [Hle|Hgt].
  - set (num := q * x_den * td - tn * x_den). set (den := x_den * td).
    assert (Hnum : num * x_den = q * (x_den - x_num) * den) by (unfold num, den; nia).
    assert (Hden : 0 < den) by (unfold den; nia).
    assert (Hn0 : 0 <= num) by nia.
    destruct (Z.ltb_spec num (target * den)) as [Hlt|Hge].
    + symmetry. apply Z.ltb_lt. nia.
    + replace (q * (x_den - x_num) <? target * x_den) with false by (symmetry; apply Z.ltb_ge; nia).
      destruct (reduce_spec num den) as (Hr1 & Hr2 & Hre); [done..|].
      destruct (reduce num den) as [rn rd]. cbn [fst snd] in *.
      apply taylor_even; (done || lia || nia).
  - symmetry. apply Z.ltb_lt. nia.
Qed.

Lemma cert_max_pos mode out `{Blake2b256} : 0 < (cert_nat mode out).2.
Proof. by destruct mode. Qed.

(** The output leads exactly when it is below the threshold [sigma * log]. *)
Lemma leader_value_exact `{Blake2b256} out sigma_num sigma_den asc mode :
  0 < sigma_num -> 0 < sigma_den -> 0 <= log_num asc -> 0 < log_den asc ->
  (cert_nat mode out).1 < (cert_nat mode out).2 ->
  check_leader_value out sigma_num sigma_den asc mode =
    Ok ((cert_nat mode out).1 * (sigma_den * log_den asc)
        <? (cert_nat mode out).2 * (sigma_num * log_num asc)).
Proof.
  intros Hn Hd Hln Hld Hlt. unfold check_leader_value.
  rewrite (proj2 (Z.eqb_neq _ _)), (proj2 (Z.eqb_neq _ _)) by lia.
  pose proof (cert_max_pos mode out) as Hmax.
  destruct (cert_nat mode out) as [nat max]. cbn [fst snd] in *.
  rewrite (proj2 (Z.leb_gt _ _)), taylor_is_tangent by nia. f_equal.
  apply eq_true_iff_eq. rewrite !Z.ltb_lt. nia.
Qed.

(** ** The logarithm *)

Local Open Scope R_scope.

(** [x + x^2/2 + ... + x^n/n] *)
Fixpoint neg_ln_series (n : nat) (x : R) : R :=
  match n with
  | O => 0
  | S n => neg_ln_series n x + x ^ S n / INR (S n)
  end.

Record ln_inv (p q : Z) (k : nat) (st : LnState) : Prop := {
  li_num : (0 <= ln_sum_num st)%Z;
  li_den : (0 < ln_sum_den st)%Z;
  li_p : ln_p_pow st = (p ^ Z.of_nat k)%Z;
  li_q : ln_q_pow st = (q ^ Z.of_nat k)%Z;
  li_sum : IZR (ln_sum_num st) / IZR (ln_sum_den st) = neg_ln_series k (IZR p / IZR q) }.

Lemma fraction_eq a b c d :
  (0 < b)%Z -> (0 < d)%Z -> (a * d = c * b)%Z -> IZR a / IZR b = IZR c / IZR d.
Proof.
  intros Hb Hd Heq. apply IZR_lt in Hb, Hd. apply (f_equal IZR) in Heq. rewrite !mult_IZR in Heq.
  apply (Rmult_eq_reg_r (IZR b * IZR d)); [|nra]. field_simplify; lra.
Qed.

Lemma reduce_value num den :
  (0 <= num)%Z -> (0 < den)%Z -> IZR (reduce num den).1 / IZR (reduce num den).2 = IZR num / IZR den.
Proof.
  intros Hn Hd. destruct (reduce_spec num den Hn Hd) as (H1 & H2 & He).
  symmetry. by apply fraction_eq.
Qed.

Lemma ln_turn_inv p q k st :
  (0 < p)%Z -> (0 < q)%Z -> ln_inv p q k st -> ln_inv p q (S k) (ln_turn p q (Z.of_nat k + 1) st).
Proof.
  intros Hp Hq [Hn Hd HP HQ Hsum]. unfold ln_turn. rewrite HP, HQ.
  set (pk := (p ^ Z.of_nat k * p)%Z). set (qk := (q ^ Z.of_nat k * q)%Z).
  assert (Hpk : pk = (p ^ Z.of_nat (S k))%Z) by (unfold pk; rewrite Nat2Z.inj_succ, Z.pow_succ_r by lia; apply Z.mul_comm).
  assert (Hqk : qk = (q ^ Z.of_nat (S k))%Z) by (unfold qk; rewrite Nat2Z.inj_succ, Z.pow_succ_r by lia; apply Z.mul_comm).
  assert (Hpk0 : (0 < pk)%Z) by (rewrite Hpk; apply Z.pow_pos_nonneg; lia).
  assert (Hqk0 : (0 < qk)%Z) by (rewrite Hqk; apply Z.pow_pos_nonneg; lia).
  set (num := (ln_sum_num st * ((Z.of_nat k + 1) * qk) + pk * ln_sum_den st)%Z).
  set (den := (ln_sum_den st * ((Z.of_nat k + 1) * qk))%Z).
  assert (Hnum : (0 <= num)%Z) by (unfold num; nia).
  assert (Hden : (0 < den)%Z) by (unfold den; nia).
  assert (Hval : IZR num / IZR den = neg_ln_series (S k) (IZR p / IZR q)).
  { cbn [neg_ln_series]. rewrite <- Hsum. unfold num, den.
    assert (IZR (ln_sum_den st) <> 0) by (apply IZR_lt in Hd; lra).
    assert (IZR qk <> 0) by (apply IZR_lt in Hqk0; lra).
    assert (INR (S k) = IZR (Z.of_nat k + 1)) as -> by (rewrite INR_IZR_INZ; f_equal; lia).
    assert (IZR (Z.of_nat k + 1) <> 0) by (apply not_0_IZR; lia).
    assert (IZR pk / IZR qk = (IZR p / IZR q) ^ S k) as <-.
    { rewrite Hpk, Hqk, <- !pow_IZR. unfold Rdiv. rewrite Rpow_mult_distr, pow_inv. done. }
    rewrite plus_IZR, !mult_IZR. field. done. }
  destruct (_ =? 0)%Z.
  - destruct (reduce_spec num den Hnum Hden) as (R1 & R2 & _).
    pose proof (reduce_value num den Hnum Hden) as Hr.
    destruct (reduce num den) as [rn rd]. cbn [fst snd] in *. split;
      cbn [ln_sum_num ln_sum_den ln_p_pow ln_q_pow]; try done. by rewrite Hr.
  - by split.
Qed.

Lemma ln_turns_inv n p q k st :
  (0 < p)%Z -> (0 < q)%Z -> ln_inv p q k st ->
  ln_inv p q (k + n) (ln_turns n p q (Z.of_nat k + 1) st).
Proof.
  intros Hp Hq. revert k st. induction n as [|n IH]; intros k st Hinv; cbn [ln_turns].
  - by rewrite Nat.add_0_r.
  - rewrite <- Nat.add_succ_comm. replace (Z.of_nat k + 1 + 1)%Z with (Z.of_nat (S k) + 1)%Z by lia.
    apply IH. by apply ln_turn_inv.
Qed.

Lemma ln_value p q n :
  (0 < p)%Z -> (0 < q)%Z ->
  let l := compute_neg_ln_one_minus p q n in
  (0 <= l.1)%Z /\ (0 < l.2)%Z /\ IZR l.1 / IZR l.2 = neg_ln_series n (IZR p / IZR q).
Proof.
  intros Hp Hq l. unfold l, compute_neg_ln_one_minus.
  assert (Hi : ln_inv p q 0 (mkLn 0 1 1 1)) by (split; cbn; lia || lra).
  destruct (ln_turns_inv n p q 0 _ Hp Hq Hi) as [H1 H2 _ _ H3].
  change (Z.of_nat 0 + 1)%Z with 1%Z in *. cbn [Nat.add] in H3.
  destruct (reduce_spec _ _ H1 H2) as (R1 & R2 & _). rewrite reduce_value by done. done.
Qed.

(** ** Against the exponential *)

(** The output as a number in [0, 1), and the exponent [sigma * log]. *)
Definition output_ratio `{Blake2b256} (mode : VrfMode) (out : list Z) : R :=
  IZR (cert_nat mode out).1 / IZR (cert_nat mode out).2.
Definition stake_exponent (sigma_num sigma_den : Z) (asc : ActiveSlotCoeff) : R :=
  IZR (sigma_num * log_num asc) / IZR (sigma_den * log_den asc).

Lemma fraction_lt a b c d : (0 < b)%Z -> (0 < d)%Z -> IZR a / IZR b < IZR c / IZR d <-> (a * d < c * b)%Z.
Proof.
  intros Hb Hd. apply IZR_lt in Hb, Hd. split.
  - intros Hlt. apply lt_IZR. rewrite !mult_IZR.
    apply (Rmult_lt_compat_r (IZR b * IZR d)) in Hlt; [|nra]. field_simplify in Hlt; lra.
  - intros Hlt. apply IZR_lt in Hlt. rewrite !mult_IZR in Hlt.
    apply (Rmult_lt_reg_r (IZR b * IZR d)); [nra|]. field_simplify; lra.
Qed.

Lemma leader_iff `{Blake2b256} out sigma_num sigma_den asc mode :
  (0 < sigma_num)%Z -> (0 < sigma_den)%Z -> (0 <= log_num asc)%Z -> (0 < log_den asc)%Z ->
  ((cert_nat mode out).1 < (cert_nat mode out).2)%Z ->
  check_leader_value out sigma_num sigma_den asc mode = Ok true
  <-> output_ratio mode out < stake_exponent sigma_num sigma_den asc.
Proof.
  intros Hn Hd Hln Hld Hlt. rewrite leader_value_exact by done.
  unfold output_ratio, stake_exponent. rewrite fraction_lt by (apply cert_max_pos || nia).
  rewrite (Z.mul_comm _ (cert_nat mode out).2), <- Z.ltb_lt. split; [by intros [= ->]|by intros ->].
Qed.

Lemma below_tangent x : 1 - exp (- x) <= x.
Proof. pose proof (exp_ineq1_le (- x)). lra. Qed.

Lemma below_tangent_strict x : x <> 0 -> 1 - exp (- x) < x.
Proof. intros Hx. pose proof (exp_ineq1 (- x)). lra. Qed.

(** C30: the leader check accepts an output exactly when it lies below
    [x = sigma * log], the relative stake times the stored logarithm. Every
    output below the documented threshold [1 - exp(-x)] is therefore accepted,
    so that a pool that won its slot is never refused; but the threshold is
    strictly exceeded for every positive stake. *)
Theorem leader_check_exact `{Blake2b256} (out : list Z) (sigma_num sigma_den : Z)
    (asc : ActiveSlotCoeff) (mode : VrfMode) :
  (0 < sigma_num)%Z -> (0 < sigma_den)%Z -> (0 < log_num asc)%Z -> (0 < log_den asc)%Z ->
  ((cert_nat mode out).1 < (cert_nat mode out).2)%Z ->
  let x := stake_exponent sigma_num sigma_den asc in
  (check_leader_value out sigma_num sigma_den asc mode = Ok true <-> output_ratio mode out < x)
  /\ (output_ratio mode out < 1 - exp (- x) ->
        check_leader_value out sigma_num sigma_den asc mode = Ok true)
  /\ 1 - exp (- x) < x.
Proof.
  intros Hn Hd Hln Hld Hlt x.
  assert (Hiff := leader_iff out sigma_num sigma_den asc mode Hn Hd (Z.lt_le_incl _ _ Hln) Hld Hlt).
  fold x in Hiff. split; [exact Hiff|]. split.
  - intros Hp. apply Hiff. pose proof (below_tangent x). lra.
  - apply below_tangent_strict. unfold x, stake_exponent.
    assert (0 < IZR (sigma_num * log_num asc)) by (apply IZR_lt; nia).
    assert (0 < IZR (sigma_den * log_den asc)) by (apply IZR_lt; nia).
    pose proof (Rdiv_lt_0_compat (IZR (sigma_num * log_num asc)) (IZR (sigma_den * log_den asc))). lra.
Qed.

(** ** The main network *)

Lemma series_lower n x : 0 <= x -> x + x ^ 2 / 2 <= neg_ln_series (S (S n)) x.
Proof.
  intros Hx. induction n as [|n IH]; [cbn; lra|].
  change (neg_ln_series (S (S (S n))) x) with (neg_ln_series (S (S n)) x + x ^ S (S (S n)) / INR (S (S (S n)))).
  assert (0 <= x ^ S (S (S n)) / INR (S (S (S n)))).
  { apply Rmult_le_pos; [by apply pow_le|]. left. apply Rinv_0_lt_compat, lt_0_INR. lia. }
  lra.
Qed.

Lemma series_upper n x :
  0 <= x < 1 -> neg_ln_series (S n) x <= x + (x ^ 2 - x ^ S (S n)) / (2 * (1 - x)).
Proof.
  intros Hx. induction n as [|n IH].
  { assert (He : (x ^ 2 - x ^ 2) / (2 * (1 - x)) = 0) by (field; lra).
    rewrite He. cbn. lra. }
  change (neg_ln_series (S (S n)) x) with (neg_ln_series (S n) x + x ^ S (S n) / INR (S (S n))).
  assert (Hp : 0 <= x ^ S (S n)) by (apply pow_le; lra).
  assert (Hb : x ^ S (S n) / INR (S (S n)) <= x ^ S (S n) / 2).
  { apply Rmult_le_compat_l; [done|]. apply Rinv_le_contravar; [lra|].
    change 2 with (INR 2). apply le_INR. lia. }
  assert (He : (x ^ 2 - x ^ S (S (S n))) / (2 * (1 - x)) =
    (x ^ 2 - x ^ S (S n)) / (2 * (1 - x)) + x ^ S (S n) / 2).
  { change (x ^ S (S (S n))) with (x * x ^ S (S n)). field. lra. }
  lra.
Qed.

Lemma exp_fourth x : 0 <= 1 - x / 4 -> (1 - x / 4) ^ 4 <= exp (- x).
Proof.
  intros Hx. replace (- x) with (- (x / 4) + - (x / 4) + (- (x / 4) + - (x / 4))) by field.
  rewrite !exp_plus. pose proof (exp_ineq1_le (- (x / 4))).
  set (e := exp (- (x / 4))) in *. set (a := 1 - x / 4) in *. assert (Hae : a <= e) by (unfold a; lra).
  assert (Hsq : a * a <= e * e) by by apply Rmult_le_compat.
  replace (a ^ 4) with (a * a * (a * a)) by (cbn; ring).
  assert (0 <= a * a) by by apply Rmult_le_pos. by apply Rmult_le_compat.
Qed.

(** C39: the check is not sound. On the main network, where the coefficient is
    1/20, and for a pool with all of the stake, whose documented threshold is
    below 0.051 (and should be 0.05), every output from 0.051 up to 0.0512 is
    accepted as winning the slot. *)
Theorem leader_check_admits_losers `{Blake2b256} (out : list Z) :
  (51 * 2 ^ 512 <= 1000 * from_be out)%Z -> (10000 * from_be out <= 512 * 2 ^ 512)%Z ->
  exists asc,
    from_rational 1 20 = Ok asc
    /\ check_leader_value out 1 1 asc ModeTPraos = Ok true
    /\ 1 - exp (- stake_exponent 1 1 asc) < output_ratio ModeTPraos out.
Proof.
  intros Hlo Hhi. unfold from_rational. change ((20 =? 0) || (1 =? 0) || (20 <? 1))%Z with false. cbv iota.
  destruct (ln_value 1 20 LN_SERIES_TERMS) as (Hn & Hd & Hv); [lia..|].
  destruct (compute_neg_ln_one_minus 1 20 LN_SERIES_TERMS) as [ln ld]. cbn [fst snd] in *.
  eexists. split; [reflexivity|].
  set (asc := mkCoeff _ ln ld).
  assert (Hx : stake_exponent 1 1 asc = neg_ln_series LN_SERIES_TERMS (IZR 1 / IZR 20)).
  { unfold stake_exponent. cbn [log_num log_den asc]. by rewrite !Z.mul_1_l. }
  assert (Hl := series_lower 258 (1 / 20) ltac:(lra)). assert (Hu := series_upper 259 (1 / 20) ltac:(lra)).
  assert (Hpow : 0 <= (1 / 20) ^ 261) by (apply pow_le; lra).
  change (S (S 258)) with LN_SERIES_TERMS in Hl. change (S 259) with LN_SERIES_TERMS in Hu.
  change (S LN_SERIES_TERMS) with 261%nat in Hu. rewrite <- Hx in Hl, Hu.
  set (x := stake_exponent 1 1 asc) in *. set (t := (1 / 20) ^ 261) in *.
  replace ((1 / 20) ^ 2) with (1 / 400) in Hl, Hu by (cbn; lra).
  replace ((1 / 400 - t) / (2 * (1 - 1 / 20))) with ((1 / 400 - t) * (10 / 19)) in Hu by field.
  assert (Hx1 : 0.05125 <= x) by lra.
  assert (Hx2 : x <= 0.05132) by lra.
  assert (Hmax : 0 < IZR (2 ^ 512)) by (apply IZR_lt; lia).
  assert (Hr : 0.051 <= output_ratio ModeTPraos out <= 0.0512).
  { unfold output_ratio. cbn [cert_nat fst snd]. change (Z.shiftl 1 512) with (2 ^ 512)%Z.
    apply IZR_le in Hlo, Hhi. rewrite !mult_IZR in Hlo, Hhi. set (m := IZR (2 ^ 512)) in *.
    set (v := IZR (from_be out)) in *. split.
    - apply (Rmult_le_reg_r m); [done|]. field_simplify; lra.
    - apply (Rmult_le_reg_r m); [done|]. field_simplify; lra. }
  split.
  - apply leader_iff; [lia|lia|exact Hn|exact Hd| |fold x; lra].
    cbn [cert_nat fst snd]. change (Z.shiftl 1 512) with (2 ^ 512)%Z. lia.
  - pose proof (exp_fourth x ltac:(lra)) as He.
    assert (Ha : 0.98717 <= 1 - x / 4) by lra. set (a := 1 - x / 4) in *.
    assert (0.9745 <= a * a) by nra. assert (0.9496 <= a * a * (a * a)) by nra.
    replace (a ^ 4) with (a * a * (a * a)) in He by (cbn; ring). lra.
Qed.

Lemma leader_check_exact_witness :
  let out := to_be 64 (2 ^ 507) in
  let asc := mkCoeff (S754_zero false) 1 20 in
  @check_leader_value toy_hash out 1 1 asc ModeTPraos = Ok true
  /\ 1 - exp (- stake_exponent 1 1 asc) < stake_exponent 1 1 asc.
Proof.
  intros out asc.
  destruct (@leader_check_exact toy_hash out 1 1 asc ModeTPraos ltac:(lia) ltac:(lia) ltac:(cbn; lia)
    ltac:(cbn; lia) ltac:(vm_compute; reflexivity)) as (Hiff & _ & Hlt).
  split; [|exact Hlt]. vm_compute. reflexivity.
Defined.

Lemma leader_check_admits_losers_witness :
  let out := to_be 64 (2 ^ 512 * 511 / 10000) in
  exists asc, from_rational 1 20 = Ok asc
    /\ 1 - exp (- stake_exponent 1 1 asc) < @output_ratio toy_hash ModeTPraos out.
Proof.
  intros out.
  destruct (@leader_check_admits_losers toy_hash out ltac:(vm_compute; discriminate)
    ltac:(vm_compute; discriminate)) as (asc & Hf & _ & Hlt).
  exists asc. split; [exact Hf|exact Hlt].
Defined.

Local Open Scope Z_scope.

(** ** Leadership by stake *)

Section Stake.
Context `{Blake2b256, Vrf, Blake2b224} {Rest : Type}.

(** A proof of the right size that certifies an output. *)
Definition certifies (vk input proof output : list Z) : Prop :=
  zlength proof = VRF_PROOF_SIZE /\ vrf_verify vk input proof = Some output.

Lemma verify_proof_ok vk input proof output :
  verify_proof vk input proof = Ok output <-> certifies vk input proof output.
Proof.
  unfold verify_proof, certifies. destruct (Z.eqb_spec (zlength proof) VRF_PROOF_SIZE).
  - destruct (vrf_verify vk input proof); cbn; naive_solver.
  - naive_solver.
Qed.

(** What a block has to show for a slot: the VRF key its pool registered, if the
    distribution lists one, leader proof, and nonce proof in the early eras, and
    an output that leads for its stake. *)
Definition leads_by_stake (b : MultiEraBlock Rest) (epoch_nonce : NonceT)
    (dist : PoolStakeDistribution) (asc : ActiveSlotCoeff) (issuer_vkey : list Z) : Prop :=
  exists vk leader_proof nonce_proof slot mode output,
    vrf_fields b = Some (vk, leader_proof, nonce_proof, slot, mode)
    /\ match bt_get (blake2b_224 issuer_vkey) (pd_pool_vrf_keys dist) with
       | Some registered => blake2b_256 vk = registered
       | None => True
       end
    /\ certifies vk (vrf_input slot epoch_nonce mode UsageLeader) leader_proof output
    /\ match nonce_proof with
       | Some np => exists o, certifies vk (tpraos_vrf_seed slot epoch_nonce UsageNonce) np o
       | None => True
       end
    /\ check_leader_value output (relative_stake dist (blake2b_224 issuer_vkey)).1
         (relative_stake dist (blake2b_224 issuer_vkey)).2 asc mode = Ok true.

Lemma nonce_proof_ok vk slot n np :
  verify_nonce_proof vk slot n np = Ok tt
  <-> exists o, certifies vk (tpraos_vrf_seed slot n UsageNonce) np o.
Proof.
  unfold verify_nonce_proof. setoid_rewrite <- verify_proof_ok.
  destruct (verify_proof _ _ _); cbn; naive_solver.
Qed.

Lemma block_vrf_ok (b : MultiEraBlock Rest) params vk leader_proof nonce_proof slot mode :
  vrf_fields b = Some (vk, leader_proof, nonce_proof, slot, mode) ->
  verify_block_vrf b params = Ok true
  <-> exists output,
        certifies vk (vrf_input slot (vp_epoch_nonce params) mode UsageLeader) leader_proof output
        /\ match nonce_proof with
           | Some np => exists o, certifies vk (tpraos_vrf_seed slot (vp_epoch_nonce params) UsageNonce) np o
           | None => True
           end
        /\ check_leader_value output (vp_sigma_num params) (vp_sigma_den params)
             (vp_active_slot_coeff params) mode = Ok true.
Proof.
  intros Hf. unfold verify_block_vrf. rewrite Hf.
  unfold verify_leader_proof, verify_leader_proof_output.
  set (P := match nonce_proof with Some _ => exists _, _ | None => True end).
  assert (Hn : match nonce_proof with
    | Some np => map_err (VrfVerification slot (era_label b) (vp_epoch_nonce params))
                   (verify_nonce_proof vk slot (vp_epoch_nonce params) np)
    | None => Ok tt end = Ok tt <-> P).
  { subst P. destruct nonce_proof as [np|]; [|done]. rewrite <- nonce_proof_ok.
    destruct (verify_nonce_proof _ _ _ _) as [[]| | |]; cbn; naive_solver. }
  clearbody P. setoid_rewrite <- verify_proof_ok.
  destruct (verify_proof _ _ leader_proof) as [output| | |]; cbn; [|naive_solver..].
  destruct (check_leader_value _ _ _ _ _) as [leads| | |] eqn:Hc; cbn;
    [|(split; [done|intros (o & [= <-] & _ & Ho); congruence])..].
  destruct (match nonce_proof with Some _ => _ | None => _ end) as [[]| | |]; cbn;
    [|(split; [done|intros (o & _ & Hp & _); by apply Hn in Hp])..].
  split; [intros [= ->]; exists output; naive_solver|]. intros (o & [= <-] & _ & Ho). congruence.
Qed.

(** Once there is stake. *)
Lemma leadership_with_stake (b : MultiEraBlock Rest) (epoch_nonce : NonceT)
    (dist : PoolStakeDistribution) (asc : ActiveSlotCoeff) (issuer_vkey : list Z) :
  block_issuer_vkey b = Some issuer_vkey -> pd_total_stake dist <> 0 ->
  (verify_block_leadership b epoch_nonce None dist asc = Ok tt
   <-> leads_by_stake b epoch_nonce dist asc issuer_vkey)
  /\ (pool_stake dist (blake2b_224 issuer_vkey) = 0 ->
        verify_block_leadership b epoch_nonce None dist asc <> Ok tt).
Proof.
  intros Hi Ht.
  assert (exists vk lp np slot mode, vrf_fields b = Some (vk, lp, np, slot, mode)
    /\ block_vrf_vkey b = Some vk) as (vk & lp & np & slot & mode & Hf & Hvk).
  { destruct b; [done|..]; eexists _, _, _, _, _; by split. }
  assert (Hiff : verify_block_leadership b epoch_nonce None dist asc = Ok tt
    <-> leads_by_stake b epoch_nonce dist asc issuer_vkey).
  { unfold verify_block_leadership. rewrite (proj2 (Z.eqb_neq _ _)) by done.
    trans (verify_block_vrf_with_stake b epoch_nonce dist asc = Ok true).
    { destruct (verify_block_vrf_with_stake _ _ _ _) as [[]| | |]; cbn; naive_solver. }
    unfold verify_block_vrf_with_stake, leads_by_stake. rewrite Hi, Hvk.
    destruct (relative_stake _ _) as [sn sd]. cbn [fst snd].
    set (params := mkVrfParams epoch_nonce sn sd asc).
    pose proof (block_vrf_ok b params vk lp np slot mode Hf) as Hb. cbn in Hb.
    destruct (bt_get _ (pd_pool_vrf_keys dist)) as [registered|] eqn:Hr.
    - case_decide as He; cbn [obind].
      + rewrite Hb. rewrite Hf. split; [intros (o & ?); eexists _, _, _, _, _, o; naive_solver|].
        intros (? & ? & ? & ? & ? & o & [= <- <- <- <- <-] & _ & Ho). by exists o.
      + split; [done|]. rewrite Hf. intros (? & ? & ? & ? & ? & o & [= <- <- <- <- <-] & He' & _). done.
    - cbn [obind]. rewrite Hb, Hf. split; [intros (o & ?); eexists _, _, _, _, _, o; naive_solver|].
      intros (? & ? & ? & ? & ? & o & [= <- <- <- <- <-] & _ & Ho). by exists o. }
  split; [exact Hiff|]. intros Hz Hok. apply Hiff in Hok as (? & ? & ? & ? & m & o & _ & _ & _ & _ & Hc).
  unfold relative_stake in Hc. rewrite (proj2 (Z.eqb_neq _ _)) in Hc by done. cbn [fst snd] in Hc.
  rewrite Hz in Hc. unfold check_leader_value in Hc.
  rewrite (proj2 (Z.eqb_neq _ _)) in Hc by done. done.
Qed.

(** C10: outside the overlay schedule, and when the stake distribution is not
    empty, a block of the Shelley family passes the leadership check exactly
    when its VRF key is the one its pool registered (a pool for which the
    distribution lists no key is not held to one), its leader proof (and its
    nonce proof in the eras that have one) verifies for its slot and the epoch's
    nonce, and the output leads for the pool's share of the stake; a pool
    without stake never leads. With an empty distribution every block passes. *)
Theorem leadership_by_stake (b : MultiEraBlock Rest) (epoch_nonce : NonceT)
    (dist : PoolStakeDistribution) (asc : ActiveSlotCoeff) (issuer_vkey : list Z) :
  block_issuer_vkey b = Some issuer_vkey ->
  (pd_total_stake dist = 0 -> verify_block_leadership b epoch_nonce None dist asc = Ok tt)
  /\ (pd_total_stake dist <> 0 ->
      (verify_block_leadership b epoch_nonce None dist asc = Ok tt
       <-> leads_by_stake b epoch_nonce dist asc issuer_vkey)
      /\ (pool_stake dist (blake2b_224 issuer_vkey) = 0 ->
            verify_block_leadership b epoch_nonce None dist asc <> Ok tt)).
Proof.
  intros Hi. split; [|by apply leadership_with_stake]. intros Hz.
  unfold verify_block_leadership. by rewrite Hz.
Qed.

End Stake.
