(* ===== verification/Forge.v ===== *)
(** Block production: the decision to forge in a slot, the evolution of the
    hot key, the choice of transactions, the header and its signature, and the
    block on the wire ([node/block-producer/src/lib.rs],
    [node/runtime/src/forge.rs]).

    Keys, proofs and hashes go through the classes [Ed25519], [Vrf] and
    [Blake2b256]; the text of an error is replaced by the error it prints. *)

From S2P Require Import Prelude Cbor CborFacts Types CborSkip Fees Consensus BTree Mempool SumKes Headers Leader.

Local Open Scope Z_scope.

Section Forge.
Context `{Ed25519, Blake2b256, Vrf}.

Record BlockProducerCredentials := mkCredentials {
  vrf_signing_key : list Z;
  vrf_verification_key : list Z;
  kes_signing_key : Deep;
  kes_current_period : Z;
  operational_cert : OpCert;
  issuer_vkey : list Z;
  slots_per_kes_period : Z;
  max_kes_evolutions : Z }.

Inductive BlockProducerError :=
  | KesPeriodFailure (e : HeaderError)
  | KesPeriodBeforeCert (current start : Z)
  | KesOffsetOverflow
  | KesExhausted (current target : Z)
  | CryptoFailure (e : CryptoError)
  | LeaderFailure (e : HeaderError)
  | BodySizeOverflow
  | BodySkipFailed (e : LedgerError).

Record LeaderElectionResult := mkElection { le_vrf_output : list Z; le_vrf_proof : list Z }.

Definition check_slot_leadership (creds : BlockProducerCredentials) (slot : SlotNo)
    (epoch_nonce : NonceT) (sigma_num sigma_den : Z) (active_slot_coeff : ActiveSlotCoeff)
    : outcome BlockProducerError (option LeaderElectionResult) :=
  let? result :=
    map_err LeaderFailure
      (check_is_leader (vrf_signing_key creds) slot epoch_nonce sigma_num sigma_den
         active_slot_coeff ModePraos) in
  Ok ((fun '(output, proof) => mkElection output proof) <$> result).

(** ** The hot key *)

Definition check_can_forge (creds : BlockProducerCredentials) (slot : SlotNo)
    : outcome BlockProducerError Z :=
  let? current_kes_period :=
    map_err KesPeriodFailure (kes_period_of_slot slot (slots_per_kes_period creds)) in
  let? _ :=
    map_err KesPeriodFailure
      (check_kes_period (operational_cert creds) current_kes_period (max_kes_evolutions creds)) in
  let start := oc_kes_period (operational_cert creds) in
  if current_kes_period <? start then Err (KesPeriodBeforeCert current_kes_period start)
  else
    let offset := current_kes_period - start in
    if U32_MAX <? offset then Err KesOffsetOverflow else Ok offset.

Definition set_kes (creds : BlockProducerCredentials) (key : Deep) (period : Z)
    : BlockProducerCredentials :=
  mkCredentials (vrf_signing_key creds) (vrf_verification_key creds) key period
    (operational_cert creds) (issuer_vkey creds) (slots_per_kes_period creds)
    (max_kes_evolutions creds).

(** Whether the key evolved, and the credentials afterwards. *)
Definition evolve_kes_key (creds : BlockProducerCredentials)
    : outcome BlockProducerError (bool * BlockProducerCredentials) :=
  let? result :=
    map_err CryptoFailure (update_sum_kes (kes_signing_key creds) (kes_current_period creds)) in
  match result with
  | Some new_key => Ok (true, set_kes creds new_key (wrap32 (kes_current_period creds + 1)))
  | None => Ok (false, creds)
  end.

(** One turn of the [while]. The failure carries the credentials, which keep
    the evolutions made before it. *)
Definition evolve_turn (target_period : Z) (st : Z * BlockProducerCredentials)
    : outcome (BlockProducerError * BlockProducerCredentials)
        ((Z * BlockProducerCredentials) + (Z * BlockProducerCredentials)) :=
  let '(evolutions, creds) := st in
  if kes_current_period creds <? target_period then
    let? (evolved, creds') := map_err (fun e => (e, creds)) (evolve_kes_key creds) in
    if evolved : bool then Ok (inl (wrap32 (evolutions + 1), creds'))
    else Err (KesExhausted (kes_current_period creds') target_period, creds')
  else Ok (inr (evolutions, creds)).

Definition evolve_kes_key_to_period (creds : BlockProducerCredentials) (target_period : Z)
    : outcome (BlockProducerError * BlockProducerCredentials) (Z * BlockProducerCredentials) :=
  loopM (S (Z.to_nat (target_period - kes_current_period creds))) (evolve_turn target_period) (0, creds).

(** ** The decision *)

Inductive ShouldForge :=
  | ForgeStateUpdateError (e : BlockProducerError)
  | CannotForge (e : BlockProducerError)
  | NotLeader
  | DoForge (election : LeaderElectionResult).

(** Steps 2 and 3 of [check_should_forge]. The outer [outcome] holds only the
    panics of the calls. *)
Definition leader_step (creds : BlockProducerCredentials) (slot : SlotNo)
    (epoch_nonce : NonceT) (sigma_num sigma_den : Z) (active_slot_coeff : ActiveSlotCoeff)
    : outcome Empty_set (ShouldForge * BlockProducerCredentials) :=
  match check_slot_leadership creds slot epoch_nonce sigma_num sigma_den active_slot_coeff with
  | Ok (Some election) =>
      match check_can_forge creds slot with
      | Ok _ => Ok (DoForge election, creds)
      | Err e => Ok (CannotForge e, creds)
      | Panic => Panic
      | OutOfFuel => OutOfFuel
      end
  | Ok None => Ok (NotLeader, creds)
  | Err e => Ok (ForgeStateUpdateError e, creds)
  | Panic => Panic
  | OutOfFuel => OutOfFuel
  end.

(** The decision and the credentials afterwards. *)
Definition check_should_forge (creds : BlockProducerCredentials) (slot : SlotNo)
    (epoch_nonce : NonceT) (sigma_num sigma_den : Z) (active_slot_coeff : ActiveSlotCoeff)
    : outcome Empty_set (ShouldForge * BlockProducerCredentials) :=
  match check_can_forge creds slot with
  | Ok target_offset =>
      if kes_current_period creds <? target_offset then
        match evolve_kes_key_to_period creds target_offset with
        | Ok (_, creds) => leader_step creds slot epoch_nonce sigma_num sigma_den active_slot_coeff
        | Err (e, creds) => Ok (ForgeStateUpdateError e, creds)
        | Panic => Panic
        | OutOfFuel => OutOfFuel
        end
      else leader_step creds slot epoch_nonce sigma_num sigma_den active_slot_coeff
  | Err e => Ok (ForgeStateUpdateError e, creds)
  | Panic => Panic
  | OutOfFuel => OutOfFuel
  end.

Record BlockContext := mkBlockContext {
  bc_block_number : BlockNo;
  bc_prev_hash : option HeaderHash;
  bc_prev_slot : option SlotNo }.

Definition make_block_context (current_slot : SlotNo) (tip_slot : option SlotNo)
    (tip_block_no : option BlockNo) (tip_hash : option HeaderHash) : option BlockContext :=
  match tip_slot, tip_block_no, tip_hash with
  | Some ts, Some bn, Some hash =>
      if current_slot <=? ts then None
      else Some (mkBlockContext (wrap64 (bn + 1)) (Some hash) (Some ts))
  | _, _, _ => Some (mkBlockContext 0 None None)
  end.

(** ** The body *)

Record ForgeBodyTx := mkBodyTx {
  bx_tx_id : TxId;
  bx_era : Era;
  bx_body : list Z;
  bx_raw_tx : list Z;
  bx_size_bytes : Z;
  bx_fee : Z }.

Definition body_tx (entry : MempoolEntry) : ForgeBodyTx :=
  mkBodyTx (me_tx_id entry) (me_era entry) (me_body entry) (me_raw_tx entry) (me_size_bytes entry)
    (me_fee entry).

Fixpoint assemble_from (entries : list MempoolEntry) (max_block_body_size : Z)
    (selected : list ForgeBodyTx) (total_size : Z) : list ForgeBodyTx * Z :=
  match entries with
  | [] => (selected, total_size)
  | entry :: entries =>
      let entry_size := wrap32 (me_size_bytes entry) in
      if max_block_body_size <? wrap32 (total_size + entry_size) then (selected, total_size)
      else
        assemble_from entries max_block_body_size (selected ++ [body_tx entry])
          (wrap32 (total_size + entry_size))
  end.

Definition assemble_block_body (entries : list MempoolEntry) (max_block_body_size : Z)
    : list ForgeBodyTx * Z :=
  assemble_from entries max_block_body_size [] 0.

(** Body, witness set and auxiliary data of a submitted transaction. The error
    carries no information. *)
Definition submitted_parts : Dec (list Z * list Z * option (list Z)) :=
  arr_len <- Decoder_array ;;
  if arr_len <? 3 then dlift (Err (CborInvalidLength 3 arr_len))
  else
    body_slice <- span_item ;;
    wit_slice <- span_item ;;
    Decoder_skip ;;;
    aux_slice <- (if 4 <=? arr_len then
                    raw <- span_item ;;
                    dret (if decide (raw = [246]) then None else Some raw)
                  else dret None) ;;
    dret (body_slice, wit_slice, aux_slice).

Definition split_submitted_tx (data : list Z)
    : outcome LedgerError (list Z * list Z * option (list Z)) :=
  let? (slices, _) := submitted_parts (Decoder_new data) in Ok slices.

(** The three accumulators of the loops over the transactions. *)
Record BodyParts := mkParts {
  raw_bodies : list (list Z);
  raw_witnesses : list (list Z);
  aux_entries : list (Z * list Z) }.

Definition add_parts (parts : BodyParts) (idx : Z) (tx : ForgeBodyTx) : outcome LedgerError BodyParts :=
  match split_submitted_tx (bx_raw_tx tx) with
  | Ok (body_slice, wit_slice, aux_slice) =>
      Ok (mkParts (raw_bodies parts ++ [body_slice]) (raw_witnesses parts ++ [wit_slice])
            (match aux_slice with
             | Some aux => aux_entries parts ++ [(idx, aux)]
             | None => aux_entries parts
             end))
  | Err _ => Ok (mkParts (raw_bodies parts ++ [bx_body tx]) (raw_witnesses parts ++ [[160]])
                   (aux_entries parts))
  | Panic => Panic
  | OutOfFuel => OutOfFuel
  end.

Fixpoint collect_parts (transactions : list ForgeBodyTx) (idx : Z) (parts : BodyParts)
    : outcome LedgerError BodyParts :=
  match transactions with
  | [] => Ok parts
  | tx :: transactions =>
      let? parts := add_parts parts idx tx in
      collect_parts transactions (idx + 1) parts
  end.

Definition write_parts (parts : BodyParts) : list Z :=
  Encoder_array (zlength (raw_bodies parts)) ++ concat (raw_bodies parts)
  ++ Encoder_array (zlength (raw_witnesses parts)) ++ concat (raw_witnesses parts)
  ++ Encoder_map (zlength (aux_entries parts))
  ++ concat ((fun e => Encoder_unsigned e.1 ++ e.2) <$> aux_entries parts)
  ++ Encoder_array 0.

Definition encode_forged_body_payload (transactions : list ForgeBodyTx) : outcome LedgerError (list Z) :=
  let? parts := collect_parts transactions 0 (mkParts [] [] []) in
  Ok (write_parts parts).

(** ** The header *)

Record ForgedBlockHeader := mkForgedHeader { fh_header_body : HeaderBody; fh_kes_signature : Deep }.

(** The first 80 bytes of the proof in an array of zeros. *)
Definition proof_array (proof : list Z) : list Z :=
  take 80 proof ++ replicate (80 - length (take 80 proof)) 0.

Definition forge_block_header (creds : BlockProducerCredentials) (election : LeaderElectionResult)
    (slot : SlotNo) (block_number : BlockNo) (prev_hash : option HeaderHash)
    (block_body_hash : list Z) (block_body_size : Z) (issuer : list Z) (protocol_version : Z * Z)
    : outcome BlockProducerError ForgedBlockHeader :=
  let? kes_offset := check_can_forge creds slot in
  let header_body :=
    mkHeaderBody block_number slot prev_hash issuer (vrf_verification_key creds)
      (le_vrf_output election) (proof_array (le_vrf_proof election)) None None
      block_body_size block_body_hash (operational_cert creds) protocol_version in
  let signable := to_signable_bytes header_body in
  let? kes_signature :=
    map_err CryptoFailure (sign_sum_kes (kes_signing_key creds) kes_offset signable) in
  Ok (mkForgedHeader header_body kes_signature).

Definition forged_header_to_praos_header (header : ForgedBlockHeader) : PraosHeader :=
  let hb := fh_header_body header in
  let cert := hb_operational_cert hb in
  mkPraosHeader
    (mkPraosBody (hb_block_number hb) (hb_slot hb) (hb_prev_hash hb) (hb_issuer_vkey hb)
       (hb_vrf_vkey hb) (mkVrfCert (hb_leader_vrf_output hb) (hb_leader_vrf_proof hb))
       (hb_block_body_size hb) (hb_block_body_hash hb)
       (mkShelleyOpCert (oc_hot_vkey cert) (oc_sequence_number cert) (oc_kes_period cert)
          (oc_sigma cert))
       (hb_protocol_version hb))
    (tree_data (fh_kes_signature header)).

(** [PraosHeader::header_hash]. *)
Definition praos_header_hash (h : PraosHeader) : list Z := blake2b_256 (PraosHeader_encode h).

(** ** The block *)

Record ForgedBlock := mkForgedBlock {
  fb_header : ForgedBlockHeader;
  fb_transactions : list ForgeBodyTx;
  fb_header_hash : list Z;
  fb_slot : SlotNo;
  fb_block_number : BlockNo;
  fb_body_size : Z;
  fb_total_fees : Z }.

(** The hash over the hashes of the four elements of the payload. *)
Definition payload_hash (body_payload : list Z) : outcome LedgerError (list Z) :=
  let? (combined, _) := dfor 4 hash_segment [] (Decoder_new body_payload) in
  Ok (blake2b_256 combined).

Definition forge_block (creds : BlockProducerCredentials) (election : LeaderElectionResult)
    (context : BlockContext) (slot : SlotNo) (entries : list MempoolEntry)
    (max_block_body_size : Z) (issuer : list Z) (protocol_version : Z * Z)
    : outcome BlockProducerError ForgedBlock :=
  let body_txs := (assemble_block_body entries max_block_body_size).1 in
  let? body_payload := map_err BodySkipFailed (encode_forged_body_payload body_txs) in
  let? body_size :=
    if U32_MAX <? zlength body_payload then Err BodySizeOverflow else Ok (zlength body_payload) in
  let? body_hash := map_err BodySkipFailed (payload_hash body_payload) in
  let total_fees := foldl (fun sum tx => wrap64 (sum + bx_fee tx)) 0 body_txs in
  let? forged_header :=
    forge_block_header creds election slot (bc_block_number context) (bc_prev_hash context)
      body_hash body_size issuer protocol_version in
  Ok (mkForgedBlock forged_header body_txs
        (praos_header_hash (forged_header_to_praos_header forged_header))
        slot (bc_block_number context) body_size total_fees).

Definition CONWAY_ERA_TAG : Z := 7.

Definition serialize_forged_block_cbor (forged : ForgedBlock) : outcome LedgerError (list Z) :=
  let praos_hdr := forged_header_to_praos_header (fb_header forged) in
  let? parts := collect_parts (fb_transactions forged) 0 (mkParts [] [] []) in
  Ok (Encoder_array 2 ++ Encoder_unsigned CONWAY_ERA_TAG ++ Encoder_array 5
      ++ PraosHeader_encode praos_hdr ++ write_parts parts).

(** ** The runtime around it *)

(** [tip_context_from_chain_db], from the tip and a lookup of its block number
    in the two stores. *)
Definition tip_context (tip : Point) (block_no : HeaderHash -> option BlockNo)
    : option SlotNo * option BlockNo * option HeaderHash :=
  match tip with
  | Origin => (None, None, None)
  | BlockPoint slot hash => (Some slot, block_no hash, Some hash)
  end.

Definition extract_inner_block_bytes (raw_envelope : list Z) : outcome BlockError (list Z) :=
  map_err LedgerDecode
    (let? (_, d) := Decoder_array (Decoder_new raw_envelope) in
     let? (_, d) := Decoder_skip d in
     let? (inner, _) := span_item d in
     Ok inner).

Definition KES_EXPIRY_WARNING_THRESHOLD_PERIODS : Z := 8.

Record KesExpiryWarning := mkWarning {
  kw_current_period : Z;
  kw_cert_start_period : Z;
  kw_cert_end_period : Z;
  kw_remaining_periods : Z;
  kw_remaining_slots : Z }.

Definition kes_expiry_warning_from_periods
    (current_period cert_start_period max_kes_evolutions slots_per_kes_period : Z)
    : option KesExpiryWarning :=
  if U64_MAX <? cert_start_period + max_kes_evolutions then None
  else
    let cert_end_period := cert_start_period + max_kes_evolutions in
    let remaining_periods := sat_sub cert_end_period current_period in
    if KES_EXPIRY_WARNING_THRESHOLD_PERIODS <? remaining_periods then None
    else
      Some (mkWarning current_period cert_start_period cert_end_period remaining_periods
              (sat_mul remaining_periods slots_per_kes_period)).

Definition kes_expiry_warning (creds : BlockProducerCredentials) (current_slot : SlotNo)
    : option KesExpiryWarning :=
  match kes_period_of_slot current_slot (slots_per_kes_period creds) with
  | Ok current_period =>
      kes_expiry_warning_from_periods current_period (oc_kes_period (operational_cert creds))
        (max_kes_evolutions creds) (slots_per_kes_period creds)
  | _ => None
  end.

End Forge.
