(* ===== verification/ForgeFacts.v ===== *)
(** A forged block against the checks that every node runs on a block: what it
    passes, and the one that it does not. *)

From S2P Require Import Prelude Cbor CborFacts Types TypesCodec CborSkip MiniProtocol Fees Consensus BTree Mempool.
From S2P Require Import Staking SumKes Headers HeaderFacts Leader LeaderFacts Forge.

Local Open Scope Z_scope.

(** ** Reading single items *)

Lemma decodes_span_item bs : is_item bs -> decodes span_item bs bs.
Proof. intros (it & Hok & ->). by apply decodes_span. Qed.

Lemma decodes_skip_item bs : is_item bs -> decodes Decoder_skip bs tt.
Proof. intros (it & Hok & ->). by apply decodes_skip. Qed.

(** A loop that reads one part per turn. *)
Lemma decodes_dfor_parts {S} (f : S -> Dec S) (step : S -> list Z -> S) parts :
  Forall (fun bs => forall s, decodes (f s) bs (step s bs)) parts ->
  forall s, decodes (dfor (zlength parts) f s) (concat parts) (foldl step s parts).
Proof.
  intros Hp s pre suf Hl. unfold dfor, zlength. rewrite for_count_nat.
  revert s pre Hl. induction Hp as [|bs parts Hbs _ IH]; intros s pre Hl; cbn.
  - by rewrite app_nil_r.
  - cbn in Hl. rewrite <- app_assoc in *. rewrite Hbs by done. cbn [obind].
    rewrite IH by (by rewrite <- app_assoc). by rewrite <- app_assoc.
Qed.

Section Payload.
Context `{Ed25519, Blake2b256, Vrf}.

(** A transaction as it was submitted: an array of body, witness set, validity
    flag and, possibly, auxiliary data. *)
Definition submitted (data : list Z) : Prop :=
  exists w its,
    item_ok (IArray w its) = true /\ data = encode_item (IArray w its)
    /\ (length its = 3 \/ length its = 4)%nat /\ zlength data <= ISIZE_MAX.

Lemma decodes_submitted w its :
  item_ok (IArray w its) = true -> (length its = 3 \/ length its = 4)%nat ->
  exists b wit aux,
    decodes submitted_parts (encode_item (IArray w its)) (b, wit, aux)
    /\ is_item b /\ is_item wit /\ option_ok is_item aux.
Proof.
  cbn [item_ok encode_item]. intros [Hw Hi]%andb_true_iff Hlen.
  destruct its as [|b [|wit [|v rest]]]; cbn in Hlen; try lia.
  cbn [forallb] in Hi. rewrite !andb_true_iff in Hi. destruct Hi as (Hb & Hwit & Hv & Hr).
  set (aux := match rest with a :: _ => if decide (encode_item a = [246]) then None else Some (encode_item a)
              | [] => None end).
  exists (encode_item b), (encode_item wit), aux. split_and!.
  - unfold submitted_parts. eapply decodes_bind; [by apply (decodes_expect_head MAJOR_ARRAY)|].
    destruct rest as [|a [|]]; cbn in Hlen; try lia; cbn [map concat length Z.of_nat].
    + rewrite app_nil_r. cbn. eapply decodes_bind; [by apply decodes_span|].
      eapply decodes_bind; [by apply decodes_span|].
      eapply decodes_bind_ret; [by apply decodes_skip|].
      eapply decodes_bind0; apply decodes_ret.
    + rewrite app_nil_r. cbn [forallb] in Hr. rewrite andb_true_r in Hr.
      eapply decodes_bind; [by apply decodes_span|].
      eapply decodes_bind; [by apply decodes_span|].
      eapply decodes_bind; [by apply decodes_skip|].
      eapply decodes_bind_ret; [|apply decodes_ret].
      eapply decodes_bind_ret; [by apply decodes_span|apply decodes_ret].
  - by exists b.
  - by exists wit.
  - unfold aux. destruct rest as [|a ?]; [done|]. cbn in Hr. apply andb_true_iff in Hr as [Ha _].
    case_decide; [done|]. by exists a.
Qed.

Lemma split_submitted data :
  submitted data ->
  exists b wit aux, split_submitted_tx data = Ok (b, wit, aux)
    /\ is_item b /\ is_item wit /\ option_ok is_item aux.
Proof.
  intros (w & its & Hok & -> & Hlen & Hsz).
  destruct (decodes_submitted w its Hok Hlen) as (b & wit & aux & Hd & ?).
  exists b, wit, aux. split; [|done]. unfold split_submitted_tx.
  rewrite <- (app_nil_r (encode_item _)). rewrite (decodes_start _ _ _ [] Hd); [done|].
  by rewrite app_nil_r.
Qed.

(** The parts collected from [n] transactions. *)
Record parts_ok (n : Z) (parts : BodyParts) : Prop := {
  po_bodies : Forall is_item (raw_bodies parts);
  po_witnesses : Forall is_item (raw_witnesses parts);
  po_aux : Forall (fun e => 0 <= e.1 < n /\ is_item e.2) (aux_entries parts);
  po_nbodies : zlength (raw_bodies parts) = n;
  po_nwitnesses : zlength (raw_witnesses parts) = n;
  po_naux : zlength (aux_entries parts) <= n }.

Lemma add_parts_ok n parts tx :
  parts_ok n parts -> submitted (bx_raw_tx tx) ->
  exists parts', add_parts parts n tx = Ok parts' /\ parts_ok (n + 1) parts'.
Proof.
  intros [] (b & wit & aux & Hs & Hb & Hw & Ha)%split_submitted.
  unfold add_parts. rewrite Hs. eexists. split; [done|].
  pose proof (zlength_nonneg (raw_bodies parts)).
  split; cbn [raw_bodies raw_witnesses aux_entries].
  - by apply Forall_app_2, Forall_singleton.
  - by apply Forall_app_2, Forall_singleton.
  - assert (Forall (fun e => 0 <= e.1 < n + 1 /\ is_item e.2) (aux_entries parts))
      by (eapply Forall_impl; [done|]; cbn; intros ? [? ?]; split; [lia|done]).
    destruct aux; [|done]. apply Forall_app_2; [done|]. apply Forall_singleton. cbn. split; [lia|done].
  - rewrite zlength_app. unfold zlength at 2. cbn. lia.
  - rewrite zlength_app. unfold zlength at 2. cbn. lia.
  - destruct aux; [|lia]. rewrite zlength_app. unfold zlength at 2. cbn. lia.
Qed.

Lemma collect_parts_ok txs : forall n parts,
  parts_ok n parts -> Forall (fun tx => submitted (bx_raw_tx tx)) txs ->
  exists parts', collect_parts txs n parts = Ok parts' /\ parts_ok (n + zlength txs) parts'.
Proof.
  induction txs as [|tx txs IH]; intros n parts Hp Ht; cbn [collect_parts].
  - exists parts. split; [done|]. by rewrite Z.add_0_r.
  - apply Forall_cons in Ht as [Htx Ht].
    destruct (add_parts_ok n parts tx Hp Htx) as (parts1 & -> & Hp1). cbn [obind].
    destruct (IH (n + 1) parts1 Hp1 Ht) as (parts' & He & Hp'). exists parts'. split; [done|].
    replace (n + zlength (tx :: txs)) with (n + 1 + zlength txs) by (unfold zlength; cbn; lia). done.
Qed.

(** The payload is a sequence of four items. *)
Lemma payload_items n parts :
  parts_ok n parts -> n <= U32_MAX ->
  exists segs, Forall is_item segs /\ zlength segs = 4 /\ write_parts parts = concat segs.
Proof.
  intros [] Hn. pose proof (zlength_nonneg (raw_bodies parts)). pose proof (zlength_nonneg (aux_entries parts)).
  assert (Hu : forall m, 0 <= m <= n -> u64 m) by (intros m ?; unfold u64, U64_MAX, U32_MAX in *; lia).
  exists [Encoder_array (zlength (raw_bodies parts)) ++ concat (raw_bodies parts);
          Encoder_array (zlength (raw_witnesses parts)) ++ concat (raw_witnesses parts);
          Encoder_map (zlength (aux_entries parts))
            ++ concat ((fun e => Encoder_unsigned e.1 ++ e.2) <$> aux_entries parts);
          Encoder_array 0].
  split_and!; [|done|].
  - repeat apply Forall_cons_2; [..|by apply Forall_nil_2].
    + apply item_array; [done|]. apply Hu. lia.
    + apply item_array; [done|]. apply Hu. lia.
    + set (l := (fun e => (Encoder_unsigned e.1, e.2)) <$> aux_entries parts).
      replace (zlength (aux_entries parts)) with (zlength l) by (unfold l, zlength; by rewrite length_fmap).
      replace ((fun e => Encoder_unsigned e.1 ++ e.2) <$> aux_entries parts)
        with ((fun e => e.1 ++ e.2) <$> l) by (unfold l; by rewrite <- list_fmap_compose).
      apply item_map.
      * unfold l. apply Forall_fmap. eapply Forall_impl; [exact po_aux0|]. cbn.
        intros e [? ?]. split; [|done]. apply item_unsigned, Hu. lia.
      * unfold l, zlength. rewrite length_fmap. apply Hu. unfold zlength in *. lia.
    + apply (item_array []); [by apply Forall_nil_2|done].
  - unfold write_parts. cbn [concat]. by rewrite app_nil_r, <- !app_assoc.
Qed.

(** The hash of the body, from its segments. *)
Definition segments_hash (segs : list (list Z)) : list Z :=
  blake2b_256 (foldl (fun combined seg => combined ++ blake2b_256 seg) [] segs).

Lemma decodes_segments segs :
  Forall is_item segs ->
  decodes (dfor (zlength segs) hash_segment []) (concat segs)
    (foldl (fun combined seg => combined ++ blake2b_256 seg) [] segs).
Proof.
  intros Hs. apply decodes_dfor_parts. eapply Forall_impl; [exact Hs|]. intros seg Hi combined.
  eapply decodes_bind_ret; [by apply decodes_span_item|apply decodes_ret].
Qed.

Lemma payload_hash_segments segs :
  Forall is_item segs -> zlength segs = 4 -> zlength (concat segs) <= ISIZE_MAX ->
  payload_hash (concat segs) = Ok (segments_hash segs).
Proof.
  intros Hi Hl Hsz. unfold payload_hash. rewrite <- Hl, <- (app_nil_r (concat segs)) at 1.
  rewrite (decodes_start _ _ _ [] (decodes_segments segs Hi)); [done|]. by rewrite app_nil_r.
Qed.

(** ** The checks of the block against its header *)

Lemma item_array5 hdr segs :
  is_item hdr -> Forall is_item segs -> zlength segs = 4 ->
  is_item (Encoder_array 5 ++ hdr ++ concat segs).
Proof.
  intros Hh Hs Hl. change (hdr ++ concat segs) with (concat (hdr :: segs)).
  assert (H5 : zlength (hdr :: segs) = 5) by (unfold zlength in *; cbn [length]; lia).
  rewrite <- H5 at 1. apply item_array; [by apply Forall_cons_2|]. rewrite H5. by apply u64_small.
Qed.

Lemma body_hash_of_block hdr segs :
  is_item hdr -> Forall is_item segs -> zlength segs = 4 ->
  zlength (Encoder_array 5 ++ hdr ++ concat segs) <= ISIZE_MAX ->
  compute_block_body_hash (Encoder_array 5 ++ hdr ++ concat segs) = Ok (segments_hash segs).
Proof.
  intros Hh Hs Hl Hsz. unfold compute_block_body_hash.
  rewrite (decodes_start _ _ 5 _ (decodes_array 5 ltac:(by apply u64_small))) by done. cbn [obind Z.leb andb negb].
  change (negb _) with false. cbv iota.
  erewrite decodes_next; [|by apply decodes_skip_item|reflexivity|done]. cbn [obind].
  change (5 - 1) with 4. rewrite <- Hl. rewrite <- (app_nil_r (concat segs)).
  erewrite decodes_next; [|by apply decodes_segments|by rewrite app_nil_r, <- app_assoc|done]. done.
Qed.

Lemma body_hash_in_header h rest :
  praos_body_ok (ph_body h) -> u64 (zlength (vrf_output (ph_vrf_result (ph_body h)))) ->
  zlength (Encoder_array 5 ++ PraosHeader_encode h ++ rest) <= ISIZE_MAX ->
  extract_header_block_body_hash (Encoder_array 5 ++ PraosHeader_encode h ++ rest)
  = Ok (ph_block_body_hash (ph_body h)).
Proof.
  intros [] Ho Hsz. destruct h as [b sig]. cbn [ph_body] in *.
  set (parts := [Encoder_unsigned (ph_block_number b); Encoder_unsigned (ph_slot b);
    encode_nullable Encoder_bytes (ph_prev_hash b); Encoder_bytes (ph_issuer_vkey b);
    Encoder_bytes (ph_vrf_vkey b); ShelleyVrfCert_encode (ph_vrf_result b);
    Encoder_unsigned (ph_block_body_size b)]).
  assert (Hp : Forall is_item parts).
  { repeat apply Forall_cons_2; try apply Forall_nil_2;
      try (by apply item_unsigned); try (by apply item_prev_hash); try (by apply item_vrf_cert);
      try (eapply item_bytes, u64_fixed; [eassumption|lia]).
    apply item_unsigned, u64_small. unfold u32, U32_MAX in *. lia. }
  assert (exists tail, PraosHeader_encode (mkPraosHeader b sig) ++ rest
    = Encoder_array 2 ++ Encoder_array 14 ++ concat parts ++ Encoder_bytes (ph_block_body_hash b) ++ tail)
    as (tail & Htail).
  { eexists. unfold PraosHeader_encode, PraosHeaderBody_encode, praos_prefix_encode, parts. cbn [ph_body concat].
    rewrite <- !app_assoc, app_nil_l. reflexivity. }
  rewrite Htail in *. clear Htail.
  unfold extract_header_block_body_hash.
  rewrite (decodes_start _ _ 5 _ (decodes_array 5 ltac:(by apply u64_small))) by done. cbn [obind].
  erewrite decodes_next; [|apply (decodes_array 2); by apply u64_small|reflexivity|done]. cbn [obind].
  erewrite decodes_next; [|apply (decodes_array 14); by apply u64_small|by rewrite <- app_assoc|done].
  cbn [obind Z.eqb Pos.eqb orb].
  change 7 with (zlength parts).
  erewrite decodes_next; [|apply (decodes_dfor_parts _ (fun _ _ => tt))|by rewrite <- !app_assoc|done].
  2:{ eapply Forall_impl; [exact Hp|]. intros bs Hi _. by apply decodes_skip_item. }
  cbn [obind].
  erewrite decodes_next; [|by apply decodes_fixed|by rewrite <- !app_assoc|done]. done.
Qed.

(** A header with the sizes of its fields. *)
Record praos_header_ok (h : PraosHeader) : Prop := {
  pho_body : praos_body_ok (ph_body h);
  pho_output : u64 (zlength (vrf_output (ph_vrf_result (ph_body h))));
  pho_signature : u64 (zlength (ph_signature h)) }.

Lemma item_praos_header h : praos_header_ok h -> is_item (PraosHeader_encode h).
Proof.
  intros []. unfold PraosHeader_encode.
  item_parts [PraosHeaderBody_encode (ph_body h); Encoder_bytes (ph_signature h)].
  - by apply item_praos_body.
  - by apply item_bytes.
Qed.

Lemma bytes_longer bs : zlength bs < zlength (Encoder_bytes bs).
Proof.
  unfold Encoder_bytes. rewrite zlength_app.
  enough (0 < zlength (Encoder_write_type_and_arg MAJOR_BYTES (zlength bs))) by lia.
  unfold Encoder_write_type_and_arg, zlength. repeat case_match; cbn [length]; lia.
Qed.

(** The consensus layer's bytes for signing leave out the VRF fields: they are
    never the header body of the wire. *)
Lemma signable_not_wire b :
  praos_body_ok b -> to_signable_bytes (praos_header_body_to_consensus b) <> PraosHeaderBody_encode b.
Proof.
  intros Hok He%(f_equal zlength). pose proof (phok_cert b Hok) as (Hhot & _ & _ & Hsig).
  pose proof (phok_prev b Hok) as Hph. pose proof (phok_issuer b Hok). pose proof (phok_vrf b Hok).
  pose proof (phok_result b Hok) as Hres. pose proof (phok_hash b Hok). clear Hok.
  unfold PraosHeaderBody_encode, praos_prefix_encode, ShelleyOpCert_encode_fields, ShelleyVrfCert_encode in He.
  unfold to_signable_bytes, signable_bytes, praos_header_body_to_consensus, shelley_opcert_to_consensus in He.
  cbn [hb_block_number hb_slot hb_prev_hash hb_issuer_vkey hb_vrf_vkey hb_block_body_size hb_block_body_hash
    hb_operational_cert hb_protocol_version oc_hot_vkey oc_sequence_number oc_kes_period oc_sigma] in He.
  rewrite !zlength_app in He. unfold vrf_cert_ok in Hres.
  pose proof (bytes_longer (ph_issuer_vkey b)). pose proof (bytes_longer (ph_vrf_vkey b)).
  pose proof (bytes_longer (vrf_proof (ph_vrf_result b))). pose proof (bytes_longer (ph_block_body_hash b)).
  pose proof (bytes_longer (so_hot_vkey (ph_operational_cert b))).
  pose proof (bytes_longer (so_sigma (ph_operational_cert b))).
  pose proof (bytes_longer (vrf_output (ph_vrf_result b))).
  assert (Hbe : forall n v, zlength (to_be n v) = Z.of_nat n) by (intros; unfold zlength; by rewrite length_to_be).
  rewrite !Hbe in He.
  repeat match type of He with context [zlength (Encoder_unsigned ?v)] =>
    pose proof (zlength_nonneg (Encoder_unsigned v)); set (zlength (Encoder_unsigned v)) in * end.
  repeat match type of He with context [zlength (Encoder_array ?v)] =>
    pose proof (zlength_nonneg (Encoder_array v)); set (zlength (Encoder_array v)) in * end.
  pose proof (zlength_nonneg (encode_nullable Encoder_bytes (ph_prev_hash b))).
  pose proof (zlength_nonneg (vrf_output (ph_vrf_result b))).
  destruct (ph_prev_hash b) as [h|]; cbn in Hph; [|change (zlength [0]) with 1 in He; lia].
  change (zlength (1 :: h)) with (Z.of_nat (S (length h))) in He. unfold zlength in Hph. lia.
Qed.

Definition conway_envelope (h : PraosHeader) (segs : list (list Z)) : list Z :=
  Encoder_array 2 ++ Encoder_unsigned CONWAY_ERA_TAG ++ Encoder_array 5 ++ PraosHeader_encode h ++ concat segs.

Section Envelope.
Context (h : PraosHeader) (segs : list (list Z)).
Context (Hh : praos_header_ok h) (Hs : Forall is_item segs) (Hl : zlength segs = 4).
Context (Hsz : zlength (conway_envelope h segs) <= ISIZE_MAX).

Let inner := Encoder_array 5 ++ PraosHeader_encode h ++ concat segs.

Lemma envelope_item : is_item inner.
Proof. apply item_array5; [by apply item_praos_header|done..]. Qed.

Lemma inner_size : zlength inner <= ISIZE_MAX.
Proof.
  unfold conway_envelope in Hsz. fold inner in Hsz. rewrite !zlength_app in Hsz.
  pose proof (zlength_nonneg (Encoder_array 2)). pose proof (zlength_nonneg (Encoder_unsigned CONWAY_ERA_TAG)). lia.
Qed.

Lemma envelope_wire : wire_block (conway_envelope h segs) CONWAY_ERA_TAG (PraosHeaderBody_encode (ph_body h)).
Proof.
  split; [done|done|apply item_praos_body; [by destruct Hh|by destruct Hh]|].
  exists Arg0, Arg0, Arg0, Arg0, 5, (Encoder_bytes (ph_signature h) ++ concat segs).
  split_and!; try done. unfold conway_envelope, PraosHeader_encode. rewrite <- !app_assoc. done.
Qed.

Lemma envelope_inner : extract_inner_block_bytes (conway_envelope h segs) = Ok inner.
Proof.
  unfold extract_inner_block_bytes, conway_envelope in *. fold inner in Hsz |- *.
  rewrite (decodes_start _ _ 2 _ (decodes_array 2 ltac:(by apply u64_small))) by done. cbn [obind].
  erewrite decodes_next; [|apply decodes_skip_item, item_unsigned; by apply u64_small|reflexivity|done].
  cbn [obind]. rewrite <- (app_nil_r inner).
  erewrite decodes_next; [|apply decodes_span_item, envelope_item|rewrite app_nil_r, <- !app_assoc; reflexivity|exact Hsz].
  cbn. by rewrite app_nil_r.
Qed.

Lemma envelope_body_hash :
  ph_block_body_hash (ph_body h) = segments_hash segs ->
  verify_block_body_hash (conway_envelope h segs) = Ok tt.
Proof.
  intros He. unfold verify_block_body_hash, conway_envelope in *. fold inner in Hsz |- *.
  rewrite (decodes_start _ _ 2 _ (decodes_array 2 ltac:(by apply u64_small))) by done. cbn [obind map_err].
  erewrite decodes_next; [|apply decodes_unsigned; by apply u64_small|reflexivity|done].
  cbn [obind map_err]. change ((CONWAY_ERA_TAG =? 0) || (CONWAY_ERA_TAG =? 1)) with false. cbv iota.
  rewrite <- (app_nil_r inner).
  erewrite decodes_next; [|apply decodes_span_item, envelope_item|rewrite app_nil_r, <- !app_assoc; reflexivity|exact Hsz].
  cbn [obind map_err]. unfold inner at 1.
  rewrite (body_hash_of_block _ _ (item_praos_header h Hh) Hs Hl inner_size). cbn [obind map_err].
  unfold inner. rewrite (body_hash_in_header _ _ (pho_body h Hh) (pho_output h Hh) inner_size).
  cbn [obind map_err]. by rewrite decide_True.
Qed.

Lemma envelope_body_size : compute_actual_body_size inner = Ok (wrap32 (zlength (concat segs))).
Proof.
  pose proof inner_size as Hi. unfold compute_actual_body_size, inner in *.
  rewrite (decodes_start _ _ 5 _ (decodes_array 5 ltac:(by apply u64_small))) by done. cbn [obind].
  erewrite decodes_next; [|by apply decodes_skip_item, item_praos_header|reflexivity|done].
  cbn [obind map_err]. unfold Decoder_position. cbn [at_ pos]. rewrite !zlength_app. do 2 f_equal. lia.
Qed.

End Envelope.

End Payload.

(** ** The producer *)

(** What the code relies on of the VRF. *)
Class VrfLaws `{Vrf} := {
  vrf_public_size : forall sk, zlength (vrf_public sk) = 32;
  vrf_output_size : forall sk input output proof,
    vrf_prove sk input = Some (output, proof) -> zlength output = 64;
  vrf_proof_size : forall sk input output proof,
    vrf_prove sk input = Some (output, proof) -> zlength proof = VRF_PROOF_SIZE;
  vrf_correct : forall sk input output proof,
    vrf_prove sk input = Some (output, proof) -> vrf_verify (vrf_public sk) input proof = Some output }.

Section Producer.
Context `{Ed25519, Blake2b256, Vrf} `{!Ed25519Laws} `{!VrfLaws}.
Context (hash_size : forall m, zlength (blake2b_256 m) = 32).

(** Credentials that belong together: the hot key grown from [seed] stands in
    its current period, and the issuer certified its verification key. *)
Record creds_ok (seed : list Z) (creds : BlockProducerCredentials) : Prop := {
  ck_seed : zlength seed = 32;
  ck_vrf : vrf_verification_key creds = vrf_public (vrf_signing_key creds);
  ck_period : 0 <= kes_current_period creds < 2 ^ Z.of_nat SHELLEY_KES_DEPTH;
  ck_kes : kes_signing_key creds = mkDeep SHELLEY_KES_DEPTH (key_at SHELLEY_KES_DEPTH seed (kes_current_period creds));
  ck_hot : oc_hot_vkey (operational_cert creds) = tree_key SHELLEY_KES_DEPTH seed;
  ck_cold : OpCert_verify (operational_cert creds) (issuer_vkey creds) = Ok tt;
  ck_issuer : zlength (issuer_vkey creds) = 32;
  ck_sigma : zlength (oc_sigma (operational_cert creds)) = 64;
  ck_number : u64 (oc_sequence_number (operational_cert creds));
  ck_start : u64 (oc_kes_period (operational_cert creds)) }.

Definition with_period (seed : list Z) (creds : BlockProducerCredentials) (t : Z) : BlockProducerCredentials :=
  set_kes creds (mkDeep SHELLEY_KES_DEPTH (key_at SHELLEY_KES_DEPTH seed t)) t.

Lemma with_period_same seed creds : creds_ok seed creds -> with_period seed creds (kes_current_period creds) = creds.
Proof. intros []. unfold with_period. rewrite <- ck_kes0. by destruct creds. Qed.

Lemma with_period_ok seed creds t :
  creds_ok seed creds -> 0 <= t < 2 ^ Z.of_nat SHELLEY_KES_DEPTH -> creds_ok seed (with_period seed creds t).
Proof. intros [] Ht. by split. Qed.

(** One evolution moves the key to the next period, until the last one. *)
Lemma evolve_kes_key_ok seed creds t :
  zlength seed = 32 -> 0 <= t < 2 ^ Z.of_nat SHELLEY_KES_DEPTH ->
  evolve_kes_key (with_period seed creds t)
  = Ok (if t + 1 <? 2 ^ Z.of_nat SHELLEY_KES_DEPTH then (true, with_period seed creds (t + 1))
        else (false, with_period seed creds t)).
Proof.
  intros Hs Ht. unfold evolve_kes_key, update_sum_kes, with_period.
  cbn [set_kes kes_signing_key kes_current_period tree_depth tree_data].
  rewrite update_key; [|exact hash_size|unfold SHELLEY_KES_DEPTH; lia|done|done]. cbn [obind map_err].
  destruct (Z.ltb_spec (t + 1) (2 ^ Z.of_nat SHELLEY_KES_DEPTH)); cbn [fmap option_fmap option_map map_err obind]; [|done].
  rewrite wrap32_id; [done|]. unfold u32, U32_MAX, SHELLEY_KES_DEPTH in *. cbn in *. lia.
Qed.

(** The loop reaches every period of the key that lies ahead. *)
Lemma evolve_turns seed creds target n : forall t evolutions,
  zlength seed = 32 -> 0 <= t -> target = t + Z.of_nat n -> target < 2 ^ Z.of_nat SHELLEY_KES_DEPTH ->
  0 <= evolutions -> evolutions + Z.of_nat n <= U32_MAX ->
  loopM (S n) (evolve_turn target) (evolutions, with_period seed creds t)
  = Ok (evolutions + Z.of_nat n, with_period seed creds target).
Proof.
  induction n as [|n IH]; intros t evolutions Hs Ht Htg Hlt He Hu.
  - cbn [loopM evolve_turn]. change (kes_current_period (with_period seed creds t)) with t.
    rewrite (proj2 (Z.ltb_ge _ _)) by lia. cbn [obind].
    replace target with t by lia. by rewrite Z.add_0_r.
  - remember (S n) as m eqn:Hm. cbn [loopM evolve_turn]. change (kes_current_period (with_period seed creds t)) with t.
    rewrite (proj2 (Z.ltb_lt _ _)) by lia. rewrite evolve_kes_key_ok by lia.
    rewrite (proj2 (Z.ltb_lt _ _)) by lia. cbn [obind map_err].
    rewrite wrap32_id by (unfold u32; lia).
    subst m. rewrite IH by lia. do 2 f_equal. lia.
Qed.

Lemma evolve_to_period_ok seed creds target :
  creds_ok seed creds -> kes_current_period creds <= target < 2 ^ Z.of_nat SHELLEY_KES_DEPTH ->
  evolve_kes_key_to_period creds target
  = Ok (target - kes_current_period creds, with_period seed creds target).
Proof.
  intros Hc Ht. pose proof (ck_period _ _ Hc) as Hp. unfold evolve_kes_key_to_period.
  rewrite <- (with_period_same seed creds Hc) at 2.
  rewrite evolve_turns; [do 2 f_equal; lia|by destruct Hc|lia|lia|lia|lia|].
  unfold U32_MAX, SHELLEY_KES_DEPTH in *. cbn in *. lia.
Qed.

(** A target beyond the last period exhausts the key. *)
Lemma evolve_exhausted seed creds target n : forall t evolutions fuel,
  zlength seed = 32 -> 0 <= t -> t + Z.of_nat n = 2 ^ Z.of_nat SHELLEY_KES_DEPTH - 1 ->
  2 ^ Z.of_nat SHELLEY_KES_DEPTH <= target -> (n < fuel)%nat ->
  exists e, loopM fuel (evolve_turn target) (evolutions, with_period seed creds t) = Err e.
Proof.
  induction n as [|n IH]; intros t evolutions fuel Hs Ht Htn Htg Hf;
    (destruct fuel as [|fuel]; [lia|]); cbn [loopM evolve_turn];
    change (kes_current_period (with_period seed creds t)) with t;
    rewrite (proj2 (Z.ltb_lt _ _)) by lia; rewrite evolve_kes_key_ok by lia.
  - rewrite (proj2 (Z.ltb_ge _ _)) by lia. eexists. reflexivity.
  - rewrite (proj2 (Z.ltb_lt _ _)) by lia. cbn [obind map_err]. apply IH; lia.
Qed.

Lemma evolve_to_period_bound seed creds target evolutions creds' :
  creds_ok seed creds -> kes_current_period creds <= target ->
  evolve_kes_key_to_period creds target = Ok (evolutions, creds') ->
  target < 2 ^ Z.of_nat SHELLEY_KES_DEPTH /\ creds' = with_period seed creds target.
Proof.
  intros Hc Ht. pose proof (ck_period _ _ Hc) as Hp.
  destruct (Z.lt_ge_cases target (2 ^ Z.of_nat SHELLEY_KES_DEPTH)) as [Hlt|Hge].
  - rewrite (evolve_to_period_ok seed) by done. by intros [= _ <-].
  - unfold evolve_kes_key_to_period.
    destruct (evolve_exhausted seed creds target
      (Z.to_nat (2 ^ Z.of_nat SHELLEY_KES_DEPTH - 1 - kes_current_period creds)) (kes_current_period creds) 0
      (S (Z.to_nat (target - kes_current_period creds))) ltac:(by destruct Hc) ltac:(lia) ltac:(lia) ltac:(lia)
      ltac:(lia)) as [e He].
    rewrite (with_period_same seed creds Hc) in He. by rewrite He.
Qed.

Lemma can_forge_ok creds slot offset :
  check_can_forge creds slot = Ok offset <->
  slots_per_kes_period creds <> 0
  /\ let start := oc_kes_period (operational_cert creds) in
     let period := slot / slots_per_kes_period creds in
     offset = period - start /\ start <= period /\ start + max_kes_evolutions creds <= U64_MAX
     /\ period < start + max_kes_evolutions creds /\ offset <= U32_MAX.
Proof.
  unfold check_can_forge, kes_period_of_slot, check_kes_period.
  destruct (Z.eqb_spec (slots_per_kes_period creds) 0); cbn [map_err obind]; [naive_solver|].
  set (start := oc_kes_period _). set (period := slot / _). cbn zeta.
  destruct (Z.ltb_spec period start); cbn [map_err obind]; [split; [done|lia]|].
  destruct (Z.ltb_spec U64_MAX (start + max_kes_evolutions creds)); cbn [map_err obind]; [split; [done|lia]|].
  destruct (Z.leb_spec (start + max_kes_evolutions creds) period); cbn [map_err obind]; [split; [done|lia]|].
  destruct (Z.ltb_spec U32_MAX (period - start)); cbn [map_err obind]; [split; [done|lia]|].
  split; [intros [= <-]; lia|]. intros (_ & -> & _). done.
Qed.

Lemma leadership_ok creds slot nonce sn sd asc election :
  check_slot_leadership creds slot nonce sn sd asc = Ok (Some election) ->
  vrf_prove (vrf_signing_key creds) (vrf_input slot nonce ModePraos UsageLeader)
    = Some (le_vrf_output election, le_vrf_proof election)
  /\ check_leader_value (le_vrf_output election) sn sd asc ModePraos = Ok true.
Proof.
  unfold check_slot_leadership, check_is_leader.
  destruct (vrf_prove _ _) as [[output proof]|]; cbn [ok_or obind map_err]; [|done].
  intros Hr.
  remember (check_leader_value output sn sd asc ModePraos) as lead eqn:Hc in Hr.
  destruct lead as [[]|e| |]; cbn [obind map_err fmap option_fmap option_map] in Hr; try discriminate Hr.
  injection Hr as <-. split; [reflexivity|symmetry; exact Hc].
Qed.

(** A decision to forge leaves the key in the period of the slot. *)
Lemma should_forge_ok seed creds slot nonce sn sd asc election creds' :
  creds_ok seed creds ->
  kes_current_period creds <= slot / slots_per_kes_period creds - oc_kes_period (operational_cert creds) ->
  check_should_forge creds slot nonce sn sd asc = Ok (DoForge election, creds') ->
  exists offset,
    check_can_forge creds' slot = Ok offset /\ 0 <= offset < 2 ^ Z.of_nat SHELLEY_KES_DEPTH
    /\ creds' = with_period seed creds offset /\ creds_ok seed creds'
    /\ vrf_prove (vrf_signing_key creds') (vrf_input slot nonce ModePraos UsageLeader)
         = Some (le_vrf_output election, le_vrf_proof election)
    /\ check_leader_value (le_vrf_output election) sn sd asc ModePraos = Ok true.
Proof.
  intros Hc Hp. pose proof (ck_period _ _ Hc) as Hper. unfold check_should_forge.
  destruct (check_can_forge creds slot) as [offset|e| |] eqn:Hf; try done.
  assert (Hoff : kes_current_period creds <= offset) by (apply can_forge_ok in Hf as (_ & -> & _); exact Hp).
  assert (Hstep : forall c, leader_step c slot nonce sn sd asc = Ok (DoForge election, creds') ->
    c = creds' /\ check_slot_leadership c slot nonce sn sd asc = Ok (Some election)).
  { intros c. unfold leader_step. destruct (check_slot_leadership c _ _ _ _ _) as [[?|]| | |]; try done.
    destruct (check_can_forge c slot); try done. by intros [= -> ->]. }
  assert (Hrun : forall c, leader_step c slot nonce sn sd asc = Ok (DoForge election, creds') ->
    c = with_period seed creds offset -> offset < 2 ^ Z.of_nat SHELLEY_KES_DEPTH -> exists offset,
    check_can_forge creds' slot = Ok offset /\ 0 <= offset < 2 ^ Z.of_nat SHELLEY_KES_DEPTH
    /\ creds' = with_period seed creds offset /\ creds_ok seed creds'
    /\ vrf_prove (vrf_signing_key creds') (vrf_input slot nonce ModePraos UsageLeader)
         = Some (le_vrf_output election, le_vrf_proof election)
    /\ check_leader_value (le_vrf_output election) sn sd asc ModePraos = Ok true).
  { intros c Hl -> Hlt. apply Hstep in Hl as [<- Hl%leadership_ok]. exists offset.
    split; [exact Hf|]. split; [lia|]. split; [done|]. split; [|exact Hl].
    apply with_period_ok; [done|lia]. }
  destruct (Z.ltb_spec (kes_current_period creds) offset) as [Hlt|Hge].
  - destruct (evolve_kes_key_to_period creds offset) as [[n c]|[e c]| |] eqn:He; try done.
    apply (evolve_to_period_bound seed) in He as [Hb ->]; [|done|lia]. intros Hl. by eapply Hrun.
  - intros Hl. assert (offset = kes_current_period creds) as -> by lia.
    eapply Hrun; [exact Hl|by rewrite with_period_same|lia].
Qed.

Lemma proof_array_exact proof : zlength proof = 80 -> proof_array proof = proof.
Proof.
  intros Hp. unfold proof_array, zlength in *. rewrite take_ge by lia.
  replace (80 - length proof)%nat with 0%nat by lia. apply app_nil_r.
Qed.

(** The transactions of the body come from the entries. *)
Lemma assemble_submitted entries max : forall selected total,
  Forall (fun tx => submitted (bx_raw_tx tx)) selected ->
  Forall (fun e => submitted (me_raw_tx e)) entries ->
  Forall (fun tx => submitted (bx_raw_tx tx)) (assemble_from entries max selected total).1.
Proof.
  induction entries as [|e entries IH]; intros selected total Hs He; cbn [assemble_from]; [done|].
  apply Forall_cons in He as [Hse He]. destruct (_ <? _); [done|].
  apply IH; [|done]. by apply Forall_app_2, Forall_singleton.
Qed.

Section Forged.
Context (seed : list Z) (creds : BlockProducerCredentials) (slot : SlotNo) (nonce : NonceT) (sn sd : Z)
  (asc : ActiveSlotCoeff) (election : LeaderElectionResult) (creds' : BlockProducerCredentials)
  (ctx : BlockContext) (entries : list MempoolEntry) (max_size : Z) (pv : Z * Z) (fb : ForgedBlock).

(** A slot in which the producer forged a block on a tip, not before the period
    its key already stands in. *)
Record forged_in_slot : Prop := {
  fs_creds : creds_ok seed creds;
  fs_forward : kes_current_period creds
                 <= slot / slots_per_kes_period creds - oc_kes_period (operational_cert creds);
  fs_decision : check_should_forge creds slot nonce sn sd asc = Ok (DoForge election, creds');
  fs_block : forge_block creds' election ctx slot entries max_size (issuer_vkey creds') pv = Ok fb;
  fs_slot : u64 slot;
  fs_number : u64 (bc_block_number ctx);
  fs_prev : prev_hash_ok (bc_prev_hash ctx);
  fs_major : u64 pv.1;
  fs_minor : u64 pv.2;
  fs_entries : Forall (fun e => submitted (me_raw_tx e)) entries;
  fs_few : zlength entries <= U32_MAX }.

Lemma assemble_few : forall es selected total,
  zlength (assemble_from es max_size selected total).1 <= zlength selected + zlength es.
Proof.
  induction es as [|e es IH]; intros selected total; cbn [assemble_from fst]; [unfold zlength; cbn; lia|].
  destruct (_ <? _); [cbn [fst]; unfold zlength; cbn; lia|].
  etrans; [apply IH|]. rewrite zlength_app. unfold zlength. cbn. lia.
Qed.

(** What the forged block consists of. *)
Lemma forged_parts :
  forged_in_slot ->
  exists offset segs,
    let cert := operational_cert creds' in
    let hb := mkHeaderBody (bc_block_number ctx) slot (bc_prev_hash ctx) (issuer_vkey creds')
      (vrf_verification_key creds') (le_vrf_output election) (le_vrf_proof election) None None
      (zlength (concat segs)) (segments_hash segs) cert pv in
    let leaf := leaf_seed SHELLEY_KES_DEPTH seed offset in
    check_can_forge creds' slot = Ok offset /\ 0 <= offset < 2 ^ Z.of_nat SHELLEY_KES_DEPTH
    /\ creds_ok seed creds' /\ Forall is_item segs /\ zlength segs = 4
    /\ zlength (concat segs) <= U32_MAX
    /\ fb_header fb = mkForgedHeader hb (mkDeep SHELLEY_KES_DEPTH
         (ed_sign leaf (to_signable_bytes hb) ++ path_keys SHELLEY_KES_DEPTH seed offset))
    /\ serialize_forged_block_cbor fb
       = Ok (conway_envelope (forged_header_to_praos_header (fb_header fb)) segs).
Proof.
  intros [Hc Hfw Hd Hb _ _ _ _ _ Hent Hfew].
  destruct (should_forge_ok _ _ _ _ _ _ _ _ _ Hc Hfw Hd) as (offset & Hcan & Hoff & Hcr & Hc' & Hvrf & _).
  set (txs := (assemble_block_body entries max_size).1).
  assert (Htx : Forall (fun tx => submitted (bx_raw_tx tx)) txs) by (by apply assemble_submitted).
  assert (Hn : zlength txs <= U32_MAX)
    by (etrans; [apply (assemble_few entries [] 0)|]; unfold zlength at 1; cbn; lia).
  destruct (collect_parts_ok txs 0 (mkParts [] [] [])) as (parts & Hparts & Hok);
    [by split; try apply Forall_nil_2|done|].
  destruct (payload_items _ _ Hok ltac:(lia)) as (segs & Hsegs & H4 & Hw).
  exists offset, segs. cbn zeta.
  unfold forge_block, encode_forged_body_payload in Hb. fold txs in Hb. rewrite Hparts in Hb.
  cbn [map_err obind] in Hb. rewrite Hw in Hb.
  destruct (Z.ltb_spec U32_MAX (zlength (concat segs))) as [|Hsz]; [done|]. cbn [obind] in Hb.
  rewrite payload_hash_segments in Hb; [|done|done|unfold ISIZE_MAX, U32_MAX in *; lia].
  cbn [map_err obind] in Hb. unfold forge_block_header in Hb. rewrite Hcan in Hb. cbn [obind] in Hb.
  rewrite proof_array_exact in Hb by (by eapply vrf_proof_size).
  unfold sign_sum_kes in Hb. rewrite (ck_kes _ _ Hc') in Hb. cbn [tree_depth tree_data] in Hb.
  assert (Hp : kes_current_period creds' = offset) by (by rewrite Hcr). rewrite Hp in Hb.
  rewrite sign_key in Hb; [|exact hash_size|unfold SHELLEY_KES_DEPTH; lia|by destruct Hc'|done].
  cbn [map_err obind] in Hb. injection Hb as <-. cbn [fb_header fb_transactions].
  repeat (split; [done|]). unfold serialize_forged_block_cbor. cbn [fb_header fb_transactions].
  rewrite Hparts. cbn [obind]. unfold conway_envelope. by rewrite Hw.
Qed.

Let header := forged_header_to_praos_header (fb_header fb).

(** The header has the sizes that its format fixes. *)
Lemma forged_header_ok : forged_in_slot -> praos_header_ok header.
Proof.
  intros Hf. destruct (forged_parts Hf) as (offset & segs & Hcan & Hoff & Hc' & _ & _ & Hsz & He & _).
  destruct Hf as [Hc Hfw Hd _ ? ? ? ? ? _ _].
  destruct (should_forge_ok _ _ _ _ _ _ _ _ _ Hc Hfw Hd) as (_ & _ & _ & _ & _ & Hvrf & _).
  subst header. rewrite He. destruct Hc'. pose proof (zlength_nonneg (concat segs)).
  split; [split|..]; unfold vrf_cert_ok, opcert_ok;
    cbn [forged_header_to_praos_header ph_body ph_signature ph_block_number ph_slot ph_prev_hash ph_issuer_vkey
      ph_vrf_vkey ph_vrf_result ph_block_body_size ph_block_body_hash ph_operational_cert ph_protocol_version
      vrf_output vrf_proof so_hot_vkey so_sequence_number so_kes_period so_sigma fh_header_body fh_kes_signature
      tree_data hb_block_number hb_slot hb_prev_hash hb_issuer_vkey hb_vrf_vkey hb_leader_vrf_output
      hb_leader_vrf_proof hb_block_body_size hb_block_body_hash hb_operational_cert hb_protocol_version];
    try done.
  - by rewrite ck_vrf0, vrf_public_size.
  - by eapply vrf_proof_size.
  - unfold segments_hash. apply hash_size.
  - split_and!; [by rewrite ck_hot0; apply tree_key_size|done..].
  - eapply u64_fixed; [by eapply vrf_output_size|lia].
  - eapply u64_fixed; [by apply signature_size, ed_sign_size|done].
Qed.

Lemma forged_header_view :
  forged_in_slot -> praos_header_body_to_consensus (ph_body header) = fh_header_body (fb_header fb).
Proof.
  intros Hf. destruct (forged_parts Hf) as (offset & segs & _ & _ & _ & _ & _ & _ & He & _).
  subst header. rewrite He. cbn. unfold praos_header_body_to_consensus, shelley_opcert_to_consensus. cbn.
  by destruct (operational_cert creds').
Qed.

(** The signature, over the consensus layer's bytes or over any other message. *)
Lemma forged_signature message :
  forged_in_slot ->
  exists offset leaf,
    check_can_forge creds' slot = Ok offset
    /\ verify_sum_kes (oc_hot_vkey (operational_cert creds')) offset message (fh_kes_signature (fb_header fb))
       = VerificationKey_verify (ed_public leaf) message
           (ed_sign leaf (to_signable_bytes (fh_header_body (fb_header fb)))).
Proof.
  intros Hf. destruct (forged_parts Hf) as (offset & segs & Hcan & Hoff & Hc' & _ & _ & _ & He & _).
  exists offset, (leaf_seed SHELLEY_KES_DEPTH seed offset). split; [exact Hcan|]. rewrite He.
  cbn [fh_kes_signature fh_header_body]. unfold verify_sum_kes. cbn [tree_depth tree_data].
  rewrite (ck_hot _ _ Hc'). apply verify_key; [exact hash_size|unfold SHELLEY_KES_DEPTH; lia|done|apply ed_sign_size].
Qed.

Context {Rest : Type} (rest : Rest).

(** C14: a block that the producer forges reads back as a block of its era: the
    bytes it sends lay the header body out where a receiver looks for it, the
    hash and the size that the header declares are those of the body, the
    leader proof verifies and leads for the stake the slot was won with, and the
    certificate, the period and the signature pass the header check over the
    bytes that were signed. The key has been evolved to the period of the slot. *)
Theorem forged_block_checks :
  forged_in_slot ->
  exists raw,
    serialize_forged_block_cbor fb = Ok raw
    /\ kes_current_period creds'
       = slot / slots_per_kes_period creds' - oc_kes_period (operational_cert creds')
    /\ verify_header (mkHeader (fh_header_body (fb_header fb)) (fh_kes_signature (fb_header fb)))
         (slots_per_kes_period creds') (max_kes_evolutions creds') = Ok tt
    /\ verify_block_vrf (BlockConway header rest) (mkVrfParams nonce sn sd asc) = Ok true
    /\ (zlength raw <= ISIZE_MAX ->
        wire_block raw CONWAY_ERA_TAG (PraosHeaderBody_encode (ph_body header))
        /\ verify_block_body_hash raw = Ok tt
        /\ exists inner, extract_inner_block_bytes raw = Ok inner
             /\ validate_block_body_size (BlockConway header rest) inner = Ok tt).
Proof.
  intros Hf. pose proof (forged_header_ok Hf) as Hok.
  destruct (forged_parts Hf) as (offset & segs & Hcan & Hoff & Hc' & Hi & Hfour & Hsz & He & Hser).
  destruct (forged_signature (to_signable_bytes (fh_header_body (fb_header fb))) Hf)
    as (offset' & leaf & Hcan' & Hsig).
  assert (offset' = offset) as -> by congruence.
  pose proof (proj1 (can_forge_ok _ _ _) Hcan) as (Hspk & Ho & Hs & Hu & Hm & H32).
  destruct (should_forge_ok _ _ _ _ _ _ _ _ _ (fs_creds Hf) (fs_forward Hf) (fs_decision Hf))
    as (o & Hcan2 & _ & Hcr & _ & Hvrf & Hlead).
  assert (o = offset) as -> by congruence.
  eexists. split; [exact Hser|]. split_and!.
  - rewrite Hcr at 1. exact Ho.
  - unfold verify_header, verify_header_with_signed_bytes. cbn [ch_body ch_kes_signature default].
    replace (hb_operational_cert _) with (operational_cert creds') by (by rewrite He).
    replace (hb_issuer_vkey _) with (issuer_vkey creds') by (by rewrite He).
    replace (hb_slot _) with slot by (by rewrite He).
    rewrite (ck_cold _ _ Hc'). unfold kes_period_of_slot, check_kes_period. cbn [obind].
    rewrite (proj2 (Z.eqb_neq _ _)) by done. cbn [obind].
    rewrite (proj2 (Z.ltb_ge _ _)), (proj2 (Z.ltb_ge _ _)), (proj2 (Z.leb_gt _ _)) by lia. cbn [obind].
    rewrite (proj2 (Z.ltb_ge _ _)) by lia. rewrite <- Ho, Hsig.
    unfold VerificationKey_verify. by rewrite ed_public_valid, ed_correct.
  - eapply block_vrf_ok.
    { subst header. rewrite He. reflexivity. }
    exists (le_vrf_output election). split; [|split; [exact I|exact Hlead]].
    split; [by eapply vrf_proof_size|]. cbn [vp_epoch_nonce]. rewrite (ck_vrf _ _ Hc'). by eapply vrf_correct.
  - intros Hisz. split; [by apply envelope_wire|]. split.
    + apply envelope_body_hash; [done..|]. by rewrite He.
    + eexists. split; [by apply envelope_inner|]. unfold validate_block_body_size.
      cbn [declared_body_size]. fold header.
      rewrite (envelope_body_size header segs) by done. cbn [obind]. subst header. rewrite He.
      cbn [forged_header_to_praos_header fh_header_body ph_body ph_block_body_size hb_block_body_size].
      rewrite wrap32_id by (split; [apply zlength_nonneg|done]). by rewrite Z.eqb_refl.
Qed.

(** C38: no node accepts such a block: the producer signs the consensus layer's
    bytes, the receiver checks the signature over the header body of the wire,
    and the two are never equal. Acceptance would take an Ed25519 signature
    that verifies for a message other than the one it was made for. *)
Theorem forged_block_refused (raw : list Z) (config : VerificationConfig) :
  forged_in_slot ->
  vc_slots_per_kes_period config = slots_per_kes_period creds' ->
  serialize_forged_block_cbor fb = Ok raw -> zlength raw <= ISIZE_MAX ->
  verify_multi_era_block_with_raw (BlockConway header rest) (Some raw) config = Ok tt ->
  exists leaf signed message,
    signed <> message /\ ed_verify_strict (ed_public leaf) message (ed_sign leaf signed) = true.
Proof.
  intros Hf Hspk Hraw Hisz Hv. pose proof (forged_header_ok Hf) as Hok.
  destruct (forged_parts Hf) as (offset & segs & _ & _ & _ & Hi & Hfour & _ & He & Hser).
  rewrite Hser in Hraw. injection Hraw as <-.
  eapply accepted_view in Hv as [_ Hcert]; [|by apply envelope_wire|reflexivity].
  destruct Hcert as [_ _ _ _ _ _ _ Hhot]. rewrite forged_header_view in Hhot by done.
  destruct (forged_signature (PraosHeaderBody_encode (ph_body header)) Hf) as (o & leaf & Hcan & Hsig).
  apply can_forge_ok in Hcan as (_ & Ho & _).
  exists leaf, (to_signable_bytes (fh_header_body (fb_header fb))), (PraosHeaderBody_encode (ph_body header)).
  split.
  - rewrite <- forged_header_view by done. apply signable_not_wire. by destruct Hok.
  - apply verification_ok. rewrite <- Hsig, Ho, <- Hhot, Hspk.
    subst header. rewrite He. reflexivity.
Qed.

End Forged.

End Producer.

(** ** The choice of transactions *)

Definition entries_size (entries : list MempoolEntry) : Z := foldr Z.add 0 (me_size_bytes <$> entries).

Lemma entries_size_cons e entries : entries_size (e :: entries) = me_size_bytes e + entries_size entries.
Proof. done. Qed.

Lemma entries_size_nonneg entries :
  Forall (fun e => 0 <= me_size_bytes e) entries -> 0 <= entries_size entries.
Proof. induction 1; cbn; [lia|]. unfold entries_size in *. lia. Qed.

Lemma assemble_prefix entries max : forall selected total,
  Forall (fun e => 0 <= me_size_bytes e) entries -> 0 <= total <= max ->
  total + entries_size entries <= U32_MAX ->
  exists k,
    assemble_from entries max selected total
      = (selected ++ (body_tx <$> take k entries), total + entries_size (take k entries))
    /\ total + entries_size (take k entries) <= max
    /\ ((length entries <= k)%nat \/ max < total + entries_size (take (S k) entries)).
Proof.
  induction entries as [|e entries IH]; intros selected total Hs Ht Hu; cbn [assemble_from].
  - exists 0%nat. cbn. rewrite app_nil_r, Z.add_0_r. split; [done|]. split; [lia|]. left. lia.
  - apply Forall_cons in Hs as [He Hs]. pose proof (entries_size_nonneg _ Hs).
    rewrite entries_size_cons in Hu.
    rewrite (wrap32_id (me_size_bytes e)), wrap32_id by (unfold u32; lia).
    destruct (Z.ltb_spec max (total + me_size_bytes e)).
    + exists 0%nat. change (take 1 (e :: entries)) with (e :: take 0 entries). rewrite entries_size_cons.
      change (entries_size (take 0 entries)) with 0. change (entries_size (take 0 (e :: entries))) with 0.
      change (body_tx <$> take 0 (e :: entries)) with (@nil ForgeBodyTx). rewrite app_nil_r, !Z.add_0_r.
      split; [done|]. split; [lia|]. right. lia.
    + destruct (IH (selected ++ [body_tx e]) (total + me_size_bytes e)) as (k & Hk & Hle & Hmax); [done|lia|lia|].
      exists (S k). change (take (S (S k)) (e :: entries)) with (e :: take (S k) entries).
      change (take (S k) (e :: entries)) with (e :: take k entries). rewrite !entries_size_cons, Hk.
      cbn [fmap list_fmap length]. rewrite <- app_assoc. split; [f_equal; lia|]. split; [lia|].
      destruct Hmax; [left|right]; lia.
Qed.

(** The body is the longest prefix of the fee-ordered entries whose sizes
    fit the limit, and its size is their sum. *)
Theorem body_is_longest_prefix (entries : list MempoolEntry) (max_size : Z) :
  Forall (fun e => 0 <= me_size_bytes e) entries -> 0 <= max_size ->
  entries_size entries <= U32_MAX ->
  exists k,
    assemble_block_body entries max_size = (body_tx <$> take k entries, entries_size (take k entries))
    /\ entries_size (take k entries) <= max_size
    /\ ((length entries <= k)%nat \/ max_size < entries_size (take (S k) entries)).
Proof.
  intros Hs Hm Hu. destruct (assemble_prefix entries max_size [] 0 Hs) as (k & Hk); [lia|lia|].
  exists k. exact Hk.
Qed.

(** The limit is applied to the submitted transactions and not to the body
    they make: a single transaction of exactly the permitted size, without
    auxiliary data, gives a body one byte over the limit. And when the block
    number of the tip is not found, the next block is made as the first one
    after genesis, whatever the tip. *)
Theorem forge_gaps (e : MempoolEntry) (b w : item) (slot tip_slot : SlotNo) (tip_hash : HeaderHash) :
  item_ok b = true -> item_ok w = true ->
  me_raw_tx e = encode_item (IArray Arg0 [b; w; ISimple 21; ISimple 22]) ->
  me_size_bytes e = zlength (me_raw_tx e) -> me_size_bytes e <= U32_MAX ->
  (exists payload,
     encode_forged_body_payload (assemble_block_body [e] (me_size_bytes e)).1 = Ok payload
     /\ zlength payload = me_size_bytes e + 1)
  /\ make_block_context slot (Some tip_slot) None (Some tip_hash) = Some (mkBlockContext 0 None None).
Proof.
  intros Hb Hw Hraw Hsize Hu. split; [|done]. pose proof (zlength_nonneg (me_raw_tx e)).
  unfold assemble_block_body. cbn [assemble_from]. cbn zeta.
  assert (Hw32 : wrap32 (me_size_bytes e) = me_size_bytes e) by (apply wrap32_id; split; lia).
  rewrite !Hw32, !Z.add_0_l, !Hw32.
  rewrite Z.ltb_irrefl. cbn [fst app]. unfold encode_forged_body_payload. cbn [collect_parts].
  assert (Hs : split_submitted_tx (me_raw_tx e) = Ok (encode_item b, encode_item w, None)).
  { unfold split_submitted_tx. rewrite <- (app_nil_r (me_raw_tx e)).
    rewrite (decodes_start _ _ (encode_item b, encode_item w, None) []); [done| |].
    - rewrite Hraw. unfold submitted_parts. cbn [encode_item map concat].
      eapply decodes_bind; [by apply (decodes_expect_head MAJOR_ARRAY Arg0)|]. cbn.
      eapply decodes_bind; [by apply decodes_span|]. eapply decodes_bind; [by apply decodes_span|].
      eapply (decodes_bind _ _ [245]); [by apply (decodes_skip (ISimple 21))|].
      eapply decodes_bind_ret; [|apply decodes_ret].
      eapply decodes_bind_ret; [by apply (decodes_span (ISimple 22))|]. apply decodes_ret.
    - rewrite app_nil_r. unfold ISIZE_MAX, U32_MAX in *. lia. }
  unfold add_parts, body_tx. cbn [bx_raw_tx]. rewrite Hs. cbn [obind raw_bodies raw_witnesses aux_entries app].
  eexists. split; [reflexivity|]. rewrite Hsize, Hraw. unfold write_parts, zlength.
  cbn [raw_bodies raw_witnesses aux_entries concat encode_item map]. rewrite !app_nil_r, !length_app. cbn.
  change (length (Encoder_array (Z.of_nat 1))) with 1%nat. change (length (Encoder_map (Z.of_nat 0))) with 1%nat.
  lia.
Qed.

(** ** A producer at work *)

#[local] Existing Instance toy_ed.
#[local] Existing Instance toy_hash.

(** Proofs that carry the key. *)
Definition pad48 (l : list Z) : list Z := take 48 (l ++ replicate 48 0).

Lemma pad48_size l : zlength (pad48 l) = 48.
Proof. unfold zlength, pad48. rewrite length_take, length_app, length_replicate. lia. Qed.

Definition toy_vrf : Vrf := {|
  vrf_public := pad32;
  vrf_prove sk input := Some (replicate 64 0, pad32 sk ++ pad48 input);
  vrf_verify key input proof :=
    if bool_decide (proof = key ++ pad48 input) then Some (replicate 64 0) else None |}.
#[local] Existing Instance toy_vrf.

Lemma toy_vrf_laws : VrfLaws.
Proof.
  split.
  - apply pad32_size.
  - by intros sk input output proof [= <- _].
  - intros sk input output proof [= _ <-]. by rewrite zlength_app, pad32_size, pad48_size.
  - intros sk input output proof [= <- <-]. cbn [vrf_verify vrf_public toy_vrf]. by rewrite bool_decide_eq_true_2.
Qed.

Definition sample_cert : OpCert :=
  let hot := tree_key SHELLEY_KES_DEPTH sample_seed in
  mkOpCert hot 1 10 (ed_sign sample_cold (signable_bytes (mkOpCert hot 1 10 []))).

Definition sample_creds : BlockProducerCredentials :=
  mkCredentials (pad32 [5]) (pad32 [5])
    (mkDeep SHELLEY_KES_DEPTH (key_at SHELLEY_KES_DEPTH sample_seed 1)) 1 sample_cert
    (ed_public sample_cold) 100 62.

Definition sample_tx : list Z := [132; 160; 160; 245; 246].
Definition sample_entry : MempoolEntry := mkMempoolEntry EraConway (pad32 [1]) 200 [160] sample_tx 5 2000 [].
Definition sample_coeff : ActiveSlotCoeff := mkCoeff (f64_div (f64_of_int 19) (f64_of_int 30)) 1 1.
Definition sample_context : BlockContext := mkBlockContext 8 (Some (pad32 [3])) (Some 1290).

Definition sample_decision : outcome Empty_set (ShouldForge * BlockProducerCredentials) :=
  check_should_forge sample_creds 1300 Neutral 1 2 sample_coeff.
Definition sample_election : LeaderElectionResult :=
  match sample_decision with Ok (DoForge e, _) => e | _ => mkElection [] [] end.
Definition sample_evolved : BlockProducerCredentials :=
  match sample_decision with Ok (_, c) => c | _ => sample_creds end.
Definition sample_result : outcome BlockProducerError ForgedBlock :=
  forge_block sample_evolved sample_election sample_context 1300 [sample_entry] 90112
    (issuer_vkey sample_evolved) (9, 0).

Definition sample_forged : ForgedBlock :=
  match sample_result with
  | Ok fb => fb
  | _ => mkForgedBlock (mkForgedHeader (praos_header_body_to_consensus sample_body) (mkDeep 0 [])) [] [] 0 0 0 0
  end.

Lemma sample_forged_in_slot :
  forged_in_slot sample_seed sample_creds 1300 Neutral 1 2 sample_coeff sample_election sample_evolved
    sample_context [sample_entry] 90112 (9, 0) sample_forged.
Proof.
  split.
  - split; [reflexivity|reflexivity|done|reflexivity|reflexivity|vm_compute; reflexivity|reflexivity
      |vm_compute; reflexivity|by apply u64_small|by apply u64_small].
  - vm_compute. discriminate.
  - vm_compute. reflexivity.
  - vm_compute. reflexivity.
  - by apply u64_small.
  - by apply u64_small.
  - reflexivity.
  - by apply u64_small.
  - by apply u64_small.
  - apply Forall_singleton. exists Arg0, [IMap Arg0 []; IMap Arg0 []; ISimple 21; ISimple 22].
    split_and!; [done|done|by right|done].
  - done.
Qed.

(** The key moves from period 1 to period 3, and the block passes. *)
Lemma forged_block_checks_witness :
  kes_current_period sample_evolved = 3
  /\ exists raw,
       serialize_forged_block_cbor sample_forged = Ok raw
       /\ verify_header (mkHeader (fh_header_body (fb_header sample_forged))
                           (fh_kes_signature (fb_header sample_forged))) 100 62 = Ok tt
       /\ verify_block_body_hash raw = Ok tt.
Proof.
  destruct (@forged_block_checks toy_ed toy_hash toy_vrf toy_ed_laws toy_vrf_laws toy_hash_size
    sample_seed sample_creds 1300 Neutral 1 2 sample_coeff sample_election sample_evolved sample_context
    [sample_entry] 90112 (9, 0) sample_forged unit tt sample_forged_in_slot)
    as (raw & Hser & _ & Hv & _ & Hwire).
  split; [vm_compute; reflexivity|]. exists raw. split; [exact Hser|]. split.
  - exact Hv.
  - apply Hwire.
    assert (Hr : Ok raw = serialize_forged_block_cbor sample_forged) by (symmetry; exact Hser).
    vm_compute in Hr. injection Hr as ->. vm_compute. discriminate.
Defined.

(** The receiver refuses it. *)
Lemma forged_block_refused_witness :
  let header := forged_header_to_praos_header (fb_header sample_forged) in
  (forall raw, serialize_forged_block_cbor sample_forged = Ok raw -> zlength raw <= ISIZE_MAX ->
     verify_multi_era_block_with_raw (BlockConway header tt) (Some raw) sample_config = Ok tt ->
     exists leaf signed message,
       signed <> message /\ ed_verify_strict (ed_public leaf) message (ed_sign leaf signed) = true)
  /\ (let? raw := map_err LedgerDecode (serialize_forged_block_cbor sample_forged) in
      verify_multi_era_block_with_raw (BlockConway header tt) (Some raw) sample_config)
     = Err (ConsensusFailure InvalidKesSignature).
Proof.
  split.
  - intros raw Hser Hsz Hv.
    exact (@forged_block_refused toy_ed toy_hash toy_vrf toy_ed_laws toy_vrf_laws toy_hash_size
      sample_seed sample_creds 1300 Neutral 1 2 sample_coeff sample_election sample_evolved sample_context
      [sample_entry] 90112 (9, 0) sample_forged unit tt raw sample_config sample_forged_in_slot eq_refl
      Hser Hsz Hv).
  - vm_compute. reflexivity.
Defined.

Lemma body_is_longest_prefix_witness :
  exists k, assemble_block_body [sample_entry; sample_entry] 9
            = (body_tx <$> take k [sample_entry; sample_entry],
               entries_size (take k [sample_entry; sample_entry])).
Proof.
  destruct (body_is_longest_prefix [sample_entry; sample_entry] 9) as (k & Hk & _).
  - repeat constructor; done.
  - done.
  - done.
  - exists k. exact Hk.
Defined.

Lemma forge_gaps_witness :
  exists payload, encode_forged_body_payload (assemble_block_body [sample_entry] 5).1 = Ok payload
    /\ zlength payload = 6.
Proof.
  destruct (forge_gaps sample_entry (IMap Arg0 []) (IMap Arg0 []) 5 4 [] eq_refl eq_refl eq_refl eq_refl
    ltac:(done)) as [Hp _]. exact Hp.
Defined.

#[local] Instance toy_hash224 : Blake2b224 := take 28.

(** The forged block leads by its half of the stake. *)
Lemma leadership_by_stake_witness :
  let block := BlockConway (forged_header_to_praos_header (fb_header sample_forged)) tt in
  let issuer := ed_public sample_cold in
  let dist := mkDistribution [(blake2b_224 issuer, 1)] [(blake2b_224 issuer, blake2b_256 (pad32 [5]))] 2 in
  verify_block_leadership block Neutral None dist sample_coeff = Ok tt
  /\ leads_by_stake block Neutral dist sample_coeff issuer.
Proof.
  intros block issuer dist.
  assert (Hok : verify_block_leadership block Neutral None dist sample_coeff = Ok tt)
    by (vm_compute; reflexivity).
  split; [exact Hok|].
  exact (proj1 (proj1 (proj2 (@leadership_by_stake toy_hash toy_vrf toy_hash224 unit block Neutral dist sample_coeff
    issuer eq_refl) ltac:(discriminate))) Hok).
Defined.
