(* ===== verification/ConnectionManager.v ===== *)
(** The connection manager of the network crate: the state of the connection to
    each peer, the operations of the governor and of the inbound server on it,
    its timeouts and its pruning ([network/src/connection.rs],
    [network/src/connection_manager.rs]).

    Instants are milliseconds; an operation that reads the clock takes the
    instant it reads. *)

From S2P Require Import Prelude Cbor Types TypesCodec BTree Mempool NodeToNode.
Export PeerSharing.

Local Open Scope Z_scope.

(** Addresses compare by family, then address, then port. *)
Definition addr_key (a : SocketAddr) : list Z :=
  match a with
  | V4 octets port => 0 :: octets ++ [port]
  | V6 octets port flowinfo scope_id => 1 :: octets ++ [port; flowinfo; scope_id]
  end.

#[export, refine] Instance SocketAddr_ord : OrdKey SocketAddr := {| ord_key := addr_key |}.
Proof.
  abstract (intros [o p|o p f s] [o' p'|o' p' f' s']; cbn; try done; intros [= He];
    [apply app_inj_tail in He as [-> ->]; done|];
    apply app_inj_2 in He as [-> Ht]; [injection Ht as -> -> ->; done|done]).
Defined.

(** ** States *)

Inductive Provenance := Inbound | Outbound.
Inductive DataFlow := Unidirectional | Duplex.
Inductive TimeoutExpired := Expired | Ticking.

Inductive ConnectionType :=
  | UnnegotiatedConn (p : Provenance)
  | InboundIdleConn (df : DataFlow)
  | OutboundIdleConn (df : DataFlow)
  | NegotiatedConn (p : Provenance) (df : DataFlow)
  | DuplexConn.

Inductive AbstractState :=
  | UnknownConnectionSt
  | ReservedOutboundSt
  | UnnegotiatedSt (p : Provenance)
  | InboundIdleSt (df : DataFlow)
  | InboundSt (df : DataFlow)
  | OutboundUniSt
  | OutboundDupSt (te : TimeoutExpired)
  | OutboundIdleSt (df : DataFlow)
  | DuplexSt
  | WaitRemoteIdleSt
  | TerminatingSt
  | TerminatedSt.

#[export] Instance Provenance_eq_dec : EqDecision Provenance.
Proof. solve_decision. Defined.
#[export] Instance DataFlow_eq_dec : EqDecision DataFlow.
Proof. solve_decision. Defined.
#[export] Instance TimeoutExpired_eq_dec : EqDecision TimeoutExpired.
Proof. solve_decision. Defined.
#[export] Instance AbstractState_eq_dec : EqDecision AbstractState.
Proof. solve_decision. Defined.

Definition is_inbound_conn (s : AbstractState) : bool :=
  match s with InboundIdleSt _ | InboundSt _ | DuplexSt => true | _ => false end.

Definition connection_type (s : AbstractState) : option ConnectionType :=
  match s with
  | UnnegotiatedSt p => Some (UnnegotiatedConn p)
  | InboundIdleSt df => Some (InboundIdleConn df)
  | OutboundIdleSt df => Some (OutboundIdleConn df)
  | InboundSt df => Some (NegotiatedConn Inbound df)
  | OutboundUniSt => Some (NegotiatedConn Outbound Unidirectional)
  | OutboundDupSt _ => Some (NegotiatedConn Outbound Duplex)
  | DuplexSt => Some DuplexConn
  | _ => None
  end.

Record ConnectionId := mkConnectionId { cid_local : SocketAddr; cid_remote : SocketAddr }.

Inductive ConnectionState :=
  | ReservedOutboundState
  | UnnegotiatedState (provenance : Provenance) (conn_id : ConnectionId)
  | OutboundUniState (conn_id : ConnectionId)
  | OutboundDupState (conn_id : ConnectionId) (timeout_expired : TimeoutExpired)
  | OutboundIdleState (conn_id : ConnectionId) (data_flow : DataFlow)
  | InboundIdleState (conn_id : ConnectionId) (data_flow : DataFlow)
  | InboundState (conn_id : ConnectionId) (data_flow : DataFlow)
  | DuplexState (conn_id : ConnectionId)
  | TerminatingState (conn_id : ConnectionId) (error : option string)
  | TerminatedState (error : option string).

Definition abstract_state (s : ConnectionState) : AbstractState :=
  match s with
  | ReservedOutboundState => ReservedOutboundSt
  | UnnegotiatedState provenance _ => UnnegotiatedSt provenance
  | OutboundUniState _ => OutboundUniSt
  | OutboundDupState _ timeout_expired => OutboundDupSt timeout_expired
  | OutboundIdleState _ data_flow => OutboundIdleSt data_flow
  | InboundIdleState _ data_flow => InboundIdleSt data_flow
  | InboundState _ data_flow => InboundSt data_flow
  | DuplexState _ => DuplexSt
  | TerminatingState _ _ => TerminatingSt
  | TerminatedState _ => TerminatedSt
  end.

Definition state_conn_id (s : ConnectionState) : option ConnectionId :=
  match s with
  | ReservedOutboundState | TerminatedState _ => None
  | UnnegotiatedState _ conn_id | OutboundUniState conn_id | OutboundDupState conn_id _
  | OutboundIdleState conn_id _ | InboundIdleState conn_id _ | InboundState conn_id _
  | DuplexState conn_id | TerminatingState conn_id _ => Some conn_id
  end.

Record ConnectionManagerCounters := mkCounters {
  full_duplex_conns : Z;
  duplex_conns : Z;
  unidirectional_conns : Z;
  inbound_conns : Z;
  outbound_conns : Z;
  terminating_conns : Z }.

Definition connection_state_to_counters (s : ConnectionState) : ConnectionManagerCounters :=
  match s with
  | ReservedOutboundState | TerminatedState _ => mkCounters 0 0 0 0 0 0
  | UnnegotiatedState Inbound _ => mkCounters 0 0 0 1 0 0
  | UnnegotiatedState Outbound _ => mkCounters 0 0 0 0 1 0
  | OutboundUniState _ => mkCounters 0 0 1 0 1 0
  | OutboundDupState _ _ => mkCounters 0 1 0 0 1 0
  | OutboundIdleState _ Unidirectional => mkCounters 0 0 1 0 1 0
  | OutboundIdleState _ Duplex => mkCounters 0 1 0 0 1 0
  | InboundIdleState _ Unidirectional => mkCounters 0 0 1 1 0 0
  | InboundIdleState _ Duplex => mkCounters 0 1 0 1 0 0
  | InboundState _ Unidirectional => mkCounters 0 0 1 1 0 0
  | InboundState _ Duplex => mkCounters 0 1 0 1 0 0
  | DuplexState _ => mkCounters 1 1 0 1 1 0
  | TerminatingState _ _ => mkCounters 0 0 0 0 0 1
  end.

Definition counters_add (a b : ConnectionManagerCounters) : ConnectionManagerCounters :=
  mkCounters (full_duplex_conns a + full_duplex_conns b) (duplex_conns a + duplex_conns b)
    (unidirectional_conns a + unidirectional_conns b) (inbound_conns a + inbound_conns b)
    (outbound_conns a + outbound_conns b) (terminating_conns a + terminating_conns b).

Inductive OperationResult (A : Type) :=
  | UnsupportedState (s : AbstractState)
  | OperationSuccess (a : A)
  | TerminatedConnection (s : AbstractState).
Arguments UnsupportedState {A} s.
Arguments OperationSuccess {A} a.
Arguments TerminatedConnection {A} s.

Inductive DemotedToColdRemoteTr := CommitTr | KeepTr.

Record AcceptedConnectionsLimit := mkLimit { hard_limit : Z; soft_limit : Z; limit_delay : Z }.

Definition default_limit : AcceptedConnectionsLimit := mkLimit 512 384 5000.

Inductive ConnectionManagerError :=
  | ConnectionExists (provenance : Provenance) (peer : SocketAddr)
  | ForbiddenConnection (conn_id : ConnectionId)
  | InboundConnectionNotFound (peer : SocketAddr)
  | ImpossibleConnection (conn_id : ConnectionId)
  | ConnectionTerminating (conn_id : ConnectionId)
  | ConnectionTerminated (conn_id : ConnectionId)
  | ImpossibleState (peer : SocketAddr)
  | ForbiddenOperation (peer : SocketAddr) (state : AbstractState)
  | UnknownPeer (peer : SocketAddr).

Definition TIME_WAIT_TIMEOUT : Z := 60000.
Definition PROTOCOL_IDLE_TIMEOUT : Z := 5000.

(** The edges of the state diagram. *)
Definition verify_abstract_transition (from to : AbstractState) : bool :=
  match from, to with
  | (TerminatedSt | UnknownConnectionSt), ReservedOutboundSt => true
  | ReservedOutboundSt, UnnegotiatedSt Outbound => true
  | UnnegotiatedSt Outbound, OutboundUniSt => true
  | UnnegotiatedSt Outbound, OutboundDupSt Ticking => true
  | OutboundUniSt, OutboundIdleSt Unidirectional => true
  | OutboundDupSt Ticking, OutboundDupSt Expired => true
  | OutboundDupSt Expired, OutboundIdleSt Duplex => true
  | OutboundDupSt Ticking, DuplexSt => true
  | OutboundDupSt Expired, DuplexSt => true
  | OutboundIdleSt _, TerminatingSt => true
  | (TerminatedSt | UnknownConnectionSt), UnnegotiatedSt Inbound => true
  | ReservedOutboundSt, UnnegotiatedSt Inbound => true
  | UnnegotiatedSt Inbound, InboundIdleSt Duplex => true
  | UnnegotiatedSt Inbound, InboundIdleSt Unidirectional => true
  | InboundIdleSt Duplex, InboundSt Duplex => true
  | InboundIdleSt Unidirectional, InboundSt Unidirectional => true
  | InboundSt Duplex, InboundIdleSt Duplex => true
  | InboundSt Unidirectional, InboundIdleSt Unidirectional => true
  | InboundIdleSt _, TerminatingSt => true
  | InboundSt Duplex, DuplexSt => true
  | DuplexSt, OutboundDupSt Ticking => true
  | DuplexSt, InboundSt Duplex => true
  | InboundIdleSt Duplex, OutboundDupSt Ticking => true
  | InboundIdleSt Unidirectional, OutboundUniSt => true
  | UnnegotiatedSt Outbound, UnnegotiatedSt Inbound => true
  | UnnegotiatedSt Inbound, UnnegotiatedSt Outbound => true
  | TerminatingSt, TerminatedSt => true
  | TerminatingSt, UnnegotiatedSt Inbound => true
  | _, _ => false
  end.

(** ** The manager *)

Record ConnectionEntry := mkEntry {
  conn_state_id : Z;
  entry_state : ConnectionState;
  responder_timeout_deadline : option Z;
  time_wait_deadline : option Z }.

Inductive CmAction :=
  | StartConnect (peer : SocketAddr)
  | TerminateConnection (conn_id : ConnectionId)
  | StartResponderTimeout (conn_id : ConnectionId)
  | PruneConnections (peers : list SocketAddr).

Inductive AcquireOutboundResult :=
  | Fresh
  | Reused (s : AbstractState)
  | Disconnected (s : AbstractState).

Inductive ReleaseOutboundResult :=
  | DemotedToColdLocal (s : AbstractState)
  | Noop (s : AbstractState)
  | ReleaseError (e : ConnectionManagerError).

Record ConnectionManagerState := mkManager {
  connections : list (SocketAddr * ConnectionEntry);
  next_id : Z;
  limits : AcceptedConnectionsLimit }.

Definition with_limits (l : AcceptedConnectionsLimit) : ConnectionManagerState := mkManager [] 0 l.
Definition manager_new : ConnectionManagerState := with_limits default_limit.

Definition next_conn_state_id (m : ConnectionManagerState) : Z * ConnectionManagerState :=
  (next_id m, mkManager (connections m) (wrap64 (next_id m + 1)) (limits m)).

Definition connection_count (m : ConnectionManagerState) : Z := zlength (connections m).

Definition inbound_connection_count (m : ConnectionManagerState) : Z :=
  wrap32 (zlength (List.filter (fun e => is_inbound_conn (abstract_state (entry_state e)))
                     (bt_values (connections m)))).

Definition abstract_state_of (m : ConnectionManagerState) (peer : SocketAddr) : AbstractState :=
  match bt_get peer (connections m) with
  | Some e => abstract_state (entry_state e)
  | None => UnknownConnectionSt
  end.

Definition abstract_state_map (m : ConnectionManagerState) : list (SocketAddr * AbstractState) :=
  bt_collect ((fun e => (e.1, abstract_state (entry_state e.2))) <$> connections m).

Definition counters (m : ConnectionManagerState) : ConnectionManagerCounters :=
  foldl (fun acc e => counters_add acc (connection_state_to_counters (entry_state e)))
    (mkCounters 0 0 0 0 0 0) (bt_values (connections m)).

Definition set_connections (m : ConnectionManagerState) (c : list (SocketAddr * ConnectionEntry))
    : ConnectionManagerState :=
  mkManager c (next_id m) (limits m).

(** The three assignments to an entry that every transition makes. *)
Definition set_entry (m : ConnectionManagerState) (peer : SocketAddr) (s : ConnectionState)
    (responder_timeout time_wait : option Z) : ConnectionManagerState :=
  set_connections m
    (bt_alter (fun e => mkEntry (conn_state_id e) s responder_timeout time_wait) peer (connections m)).

(** ** Pruning *)

Definition is_idle_inbound (s : ConnectionState) : bool :=
  match s with InboundIdleState _ _ => true | _ => false end.
Definition is_terminated (s : ConnectionState) : bool :=
  match s with TerminatedState _ => true | _ => false end.

Definition maybe_prune (m : ConnectionManagerState) : list CmAction :=
  let inbound := inbound_connection_count m in
  if inbound <=? hard_limit (limits m) then []
  else
    let excess := inbound - hard_limit (limits m) in
    let prunable :=
      (fun e => (e.1, conn_state_id e.2)) <$>
        List.filter (fun e => is_idle_inbound (entry_state e.2)) (connections m) in
    let to_prune := fst <$> take (Z.to_nat excess) (sort_desc snd prunable) in
    match to_prune with [] => [] | _ => [PruneConnections to_prune] end.

(** The candidates of [prune_for_inbound]: address, identifier, terminated. *)
Definition prunable_entries (m : ConnectionManagerState) : list (SocketAddr * Z * bool) :=
  omap (fun e =>
          match entry_state e.2 with
          | InboundIdleState _ _ => Some (e.1, conn_state_id e.2, false)
          | TerminatedState _ => Some (e.1, conn_state_id e.2, true)
          | _ => None
          end) (connections m).

(** Terminated entries first, then by descending identifier; identifiers have
    64 bits. *)
Definition prune_order (e : SocketAddr * Z * bool) : Z :=
  (if e.2 then 2 ^ 64 else 0) + e.1.2.

Definition prune_turn (now : Z) (st : ConnectionManagerState * list SocketAddr)
    (e : SocketAddr * Z * bool) : ConnectionManagerState * list SocketAddr :=
  let '(m, to_prune) := st in
  let addr := e.1.1 in
  if e.2 then (set_connections m (bt_remove addr (connections m)), to_prune)
  else
    (match bt_get addr (connections m) with
     | Some entry =>
         match state_conn_id (entry_state entry) with
         | Some cid =>
             set_entry m addr (TerminatingState cid (Some "pruned for inbound capacity"%string)) None
               (Some (now + TIME_WAIT_TIMEOUT))
         | None => m
         end
     | None => m
     end,
     to_prune ++ [addr]).

Definition prune_for_inbound (needed : Z) (now : Z) (m : ConnectionManagerState)
    : list CmAction * ConnectionManagerState :=
  if needed =? 0 then ([], m)
  else
    let '(m, to_prune) :=
      foldl (prune_turn now) (m, [])
        (take (Z.to_nat needed) (sort_desc prune_order (prunable_entries m))) in
    (match to_prune with [] => [] | _ => [PruneConnections to_prune] end, m).

(** ** Outbound connections *)

Definition cm_result (A : Type) := outcome ConnectionManagerError A.

Definition acquire_outbound_connection (local_addr peer : SocketAddr) (now : Z)
    (m : ConnectionManagerState)
    : cm_result (AcquireOutboundResult * list CmAction) * ConnectionManagerState :=
  let conn_id := mkConnectionId local_addr peer in
  match entry_state <$> bt_get peer (connections m) with
  | None =>
      let '(id, m) := next_conn_state_id m in
      (Ok (Fresh, [StartConnect peer]),
       set_connections m (bt_insert peer (mkEntry id ReservedOutboundState None None) (connections m)))
  | Some ReservedOutboundState
  | Some (UnnegotiatedState Outbound _)
  | Some (OutboundUniState _)
  | Some (OutboundDupState _ _)
  | Some (DuplexState _) => (Err (ConnectionExists Outbound peer), m)
  | Some (OutboundIdleState _ _) => (Err (ForbiddenOperation peer (abstract_state_of m peer)), m)
  | Some (InboundIdleState _ Duplex) =>
      let m := set_entry m peer (OutboundDupState conn_id Ticking) (Some (now + PROTOCOL_IDLE_TIMEOUT)) None in
      (Ok (Reused (abstract_state_of m peer), [StartResponderTimeout conn_id]), m)
  | Some (InboundIdleState _ Unidirectional)
  | Some (InboundState _ Unidirectional) => (Err (ForbiddenConnection conn_id), m)
  | Some (InboundState _ Duplex) =>
      let m := set_entry m peer (DuplexState conn_id) None None in
      (Ok (Reused (abstract_state_of m peer), maybe_prune m), m)
  | Some (UnnegotiatedState Inbound _) =>
      (Ok (Fresh, [StartConnect peer]),
       set_entry m peer (UnnegotiatedState Outbound conn_id) None None)
  | Some (TerminatingState _ _) => (Ok (Disconnected TerminatingSt, []), m)
  | Some (TerminatedState _) => (Ok (Disconnected TerminatedSt, []), m)
  end.

Definition outbound_handshake_done (local_addr peer : SocketAddr) (data_flow : DataFlow) (now : Z)
    (m : ConnectionManagerState) : cm_result AbstractState * ConnectionManagerState :=
  let conn_id := mkConnectionId local_addr peer in
  match entry_state <$> bt_get peer (connections m) with
  | None => (Err (UnknownPeer peer), m)
  | Some ReservedOutboundState
  | Some (UnnegotiatedState Outbound _) =>
      let new_state :=
        match data_flow with
        | Unidirectional => OutboundUniState conn_id
        | Duplex => OutboundDupState conn_id Ticking
        end in
      let deadline :=
        match data_flow with Duplex => Some (now + PROTOCOL_IDLE_TIMEOUT) | Unidirectional => None end in
      (Ok (abstract_state new_state), set_entry m peer new_state deadline None)
  | Some other => (Err (ForbiddenOperation peer (abstract_state other)), m)
  end.

Definition outbound_connect_failed (peer : SocketAddr) (m : ConnectionManagerState)
    : cm_result unit * ConnectionManagerState :=
  match entry_state <$> bt_get peer (connections m) with
  | None => (Err (UnknownPeer peer), m)
  | Some ReservedOutboundState
  | Some (UnnegotiatedState Outbound _) => (Ok tt, set_entry m peer (TerminatedState None) None None)
  | Some other => (Err (ForbiddenOperation peer (abstract_state other)), m)
  end.

Definition release_outbound_connection (peer : SocketAddr) (m : ConnectionManagerState)
    : (ReleaseOutboundResult * list CmAction) * ConnectionManagerState :=
  match entry_state <$> bt_get peer (connections m) with
  | None => ((Noop UnknownConnectionSt, []), m)
  | Some state =>
      let from := abstract_state state in
      match state with
      | ReservedOutboundState | UnnegotiatedState _ _ =>
          ((ReleaseError (ForbiddenOperation peer from), []), m)
      | OutboundUniState cid =>
          ((DemotedToColdLocal (OutboundIdleSt Unidirectional), [TerminateConnection cid]),
           set_entry m peer (OutboundIdleState cid Unidirectional) None None)
      | OutboundDupState cid Expired =>
          ((DemotedToColdLocal (OutboundIdleSt Duplex), [TerminateConnection cid]),
           set_entry m peer (OutboundIdleState cid Duplex) None None)
      | OutboundDupState cid Ticking =>
          let m := set_entry m peer (InboundIdleState cid Duplex) None None in
          ((Noop (InboundIdleSt Duplex), maybe_prune m), m)
      | OutboundIdleState _ _ => ((Noop from, []), m)
      | InboundIdleState _ Duplex => ((Noop from, []), m)
      | InboundIdleState _ Unidirectional
      | InboundState _ Unidirectional => ((ReleaseError (ForbiddenOperation peer from), []), m)
      | InboundState _ Duplex => ((Noop from, []), m)
      | DuplexState cid =>
          ((Noop (InboundSt Duplex), []), set_entry m peer (InboundState cid Duplex) None None)
      | TerminatingState _ _ | TerminatedState _ => ((Noop from, []), m)
      end
  end.

(** ** Inbound connections *)

(** The accept once there is room. *)
Definition accept_inbound (conn_id : ConnectionId) (prune_actions : list CmAction)
    (m : ConnectionManagerState) : cm_result (Z * list CmAction) * ConnectionManagerState :=
  let peer := cid_remote conn_id in
  let '(id, m) := next_conn_state_id m in
  let new_entry := mkEntry id (UnnegotiatedState Inbound conn_id) None None in
  match entry_state <$> bt_get peer (connections m) with
  | None
  | Some ReservedOutboundState
  | Some (UnnegotiatedState _ _)
  | Some (TerminatingState _ _)
  | Some (TerminatedState _) =>
      (Ok (id, prune_actions), set_connections m (bt_insert peer new_entry (connections m)))
  | Some _ => (Err (ConnectionExists Inbound peer), m)
  end.

Definition include_inbound_connection (conn_id : ConnectionId) (now : Z) (m : ConnectionManagerState)
    : cm_result (Z * list CmAction) * ConnectionManagerState :=
  if hard_limit (limits m) <=? inbound_connection_count m then
    let '(prune_actions, m) := prune_for_inbound 1 now m in
    if hard_limit (limits m) <=? inbound_connection_count m
    then (Err (ForbiddenOperation (cid_remote conn_id) UnknownConnectionSt), m)
    else accept_inbound conn_id prune_actions m
  else accept_inbound conn_id [] m.

Definition inbound_handshake_done (peer : SocketAddr) (data_flow : DataFlow) (m : ConnectionManagerState)
    : cm_result AbstractState * ConnectionManagerState :=
  match entry_state <$> bt_get peer (connections m) with
  | None => (Err (UnknownPeer peer), m)
  | Some (UnnegotiatedState Inbound cid) =>
      (Ok (InboundIdleSt data_flow), set_entry m peer (InboundIdleState cid data_flow) None None)
  | Some ((OutboundUniState _ | OutboundDupState _ _ | OutboundIdleState _ _) as s) =>
      (Ok (abstract_state s), m)
  | Some other => (Err (ForbiddenOperation peer (abstract_state other)), m)
  end.

Definition release_inbound_connection (peer : SocketAddr) (now : Z) (m : ConnectionManagerState)
    : (OperationResult DemotedToColdRemoteTr * list CmAction) * ConnectionManagerState :=
  match entry_state <$> bt_get peer (connections m) with
  | None => ((OperationSuccess CommitTr, []), m)
  | Some (InboundIdleState cid _)
  | Some (OutboundIdleState cid _) =>
      ((OperationSuccess CommitTr, [TerminateConnection cid]),
       set_entry m peer (TerminatingState cid None) None (Some (now + TIME_WAIT_TIMEOUT)))
  | Some (OutboundDupState cid Ticking) =>
      ((OperationSuccess KeepTr, []), set_entry m peer (OutboundDupState cid Expired) None None)
  | Some (OutboundDupState _ Expired) => ((OperationSuccess KeepTr, []), m)
  | Some (DuplexState cid) =>
      ((OperationSuccess KeepTr, []),
       set_entry m peer (OutboundDupState cid Ticking) (Some (now + PROTOCOL_IDLE_TIMEOUT)) None)
  | Some (TerminatingState _ _) => ((OperationSuccess CommitTr, []), m)
  | Some other => ((UnsupportedState (abstract_state other), []), m)
  end.

Definition promoted_to_warm_remote (peer : SocketAddr) (m : ConnectionManagerState)
    : (OperationResult AbstractState * list CmAction) * ConnectionManagerState :=
  match entry_state <$> bt_get peer (connections m) with
  | None => ((UnsupportedState UnknownConnectionSt, []), m)
  | Some (InboundIdleState cid Unidirectional) =>
      ((OperationSuccess (InboundSt Unidirectional), []),
       set_entry m peer (InboundState cid Unidirectional) None None)
  | Some (InboundIdleState cid Duplex)
  | Some (OutboundIdleState cid Duplex) =>
      let m := set_entry m peer (InboundState cid Duplex) None None in
      ((OperationSuccess (InboundSt Duplex), maybe_prune m), m)
  | Some (OutboundDupState cid _) =>
      let m := set_entry m peer (DuplexState cid) None None in
      ((OperationSuccess DuplexSt, maybe_prune m), m)
  | Some (InboundState _ df) => ((OperationSuccess (InboundSt df), []), m)
  | Some ((TerminatingState _ _ | TerminatedState _) as s) =>
      ((TerminatedConnection (abstract_state s), []), m)
  | Some other => ((UnsupportedState (abstract_state other), []), m)
  end.

Definition demoted_to_cold_remote (peer : SocketAddr) (now : Z) (m : ConnectionManagerState)
    : (OperationResult AbstractState * list CmAction) * ConnectionManagerState :=
  match entry_state <$> bt_get peer (connections m) with
  | None => ((UnsupportedState UnknownConnectionSt, []), m)
  | Some (InboundState cid df) =>
      ((OperationSuccess (InboundIdleSt df), []), set_entry m peer (InboundIdleState cid df) None None)
  | Some (DuplexState cid) =>
      ((OperationSuccess (OutboundDupSt Ticking), []),
       set_entry m peer (OutboundDupState cid Ticking) (Some (now + PROTOCOL_IDLE_TIMEOUT)) None)
  | Some ((OutboundUniState _ | OutboundDupState _ _ | OutboundIdleState _ _ | InboundIdleState _ _) as s) =>
      ((OperationSuccess (abstract_state s), []), m)
  | Some ((TerminatingState _ _ | TerminatedState _) as s) =>
      ((TerminatedConnection (abstract_state s), []), m)
  | Some other => ((UnsupportedState (abstract_state other), []), m)
  end.

(** ** Timeouts and termination *)

Definition responder_timeout_expired (peer : SocketAddr) (m : ConnectionManagerState)
    : cm_result AbstractState * ConnectionManagerState :=
  match entry_state <$> bt_get peer (connections m) with
  | None => (Err (UnknownPeer peer), m)
  | Some (OutboundDupState cid Ticking) =>
      (Ok (OutboundDupSt Expired), set_entry m peer (OutboundDupState cid Expired) None None)
  | Some other => (Err (ForbiddenOperation peer (abstract_state other)), m)
  end.

Definition time_wait_expired (peer : SocketAddr) (m : ConnectionManagerState)
    : cm_result unit * ConnectionManagerState :=
  match entry_state <$> bt_get peer (connections m) with
  | None => (Err (UnknownPeer peer), m)
  | Some (TerminatingState _ error) => (Ok tt, set_entry m peer (TerminatedState error) None None)
  | Some other => (Err (ForbiddenOperation peer (abstract_state other)), m)
  end.

Definition remove_terminated (peer : SocketAddr) (m : ConnectionManagerState)
    : bool * ConnectionManagerState :=
  match entry_state <$> bt_get peer (connections m) with
  | Some (TerminatedState _) => (true, set_connections m (bt_remove peer (connections m)))
  | _ => (false, m)
  end.

Definition mark_terminating (peer : SocketAddr) (reason : option string) (now : Z)
    (m : ConnectionManagerState) : option AbstractState * ConnectionManagerState :=
  match entry_state <$> bt_get peer (connections m) with
  | None => (None, m)
  | Some ((TerminatingState _ _ | TerminatedState _) as s) => (Some (abstract_state s), m)
  | Some s =>
      match state_conn_id s with
      | Some cid =>
          (Some TerminatingSt,
           set_entry m peer (TerminatingState cid reason) None (Some (now + TIME_WAIT_TIMEOUT)))
      | None => (Some TerminatedSt, set_entry m peer (TerminatedState reason) None None)
      end
  end.

Definition deadline_passed (now : Z) (deadline : option Z) : bool :=
  match deadline with Some d => d <=? now | None => false end.

(** One turn of the loop over the peers: both tests look at the entry as it was
    when the turn began. *)
Definition tick_peer (now : Z) (m : ConnectionManagerState) (peer : SocketAddr) : ConnectionManagerState :=
  match bt_get peer (connections m) with
  | None => m
  | Some entry =>
      let m :=
        match entry_state entry with
        | OutboundDupState _ Ticking =>
            if deadline_passed now (responder_timeout_deadline entry)
            then (responder_timeout_expired peer m).2 else m
        | _ => m
        end in
      match entry_state entry with
      | TerminatingState _ _ =>
          if deadline_passed now (time_wait_deadline entry)
          then (remove_terminated peer (time_wait_expired peer m).2).2 else m
      | _ => m
      end
  end.

Definition timeout_tick (now : Z) (m : ConnectionManagerState)
    : list CmAction * ConnectionManagerState :=
  let m := foldl (tick_peer now) m (bt_keys (connections m)) in
  let terminated := fst <$> List.filter (fun e => is_terminated (entry_state e.2)) (connections m) in
  let m := foldl (fun m peer => set_connections m (bt_remove peer (connections m))) m terminated in
  (maybe_prune m, m).
