(* ===== verification/ConnectionFacts.v ===== *)
(** The connection manager against the diagram of its states: every operation
    follows the edges of the diagram, with the exceptions listed; the entries
    keep their deadlines and identifiers; the periodic tick does exactly what
    the deadlines ask; and what the limit on inbound connections does not do. *)

From S2P Require Import Prelude Cbor Types TypesCodec BTree Mempool NodeToNode ConnectionManager.

Local Open Scope Z_scope.

Implicit Types (m : ConnectionManagerState) (p q : SocketAddr) (s : AbstractState).

#[export] Instance SocketAddr_eq_dec : EqDecision SocketAddr.
Proof. solve_decision. Defined.

(** ** Operations *)

Inductive cm_op :=
  | OpAcquire (local peer : SocketAddr)
  | OpOutboundDone (local peer : SocketAddr) (df : DataFlow)
  | OpConnectFailed (peer : SocketAddr)
  | OpReleaseOutbound (peer : SocketAddr)
  | OpInclude (cid : ConnectionId)
  | OpInboundDone (peer : SocketAddr) (df : DataFlow)
  | OpReleaseInbound (peer : SocketAddr)
  | OpPromoted (peer : SocketAddr)
  | OpDemoted (peer : SocketAddr)
  | OpResponderTimeout (peer : SocketAddr)
  | OpTimeWait (peer : SocketAddr)
  | OpRemove (peer : SocketAddr)
  | OpMark (peer : SocketAddr) (reason : option string)
  | OpTick.

Definition cm_apply (op : cm_op) (now : Z) m : ConnectionManagerState :=
  match op with
  | OpAcquire local peer => (acquire_outbound_connection local peer now m).2
  | OpOutboundDone local peer df => (outbound_handshake_done local peer df now m).2
  | OpConnectFailed peer => (outbound_connect_failed peer m).2
  | OpReleaseOutbound peer => (release_outbound_connection peer m).2
  | OpInclude cid => (include_inbound_connection cid now m).2
  | OpInboundDone peer df => (inbound_handshake_done peer df m).2
  | OpReleaseInbound peer => (release_inbound_connection peer now m).2
  | OpPromoted peer => (promoted_to_warm_remote peer m).2
  | OpDemoted peer => (demoted_to_cold_remote peer now m).2
  | OpResponderTimeout peer => (responder_timeout_expired peer m).2
  | OpTimeWait peer => (time_wait_expired peer m).2
  | OpRemove peer => (remove_terminated peer m).2
  | OpMark peer reason => (mark_terminating peer reason now m).2
  | OpTick => (timeout_tick now m).2
  end.

Fixpoint cm_run (ops : list (cm_op * Z)) m : ConnectionManagerState :=
  match ops with
  | [] => m
  | (op, now) :: ops => cm_run ops (cm_apply op now m)
  end.

(** ** The invariant *)

Definition ticking (s : ConnectionState) : bool :=
  match s with OutboundDupState _ Ticking => true | _ => false end.
Definition terminating (s : ConnectionState) : bool :=
  match s with TerminatingState _ _ => true | _ => false end.

(** A deadline runs exactly in the state it belongs to, and the connection is
    the one to the peer it is filed under. *)
Record entry_ok (bound : Z) (p : SocketAddr) (e : ConnectionEntry) : Prop := {
  eo_responder : bool_decide (is_Some (responder_timeout_deadline e)) = ticking (entry_state e);
  eo_time_wait : bool_decide (is_Some (time_wait_deadline e)) = terminating (entry_state e);
  eo_remote : forall cid, state_conn_id (entry_state e) = Some cid -> cid_remote cid = p;
  eo_id : 0 <= conn_state_id e < bound }.

Record manager_ok m : Prop := {
  mo_sorted : bt_sorted (connections m);
  mo_next : 0 <= next_id m <= U64_MAX;
  mo_entries : forall p e, bt_get p (connections m) = Some e -> entry_ok (next_id m) p e;
  mo_ids : forall p q e f, bt_get p (connections m) = Some e -> bt_get q (connections m) = Some f ->
             conn_state_id e = conn_state_id f -> p = q }.

Lemma entry_ok_mono bound bound' p e : bound <= bound' -> entry_ok bound p e -> entry_ok bound' p e.
Proof. intros ? []. split; try done. lia. Qed.

(** An entry in a new state, with the deadlines of that state. *)
Lemma set_entry_ok m p st r t :
  manager_ok m ->
  bool_decide (is_Some r) = ticking st -> bool_decide (is_Some t) = terminating st ->
  (forall cid, state_conn_id st = Some cid -> cid_remote cid = p) ->
  manager_ok (set_entry m p st r t).
Proof.
  intros [Hs Hn He Hi] Hr Ht Hc.
  assert (Hg : forall q e, bt_get q (connections (set_entry m p st r t)) = Some e ->
    exists e0, bt_get q (connections m) = Some e0 /\ conn_state_id e = conn_state_id e0
      /\ entry_ok (next_id m) q e).
  { intros q e. cbn [set_entry set_connections connections]. destruct (decide (q = p)) as [->|Hne].
    - rewrite bt_get_alter. destruct (bt_get p (connections m)) as [e0|] eqn:E; [|done].
      cbn. intros [= <-]. exists e0. split; [done|]. split; [done|]. split; try done. cbn.
      exact (eo_id _ _ _ (He _ _ E)).
    - rewrite bt_get_alter_ne by done. intros E. exists e. eauto. }
  split; [by apply bt_alter_sorted|done| |].
  - intros q e E. apply Hg in E as (? & _ & _ & ?). done.
  - intros q1 q2 e f E F Hid. apply Hg in E as (e0 & E & He0 & _). apply Hg in F as (f0 & F & Hf0 & _).
    eapply Hi; [done..|]. congruence.
Qed.

Lemma insert_entry_ok m p st :
  manager_ok m -> next_id m < U64_MAX -> ticking st = false -> terminating st = false ->
  (forall cid, state_conn_id st = Some cid -> cid_remote cid = p) ->
  manager_ok (mkManager (bt_insert p (mkEntry (next_id m) st None None) (connections m))
                (wrap64 (next_id m + 1)) (limits m)).
Proof.
  intros [Hs Hn He Hi] Hlt Hr Ht Hc. rewrite wrap64_id by (unfold u64; lia).
  assert (Hg : forall q e, bt_get q (bt_insert p (mkEntry (next_id m) st None None) (connections m)) = Some e ->
    (q = p /\ e = mkEntry (next_id m) st None None) \/ (q <> p /\ bt_get q (connections m) = Some e)).
  { intros q e. destruct (decide (q = p)) as [->|Hne].
    - rewrite bt_get_insert. intros [= <-]. by left.
    - rewrite bt_get_insert_ne by done. by right. }
  split; cbn [connections next_id]; [by apply bt_insert_sorted|lia| |].
  - intros q e [[-> ->]|[_ E]]%Hg.
    + split; cbn; [by rewrite Hr|by rewrite Ht|done|lia].
    + eapply entry_ok_mono; [|by apply He]. lia.
  - intros q1 q2 e f [[-> ->]|[N1 E]]%Hg [[-> ->]|[N2 F]]%Hg; cbn; [done|..]; intros Hid.
    + pose proof (eo_id _ _ _ (He _ _ F)). lia.
    + pose proof (eo_id _ _ _ (He _ _ E)). lia.
    + by eapply Hi.
Qed.

Lemma remove_entry_ok m p : manager_ok m -> manager_ok (set_connections m (bt_remove p (connections m))).
Proof.
  intros [Hs Hn He Hi].
  assert (Hg : forall q e, bt_get q (bt_remove p (connections m)) = Some e -> bt_get q (connections m) = Some e).
  { intros q e. destruct (decide (q = p)) as [->|Hne]; [by rewrite bt_get_remove|by rewrite bt_get_remove_ne]. }
  split; cbn [set_connections connections next_id]; [by apply bt_remove_sorted|done| |]; eauto.
Qed.

(** Case analysis on the entry of the peer. *)
Ltac peer_cases p :=
  match goal with |- context [bt_get p (connections ?m)] =>
    let E := fresh "E" in let Est := fresh "Est" in
    destruct (bt_get p (connections m)) as [?e|] eqn:E; cbn [fmap option_fmap option_map]; [|try done];
    try match goal with |- context [entry_state ?x] =>
      destruct (entry_state x) as [|[] ?|?|? []|? []|? []|? []|?|? ?|?] eqn:Est; try done end
  end.

(** Closes a goal about an entry that moves to another state. *)
Ltac moved :=
  apply set_entry_ok; [done|done|done|];
  let cid := fresh "cid" in
  intros cid [= <-];
  first [ done
        | match goal with Hm : manager_ok ?m, E : bt_get _ (connections ?m) = Some ?e, Est : entry_state ?e = _ |- _ =>
            apply (eo_remote _ _ _ (mo_entries _ Hm _ _ E)); by rewrite Est end ].

Lemma acquire_ok local p now m :
  manager_ok m -> next_id m < U64_MAX -> manager_ok (acquire_outbound_connection local p now m).2.
Proof.
  intros Hm Hn. unfold acquire_outbound_connection. peer_cases p; cbn [snd]; try moved.
  by apply (insert_entry_ok m p ReservedOutboundState Hm Hn).
Qed.

Lemma outbound_done_ok local p df now m : manager_ok m -> manager_ok (outbound_handshake_done local p df now m).2.
Proof. intros Hm. unfold outbound_handshake_done. peer_cases p; cbn [snd]; destruct df; moved. Qed.

Lemma connect_failed_ok p m : manager_ok m -> manager_ok (outbound_connect_failed p m).2.
Proof. intros Hm. unfold outbound_connect_failed. peer_cases p; cbn [snd]; apply set_entry_ok; done. Qed.

Lemma release_outbound_ok p m : manager_ok m -> manager_ok (release_outbound_connection p m).2.
Proof. intros Hm. unfold release_outbound_connection. peer_cases p; cbn [snd]; moved. Qed.

Lemma inbound_done_ok p df m : manager_ok m -> manager_ok (inbound_handshake_done p df m).2.
Proof. intros Hm. unfold inbound_handshake_done. peer_cases p; cbn [snd]; moved. Qed.

Lemma release_inbound_ok p now m : manager_ok m -> manager_ok (release_inbound_connection p now m).2.
Proof. intros Hm. unfold release_inbound_connection. peer_cases p; cbn [snd]; moved. Qed.

Lemma promoted_ok p m : manager_ok m -> manager_ok (promoted_to_warm_remote p m).2.
Proof. intros Hm. unfold promoted_to_warm_remote. peer_cases p; cbn [snd]; moved. Qed.

Lemma demoted_ok p now m : manager_ok m -> manager_ok (demoted_to_cold_remote p now m).2.
Proof. intros Hm. unfold demoted_to_cold_remote. peer_cases p; cbn [snd]; moved. Qed.

Lemma responder_timeout_ok p m : manager_ok m -> manager_ok (responder_timeout_expired p m).2.
Proof. intros Hm. unfold responder_timeout_expired. peer_cases p; cbn [snd]; moved. Qed.

Lemma time_wait_ok p m : manager_ok m -> manager_ok (time_wait_expired p m).2.
Proof. intros Hm. unfold time_wait_expired. peer_cases p; cbn [snd]; apply set_entry_ok; done. Qed.

Lemma remove_terminated_ok p m : manager_ok m -> manager_ok (remove_terminated p m).2.
Proof. intros Hm. unfold remove_terminated. peer_cases p; cbn [snd]. by apply remove_entry_ok. Qed.

Lemma mark_terminating_ok p reason now m : manager_ok m -> manager_ok (mark_terminating p reason now m).2.
Proof.
  intros Hm. unfold mark_terminating. peer_cases p; cbn [state_conn_id snd]; moved.
Qed.

(** ** Pruning and the tick *)

Lemma prune_turn_ok now st e : manager_ok st.1 -> manager_ok (prune_turn now st e).1.
Proof.
  destruct st as [m to_prune]. cbn [fst]. intros Hm. unfold prune_turn. destruct e as [[p id] []]; cbn [fst snd].
  - by apply remove_entry_ok.
  - destruct (bt_get p (connections m)) as [e|] eqn:E; [|done].
    destruct (state_conn_id (entry_state e)) as [cid|] eqn:Ec; [|done].
    apply set_entry_ok; [done|done|done|]. intros c [= <-].
    exact (eo_remote _ _ _ (mo_entries _ Hm _ _ E) _ Ec).
Qed.

Lemma prune_fold_ok now l : forall st, manager_ok st.1 -> manager_ok (foldl (prune_turn now) st l).1.
Proof. induction l as [|e l IH]; intros st Hm; [done|]. cbn. by apply IH, prune_turn_ok. Qed.

Lemma prune_ok needed now m : manager_ok m -> manager_ok (prune_for_inbound needed now m).2.
Proof.
  intros Hm. unfold prune_for_inbound. destruct (_ =? _); [done|].
  pose proof (prune_fold_ok now (take (Z.to_nat needed) (sort_desc prune_order (prunable_entries m))) (m, []) Hm) as Hf.
  destruct (foldl _ _ _) as [m' to_prune]. by destruct to_prune.
Qed.

Lemma accept_ok cid actions m :
  manager_ok m -> next_id m < U64_MAX -> manager_ok (accept_inbound cid actions m).2.
Proof.
  intros Hm Hn. unfold accept_inbound. cbn [next_conn_state_id connections].
  assert (Hnew : manager_ok (mkManager (connections m) (wrap64 (next_id m + 1)) (limits m))).
  { destruct Hm as [Hs Hn0 He Hi]. rewrite wrap64_id by (unfold u64; lia).
    split; cbn; [done|lia| |done]. intros q e E. eapply entry_ok_mono; [|by apply He]. lia. }
  peer_cases (cid_remote cid); cbn [snd]; try exact Hnew;
    apply (insert_entry_ok m (cid_remote cid) (UnnegotiatedState Inbound cid) Hm Hn); try done; by intros ? [= <-].
Qed.

Lemma prune_turn_next now l : forall st, next_id (foldl (prune_turn now) st l).1 = next_id st.1.
Proof.
  induction l as [|e l IH]; intros st; [done|]. cbn. rewrite IH. destruct st as [m tp]. unfold prune_turn.
  destruct e as [[p id] []]; cbn [fst snd]; [done|]. repeat case_match; done.
Qed.

Lemma prune_next needed now m : next_id (prune_for_inbound needed now m).2 = next_id m.
Proof.
  unfold prune_for_inbound. destruct (_ =? _); [done|].
  pose proof (prune_turn_next now (take (Z.to_nat needed) (sort_desc prune_order (prunable_entries m))) (m, [])) as Hf.
  destruct (foldl _ _ _) as [m' to_prune]. by destruct to_prune.
Qed.

Lemma include_ok cid now m :
  manager_ok m -> next_id m < U64_MAX -> manager_ok (include_inbound_connection cid now m).2.
Proof.
  intros Hm Hn. unfold include_inbound_connection. destruct (_ <=? _); [|by apply accept_ok].
  pose proof (prune_ok 1 now m Hm) as Hp. pose proof (prune_next 1 now m) as Hx.
  destruct (prune_for_inbound 1 now m) as [actions m']. cbn [snd] in *.
  destruct (_ <=? _); [done|]. apply accept_ok; [done|lia].
Qed.

Lemma tick_peer_ok now m p : manager_ok m -> manager_ok (tick_peer now m p).
Proof.
  intros Hm. unfold tick_peer. peer_cases p.
  - destruct (deadline_passed _ _); [|done]. by apply responder_timeout_ok.
  - destruct (deadline_passed _ _); [|done]. by apply remove_terminated_ok, time_wait_ok.
Qed.

Lemma tick_ok now m : manager_ok m -> manager_ok (timeout_tick now m).2.
Proof.
  intros Hm. unfold timeout_tick. cbn [snd].
  assert (Ht : forall l m, manager_ok m -> manager_ok (foldl (tick_peer now) m l)).
  { induction l as [|q l IH]; intros m' Hm'; [done|]. cbn. by apply IH, tick_peer_ok. }
  assert (Hr : forall l m, manager_ok m ->
    manager_ok (foldl (fun m p => set_connections m (bt_remove p (connections m))) m l)).
  { induction l as [|q l IH]; intros m' Hm'; [done|]. cbn. by apply IH, remove_entry_ok. }
  by apply Hr, Ht.
Qed.

(** ** The diagram *)

(** How an operation may move the state of a peer: not at all, along an edge, in
    two edges at once (a handshake straight from the reservation, an idle
    connection pruned and accepted again), by a failure, by an order to
    terminate, by collection, and along two edges that the diagram lacks. *)
Inductive moves (op : cm_op) (p : SocketAddr) : AbstractState -> AbstractState -> Prop :=
  | moves_stays s : moves op p s s
  | moves_edge from to : verify_abstract_transition from to = true -> moves op p from to
  | moves_two_edges from mid to :
      (exists local df, op = OpOutboundDone local p df) \/ (exists cid, op = OpInclude cid /\ cid_remote cid = p) ->
      verify_abstract_transition from mid = true -> verify_abstract_transition mid to = true -> moves op p from to
  | moves_failed from : op = OpConnectFailed p -> moves op p from TerminatedSt
  | moves_marked reason from to :
      op = OpMark p reason -> to = TerminatingSt \/ to = TerminatedSt -> moves op p from to
  | moves_collected from :
      op = OpRemove p \/ op = OpTick \/ (exists cid, op = OpInclude cid) ->
      from = TerminatedSt \/ (op = OpTick /\ from = TerminatingSt) -> moves op p from UnknownConnectionSt
  | moves_released : op = OpReleaseOutbound p -> moves op p (OutboundDupSt Ticking) (InboundIdleSt Duplex)
  | moves_awakened : op = OpPromoted p -> moves op p (OutboundIdleSt Duplex) (InboundSt Duplex).

Lemma state_set m p e st r t q :
  bt_get p (connections m) = Some e ->
  abstract_state_of (set_entry m p st r t) q
  = if decide (q = p) then abstract_state st else abstract_state_of m q.
Proof.
  intros E. unfold abstract_state_of, set_entry. cbn [connections set_connections].
  case_decide as Hq; [subst q; by rewrite bt_get_alter, E|by rewrite bt_get_alter_ne].
Qed.

Lemma state_removed m p q :
  manager_ok m ->
  abstract_state_of (set_connections m (bt_remove p (connections m))) q
  = if decide (q = p) then UnknownConnectionSt else abstract_state_of m q.
Proof.
  intros [Hs _ _ _]. unfold abstract_state_of. cbn [connections set_connections].
  case_decide as Hq; [subst q; by rewrite bt_get_remove|by rewrite bt_get_remove_ne].
Qed.

Lemma state_inserted c n l p e q :
  abstract_state_of (mkManager (bt_insert p e c) n l) q
  = if decide (q = p) then abstract_state (entry_state e) else abstract_state_of (mkManager c n l) q.
Proof.
  unfold abstract_state_of. cbn [connections].
  case_decide as Hq; [subst q; by rewrite bt_get_insert|by rewrite bt_get_insert_ne].
Qed.

Lemma state_of_get m p e : bt_get p (connections m) = Some e -> abstract_state_of m p = abstract_state (entry_state e).
Proof. intros E. unfold abstract_state_of. by rewrite E. Qed.

(** Closes a goal about the state of a peer after its entry moved. *)
Ltac diagram :=
  cbn [snd];
  first
  [ apply moves_stays
  | match goal with
    | E : bt_get ?p (connections ?m) = Some ?e, Est : entry_state ?e = _ |- moves _ ?q _ _ =>
        erewrite state_set by exact E; case_decide; [subst q|apply moves_stays];
        rewrite (state_of_get _ _ _ E), Est; cbn [abstract_state];
        first [ apply moves_edge; reflexivity
              | apply moves_two_edges with (UnnegotiatedSt Outbound); [left; eauto|reflexivity|reflexivity]
              | by apply moves_failed
              | by eapply moves_marked; eauto
              | by apply moves_released
              | by apply moves_awakened ]
    end ].

Lemma moves_acquire local p now m q :
  moves (OpAcquire local p) q (abstract_state_of m q) (abstract_state_of (acquire_outbound_connection local p now m).2 q).
Proof.
  unfold acquire_outbound_connection. peer_cases p; try diagram.
  change (moves (OpAcquire local p) q (abstract_state_of m q)
    (abstract_state_of (mkManager (bt_insert p (mkEntry (next_id m) ReservedOutboundState None None) (connections m))
       (wrap64 (next_id m + 1)) (limits m)) q)).
  rewrite state_inserted. case_decide; [subst q|apply moves_stays]. unfold abstract_state_of. rewrite E. by apply moves_edge.
Qed.

Lemma moves_outbound_done local p df now m q :
  moves (OpOutboundDone local p df) q (abstract_state_of m q)
    (abstract_state_of (outbound_handshake_done local p df now m).2 q).
Proof. unfold outbound_handshake_done. peer_cases p; destruct df; diagram. Qed.

Lemma moves_connect_failed p m q :
  moves (OpConnectFailed p) q (abstract_state_of m q) (abstract_state_of (outbound_connect_failed p m).2 q).
Proof. unfold outbound_connect_failed. peer_cases p; diagram. Qed.

Lemma moves_release_outbound p m q :
  moves (OpReleaseOutbound p) q (abstract_state_of m q) (abstract_state_of (release_outbound_connection p m).2 q).
Proof. unfold release_outbound_connection. peer_cases p; diagram. Qed.

Lemma moves_inbound_done p df m q :
  moves (OpInboundDone p df) q (abstract_state_of m q) (abstract_state_of (inbound_handshake_done p df m).2 q).
Proof. unfold inbound_handshake_done. peer_cases p; destruct df; diagram. Qed.

Lemma moves_release_inbound p now m q :
  moves (OpReleaseInbound p) q (abstract_state_of m q) (abstract_state_of (release_inbound_connection p now m).2 q).
Proof. unfold release_inbound_connection. peer_cases p; diagram. Qed.

Lemma moves_promoted p m q :
  moves (OpPromoted p) q (abstract_state_of m q) (abstract_state_of (promoted_to_warm_remote p m).2 q).
Proof. unfold promoted_to_warm_remote. peer_cases p; diagram. Qed.

Lemma moves_demoted p now m q :
  moves (OpDemoted p) q (abstract_state_of m q) (abstract_state_of (demoted_to_cold_remote p now m).2 q).
Proof. unfold demoted_to_cold_remote. peer_cases p; diagram. Qed.

Lemma moves_responder_timeout p m q :
  moves (OpResponderTimeout p) q (abstract_state_of m q) (abstract_state_of (responder_timeout_expired p m).2 q).
Proof. unfold responder_timeout_expired. peer_cases p; diagram. Qed.

Lemma moves_time_wait p m q :
  moves (OpTimeWait p) q (abstract_state_of m q) (abstract_state_of (time_wait_expired p m).2 q).
Proof. unfold time_wait_expired. peer_cases p; diagram. Qed.

Lemma moves_mark p reason now m q :
  moves (OpMark p reason) q (abstract_state_of m q) (abstract_state_of (mark_terminating p reason now m).2 q).
Proof. unfold mark_terminating. peer_cases p; cbn [state_conn_id]; diagram. Qed.

Lemma moves_remove p m q :
  manager_ok m ->
  moves (OpRemove p) q (abstract_state_of m q) (abstract_state_of (remove_terminated p m).2 q).
Proof.
  intros Hm. unfold remove_terminated. peer_cases p; try diagram. cbn [snd].
  rewrite state_removed by done. case_decide; [subst q|apply moves_stays].
  rewrite (state_of_get _ _ _ E), Est. apply moves_collected; auto.
Qed.

(** A candidate of the pruning is an idle inbound or a terminated entry. *)
Lemma prunable_spec m e :
  manager_ok m -> e ∈ prunable_entries m ->
  exists entry, bt_get e.1.1 (connections m) = Some entry /\ conn_state_id entry = e.1.2
    /\ (e.2 = false /\ (exists cid df, entry_state entry = InboundIdleState cid df)
        \/ e.2 = true /\ exists error, entry_state entry = TerminatedState error).
Proof.
  intros Hm He. unfold prunable_entries in He. apply list_elem_of_omap in He as ([p entry] & Hin & He).
  cbn in He. exists entry. apply bt_elem_get in Hin; [|by apply Hm].
  destruct (entry_state entry) eqn:Est; try done; injection He as <-; cbn; (split; [done|split; [done|]]); eauto 6.
Qed.

(** The first candidate in the order of the pruning, if there is one. *)
Lemma first_prunable m :
  take 1 (sort_desc prune_order (prunable_entries m)) = []
  \/ exists e, take 1 (sort_desc prune_order (prunable_entries m)) = [e] /\ e ∈ prunable_entries m
       /\ forall f, f ∈ prunable_entries m -> prune_order f <= prune_order e.
Proof.
  pose proof (sort_desc_perm prune_order (prunable_entries m)) as Hp.
  pose proof (sort_desc_sorted prune_order (prunable_entries m)) as Hs.
  destruct (sort_desc prune_order (prunable_entries m)) as [|e l]; [by left|]. right. exists e.
  split; [done|]. split; [rewrite <- Hp; set_solver|].
  intros f Hf. rewrite <- Hp in Hf. apply StronglySorted_inv in Hs as [_ Hs].
  apply elem_of_cons in Hf as [->|Hf]; [lia|]. rewrite Forall_forall in Hs. by apply Hs.
Qed.

(** What pruning one entry does. *)
Lemma prune_one now m :
  manager_ok m ->
  (prune_for_inbound 1 now m).2 = m
  \/ (exists p entry cid df, bt_get p (connections m) = Some entry /\ entry_state entry = InboundIdleState cid df
        /\ (forall f, f ∈ prunable_entries m -> f.2 = false)
        /\ prune_for_inbound 1 now m
           = ([PruneConnections [p]],
              set_entry m p (TerminatingState cid (Some "pruned for inbound capacity"%string)) None
                (Some (now + TIME_WAIT_TIMEOUT))))
  \/ (exists p entry error, bt_get p (connections m) = Some entry /\ entry_state entry = TerminatedState error
        /\ prune_for_inbound 1 now m = ([], set_connections m (bt_remove p (connections m)))).
Proof.
  intros Hm. unfold prune_for_inbound. change (1 =? 0) with false. cbv iota.
  change (Z.to_nat 1) with 1%nat.
  destruct (first_prunable m) as [->|(e & -> & He & Hmax)]; [by left|]. right. cbn [foldl].
  destruct (prunable_spec m e Hm He) as (entry & E & Hid & Hk). destruct e as [[p id] t]. cbn [fst snd] in *.
  destruct Hk as [[-> (cid & df & Est)]|[-> (error & Est)]].
  - left. exists p, entry, cid, df. split; [done|]. split; [done|]. split.
    + intros [[q id'] []] Hf; [|done]. exfalso. specialize (Hmax _ Hf). unfold prune_order in Hmax. cbn in Hmax.
      destruct (prunable_spec m _ Hm Hf) as (entry' & E' & Hid' & _). cbn in E', Hid'.
      pose proof (eo_id _ _ _ (mo_entries _ Hm _ _ E)). pose proof (eo_id _ _ _ (mo_entries _ Hm _ _ E')).
      pose proof (mo_next _ Hm). unfold U64_MAX in *. lia.
    + cbn [prune_turn fst snd]. rewrite E, Est. done.
  - right. exists p, entry, error. done.
Qed.

Lemma moves_prune now m q :
  manager_ok m ->
  let m' := (prune_for_inbound 1 now m).2 in
  abstract_state_of m' q = abstract_state_of m q
  \/ (exists df, abstract_state_of m q = InboundIdleSt df) /\ abstract_state_of m' q = TerminatingSt
  \/ abstract_state_of m q = TerminatedSt /\ abstract_state_of m' q = UnknownConnectionSt.
Proof.
  intros Hm. cbv zeta.
  destruct (prune_one now m Hm) as [->|[(p & e & cid & df & E & Est & _ & ->)|(p & e & er & E & Est & ->)]];
    [by left|..]; cbn [snd].
  - erewrite state_set by exact E. case_decide; [subst q|by left]. right. left.
    rewrite (state_of_get _ _ _ E), Est. eauto.
  - rewrite state_removed by done. case_decide; [subst q|by left]. right. right.
    by rewrite (state_of_get _ _ _ E), Est.
Qed.

Lemma state_accepted cid actions m q :
  let m' := (accept_inbound cid actions m).2 in
  abstract_state_of m' q = abstract_state_of m q
  \/ q = cid_remote cid /\ abstract_state_of m' q = UnnegotiatedSt Inbound
     /\ abstract_state_of m q ∈ [UnknownConnectionSt; ReservedOutboundSt; UnnegotiatedSt Inbound;
                                  UnnegotiatedSt Outbound; TerminatingSt; TerminatedSt].
Proof.
  cbv zeta. unfold accept_inbound. cbn [next_conn_state_id connections].
  set (m1 := mkManager _ _ _). change (abstract_state_of m q) with (abstract_state_of m1 q).
  change (connections m) with (connections m1).
  destruct (bt_get (cid_remote cid) (connections m1)) as [e|] eqn:E; cbn [fmap option_fmap option_map];
    [destruct (entry_state e) as [|[] ?|?|? []|? []|? []|? []|?|? ?|?] eqn:Est|]; cbn [snd]; try (by left);
    (destruct (decide (q = cid_remote cid)) as [->|Hq];
      [right; split; [done|]; unfold abstract_state_of; cbn [set_connections connections];
       rewrite bt_get_insert, E, ?Est; split; [done|]; cbn; set_solver
      |left; unfold abstract_state_of; cbn [set_connections connections]; by rewrite bt_get_insert_ne]).
Qed.

Lemma moves_include cid now m q :
  manager_ok m ->
  moves (OpInclude cid) q (abstract_state_of m q) (abstract_state_of (include_inbound_connection cid now m).2 q).
Proof.
  intros Hm. unfold include_inbound_connection.
  assert (Hacc : forall actions m', abstract_state_of m' q = abstract_state_of m q ->
    moves (OpInclude cid) q (abstract_state_of m q) (abstract_state_of (accept_inbound cid actions m').2 q)).
  { intros actions m' Hs. destruct (state_accepted cid actions m' q) as [->|(-> & -> & Hin)].
    - rewrite Hs. apply moves_stays.
    - rewrite Hs in Hin. rewrite !elem_of_cons in Hin.
      destruct Hin as [->|[->|[->|[->|[->|[->|Hin]]]]]]; try (by apply moves_edge); [apply moves_stays|set_solver]. }
  destruct (_ <=? _); [|by apply Hacc].
  pose proof (moves_prune now m q Hm) as Hp. destruct (prune_for_inbound 1 now m) as [actions m']. cbn [snd] in *.
  destruct Hp as [Hs|[[(df & Hi) Ht]|[Ht Hu]]].
  - destruct (_ <=? _); [|by apply Hacc]. cbn [snd]. rewrite Hs. apply moves_stays.
  - rewrite Hi. destruct (_ <=? _); [cbn [snd]; rewrite Ht; apply moves_edge; by destruct df|].
    destruct (state_accepted cid actions m' q) as [->|(-> & -> & _)].
    + rewrite Ht. apply moves_edge. by destruct df.
    + apply moves_two_edges with TerminatingSt; [right; eauto|by destruct df|done].
  - rewrite Ht. destruct (_ <=? _).
    + cbn [snd]. rewrite Hu. apply moves_collected; eauto.
    + destruct (state_accepted cid actions m' q) as [->|(-> & -> & _)].
      * rewrite Hu. apply moves_collected; eauto.
      * by apply moves_edge.
Qed.

(** ** The tick *)

(** What the tick makes of an entry, before the terminated ones are collected. *)
Definition tick_entry (now : Z) (e : ConnectionEntry) : option ConnectionEntry :=
  match entry_state e with
  | OutboundDupState cid Ticking =>
      Some (if deadline_passed now (responder_timeout_deadline e)
            then mkEntry (conn_state_id e) (OutboundDupState cid Expired) None None else e)
  | TerminatingState _ _ => if deadline_passed now (time_wait_deadline e) then None else Some e
  | _ => Some e
  end.

Lemma tick_peer_get now m p q :
  manager_ok m ->
  bt_get q (connections (tick_peer now m p))
  = if decide (q = p) then bt_get p (connections m) ≫= tick_entry now else bt_get q (connections m).
Proof.
  intros Hm. unfold tick_peer.
  destruct (bt_get p (connections m)) as [e|] eqn:E.
  2: { case_decide; [by subst q; rewrite E|done]. }
  cbn [mbind option_bind]. unfold tick_entry.
  destruct (entry_state e) as [|[] ?|?|? []|? []|? []|? []|?|? ?|?] eqn:Est;
    try (case_decide; [by subst q; rewrite E|done]).
  - destruct (deadline_passed _ _); [|case_decide; [by subst q; rewrite E|done]].
    unfold responder_timeout_expired. rewrite E. cbn [fmap option_fmap option_map]. rewrite Est.
    cbn [snd set_entry set_connections connections].
    case_decide; [subst q; by rewrite bt_get_alter, E|by rewrite bt_get_alter_ne].
  - destruct (deadline_passed _ _); [|case_decide; [by subst q; rewrite E|done]].
    pose proof (time_wait_ok p m Hm) as Ht. unfold time_wait_expired in *. rewrite E in *.
    cbn [fmap option_fmap option_map] in *. rewrite Est in *. cbn [snd] in *.
    unfold remove_terminated. cbn [set_entry set_connections connections]. rewrite bt_get_alter, E.
    cbn [fmap option_fmap option_map entry_state snd set_connections connections].
    case_decide as Hq; [subst q; apply bt_get_remove, (mo_sorted _ Ht)|].
    rewrite bt_get_remove_ne, bt_get_alter_ne by done. done.
Qed.

Lemma tick_fold_get now l : forall m q,
  manager_ok m -> NoDup l ->
  manager_ok (foldl (tick_peer now) m l)
  /\ bt_get q (connections (foldl (tick_peer now) m l))
     = if decide (q ∈ l) then bt_get q (connections m) ≫= tick_entry now else bt_get q (connections m).
Proof.
  induction l as [|p l IH]; intros m q Hm Hl; cbn [foldl].
  - split; [done|]. rewrite decide_False by set_solver. done.
  - apply NoDup_cons in Hl as [Hp Hl].
    destruct (IH (tick_peer now m p) q (tick_peer_ok now m p Hm) Hl) as [Hok ->]. split; [done|].
    rewrite tick_peer_get by done. destruct (decide (q = p)) as [->|Hne].
    + rewrite decide_False, decide_True by set_solver. done.
    + destruct (decide (q ∈ l)); [rewrite decide_True by set_solver|rewrite decide_False by set_solver]; done.
Qed.

Lemma keys_nodup m : manager_ok m -> NoDup (bt_keys (connections m)).
Proof.
  intros [Hs _ _ _]. apply bt_sorted_keys in Hs. induction Hs as [|k l Hs IH Hk]; constructor; [|done].
  intros Hin. rewrite Forall_forall in Hk. exact (key_lt_irrefl _ (Hk _ Hin)).
Qed.

Lemma get_key m p e : bt_get p (connections m) = Some e -> p ∈ bt_keys (connections m).
Proof. intros E%bt_get_elem. unfold bt_keys. apply list_elem_of_fmap. by exists (p, e). Qed.

Lemma remove_fold_get l : forall m q,
  manager_ok m ->
  bt_get q (connections (foldl (fun m p => set_connections m (bt_remove p (connections m))) m l))
  = if decide (q ∈ l) then None else bt_get q (connections m).
Proof.
  induction l as [|p l IH]; intros m q Hm; cbn [foldl]; [by rewrite decide_False by set_solver|].
  rewrite IH by (by apply remove_entry_ok). cbn [set_connections connections].
  destruct (decide (q = p)) as [->|Hne].
  - rewrite bt_get_remove by apply Hm. rewrite (decide_True (P := p ∈ p :: l)) by set_solver. by case_decide.
  - rewrite bt_get_remove_ne by done.
    destruct (decide (q ∈ l)); [rewrite decide_True by set_solver|rewrite decide_False by set_solver]; done.
Qed.

(** The state of a peer after the tick. *)
Definition tick_state (now : Z) (e : ConnectionEntry) : AbstractState :=
  match entry_state e with
  | OutboundDupState _ Ticking =>
      OutboundDupSt (if deadline_passed now (responder_timeout_deadline e) then Expired else Ticking)
  | TerminatingState _ _ =>
      if deadline_passed now (time_wait_deadline e) then UnknownConnectionSt else TerminatingSt
  | TerminatedState _ => UnknownConnectionSt
  | s => abstract_state s
  end.

Lemma tick_state_of now m p :
  manager_ok m ->
  abstract_state_of (timeout_tick now m).2 p
  = match bt_get p (connections m) with Some e => tick_state now e | None => UnknownConnectionSt end.
Proof.
  intros Hm. unfold timeout_tick. cbn [snd].
  set (m1 := foldl (tick_peer now) m (bt_keys (connections m))).
  destruct (tick_fold_get now (bt_keys (connections m)) m p Hm (keys_nodup m Hm)) as [Hm1 Hg]. fold m1 in Hm1, Hg.
  assert (Hget : bt_get p (connections m1) = bt_get p (connections m) ≫= tick_entry now).
  { rewrite Hg. destruct (bt_get p (connections m)) as [e|] eqn:E; [|by case_decide].
    rewrite decide_True by (by eapply get_key). done. }
  unfold abstract_state_of. rewrite remove_fold_get by done.
  set (terminated := fst <$> _).
  assert (Hin : p ∈ terminated <-> exists e er, bt_get p (connections m1) = Some e /\ entry_state e = TerminatedState er).
  { unfold terminated. rewrite list_elem_of_fmap. split.
    - intros ([q e] & -> & He). rewrite list_elem_of_In, List.filter_In in He. destruct He as [He Ht].
      rewrite <- list_elem_of_In in He. apply bt_elem_get in He; [|by apply Hm1]. cbn in *.
      destruct (entry_state e) eqn:Es; try done. eauto.
    - intros (e & er & He & Es). exists (p, e). split; [done|]. rewrite list_elem_of_In, List.filter_In.
      rewrite <- list_elem_of_In. split; [by apply bt_get_elem|]. cbn. by rewrite Es. }
  rewrite Hget in *. destruct (bt_get p (connections m)) as [e|] eqn:E; cbn [mbind option_bind] in *.
  2: { destruct (decide (p ∈ terminated)); done. }
  clear Hg Hget. destruct (decide (p ∈ terminated)) as [Hi|Hi].
  - apply Hin in Hi as (e0 & er & He0 & Es). unfold tick_entry in He0. unfold tick_state.
    destruct (entry_state e) as [|[] ?|?|? []|? []|? []|? []|?|? ?|?] eqn:Est; try (injection He0 as <-; congruence);
      try done; destruct (deadline_passed _ _); try done; injection He0 as <-; cbn in Es; congruence.
  - assert (Hn : forall e0 er, tick_entry now e = Some e0 -> entry_state e0 <> TerminatedState er) by naive_solver.
    clear Hin Hi. unfold tick_entry, tick_state in *.
    destruct (entry_state e) as [|[] ?|?|? []|? []|? []|? []|?|? ?|er] eqn:Est; rewrite ?Est; try done;
      try (destruct (deadline_passed _ _); cbn; rewrite ?Est; done).
    by destruct (Hn e er).
Qed.

Lemma moves_tick now m q :
  manager_ok m -> moves OpTick q (abstract_state_of m q) (abstract_state_of (timeout_tick now m).2 q).
Proof.
  intros Hm. rewrite tick_state_of by done. unfold abstract_state_of.
  destruct (bt_get q (connections m)) as [e|]; [|apply moves_stays]. unfold tick_state.
  destruct (entry_state e) as [|[] ?|?|? []|? []|? []|? []|?|? ?|?]; try apply moves_stays.
  - destruct (deadline_passed _ _); [by apply moves_edge|apply moves_stays].
  - destruct (deadline_passed _ _); [|apply moves_stays]. apply moves_collected; auto.
  - apply moves_collected; auto.
Qed.

Lemma apply_ok op now m : manager_ok m -> next_id m < U64_MAX -> manager_ok (cm_apply op now m).
Proof.
  intros Hm Hn. destruct op; cbn [cm_apply];
    auto using acquire_ok, outbound_done_ok, connect_failed_ok, release_outbound_ok, include_ok, inbound_done_ok,
      release_inbound_ok, promoted_ok, demoted_ok, responder_timeout_ok, time_wait_ok, remove_terminated_ok,
      mark_terminating_ok, tick_ok.
Qed.

(** ** The theorems *)

(** Identifiers grow by at most one per operation. *)
Lemma tick_next now m : next_id (timeout_tick now m).2 = next_id m.
Proof.
  unfold timeout_tick. cbn [snd].
  assert (Hr : forall l m, next_id (foldl (fun m p => set_connections m (bt_remove p (connections m))) m l) = next_id m).
  { induction l as [|q l IH]; intros m'; [done|]. cbn. by rewrite IH. }
  assert (Ht : forall l m, next_id (foldl (tick_peer now) m l) = next_id m).
  { induction l as [|q l IH]; intros m'; [done|]. cbn. rewrite IH. unfold tick_peer, responder_timeout_expired,
      remove_terminated, time_wait_expired. repeat case_match; done. }
  by rewrite Hr, Ht.
Qed.

Lemma apply_next op now m :
  manager_ok m -> next_id m < U64_MAX -> next_id m <= next_id (cm_apply op now m) <= next_id m + 1.
Proof.
  intros Hm Hn. pose proof (mo_next _ Hm) as H0.
  assert (Hw : wrap64 (next_id m + 1) = next_id m + 1) by (apply wrap64_id; unfold u64; lia).
  assert (Hacc : forall cid actions m', next_id m' = next_id m ->
    next_id m <= next_id (accept_inbound cid actions m').2 <= next_id m + 1).
  { intros cid actions m' He. unfold accept_inbound. cbn [next_conn_state_id]. rewrite He, Hw.
    repeat case_match; cbn; lia. }
  destruct op; cbn [cm_apply].
  1: { unfold acquire_outbound_connection, next_conn_state_id. repeat case_match; simplify_eq; cbn; lia. }
  4: { unfold include_inbound_connection. destruct (_ <=? _); [|by apply Hacc].
       pose proof (prune_next 1 now m). destruct (prune_for_inbound 1 now m) as [? m']. cbn [snd] in *.
       destruct (_ <=? _); [cbn; lia|by apply Hacc]. }
  all: try (rewrite tick_next; lia).
  all: unfold outbound_handshake_done, outbound_connect_failed, release_outbound_connection, inbound_handshake_done,
    release_inbound_connection, promoted_to_warm_remote, demoted_to_cold_remote, responder_timeout_expired,
    time_wait_expired, remove_terminated, mark_terminating; repeat case_match; cbn; lia.
Qed.

Lemma run_ok ops : forall m,
  manager_ok m -> next_id m + zlength ops <= U64_MAX ->
  manager_ok (cm_run ops m) /\ next_id (cm_run ops m) <= next_id m + zlength ops.
Proof.
  induction ops as [|[op now] ops IH]; intros m Hm Hn; cbn [cm_run]; [split; [done|unfold zlength; cbn; lia]|].
  change (zlength ((op, now) :: ops)) with (Z.of_nat (S (length ops))) in *.
  pose proof (apply_ok op now m Hm ltac:(lia)) as Hm1. pose proof (apply_next op now m Hm ltac:(lia)) as Hx.
  destruct (IH _ Hm1) as [? ?]; [unfold zlength; lia|]. split; [done|]. unfold zlength in *. lia.
Qed.

Lemma reached_ok ops l : zlength ops <= U64_MAX -> manager_ok (cm_run ops (with_limits l)).
Proof.
  intros Hn. apply run_ok; [|cbn; lia].
  split; cbn; [by constructor|unfold U64_MAX; lia|done|done].
Qed.

(** C20: in every state the connection manager reaches, a connection is filed
    under the peer it leads to, a responder deadline runs exactly while the
    remote side of a duplex connection is awaited, a time-wait deadline exactly
    while a connection terminates, and the identifiers of the entries differ. *)
Theorem manager_invariant (ops : list (cm_op * Z)) (l : AcceptedConnectionsLimit) :
  zlength ops <= U64_MAX -> manager_ok (cm_run ops (with_limits l)).
Proof. apply reached_ok. Qed.

(** C21: the connection manager follows its state diagram: whatever it has done
    before, an operation moves the state of a peer along an edge of the diagram
    that [verify_abstract_transition] checks, or along two at once for a
    handshake and for a pruned peer that connects again, or it tears the
    connection down; the only further moves are the release of an outbound
    duplex connection whose remote side may still start, and the awakening of an
    idle outbound one. *)
Theorem manager_follows_diagram (ops : list (cm_op * Z)) (l : AcceptedConnectionsLimit) (op : cm_op) (now : Z)
    (p : SocketAddr) :
  zlength ops < U64_MAX ->
  let m := cm_run ops (with_limits l) in
  moves op p (abstract_state_of m p) (abstract_state_of (cm_apply op now m) p).
Proof.
  intros Hn m.
  assert (Hm : manager_ok m) by (apply reached_ok; lia).
  destruct op; cbn [cm_apply]; auto using moves_acquire, moves_outbound_done, moves_connect_failed,
    moves_release_outbound, moves_include, moves_inbound_done, moves_release_inbound, moves_promoted, moves_demoted,
    moves_responder_timeout, moves_time_wait, moves_remove, moves_mark, moves_tick.
Qed.

(** C37: the periodic tick does what the deadlines ask and nothing else: a
    responder deadline that has passed expires its connection, a time-wait
    deadline that has passed frees the peer, terminated entries go, and every
    other peer keeps its state. So when all deadlines have passed no connection
    is awaited, terminating or terminated. *)
Theorem tick_settles (ops : list (cm_op * Z)) (l : AcceptedConnectionsLimit) (now : Z) (p : SocketAddr) :
  zlength ops <= U64_MAX ->
  let m := cm_run ops (with_limits l) in
  abstract_state_of (timeout_tick now m).2 p
    = match bt_get p (connections m) with Some e => tick_state now e | None => UnknownConnectionSt end
  /\ ((forall e d, bt_get p (connections m) = Some e ->
         responder_timeout_deadline e = Some d \/ time_wait_deadline e = Some d -> d <= now) ->
      abstract_state_of (timeout_tick now m).2 p ∉ [OutboundDupSt Ticking; TerminatingSt; TerminatedSt]).
Proof.
  intros Hn m.
  assert (Hm : manager_ok m) by (apply reached_ok; lia).
  rewrite tick_state_of by done. split; [done|]. intros Hd.
  destruct (bt_get p (connections m)) as [e|] eqn:E; [|set_solver].
  pose proof (mo_entries _ Hm _ _ E) as [Hr Ht _ _]. unfold tick_state.
  assert (Hpass : forall o, (forall d, o = Some d -> d <= now) -> bool_decide (is_Some o) = true -> deadline_passed now o = true).
  { intros [d|] Ho Hb; [|done]. apply Z.leb_le. auto. }
  destruct (entry_state e) as [|[] ?|?|? []|? []|? []|? []|?|? ?|?]; try set_solver.
  - rewrite Hpass; [set_solver| |done]. intros d Hd'. eapply Hd; eauto.
  - rewrite Hpass; [set_solver| |done]. intros d Hd'. eapply Hd; eauto.
Qed.

(** ** The limit on inbound connections *)

Lemma count_without m p e :
  bt_get p (connections m) = Some e -> is_inbound_conn (abstract_state (entry_state e)) = false ->
  inbound_connection_count (set_connections m (bt_remove p (connections m))) = inbound_connection_count m.
Proof.
  unfold inbound_connection_count. cbn [set_connections connections]. intros E Hi. do 2 f_equal.
  induction (connections m) as [|[k v] c IH]; [done|]. cbn [bt_get] in E. cbn [bt_remove].
  unfold bt_values in *. destruct (key_eqb p k); cbn [fmap list_fmap List.filter snd].
  - injection E as ->. by rewrite Hi.
  - specialize (IH E). cbn [fmap] in IH. by rewrite IH.
Qed.

(** The limit on inbound connections is neither kept nor made room for as
    documented. At the limit, one terminated entry is enough for an accept to be
    refused although idle connections could be pruned; an accept that fails
    because the peer is already connected still terminates an idle connection,
    without the order to close it; and connections accepted below the limit
    exceed it once their handshakes complete. *)
Theorem inbound_limit_gaps :
  (forall ops l cid now p e error,
     zlength ops <= U64_MAX ->
     let m := cm_run ops (with_limits l) in
     bt_get p (connections m) = Some e -> entry_state e = TerminatedState error ->
     hard_limit (limits m) <= inbound_connection_count m ->
     (include_inbound_connection cid now m).1 = Err (ForbiddenOperation (cid_remote cid) UnknownConnectionSt))
  /\ (exists ops l cid now idle,
       let m := cm_run ops (with_limits l) in
       abstract_state_of m idle = InboundIdleSt Duplex
       /\ (include_inbound_connection cid now m).1 = Err (ConnectionExists Inbound (cid_remote cid))
       /\ abstract_state_of (include_inbound_connection cid now m).2 idle = TerminatingSt)
  /\ (exists ops l, hard_limit l < inbound_connection_count (cm_run ops (with_limits l))
        /\ Forall (fun o => match o.1 with OpInclude _ | OpInboundDone _ _ => True | _ => False end) ops).
Proof.
  set (a := V4 [10; 0; 0; 1] 3001). set (b := V4 [10; 0; 0; 2] 3001). set (us := V4 [10; 0; 0; 9] 3001).
  split_and!.
  - intros ops l cid now p e error Hn m E Est Hl.
    assert (Hm : manager_ok m) by (apply reached_ok; lia).
    assert (Hin : (p, conn_state_id e, true) ∈ prunable_entries m).
    { unfold prunable_entries. apply list_elem_of_omap. exists (p, e). split; [by apply bt_get_elem|].
      cbn. by rewrite Est. }
    unfold include_inbound_connection. rewrite (proj2 (Z.leb_le _ _)) by done.
    destruct (prune_one now m Hm) as [Hsame|[(? & ? & ? & ? & _ & _ & Hidle & _)|(q & f & er & F & Fst & ->)]].
    + destruct (prune_for_inbound 1 now m) as [actions m']. cbn [snd] in Hsame. subst m'.
      by rewrite (proj2 (Z.leb_le _ _)) by done.
    + by specialize (Hidle _ Hin).
    + rewrite (count_without m q f F) by (by rewrite Fst). cbn [set_connections limits].
      by rewrite (proj2 (Z.leb_le _ _)) by done.
  - exists [(OpInclude (mkConnectionId us a), 0); (OpInboundDone a Duplex, 0);
            (OpInclude (mkConnectionId us b), 0); (OpInboundDone b Duplex, 0); (OpPromoted b, 0)],
      (mkLimit 2 1 5000), (mkConnectionId us b), 10, a.
    vm_compute. done.
  - exists [(OpInclude (mkConnectionId us a), 0); (OpInclude (mkConnectionId us b), 0);
            (OpInboundDone a Duplex, 0); (OpInboundDone b Duplex, 0)], (mkLimit 1 1 5000).
    split; [vm_compute; done|]. repeat constructor.
Qed.

(** ** A session *)

Definition sample_us : SocketAddr := V4 [10; 0; 0; 9] 3001.
Definition sample_peer : SocketAddr := V4 [10; 0; 0; 1] 3001.

(** A peer is connected to, its responder times out, the connection is given up. *)
Definition sample_ops : list (cm_op * Z) :=
  [(OpAcquire sample_us sample_peer, 0); (OpOutboundDone sample_us sample_peer Duplex, 100)].

Lemma manager_invariant_witness :
  manager_ok (cm_run sample_ops manager_new)
  /\ abstract_state_of (cm_run sample_ops manager_new) sample_peer = OutboundDupSt Ticking.
Proof.
  split; [|vm_compute; reflexivity]. exact (manager_invariant sample_ops default_limit ltac:(done)).
Defined.

(** Releasing it now takes the edge that the diagram lacks. *)
Lemma manager_follows_diagram_witness :
  let m := cm_run sample_ops manager_new in
  moves (OpReleaseOutbound sample_peer) sample_peer (OutboundDupSt Ticking) (InboundIdleSt Duplex)
  /\ abstract_state_of (cm_apply (OpReleaseOutbound sample_peer) 200 m) sample_peer = InboundIdleSt Duplex
  /\ verify_abstract_transition (OutboundDupSt Ticking) (InboundIdleSt Duplex) = false.
Proof.
  split; [|vm_compute; auto].
  exact (manager_follows_diagram sample_ops default_limit (OpReleaseOutbound sample_peer) 200 sample_peer ltac:(done)).
Defined.

Lemma tick_settles_witness :
  let m := cm_run sample_ops manager_new in
  abstract_state_of (timeout_tick 5100 m).2 sample_peer = OutboundDupSt Expired
  /\ abstract_state_of (timeout_tick 5099 m).2 sample_peer = OutboundDupSt Ticking.
Proof.
  destruct (tick_settles sample_ops default_limit 5100 sample_peer ltac:(done)) as [H1 _].
  destruct (tick_settles sample_ops default_limit 5099 sample_peer ltac:(done)) as [H2 _].
  split; [etransitivity; [exact H1|]; vm_compute; reflexivity|].
  etransitivity; [exact H2|]. vm_compute. reflexivity.
Defined.
