(* ===== verification/TxState.v ===== *)
(** Fetching transactions from many peers: the shared record of what is known
    and what is being fetched from whom ([consensus/src/mempool/tx_state]), and
    one round of the transaction-submission server on top of it, with its
    budgets and its acknowledgements ([node/ntn-server/src/lib.rs]).

    Peers are any countable type of addresses. The hash maps are finite maps;
    no operation depends on the order in which they are traversed. *)

From S2P Require Import Prelude Types.

Local Open Scope Z_scope.

Section State.
Context {Peer : Type} `{Countable Peer}.

Record PeerTxState := mkPeerTx {
  unacknowledged : gset TxId;
  in_flight : gset TxId;
  in_flight_sizes : gmap TxId Z;
  inflight_bytes : Z }.

Definition PeerTxState_new : PeerTxState := mkPeerTx ∅ ∅ ∅ 0.

Record FilterOutcome := mkFilter { to_fetch : list TxId; already_known : list TxId }.

Record TxState := mkTxState {
  known : gset TxId;
  known_order : list TxId;
  known_capacity : Z;
  global_in_flight : gset TxId;
  inflight_bytes_total : Z;
  tx_peers : gmap Peer PeerTxState }.

Definition DEFAULT_KNOWN_CAPACITY : Z := 16384.

Definition TxState_new (capacity : Z) : TxState := mkTxState ∅ [] capacity ∅ 0 ∅.

Definition set_tx_peers (s : TxState) (peers : gmap Peer PeerTxState) : TxState :=
  mkTxState (known s) (known_order s) (known_capacity s) (global_in_flight s) (inflight_bytes_total s) peers.
Definition set_flight (s : TxState) (global : gset TxId) (total : Z) (peers : gmap Peer PeerTxState) : TxState :=
  mkTxState (known s) (known_order s) (known_capacity s) global total peers.

Definition register_peer (addr : Peer) (s : TxState) : TxState :=
  match tx_peers s !! addr with
  | Some _ => s
  | None => set_tx_peers s (<[addr := PeerTxState_new]> (tx_peers s))
  end.

Definition unregister_peer (addr : Peer) (s : TxState) : TxState :=
  match tx_peers s !! addr with
  | Some state =>
      set_flight s (global_in_flight s ∖ in_flight state)
        (sat_sub (inflight_bytes_total s) (inflight_bytes state)) (delete addr (tx_peers s))
  | None => s
  end.

(** One advertised identifier: the peer's state and the two result lists. *)
Definition filter_turn (s : TxState) (st : PeerTxState * list TxId * list TxId) (txid : TxId)
    : PeerTxState * list TxId * list TxId :=
  let '(peer_state, fetch, seen) := st in
  if bool_decide (txid ∈ known s) || bool_decide (txid ∈ global_in_flight s) then
    (peer_state, fetch, seen ++ [txid])
  else
    (mkPeerTx ({[txid]} ∪ unacknowledged peer_state) (in_flight peer_state) (in_flight_sizes peer_state)
       (inflight_bytes peer_state), fetch ++ [txid], seen).

Definition filter_advertised (peer : Peer) (txids : list TxId) (s : TxState) : FilterOutcome * TxState :=
  let peer_state := default PeerTxState_new (tx_peers s !! peer) in
  let '(peer_state, fetch, seen) := foldl (filter_turn s) (peer_state, [], []) txids in
  (mkFilter fetch seen, set_tx_peers s (<[peer := peer_state]> (tx_peers s))).

Definition mark_in_flight (peer : Peer) (txids : list TxId) (s : TxState) : TxState :=
  match tx_peers s !! peer with
  | Some ps =>
      let ps' := mkPeerTx (unacknowledged ps) (list_to_set txids ∪ in_flight ps) (in_flight_sizes ps)
                   (inflight_bytes ps) in
      set_flight s (list_to_set txids ∪ global_in_flight s) (inflight_bytes_total s)
        (<[peer := ps']> (tx_peers s))
  | None => s
  end.

Definition mark_sized_turn (st : PeerTxState * gset TxId * Z) (e : TxId * Z) : PeerTxState * gset TxId * Z :=
  let '(ps, global, total) := st in
  let '(txid, size) := e in
  if bool_decide (txid ∈ in_flight ps) then (ps, global, total)
  else
    (mkPeerTx (unacknowledged ps) ({[txid]} ∪ in_flight ps) (<[txid := size]> (in_flight_sizes ps))
       (sat_add (inflight_bytes ps) size),
     {[txid]} ∪ global, sat_add total size).

Definition mark_in_flight_sized (peer : Peer) (sized_txids : list (TxId * Z)) (s : TxState) : TxState :=
  match tx_peers s !! peer with
  | Some ps =>
      let '(ps, global, total) :=
        foldl mark_sized_turn (ps, global_in_flight s, inflight_bytes_total s) sized_txids in
      set_flight s global total (<[peer := ps]> (tx_peers s))
  | None => s
  end.

(** The end of one fetch on the peer's side and in the byte counts. *)
Definition release_turn (st : PeerTxState * Z) (txid : TxId) : PeerTxState * Z :=
  let '(ps, total) := st in
  if bool_decide (txid ∈ in_flight ps) then
    match in_flight_sizes ps !! txid with
    | Some size =>
        (mkPeerTx (unacknowledged ps ∖ {[txid]}) (in_flight ps ∖ {[txid]}) (delete txid (in_flight_sizes ps))
           (sat_sub (inflight_bytes ps) size), sat_sub total size)
    | None =>
        (mkPeerTx (unacknowledged ps ∖ {[txid]}) (in_flight ps ∖ {[txid]}) (in_flight_sizes ps)
           (inflight_bytes ps), total)
    end
  else
    (mkPeerTx (unacknowledged ps ∖ {[txid]}) (in_flight ps) (in_flight_sizes ps) (inflight_bytes ps), total).

Definition release_peer (txids : list TxId) (s : TxState) (peer : Peer) : TxState :=
  match tx_peers s !! peer with
  | Some ps =>
      let '(ps, total) := foldl release_turn (ps, inflight_bytes_total s) txids in
      set_flight s (global_in_flight s) total (<[peer := ps]> (tx_peers s))
  | None => s
  end.

Definition mark_not_found (peer : Peer) (txids : list TxId) (s : TxState) : TxState :=
  match tx_peers s !! peer with
  | Some _ =>
      let s := release_peer txids s peer in
      set_flight s (global_in_flight s ∖ list_to_set txids) (inflight_bytes_total s) (tx_peers s)
  | None => s
  end.

(** The eviction loop: it turns for ever when the queue is empty and the set is
    over capacity. *)
Definition evict_turn (capacity : Z) (st : gset TxId * list TxId)
    : outcome Empty_set ((gset TxId * list TxId) + (gset TxId * list TxId)) :=
  let '(k, order) := st in
  if capacity <? Z.of_nat (size k) then
    match order with
    | old :: order => Ok (inl (k ∖ {[old]}, order))
    | [] => Ok (inl (k, []))
    end
  else Ok (inr (k, order)).

Definition insert_known (txid : TxId) (s : TxState) : outcome Empty_set TxState :=
  if bool_decide (txid ∈ known s) then Ok s
  else
    let order := known_order s ++ [txid] in
    let? (k, order) :=
      loopM (S (S (length order))) (evict_turn (known_capacity s)) ({[txid]} ∪ known s, order) in
    Ok (mkTxState k order (known_capacity s) (global_in_flight s) (inflight_bytes_total s) (tx_peers s)).

Fixpoint insert_all_known (txids : list TxId) (s : TxState) : outcome Empty_set TxState :=
  match txids with
  | [] => Ok s
  | txid :: txids => let? s := insert_known txid s in insert_all_known txids s
  end.

Definition mark_received (peer : Peer) (txids : list TxId) (s : TxState) : outcome Empty_set TxState :=
  insert_all_known txids (mark_not_found peer txids s).

Definition mark_confirmed (txids : list TxId) (s : TxState) : outcome Empty_set TxState :=
  let? s :=
    insert_all_known txids
      (set_flight s (global_in_flight s ∖ list_to_set txids) (inflight_bytes_total s) (tx_peers s)) in
  Ok (foldl (release_peer txids) s (fst <$> map_to_list (tx_peers s))).

Definition peer_inflight_bytes (peer : Peer) (s : TxState) : Z :=
  match tx_peers s !! peer with Some ps => inflight_bytes ps | None => 0 end.
Definition peer_unacked_count (peer : Peer) (s : TxState) : Z :=
  match tx_peers s !! peer with Some ps => Z.of_nat (size (unacknowledged ps)) | None => 0 end.
Definition peer_inflight_count (peer : Peer) (s : TxState) : Z :=
  match tx_peers s !! peer with Some ps => Z.of_nat (size (in_flight ps)) | None => 0 end.

(** ** A round of the server *)

Definition MAX_TXS_SIZE_INFLIGHT_PER_PEER : Z := 64 * 1024.
Definition MAX_TXS_SIZE_INFLIGHT_TOTAL : Z := 64 * 1024 * 32.
Definition MAX_UNACKNOWLEDGED_TXIDS_PER_PEER : Z := 64.
Definition MAX_TXS_REQUESTED_PER_PEER : Z := 32.
Definition TXSUBMISSION_BATCH_SIZE : Z := 16.

Fixpoint select_from (candidates : list TxId) (sizes : gmap TxId Z) (remaining : Z) (admitted : list TxId)
    : list TxId :=
  match candidates with
  | [] => admitted
  | t :: candidates =>
      let sz := default 0 (sizes !! t) in
      if bool_decide (admitted = []) || (sz <=? remaining) then
        select_from candidates sizes (sat_sub remaining sz) (admitted ++ [t])
      else admitted
  end.

Definition select_within_byte_budget (candidates : list TxId) (sizes : gmap TxId Z) (budget_remaining : Z)
    : list TxId * Z :=
  let admitted := select_from candidates sizes budget_remaining [] in
  (admitted, sat_sub (zlength candidates) (zlength admitted)).

Definition clamp_to_count_budget (candidates : list TxId) (budget_remaining : Z) : list TxId * Z :=
  match candidates with
  | [] => ([], 0)
  | _ =>
      let n := Z.min (Z.max budget_remaining 1) (zlength candidates) in
      (take (Z.to_nat n) candidates, zlength candidates - n)
  end.

Definition clamp_request_count (peer_unacked ack batch max_unacked : Z) : Z :=
  let outstanding := sat_sub peer_unacked ack in
  let headroom := sat_sub max_unacked outstanding in
  Z.max (Z.min batch headroom) 1.

(** What the round asks the peer for and acknowledges next time. *)
Record Round := mkRound { rd_request : list TxId; rd_ack : Z }.

(** From a reply with advertised identifiers to the request for bodies. *)
Definition tx_round (peer : Peer) (txids : list (TxId * Z)) (s : TxState) : Round * TxState :=
  let advertised_sizes : gmap TxId Z := foldl (fun m e => <[e.1 := e.2]> m) ∅ txids in
  let advertised_count := zlength txids in
  let '(outcome, s) := filter_advertised peer (fst <$> txids) s in
  match to_fetch outcome with
  | [] => (mkRound [] (Z.min advertised_count U16_MAX), s)
  | _ =>
      let count_remaining := sat_sub MAX_TXS_REQUESTED_PER_PEER (peer_inflight_count peer s) in
      let '(count_admitted, count_deferred) := clamp_to_count_budget (to_fetch outcome) count_remaining in
      let per_peer_remaining := sat_sub MAX_TXS_SIZE_INFLIGHT_PER_PEER (peer_inflight_bytes peer s) in
      let global_remaining := sat_sub MAX_TXS_SIZE_INFLIGHT_TOTAL (inflight_bytes_total s) in
      let '(admitted, byte_deferred) :=
        select_within_byte_budget count_admitted advertised_sizes (Z.min per_peer_remaining global_remaining) in
      let deferred := count_deferred + byte_deferred in
      let sized := (fun t => (t, default 0 (advertised_sizes !! t))) <$> admitted in
      (mkRound admitted (Z.min (sat_sub advertised_count deferred) U16_MAX),
       mark_in_flight_sized peer sized s)
  end.

(** The end of the round: the reply is complete or not. *)
Definition finish_round (peer : Peer) (request : list TxId) (complete : bool) (s : TxState)
    : outcome Empty_set TxState :=
  if complete then mark_received peer request s else Ok (mark_not_found peer request s).

End State.
