(* ===== verification/TxStateFacts.v ===== *)
(** The shared record of fetches: its accounting under every interleaving of its
    operations, the identifiers that are not fetched again, and what goes wrong
    when filtering and marking take the lock separately. *)

From S2P Require Import Prelude Types TxState.

Local Open Scope Z_scope.

(** ** Sums over a map *)

Definition gsum {K V} `{Countable K} (f : V -> Z) (m : gmap K V) : Z := map_fold (fun _ v s => f v + s) 0 m.

Section Sums.
Context {K V : Type} `{Countable K} (f : V -> Z).
Implicit Types (m : gmap K V).

Lemma gsum_empty : gsum f (∅ : gmap K V) = 0.
Proof. apply map_fold_empty. Qed.

Lemma gsum_insert m k v : m !! k = None -> gsum f (<[k := v]> m) = f v + gsum f m.
Proof. intros Hk. unfold gsum. rewrite map_fold_insert_L; [done|intros; lia|done]. Qed.

Lemma gsum_delete m k v : m !! k = Some v -> gsum f m = f v + gsum f (delete k m).
Proof.
  intros Hk. rewrite <- (gsum_insert (delete k m) k v (lookup_delete_eq m k)). by rewrite insert_delete_id.
Qed.

Lemma gsum_replace m k v v' : m !! k = Some v -> gsum f (<[k := v']> m) = gsum f m - f v + f v'.
Proof.
  intros Hk. rewrite (gsum_delete m k v Hk), <- (insert_delete_eq m k v').
  rewrite (gsum_insert (delete k m) k v' (lookup_delete_eq m k)). lia.
Qed.

Lemma gsum_nonneg m : (forall k v, m !! k = Some v -> 0 <= f v) -> 0 <= gsum f m.
Proof.
  induction m as [|k v m Hk IH] using map_ind; intros Hf; [by rewrite gsum_empty|].
  rewrite gsum_insert by done. assert (0 <= f v) by (apply (Hf k); apply lookup_insert_eq).
  assert (0 <= gsum f m); [|lia]. apply IH. intros k' v' Hk'. apply (Hf k').
  rewrite lookup_insert_ne; [done|]. intros ->. congruence.
Qed.

Lemma gsum_elem m k v : (forall k v, m !! k = Some v -> 0 <= f v) -> m !! k = Some v -> f v <= gsum f m.
Proof.
  intros Hf Hk. rewrite (gsum_delete m k v Hk).
  enough (0 <= gsum f (delete k m)) by lia. apply gsum_nonneg. intros k' v' [_ Hk']%lookup_delete_Some. eauto.
Qed.

End Sums.

Section Facts.
Context {Peer : Type} `{Countable Peer}.
Implicit Types (s : @TxState Peer _ _) (p : Peer) (ps : PeerTxState) (t : TxId).

(** ** The accounting *)

Definition size_of (n : Z) : Z := n.

Record peer_ok (ps : PeerTxState) : Prop := {
  pk_dom : dom (in_flight_sizes ps) ⊆ in_flight ps;
  pk_sizes : forall t n, in_flight_sizes ps !! t = Some n -> 0 <= n;
  pk_bytes : inflight_bytes ps = gsum size_of (in_flight_sizes ps) }.

Lemma peer_bytes_nonneg ps : peer_ok ps -> 0 <= inflight_bytes ps.
Proof. intros [_ Hs ->]. apply gsum_nonneg. exact Hs. Qed.

Record tx_ok s : Prop := {
  tk_known : known s = list_to_set (known_order s);
  tk_nodup : NoDup (known_order s);
  tk_capacity : zlength (known_order s) <= known_capacity s;
  tk_flight : forall t, t ∈ global_in_flight s -> exists p ps, tx_peers s !! p = Some ps /\ t ∈ in_flight ps;
  tk_peers : forall p ps, tx_peers s !! p = Some ps -> peer_ok ps;
  tk_total : inflight_bytes_total s = gsum inflight_bytes (tx_peers s) }.

Lemma release_turn_ok ps total t :
  peer_ok ps -> inflight_bytes ps <= total ->
  let '(ps', total') := release_turn (ps, total) t in
  peer_ok ps' /\ in_flight ps' = in_flight ps ∖ {[t]} /\ total' - inflight_bytes ps' = total - inflight_bytes ps
  /\ inflight_bytes ps' <= inflight_bytes ps.
Proof.
  intros Hp Ht. pose proof Hp as [Hd Hs Hb]. unfold release_turn. case_bool_decide as Hin.
  - destruct (in_flight_sizes ps !! t) as [n|] eqn:Hn.
    + pose proof (gsum_delete size_of _ _ _ Hn) as Hsum. change (size_of n) with n in Hsum.
      pose proof (Hs _ _ Hn). assert (0 <= gsum size_of (delete t (in_flight_sizes ps))).
      { apply gsum_nonneg. intros k v [_ Hk]%lookup_delete_Some. exact (Hs _ _ Hk). }
      split_and!; [split| | |]; cbn.
      * rewrite dom_delete_L. set_solver.
      * intros k v [_ Hk]%lookup_delete_Some. eauto.
      * unfold sat_sub. lia.
      * done.
      * unfold sat_sub. lia.
      * unfold sat_sub. lia.
    + split_and!; [split| | |]; cbn; try done.
      assert (t ∉ dom (in_flight_sizes ps)) by (by apply not_elem_of_dom). set_solver.
  - split_and!; [split| | |]; cbn; try done. set_solver.
Qed.

Lemma release_fold_ok txids : forall ps total,
  peer_ok ps -> inflight_bytes ps <= total ->
  let '(ps', total') := foldl release_turn (ps, total) txids in
  peer_ok ps' /\ in_flight ps' = in_flight ps ∖ list_to_set txids
  /\ total' - inflight_bytes ps' = total - inflight_bytes ps
  /\ inflight_bytes ps' <= inflight_bytes ps.
Proof.
  induction txids as [|t txids IH]; intros ps total Hp Ht; [split_and!; [done|set_solver|done|done]|].
  change (foldl release_turn (ps, total) (t :: txids)) with (foldl release_turn (release_turn (ps, total) t) txids).
  pose proof (release_turn_ok ps total t Hp Ht) as Hr. destruct (release_turn (ps, total) t) as [ps1 total1].
  destruct Hr as (Hp1 & Hf1 & Ht1 & Hb1). specialize (IH ps1 total1 Hp1 ltac:(lia)).
  destruct (foldl release_turn (ps1, total1) txids) as [ps2 total2].
  destruct IH as (Hp2 & Hf2 & Ht2 & Hb2). split_and!; [done|rewrite Hf2, Hf1; set_solver|lia|lia].
Qed.

Lemma peer_bytes_le_total s p ps :
  tx_ok s -> tx_peers s !! p = Some ps -> inflight_bytes ps <= inflight_bytes_total s.
Proof.
  intros [_ _ _ _ Hp ->] Hps. apply (gsum_elem inflight_bytes _ p ps); [|done].
  intros q qs Hq. eapply peer_bytes_nonneg, Hp, Hq.
Qed.

(** What releasing identifiers from one peer changes. *)
Lemma release_peer_view txids s p :
  tx_ok s ->
  let s' := release_peer txids s p in
  known s' = known s /\ known_order s' = known_order s /\ known_capacity s' = known_capacity s
  /\ global_in_flight s' = global_in_flight s
  /\ (forall q qs, tx_peers s' !! q = Some qs -> peer_ok qs)
  /\ inflight_bytes_total s' = gsum inflight_bytes (tx_peers s')
  /\ inflight_bytes_total s' <= inflight_bytes_total s
  /\ (forall q, (in_flight <$> tx_peers s' !! q)
        = if decide (q = p) then (fun f => f ∖ list_to_set txids) <$> (in_flight <$> tx_peers s !! q)
          else in_flight <$> tx_peers s !! q).
Proof.
  intros Hok. unfold release_peer. destruct (tx_peers s !! p) as [ps|] eqn:Hps.
  - pose proof (peer_bytes_le_total s p ps Hok Hps) as Hle.
    pose proof (release_fold_ok txids ps (inflight_bytes_total s) (tk_peers _ Hok _ _ Hps) Hle) as Hf.
    destruct (foldl release_turn _ txids) as [ps' total']. destruct Hf as (Hp' & Hfl & Ht & Hb).
    cbn [set_flight known known_order known_capacity global_in_flight inflight_bytes_total tx_peers].
    split_and!; try done.
    + intros q qs [[<- <-]|[_ Hq]]%lookup_insert_Some; [done|]. by eapply tk_peers.
    + rewrite (gsum_replace _ _ _ ps) by done. rewrite <- (tk_total _ Hok). lia.
    + lia.
    + intros q. case_decide as Hq; [subst q; rewrite lookup_insert_eq, Hps; cbn; by rewrite Hfl|by rewrite lookup_insert_ne].
  - cbv zeta. split_and!; try done; [by eapply tk_peers|by apply tk_total|].
    intros q. case_decide; [subst q; by rewrite Hps|done].
Qed.

(** ** The ring of known identifiers *)

(** The fields that the ring does not touch. *)
Definition same_flight s s' : Prop :=
  global_in_flight s' = global_in_flight s /\ inflight_bytes_total s' = inflight_bytes_total s
  /\ tx_peers s' = tx_peers s /\ known_capacity s' = known_capacity s.

Definition ring_ok (k : gset TxId) (order : list TxId) (capacity : Z) : Prop :=
  k = list_to_set order /\ NoDup order /\ zlength order <= capacity.

Lemma evict_one (order : list TxId) capacity fuel :
  NoDup order -> 0 <= capacity -> zlength order <= capacity + 1 ->
  exists order',
    loopM (S (S fuel)) (evict_turn capacity) (list_to_set order, order) = Ok (list_to_set order', order')
    /\ NoDup order' /\ zlength order' <= capacity
    /\ (order' = order \/ exists old, order = old :: order' /\ capacity < zlength order).
Proof.
  intros Hn Hc Hl. unfold zlength in *.
  assert (Hstop : forall l n, NoDup l -> Z.of_nat (length l) <= capacity ->
    loopM (S n) (evict_turn capacity) (list_to_set l, l) = Ok (list_to_set l, l)).
  { intros l n Hnl Hll. cbn [loopM evict_turn]. rewrite size_list_to_set by done.
    by rewrite (proj2 (Z.ltb_ge _ _)) by lia. }
  destruct (Z.lt_ge_cases capacity (Z.of_nat (length order))) as [Hlt|Hge].
  - destruct order as [|old order]; [cbn in *; lia|]. pose proof Hn as [Ho Hn']%NoDup_cons. cbn [length] in *.
    exists order. split_and!; [|done|lia|right; exists old; split; [done|cbn [length]; lia]].
    rewrite <- (Hstop order fuel Hn' ltac:(lia)).
    assert (Hturn : evict_turn capacity (list_to_set (old :: order), old :: order)
      = Ok (inl (list_to_set order : gset TxId, order))).
    { unfold evict_turn. rewrite size_list_to_set by done. cbn [length].
      rewrite (proj2 (Z.ltb_lt _ _)) by lia. do 3 f_equal. set_solver. }
    remember (S fuel) as n eqn:Hfuel. cbn [loopM]. by rewrite Hturn.
  - exists order. split_and!; [by apply Hstop|done|lia|by left].
Qed.

Lemma insert_known_ok t s :
  ring_ok (known s) (known_order s) (known_capacity s) -> 0 <= known_capacity s ->
  exists s', insert_known t s = Ok s' /\ ring_ok (known s') (known_order s') (known_capacity s') /\ same_flight s s'.
Proof.
  intros (Hk & Hn & Hl) Hc. unfold insert_known. case_bool_decide as Hin; [by exists s|].
  set (order := known_order s ++ [t]).
  assert (Ho : NoDup order).
  { unfold order. apply NoDup_app. split; [done|]. split; [|apply NoDup_singleton].
    intros x Hx ->%list_elem_of_singleton. apply Hin. rewrite Hk. by apply elem_of_list_to_set. }
  replace ({[t]} ∪ known s) with (list_to_set order : gset TxId) by (rewrite Hk; unfold order; set_solver).
  destruct (evict_one order (known_capacity s) (length order) Ho Hc) as (order' & -> & Hn' & Hl' & _).
  { unfold order. rewrite zlength_app. change (zlength [t]) with 1. lia. }
  eexists. split; [reflexivity|]. split; [by split_and!|by split_and!].
Qed.

Lemma insert_all_ok txids : forall s,
  ring_ok (known s) (known_order s) (known_capacity s) -> 0 <= known_capacity s ->
  exists s', insert_all_known txids s = Ok s' /\ ring_ok (known s') (known_order s') (known_capacity s')
    /\ same_flight s s'.
Proof.
  induction txids as [|t txids IH]; intros s Hr Hc; cbn [insert_all_known]; [by exists s|].
  destruct (insert_known_ok t s Hr Hc) as (s1 & -> & Hr1 & Hg1 & Ht1 & Hp1 & Hc1). cbn [obind].
  destruct (IH s1 Hr1 ltac:(lia)) as (s2 & -> & Hr2 & Hg2 & Ht2 & Hp2 & Hc2).
  exists s2. split; [done|]. split; [done|]. split_and!; congruence.
Qed.

Lemma ring_of s : tx_ok s -> ring_ok (known s) (known_order s) (known_capacity s).
Proof. by intros []. Qed.

Lemma tx_ok_ring s s' :
  tx_ok s -> ring_ok (known s') (known_order s') (known_capacity s') -> same_flight s s' -> tx_ok s'.
Proof.
  intros [_ _ _ Hf Hp Ht] (? & ? & ?) (Hg & Hb & Hps & _). split; try done.
  - rewrite Hg, Hps. done.
  - rewrite Hps. done.
  - by rewrite Hb, Hps.
Qed.

(** ** The operations keep the accounting *)

Lemma register_ok p s : tx_ok s -> tx_ok (register_peer p s).
Proof.
  intros Hok. unfold register_peer. destruct (tx_peers s !! p) as [ps|] eqn:Hp; [done|].
  destruct Hok as [? ? ? Hf Hps Ht]. split; cbn; try done.
  - intros t (q & qs & Hq & Hin)%Hf. exists q, qs. split; [|done].
    rewrite lookup_insert_ne; [done|]. intros ->. congruence.
  - intros q qs [[<- <-]|[_ Hq]]%lookup_insert_Some; [|by eapply Hps].
    split; cbn; [set_solver|done|by rewrite gsum_empty].
  - rewrite gsum_insert by done. cbn. lia.
Qed.

Lemma unregister_ok p s : tx_ok s -> tx_ok (unregister_peer p s).
Proof.
  intros Hok. unfold unregister_peer. destruct (tx_peers s !! p) as [ps|] eqn:Hp; [|done].
  pose proof (peer_bytes_le_total s p ps Hok Hp). destruct Hok as [? ? ? Hf Hps Ht]. split; cbn; try done.
  - intros t [Hg Hn]%elem_of_difference. destruct (Hf t Hg) as (q & qs & Hq & Hin). exists q, qs.
    split; [|done]. rewrite lookup_delete_ne; [done|]. intros ->. rewrite Hp in Hq. injection Hq as <-. done.
  - intros q qs [_ Hq]%lookup_delete_Some. by eapply Hps.
  - rewrite (gsum_delete inflight_bytes _ _ _ Hp) in Ht. unfold sat_sub. lia.
Qed.

(** Filtering touches only the identifiers awaiting acknowledgement. *)
Lemma filter_fold s txids : forall ps fetch seen,
  let '(ps', fetch', seen') := foldl (filter_turn s) (ps, fetch, seen) txids in
  in_flight ps' = in_flight ps /\ in_flight_sizes ps' = in_flight_sizes ps
  /\ inflight_bytes ps' = inflight_bytes ps
  /\ fetch' = fetch ++ filter (fun t => (t ∉ known s) /\ (t ∉ global_in_flight s)) txids
  /\ seen' = seen ++ filter (fun t => t ∈ known s \/ t ∈ global_in_flight s) txids.
Proof.
  induction txids as [|t txids IH]; intros ps fetch seen; [by rewrite !app_nil_r|].
  change (foldl (filter_turn s) (ps, fetch, seen) (t :: txids))
    with (foldl (filter_turn s) (filter_turn s (ps, fetch, seen) t) txids).
  unfold filter_turn at 2. destruct (bool_decide (t ∈ known s) || bool_decide (t ∈ global_in_flight s)) eqn:Hb.
  - apply orb_true_iff in Hb. rewrite !bool_decide_eq_true in Hb.
    specialize (IH ps fetch (seen ++ [t])). destruct (foldl _ _ txids) as [[ps' fetch'] seen'].
    destruct IH as (? & ? & ? & -> & ->). rewrite filter_cons_False by tauto. rewrite filter_cons_True by tauto.
    by rewrite <- app_assoc.
  - apply orb_false_iff in Hb. rewrite !bool_decide_eq_false in Hb.
    match goal with |- context [foldl _ (?ps1, _, _) txids] => specialize (IH ps1 (fetch ++ [t]) seen) end.
    destruct (foldl _ _ txids) as [[ps' fetch'] seen'].
    destruct IH as (? & ? & ? & -> & ->). rewrite filter_cons_True by tauto. rewrite filter_cons_False by tauto.
    by rewrite <- app_assoc.
Qed.

Lemma peer_ok_eq ps ps' :
  peer_ok ps -> in_flight ps' = in_flight ps -> in_flight_sizes ps' = in_flight_sizes ps ->
  inflight_bytes ps' = inflight_bytes ps -> peer_ok ps'.
Proof. intros [] Hf Hs Hb. split; rewrite ?Hf, ?Hs, ?Hb; done. Qed.

Lemma peer_new_ok : peer_ok PeerTxState_new.
Proof. split; cbn; [set_solver|done|by rewrite gsum_empty]. Qed.

Definition peer_of s p : PeerTxState := default PeerTxState_new (tx_peers s !! p).

Lemma peer_of_ok s p : tx_ok s -> peer_ok (peer_of s p).
Proof.
  intros Hok. unfold peer_of. destruct (tx_peers s !! p) eqn:Hp; cbn; [by eapply tk_peers|apply peer_new_ok].
Qed.

(** Filtering: the answer, and the state with the same fetches. *)
Lemma filter_view p txids s :
  let '(o, s') := filter_advertised p txids s in
  to_fetch o = filter (fun t => (t ∉ known s) /\ (t ∉ global_in_flight s)) txids
  /\ already_known o = filter (fun t => t ∈ known s \/ t ∈ global_in_flight s) txids
  /\ exists ps, s' = set_tx_peers s (<[p := ps]> (tx_peers s))
       /\ in_flight ps = in_flight (peer_of s p) /\ in_flight_sizes ps = in_flight_sizes (peer_of s p)
       /\ inflight_bytes ps = inflight_bytes (peer_of s p).
Proof.
  unfold filter_advertised. fold (peer_of s p). pose proof (filter_fold s txids (peer_of s p) [] []) as Hf.
  destruct (foldl _ _ txids) as [[ps fetch] seen]. destruct Hf as (? & ? & ? & -> & ->). cbn. eauto 8.
Qed.

Lemma filter_ok p txids s : tx_ok s -> tx_ok (filter_advertised p txids s).2.
Proof.
  intros Hok. pose proof (filter_view p txids s) as Hv. destruct (filter_advertised p txids s) as [o s'].
  destruct Hv as (_ & _ & ps & -> & Hf & Hs & Hb). pose proof (peer_of_ok s p Hok) as Hpo.
  unfold peer_of in *. destruct Hok as [? ? ? Hfl Hps Ht]. split; cbn; try done.
  - intros t (q & qs & Hq & Hin)%Hfl. destruct (decide (q = p)) as [->|Hne].
    + exists p, ps. split; [by rewrite lookup_insert_eq|]. rewrite Hf, Hq. done.
    + exists q, qs. split; [by rewrite lookup_insert_ne|done].
  - intros q qs [[<- <-]|[_ Hq]]%lookup_insert_Some; [|by eapply Hps]. by eapply peer_ok_eq.
  - destruct (tx_peers s !! p) as [qs|] eqn:Hp.
    + change (default PeerTxState_new (Some qs)) with qs in Hb. rewrite (gsum_replace _ _ _ qs) by done. lia.
    + change (inflight_bytes (default PeerTxState_new None)) with 0 in Hb. rewrite gsum_insert by done. lia.
Qed.

Definition sizes_sum (l : list (TxId * Z)) : Z := foldr (fun e a => e.2 + a) 0 l.

Lemma sizes_sum_nonneg l : Forall (fun e => 0 <= e.2) l -> 0 <= sizes_sum l.
Proof. unfold sizes_sum. induction 1; cbn; lia. Qed.

Lemma mark_fold_ok l : forall ps global total,
  peer_ok ps -> Forall (fun e => 0 <= e.2) l -> inflight_bytes ps <= total -> total + sizes_sum l <= U64_MAX ->
  let '(ps', global', total') := foldl mark_sized_turn (ps, global, total) l in
  peer_ok ps' /\ total' - inflight_bytes ps' = total - inflight_bytes ps /\ total <= total' <= total + sizes_sum l
  /\ in_flight ps' = in_flight ps ∪ list_to_set (fst <$> l)
  /\ (forall t, t ∈ global' <-> t ∈ global \/ (t ∈ in_flight ps' /\ t ∉ in_flight ps)).
Proof.
  induction l as [|[t n] l IH]; intros ps global total Hp Hl Hle Hu.
  { cbn. split_and!; [done|lia|lia|lia|set_solver|set_solver]. }
  apply Forall_cons in Hl as [Hn Hl]. cbn [snd sizes_sum foldr] in *. fold (sizes_sum l) in *.
  pose proof (sizes_sum_nonneg l Hl). pose proof (peer_bytes_nonneg ps Hp).
  change (foldl mark_sized_turn (ps, global, total) ((t, n) :: l))
    with (foldl mark_sized_turn (mark_sized_turn (ps, global, total) (t, n)) l).
  unfold mark_sized_turn at 2. case_bool_decide as Hin.
  - specialize (IH ps global total Hp Hl Hle ltac:(lia)). destruct (foldl _ _ l) as [[ps' global'] total'].
    destruct IH as (? & ? & ? & Hf & Hg). split_and!; [done|lia|lia|lia|rewrite Hf; set_solver|done].
  - unfold sat_add. rewrite !Z.min_l by lia.
    match goal with |- context [foldl _ (?ps1, ?g1, ?t1) l] => specialize (IH ps1 g1 t1); set (q := ps1) in * end.
    assert (Hq : peer_ok q).
    { destruct Hp as [Hd Hs Hb]. split; cbn.
      - rewrite dom_insert_L. set_solver.
      - intros t' n' [[<- <-]|[_ ?]]%lookup_insert_Some; eauto.
      - rewrite gsum_insert; [change (size_of n) with n; lia|]. apply not_elem_of_dom. set_solver. }
    specialize (IH Hq Hl ltac:(cbn; lia) ltac:(lia)). destruct (foldl _ _ l) as [[ps' global'] total'].
    destruct IH as (? & Ht & ? & Hf & Hg). cbn in Ht, Hf, Hg. split_and!; [done|lia|lia|lia|rewrite Hf; set_solver|].
    assert (Htin : t ∈ in_flight ps') by (rewrite Hf; clear; set_solver).
    intros t'. rewrite Hg, !elem_of_union, !elem_of_singleton.
    clear -Hin Htin. destruct (decide (t' = t)) as [->|]; tauto.
Qed.

(** Marking: who fetches what afterwards. *)
Lemma mark_view p l s :
  tx_ok s -> Forall (fun e => 0 <= e.2) l -> inflight_bytes_total s + sizes_sum l <= U64_MAX ->
  let s' := mark_in_flight_sized p l s in
  tx_ok s' /\ inflight_bytes_total s' <= inflight_bytes_total s + sizes_sum l
  /\ known s' = known s /\ known_capacity s' = known_capacity s
  /\ (forall q, in_flight <$> tx_peers s' !! q
        = if decide (q = p) then (fun f => f ∪ list_to_set (fst <$> l)) <$> (in_flight <$> tx_peers s !! q)
          else in_flight <$> tx_peers s !! q)
  /\ (forall t, t ∈ global_in_flight s' <->
        t ∈ global_in_flight s
        \/ exists ps, tx_peers s !! p = Some ps /\ t ∈ fst <$> l /\ t ∉ in_flight ps).
Proof.
  intros Hok Hl Hu. cbv zeta. pose proof (sizes_sum_nonneg l Hl) as Hnn. unfold mark_in_flight_sized.
  destruct (tx_peers s !! p) as [ps|] eqn:Hp.
  2: { split_and!; [done|lia|done|done| |naive_solver]. intros q. case_decide; [subst; by rewrite Hp|done]. }
  pose proof (mark_fold_ok l ps (global_in_flight s) (inflight_bytes_total s) (tk_peers _ Hok _ _ Hp) Hl
    (peer_bytes_le_total s p ps Hok Hp) Hu) as Hf.
  destruct (foldl mark_sized_turn _ l) as [[ps' global'] total']. destruct Hf as (Hp' & Ht & Hb & Hfl & Hg).
  destruct Hok as [? ? ? Hfl0 Hps Ht0]. cbn. split_and!.
  - split; cbn; try done.
    + intros t [Ht'|[Ht' _]]%Hg.
      * destruct (Hfl0 t Ht') as (q & qs & Hq & Hin). destruct (decide (q = p)) as [->|Hne].
        -- exists p, ps'. split; [by rewrite lookup_insert_eq|]. rewrite Hfl. rewrite Hp in Hq. injection Hq as ->. set_solver.
        -- exists q, qs. split; [by rewrite lookup_insert_ne|done].
      * exists p, ps'. split; [by rewrite lookup_insert_eq|done].
    + intros q qs [[<- <-]|[_ Hq]]%lookup_insert_Some; [done|by eapply Hps].
    + rewrite (gsum_replace _ _ _ ps) by done. lia.
  - lia.
  - done.
  - done.
  - intros q. case_decide; [subst q; rewrite lookup_insert_eq, Hp; cbn; by rewrite Hfl|by rewrite lookup_insert_ne].
  - intros t. rewrite Hg, Hfl. split.
    + intros [?|[Hin Hn]]; [by left|]. right. exists ps. set_solver.
    + intros [?|(ps0 & [= <-] & Hin & Hn)]; [by left|]. right. set_solver.
Qed.

(** Who fetches what, from the sets in flight alone. *)
Lemma flight_some s q f :
  in_flight <$> tx_peers s !! q = Some f <-> exists qs, tx_peers s !! q = Some qs /\ in_flight qs = f.
Proof. rewrite fmap_Some. split; intros (qs & ? & ?); exists qs; done. Qed.

Lemma not_found_view p txids s :
  tx_ok s ->
  let s' := mark_not_found p txids s in
  tx_ok s' /\ inflight_bytes_total s' <= inflight_bytes_total s
  /\ known s' = known s /\ known_capacity s' = known_capacity s
  /\ (forall q, in_flight <$> tx_peers s' !! q
        = if decide (q = p) then (fun f => f ∖ list_to_set txids) <$> (in_flight <$> tx_peers s !! q)
          else in_flight <$> tx_peers s !! q)
  /\ (is_Some (tx_peers s !! p) -> global_in_flight s' = global_in_flight s ∖ list_to_set txids).
Proof.
  intros Hok. cbv zeta. unfold mark_not_found.
  pose proof (release_peer_view txids s p Hok) as Hv. cbv zeta in Hv. set (s1 := release_peer txids s p) in *.
  destruct Hv as (Hk & Ho & Hc & Hg & Hps & Ht & Htot & Hfl).
  destruct (tx_peers s !! p) as [ps|] eqn:Hp.
  2: { split_and!; [done|lia|done|done| |by intros []]. intros q. case_decide; [subst; by rewrite Hp|done]. }
  cbn [known known_capacity tx_peers global_in_flight inflight_bytes_total set_flight].
  split_and!; [|done|done|done|done|].
  - destruct Hok as [Hk0 Hn0 Hc0 Hf0 _ _]. split; cbn [known known_order known_capacity tx_peers global_in_flight
      inflight_bytes_total set_flight]; try done.
    + by rewrite Hk, Ho.
    + by rewrite Ho.
    + by rewrite Ho, Hc.
    + rewrite Hg. intros t [Htg Htn]%elem_of_difference. destruct (Hf0 t Htg) as (q & qs & Hq & Hin).
      specialize (Hfl q). rewrite Hq in Hfl. destruct (decide (q = p)) as [->|Hne]; cbn in Hfl;
        apply flight_some in Hfl as (qs' & Hq' & Hf'); [exists p|exists q]; exists qs'; (split; [done|]);
        rewrite Hf'; set_solver.
  - intros _. by rewrite Hg.
Qed.

Lemma received_ok p txids s :
  tx_ok s -> 0 <= known_capacity s ->
  exists s', mark_received p txids s = Ok s' /\ tx_ok s' /\ same_flight (mark_not_found p txids s) s'.
Proof.
  intros Hok Hc. destruct (not_found_view p txids s Hok) as (Hok' & _ & _ & Hc' & _). unfold mark_received.
  destruct (insert_all_ok txids (mark_not_found p txids s)) as (s' & -> & Hr & Hs);
    [by apply ring_of|by rewrite Hc'|]. exists s'. split; [done|]. split; [by eapply tx_ok_ring|done].
Qed.

(** Between the two loops of a confirmation, the fetches of the confirmed
    identifiers still stand at the peers. *)
Lemma release_all_ok txids l : forall s,
  tx_ok s -> list_to_set txids ## global_in_flight s ->
  let s' := foldl (release_peer txids) s l in
  tx_ok s' /\ known_capacity s' = known_capacity s /\ inflight_bytes_total s' <= inflight_bytes_total s.
Proof.
  induction l as [|p l IH]; intros s Hok Hd; [done|].
  change (foldl (release_peer txids) s (p :: l)) with (foldl (release_peer txids) (release_peer txids s p) l).
  destruct (release_peer_view txids s p Hok) as (Hk & Ho & Hc & Hg & Hps & Ht & Htot & Hfl).
  assert (Hok' : tx_ok (release_peer txids s p)).
  2: { destruct (IH _ Hok' ltac:(by rewrite Hg)) as (? & ? & ?). cbv zeta. split_and!; [done|congruence|lia]. }
  destruct Hok as [Hk0 Hn0 Hc0 Hf0 _ _]. split; try done.
  - by rewrite Hk, Ho.
  - by rewrite Ho.
  - by rewrite Ho, Hc.
  - rewrite Hg. intros t Htg. destruct (Hf0 t Htg) as (q & qs & Hq & Hin).
    specialize (Hfl q). rewrite Hq in Hfl. destruct (decide (q = p)) as [->|Hne]; cbn in Hfl;
      apply flight_some in Hfl as (qs' & Hq' & Hf'); [exists p|exists q]; exists qs'; (split; [done|]);
      rewrite Hf'; set_solver.
Qed.

Lemma confirmed_ok txids s :
  tx_ok s -> 0 <= known_capacity s ->
  exists s', mark_confirmed txids s = Ok s' /\ tx_ok s' /\ known_capacity s' = known_capacity s
    /\ inflight_bytes_total s' <= inflight_bytes_total s.
Proof.
  intros Hok Hc. unfold mark_confirmed.
  set (s1 := set_flight s (global_in_flight s ∖ list_to_set txids) (inflight_bytes_total s) (tx_peers s)).
  assert (Hok1 : tx_ok s1) by (destruct Hok as [? ? ? Hf ? ?]; split; cbn; try done; set_solver).
  destruct (insert_all_ok txids s1 (ring_of _ Hok1) Hc) as (s2 & -> & Hr & Hs).
  pose proof (tx_ok_ring s1 s2 Hok1 Hr Hs) as Hok2. cbn [obind]. eexists. split; [reflexivity|].
  destruct Hs as (Hg & Htot & _ & Hcap). cbn in Htot.
  destruct (release_all_ok txids (fst <$> map_to_list (tx_peers s2)) s2 Hok2) as (? & -> & ?);
    [rewrite Hg; cbn; set_solver|].
  split_and!; [done|done|lia].
Qed.

Lemma unsized_ok p txids s : tx_ok s -> tx_ok (mark_in_flight p txids s).
Proof.
  intros Hok. unfold mark_in_flight. destruct (tx_peers s !! p) as [ps|] eqn:Hp; [|done].
  destruct Hok as [? ? ? Hf Hps Ht]. pose proof (Hps _ _ Hp) as [Hd Hs Hb]. split; cbn; try done.
  - intros t [Hin|Hin]%elem_of_union.
    + eexists p, _. split; [by rewrite lookup_insert_eq|]. cbn. set_solver.
    + destruct (Hf t Hin) as (q & qs & Hq & Hin'). destruct (decide (q = p)) as [->|Hne].
      * eexists p, _. split; [by rewrite lookup_insert_eq|]. cbn. rewrite Hp in Hq. injection Hq as ->. set_solver.
      * exists q, qs. split; [by rewrite lookup_insert_ne|done].
  - intros q qs [[<- <-]|[_ Hq]]%lookup_insert_Some; [|by eapply Hps]. split; cbn; [set_solver|done|done].
  - rewrite (gsum_replace _ _ _ ps) by done. cbn. lia.
Qed.

(** ** Every interleaving *)

Inductive tx_op :=
  | TxRegister (p : Peer)
  | TxUnregister (p : Peer)
  | TxFilter (p : Peer) (txids : list TxId)
  | TxMark (p : Peer) (txids : list TxId)
  | TxMarkSized (p : Peer) (sized : list (TxId * Z))
  | TxReceived (p : Peer) (txids : list TxId)
  | TxNotFound (p : Peer) (txids : list TxId)
  | TxConfirmed (txids : list TxId).

Definition tx_apply (op : tx_op) s : outcome Empty_set TxState :=
  match op with
  | TxRegister p => Ok (register_peer p s)
  | TxUnregister p => Ok (unregister_peer p s)
  | TxFilter p txids => Ok (filter_advertised p txids s).2
  | TxMark p txids => Ok (mark_in_flight p txids s)
  | TxMarkSized p sized => Ok (mark_in_flight_sized p sized s)
  | TxReceived p txids => mark_received p txids s
  | TxNotFound p txids => Ok (mark_not_found p txids s)
  | TxConfirmed txids => mark_confirmed txids s
  end.

Fixpoint tx_run (ops : list tx_op) s : outcome Empty_set TxState :=
  match ops with
  | [] => Ok s
  | op :: ops => let? s := tx_apply op s in tx_run ops s
  end.

(** The sizes an operation records; they are unsigned. *)
Definition op_sizes (op : tx_op) : list (TxId * Z) :=
  match op with TxMarkSized _ sized => sized | _ => [] end.

Lemma sizes_sum_app l l' : sizes_sum (l ++ l') = sizes_sum l + sizes_sum l'.
Proof. unfold sizes_sum. induction l as [|e l IH]; cbn; lia. Qed.

(** No step makes the total grow by more than the sizes it records. *)
Lemma total_bound s : tx_ok s -> inflight_bytes_total s = gsum inflight_bytes (tx_peers s) /\ 0 <= inflight_bytes_total s.
Proof.
  intros [_ _ _ _ Hp Ht]. split; [done|]. rewrite Ht. apply gsum_nonneg. intros p ps Hps.
  eapply peer_bytes_nonneg, Hp, Hps.
Qed.

Lemma tx_apply_ok op s :
  tx_ok s -> 0 <= known_capacity s -> Forall (fun e => 0 <= e.2) (op_sizes op) ->
  inflight_bytes_total s + sizes_sum (op_sizes op) <= U64_MAX ->
  exists s', tx_apply op s = Ok s' /\ tx_ok s' /\ known_capacity s' = known_capacity s
    /\ inflight_bytes_total s' <= inflight_bytes_total s + sizes_sum (op_sizes op).
Proof.
  intros Hok Hc Hn Hu. destruct (total_bound s Hok) as [_ H0]. destruct op as [p|p|p ids|p ids|p l|p ids|p ids|ids];
    cbn [tx_apply op_sizes sizes_sum foldr] in *.
  - eexists. split; [done|]. split; [by apply register_ok|]. unfold register_peer. case_match; cbn; lia.
  - eexists. split; [done|]. split; [by apply unregister_ok|]. unfold unregister_peer.
    destruct (tx_peers s !! p) as [ps|] eqn:Hp; cbn; [|lia].
    pose proof (peer_bytes_nonneg _ (tk_peers _ Hok _ _ Hp)). unfold sat_sub. lia.
  - eexists. split; [done|]. split; [by apply filter_ok|]. pose proof (filter_view p ids s) as Hv.
    destruct (filter_advertised p ids s) as [o s']. destruct Hv as (_ & _ & ps & -> & _). cbn. lia.
  - eexists. split; [done|]. split; [by apply unsized_ok|]. unfold mark_in_flight. case_match; cbn; lia.
  - destruct (mark_view p l s Hok Hn Hu) as (Hok' & Ht & _ & Hcap & _). eauto.
  - destruct (received_ok p ids s Hok Hc) as (s' & -> & Hok' & _ & Ht & _ & Hcap).
    destruct (not_found_view p ids s Hok) as (_ & Ht' & _ & Hcap' & _).
    exists s'. split_and!; [done|done|congruence|lia].
  - destruct (not_found_view p ids s Hok) as (Hok' & Ht' & _ & Hcap' & _). eexists. split; [done|].
    split_and!; [done|done|lia].
  - destruct (confirmed_ok ids s Hok Hc) as (s' & -> & ? & ? & ?). exists s'. split_and!; [done|done|done|lia].
Qed.

(** C22: however the threads of the peers interleave their operations, and as
    long as the sizes advertised in total fit 64 bits, the shared record never
    spins in its eviction loop; the ring of known identifiers has no duplicates,
    holds exactly the known set and never exceeds its capacity; every
    identifier that counts as in flight is being fetched from some peer; the
    bytes in flight of a peer are the sizes of its fetches; and the total is
    their sum over the peers. *)
Theorem tx_state_accounting (ops : list tx_op) (capacity : Z) :
  0 <= capacity -> Forall (fun e => 0 <= e.2) (ops ≫= op_sizes) -> sizes_sum (ops ≫= op_sizes) <= U64_MAX ->
  exists s, tx_run ops (TxState_new capacity) = Ok s /\ tx_ok s.
Proof.
  intros Hc Hn Hu.
  assert (Hrun : forall ops s, tx_ok s -> 0 <= known_capacity s -> Forall (fun e => 0 <= e.2) (ops ≫= op_sizes) ->
    inflight_bytes_total s + sizes_sum (ops ≫= op_sizes) <= U64_MAX -> exists s', tx_run ops s = Ok s' /\ tx_ok s').
  { clear. induction ops as [|op ops IH]; intros s Hok Hc Hn Hu; [by exists s|].
    rewrite bind_cons in Hn, Hu. apply Forall_app in Hn as [Hn1 Hn2]. rewrite sizes_sum_app in Hu.
    pose proof (sizes_sum_nonneg _ Hn2).
    destruct (tx_apply_ok op s Hok Hc Hn1 ltac:(lia)) as (s1 & Hs1 & Hok1 & Hc1 & Ht1).
    cbn [tx_run]. rewrite Hs1. cbn [obind]. apply IH; [done|lia|done|lia]. }
  apply Hrun; [|done|done|cbn; lia].
  split; cbn; try done. apply NoDup_nil_2.
Qed.

(** ** Filtering and marking together *)

Lemma select_prefix candidates sizes : forall remaining admitted,
  exists k, select_from candidates sizes remaining admitted = admitted ++ take k candidates.
Proof.
  induction candidates as [|t candidates IH]; intros remaining admitted; cbn [select_from].
  - exists 0%nat. by rewrite take_0, app_nil_r.
  - destruct (_ || _).
    + destruct (IH (sat_sub remaining (default 0 (sizes !! t))) (admitted ++ [t])) as [k Hk].
      exists (S k). rewrite Hk, <- app_assoc. done.
    + exists 0%nat. by rewrite take_0, app_nil_r.
Qed.

Lemma clamp_prefix candidates budget : exists k, (clamp_to_count_budget candidates budget).1 = take k candidates.
Proof. destruct candidates; [by exists 0%nat|]. cbn. eauto. Qed.

Lemma sizes_collected (txids : list (TxId * Z)) : forall m : gmap TxId Z,
  Forall (fun e => 0 <= e.2 <= U32_MAX) txids -> (forall t n, m !! t = Some n -> 0 <= n <= U32_MAX) ->
  forall t n, foldl (fun m e => <[e.1 := e.2]> m) m txids !! t = Some n -> 0 <= n <= U32_MAX.
Proof.
  induction txids as [|[t0 n0] txids IH]; intros m Hl Hm; [done|]. apply Forall_cons in Hl as [Hn Hl].
  cbn [foldl]. apply IH; [done|]. intros t n [[<- <-]|[_ ?]]%lookup_insert_Some; [done|eauto].
Qed.

Lemma mark_nothing p s : is_Some (tx_peers s !! p) -> mark_in_flight_sized p [] s = s.
Proof.
  intros [ps Hp]. unfold mark_in_flight_sized. rewrite Hp. cbn [foldl]. unfold set_flight.
  rewrite insert_id by done. by destruct s.
Qed.

(** A round fetches only identifiers that passed the filter, and marks them. *)
Lemma round_view p txids s :
  Forall (fun e => 0 <= e.2 <= U32_MAX) txids ->
  exists sized,
    fst <$> sized = rd_request (tx_round p txids s).1
    /\ (tx_round p txids s).2 = mark_in_flight_sized p sized (filter_advertised p (fst <$> txids) s).2
    /\ Forall (fun e => 0 <= e.2 <= U32_MAX) sized /\ (length sized <= length txids)%nat
    /\ (forall t, t ∈ fst <$> sized -> (t ∉ known s) /\ (t ∉ global_in_flight s)).
Proof.
  intros Hl. unfold tx_round. pose proof (filter_view p (fst <$> txids) s) as Hv.
  destruct (filter_advertised p (fst <$> txids) s) as [o s1]. destruct Hv as (Ho & _ & ps & Hs1 & _).
  assert (Hin : forall t, t ∈ to_fetch o -> (t ∉ known s) /\ (t ∉ global_in_flight s)).
  { rewrite Ho. intros t Ht. apply list_elem_of_filter in Ht. tauto. }
  assert (Hlen : (length (to_fetch o) <= length txids)%nat).
  { rewrite Ho. etrans; [apply length_filter|]. by rewrite length_fmap. }
  set (sizes := foldl _ ∅ txids).
  assert (Hsz : forall t, 0 <= default 0 (sizes !! t) <= U32_MAX).
  { intros t. destruct (sizes !! t) as [n|] eqn:Hn; [|cbn; unfold U32_MAX; lia].
    eapply (sizes_collected txids ∅); [done| |exact Hn]. intros ? ?. by rewrite lookup_empty. }
  destruct (to_fetch o) as [|t0 rest] eqn:Hf.
  - exists []. cbn. split_and!; [done| |by constructor|lia|set_solver].
    symmetry. apply mark_nothing. rewrite Hs1. cbn. rewrite lookup_insert_eq. eauto.
  - rewrite <- Hf in *. clear Hf t0 rest.
    destruct (clamp_prefix (to_fetch o) (sat_sub MAX_TXS_REQUESTED_PER_PEER (peer_inflight_count p s1))) as [k Hk].
    destruct (clamp_to_count_budget _ _) as [count_admitted count_deferred]. cbn [fst] in Hk. subst count_admitted.
    unfold select_within_byte_budget.
    destruct (select_prefix (take k (to_fetch o)) sizes (Z.min
      (sat_sub MAX_TXS_SIZE_INFLIGHT_PER_PEER (peer_inflight_bytes p s1))
      (sat_sub MAX_TXS_SIZE_INFLIGHT_TOTAL (inflight_bytes_total s1))) []) as [k' ->].
    cbn [fst snd rd_request app]. set (admitted := take k' (take k (to_fetch o))).
    assert (Hfst : fst <$> ((fun t => (t, default 0 (sizes !! t))) <$> admitted) = admitted).
    { rewrite <- list_fmap_compose. cbn. apply list_fmap_id. }
    eexists. split; [exact Hfst|]. split; [reflexivity|]. split_and!.
    + apply Forall_fmap, Forall_true. cbn. intros t. apply Hsz.
    + rewrite length_fmap. unfold admitted. rewrite !length_take. lia.
    + rewrite Hfst. intros t Ht. apply Hin. unfold admitted in Ht. rewrite take_take in Ht.
      eapply elem_of_take in Ht as (i & Ht & _). by eapply list_elem_of_lookup_2.
Qed.

(** ** What is known is not fetched again *)

(** The identifiers an operation makes known. *)
Definition op_known (op : tx_op) : list TxId :=
  match op with TxReceived _ txids | TxConfirmed txids => txids | _ => [] end.

Definition same_ring s s' : Prop :=
  known s' = known s /\ known_order s' = known_order s /\ known_capacity s' = known_capacity s.

Lemma release_ring txids s p : same_ring s (release_peer txids s p).
Proof. unfold release_peer. destruct (tx_peers s !! p); [|done]. by destruct (foldl release_turn _ txids). Qed.
Lemma release_all_ring txids l : forall s, same_ring s (foldl (release_peer txids) s l).
Proof.
  induction l as [|p l IH]; intros s; [done|]. cbn [foldl].
  destruct (IH (release_peer txids s p)) as (H1 & H2 & H3). destruct (release_ring txids s p) as (H4 & H5 & H6).
  split_and!; congruence.
Qed.
Lemma not_found_ring p txids s : same_ring s (mark_not_found p txids s).
Proof. unfold mark_not_found. destruct (tx_peers s !! p); [|done]. destruct (release_ring txids s p) as (? & ? & ?). done. Qed.

(** On the ring every operation inserts the identifiers it makes known. *)
Lemma op_ring op s :
  ring_ok (known s) (known_order s) (known_capacity s) -> 0 <= known_capacity s ->
  exists s0 s1 s', same_ring s s0 /\ insert_all_known (op_known op) s0 = Ok s1 /\ same_ring s1 s' /\ tx_apply op s = Ok s'.
Proof.
  intros Hr Hc.
  assert (Hplain : forall s', same_ring s s' -> exists s0 s1 s'', same_ring s s0 /\
    insert_all_known [] s0 = Ok s1 /\ same_ring s1 s'' /\ Ok s' = @Ok Empty_set _ s'').
  { intros s' Hs'. by exists s', s', s'. }
  destruct op as [p|p|p ids|p ids|p l|p ids|p ids|ids]; cbn [tx_apply op_known].
  - apply Hplain. unfold register_peer. by destruct (tx_peers s !! p).
  - apply Hplain. unfold unregister_peer. by destruct (tx_peers s !! p).
  - apply Hplain. pose proof (filter_view p ids s) as Hv. destruct (filter_advertised p ids s) as [o s'].
    destruct Hv as (_ & _ & ps & -> & _). done.
  - apply Hplain. unfold mark_in_flight. by destruct (tx_peers s !! p).
  - apply Hplain. unfold mark_in_flight_sized. destruct (tx_peers s !! p); [|done].
    by destruct (foldl mark_sized_turn _ l) as [[? ?] ?].
  - pose proof (not_found_ring p ids s) as Hs. destruct Hs as (H1 & H2 & H3). unfold mark_received.
    destruct (insert_all_ok ids (mark_not_found p ids s)) as (s1 & Hs1 & _); [by rewrite H1, H2, H3|by rewrite H3|].
    by exists (mark_not_found p ids s), s1, s1.
  - apply Hplain. apply not_found_ring.
  - unfold mark_confirmed. set (s0 := set_flight s _ _ _).
    destruct (insert_all_ok ids s0) as (s1 & Hs1 & _); [done..|]. rewrite Hs1. cbn [obind].
    exists s0, s1, (foldl (release_peer ids) s1 (fst <$> map_to_list (tx_peers s1))).
    split_and!; [done..|apply release_all_ring|done].
Qed.

(** [t] is known and stays so while at most [room] more identifiers arrive. *)
Definition remembered (t : TxId) (room : Z) s : Prop :=
  ring_ok (known s) (known_order s) (known_capacity s) /\
  exists before after, known_order s = before ++ t :: after /\ zlength after + room < known_capacity s.

Lemma remembered_same t room s s' : same_ring s s' -> remembered t room s -> remembered t room s'.
Proof. intros (H1 & H2 & H3). unfold remembered. by rewrite H1, H2, H3. Qed.

(** One insertion, on the ring. *)
Lemma insert_known_order u s :
  ring_ok (known s) (known_order s) (known_capacity s) -> 0 <= known_capacity s ->
  exists s', insert_known u s = Ok s' /\ ring_ok (known s') (known_order s') (known_capacity s') /\
    known_capacity s' = known_capacity s /\
    (u ∈ known s -> s' = s) /\
    ((u ∉ known s) -> known_order s' = known_order s ++ [u] \/
       exists old, known_order s ++ [u] = old :: known_order s' /\ known_capacity s < zlength (known_order s ++ [u])).
Proof.
  intros (Hk & Hn & Hl) Hc. unfold insert_known. case_bool_decide as Hin; [by exists s|].
  set (order := known_order s ++ [u]).
  assert (Ho : NoDup order).
  { unfold order. apply NoDup_app. split; [done|]. split; [|apply NoDup_singleton].
    intros x Hx ->%list_elem_of_singleton. apply Hin. rewrite Hk. by apply elem_of_list_to_set. }
  replace ({[u]} ∪ known s) with (list_to_set order : gset TxId) by (rewrite Hk; unfold order; set_solver).
  destruct (evict_one order (known_capacity s) (length order) Ho Hc) as (order' & -> & Hn' & Hl' & Hor).
  { unfold order. rewrite zlength_app. change (zlength [u]) with 1. lia. }
  eexists. split; [reflexivity|]. split; [by split_and!|]. split; [done|]. split; [done|]. intros _. exact Hor.
Qed.

Lemma insert_remembered t u room s :
  remembered t (room + 1) s -> 0 <= room -> exists s', insert_known u s = Ok s' /\ remembered t room s'
    /\ known_capacity s' = known_capacity s.
Proof.
  intros (Hr & before & after & Ho & Hroom) Hpos. pose proof (zlength_nonneg after).
  destruct (insert_known_order u s Hr ltac:(lia)) as (s' & -> & Hr' & Hc & Hin & Hout). exists s'. split; [done|].
  split; [|done]. split; [done|]. rewrite Hc. destruct (decide (u ∈ known s)) as [Hu|Hu].
  { rewrite (Hin Hu). exists before, after. split; [done|lia]. }
  assert (Happ : known_order s ++ [u] = before ++ t :: (after ++ [u])) by (rewrite Ho, <- (assoc_L (++)); done).
  assert (Hz : zlength (after ++ [u]) = zlength after + 1) by (rewrite zlength_app; done).
  destruct (Hout Hu) as [->|(old & Hold & Hbig)].
  - exists before, (after ++ [u]). split; [done|lia].
  - rewrite Happ in Hold, Hbig. destruct before as [|b before].
    + cbn [app] in Hbig. rewrite zlength_cons in Hbig. lia.
    + injection Hold as <- <-. exists before, (after ++ [u]). split; [done|lia].
Qed.

Lemma insert_all_remembered t txids : forall room s,
  remembered t (room + zlength txids) s -> 0 <= room ->
  exists s', insert_all_known txids s = Ok s' /\ remembered t room s' /\ known_capacity s' = known_capacity s.
Proof.
  induction txids as [|u txids IH]; intros room s Hr Hpos; cbn [insert_all_known].
  { rewrite zlength_nil, Z.add_0_r in Hr. by exists s. }
  rewrite zlength_cons in Hr. pose proof (zlength_nonneg txids).
  destruct (insert_remembered t u (room + zlength txids) s) as (s1 & -> & Hr1 & Hc1);
    [by replace (room + zlength txids + 1) with (room + (1 + zlength txids)) by lia|lia|].
  cbn [obind]. destruct (IH room s1 Hr1 Hpos) as (s2 & -> & Hr2 & Hc2). exists s2. split_and!; [done..|congruence].
Qed.

(** The first arrival of [t]. *)
Lemma first_arrival t txids : forall room s,
  ring_ok (known s) (known_order s) (known_capacity s) -> 0 <= room -> room + zlength txids <= known_capacity s ->
  (t ∉ known s) -> t ∈ txids ->
  exists s', insert_all_known txids s = Ok s' /\ remembered t room s' /\ known_capacity s' = known_capacity s.
Proof.
  induction txids as [|u txids IH]; intros room s Hr Hpos Hroom Hnot Hin; [by apply not_elem_of_nil in Hin|].
  rewrite zlength_cons in Hroom. pose proof (zlength_nonneg txids). cbn [insert_all_known].
  destruct (insert_known_order u s Hr ltac:(lia)) as (s1 & Hins & Hr1 & Hc1 & Hin1 & Hout1). rewrite Hins. cbn [obind].
  destruct (decide (u = t)) as [->|Hne].
  - destruct (insert_all_remembered t txids room s1) as (s2 & -> & Hr2 & Hc2); [|done|exists s2; split_and!; [done..|congruence]].
    split; [done|]. rewrite Hc1. destruct (Hout1 Hnot) as [->|(old & Hold & Hbig)].
    + exists (known_order s), []. split; [done|]. rewrite zlength_nil. lia.
    + destruct (known_order s) as [|b order].
      * cbn [app] in Hbig. change (zlength [t]) with 1 in Hbig. lia.
      * injection Hold as <- <-. exists order, []. split; [done|]. rewrite zlength_nil. lia.
  - assert (Hnot1 : t ∉ known s1).
    { destruct (decide (u ∈ known s)) as [Hu|Hu]; [by rewrite (Hin1 Hu)|].
      destruct Hr as (Hk & _), Hr1 as (Hk1 & _). rewrite Hk1, elem_of_list_to_set. rewrite Hk, elem_of_list_to_set in Hnot.
      assert (t ∉ known_order s ++ [u]) as Ha by set_solver.
      destruct (Hout1 Hu) as [->|(old & Hold & _)]; [done|]. rewrite Hold in Ha. set_solver. }
    destruct (IH room s1 Hr1 Hpos ltac:(lia) Hnot1 ltac:(set_solver)) as (s2 & -> & Hr2 & Hc2).
    exists s2. split_and!; [done..|congruence].
Qed.

Lemma run_remembered t ops : forall room s,
  remembered t (room + zlength (ops ≫= op_known)) s -> 0 <= room ->
  exists s', tx_run ops s = Ok s' /\ remembered t room s'.
Proof.
  induction ops as [|op ops IH]; intros room s Hr Hpos; cbn [tx_run].
  { change (zlength ([] ≫= op_known)) with 0 in Hr. rewrite Z.add_0_r in Hr. by exists s. }
  change ((op :: ops) ≫= op_known) with (op_known op ++ (ops ≫= op_known)) in Hr.
  pose proof (zlength_nonneg (ops ≫= op_known)). pose proof (zlength_nonneg (op_known op)).
  rewrite zlength_app in Hr. pose proof Hr as (Hring & _ & after & _ & Hroom). pose proof (zlength_nonneg after).
  destruct (op_ring op s Hring ltac:(lia)) as (s0 & s1 & s' & Hs0 & Hins & Hs' & ->). cbn [obind].
  destruct (insert_all_remembered t (op_known op) (room + zlength (ops ≫= op_known)) s0) as (s1' & E & Hr1 & _); [|lia|].
  { eapply remembered_same; [exact Hs0|]. by replace (room + zlength (ops ≫= op_known) + zlength (op_known op))
      with (room + (zlength (op_known op) + zlength (ops ≫= op_known))) by lia. }
  rewrite Hins in E. injection E as <-. apply IH; [by eapply remembered_same|done].
Qed.

Lemma run_ring ops : forall s,
  ring_ok (known s) (known_order s) (known_capacity s) -> 0 <= known_capacity s ->
  exists s', tx_run ops s = Ok s' /\ ring_ok (known s') (known_order s') (known_capacity s')
    /\ known_capacity s' = known_capacity s.
Proof.
  induction ops as [|op ops IH]; intros s Hr Hc; cbn [tx_run]; [by exists s|].
  destruct (op_ring op s Hr Hc) as (s0 & s1 & s' & (A1 & A2 & A3) & Hins & (B1 & B2 & B3) & ->). cbn [obind].
  destruct (insert_all_ok (op_known op) s0) as (s1' & E & Hr1 & _ & _ & _ & Hc1); [by rewrite A1, A2, A3|by rewrite A3|].
  rewrite Hins in E. injection E as <-.
  destruct (IH s') as (s2 & -> & Hr2 & Hc2); [by rewrite B1, B2, B3|by rewrite B3, Hc1, A3|].
  exists s2. split_and!; [done..|congruence].
Qed.

Lemma tx_run_app ops ops' : forall s s1, tx_run ops s = Ok s1 -> tx_run (ops ++ ops') s = tx_run ops' s1.
Proof.
  induction ops as [|o ops IH]; intros s s1 H1; cbn [tx_run app] in *; [by injection H1 as <-|].
  destruct (tx_apply o s) as [w| | |]; cbn [obind] in *; try done. by apply IH.
Qed.


End Facts.

(** ** What the server does instead *)

(** The server filters under one lock and marks under another: two peers
    that advertise the same transaction at the same time are both asked for it,
    and the first answer makes the record forget that the second is still being
    fetched. And it acknowledges by number: an identifier it deferred for lack
    of budget is acknowledged with the next reply although it was never fetched,
    so that the peer drops it. *)
Theorem tx_fetch_gaps :
  (exists (t : TxId) (s1 s2 : @TxState Z _ _),
     tx_run [TxFilter 1 [t]; TxFilter 2 [t]; TxMarkSized 1 [(t, 300)]; TxMarkSized 2 [(t, 300)]]
       (TxState_new DEFAULT_KNOWN_CAPACITY) = Ok s1
     /\ (forall p, p = 1 \/ p = 2 -> exists ps, tx_peers s1 !! p = Some ps /\ t ∈ in_flight ps)
     /\ tx_apply (TxReceived 1 [t]) s1 = Ok s2
     /\ (t ∉ global_in_flight s2) /\ exists ps, tx_peers s2 !! 2 = Some ps /\ t ∈ in_flight ps)
  /\ (exists (first second : list (TxId * Z)) (r1 r2 : Round) (s1 s2 s3 : @TxState Z _ _) (t : TxId),
       tx_round 1 first (TxState_new DEFAULT_KNOWN_CAPACITY) = (r1, s1)
       /\ finish_round 1 (rd_request r1) true s1 = Ok s2 /\ tx_round 1 second s2 = (r2, s3)
       /\ t ∈ take (Z.to_nat (rd_ack r1 + rd_ack r2)) (fst <$> first ++ second)
       /\ (t ∉ rd_request r1) /\ (t ∉ rd_request r2) /\ (t ∉ known s3)).
Proof.
  split.
  - exists [7]. eexists _, _. split; [vm_compute; reflexivity|]. split_and!.
    + intros p [-> | ->]; eexists; (split; [vm_compute; reflexivity|]); by apply (bool_decide_unpack _); vm_compute.
    + vm_compute. reflexivity.
    + by apply (bool_decide_unpack _); vm_compute.
    + eexists. split; [vm_compute; reflexivity|]. by apply (bool_decide_unpack _); vm_compute.
  - exists [([1], 65536); ([2], 1)], [([3], 1)]. eexists _, _, _, _, _, [2].
    split; [vm_compute; reflexivity|]. split; [vm_compute; reflexivity|]. split; [vm_compute; reflexivity|].
    split_and!; by apply (bool_decide_unpack _); vm_compute.
Qed.

Lemma tx_state_accounting_witness :
  exists s, tx_run [TxRegister 1; TxFilter 1 [[7]; [8]]; TxMarkSized 1 [([7], 300); ([8], 200)];
                    TxReceived 1 [[7]]; TxConfirmed [[8]; [9]]] (TxState_new 2) = Ok s
    /\ @tx_ok Z _ _ s.
Proof.
  apply (tx_state_accounting [TxRegister 1; TxFilter 1 [[7]; [8]]; TxMarkSized 1 [([7], 300); ([8], 200)];
    TxReceived 1 [[7]]; TxConfirmed [[8]; [9]]] 2).
  - done.
  - cbn. repeat constructor; cbn; lia.
  - vm_compute. discriminate.
Defined.

