(* ===== verification/WitnessSet.v ===== *)
(** * Witness sets

    What a transaction carries beside its body: key and bootstrap signatures,
    native and Plutus scripts, datums and redeemers. Model of
    [ShelleyVkeyWitness], [BootstrapWitness] and [ShelleyWitnessSet] of
    [crates/ledger/src/eras/shelley.rs] and of [Redeemer] of
    [eras/alonzo.rs], with their codecs. *)

From S2P Require Import Prelude Cbor CborFacts CborSkip Types AddressFacts NativeScript.
From S2P Require Import TypesCodec ProtocolParams MiniProtocol PlutusData Uplc Builtins ScriptContext Utxo TxOutCodec.
Local Open Scope Z_scope.

Record ShelleyVkeyWitness := mkVkeyWitness { vw_vkey : list Z; vw_signature : list Z }.
Record BootstrapWitness := mkBootstrap {
  bw_public_key : list Z;
  bw_signature : list Z;
  bw_chain_code : list Z;
  bw_attributes : list Z }.
Record Redeemer := mkRedeemer {
  rd_tag : Z;
  rd_index : Z;
  rd_data : PlutusData;
  rd_ex_units : ExUnits }.
Record ShelleyWitnessSet := mkWitnessSet {
  ws_vkey_witnesses : list ShelleyVkeyWitness;
  ws_native_scripts : list NativeScript;
  ws_bootstrap_witnesses : list BootstrapWitness;
  ws_plutus_v1_scripts : list (list Z);
  ws_plutus_data : list PlutusData;
  ws_redeemers : list Redeemer;
  ws_plutus_v2_scripts : list (list Z);
  ws_plutus_v3_scripts : list (list Z) }.
#[export] Instance ShelleyWitnessSet_eta : Eta ShelleyWitnessSet := fun w =>
  mkWitnessSet (ws_vkey_witnesses w) (ws_native_scripts w) (ws_bootstrap_witnesses w)
    (ws_plutus_v1_scripts w) (ws_plutus_data w) (ws_redeemers w) (ws_plutus_v2_scripts w)
    (ws_plutus_v3_scripts w).
Definition empty_witness_set : ShelleyWitnessSet := mkWitnessSet [] [] [] [] [] [] [] [].

(** ** Entries *)

Definition ShelleyVkeyWitness_encode (w : ShelleyVkeyWitness) : list Z :=
  Encoder_array 2 ++ Encoder_bytes (vw_vkey w) ++ Encoder_bytes (vw_signature w).
Definition ShelleyVkeyWitness_decode : Dec ShelleyVkeyWitness :=
  len <- Decoder_array ;; expect_len 2 len ;;;
  vkey <- decode_fixed 32 ;;
  signature <- decode_fixed 64 ;;
  dret (mkVkeyWitness vkey signature).

Definition BootstrapWitness_encode (w : BootstrapWitness) : list Z :=
  Encoder_array 4 ++ Encoder_bytes (bw_public_key w) ++ Encoder_bytes (bw_signature w)
  ++ Encoder_bytes (bw_chain_code w) ++ Encoder_bytes (bw_attributes w).
Definition BootstrapWitness_decode : Dec BootstrapWitness :=
  len <- Decoder_array ;; expect_len 4 len ;;;
  public_key <- decode_fixed 32 ;;
  signature <- decode_fixed 64 ;;
  chain_code <- decode_fixed 32 ;;
  attributes <- Decoder_bytes ;;
  dret (mkBootstrap public_key signature chain_code attributes).

(** [pd.encode_cbor] writes [encoding pd]: lemma [encode_cbor_encoding]. *)
Definition Redeemer_encode (r : Redeemer) : list Z :=
  Encoder_array 4 ++ Encoder_unsigned (rd_tag r) ++ Encoder_unsigned (rd_index r)
  ++ encoding (rd_data r) ++ ExUnits_encode (rd_ex_units r).
Definition Redeemer_decode : Dec Redeemer :=
  len <- Decoder_array ;; expect_len 4 len ;;;
  tag <- Decoder_unsigned ;;
  index <- Decoder_unsigned ;;
  data <- PlutusData_decode_cbor ;;
  ex_units <- ExUnits_decode ;;
  dret (mkRedeemer (wrap8 tag) index data ex_units).

(** An entry of the map format of Conway. *)
Definition redeemer_entry_decode : Dec Redeemer :=
  kl <- Decoder_array ;; expect_len 2 kl ;;;
  tag <- Decoder_unsigned ;;
  index <- Decoder_unsigned ;;
  vl <- Decoder_array ;; expect_len 2 vl ;;;
  data <- PlutusData_decode_cbor ;;
  ex_units <- ExUnits_decode ;;
  dret (mkRedeemer (wrap8 tag) index data ex_units).

(** ** The set *)

(** A field that is written only when it has entries. *)
Definition list_field {A} (key : Z) (enc : A -> list Z) (items : list A) : list Z :=
  match items with
  | [] => []
  | _ => Encoder_unsigned key ++ Encoder_array (zlength items) ++ concat (map enc items)
  end.
Definition field_present {A} (items : list A) : Z := match items with [] => 0 | _ => 1 end.

Definition ShelleyWitnessSet_encode (w : ShelleyWitnessSet) : list Z :=
  Encoder_map (field_present (ws_vkey_witnesses w) + field_present (ws_native_scripts w)
               + field_present (ws_bootstrap_witnesses w) + field_present (ws_plutus_v1_scripts w)
               + field_present (ws_plutus_data w) + field_present (ws_redeemers w)
               + field_present (ws_plutus_v2_scripts w) + field_present (ws_plutus_v3_scripts w))
  ++ list_field 0 ShelleyVkeyWitness_encode (ws_vkey_witnesses w)
  ++ list_field 1 script_encoding (ws_native_scripts w)
  ++ list_field 2 BootstrapWitness_encode (ws_bootstrap_witnesses w)
  ++ list_field 3 Encoder_bytes (ws_plutus_v1_scripts w)
  ++ list_field 4 encoding (ws_plutus_data w)
  ++ list_field 5 Redeemer_encode (ws_redeemers w)
  ++ list_field 6 Encoder_bytes (ws_plutus_v2_scripts w)
  ++ list_field 7 Encoder_bytes (ws_plutus_v3_scripts w).

Definition begin_array_or_set : Dec (option Z) :=
  major <- dget Decoder_peek_major ;;
  if major =? 6 then
    tag <- Decoder_tag ;;
    if negb (tag =? 258) then derr (CborInvalidLength 258 tag) else Decoder_array_begin
  else Decoder_array_begin.

(** [push] for a known number of items, or up to the break. *)
Definition push_items {A} (len : option Z) (item : Dec A) (acc : list A) : Dec (list A) :=
  let push acc := x <- item ;; dret (acc ++ [x]) in
  match len with
  | Some count => dfor count push acc
  | None => until_break push acc
  end.
Definition decode_pushed {A} (item : Dec A) (acc : list A) : Dec (list A) :=
  len <- begin_array_or_set ;; push_items len item acc.

Definition decode_redeemers (acc : list Redeemer) : Dec (list Redeemer) :=
  major <- dget Decoder_peek_major ;;
  if major =? 4 then len <- Decoder_array_begin ;; push_items len Redeemer_decode acc
  else if major =? 5 then len <- Decoder_map_begin ;; push_items len redeemer_entry_decode acc
  else derr (CborTypeMismatch 4 major).

Definition decode_witness_field (w : ShelleyWitnessSet) : Dec ShelleyWitnessSet :=
  key <- Decoder_unsigned ;;
  match key with
  | 0 => l <- decode_pushed ShelleyVkeyWitness_decode (ws_vkey_witnesses w) ;;
         dret (w <| ws_vkey_witnesses := l |>)
  | 1 => l <- decode_pushed NativeScript_decode_cbor (ws_native_scripts w) ;;
         dret (w <| ws_native_scripts := l |>)
  | 2 => l <- decode_pushed BootstrapWitness_decode (ws_bootstrap_witnesses w) ;;
         dret (w <| ws_bootstrap_witnesses := l |>)
  | 3 => l <- decode_pushed Decoder_bytes (ws_plutus_v1_scripts w) ;;
         dret (w <| ws_plutus_v1_scripts := l |>)
  | 4 => l <- decode_pushed PlutusData_decode_cbor (ws_plutus_data w) ;;
         dret (w <| ws_plutus_data := l |>)
  | 5 => l <- decode_redeemers (ws_redeemers w) ;; dret (w <| ws_redeemers := l |>)
  | 6 => l <- decode_pushed Decoder_bytes (ws_plutus_v2_scripts w) ;;
         dret (w <| ws_plutus_v2_scripts := l |>)
  | 7 => l <- decode_pushed Decoder_bytes (ws_plutus_v3_scripts w) ;;
         dret (w <| ws_plutus_v3_scripts := l |>)
  | _ => Decoder_skip ;;; dret w
  end.
Definition ShelleyWitnessSet_decode : Dec ShelleyWitnessSet :=
  decode_entries decode_witness_field empty_witness_set.

(** ** Round trip *)

Record redeemer_ok (r : Redeemer) : Prop := {
  ro_tag : 0 <= rd_tag r <= 255;
  ro_index : u64 (rd_index r);
  ro_data : data_ok (rd_data r) /\ depth (rd_data r) <= MAX_DECODE_DEPTH;
  ro_units : ex_units_ok (rd_ex_units r) }.
Definition vkey_witness_ok (w : ShelleyVkeyWitness) : Prop :=
  zlength (vw_vkey w) = 32 /\ zlength (vw_signature w) = 64.
Definition bootstrap_ok (w : BootstrapWitness) : Prop :=
  zlength (bw_public_key w) = 32 /\ zlength (bw_signature w) = 64 /\ zlength (bw_chain_code w) = 32.
Record witness_set_ok (w : ShelleyWitnessSet) : Prop := {
  wo_vkeys : Forall vkey_witness_ok (ws_vkey_witnesses w);
  wo_native : Forall (fun s => script_ok s /\ script_depth s <= NATIVE_MAX_DECODE_DEPTH) (ws_native_scripts w);
  wo_bootstrap : Forall bootstrap_ok (ws_bootstrap_witnesses w);
  wo_data : Forall (fun d => data_ok d /\ depth d <= MAX_DECODE_DEPTH) (ws_plutus_data w);
  wo_redeemers : Forall redeemer_ok (ws_redeemers w) }.

Lemma decodes_vkey_witness w :
  vkey_witness_ok w -> decodes ShelleyVkeyWitness_decode (ShelleyVkeyWitness_encode w) w.
Proof.
  destruct w. intros [Hk Hs]. unfold ShelleyVkeyWitness_decode, ShelleyVkeyWitness_encode. cbn [vw_vkey vw_signature] in *.
  do 2 codec_step. eapply decodes_bind; [by apply decodes_fixed|].
  eapply decodes_bind_ret; [by apply decodes_fixed|apply decodes_ret].
Qed.

Lemma decodes_bootstrap w :
  bootstrap_ok w -> decodes BootstrapWitness_decode (BootstrapWitness_encode w) w.
Proof.
  destruct w. intros (Hk & Hs & Hc). unfold BootstrapWitness_decode, BootstrapWitness_encode. cbn [bw_public_key bw_signature bw_chain_code bw_attributes] in *.
  do 2 codec_step. do 3 (eapply decodes_bind; [by apply decodes_fixed|]).
  eapply decodes_bind_ret; [apply decodes_bytes|apply decodes_ret].
Qed.

Lemma decodes_redeemer r : redeemer_ok r -> decodes Redeemer_decode (Redeemer_encode r) r.
Proof.
  destruct r as [tag index data units]. intros [Ht Hi [Hd Hdep] Hu].
  unfold Redeemer_decode, Redeemer_encode. cbn [rd_tag rd_index rd_data rd_ex_units] in *.
  do 2 codec_step. eapply decodes_bind; [apply decodes_unsigned, u64_small; lia|].
  eapply decodes_bind; [by apply decodes_unsigned|].
  eapply decodes_bind; [by apply decodes_plutus_data|].
  eapply decodes_bind_ret; [by apply decodes_ExUnits|]. rewrite wrap8_id by (unfold u8, U8_MAX; lia). apply decodes_ret.
Qed.

(** *** Lists *)

Lemma decodes_push {A} (items acc : list A) (enc : A -> list Z) (item : Dec A) :
  (forall x, x ∈ items -> decodes item (enc x) x) ->
  decodes (push_items (Some (zlength items)) item acc) (concat (map enc items)) (acc ++ items).
Proof.
  intros Hi. unfold push_items.
  replace (acc ++ items) with (foldl (fun l x => l ++ [x]) acc items).
  - apply (decodes_dfor items enc (fun l x => l ++ [x])). intros l x Hx.
    eapply decodes_bind_ret; [by apply Hi|apply decodes_ret].
  - clear Hi. revert acc. induction items as [|x items IH]; intros acc; simpl; [by rewrite app_nil_r|].
    rewrite IH. by rewrite <- (assoc_L (++)).
Qed.

Lemma array_head_major n bs : 0 <= n -> first_major (Encoder_array n ++ bs) = Some 4.
Proof. intros Hn. apply first_major_app, first_major_write; [unfold MAJOR_ARRAY; lia|done]. Qed.

Section list_fields.
  Context {A : Type} (items : list A) (enc : A -> list Z) (item : Dec A).
  Hypothesis Hitem : forall x, x ∈ items -> decodes item (enc x) x /\ 1 <= zlength (enc x).

Lemma items_fit bs : zlength (bs ++ concat (map enc items)) <= ISIZE_MAX -> u64 (zlength items).
Proof.
  intros Hfit. apply u64_zlength. rewrite zlength_app in Hfit.
  pose proof (zlength_concat items enc (fun x Hx => proj2 (Hitem x Hx))). pose proof (zlength_nonneg bs). lia.
Qed.

Lemma decodes_pushed :
  decodes (decode_pushed item []) (Encoder_array (zlength items) ++ concat (map enc items)) items.
Proof.
  apply decodes_if_fits. intros Hfit. unfold decode_pushed, begin_array_or_set.
  eapply decodes_bind; [|apply decodes_push; intros; by apply Hitem].
  eapply decodes_peek; [rewrite <- (app_nil_r (Encoder_array _)); apply peek_major_at, array_head_major, zlength_nonneg|].
  cbn [Z.eqb Pos.eqb]. apply decodes_array_begin. by eapply items_fit.
Qed.

End list_fields.

(** A field that is present only when it has entries. *)
Lemma read_list_field {A S} (items : list A) (enc : A -> list Z) (m : S -> Dec S) (upd : list A -> S) key n s rest r :
  0 <= n -> s = upd [] ->
  (decodes (m s) (Encoder_unsigned key ++ Encoder_array (zlength items) ++ concat (map enc items)) (upd items)) ->
  decodes (dfor n m (upd items)) rest r ->
  decodes (dfor (field_present items + n) m s) (list_field key enc items ++ rest) r.
Proof.
  intros Hn -> Hm Hrest. unfold list_field, field_present. destruct items as [|x l].
  - by cbn [app].
  - by eapply decodes_dfor_step.
Qed.


Lemma data_nonempty d : data_ok d -> depth d <= MAX_DECODE_DEPTH -> 1 <= zlength (encoding d).
Proof.
  intros Hok Hdep. destruct (Z_le_gt_dec (zlength (encoding d)) ISIZE_MAX) as [Hl|Hl]; [|unfold ISIZE_MAX in Hl; lia].
  destruct (encoding_reads_as MAX_DECODE_DEPTH d Hok [] [] []) as (n & Hn & _); [done|by rewrite app_nil_r|].
  unfold zlength. lia.
Qed.
Lemma native_nonempty s : 1 <= zlength (script_encoding s).
Proof. pose proof (encoding_longer [s]) as H. cbn [map concat] in H. by rewrite app_nil_r in H. Qed.

Lemma decodes_redeemers l :
  Forall redeemer_ok l ->
  decodes (decode_redeemers []) (Encoder_array (zlength l) ++ concat (map Redeemer_encode l)) l.
Proof.
  rewrite Forall_forall. intros Hl. apply decodes_if_fits. intros Hfit. unfold decode_redeemers.
  eapply decodes_peek; [apply peek_major_at, array_head_major, zlength_nonneg|]. cbn [Z.eqb Pos.eqb].
  eapply decodes_bind; [apply decodes_array_begin|apply decodes_push; intros; by apply decodes_redeemer, Hl].
  eapply (items_fit l Redeemer_encode Redeemer_decode); [|exact Hfit].
  intros r Hr. split; [by apply decodes_redeemer, Hl|]. apply nonempty_app, write_nonempty.
Qed.

Lemma field_present_range {A} (l : list A) : 0 <= field_present l <= 1.
Proof. destruct l; simpl; lia. Qed.

Lemma decodes_keyed k rest a (f : Z -> Dec ShelleyWitnessSet) :
  0 <= k <= 7 -> decodes (f k) rest a -> decodes (key <- Decoder_unsigned ;; f key) (Encoder_unsigned k ++ rest) a.
Proof. intros Hk Hf. eapply decodes_bind; [apply decodes_unsigned, u64_small; lia|exact Hf]. Qed.
Lemma bytes_item x : decodes Decoder_bytes (Encoder_bytes x) x /\ 1 <= zlength (Encoder_bytes x).
Proof. split; [apply decodes_bytes|apply nonempty_app, write_nonempty]. Qed.

(** The field [l], read into the set [upd l]. *)
Ltac read_field l enc upd :=
  eapply (read_list_field l enc _ upd); [lia|done| |];
  [apply decodes_keyed; [lia|]; (eapply decodes_bind_ret; [|apply decodes_ret]);
   try (apply decodes_pushed; intros x Hx; first [apply bytes_item|split; [|apply nonempty_app, write_nonempty]|idtac])|].

(** The set is read back from its encoding. *)
Lemma decodes_witness_set w :
  witness_set_ok w -> decodes ShelleyWitnessSet_decode (ShelleyWitnessSet_encode w) w.
Proof.
  destruct w as [vk ns bs v1 pd rd v2 v3]. intros [Hvk Hns Hbs Hpd Hrd].
  cbn [ws_vkey_witnesses ws_native_scripts ws_bootstrap_witnesses ws_plutus_data ws_redeemers] in *.
  rewrite ?Forall_forall in *. unfold ShelleyWitnessSet_decode, ShelleyWitnessSet_encode, decode_entries, empty_witness_set.
  cbn [ws_vkey_witnesses ws_native_scripts ws_bootstrap_witnesses ws_plutus_v1_scripts ws_plutus_data ws_redeemers
       ws_plutus_v2_scripts ws_plutus_v3_scripts].
  pose proof (field_present_range vk). pose proof (field_present_range ns). pose proof (field_present_range bs).
  pose proof (field_present_range v1). pose proof (field_present_range pd). pose proof (field_present_range rd).
  pose proof (field_present_range v2). pose proof (field_present_range v3).
  eapply decodes_bind; [apply decodes_map_begin, u64_small; lia|]. cbv iota.
  rewrite <- !Z.add_assoc, <- (Z.add_0_r (field_present v3)), <- (app_nil_r (list_field 7 _ _)).
  read_field vk ShelleyVkeyWitness_encode (fun l => mkWitnessSet l [] [] [] [] [] [] []).
  { by apply decodes_vkey_witness, Hvk. }
  read_field ns script_encoding (fun l => mkWitnessSet vk l [] [] [] [] [] []).
  { destruct (Hns x Hx). split; [by apply decodes_native_script|apply native_nonempty]. }
  read_field bs BootstrapWitness_encode (fun l => mkWitnessSet vk ns l [] [] [] [] []).
  { by apply decodes_bootstrap, Hbs. }
  read_field v1 Encoder_bytes (fun l => mkWitnessSet vk ns bs l [] [] [] []).
  read_field pd encoding (fun l => mkWitnessSet vk ns bs v1 l [] [] []).
  { destruct (Hpd x Hx). split; [by apply decodes_plutus_data|by apply data_nonempty]. }
  read_field rd Redeemer_encode (fun l => mkWitnessSet vk ns bs v1 pd l [] []).
  { apply decodes_redeemers. by apply Forall_forall. }
  read_field v2 Encoder_bytes (fun l => mkWitnessSet vk ns bs v1 pd rd l []).
  read_field v3 Encoder_bytes (fun l => mkWitnessSet vk ns bs v1 pd rd v2 l).
  apply read_end.
Qed.

Theorem witness_set_round_trip w :
  witness_set_ok w -> zlength (ShelleyWitnessSet_encode w) <= ISIZE_MAX ->
  from_cbor_bytes ShelleyWitnessSet_decode (ShelleyWitnessSet_encode w) = Ok w.
Proof. intros Hw. by apply from_cbor_bytes_decodes, decodes_witness_set. Qed.
