(* ===== verification/Witnesses.v ===== *)
(** * Who must sign, and which scripts must run

    Model of [crates/ledger/src/witnesses.rs] and of the witness checks of
    [crates/ledger/src/state/phase1_validation.rs]: the keys and scripts that a
    transaction needs for its inputs, certificates, withdrawals, votes,
    proposals and mints; the signatures it carries; native scripts; scripts
    that are missing or not asked for. A [HashSet] is a finite set; where the
    code returns the first offender of a traversal, the error carries the first
    one in the order of [elements].

    Signatures are the class [Ed25519], hashes those of [PlutusCrypto]. *)

From stdpp Require Import gmap list.
From S2P Require Import Prelude Cbor CborFacts CborSkip Types AddressFacts TypesCodec BTree ProtocolParams.
From S2P Require Import NativeScript PlutusData Uplc CostModel GenesisCosts Builtins ScriptContext PlutusEval Utxo UtxoBalance.
From S2P Require Import Fees Staking Governance LedgerState EpochBoundary Certificates WitnessSet SumKes.
Local Open Scope Z_scope.

Abbreviation HashSet28 := (gset (list Z)).

(** The variants of [LedgerError] that the rules for transactions return. *)
Inductive TxError :=
  | TxLedger (e : LedgerError)
  | TxCert (e : CertError)
  | TxEval (e : EvalError)
  | MissingVKeyWitness (hash : list Z)
  | InvalidVKeyWitnessSignature (hash : list Z)
  | InvalidBootstrapWitnessAttributes (attributes : list Z)
  | InvalidBootstrapWitnessSignature (hash : list Z)
  | MIRInsufficientGenesisSigs (required present : Z)
  | MalformedScriptWitnesses (hashes : list (list Z))
  | MalformedReferenceScripts (hashes : list (list Z))
  | NativeScriptFailed (hash : list Z)
  | MissingScriptWitness (hash : list Z)
  | ExtraneousScriptWitness (hash : list Z)
  | AuxiliaryDataHashMismatch (declared computed : list Z)
  | AuxiliaryDataMissing
  | MissingTxBodyMetadataHash
  | InvalidMetadata
  | WrongNetwork (expected found : Z)
  | WrongNetworkWithdrawal (expected found : Z)
  | WrongNetworkInTxBody (expected found : Z)
  | UnexpectedScriptIntegrityHash (declared : list Z)
  | MissingRequiredScriptIntegrityHash
  | ScriptIntegrityHashMismatch (declared computed : list Z)
  | PPViewHashesDontMatch (declared computed : list Z)
  | MissingRedeemer (hash : list Z)
  | ExtraRedeemer (tag index : Z)
  | MissingRequiredDatums (hash : list Z)
  | NotAllowedSupplementalDatums (hash : list Z)
  | UnspendableUTxONoDatumHash (tx_id : list Z) (index : Z)
  | MissingDatum (tx_id : list Z) (index : Z)
  | NoCostModel (language : Z)
  | SubmittedTxIsInvalid
  | CurrentTreasuryValueIncorrect (supplied actual : Z)
  | WithdrawalNotDelegatedToDRep (credential : list Z)
  | VotersDoNotExist (voters : list Voter)
  | UnelectedCommitteeVoters (credentials : list StakeCredential)
  | GovActionsDoNotExist (ids : list GovActionId)
  | DisallowedVotesDuringBootstrap (votes : list (Voter * GovActionId))
  | VotingOnExpiredGovAction (votes : list (Voter * GovActionId))
  | DisallowedVoters (votes : list (Voter * GovActionId))
  | DisallowedProposalDuringBootstrap (proposal : ProposalProcedure)
  | TxMalformedProposal (action : GovAction)
  | InvalidPrevGovActionId (proposal : ProposalProcedure)
  | ProposalCantFollow (prev_action_id : option GovActionId) (supplied expected : Z * Z)
  | MissingProtocolVersionForHardFork (proposal : ProposalProcedure)
  | ProposalDepositIncorrect (supplied expected : Z)
  | InvalidRewardAccountBytes (bytes : list Z)
  | ProposalProcedureNetworkIdMismatch (account : RewardAccount) (expected_network : Z)
  | ProposalReturnAccountDoesNotExist (account : RewardAccount)
  | TreasuryWithdrawalsNetworkIdMismatch (account : RewardAccount) (expected_network : Z)
  | TreasuryWithdrawalReturnAccountsDoNotExist (accounts : list RewardAccount)
  | ZeroTreasuryWithdrawals (action : GovAction)
  | InvalidGuardrailsScriptHash (proposal_hash constitution_hash : option (list Z))
  | WellFormedUnitIntervalRatification (numerator denominator : Z)
  | ConflictingCommitteeUpdate (members : list StakeCredential)
  | ExpirationEpochTooSmall (members : list (StakeCredential * Z))
  | ZeroDonation.
Abbreviation tx_outcome := (outcome TxError).
Definition ledger {A} (m : outcome LedgerError A) : tx_outcome A := map_err TxLedger m.

Section Witnesses.
Context `{Ed25519, PlutusCrypto}.

(** The trait through which the ledger runs scripts. *)
Record PlutusEvaluator := mkPlutusEvaluator {
  pev_evaluate : PlutusScriptEval -> TxContext -> outcome EvalError unit;
  pev_is_script_well_formed : PlutusVersion -> option (Z * Z) -> list Z -> tx_outcome bool }.

(** ** Signatures *)

Definition validate_vkey_witnesses (required_hashes witness_vkey_hashes : HashSet28) : tx_outcome unit :=
  check_all (fun required =>
      if bool_decide (required ∈ witness_vkey_hashes) then Ok tt else Err (MissingVKeyWitness required))
    (elements required_hashes).

Definition vkey_hash (vkey : list Z) : list Z := hash_bytes_224 vkey.
Definition witness_vkey_hash_set (witnesses : list ShelleyVkeyWitness) : HashSet28 :=
  list_to_set (map (fun w => vkey_hash (vw_vkey w)) witnesses).

Definition verify_vkey_signatures (tx_body_hash : list Z) (witnesses : list ShelleyVkeyWitness)
    : tx_outcome unit :=
  check_all (fun w =>
      map_err (fun _ => InvalidVKeyWitnessSignature (vkey_hash (vw_vkey w)))
        (VerificationKey_verify (vw_vkey w) tx_body_hash (vw_signature w))) witnesses.

(** The attributes are one map and nothing else. *)
Definition check_attributes (attributes : list Z) : tx_outcome unit :=
  let invalid {A} (m : outcome LedgerError A) : tx_outcome A :=
    map_err (fun _ => InvalidBootstrapWitnessAttributes attributes) m in
  let? (map_len, dec) := invalid (Decoder_map (Decoder_new attributes)) in
  let? (_, dec) := invalid (dfor map_len (fun _ => Decoder_skip ;;; Decoder_skip) tt dec) in
  if negb (Decoder_position dec =? zlength attributes)
  then Err (InvalidBootstrapWitnessAttributes attributes) else Ok tt.
Definition verify_bootstrap_witnesses (tx_body_hash : list Z) (witnesses : list BootstrapWitness)
    : tx_outcome unit :=
  check_all (fun w =>
      let? _ := check_attributes (bw_attributes w) in
      map_err (fun _ => InvalidBootstrapWitnessSignature (vkey_hash (bw_public_key w)))
        (VerificationKey_verify (bw_public_key w) tx_body_hash (bw_signature w))) witnesses.

Definition BOOTSTRAP_PREFIX : list Z := [131; 0; 130; 0; 88; 64].
Definition bootstrap_witness_key_hash (w : BootstrapWitness) : list Z :=
  hash_bytes_224
    (sha3_256_hash (BOOTSTRAP_PREFIX ++ bw_public_key w ++ bw_chain_code w ++ bw_attributes w)).
Definition bootstrap_witness_key_hash_set (witnesses : list BootstrapWitness) : HashSet28 :=
  list_to_set (map bootstrap_witness_key_hash witnesses).

(** ** Required keys *)

Definition key_hash_of (c : StakeCredential) : HashSet28 :=
  match c with AddrKeyHash h => {[ h ]} | ScriptHash _ => ∅ end.
Definition script_hash_of (c : StakeCredential) : HashSet28 :=
  match c with ScriptHash h => {[ h ]} | AddrKeyHash _ => ∅ end.

Definition required_vkey_hashes_from_ppup (proposed : list (GenesisHash * ProtocolParameterUpdate))
    (gen_delegs : list (GenesisHash * GenesisDelegationState)) (out : HashSet28) : HashSet28 :=
  foldl (fun out e =>
           match bt_get e.1 gen_delegs with
           | Some deleg => {[ gd_delegate deleg ]} ∪ out
           | None => out
           end) out proposed.

Definition required_vkey_hashes_from_cert (out : HashSet28) (c : DCert) : HashSet28 :=
  match c with
  | AccountRegistrationDeposit cred _ | AccountUnregistration cred
  | AccountUnregistrationDeposit cred _ | DelegationToStakePool cred _ | DelegationToDrep cred _
  | DelegationToStakePoolAndDrep cred _ _ | AccountRegistrationDelegationToStakePool cred _ _
  | AccountRegistrationDelegationToDrep cred _ _
  | AccountRegistrationDelegationToStakePoolAndDrep cred _ _ _
  | CommitteeAuthorization cred _ | CommitteeResignation cred _
  | DrepRegistration cred _ _ | DrepUnregistration cred _ | DrepUpdate cred _ => key_hash_of cred ∪ out
  | PoolRegistration params => {[ operator params ]} ∪ out
  | PoolRetirement pool _ => {[ pool ]} ∪ out
  | GenesisDelegation genesis_hash _ _ => {[ genesis_hash ]} ∪ out
  | AccountRegistration _ | MoveInstantaneousReward _ _ => out
  end.

Definition required_vkey_hashes_from_withdrawals (withdrawals : list (RewardAccount * Z))
    (out : HashSet28) : HashSet28 :=
  foldl (fun out e => key_hash_of (ra_credential e.1) ∪ out) out withdrawals.

(** The key, or the root of a Byron address, that controls an output. *)
Definition vkey_hashes_of_address (address : list Z) (out : HashSet28) : outcome LedgerError HashSet28 :=
  match Address_from_bytes address with
  | Some addr =>
      let out :=
        match Address_payment_credential addr with
        | Some cred => key_hash_of cred ∪ out
        | None => out
        end in
      match addr with
      | Byron raw =>
          let? root := byron_address_root raw in
          Ok (match root with Some root => {[ root ]} ∪ out | None => out end)
      | _ => Ok out
      end
  | None => Ok out
  end.
Fixpoint required_vkey_hashes_from_inputs_multi_era (inputs : list ShelleyTxIn) (utxo : MultiEraUtxo)
    (out : HashSet28) : outcome LedgerError HashSet28 :=
  match inputs with
  | [] => Ok out
  | txin :: inputs =>
      let? out :=
        match utxo !! txin with
        | Some txout => vkey_hashes_of_address (MultiEraTxOut_address txout) out
        | None => Ok out
        end in
      required_vkey_hashes_from_inputs_multi_era inputs utxo out
  end.

Definition required_vkey_hashes_from_voting_procedures (procedures : VotingProcedures)
    (out : HashSet28) : HashSet28 :=
  foldl (fun out e =>
           match e.1 with
           | Voter_CommitteeKeyHash h | Voter_DRepKeyHash h | Voter_StakePool h => {[ h ]} ∪ out
           | Voter_CommitteeScript _ | Voter_DRepScript _ => out
           end) out procedures.

(** ** Required scripts *)

Definition script_hashes_of_address (address : list Z) (out : HashSet28) : HashSet28 :=
  match Address_from_bytes address with
  | Some addr =>
      match Address_payment_credential addr with
      | Some cred => script_hash_of cred ∪ out
      | None => out
      end
  | None => out
  end.
Definition required_script_hashes_from_inputs_multi_era (inputs : list ShelleyTxIn)
    (utxo : MultiEraUtxo) (out : HashSet28) : HashSet28 :=
  foldl (fun out txin =>
           match utxo !! txin with
           | Some txout => script_hashes_of_address (MultiEraTxOut_address txout) out
           | None => out
           end) out inputs.

Definition required_script_hashes_from_cert (out : HashSet28) (c : DCert) : HashSet28 :=
  match c with
  | AccountRegistrationDeposit cred _ | AccountUnregistration cred
  | AccountUnregistrationDeposit cred _ | DelegationToStakePool cred _ | DelegationToDrep cred _
  | DelegationToStakePoolAndDrep cred _ _ | AccountRegistrationDelegationToStakePool cred _ _
  | AccountRegistrationDelegationToDrep cred _ _
  | AccountRegistrationDelegationToStakePoolAndDrep cred _ _ _
  | DrepRegistration cred _ _ | DrepUnregistration cred _ | DrepUpdate cred _
  | CommitteeAuthorization cred _ | CommitteeResignation cred _ => script_hash_of cred ∪ out
  | _ => out
  end.

Definition required_script_hashes_from_withdrawals (withdrawals : list (RewardAccount * Z))
    (out : HashSet28) : HashSet28 :=
  foldl (fun out e => script_hash_of (ra_credential e.1) ∪ out) out withdrawals.

Definition required_script_hashes_from_mint (mint : MintAsset) (out : HashSet28) : HashSet28 :=
  foldl (fun out e => {[ e.1 ]} ∪ out) out mint.

Definition required_script_hashes_from_voting_procedures (procedures : VotingProcedures)
    (out : HashSet28) : HashSet28 :=
  foldl (fun out e =>
           match e.1 with
           | Voter_CommitteeScript h | Voter_DRepScript h => {[ h ]} ∪ out
           | Voter_CommitteeKeyHash _ | Voter_DRepKeyHash _ | Voter_StakePool _ => out
           end) out procedures.

Definition required_script_hashes_from_proposal_procedures (proposals : list ProposalProcedure)
    (out : HashSet28) : HashSet28 :=
  foldl (fun out p =>
           match pp_gov_action p with
           | ParameterChange _ _ (Some h) | TreasuryWithdrawals _ (Some h) => {[ h ]} ∪ out
           | _ => out
           end) out proposals.

(** ** Signatures of the genesis delegates *)

Definition has_mir_cert (certs : option (list DCert)) : bool :=
  existsb (fun c => match c with MoveInstantaneousReward _ _ => true | _ => false end)
    (default [] certs).

Definition validate_mir_genesis_quorum_typed (certs : option (list DCert)) (gen_delg_hashes : HashSet28)
    (quorum : Z) (ws : ShelleyWitnessSet) : tx_outcome unit :=
  if negb (has_mir_cert certs) then Ok tt
  else if bool_decide (gen_delg_hashes = ∅) then Ok tt
  else
    let present := Z.of_nat (size (witness_vkey_hash_set (ws_vkey_witnesses ws) ∩ gen_delg_hashes)) in
    if present <? quorum then Err (MIRInsufficientGenesisSigs quorum present) else Ok tt.

Definition gen_delg_hash_set (gen_delegs : list (GenesisHash * GenesisDelegationState)) : HashSet28 :=
  list_to_set (map gd_delegate (bt_values gen_delegs)).

(** ** Scripts that can be read *)

Fixpoint malformed_scripts (evaluator : PlutusEvaluator) (protocol_version : option (Z * Z))
    (version : PlutusVersion) (scripts malformed : list (list Z)) : tx_outcome (list (list Z)) :=
  match scripts with
  | [] => Ok malformed
  | bytes :: scripts =>
      let? ok := pev_is_script_well_formed evaluator version protocol_version bytes in
      malformed_scripts evaluator protocol_version version scripts
        (if ok : bool then malformed else malformed ++ [plutus_script_hash version bytes])
  end.
Definition validate_script_witnesses_well_formed (ws : ShelleyWitnessSet) (evaluator : PlutusEvaluator)
    (protocol_version : option (Z * Z)) : tx_outcome unit :=
  let? malformed := malformed_scripts evaluator protocol_version PlutusV1 (ws_plutus_v1_scripts ws) [] in
  let? malformed := malformed_scripts evaluator protocol_version PlutusV2 (ws_plutus_v2_scripts ws) malformed in
  let? malformed := malformed_scripts evaluator protocol_version PlutusV3 (ws_plutus_v3_scripts ws) malformed in
  match malformed with [] => Ok tt | _ => Err (MalformedScriptWitnesses malformed) end.

Definition is_plutus_script_well_formed (script : Script) (evaluator : PlutusEvaluator)
    (protocol_version : option (Z * Z)) : tx_outcome bool :=
  match script with
  | Script_Native _ => Ok true
  | Script_PlutusV1 bytes => pev_is_script_well_formed evaluator PlutusV1 protocol_version bytes
  | Script_PlutusV2 bytes => pev_is_script_well_formed evaluator PlutusV2 protocol_version bytes
  | Script_PlutusV3 bytes => pev_is_script_well_formed evaluator PlutusV3 protocol_version bytes
  end.
Definition script_hash : Script -> list Z := script_hash_from_ref.

Fixpoint malformed_references (evaluator : PlutusEvaluator) (protocol_version : option (Z * Z))
    (outputs : list BabbageTxOut) (malformed : list (list Z)) : tx_outcome (list (list Z)) :=
  match outputs with
  | [] => Ok malformed
  | txout :: outputs =>
      let? malformed :=
        match bo_script_ref txout with
        | Some sref =>
            let? ok := is_plutus_script_well_formed sref evaluator protocol_version in
            Ok (if ok : bool then malformed else malformed ++ [script_hash sref])
        | None => Ok malformed
        end in
      malformed_references evaluator protocol_version outputs malformed
  end.
Definition validate_reference_scripts_well_formed (outputs : list BabbageTxOut)
    (collateral_return : option BabbageTxOut) (evaluator : PlutusEvaluator)
    (protocol_version : option (Z * Z)) : tx_outcome unit :=
  let? malformed :=
    malformed_references evaluator protocol_version (outputs ++ option_list collateral_return) [] in
  match malformed with [] => Ok tt | _ => Err (MalformedReferenceScripts malformed) end.

(** ** The checks of a transaction *)

Definition decode_witnesses (witness_bytes : list Z) : tx_outcome ShelleyWitnessSet :=
  ledger (from_cbor_bytes ShelleyWitnessSet_decode witness_bytes).

Definition validate_witnesses_typed (ws : ShelleyWitnessSet) (required : HashSet28)
    (tx_body_hash : list Z) : tx_outcome unit :=
  let provided :=
    witness_vkey_hash_set (ws_vkey_witnesses ws)
    ∪ bootstrap_witness_key_hash_set (ws_bootstrap_witnesses ws) in
  let? _ := validate_vkey_witnesses required provided in
  let? _ := verify_vkey_signatures tx_body_hash (ws_vkey_witnesses ws) in
  verify_bootstrap_witnesses tx_body_hash (ws_bootstrap_witnesses ws).

(** Without witness bytes nothing is checked. *)
Definition validate_witnesses_if_present (witness_bytes : option (list Z)) (required : HashSet28)
    (tx_body_hash : list Z) : tx_outcome unit :=
  match witness_bytes with
  | None => Ok tt
  | Some wb => let? ws := decode_witnesses wb in validate_witnesses_typed ws required tx_body_hash
  end.

Definition native_script_map (scripts : list NativeScript) : gmap (list Z) NativeScript :=
  foldl (fun m ns => <[native_script_hash ns := ns]> m) ∅ scripts.
Fixpoint check_native_scripts (script_map : gmap (list Z) NativeScript) (ctx : NativeScriptContext)
    (required : list (list Z)) (native_satisfied : HashSet28) : tx_outcome HashSet28 :=
  match required with
  | [] => Ok native_satisfied
  | required_hash :: required =>
      let? native_satisfied :=
        match script_map !! required_hash with
        | Some script =>
            let? ok := ledger (evaluate_native_script script ctx) in
            if negb ok then Err (NativeScriptFailed required_hash)
            else Ok ({[ required_hash ]} ∪ native_satisfied)
        | None => Ok native_satisfied
        end in
      check_native_scripts script_map ctx required native_satisfied
  end.
Definition validate_native_scripts_if_present (witness_bytes : option (list Z))
    (required_script_hashes : HashSet28) (slot : Z) : tx_outcome HashSet28 :=
  if bool_decide (required_script_hashes = ∅) then Ok ∅
  else
    match witness_bytes with
    | None => Ok ∅
    | Some wb =>
        let? ws := decode_witnesses wb in
        check_native_scripts (native_script_map (ws_native_scripts ws))
          (mkNativeContext (witness_vkey_hash_set (ws_vkey_witnesses ws)) slot)
          (elements required_script_hashes) ∅
    end.

Definition provided_script_hashes_from_witnesses (ws : ShelleyWitnessSet) : HashSet28 :=
  list_to_set (map native_script_hash (ws_native_scripts ws)
               ++ map (plutus_script_hash PlutusV1) (ws_plutus_v1_scripts ws)
               ++ map (plutus_script_hash PlutusV2) (ws_plutus_v2_scripts ws)
               ++ map (plutus_script_hash PlutusV3) (ws_plutus_v3_scripts ws)).

Definition collect_reference_script_hashes (utxo : MultiEraUtxo)
    (reference_inputs : option (list ShelleyTxIn)) : HashSet28 :=
  foldl (fun hashes txin =>
           match utxo !! txin ≫= MultiEraTxOut_script_ref with
           | Some sr => {[ script_hash sr ]} ∪ hashes
           | None => hashes
           end) ∅ (default [] reference_inputs).

Definition validate_no_extraneous_script_witnesses_typed (ws : ShelleyWitnessSet)
    (required_script_hashes : HashSet28) (reference_script_hashes : option HashSet28)
    : tx_outcome unit :=
  let needed_non_refs :=
    match reference_script_hashes with
    | Some refs => required_script_hashes ∖ refs
    | None => required_script_hashes
    end in
  check_all (fun hash =>
      if bool_decide (hash ∈ needed_non_refs) then Ok tt else Err (ExtraneousScriptWitness hash))
    (elements (provided_script_hashes_from_witnesses ws)).

(** ** Execution units *)

Definition sum_redeemer_ex_units (ws : ShelleyWitnessSet) : option ExUnits :=
  match ws_redeemers ws with
  | [] => None
  | redeemers =>
      Some (foldl (fun total r =>
                     mkExUnits (sat_add (ProtocolParams.mem total) (ProtocolParams.mem (rd_ex_units r)))
                       (sat_add (steps total) (steps (rd_ex_units r))))
              (mkExUnits 0 0) redeemers)
  end.
Definition validate_per_redeemer_ex_units_from_witness_set (ws : ShelleyWitnessSet)
    (params : ProtocolParameters) : outcome LedgerError unit :=
  validate_per_redeemer_ex_units params (map rd_ex_units (ws_redeemers ws)).
End Witnesses.
