(* ===== verification/ScriptRules.v ===== *)
(** * Redeemers, datums and script execution in the ledger

    Model of the ledger side of script validation,
    [crates/ledger/src/plutus_validation.rs]: which scripts a transaction
    provides, what each redeemer points to, the hash that binds redeemers,
    datums and cost models to the body, the rules on datums, and the run of
    every required Plutus script through the evaluator.

    The text of an error is left out. A [HashMap] is a finite map. *)

From stdpp Require Import gmap list sorting.
From S2P Require Import Prelude Cbor CborFacts CborSkip Types AddressFacts TypesCodec BTree ProtocolParams.
From S2P Require Import NativeScript PlutusData Uplc CostModel GenesisCosts Builtins ScriptContext PlutusEval.
From S2P Require Import Utxo TxOutCodec WitnessSet Witnesses.
Local Open Scope Z_scope.

Abbreviation PlutusScripts := (gmap (list Z) (PlutusVersion * list Z)).
Abbreviation DatumMap := (gmap (list Z) PlutusData).

#[export] Instance txin_le_dec : RelDecision txin_le.
Proof. intros a b. unfold txin_le. destruct (bytes_compare _ _); apply _. Defined.

(** What the pointers of a transaction index: inputs, policies and reward
    accounts in order, certificates, voters and proposals as listed. *)
Record ScriptItems := mkItems {
  si_inputs : list ShelleyTxIn;
  si_policies : list (list Z);
  si_certificates : list DCert;
  si_reward_accounts : list (list Z);
  si_voters : list Voter;
  si_proposals : list ProposalProcedure }.

Section ScriptRules.
Context `{PlutusCrypto}.

(** ** Scripts *)

Definition add_script (version : PlutusVersion) (scripts : PlutusScripts) (bytes : list Z) : PlutusScripts :=
  <[plutus_script_hash version bytes := (version, bytes)]> scripts.
Definition collect_plutus_scripts (ws : ShelleyWitnessSet) : PlutusScripts :=
  foldl (add_script PlutusV3)
    (foldl (add_script PlutusV2)
       (foldl (add_script PlutusV1) ∅ (ws_plutus_v1_scripts ws)) (ws_plutus_v2_scripts ws))
    (ws_plutus_v3_scripts ws).
Definition add_reference_script (utxo : MultiEraUtxo) (scripts : PlutusScripts) (txin : ShelleyTxIn)
    : PlutusScripts :=
  match utxo !! txin ≫= MultiEraTxOut_script_ref with
  | Some (Script_PlutusV1 bytes) => add_script PlutusV1 scripts bytes
  | Some (Script_PlutusV2 bytes) => add_script PlutusV2 scripts bytes
  | Some (Script_PlutusV3 bytes) => add_script PlutusV3 scripts bytes
  | _ => scripts
  end.
Definition collect_all_plutus_scripts (ws : ShelleyWitnessSet) (utxo : MultiEraUtxo)
    (reference_inputs spending_inputs : option (list ShelleyTxIn)) : PlutusScripts :=
  foldl (add_reference_script utxo) (collect_plutus_scripts ws)
    (default [] reference_inputs ++ default [] spending_inputs).

Definition validate_required_script_witnesses (witness_bytes : option (list Z))
    (required_script_hashes native_satisfied : HashSet28) (spending_utxo : MultiEraUtxo)
    (reference_inputs spending_inputs : option (list ShelleyTxIn)) : tx_outcome unit :=
  if bool_decide (required_script_hashes = ∅) then Ok tt
  else
    let check provided :=
      check_all (fun hash =>
          if bool_decide (hash ∈ native_satisfied) || provided hash then Ok tt
          else Err (MissingScriptWitness hash)) (elements required_script_hashes) in
    match witness_bytes with
    | None => check (fun _ => false)
    | Some wb =>
        let? ws := decode_witnesses wb in
        let plutus_scripts := collect_all_plutus_scripts ws spending_utxo reference_inputs spending_inputs in
        check (fun hash => bool_decide (is_Some (plutus_scripts !! hash)))
    end.

(** ** The script integrity hash *)

Definition encode_redeemers_for_script_data_hash (redeemers : list Redeemer) (conway_redeemer_format : bool)
    : list Z :=
  if conway_redeemer_format then
    let sorted :=
      merge_sort (fun a b => rd_tag a < rd_tag b \/ rd_tag a = rd_tag b /\ rd_index a <= rd_index b) redeemers in
    Encoder_map (zlength sorted)
    ++ concat (map (fun r =>
                      Encoder_array 2 ++ Encoder_unsigned (rd_tag r) ++ Encoder_unsigned (rd_index r)
                      ++ Encoder_array 2 ++ encoding (rd_data r) ++ ExUnits_encode (rd_ex_units r)) sorted)
  else Encoder_array (zlength redeemers) ++ concat (map Redeemer_encode redeemers).

Definition encode_datums_for_script_data_hash (datums : list PlutusData) : list Z :=
  match datums with
  | [] => []
  | _ => Encoder_array (zlength datums) ++ concat (map encoding datums)
  end.

(** One entry of the map: its value when the key is the wanted one. *)
Definition visit_entry (wanted_key : Z) : Dec (option (list Z)) :=
  key <- Decoder_unsigned ;;
  value <- span_item ;;
  dret (if key =? wanted_key then Some value else None).
Definition scan_entries (wanted_key : Z) (count : option Z) : Dec (option (list Z)) :=
  fun d =>
    loopM (dec_fuel d)
      (fun '(remaining, d) =>
         let finished := match remaining with Some n => n =? 0 | None => Decoder_is_break d end in
         if finished then
           match remaining with
           | Some _ => Ok (inr (None, d))
           | None => let? (_, d) := Decoder_consume_break d in Ok (inr (None, d))
           end
         else
           let? (found, d) := visit_entry wanted_key d in
           match found with
           | Some value => Ok (inr (Some value, d))
           | None => Ok (inl ((fun n => n - 1) <$> remaining, d))
           end)
      (count, d).
Definition extract_witness_set_field_raw (witness_bytes : list Z) (wanted_key : Z)
    : outcome LedgerError (option (list Z)) :=
  let? (value, _) :=
    (count <- Decoder_map_begin ;; scan_entries wanted_key count) (Decoder_new witness_bytes) in
  Ok value.

Definition encode_cost_model_values (values : list Z) (indefinite : bool) : list Z :=
  if indefinite then [159] ++ concat (map Encoder_signed values) ++ [255]
  else Encoder_array (zlength values) ++ concat (map Encoder_signed values).

(** [Vec::dedup] *)
Fixpoint dedup (l : list Z) : list Z :=
  match l with
  | x :: ((y :: _) as rest) => if x =? y then dedup rest else x :: dedup rest
  | _ => l
  end.
Definition used_languages (scripts : PlutusScripts) (required_script_hashes : option HashSet28) : list Z :=
  let used e := match required_script_hashes with
                | Some required => bool_decide (e.1 ∈ required)
                | None => true
                end in
  dedup (merge_sort Z.le
           (map (fun e => cost_model_key e.2.1) (List.filter used (map_to_list scripts)))).

(** Shorter keys first, then lexicographically. *)
Definition shortlex_le (a b : list Z * list Z) : Prop :=
  zlength a.1 < zlength b.1 \/ zlength a.1 = zlength b.1 /\ bytes_le a.1 b.1 = true.
#[export] Instance shortlex_le_dec : RelDecision shortlex_le.
Proof. intros a b. unfold shortlex_le. apply _. Defined.

Definition language_view (cost_models : option CostModels) (lang : Z) : list Z * list Z :=
  let tag_bytes := if lang =? 0 then [65; 0] else Encoder_unsigned lang in
  let cm_bytes :=
    match cost_models ≫= bt_get lang with
    | Some cm => encode_cost_model_values cm (lang =? 0)
    | None => [246]
    end in
  (tag_bytes, if lang =? 0 then Encoder_bytes cm_bytes else cm_bytes).
Definition encode_language_views_for_script_data_hash (ws : ShelleyWitnessSet)
    (protocol_params : option ProtocolParameters) (utxo : option MultiEraUtxo)
    (reference_inputs spending_inputs : option (list ShelleyTxIn))
    (required_script_hashes : option HashSet28) : list Z :=
  let scripts := collect_all_plutus_scripts ws (default ∅ utxo) reference_inputs spending_inputs in
  let langs := used_languages scripts required_script_hashes in
  let pairs := merge_sort shortlex_le (map (language_view (protocol_params ≫= cost_models)) langs) in
  Encoder_map (zlength pairs) ++ concat (map (fun p => p.1 ++ p.2) pairs).

Definition script_integrity_needed (witness_bytes : option (list Z)) (utxo : option MultiEraUtxo)
    (reference_inputs spending_inputs : option (list ShelleyTxIn))
    (required_script_hashes : option HashSet28) : tx_outcome bool :=
  match witness_bytes with
  | None => Ok false
  | Some wb =>
      match decode_witnesses wb with
      | Ok ws =>
          match ws_redeemers ws, ws_plutus_data ws with
          | [], [] =>
              let scripts := collect_all_plutus_scripts ws (default ∅ utxo) reference_inputs spending_inputs in
              Ok (existsb (fun e => match required_script_hashes with
                                    | Some required => bool_decide (e.1 ∈ required)
                                    | None => true
                                    end) (map_to_list scripts))
          | _, _ => Ok true
          end
      | Err _ => Ok false
      | Panic => Panic
      | OutOfFuel => OutOfFuel
      end
  end.

Definition raw_field (witness_bytes : option (list Z)) (key : Z) : tx_outcome (option (list Z)) :=
  match witness_bytes with
  | Some wb => ledger (extract_witness_set_field_raw wb key)
  | None => Ok None
  end.
Definition compute_script_data_hash (witness_bytes : option (list Z))
    (protocol_params : option ProtocolParameters) (conway_redeemer_format : bool)
    (utxo : option MultiEraUtxo) (reference_inputs spending_inputs : option (list ShelleyTxIn))
    (required_script_hashes : option HashSet28) : tx_outcome (list Z) :=
  let? ws :=
    match witness_bytes with Some wb => decode_witnesses wb | None => Ok empty_witness_set end in
  let? raw_redeemers := raw_field witness_bytes 5 in
  let? raw_datums := raw_field witness_bytes 4 in
  let redeemers_bytes :=
    default (encode_redeemers_for_script_data_hash (ws_redeemers ws) conway_redeemer_format) raw_redeemers in
  let datums_bytes :=
    match ws_plutus_data ws with
    | [] => []
    | datums => default (encode_datums_for_script_data_hash datums) raw_datums
    end in
  let language_views :=
    encode_language_views_for_script_data_hash ws protocol_params utxo reference_inputs spending_inputs
      required_script_hashes in
  Ok (hash_bytes_256 (redeemers_bytes ++ datums_bytes ++ language_views)).

Definition validate_script_data_hash (declared : option (list Z)) (witness_bytes : option (list Z))
    (protocol_params : option ProtocolParameters) (conway_redeemer_format : bool)
    (utxo : option MultiEraUtxo) (reference_inputs spending_inputs : option (list ShelleyTxIn))
    (required_script_hashes : option HashSet28) (protocol_version : option (Z * Z)) : tx_outcome unit :=
  let? needs_hash :=
    script_integrity_needed witness_bytes utxo reference_inputs spending_inputs required_script_hashes in
  match declared, needs_hash with
  | None, false => Ok tt
  | Some declared_hash, false => Err (UnexpectedScriptIntegrityHash declared_hash)
  | None, true => Err MissingRequiredScriptIntegrityHash
  | Some declared_hash, true =>
      let? computed :=
        compute_script_data_hash witness_bytes protocol_params conway_redeemer_format utxo reference_inputs
          spending_inputs required_script_hashes in
      if bool_decide (computed = declared_hash) then Ok tt
      else
        let pv_ge_11 := match protocol_version with Some (major, _) => 11 <=? major | None => false end in
        Err (if pv_ge_11 then ScriptIntegrityHashMismatch declared_hash computed
             else PPViewHashesDontMatch declared_hash computed)
  end.

(** ** Datums *)

Definition collect_datum_map (ws : ShelleyWitnessSet) : DatumMap :=
  foldl (fun m d => <[hash_bytes_256 (encoding d) := d]> m) ∅ (ws_plutus_data ws).

(** A datum, under the hash of the bytes it was read from. *)
Definition collect_one_raw_datum (m : DatumMap) : Dec DatumMap :=
  fun d =>
    let start := Decoder_position d in
    let? (datum, d) := PlutusData_decode_cbor d in
    let? raw := Decoder_slice start (Decoder_position d) d in
    Ok (<[hash_bytes_256 raw := datum]> m, d).
Definition collect_raw_datum_map (raw_datums : list Z) : outcome LedgerError DatumMap :=
  let? (m, dec) :=
    (major <- dget Decoder_peek_major ;;
     (if major =? 6 then
        tag <- Decoder_tag ;;
        if negb (tag =? 258) then derr (CborTypeMismatch 4 6) else dret tt
      else dret tt) ;;;
     count <- Decoder_array_begin ;;
     match count with
     | Some count => dfor count collect_one_raw_datum ∅
     | None => until_break collect_one_raw_datum ∅
     end) (Decoder_new raw_datums) in
  if negb (Decoder_is_empty dec) then Err (CborTrailingBytes (Decoder_remaining dec)) else Ok m.
Definition collect_datum_map_from_witness_bytes (witness_bytes : list Z) (ws : ShelleyWitnessSet)
    : outcome LedgerError DatumMap :=
  let? raw := extract_witness_set_field_raw witness_bytes 4 in
  match raw with
  | None => Ok (collect_datum_map ws)
  | Some raw_datums => collect_raw_datum_map raw_datums
  end.

Definition MultiEraTxOut_datum_hash (o : MultiEraTxOut) : option (list Z) :=
  match o with
  | Out_Alonzo _ _ h => h
  | Out_Babbage _ _ (Some (Datum_Hash h)) _ => Some h
  | _ => None
  end.
Definition spending_script_hash_from_txout (o : MultiEraTxOut) : option (list Z) :=
  match Address_from_bytes (MultiEraTxOut_address o) ≫= Address_payment_credential with
  | Some (ScriptHash h) => Some h
  | _ => None
  end.

(** The datum hashes of the inputs that a Plutus script locks. *)
Definition plutus_input_datums (spending_utxo : MultiEraUtxo) (plutus_scripts : PlutusScripts)
    (spending_inputs : list ShelleyTxIn) : gset (list Z) :=
  list_to_set (omap (fun txin =>
    txout ← spending_utxo !! txin;
    script_hash ← spending_script_hash_from_txout txout;
    _ ← plutus_scripts !! script_hash;
    MultiEraTxOut_datum_hash txout) spending_inputs).

Definition validate_supplemental_datums (witness_bytes : option (list Z)) (spending_utxo : MultiEraUtxo)
    (spending_inputs : list ShelleyTxIn) (tx_outputs : list MultiEraTxOut)
    (reference_input_utxos : list (ShelleyTxIn * MultiEraTxOut)) : tx_outcome unit :=
  match witness_bytes with
  | None => Ok tt
  | Some wb =>
      let? ws := decode_witnesses wb in
      let? datum_map := ledger (collect_datum_map_from_witness_bytes wb ws) in
      let tx_hashes : gset (list Z) := dom datum_map in
      let ref_txins := map fst reference_input_utxos in
      let plutus_scripts :=
        collect_all_plutus_scripts ws spending_utxo
          (match ref_txins with [] => None | _ => Some ref_txins end) (Some spending_inputs) in
      let input_hashes := plutus_input_datums spending_utxo plutus_scripts spending_inputs in
      let allowed : gset (list Z) :=
        list_to_set (omap MultiEraTxOut_datum_hash (tx_outputs ++ map snd reference_input_utxos)) in
      let? _ :=
        check_all (fun dh => if bool_decide (dh ∈ tx_hashes) then Ok tt else Err (MissingRequiredDatums dh))
          (elements input_hashes) in
      check_all (fun dh =>
          if bool_decide (dh ∈ input_hashes) || bool_decide (dh ∈ allowed) then Ok tt
          else Err (NotAllowedSupplementalDatums dh)) (elements tx_hashes)
  end.

(** Shelley and Mary outputs are [unreachable!]. *)
Definition has_datum (o : MultiEraTxOut) : tx_outcome bool :=
  match o with
  | Out_Shelley _ _ | Out_Mary _ _ => Panic
  | Out_Alonzo _ _ h => Ok (is_some h)
  | Out_Babbage _ _ d _ => Ok (is_some d)
  end.
Definition validate_unspendable_utxo_no_datum_hash (spending_utxo : MultiEraUtxo)
    (spending_inputs : list ShelleyTxIn) (native_satisfied : HashSet28)
    (v3_script_hashes : option HashSet28) : tx_outcome unit :=
  check_all (fun txin =>
      match spending_utxo !! txin with
      | Some txout =>
          match spending_script_hash_from_txout txout with
          | Some script_hash =>
              if bool_decide (script_hash ∈ native_satisfied) then Ok tt
              else if match v3_script_hashes with
                      | Some v3 => bool_decide (script_hash ∈ v3)
                      | None => false
                      end then Ok tt
              else
                let? has := has_datum txout in
                if has : bool then Ok tt
                else Err (UnspendableUTxONoDatumHash (ti_transaction_id txin) (ti_index txin))
          | None => Ok tt
          end
      | None => Ok tt
      end) spending_inputs.

Definition collect_v3_script_hashes (ws : option ShelleyWitnessSet) (utxo : option MultiEraUtxo)
    (reference_inputs : option (list ShelleyTxIn)) : HashSet28 :=
  let witness_hashes :=
    match ws with Some ws => map (plutus_script_hash PlutusV3) (ws_plutus_v3_scripts ws) | None => [] end in
  let reference_hashes :=
    match utxo, reference_inputs with
    | Some utxo, Some ref_inputs =>
        omap (fun txin =>
                match utxo !! txin ≫= MultiEraTxOut_script_ref with
                | Some (Script_PlutusV3 bytes) => Some (script_hash (Script_PlutusV3 bytes))
                | _ => None
                end) ref_inputs
    | _, _ => []
    end in
  list_to_set (witness_hashes ++ reference_hashes).

(** ** Redeemers *)

Definition NO_HASH : list Z := replicate 28 0.
Definition at_index {A} (l : list A) (index : Z) : tx_outcome A :=
  ok_or (l !! Z.to_nat index) (MissingRedeemer NO_HASH).
Definition resolve_script_purpose (items : ScriptItems) (redeemer : Redeemer) : tx_outcome ScriptPurpose :=
  let index := rd_index redeemer in
  match rd_tag redeemer with
  | 0 => let? input := at_index (si_inputs items) index in
         Ok (Purpose_Spending (ti_transaction_id input) (ti_index input))
  | 1 => let? policy := at_index (si_policies items) index in Ok (Purpose_Minting policy)
  | 2 => let? certificate := at_index (si_certificates items) index in
         Ok (Purpose_Certifying index certificate)
  | 3 => let? acct := at_index (si_reward_accounts items) index in
         let? reward_account := ok_or (RewardAccount_from_bytes acct) (MissingRedeemer NO_HASH) in
         Ok (Purpose_Rewarding reward_account)
  | 4 => let? voter := at_index (si_voters items) index in Ok (Purpose_Voting voter)
  | 5 => let? proposal := at_index (si_proposals items) index in Ok (Purpose_Proposing index proposal)
  | _ => Err (MissingRedeemer NO_HASH)
  end.

Definition credential_script_hash (c : StakeCredential) : option (list Z) :=
  match c with ScriptHash h => Some h | AddrKeyHash _ => None end.
Definition drep_script_hash (d : DRep) : option (list Z) :=
  match d with DRepScriptHash h => Some h | _ => None end.
Definition or_else {A} (a b : option A) : option A := match a with Some _ => a | None => b end.
Definition certifying_script_hash_from_cert (c : DCert) : option (list Z) :=
  match c with
  | AccountRegistrationDeposit cred _ | AccountUnregistration cred | AccountUnregistrationDeposit cred _
  | DelegationToStakePool cred _ | AccountRegistrationDelegationToStakePool cred _ _
  | CommitteeAuthorization cred _ | CommitteeResignation cred _ | DrepRegistration cred _ _
  | DrepUnregistration cred _ | DrepUpdate cred _ => credential_script_hash cred
  | DelegationToDrep cred drep | DelegationToStakePoolAndDrep cred _ drep
  | AccountRegistrationDelegationToDrep cred drep _
  | AccountRegistrationDelegationToStakePoolAndDrep cred _ drep _ =>
      or_else (credential_script_hash cred) (drep_script_hash drep)
  | AccountRegistration _ | PoolRegistration _ | PoolRetirement _ _ | GenesisDelegation _ _ _
  | MoveInstantaneousReward _ _ => None
  end.
Definition voting_voter_script_hash (v : Voter) : option (list Z) :=
  match v with Voter_CommitteeScript h | Voter_DRepScript h => Some h | _ => None end.
Definition proposal_script_hash_from_proposal (p : ProposalProcedure) : option (list Z) :=
  match pp_gov_action p with
  | ParameterChange _ _ h | TreasuryWithdrawals _ h => h
  | NewConstitution _ constitution => co_guardrails_script_hash constitution
  | HardForkInitiation _ _ | NoConfidence _ | UpdateCommittee _ _ _ _ | InfoAction => None
  end.

(** The script a purpose runs. *)
Definition target_hash (spending_utxo : MultiEraUtxo) (purpose : ScriptPurpose) : option (list Z) :=
  match purpose with
  | Purpose_Spending tx_id index =>
      spending_utxo !! mkTxIn tx_id (wrap16 index) ≫= spending_script_hash_from_txout
  | Purpose_Minting policy_id => Some policy_id
  | Purpose_Certifying _ certificate => certifying_script_hash_from_cert certificate
  | Purpose_Rewarding reward_account => credential_script_hash (ra_credential reward_account)
  | Purpose_Voting voter => voting_voter_script_hash voter
  | Purpose_Proposing _ proposal => proposal_script_hash_from_proposal proposal
  end.

(** Every redeemer points to a provided Plutus script. *)
Definition check_target (spending_utxo : MultiEraUtxo) (plutus_scripts : PlutusScripts)
    (redeemer : Redeemer) (purpose : ScriptPurpose) : tx_outcome unit :=
  match target_hash spending_utxo purpose ≫= (fun hash => plutus_scripts !! hash) with
  | Some _ => Ok tt
  | None => Err (ExtraRedeemer (rd_tag redeemer) (rd_index redeemer))
  end.
Definition validate_no_extra_redeemers (witness_bytes : option (list Z)) (spending_utxo : MultiEraUtxo)
    (items : ScriptItems) (reference_inputs : option (list ShelleyTxIn)) : tx_outcome unit :=
  match witness_bytes with
  | None => Ok tt
  | Some wb =>
      let? ws := decode_witnesses wb in
      let plutus_scripts :=
        collect_all_plutus_scripts ws spending_utxo reference_inputs (Some (si_inputs items)) in
      check_all (fun redeemer =>
          let? purpose := resolve_script_purpose items redeemer in
          check_target spending_utxo plutus_scripts redeemer purpose) (ws_redeemers ws)
  end.

Record RequiredPlutusRedeemer := mkRequired { rq_tag : Z; rq_index : Z; rq_hash : list Z }.

(** The items of one kind that a required Plutus script guards. *)
Definition required_of {A} (tag : Z) (hash_of : A -> option (list Z)) (required_script_hashes : HashSet28)
    (plutus_scripts : PlutusScripts) (l : list A) : list RequiredPlutusRedeemer :=
  omap (fun e =>
    hash ← hash_of e.2;
    if bool_decide (hash ∈ required_script_hashes) && bool_decide (is_Some (plutus_scripts !! hash))
    then Some (mkRequired tag (Z.of_nat e.1) hash) else None) (imap pair l).
Definition collect_required_plutus_redeemers (required_script_hashes : HashSet28)
    (plutus_scripts : PlutusScripts) (spending_utxo : MultiEraUtxo) (items : ScriptItems)
    : list RequiredPlutusRedeemer :=
  let required {A} tag (hash_of : A -> option (list Z)) l :=
    required_of tag hash_of required_script_hashes plutus_scripts l in
  required 0 (fun txin => spending_utxo !! txin ≫= spending_script_hash_from_txout) (si_inputs items)
  ++ required 1 Some (si_policies items)
  ++ required 2 certifying_script_hash_from_cert (si_certificates items)
  ++ required 3 (fun acct => ra ← RewardAccount_from_bytes acct; credential_script_hash (ra_credential ra))
       (si_reward_accounts items)
  ++ required 4 voting_voter_script_hash (si_voters items)
  ++ required 5 proposal_script_hash_from_proposal (si_proposals items).

Definition check_pointers (ws : ShelleyWitnessSet) (expected : list RequiredPlutusRedeemer) : tx_outcome unit :=
  let actual : gset (Z * Z) := list_to_set (map (fun r => (rd_tag r, rd_index r)) (ws_redeemers ws)) in
  check_all (fun e =>
      if bool_decide ((rq_tag e, rq_index e) ∈ actual) then Ok tt else Err (MissingRedeemer (rq_hash e))) expected.
Definition validate_no_missing_redeemers (witness_bytes : option (list Z))
    (required_script_hashes : HashSet28) (spending_utxo : MultiEraUtxo) (items : ScriptItems)
    (reference_inputs : option (list ShelleyTxIn)) : tx_outcome unit :=
  match witness_bytes with
  | None => Ok tt
  | Some wb =>
      let? ws := decode_witnesses wb in
      let plutus_scripts :=
        collect_all_plutus_scripts ws spending_utxo reference_inputs (Some (si_inputs items)) in
      check_pointers ws
        (collect_required_plutus_redeemers required_script_hashes plutus_scripts spending_utxo items)
  end.

(** ** Execution *)

Definition resolve_spending_datum (txout : MultiEraTxOut) (datum_map : DatumMap) (tx_id : list Z) (index : Z)
    : tx_outcome PlutusData :=
  let missing := MissingDatum tx_id index in
  match txout with
  | Out_Alonzo _ _ datum_hash =>
      let? hash := ok_or datum_hash missing in ok_or (datum_map !! hash) missing
  | Out_Babbage _ _ (Some (Datum_Hash hash)) _ => ok_or (datum_map !! hash) missing
  | Out_Babbage _ _ (Some (Datum_Inline datum)) _ => Ok datum
  | Out_Babbage _ _ None _ => Err missing
  | Out_Shelley _ _ | Out_Mary _ _ => Err missing
  end.

Fixpoint resolve_all (items : ScriptItems) (redeemers : list Redeemer)
    : tx_outcome (list (ScriptPurpose * PlutusData)) :=
  match redeemers with
  | [] => Ok []
  | r :: redeemers =>
      let? purpose := resolve_script_purpose items r in
      let? rest := resolve_all items redeemers in
      Ok ((purpose, rd_data r) :: rest)
  end.

Definition pointer_le (a b : Redeemer * (ScriptPurpose * PlutusData)) : Prop :=
  rd_tag a.1 < rd_tag b.1 \/ rd_tag a.1 = rd_tag b.1 /\ rd_index a.1 <= rd_index b.1.
#[export] Instance pointer_le_dec : RelDecision pointer_le.
Proof. intros a b. unfold pointer_le. apply _. Defined.
Definition sorted_redeemers_for_tx_info (witness_redeemers : list Redeemer)
    (resolved_redeemers : list (ScriptPurpose * PlutusData)) : list (ScriptPurpose * PlutusData) :=
  map snd (merge_sort pointer_le (zip witness_redeemers resolved_redeemers)).

Definition resolved_le (a b : ShelleyTxIn * MultiEraTxOut) : Prop := txin_le a.1 b.1.
#[export] Instance resolved_le_dec : RelDecision resolved_le.
Proof. intros a b. unfold resolved_le. apply _. Defined.
Definition resolve_inputs (utxo : MultiEraUtxo) (inputs : list ShelleyTxIn) : list (ShelleyTxIn * MultiEraTxOut) :=
  omap (fun txin => (pair txin) <$> utxo !! txin) inputs.

(** The caller's context with what the witness set and the UTxO set add. *)
Definition augment_context (ctx : TxContext) (spending_utxo : MultiEraUtxo) (items : ScriptItems)
    (datum_map : DatumMap) (tx_info_redeemers : list (ScriptPurpose * PlutusData)) : TxContext :=
  mkTxContext (tx_hash ctx) (tx_fee ctx) (tx_outputs ctx) (tx_validity_start ctx) (tx_ttl ctx)
    (tx_required_signers ctx) (tx_mint ctx) (tx_withdrawals ctx) (tx_reference_inputs ctx)
    (tx_current_treasury_value ctx) (tx_treasury_donation ctx)
    (resolve_inputs spending_utxo (si_inputs items)) (si_certificates items) (map_to_list datum_map)
    (merge_sort resolved_le (resolve_inputs spending_utxo (tx_reference_inputs ctx))) tx_info_redeemers
    (tx_voting_procedures ctx) (tx_proposal_procedures ctx) (tx_protocol_version ctx).

(** One redeemer: the script it points to is run on its datum. *)
Definition run_redeemer (evaluator : PlutusEvaluator) (spending_utxo : MultiEraUtxo)
    (plutus_scripts : PlutusScripts) (datum_map : DatumMap) (cost_models : option CostModels)
    (ctx : TxContext) (e : Redeemer * (ScriptPurpose * PlutusData)) : tx_outcome unit :=
  let '(redeemer, (purpose, redeemer_data)) := e in
  match target_hash spending_utxo purpose with
  | None => Ok tt
  | Some hash =>
      match plutus_scripts !! hash with
      | None => Ok tt
      | Some (version, script_bytes) =>
          let? datum :=
            match purpose with
            | Purpose_Spending tx_id index =>
                let? txout := ok_or (spending_utxo !! mkTxIn tx_id (wrap16 index)) (TxLedger InputNotInUtxo) in
                let? d := resolve_spending_datum txout datum_map tx_id index in
                Ok (Some d)
            | _ => Ok None
            end in
          map_err TxEval
            (pev_evaluate evaluator
               (mkPlutusScriptEval hash version script_bytes purpose datum redeemer_data
                  (rd_ex_units redeemer) (cost_models ≫= bt_get (cost_model_key version))) ctx)
      end
  end.

Definition validate_plutus_scripts (evaluator : option PlutusEvaluator) (witness_bytes : option (list Z))
    (required_script_hashes : HashSet28) (spending_utxo : MultiEraUtxo) (items : ScriptItems)
    (tx_ctx : TxContext) (cost_models : option CostModels) : tx_outcome unit :=
  match witness_bytes with
  | None => Ok tt
  | Some wb =>
      let? ws := decode_witnesses wb in
      let plutus_scripts :=
        collect_all_plutus_scripts ws spending_utxo
          (match tx_reference_inputs tx_ctx with [] => None | refs => Some refs end)
          (Some (si_inputs items)) in
      let? datum_map := ledger (collect_datum_map_from_witness_bytes wb ws) in
      let? resolved := resolve_all items (ws_redeemers ws) in
      let tx_info_redeemers := sorted_redeemers_for_tx_info (ws_redeemers ws) resolved in
      let? _ :=
        check_all (fun e => check_target spending_utxo plutus_scripts e.1 e.2.1)
          (zip (ws_redeemers ws) resolved) in
      let? _ :=
        check_pointers ws
          (collect_required_plutus_redeemers required_script_hashes plutus_scripts spending_utxo items) in
      let ctx := augment_context tx_ctx spending_utxo items datum_map tx_info_redeemers in
      let versions := omap (fun h => fst <$> plutus_scripts !! h) (elements required_script_hashes) in
      match versions with
      | [] => Ok tt
      | _ =>
          let? _ :=
            match cost_models with
            | Some cm =>
                check_all (fun version =>
                    if bt_contains (cost_model_key version) cm then Ok tt
                    else Err (NoCostModel (cost_model_key version))) versions
            | None => Ok tt
            end in
          match evaluator with
          | None => Ok tt
          | Some evaluator =>
              check_all (run_redeemer evaluator spending_utxo plutus_scripts datum_map cost_models ctx)
                (zip (ws_redeemers ws) resolved)
          end
      end
  end.
End ScriptRules.
