(* ===== verification/GovRules.v ===== *)
(** * Admission of votes and proposals

    Model of the Conway governance rules of [crates/ledger/src/state.rs] that a
    transaction passes before its votes and proposals are stored: who may vote
    on what, which proposals extend the lineage of their purpose, what a
    parameter update may contain, and how votes keep representatives active. *)

From stdpp Require Import gmap list.
From S2P Require Import Prelude Cbor Types TypesCodec BTree ProtocolParams.
From S2P Require Import NativeScript PlutusData Uplc Builtins ScriptContext Utxo UtxoBalance.
From S2P Require Import Staking Governance LedgerState EpochBoundary Certificates Witnesses.
Local Open Scope Z_scope.

#[export] Instance ConwayGovActionPurpose_eq_dec : EqDecision ConwayGovActionPurpose.
Proof. solve_decision. Defined.

(** ** Voters *)

Definition committee_hot_credential_exists (committee : CommitteeState) (credential : StakeCredential) : bool :=
  existsb (fun e => bool_decide (hot_credential e.2 = Some credential)) committee.
Definition conway_voter_exists (voter : Voter) (pools : PoolState) (committee : CommitteeState)
    (dreps : DrepState) : bool :=
  match voter with
  | Voter_CommitteeKeyHash h => committee_hot_credential_exists committee (AddrKeyHash h)
  | Voter_CommitteeScript h => committee_hot_credential_exists committee (ScriptHash h)
  | Voter_DRepKeyHash h => bt_contains (DRepKeyHash h) dreps
  | Voter_DRepScript h => bt_contains (DRepScriptHash h) dreps
  | Voter_StakePool h => bt_contains h (pool_entries pools)
  end.
Definition validate_conway_voters (procedures : VotingProcedures) (pools : PoolState)
    (committee : CommitteeState) (dreps : DrepState) : tx_outcome unit :=
  match List.filter (fun v => negb (conway_voter_exists v pools committee dreps)) (bt_keys procedures) with
  | [] => Ok tt
  | unknown_voters => Err (VotersDoNotExist unknown_voters)
  end.

Definition authorized_elected_hot_committee_credentials (committee : CommitteeState)
    : list StakeCredential :=
  omap (fun e => hot_credential e.2) committee.
Definition committee_voter_credential (voter : Voter) : option StakeCredential :=
  match voter with
  | Voter_CommitteeKeyHash h => Some (AddrKeyHash h)
  | Voter_CommitteeScript h => Some (ScriptHash h)
  | _ => None
  end.
Definition unelected_step (authorized unelected : list StakeCredential) (voter : Voter)
    : list StakeCredential :=
  match committee_voter_credential voter with
  | Some cred =>
      if negb (bool_decide (cred ∈ authorized)) && negb (bool_decide (cred ∈ unelected))
      then unelected ++ [cred] else unelected
  | None => unelected
  end.
Definition validate_unelected_committee_voters (procedures : VotingProcedures) (committee : CommitteeState)
    (protocol_version : option (Z * Z)) : tx_outcome unit :=
  if negb (conway_post_pv10 protocol_version) then Ok tt
  else
    let authorized := authorized_elected_hot_committee_credentials committee in
    match foldl (unelected_step authorized) [] (bt_keys procedures) with
    | [] => Ok tt
    | unelected => Err (UnelectedCommitteeVoters unelected)
    end.

(** ** Votes *)

(** Every voter with every action it votes on. *)
Definition vote_targets (procedures : VotingProcedures) : list (Voter * GovActionId) :=
  concat (map (fun e => map (pair e.1) (bt_keys e.2)) procedures).

Definition validate_conway_vote_targets (procedures : VotingProcedures) (actions : GovernanceActions)
    : tx_outcome unit :=
  let unknown :=
    foldl (fun unknown '(_, id) =>
             if negb (bt_contains id actions) && negb (existsb (key_eqb id) unknown)
             then unknown ++ [id] else unknown) [] (vote_targets procedures) in
  match unknown with [] => Ok tt | _ => Err (GovActionsDoNotExist unknown) end.

Definition conway_parameter_change_has_spo_security_vote_group (u : ProtocolParameterUpdate) : bool :=
  g_security (conway_modified_pparam_groups u).
Definition conway_voter_is_allowed_for_action (voter : Voter) (a : GovAction) : bool :=
  match voter with
  | Voter_CommitteeKeyHash _ | Voter_CommitteeScript _ =>
      match a with NoConfidence _ | UpdateCommittee _ _ _ _ => false | _ => true end
  | Voter_DRepKeyHash _ | Voter_DRepScript _ => true
  | Voter_StakePool _ =>
      match a with
      | NoConfidence _ | UpdateCommittee _ _ _ _ | HardForkInitiation _ _ | InfoAction => true
      | TreasuryWithdrawals _ _ | NewConstitution _ _ => false
      | ParameterChange _ u _ => conway_parameter_change_has_spo_security_vote_group u
      end
  end.
Definition conway_bootstrap_action (a : GovAction) : bool :=
  match a with ParameterChange _ _ _ | HardForkInitiation _ _ | InfoAction => true | _ => false end.
Definition conway_bootstrap_vote_is_allowed (voter : Voter) (a : GovAction) : bool :=
  match voter with
  | Voter_DRepKeyHash _ | Voter_DRepScript _ => match a with InfoAction => true | _ => false end
  | Voter_CommitteeKeyHash _ | Voter_CommitteeScript _ | Voter_StakePool _ => conway_bootstrap_action a
  end.

(** The lists of refused votes: in the bootstrap phase, on expired actions, by
    voters without a say. *)
Inductive VoteVerdict := VoteFine | VoteBootstrap | VoteExpired | VoteDisallowed.
Definition vote_verdict (current_epoch : EpochNo) (actions : GovernanceActions)
    (protocol_version : option (Z * Z)) (e : Voter * GovActionId) : VoteVerdict :=
  let '(voter, id) := e in
  match bt_get id actions with
  | None => VoteFine
  | Some s =>
      if conway_bootstrap_phase protocol_version && negb (conway_bootstrap_vote_is_allowed voter (gs_action s))
      then VoteBootstrap
      else if match gs_expires_after s with Some last => last <? current_epoch | None => false end
      then VoteExpired
      else if conway_voter_is_allowed_for_action voter (gs_action s) then VoteFine else VoteDisallowed
  end.
Definition validate_conway_voter_permissions (current_epoch : EpochNo) (procedures : VotingProcedures)
    (actions : GovernanceActions) (protocol_version : option (Z * Z)) : tx_outcome unit :=
  let votes (f : VoteVerdict -> bool) :=
    List.filter (fun e => f (vote_verdict current_epoch actions protocol_version e)) (vote_targets procedures) in
  match votes (fun v => match v with VoteBootstrap => true | _ => false end) with
  | (_ :: _) as refused => Err (DisallowedVotesDuringBootstrap refused)
  | [] =>
      match votes (fun v => match v with VoteExpired => true | _ => false end) with
      | (_ :: _) as refused => Err (VotingOnExpiredGovAction refused)
      | [] =>
          match votes (fun v => match v with VoteDisallowed => true | _ => false end) with
          | (_ :: _) as refused => Err (DisallowedVoters refused)
          | [] => Ok tt
          end
      end
  end.

Definition voter_to_drep (voter : Voter) : option DRep :=
  match voter with
  | Voter_DRepKeyHash h => Some (DRepKeyHash h)
  | Voter_DRepScript h => Some (DRepScriptHash h)
  | _ => None
  end.
Definition cast_votes (voter : Voter) (votes : list (GovActionId * VotingProcedure))
    (actions : GovernanceActions) : GovernanceActions :=
  foldl (fun actions '(id, procedure) =>
           bt_alter (fun s => record_vote s voter (vp_vote procedure)) id actions) actions votes.
Definition apply_conway_votes (procedures : VotingProcedures) (actions : GovernanceActions)
    (dreps : DrepState) (current_epoch : EpochNo) (num_dormant_epochs : Z) (bootstrap_phase : bool)
    : GovernanceActions * DrepState :=
  foldl (fun '(actions, dreps) '(voter, votes) =>
    (cast_votes voter votes actions,
     match voter_to_drep voter with
     | Some drep =>
         let dormant := if bootstrap_phase then 0 else num_dormant_epochs in
         bt_alter (touch_activity (sat_sub current_epoch dormant)) drep dreps
     | None => dreps
     end)) (actions, dreps) procedures.

Definition unregistered_step (unregistered : list Voter) (cert : DCert) : list Voter :=
  match cert with
  | DrepUnregistration cred _ =>
      let voter :=
        match cred with AddrKeyHash h => Voter_DRepKeyHash h | ScriptHash h => Voter_DRepScript h end in
      if existsb (key_eqb voter) unregistered then unregistered else unregistered ++ [voter]
  | _ => unregistered
  end.
Definition collect_conway_unregistered_drep_voters (certificates : option (list DCert)) : list Voter :=
  match certificates with
  | None => []
  | Some certs => foldl unregistered_step [] certs
  end.
Definition remove_conway_drep_votes (unregistered : list Voter) (actions : GovernanceActions)
    : GovernanceActions :=
  match unregistered with
  | [] => actions
  | _ => map_values (fun s =>
           s <| gs_votes := List.filter (fun e => negb (existsb (key_eqb e.1) unregistered)) (gs_votes s) |>) actions
  end.

Definition update_dormant_drep_expiries (has_proposals : bool) (dreps : DrepState) (num_dormant : Z)
    (current_epoch : EpochNo) (drep_activity : Z) : DrepState * Z :=
  if negb has_proposals || (num_dormant =? 0) then (dreps, num_dormant)
  else
    (map_values (fun r =>
       match rd_last_active_epoch r with
       | Some last_active =>
           let new_expiry := sat_add (sat_add last_active drep_activity) num_dormant in
           if current_epoch <=? new_expiry then touch_activity (sat_add last_active num_dormant) r else r
       | None => r
       end) dreps, 0).

(** ** Proposals *)

Definition disjoint_ref_inputs_enforced (protocol_version : option (Z * Z)) : bool :=
  match protocol_version with Some (major, _) => (8 <? major) && (major <? 11) | None => false end.

Definition checked_next (z : Z) : option Z := if z =? U64_MAX then None else Some (z + 1).
Definition conway_pv_can_follow (previous new : Z * Z) : bool :=
  match checked_next previous.2 with
  | Some next_minor => (previous.1 =? new.1) && (next_minor =? new.2)
  | None => false
  end
  || match checked_next previous.1 with
     | Some next_major => (next_major =? new.1) && (0 =? new.2)
     | None => false
     end.

(** Of a hard fork: its predecessor, its version and the version it follows. *)
Definition conway_expected_previous_hard_fork_version (proposal : ProposalProcedure)
    (actions : GovernanceActions) (current_protocol_version : option (Z * Z))
    : option (option GovActionId * (Z * Z) * (Z * Z)) :=
  match pp_gov_action proposal with
  | HardForkInitiation prev_action_id protocol_version =>
      cur ← current_protocol_version;
      if sat_add cur.1 1 <? protocol_version.1 then Some (prev_action_id, protocol_version, cur)
      else
        expected ←
          match prev_action_id with
          | Some id =>
              s ← bt_get id actions;
              match gs_action s with HardForkInitiation _ version => Some version | _ => None end
          | None => current_protocol_version
          end;
        Some (prev_action_id, protocol_version, expected)
  | _ => None
  end.

Definition conway_proposal_prev_action_id (a : GovAction) : option GovActionId :=
  match a with
  | ParameterChange prev _ _ | HardForkInitiation prev _ | NoConfidence prev
  | UpdateCommittee prev _ _ _ | NewConstitution prev _ => prev
  | TreasuryWithdrawals _ _ | InfoAction => None
  end.

Definition conway_unit_interval_well_formed (v : UnitInterval) : bool :=
  negb (denominator v =? 0) && (numerator v <=? denominator v).
Definition is_zero (v : option Z) : bool := match v with Some n => n =? 0 | None => false end.
Definition conway_protocol_param_update_well_formed (u : ProtocolParameterUpdate)
    (pv : option (Z * Z)) : bool :=
  let unit_interval_fields :=
    omap id [u_a0 u; u_rho u; u_tau u; u_price_mem u; u_price_step u] in
  let pool_values :=
    match u_pool_voting_thresholds u with
    | Some t => [pt_motion_no_confidence t; pt_committee_normal t; pt_committee_no_confidence t;
                 pt_hard_fork_initiation t; pt_pp_security_group t]
    | None => []
    end in
  let drep_values :=
    match u_drep_voting_thresholds u with
    | Some t => [dt_motion_no_confidence t; dt_committee_normal t; dt_committee_no_confidence t;
                 dt_update_to_constitution t; dt_hard_fork_initiation t; dt_pp_network_group t;
                 dt_pp_economic_group t; dt_pp_technical_group t; dt_pp_gov_group t;
                 dt_treasury_withdrawal t]
    | None => []
    end in
  let well_formed := forallb conway_unit_interval_well_formed in
  if negb (well_formed unit_interval_fields) then false
  else if negb (well_formed pool_values) then false
  else if negb (well_formed drep_values) then false
  else if is_some (u_protocol_version u) then false
  else if is_zero (u_max_block_body_size u) || is_zero (u_max_tx_size u)
          || is_zero (u_max_block_header_size u) || is_zero (u_max_val_size u)
          || is_zero (u_collateral_percentage u) || is_zero (u_committee_term_limit u)
          || is_zero (u_gov_action_lifetime u) || is_zero (u_pool_deposit u)
          || is_zero (u_gov_action_deposit u) || is_zero (u_drep_deposit u) then false
  else if negb (conway_bootstrap_phase pv) && is_zero (u_coins_per_utxo_byte u) then false
  else if conway_post_pv10 pv && is_zero (u_n_opt u) then false
  else true.

Definition same_id (a : option GovActionId) (b : GovActionId) : bool :=
  match a with Some a => key_eqb a b | None => false end.
Definition check_unless (b : bool) (e : TxError) : tx_outcome unit := if b then Ok tt else Err e.

Section proposals.
  Variables (tx_id : list Z) (current_epoch : EpochNo) (stake_credentials : StakeCredentialsMap)
    (protocol_version : option (Z * Z)) (gov_action_deposit : option Z) (expected_network_id : option Z)
    (enact_state : EnactState) (gov_action_lifetime : option Z).

Definition check_update (proposal : ProposalProcedure) : tx_outcome unit :=
  match pp_gov_action proposal with
  | ParameterChange _ u _ =>
      let malformed := TxMalformedProposal (pp_gov_action proposal) in
      let? _ := check_unless (negb (bool_decide (u = ProtocolParameterUpdate_default))) malformed in
      check_unless (conway_protocol_param_update_well_formed u protocol_version) malformed
  | _ => Ok tt
  end.

Definition check_lineage (proposal_index : Z) (proposal : ProposalProcedure) (actions : GovernanceActions)
    : tx_outcome unit :=
  let a := pp_gov_action proposal in
  let purpose := conway_gov_action_purpose a in
  let invalid := InvalidPrevGovActionId proposal in
  match conway_proposal_prev_action_id a with
  | Some prev =>
      let? _ :=
        check_unless (negb (bool_decide (ga_transaction_id prev = tx_id) && (proposal_index <=? ga_index prev)))
          invalid in
      if same_id (enacted_root enact_state purpose) prev then Ok tt
      else
        match bt_get prev actions with
        | None => Err invalid
        | Some s => check_unless (bool_decide (conway_gov_action_purpose (gs_action s) = purpose)) invalid
        end
  | None =>
      match purpose with
      | Purpose_ParameterChange | Purpose_HardFork | Purpose_Committee | Purpose_Constitution =>
          check_unless (negb (is_some (enacted_root enact_state purpose))) invalid
      | Purpose_TreasuryWithdrawals | Purpose_Info => Ok tt
      end
  end.

Definition check_hard_fork (proposal : ProposalProcedure) (actions : GovernanceActions) : tx_outcome unit :=
  match conway_expected_previous_hard_fork_version proposal actions protocol_version with
  | Some (prev, supplied, expected) =>
      check_unless (conway_pv_can_follow expected supplied) (ProposalCantFollow prev supplied expected)
  | None =>
      match pp_gov_action proposal with
      | HardForkInitiation (Some prev) supplied =>
          if same_id (es_prev_hard_fork enact_state) prev then
            match protocol_version with
            | None => Err (MissingProtocolVersionForHardFork proposal)
            | Some expected =>
                check_unless (conway_pv_can_follow expected supplied)
                  (ProposalCantFollow (Some prev) supplied expected)
            end
          else Ok tt
      | HardForkInitiation None _ => Err (MissingProtocolVersionForHardFork proposal)
      | _ => Ok tt
      end
  end.

Definition check_network (account : RewardAccount) (e : RewardAccount -> Z -> TxError) : tx_outcome unit :=
  match expected_network_id with
  | Some expected => check_unless (ra_network account =? expected) (e account expected)
  | None => Ok tt
  end.
Definition check_return (proposal : ProposalProcedure) : tx_outcome unit :=
  let? _ :=
    match gov_action_deposit with
    | Some expected =>
        check_unless (pp_deposit proposal =? expected) (ProposalDepositIncorrect (pp_deposit proposal) expected)
    | None => Ok tt
    end in
  let? account :=
    ok_or (RewardAccount_from_bytes (pp_reward_account proposal))
      (InvalidRewardAccountBytes (pp_reward_account proposal)) in
  let? _ := check_network account ProposalProcedureNetworkIdMismatch in
  check_unless (conway_bootstrap_phase protocol_version
                || bt_contains (ra_credential account) stake_credentials)
    (ProposalReturnAccountDoesNotExist account).

Definition check_guardrails (hash : option (list Z)) : tx_outcome unit :=
  let constitution_hash := co_guardrails_script_hash (es_constitution enact_state) in
  check_unless (bool_decide (hash = constitution_hash)) (InvalidGuardrailsScriptHash hash constitution_hash).

Definition check_action (proposal : ProposalProcedure) : tx_outcome unit :=
  let past_bootstrap := negb (conway_bootstrap_phase protocol_version) in
  match pp_gov_action proposal with
  | TreasuryWithdrawals withdrawals hash =>
      let? _ :=
        check_all (fun account => check_network account TreasuryWithdrawalsNetworkIdMismatch)
          (bt_keys withdrawals) in
      let? _ :=
        if past_bootstrap then
          match List.filter (fun ra => negb (bt_contains (ra_credential ra) stake_credentials))
                  (bt_keys withdrawals) with
          | [] => Ok tt
          | missing => Err (TreasuryWithdrawalReturnAccountsDoNotExist missing)
          end
        else Ok tt in
      let? _ :=
        check_unless (negb (past_bootstrap && forallb (fun amount => amount =? 0) (bt_values withdrawals)))
          (ZeroTreasuryWithdrawals (pp_gov_action proposal)) in
      check_guardrails hash
  | ParameterChange _ _ hash => check_guardrails hash
  | UpdateCommittee _ members_to_remove members_to_add quorum =>
      let? _ :=
        check_unless (negb ((denominator quorum =? 0) || (denominator quorum <? numerator quorum)))
          (WellFormedUnitIntervalRatification (numerator quorum) (denominator quorum)) in
      let? _ :=
        match List.filter (fun m => bool_decide (m ∈ members_to_remove)) (bt_keys members_to_add) with
        | [] => Ok tt
        | conflicting => Err (ConflictingCommitteeUpdate conflicting)
        end in
      match List.filter (fun e => e.2 <=? current_epoch) members_to_add with
      | [] => Ok tt
      | invalid => Err (ExpirationEpochTooSmall invalid)
      end
  | _ => Ok tt
  end.

Definition check_proposal (proposal_index : Z) (proposal : ProposalProcedure) (actions : GovernanceActions)
    : tx_outcome unit :=
  let? _ :=
    check_unless (negb (conway_bootstrap_phase protocol_version
                        && negb (conway_bootstrap_action (pp_gov_action proposal))))
      (DisallowedProposalDuringBootstrap proposal) in
  let? _ := check_update proposal in
  let? _ := check_lineage proposal_index proposal actions in
  let? _ := check_hard_fork proposal actions in
  let? _ := check_return proposal in
  check_action proposal.

(** Each proposal is checked, then stored for the ones behind it. *)
Definition proposal_id (proposal_index : Z) : GovActionId := mkGovActionId tx_id (wrap16 proposal_index).
Fixpoint validate_conway_proposals (proposal_index : Z) (proposals : list ProposalProcedure)
    (actions : GovernanceActions) : tx_outcome GovernanceActions :=
  match proposals with
  | [] => Ok actions
  | proposal :: proposals =>
      let? _ := check_proposal proposal_index proposal actions in
      validate_conway_proposals (proposal_index + 1) proposals
        (bt_insert (proposal_id proposal_index)
           (new_with_lifetime proposal current_epoch gov_action_lifetime) actions)
  end.
End proposals.

(** ** Declarations and withdrawals *)

Definition validate_conway_current_treasury_value (submitted : option Z) (actual : Z) : tx_outcome unit :=
  match submitted with
  | Some submitted => check_unless (submitted =? actual) (CurrentTreasuryValueIncorrect submitted actual)
  | None => Ok tt
  end.

Definition validate_withdrawals_delegated (withdrawals : option (list (RewardAccount * Z)))
    (stake_credentials : StakeCredentialsMap) (bootstrap_phase : bool) : tx_outcome unit :=
  if bootstrap_phase then Ok tt
  else
    check_all (fun ra =>
        match ra_credential ra with
        | AddrKeyHash kh =>
            check_unless (is_some (bt_get (AddrKeyHash kh) stake_credentials ≫= sc_delegated_drep))
              (WithdrawalNotDelegatedToDRep kh)
        | ScriptHash _ => Ok tt
        end) (bt_keys (default [] withdrawals)).

(** The registries as the certificates of the transaction leave them. *)
Definition conway_governance_state_after_certificates (ctx : CertificateValidationContext)
    (actions : GovernanceActions) (st : CertState) (certificates : option (list DCert)) : tx_outcome CertState :=
  let? (st, _) :=
    map_err TxCert (apply_certificates_and_withdrawals ctx actions st certificates None) in
  Ok st.
