(* ===== verification/GovFacts.v ===== *)
(** * Votes and proposals that pass the rules

    What admission guarantees: accepted votes are cast by registered voters
    entitled to vote on a live action, and change exactly these votes; accepted
    proposals hang below the enacted action of their purpose, without cycles,
    and hard forks advance the protocol version one step at a time. *)

From stdpp Require Import gmap list.
From S2P Require Import Prelude Cbor Types TypesCodec BTree ProtocolParams.
From S2P Require Import NativeScript PlutusData Uplc Builtins ScriptContext PlutusEval Utxo UtxoBalance.
From S2P Require Import Staking Governance LedgerState EpochBoundary EpochConservation Certificates CertificateFacts Witnesses GovRules.
Local Open Scope Z_scope.

Lemma check_unless_ok b e : check_unless b e = Ok tt <-> b = true.
Proof. by destruct b. Qed.
Lemma nil_match_ok {A E} (l : list A) (e : list A -> E) :
  match l with [] => Ok tt | _ => Err (e l) end = Ok tt <-> l = [].
Proof. by destruct l. Qed.
Lemma filter_nil {A} (f : A -> bool) l : List.filter f l = [] -> Forall (fun x => f x = false) l.
Proof.
  induction l as [|x l IH]; cbn [List.filter]; [constructor|].
  destruct (f x) eqn:E; [done|]. by constructor; auto.
Qed.
Lemma same_id_true a b : same_id a b = true -> a = Some b.
Proof. destruct a as [a|]; [|done]. cbn. by intros ->%key_eqb_spec. Qed.

(** ** The lineage of the stored proposals *)

Section lineage.
  Variables (es : EnactState) (actions : GovernanceActions).

(** A stored action whose ancestors lead to the enacted action of its purpose. *)
Inductive rooted : GovActionId -> Prop :=
  | rooted_free id s :
      bt_get id actions = Some s -> gov_action_prev_id (gs_action s) = None -> rooted id
  | rooted_first id s :
      bt_get id actions = Some s -> gov_action_prev_id (gs_action s) = Some None ->
      enacted_root es (conway_gov_action_purpose (gs_action s)) = None -> rooted id
  | rooted_enacted id s prev :
      bt_get id actions = Some s -> gov_action_prev_id (gs_action s) = Some (Some prev) ->
      enacted_root es (conway_gov_action_purpose (gs_action s)) = Some prev -> rooted id
  | rooted_child id s prev parent :
      bt_get id actions = Some s -> gov_action_prev_id (gs_action s) = Some (Some prev) ->
      bt_get prev actions = Some parent ->
      conway_gov_action_purpose (gs_action parent) = conway_gov_action_purpose (gs_action s) ->
      rooted prev -> rooted id.
Definition all_rooted : Prop := forall id s, bt_get id actions = Some s -> rooted id.

(** A hard fork follows the running version or the fork it builds on. *)
Definition follows_version (cur : Z * Z) (a : GovAction) : Prop :=
  match a with
  | HardForkInitiation prev version =>
      exists expected, conway_pv_can_follow expected version = true /\ version.1 <= sat_add cur.1 1 /\
        (expected = cur \/
         exists id s older, prev = Some id /\ bt_get id actions = Some s /\
           gs_action s = HardForkInitiation older expected)
  | _ => True
  end.
End lineage.

Definition extends (actions actions' : GovernanceActions) : Prop :=
  forall id s, bt_get id actions = Some s -> bt_get id actions' = Some s.

Lemma rooted_mono es actions actions' id : extends actions actions' -> rooted es actions id -> rooted es actions' id.
Proof.
  intros Hext. induction 1 as [id s Hs Hp|id s Hs Hp He|id s prev Hs Hp He|id s prev parent Hs Hp Hprev Hpur _ IH].
  - eapply rooted_free; eauto.
  - eapply rooted_first; eauto.
  - eapply rooted_enacted; eauto.
  - eapply rooted_child; eauto.
Qed.

Lemma prev_action_cases a :
  gov_action_prev_id a = Some (conway_proposal_prev_action_id a) \/
  gov_action_prev_id a = None /\ conway_proposal_prev_action_id a = None /\
  (conway_gov_action_purpose a = Purpose_TreasuryWithdrawals \/ conway_gov_action_purpose a = Purpose_Info).
Proof. destruct a; cbn; eauto. Qed.

Lemma accepted_lineage tx_id es index p actions actions' id s :
  check_lineage tx_id es index p actions = Ok tt -> all_rooted es actions -> extends actions actions' ->
  bt_get id actions' = Some s -> gs_action s = pp_gov_action p -> rooted es actions' id.
Proof.
  intros Hc Hall Hext Hs Ha. unfold check_lineage in Hc. cbv zeta in Hc. rewrite <-Ha in Hc.
  destruct (prev_action_cases (gs_action s)) as [Hprev|(Hprev & _ & _)]; [|by eapply rooted_free].
  destruct (conway_proposal_prev_action_id _) as [prev|].
  - apply obind_Ok_inv in Hc as ([] & _ & Hc).
    destruct (same_id _ prev) eqn:Hroot; [by eapply rooted_enacted, same_id_true|].
    destruct (bt_get prev actions) as [parent|] eqn:Hg; [|done]. apply check_unless_ok, bool_decide_eq_true in Hc.
    eapply rooted_child; [done..|by apply Hext|done|]. eapply rooted_mono; eauto.
  - eapply rooted_first; [done..|].
    destruct (gs_action s); cbn in Hprev; try discriminate Hprev; cbn [conway_gov_action_purpose] in Hc |- *;
      apply check_unless_ok in Hc; by destruct (enacted_root _ _).
Qed.

Lemma same_purpose_hard_fork a prev v :
  conway_gov_action_purpose a = conway_gov_action_purpose (HardForkInitiation prev v) ->
  exists older version, a = HardForkInitiation older version.
Proof. destruct a; cbn; try done. eauto. Qed.

Lemma can_follow_major a b : a.1 <= U64_MAX -> conway_pv_can_follow a b = true -> b.1 <= sat_add a.1 1.
Proof.
  unfold conway_pv_can_follow, checked_next, sat_add, U64_MAX. intros Ha H. apply orb_true_iff in H.
  destruct H as [H|H]; case_match; try done; apply andb_true_iff in H as [H%Z.eqb_eq H1%Z.eqb_eq]; repeat case_match; simplify_eq; rewrite ?Z.eqb_neq in *; lia.
Qed.

(** Besides the enacted fork only a stored fork has a lineage of this purpose. *)
Lemma fork_lineage tx_id es index p actions prev version :
  pp_gov_action p = HardForkInitiation (Some prev) version -> check_lineage tx_id es index p actions = Ok tt ->
  same_id (es_prev_hard_fork es) prev = false ->
  exists s older expected, bt_get prev actions = Some s /\ gs_action s = HardForkInitiation older expected.
Proof.
  intros Ha Hl Hroot. unfold check_lineage in Hl. cbv zeta in Hl. rewrite Ha in Hl.
  cbn [conway_proposal_prev_action_id conway_gov_action_purpose enacted_root] in Hl.
  apply obind_Ok_inv in Hl as ([] & _ & Hl). rewrite Hroot in Hl.
  destruct (bt_get prev actions) as [s|]; [|done]. apply check_unless_ok, bool_decide_eq_true in Hl.
  destruct (gs_action s) as [|older expected| | | | |] eqn:Hs; try done. by exists s, older, expected.
Qed.

Lemma accepted_hard_fork tx_id es index p actions cur :
  cur.1 <= U64_MAX -> check_lineage tx_id es index p actions = Ok tt ->
  check_hard_fork (Some cur) es p actions = Ok tt -> follows_version actions cur (pp_gov_action p).
Proof.
  intros Hcur Hl Hh. unfold check_hard_fork, conway_expected_previous_hard_fork_version in Hh.
  destruct (pp_gov_action p) as [| prev version | | | | |] eqn:Ha; try done. cbn [mbind option_bind] in Hh.
  destruct (Z.ltb_spec (sat_add cur.1 1) version.1) as [Hbig|Hsmall].
  { apply check_unless_ok in Hh. apply can_follow_major in Hh; [lia|done]. }
  destruct prev as [prev|]; cbn [mbind option_bind] in Hh; [|exists cur; by apply check_unless_ok in Hh; eauto].
  destruct (same_id (es_prev_hard_fork es) prev) eqn:Hroot.
  - destruct (bt_get prev actions) as [s|] eqn:Hs; cbn [mbind option_bind] in Hh;
      [|apply check_unless_ok in Hh; exists cur; by eauto].
    destruct (gs_action s) as [| older expected | | | | |] eqn:Hsa; cbn [mbind option_bind] in Hh;
      apply check_unless_ok in Hh; [by exists cur; eauto| |by exists cur; eauto..].
    exists expected. split_and!; [done..|]. right. by exists prev, s, older.
  - destruct (fork_lineage _ _ _ _ _ _ _ Ha Hl Hroot) as (s & older & expected & Hs & Hsa).
    rewrite Hs in Hh. cbn [mbind option_bind] in Hh. rewrite Hsa in Hh. cbn [mbind option_bind] in Hh.
    apply check_unless_ok in Hh. exists expected. split_and!; [done..|]. right. by exists prev, s, older.
Qed.

(** What the checks of one proposal establish. *)
Record accepted_proposal (creds : StakeCredentialsMap) (pv : option (Z * Z)) (deposit : option Z)
    (network : option Z) (es : EnactState) (p : ProposalProcedure) : Prop := {
  ap_deposit : option_ok (fun d => pp_deposit p = d) deposit;
  ap_account : exists account,
    RewardAccount_from_bytes (pp_reward_account p) = Some account /\
    option_ok (fun n => ra_network account = n) network /\
    (conway_bootstrap_phase pv = false -> bt_contains (ra_credential account) creds = true);
  ap_bootstrap : conway_bootstrap_phase pv = true -> conway_bootstrap_action (pp_gov_action p) = true;
  ap_guardrails : forall hash, match pp_gov_action p with
    | ParameterChange _ _ h => Some h | TreasuryWithdrawals _ h => Some h | _ => None end = Some hash ->
    hash = co_guardrails_script_hash (es_constitution es);
  ap_update : forall prev u hash, pp_gov_action p = ParameterChange prev u hash ->
    conway_protocol_param_update_well_formed u pv = true }.

Lemma check_proposal_accepted tx_id epoch creds pv deposit network es index p actions :
  check_proposal tx_id epoch creds pv deposit network es index p actions = Ok tt ->
  accepted_proposal creds pv deposit network es p /\
  check_lineage tx_id es index p actions = Ok tt /\ check_hard_fork pv es p actions = Ok tt.
Proof.
  unfold check_proposal. intros H. apply obind_Ok_inv in H as ([] & Hb & H). apply check_unless_ok in Hb.
  apply obind_Ok_inv in H as ([] & Hu & H). apply obind_Ok_inv in H as ([] & Hl & H).
  apply obind_Ok_inv in H as ([] & Hh & H). apply obind_Ok_inv in H as ([] & Hr & Ha).
  split; [|done]. unfold check_return in Hr. apply obind_Ok_inv in Hr as ([] & Hd & Hr).
  apply obind_Ok_inv in Hr as (account & Hacc & Hr). apply obind_Ok_inv in Hr as ([] & Hn & Hr).
  apply check_unless_ok in Hr. split.
  - destruct deposit; [|done]. apply check_unless_ok in Hd. cbn. lia.
  - exists account. split; [by destruct (RewardAccount_from_bytes _); simplify_eq/=|]. split.
    + unfold check_network in Hn. destruct network; [|done]. apply check_unless_ok in Hn. cbn. lia.
    + intros Hp. by rewrite Hp in Hr.
  - intros Hp. rewrite Hp in Hb. by destruct (conway_bootstrap_action _).
  - intros hash Hhash. unfold check_action in Ha. destruct (pp_gov_action p); try done; simplify_eq/=.
    + by apply check_unless_ok, bool_decide_eq_true in Ha.
    + apply obind_Ok_inv in Ha as ([] & _ & Ha). apply obind_Ok_inv in Ha as ([] & _ & Ha).
      apply obind_Ok_inv in Ha as ([] & _ & Ha). by apply check_unless_ok, bool_decide_eq_true in Ha.
  - intros prev u hash Hc. unfold check_update in Hu. rewrite Hc in Hu.
    apply obind_Ok_inv in Hu as ([] & _ & Hu). by apply check_unless_ok in Hu.
Qed.

Lemma follows_version_mono actions actions' cur a :
  extends actions actions' -> follows_version actions cur a -> follows_version actions' cur a.
Proof.
  intros Hext. destruct a; try done. intros (expected & Hf & Hm & [->|(id & s & older & -> & Hs & Ha)]);
    eexists; (split_and!; [done..|]); [by left|]. right. by exists id, s, older; eauto.
Qed.

Section proposals.
  Variables (tx_id : list Z) (epoch : EpochNo) (creds : StakeCredentialsMap) (pv : option (Z * Z))
    (deposit network : option Z) (es : EnactState) (lifetime : option Z).

(** The state behind accepted proposals, the first of which has index [k]. *)
Record proposals_admitted (k : Z) (ps : list ProposalProcedure) (actions actions' : GovernanceActions) : Prop := {
  pa_rooted : all_rooted es actions';
  pa_extends : extends actions actions';
  pa_others : forall id, ga_transaction_id id <> tx_id -> bt_get id actions' = bt_get id actions;
  pa_stored : forall i p, ps !! i = Some p ->
    bt_get (mkGovActionId tx_id (k + Z.of_nat i)) actions' = Some (new_with_lifetime p epoch lifetime) /\
    accepted_proposal creds pv deposit network es p /\
    forall cur, pv = Some cur -> cur.1 <= U64_MAX -> follows_version actions' cur (pp_gov_action p) }.

Lemma proposals_admit ps : forall k actions actions',
  0 <= k -> k + zlength ps <= 65536 ->
  validate_conway_proposals tx_id epoch creds pv deposit network es lifetime k ps actions = Ok actions' ->
  (forall i, k <= i -> bt_get (mkGovActionId tx_id i) actions = None) -> all_rooted es actions ->
  proposals_admitted k ps actions actions'.
Proof.
  induction ps as [|p ps IH]; intros k actions actions' Hk Hlen H Hfresh Hall; cbn [validate_conway_proposals] in H.
  { injection H as <-. split; [done|by intros ? ?|done|]. intros i p Hp. by rewrite lookup_nil in Hp. }
  apply obind_Ok_inv in H as ([] & Hc & H). apply check_proposal_accepted in Hc as (Hacc & Hl & Hh).
  rewrite zlength_cons in Hlen. pose proof (zlength_nonneg ps).
  assert (Hid : proposal_id tx_id k = mkGovActionId tx_id k).
  { unfold proposal_id, wrap16. by rewrite Z.mod_small by lia. }
  rewrite Hid in H. set (new := new_with_lifetime p epoch lifetime) in *.
  set (mid := bt_insert (mkGovActionId tx_id k) new actions) in *.
  assert (Hext : extends actions mid).
  { intros id s Hs. unfold mid. rewrite bt_get_insert_ne; [done|]. intros ->.
    by rewrite Hfresh in Hs by lia. }
  assert (Hnew : bt_get (mkGovActionId tx_id k) mid = Some new) by apply bt_get_insert.
  assert (Hmid : all_rooted es mid).
  { intros id s Hs. destruct (bt_get id actions) as [t|] eqn:Ht; [by eapply rooted_mono, Hall|].
    destruct (key_eqb_reflect id (mkGovActionId tx_id k)) as [->|Hne];
      [|unfold mid in Hs; rewrite bt_get_insert_ne in Hs by done; congruence].
    rewrite Hnew in Hs. injection Hs as <-. eapply accepted_lineage; [exact Hl|done|done|exact Hnew|done]. }
  apply IH in H; [|lia|lia| |done].
  2:{ intros i Hi. unfold mid. rewrite bt_get_insert_ne; [apply Hfresh; lia|]. intros [= ->]. lia. }
  destruct H as [Hr Hx Ho Hst]. split; [done| | |].
  - intros id s Hs. by apply Hx, Hext.
  - intros id Hne. rewrite Ho by done. unfold mid. apply bt_get_insert_ne. by intros ->.
  - intros [|i] q Hq; cbn in Hq.
    + injection Hq as <-. split; [by apply Hx; rewrite Z.add_0_r|]. split; [done|].
      intros cur -> Hcur. eapply follows_version_mono, accepted_hard_fork; [|done|exact Hl|exact Hh].
      intros id s Hs. by apply Hx, Hext.
    + replace (k + Z.of_nat (S i)) with (k + 1 + Z.of_nat i) by lia. by apply Hst.
Qed.

(** C35: accepted proposals extend the tree of pending actions: every stored
    action leads through actions of its own purpose to the one enacted last
    (so there are no cycles and no dangling parents), nothing stored before
    changes, each proposal is stored under its index with the deposit the
    parameters ask for (if they set one), a return account on this network (if
    it is known) that is registered outside the bootstrap phase, and the
    guardrails script of the constitution, and a hard fork, once a version is
    running, is one step above it or above the fork it builds on, never more
    than one major version ahead. There are at most [65536] proposals, the
    transaction id is new to the stored actions, and these are rooted before. *)
Theorem proposals_extend_lineage ps actions actions' :
  zlength ps <= 65536 -> (forall i, bt_get (mkGovActionId tx_id i) actions = None) -> all_rooted es actions ->
  validate_conway_proposals tx_id epoch creds pv deposit network es lifetime 0 ps actions = Ok actions' ->
  proposals_admitted 0 ps actions actions'.
Proof. intros Hlen Hfresh Hall H. by eapply proposals_admit. Qed.
End proposals.

(** ** Votes *)

Lemma stays_empty {A B} (f : list B -> A -> list B) (P : A -> Prop) l :
  (forall acc x, f acc x = [] -> acc = [] /\ P x) -> forall acc, foldl f acc l = [] -> acc = [] /\ Forall P l.
Proof.
  intros Hf. induction l as [|x l IH]; intros acc H; [by split; [|constructor]|].
  cbn [foldl] in H. apply IH in H as [Hx Hl]. apply Hf in Hx as [-> Hx]. by split; [|constructor].
Qed.


(** The vote of [v] on [id] in a transaction. *)
Definition vote_cast (procs : VotingProcedures) (v : Voter) (id : GovActionId) : option VotingProcedure :=
  bt_get v procs ≫= bt_get id.
Definition procedures_sorted (procs : VotingProcedures) : Prop :=
  bt_sorted procs /\ Forall (fun e => bt_sorted e.2) procs.

Lemma vote_cast_target procs v id p : vote_cast procs v id = Some p -> (v, id) ∈ vote_targets procs /\ v ∈ bt_keys procs.
Proof.
  unfold vote_cast. intros H. apply bind_Some in H as (votes & Hv & Hp).
  apply bt_get_elem in Hv, Hp. split.
  - unfold vote_targets. apply list_elem_of_In, in_concat. exists (map (pair v) (bt_keys votes)). split.
    + apply in_map_iff. exists (v, votes). split; [done|]. by apply list_elem_of_In.
    + apply in_map_iff. exists id. split; [done|]. apply list_elem_of_In, list_elem_of_fmap. by exists (id, p).
  - apply list_elem_of_fmap. by exists (v, votes).
Qed.

(** A voter that exists, entitled to vote on a stored action that is open. *)
Record entitled (epoch : EpochNo) (pv : option (Z * Z)) (pools : PoolState) (committee : CommitteeState)
    (dreps : DrepState) (actions : GovernanceActions) (v : Voter) (id : GovActionId) : Prop := {
  en_exists : conway_voter_exists v pools committee dreps = true;
  en_action : exists s, bt_get id actions = Some s /\
    conway_voter_is_allowed_for_action v (gs_action s) = true /\
    (conway_bootstrap_phase pv = true -> conway_bootstrap_vote_is_allowed v (gs_action s) = true) /\
    option_ok (fun last => epoch <= last) (gs_expires_after s) }.

Lemma permitted epoch procs actions pv :
  validate_conway_voter_permissions epoch procs actions pv = Ok tt ->
  Forall (fun e => vote_verdict epoch actions pv e = VoteFine) (vote_targets procs).
Proof.
  unfold validate_conway_voter_permissions. cbv zeta. intros H.
  destruct (List.filter _ _) eqn:H1; [|done]. destruct (List.filter _ _) eqn:H2 in H; [|done].
  destruct (List.filter _ _) eqn:H3 in H; [|done]. apply filter_nil in H1, H2, H3.
  rewrite Forall_forall in *. intros e He. specialize (H1 e He). specialize (H2 e He). specialize (H3 e He).
  by destruct (vote_verdict epoch actions pv e).
Qed.

Lemma targets_stored procs actions :
  validate_conway_vote_targets procs actions = Ok tt ->
  Forall (fun e => bt_contains e.2 actions = true) (vote_targets procs).
Proof.
  unfold validate_conway_vote_targets. cbv zeta. intros H. destruct (foldl _ _ _) eqn:E; [|done].
  eapply stays_empty in E as [_ E]; [exact E|]. intros acc [v id]. cbn.
  destruct (bt_contains id actions); [done|]. cbn. destruct (existsb (key_eqb id) acc) eqn:Ein; cbn.
  - by intros ->.
  - by intros [_ ?]%app_eq_nil.
Qed.

Lemma votes_entitled epoch pv pools committee dreps actions procs :
  validate_conway_voters procs pools committee dreps = Ok tt ->
  validate_conway_vote_targets procs actions = Ok tt ->
  validate_conway_voter_permissions epoch procs actions pv = Ok tt ->
  forall v id p, vote_cast procs v id = Some p -> entitled epoch pv pools committee dreps actions v id.
Proof.
  intros Hv Ht Hp v id p [Hin Hk]%vote_cast_target. split.
  - unfold validate_conway_voters in Hv. destruct (List.filter _ _) eqn:E; [|done]. apply filter_nil in E.
    rewrite Forall_forall in E. specialize (E v Hk). by destruct (conway_voter_exists _ _ _ _).
  - apply targets_stored in Ht. apply permitted in Hp. rewrite Forall_forall in Ht, Hp.
    specialize (Ht _ Hin). specialize (Hp _ Hin). cbn in Ht, Hp. unfold bt_contains in Ht.
    destruct (bt_get id actions) as [s|]; [|done]. exists s. split; [done|].
    destruct (conway_bootstrap_phase pv && _) eqn:Hb; [done|].
    assert (Hlast : option_ok (fun last => epoch <= last) (gs_expires_after s)).
    { destruct (gs_expires_after s) as [last|]; [|done]. cbn. destruct (Z.ltb_spec last epoch); [done|lia]. }
    assert (conway_voter_is_allowed_for_action v (gs_action s) = true) as ->.
    { destruct (gs_expires_after s) as [last|]; [destruct (last <? epoch); [done|]|];
        by destruct (conway_voter_is_allowed_for_action _ _). }
    split_and!; [done| |done]. intros Hph. rewrite Hph in Hb. by destruct (conway_bootstrap_vote_is_allowed _ _).
Qed.

Lemma cast_votes_get voter votes : bt_sorted votes -> forall actions id,
  bt_get id (cast_votes voter votes actions)
  = (fun s => match bt_get id votes with Some p => record_vote s voter (vp_vote p) | None => s end)
    <$> bt_get id actions.
Proof.
  unfold cast_votes. induction votes as [|[id' p] votes IH]; intros Hs actions id; cbn [foldl bt_get].
  { by destruct (bt_get id actions). }
  apply bt_sorted_cons in Hs as [Hs Hall]. rewrite IH by done.
  destruct (key_eqb_reflect id id') as [->|Hne].
  - rewrite bt_get_alter, (bt_get_head_lt _ _ Hall). by destruct (bt_get id' actions).
  - rewrite bt_get_alter_ne by done. done.
Qed.

Definition drep_voter (d : DRep) : option Voter :=
  match d with
  | DRepKeyHash h => Some (Voter_DRepKeyHash h)
  | DRepScriptHash h => Some (Voter_DRepScript h)
  | _ => None
  end.
Lemma voter_to_drep_spec v d : voter_to_drep v = Some d <-> drep_voter d = Some v.
Proof. destruct v, d; cbn; naive_solver. Qed.

(** What casting votes does to a stored action and to a representative. *)
Definition with_votes (procs : VotingProcedures) (id : GovActionId) (s s' : GovernanceActionState) : Prop :=
  gs_proposal s' = gs_proposal s /\ gs_expires_after s' = gs_expires_after s /\
  forall v, bt_get v (gs_votes s') = match vote_cast procs v id with
                                     | Some p => Some (vp_vote p)
                                     | None => bt_get v (gs_votes s)
                                     end.

Lemma with_votes_cons v votes procs id s s' :
  Forall (fun e => key_compare v e.1 = Lt) procs ->
  with_votes procs id
    (match bt_get id votes with Some p => record_vote s v (vp_vote p) | None => s end) s' ->
  with_votes ((v, votes) :: procs) id s s'.
Proof.
  intros Hall (Hp & He & Hv). split_and!; [rewrite Hp; by destruct (bt_get id votes)|rewrite He; by destruct (bt_get id votes)|].
  intros w. rewrite Hv. unfold vote_cast. cbn [bt_get]. destruct (key_eqb_reflect w v) as [->|Hne].
  - rewrite (bt_get_head_lt _ _ Hall). cbn [mbind option_bind]. destruct (bt_get id votes); [|done]. apply bt_get_insert.
  - destruct (bt_get w procs ≫= _); [done|]. destruct (bt_get id votes); [|done]. by apply bt_get_insert_ne.
Qed.

Definition marked_active (epoch dormant : Z) (bootstrap : bool) (procs : VotingProcedures) (d : DRep)
    : RegisteredDrep -> RegisteredDrep :=
  match drep_voter d ≫= (fun v => bt_get v procs) with
  | Some _ => touch_activity (sat_sub epoch (if bootstrap then 0 else dormant))
  | None => id
  end.

Lemma conway_votes_applied epoch dormant bootstrap procs : procedures_sorted procs -> forall actions dreps,
  let '(actions', dreps') := apply_conway_votes procs actions dreps epoch dormant bootstrap in
  (forall id, bt_get id actions = None -> bt_get id actions' = None) /\
  (forall id s, bt_get id actions = Some s -> exists s', bt_get id actions' = Some s' /\ with_votes procs id s s') /\
  (forall d, bt_get d dreps' = marked_active epoch dormant bootstrap procs d <$> bt_get d dreps).
Proof.
  unfold apply_conway_votes. induction procs as [|[v votes] procs IH]; intros [Hs Hin] actions dreps; cbn [foldl].
  { split_and!; [done|by intros id s ->; eexists|]. intros d. unfold marked_active. cbn.
    destruct (drep_voter d); cbn; by destruct (bt_get d dreps). }
  apply bt_sorted_cons in Hs as [Hs Hall]. inversion Hin as [|? ? Hvotes Hin']; subst. cbn [snd] in Hvotes.
  match goal with |- context [foldl _ (?a, ?d) procs] => specialize (IH (conj Hs Hin') a d) end.
  destruct (foldl _ _ procs) as [actions' dreps']. destruct IH as (H0 & H1 & H2). split_and!.
  - intros id Hn. apply H0. by rewrite cast_votes_get, Hn.
  - intros id s Hg. destruct (H1 id _ ltac:(by rewrite cast_votes_get, Hg)) as (s' & Hs' & Hw).
    exists s'. split; [done|]. by apply with_votes_cons.
  - intros d. rewrite H2. unfold marked_active. destruct (drep_voter d) as [w|] eqn:Hd; cbn [mbind option_bind bt_get].
    + destruct (key_eqb_reflect w v) as [->|Hne].
      * rewrite (bt_get_head_lt _ _ Hall). assert (voter_to_drep v = Some d) as -> by by apply voter_to_drep_spec.
        rewrite bt_get_alter. by destruct (bt_get d dreps).
      * destruct (voter_to_drep v) as [d'|] eqn:Hv; [|done]. rewrite bt_get_alter_ne; [done|]. intros <-.
        apply voter_to_drep_spec in Hv. congruence.
    + destruct (voter_to_drep v) as [d'|] eqn:Hv; [|done]. rewrite bt_get_alter_ne; [done|]. intros <-.
      apply voter_to_drep_spec in Hv. congruence.
Qed.

Lemma bt_get_filter_key {K V} `{OrdKey K} (g : K -> bool) k (m : list (K * V)) :
  bt_get k (List.filter (fun e => g e.1) m) = if g k then bt_get k m else None.
Proof.
  induction m as [|[k' v] m IH]; cbn [List.filter bt_get fst]; [by destruct (g k)|].
  destruct (g k') eqn:Hg; cbn [bt_get]; destruct (key_eqb_reflect k k') as [->|]; rewrite ?IH, ?Hg; done.
Qed.

Lemma votes_removed unregistered actions id s v :
  bt_get id actions = Some s -> exists s', bt_get id (remove_conway_drep_votes unregistered actions) = Some s' /\
    gs_proposal s' = gs_proposal s /\ gs_expires_after s' = gs_expires_after s /\
    bt_get v (gs_votes s') = if existsb (key_eqb v) unregistered then None else bt_get v (gs_votes s).
Proof.
  intros Hs. unfold remove_conway_drep_votes. destruct unregistered as [|u us] eqn:Hu; [by exists s|]. rewrite <-Hu.
  rewrite get_map_values, Hs. eexists. split_and!; [done..|].
  etransitivity; [exact (bt_get_filter_key (fun w => negb (existsb (key_eqb w) unregistered)) v (gs_votes s))|].
  by destruct (existsb _ _).
Qed.

Lemma existsb_key {K} `{OrdKey K} (k : K) l : existsb (key_eqb k) l = true <-> k ∈ l.
Proof.
  rewrite existsb_exists. split.
  - intros (x & Hx & ->%key_eqb_spec). by apply list_elem_of_In.
  - intros Hk. exists k. split; [by apply list_elem_of_In|apply key_eqb_refl].
Qed.

(** When the votes of a transaction pass, each was cast by a committee
    member, representative or pool that is registered, on a stored action that
    has not expired and that this kind of voter decides on (only the bootstrap
    actions in the bootstrap phase). Recording them sets exactly these votes on
    exactly these actions, the votes of representatives that deregister in the
    same transaction are dropped, and every representative that voted counts
    as active again. *)
Theorem accepted_votes_recorded epoch pv pools committee dreps0 procs actions dreps dormant bootstrap unregistered :
  procedures_sorted procs ->
  validate_conway_voters procs pools committee dreps0 = Ok tt ->
  validate_conway_vote_targets procs actions = Ok tt ->
  validate_conway_voter_permissions epoch procs actions pv = Ok tt ->
  (forall v id p, vote_cast procs v id = Some p -> entitled epoch pv pools committee dreps0 actions v id) /\
  let '(cast, dreps') := apply_conway_votes procs actions dreps epoch dormant bootstrap in
  let actions' := remove_conway_drep_votes unregistered cast in
  (forall id s v, bt_get id actions = Some s -> exists s', bt_get id actions' = Some s' /\
     gs_proposal s' = gs_proposal s /\ gs_expires_after s' = gs_expires_after s /\
     (v ∈ unregistered -> bt_get v (gs_votes s') = None) /\
     (v ∉ unregistered -> bt_get v (gs_votes s') = match vote_cast procs v id with
                                                   | Some p => Some (vp_vote p)
                                                   | None => bt_get v (gs_votes s)
                                                   end)) /\
  (forall d, bt_get d dreps' = marked_active epoch dormant bootstrap procs d <$> bt_get d dreps).
Proof.
  intros Hs Hv Ht Hp. split; [by eapply votes_entitled|].
  pose proof (conway_votes_applied epoch dormant bootstrap procs Hs actions dreps) as H.
  destruct (apply_conway_votes _ _ _ _ _ _) as [cast dreps']. destruct H as (_ & H1 & H2). split; [|done].
  intros id s v Hg. destruct (H1 id s Hg) as (s1 & Hg1 & Hp1 & He1 & Hv1).
  destruct (votes_removed unregistered cast id s1 v Hg1) as (s2 & Hg2 & Hp2 & He2 & Hv2).
  exists s2. split; [done|]. split; [congruence|]. split; [congruence|]. rewrite Hv2. split.
  - by intros ->%existsb_key.
  - intros Hn. destruct (existsb _ _) eqn:E; [by apply existsb_key in E|]. apply Hv1.
Qed.

(** ** Examples *)

Definition sample_tx_id : list Z := replicate 32 7.
Definition sample_proposal (a : GovAction) : ProposalProcedure :=
  mkProposal 100 (225 :: replicate 28 1) a (mkAnchor [] (replicate 32 0)).
(** A hard fork, one that builds on it, and a question. *)
Definition sample_proposals : list ProposalProcedure :=
  [sample_proposal (HardForkInitiation None (11, 0));
   sample_proposal (HardForkInitiation (Some (mkGovActionId sample_tx_id 0)) (11, 1)); sample_proposal InfoAction].
Definition sample_stake_creds : StakeCredentialsMap :=
  [(AddrKeyHash (replicate 28 1), mkCredentialState None None 2 None)].

Lemma proposals_extend_lineage_witness :
  exists actions',
    validate_conway_proposals sample_tx_id 5 sample_stake_creds (Some (10, 0)) (Some 100) (Some 1) EnactState_default
      (Some 6) 0 sample_proposals [] = Ok actions' /\
    proposals_admitted sample_tx_id 5 sample_stake_creds (Some (10, 0)) (Some 100) (Some 1) EnactState_default
      (Some 6) 0 sample_proposals [] actions' /\ zlength actions' = 3.
Proof.
  eexists. split; [vm_compute; reflexivity|]. split; [|reflexivity].
  apply (proposals_extend_lineage sample_tx_id 5 sample_stake_creds (Some (10, 0)) (Some 100) (Some 1)
    EnactState_default (Some 6) sample_proposals []); [vm_compute; discriminate|done|done|vm_compute; reflexivity].
Defined.

Definition sample_action : GovActionId := mkGovActionId sample_tx_id 0.
Definition sample_actions : GovernanceActions :=
  [(sample_action, mkActionState (sample_proposal (HardForkInitiation None (11, 0)))
     [(Voter_DRepKeyHash (replicate 28 3), Vote_No)] (Some 5) (Some 9))].
Definition sample_votes : VotingProcedures :=
  [(Voter_DRepKeyHash (replicate 28 3), [(sample_action, mkVotingProcedure Vote_Yes None)]);
   (Voter_StakePool (replicate 28 9), [(sample_action, mkVotingProcedure Vote_No None)])].
Definition sample_pools : PoolState :=
  mkPoolState [(replicate 28 9, mkRegisteredPool (boundary_pool 9) None 5)] [].
Definition sample_dreps : DrepState := [(DRepKeyHash (replicate 28 3), mkRegisteredDrep None 5 (Some 1))].

Lemma accepted_votes_recorded_witness :
  exists s', bt_get sample_action (fst (apply_conway_votes sample_votes sample_actions sample_dreps 8 2 false)) = Some s' /\
    bt_get (Voter_DRepKeyHash (replicate 28 3)) (gs_votes s') = Some Vote_Yes /\
    entitled 8 (Some (10, 0)) sample_pools [] sample_dreps sample_actions (Voter_StakePool (replicate 28 9)) sample_action.
Proof.
  assert (Hs : procedures_sorted sample_votes).
  { split; repeat constructor. }
  pose proof (accepted_votes_recorded 8 (Some (10, 0)) sample_pools [] sample_dreps sample_votes sample_actions
    sample_dreps 2 false [] Hs ltac:(vm_compute; reflexivity) ltac:(vm_compute; reflexivity)
    ltac:(vm_compute; reflexivity)) as [He Hr].
  destruct (apply_conway_votes _ _ _ _ _ _) as [cast dreps'].
  destruct (proj1 Hr sample_action _ (Voter_DRepKeyHash (replicate 28 3)) eq_refl) as (s' & H1 & _ & _ & _ & H2).
  exists s'. split; [exact H1|]. split; [|eapply He; vm_compute; reflexivity].
  rewrite H2 by (by intros ?%elem_of_nil). vm_compute. reflexivity.
Defined.
