(* ===== verification/SubmitTx.v ===== *)
(** * A submitted Conway transaction

    Model of the Conway branch of [LedgerState::apply_submitted_tx]
    ([crates/ledger/src/state.rs]): every rule a transaction passes on its way
    into the mempool, in the order of the code, and the state it leaves. The
    rules on auxiliary data and network identifiers are those of
    [state/phase1_validation.rs]; sizes of outputs are read off the bytes of the
    body as in [eras/babbage.rs]. *)

From stdpp Require Import gmap list sorting.
From S2P Require Import Prelude Cbor CborFacts CborSkip Types AddressFacts TypesCodec BTree ProtocolParams.
From S2P Require Import NativeScript PlutusData Uplc CostModel GenesisCosts Builtins ScriptContext PlutusEval.
From S2P Require Import Fees Utxo UtxoBalance TxOutCodec Phase1 Staking Governance LedgerState EpochBoundary Certificates.
From S2P Require Import SumKes WitnessSet Witnesses ScriptRules GovRules.
Local Open Scope Z_scope.

(** ** The transaction *)

(** The fields of the body the rules read; the ones that move lovelace and
    assets are the record of the UTxO rule. *)
Record ConwayBody := mkConwayBody {
  cb_core : ConwayTxBody;
  cb_certificates : option (list DCert);
  cb_withdrawals : option (list (RewardAccount * Z));
  cb_auxiliary_data_hash : option (list Z);
  cb_script_data_hash : option (list Z);
  cb_collateral : option (list ShelleyTxIn);
  cb_required_signers : option (list (list Z));
  cb_network_id : option Z;
  cb_collateral_return : option BabbageTxOut;
  cb_total_collateral : option Z;
  cb_reference_inputs : option (list ShelleyTxIn);
  cb_voting_procedures : option VotingProcedures;
  cb_proposal_procedures : option (list ProposalProcedure);
  cb_current_treasury_value : option Z }.
Definition cb_inputs (b : ConwayBody) : list ShelleyTxIn := tb_inputs (cw_body (cb_core b)).
Definition cb_outputs (b : ConwayBody) : list BabbageTxOut := tb_outputs (cw_body (cb_core b)).
Definition cb_fee (b : ConwayBody) : Z := tb_fee (cw_body (cb_core b)).
Definition cb_mint (b : ConwayBody) : option MintAsset := cw_mint (cb_core b).

Record SubmittedTx := mkSubmitted {
  sx_body : ConwayBody;
  sx_witness_set : ShelleyWitnessSet;
  sx_is_valid : bool;
  sx_auxiliary_data : option (list Z);
  sx_raw_cbor : list Z;
  sx_raw_body : list Z }.

(** ** Auxiliary data *)

(** Every error of these readers becomes [InvalidMetadata]. The nesting of an
    item is bounded by the number of bytes. *)
Definition not_valid {A} : Dec A := derr CborUnexpectedEof.
Fixpoint validate_metadatum (fuel : nat) : Dec bool :=
  match fuel with
  | O => fun _ => OutOfFuel
  | S fuel =>
      major <- dget Decoder_peek_major ;;
      match major with
      | 0 | 1 => Decoder_skip ;;; dret true
      | 2 => bs <- Decoder_bytes ;; dret (zlength bs <=? 64)
      | 3 => s <- Decoder_text ;; dret (zlength s <=? 64)
      | 4 =>
          count <- Decoder_array ;;
          dfor count (fun ok : bool => if ok then validate_metadatum fuel else dret false) true
      | 5 =>
          count <- Decoder_map ;;
          dfor count (fun ok : bool =>
            if ok then
              key_ok <- validate_metadatum fuel ;;
              if key_ok : bool then validate_metadatum fuel else dret false
            else dret false) true
      | _ => Decoder_skip ;;; dret true
      end
  end.
Definition validate_metadata_map : Dec unit :=
  count <- Decoder_map ;;
  dfor count (fun _ =>
    Decoder_skip ;;;
    (ok <- (fun d => validate_metadatum (dec_fuel d) d) ;; if ok : bool then dret tt else not_valid)) tt.

(** The entries behind the tag, up to the one with key 0. *)
Definition tagged_metadata (count : Z) : Dec unit :=
  fun d =>
    let? (_, d) :=
      dfor count (fun found : bool =>
        if found then dret true
        else
          key <- Decoder_unsigned ;;
          if key =? 0 then validate_metadata_map ;;; dret true else Decoder_skip ;;; dret false) false d in
    Ok (tt, d).
Definition validate_auxiliary_data_metadata_sizes (raw : list Z) : tx_outcome unit :=
  let dec := Decoder_new raw in
  if Decoder_is_empty dec then Ok tt
  else
    let major := match Decoder_peek_major dec with Ok major => major | _ => 255 end in
    let read : Dec unit :=
      match major with
      | 5 => validate_metadata_map
      | 4 => len <- Decoder_array ;; if len =? 0 then dret tt else validate_metadata_map
      | 6 => Decoder_tag ;;; (count <- Decoder_map ;; tagged_metadata count)
      | _ => dret tt
      end in
    let? _ := map_err (fun _ => InvalidMetadata) (read dec) in Ok tt.

(** ** Network identifiers *)

Definition shelley_address_network_id (addr_bytes : list Z) : option Z :=
  match addr_bytes with
  | [] => None
  | header :: _ =>
      let addr_type := Z.land (Z.shiftr header 4) 15 in
      if (addr_type <=? 7) || (addr_type =? 14) || (addr_type =? 15) then Some (Z.land header 15) else None
  end.
Definition validate_output_network_ids (expected : Z) (outputs : list MultiEraTxOut) : tx_outcome unit :=
  check_all (fun o =>
      match shelley_address_network_id (MultiEraTxOut_address o) with
      | Some net => check_unless (net =? expected) (WrongNetwork expected net)
      | None => Ok tt
      end) outputs.
Definition validate_withdrawal_network_ids (expected : Z) (withdrawals : list (RewardAccount * Z))
    : tx_outcome unit :=
  check_all (fun e : RewardAccount * Z =>
      check_unless (ra_network e.1 =? expected) (WrongNetworkWithdrawal expected (ra_network e.1))) withdrawals.
Definition validate_tx_body_network_id (expected : Z) (declared : option Z) : tx_outcome unit :=
  match declared with
  | Some net => check_unless (net =? expected) (WrongNetworkInTxBody expected net)
  | None => Ok tt
  end.

(** ** Sizes of the outputs, as they were serialized *)

Record BabbageTxOutputRawSizes := mkRawSizes { rs_outputs : list Z; rs_collateral_return : option Z }.
Definition item_size : Dec Z :=
  fun d =>
    let start := Decoder_position d in
    let? (_, d) := Decoder_skip d in Ok (Decoder_position d - start, d).
Definition push_size (sizes : list Z) : Dec (list Z) := size <- item_size ;; dret (sizes ++ [size]).
Definition extract_output_array_item_sizes : Dec (list Z) :=
  len <- Decoder_array_begin ;;
  match len with
  | Some count => dfor count push_size []
  | None => until_break push_size []
  end.
Definition extract_output_size_field (acc : BabbageTxOutputRawSizes * bool)
    : Dec (BabbageTxOutputRawSizes * bool) :=
  let '(sizes, saw_outputs) := acc in
  key <- Decoder_unsigned ;;
  match key with
  | 1 => outputs <- extract_output_array_item_sizes ;; dret (mkRawSizes outputs (rs_collateral_return sizes), true)
  | 16 => size <- item_size ;; dret (mkRawSizes (rs_outputs sizes) (Some size), saw_outputs)
  | _ => Decoder_skip ;;; dret (sizes, saw_outputs)
  end.
Definition extract_babbage_tx_output_raw_sizes (raw_body : list Z) : outcome LedgerError BabbageTxOutputRawSizes :=
  let? (acc, _) :=
    decode_entries extract_output_size_field (mkRawSizes [] None, false) (Decoder_new raw_body) in
  if negb acc.2 then Err (CborInvalidLength 1 0) else Ok acc.1.

Section SubmitTx.
Context `{Ed25519, PlutusCrypto}.

Definition submitted_tx_id (tx : SubmittedTx) : list Z := hash_bytes_256 (sx_raw_body tx).
Definition size_for_fee_and_max (tx : SubmittedTx) : Z := wrap64 (zlength (sx_raw_cbor tx) - 1).

Definition validate_auxiliary_data (declared_hash auxiliary_data : option (list Z))
    (protocol_version : option (Z * Z)) : tx_outcome unit :=
  match declared_hash, auxiliary_data with
  | Some declared, Some data =>
      let computed := hash_bytes_256 data in
      if negb (bool_decide (declared = computed)) then Err (AuxiliaryDataHashMismatch declared computed)
      else
        match protocol_version with
        | Some (major, minor) =>
            if (2 <? major) || ((major =? 2) && (0 <? minor))
            then validate_auxiliary_data_metadata_sizes data else Ok tt
        | None => Ok tt
        end
  | Some _, None => Err AuxiliaryDataMissing
  | None, Some _ => Err MissingTxBodyMetadataHash
  | None, None => Ok tt
  end.

(** ** What the transaction needs *)

Definition when_some {A B} (f : A -> B -> B) (a : option A) (b : B) : B :=
  match a with Some a => f a b | None => b end.
Definition conway_required_scripts (b : ConwayBody) (utxo : MultiEraUtxo) : HashSet28 :=
  let out := required_script_hashes_from_inputs_multi_era (cb_inputs b) utxo ∅ in
  let out := foldl required_script_hashes_from_cert out (default [] (cb_certificates b)) in
  let out := when_some required_script_hashes_from_withdrawals (cb_withdrawals b) out in
  let out := when_some required_script_hashes_from_mint (cb_mint b) out in
  let out := when_some required_script_hashes_from_voting_procedures (cb_voting_procedures b) out in
  when_some required_script_hashes_from_proposal_procedures (cb_proposal_procedures b) out.
Definition conway_required_keys (b : ConwayBody) (utxo : MultiEraUtxo) : outcome LedgerError HashSet28 :=
  let? out := required_vkey_hashes_from_inputs_multi_era (cb_inputs b) utxo ∅ in
  let out := foldl required_vkey_hashes_from_cert out (default [] (cb_certificates b)) in
  let out := when_some required_vkey_hashes_from_withdrawals (cb_withdrawals b) out in
  let out := foldl (fun out signer => {[ signer ]} ∪ out) out (default [] (cb_required_signers b)) in
  Ok (when_some required_vkey_hashes_from_voting_procedures (cb_voting_procedures b) out).

(** What redeemers point to: inputs sorted, the rest in the order of the maps
    and lists of the body. *)
Definition script_items (b : ConwayBody) : ScriptItems :=
  mkItems (merge_sort txin_le (cb_inputs b)) (bt_keys (default [] (cb_mint b)))
    (default [] (cb_certificates b)) (map RewardAccount_to_bytes (bt_keys (default [] (cb_withdrawals b))))
    (bt_keys (default [] (cb_voting_procedures b))) (default [] (cb_proposal_procedures b)).

Definition conway_tx_context (l : LedgerState) (tx : SubmittedTx) : TxContext :=
  let b := sx_body tx in
  mkTxContext (submitted_tx_id tx) (cb_fee b) (map Out_of_babbage (cb_outputs b))
    (tb_validity_interval_start (cw_body (cb_core b))) (tb_ttl (cw_body (cb_core b)))
    (default [] (cb_required_signers b)) (default [] (cb_mint b)) (default [] (cb_withdrawals b))
    (default [] (cb_reference_inputs b)) (cb_current_treasury_value b) (cw_treasury_donation (cb_core b))
    [] [] [] [] [] (cb_voting_procedures b) (default [] (cb_proposal_procedures b))
    (ls_protocol_params l ≫= protocol_version).

(** ** The checks before the state changes *)

Definition check_well_formed (evaluator : option PlutusEvaluator) (tx : SubmittedTx) (pv : option (Z * Z))
    : tx_outcome unit :=
  match evaluator with
  | Some eval =>
      let? _ := validate_script_witnesses_well_formed (sx_witness_set tx) eval pv in
      validate_reference_scripts_well_formed (cb_outputs (sx_body tx)) (cb_collateral_return (sx_body tx)) eval pv
  | None => Ok tt
  end.
Definition check_reference_inputs (b : ConwayBody) (utxo : MultiEraUtxo) (pv : option (Z * Z)) : tx_outcome unit :=
  match cb_reference_inputs b with
  | Some ref_inputs =>
      let? _ := ledger (validate_reference_inputs utxo ref_inputs) in
      if disjoint_ref_inputs_enforced pv
      then ledger (validate_reference_input_disjointness (cb_inputs b) ref_inputs) else Ok tt
  | None => Ok tt
  end.
Definition check_phase_one (l : LedgerState) (tx : SubmittedTx) : tx_outcome unit :=
  let b := sx_body tx in
  let utxo := ls_multi_era_utxo l in
  match ls_protocol_params l with
  | Some params =>
      let? sizes := ledger (extract_babbage_tx_output_raw_sizes (sx_raw_body tx)) in
      let? _ :=
        ledger (validate_alonzo_plus_tx params utxo (size_for_fee_and_max tx) (cb_fee b)
          (map Out_of_babbage (cb_outputs b)) (Some (rs_outputs sizes)) (cb_collateral b)
          (sum_redeemer_ex_units (sx_witness_set tx)) (Out_of_babbage <$> cb_collateral_return b)
          (rs_collateral_return sizes) (cb_total_collateral b)
          (match ws_redeemers (sx_witness_set tx) with [] => false | _ => true end)
          (total_ref_scripts_size utxo (cb_inputs b) (cb_reference_inputs b)) true) in
      ledger (validate_per_redeemer_ex_units_from_witness_set (sx_witness_set tx) params)
  | None => Ok tt
  end.
Definition check_networks (l : LedgerState) (b : ConwayBody) : tx_outcome unit :=
  match ls_expected_network_id l with
  | Some expected =>
      let? _ :=
        validate_output_network_ids expected
          (map Out_of_babbage (cb_outputs b ++ option_list (cb_collateral_return b))) in
      let? _ :=
        match cb_withdrawals b with
        | Some withdrawals => validate_withdrawal_network_ids expected withdrawals
        | None => Ok tt
        end in
      validate_tx_body_network_id expected (cb_network_id b)
  | None => Ok tt
  end.
Definition non_empty (s : HashSet28) : option HashSet28 := if bool_decide (s = ∅) then None else Some s.
Definition check_datums (b : ConwayBody) (ws : ShelleyWitnessSet) (witness_bytes : list Z)
    (utxo : MultiEraUtxo) (native_satisfied : HashSet28) : tx_outcome unit :=
  let? _ :=
    validate_unspendable_utxo_no_datum_hash utxo (cb_inputs b) native_satisfied
      (non_empty (collect_v3_script_hashes (Some ws) (Some utxo) (cb_reference_inputs b))) in
  validate_supplemental_datums (Some witness_bytes) utxo (cb_inputs b)
    (map Out_of_babbage (cb_outputs b ++ option_list (cb_collateral_return b)))
    (resolve_inputs utxo (default [] (cb_reference_inputs b))).

Definition conway_checks (l : LedgerState) (tx : SubmittedTx) (current_slot : Z)
    (evaluator : option PlutusEvaluator) : tx_outcome unit :=
  let b := sx_body tx in
  let ws := sx_witness_set tx in
  let utxo := ls_multi_era_utxo l in
  let pv := ls_protocol_params l ≫= protocol_version in
  if negb (sx_is_valid tx) then Err SubmittedTxIsInvalid
  else
    let? _ := validate_auxiliary_data (cb_auxiliary_data_hash b) (sx_auxiliary_data tx) pv in
    let? _ := check_well_formed evaluator tx pv in
    let witness_bytes := ShelleyWitnessSet_encode ws in
    let? _ := check_reference_inputs b utxo pv in
    let required_scripts := conway_required_scripts b utxo in
    let? _ :=
      validate_script_data_hash (cb_script_data_hash b) (Some witness_bytes) (ls_protocol_params l) true
        (Some utxo) (cb_reference_inputs b) (Some (cb_inputs b)) (Some required_scripts) pv in
    let? _ := check_phase_one l tx in
    let? _ := check_networks l b in
    let? required := ledger (conway_required_keys b utxo) in
    let? _ := validate_witnesses_typed ws required (submitted_tx_id tx) in
    let? _ := ledger (validate_tx_ref_scripts_size utxo (cb_inputs b) (cb_reference_inputs b)) in
    let? native_satisfied :=
      validate_native_scripts_if_present (Some witness_bytes) required_scripts current_slot in
    let? _ :=
      validate_required_script_witnesses (Some witness_bytes) required_scripts native_satisfied utxo
        (cb_reference_inputs b) (Some (cb_inputs b)) in
    let? _ :=
      validate_no_extraneous_script_witnesses_typed ws required_scripts
        (non_empty (collect_reference_script_hashes utxo (cb_reference_inputs b))) in
    let? _ := check_datums b ws witness_bytes utxo native_satisfied in
    let items := script_items b in
    let? _ := validate_no_extra_redeemers (Some witness_bytes) utxo items (cb_reference_inputs b) in
    let? _ :=
      validate_no_missing_redeemers (Some witness_bytes) required_scripts utxo items (cb_reference_inputs b) in
    let? _ :=
      validate_conway_current_treasury_value (cb_current_treasury_value b) (treasury (ls_accounting l)) in
    validate_plutus_scripts evaluator (Some witness_bytes) required_scripts utxo items (conway_tx_context l tx)
      (ls_protocol_params l ≫= cost_models).

(** ** The state change *)

Definition staged_registries (l : LedgerState) (dreps : DrepState) : CertState :=
  mkCertState (ls_pool_state l) (ls_stake_credentials l) (ls_committee_state l) dreps (ls_reward_accounts l)
    (ls_deposit_pot l) (ls_gen_delegs l) (ls_future_gen_delegs l) 0 0.

(** Votes and proposals, judged by the registries behind the certificates. *)
Definition conway_votes_and_proposals (l : LedgerState) (tx : SubmittedTx) (dreps : DrepState) (dormant : Z)
    (unregistered : list Voter) : tx_outcome (GovernanceActions * DrepState) :=
  let b := sx_body tx in
  let params := ls_protocol_params l in
  let pv := params ≫= protocol_version in
  let ctx := certificate_validation_context l in
  let actions := ls_governance_actions l in
  let? gov :=
    conway_governance_state_after_certificates ctx actions (staged_registries l dreps) (cb_certificates b) in
  let? _ :=
    match cb_voting_procedures b with
    | Some procedures =>
        let? _ := validate_unelected_committee_voters procedures (ct_committee gov) pv in
        validate_conway_voters procedures (ct_pools gov) (ct_committee gov) (ct_dreps gov)
    | None => Ok tt
    end in
  let? actions :=
    match cb_proposal_procedures b with
    | Some proposals =>
        validate_conway_proposals (submitted_tx_id tx) (ls_current_epoch l) (ct_creds gov) pv
          (params ≫= gov_action_deposit) (ls_expected_network_id l) (ls_enact_state l)
          (params ≫= gov_action_lifetime) 0 proposals actions
    | None => Ok actions
    end in
  let? _ :=
    match cb_voting_procedures b with
    | Some procedures =>
        let? _ := validate_conway_vote_targets procedures actions in
        validate_conway_voter_permissions (ls_current_epoch l) procedures actions pv
    | None => Ok tt
    end in
  let '(actions, dreps) :=
    match cb_voting_procedures b with
    | Some procedures =>
        apply_conway_votes procedures actions dreps (ls_current_epoch l) dormant (cx_bootstrap_phase ctx)
    | None => (actions, dreps)
    end in
  Ok (remove_conway_drep_votes unregistered actions, dreps).
Definition conway_governance (l : LedgerState) (tx : SubmittedTx) (dreps : DrepState) (dormant : Z)
    : tx_outcome (GovernanceActions * DrepState) :=
  let unregistered := collect_conway_unregistered_drep_voters (cb_certificates (sx_body tx)) in
  if is_some (cb_voting_procedures (sx_body tx)) || is_some (cb_proposal_procedures (sx_body tx))
     || negb (bool_decide (unregistered = []))
  then conway_votes_and_proposals l tx dreps dormant unregistered
  else Ok (ls_governance_actions l, dreps).

Definition proposal_deposits_of (b : ConwayBody) : Z :=
  foldl sat_add 0 (map pp_deposit (default [] (cb_proposal_procedures b))).

(** The staged copies become the state. *)
Definition commit (l : LedgerState) (utxo : MultiEraUtxo) (st : CertState) (dreps : DrepState) (pot : DepositPot)
    (donations : Z) (actions : GovernanceActions) (dormant : Z) : LedgerState :=
  l <| ls_utxos_donation := donations |> <| ls_multi_era_utxo := utxo |>
    <| ls_pool_state := ct_pools st |> <| ls_stake_credentials := ct_creds st |>
    <| ls_committee_state := ct_committee st |> <| ls_drep_state := dreps |>
    <| ls_reward_accounts := ct_accounts st |> <| ls_deposit_pot := pot |>
    <| ls_gen_delegs := ct_gen_delegs st |> <| ls_future_gen_delegs := ct_future st |>
    <| ls_governance_actions := actions |> <| ls_num_dormant_epochs := dormant |>.
Definition conway_transition (l : LedgerState) (tx : SubmittedTx) (current_slot : Z) : tx_outcome LedgerState :=
  let b := sx_body tx in
  let ctx := certificate_validation_context l in
  let epoch := ls_current_epoch l in
  let '(dreps, dormant) :=
    update_dormant_drep_expiries
      (match cb_proposal_procedures b with Some (_ :: _) => true | _ => false end)
      (ls_drep_state l) (ls_num_dormant_epochs l) epoch (default 0 (ls_protocol_params l ≫= drep_activity)) in
  let? _ :=
    validate_withdrawals_delegated (cb_withdrawals b) (ls_stake_credentials l) (cx_bootstrap_phase ctx) in
  let? (actions, dreps) := conway_governance l tx dreps dormant in
  let? (st, adj) :=
    map_err TxCert
      (apply_certificates_and_withdrawals_with_future ctx (ls_governance_actions l) current_slot 0
         (ls_stability_window l) None (staged_registries l dreps) (cb_certificates b) (cb_withdrawals b)) in
  let dreps :=
    touch_drep_activity_for_certs (cb_certificates b) (ct_dreps st) epoch dormant (cx_bootstrap_phase ctx) in
  let deposits := proposal_deposits_of b in
  let? utxo :=
    ledger (apply_conway_tx_withdrawals (ls_multi_era_utxo l) (submitted_tx_id tx) (cb_core b) current_slot
              (adj_withdrawal_total adj) (sat_add (adj_total_deposits adj) deposits) (adj_total_refunds adj)) in
  let? donations :=
    match cw_treasury_donation (cb_core b) with
    | Some donation =>
        if donation =? 0 then Err ZeroDonation else Ok (sat_add (ls_utxos_donation l) donation)
    | None => Ok (ls_utxos_donation l)
    end in
  Ok (commit l utxo st dreps (add_proposal_deposit (ct_pot st) deposits) donations actions dormant).

(** ** Submission *)

Definition adopt_scheduled_genesis_delegations (l : LedgerState) (current_slot : Z) : LedgerState :=
  let '(gen_delegs, future) :=
    apply_scheduled_genesis_delegations (ls_gen_delegs l) (ls_future_gen_delegs l) current_slot in
  l <| ls_gen_delegs := gen_delegs |> <| ls_future_gen_delegs := future |>.

(** The state the call leaves behind, and its result. *)
Definition apply_submitted_tx (l : LedgerState) (tx : SubmittedTx) (current_slot : Z)
    (evaluator : option PlutusEvaluator) : LedgerState * tx_outcome unit :=
  let l := adopt_scheduled_genesis_delegations l current_slot in
  match (let? _ := conway_checks l tx current_slot evaluator in conway_transition l tx current_slot) with
  | Ok l' => (l', Ok tt)
  | Err e => (l, Err e)
  | Panic => (l, Panic)
  | OutOfFuel => (l, OutOfFuel)
  end.
End SubmitTx.
