(* ===== verification/SubmitFacts.v ===== *)
(** * Who authorised an accepted submission

    What the checks of [SubmitTx] establish about a Conway transaction: whoever
    owns what it moves has signed it, or the script that owns it is a native
    script that holds or a Plutus script that was run for exactly this use. *)

From stdpp Require Import gmap list sorting.
From S2P Require Import Prelude Cbor CborFacts CborSkip Types AddressFacts TypesCodec BTree ProtocolParams.
From S2P Require Import NativeScript PlutusData Uplc CostModel GenesisCosts Builtins ScriptContext PlutusEval.
From S2P Require Import Fees Utxo UtxoBalance TxOutCodec Phase1 Staking Governance LedgerState EpochBoundary Certificates.
From S2P Require Import EpochFacts EpochConservation SumKes WitnessSet Witnesses ScriptRules GovRules SubmitTx.
Local Open Scope Z_scope.

(** ** Sets that only grow *)

Definition grows {A} (f : HashSet28 -> A -> HashSet28) : Prop := forall out x, out ⊆ f out x.

Lemma foldl_grows {A} (f : HashSet28 -> A -> HashSet28) l : grows f -> forall out, out ⊆ foldl f out l.
Proof. intros Hf. induction l as [|x l IH]; intros out; [done|]. cbn [foldl]. etrans; [apply Hf|apply IH]. Qed.
Lemma foldl_collects {A} (f : HashSet28 -> A -> HashSet28) l x h out :
  grows f -> x ∈ l -> (forall out, h ∈ f out x) -> h ∈ foldl f out l.
Proof.
  intros Hf Hx Hh. revert out. induction l as [|y l IH]; intros out; [by apply elem_of_nil in Hx|].
  cbn [foldl]. apply elem_of_cons in Hx as [<-|Hx]; [by apply foldl_grows, Hh|by apply IH].
Qed.
Lemma when_some_grows {A} (f : A -> HashSet28 -> HashSet28) a out :
  (forall a out, out ⊆ f a out) -> out ⊆ when_some f a out.
Proof. intros Hf. destruct a as [a|]; [apply Hf|done]. Qed.

(** What a step of the folds may add. *)
Ltac grows := repeat intro; repeat case_match; set_solver.

(** ** Keys *)

Definition voter_key (v : Voter) : option (list Z) :=
  match v with
  | Voter_CommitteeKeyHash h | Voter_DRepKeyHash h | Voter_StakePool h => Some h
  | Voter_CommitteeScript _ | Voter_DRepScript _ => None
  end.

(** The keys that own what a transaction moves: the payment key of a spent
    output, the root of a spent Byron address, the key of a reward account, of
    a voter, of the subject of a certificate, and the signers the body names. *)
Inductive must_sign (b : ConwayBody) (utxo : MultiEraUtxo) (h : list Z) : Prop :=
  | Sign_spend i o a :
      i ∈ cb_inputs b -> utxo !! i = Some o -> Address_from_bytes (MultiEraTxOut_address o) = Some a ->
      Address_payment_credential a = Some (AddrKeyHash h) -> must_sign b utxo h
  | Sign_byron i o raw :
      i ∈ cb_inputs b -> utxo !! i = Some o -> Address_from_bytes (MultiEraTxOut_address o) = Some (Byron raw) ->
      byron_address_root raw = Ok (Some h) -> must_sign b utxo h
  | Sign_withdraw e :
      e ∈ default [] (cb_withdrawals b) -> ra_credential e.1 = AddrKeyHash h -> must_sign b utxo h
  | Sign_named : h ∈ default [] (cb_required_signers b) -> must_sign b utxo h
  | Sign_vote e : e ∈ default [] (cb_voting_procedures b) -> voter_key e.1 = Some h -> must_sign b utxo h
  | Sign_cert c :
      c ∈ default [] (cb_certificates b) -> h ∈ required_vkey_hashes_from_cert ∅ c -> must_sign b utxo h.

Lemma cert_keys_grow : grows required_vkey_hashes_from_cert.
Proof. intros out c. destruct c; cbn [required_vkey_hashes_from_cert]; set_solver. Qed.
Lemma cert_keys_any c h out : h ∈ required_vkey_hashes_from_cert ∅ c -> h ∈ required_vkey_hashes_from_cert out c.
Proof. destruct c; cbn [required_vkey_hashes_from_cert]; set_solver. Qed.

Lemma withdrawal_keys_grow l out : out ⊆ required_vkey_hashes_from_withdrawals l out.
Proof. apply foldl_grows. grows. Qed.
Lemma voting_keys_grow l out : out ⊆ required_vkey_hashes_from_voting_procedures l out.
Proof. apply foldl_grows. grows. Qed.

Lemma address_keys_grow address out out' : vkey_hashes_of_address address out = Ok out' -> out ⊆ out'.
Proof.
  unfold vkey_hashes_of_address. intros Hv. destruct (Address_from_bytes address) as [a|]; [|by simplify_eq].
  set (out1 := match Address_payment_credential a with Some _ => _ | None => _ end) in Hv.
  assert (out ⊆ out1) by (subst out1; case_match; set_solver).
  destruct a; simplify_eq; try done. apply obind_Ok_inv in Hv as (root & _ & Hv).
  destruct root; simplify_eq; set_solver.
Qed.

Lemma input_keys_grow inputs utxo : forall out out',
  required_vkey_hashes_from_inputs_multi_era inputs utxo out = Ok out' -> out ⊆ out'.
Proof.
  induction inputs as [|i inputs IH]; cbn [required_vkey_hashes_from_inputs_multi_era]; intros out out' Hr; [by simplify_eq|].
  apply obind_Ok_inv in Hr as (out1 & H1 & H2). etrans; [|by eapply IH].
  destruct (utxo !! i); [by eapply address_keys_grow|by simplify_eq].
Qed.

(** What an address asks for ends up in the set of its input. *)
Lemma input_keys_collect inputs utxo i o h :
  i ∈ inputs -> utxo !! i = Some o ->
  (forall out out', vkey_hashes_of_address (MultiEraTxOut_address o) out = Ok out' -> h ∈ out') -> forall out out',
  required_vkey_hashes_from_inputs_multi_era inputs utxo out = Ok out' -> h ∈ out'.
Proof.
  intros Hi Ho Hh. induction inputs as [|j inputs IH]; [by apply elem_of_nil in Hi|].
  cbn [required_vkey_hashes_from_inputs_multi_era]. intros out out' Hr.
  apply obind_Ok_inv in Hr as (out1 & H1 & H2). apply elem_of_cons in Hi as [<-|Hi]; [|by eapply IH].
  rewrite Ho in H1. by eapply input_keys_grow, Hh.
Qed.

Lemma required_keys_complete b utxo required h :
  conway_required_keys b utxo = Ok required -> must_sign b utxo h -> h ∈ required.
Proof.
  unfold conway_required_keys. intros Hr Hm. apply obind_Ok_inv in Hr as (out & Ho & Hr). injection Hr as <-.
  set (out1 := foldl required_vkey_hashes_from_cert out _).
  set (out2 := when_some required_vkey_hashes_from_withdrawals _ out1).
  set (out3 := foldl _ out2 _).
  assert (H1 : out ⊆ out1) by (apply foldl_grows, cert_keys_grow).
  assert (H2 : out1 ⊆ out2) by (apply when_some_grows, withdrawal_keys_grow).
  assert (H3 : out2 ⊆ out3) by (apply foldl_grows; grows).
  assert (H4 : out3 ⊆ when_some required_vkey_hashes_from_voting_procedures (cb_voting_procedures b) out3)
    by apply when_some_grows, voting_keys_grow.
  destruct Hm as [i o a Hi Hu Ha Hp|i o raw Hi Hu Ha Hroot|e He Hc|Hs|e He Hv|c Hc Hk].
  - apply H4, H3, H2, H1. eapply input_keys_collect; [exact Hi|exact Hu| |exact Ho]. intros o1 o2.
    unfold vkey_hashes_of_address. rewrite Ha, Hp. cbn [key_hash_of]. intros Hx.
    destruct a; simplify_eq; set_solver.
  - apply H4, H3, H2, H1. eapply input_keys_collect; [exact Hi|exact Hu| |exact Ho]. intros o1 o2.
    unfold vkey_hashes_of_address. rewrite Ha, Hroot. cbn [obind]. intros [= <-]. set_solver.
  - apply H4, H3. subst out2. destruct (cb_withdrawals b) as [ws|]; [|by apply elem_of_nil in He]. cbn [when_some default] in *.
    eapply foldl_collects; [grows|exact He|]. intros o1. cbn beta. rewrite Hc. set_solver.
  - apply H4. eapply foldl_collects; [grows|exact Hs|set_solver].
  - destruct (cb_voting_procedures b) as [ps|]; [|by apply elem_of_nil in He]. cbn [when_some default] in *.
    eapply foldl_collects; [grows|exact He|]. intros o1. cbn beta. destruct e.1; cbn in Hv; simplify_eq; set_solver.
  - apply H4, H3, H2. eapply foldl_collects; [apply cert_keys_grow|exact Hc|]. intros o1. by apply cert_keys_any.
Qed.

Section authorised.
Context `{Ed25519, PlutusCrypto}.

(** The witness set holds a valid signature of [message] by the key with this
    hash, or by the one a Byron address root stands for. *)
Definition signed (ws : ShelleyWitnessSet) (message h : list Z) : Prop :=
  (exists w, w ∈ ws_vkey_witnesses ws /\ vkey_hash (vw_vkey w) = h /\
     VerificationKey_verify (vw_vkey w) message (vw_signature w) = Ok tt) \/
  (exists w, w ∈ ws_bootstrap_witnesses ws /\ bootstrap_witness_key_hash w = h /\
     VerificationKey_verify (bw_public_key w) message (bw_signature w) = Ok tt).

Lemma witnesses_sign ws required message h :
  validate_witnesses_typed ws required message = Ok tt -> h ∈ required -> signed ws message h.
Proof.
  unfold validate_witnesses_typed. intros Hv Hh.
  apply obind_Ok_inv in Hv as ([] & Hr & Hv). apply obind_Ok_inv in Hv as ([] & Hk & Hb).
  apply check_all_ok in Hr, Hk, Hb. rewrite Forall_forall in Hr. rewrite Forall_forall in Hk. rewrite Forall_forall in Hb.
  specialize (Hr h ltac:(by apply elem_of_elements)). cbn beta in Hr. case_bool_decide as Hin; [|done].
  apply elem_of_union in Hin as [Hin|Hin]; apply elem_of_list_to_set, list_elem_of_fmap in Hin as (w & -> & Hw).
  - left. exists w. split_and!; [done..|]. by eapply map_err_Ok_inv, Hk.
  - right. exists w. split_and!; [done..|]. specialize (Hb w Hw). cbn beta in Hb.
    apply obind_Ok_inv in Hb as (_ & _ & Hb). by eapply map_err_Ok_inv, Hb.
Qed.

(** ** Scripts *)

(** A Plutus script of the witness set, or behind one of [inputs]. *)
Definition witness_scripts (ws : ShelleyWitnessSet) (version : PlutusVersion) : list (list Z) :=
  match version with
  | PlutusV1 => ws_plutus_v1_scripts ws
  | PlutusV2 => ws_plutus_v2_scripts ws
  | PlutusV3 => ws_plutus_v3_scripts ws
  end.
Definition reference_script (utxo : MultiEraUtxo) (i : ShelleyTxIn) : option (PlutusVersion * list Z) :=
  match utxo !! i ≫= MultiEraTxOut_script_ref with
  | Some (Script_PlutusV1 bytes) => Some (PlutusV1, bytes)
  | Some (Script_PlutusV2 bytes) => Some (PlutusV2, bytes)
  | Some (Script_PlutusV3 bytes) => Some (PlutusV3, bytes)
  | _ => None
  end.
Definition provides (ws : ShelleyWitnessSet) (utxo : MultiEraUtxo) (inputs : list ShelleyTxIn)
    (s : PlutusVersion * list Z) : Prop :=
  s.2 ∈ witness_scripts ws s.1 \/ exists i, i ∈ inputs /\ reference_script utxo i = Some s.
Definition hash_of (s : PlutusVersion * list Z) : list Z := plutus_script_hash s.1 s.2.

(** A map filled by a loop holds what it held or what the loop adds. *)
Lemma added_scripts {A} (f : PlutusScripts -> A -> PlutusScripts) (e : A -> option (PlutusVersion * list Z)) l h :
  (forall m x, f m x = match e x with Some (v, b) => add_script v m b | None => m end) -> forall m,
  (forall s, foldl f m l !! h = Some s -> m !! h = Some s \/ exists x, x ∈ l /\ e x = Some s /\ hash_of s = h) /\
  (is_Some (m !! h) \/ (exists x s, x ∈ l /\ e x = Some s /\ hash_of s = h) -> is_Some (foldl f m l !! h)).
Proof.
  intros Hf. induction l as [|y l IH]; intros m; cbn [foldl].
  { split; [by left|]. intros [Hm|(x & s & Hx & _)]; [done|by apply elem_of_nil in Hx]. }
  destruct (IH (f m y)) as [IH1 IH2]. rewrite Hf in IH1, IH2. rewrite Hf. split.
  - intros s Hs. apply IH1 in Hs as [Hs|(x & Hx & He)].
    + destruct (e y) as [[v b]|] eqn:Ey; [|by left]. unfold add_script in Hs.
      apply lookup_insert_Some in Hs as [[Hh <-]|[_ Hs]]; [|by left].
      right. exists y. split_and!; [by left|done..].
    + right. exists x. split; [by right|done].
  - intros Hs. apply IH2. destruct Hs as [Hs|(x & s & Hx & He & Hh)].
    + left. destruct (e y) as [[v b]|]; [|done]. by apply lookup_insert_is_Some'; right.
    + apply elem_of_cons in Hx as [->|Hx]; [|right; by exists x, s].
      left. rewrite He. destruct s as [v b]. unfold add_script. change (plutus_script_hash v b) with (hash_of (v, b)).
      rewrite Hh, lookup_insert_eq. by eexists.
Qed.

Lemma collected_scripts ws utxo refs spent h :
  (forall s, collect_all_plutus_scripts ws utxo refs spent !! h = Some s ->
     provides ws utxo (default [] refs ++ default [] spent) s /\ hash_of s = h) /\
  (forall s, provides ws utxo (default [] refs ++ default [] spent) s -> hash_of s = h ->
     is_Some (collect_all_plutus_scripts ws utxo refs spent !! h)).
Proof.
  unfold collect_all_plutus_scripts, collect_plutus_scripts. set (inputs := default [] refs ++ default [] spent).
  set (m1 := foldl (add_script PlutusV1) ∅ _). set (m2 := foldl (add_script PlutusV2) m1 _).
  set (m3 := foldl (add_script PlutusV3) m2 _).
  destruct (added_scripts (add_script PlutusV1) (fun b => Some (PlutusV1, b)) (ws_plutus_v1_scripts ws) h
    ltac:(done) ∅) as [A1 B1].
  destruct (added_scripts (add_script PlutusV2) (fun b => Some (PlutusV2, b)) (ws_plutus_v2_scripts ws) h
    ltac:(done) m1) as [A2 B2].
  destruct (added_scripts (add_script PlutusV3) (fun b => Some (PlutusV3, b)) (ws_plutus_v3_scripts ws) h
    ltac:(done) m2) as [A3 B3].
  destruct (added_scripts (add_reference_script utxo) (reference_script utxo) inputs h) with (m := m3) as [A4 B4].
  { intros m x. unfold add_reference_script, reference_script. by destruct (_ ≫= _) as [[]|]. }
  fold m1 in A1, B1. fold m2 in A2, B2. fold m3 in A3, B3. split.
  - intros s Hs. apply A4 in Hs as [Hs|(x & Hx & He & Hh)]; [|split; [right; by exists x|done]].
    apply A3 in Hs as [Hs|(x & Hx & [= <-] & Hh)]; [|by split; [left|]].
    apply A2 in Hs as [Hs|(x & Hx & [= <-] & Hh)]; [|by split; [left|]].
    apply A1 in Hs as [Hs|(x & Hx & [= <-] & Hh)]; [by rewrite lookup_empty in Hs|by split; [left|]].
  - intros [v b] [Hw|(i & Hi & He)] Hh; [|apply B4; right; by exists i, (v, b)]. apply B4. left. cbn [fst snd] in Hw.
    destruct v; cbn [witness_scripts] in Hw.
    + apply B3. left. apply B2. left. apply B1. right. by exists b, (PlutusV1, b).
    + apply B3. left. apply B2. right. by exists b, (PlutusV2, b).
    + apply B3. right. by exists b, (PlutusV3, b).
Qed.

Lemma native_map_lookup scripts h s :
  native_script_map scripts !! h = Some s -> s ∈ scripts /\ native_script_hash s = h.
Proof.
  unfold native_script_map.
  assert (Hgen : forall m : gmap (list Z) NativeScript, foldl (fun m ns => <[native_script_hash ns := ns]> m) m scripts !! h = Some s ->
    m !! h = Some s \/ s ∈ scripts /\ native_script_hash s = h).
  { induction scripts as [|x scripts IH]; intros m Hs; cbn [foldl] in Hs; [by left|].
    apply IH in Hs as [Hs|[Hs Hh]]; [|right; split; [by right|done]].
    apply lookup_insert_Some in Hs as [[Hh <-]|[_ Hs]]; [right; split; [by left|done]|by left]. }
  intros Hs. apply Hgen in Hs as [Hs|Hs]; [by rewrite lookup_empty in Hs|done].
Qed.

Lemma native_checked scripts ctx required : forall sat sat', check_native_scripts scripts ctx required sat = Ok sat' ->
  forall h, h ∈ sat' -> h ∈ sat \/ exists s, scripts !! h = Some s /\ satisfied ctx s = true.
Proof.
  induction required as [|r required IH]; intros sat sat' Hc h Hh; cbn [check_native_scripts] in Hc; [simplify_eq; by left|].
  apply obind_Ok_inv in Hc as (sat1 & H1 & Hc). apply (IH _ _ Hc) in Hh as [Hh|Hh]; [|by right].
  destruct (scripts !! r) as [s|] eqn:Es; [|simplify_eq; by left].
  rewrite native_evaluates in H1. cbn [ledger map_err obind] in H1. destruct (satisfied ctx s) eqn:Esat; [|done].
  cbn [negb] in H1. injection H1 as <-. apply elem_of_union in Hh as [Hh|Hh]; [|by left].
  apply elem_of_singleton in Hh as ->. right. by exists s.
Qed.

(** A use of a script by hash [h]: the redeemer that belongs to it has this tag
    and index, and the script is told this purpose. *)
Inductive guarded (b : ConwayBody) (utxo : MultiEraUtxo) : Z -> nat -> ScriptPurpose -> list Z -> Prop :=
  | Guard_spend k i o h :
      si_inputs (script_items b) !! k = Some i -> utxo !! i = Some o -> spending_script_hash_from_txout o = Some h ->
      guarded b utxo 0 k (Purpose_Spending (ti_transaction_id i) (ti_index i)) h
  | Guard_mint k p : si_policies (script_items b) !! k = Some p -> guarded b utxo 1 k (Purpose_Minting p) p
  | Guard_withdraw k a h :
      bt_keys (default [] (cb_withdrawals b)) !! k = Some a -> ra_credential a = ScriptHash h ->
      guarded b utxo 3 k (Purpose_Rewarding a) h
  | Guard_vote k v h :
      si_voters (script_items b) !! k = Some v -> voting_voter_script_hash v = Some h ->
      guarded b utxo 4 k (Purpose_Voting v) h.

(** Fields of the width their Rust types have, so that the witness set is read
    back from its encoding. *)
Record tx_shaped (tx : SubmittedTx) : Prop := {
  ts_witnesses : witness_set_ok (sx_witness_set tx);
  ts_length : zlength (ShelleyWitnessSet_encode (sx_witness_set tx)) <= ISIZE_MAX;
  ts_inputs : Forall (fun i => 0 <= ti_index i < 65536) (cb_inputs (sx_body tx));
  ts_accounts : Forall (fun e => network_ok (ra_network e.1) /\ cred_ok (ra_credential e.1))
                  (default [] (cb_withdrawals (sx_body tx))) }.

(** A script satisfied by the transaction in [slot]. *)
Definition native_ok (tx : SubmittedTx) (slot : Z) (h : list Z) : Prop :=
  exists s, (s ∈ ws_native_scripts (sx_witness_set tx)) /\ (native_script_hash s = h) /\
    satisfied (mkNativeContext (witness_vkey_hash_set (ws_vkey_witnesses (sx_witness_set tx))) slot) s = true.
(** A spent output brings its datum, and nothing else has one. *)
Definition datum_for (utxo : MultiEraUtxo) (datums : DatumMap) (purpose : ScriptPurpose)
    (datum : option PlutusData) : Prop :=
  match purpose with
  | Purpose_Spending tx_id index =>
      exists o d, utxo !! mkTxIn tx_id index = Some o /\ resolve_spending_datum o datums tx_id index = Ok d /\
        datum = Some d
  | _ => datum = None
  end.
Definition plutus_ok (l : LedgerState) (tx : SubmittedTx) (evaluator : option PlutusEvaluator)
    (tag : Z) (k : nat) (purpose : ScriptPurpose) (h : list Z) : Prop :=
  let b := sx_body tx in
  let utxo := ls_multi_era_utxo l in
  exists version bytes r,
    provides (sx_witness_set tx) utxo (default [] (cb_reference_inputs b) ++ cb_inputs b) (version, bytes) /\
    plutus_script_hash version bytes = h /\
    r ∈ ws_redeemers (sx_witness_set tx) /\ rd_tag r = tag /\ rd_index r = Z.of_nat k /\
    forall eval, evaluator = Some eval -> exists datum datums redeemers,
      datum_for utxo datums purpose datum /\
      pev_evaluate eval
        (mkPlutusScriptEval h version bytes purpose datum (rd_data r) (rd_ex_units r)
           ((ls_protocol_params l ≫= cost_models) ≫= bt_get (cost_model_key version)))
        (augment_context (conway_tx_context l tx) utxo (script_items b) datums redeemers) = Ok tt.

Lemma guarded_required b utxo tag k purpose h : guarded b utxo tag k purpose h -> h ∈ conway_required_scripts b utxo.
Proof.
  unfold conway_required_scripts. intros Hg.
  set (out1 := required_script_hashes_from_inputs_multi_era _ utxo ∅).
  set (out2 := foldl required_script_hashes_from_cert out1 _).
  set (out3 := when_some required_script_hashes_from_withdrawals _ out2).
  set (out4 := when_some required_script_hashes_from_mint _ out3).
  set (out5 := when_some required_script_hashes_from_voting_procedures _ out4).
  assert (H1 : out1 ⊆ out2) by (apply foldl_grows; intros out c; destruct c; cbn [required_script_hashes_from_cert]; set_solver).
  assert (H2 : out2 ⊆ out3) by (apply when_some_grows; intros; apply foldl_grows; grows).
  assert (H3 : out3 ⊆ out4) by (apply when_some_grows; intros; apply foldl_grows; grows).
  assert (H4 : out4 ⊆ out5) by (apply when_some_grows; intros; apply foldl_grows; grows).
  assert (H5 : out5 ⊆ when_some required_script_hashes_from_proposal_procedures (cb_proposal_procedures b) out5)
    by (apply when_some_grows; intros; apply foldl_grows; grows).
  apply H5. destruct Hg as [k i o h Hi Hu Hs|k p Hp|k a h Ha Hc|k v h Hv Hs].
  - apply H4, H3, H2, H1. eapply (foldl_collects _ _ i).
    + intros out j. case_match; [|done]. unfold script_hashes_of_address. repeat case_match; set_solver.
    + cbn [script_items si_inputs] in Hi. apply list_elem_of_lookup_2 in Hi. by rewrite merge_sort_Permutation in Hi.
    + intros out. cbn beta. rewrite Hu. unfold spending_script_hash_from_txout, script_hashes_of_address in *.
      destruct (Address_from_bytes _); [|done]. cbn in Hs. repeat case_match; simplify_eq; cbn [script_hash_of]; set_solver.
  - apply H4. cbn [script_items si_policies] in Hp. apply list_elem_of_lookup_2, list_elem_of_fmap in Hp as (e & -> & He).
    subst out4. destruct (cb_mint b) as [m|]; [|by apply elem_of_nil in He]. eapply foldl_collects; [grows|exact He|set_solver].
  - apply H4, H3. apply list_elem_of_lookup_2, list_elem_of_fmap in Ha as (e & -> & He).
    subst out3. destruct (cb_withdrawals b) as [m|]; [|by apply elem_of_nil in He].
    eapply foldl_collects; [grows|exact He|]. intros out. cbn beta. rewrite Hc. set_solver.
  - cbn [script_items si_voters] in Hv. apply list_elem_of_lookup_2, list_elem_of_fmap in Hv as (e & -> & He).
    subst out5. destruct (cb_voting_procedures b) as [m|]; [|by apply elem_of_nil in He].
    eapply foldl_collects; [grows|exact He|]. intros out. cbn beta. destruct e.1; cbn in Hs; simplify_eq; set_solver.
Qed.

(** The redeemer that the rules ask for a guarded use. *)
Lemma required_of_elem {A} tag (f : A -> option (list Z)) required scripts l k x h :
  l !! k = Some x -> f x = Some h -> h ∈ required -> is_Some (scripts !! h) ->
  mkRequired tag (Z.of_nat k) h ∈ required_of tag f required scripts l.
Proof.
  intros Hx Hf Hr Hs. unfold required_of. apply list_elem_of_omap. exists (k, x). split.
  - apply list_elem_of_lookup. exists k. by rewrite list_lookup_imap, Hx.
  - cbn [fst snd]. rewrite Hf. cbn [mbind option_bind]. by rewrite !bool_decide_eq_true_2.
Qed.

Lemma account_read tx a :
  tx_shaped tx -> a ∈ bt_keys (default [] (cb_withdrawals (sx_body tx))) ->
  RewardAccount_from_bytes (RewardAccount_to_bytes a) = Some a.
Proof.
  intros [_ _ _ Ha] Hin. apply list_elem_of_fmap in Hin as (e & -> & He). rewrite Forall_forall in Ha.
  destruct (Ha e He). by apply RewardAccount_bytes.
Qed.

Lemma guarded_pointer tx utxo tag k purpose h required scripts :
  tx_shaped tx -> guarded (sx_body tx) utxo tag k purpose h -> h ∈ required -> is_Some (scripts !! h) ->
  mkRequired tag (Z.of_nat k) h
    ∈ collect_required_plutus_redeemers required scripts utxo (script_items (sx_body tx)).
Proof.
  intros Hshape Hg Hr Hs. unfold collect_required_plutus_redeemers. rewrite !elem_of_app.
  destruct Hg as [k i o h Hi Hu Hh|k p Hp|k a h Ha Hc|k v h Hv Hh].
  - left. eapply required_of_elem; [done| |done..]. cbn beta. by rewrite Hu.
  - right. left. by eapply required_of_elem.
  - do 3 right. left. eapply (required_of_elem _ _ _ _ _ _ (RewardAccount_to_bytes a)); [| |done..].
    + cbn [script_items si_reward_accounts]. by rewrite list_lookup_fmap, Ha.
    + cbn beta. rewrite (account_read tx) by (done || by eapply list_elem_of_lookup_2). cbn [mbind option_bind]. by rewrite Hc.
  - do 4 right. left. by eapply required_of_elem.
Qed.

(** The redeemer resolves to the purpose, and the purpose to the script. *)
Lemma guarded_resolves tx utxo tag k purpose h r :
  tx_shaped tx -> guarded (sx_body tx) utxo tag k purpose h -> rd_tag r = tag -> rd_index r = Z.of_nat k ->
  resolve_script_purpose (script_items (sx_body tx)) r = Ok purpose /\ target_hash utxo purpose = Some h.
Proof.
  intros Hshape Hg Ht Hk. unfold resolve_script_purpose, at_index. rewrite Hk, Nat2Z.id.
  destruct Hg as [k i o h Hi Hu Hh|k p Hp|k a h Ha Hc|k v h Hv Hh]; rewrite Ht; cbn [target_hash].
  - rewrite Hi. cbn [ok_or obind]. split; [done|].
    assert (Hin : i ∈ cb_inputs (sx_body tx)).
    { cbn [script_items si_inputs] in Hi. apply list_elem_of_lookup_2 in Hi. by rewrite merge_sort_Permutation in Hi. }
    destruct Hshape as [_ _ Hw _]. rewrite Forall_forall in Hw. specialize (Hw i Hin). cbn beta in Hw.
    unfold wrap16. rewrite Z.mod_small by lia. destruct i as [t ix]. cbn [ti_transaction_id ti_index].
    by rewrite Hu.
  - by rewrite Hp.
  - cbn [script_items si_reward_accounts]. rewrite list_lookup_fmap, Ha. cbn [fmap option_fmap option_map ok_or obind].
    rewrite (account_read tx) by (done || by eapply list_elem_of_lookup_2). cbn [ok_or obind]. by rewrite Hc.
  - by rewrite Hv.
Qed.

Lemma resolve_all_elem items rs : forall resolved r purpose, resolve_all items rs = Ok resolved -> r ∈ rs ->
  resolve_script_purpose items r = Ok purpose -> (r, (purpose, rd_data r)) ∈ zip rs resolved.
Proof.
  induction rs as [|x rs IH]; intros resolved r purpose Hr Hin Hp; [by apply elem_of_nil in Hin|].
  cbn [resolve_all] in Hr. apply obind_Ok_inv in Hr as (p & E & Hr). apply obind_Ok_inv in Hr as (rest & E1 & Hr).
  injection Hr as <-. cbn [zip zip_with]. apply elem_of_cons in Hin as [->|Hin].
  - rewrite Hp in E. injection E as ->. by left.
  - right. by eapply IH.
Qed.

Lemma witness_bytes_read tx :
  tx_shaped tx -> decode_witnesses (ShelleyWitnessSet_encode (sx_witness_set tx)) = Ok (sx_witness_set tx).
Proof.
  intros [Hw Hl _ _]. unfold decode_witnesses, ledger. by rewrite witness_set_round_trip.
Qed.

Lemma pointer_found ws expected e :
  check_pointers ws expected = Ok tt -> e ∈ expected ->
  exists r, r ∈ ws_redeemers ws /\ rd_tag r = rq_tag e /\ rd_index r = rq_index e.
Proof.
  unfold check_pointers. intros Hc He. apply check_all_ok in Hc. rewrite Forall_forall in Hc.
  specialize (Hc e He). cbn beta in Hc. case_bool_decide as Hin; [|done].
  apply elem_of_list_to_set, list_elem_of_fmap in Hin as (r & [= -> ->] & Hr). by exists r.
Qed.

(** A redeemer whose purpose targets a script passed that script. *)
Lemma redeemer_ran eval utxo scripts datums models ctx r purpose data h version bytes :
  run_redeemer eval utxo scripts datums models ctx (r, (purpose, data)) = Ok tt ->
  target_hash utxo purpose = Some h -> scripts !! h = Some (version, bytes) ->
  match purpose with Purpose_Spending _ ix => 0 <= ix < 65536 | _ => True end ->
  exists datum, datum_for utxo datums purpose datum /\
    pev_evaluate eval
      (mkPlutusScriptEval h version bytes purpose datum data (rd_ex_units r) (models ≫= bt_get (cost_model_key version)))
      ctx = Ok tt.
Proof.
  unfold run_redeemer. intros Hrun Ht Hs Hix. rewrite Ht, Hs in Hrun.
  apply obind_Ok_inv in Hrun as (datum & Hd & Hrun). exists datum. split; [|by eapply map_err_Ok_inv].
  destruct purpose; cbn [datum_for]; try (by injection Hd as <-).
  unfold wrap16 in Hd. rewrite Z.mod_small in Hd by lia.
  apply obind_Ok_inv in Hd as (o & Ho & Hd). apply obind_Ok_inv in Hd as (d & Hd & [= <-]).
  destruct (utxo !! _) as [o'|] eqn:E; [|done]. injection Ho as ->. by exists o, d.
Qed.

Lemma plutus_use_ran l tx evaluator tag k purpose h required s :
  tx_shaped tx -> guarded (sx_body tx) (ls_multi_era_utxo l) tag k purpose h -> h ∈ required ->
  provides (sx_witness_set tx) (ls_multi_era_utxo l)
    (default [] (cb_reference_inputs (sx_body tx)) ++ cb_inputs (sx_body tx)) s -> hash_of s = h ->
  validate_plutus_scripts evaluator (Some (ShelleyWitnessSet_encode (sx_witness_set tx))) required
    (ls_multi_era_utxo l) (script_items (sx_body tx)) (conway_tx_context l tx)
    (ls_protocol_params l ≫= cost_models) = Ok tt ->
  plutus_ok l tx evaluator tag k purpose h.
Proof.
  intros Hshape Hg Hr Hprov Hhash Hv. unfold validate_plutus_scripts in Hv.
  rewrite (witness_bytes_read tx Hshape) in Hv. cbn [obind] in Hv.
  set (b := sx_body tx) in *. set (utxo := ls_multi_era_utxo l) in *. set (ws := sx_witness_set tx) in *.
  set (refs := match tx_reference_inputs (conway_tx_context l tx) with [] => _ | _ => _ end) in Hv.
  set (scripts := collect_all_plutus_scripts ws utxo refs _) in Hv.
  assert (Hrefs : default [] refs = default [] (cb_reference_inputs b)).
  { subst refs. cbn [conway_tx_context tx_reference_inputs]. fold b. by destruct (default [] (cb_reference_inputs b)). }
  destruct (collected_scripts ws utxo refs (Some (si_inputs (script_items b))) h) as [Hget Hhas].
  fold scripts in Hget, Hhas. rewrite Hrefs in Hget, Hhas. cbn [default from_option id] in Hget, Hhas.
  assert (Hperm : forall s, provides ws utxo (default [] (cb_reference_inputs b) ++ si_inputs (script_items b)) s
    <-> provides ws utxo (default [] (cb_reference_inputs b) ++ cb_inputs b) s).
  { intros s'. unfold provides. cbn [script_items si_inputs]. by setoid_rewrite merge_sort_Permutation. }
  destruct (Hhas s ltac:(by apply Hperm) Hhash) as [[version bytes] Hs].
  destruct (Hget _ Hs) as [Hprov' Hhash'].
  apply obind_Ok_inv in Hv as (datums & _ & Hv). apply obind_Ok_inv in Hv as (resolved & Hres & Hv).
  apply obind_Ok_inv in Hv as ([] & _ & Hv). apply obind_Ok_inv in Hv as ([] & Hptr & Hv).
  destruct (pointer_found ws _ _ Hptr (guarded_pointer tx utxo tag k purpose h required scripts Hshape Hg Hr
    ltac:(by eexists))) as (r & Hin & Ht & Hk). cbn [rq_tag rq_index] in Ht, Hk.
  destruct (guarded_resolves tx utxo tag k purpose h r Hshape Hg Ht Hk) as [Hpurpose Htarget].
  exists version, bytes, r. split_and!; [by apply Hperm|done..|].
  intros eval ->.
  assert (Hversions : version ∈ omap (fun h => fst <$> scripts !! h) (elements required)).
  { apply list_elem_of_omap. exists h. split; [by apply elem_of_elements|by rewrite Hs]. }
  destruct (omap _ (elements required)) as [|v0 vs]; [by apply elem_of_nil in Hversions|].
  apply obind_Ok_inv in Hv as ([] & _ & Hv). apply check_all_ok in Hv. rewrite Forall_forall in Hv.
  specialize (Hv _ (resolve_all_elem _ _ _ _ _ Hres Hin Hpurpose)).
  eapply redeemer_ran in Hv as (datum & Hd & He); [|done|exact Hs|].
  - exists datum, datums, (sorted_redeemers_for_tx_info (ws_redeemers ws) resolved). by split.
  - destruct Hg as [k i o h Hi Hu Hh| | |]; try done. destruct Hshape as [_ _ Hw _]. rewrite Forall_forall in Hw. apply Hw.
    cbn [script_items si_inputs] in Hi. apply list_elem_of_lookup_2 in Hi. by rewrite merge_sort_Permutation in Hi.
Qed.

(** A required script is a native script that holds or a Plutus script. *)
Lemma native_script_holds tx required slot native h :
  tx_shaped tx ->
  validate_native_scripts_if_present (Some (ShelleyWitnessSet_encode (sx_witness_set tx))) required slot = Ok native ->
  h ∈ native -> native_ok tx slot h.
Proof.
  intros Hshape Hn Hh. unfold validate_native_scripts_if_present in Hn.
  case_bool_decide; [injection Hn as <-; set_solver|]. rewrite (witness_bytes_read tx Hshape) in Hn. cbn [obind] in Hn.
  apply (native_checked _ _ _ _ _ Hn) in Hh as [Hh|(s & Hs & Hsat)]; [set_solver|].
  apply native_map_lookup in Hs as [Hin Hhash]. by exists s.
Qed.
Lemma required_script_provided tx required native utxo refs spent h :
  tx_shaped tx ->
  validate_required_script_witnesses (Some (ShelleyWitnessSet_encode (sx_witness_set tx))) required native utxo refs
    (Some spent) = Ok tt -> h ∈ required ->
  h ∈ native \/ exists s, provides (sx_witness_set tx) utxo (default [] refs ++ spent) s /\ hash_of s = h.
Proof.
  intros Hshape Hv Hr. unfold validate_required_script_witnesses in Hv.
  rewrite bool_decide_eq_false_2 in Hv by set_solver. rewrite (witness_bytes_read tx Hshape) in Hv. cbn [obind] in Hv.
  apply check_all_ok in Hv. rewrite Forall_forall in Hv. specialize (Hv h ltac:(by apply elem_of_elements)). cbn beta in Hv.
  case_bool_decide; [by left|right]. cbn [orb] in Hv. case_bool_decide as Hs; [|done]. destruct Hs as [s Hs].
  exists s. by apply collected_scripts in Hs.
Qed.

(** ** The checks together *)

Lemma checks_authorise l tx slot evaluator :
  conway_checks l tx slot evaluator = Ok tt -> tx_shaped tx ->
  (forall h, must_sign (sx_body tx) (ls_multi_era_utxo l) h -> signed (sx_witness_set tx) (submitted_tx_id tx) h) /\
  (forall tag k purpose h, guarded (sx_body tx) (ls_multi_era_utxo l) tag k purpose h ->
     native_ok tx slot h \/ plutus_ok l tx evaluator tag k purpose h).
Proof.
  intros Hc Hshape. unfold conway_checks in Hc. cbv zeta in Hc. destruct (negb (sx_is_valid tx)); [done|].
  set (b := sx_body tx) in *. set (utxo := ls_multi_era_utxo l) in *. set (reqs := conway_required_scripts b utxo) in *.
  do 6 apply obind_Ok_inv in Hc as (? & _ & Hc). apply obind_Ok_inv in Hc as (required & Hreq & Hc).
  apply obind_Ok_inv in Hc as ([] & Hwit & Hc). apply obind_Ok_inv in Hc as (? & _ & Hc).
  apply obind_Ok_inv in Hc as (native & Hnat & Hc). apply obind_Ok_inv in Hc as ([] & Hscr & Hc).
  do 5 apply obind_Ok_inv in Hc as (? & _ & Hc). split.
  - intros h Hm. eapply witnesses_sign; [exact Hwit|]. eapply required_keys_complete; [|exact Hm].
    by eapply map_err_Ok_inv.
  - intros tag k purpose h Hg. pose proof (guarded_required _ _ _ _ _ _ Hg) as Hr. fold reqs in Hr.
    destruct (required_script_provided _ _ _ _ _ _ _ Hshape Hscr Hr) as [Hn|(s & Hp & Hh)].
    + left. by eapply native_script_holds.
    + right. by eapply plutus_use_ran.
Qed.

End authorised.

(** ** A submission, run *)

(** Hashes that cut and pad. *)
Definition padded_crypto : PlutusCrypto := {|
  G1Element := unit; G2Element := unit; MlResult := unit;
  sha2_256_hash := id; sha3_256_hash := id; keccak_256_hash := id; ripemd_160_hash := id;
  hash_bytes_256 := pad32; hash_bytes_224 l := take 28 (pad32 l);
  ed25519_verify := fun _ _ _ => true;
  secp256k1_verify_ecdsa := fun _ _ _ => inr true;
  secp256k1_verify_schnorr := fun _ _ _ => inr true;
  g1_add := fun _ _ => tt; g1_neg := fun _ => tt; g1_scalar_mul := fun _ _ _ => tt;
  g1_equal := fun _ _ => true; g1_hash_to_group := fun _ _ => inr tt;
  g1_compress := fun _ => []; g1_uncompress := fun _ => inr tt;
  g2_add := fun _ _ => tt; g2_neg := fun _ => tt; g2_scalar_mul := fun _ _ _ => tt;
  g2_equal := fun _ _ => true; g2_hash_to_group := fun _ _ => inr tt;
  g2_compress := fun _ => []; g2_uncompress := fun _ => inr tt;
  miller_loop := fun _ _ => tt; mul_ml_result := fun _ _ => tt;
  final_verify := fun _ _ => true |}.

(** An output of key 4 and one of a native script that asks for key 4, a reward
    account of key 1. *)
Definition sample_lock : NativeScript := ScriptPubkey (replicate 28 4).
Definition sample_lock_hash : list Z := Eval vm_compute in @native_script_hash padded_crypto sample_lock.
Definition key_input : ShelleyTxIn := mkTxIn (replicate 32 8) 0.
Definition script_input : ShelleyTxIn := mkTxIn (replicate 32 8) 1.
Definition submit_ledger : LedgerState :=
  boundary_ledger
    <| ls_multi_era_utxo :=
         <[key_input := Out_Babbage (97 :: replicate 28 4) (Value_Coin 3000000) None None]>
           (<[script_input := Out_Babbage (113 :: sample_lock_hash) (Value_Coin 2000000) None None]> ∅) |>
    <| ls_reward_accounts := [(account 1, mkRewardState 7 None)] |>.
(** It spends both, draws the rewards, proposes an action and donates. *)
Definition submit_core : ConwayTxBody :=
  mkConwayTxBody
    (mkTxBody [script_input; key_input] [mkBabbageTxOut (97 :: replicate 28 6) (Value_Coin 4000000) None None]
       1000001 None None) None (Some 1).
Definition submit_body : ConwayBody :=
  mkConwayBody submit_core None (Some [(account 1, 7)]) None None None None None None None None None
    (Some [mkProposal 5 (RewardAccount_to_bytes (account 1)) InfoAction (mkAnchor [] (replicate 32 0))]) None.
Definition submit_raw_body : list Z := [161; 1; 129; 0].
Definition sample_signature (n : Z) : ShelleyVkeyWitness :=
  mkVkeyWitness (replicate 32 n) (replicate 32 n ++ pad32 submit_raw_body).
Definition submit_tx : SubmittedTx :=
  mkSubmitted submit_body
    (mkWitnessSet [sample_signature 1; sample_signature 4] [sample_lock] [] [] [] [] [] [])
    true None (replicate 300 0) submit_raw_body.

Lemma submit_shaped : tx_shaped submit_tx.
Proof.
  split; [split| | |]; cbn; repeat (apply Forall_cons_2 || apply Forall_nil_2 || split); try done; try (vm_compute; congruence).
Qed.
Lemma submit_accepted :
  @apply_submitted_tx toy_ed padded_crypto submit_ledger submit_tx 10 None
  = (fst (@apply_submitted_tx toy_ed padded_crypto submit_ledger submit_tx 10 None), Ok tt).
Proof.
  rewrite (surjective_pairing (apply_submitted_tx _ _ _ _)) at 1. apply f_equal2; [reflexivity|vm_compute; reflexivity].
Qed.

