(* ===== verification/SubmitBalance.v ===== *)
(** * What an accepted submission does to the books

    The state change of [SubmitTx] as a whole: certificates, withdrawals,
    deposits of proposals, votes, donation and the new outputs move lovelace
    between the books of the ledger, and only the fee leaves them. *)

From stdpp Require Import gmap list sorting.
From S2P Require Import Prelude Cbor CborFacts CborSkip Types AddressFacts TypesCodec BTree ProtocolParams.
From S2P Require Import NativeScript PlutusData Uplc CostModel GenesisCosts Builtins ScriptContext PlutusEval.
From S2P Require Import Fees Utxo UtxoBalance TxOutCodec Phase1 Staking Rewards RewardsFacts Governance LedgerState.
From S2P Require Import EpochBoundary EpochFacts EpochConservation Certificates CertificateFacts.
From S2P Require Import SumKes WitnessSet Witnesses ScriptRules GovRules GovFacts SubmitTx SubmitFacts.
Local Open Scope Z_scope.

(** ** Representatives that are only marked active *)

Definition deposits_of (dreps : DrepState) : list (DRep * Z) := (fun e => (e.1, rd_deposit e.2)) <$> dreps.

Lemma deposits_alter f k dreps :
  (forall r, rd_deposit (f r) = rd_deposit r) -> deposits_of (bt_alter f k dreps) = deposits_of dreps.
Proof.
  intros Hf. induction dreps as [|[k' r] dreps IH]; [done|]. cbn [bt_alter].
  destruct (key_eqb k k'); cbn; [by rewrite Hf|]. by f_equal.
Qed.
Lemma deposits_map f dreps :
  (forall r, rd_deposit (f r) = rd_deposit r) -> deposits_of (map_values f dreps) = deposits_of dreps.
Proof.
  intros Hf. unfold deposits_of, map_values. rewrite <- list_fmap_compose. apply list_fmap_ext. intros i [k r] _. cbn.
  by rewrite Hf.
Qed.
Lemma deposits_get dreps k : bt_get k (deposits_of dreps) = rd_deposit <$> bt_get k dreps.
Proof. induction dreps as [|[k' r] dreps IH]; [done|]. cbn. by destruct (key_eqb k k'). Qed.
Lemma deposits_sum dreps : bt_sum rd_deposit dreps = bt_sum id (deposits_of dreps).
Proof. induction dreps as [|[k r] dreps IH]; [done|]. cbn. f_equal. exact IH. Qed.

Lemma deposits_contains dreps dreps' k :
  deposits_of dreps' = deposits_of dreps -> bt_contains k dreps' = bt_contains k dreps.
Proof.
  intros Hd. unfold bt_contains. pose proof (deposits_get dreps k) as H1. rewrite <- Hd, deposits_get in H1.
  by destruct (bt_get k dreps), (bt_get k dreps').
Qed.
Lemma deposits_sorted dreps dreps' : deposits_of dreps' = deposits_of dreps -> bt_sorted dreps -> bt_sorted dreps'.
Proof.
  assert (Hk : forall d, bt_keys (deposits_of d) = bt_keys d).
  { intros d. unfold bt_keys, deposits_of. rewrite <- list_fmap_compose. by apply list_fmap_ext. }
  intros Hd. by rewrite !bt_sorted_keys, <- (Hk dreps'), Hd, Hk.
Qed.
Lemma deposits_nonneg dreps dreps' :
  deposits_of dreps' = deposits_of dreps -> Forall (fun e => 0 <= rd_deposit e.2) dreps ->
  Forall (fun e => 0 <= rd_deposit e.2) dreps'.
Proof.
  intros Hd Hall. assert (H1 : Forall (fun e => 0 <= e.2) (deposits_of dreps)) by (unfold deposits_of; by rewrite Forall_fmap).
  rewrite <- Hd in H1. unfold deposits_of in H1. by rewrite Forall_fmap in H1.
Qed.

Lemma registry_touched ctx st st' :
  registry_ok ctx st -> deposits_of (ct_dreps st') = deposits_of (ct_dreps st) ->
  ct_pools st' = ct_pools st -> ct_creds st' = ct_creds st -> ct_accounts st' = ct_accounts st ->
  key_deposits (ct_pot st') = key_deposits (ct_pot st) -> pool_deposits (ct_pot st') = pool_deposits (ct_pot st) ->
  drep_deposits (ct_pot st') = drep_deposits (ct_pot st) -> 0 <= proposal_deposits (ct_pot st') ->
  registry_ok ctx st'.
Proof.
  intros [(S1 & S2 & S3) Hc Hp Hd Ha Ho (E1 & E2 & E3 & _)] Hdeps Ep Ec Ea K1 K2 K3 K4.
  split; rewrite ?Ep, ?Ec, ?Ea; try done.
  - split_and!; [done|by eapply deposits_sorted|done].
  - eapply Forall_impl; [exact Hc|]. intros e [C1 C2 C3]. split; [done..|]. intros d Hb Hdel.
    rewrite (deposits_contains _ _ _ Hdeps). by apply C3.
  - by eapply deposits_nonneg.
  - split_and!; [congruence|congruence| |done]. by rewrite deposits_sum, Hdeps, <- deposits_sum, K3.
Qed.

Lemma touched_by_certs certs dreps epoch dormant bootstrap :
  deposits_of (touch_drep_activity_for_certs certs dreps epoch dormant bootstrap) = deposits_of dreps.
Proof.
  destruct certs as [certs|]; [|done]. cbn [touch_drep_activity_for_certs]. revert dreps.
  induction certs as [|c certs IH]; intros dreps; [done|]. cbn [foldl]. rewrite IH.
  destruct c; cbn [touch_drep]; try done; by apply deposits_alter.
Qed.
Lemma touched_by_votes procs epoch dormant bootstrap : forall actions dreps,
  let r := apply_conway_votes procs actions dreps epoch dormant bootstrap in
  deposits_of r.2 = deposits_of dreps /\ actions_owed r.1 = actions_owed actions.
Proof.
  assert (Hcast : forall v votes actions, actions_owed (cast_votes v votes actions) = actions_owed actions).
  { intros v votes. unfold cast_votes. induction votes as [|[i p] votes IH]; intros actions; [done|]. cbn [foldl].
    rewrite IH. unfold actions_owed. induction actions as [|[j s] actions IHa]; [done|]. cbn [bt_alter].
    destruct (key_eqb i j); rewrite !bt_sum_cons; [done|]. by rewrite IHa. }
  unfold apply_conway_votes. induction procs as [|[v votes] procs IH]; intros actions dreps; cbn [foldl]; [done|].
  match goal with |- context [foldl _ (?a, ?d) procs] => destruct (IH a d) as [H1 H2] end. rewrite H1, H2, Hcast.
  split; [|done]. destruct (voter_to_drep v); [|done]. by apply deposits_alter.
Qed.
Lemma touched_by_dormancy has dreps dormant epoch activity :
  deposits_of (update_dormant_drep_expiries has dreps dormant epoch activity).1 = deposits_of dreps.
Proof.
  unfold update_dormant_drep_expiries. destruct (_ || _); [done|]. cbn [fst]. apply deposits_map. intros r.
  repeat case_match; done.
Qed.

(** ** Proposals and votes *)

Lemma proposals_owed tx_id epoch creds pv deposit network es lifetime ps : forall k actions actions',
  0 <= k -> k + zlength ps <= 65536 ->
  validate_conway_proposals tx_id epoch creds pv deposit network es lifetime k ps actions = Ok actions' ->
  (forall i, k <= i -> bt_get (mkGovActionId tx_id i) actions = None) ->
  actions_owed actions' = actions_owed actions + lsum pp_deposit ps.
Proof.
  induction ps as [|p ps IH]; intros k actions actions' Hk Hlen Hv Hfresh; cbn [validate_conway_proposals] in Hv.
  { injection Hv as <-. change (lsum pp_deposit []) with 0. lia. }
  apply obind_Ok_inv in Hv as (_ & _ & Hv). rewrite zlength_cons in Hlen. pose proof (zlength_nonneg ps).
  assert (Hid : proposal_id tx_id k = mkGovActionId tx_id k).
  { unfold proposal_id, wrap16. by rewrite Z.mod_small by lia. }
  rewrite Hid in Hv. apply IH in Hv; [|lia|lia|].
  - rewrite Hv, lsum_cons. unfold actions_owed. rewrite fresh_insert_sum; [unfold deposit_of at 2; cbn [new_with_lifetime gs_proposal]; lia|].
    unfold bt_contains. by rewrite Hfresh by lia.
  - intros i Hi. rewrite bt_get_insert_ne; [apply Hfresh; lia|]. intros [= ->]. lia.
Qed.

Section balance.
Context `{Ed25519, PlutusCrypto}.

Definition cb_proposals (b : ConwayBody) : list ProposalProcedure := default [] (cb_proposal_procedures b).

Lemma governance_touches l tx dreps dormant actions' dreps' :
  conway_governance l tx dreps dormant = Ok (actions', dreps') ->
  zlength (cb_proposals (sx_body tx)) <= 65536 ->
  (forall i, bt_get (mkGovActionId (submitted_tx_id tx) i) (ls_governance_actions l) = None) ->
  deposits_of dreps' = deposits_of dreps /\
  actions_owed actions' = actions_owed (ls_governance_actions l) + lsum pp_deposit (cb_proposals (sx_body tx)).
Proof.
  unfold conway_governance, cb_proposals. intros Hg Hlen Hfresh.
  destruct (is_some _ || _ || _) eqn:Equiet.
  2:{ injection Hg as <- <-. destruct (cb_proposal_procedures _), (cb_voting_procedures _); try done.
      change (lsum pp_deposit (default [] None)) with 0. split; [done|lia]. }
  unfold conway_votes_and_proposals in Hg. cbv zeta in Hg. apply obind_Ok_inv in Hg as (gov & _ & Hg).
  apply obind_Ok_inv in Hg as (_ & _ & Hg). apply obind_Ok_inv in Hg as (actions1 & Hp & Hg).
  apply obind_Ok_inv in Hg as (_ & _ & Hg).
  assert (Howed : actions_owed actions1
    = actions_owed (ls_governance_actions l) + lsum pp_deposit (default [] (cb_proposal_procedures (sx_body tx)))).
  { destruct (cb_proposal_procedures (sx_body tx)) as [ps|]; cbn [default from_option id] in *.
    - eapply proposals_owed; [done| |exact Hp|by intros]. lia.
    - injection Hp as <-. change (lsum pp_deposit []) with 0. lia. }
  assert (Hremove : forall us acts, actions_owed (remove_conway_drep_votes us acts) = actions_owed acts).
  { intros us acts. destruct us; [done|]. by apply map_values_sum. }
  destruct (cb_voting_procedures (sx_body tx)) as [procs|].
  - pose proof (touched_by_votes procs (ls_current_epoch l) dormant
      (cx_bootstrap_phase (certificate_validation_context l)) actions1 dreps) as Ht. cbv zeta in Ht.
    destruct (apply_conway_votes _ _ _ _ _ _) as [cast dreps1]. cbn [fst snd] in Ht. injection Hg as <- <-.
    destruct Ht as [-> Ht]. by rewrite Hremove, Ht.
  - injection Hg as <- <-. by rewrite Hremove.
Qed.

(** ** The books *)

(** Everything a transaction can move. *)
Definition books (l : LedgerState) : Z :=
  utxo_total MultiEraTxOut_coin (ls_multi_era_utxo l) + pot_total (ls_deposit_pot l)
  + held (ls_reward_accounts l) + ls_utxos_donation l.
Definition registries (l : LedgerState) : CertState := staged_registries l (ls_drep_state l).

(** A state in order, and a transaction that is new to it with amounts in
    range. *)
Record submission_ready (l : LedgerState) (tx : SubmittedTx) : Prop := {
  sr_certs : certs_ready (certificate_validation_context l) (registries l) (default [] (cb_certificates (sx_body tx)));
  sr_proposals : Forall (fun p => 0 <= pp_deposit p) (cb_proposals (sx_body tx));
  sr_room : pot_total (ls_deposit_pot l)
    + lsum (cert_deposit (certificate_validation_context l)) (default [] (cb_certificates (sx_body tx)))
    + lsum pp_deposit (cb_proposals (sx_body tx)) <= U64_MAX;
  sr_donation : ls_utxos_donation l + default 0 (cw_treasury_donation (cb_core (sx_body tx))) <= U64_MAX;
  sr_utxo : fresh_id (ls_multi_era_utxo l) (submitted_tx_id tx);
  sr_actions : forall i, bt_get (mkGovActionId (submitted_tx_id tx) i) (ls_governance_actions l) = None;
  sr_counts : zlength (cb_outputs (sx_body tx)) <= 65536 /\ zlength (cb_proposals (sx_body tx)) <= 65536 }.

Record submission_settled (l l' : LedgerState) (tx : SubmittedTx) : Prop := {
  ss_books : books l' + cb_fee (sx_body tx) = books l;
  ss_registries : registry_ok (certificate_validation_context l') (registries l');
  ss_proposals : proposal_deposits (ls_deposit_pot l') - actions_owed (ls_governance_actions l')
    = proposal_deposits (ls_deposit_pot l) - actions_owed (ls_governance_actions l);
  ss_accounting : ls_accounting l' = ls_accounting l }.

Lemma proposal_deposits_exact ps : forall acc,
  Forall (fun p => 0 <= pp_deposit p) ps -> acc + lsum pp_deposit ps <= U64_MAX ->
  foldl sat_add acc (map pp_deposit ps) = acc + lsum pp_deposit ps.
Proof.
  induction ps as [|p ps IH]; intros acc Hall Hle; cbn [map foldl]; [change (lsum pp_deposit []) with 0; lia|].
  inversion Hall as [|? ? Hp Hps]; subst. rewrite lsum_cons in *.
  assert (0 <= lsum pp_deposit ps) by (clear -Hps; induction Hps; [apply Z.le_refl|rewrite lsum_cons; lia]).
  assert (E : sat_add acc (pp_deposit p) = acc + pp_deposit p) by (unfold sat_add; lia).
  rewrite E, IH by (done || lia). lia.
Qed.

Lemma staged_ready ctx l dreps certs :
  deposits_of dreps = deposits_of (ls_drep_state l) -> certs_ready ctx (registries l) certs ->
  certs_ready ctx (staged_registries l dreps) certs.
Proof.
  intros Hd [C1 C2 C3 C4 C5 C6]. split; try done. eapply registry_touched; [exact C3|done..|].
  destruct C3 as [_ _ _ _ _ _ (_ & _ & _ & Hp0)]. exact Hp0.
Qed.
Lemma donation_exact l donation donations :
  match donation with
  | Some d => if d =? 0 then Err ZeroDonation else Ok (sat_add (ls_utxos_donation l) d)
  | None => Ok (ls_utxos_donation l)
  end = Ok donations ->
  ls_utxos_donation l + default 0 donation <= U64_MAX -> donations = ls_utxos_donation l + default 0 donation.
Proof.
  destruct donation as [d|]; cbn [default from_option id]; [|intros [= <-]; lia].
  destruct (_ =? _); intros [= <-]. unfold sat_add. lia.
Qed.

(** Committing staged copies that balance. *)
Lemma commit_settles l tx ctx utxo st dreps donations actions dormant deposits :
  registry_ok ctx st -> deposits_of dreps = deposits_of (ct_dreps st) ->
  certificate_validation_context l = ctx -> proposal_deposits (ct_pot st) = proposal_deposits (ls_deposit_pot l) ->
  0 <= proposal_deposits (ls_deposit_pot l) + deposits <= U64_MAX ->
  actions_owed actions = actions_owed (ls_governance_actions l) + deposits ->
  utxo_total MultiEraTxOut_coin utxo + pot_total (ct_pot st) + deposits + held (ct_accounts st) + donations
    + cb_fee (sx_body tx) = books l ->
  submission_settled l (commit l utxo st dreps (add_proposal_deposit (ct_pot st) deposits) donations actions dormant) tx.
Proof.
  intros Hreg Hd <- Hp Hr Ho Hb. set (l' := commit _ _ _ _ _ _ _ _).
  assert (E : pot_total (ls_deposit_pot l') = pot_total (ct_pot st) + deposits /\
    proposal_deposits (ls_deposit_pot l') = proposal_deposits (ls_deposit_pot l) + deposits).
  { change (ls_deposit_pot l') with (add_proposal_deposit (ct_pot st) deposits).
    unfold pot_total, add_proposal_deposit. cbn. unfold sat_add. lia. }
  destruct E as [E1 E2]. split; [| | |done].
  - unfold books in *. rewrite E1. change (ls_multi_era_utxo l') with utxo. change (ls_reward_accounts l') with (ct_accounts st).
    change (ls_utxos_donation l') with donations. lia.
  - eapply registry_touched; [exact Hreg|exact Hd|done..|].
    change (ct_pot (registries l')) with (ls_deposit_pot l'). rewrite E2. lia.
  - change (ls_governance_actions l') with actions. rewrite E2, Ho. lia.
Qed.

Lemma transition_settles l tx slot l' :
  submission_ready l tx -> conway_transition l tx slot = Ok l' -> submission_settled l l' tx.
Proof.
  intros [Hcerts Hprop Hroom Hdon Hfresh Hact [Hout Hnum]] Ht. unfold conway_transition in Ht. cbv zeta in Ht.
  set (b := sx_body tx) in *. set (ctx := certificate_validation_context l) in *.
  set (act := default 0 (ls_protocol_params l ≫= drep_activity)) in Ht.
  pose proof (touched_by_dormancy (match cb_proposal_procedures b with Some (_ :: _) => true | _ => false end)
    (ls_drep_state l) (ls_num_dormant_epochs l) (ls_current_epoch l) act) as Hd0.
  destruct (update_dormant_drep_expiries _ _ _ _ _) as [dreps0 dormant]. cbn [fst] in Hd0.
  apply obind_Ok_inv in Ht as ([] & _ & Ht). apply obind_Ok_inv in Ht as ([actions dreps1] & Hg & Ht).
  apply governance_touches in Hg as [Hd1 Howed]; [|done|done]. fold b in Howed.
  apply obind_Ok_inv in Ht as ([st adj] & Hc & Ht). apply map_err_Ok_inv in Hc.
  assert (Hdep : 0 <= lsum pp_deposit (cb_proposals b))
    by (clear -Hprop; induction Hprop; [apply Z.le_refl|rewrite lsum_cons; lia]).
  assert (Hready : certs_ready ctx (staged_registries l dreps1) (default [] (cb_certificates b)))
    by (apply staged_ready; [congruence|done]).
  eapply ensures_inv in Hc; [|apply (certificates_settle_room _ _ _ _ _ _ _ _ _ (lsum pp_deposit (cb_proposals b)) Hready);
    [done|exact Hroom]].
  cbn [fst snd] in Hc. destruct Hc as ((Hreg & Hheld & Hpot & Hppot) & Hd2 & Hd3). cbn [ct_accounts ct_pot staged_registries] in *.
  pose proof (registry_pot_nonneg ctx _ (cr_key _ _ _ Hready) (cr_registry _ _ _ Hready)) as Hnn.
  cbn [ct_pot staged_registries] in Hnn.
  assert (Edep : proposal_deposits_of b = lsum pp_deposit (cb_proposals b)).
  { unfold proposal_deposits_of. rewrite proposal_deposits_exact; [done|done|]. unfold pot_total, cb_proposals in *. lia. }
  rewrite Edep in Ht.
  assert (Eadd : sat_add (adj_total_deposits adj) (lsum pp_deposit (cb_proposals b))
    = adj_total_deposits adj + lsum pp_deposit (cb_proposals b)).
  { unfold sat_add, pot_total in *. lia. }
  rewrite Eadd in Ht. apply obind_Ok_inv in Ht as (utxo & Hu & Ht). apply map_err_Ok_inv in Hu.
  apply obind_Ok_inv in Ht as (donations & Hdn & Ht). injection Ht as <-.
  change (apply_conway_tx_withdrawals ?u ?i ?c ?s ?w ?d ?r) with (apply_tx u i (Tx_Conway c) s w d r) in Hu.
  apply accepted in Hu as (Hnd & -> & Hbal & _). cbn [era_inputs era_outputs era_charge] in *.
  cbn [fst snd] in Hreg, Hheld, Hpot, Hppot. apply donation_exact in Hdn; [|done].
  eapply commit_settles; [exact Hreg|apply touched_by_certs|done|done|unfold pot_total in *; lia|exact Howed|].
  rewrite spend_and_create_total; [|done|done|by unfold cb_outputs, zlength in *; rewrite length_map].
  unfold books, cb_fee. fold b. lia.
Qed.

(** C4: an accepted submission keeps the books. The lovelace of outputs,
    deposit pot, reward accounts and pending donations drops by exactly the
    fee, whatever certificates, withdrawals, proposals, votes and donation the
    transaction carries; the registries stay consistent with the pot; the pot
    holds for the proposals exactly what it held beyond the deposits of the
    stored actions; treasury and reserves are untouched. The books are in order
    before and the amounts fit ([submission_ready]): the conditions of
    [certs_ready], room in the pot for the deposits of certificates and
    proposals, donations below [2^64], a transaction id that is new to outputs
    and actions, and at most [65536] outputs and proposals. *)
Theorem submission_keeps_books l tx slot evaluator l' :
  submission_ready l tx -> apply_submitted_tx l tx slot evaluator = (l', Ok tt) -> submission_settled l l' tx.
Proof.
  unfold apply_submitted_tx. intros Hready Hs. unfold adopt_scheduled_genesis_delegations in Hs.
  destruct (apply_scheduled_genesis_delegations _ _ _) as [g f].
  set (l1 := l <| ls_gen_delegs := g |> <| ls_future_gen_delegs := f |>) in Hs.
  destruct (conway_checks l1 tx slot evaluator) as [[]| | |]; cbn [obind] in Hs; try done.
  destruct (conway_transition l1 tx slot) as [l2| | |] eqn:Ht; simplify_eq.
  assert (Hready1 : submission_ready l1 tx).
  { destruct Hready as [[C1 C2 C3 C4 C5 C6] ? ? ? ? ? ?]. split; try done. split; try done.
    eapply registry_touched; [exact C3|done..|]. by destruct C3 as [_ _ _ _ _ _ (_ & _ & _ & Hp0)]. }
  by destruct (transition_settles l1 tx slot l' Hready1 Ht).
Qed.
End balance.

(** ** The submission of [SubmitFacts], run *)

Lemma submit_certs_ready :
  certs_ready (certificate_validation_context submit_ledger) (registries submit_ledger) [].
Proof.
  split; [closed_fact|closed_fact| |constructor|closed_fact|closed_fact].
  split; [split_and!; repeat constructor| |repeat constructor; closed_fact|constructor|repeat constructor; closed_fact
         |repeat constructor|split_and!; closed_fact || reflexivity].
  constructor; [|constructor]. split; [reflexivity| |discriminate]. intros p [= <-]. reflexivity.
Qed.

Lemma submit_ready : @submission_ready padded_crypto submit_ledger submit_tx.
Proof.
  split; [exact submit_certs_ready|repeat constructor; closed_fact|closed_fact|closed_fact| | |split; closed_fact].
  - intros i. unfold submit_ledger. cbn [ls_multi_era_utxo]. unfold set_field. cbn. by rewrite !lookup_insert_ne, lookup_empty.
  - intros i. reflexivity.
Qed.

Lemma submission_keeps_books_witness :
  let l' := fst (@apply_submitted_tx toy_ed padded_crypto submit_ledger submit_tx 10 None) in
  books l' + 1000001 = books submit_ledger /\
  proposal_deposits (ls_deposit_pot l') = 100000000005 /\
  registry_ok (certificate_validation_context l') (registries l').
Proof.
  destruct (@submission_keeps_books toy_ed padded_crypto submit_ledger submit_tx 10 None _ submit_ready submit_accepted)
    as [Hb Hr Hp _].
  split; [exact Hb|]. split; [vm_compute; reflexivity|exact Hr].
Defined.
